(* ===== verification/_CoqProject ===== *)
-Q . S2P
Prelude.v
BitUtils.v
Mapping.v
RingBuffers.v
Latency.v
SpscQueue.v
SpscQueueSpec.v
SpscTheorems.v
HashUtils.v
IndexFreeStack.v
LockFreeStack.v
LockFreeSpec.v
ObjectPools.v
TableInterface.v
HashMap.v
HashMapSpec.v
FixedHashMap.v
IntrusiveList.v
IntrusiveListSpec.v
ContainerTheorems.v
TimingWheel.v
TimingWheelSpec.v
TimingWheelTick.v
TimingWheelTheorems.v
FixedTimingWheel.v
TradingTypes.v
OrderBook.v
BookView.v
OrderBookRep.v
OrderBookCore.v
OrderBookSpec.v
Arena.v
BookBind.v
OrderBookTheorems.v
MatchingEngine.v
MatchSpec.v
MatchingTheorems.v
Endian.v
WireCursors.v
Protocol.v
ProtocolTotal.v
MarketData.v
MarketDataTheorems.v
Framing.v
ByteStream.v
OrderManager.v
OrderManagerSpec.v
OrderManagerResponses.v
OrderManagerTheorems.v
Startup.v
Strategy.v
StrategyTheorems.v
TcpSocket.v
TcpServer.v
TcpServerSpec.v
TcpServerTheorems.v
TcpConnection.v
OrderPath.v
StrategyPolicy.v
SpreadPolicy.v
StrategyThread.v
OrderPathSpec.v
StrategyMarket.v
StrategyRx.v
StrategyLink.v
ClientTheorems.v
ConnectionTheorems.v
WireTheorems.v
ExchangeCore.v
ExchangeSpec.v
ExchangeCorrect.v
ExchangeTheorems.v
ExchangeIpc.v
Logging.v
MdThread.v
ExchangeGateway.v
GatewaySpec.v
EngineSpec.v
ExchangePath.v
ExchangePathTheorems.v
