(* ===== verification/Prelude.v ===== *)
(** * A verification of the low-latency tick-to-trade system

    The repository is a pair of programs: a simulated exchange and a trading
    client, with the libraries both are built on.  Market data reaches the
    client; its strategy produces signals; the order manager checks them
    against the risk limits and turns them into messages; the messages are
    framed and sent over TCP; the exchange's gateway unpacks them and hands
    requests to the exchange core, which runs one matching engine over one
    limit order book per symbol and answers with events.  This development
    models the logic of that path, from the data structures up, and proves
    what makes each part correct.  Paths below are under [src/].

    ** Files, from the bottom up

    - [Prelude.v] (this file): machine integers, the option monad's
      reasoning, list and map lemmas, the tactics [mlia] and friends.
    - [BitUtils.v], [HashUtils.v]: [libs/sys/bit_utils.hpp],
      [libs/ds/hash_utils.hpp], [libs/sys/xorshift64.hpp].
    - [IndexFreeStack.v]: the pools of slot indices
      ([libs/ds/index_free_stack.hpp], [fixed_index_free_stack.hpp]), in the
      release and in the debug build.
    - [TableInterface.v]: the contract between a hash table and its clients,
      as type classes.  [HashMap.v] models [libs/ds/hash_map.hpp];
      [HashMapSpec.v] proves that it is a finite map and discharges the
      contract; [FixedHashMap.v] models [libs/ds/fixed_hash_map.hpp] and
      proves it equivalent.
    - [IntrusiveList.v], [IntrusiveListSpec.v]: [libs/ds/intrusive_list.hpp],
      field by field over a heap of hooks, and the sequences it implements.
    - [TimingWheel.v]: [libs/ds/timing_wheel.hpp]; [TimingWheelSpec.v],
      [TimingWheelTick.v] prove
      that it is a map of pending timers, re-entrant callbacks included;
      [FixedTimingWheel.v] models [libs/ds/fixed_timing_wheel.hpp] and proves
      it equivalent.
    - [TradingTypes.v], [OrderBook.v]: [libs/algo/trading_types.hpp],
      [libs/algo/order_book.hpp].  [BookView.v] is the abstract book (two
      ladders of queues); [OrderBookRep.v], [OrderBookCore.v],
      [OrderBookSpec.v] refine it.  [Arena.v]
      ([libs/sys/memory/arena_allocator.hpp]) and [BookBind.v] model the
      construction of a book in a caller's buffer.
    - [MatchingEngine.v]: [libs/algo/matching_engine.hpp]; [MatchSpec.v] is
      matching on ladders and the engine's refinement of it.
    - [Endian.v], [Protocol.v], [Framing.v]: [libs/sys/endian.hpp],
      [apps/shared/protocol.hpp] and [protocol_codec.hpp],
      [libs/net/message_codec.hpp], [length_prefix_codec.hpp],
      [packed_codec.hpp], the framers of [libs/net/tcp_server.hpp] and
      [apps/simulated_exchange/message_codec_framer.hpp].
    - [OrderManager.v]: [apps/tick_to_trade/order_manager.hpp] over the
      fields of [strategy_ctx.hpp] it uses; [OrderManagerSpec.v] (invariant
      and risk checks), [OrderManagerResponses.v] (responses and timeouts).
    - [ExchangeCore.v]: [apps/simulated_exchange/exchange_core.hpp] and
      [exchange_event.hpp]; [ExchangeSpec.v] and [ExchangeCorrect.v].
    - [SpscQueue.v]: [libs/sys/memory/spsc_queue.hpp] and
      [fixed_spsc_queue.hpp], one step per memory access, with the stores an
      acquire load may read as a choice; [SpscQueueSpec.v] is its invariant.
    - [LockFreeStack.v]: [libs/sys/memory/lock_free_stack.hpp], its intrusive
      variant and [single_thread_stack.hpp], under the same memory model;
      [LockFreeSpec.v] shows it linearizable.  [ObjectPools.v]:
      [single_thread_object_pool.hpp] and [concurrent_object_pool.hpp].
    - [MarketData.v]: [apps/simulated_exchange/market_data_publisher.hpp] and
      [apps/tick_to_trade/feed_handler.hpp]; [ProtocolTotal.v] shows that the
      decoders accept or refuse any bytes.
    - [Strategy.v]: [apps/tick_to_trade/spread_strategy.hpp];
      [StrategyPolicy.v] the interface of a strategy and what the client
      relies on, which [SpreadPolicy.v] discharges for the spread strategy.
    - [TcpSocket.v] ([libs/net/tcp_socket.hpp], and the kernel as an
      environment), [TcpConnection.v] ([apps/tick_to_trade/tcp_connection.hpp]),
      [OrderPath.v] ([order_send_handler.hpp], [order_response_handler.hpp]),
      [StrategyThread.v] ([strategy_thread.hpp]): the client's trading
      thread.  [ByteStream.v] says what messages a stream of bytes holds;
      [OrderPathSpec.v] what the two handlers do; [StrategyRx.v] the
      receive loop, [StrategyMarket.v] the market phase and its
      specification, [StrategyLink.v] the phases that cancel, beat and
      reconnect, and a kill switch that drains.
    - [ExchangeIpc.v] ([apps/simulated_exchange/exchange_engine_main.cpp],
      [shared_exchange_queue.hpp]) and [ExchangeGateway.v]
      ([exchange_gateway_main.cpp]): the exchange's processes.  A queue
      between processes is seen from its producer, which the FIFO theorem of
      [SpscTheorems.v] justifies.  [GatewaySpec.v] says
      what the gateway's two threads do message by message, [EngineSpec.v]
      how the engine routes the events of the core and what ranges they
      have, [ExchangePath.v] puts them together.
    - [TcpServer.v]: [libs/net/tcp_server.hpp], for any framer, handler and
      kernel; [TcpServerSpec.v] has the contract of a handler and the
      server's invariant.
    - [RingBuffers.v]: [libs/ds/ring_buffer.hpp], [fixed_ring_buffer.hpp];
      [Latency.v]: [fixed_latency_histogram.hpp], [fixed_latency_recorder.hpp]
      and [apps/tick_to_trade/latency_tracker.hpp], the recordings and the
      figures of the report; [WireCursors.v]: [libs/net/wire_writer.hpp],
      [wire_reader.hpp].
    - [Startup.v]: the carving of the threads' buffers
      ([apps/tick_to_trade/strategy_ctx.hpp], [md_ctx.hpp]) and the decisions
      of [main.cpp].  [MdThread.v]: [md_feed_thread.hpp], [md_types.hpp].
    - [Logging.v]: the entries of the asynchronous log, their text and the
      loop that writes them ([pipeline_log_entry.hpp],
      [pipeline_log_push.hpp], [pipeline_log_formatter.hpp],
      [libs/sys/log/async_drain_loop.hpp]), and the calibration of the time
      stamp counter ([libs/sys/nano_clock.hpp]).
    - [Mapping.v]: [libs/sys/memory/mmap_region.hpp] and [.cpp],
      [mmap_utils.hpp] and [.cpp], over a kernel of mappings, shared memory
      objects and descriptors.
    The files [*Theorems.v] state the properties of each part, with concrete
    instances on which the hypotheses hold; everything else is the library
    their proofs stand on.

    ** How state and operations correspond to the code

    A C++ object is a record whose fields are the object's fields; a method
    is a function from the old record (and its arguments) to the new one and
    its result, in the order of the source's statements.  A method that
    changes nothing returns no record.  [None] is a run of the source that
    leaves its defined behaviour or its documented contract: a failed
    [assert], a [std::abort], an index outside an array, a dereferenced null
    pointer.  A theorem that an operation returns [Some] says
    that this does not happen.  Pointers into a pool are slot indices; an
    intrusive list used by another component is the sequence of the slots it
    links, which [IntrusiveListSpec.v] justifies.  Calls through pointers
    and templates (hash functions, callbacks, framers) are arguments.
    A value read from the clock is an argument of the call that reads it.
    Unsigned integers are [Z] with the wrap of their width written where the
    source's operation may leave it.

    ** What is shown

    - Matching and books: the engine computes price-time priority matching on
      the abstract book, conserves quantity, never leaves a crossed book, and
      no call fails; books are built correctly in the buffer the source asks
      for, and can be emptied.
    - Exchange core: every handler's events and effects on every branch; a
      session cannot cancel another's orders, nor replace them except by
      trading with them, which is reported; the event buffer suffices; the
      search for a session id terminates; the identity tables stay paired
      while both have room, and an accepted order can lose its mapping when
      one is full.
    - Order manager: the seven checks in their order, an invariant over every
      admissible sequence of calls, the kill switch's life, timeouts,
      positions; the acknowledgement of a timed-out order's cancellation
      makes its count wrong, from every state; more limits on concrete runs.
    - Timing wheel: a finite map of timers, exact firing times, safety of
      re-entrant callbacks, one debug-build limit.
    - Wire formats: round trips, layouts, refusals, host independence.
    - Containers: the tables are finite maps with a documented refusal, the
      fixed table is the run-time table, the list is a sequence.
    - Queue between threads: a race-free bounded FIFO, wait-free on both
      sides, over every interleaving.
    - Stacks and pools: the lock-free stack is linearizable and lock-free
      under weak memory, each node has one owner; objects of a pool never
      overlap and run out exactly when all are taken.
    - Market data: what the client accepts from redundant feeds, counted
      exactly; the publisher's stream.
    - Strategy: its decisions as a function of the whole history of quotes.
    - Client: the market phase refines trading without a network, and an
      exchange reads exactly the approved requests; responses are delivered
      whatever the segmentation; the kill switch cancels what is tracked;
      reconnection follows its schedule and ends, however the attempts fail.
      Two defects are proved: the rest of a frame cut by the kernel is
      taken from the next one, so that the exchange reads what nobody sent,
      and a kill switch cut off by a disconnect never completes.
    - Exchange processes: a client's orders reach the engine whatever the
      segmentation, or are answered as throttled, or, without a session, are
      discarded; the first answer without room ends the receiving thread; every event of the core
      goes to the gateway of its session and nowhere else; the answers reach
      the client's stream whole and in order.  Together: what a client reads
      is the messages of exactly its events of the core's outcome.
    - TCP server: for any handler that keeps its contract and any kernel,
      the callbacks come in order, the payloads delivered are the frames of
      the bytes received, and what is queued is sent in order; waiting bytes
      are watched for.  Three uses of its API that it does not serve, on
      concrete runs.
    - Feed thread: every datagram handled once, in order, with its own
      timestamps; the buffers handed back to the kernel intact; the queue of
      the strategy, the tracker, the log and the counters as functions of the
      datagrams.
    - Start: the carved arrays fill their buffers exactly and overlap
      nowhere, and the order manager starts over them in its invariant; the
      decisions of the topology gate and of the signal handler are exact.
    - Log: the file interleaves the queues without loss or reordering, each
      line is whole and says what its entry says.
    - Latency: the figures reported are those of the samples, at ranks exact
      for the median and within one for the high percentiles.  Ring buffers
      are the window of the last values, cursors round trip, and the fixed
      timing wheel is the run-time wheel.
    - Memory regions: over every program of allocations, moves, releases and
      remappings, and whatever the kernel answers, no mapping leaks or is
      unmapped twice; an allocation policy's node, prefault and lock are in
      force or it fails, as its mode says.
    ** Bounds and fuel

    Only the traversals of the intrusive list ([clear], [to_list]) take fuel
    from their caller, and their theorems hold for every fuel above the
    list's length.  Elsewhere the bound is the source's own: a probe loop runs at most
    [capacity_] times, as in the source; the loops of [submit_order] run at
    most [MaxFills] times because every iteration that continues records a
    fill; a walk over a chain, a level or a bucket runs over at most as many
    nodes as the pool has, and reaching that bound is [None], which the
    theorems exclude.  [connect_loop] tries as many ids as its counter has
    values.  [split] runs over at most as many messages as there are bytes;
    the parse loop takes the number of buffered bytes, of which every message
    uses up at least a header; the receive loop takes the number of answers
    and bytes the kernel holds, of which every call uses up one.  The
    theorems show that these are enough.

    ** The kernel

    [TcpSocket.v] keeps in one record what the kernel will answer: to each
    [send] the room it finds or an error, to each [recv] the bytes waiting or
    an error, for the present connection and for those to come, and the
    readings of the clock; and what was handed over.  Theorems quantify over
    that record, so over every behaviour of the network.  A connection whose
    answers are used up finds nothing waiting and no room.

    ** What is not modelled

    UDP and listening sockets, socket options, descriptor ownership, and
    [epoll] beyond the events it reports; the placement of threads; the
    hardware clock beyond its readings; the variadic log to the standard
    error stream and the text of the reports; the replacement of the global
    [new] and [delete]; parsing flags and starting and joining threads in the
    [main] functions; the polling loop of the exchange's market data process.
    What they do is the operating system's or the language run-time's
    behaviour, or text for a human reader; the trading path depends on none
    of it beyond the calls modelled here.  Moves and swaps of containers are
    not separate definitions (of the ring buffer they are). *)
From stdpp Require Export base gmap list numbers option.
Local Open Scope Z_scope.

(** * Machine integers

    A C++ [std::uintN_t] is a [Z] kept in [0, 2^N); an operation of the
    source that may leave the range is followed by the wrap of its type.
    [std::int64_t] is the two's complement range. *)

Definition u8 (z : Z) : Z := z mod 2 ^ 8.
Definition u16 (z : Z) : Z := z mod 2 ^ 16.
Definition u32 (z : Z) : Z := z mod 2 ^ 32.
Definition u64 (z : Z) : Z := z mod 2 ^ 64.
Definition s64 (z : Z) : Z := (z + 2 ^ 63) mod 2 ^ 64 - 2 ^ 63.

Definition is_u8 (z : Z) : Prop := 0 <= z < 2 ^ 8.
Definition is_u16 (z : Z) : Prop := 0 <= z < 2 ^ 16.
Definition is_u32 (z : Z) : Prop := 0 <= z < 2 ^ 32.
Definition is_u64 (z : Z) : Prop := 0 <= z < 2 ^ 64.
Definition is_s64 (z : Z) : Prop := - 2 ^ 63 <= z < 2 ^ 63.

(** Linear arithmetic with the wraps unfolded and division eliminated. *)
Ltac mlia :=
  unfold is_u8, is_u16, is_u32, is_u64, is_s64, u8, u16, u32, u64, s64 in *;
  Z.div_mod_to_equations; lia.

Lemma u32_range z : is_u32 (u32 z).
Proof. mlia. Qed.
Lemma u64_range z : is_u64 (u64 z).
Proof. mlia. Qed.
Lemma u32_id z : is_u32 z → u32 z = z.
Proof. intros; mlia. Qed.
Lemma u64_id z : is_u64 z → u64 z = z.
Proof. intros; mlia. Qed.
Lemma s64_u64 z : is_s64 z → s64 (u64 z) = z.
Proof. intros; mlia. Qed.
Lemma u64_s64 z : is_u64 z → u64 (s64 z) = z.
Proof. intros; mlia. Qed.
Lemma s64_range z : is_s64 (s64 z).
Proof. mlia. Qed.
Lemma u32_add_l a b : u32 (u32 a + b) = u32 (a + b).
Proof. unfold u32. by rewrite Zplus_mod_idemp_l. Qed.

Lemma u32_mod_pow2 x e : 0 <= e <= 32 → u32 x mod 2 ^ e = x mod 2 ^ e.
Proof.
  intros He. unfold u32. apply Z.mod_mod_divide. exists (2 ^ (32 - e)).
  rewrite <- Z.pow_add_r by lia. f_equal. lia.
Qed.
Lemma u32_sub_l a b : u32 (u32 a - b) = u32 (a - b).
Proof. unfold u32. by rewrite Zminus_mod_idemp_l. Qed.

Create HintDb machine.
Create Rewrite HintDb machine.
#[export] Hint Resolve u32_range u64_range s64_range : machine.
#[export] Hint Rewrite u32_id u64_id s64_u64 u64_s64 using mlia : machine.

(** [x & (2^e - 1)] is the remainder by [2^e]: the masking every ring,
    wheel and table of the program uses in place of a division. *)
Lemma land_mask (x e : Z) : 0 <= e → Z.land x (2 ^ e - 1) = x mod 2 ^ e.
Proof. intros He. rewrite <- Z.land_ones by lia. by rewrite Z.ones_equiv, Z.sub_1_r. Qed.

(** A value in the low bits is added by [or]. *)
Lemma lor_disjoint a b m : 0 <= m → 0 <= b < 2 ^ m → Z.lor (a * 2 ^ m) b = a * 2 ^ m + b.
Proof.
  intros Hm Hb. symmetry. rewrite Z.add_nocarry_lxor, Z.lxor_lor; [done | |];
    rewrite <- Z.shiftl_mul_pow2 by lia; apply Z.bits_inj'; intros n Hn;
    rewrite Z.land_spec, Z.bits_0, Z.shiftl_spec by lia;
    (destruct (decide (n < m)) as [Hlt | Hge];
     [by rewrite (Z.testbit_neg_r a) by lia |]; apply andb_false_iff; right;
     destruct (decide (b = 0)) as [-> | Hnz]; [apply Z.bits_0 |];
     apply Z.bits_above_log2; [lia |]; assert (Z.log2 b < m) by (apply Z.log2_lt_pow2; lia); lia).
Qed.

(** * Failure

    [None] at the type [option A] of a computation stands for
    [std::abort], a failed [assert] or an access outside an object: the
    behaviours a correct run must not have.  A C++ [std::optional] or a
    nullable pointer that is data is an [option] inside it. *)

Definition abort {A : Type} : option A := None.
Definition assertM (b : bool) : option unit := if b then Some tt else None.

(** Signed 64-bit arithmetic: overflow is undefined. *)
Definition check_s64 (z : Z) : option Z :=
  if bool_decide (- 2 ^ 63 <= z < 2 ^ 63) then Some z else None.

Lemma check_s64_ok z : is_s64 z → check_s64 z = Some z.
Proof. intros Hz. unfold check_s64. by rewrite bool_decide_true. Qed.

Lemma bind_inv {A B : Type} (e : option A) (k : A → option B) (y : B) :
  e ≫= k = Some y → ∃ x, e = Some x ∧ k x = Some y.
Proof. destruct e; naive_solver. Qed.

Lemma assertM_inv b u : assertM b = Some u → b = true.
Proof. by destruct b. Qed.

(** Decomposes a hypothesis [x ← e; k = Some y] into its steps. *)
Ltac inv_bind H :=
  let x := fresh "r" in let E := fresh "E" in let K := fresh "K" in
  apply bind_inv in H; destruct H as (x & E & K).

(** * Arrays indexed by machine integers *)

Definition getZ {A : Type} (l : list A) (i : Z) : option A :=
  if bool_decide (i < 0) then None else l !! Z.to_nat i.

Definition setZ {A : Type} (l : list A) (i : Z) (x : A) : list A :=
  <[Z.to_nat i := x]> l.

(** A store through a pointer or subscript: failure outside the array. *)
Definition storeZ {A : Type} (l : list A) (i : Z) (x : A) : option (list A) :=
  if bool_decide (0 <= i < Z.of_nat (length l)) then Some (setZ l i x) else None.

Declare Scope array_scope.
Delimit Scope array_scope with array.
Notation "l .[ i ]" := (getZ l i) (at level 1, left associativity, format "l .[ i ]") : array_scope.
Notation "l .[ i <- x ]" := (setZ l i x) (at level 1, left associativity, format "l .[ i  <-  x ]") : array_scope.
Abbreviation lenZ l := (Z.of_nat (length l)).

Section Arrays.
Local Open Scope array_scope.
Context {A : Type}.
Implicit Types (l : list A) (i j : Z) (x y : A).

Lemma getZ_Some l i x : l.[i] = Some x → 0 <= i < lenZ l.
Proof.
  unfold getZ. case_bool_decide; [done |]. intros Hx%lookup_lt_Some. lia.
Qed.

Lemma getZ_is_Some l i : 0 <= i < lenZ l → is_Some (l.[i]).
Proof. intros Hi. unfold getZ. case_bool_decide; [lia |]. apply lookup_lt_is_Some. lia. Qed.

Lemma getZ_nat l (n : nat) : l.[Z.of_nat n] = l !! n.
Proof. unfold getZ. case_bool_decide; [lia |]. by rewrite Nat2Z.id. Qed.

Lemma getZ_of_lookup l n x : l !! n = Some x → l.[Z.of_nat n] = Some x.
Proof. by rewrite getZ_nat. Qed.

Lemma getZ_to_lookup l i x : l.[i] = Some x → l !! Z.to_nat i = Some x.
Proof. unfold getZ. by case_bool_decide. Qed.

Lemma getZ_app_l l k i : i < lenZ l → (l ++ k).[i] = l.[i].
Proof. intros Hi. unfold getZ. case_bool_decide; [done |]. apply lookup_app_l. lia. Qed.

Lemma getZ_snoc l x : (l ++ [x]).[lenZ l] = Some x.
Proof. rewrite getZ_nat. by rewrite lookup_app_r, Nat.sub_diag. Qed.

Lemma take_snocZ l i x : l.[i] = Some x → take (Z.to_nat (i + 1)) l = take (Z.to_nat i) l ++ [x].
Proof.
  intros Hx. pose proof (getZ_Some _ _ _ Hx). apply getZ_to_lookup in Hx.
  rewrite <- (take_S_r _ _ _ Hx). f_equal. lia.
Qed.

Lemma length_setZ l i x : length (l.[i <- x]) = length l.
Proof. apply length_insert. Qed.

Lemma getZ_setZ_eq l i x : 0 <= i < lenZ l → l.[i <- x].[i] = Some x.
Proof.
  intros Hi. unfold getZ, setZ. case_bool_decide; [lia |].
  apply list_lookup_insert_eq. lia.
Qed.

Lemma getZ_setZ_ne l i j x : 0 <= i → i ≠ j → l.[i <- x].[j] = l.[j].
Proof.
  intros Hi Hij. unfold getZ, setZ. case_bool_decide; [done |].
  apply list_lookup_insert_ne. lia.
Qed.

Lemma getZ_setZ l i j x :
  0 <= i < lenZ l → l.[i <- x].[j] = if decide (i = j) then Some x else l.[j].
Proof.
  intros Hi. destruct (decide (i = j)) as [<- | Hij].
  - by apply getZ_setZ_eq.
  - apply getZ_setZ_ne; lia.
Qed.

Lemma setZ_setZ l i x y : l.[i <- x].[i <- y] = l.[i <- y].
Proof. apply list_insert_insert_eq. Qed.

Lemma setZ_same l i x : l.[i] = Some x → l.[i <- x] = l.
Proof. intros H. apply list_insert_id. by apply getZ_to_lookup. Qed.

Lemma storeZ_Some l i x :
  0 <= i < lenZ l → storeZ l i x = Some (l.[i <- x]).
Proof. intros Hi. unfold storeZ. by rewrite bool_decide_true. Qed.

Lemma storeZ_inv l i x l' :
  storeZ l i x = Some l' → 0 <= i < lenZ l ∧ l' = l.[i <- x].
Proof. unfold storeZ. case_bool_decide; naive_solver. Qed.

Lemma list_eq_getZ l l' :
  length l = length l' → (∀ i, 0 <= i < lenZ l → l.[i] = l'.[i]) → l = l'.
Proof.
  intros Hlen Hget. apply list_eq_same_length with (length l); [done..|].
  intros n x y Hn Hx Hy.
  specialize (Hget (Z.of_nat n) ltac:(lia)).
  rewrite !getZ_nat in Hget. congruence.
Qed.
End Arrays.

#[export] Hint Rewrite @length_setZ : machine.

(** * Counting the elements of an array that satisfy a test *)

Definition b2z (b : bool) : Z := if b then 1 else 0.

Definition countZ {A : Type} (f : A → bool) (l : list A) : Z :=
  foldr (λ x n, b2z (f x) + n) 0 l.

Section Counting.
Context {A : Type} (f : A → bool).
Implicit Types (l : list A).

Lemma countZ_app l l' : countZ f (l ++ l') = countZ f l + countZ f l'.
Proof. unfold countZ. induction l; simpl; lia. Qed.

Lemma countZ_bounds l : 0 <= countZ f l <= lenZ l.
Proof. induction l; simpl; [lia |]. unfold b2z. case_match; lia. Qed.

Lemma countZ_insert l (n : nat) x y :
  l !! n = Some y → countZ f (<[n := x]> l) = countZ f l - b2z (f y) + b2z (f x).
Proof.
  revert n. induction l as [| a l IH]; intros [| n] Hn; simplify_eq/=; [lia |].
  rewrite (IH n) by done. lia.
Qed.

Lemma countZ_setZ l i x y :
  getZ l i = Some y → countZ f (setZ l i x) = countZ f l - b2z (f y) + b2z (f x).
Proof. intros Hy%getZ_to_lookup. by apply countZ_insert. Qed.

Lemma countZ_zero l : countZ f l = 0 ↔ (∀ x, x ∈ l → f x = false).
Proof.
  induction l as [| a l IH]; simpl.
  - split; [by intros _ x ?%elem_of_nil | done].
  - pose proof (countZ_bounds l). unfold b2z. case_match eqn:Ha.
    + split; [lia |]. intros Hf. specialize (Hf a ltac:(left)). congruence.
    + rewrite Z.add_0_l, IH. setoid_rewrite elem_of_cons. naive_solver.
Qed.

(** Pointwise equal tests count the same. *)
Lemma countZ_pointwise l l' :
  length l' = length l →
  (∀ i x, getZ l i = Some x → ∃ x', getZ l' i = Some x' ∧ f x' = f x) → countZ f l' = countZ f l.
Proof.
  revert l'. induction l as [| a l IH]; intros [| b l'] Hlen Hf; simplify_eq/=; [done |].
  assert (f b = f a) as ->.
  { destruct (Hf 0 a) as (x & Hx & <-); [done |]. by injection Hx as ->. }
  f_equal. apply IH; [done |]. intros i x Hx. unfold getZ in Hx. case_bool_decide; [done |].
  destruct (Hf (i + 1) x) as (x' & Hx' & Hfx).
  - unfold getZ. rewrite bool_decide_false by lia. by replace (Z.to_nat (i + 1)) with (S (Z.to_nat i)) by lia.
  - exists x'. split; [| done]. unfold getZ in *. rewrite bool_decide_false in Hx' by lia.
    rewrite bool_decide_false by lia. by replace (Z.to_nat (i + 1)) with (S (Z.to_nat i)) in Hx' by lia.
Qed.

(** Fewer satisfying elements than elements: one does not satisfy. *)
Lemma countZ_lt_witness l :
  countZ f l < lenZ l → ∃ (n : nat) x, l !! n = Some x ∧ f x = false.
Proof.
  induction l as [| a l IH]; simpl; [lia |]. unfold b2z. destruct (f a) eqn:Ha.
  - intros Hlt. destruct IH as (n & x & Hn & Hx); [lia |]. by exists (S n), x.
  - intros _. by exists 0%nat, a.
Qed.

Lemma countZ_full l : countZ f l = lenZ l → ∀ x, x ∈ l → f x = true.
Proof.
  induction l as [| a l IH]; simpl; [by intros _ x ?%elem_of_nil |].
  pose proof (countZ_bounds l). unfold b2z. case_match eqn:Ha; [| lia].
  intros Hl x [-> | Hx]%elem_of_cons; [done |]. apply IH; [lia | done].
Qed.
End Counting.

(** * Lists without duplicates *)

Lemma nodup_cons {A : Type} (x : A) (l : list A) : NoDup (x :: l) ↔ x ∉ l ∧ NoDup l.
Proof. apply list.NoDup_cons. Qed.

Lemma nodup_app {A : Type} (l k : list A) :
  NoDup (l ++ k) ↔ NoDup l ∧ (∀ x, x ∈ l → x ∉ k) ∧ NoDup k.
Proof. apply list.NoDup_app. Qed.

(** Monotonicity of [Forall2], with membership available. *)
Lemma Forall2_impl_in {A B : Type} (R R' : A → B → Prop) (l : list A) (k : list B) :
  (∀ a b, a ∈ l → b ∈ k → R a b → R' a b) → Forall2 R l k → Forall2 R' l k.
Proof.
  intros Hi H. induction H as [| a b l k Hab H IH]; constructor.
  - apply Hi; [left | left | done].
  - apply IH. intros a' b' Ha' Hb'. apply Hi; by right.
Qed.
