(* ===== verification/BitUtils.v ===== *)
(** Alignment and power-of-two arithmetic ([src/libs/sys/bit_utils.hpp]).

    [std::size_t] operands are [Z] in [0, 2^64).  The C++20 branch of the
    two power-of-two functions calls [std::has_single_bit] and
    [std::bit_ceil]; the file documents the fallback bodies as their
    meaning, and the fallback bodies are what is modelled. *)
From S2P Require Import Prelude.
Local Open Scope Z_scope.

Definition align_up (value alignment : Z) : Z :=
  Z.land (u64 (value + alignment - 1)) (u64 (Z.lnot (alignment - 1))).

Definition align_down (value alignment : Z) : Z :=
  Z.land value (u64 (Z.lnot (alignment - 1))).

Definition is_aligned (addr alignment : Z) : bool :=
  bool_decide (Z.land addr (alignment - 1) = 0).

Definition is_power_of_two (n : Z) : bool :=
  negb (bool_decide (n = 0)) && bool_decide (Z.land n (n - 1) = 0).

(** [__builtin_clz] on a non-zero 32-bit operand. *)
Definition builtin_clz (n : Z) : Z := 31 - Z.log2 n.

(** [None]: the shift amount reaches the width of [1U], which is undefined
    (the source notes the same for [std::bit_ceil]). *)
Definition round_up_pow2 (n : Z) : option Z :=
  if bool_decide (n <= 1) then Some 1
  else
    let amount := 32 - builtin_clz (n - 1) in
    if bool_decide (amount < 32) then Some (u32 (Z.shiftl 1 amount)) else None.

(** * Powers of two *)

(** Subtracting one flips exactly the bits below the lowest set bit. *)
Lemma land_pred_pow2 e : 0 <= e → Z.land (2 ^ e) (2 ^ e - 1) = 0.
Proof. intros He. rewrite land_mask by done. apply Z.mod_same. lia. Qed.

(** A number that is not a power of two shares its top bit with its
    predecessor. *)
Lemma land_pred_top n :
  0 < n → n ≠ 2 ^ Z.log2 n → Z.land n (n - 1) ≠ 0.
Proof.
  intros Hn Hne Hz.
  pose proof (Z.log2_spec n Hn) as [Hlo Hhi].
  assert (Z.log2 (n - 1) = Z.log2 n) as Hlog.
  { apply Z.log2_unique; [apply Z.log2_nonneg | lia]. }
  assert (Z.testbit (Z.land n (n - 1)) (Z.log2 n) = true) as Hb.
  { rewrite Z.land_spec, Z.bit_log2 by done. rewrite <- Hlog, Z.bit_log2; [done |].
    assert (0 < 2 ^ Z.log2 n) by (apply Z.pow_pos_nonneg; [lia | apply Z.log2_nonneg]). lia. }
  by rewrite Hz, Z.bits_0 in Hb.
Qed.

Lemma is_power_of_two_iff n :
  0 <= n → is_power_of_two n = true ↔ ∃ e, 0 <= e ∧ n = 2 ^ e.
Proof.
  intros Hn. unfold is_power_of_two.
  rewrite andb_true_iff, negb_true_iff, bool_decide_eq_false, bool_decide_eq_true.
  split.
  - intros [Hne Hl]. exists (Z.log2 n). split; [apply Z.log2_nonneg |].
    destruct (decide (n = 2 ^ Z.log2 n)) as [| Hp]; [done |].
    by apply land_pred_top in Hp; [| lia].
  - intros (e & He & ->). split; [| by apply land_pred_pow2].
    assert (0 < 2 ^ e) by (by apply Z.pow_pos_nonneg). lia.
Qed.

(** * Alignment *)

Lemma lnot_mask_u64 e : 0 <= e <= 64 → u64 (Z.lnot (2 ^ e - 1)) = 2 ^ 64 - 2 ^ e.
Proof.
  intros He. unfold u64, Z.lnot.
  assert (2 ^ e <= 2 ^ 64) by (apply Z.pow_le_mono_r; lia).
  assert (0 < 2 ^ e) by (apply Z.pow_pos_nonneg; lia).
  rewrite <- (Z.mod_add _ 1) by lia. rewrite Z.mod_small; lia.
Qed.

Lemma ldiff_ones_ones e m : 0 <= e <= m → Z.ldiff (Z.ones e) (Z.ones m) = 0.
Proof.
  intros He. apply Z.bits_inj'. intros n Hn.
  rewrite Z.ldiff_spec, Z.bits_0, !Z.testbit_ones_nonneg by lia.
  destruct (Z.ltb_spec n e), (Z.ltb_spec n m); simpl; try done; lia.
Qed.

Lemma land_high_mask x e :
  0 <= x < 2 ^ 64 → 0 <= e <= 64 → Z.land x (2 ^ 64 - 2 ^ e) = x - x mod 2 ^ e.
Proof.
  intros Hx He.
  assert (2 ^ 64 - 2 ^ e = Z.ones 64 - Z.ones e) as ->.
  { rewrite !Z.ones_equiv. lia. }
  rewrite (Z.sub_nocarry_ldiff (Z.ones 64)) by (apply ldiff_ones_ones; lia).
  assert (x = Z.land x (Z.ones 64)) as Hx64.
  { rewrite Z.land_ones by lia. by rewrite Z.mod_small. }
  rewrite Hx64 at 2 3. rewrite <- (Z.land_ones _ e) by lia.
  rewrite Z.sub_nocarry_ldiff.
  - apply Z.bits_inj'. intros n Hn.
    rewrite !Z.land_spec, !Z.ldiff_spec, !Z.land_spec.
    destruct (Z.testbit x n), (Z.testbit (Z.ones 64) n), (Z.testbit (Z.ones e) n); done.
  - apply Z.bits_inj'. intros n Hn.
    rewrite Z.ldiff_spec, !Z.land_spec, Z.bits_0.
    destruct (Z.testbit x n), (Z.testbit (Z.ones 64) n), (Z.testbit (Z.ones e) n); done.
Qed.

(** [align_up] is the least multiple of the alignment that is not below the
    value, when rounding does not leave the range of [size_t]. *)
Lemma align_up_eq v e :
  0 <= v → 0 <= e <= 63 → v + 2 ^ e - 1 < 2 ^ 64 →
  align_up v (2 ^ e) = (v + 2 ^ e - 1) - (v + 2 ^ e - 1) mod 2 ^ e.
Proof.
  intros Hv He Hb. unfold align_up.
  assert (0 < 2 ^ e) by (apply Z.pow_pos_nonneg; lia).
  rewrite u64_id by mlia. rewrite lnot_mask_u64 by lia.
  apply land_high_mask; lia.
Qed.

Lemma align_up_spec v e :
  0 <= v → 0 <= e <= 63 → v + 2 ^ e - 1 < 2 ^ 64 →
  v <= align_up v (2 ^ e) < v + 2 ^ e ∧ align_up v (2 ^ e) mod 2 ^ e = 0 ∧
  ∀ m, v <= m → m mod 2 ^ e = 0 → align_up v (2 ^ e) <= m.
Proof.
  intros Hv He Hb. rewrite align_up_eq by done.
  assert (0 < 2 ^ e) as Hp by (apply Z.pow_pos_nonneg; lia).
  set (a := 2 ^ e) in *. clearbody a.
  pose proof (Z.mod_pos_bound (v + a - 1) a Hp).
  pose proof (Z.div_mod (v + a - 1) a ltac:(lia)) as Hd.
  assert ((v + a - 1) - (v + a - 1) mod a = a * ((v + a - 1) / a)) as Hq by lia.
  rewrite Hq. repeat split; [lia | lia | by rewrite Z.mul_comm, Z.mod_mul by lia |].
  intros m Hm Hm0. apply Z.div_exact in Hm0; [| lia].
  rewrite Hm0. apply Z.mul_le_mono_nonneg_l; [lia |].
  enough ((v + a - 1) / a < m / a + 1) by lia.
  apply Z.div_lt_upper_bound; [lia |]. lia.
Qed.

(** * Rounding to a power of two *)

(** [round_up_pow2] is the least power of two not below its operand, and is
    defined on every operand up to 2^31. *)
Lemma round_up_pow2_spec n :
  0 <= n <= 2 ^ 31 →
  ∃ e, 0 <= e <= 31 ∧ round_up_pow2 n = Some (2 ^ e) ∧ n <= 2 ^ e ∧
    ∀ e', 0 <= e' → n <= 2 ^ e' → 2 ^ e <= 2 ^ e'.
Proof.
  intros Hn. unfold round_up_pow2, builtin_clz. case_bool_decide as Hle.
  - exists 0. repeat split; [lia.. |]. intros e' He' _. apply Z.pow_le_mono_r; lia.
  - pose proof (Z.log2_spec (n - 1) ltac:(lia)) as [Hlo Hhi].
    pose proof (Z.log2_nonneg (n - 1)).
    assert (Z.log2 (n - 1) < 31) as Hl by (apply Z.log2_lt_pow2; lia).
    exists (Z.succ (Z.log2 (n - 1))).
    replace (32 - (31 - Z.log2 (n - 1))) with (Z.succ (Z.log2 (n - 1))) by lia.
    rewrite bool_decide_true by lia.
    rewrite Z.shiftl_1_l, u32_id.
    + repeat split; [lia.. |]. intros e' He' Hn'. apply Z.pow_le_mono_r; [lia |].
      assert (Z.log2 (n - 1) < e') by (apply Z.log2_lt_pow2; lia). lia.
    + split; [apply Z.pow_nonneg; lia |]. apply Z.pow_lt_mono_r; lia.
Qed.

(** Above 2^31 the shift amount is 32 and the result is undefined. *)
Lemma round_up_pow2_undefined n : 2 ^ 31 < n < 2 ^ 32 → round_up_pow2 n = None.
Proof.
  intros Hn. unfold round_up_pow2, builtin_clz. rewrite bool_decide_false by lia.
  assert (Z.log2 (n - 1) = 31) as -> by (apply Z.log2_unique; lia). done.
Qed.
