(* ===== verification/Mapping.v ===== *)
(** Memory regions: [src/libs/sys/memory/mmap_region.hpp] and
    [mmap_region.cpp] (the owning handle and its factories),
    [mmap_utils.hpp] and [mmap_utils.cpp] (mapping policies).

    The kernel is a record: the mappings of the process, the shared memory
    objects, the open descriptors, the bytes the program stored while
    touching pages, and what the next system calls will answer.  A call
    takes the next answer; an answer that the documentation of the call rules
    out (an address in use, a success on an absent object) counts as a
    failure.  [munmap] of a whole mapping succeeds.  Of anything else it is
    made to fail, upon which the source aborts ([None]); a real kernel may let
    an address without a mapping pass, so that no double unmapping goes
    unnoticed here.  Left out are [protect], the advice other than that on
    huge pages, and the messages written to the log. *)
From stdpp Require Import gmap.
From S2P Require Import Prelude.
From S2P Require Import BitUtils.
Local Open Scope Z_scope.

(** * The kernel *)

Module Kernel.
(** Flags of [mmap] and errors, as on Linux. *)
Definition PROT_READ : Z := 1.
Definition PROT_WRITE : Z := 2.
Definition MAP_PRIVATE : Z := 2.
Definition MAP_ANONYMOUS : Z := 32.
Definition MAP_LOCKED : Z := 8192.
Definition MAP_POPULATE : Z := 32768.
Definition MAP_HUGETLB : Z := 262144.
Definition MAP_HUGE_SHIFT : Z := 26.
Definition EBADF : Z := 9.
Definition ENOMEM : Z := 12.
Definition EINVAL : Z := 22.

Inductive Backing : Set := Anonymous (page : Z) | SharedObject (name : list Z) | FileBacked (fd offset : Z).

(** [mp_policy] is the node set by [mbind]; [mp_touched] the node under which
    pages were first faulted, once some may have been; [mp_resident] that all
    have. *)
Record Mapping : Set := {
  mp_size : Z;
  mp_backing : Backing;
  mp_writable : bool;
  mp_shared : bool;
  mp_locked : bool;
  mp_policy : option Z;
  mp_touched : option (option Z);
  mp_resident : bool;
  mp_hugepage : bool;
}.

Inductive Descriptor : Set := ShmFd (name : list Z) | FileFd (size : Z) (regular : bool).
Inductive Answer : Set := Done (v : Z) | Error (e : Z).

Record Kernel : Set := {
  live : gmap Z Mapping;
  objects : gmap (list Z) Z;
  fds : gmap Z Descriptor;
  stores : list Z;
  answers : list Answer;
}.
Implicit Types k : Kernel.

Definition with_live k m : Kernel := {| live := m; objects := objects k; fds := fds k; stores := stores k; answers := answers k |}.
Definition with_stores k s : Kernel := {| live := live k; objects := objects k; fds := fds k; stores := s; answers := answers k |}.

Definition next k : Answer * Kernel :=
  match answers k with
  | a :: rest => (a, {| live := live k; objects := objects k; fds := fds k; stores := stores k; answers := rest |})
  | [] => (Error 0, k)
  end.

Definition backing_of k (flags fd offset : Z) : option Backing :=
  if Z.testbit flags 5 then Some (Anonymous (if Z.testbit flags 18 then 2 ^ Z.land (Z.shiftr flags MAP_HUGE_SHIFT) 63 else 4096))
  else match fds k !! fd with Some (ShmFd n) => Some (SharedObject n) | Some (FileFd _ _) => Some (FileBacked fd offset) | None => None end.

Definition new_mapping (size prot flags : Z) (b : Backing) : Mapping :=
  {| mp_size := size; mp_backing := b; mp_writable := Z.testbit prot 1; mp_shared := Z.testbit flags 0; mp_locked := Z.testbit flags 13;
     mp_policy := None; mp_touched := if Z.testbit flags 15 || Z.testbit flags 13 then Some None else None; mp_resident := false; mp_hugepage := false |}.

(** [None] is [MAP_FAILED]. *)
Definition mmap k (size prot flags fd offset : Z) : Kernel * option Z :=
  let '(a, k) := next k in
  match a, backing_of k flags fd offset with
  | Done a, Some b =>
      if bool_decide (0 < size) && bool_decide (0 <= a) && bool_decide (a + size <= 2 ^ 63) && bool_decide (live k !! a = None)
      then (with_live k (<[a := new_mapping size prot flags b]> (live k)), Some a)
      else (k, None)
  | _, _ => (k, None)
  end.

Definition munmap k (a size : Z) : Kernel * bool :=
  match live k !! a with
  | Some m => if bool_decide (mp_size m = size) then (with_live k (delete a (live k)), true) else (k, false)
  | None => (k, false)
  end.

(** A call that acts on a whole mapping; the error if it fails. *)
Definition on_mapping k (a size : Z) (f : Mapping → Mapping) : Kernel * option Z :=
  let '(r, k) := next k in
  match r, live k !! a with
  | Error e, _ => (k, Some e)
  | Done _, Some m => if bool_decide (mp_size m = size) then (with_live k (<[a := f m]> (live k)), None) else (k, Some ENOMEM)
  | Done _, None => (k, Some ENOMEM)
  end.

(** Every page is faulted; those that were not yet, under the policy set. *)
Definition fault (m : Mapping) : Mapping :=
  {| mp_size := mp_size m; mp_backing := mp_backing m; mp_writable := mp_writable m; mp_shared := mp_shared m; mp_locked := mp_locked m; mp_policy := mp_policy m;
     mp_touched := match mp_touched m with Some n => Some n | None => Some (mp_policy m) end; mp_resident := true; mp_hugepage := mp_hugepage m |}.
Definition set_locked (b : bool) (m : Mapping) : Mapping :=
  {| mp_size := mp_size m; mp_backing := mp_backing m; mp_writable := mp_writable m; mp_shared := mp_shared m; mp_locked := b; mp_policy := mp_policy m;
     mp_touched := mp_touched m; mp_resident := mp_resident m; mp_hugepage := mp_hugepage m |}.
Definition set_policy (n : Z) (m : Mapping) : Mapping :=
  {| mp_size := mp_size m; mp_backing := mp_backing m; mp_writable := mp_writable m; mp_shared := mp_shared m; mp_locked := mp_locked m; mp_policy := Some n;
     mp_touched := mp_touched m; mp_resident := mp_resident m; mp_hugepage := mp_hugepage m |}.
Definition set_hugepage (m : Mapping) : Mapping :=
  {| mp_size := mp_size m; mp_backing := mp_backing m; mp_writable := mp_writable m; mp_shared := mp_shared m; mp_locked := mp_locked m; mp_policy := mp_policy m;
     mp_touched := mp_touched m; mp_resident := mp_resident m; mp_hugepage := true |}.





Definition store k (a : Z) : Kernel := with_stores k (stores k ++ [a]).
End Kernel.

(** * Regions *)

Module Region.
Import Kernel.

Definition MAP_FAILED : Z := 2 ^ 64 - 1.
Definition kPageSize4K : Z := 4096.
Definition kHugePageSize2MB : Z := 2 * 1024 * 1024.
Definition kHugePageSize1GB : Z := 1024 * 1024 * 1024.
Definition MAP_HUGE_2MB : Z := Z.shiftl 21 MAP_HUGE_SHIFT.
Definition MAP_HUGE_1GB : Z := Z.shiftl 30 MAP_HUGE_SHIFT.

Inductive PrefaultPolicy : Set := kNone | kPopulateWrite | kPopulateRead | kManualWrite | kManualRead.
Inductive HugePageSize : Set := k2MB | k1GB.
#[export] Instance PrefaultPolicy_eq_dec : EqDecision PrefaultPolicy.
Proof. solve_decision. Defined.

Record MmapRegion : Set := { addr_ : Z; size_ : Z }.
Implicit Types (k : Kernel) (r : MmapRegion).

Definition is_valid r : bool := negb (bool_decide (addr_ r = MAP_FAILED)).
Definition get r : Z := if is_valid r then addr_ r else 0.

Definition destroy k r : option Kernel :=
  if is_valid r then let '(k, ok) := munmap k (addr_ r) (size_ r) in if ok : bool then Some k else abort else Some k.


(** The loops that touch every page; a store to pages that are not writable
    is a fault. *)
Fixpoint touch (fuel : nat) k (base off size : Z) (write : bool) : option Kernel :=
  if bool_decide (off < size) then
    match fuel with
    | O => None
    | S fuel =>
        k ← (if write then m ← live k !! base; _ ← assertM (mp_writable m); Some (store k (base + off)) else Some k);
        touch fuel k base (u64 (off + kPageSize4K)) size write
    end
  else Some (with_live k (alter fault base (live k))).
Definition touch_fuel (size : Z) : nat := S (Z.to_nat (size / kPageSize4K)).

Definition manual_write k (addr size : Z) : option (Kernel * bool) := k ← touch (touch_fuel size) k addr 0 size true; Some (k, true).
Definition manual_read k (addr size : Z) : option (Kernel * bool) := k ← touch (touch_fuel size) k addr 0 size false; Some (k, true).

Definition apply_prefault k (addr size : Z) (policy : PrefaultPolicy) : option (Kernel * bool) :=
  match policy with
  | kNone => Some (k, true)
  | kPopulateWrite =>
      let '(k, r) := on_mapping k addr size fault in
      match r with
      | None => Some (k, true)
      | Some e => if negb (bool_decide (e = EINVAL)) then Some (k, false) else manual_write k addr size
      end
  | kManualWrite => manual_write k addr size
  | kPopulateRead =>
      let '(k, r) := on_mapping k addr size fault in
      match r with
      | None => Some (k, true)
      | Some e => if negb (bool_decide (e = EINVAL)) then Some (k, false) else manual_read k addr size
      end
  | kManualRead => manual_read k addr size
  end.

Definition prefault k r (write_touch : bool) : option (Kernel * bool) :=
  if is_valid r then apply_prefault k (addr_ r) (size_ r) (if write_touch then kPopulateWrite else kPopulateRead) else Some (k, false).

Definition succeeded (e : option Z) : bool := match e with None => true | Some _ => false end.
Definition call k r (f : Mapping → Mapping) : Kernel * bool :=
  if is_valid r then let '(k, e) := on_mapping k (addr_ r) (size_ r) f in (k, succeeded e) else (k, false).

(** [advise(MADV_HUGEPAGE)]. *)
Definition advise_hugepage k r : Kernel * bool := call k r set_hugepage.
Definition lock k r : Kernel * bool := call k r (λ m, set_locked true (fault m)).


Definition bind_numa_node k r (node : Z) : Kernel * bool :=
  if negb (is_valid r) || bool_decide (node < 0) || bool_decide (node >= 64) then (k, false)
  else
    let nodemask := u64 (Z.shiftl 1 node) in
    let '(k, e) := on_mapping k (addr_ r) (size_ r) (set_policy (Z.log2 nodemask)) in (k, succeeded e).

Definition with_policies (flags : Z) (pf : PrefaultPolicy) (lock_pages : bool) : Z :=
  let flags := if negb (bool_decide (pf = kNone)) then Z.lor flags MAP_POPULATE else flags in
  if lock_pages then Z.lor flags MAP_LOCKED else flags.

(** The end of the two anonymous factories: map, prefault, and give the
    mapping back if that fails. *)
Definition map_and_prefault k (rounded flags : Z) (pf : PrefaultPolicy) : option (Kernel * option MmapRegion) :=
  let '(k, a) := mmap k rounded (Z.lor PROT_READ PROT_WRITE) flags (-1) 0 in
  match a with
  | None => Some (k, None)
  | Some addr =>
      let region := {| addr_ := addr; size_ := rounded |} in
      '(k, ok) ← apply_prefault k addr rounded pf;
      if ok : bool then Some (k, Some region) else k ← destroy k region; Some (k, None)
  end.

Definition allocate_anonymous k (size : Z) (pf : PrefaultPolicy) (lock_pages : bool) : option (Kernel * option MmapRegion) :=
  if bool_decide (size = 0) then Some (k, None)
  else
    let rounded := align_up size kPageSize4K in
    map_and_prefault k rounded (with_policies (Z.lor MAP_PRIVATE MAP_ANONYMOUS) pf lock_pages) pf.

Definition allocate_huge_pages k (size : Z) (hp_size : HugePageSize) (pf : PrefaultPolicy) (lock_pages : bool) : option (Kernel * option MmapRegion) :=
  if bool_decide (size = 0) then Some (k, None)
  else
    let '(page_size, huge_flag) := match hp_size with k2MB => (kHugePageSize2MB, MAP_HUGE_2MB) | k1GB => (kHugePageSize1GB, MAP_HUGE_1GB) end in
    let rounded := align_up size page_size in
    map_and_prefault k rounded (with_policies (Z.lor (Z.lor (Z.lor MAP_PRIVATE MAP_ANONYMOUS) MAP_HUGETLB) huge_flag) pf lock_pages) pf.






End Region.

(** * Mapping policies *)

Module Policy.
Import Kernel Region.

Inductive PageMappingMode : Set := kExplicitThenThp | kExplicitOnly | kThpOnly | kRegularPagesOnly.
Inductive FailureMode : Set := kWarnAndContinue | kFailFast.
Inductive RegionIntent : Set := kHotRw | kReadMostly | kCold.
Inductive MappingPath : Set := kExplicitHugePages | kTransparentHugePages | kRegularPages.
#[export] Instance MappingPath_eq_dec : EqDecision MappingPath.
Proof. solve_decision. Defined.
#[export] Instance FailureMode_eq_dec : EqDecision FailureMode.
Proof. solve_decision. Defined.

Record RegionIntentConfig : Set := {
  ri_size : Z; ri_numa_node : Z; ri_lock_pages : bool; ri_page_mapping_mode : PageMappingMode; ri_huge_page_size : HugePageSize; ri_failure_mode : FailureMode;
}.
Record AllocationConfig : Set := {
  size : Z; pf : PrefaultPolicy; numa_node : Z; lock_pages : bool; page_mapping_mode : PageMappingMode; huge_page_size : HugePageSize; failure_mode : FailureMode;
}.
Implicit Types (k : Kernel) (cfg : AllocationConfig) (r : MmapRegion).

Definition to_region_intent (p : PrefaultPolicy) : RegionIntent :=
  match p with kPopulateWrite | kManualWrite => kHotRw | kPopulateRead | kManualRead => kReadMostly | kNone => kCold end.

Definition is_numa_requested cfg : bool := bool_decide (numa_node cfg >= 0).
Definition initial_prefault_policy cfg (numa : bool) : PrefaultPolicy := if numa then kNone else pf cfg.
Definition initial_lock_enabled cfg (numa : bool) : bool := if numa then false else lock_pages cfg.
Definition is_write_touch_policy (p : PrefaultPolicy) : bool := bool_decide (p = kPopulateWrite) || bool_decide (p = kManualWrite).
Definition needs_deferred_prefault cfg (numa : bool) (path : MappingPath) : bool :=
  (numa || bool_decide (path = kTransparentHugePages)) && negb (bool_decide (pf cfg = kNone)).
Definition needs_deferred_lock cfg (numa : bool) (path : MappingPath) : bool := (numa || bool_decide (path = kTransparentHugePages)) && lock_pages cfg.
Definition is_fail_fast cfg : bool := bool_decide (failure_mode cfg = kFailFast).

Definition build_allocation_config (c : RegionIntentConfig) (prefault : PrefaultPolicy) : AllocationConfig :=
  {| size := ri_size c; pf := prefault; numa_node := ri_numa_node c; lock_pages := ri_lock_pages c; page_mapping_mode := ri_page_mapping_mode c;
     huge_page_size := ri_huge_page_size c; failure_mode := ri_failure_mode c |}.
Definition page_mapping_mode_for_intent (i : RegionIntent) (configured : PageMappingMode) : PageMappingMode :=
  match i with kHotRw | kReadMostly => configured | kCold => kRegularPagesOnly end.
Definition prefault_policy_for_intent (i : RegionIntent) : PrefaultPolicy :=
  match i with kHotRw => kPopulateWrite | kReadMostly => kPopulateRead | kCold => kNone end.

Definition try_map_explicit_huge_pages k cfg (alloc_pf : PrefaultPolicy) (alloc_lock : bool) : option (Kernel * option (MmapRegion * MappingPath)) :=
  '(k, r) ← allocate_huge_pages k (size cfg) (huge_page_size cfg) alloc_pf alloc_lock;
  Some (k, option_map (λ r, (r, kExplicitHugePages)) r).

Definition try_map_thp_fallback k cfg : option (Kernel * option (MmapRegion * MappingPath)) :=
  '(k, r) ← allocate_anonymous k (size cfg) kNone false;
  match r with
  | None => Some (k, None)
  | Some r => let '(k, _) := advise_hugepage k r in Some (k, Some (r, kTransparentHugePages))
  end.

Definition map_hugepage_region k cfg (alloc_pf : PrefaultPolicy) (alloc_lock : bool) : option (Kernel * option (MmapRegion * MappingPath)) :=
  match page_mapping_mode cfg with
  | kRegularPagesOnly =>
      '(k, r) ← allocate_anonymous k (size cfg) alloc_pf alloc_lock;
      Some (k, option_map (λ r, (r, kRegularPages)) r)
  | kThpOnly => try_map_thp_fallback k cfg
  | kExplicitOnly => try_map_explicit_huge_pages k cfg alloc_pf alloc_lock
  | kExplicitThenThp =>
      '(k, m) ← try_map_explicit_huge_pages k cfg alloc_pf alloc_lock;
      match m with Some m => Some (k, Some m) | None => try_map_thp_fallback k cfg end
  end.

(** The three steps that are either warned of or fatal. *)
Definition bind_numa_if_needed k r cfg (numa : bool) : Kernel * bool :=
  if negb numa then (k, true)
  else let '(k, ok) := bind_numa_node k r (numa_node cfg) in (k, if negb ok then negb (is_fail_fast cfg) else true).
Definition prefault_if_needed k r cfg (numa : bool) (path : MappingPath) : option (Kernel * bool) :=
  if negb (needs_deferred_prefault cfg numa path) then Some (k, true)
  else '(k, ok) ← prefault k r (is_write_touch_policy (pf cfg)); Some (k, if negb ok then negb (is_fail_fast cfg) else true).
Definition lock_if_needed k r cfg (numa : bool) (path : MappingPath) : Kernel * bool :=
  if negb (needs_deferred_lock cfg numa path) then (k, true)
  else let '(k, ok) := lock k r in (k, if negb ok then negb (is_fail_fast cfg) else true).

(** On a refusal the local region is destroyed. *)
Definition try_allocate_with_hugepage_fallback k cfg : option (Kernel * option MmapRegion) :=
  if bool_decide (size cfg = 0) then Some (k, None)
  else
    let numa := is_numa_requested cfg in
    '(k, mapped) ← map_hugepage_region k cfg (initial_prefault_policy cfg numa) (initial_lock_enabled cfg numa);
    match mapped with
    | None => Some (k, None)
    | Some (r, path) =>
        let '(k, ok) := bind_numa_if_needed k r cfg numa in
        if negb ok then k ← destroy k r; Some (k, None)
        else
          '(k, ok) ← prefault_if_needed k r cfg numa path;
          if negb ok then k ← destroy k r; Some (k, None)
          else
            let '(k, ok) := lock_if_needed k r cfg numa path in
            if negb ok then k ← destroy k r; Some (k, None) else Some (k, Some r)
    end.

Definition allocate_with_hugepage_fallback k cfg : option (Kernel * MmapRegion) :=
  '(k, r) ← try_allocate_with_hugepage_fallback k cfg;
  match r with Some r => Some (k, r) | None => abort end.

Definition config_for (c : RegionIntentConfig) (i : RegionIntent) : AllocationConfig :=
  let a := build_allocation_config c (prefault_policy_for_intent i) in
  {| size := size a; pf := pf a; numa_node := numa_node a; lock_pages := lock_pages a;
     page_mapping_mode := page_mapping_mode_for_intent i (ri_page_mapping_mode c); huge_page_size := huge_page_size a; failure_mode := failure_mode a |}.
Definition try_allocate_region k (c : RegionIntentConfig) (i : RegionIntent) : option (Kernel * option MmapRegion) :=
  try_allocate_with_hugepage_fallback k (config_for c i).
Definition allocate_region k (c : RegionIntentConfig) (i : RegionIntent) : option (Kernel * MmapRegion) :=
  allocate_with_hugepage_fallback k (config_for c i).
Definition allocate_hot_rw_region k (c : RegionIntentConfig) : option (Kernel * MmapRegion) := allocate_region k c kHotRw.
End Policy.

(** * What the calls do *)

Section Calls.
Import Kernel Region.
Implicit Types (k : Kernel) (r : MmapRegion) (m : Mapping).

(** The objects and descriptors, and the bytes stored. *)
Record same_tables k k' : Prop := { sr_objects : objects k' = objects k; sr_fds : fds k' = fds k }.
Record same k k' : Prop := { sm_live : live k' = live k; sm_rest : same_tables k k' }.

Lemma same_tables_trans k1 k2 k3 : same_tables k1 k2 → same_tables k2 k3 → same_tables k1 k3.
Proof. intros [] []. split; congruence. Qed.
Lemma same_kernel_trans k1 k2 k3 : same k1 k2 → same k2 k3 → same k1 k3.
Proof. intros [] []. split; [congruence | by eapply same_tables_trans]. Qed.

Lemma next_same k a k' : next k = (a, k') → same k k' ∧ stores k' = stores k.
Proof. unfold next. destruct (answers k); intros [= <- <-]; done. Qed.

Lemma mmap_spec k n prot flags fd offset k' a :
  mmap k n prot flags fd offset = (k', a) →
  same_tables k k' ∧ stores k' = stores k ∧
  match a with
  | None => live k' = live k
  | Some a => ∃ b, backing_of k flags fd offset = Some b ∧ live k !! a = None ∧ 0 < n ∧ 0 <= a ∧ a + n <= 2 ^ 63 ∧ live k' = <[a := new_mapping n prot flags b]> (live k)
  end.
Proof.
  unfold mmap. destruct (next k) as [ans k1] eqn:En. apply next_same in En as [[E1 E2] E3].
  assert (backing_of k1 flags fd offset = backing_of k flags fd offset) as -> by (unfold backing_of; destruct E2 as [_ ->]; done).
  destruct ans as [v | e]; [| by intros [= <- <-]]. destruct (backing_of k flags fd offset) as [b |] eqn:Eb; [| by intros [= <- <-]].
  destruct (_ && _) eqn:Ec; [| by intros [= <- <-]]. intros [= <- <-].
  repeat (apply andb_prop in Ec as [Ec ?]). repeat match goal with H : bool_decide _ = true |- _ => apply bool_decide_eq_true_1 in H end.
  split; [by destruct E2 |]. split; [done |]. exists b. rewrite <- E1. done.
Qed.

Lemma on_mapping_spec k a n f m k' e :
  live k !! a = Some m → mp_size m = n → on_mapping k a n f = (k', e) →
  same_tables k k' ∧ stores k' = stores k ∧ live k' = match e with None => <[a := f m]> (live k) | Some _ => live k end.
Proof.
  intros Hm Hn. unfold on_mapping. destruct (next k) as [ans k1] eqn:En. apply next_same in En as [[E1 E2] E3]. rewrite E1, Hm.
  destruct ans; [| by intros [= <- <-]]. rewrite bool_decide_true by done. intros [= <- <-]. split; [by destruct E2 |]. done.
Qed.

Lemma alter_present {A : Type} (f : A → A) (M : gmap Z A) i x : M !! i = Some x → alter f i M = <[i := f x]> M.
Proof.
  intros Hx. apply map_eq. intros j. destruct (decide (i = j)) as [<- | Hne]; [by rewrite lookup_alter_eq, lookup_insert_eq, Hx |].
  by rewrite lookup_alter_ne, lookup_insert_ne.
Qed.

(** The addresses of the pages from [off] on. *)
Definition pages (base off : Z) (n : nat) : list Z := (λ i, base + off + Z.of_nat i * kPageSize4K) <$> seq 0 n.

Lemma pages_cons base off n : pages base off (S n) = (base + off) :: pages base (off + kPageSize4K) n.
Proof. unfold pages. cbn [seq fmap list_fmap]. f_equal; [lia |]. rewrite <- seq_shift, <- list_fmap_compose. apply list_fmap_ext. intros i x _. cbn. lia. Qed.

Lemma touch_spec fuel : ∀ k base off n m (write : bool),
  live k !! base = Some m → (write = true → mp_writable m = true) → 0 <= off → n <= 2 ^ 63 → n - off <= (Z.of_nat fuel) * kPageSize4K →
  ∃ k' (c : nat), touch fuel k base off n write = Some k' ∧ same_tables k k' ∧ live k' = <[base := fault m]> (live k) ∧
    stores k' = stores k ++ (if write then pages base off c else []) ∧ (write = true → Z.of_nat c * kPageSize4K < Z.max 0 (n - off) + kPageSize4K).
Proof.
  unfold kPageSize4K. induction fuel as [| fuel IH]; intros k base off n m write Hm Hw Hoff Hn Hf; cbn [touch].
  - rewrite bool_decide_false by lia. eexists _, 0%nat. split; [reflexivity |]. split; [done |]. cbn. rewrite (alter_present _ _ _ _ Hm). split; [done |]. destruct write; (split; [by rewrite app_nil_r | lia]).
  - case_bool_decide as Hlt.
    + assert (∃ k1, (if write then m ← live k !! base; _ ← assertM (mp_writable m); Some (store k (base + off)) else Some k) = Some k1 ∧ live k1 = live k ∧ same_tables k k1 ∧
                stores k1 = stores k ++ (if write then [base + off] else [])) as (k1 & -> & E1 & E2 & E3).
      { destruct write; [| exists k; by rewrite app_nil_r]. rewrite Hm. cbn [mbind option_bind]. rewrite (Hw eq_refl). cbn [assertM mbind option_bind]. by eexists. }
      cbn [mbind option_bind]. change kPageSize4K with 4096. rewrite u64_id by (unfold is_u64; lia).
      destruct (IH k1 base (off + 4096) n m write) as (k' & c & -> & R1 & R2 & R3 & R4); [by rewrite E1 | done | lia | lia | lia |].
      exists k', (S c). split; [done |]. split; [by eapply same_tables_trans |]. split; [by rewrite R2, E1 |]. split; [| intros Ht; specialize (R4 Ht); lia].
      rewrite R3, E3. destruct write; [| by rewrite !app_nil_r]. rewrite pages_cons, <- app_assoc. done.
    + eexists _, 0%nat. split; [reflexivity |]. split; [done |]. cbn. rewrite (alter_present _ _ _ _ Hm). split; [done |]. destruct write; (split; [by rewrite app_nil_r | lia]).
Qed.

Definition reads_only (p : PrefaultPolicy) : bool := match p with kPopulateWrite | kManualWrite => false | _ => true end.

Lemma apply_prefault_spec k a n p m :
  live k !! a = Some m → mp_size m = n → 0 < n <= 2 ^ 63 → (reads_only p = false → mp_writable m = true) →
  ∃ k' ok, apply_prefault k a n p = Some (k', ok) ∧ same_tables k k' ∧
    live k' = (if ok && negb (bool_decide (p = kNone)) then <[a := fault m]> (live k) else live k) ∧
    (reads_only p = true → stores k' = stores k) ∧ (∃ c, stores k' = stores k ++ pages a 0 c ∧ Z.of_nat c * kPageSize4K < n + kPageSize4K).
Proof.
  intros Hm Hn Hr Hw. 
  assert (∀ k0 w, live k0 = live k → same_tables k k0 → stores k0 = stores k → (w = true → mp_writable m = true) →
    ∃ k', (k ← touch (touch_fuel n) k0 a 0 n w; Some (k, true)) = Some (k', true) ∧ same_tables k k' ∧ live k' = <[a := fault m]> (live k) ∧
      (w = false → stores k' = stores k) ∧ (∃ c, stores k' = stores k ++ pages a 0 c ∧ Z.of_nat c * kPageSize4K < n + kPageSize4K)) as Hmanual.
  { intros k0 w E1 E2 E3 Hwm. destruct (touch_spec (touch_fuel n) k0 a 0 n m w) as (k' & c & -> & R1 & R2 & R3 & R4); [by rewrite E1 | done | lia | lia | |].
    { unfold touch_fuel. pose proof (Z.div_mod n kPageSize4K ltac:(done)). pose proof (Z.mod_pos_bound n kPageSize4K ltac:(done)).
      assert (0 <= n / kPageSize4K) by (apply Z.div_pos; [lia | done]). unfold kPageSize4K in *. lia. }
    cbn [mbind option_bind]. exists k'. split; [done |]. split; [by eapply same_tables_trans |]. split; [by rewrite R2, E1 |].
    rewrite R3, E3. destruct w; [split; [done |]; exists c; split; [done | specialize (R4 eq_refl); lia] | rewrite app_nil_r; split; [done |]; exists 0%nat; unfold pages, kPageSize4K; cbn; rewrite app_nil_r; split; [done | lia]]. }
  assert (∃ c, stores k = stores k ++ pages a 0 c ∧ Z.of_nat c * kPageSize4K < n + kPageSize4K) as Hnone by (exists 0%nat; unfold pages, kPageSize4K; cbn; rewrite app_nil_r; split; [done | lia]).
  assert (∀ w, (w = true → mp_writable m = true) → ∃ k' ok, (let '(k, r) := on_mapping k a n fault in
      match r with
      | None => Some (k, true)
      | Some e => if negb (bool_decide (e = EINVAL)) then Some (k, false) else k ← touch (touch_fuel n) k a 0 n w; Some (k, true)
      end) = Some (k', ok) ∧ same_tables k k' ∧ live k' = (if ok : bool then <[a := fault m]> (live k) else live k) ∧ (w = false → stores k' = stores k) ∧
      (∃ c, stores k' = stores k ++ pages a 0 c ∧ Z.of_nat c * kPageSize4K < n + kPageSize4K)) as Hpopulate.
  { intros w Hwm. destruct (on_mapping k a n fault) as [k1 e] eqn:Eo. destruct (on_mapping_spec _ _ _ _ _ _ _ Hm Hn Eo) as (R1 & R2 & R3). destruct e as [e |].
    - destruct (bool_decide_reflect (e = EINVAL)) as [_ |]; cbn [negb].
      + destruct (Hmanual k1 w R3 R1 R2 Hwm) as (k' & -> & ? & ? & ? & ?). by exists k', true.
      + exists k1, false. rewrite R2. done.
    - exists k1, true. rewrite R2. done. }
  unfold apply_prefault, manual_write, manual_read. destruct p; cbn [reads_only] in *.
  - exists k, true. done.
  - destruct (Hpopulate true) as (k' & ok & -> & ? & ? & ? & ?); [by intros _; apply Hw |]. exists k', ok. rewrite andb_true_r. done.
  - destruct (Hpopulate false) as (k' & ok & -> & ? & ? & ? & ?); [done |]. exists k', ok. rewrite andb_true_r. split; [done |]. split; [done |]. split; [done |]. split; [by intros _; auto | done].
  - destruct (Hmanual k true) as (k' & Hk & ? & ? & ? & ?); [done | done | done | by intros _; apply Hw |]. rewrite Hk. by exists k', true.
  - destruct (Hmanual k false) as (k' & Hk & ? & ? & ? & ?); [done | done | done | done |]. rewrite Hk. exists k', true.
    split; [done |]. split; [done |]. split; [done |]. split; [by intros _; auto | done].
Qed.

Lemma destroy_spec k r m : live k !! addr_ r = Some m → mp_size m = size_ r → addr_ r ≠ MAP_FAILED →
  ∃ k', destroy k r = Some k' ∧ live k' = delete (addr_ r) (live k) ∧ same_tables k k' ∧ stores k' = stores k.
Proof.
  intros Hm Hn Ha. unfold destroy, is_valid. rewrite bool_decide_false by done. cbn [negb]. unfold munmap. rewrite Hm, bool_decide_true by done.
  by eexists.
Qed.

(** * Factories *)

(** A new mapping [m] behind the region [r], and nothing else. *)
Record added k k' r m : Prop := {
  ad_fresh : live k !! addr_ r = None;
  ad_live : live k' = <[addr_ r := m]> (live k);
  ad_size : mp_size m = size_ r;
  ad_range : 0 <= addr_ r ∧ 0 < size_ r ∧ addr_ r + size_ r <= 2 ^ 63;
  ad_rest : same_tables k k';
}.

Lemma added_valid k k' r m : added k k' r m → addr_ r ≠ MAP_FAILED.
Proof. intros [_ _ _ ? _]. unfold MAP_FAILED. lia. Qed.

(** A factory: nothing, and the kernel as before, or a region. *)
Definition factory_result k (x : option (Kernel * option MmapRegion)) (P : MmapRegion → Mapping → Prop) : Prop :=
  ∃ k' o, x = Some (k', o) ∧ match o with None => same k k' | Some r => ∃ m, added k k' r m ∧ P r m end.

Lemma factory_mono k x (P Q : MmapRegion → Mapping → Prop) : factory_result k x P → (∀ r m, P r m → Q r m) → factory_result k x Q.
Proof. intros (k' & [r |] & -> & H) HPQ; exists k'; eexists; (split; [done |]); [| done]. destruct H as (m & ? & ?). exists m. auto. Qed.

Lemma added_change k k1 k2 r m m' : added k k1 r m → same_tables k1 k2 → live k2 = <[addr_ r := m']> (live k1) → mp_size m' = mp_size m → added k k2 r m'.
Proof.
  intros [A1 A2 A3 A4 A5] Hr Hl Hs. split; [done | by rewrite Hl, A2, insert_insert_eq | congruence | done | by eapply same_tables_trans].
Qed.

Lemma added_kept k k1 k2 r m : added k k1 r m → same_tables k1 k2 → live k2 = live k1 → added k k2 r m.
Proof. intros [A1 A2 A3 A4 A5] Hr Hl. split; [done | congruence | done | done | by eapply same_tables_trans]. Qed.

Lemma added_destroy k k' r m : added k k' r m → ∃ k2, destroy k' r = Some k2 ∧ same k k2.
Proof.
  intros Ha. pose proof (added_valid _ _ _ _ Ha) as Hv. destruct Ha as [A1 A2 A3 A4 A5]. destruct (destroy_spec k' r m) as (k2 & -> & E1 & E2 & _); [by rewrite A2, lookup_insert_eq | done | done |].
  exists k2. split; [done |]. split; [rewrite E1, A2, delete_insert_id; done | by eapply same_tables_trans].
Qed.

Lemma added_lookup k k' r m : added k k' r m → live k' !! addr_ r = Some m.
Proof. intros [_ -> _ _ _]. apply lookup_insert_eq. Qed.

Definition prefaulted (p : PrefaultPolicy) (m : Mapping) : Mapping := if bool_decide (p = kNone) then m else fault m.

Lemma added_prefault k k1 r m p :
  added k k1 r m → (reads_only p = false → mp_writable m = true) →
  ∃ k2 ok, apply_prefault k1 (addr_ r) (size_ r) p = Some (k2, ok) ∧
    ∃ m', added k k2 r m' ∧ m' = (if ok : bool then prefaulted p m else m) ∧ (reads_only p = true → stores k2 = stores k1) ∧
    (∃ c, stores k2 = stores k1 ++ pages (addr_ r) 0 c ∧ Z.of_nat c * kPageSize4K < size_ r + kPageSize4K).
Proof.
  intros Ha Hw. pose proof (ad_range _ _ _ _ Ha) as (? & ? & ?).
  destruct (apply_prefault_spec k1 (addr_ r) (size_ r) p m) as (k2 & ok & -> & R1 & R2 & R3 & R4); [by eapply added_lookup | apply Ha | lia | done |].
  exists k2, ok. split; [done |]. eexists. split; [| done]. unfold prefaulted. destruct ok; cbn [andb] in R2; [| by eapply added_kept].
  destruct (bool_decide (p = kNone)); cbn [negb] in R2; [by eapply added_kept | by eapply added_change].
Qed.
End Calls.

(** * The factories *)

Section Factories.
Import Kernel Region.
Implicit Types (k : Kernel) (r : MmapRegion) (m : Mapping).

(** Rounding up to a page either grows or wraps to zero, which [mmap]
    refuses. *)
Lemma round_grows n e : is_u64 n → 0 <= e <= 63 → 0 < align_up n (2 ^ e) → n <= align_up n (2 ^ e) ∧ align_up n (2 ^ e) mod 2 ^ e = 0.
Proof.
  intros Hn He Hpos. unfold is_u64 in Hn. destruct (decide (n + 2 ^ e - 1 < 2 ^ 64)) as [Hlt | Hge].
  - destruct (align_up_spec n e) as (? & ? & _); [lia | lia | done |]. lia.
  - exfalso. unfold align_up in Hpos. assert (2 ^ e <= 2 ^ 63) by (apply Z.pow_le_mono_r; lia). assert (0 < 2 ^ e) by (apply Z.pow_pos_nonneg; lia).
    rewrite lnot_mask_u64 in Hpos by lia. assert (u64 (n + 2 ^ e - 1) = n + 2 ^ e - 1 - 2 ^ 64) as E.
    { unfold u64. rewrite <- (Z_mod_plus_full _ (-1)), Z.mod_small by lia. lia. }
    rewrite E, land_high_mask, Z.mod_small in Hpos by lia. lia.
Qed.

(** What an anonymous factory gives. *)
Record fresh_mapping (page : Z) (p : PrefaultPolicy) (lock_pages : bool) m : Prop := {
  fm_backing : mp_backing m = Anonymous page;
  fm_writable : mp_writable m = true;
  fm_shared : mp_shared m = false;
  fm_locked : mp_locked m = lock_pages;
  fm_policy : mp_policy m = None;
  fm_touched : mp_touched m = if negb (bool_decide (p = kNone)) || lock_pages then Some None else None;
  fm_resident : mp_resident m = negb (bool_decide (p = kNone));
}.

Lemma map_and_prefault_spec k rounded flags p :
  Z.testbit flags 5 = true →
  factory_result k (map_and_prefault k rounded flags p) (λ r m, size_ r = rounded ∧ 0 < rounded ∧
    m = prefaulted p (new_mapping rounded 3 flags (Anonymous (if Z.testbit flags 18 then 2 ^ Z.land (Z.shiftr flags 26) 63 else 4096)))).
Proof.
  intros Hf. unfold map_and_prefault. destruct (mmap k rounded _ flags (-1) 0) as [k1 [a |]] eqn:Em; apply mmap_spec in Em as (R1 & R2 & R3).
  - destruct R3 as (b & Eb & Hfresh & H0 & Ha & Hb & Hl). unfold backing_of in Eb. rewrite Hf in Eb. injection Eb as <-.
    set (r := {| addr_ := a; size_ := rounded |}). set (m := new_mapping rounded 3 flags _) in *.
    assert (added k k1 r m) as Had by (split; done || cbn; lia).
    destruct (added_prefault k k1 r m p Had) as (k2 & ok & E & m' & Had' & Hm' & _); [done |]. cbn [addr_ size_ r] in E. rewrite E. cbn [mbind option_bind].
    destruct ok; [exists k2, (Some r); split; [done |]; by exists m' |].
    destruct (added_destroy _ _ _ _ Had') as (k3 & -> & Hs). exists k3, None. done.
  - exists k1, None. done.
Qed.

Lemma allocate_anonymous_spec k n p lock_pages :
  is_u64 n → factory_result k (allocate_anonymous k n p lock_pages) (λ r m, n <= size_ r ∧ size_ r mod 4096 = 0 ∧ fresh_mapping 4096 p lock_pages m).
Proof.
  intros Hn. unfold allocate_anonymous. case_bool_decide; [by exists k, None |].
  eapply factory_mono; [apply map_and_prefault_spec; by destruct p, lock_pages |].
  intros r m (Hs & Hpos & ->). change kPageSize4K with (2 ^ 12) in *. destruct (round_grows n 12 Hn) as [H1 H2]; [lia | lia |]. rewrite Hs. split; [done |]. split; [done |].
  destruct p, lock_pages; by split.
Qed.

Definition page_of (h : HugePageSize) : Z := match h with k2MB => kHugePageSize2MB | k1GB => kHugePageSize1GB end.

Lemma allocate_huge_pages_spec k n h p lock_pages :
  is_u64 n → factory_result k (allocate_huge_pages k n h p lock_pages) (λ r m, n <= size_ r ∧ size_ r mod page_of h = 0 ∧ fresh_mapping (page_of h) p lock_pages m).
Proof.
  intros Hn. unfold allocate_huge_pages. case_bool_decide; [by exists k, None |].
  destruct h; cbn [page_of]; (eapply factory_mono; [apply map_and_prefault_spec; by destruct p, lock_pages |]); intros r m (Hs & Hpos & ->); rewrite Hs.
  - change kHugePageSize2MB with (2 ^ 21) in *. destruct (round_grows n 21 Hn) as [H1 H2]; [lia | lia |]. split; [done |]. split; [done |]. destruct p, lock_pages; by split.
  - change kHugePageSize1GB with (2 ^ 30) in *. destruct (round_grows n 30 Hn) as [H1 H2]; [lia | lia |]. split; [done |]. split; [done |]. destruct p, lock_pages; by split.
Qed.

(** * Files *)


End Factories.

(** * Shared objects *)

Section Shared.
Import Kernel Region.
Implicit Types (k : Kernel) (r : MmapRegion) (m : Mapping).

Lemma factory_after k k1 x (P : MmapRegion → Mapping → Prop) : same k k1 → factory_result k1 x P → factory_result k x P.
Proof.
  intros [E1 E2] (k' & [r |] & -> & H); exists k'; eexists; (split; [done |]).
  - destruct H as (m & [A1 A2 A3 A4 A5] & ?). exists m. split; [split; [by rewrite <- E1 | by rewrite A2, E1 | done | done | by eapply same_tables_trans] | done].
  - by eapply same_kernel_trans.
Qed.







End Shared.

(** * Policies *)

Section Policies.
Import Kernel Region Policy.
Implicit Types (k : Kernel) (cfg : AllocationConfig) (r : MmapRegion) (m : Mapping).

(** Where the pages of a path come from. *)
Definition path_page cfg (path : MappingPath) : Z := match path with kExplicitHugePages => page_of (huge_page_size cfg) | _ => 4096 end.
Definition path_allowed cfg (path : MappingPath) : Prop :=
  match page_mapping_mode cfg with
  | kExplicitThenThp => path ≠ kRegularPages
  | kExplicitOnly => path = kExplicitHugePages
  | kThpOnly => path = kTransparentHugePages
  | kRegularPagesOnly => path = kRegularPages
  end.
Definition path_prefault (p : PrefaultPolicy) (path : MappingPath) : PrefaultPolicy := match path with kTransparentHugePages => kNone | _ => p end.
Definition path_lock (b : bool) (path : MappingPath) : bool := match path with kTransparentHugePages => false | _ => b end.

Definition mapped k cfg (p : PrefaultPolicy) (l : bool) (x : option (Kernel * option (MmapRegion * MappingPath))) : Prop :=
  ∃ k' o, x = Some (k', o) ∧
    match o with
    | None => same k k'
    | Some (r, path) => ∃ m, added k k' r m ∧ size cfg <= size_ r ∧ path_allowed cfg path ∧ fresh_mapping (path_page cfg path) (path_prefault p path) (path_lock l path) m
    end.

Lemma thp_spec k k0 cfg p l :
  is_u64 (size cfg) → path_allowed cfg kTransparentHugePages → same k k0 → mapped k cfg p l (try_map_thp_fallback k0 cfg).
Proof.
  intros Hn Hp Hs. unfold try_map_thp_fallback. destruct (factory_after k k0 _ _ Hs (allocate_anonymous_spec k0 (size cfg) kNone false Hn)) as (k1 & [r |] & -> & H); cbn [mbind option_bind].
  - destruct H as (m & Ha & Hsz & _ & Hf). unfold advise_hugepage, call, is_valid. rewrite bool_decide_false by (by eapply added_valid). cbn [negb].
    destruct (on_mapping k1 (addr_ r) (size_ r) set_hugepage) as [k2 e] eqn:Eo.
    destruct (on_mapping_spec _ _ _ _ m _ _ (added_lookup _ _ _ _ Ha) (ad_size _ _ _ _ Ha) Eo) as (R1 & R2 & R3).
    eexists _, (Some _). split; [reflexivity |]. cbn. destruct e.
    + exists m. split; [by eapply added_kept | done].
    + exists (set_hugepage m). split; [by eapply added_change | split; [done | split; [done |]]]. destruct Hf as [? ? ? ? ? ? ?]. by split.
  - by exists k1, None.
Qed.

Lemma map_hugepage_region_spec k cfg p l : is_u64 (size cfg) → mapped k cfg p l (map_hugepage_region k cfg p l).
Proof.
  intros Hn. unfold map_hugepage_region.
  assert (path_allowed cfg kExplicitHugePages → ∃ k' o, try_map_explicit_huge_pages k cfg p l = Some (k', o) ∧
    match o with
    | None => same k k'
    | Some (r, path) => ∃ m, added k k' r m ∧ size cfg <= size_ r ∧ path_allowed cfg path ∧ fresh_mapping (path_page cfg path) (path_prefault p path) (path_lock l path) m
    end) as Hexp.
  { intros Hp. unfold try_map_explicit_huge_pages. destruct (allocate_huge_pages_spec k (size cfg) (huge_page_size cfg) p l Hn) as (k1 & [r |] & -> & H); cbn [mbind option_bind option_map].
    - eexists _, _. split; [reflexivity |]. cbn. destruct H as (m & Ha & Hsz & _ & Hf). by exists m.
    - by exists k1, None. }
  destruct (page_mapping_mode cfg) eqn:Em.
  - destruct Hexp as (k1 & [[r path] |] & -> & H); [by unfold path_allowed; rewrite Em | |]; cbn [mbind option_bind].
    + by exists k1, (Some (r, path)).
    + apply thp_spec; [done | by unfold path_allowed; rewrite Em | done].
  - apply Hexp. unfold path_allowed. by rewrite Em.
  - apply thp_spec; [done | by unfold path_allowed; rewrite Em | done].
  - destruct (allocate_anonymous_spec k (size cfg) p l Hn) as (k1 & [r |] & -> & H); cbn [mbind option_bind option_map].
    + eexists _, _. split; [reflexivity |]. cbn. destruct H as (m & Ha & Hsz & _ & Hf). exists m. split; [done |]. split; [done |]. split; [by unfold path_allowed; rewrite Em | done].
    + by exists k1, None.
Qed.

(** A later step: it may fail only in fail-fast mode; it changes the mapping
    by [f] or not at all, and by [f] if it was needed and reports success in
    fail-fast mode. *)
Definition step_result k r m cfg (needed : bool) (f : Mapping → Mapping) (k' : Kernel) (ok : bool) : Prop :=
  ∃ m', added k k' r m' ∧ (ok = false → failure_mode cfg = kFailFast) ∧ (m' = m ∨ needed = true ∧ m' = f m) ∧
    (ok = true → failure_mode cfg = kFailFast → needed = true → m' = f m).

Lemma refused cfg : negb (is_fail_fast cfg) = false → failure_mode cfg = kFailFast.
Proof. unfold is_fail_fast. intros H%negb_false_iff. by apply bool_decide_eq_true_1 in H. Qed.

Lemma call_step k k1 r m cfg f (needed : bool) :
  added k k1 r m → (∀ m, mp_size (f m) = mp_size m) → needed = true →
  ∀ k2 e, on_mapping k1 (addr_ r) (size_ r) f = (k2, e) → step_result k r m cfg needed f k2 (if negb (succeeded e) then negb (is_fail_fast cfg) else true).
Proof.
  intros Ha Hf Hn k2 e Eo. destruct (on_mapping_spec _ _ _ _ m _ _ (added_lookup _ _ _ _ Ha) (ad_size _ _ _ _ Ha) Eo) as (R1 & R2 & R3). destruct e as [e |]; cbn [succeeded negb].
  - exists m. split; [by eapply added_kept |]. split; [apply refused |]. split; [by left |]. intros H1 H2. unfold is_fail_fast in H1. by rewrite bool_decide_true in H1.
  - exists (f m). split; [eapply added_change; done || apply Hf |]. split; [done |]. split; [by right | done].
Qed.

Lemma step_skipped k k1 r m cfg f : added k k1 r m → step_result k r m cfg false f k1 true.
Proof. intros Ha. exists m. split; [done |]. split; [done |]. split; [by left | done]. Qed.

Lemma bind_step k k1 r m cfg :
  added k k1 r m → ∃ k2 ok, bind_numa_if_needed k1 r cfg (is_numa_requested cfg) = (k2, ok) ∧
    step_result k r m cfg (is_numa_requested cfg) (set_policy (numa_node cfg)) k2 ok.
Proof.
  intros Ha. unfold bind_numa_if_needed. destruct (is_numa_requested cfg) eqn:En; cbn [negb]; [| eexists _, _; split; [reflexivity |]; by apply step_skipped].
  unfold bind_numa_node, is_valid. rewrite (bool_decide_false (addr_ r = _)) by (by eapply added_valid). cbn [negb orb].
  unfold is_numa_requested in En. apply bool_decide_eq_true_1 in En. rewrite (bool_decide_false (numa_node cfg < 0)) by lia. cbn [orb].
  case_bool_decide.
  - eexists _, _. split; [reflexivity |]. cbn [negb]. exists m. split; [done |]. split; [apply refused |]. split; [by left |]. intros H1 H2. unfold is_fail_fast in H1. by rewrite bool_decide_true in H1.
  - assert (Z.log2 (u64 (Z.shiftl 1 (numa_node cfg))) = numa_node cfg) as ->.
    { rewrite Z.shiftl_1_l, u64_id; [by apply Z.log2_pow2; lia |]. split; [apply Z.pow_nonneg; lia | apply Z.pow_lt_mono_r; lia]. }
    destruct (on_mapping k1 (addr_ r) (size_ r) _) as [k2 e] eqn:Eo. eexists _, _. split; [reflexivity |]. by apply (call_step k k1 r m cfg).
Qed.

Lemma lock_step k k1 r m cfg path :
  added k k1 r m → ∃ k2 ok, lock_if_needed k1 r cfg (is_numa_requested cfg) path = (k2, ok) ∧
    step_result k r m cfg (needs_deferred_lock cfg (is_numa_requested cfg) path) (λ m, set_locked true (fault m)) k2 ok.
Proof.
  intros Ha. unfold lock_if_needed. destruct (needs_deferred_lock _ _ _) eqn:En; cbn [negb]; [| eexists _, _; split; [reflexivity |]; by apply step_skipped].
  unfold lock, call, is_valid. rewrite bool_decide_false by (by eapply added_valid). cbn [negb].
  destruct (on_mapping k1 (addr_ r) (size_ r) _) as [k2 e] eqn:Eo. eexists _, _. split; [reflexivity |]. by apply (call_step k k1 r m cfg).
Qed.

Lemma prefault_step k k1 r m cfg path :
  added k k1 r m → mp_writable m = true → ∃ k2 ok, prefault_if_needed k1 r cfg (is_numa_requested cfg) path = Some (k2, ok) ∧
    step_result k r m cfg (needs_deferred_prefault cfg (is_numa_requested cfg) path) fault k2 ok.
Proof.
  intros Ha Hw. unfold prefault_if_needed. destruct (needs_deferred_prefault _ _ _) eqn:En; cbn [negb]; [| eexists _, _; split; [reflexivity |]; by apply step_skipped].
  unfold prefault, is_valid. rewrite bool_decide_false by (by eapply added_valid). cbn [negb].
  set (p := if is_write_touch_policy (pf cfg) then kPopulateWrite else kPopulateRead). destruct (added_prefault k k1 r m p Ha (λ _, Hw)) as (k2 & ok & -> & m' & Ha' & Hm' & _).
  cbn [mbind option_bind]. assert (prefaulted p m = fault m) as Hpf by (unfold prefaulted, p; by destruct (is_write_touch_policy _)). rewrite Hpf in Hm'.
  eexists _, _. split; [reflexivity |]. destruct ok; subst m'; cbn [negb].
  - exists (fault m). split; [done |]. split; [done |]. split; [by right | done].
  - exists m. split; [done |]. split; [apply refused |]. split; [by left |]. intros H1 H2. unfold is_fail_fast in H1. by rewrite bool_decide_true in H1.
Qed.

(** What is promised of an allocation. *)
Record policy_kept cfg r m : Prop := {
  pk_size : size cfg <= size_ r;
  pk_backing : ∃ path, path_allowed cfg path ∧ mp_backing m = Anonymous (path_page cfg path);
  pk_private : mp_writable m = true ∧ mp_shared m = false;
  pk_node : mp_policy m = None ∨ 0 <= numa_node cfg ∧ mp_policy m = Some (numa_node cfg);
  pk_order : 0 <= numa_node cfg → mp_touched m = None ∨ mp_touched m = Some (mp_policy m);
  pk_locked : mp_locked m = true → lock_pages cfg = true;
  pk_fail_fast : failure_mode cfg = kFailFast →
    (0 <= numa_node cfg → mp_policy m = Some (numa_node cfg)) ∧ (pf cfg ≠ kNone → mp_resident m = true) ∧ (lock_pages cfg = true → mp_locked m = true);
}.

Lemma try_allocate_spec k cfg :
  is_u64 (size cfg) →
  factory_result k (try_allocate_with_hugepage_fallback k cfg) (policy_kept cfg) ∧
  (failure_mode cfg = kWarnAndContinue → ∀ k', try_allocate_with_hugepage_fallback k cfg = Some (k', None) →
     size cfg = 0 ∨ map_hugepage_region k cfg (initial_prefault_policy cfg (is_numa_requested cfg)) (initial_lock_enabled cfg (is_numa_requested cfg)) = Some (k', None)).
Proof.
  intros Hn. unfold try_allocate_with_hugepage_fallback. case_bool_decide as H0; [split; [by exists k, None | by left] |]. cbv zeta.
  destruct (map_hugepage_region_spec k cfg (initial_prefault_policy cfg (is_numa_requested cfg)) (initial_lock_enabled cfg (is_numa_requested cfg)) Hn) as (k1 & [[r path] |] & Ek & H);
    rewrite Ek; cbn [mbind option_bind]; [| split; [by exists k1, None | intros _ k' [= <-]; by right]].
  destruct H as (m0 & A0 & Hsz & Hpath & Hfm).
  destruct (bind_step k k1 r m0 cfg A0) as (k2 & ok2 & -> & m1 & A1 & Hf1 & Hor1 & Hff1). cbn [mbind option_bind].
  destruct ok2; cbn [negb].
  2: { destruct (added_destroy _ _ _ _ A1) as (k3 & -> & Hs). cbn [mbind option_bind]. split; [by exists k3, None | intros Hw; by rewrite Hf1 in Hw]. }
  assert (mp_writable m1 = true) as Hw1 by (destruct Hor1 as [-> | [_ ->]]; apply Hfm).
  destruct (prefault_step k k2 r m1 cfg path A1 Hw1) as (k3 & ok3 & -> & m2 & A2 & Hf2 & Hor2 & Hff2). cbn [mbind option_bind].
  destruct ok3; cbn [negb].
  2: { destruct (added_destroy _ _ _ _ A2) as (k4 & -> & Hs). cbn [mbind option_bind]. split; [by exists k4, None | intros Hw; by rewrite Hf2 in Hw]. }
  destruct (lock_step k k3 r m2 cfg path A2) as (k4 & ok4 & -> & m3 & A3 & Hf3 & Hor3 & Hff3).
  destruct ok4; cbn [negb].
  2: { destruct (added_destroy _ _ _ _ A3) as (k5 & -> & Hs). cbn [mbind option_bind]. split; [by exists k5, None | intros Hw; by rewrite Hf3 in Hw]. }
  split; [| done]. exists k4, (Some r). split; [done |]. exists m3. split; [done |]. clear A0 A1 A2 A3 Hf1 Hf2 Hf3 Ek.
  assert (is_numa_requested cfg = true ↔ 0 <= numa_node cfg) as Hnuma by (unfold is_numa_requested; rewrite bool_decide_eq_true; lia).
  unfold needs_deferred_prefault in *. unfold needs_deferred_lock in *. unfold initial_prefault_policy, initial_lock_enabled in Hfm. destruct Hfm as [G1 G2 G3 G4 G5 G6 G7].
  split; [done | exists path; split; [done |] | | | | |].
  - destruct Hor3 as [-> | [_ ->]], Hor2 as [-> | [_ ->]], Hor1 as [-> | [_ ->]]; done.
  - destruct Hor3 as [-> | [_ ->]], Hor2 as [-> | [_ ->]], Hor1 as [-> | [_ ->]]; done.
  - destruct Hor3 as [-> | [_ ->]], Hor2 as [-> | [_ ->]], Hor1 as [-> | [Hu ->]]; cbn; (by left) || (right; by rewrite Hnuma in Hu).
  - intros Hu%Hnuma. rewrite Hu in *. assert (mp_touched m0 = None) as HT by (rewrite G6; by destruct path).
    destruct Hor3 as [-> | [_ ->]], Hor2 as [-> | [_ ->]], Hor1 as [-> | [_ ->]]; cbn; rewrite ?HT; cbn; auto.
  - destruct Hor3 as [-> | [Hl ->]]; [| intros _; by apply andb_prop in Hl as [_ Hl]].
    assert (mp_locked m2 = mp_locked m0) as -> by (destruct Hor2 as [-> | [_ ->]], Hor1 as [-> | [_ ->]]; done). rewrite G4. destruct path, (is_numa_requested cfg); done.
  - intros Hff. split; [| split].
    + intros Hu%Hnuma. pose proof (Hff1 eq_refl Hff Hu) as ->. destruct Hor3 as [-> | [_ ->]], Hor2 as [-> | [_ ->]]; done.
    + intros Hp. assert (mp_resident m2 = true → mp_resident m3 = true) as Hm3 by (destruct Hor3 as [-> | [_ ->]]; done). apply Hm3.
      destruct ((is_numa_requested cfg || bool_decide (path = kTransparentHugePages)) && negb (bool_decide (pf cfg = kNone))) eqn:Ed; [by rewrite (Hff2 eq_refl Hff eq_refl) |].
      rewrite (bool_decide_false (pf cfg = kNone)) in Ed by done. rewrite andb_true_r in Ed. apply orb_false_iff in Ed as [Ed1 Ed2]. rewrite Ed1 in *.
      assert (mp_resident m2 = mp_resident m0 ∨ mp_resident m2 = true) as [-> | ->]; [destruct Hor2 as [-> | [_ ->]], Hor1 as [-> | [_ ->]]; auto | | done].
      rewrite G7. apply bool_decide_eq_false_1 in Ed2. by destruct path; cbn; rewrite ?bool_decide_false.
    + intros Hl. destruct ((is_numa_requested cfg || bool_decide (path = kTransparentHugePages)) && lock_pages cfg) eqn:Ed; [by rewrite (Hff3 eq_refl Hff eq_refl) |].
      rewrite Hl, andb_true_r in Ed. apply orb_false_iff in Ed as [Ed1 Ed2]. rewrite Ed1 in *. apply bool_decide_eq_false_1 in Ed2.
      destruct Hor3 as [-> | [_ ->]]; [| done]. assert (mp_locked m2 = mp_locked m0) as -> by (destruct Hor2 as [-> | [_ ->]], Hor1 as [-> | [_ ->]]; done). rewrite G4. by destruct path.
Qed.
End Policies.

(** * Ownership *)

Section Ownership.
Import Kernel Region Policy.
Implicit Types (k : Kernel) (r : MmapRegion) (m : Mapping) (hs : list MmapRegion) (rel : list Z).












(** * Programs over handles *)






















End Ownership.

(** * Properties *)

Section Theorems.
Import Kernel Region Policy.




(** An allocation under a policy either leaves the kernel as it was or adds one private
    writable mapping of at least the size asked, from a path its mode allows, whose pages are
    never faulted under another memory policy than the one it ends with when a node was
    asked for; in fail-fast mode the node, the prefault and the lock are all in force. In the
    other mode it fails only if the mapping itself fails. *)
Theorem allocation_policy (k : Kernel) (cfg : AllocationConfig) :
  is_u64 (size cfg) →
  ∃ k' o, try_allocate_with_hugepage_fallback k cfg = Some (k', o) ∧
    match o with
    | None => live k' = live k ∧ fds k' = fds k ∧ objects k' = objects k ∧
        (failure_mode cfg = kWarnAndContinue → size cfg = 0 ∨
           map_hugepage_region k cfg (initial_prefault_policy cfg (is_numa_requested cfg)) (initial_lock_enabled cfg (is_numa_requested cfg)) = Some (k', None))
    | Some r => ∃ m, live k !! addr_ r = None ∧ live k' = <[addr_ r := m]> (live k) ∧ mp_size m = size_ r ∧ policy_kept cfg r m
    end.
Proof.
  intros Hn. destruct (try_allocate_spec k cfg Hn) as [(k' & [r |] & E & H) Hw]; exists k'; eexists; (split; [exact E |]).
  - destruct H as (m & [A1 A2 A3 A4 A5] & Hp). by exists m.
  - destruct H as [H1 [H2 H3]]. split; [done |]. split; [done |]. split; [done |]. intros Hm. by apply Hw.
Qed.

(** [prefault] writes by default. On a region that maps a file read-only, where the kernel
    refuses to populate pages for writing, that store is a fault; reading is not. *)
Theorem prefault_read_only (k : Kernel) (r : MmapRegion) (m : Mapping) rest :
  live k !! addr_ r = Some m → mp_size m = size_ r → 0 < size_ r <= 2 ^ 63 → is_valid r = true → mp_writable m = false →
  answers k = Error EINVAL :: rest →
  prefault k r true = None ∧
  ∃ k', prefault k r false = Some (k', true) ∧ live k' = <[addr_ r := fault m]> (live k) ∧ stores k' = stores k.
Proof.
  intros Hm Hs Hr Hv Hw Ha. assert (∀ f, on_mapping k (addr_ r) (size_ r) f =
    ({| live := live k; objects := objects k; fds := fds k; stores := stores k; answers := rest |}, Some EINVAL)) as Ho by (intros f; unfold on_mapping, next; by rewrite Ha).
  unfold prefault. rewrite Hv. split.
  - unfold apply_prefault. rewrite Ho. rewrite bool_decide_true by done. cbn [negb]. unfold manual_write, touch_fuel. cbn [touch].
    rewrite bool_decide_true by lia. cbn [live]. rewrite Hm. cbn [mbind option_bind]. by rewrite Hw.
  - destruct (apply_prefault_spec k (addr_ r) (size_ r) kPopulateRead m Hm Hs Hr) as (k' & ok & E & _ & Hl & Hst & _); [done |].
    exists k'. assert (ok = true) as ->.
    { unfold apply_prefault in E. rewrite Ho in E. rewrite bool_decide_true in E by done. cbn [negb] in E. unfold manual_read in E.
      destruct (touch _ _ _ _ _ _); [| done]. by injection E as _ <-. }
    split; [done |]. split; [exact Hl |]. by apply Hst.
Qed.
End Theorems.
