(* ===== verification/RingBuffers.v ===== *)
(** Ring buffers of the last values written
    ([src/libs/ds/ring_buffer.hpp], [src/libs/ds/fixed_ring_buffer.hpp]).

    Indices are 32-bit and wrap; a slot is found by masking.  [None] is a
    failed [assert] or an access outside the storage.  A reference returned
    by [front], [back] or the subscript is read or assigned through
    ([get_at], [set_at]). *)
From S2P Require Import Prelude.
From S2P Require Import BitUtils.
Local Open Scope Z_scope.
Local Open Scope array_scope.

(** * Run-time capacity *)

Module RB.
Section RB.
Context {T : Type} (sizeof_T alignof_T : Z).

Record RingBuffer : Type := {
  buf_ : list T;
  capacity_ : Z;
  mask_ : Z;
  write_idx_ : Z;
  count_ : Z;
}.
Implicit Types (b : RingBuffer).

Definition default_buffer : RingBuffer := {| buf_ := []; capacity_ := 0; mask_ := 0; write_idx_ := 0; count_ := 0 |}.

(** Over storage that holds [mem]. *)
Definition over (mem : nat → T) (cap : Z) : RingBuffer :=
  {| buf_ := mem <$> seq 0 (Z.to_nat cap); capacity_ := cap; mask_ := u32 (cap - 1); write_idx_ := 0; count_ := 0 |}.

Definition head_physical b : Z := Z.land (u32 (write_idx_ b - count_ b)) (mask_ b).

Definition is_valid_capacity (c : Z) : bool :=
  bool_decide (c >= 2) && is_power_of_two (u32 c) && bool_decide (c <= 2 ^ 32 - 1).

Definition round_up_capacity (n : Z) : option Z :=
  if bool_decide (n = 0) then Some 0
  else if bool_decide (n <= 2) then Some 2
  else if bool_decide (n > 2 ^ 32 - 1) then Some 0
  else round_up_pow2 (u32 n).

Definition required_buffer_size (capacity : Z) : Z := u64 (capacity * sizeof_T).

(** A buffer is given by its address. *)
Definition create (external_buf : option Z) (mem : nat → T) (buf_size_bytes capacity : Z) : option RingBuffer :=
  match external_buf with
  | None => None
  | Some addr =>
      if negb (is_valid_capacity capacity) then None
      else if negb (bool_decide (addr mod alignof_T = 0)) then None
      else if bool_decide (buf_size_bytes < u64 (capacity * sizeof_T)) then None
      else Some (over mem (u32 capacity))
  end.

(** The constructor: it aborts. *)
Definition construct (external_buf : option Z) (mem : nat → T) (buf_size_bytes capacity : Z) : option RingBuffer :=
  if negb (is_valid_capacity capacity) then abort
  else
    match external_buf with
    | None => abort
    | Some addr =>
        if bool_decide (buf_size_bytes < u64 (capacity * sizeof_T)) || negb (bool_decide (addr mod alignof_T = 0)) then abort
        else Some (over mem (u32 capacity))
    end.

(** Results: the new buffer and the one moved from. *)
Definition move_construct (other : RingBuffer) : RingBuffer * RingBuffer := (other, default_buffer).
Definition move_assign (this other : RingBuffer) : RingBuffer * RingBuffer :=
  let '(tmp, other) := move_construct other in (tmp, other).

Definition size b : Z := count_ b.
Definition empty b : bool := bool_decide (count_ b = 0).
Definition full b : bool := bool_decide (count_ b = capacity_ b).
Definition capacity b : Z := capacity_ b.

(** The slots the three accessors refer to. *)
Definition front b : option Z :=
  _ ← assertM (bool_decide (count_ b > 0));
  Some (head_physical b).
Definition back b : option Z :=
  _ ← assertM (bool_decide (count_ b > 0));
  Some (Z.land (u32 (write_idx_ b - 1)) (mask_ b)).
Definition subscript b (i : Z) : option Z :=
  _ ← assertM (bool_decide (i < count_ b));
  Some (Z.land (u32 (head_physical b + u32 i)) (mask_ b)).

Definition get_at b (slot : option Z) : option T := i ← slot; (buf_ b).[i].
Definition set_at b (slot : option Z) (v : T) : option RingBuffer :=
  i ← slot;
  buf ← storeZ (buf_ b) i v;
  Some {| buf_ := buf; capacity_ := capacity_ b; mask_ := mask_ b; write_idx_ := write_idx_ b; count_ := count_ b |}.

Definition push b (value : T) : option RingBuffer :=
  if bool_decide (capacity_ b = 0) then Some b
  else
    buf ← storeZ (buf_ b) (Z.land (write_idx_ b) (mask_ b)) value;
    Some {| buf_ := buf; capacity_ := capacity_ b; mask_ := mask_ b; write_idx_ := u32 (write_idx_ b + 1);
            count_ := if bool_decide (count_ b < capacity_ b) then u32 (count_ b + 1) else count_ b |}.

Definition pop_front b : option RingBuffer :=
  _ ← assertM (bool_decide (count_ b > 0));
  Some {| buf_ := buf_ b; capacity_ := capacity_ b; mask_ := mask_ b; write_idx_ := write_idx_ b; count_ := u32 (count_ b - 1) |}.

Definition clear b : RingBuffer :=
  {| buf_ := buf_ b; capacity_ := capacity_ b; mask_ := mask_ b; write_idx_ := 0; count_ := 0 |}.
End RB.
Arguments RingBuffer : clear implicits.
End RB.

(** * Capacity fixed at compile time *)

Module FRB.
Section FRB.
Context {T : Type} (CapacityPow2 : Z).

Record FixedRingBuffer : Type := {
  write_idx_ : Z;
  count_ : Z;
  buf_ : list T;
}.
Implicit Types (b : FixedRingBuffer).

Definition kMask : Z := u32 (CapacityPow2 - 1).

(** The [static_assert]s. *)
Definition accepted : bool :=
  bool_decide (CapacityPow2 >= 2) && is_power_of_two (u32 CapacityPow2) && bool_decide (CapacityPow2 <= 2 ^ 32 - 1).

Definition construct (zero : T) : FixedRingBuffer :=
  {| write_idx_ := 0; count_ := 0; buf_ := replicate (Z.to_nat CapacityPow2) zero |}.

Definition head_physical b : Z := Z.land (u32 (write_idx_ b - count_ b)) kMask.

Definition size b : Z := count_ b.
Definition empty b : bool := bool_decide (count_ b = 0).
Definition full b : bool := bool_decide (count_ b = u32 CapacityPow2).
Definition capacity : Z := CapacityPow2.

Definition front b : option Z :=
  _ ← assertM (bool_decide (count_ b > 0));
  Some (head_physical b).
Definition back b : option Z :=
  _ ← assertM (bool_decide (count_ b > 0));
  Some (Z.land (u32 (write_idx_ b - 1)) kMask).
Definition subscript b (i : Z) : option Z :=
  _ ← assertM (bool_decide (i < count_ b));
  Some (Z.land (u32 (head_physical b + u32 i)) kMask).

Definition get_at b (slot : option Z) : option T := i ← slot; (buf_ b).[i].
Definition set_at b (slot : option Z) (v : T) : option FixedRingBuffer :=
  i ← slot;
  buf ← storeZ (buf_ b) i v;
  Some {| write_idx_ := write_idx_ b; count_ := count_ b; buf_ := buf |}.

Definition push b (value : T) : option FixedRingBuffer :=
  buf ← storeZ (buf_ b) (Z.land (write_idx_ b) kMask) value;
  Some {| write_idx_ := u32 (write_idx_ b + 1);
          count_ := if bool_decide (count_ b < u32 CapacityPow2) then u32 (count_ b + 1) else count_ b;
          buf_ := buf |}.

Definition pop_front b : option FixedRingBuffer :=
  _ ← assertM (bool_decide (count_ b > 0));
  Some {| write_idx_ := write_idx_ b; count_ := u32 (count_ b - 1); buf_ := buf_ b |}.

Definition clear b : FixedRingBuffer := {| write_idx_ := 0; count_ := 0; buf_ := buf_ b |}.
End FRB.
Arguments FixedRingBuffer : clear implicits.
End FRB.

(** * Iterators, of either buffer *)

Module Iter.
(** An iterator is the logical index it holds, next to its buffer. *)
Definition next (idx : Z) : Z := u32 (idx + 1).
Definition prev (idx : Z) : Z := u32 (idx - 1).
Definition add (idx n : Z) : Z := u32 (idx + n).
Definition sub (idx n : Z) : Z := u32 (idx - n).
Definition distance (a b : Z) : Z := a - b.
Definition offset (idx n : Z) : Z := u64 (idx + n).

(** [for (auto &x : buffer)]: from [begin] to [end], through the subscript. *)
Fixpoint range {T : Type} (get : Z → option T) (fuel : nat) (idx last : Z) : option (list T) :=
  match fuel with
  | O => None
  | S fuel =>
      if bool_decide (idx = last) then Some []
      else x ← get idx; rest ← range get fuel (next idx) last; Some (x :: rest)
  end.
End Iter.

(** * What both promise *)

(** The operations, over any kind of buffer; a slot is what [front], [back]
    and the subscript refer to. *)
Class RingOps (T B : Type) := {
  rg_size : B → Z;
  rg_empty : B → bool;
  rg_full : B → bool;
  rg_capacity : B → Z;
  rg_front : B → option Z;
  rg_back : B → option Z;
  rg_subscript : B → Z → option Z;
  rg_get : B → option Z → option T;
  rg_set : B → option Z → T → option B;
  rg_push : B → T → option B;
  rg_pop_front : B → option B;
  rg_clear : B → B;
  rg_range : B → option (list T);
}.

#[export] Instance RB_ops (T : Type) : RingOps T (RB.RingBuffer T) :=
  {| rg_size := RB.size; rg_empty := RB.empty; rg_full := RB.full; rg_capacity := RB.capacity; rg_front := RB.front; rg_back := RB.back;
     rg_subscript := RB.subscript; rg_get := RB.get_at; rg_set := RB.set_at; rg_push := RB.push; rg_pop_front := RB.pop_front; rg_clear := RB.clear;
     rg_range b := Iter.range (λ i, RB.get_at b (RB.subscript b i)) (S (Z.to_nat (RB.size b))) 0 (RB.size b) |}.

Definition FRB_ops (T : Type) (cap : Z) : RingOps T (FRB.FixedRingBuffer T) :=
  {| rg_size := FRB.size; rg_empty := FRB.empty; rg_full := FRB.full cap; rg_capacity := λ _, FRB.capacity cap; rg_front := FRB.front cap; rg_back := FRB.back cap;
     rg_subscript := FRB.subscript cap; rg_get := FRB.get_at; rg_set := FRB.set_at; rg_push := FRB.push cap; rg_pop_front := FRB.pop_front; rg_clear := FRB.clear;
     rg_range b := Iter.range (λ i, FRB.get_at b (FRB.subscript cap b i)) (S (Z.to_nat (FRB.size b))) 0 (FRB.size b) |}.

(** The specification: the last [cap] values pushed and not popped, oldest
    first. *)
Definition window_push {T} (cap : Z) (w : list T) (v : T) : list T :=
  if bool_decide (lenZ w < cap) then w ++ [v] else tail w ++ [v].

Definition window_ops (T : Type) (cap : Z) : RingOps T (list T) :=
  {| rg_size w := lenZ w; rg_empty w := bool_decide (w = [] :> list _) ; rg_full w := bool_decide (lenZ w = cap); rg_capacity _ := cap;
     rg_front w := if w is [] then None else Some 0;
     rg_back w := if w is [] then None else Some (lenZ w - 1);
     rg_subscript w i := if bool_decide (i < lenZ w) then Some i else None;
     rg_get w slot := i ← slot; w.[i];
     rg_set w slot v := i ← slot; storeZ w i v;
     rg_push w v := Some (window_push cap w v);
     rg_pop_front w := if w is _ :: w then Some w else None;
     rg_clear _ := [];
     rg_range w := Some w |}.

Inductive Op (T : Type) : Type :=
  | Push (v : T) | PopFront | Clear
  | Front | Back | At (i : nat)
  | SetFront (v : T) | SetBack (v : T) | SetAt (i : nat) (v : T)
  | Size | IsEmpty | IsFull | Capacity | Range.
Arguments Push {T} _.
Arguments PopFront {T}.
Arguments Clear {T}.
Arguments Front {T}.
Arguments Back {T}.
Arguments At {T} _.
Arguments SetFront {T} _.
Arguments SetBack {T} _.
Arguments SetAt {T} _ _.
Arguments Size {T}.
Arguments IsEmpty {T}.
Arguments IsFull {T}.
Arguments Capacity {T}.
Arguments Range {T}.

Inductive Answer (T : Type) : Type := Done | Value (v : T) | Number (n : Z) | Flag (b : bool) | Values (l : list T).
Arguments Done {T}.
Arguments Value {T} _.
Arguments Number {T} _.
Arguments Flag {T} _.
Arguments Values {T} _.

Section Run.
Context {T B : Type} (R : RingOps T B).

Definition step (b : B) (op : Op T) : option (B * Answer T) :=
  let read slot := v ← rg_get b slot; Some (b, Value v) in
  let write slot v := b ← rg_set b slot v; Some (b, Done) in
  match op with
  | Push v => b ← rg_push b v; Some (b, Done)
  | PopFront => b ← rg_pop_front b; Some (b, Done)
  | Clear => Some (rg_clear b, Done)
  | Front => read (rg_front b)
  | Back => read (rg_back b)
  | At i => read (rg_subscript b (Z.of_nat i))
  | SetFront v => write (rg_front b) v
  | SetBack v => write (rg_back b) v
  | SetAt i v => write (rg_subscript b (Z.of_nat i)) v
  | Size => Some (b, Number (rg_size b))
  | IsEmpty => Some (b, Flag (rg_empty b))
  | IsFull => Some (b, Flag (rg_full b))
  | Capacity => Some (b, Number (rg_capacity b))
  | Range => l ← rg_range b; Some (b, Values l)
  end.

Fixpoint run (b : B) (ops : list (Op T)) : option (list (Answer T)) :=
  match ops with
  | [] => Some []
  | op :: ops => '(b, a) ← step b op; answers ← run b ops; Some (a :: answers)
  end.
End Run.

(** * The run-time buffer is a window *)

Section Rep.
Context {T : Type}.
Implicit Types (b : RB.RingBuffer T) (w : list T).

(** Where the [i]-th value is. *)
Definition slot_of b (i : Z) : Z := (RB.write_idx_ b - RB.count_ b + i) mod RB.capacity_ b.

Record rep (e : Z) b w : Prop := {
  rp_e : 1 <= e <= 31;
  rp_cap : RB.capacity_ b = 2 ^ e;
  rp_mask : RB.mask_ b = 2 ^ e - 1;
  rp_buf : lenZ (RB.buf_ b) = 2 ^ e;
  rp_idx : is_u32 (RB.write_idx_ b);
  rp_count : RB.count_ b = lenZ w ∧ lenZ w <= 2 ^ e;
  rp_values i : 0 <= i < lenZ w → (RB.buf_ b).[slot_of b i] = w.[i];
}.

Lemma pow2_bounds e : 1 <= e <= 31 → 2 <= 2 ^ e <= 2 ^ 31.
Proof. intros He. split; [apply (Z.pow_le_mono_r 2 1); lia | apply Z.pow_le_mono_r; lia]. Qed.

Lemma slot_range e b w i : rep e b w → 0 <= slot_of b i < lenZ (RB.buf_ b).
Proof. intros [He Hc _ Hb _ _ _]. unfold slot_of. rewrite Hb, Hc. apply Z.mod_pos_bound. apply Z.pow_pos_nonneg; lia. Qed.

Lemma head_slot e b w : rep e b w → RB.head_physical b = slot_of b 0.
Proof. intros [He Hc Hm _ _ _ _]. unfold RB.head_physical, slot_of. rewrite Hm, Hc, land_mask, u32_mod_pow2 by lia. f_equal. lia. Qed.

Lemma front_slot e b w : rep e b w → w ≠ [] → RB.front b = Some (slot_of b 0).
Proof.
  intros Hr Hw. unfold RB.front. rewrite (head_slot _ _ _ Hr). destruct Hr as [_ _ _ _ _ [Hc _] _].
  rewrite Hc, bool_decide_true by (destruct w; [done | cbn; lia]). done.
Qed.

Lemma back_slot e b w : rep e b w → w ≠ [] → RB.back b = Some (slot_of b (lenZ w - 1)).
Proof.
  intros [He Hc Hm _ _ [Hn _] _] Hw. unfold RB.back, slot_of. rewrite Hn, Hc, Hm, land_mask, u32_mod_pow2 by lia.
  rewrite bool_decide_true by (destruct w; [done | cbn; lia]). cbn [assertM mbind option_bind]. do 2 f_equal. lia.
Qed.

Lemma subscript_slot e b w i : rep e b w → 0 <= i < lenZ w → RB.subscript b i = Some (slot_of b i).
Proof.
  intros Hr Hi. unfold RB.subscript. rewrite (head_slot _ _ _ Hr). destruct Hr as [He Hc Hm _ _ [Hn Hl] _]. pose proof (pow2_bounds e He).
  rewrite Hn, bool_decide_true by lia. cbn [assertM mbind option_bind]. rewrite Hm, land_mask, u32_mod_pow2 by lia. rewrite (u32_id i) by (unfold is_u32; lia).
  unfold slot_of. rewrite Hc, Zplus_mod_idemp_l. do 2 f_equal. lia.
Qed.

Lemma slot_of_inj e b w i j : rep e b w → 0 <= i < 2 ^ e → 0 <= j < 2 ^ e → slot_of b i = slot_of b j → i = j.
Proof.
  intros [He Hc _ _ _ _ _]. unfold slot_of. rewrite Hc. generalize (RB.write_idx_ b - RB.count_ b). clear Hc. intros a Hi Hj Heq.
  set (m := 2 ^ e) in *.
  pose proof (Z.div_mod (a + i) m ltac:(lia)). pose proof (Z.div_mod (a + j) m ltac:(lia)). rewrite Heq in *.
  assert ((a + i) / m = (a + j) / m) by nia. nia.
Qed.

Lemma get_rep e b w i : rep e b w → 0 <= i < lenZ w → RB.get_at b (Some (slot_of b i)) = w.[i].
Proof. intros Hr Hi. cbn. by apply (rp_values e). Qed.

Lemma set_rep e b w i v : rep e b w → 0 <= i < lenZ w → ∃ b', RB.set_at b (Some (slot_of b i)) v = Some b' ∧ rep e b' (w.[i <- v]).
Proof.
  intros Hr Hi. unfold RB.set_at. cbn [mbind option_bind]. rewrite storeZ_Some by (by eapply slot_range). eexists. split; [done |].
  pose proof (slot_of_inj e b w) as Hinj. pose proof (slot_range e b w) as Hrange. pose proof Hr as [He Hc Hm Hb Hw [Hn Hl] Hv].
  split; cbn [RB.buf_ RB.capacity_ RB.mask_ RB.write_idx_ RB.count_]; rewrite ?length_setZ; try done.
  intros j Hj. unfold slot_of at 1. cbn [RB.capacity_ RB.write_idx_ RB.count_]. fold (slot_of b j). rewrite !getZ_setZ by (done || by apply Hrange).
  destruct (decide (i = j)) as [-> | Hne]; [by rewrite decide_True |]. rewrite decide_False; [by apply Hv |].
  intros E. apply Hne. apply (Hinj i j Hr); [lia.. | done].
Qed.

Lemma push_rep e b w v : rep e b w → ∃ b', RB.push b v = Some b' ∧ rep e b' (window_push (2 ^ e) w v).
Proof.
  intros Hr. pose proof (slot_of_inj e b w) as Hinj. pose proof (slot_range e b w) as Hrange. pose proof Hr as [He Hc Hm Hb Hw [Hn Hl] Hv].
  pose proof (pow2_bounds e He) as Hp. unfold RB.push. rewrite bool_decide_false by lia.
  assert (Z.land (RB.write_idx_ b) (RB.mask_ b) = slot_of b (lenZ w)) as Hslot.
  { rewrite Hm, land_mask by lia. unfold slot_of. rewrite Hn, Hc. f_equal. lia. }
  rewrite Hslot, storeZ_Some by (by apply Hrange). cbn [mbind option_bind]. eexists. split; [done |]. rewrite Hc, Hn.
  set (full := bool_decide (lenZ w < 2 ^ e)).
  assert (∀ i, 0 <= i → (u32 (RB.write_idx_ b + 1) - (if full then u32 (lenZ w + 1) else lenZ w) + i) mod 2 ^ e = slot_of b (if full then i else i + 1)) as Hshift.
  { intros i Hi. unfold slot_of. rewrite Hn, Hc. 
    replace (u32 (RB.write_idx_ b + 1) - (if full then u32 (lenZ w + 1) else lenZ w) + i)
      with (u32 (RB.write_idx_ b + 1) + (i - (if full then u32 (lenZ w + 1) else lenZ w))) by lia.
    rewrite <- Zplus_mod_idemp_l, u32_mod_pow2, Zplus_mod_idemp_l by lia. f_equal.
    unfold full. case_bool_decide; [rewrite u32_id by (unfold is_u32; lia) |]; lia. }
  assert (lenZ (window_push (2 ^ e) w v) = if full then lenZ w + 1 else lenZ w) as Hlen.
  { unfold window_push, full. case_bool_decide; rewrite length_app; cbn [length]; [lia |]. destruct w; cbn in *; lia. }
  split; cbn [RB.buf_ RB.capacity_ RB.mask_ RB.write_idx_ RB.count_]; rewrite ?length_setZ; try done.
  - apply u32_range.
  - rewrite Hlen. unfold full. case_bool_decide; [rewrite u32_id by (unfold is_u32; lia) |]; lia.
  - intros i Hi.
    match goal with |- _.[slot_of ?b' i] = _ => assert (slot_of b' i = slot_of b (if full then i else i + 1)) as -> by exact (Hshift i (proj1 Hi)) end.
    rewrite getZ_setZ by (by apply Hrange). rewrite Hlen in Hi. unfold window_push. unfold full in *. case_bool_decide as Hf.
    + destruct (decide (i = lenZ w)) as [-> | Hne]; [by rewrite decide_True, getZ_snoc |].
      rewrite decide_False by (intros E; apply Hinj in E; lia || done). rewrite getZ_app_l by lia. apply Hv. lia.
    + assert (lenZ w = 2 ^ e) as Hfull by lia.
      assert (slot_of b (2 ^ e) = slot_of b 0) as Hwrap by (unfold slot_of; rewrite Hc, <- Zplus_mod_idemp_r, Z.mod_same by lia; done).
      destruct w as [| x w]; [cbn in Hfull; lia |]. cbn [tail]. cbn [length] in *.
      destruct (decide (i = lenZ w)) as [-> | Hne].
      * rewrite decide_True by (f_equal; lia). by rewrite getZ_snoc.
      * rewrite decide_False by (rewrite Hfull, Hwrap; intros E; apply Hinj in E; lia || done). rewrite getZ_app_l by lia. rewrite Hv by lia.
        unfold getZ. rewrite !bool_decide_false by lia. by replace (Z.to_nat (i + 1)) with (S (Z.to_nat i)) by lia.
Qed.

Lemma pop_rep e b x w : rep e b (x :: w) → ∃ b', RB.pop_front b = Some b' ∧ rep e b' w.
Proof.
  intros [He Hc Hm Hb Hw [Hn Hl] Hv]. pose proof (pow2_bounds e He). unfold RB.pop_front. cbn [length] in *. rewrite Hn, bool_decide_true by lia. cbn [assertM mbind option_bind].
  eexists. split; [done |]. rewrite u32_id by (unfold is_u32; lia).
  split; cbn [RB.buf_ RB.capacity_ RB.mask_ RB.write_idx_ RB.count_]; try done; [lia |].
  intros i Hi. unfold slot_of. cbn [RB.capacity_ RB.write_idx_ RB.count_]. specialize (Hv (i + 1) ltac:(lia)). unfold slot_of in Hv. rewrite Hn in Hv.
  replace (RB.write_idx_ b - (Z.of_nat (S (length w)) - 1) + i) with (RB.write_idx_ b - Z.of_nat (S (length w)) + (i + 1)) by lia.
  rewrite Hv. unfold getZ. rewrite !bool_decide_false by lia. by replace (Z.to_nat (i + 1)) with (S (Z.to_nat i)) by lia.
Qed.

Lemma clear_rep e b w : rep e b w → rep e (RB.clear b) [].
Proof.
  intros [He Hc Hm Hb Hw [Hn Hl] Hv]. pose proof (pow2_bounds e He). split; cbn [RB.buf_ RB.capacity_ RB.mask_ RB.write_idx_ RB.count_ RB.clear]; try done; cbn [length]; [lia |].
  intros i Hi. cbn in Hi. lia.
Qed.

Lemma range_rep e b w : rep e b w → rg_range (RingOps := RB_ops T) b = Some w.
Proof.
  intros Hr. cbn. unfold RB.size. pose proof (rp_count e b w Hr) as [Hn Hl]. pose proof (pow2_bounds e (rp_e _ _ _ Hr)). rewrite Hn, Nat2Z.id.
  assert (∀ l p, w = p ++ l → Iter.range (λ i, RB.get_at b (RB.subscript b i)) (S (length l)) (lenZ p) (lenZ w) = Some l) as Hgen; [| by apply (Hgen w [])].
  induction l as [| x l IH]; intros p E; cbn [Iter.range].
  - rewrite bool_decide_true; [done |]. by rewrite E, app_nil_r.
  - assert (lenZ w = lenZ p + 1 + lenZ l) as Hlw by (rewrite E, length_app; cbn [length]; lia).
    rewrite bool_decide_false by lia. rewrite (subscript_slot e b w) by (done || lia). rewrite (get_rep e b w) by (done || lia).
    assert (w.[lenZ p] = Some x) as -> by (rewrite getZ_nat, E; by rewrite lookup_app_r, Nat.sub_diag).
    cbn [mbind option_bind]. unfold Iter.next. rewrite u32_id by (unfold is_u32; lia).
    change (length (x :: l)) with (S (length l)). replace (lenZ p + 1) with (lenZ (p ++ [x])) by (rewrite length_app; cbn [length]; lia). rewrite (IH (p ++ [x])) by (by rewrite <- app_assoc). done.
Qed.

(** One operation: the same answer, and the window again; or both fail. *)
Lemma step_sim e b w op :
  rep e b w →
  match step (RB_ops T) b op, step (window_ops T (2 ^ e)) w op with
  | Some (b', a), Some (w', a') => a = a' ∧ rep e b' w'
  | None, None => True
  | _, _ => False
  end.
Proof.
  intros Hr. pose proof (rp_count e b w Hr) as [Hn Hl]. pose proof (rp_cap e b w Hr) as Hc.
  assert (∀ i, 0 <= i < lenZ w → ∃ x, w.[i] = Some x) as Hin by (intros i Hi; by apply getZ_is_Some).
  assert (∀ i v, 0 <= i < lenZ w → storeZ w i v = Some (w.[i <- v])) as Hst by (intros; by apply storeZ_Some).
  destruct op as [v | | | | | i | v | v | i v | | | | |]; cbn -[RB.get_at RB.set_at].
  - destruct (push_rep e b w v Hr) as (b' & -> & Hb'). done.
  - destruct w as [| x w]; [unfold RB.pop_front; by rewrite Hn | destruct (pop_rep e b x w Hr) as (b' & -> & Hb'); done].
  - split; [done | by apply (clear_rep e b w)].
  - destruct w as [| x w'] eqn:E; [unfold RB.front; by rewrite Hn |]. rewrite (front_slot e b (x :: w')) by done.
    rewrite (get_rep e b (x :: w')) by (done || cbn; lia). done.
  - destruct w as [| x w'] eqn:E; [unfold RB.back; by rewrite Hn |]. rewrite <- E in *. rewrite (back_slot e b w) by (done || by rewrite E).
    rewrite (get_rep e b w) by (done || rewrite E; cbn; lia). cbn. destruct (Hin (lenZ w - 1)) as [y ->]; [rewrite E; cbn; lia |]. done.
  - case_bool_decide as Hi.
    + rewrite (subscript_slot e b w), (get_rep e b w) by (done || lia). cbn. destruct (Hin (Z.of_nat i)) as [y ->]; [lia |]. done.
    + unfold RB.subscript. rewrite Hn, bool_decide_false by done. done.
  - destruct w as [| x w'] eqn:E; [unfold RB.front; by rewrite Hn |]. rewrite <- E in *. rewrite (front_slot e b w) by (done || by rewrite E).
    destruct (set_rep e b w 0 v Hr) as (b' & -> & Hb'); [rewrite E; cbn; lia |]. cbn. rewrite Hst by (rewrite E; cbn; lia). done.
  - destruct w as [| x w'] eqn:E; [unfold RB.back; by rewrite Hn |]. rewrite <- E in *. rewrite (back_slot e b w) by (done || by rewrite E).
    destruct (set_rep e b w (lenZ w - 1) v Hr) as (b' & -> & Hb'); [rewrite E; cbn; lia |]. cbn. rewrite Hst by (rewrite E; cbn; lia). done.
  - case_bool_decide as Hi.
    + rewrite (subscript_slot e b w) by (done || lia). destruct (set_rep e b w (Z.of_nat i) v Hr) as (b' & -> & Hb'); [lia |]. cbn. rewrite Hst by lia. done.
    + unfold RB.subscript. rewrite Hn, bool_decide_false by done. done.
  - by rewrite <- Hn.
  - split; [| done]. unfold RB.empty. rewrite Hn. f_equal. apply bool_decide_ext. destruct w; cbn; [done | split; [lia | done]].
  - split; [| done]. unfold RB.full. by rewrite Hn, Hc.
  - split; [| done]. unfold RB.capacity. by rewrite Hc.
  - pose proof (range_rep e b w Hr) as Hrange. cbn -[RB.get_at RB.set_at] in Hrange. rewrite Hrange. done.
Qed.

Lemma run_sim e ops : ∀ b w, rep e b w → run (RB_ops T) b ops = run (window_ops T (2 ^ e)) w ops.
Proof.
  induction ops as [| op ops IH]; intros b w Hr; [done |]. cbn [run]. pose proof (step_sim e b w op Hr) as Hs.
  destruct (step (RB_ops T) b op) as [[b' a] |], (step (window_ops T (2 ^ e)) w op) as [[w' a'] |]; try done. destruct Hs as [-> Hr'].
  cbn [mbind option_bind]. by rewrite (IH b' w' Hr').
Qed.

Lemma over_rep e mem : 1 <= e <= 31 → rep e (RB.over mem (2 ^ e)) [].
Proof.
  intros He. pose proof (pow2_bounds e He). split; cbn; try done; try lia.
  - apply u32_id. unfold is_u32. lia.
  - rewrite length_fmap, length_seq. lia.
Qed.

(** * The fixed buffer is the run-time one *)

Definition of_fixed (cap : Z) (f : FRB.FixedRingBuffer T) : RB.RingBuffer T :=
  {| RB.buf_ := FRB.buf_ f; RB.capacity_ := cap; RB.mask_ := FRB.kMask cap; RB.write_idx_ := FRB.write_idx_ f; RB.count_ := FRB.count_ f |}.

Lemma step_fixed cap f op :
  0 < cap < 2 ^ 32 → (λ r, (of_fixed cap r.1, r.2)) <$> step (FRB_ops T cap) f op = step (RB_ops T) (of_fixed cap f) op.
Proof.
  intros Hc. destruct op as [v | | | | | i | v | v | i v | | | | |]; cbn; try done.
  - unfold RB.push, FRB.push, of_fixed. cbn. rewrite (bool_decide_false (cap = 0)) by lia. rewrite (u32_id cap) by (unfold is_u32; lia). by destruct (storeZ _ _ _).
  - unfold RB.pop_front, FRB.pop_front. cbn. by destruct (assertM _).
  - unfold FRB.front, RB.front. cbn. destruct (assertM _); [| done]. cbn. unfold FRB.head_physical, RB.head_physical. cbn. by destruct (_.[_]).
  - unfold FRB.back, RB.back. cbn. destruct (assertM _); [| done]. cbn. by destruct (_.[_]).
  - unfold FRB.subscript, RB.subscript. cbn. destruct (assertM _); [| done]. cbn. unfold FRB.head_physical, RB.head_physical. cbn. by destruct (_.[_]).
  - unfold FRB.front, RB.front. cbn. destruct (assertM _); [| done]. cbn. unfold FRB.set_at, RB.set_at, FRB.head_physical, RB.head_physical. cbn. by destruct (storeZ _ _ _).
  - unfold FRB.back, RB.back. cbn. destruct (assertM _); [| done]. cbn. unfold FRB.set_at, RB.set_at. cbn. by destruct (storeZ _ _ _).
  - unfold FRB.subscript, RB.subscript. cbn. destruct (assertM _); [| done]. cbn. unfold FRB.set_at, RB.set_at, FRB.head_physical, RB.head_physical. cbn. by destruct (storeZ _ _ _).
  - unfold FRB.full, RB.full. cbn. by rewrite (u32_id cap) by (unfold is_u32; lia).
  - unfold FRB.size. change (λ i : Z, FRB.get_at f (FRB.subscript cap f i)) with (λ i : Z, RB.get_at (of_fixed cap f) (RB.subscript (of_fixed cap f) i)).
    change (FRB.get_at f (FRB.subscript cap f 0)) with (RB.get_at (of_fixed cap f) (RB.subscript (of_fixed cap f) 0)).
    by destruct (if bool_decide _ then _ else _).
Qed.

Lemma run_fixed cap ops : ∀ f, 0 < cap < 2 ^ 32 → run (FRB_ops T cap) f ops = run (RB_ops T) (of_fixed cap f) ops.
Proof.
  induction ops as [| op ops IH]; intros f Hc; [done |]. cbn [run]. rewrite <- step_fixed by done.
  destruct (step (FRB_ops T cap) f op) as [[f' a] |]; [| done]. cbn. by rewrite IH.
Qed.
End Rep.

Lemma valid_capacity_iff c : 0 <= c → RB.is_valid_capacity c = true ↔ ∃ e, 1 <= e <= 31 ∧ c = 2 ^ e.
Proof.
  intros Hc. unfold RB.is_valid_capacity. rewrite !andb_true_iff, !bool_decide_eq_true. split.
  - intros [[H2 Hp] H3]. rewrite u32_id in Hp by (unfold is_u32; lia). apply is_power_of_two_iff in Hp as (e & He & ->); [| lia].
    exists e. split; [| done]. split.
    + destruct (decide (e = 0)) as [-> |]; [cbn in H2; lia | lia].
    + destruct (decide (e <= 31)); [done |]. assert (2 ^ 32 <= 2 ^ e) by (apply Z.pow_le_mono_r; lia). lia.
  - intros (e & He & ->). pose proof (pow2_bounds e He). rewrite u32_id by (unfold is_u32; lia). split; [split; [lia |] | lia].
    apply is_power_of_two_iff; [lia |]. exists e. split; [lia | done].
Qed.

(** C24. A ring buffer is the window of the last [capacity] values pushed and not popped.  The
    factory accepts exactly a power of two from 2 to 2^31 with an aligned buffer large enough (the
    constructor accepts the same and aborts otherwise); from then on every sequence of
    operations, assignments through references and traversals included, gives the answers of
    the window, and fails only where the window has no such value, however often the 32-bit
    index wraps.  The buffer of fixed capacity gives the same answers. *)
Theorem ring_buffer_correct {T : Type} (sizeof al : Z) (buf : option Z) (mem : nat → T) (size cap : Z) :
  0 < sizeof < 2 ^ 32 → 0 <= cap →
  (is_Some (RB.create sizeof al buf mem size cap) ↔
     (∃ e, 1 <= e <= 31 ∧ cap = 2 ^ e) ∧ (∃ addr, buf = Some addr ∧ addr mod al = 0) ∧ cap * sizeof <= size) ∧
  RB.construct sizeof al buf mem size cap = RB.create sizeof al buf mem size cap ∧
  (∀ b ops, RB.create sizeof al buf mem size cap = Some b → run (RB_ops T) b ops = run (window_ops T cap) [] ops) ∧
  (∀ zero ops, FRB.accepted cap = true → run (FRB_ops T cap) (FRB.construct cap zero) ops = run (window_ops T cap) [] ops).
Proof.
  intros Hs Hc. pose proof (valid_capacity_iff cap Hc) as Hv.
  assert (∀ e, 1 <= e <= 31 → cap = 2 ^ e → u64 (cap * sizeof) = cap * sizeof) as Hu.
  { intros e He ->. pose proof (pow2_bounds e He). apply u64_id. split; [nia |]. generalize dependent (2 ^ e). intros; nia. }
  split; [| split; [| split]].
  - unfold RB.create. split.
    + intros [b Hb]. destruct buf as [addr |]; [| done]. destruct (RB.is_valid_capacity cap) eqn:E; [| done]. cbn [negb] in Hb.
      destruct (proj1 Hv eq_refl) as (e & He & Hce). rewrite (Hu e He Hce) in Hb. split; [by exists e |].
      destruct (bool_decide_reflect (addr mod al = 0)); [| done]. cbn [negb] in Hb. destruct (bool_decide_reflect (size < cap * sizeof)); [done |].
      split; [by exists addr | lia].
    + intros ((e & He & Hce) & (addr & -> & Ha) & Hsz). rewrite (proj2 Hv) by (by exists e). cbn [negb].
      rewrite (bool_decide_true (addr mod al = 0)) by done. cbn [negb]. rewrite (Hu e He Hce), bool_decide_false by lia. done.
  - unfold RB.construct, RB.create. destruct buf as [addr |]; destruct (RB.is_valid_capacity cap); try done. cbn [negb].
    destruct (bool_decide (size < _)), (bool_decide (addr mod al = 0)); done.
  - intros b ops Hb. unfold RB.create in Hb. destruct buf as [addr |]; [| done]. destruct (RB.is_valid_capacity cap) eqn:E; [| done]. cbn [negb] in Hb.
    destruct (negb _); [done |]. destruct (bool_decide _); [done |]. injection Hb as <-. destruct (proj1 Hv eq_refl) as (e & He & ->).
    pose proof (pow2_bounds e He). rewrite u32_id by (unfold is_u32; lia). apply run_sim. by apply over_rep.
  - intros zero ops Ha. change (RB.is_valid_capacity cap = true) in Ha. destruct (proj1 Hv Ha) as (e & He & ->). pose proof (pow2_bounds e He).
    rewrite run_fixed by lia. apply run_sim. split; cbn; try done; try lia.
    + unfold FRB.kMask. apply u32_id. unfold is_u32. lia.
    + rewrite length_replicate. lia.
Qed.

Lemma ring_buffer_correct_witness :
  ∃ b, RB.create 8 8 (Some 64) (λ _, 0) 32 4 = Some b ∧
    run (RB_ops Z) b [Push 1; Push 2; Push 3; Push 4; IsFull; Push 5; Front; Back; SetAt 1 9; PopFront; Range; At 2] =
      Some [Done; Done; Done; Done; Flag true; Done; Value 2; Value 5; Done; Done; Values [9; 4; 5]; Value 5] ∧
    run (RB_ops Z) b [Push 1; PopFront; Front] = None ∧
    run (FRB_ops Z 4) (FRB.construct 4 0) [Push 1; Push 2; Push 3; Push 4; Push 5; Range] = Some [Done; Done; Done; Done; Done; Values [2; 3; 4; 5]].
Proof.
  destruct (ring_buffer_correct 8 8 (Some 64) (λ _, 0) 32 4) as (Hok & _ & Hrun & Hfixed); [lia | lia |].
  destruct (proj2 Hok) as [b Hb]; [split; [by exists 2 | split; [by exists 64 | lia]] |]. exists b.
  split; [exact Hb |]. rewrite !(Hrun b) by exact Hb. rewrite (Hfixed 0) by reflexivity. repeat split; vm_compute; reflexivity.
Defined.
