(* ===== verification/Latency.v ===== *)
(** Latency histograms and the client's latency tracker
    ([src/libs/ds/fixed_latency_histogram.hpp],
    [src/libs/ds/fixed_latency_recorder.hpp],
    [src/apps/tick_to_trade/latency_tracker.hpp]).

    A [double] is an IEEE 754 binary64 number of [SpecFloat], so that the
    ranks of percentiles are rounded as the program rounds them.  Of the
    report only the figures printed are modelled, before their conversion to
    nanoseconds.  [None] is a failed [assert], an access outside an array or
    a conversion out of range. *)
From Stdlib Require Import SpecFloat.
From stdpp Require Import sorting.
From S2P Require Import Prelude.
Local Open Scope Z_scope.
Local Open Scope array_scope.

(** * Doubles *)

Definition double : Set := spec_float.
Definition double_of (n : Z) : double := binary_normalize 53 1024 n 0 false.
Definition double_div : double → double → double := SFdiv 53 1024.
Definition double_mul : double → double → double := SFmul 53 1024.

(** [static_cast<std::uint64_t>]: towards zero, undefined out of range. *)
Definition u64_of_double (d : double) : option Z :=
  match d with
  | S754_zero _ => Some 0
  | S754_finite s m e =>
      let z := Z.shiftl (Z.pos m) e in
      if bool_decide (z = 0) then Some 0 else if s then None else if bool_decide (z < 2 ^ 64) then Some z else None
  | _ => None
  end.

(** * One histogram *)

Module Hist.
Section Hist.
Context (NumBuckets BucketWidthCycles : Z).

Record Histogram : Set := {
  buckets_ : list Z;
  total_count_ : Z;
  min_ : Z;
  max_ : Z;
}.
Implicit Types (h : Histogram).

Definition construct : Histogram :=
  {| buckets_ := replicate (Z.to_nat NumBuckets) 0; total_count_ := 0; min_ := 2 ^ 64 - 1; max_ := 0 |}.

Definition bucket_of (value : Z) : Z :=
  let idx := value / BucketWidthCycles in
  if bool_decide (idx >= NumBuckets) then NumBuckets - 1 else idx.

Definition record h (value : Z) : option Histogram :=
  let idx := bucket_of value in
  n ← (buckets_ h).[idx];
  buckets ← storeZ (buckets_ h) idx (u64 (n + 1));
  Some {| buckets_ := buckets; total_count_ := u64 (total_count_ h + 1); min_ := Z.min (min_ h) value; max_ := Z.max (max_ h) value |}.

Definition clear h : Histogram :=
  {| buckets_ := (λ _, 0) <$> buckets_ h; total_count_ := 0; min_ := 2 ^ 64 - 1; max_ := 0 |}.

Definition total_count h : Z := total_count_ h.
Definition empty h : bool := bool_decide (total_count_ h = 0).
Definition max_range : Z := u64 (NumBuckets * BucketWidthCycles).
Definition min_value h : Z := min_ h.
Definition max_value h : Z := max_ h.
Definition count_at h (idx : Z) : option Z :=
  _ ← assertM (bool_decide (idx < NumBuckets));
  (buckets_ h).[idx].

(** [pct / 100.0 * static_cast<double>(total_count_)], at least 1. *)
Definition target_rank (total_count : Z) (pct : double) : option Z :=
  target ← u64_of_double (double_mul (double_div pct (double_of 100)) (double_of total_count));
  Some (if bool_decide (target = 0) then 1 else target).

Fixpoint scan (buckets : list Z) (i cumulative target : Z) : Z :=
  match buckets with
  | [] => max_range
  | n :: buckets =>
      let cumulative := u64 (cumulative + n) in
      if bool_decide (cumulative >= target) then u64 ((i + 1) * BucketWidthCycles)
      else scan buckets (i + 1) cumulative target
  end.

Definition percentile h (pct : double) : option Z :=
  _ ← assertM (SFleb (double_of 0) pct && SFleb pct (double_of 100));
  if empty h then Some 0
  else target ← target_rank (total_count_ h) pct; Some (scan (buckets_ h) 0 0 target).
End Hist.
End Hist.

(** * One histogram per stage *)

Module Rec.
Section Rec.
Context (NumStages NumBuckets BucketWidth : Z).

Definition Recorder : Set := list Hist.Histogram.

Definition construct : Recorder := replicate (Z.to_nat NumStages) (Hist.construct NumBuckets).

Definition record (r : Recorder) (stage value : Z) : option Recorder :=
  _ ← assertM (bool_decide (stage < NumStages));
  h ← r.[stage];
  h ← Hist.record NumBuckets BucketWidth h value;
  storeZ r stage h.

Definition clear (r : Recorder) : Recorder := Hist.clear <$> r.
Definition clear_stage (r : Recorder) (stage : Z) : option Recorder :=
  _ ← assertM (bool_decide (stage < NumStages));
  h ← r.[stage];
  storeZ r stage (Hist.clear h).
Definition histogram (r : Recorder) (stage : Z) : option Hist.Histogram :=
  _ ← assertM (bool_decide (stage < NumStages));
  r.[stage].
End Rec.
End Rec.

(** * The tracker *)

Module Tracker.

Definition kWarmupTicks : Z := 256.
Definition kTscNumBuckets : Z := 1024.
Definition kTscBucketWidth : Z := 128.
Definition kRttNumBuckets : Z := 4096.
Definition kRttBucketWidth : Z := 1000.
Definition kKernelNsNumBuckets : Z := 1024.
Definition kKernelNsBucketWidth : Z := 256.

Definition kFeedParse : Z := 0.
Definition kQueueHop : Z := 1.
Definition kStrategy : Z := 2.
Definition kOrderSend : Z := 3.
Definition kNumStages : Z := 4.

(** A warm-up array and its count. *)
Definition Warmup : Set := (list Z * Z).

Record LatencyTracker : Set := {
  tick_to_trade_ : Hist.Histogram;
  stages_ : Rec.Recorder;
  queue_wait_ : Hist.Histogram;
  order_rtt_ : Hist.Histogram;
  kernel_tick_to_trade_ : Hist.Histogram;
  rx_kernel_gap_ : Hist.Histogram;
  total_ticks_ : Z;
  total_rtts_ : Z;
  total_kernel_ticks_ : Z;
  warmup_tick_to_trade_ : Warmup;
  warmup_feed_parse_ : Warmup;
  warmup_queue_hop_ : Warmup;
  warmup_strategy_ : Warmup;
  warmup_order_send_ : Warmup;
}.
Implicit Types (t : LatencyTracker).

Definition new_warmup : Warmup := (replicate (Z.to_nat kWarmupTicks) 0, 0).
Definition construct : LatencyTracker :=
  {| tick_to_trade_ := Hist.construct kTscNumBuckets; stages_ := Rec.construct kNumStages kTscNumBuckets;
     queue_wait_ := Hist.construct kTscNumBuckets; order_rtt_ := Hist.construct kRttNumBuckets;
     kernel_tick_to_trade_ := Hist.construct kKernelNsNumBuckets; rx_kernel_gap_ := Hist.construct kKernelNsNumBuckets;
     total_ticks_ := 0; total_rtts_ := 0; total_kernel_ticks_ := 0;
     warmup_tick_to_trade_ := new_warmup; warmup_feed_parse_ := new_warmup; warmup_queue_hop_ := new_warmup;
     warmup_strategy_ := new_warmup; warmup_order_send_ := new_warmup |}.

(** [if (count < kWarmupTicks) data[count++] = cycles]. *)
Definition warm (w : Warmup) (cycles : Z) : option Warmup :=
  let '(data, count) := w in
  if bool_decide (count < kWarmupTicks) then data ← storeZ data count cycles; Some (data, u64 (count + 1))
  else Some w.

Definition record_tick_to_trade t (start_tsc end_tsc : Z) : option LatencyTracker :=
  if bool_decide (end_tsc > start_tsc) then
    let cycles := u64 (end_tsc - start_tsc) in
    h ← Hist.record kTscNumBuckets kTscBucketWidth (tick_to_trade_ t) cycles;
    w ← warm (warmup_tick_to_trade_ t) cycles;
    Some {| tick_to_trade_ := h; stages_ := stages_ t; queue_wait_ := queue_wait_ t; order_rtt_ := order_rtt_ t;
            kernel_tick_to_trade_ := kernel_tick_to_trade_ t; rx_kernel_gap_ := rx_kernel_gap_ t;
            total_ticks_ := u64 (total_ticks_ t + 1); total_rtts_ := total_rtts_ t; total_kernel_ticks_ := total_kernel_ticks_ t;
            warmup_tick_to_trade_ := w; warmup_feed_parse_ := warmup_feed_parse_ t; warmup_queue_hop_ := warmup_queue_hop_ t;
            warmup_strategy_ := warmup_strategy_ t; warmup_order_send_ := warmup_order_send_ t |}
  else Some t.

Definition with_stages t (r : Rec.Recorder) (wp wq ws wo : Warmup) : LatencyTracker :=
  {| tick_to_trade_ := tick_to_trade_ t; stages_ := r; queue_wait_ := queue_wait_ t; order_rtt_ := order_rtt_ t;
     kernel_tick_to_trade_ := kernel_tick_to_trade_ t; rx_kernel_gap_ := rx_kernel_gap_ t;
     total_ticks_ := total_ticks_ t; total_rtts_ := total_rtts_ t; total_kernel_ticks_ := total_kernel_ticks_ t;
     warmup_tick_to_trade_ := warmup_tick_to_trade_ t; warmup_feed_parse_ := wp; warmup_queue_hop_ := wq;
     warmup_strategy_ := ws; warmup_order_send_ := wo |}.

Definition record_stage t (stage cycles : Z) : option Rec.Recorder := Rec.record kNumStages kTscNumBuckets kTscBucketWidth (stages_ t) stage cycles.

Definition record_feed_parse t (cycles : Z) : option LatencyTracker :=
  r ← record_stage t kFeedParse cycles;
  w ← warm (warmup_feed_parse_ t) cycles;
  Some (with_stages t r w (warmup_queue_hop_ t) (warmup_strategy_ t) (warmup_order_send_ t)).

Definition record_queue_latency t (cycles : Z) : option LatencyTracker :=
  r ← record_stage t kQueueHop cycles;
  w ← warm (warmup_queue_hop_ t) cycles;
  Some (with_stages t r (warmup_feed_parse_ t) w (warmup_strategy_ t) (warmup_order_send_ t)).

Definition record_strategy t (cycles : Z) : option LatencyTracker :=
  r ← record_stage t kStrategy cycles;
  w ← warm (warmup_strategy_ t) cycles;
  Some (with_stages t r (warmup_feed_parse_ t) (warmup_queue_hop_ t) w (warmup_order_send_ t)).

Definition record_order_send t (cycles : Z) : option LatencyTracker :=
  r ← record_stage t kOrderSend cycles;
  w ← warm (warmup_order_send_ t) cycles;
  Some (with_stages t r (warmup_feed_parse_ t) (warmup_queue_hop_ t) (warmup_strategy_ t) w).

Definition with_histograms t (qw rtt kt gap : Hist.Histogram) (rtts kernel_ticks : Z) : LatencyTracker :=
  {| tick_to_trade_ := tick_to_trade_ t; stages_ := stages_ t; queue_wait_ := qw; order_rtt_ := rtt;
     kernel_tick_to_trade_ := kt; rx_kernel_gap_ := gap;
     total_ticks_ := total_ticks_ t; total_rtts_ := rtts; total_kernel_ticks_ := kernel_ticks;
     warmup_tick_to_trade_ := warmup_tick_to_trade_ t; warmup_feed_parse_ := warmup_feed_parse_ t; warmup_queue_hop_ := warmup_queue_hop_ t;
     warmup_strategy_ := warmup_strategy_ t; warmup_order_send_ := warmup_order_send_ t |}.

Definition record_queue_wait t (cycles : Z) : option LatencyTracker :=
  h ← Hist.record kTscNumBuckets kTscBucketWidth (queue_wait_ t) cycles;
  Some (with_histograms t h (order_rtt_ t) (kernel_tick_to_trade_ t) (rx_kernel_gap_ t) (total_rtts_ t) (total_kernel_ticks_ t)).

Definition record_kernel_tick_to_trade t (kernel_recv_ns post_send_ns : Z) : option LatencyTracker :=
  if bool_decide (kernel_recv_ns > 0) && bool_decide (post_send_ns > kernel_recv_ns) then
    d ← check_s64 (post_send_ns - kernel_recv_ns);
    h ← Hist.record kKernelNsNumBuckets kKernelNsBucketWidth (kernel_tick_to_trade_ t) (u64 d);
    Some (with_histograms t (queue_wait_ t) (order_rtt_ t) h (rx_kernel_gap_ t) (total_rtts_ t) (u64 (total_kernel_ticks_ t + 1)))
  else Some t.

Definition record_rx_kernel_gap t (kernel_recv_ns userspace_recv_ns : Z) : option LatencyTracker :=
  if bool_decide (kernel_recv_ns > 0) && bool_decide (userspace_recv_ns > kernel_recv_ns) then
    d ← check_s64 (userspace_recv_ns - kernel_recv_ns);
    h ← Hist.record kKernelNsNumBuckets kKernelNsBucketWidth (rx_kernel_gap_ t) (u64 d);
    Some (with_histograms t (queue_wait_ t) (order_rtt_ t) (kernel_tick_to_trade_ t) h (total_rtts_ t) (total_kernel_ticks_ t))
  else Some t.

(** [now] is the reading of the monotonic clock. *)
Definition record_order_rtt t (now send_ts_nanos : Z) : option LatencyTracker :=
  if bool_decide (now > send_ts_nanos) then
    d ← check_s64 (now - send_ts_nanos);
    h ← Hist.record kRttNumBuckets kRttBucketWidth (order_rtt_ t) (u64 d);
    Some (with_histograms t (queue_wait_ t) h (kernel_tick_to_trade_ t) (rx_kernel_gap_ t) (u64 (total_rtts_ t + 1)) (total_kernel_ticks_ t))
  else Some t.

(** The figures of [print_stage_stats]: [min], three percentiles, [max] and
    the number of samples. *)
Definition p50 : double := double_of 50.
Definition p99 : double := double_of 99.
Definition p999 : double := double_div (double_of 999) (double_of 10).

Definition stage_figures (NumBuckets Width : Z) (h : Hist.Histogram) : option (option (list Z)) :=
  if Hist.empty h then Some None
  else
    a ← Hist.percentile NumBuckets Width h p50;
    b ← Hist.percentile NumBuckets Width h p99;
    c ← Hist.percentile NumBuckets Width h p999;
    Some (Some [Hist.min_value h; a; b; c; Hist.max_value h; Hist.total_count h]).

(** The figures of [print_warmup_stage], which sorts the array. *)
Definition warmup_index (count : Z) (pct : double) : option Z :=
  u64_of_double (double_mul (double_div pct (double_of 100)) (double_of (u64 (count - 1)))).

Definition warmup_figures (w : Warmup) : option (Warmup * option (list Z)) :=
  let '(data, count) := w in
  if bool_decide (count = 0) then Some (w, None)
  else
    let data := merge_sort (≤) (take (Z.to_nat count) data) ++ drop (Z.to_nat count) data in
    first ← data.[0];
    i ← warmup_index count p50;
    a ← data.[i];
    j ← warmup_index count p99;
    b ← data.[j];
    last ← data.[u64 (count - 1)];
    Some ((data, count), Some [first; a; b; last; count]).
End Tracker.

(** * What a histogram holds *)

Section HistSpec.
Context (N W : Z) (HN : 1 <= N) (HW : 1 <= W) (Hmax : N * W < 2 ^ 64).
Implicit Types (h : Hist.Histogram) (vs s : list Z).

Abbreviation bucket := (Hist.bucket_of N W).

Record holds vs h : Prop := {
  hs_len : lenZ (Hist.buckets_ h) = N;
  hs_count i : 0 <= i < N → (Hist.buckets_ h).[i] = Some (countZ (λ v, bool_decide (bucket v = i)) vs);
  hs_total : Hist.total_count_ h = lenZ vs ∧ lenZ vs < 2 ^ 64;
  hs_min : Hist.min_ h = fold_left Z.min vs (2 ^ 64 - 1);
  hs_max : Hist.max_ h = fold_left Z.max vs 0;
}.

Lemma bucket_range v : 0 <= v → 0 <= bucket v < N.
Proof. intros Hv. unfold Hist.bucket_of. pose proof (Z.div_pos v W ltac:(lia) ltac:(lia)). case_bool_decide; lia. Qed.

Lemma bucket_mono v v' : v <= v' → bucket v <= bucket v'.
Proof. intros Hv. unfold Hist.bucket_of. pose proof (Z.div_le_mono v v' W ltac:(lia) Hv). repeat case_bool_decide; lia. Qed.

(** A sample inside the range lies in its bucket. *)
Lemma bucket_bounds v : 0 <= v < N * W → bucket v * W <= v < (bucket v + 1) * W.
Proof.
  intros Hv. unfold Hist.bucket_of. pose proof (Z.div_mod v W ltac:(lia)). pose proof (Z.mod_pos_bound v W ltac:(lia)).
  assert (v / W < N) by (apply Z.div_lt_upper_bound; lia). rewrite bool_decide_false by lia. nia.
Qed.

Lemma holds_construct : holds [] (Hist.construct N).
Proof.
  split; cbn; try done.
  - rewrite length_replicate. lia.
  - intros i Hi. unfold getZ. rewrite bool_decide_false by lia. apply lookup_replicate. split; [done | lia].
Qed.

Lemma record_holds vs h v :
  holds vs h → 0 <= v → lenZ vs + 1 < 2 ^ 64 → ∃ h', Hist.record N W h v = Some h' ∧ holds (vs ++ [v]) h'.
Proof.
  intros [H1 H2 [H3 H4] H5 H6] Hv Hlen. pose proof (bucket_range v Hv) as Hb. unfold Hist.record. rewrite H2 by done. cbn [mbind option_bind].
  rewrite storeZ_Some by lia. cbn [mbind option_bind]. eexists. split; [done |].
  split; cbn [Hist.buckets_ Hist.total_count_ Hist.min_ Hist.max_]; rewrite ?length_setZ, ?fold_left_app; try done.
  - intros i Hi. rewrite getZ_setZ by lia. rewrite countZ_app. cbn [countZ foldr].
    pose proof (countZ_bounds (λ v, bool_decide (bucket v = i)) vs).
    destruct (decide (bucket v = i)) as [<- | Hne].
    + rewrite (bool_decide_true (bucket v = bucket v)) by done. cbn [b2z]. rewrite u64_id by (unfold is_u64; lia). f_equal; lia.
    + rewrite (bool_decide_false (bucket v = i)) by done. cbn [b2z]. rewrite H2 by done. f_equal; lia.
  - rewrite H3, u64_id by (unfold is_u64; lia). rewrite length_app. cbn [length]. lia.
  - cbn. by rewrite H5.
  - cbn. by rewrite H6.
Qed.

(** * Percentiles *)

Definition below vs (j : Z) : Z := countZ (λ v, bool_decide (bucket v < j)) vs.

Lemma below_succ vs j : below vs (j + 1) = below vs j + countZ (λ v, bool_decide (bucket v = j)) vs.
Proof.
  unfold below. induction vs as [| v vs IH]; [done |]. cbn [countZ foldr] in *. fold (countZ (λ v, bool_decide (bucket v < j + 1)) vs) in *.
  fold (countZ (λ v, bool_decide (bucket v < j)) vs) in *. fold (countZ (λ v, bool_decide (bucket v = j)) vs) in *. rewrite IH.
  unfold b2z. repeat case_bool_decide; lia.
Qed.

Lemma below_mono vs i j : i <= j → below vs i <= below vs j.
Proof.
  intros Hij. unfold below. induction vs as [| v vs IH]; [done |]. cbn [countZ foldr]. fold (countZ (λ v, bool_decide (bucket v < i)) vs).
  fold (countZ (λ v, bool_decide (bucket v < j)) vs). unfold b2z. repeat case_bool_decide; lia.
Qed.

Lemma below_zero vs : Forall (λ v, 0 <= v) vs → below vs 0 = 0.
Proof.
  intros Hvs. apply countZ_zero. intros v Hv. apply bool_decide_eq_false. rewrite Forall_forall in Hvs. apply list_elem_of_In in Hv. pose proof (bucket_range v (Hvs v Hv)). lia.
Qed.

Lemma countZ_perm {A} (f : A → bool) l l' : l ≡ₚ l' → countZ f l = countZ f l'.
Proof. induction 1; cbn [countZ foldr] in *; try lia; unfold countZ in *; lia. Qed.

Lemma countZ_all {A} (f : A → bool) l : (∀ x, x ∈ l → f x = true) → countZ f l = lenZ l.
Proof.
  induction l as [| x l IH]; intros Hf; [done |]. cbn [countZ foldr length]. fold (countZ f l). rewrite IH by (intros; apply Hf; by right).
  rewrite Hf by left. cbn [b2z]. lia.
Qed.

(** The sample of rank [t] is in the bucket where the counts reach [t]. *)
Lemma rank_bucket vs s t v :
  Sorted Z.le s → s ≡ₚ vs → 1 <= t → s.[t - 1] = Some v → below vs (bucket v) < t <= below vs (bucket v + 1).
Proof.
  intros Hs Hp Ht Hv. apply getZ_to_lookup in Hv. apply Sorted_StronglySorted in Hs; [| intros x y z; lia].
  unfold below. rewrite <- !(countZ_perm _ _ _ Hp). rewrite <- (take_drop_middle s _ v Hv) in Hs |- *.
  assert (length (take (Z.to_nat (t - 1)) s) = Z.to_nat (t - 1)) as Hl by (apply length_take_le; apply lookup_lt_Some in Hv; lia).
  apply StronglySorted_app in Hs as (Hle & _ & Hs2). apply StronglySorted_inv in Hs2 as [_ Hge]. rewrite !countZ_app. split.
  - assert (countZ (λ v', bool_decide (bucket v' < bucket v)) (v :: drop (S (Z.to_nat (t - 1))) s) = 0) as ->.
    { apply countZ_zero. intros x Hx. apply bool_decide_eq_false. apply elem_of_cons in Hx as [-> | Hx]; [lia |].
      rewrite Forall_forall in Hge. apply list_elem_of_In in Hx. pose proof (bucket_mono v x (Hge x Hx)). lia. }
    pose proof (countZ_bounds (λ v', bool_decide (bucket v' < bucket v)) (take (Z.to_nat (t - 1)) s)). lia.
  - assert (countZ (λ v', bool_decide (bucket v' < bucket v + 1)) (take (Z.to_nat (t - 1)) s) = t - 1) as ->.
    { rewrite countZ_all; [rewrite Hl; lia |]. intros x Hx. apply bool_decide_eq_true. pose proof (bucket_mono x v ltac:(apply Hle; [done | left])). lia. }
    cbn [countZ foldr]. fold (countZ (λ v', bool_decide (bucket v' < bucket v + 1)) (drop (S (Z.to_nat (t - 1))) s)).
    rewrite bool_decide_true by lia. cbn [b2z]. pose proof (countZ_bounds (λ v', bool_decide (bucket v' < bucket v + 1)) (drop (S (Z.to_nat (t - 1))) s)). lia.
Qed.

Lemma scan_correct vs s h t :
  holds vs h → Forall (λ v, 0 <= v) vs → Sorted Z.le s → s ≡ₚ vs → 1 <= t →
  Hist.scan N W (Hist.buckets_ h) 0 0 t = match s.[t - 1] with Some v => (bucket v + 1) * W | None => N * W end.
Proof.
  intros [H1 H2 [H3 H4] H5 H6] Hvs Hs Hp Ht.
  assert (∀ k i, Hist.buckets_ h = take (Z.to_nat i) (Hist.buckets_ h) ++ k → 0 <= i → i + lenZ k = N → below vs i < t →
    Hist.scan N W k i (below vs i) t = match s.[t - 1] with Some v => (bucket v + 1) * W | None => N * W end) as Hgen;
    [| pose proof (Hgen (Hist.buckets_ h) 0) as Hg; rewrite below_zero in Hg by done; apply Hg; [by rewrite take_0 | lia | lia | lia]].
  induction k as [| n k IH]; intros i Hk Hi Hlen Hbelow; cbn [Hist.scan length] in *.
  - destruct (s.[t - 1]) as [v |] eqn:Hv; [| by unfold Hist.max_range; rewrite u64_id by (unfold is_u64; nia)]. exfalso.
    destruct (rank_bucket vs s t v Hs Hp Ht Hv) as [_ Hr]. assert (0 <= v) as Hv0.
    { apply getZ_to_lookup, list_elem_of_lookup_2 in Hv. rewrite Hp in Hv. rewrite Forall_forall in Hvs. by apply Hvs, list_elem_of_In. }
    pose proof (bucket_range v Hv0). pose proof (below_mono vs (bucket v + 1) i). lia.
  - assert (Z.to_nat i < length (Hist.buckets_ h))%nat as Hil by lia.
    assert ((Hist.buckets_ h).[i] = Some n) as Hn.
    { unfold getZ. rewrite bool_decide_false by lia. rewrite Hk, lookup_app_r by (rewrite length_take; lia). rewrite length_take.
      by replace (Z.to_nat i - _)%nat with 0%nat by lia. }
    assert (n = countZ (λ v, bool_decide (bucket v = i)) vs) as En by (rewrite H2 in Hn by lia; by injection Hn).
    assert (0 <= below vs (i + 1) <= lenZ vs) as Hbb by apply countZ_bounds.
    assert (u64 (below vs i + n) = below vs (i + 1)) as -> by (rewrite En, <- below_succ; apply u64_id; unfold is_u64; lia).
    case_bool_decide as Hge.
    + destruct (s.[t - 1]) as [v |] eqn:Hv.
      * destruct (rank_bucket vs s t v Hs Hp Ht Hv) as [Hr1 Hr2]. assert (bucket v = i) as <-.
        { destruct (decide (bucket v <= i - 1)) as [Hb |]; [pose proof (below_mono vs (bucket v + 1) i); lia |].
          destruct (decide (i + 1 <= bucket v)) as [Hb |]; [pose proof (below_mono vs (i + 1) (bucket v)); lia | lia]. }
        apply u64_id. unfold is_u64. nia.
      * exfalso. assert (length s = length vs) as Hls by (by rewrite Hp). unfold getZ in Hv. rewrite bool_decide_false in Hv by lia.
        apply lookup_ge_None in Hv. lia.
    + apply IH; [| lia | lia | lia]. rewrite Hk at 1. replace (Z.to_nat (i + 1)) with (S (Z.to_nat i)) by lia.
      rewrite (take_S_r _ _ n) by (by apply getZ_to_lookup). by rewrite <- app_assoc.
Qed.
End HistSpec.

(** * The rounding of ranks *)

Section Ranks.

Lemma digits2_log2 p : Z.pos (digits2_pos p) = Z.log2 (Z.pos p) + 1.
Proof.
  induction p as [p IH | p IH |]; cbn [digits2_pos]; [| | done]; rewrite Pos2Z.inj_succ, IH.
  - change (Z.pos p~1) with (2 * Z.pos p + 1). rewrite Z.log2_succ_double by lia. lia.
  - change (Z.pos p~0) with (2 * Z.pos p). rewrite Z.log2_double by lia. lia.
Qed.

Lemma iter_pos_iter {A : Type} (f : A → A) p x : @SpecFloat.iter_pos A f p x = Nat.iter (Pos.to_nat p) f x.
Proof.
  revert x. induction p as [p IH | p IH |]; intros x; cbn [SpecFloat.iter_pos]; [| | done].
  - rewrite !IH, <- Nat.iter_add. replace (Pos.to_nat p~1) with (S (Pos.to_nat p + Pos.to_nat p)) by lia. by rewrite Nat.iter_succ_r.
  - rewrite !IH, <- Nat.iter_add. f_equal. lia.
Qed.

(** Shifting right by [k] bits, remembering whether a bit was lost. *)
Lemma shr_iter m k : 0 <= m →
  let r := Nat.iter k shr_1 {| shr_m := m; shr_r := false; shr_s := false |} in
  shr_m r = m / 2 ^ Z.of_nat k ∧ (m mod 2 ^ Z.of_nat k = 0 → shr_r r = false ∧ shr_s r = false).
Proof.
  intros Hm. induction k as [| k [IH1 IH2]]; [cbn; rewrite Z.div_1_r; done |]. cbn [Nat.iter nat_rect]. fold (Nat.iter k shr_1 {| shr_m := m; shr_r := false; shr_s := false |}).
  set (r := Nat.iter k shr_1 _) in *. cbv zeta. rewrite Nat2Z.inj_succ, Z.pow_succ_r by lia.
  assert (0 < 2 ^ Z.of_nat k) as Hp by (apply Z.pow_pos_nonneg; lia).
  assert (m / (2 * 2 ^ Z.of_nat k) = shr_m r / 2) as -> by (rewrite IH1, Z.div_div by lia; f_equal; lia).
  assert (m mod (2 * 2 ^ Z.of_nat k) = 0 → m mod 2 ^ Z.of_nat k = 0 ∧ shr_m r mod 2 = 0) as Hmod.
  { rewrite IH1. intros H0. apply Z.div_exact in H0; [| lia]. set (q := m / _) in H0. rewrite H0.
    replace (2 * 2 ^ Z.of_nat k * q) with ((2 * q) * 2 ^ Z.of_nat k) by lia. rewrite Z.mod_mul, Z.div_mul by lia. split; [done |].
    rewrite Z.mul_comm. by apply Z.mod_mul. }
  assert (0 <= shr_m r) as Hr by (rewrite IH1; apply Z.div_pos; lia).
  destruct r as [a rb sb]. cbn [shr_m shr_r shr_s] in *. clear IH1. destruct a as [| [p | p |] | p]; cbn [shr_1 shr_m shr_r shr_s]; try lia.
  - split; [done |]. intros [H1 _]%Hmod. by destruct (IH2 H1) as [-> ->].
  - split; [by rewrite (Z.div_unique (Z.pos p~1) 2 (Z.pos p) 1) by lia |]. intros [_ H2]%Hmod. exfalso. by rewrite <- (Z.mod_unique (Z.pos p~1) 2 (Z.pos p) 1) in H2 by lia.
  - split; [by rewrite (Z.div_unique (Z.pos p~0) 2 (Z.pos p) 0) by lia |]. intros [H1 _]%Hmod. by destruct (IH2 H1) as [-> ->].
  - split; [done |]. intros [_ H2]%Hmod. done.
Qed.

Lemma shr_fexp_exact m e :
  0 < m → -1000 <= Z.log2 m + 1 + e →
  let k := Z.max 0 (Z.log2 m + 1 - 53) in
  ∃ r, shr_fexp 53 1024 m e loc_Exact = (r, e + k) ∧ shr_m r = m / 2 ^ k ∧ (m mod 2 ^ k = 0 → shr_r r = false ∧ shr_s r = false).
Proof.
  intros Hm He k. unfold shr_fexp. destruct m as [| p | p]; try lia. cbn [Zdigits2 shr_record_of_loc]. rewrite digits2_log2.
  unfold fexp, emin. rewrite Z.max_l by lia.
  replace (Z.log2 (Z.pos p) + 1 + e - 53 - e) with (Z.log2 (Z.pos p) + 1 - 53) by lia. set (d := Z.log2 (Z.pos p) + 1 - 53) in *. unfold shr, k.
  destruct d as [| q | q] eqn:Hd; cbn [Z.max Z.compare].
  - eexists. split; [by rewrite Z.add_0_r |]. cbn. by rewrite Z.div_1_r.
  - rewrite iter_pos_iter. destruct (shr_iter (Z.pos p) (Pos.to_nat q)) as [H1 H2]; [lia |]. rewrite positive_nat_Z in *. by eexists.
  - eexists. split; [by rewrite Z.add_0_r |]. cbn. by rewrite Z.div_1_r.
Qed.

(** Rounding a positive number below 2^53 to a double and the double to an
    integer gives the integer part or one more, and the integer part if no
    bit is lost. *)
Lemma round_trunc p e :
  let m := Z.pos p in
  -900 <= e <= -1 → Z.log2 m + 1 + e <= 52 → 
  ∃ z, u64_of_double (binary_round_aux 53 1024 false m e loc_Exact) = Some z ∧ m / 2 ^ (- e) <= z <= m / 2 ^ (- e) + 1 ∧
    (m mod 2 ^ Z.max 0 (Z.log2 m + 1 - 53) = 0 → z = m / 2 ^ (- e)).
Proof.
  intros m He Hlog. assert (0 < m) as Hm by (unfold m; lia). pose proof (Z.log2_nonneg m) as Hl0. unfold binary_round_aux.
  destruct (shr_fexp_exact m e Hm) as (r & -> & Hr & Hex); [lia |]. set (k := Z.max 0 (Z.log2 m + 1 - 53)) in *.
  set (m1 := round_nearest_even _ _).
  assert (∃ c, m1 = m / 2 ^ k + c ∧ 0 <= c <= 1 ∧ (m mod 2 ^ k = 0 → c = 0)) as (c & Hm1 & Hc & Hc0).
  { unfold m1. rewrite Hr. destruct r as [a rb sb]. cbn [shr_m shr_r shr_s loc_of_shr_record] in *. destruct rb, sb; cbn [round_nearest_even].
    - exists 1. split; [done |]. split; [lia |]. intros [? _]%Hex. done.
    - destruct (Z.even _); [exists 0 | exists 1]; (split; [lia |]; split; [lia |]); intros [? _]%Hex; done.
    - exists 0. lia.
    - exists 0. lia. }
  assert (0 <= k) as Hk by lia. assert (e + k <= -1) as Hek by lia.
  assert (0 < 2 ^ k) as Hpk by (apply Z.pow_pos_nonneg; lia).
  pose proof (Z.log2_spec m Hm) as [Hlo Hhi].
  assert (0 < m / 2 ^ k < 2 ^ 53) as Hq.
  { split.
    - apply Z.div_str_pos. split; [done |]. etransitivity; [| exact Hlo]. apply Z.pow_le_mono_r; lia.
    - apply Z.div_lt_upper_bound; [done |]. rewrite <- Z.pow_add_r by lia. eapply Z.lt_le_trans; [exact Hhi |]. apply Z.pow_le_mono_r; lia. }
  assert (Z.log2 m1 + 1 <= 54) as Hlog1.
  { assert (m1 <= 2 ^ 53) by lia. pose proof (Z.log2_le_mono m1 (2 ^ 53) ltac:(lia)) as Hlg. rewrite Z.log2_pow2 in Hlg by lia. lia. }
  pose proof (Z.log2_nonneg m1) as Hl1.
  destruct (shr_fexp_exact m1 (e + k)) as (r2 & -> & Hr2 & _); [lia | lia |]. set (k2 := Z.max 0 (Z.log2 m1 + 1 - 53)) in *. rewrite Hr2.
  assert (k2 = 0 ∧ m1 < 2 ^ 53 ∨ k2 = 1 ∧ m1 = 2 ^ 53) as Hk2.
  { destruct (decide (m1 = 2 ^ 53)) as [-> | Hne]; [right; split; [by vm_compute | done] | left].
    assert (Z.log2 m1 < 53); [apply Z.log2_lt_pow2; lia | lia]. }
  assert (0 < m1 / 2 ^ k2 < 2 ^ 53 ∧ Z.shiftl (m1 / 2 ^ k2) (e + k + k2) = m1 / 2 ^ (- (e + k))) as [Hm2 Hval].
  { destruct Hk2 as [[-> Hlt] | [-> ->]].
    - rewrite Z.pow_0_r, Z.div_1_r, Z.add_0_r. split; [lia |]. rewrite <- Z.shiftr_opp_r. apply Z.shiftr_div_pow2. lia.
    - split; [by vm_compute |]. change (2 ^ 53 / 2 ^ 1) with (2 ^ 52). replace (e + k + 1) with (- (- (e + k) - 1)) by lia.
      rewrite <- Z.shiftr_opp_r, Z.opp_involutive, Z.shiftr_div_pow2 by lia. set (j := - (e + k) - 1).
      replace (- (e + k)) with (Z.succ j) by lia. rewrite Z.pow_succ_r by lia. change (2 ^ 53) with (2 * 2 ^ 52).
      symmetry. apply Z.div_mul_cancel_l; [apply Z.pow_nonzero; lia | lia]. }
  assert (Z.leb (e + k + k2) (1024 - 53) = true) as Hle by (apply Z.leb_le; lia).
  assert (m1 / 2 ^ (- (e + k)) < 2 ^ 64) as Hbound.
  { assert (0 < 2 ^ (- (e + k))) by (apply Z.pow_pos_nonneg; lia). apply Z.div_lt_upper_bound; nia. }
  exists (m1 / 2 ^ (- (e + k))). split.
  - destruct (m1 / 2 ^ k2) as [| p2 | p2] eqn:Ep; try lia. rewrite Hle. cbn [u64_of_double]. rewrite Hval.
    case_bool_decide as Hz; [by rewrite Hz |]. by rewrite bool_decide_true.
  - assert (m / 2 ^ (- e) = m / 2 ^ k / 2 ^ (- (e + k))) as Hdiv.
    { assert (0 < 2 ^ (- (e + k))) by (apply Z.pow_pos_nonneg; lia). rewrite Z.div_div by lia. rewrite <- Z.pow_add_r by lia. do 2 f_equal. lia. }
    rewrite Hdiv, Hm1. assert (0 < 2 ^ (- (e + k))) as Hpe by (apply Z.pow_pos_nonneg; lia). split; [split|].
    + apply Z.div_le_mono; lia.
    + transitivity ((m / 2 ^ k + 1 * 2 ^ (- (e + k))) / 2 ^ (- (e + k))); [apply Z.div_le_mono; lia |]. rewrite Z.div_add by lia. lia.
    + intros Hx. rewrite (Hc0 Hx). f_equal. lia.
Qed.

(** A count is a double exactly. *)
Lemma double_of_count n :
  1 <= n < 2 ^ 43 → ∃ p s, double_of n = S754_finite false p (- s) ∧ Z.pos p = n * 2 ^ s ∧ s = 52 - Z.log2 n.
Proof.
  intros Hn. assert (0 <= Z.log2 n < 43) as Hl by (split; [apply Z.log2_nonneg | apply Z.log2_lt_pow2; lia]).
  unfold double_of, binary_normalize. destruct n as [| q | q]; try lia. unfold binary_round.
  rewrite digits2_log2. set (L := Z.log2 (Z.pos q)) in *. unfold fexp, emin. rewrite Z.max_l by lia. unfold shl_align.
  replace (L + 1 + 0 - 53 - 0) with (- (52 - L)) by lia. destruct (52 - L) as [| d | d] eqn:Hd; try lia. cbn [Z.opp].
  assert (Z.pos (Pos.iter xO q d) = Z.pos q * 2 ^ Z.pos d) as Hv.
  { clear. revert q. induction d as [| d IH] using Pos.peano_ind; intros q; [change (Z.pos q~0 = Z.pos q * 2); lia |].
    rewrite Pos.iter_succ, Pos2Z.inj_succ, Z.pow_succ_r by lia. rewrite (Pos2Z.inj_xO (Pos.iter xO q d)), IH. lia. }
  exists (Pos.iter xO q d), (Z.pos d). split; [| done]. replace (L + 1 + 0 - 53) with (Z.neg d) by lia.
  assert (Z.log2 (Z.pos (Pos.iter xO q d)) = 52) as HL by (rewrite Hv, Z.log2_mul_pow2 by lia; unfold L in *; lia).
  change (binary_round_aux 53 1024 false (Z.pos (Pos.iter xO q d)) (Z.neg d) loc_Exact = S754_finite false (Pos.iter xO q d) (Z.neg d)).
  unfold binary_round_aux. destruct (shr_fexp_exact (Z.pos (Pos.iter xO q d)) (Z.neg d)) as (r & -> & Hr & Hex); [lia | lia |].
  rewrite HL in *. cbn [Z.add Pos.add Z.sub Z.opp Z.max Z.compare] in *. change (Z.max 0 (52 + 1 - 53)) with 0 in *. rewrite Z.pow_0_r, Z.div_1_r, Z.mod_1_r in *.
  destruct (Hex eq_refl) as [H1 H2]. destruct r as [a rb sb]. cbn [shr_m shr_r shr_s] in *. subst a rb sb. cbn [loc_of_shr_record round_nearest_even].
  rewrite Z.add_0_r. destruct (shr_fexp_exact (Z.pos (Pos.iter xO q d)) (Z.neg d)) as (r & -> & Hr & _); [lia | lia |].
  rewrite HL in *. change (Z.max 0 (52 + 1 - 53)) with 0 in *. rewrite Z.pow_0_r, Z.div_1_r in Hr. rewrite Hr, Z.add_0_r. done.
Qed.

(** The target of a percentile whose fraction is the double [M * 2^-53]. *)
Lemma target_near n M :
  1 <= n < 2 ^ 43 → 2 ^ 52 <= Z.pos M < 2 ^ 53 →
  ∃ z, u64_of_double (double_mul (S754_finite false M (-53)) (double_of n)) = Some z ∧
    Z.pos M * n / 2 ^ 53 <= z <= Z.pos M * n / 2 ^ 53 + 1 ∧ (Z.pos M = 2 ^ 52 → z = n / 2).
Proof.
  intros Hn HM. destruct (double_of_count n Hn) as (p & s & -> & Hp & Hs).
  assert (0 <= Z.log2 n < 43) as Hl by (split; [apply Z.log2_nonneg | apply Z.log2_lt_pow2; lia]).
  unfold double_mul, SFmul. cbn [xorb]. assert (Z.log2 (Z.pos p) = 52) as Hlp by (rewrite Hp, Z.log2_mul_pow2 by lia; lia).
  assert (Z.log2 (Z.pos M) = 52) as HlM by (apply Z.log2_unique; [lia | exact HM]).
  pose proof (Z.log2_mul_above (Z.pos M) (Z.pos p) ltac:(lia) ltac:(lia)) as Hab. pose proof (Z.log2_mul_below (Z.pos M) (Z.pos p) ltac:(lia) ltac:(lia)) as Hbe.
  rewrite <- Pos2Z.inj_mul in Hab, Hbe. destruct (round_trunc (M * p) (-53 + - s)) as (z & Hz & Hb & Hex); [lia | lia |].
  exists z. split; [exact Hz |].
  assert (Z.pos (M * p) / 2 ^ (- (-53 + - s)) = Z.pos M * n / 2 ^ 53) as Hq.
  { rewrite Pos2Z.inj_mul, Hp. replace (- (-53 + - s)) with (53 + s) by lia. rewrite Z.pow_add_r, Z.mul_assoc by lia.
    apply Z.div_mul_cancel_r; [done |]. apply Z.pow_nonzero; lia. }
  rewrite Hq in *. split; [done |]. intros EM. rewrite Hex.
  - rewrite EM. change (2 ^ 53) with (2 ^ 52 * 2). apply Z.div_mul_cancel_l; [done | lia].
  - assert (Z.log2 (Z.pos (M * p)) = 104) as -> by (rewrite Pos2Z.inj_mul, EM, Z.mul_comm, Z.log2_mul_pow2 by lia; lia).
    rewrite Pos2Z.inj_mul, EM, Z.mul_comm. change (2 ^ Z.max 0 (104 + 1 - 53)) with (2 ^ 52). by apply Z.mod_mul.
Qed.

(** [r] is the rank of [num/den] of [n] samples, or a neighbour of it. *)
Definition near_rank (num den n r : Z) : Prop := 1 <= r <= n ∧ Z.max 1 (num * n / den - 1) <= r <= Z.max 1 (num * n / den + 1).

Lemma target_rank_near n pct M :
  double_div pct (double_of 100) = S754_finite false M (-53) → 1 <= n < 2 ^ 43 → 2 ^ 52 <= Z.pos M < 2 ^ 53 →
  ∃ z, Hist.target_rank n pct = Some (Z.max 1 z) ∧ Z.pos M * n / 2 ^ 53 <= z <= Z.pos M * n / 2 ^ 53 + 1 ∧ (Z.pos M = 2 ^ 52 → z = n / 2).
Proof.
  intros Hp Hn HM. unfold Hist.target_rank. rewrite Hp. destruct (target_near n M Hn HM) as (z & -> & Hb & He). cbn [mbind option_bind].
  assert (0 <= Z.pos M * n / 2 ^ 53) by (apply Z.div_pos; lia).
  exists z. split; [| done]. case_bool_decide; do 2 f_equal; lia.
Qed.

Lemma rank_p50 n : 1 <= n < 2 ^ 43 → Hist.target_rank n (double_of 50) = Some (Z.max 1 (n / 2)).
Proof.
  intros Hn. destruct (target_rank_near n (double_of 50) 4503599627370496) as (z & -> & _ & Hz); [by vm_compute | done | lia |].
  by rewrite Hz.
Qed.

Lemma rank_p99 n : 1 <= n < 2 ^ 43 → ∃ r, Hist.target_rank n (double_of 99) = Some r ∧ near_rank 99 100 n r.
Proof.
  intros Hn. destruct (target_rank_near n (double_of 99) 8917127262193582) as (z & -> & Hz & _); [by vm_compute | done | lia |].
  eexists. split; [done |]. unfold near_rank. change (2 ^ 53) with 9007199254740992 in *. change (2 ^ 43) with 8796093022208 in *. Z.div_mod_to_equations. lia.
Qed.

Lemma rank_p999 n : 1 <= n < 2 ^ 43 → ∃ r, Hist.target_rank n (double_div (double_of 999) (double_of 10)) = Some r ∧ near_rank 999 1000 n r.
Proof.
  intros Hn. destruct (target_rank_near n (double_div (double_of 999) (double_of 10)) 8998192055486252) as (z & -> & Hz & _); [by vm_compute | done | lia |].
  eexists. split; [done |]. unfold near_rank. change (2 ^ 53) with 9007199254740992 in *. change (2 ^ 43) with 8796093022208 in *. Z.div_mod_to_equations. lia.
Qed.
End Ranks.

Lemma u64_of_double_nonneg d z : u64_of_double d = Some z → 0 <= z.
Proof.
  destruct d as [| | | s m e]; cbn; [by intros [= <-] | done | done |]. case_bool_decide; [by intros [= <-] |]. destruct s; [done |].
  case_bool_decide; [| done]. intros [= <-]. apply Z.shiftl_nonneg. lia.
Qed.

Lemma target_rank_pos total pct t : Hist.target_rank total pct = Some t → 1 <= t.
Proof.
  unfold Hist.target_rank. destruct (u64_of_double _) as [z |] eqn:Hz; [| done]. intros [= <-]. apply u64_of_double_nonneg in Hz. case_bool_decide; lia.
Qed.

(** What the report says of the samples [vs], sorted as [s]: the upper
    boundary of the bucket of the sample of that rank. *)
Definition boundary (N W : Z) (s : list Z) (t : Z) : Z :=
  match s.[t - 1] with Some v => (Hist.bucket_of N W v + 1) * W | None => N * W end.

Lemma percentile_eq N W vs s h pct :
  1 <= N → 1 <= W → N * W < 2 ^ 64 → holds N W vs h → Forall (λ v, 0 <= v) vs → vs ≠ [] → Sorted Z.le s → s ≡ₚ vs →
  SFleb (double_of 0) pct && SFleb pct (double_of 100) = true →
  Hist.percentile N W h pct = (t ← Hist.target_rank (lenZ vs) pct; Some (boundary N W s t)).
Proof.
  intros HN HW Hm Hh Hvs Hne Hs Hp Hpct. unfold Hist.percentile, Hist.empty. rewrite Hpct. cbn [assertM mbind option_bind].
  pose proof (hs_total _ _ _ _ Hh) as [Htot _]. rewrite bool_decide_false by (rewrite Htot; destruct vs; [done | cbn; lia]).
  rewrite Htot. destruct (Hist.target_rank (lenZ vs) pct) as [t |] eqn:Ht; [| done]. cbn [mbind option_bind]. f_equal.
  apply (scan_correct N W HN HW Hm vs s h t); try done. by eapply target_rank_pos.
Qed.

(** * What the tracker holds *)

Section TrackerSpec.
Import Tracker.

Inductive Metric : Set := MInner | MFeedParse | MQueueHop | MQueueWait | MStrategy | MOrderSend | MKernel | MGap | MRtt.
#[export] Instance Metric_eq_dec : EqDecision Metric.
Proof. solve_decision. Defined.

(** The calls of the recording functions. *)
Inductive Event : Set :=
  | TickToTrade (start_tsc end_tsc : Z) | FeedParse (cycles : Z) | QueueLatency (cycles : Z) | QueueWait (cycles : Z)
  | StrategyEval (cycles : Z) | OrderSend (cycles : Z)
  | KernelTickToTrade (kernel_recv_ns post_send_ns : Z) | RxKernelGap (kernel_recv_ns userspace_recv_ns : Z) | OrderRtt (now send_ts_nanos : Z).

Definition step (t : LatencyTracker) (e : Event) : option LatencyTracker :=
  match e with
  | TickToTrade a b => record_tick_to_trade t a b
  | FeedParse c => record_feed_parse t c
  | QueueLatency c => record_queue_latency t c
  | QueueWait c => record_queue_wait t c
  | StrategyEval c => record_strategy t c
  | OrderSend c => record_order_send t c
  | KernelTickToTrade a b => record_kernel_tick_to_trade t a b
  | RxKernelGap a b => record_rx_kernel_gap t a b
  | OrderRtt now ts => record_order_rtt t now ts
  end.

Fixpoint run (t : LatencyTracker) (events : list Event) : option LatencyTracker :=
  match events with [] => Some t | e :: events => t ← step t e; run t events end.

Definition metric (e : Event) : Metric :=
  match e with
  | TickToTrade _ _ => MInner | FeedParse _ => MFeedParse | QueueLatency _ => MQueueHop | QueueWait _ => MQueueWait | StrategyEval _ => MStrategy
  | OrderSend _ => MOrderSend | KernelTickToTrade _ _ => MKernel | RxKernelGap _ _ => MGap | OrderRtt _ _ => MRtt
  end.

(** The sample a call records: an interval that is not positive, or of a
    datagram without a kernel timestamp, is none. *)
Definition sample (e : Event) : option Z :=
  match e with
  | TickToTrade a b => if decide (a < b) then Some (b - a) else None
  | FeedParse c | QueueLatency c | QueueWait c | StrategyEval c | OrderSend c => Some c
  | KernelTickToTrade a b | RxKernelGap a b => if decide (0 < a < b) then Some (b - a) else None
  | OrderRtt now ts => if decide (ts < now) then Some (now - ts) else None
  end.

Definition samples (m : Metric) (events : list Event) : list Z :=
  omap (λ e, if decide (metric e = m) then sample e else None) events.

(** Arguments as the program passes them: cycles and time stamp counters are
    64-bit unsigned, clock readings 64-bit signed and not negative. *)
Definition event_ok (e : Event) : Prop :=
  match e with
  | TickToTrade a b => is_u64 a ∧ is_u64 b
  | FeedParse c | QueueLatency c | QueueWait c | StrategyEval c | OrderSend c => is_u64 c
  | KernelTickToTrade a b | RxKernelGap a b => is_s64 a ∧ is_s64 b
  | OrderRtt now ts => 0 <= now < 2 ^ 63 ∧ 0 <= ts < 2 ^ 63
  end.

Definition buckets_of (m : Metric) : Z := match m with MRtt => kRttNumBuckets | _ => 1024 end.
Definition width_of (m : Metric) : Z := match m with MRtt => kRttBucketWidth | MKernel | MGap => kKernelNsBucketWidth | _ => kTscBucketWidth end.

Definition histogram_of (m : Metric) (t : LatencyTracker) : option Hist.Histogram :=
  match m with
  | MInner => Some (tick_to_trade_ t)
  | MFeedParse => Rec.histogram kNumStages (stages_ t) kFeedParse
  | MQueueHop => Rec.histogram kNumStages (stages_ t) kQueueHop
  | MQueueWait => Some (queue_wait_ t)
  | MStrategy => Rec.histogram kNumStages (stages_ t) kStrategy
  | MOrderSend => Rec.histogram kNumStages (stages_ t) kOrderSend
  | MKernel => Some (kernel_tick_to_trade_ t)
  | MGap => Some (rx_kernel_gap_ t)
  | MRtt => Some (order_rtt_ t)
  end.

Definition warmup_of (m : Metric) (t : LatencyTracker) : option Warmup :=
  match m with
  | MInner => Some (warmup_tick_to_trade_ t)
  | MFeedParse => Some (warmup_feed_parse_ t)
  | MQueueHop => Some (warmup_queue_hop_ t)
  | MStrategy => Some (warmup_strategy_ t)
  | MOrderSend => Some (warmup_order_send_ t)
  | _ => None
  end.

Definition counter_of (m : Metric) (t : LatencyTracker) : option Z :=
  match m with MInner => Some (total_ticks_ t) | MKernel => Some (total_kernel_ticks_ t) | MRtt => Some (total_rtts_ t) | _ => None end.

(** The first 256 samples. *)
Definition warmed (vs : list Z) (w : Warmup) : Prop :=
  length w.1 = 256%nat ∧ w.2 = Z.min 256 (lenZ vs) ∧ take (Z.to_nat w.2) w.1 = take 256 vs.

Lemma warm_ok vs w v : warmed vs w → ∃ w', warm w v = Some w' ∧ warmed (vs ++ [v]) w'.
Proof.
  destruct w as [data n]. intros (Hl & Hn & Ht). cbn [fst snd] in *. unfold warm, kWarmupTicks. case_bool_decide as Hlt.
  - rewrite storeZ_Some by lia. cbn [mbind option_bind]. eexists. split; [done |]. unfold warmed. cbn [fst snd]. rewrite length_setZ, length_app. cbn [length].
    rewrite u64_id by (unfold is_u64; lia). split; [done |]. split; [lia |].
    rewrite (take_snocZ _ n v) by (apply getZ_setZ_eq; lia). unfold setZ. rewrite take_insert_ge by lia. rewrite Ht, !take_ge by (rewrite ?length_app; cbn [length]; lia). done.
  - eexists. split; [done |]. unfold warmed. cbn [fst snd]. rewrite length_app. cbn [length]. split; [done |]. split; [lia |]. rewrite Ht. rewrite take_app_le by lia. done.
Qed.

(** One call changes its own metric only. *)
Record effect (e : Event) (t t' : LatencyTracker) : Prop := {
  ef_hist m : histogram_of m t' =
    match sample e with
    | Some v => if decide (metric e = m) then h ← histogram_of m t; Hist.record (buckets_of m) (width_of m) h v else histogram_of m t
    | None => histogram_of m t
    end;
  ef_warm m : warmup_of m t' =
    match sample e with Some v => if decide (metric e = m) then w ← warmup_of m t; warm w v else warmup_of m t | None => warmup_of m t end;
  ef_counter m : counter_of m t' =
    match sample e with Some v => if decide (metric e = m) then n ← counter_of m t; Some (u64 (n + 1)) else counter_of m t | None => counter_of m t end;
}.

Lemma stage_record t stage c h :
  Rec.histogram kNumStages (stages_ t) stage = Some h → ∀ h', Hist.record kTscNumBuckets kTscBucketWidth h c = Some h' →
  ∃ r, record_stage t stage c = Some r ∧ ∀ j, 0 <= j < 4 → Rec.histogram kNumStages r j = if decide (j = stage) then Some h' else Rec.histogram kNumStages (stages_ t) j.
Proof.
  unfold Rec.histogram, record_stage, Rec.record. intros Hh h' Hr. destruct (assertM (bool_decide (stage < kNumStages))); [| done]. cbn [mbind option_bind] in *.
  rewrite Hh. cbn [mbind option_bind]. rewrite Hr. cbn [mbind option_bind]. pose proof (getZ_Some _ _ _ Hh). rewrite storeZ_Some by done. eexists. split; [done |].
  intros j Hj. rewrite bool_decide_true by (unfold kNumStages; lia). cbn [assertM mbind option_bind]. rewrite getZ_setZ by done.
  destruct (decide (stage = j)) as [-> |]; [by rewrite decide_True | by rewrite decide_False].
Qed.

Lemma sample_range e v : event_ok e → sample e = Some v → is_u64 v.
Proof. unfold is_u64. destruct e; cbn; unfold is_u64, is_s64; try case_decide; intros He [= <-]; try done; lia. Qed.

(** The effect of a recording in one of the four stages. *)
Ltac stage_effect Hj Hhist Hrec Hw :=
  split; intros [];
  cbn [sample metric histogram_of warmup_of counter_of with_stages stages_ tick_to_trade_ queue_wait_ order_rtt_ kernel_tick_to_trade_ rx_kernel_gap_ total_ticks_
       total_rtts_ total_kernel_ticks_ warmup_tick_to_trade_ warmup_feed_parse_ warmup_queue_hop_ warmup_strategy_ warmup_order_send_ buckets_of width_of];
  rewrite ?Hj by (split; vm_compute; congruence); repeat case_decide; try done; rewrite ?Hhist; cbn [mbind option_bind]; rewrite ?Hrec, ?Hw; done.

Lemma step_ok e t :
  event_ok e →
  (∀ v, sample e = Some v → ∃ h h', histogram_of (metric e) t = Some h ∧ Hist.record (buckets_of (metric e)) (width_of (metric e)) h v = Some h') →
  (∀ v w, sample e = Some v → warmup_of (metric e) t = Some w → ∃ w', warm w v = Some w') →
  ∃ t', step t e = Some t' ∧ effect e t t'.
Proof.
  intros He Hh Hw. destruct (sample e) as [v |] eqn:Hs.
  - destruct (Hh v eq_refl) as (h & h' & Hhist & Hrec). pose proof (λ w, Hw v w eq_refl) as Hwarm. clear Hh Hw. pose proof (sample_range e v He Hs) as Hv.
    destruct e as [a b | c | c | c | c | c | a b | a b | now ts]; cbn [sample metric histogram_of warmup_of buckets_of width_of step event_ok] in *.
    + case_decide; [| done]. injection Hs as <-. unfold record_tick_to_trade. rewrite bool_decide_true by lia. rewrite (u64_id (b - a)) by done.
      injection Hhist as <-. fold kTscNumBuckets in Hrec. rewrite Hrec. cbn [mbind option_bind]. destruct (Hwarm _ eq_refl) as [w' Hw']. rewrite Hw'. cbn [mbind option_bind].
      eexists. split; [done |]. split; intros []; cbn; rewrite ?decide_True by (done || lia); rewrite ?Hrec, ?Hw'; done.
    + injection Hs as <-. destruct (stage_record t _ c h Hhist h' Hrec) as (r & Hr & Hj). unfold record_feed_parse. rewrite Hr. cbn [mbind option_bind].
      destruct (Hwarm _ eq_refl) as [w' Hw']. rewrite Hw'. cbn [mbind option_bind]. eexists. split; [done |].
      stage_effect Hj Hhist Hrec Hw'.
    + injection Hs as <-. destruct (stage_record t _ c h Hhist h' Hrec) as (r & Hr & Hj). unfold record_queue_latency. rewrite Hr. cbn [mbind option_bind].
      destruct (Hwarm _ eq_refl) as [w' Hw']. rewrite Hw'. cbn [mbind option_bind]. eexists. split; [done |].
      stage_effect Hj Hhist Hrec Hw'.
    + injection Hs as <-. injection Hhist as <-. unfold record_queue_wait. fold kTscNumBuckets in Hrec. rewrite Hrec. cbn [mbind option_bind].
      eexists. split; [done |]. split; intros []; cbn; rewrite ?Hrec; done.
    + injection Hs as <-. destruct (stage_record t _ c h Hhist h' Hrec) as (r & Hr & Hj). unfold record_strategy. rewrite Hr. cbn [mbind option_bind].
      destruct (Hwarm _ eq_refl) as [w' Hw']. rewrite Hw'. cbn [mbind option_bind]. eexists. split; [done |].
      stage_effect Hj Hhist Hrec Hw'.
    + injection Hs as <-. destruct (stage_record t _ c h Hhist h' Hrec) as (r & Hr & Hj). unfold record_order_send. rewrite Hr. cbn [mbind option_bind].
      destruct (Hwarm _ eq_refl) as [w' Hw']. rewrite Hw'. cbn [mbind option_bind]. eexists. split; [done |].
      stage_effect Hj Hhist Hrec Hw'.
    + case_decide; [| done]. injection Hs as <-. unfold record_kernel_tick_to_trade. rewrite !bool_decide_true by lia. cbn [andb].
      rewrite check_s64_ok by (unfold is_s64 in *; lia). cbn [mbind option_bind]. rewrite (u64_id (b - a)) by done. injection Hhist as <-. fold kKernelNsNumBuckets in Hrec.
      rewrite Hrec. cbn [mbind option_bind]. eexists. split; [done |]. split; intros []; cbn; rewrite ?decide_True by (done || lia); rewrite ?Hrec; done.
    + case_decide; [| done]. injection Hs as <-. unfold record_rx_kernel_gap. rewrite !bool_decide_true by lia. cbn [andb].
      rewrite check_s64_ok by (unfold is_s64 in *; lia). cbn [mbind option_bind]. rewrite (u64_id (b - a)) by done. injection Hhist as <-. fold kKernelNsNumBuckets in Hrec.
      rewrite Hrec. cbn [mbind option_bind]. eexists. split; [done |]. split; intros []; cbn; rewrite ?decide_True by (done || lia); rewrite ?Hrec; done.
    + case_decide; [| done]. injection Hs as <-. unfold record_order_rtt. rewrite !bool_decide_true by lia.
      rewrite check_s64_ok by (unfold is_s64; lia). cbn [mbind option_bind]. rewrite (u64_id (now - ts)) by done. injection Hhist as <-.
      rewrite Hrec. cbn [mbind option_bind]. eexists. split; [done |]. split; intros []; cbn; rewrite ?decide_True by (done || lia); rewrite ?Hrec; done.
  - exists t. split; [| split; by rewrite Hs].
    destruct e as [a b | c | c | c | c | c | a b | a b | now ts]; cbn [sample step] in *; try done; case_decide; try done.
    + unfold record_tick_to_trade. by rewrite bool_decide_false by lia.
    + unfold record_kernel_tick_to_trade. destruct (bool_decide_reflect (a > 0)); [| done]. by rewrite bool_decide_false by lia.
    + unfold record_rx_kernel_gap. destruct (bool_decide_reflect (a > 0)); [| done]. by rewrite bool_decide_false by lia.
    + unfold record_order_rtt. by rewrite bool_decide_false by lia.
Qed.

Lemma samples_snoc m events e : samples m (events ++ [e]) = samples m events ++ match sample e with Some v => if decide (metric e = m) then [v] else [] | None => [] end.
Proof. unfold samples. rewrite omap_app. f_equal. cbn. destruct (decide _), (sample e); done. Qed.

Lemma samples_nonneg m events : Forall event_ok events → Forall (λ v, 0 <= v) (samples m events).
Proof.
  intros He. apply Forall_forall. intros v Hv. apply list_elem_of_In, list_elem_of_omap in Hv as (e & He' & Hv). destruct (decide _); [| done].
  rewrite Forall_forall in He. destruct (sample_range e v (He e (proj1 (list_elem_of_In _ _) He')) Hv). lia.
Qed.

Lemma length_samples m events : (length (samples m events) <= length events)%nat.
Proof. unfold samples. induction events as [| e events IH]; cbn; [done |]. destruct (if decide (metric e = m) then sample e else None); cbn; lia. Qed.

Record tracks (events : list Event) (t : LatencyTracker) : Prop := {
  tr_hist m : ∃ h, histogram_of m t = Some h ∧ holds (buckets_of m) (width_of m) (samples m events) h;
  tr_warm m w : warmup_of m t = Some w → warmed (samples m events) w;
  tr_counter m n : counter_of m t = Some n → n = lenZ (samples m events);
}.

Lemma buckets_width m : 1 <= buckets_of m ∧ 1 <= width_of m ∧ buckets_of m * width_of m < 2 ^ 64.
Proof. destruct m; cbn; unfold kRttNumBuckets, kRttBucketWidth, kKernelNsBucketWidth, kTscBucketWidth; lia. Qed.

Lemma construct_tracks : tracks [] construct.
Proof.
  split.
  - intros m. destruct (buckets_width m) as (H1 & H2 & H3). exists (Hist.construct (buckets_of m)). split; [by destruct m | by apply holds_construct].
  - intros m w. destruct m; cbn; intros [= <-]; unfold warmed; cbn -[Pos.to_nat]; (split; [by rewrite length_replicate | done]).
  - intros m n. destruct m; cbn; by intros [= <-].
Qed.

Lemma step_tracks events t e :
  tracks events t → event_ok e → lenZ events + 1 < 2 ^ 64 → ∃ t', step t e = Some t' ∧ tracks (events ++ [e]) t'.
Proof.
  intros [T1 T2 T3] He Hlen. pose proof (λ m, length_samples m events) as Hs.
  destruct (step_ok e t He) as (t' & Ht & [E1 E2 E3]).
  - intros v Hv. destruct (T1 (metric e)) as (h & Hh & Hholds). destruct (buckets_width (metric e)) as (H1 & H2 & H3). specialize (Hs (metric e)).
    destruct (record_holds _ _ H1 H2 _ h v Hholds) as (h' & Hr & _); [apply (sample_range e v He Hv) | lia | by exists h, h'].
  - intros v w Hv Hw. destruct (warm_ok _ w v (T2 _ w Hw)) as (w' & Hw' & _). by exists w'.
  - exists t'. split; [done |]. destruct (sample e) as [v |] eqn:Hv.
    + pose proof (sample_range e v He Hv) as Hrange. split; intros m; specialize (Hs m); rewrite samples_snoc, Hv.
      * rewrite E1. destruct (T1 m) as (h & Hh & Hholds). destruct (decide (metric e = m)) as [<- |]; [| rewrite app_nil_r; by exists h].
        destruct (buckets_width (metric e)) as (H1 & H2 & H3). rewrite Hh. cbn [mbind option_bind].
        destruct (record_holds _ _ H1 H2 _ h v Hholds) as (h' & Hr & Hh'); [apply Hrange | lia | by exists h'].
      * intros w. rewrite E2. destruct (decide (metric e = m)) as [<- |]; [| rewrite app_nil_r; apply T2].
        destruct (warmup_of (metric e) t) as [w0 |] eqn:Hw0; [| done]. cbn [mbind option_bind]. destruct (warm_ok _ w0 v (T2 _ w0 Hw0)) as (w' & Hw' & Hok).
        rewrite Hw'. by intros [= <-].
      * intros n. rewrite E3. destruct (decide (metric e = m)) as [<- |]; [| rewrite app_nil_r; apply T3].
        destruct (counter_of (metric e) t) as [n0 |] eqn:Hn0; [| done]. cbn [mbind option_bind]. intros [= <-]. rewrite (T3 _ n0 Hn0), length_app. cbn [length].
        rewrite u64_id by (unfold is_u64; lia). lia.
    + split; intros m; rewrite samples_snoc, Hv, app_nil_r; [rewrite E1; apply T1 | intros w; rewrite E2; apply T2 | intros n; rewrite E3; apply T3].
Qed.

Lemma run_tracks events : ∀ past t, tracks past t → Forall event_ok events → lenZ past + lenZ events < 2 ^ 64 →
  ∃ t', run t events = Some t' ∧ tracks (past ++ events) t'.
Proof.
  induction events as [| e events IH]; intros past t Ht He Hlen; cbn [run length] in *; [exists t; by rewrite app_nil_r |].
  apply Forall_cons_1 in He as [He Hes]. destruct (step_tracks past t e Ht He) as (t1 & -> & Ht1); [lia |]. cbn [mbind option_bind].
  destruct (IH (past ++ [e]) t1 Ht1 Hes) as (t' & Hr & Ht'); [rewrite length_app; cbn [length]; lia |]. exists t'. by rewrite <- app_assoc in Ht'.
Qed.

(** The ranks of the warm-up report, computed for every count. *)
Lemma warmup_indices n : 1 <= n <= 256 → warmup_index n p50 = Some ((n - 1) / 2) ∧ warmup_index n p99 = Some (99 * (n - 1) / 100).
Proof.
  intros Hn.
  assert (forallb (λ k, bool_decide (warmup_index (Z.of_nat k) p50 = Some ((Z.of_nat k - 1) / 2)) && bool_decide (warmup_index (Z.of_nat k) p99 = Some (99 * (Z.of_nat k - 1) / 100)))
    (seq 1 256) = true) as Hall by (vm_compute; reflexivity).
  rewrite forallb_forall in Hall. specialize (Hall (Z.to_nat n) ltac:(apply in_seq; lia)). rewrite Z2Nat.id in Hall by lia.
  by apply andb_true_iff in Hall as [?%bool_decide_eq_true ?%bool_decide_eq_true].
Qed.

Lemma merge_sort_unique (l s : list Z) : Sorted Z.le s → s ≡ₚ l → merge_sort (≤) l = s.
Proof.
  intros Hs Hp. apply (StronglySorted_unique Z.le).
  - apply Sorted_StronglySorted, Sorted_merge_sort; typeclasses eauto.
  - apply Sorted_StronglySorted; [typeclasses eauto | done].
  - by rewrite merge_sort_Permutation, Hp.
Qed.

Lemma warmup_correct vs w s :
  warmed vs w → vs ≠ [] → Sorted Z.le s → s ≡ₚ take 256 vs →
  ∃ w' first a b last, warmup_figures w = Some (w', Some [first; a; b; last; lenZ s]) ∧
    s.[0] = Some first ∧ s.[(lenZ s - 1) / 2] = Some a ∧ s.[99 * (lenZ s - 1) / 100] = Some b ∧ s.[lenZ s - 1] = Some last.
Proof.
  destruct w as [data n]. intros (Hl & Hn & Ht) Hne Hs Hp. cbn [fst snd] in *. unfold warmup_figures. rewrite Ht, (merge_sort_unique _ s) by done.
  assert (lenZ s = n) as Hls by (rewrite Hp, length_take; lia). assert (1 <= n <= 256) as Hn1 by (destruct vs; [done | cbn [length] in Hn; lia]).
  rewrite bool_decide_false by lia. destruct (warmup_indices n Hn1) as [Hi Hj].
  assert (∀ i, 0 <= i < n → ∃ x, (s ++ drop (Z.to_nat n) data).[i] = Some x ∧ s.[i] = Some x) as Hget.
  { intros i Hir. destruct (getZ_is_Some s i) as [x Hx]; [lia |]. exists x. split; [| done]. by rewrite getZ_app_l by lia. }
  destruct (Hget 0) as (x0 & H0 & H0'); [lia |]. destruct (Hget ((n - 1) / 2)) as (x1 & H1 & H1'); [Z.div_mod_to_equations; lia |].
  destruct (Hget (99 * (n - 1) / 100)) as (x2 & H2 & H2'); [Z.div_mod_to_equations; lia |]. destruct (Hget (n - 1)) as (x3 & H3 & H3'); [lia |].
  rewrite H0. cbn [mbind option_bind]. rewrite Hi. cbn [mbind option_bind]. rewrite H1. cbn [mbind option_bind]. rewrite Hj. cbn [mbind option_bind]. rewrite H2.
  cbn [mbind option_bind]. rewrite u64_id by (unfold is_u64; lia). rewrite H3. cbn [mbind option_bind]. rewrite Hls. eexists _, x0, x1, x2, x3.
  split; [reflexivity |]. split; [exact H0' |]. split; [exact H1' |]. split; [exact H2' | exact H3'].
Qed.
End TrackerSpec.

Import Tracker.

(** C25. The latency report says what was recorded.  For every sequence of fewer than 2^43
    recordings nothing fails, every sample (a positive interval with its time stamps present)
    is in the histogram of its stage and no other, and the counters count them.  The figures
    printed for a stage are the least sample, three percentiles, the greatest sample and their
    number [n].  The median is the upper boundary of the bucket that holds the sample of rank
    n/2 in sorted order; p99 and p99.9 those of the ranks 99n/100 and 999n/1000 or of a
    neighbouring rank, as floating point rounds.  A sample below the range of the histogram's
    buckets lies less than a bucket's width below that boundary; larger ones share the last
    bucket.  The warm-up figures are taken exactly from the first 256 samples, sorted. *)
Theorem latency_report_correct (events : list Event) :
  Forall event_ok events → lenZ events < 2 ^ 43 →
  ∃ t, run construct events = Some t ∧ ∀ m, let vs := samples m events in let n := lenZ vs in
    (∀ k, counter_of m t = Some k → k = n) ∧
    ∃ h, histogram_of m t = Some h ∧
      (vs = [] → stage_figures (buckets_of m) (width_of m) h = Some None) ∧
      (∀ s, vs ≠ [] → Sorted Z.le s → s ≡ₚ vs →
         let value := boundary (buckets_of m) (width_of m) s in
         (∃ b c, near_rank 99 100 n b ∧ near_rank 999 1000 n c ∧
            stage_figures (buckets_of m) (width_of m) h =
              Some (Some [fold_left Z.min vs (2 ^ 64 - 1); value (Z.max 1 (n / 2)); value b; value c; fold_left Z.max vs 0; n])) ∧
         (∀ r v, s.[r - 1] = Some v → v < buckets_of m * width_of m → value r - width_of m <= v < value r)) ∧
      (∀ w s, warmup_of m t = Some w → vs ≠ [] → Sorted Z.le s → s ≡ₚ take 256 vs →
         ∃ w' first x y last, warmup_figures w = Some (w', Some [first; x; y; last; lenZ s]) ∧
           s.[0] = Some first ∧ s.[(lenZ s - 1) / 2] = Some x ∧ s.[99 * (lenZ s - 1) / 100] = Some y ∧ s.[lenZ s - 1] = Some last).
Proof.
  intros He Hlen. destruct (run_tracks events [] construct construct_tracks He) as (t & Hr & [T1 T2 T3]); [cbn; lia |]. cbn [app] in *.
  exists t. split; [done |]. intros m. set (vs := samples m events). cbv zeta. split; [apply T3 |]. destruct (T1 m) as (h & Hh & Hholds). exists h. split; [done |].
  fold vs in Hholds. pose proof (hs_total _ _ _ _ Hholds) as [Htot _]. destruct (buckets_width m) as (H1 & H2 & H3).
  assert (vs ≠ [] → Hist.empty h = false) as Hemp by (intros Hne; unfold Hist.empty; apply bool_decide_eq_false; rewrite Htot; destruct vs; [done | cbn; lia]).
  split; [| split].
  - intros Hnil. unfold stage_figures, Hist.empty. rewrite Htot, Hnil. done.
  - intros s Hne Hs Hp. pose proof (samples_nonneg m events He) as Hvs. fold vs in Hvs. split.
    + assert (1 <= lenZ vs < 2 ^ 43) as Hn by (pose proof (length_samples m events) as Hl; fold vs in Hl; clearbody vs; destruct vs; [done | cbn [length] in *; lia]).
      destruct (rank_p99 _ Hn) as (b & Hb & Hnb), (rank_p999 _ Hn) as (c & Hc & Hnc). exists b, c. split; [done |]. split; [done |].
      unfold stage_figures. rewrite (Hemp Hne). rewrite !(percentile_eq _ _ vs s h) by (done || vm_compute; reflexivity).
      unfold Hist.min_value, Hist.max_value, Hist.total_count. rewrite (hs_min _ _ _ _ Hholds), (hs_max _ _ _ _ Hholds), Htot.
      unfold p50, p99, p999. by rewrite (rank_p50 _ Hn), Hb, Hc.
    + intros r v Hv Hv2. assert (0 <= v) as Hv0.
      { apply getZ_to_lookup, list_elem_of_lookup_2 in Hv. rewrite Hp in Hv. rewrite Forall_forall in Hvs. by apply Hvs, list_elem_of_In. }
      unfold boundary. rewrite Hv. pose proof (bucket_bounds (buckets_of m) (width_of m) ltac:(lia) v ltac:(lia)). lia.
  - intros w s Hw Hne Hs Hp. apply (warmup_correct vs); [by apply T2 | done ..].
Qed.

Definition demo_events : list Event :=
  [FeedParse 300; OrderRtt 5000 1000; FeedParse 100; RxKernelGap 0 77; TickToTrade 9 9; FeedParse 200; TickToTrade 9 1009; QueueWait 10].

Lemma latency_report_correct_witness :
  ∃ t h b c, run construct demo_events = Some t ∧ histogram_of MFeedParse t = Some h ∧ counter_of MInner t = Some 1 ∧
    samples MFeedParse demo_events = [300; 100; 200] ∧ samples MGap demo_events = [] ∧ samples MInner demo_events = [1000] ∧
    near_rank 99 100 3 b ∧ near_rank 999 1000 3 c ∧
    stage_figures 1024 128 h = Some (Some [100; 128; boundary 1024 128 [100; 200; 300] b; boundary 1024 128 [100; 200; 300] c; 300; 3]).
Proof.
  destruct (latency_report_correct demo_events) as (t & Hr & Hm).
  - repeat constructor; unfold is_u64, is_s64; lia.
  - cbn; lia.
  - destruct (Hm MFeedParse) as (_ & h & Hh & _ & Hfig & _). destruct (Hm MInner) as (Hc & _).
    destruct (Hfig [100; 200; 300]) as ((b & c & Hb & Hc' & Hf) & _).
    + discriminate.
    + repeat constructor; lia.
    + change ([100; 200; 300] ≡ₚ [300; 100; 200]). by rewrite (Permutation_app_comm [300] [100; 200]).
    + exists t, h, b, c. split; [exact Hr |]. split; [exact Hh |].
      split; [| split; [vm_compute; reflexivity | split; [vm_compute; reflexivity | split; [vm_compute; reflexivity |]]]].
      * destruct (counter_of MInner t) as [n |] eqn:E; [rewrite (Hc n eq_refl); reflexivity | discriminate].
      * split; [exact Hb |]. split; [exact Hc' |]. exact Hf.
Defined.

(** A histogram of the given samples. *)
Fixpoint recorded (N W : Z) (h : Hist.Histogram) (vs : list Z) : option Hist.Histogram :=
  match vs with [] => Some h | v :: vs => h ← Hist.record N W h v; recorded N W h vs end.

(** Two limits of the percentiles, on histograms of the client's own dimensions.  The rank
    is computed in floating point: of 100 samples the 29th percentile is that of rank 28, and
    the answer is below the sample of rank 29 by more than a bucket's width.  And the last
    bucket is open-ended: with samples above its range the report prints a median below the
    minimum.  Both exceed the one-bucket error the class documents. *)
Theorem percentile_limits :
  Hist.target_rank 100 (double_of 29) = Some 28 ∧
  (h ← recorded 1024 128 (Hist.construct 1024) (replicate 28 0 ++ replicate 72 1000); Hist.percentile 1024 128 h (double_of 29)) = Some 128 ∧
  (replicate 28 0 ++ replicate 72 1000).[29 - 1] = Some 1000 ∧
  (h ← recorded 1024 128 (Hist.construct 1024) [200000; 200100]; stage_figures 1024 128 h) = Some (Some [200000; 131072; 131072; 131072; 200100; 2]).
Proof. repeat split; vm_compute; reflexivity. Qed.
