(* ===== verification/SpscQueue.v ===== *)
(** The single-producer single-consumer queues:
    [src/libs/sys/memory/spsc_queue.hpp] (run-time capacity, caller's buffer)
    and [src/libs/sys/memory/fixed_spsc_queue.hpp] (inline storage).

    Two threads run their calls one memory access at a time, in any order.
    The atomic indices follow the C++ memory model for variables with a
    single writer: [tail_] and [head_] are their modification orders, a
    relaxed load of a thread's own index reads its last store, and an acquire
    load of the other's may read any store that is not older than one already
    read.  Each store carries the clock of its thread, and reading it makes
    everything the writer did before known to the reader.  An access to a
    slot of the buffer that conflicts with one of the other thread that is
    not known is a data race, undefined behaviour, and [None]. *)
From S2P Require Import Prelude.
From S2P Require Import BitUtils.
Local Open Scope Z_scope.
Local Open Scope array_scope.

Module SPSC.
Section Queue.
  Context {T : Type}.
  Context (trivially_copyable : bool).

(** * Capacity and construction *)

Definition is_valid_capacity (c : Z) : bool := bool_decide (c >= 2) && is_power_of_two c.

Definition round_up_capacity (n : Z) : option Z :=
  if bool_decide (n = 0) then Some 0
  else if bool_decide (n <= 2) then Some 2
  else c ← round_up_pow2 n; Some (u32 c).

Definition required_buffer_size (sizeof capacity : Z) : Z := u64 (capacity * sizeof).

(** * Calls and program counters *)

Inductive PushCall := TryPush (v : T) | TryPushBatch (items : list T).
Inductive PopCall := TryPop | Drain (max_count : Z).

(** [PLoadHead]: [tail_] is loaded.  [PWrite t n i]: [n] items go in, [i] are
    written.  [PPublish]: the release store is next.  The consumer's states
    mirror these; [out] is what it has copied so far. *)
Inductive ProducerPc :=
  | PIdle
  | PLoadHead (c : PushCall) (t : Z)
  | PWrite (c : PushCall) (t n i : Z)
  | PPublish (c : PushCall) (t n : Z).
Inductive ConsumerPc :=
  | CIdle
  | CLoadTail (c : PopCall) (h : Z)
  | CRead (c : PopCall) (h n i : Z) (out : list T)
  | CPublish (c : PopCall) (h n : Z) (out : list T).

(** One store of an atomic index: its value and its writer's clock. *)
Record Store := { value : Z; stamp : Z }.

(** A thread: where it is, its clock, the clock of the other thread up to
    which it knows what happened, the position of the last store of the
    other's index it has read, the calls it is still to make, and the calls
    that have returned with their results. *)
Record Producer := {
  p_pc : ProducerPc; p_clock : Z; p_knows : Z; p_view : nat;
  p_calls : list PushCall; p_done : list (PushCall * Z) }.
Record Consumer := {
  c_pc : ConsumerPc; c_clock : Z; c_knows : Z; c_view : nat;
  c_calls : list PopCall; c_done : list (PopCall * list T) }.

(** [written] and [read] hold the clock of the last write and of the last
    read of each slot. *)
Record Machine := {
  capacity_ : Z; mask_ : Z; buf_raw_ : list T;
  tail_ : list Store; head_ : list Store;
  written : list Z; read : list Z;
  producer : Producer; consumer : Consumer }.

Implicit Types (m : Machine) (p : Producer) (c : Consumer).

Definition p_go p (pc : ProducerPc) : Producer :=
  {| p_pc := pc; p_clock := p_clock p + 1; p_knows := p_knows p; p_view := p_view p;
     p_calls := p_calls p; p_done := p_done p |}.
Definition p_start p (pc : ProducerPc) (calls : list PushCall) : Producer :=
  {| p_pc := pc; p_clock := p_clock p + 1; p_knows := p_knows p; p_view := p_view p;
     p_calls := calls; p_done := p_done p |}.
Definition p_synced p (view : nat) (clock : Z) : Producer :=
  {| p_pc := p_pc p; p_clock := p_clock p; p_knows := Z.max (p_knows p) clock; p_view := view;
     p_calls := p_calls p; p_done := p_done p |}.
Definition p_return p (call : PushCall) (r : Z) : Producer :=
  {| p_pc := PIdle; p_clock := p_clock p + 1; p_knows := p_knows p; p_view := p_view p;
     p_calls := p_calls p; p_done := p_done p ++ [(call, r)] |}.

Definition c_go c (pc : ConsumerPc) : Consumer :=
  {| c_pc := pc; c_clock := c_clock c + 1; c_knows := c_knows c; c_view := c_view c;
     c_calls := c_calls c; c_done := c_done c |}.
Definition c_start c (pc : ConsumerPc) (calls : list PopCall) : Consumer :=
  {| c_pc := pc; c_clock := c_clock c + 1; c_knows := c_knows c; c_view := c_view c;
     c_calls := calls; c_done := c_done c |}.
Definition c_synced c (view : nat) (clock : Z) : Consumer :=
  {| c_pc := c_pc c; c_clock := c_clock c; c_knows := Z.max (c_knows c) clock; c_view := view;
     c_calls := c_calls c; c_done := c_done c |}.
Definition c_return c (call : PopCall) (r : list T) : Consumer :=
  {| c_pc := CIdle; c_clock := c_clock c + 1; c_knows := c_knows c; c_view := c_view c;
     c_calls := c_calls c; c_done := c_done c ++ [(call, r)] |}.

Definition with_producer m p : Machine :=
  {| capacity_ := capacity_ m; mask_ := mask_ m; buf_raw_ := buf_raw_ m; tail_ := tail_ m; head_ := head_ m;
     written := written m; read := read m; producer := p; consumer := consumer m |}.
Definition with_consumer m c : Machine :=
  {| capacity_ := capacity_ m; mask_ := mask_ m; buf_raw_ := buf_raw_ m; tail_ := tail_ m; head_ := head_ m;
     written := written m; read := read m; producer := producer m; consumer := c |}.
Definition with_slot m (buf : list T) (w : list Z) : Machine :=
  {| capacity_ := capacity_ m; mask_ := mask_ m; buf_raw_ := buf; tail_ := tail_ m; head_ := head_ m;
     written := w; read := read m; producer := producer m; consumer := consumer m |}.
Definition with_read m (r : list Z) : Machine :=
  {| capacity_ := capacity_ m; mask_ := mask_ m; buf_raw_ := buf_raw_ m; tail_ := tail_ m; head_ := head_ m;
     written := written m; read := r; producer := producer m; consumer := consumer m |}.
Definition with_tail m (t : list Store) : Machine :=
  {| capacity_ := capacity_ m; mask_ := mask_ m; buf_raw_ := buf_raw_ m; tail_ := t; head_ := head_ m;
     written := written m; read := read m; producer := producer m; consumer := consumer m |}.
Definition with_head m (h : list Store) : Machine :=
  {| capacity_ := capacity_ m; mask_ := mask_ m; buf_raw_ := buf_raw_ m; tail_ := tail_ m; head_ := h;
     written := written m; read := read m; producer := producer m; consumer := consumer m |}.

(** The members of a new queue, on a buffer of [capacity] elements of any
    content, and the two threads before their first call. *)
Definition initial (raw : list T) (capacity : Z) (pushes : list PushCall) (pops : list PopCall) : Machine :=
  {| capacity_ := capacity; mask_ := u32 (capacity - 1); buf_raw_ := raw;
     tail_ := [{| value := 0; stamp := 0 |}]; head_ := [{| value := 0; stamp := 0 |}];
     written := replicate (Z.to_nat capacity) 0; read := replicate (Z.to_nat capacity) 0;
     producer := {| p_pc := PIdle; p_clock := 0; p_knows := 0; p_view := 0; p_calls := pushes; p_done := [] |};
     consumer := {| c_pc := CIdle; c_clock := 0; c_knows := 0; c_view := 0; c_calls := pops; c_done := [] |} |}.

(** The constructor: [std::abort] on a bad capacity or buffer. *)
Definition construct (external_buf buf_bytes capacity sizeof alignof : Z) (raw : list T)
    (pushes : list PushCall) (pops : list PopCall) : option Machine :=
  _ ← assertM (is_valid_capacity capacity);
  if bool_decide (external_buf = 0) || bool_decide (buf_bytes < required_buffer_size sizeof capacity) ||
     negb (bool_decide (external_buf mod alignof = 0)) then abort
  else Some (initial raw capacity pushes pops).

(** [create]: an inner [None] is [std::nullopt]. *)
Definition create (external_buf buf_bytes capacity sizeof alignof : Z) (raw : list T)
    (pushes : list PushCall) (pops : list PopCall) : option (option Machine) :=
  if negb (is_valid_capacity capacity) || bool_decide (external_buf = 0) then Some None
  else if negb (bool_decide (external_buf mod alignof = 0)) then Some None
  else if bool_decide (buf_bytes < required_buffer_size sizeof capacity) then Some None
  else m ← construct external_buf buf_bytes capacity sizeof alignof raw pushes pops; Some (Some m).

(** * Memory accesses *)

(** A load of the thread's own index. *)
Definition latest (log : list Store) : option Store := log !! (length log - 1)%nat.

(** An acquire load of the other thread's index: [choice] picks the store. *)
Definition acquire (log : list Store) (view choice : nat) : option (nat * Store) :=
  let j := Nat.max view (Nat.min choice (length log - 1)) in
  st ← log !! j;
  Some (j, st).

(** An access to a slot: defined if the other thread's last conflicting
    access, of clock [other], is known to have happened before. *)
Definition no_race (other knows : Z) : option unit := assertM (bool_decide (other <= knows)).

(** * The producer *)

Definition items (c : PushCall) : list T :=
  match c with TryPush v => [v] | TryPushBatch l => l end.

(** How many items go in after the two loads: [try_push] compares for full,
    [try_push_batch] computes the room. *)
Definition push_count (capacity : Z) (c : PushCall) (t h : Z) : Z :=
  match c with
  | TryPush _ => if bool_decide (u32 (t - h) = capacity) then 0 else 1
  | TryPushBatch l => let available := u32 (capacity - u32 (t - h)) in u32 (Z.min (lenZ l) available)
  end.

Definition producer_step (choice : nat) m : option Machine :=
  let p := producer m in
  match p_pc p with
  | PIdle =>
      match p_calls p with
      | [] => Some m
      | call :: calls =>
          st ← latest (tail_ m);
          Some (with_producer m (p_start p (PLoadHead call (value st)) calls))
      end
  | PLoadHead call t =>
      '(j, st) ← acquire (head_ m) (p_view p) choice;
      let p := p_synced p j (stamp st) in
      let n := push_count (capacity_ m) call t (value st) in
      Some (with_producer m (if bool_decide (n > 0) then p_go p (PWrite call t n 0)
                             else p_return p call 0))
  | PWrite call t n i =>
      let slot := Z.land (u32 (t + i)) (mask_ m) in
      v ← (items call).[i];
      r ← (read m).[slot];
      _ ← no_race r (p_knows p);
      buf ← storeZ (buf_raw_ m) slot v;
      w ← storeZ (written m) slot (p_clock p + 1);
      Some (with_producer (with_slot m buf w)
              (p_go p (if bool_decide (i + 1 < n) then PWrite call t n (i + 1) else PPublish call t n)))
  | PPublish call t n =>
      Some (with_producer (with_tail m (tail_ m ++ [{| value := u32 (t + n); stamp := p_clock p + 1 |}]))
              (p_return p call n))
  end.

(** * The consumer *)

(** How many items come out, given that [h <> t]. *)
Definition pop_count (c : PopCall) (t h : Z) : Z :=
  match c with
  | TryPop => 1
  | Drain max_count => Z.min (u32 (t - h)) max_count
  end.

(** The slot of the [i]-th item: [drain] copies trivially copyable items with
    at most two [memcpy]s, the second from the start of the buffer. *)
Definition pop_slot (capacity mask : Z) (c : PopCall) (h n i : Z) : Z :=
  match c with
  | TryPop => Z.land h mask
  | Drain _ =>
      if trivially_copyable then
        let start := Z.land h mask in
        let first := Z.min (u32 n) (u32 (capacity - start)) in
        if bool_decide (i < first) then start + i else i - first
      else Z.land (u32 (h + u32 i)) mask
  end.

Definition consumer_step (choice : nat) m : option Machine :=
  let c := consumer m in
  match c_pc c with
  | CIdle =>
      match c_calls c with
      | [] => Some m
      | call :: calls =>
          _ ← assertM (match call with TryPop => true | Drain k => bool_decide (k > 0) end);
          st ← latest (head_ m);
          Some (with_consumer m (c_start c (CLoadTail call (value st)) calls))
      end
  | CLoadTail call h =>
      '(j, st) ← acquire (tail_ m) (c_view c) choice;
      let c := c_synced c j (stamp st) in
      Some (with_consumer m (if bool_decide (h = value st) then c_return c call []
                             else c_go c (CRead call h (pop_count call (value st) h) 0 [])))
  | CRead call h n i out =>
      let slot := pop_slot (capacity_ m) (mask_ m) call h n i in
      v ← (buf_raw_ m).[slot];
      w ← (written m).[slot];
      _ ← no_race w (c_knows c);
      r ← storeZ (read m) slot (c_clock c + 1);
      Some (with_consumer (with_read m r)
              (c_go c (if bool_decide (i + 1 < n) then CRead call h n (i + 1) (out ++ [v])
                       else CPublish call h n (out ++ [v]))))
  | CPublish call h n out =>
      Some (with_consumer (with_head m (head_ m ++ [{| value := u32 (h + u32 n); stamp := c_clock c + 1 |}]))
              (c_return c call out))
  end.

(** * Runs *)

Inductive Turn := ProducerTurn (choice : nat) | ConsumerTurn (choice : nat).

Definition step (turn : Turn) m : option Machine :=
  match turn with
  | ProducerTurn j => producer_step j m
  | ConsumerTurn j => consumer_step j m
  end.

Fixpoint run (turns : list Turn) m : option Machine :=
  match turns with
  | [] => Some m
  | turn :: turns => m ← step turn m; run turns m
  end.

(** What has gone in and what has come out, over the calls that have
    returned. *)
Definition pushed m : list T := concat ((λ r : PushCall * Z, take (Z.to_nat r.2) (items r.1)) <$> p_done (producer m)).
Definition popped m : list T := concat (snd <$> c_done (consumer m)).
End Queue.

Arguments PushCall : clear implicits.
Arguments Machine : clear implicits.
End SPSC.
