(* ===== verification/SpscQueueSpec.v ===== *)
(** The invariant of the queue of [SpscQueue.v] under any interleaving.

    [log_ok] is one side's half: the modification order of an index is that
    of ever larger positions, taken modulo 2^32, and every access to a slot
    below a published position is older than the store that published it.
    [seen] is what the other side knows after reading one of these stores.
    Both halves have the same lemmas: an access at the frontier, a release
    store, an acquire load. *)
From S2P Require Import Prelude.
From S2P Require Import BitUtils.
From S2P Require Import SpscQueue.
Import SPSC.
Local Open Scope Z_scope.
Local Open Scope array_scope.

Module SPSCSpec.

(** * One index and the slots behind it *)

Section Log.
  Context (cap : Z) (Hcap : 0 < cap).

(** [abs] are the positions the stores of [log] stand for, [now] the last;
    [stamps] the clocks of the accesses to the slots, which have reached
    [frontier]. *)
Record log_ok (log : list Store) (abs : list Z) (now clock : Z) (stamps : list Z) (frontier : Z) : Prop := {
  lo_length : length log = length abs;
  lo_now : abs !! (length abs - 1)%nat = Some now;
  lo_value : ∀ j st a, log !! j = Some st → abs !! j = Some a →
    value st = u32 a ∧ 0 <= a <= now ∧
    ∀ q x, frontier - cap <= q < a → stamps.[q mod cap] = Some x → x <= stamp st;
  lo_mono : ∀ i j a b, (i <= j)%nat → abs !! i = Some a → abs !! j = Some b → a <= b;
  lo_stamps : lenZ stamps = cap ∧ ∀ i x, stamps.[i] = Some x → x <= clock;
  lo_frontier : now <= frontier;
}.

(** The other side has read the store of position [a], at index [view]. *)
Definition seen (log : list Store) (abs : list Z) (view : nat) (knows a : Z) : Prop :=
  ∃ st, log !! view = Some st ∧ abs !! view = Some a ∧ stamp st <= knows.

Lemma log_latest log abs now clock stamps frontier :
  log_ok log abs now clock stamps frontier → ∃ st, latest log = Some st ∧ value st = u32 now.
Proof.
  intros H. unfold latest. rewrite (lo_length _ _ _ _ _ _ H).
  destruct (log !! (length abs - 1)%nat) as [st |] eqn:E.
  - exists st. split; [done |]. by destruct (lo_value _ _ _ _ _ _ H _ _ _ E (lo_now _ _ _ _ _ _ H)).
  - apply lookup_ge_None in E. pose proof (lookup_lt_Some _ _ _ (lo_now _ _ _ _ _ _ H)).
    rewrite (lo_length _ _ _ _ _ _ H) in E. lia.
Qed.

Lemma seen_le log abs now clock stamps frontier view knows a :
  log_ok log abs now clock stamps frontier → seen log abs view knows a → 0 <= a <= now.
Proof. intros H (st & Hs & Ha & _). by destruct (lo_value _ _ _ _ _ _ H _ _ _ Hs Ha) as (_ & ? & _). Qed.

(** What a seen store promises about the slots behind it. *)
Lemma seen_known log abs now clock stamps frontier view knows a q x :
  log_ok log abs now clock stamps frontier → seen log abs view knows a →
  frontier - cap <= q < a → stamps.[q mod cap] = Some x → x <= knows.
Proof.
  intros H (st & Hs & Ha & Hk) Hq Hx.
  destruct (lo_value _ _ _ _ _ _ H _ _ _ Hs Ha) as (_ & _ & Hst). specialize (Hst q x Hq Hx). lia.
Qed.

Lemma acquire_spec log abs now clock stamps frontier view knows a choice :
  log_ok log abs now clock stamps frontier → seen log abs view knows a →
  ∃ j st a', acquire log view choice = Some (j, st) ∧ value st = u32 a' ∧ a <= a' <= now ∧
    seen log abs j (Z.max knows (stamp st)) a' ∧ ((length log - 1 <= choice)%nat → a' = now).
Proof.
  intros H (st & Hs & Ha & Hk). unfold acquire.
  set (j := Nat.max view (Nat.min choice (length log - 1))).
  pose proof (lookup_lt_Some _ _ _ Hs) as Hv.
  destruct (lookup_lt_is_Some_2 log j) as [st' Hst']; [unfold j; lia |].
  destruct (lookup_lt_is_Some_2 abs j) as [a' Ha'].
  { rewrite <- (lo_length _ _ _ _ _ _ H). by eapply lookup_lt_Some. }
  rewrite Hst'. destruct (lo_value _ _ _ _ _ _ H _ _ _ Hst' Ha') as (Hval & Hr & _).
  exists j, st', a'. split_and!; [done | done | | lia | |].
  - apply (lo_mono _ _ _ _ _ _ H view j); [unfold j; lia | done | done].
  - exists st'. split_and!; [done | done | lia].
  - intros Hc. pose proof (lo_now _ _ _ _ _ _ H) as Hn.
    replace j with (length abs - 1)%nat in Ha' by (rewrite <- (lo_length _ _ _ _ _ _ H); unfold j; lia).
    congruence.
Qed.

(** The owner's clock advances. *)
Lemma log_tick log abs now clock stamps frontier clock' :
  log_ok log abs now clock stamps frontier → clock <= clock' → log_ok log abs now clock' stamps frontier.
Proof.
  intros [] Hc. split; try done. destruct lo_stamps0 as [Hl Hs]. split; [done |].
  intros i x Hx. specialize (Hs i x Hx). lia.
Qed.

Lemma mod_apart p q : q - cap < p < q → p mod cap ≠ q mod cap.
Proof.
  intros Hpq Heq. pose proof (Z.div_mod p cap ltac:(lia)). pose proof (Z.div_mod q cap ltac:(lia)).
  assert (q - p = cap * (q / cap - p / cap)) by lia.
  assert (0 < q / cap - p / cap < 1) by nia. lia.
Qed.

(** The owner accesses the slot at the frontier. *)
Lemma log_access log abs now clock stamps frontier :
  log_ok log abs now clock stamps frontier →
  log_ok log abs now (clock + 1) (stamps.[frontier mod cap <- clock + 1]) (frontier + 1).
Proof.
  intros H. destruct (lo_stamps _ _ _ _ _ _ H) as [Hl Hs].
  pose proof (Z.mod_pos_bound frontier cap Hcap).
  split; [apply H | apply H | | apply H | |].
  - intros j st a Hst Ha. destruct (lo_value _ _ _ _ _ _ H _ _ _ Hst Ha) as (? & Hr & Hq).
    split_and!; [done | lia | lia |]. intros q x Hqr Hx. pose proof (lo_frontier _ _ _ _ _ _ H).
    rewrite getZ_setZ_ne in Hx.
    + eapply Hq; [| done]. lia.
    + lia.
    + intros E. symmetry in E. apply (mod_apart q frontier) in E; [done | lia].
  - split; [by rewrite length_setZ |]. intros i x Hx.
    destruct (decide (i = frontier mod cap)) as [-> | Hne].
    + rewrite getZ_setZ_eq in Hx by lia. injection Hx. lia.
    + rewrite getZ_setZ_ne in Hx by (try done; lia). specialize (Hs i x Hx). lia.
  - pose proof (lo_frontier _ _ _ _ _ _ H). lia.
Qed.

(** The owner publishes everything up to the frontier. *)
Lemma log_publish log abs now clock stamps frontier :
  log_ok log abs now clock stamps frontier →
  log_ok (log ++ [{| value := u32 frontier; stamp := clock + 1 |}]) (abs ++ [frontier]) frontier (clock + 1)
    stamps frontier.
Proof.
  intros H. pose proof (lo_frontier _ _ _ _ _ _ H) as Hf. pose proof (lo_length _ _ _ _ _ _ H) as Hlen.
  destruct (lo_stamps _ _ _ _ _ _ H) as [Hl Hs].
  assert (Hold : ∀ j a, abs !! j = Some a → 0 <= a <= now).
  { intros j a Ha. destruct (lookup_lt_is_Some_2 log j) as [st Hst].
    { rewrite Hlen. by eapply lookup_lt_Some. }
    by destruct (lo_value _ _ _ _ _ _ H _ _ _ Hst Ha) as (_ & ? & _). }
  pose proof (Hold _ _ (lo_now _ _ _ _ _ _ H)).
  split.
  - rewrite !length_app. simpl. lia.
  - rewrite length_app. simpl. replace (length abs + 1 - 1)%nat with (length abs) by lia.
    by rewrite lookup_app_r, Nat.sub_diag by lia.
  - intros j st a Hst Ha. apply lookup_app_Some in Hst as [Hst | [Hj Hst]].
    + rewrite lookup_app_l in Ha by (rewrite <- Hlen; by eapply lookup_lt_Some).
      destruct (lo_value _ _ _ _ _ _ H _ _ _ Hst Ha) as (? & ? & ?). split_and!; [done | lia | lia | done].
    + rewrite lookup_app_r in Ha by lia.
      destruct (j - length log)%nat as [| k] eqn:Ej; [| destruct k; discriminate].
      replace (j - length abs)%nat with 0%nat in Ha by lia. simpl in *.
      injection Hst as <-. injection Ha as <-. simpl. split_and!; [done | lia | lia |].
      intros q x _ Hx. specialize (Hs _ _ Hx). lia.
  - intros i j a b Hij Ha Hb. apply lookup_app_Some in Hb as [Hb | [Hj Hb]].
    + rewrite lookup_app_l in Ha by (pose proof (lookup_lt_Some _ _ _ Hb); lia).
      by eapply (lo_mono _ _ _ _ _ _ H).
    + destruct (j - length abs)%nat as [| k] eqn:Ej; [| destruct k; discriminate].
      simpl in Hb. injection Hb as <-. apply lookup_app_Some in Ha as [Ha | [Hi Ha]].
      * specialize (Hold _ _ Ha). lia.
      * replace (i - length abs)%nat with 0%nat in Ha by lia. simpl in Ha. injection Ha as <-. lia.
  - split; [done |]. intros i x Hx. specialize (Hs _ _ Hx). lia.
  - lia.
Qed.

Lemma seen_more log abs view knows a st b :
  seen log abs view knows a → seen (log ++ [st]) (abs ++ [b]) view knows a.
Proof.
  intros (s & Hs & Ha & Hk). exists s.
  rewrite !lookup_app_l by (by eapply lookup_lt_Some). done.
Qed.

Lemma log_initial :
  log_ok [{| value := 0; stamp := 0 |}] [0] 0 0 (replicate (Z.to_nat cap) 0) 0 ∧
  seen [{| value := 0; stamp := 0 |}] [0] 0 0 0.
Proof.
  split; [split | by eexists].
  - done.
  - done.
  - intros [| j] st a Hst Ha; [| destruct j; discriminate]. simpl in *. injection Hst as <-. injection Ha as <-.
    split_and!; [done | lia | lia |]. intros q x _ Hx. apply getZ_to_lookup in Hx.
    apply lookup_replicate in Hx as [-> _]. simpl. lia.
  - intros i j a b Hij Ha Hb.
    destruct i as [| i]; [| destruct i; discriminate]. destruct j as [| j]; [| destruct j; discriminate].
    simpl in *. by simplify_eq.
  - split; [rewrite length_replicate; lia |]. intros i x Hx. apply getZ_to_lookup in Hx.
    by apply lookup_replicate in Hx as [-> _].
  - lia.
Qed.
End Log.

(** * Positions modulo the capacity *)

Lemma u32_diff a b : 0 <= a - b < 2 ^ 32 → u32 (u32 a - u32 b) = a - b.
Proof. intros H. rewrite u32_sub_l. unfold u32. rewrite Zminus_mod_idemp_r. by apply Z.mod_small. Qed.

Lemma u32_eq a b : 0 <= a - b < 2 ^ 32 → u32 a = u32 b → a = b.
Proof. intros Hd E. pose proof (u32_diff a b Hd) as H. rewrite E, Z.sub_diag in H. change (u32 0) with 0 in H. lia. Qed.

Lemma ring_mask_slot x e : 0 <= e <= 31 → Z.land (u32 x) (2 ^ e - 1) = x mod 2 ^ e.
Proof. intros He. rewrite land_mask by lia. apply u32_mod_pow2. lia. Qed.

Lemma pow2_u32 e : 0 <= e <= 31 → 0 < 2 ^ e <= 2 ^ 31.
Proof. intros He. split; [apply Z.pow_pos_nonneg; lia | apply Z.pow_le_mono_r; lia]. Qed.

(** * The invariant of the two threads *)

Section Machine.
  Context {T : Type} (tc : bool).
  Implicit Types (m : Machine T) (l : list T).

Definition in_flight (pc : ProducerPc) : list T :=
  match pc with
  | PWrite c _ _ i => take (Z.to_nat i) (items c)
  | PPublish c _ n => take (Z.to_nat n) (items c)
  | _ => []
  end.
Definition copied (pc : ConsumerPc) : list T :=
  match pc with CRead _ _ _ _ out | CPublish _ _ _ out => out | _ => [] end.

(** Everything written so far, published or not. *)
Definition stream m : list T := pushed m ++ in_flight (p_pc (producer m)).
Definition read_off m : list T := popped m ++ copied (c_pc (consumer m)).

Definition valid_pop (c : PopCall) : Prop := match c with TryPop => True | Drain k => 0 < k end.

(** The other thread's index as last read, [hs] and [ts], bounds what a
    thread may do. *)
Definition producer_ok (cap now hs : Z) (pc : ProducerPc (T := T)) : Prop :=
  match pc with
  | PIdle => True
  | PLoadHead _ t => t = u32 now
  | PWrite c t n i => t = u32 now ∧ 0 <= i < n ∧ n <= lenZ (items c) ∧ now + n <= hs + cap
  | PPublish c t n => t = u32 now ∧ 0 < n <= lenZ (items c) ∧ now + n <= hs + cap
  end.
Definition consumer_ok (now ts : Z) (pc : ConsumerPc (T := T)) : Prop :=
  match pc with
  | CIdle => True
  | CLoadTail c h => h = u32 now ∧ valid_pop c
  | CRead c h n i out => h = u32 now ∧ 0 <= i < n ∧ lenZ out = i ∧ now + n <= ts ∧ (c = TryPop → n = 1)
  | CPublish c h n out => h = u32 now ∧ 0 < n ∧ lenZ out = n ∧ now + n <= ts
  end.

Record inv m (Ts Hs : list Z) (hs ts : Z) : Prop := {
  inv_cap : ∃ e, 1 <= e <= 31 ∧ capacity_ m = 2 ^ e ∧ mask_ m = 2 ^ e - 1;
  inv_buf : lenZ (buf_raw_ m) = capacity_ m;
  inv_tail : log_ok (capacity_ m) (tail_ m) Ts (lenZ (pushed m)) (p_clock (producer m)) (written m) (lenZ (stream m));
  inv_head : log_ok (capacity_ m) (head_ m) Hs (lenZ (popped m)) (c_clock (consumer m)) (read m) (lenZ (read_off m));
  inv_pseen : seen (head_ m) Hs (p_view (producer m)) (p_knows (producer m)) hs;
  inv_cseen : seen (tail_ m) Ts (c_view (consumer m)) (c_knows (consumer m)) ts;
  inv_room : lenZ (pushed m) <= hs + capacity_ m;
  inv_avail : lenZ (popped m) <= ts;
  inv_content : ∀ q, lenZ (popped m) <= q < lenZ (stream m) → (buf_raw_ m).[q mod capacity_ m] = (stream m).[q];
  inv_prefix : read_off m `prefix_of` pushed m;
  inv_producer : producer_ok (capacity_ m) (lenZ (pushed m)) hs (p_pc (producer m));
  inv_consumer : consumer_ok (lenZ (popped m)) ts (c_pc (consumer m));
  inv_calls : Forall valid_pop (c_calls (consumer m));
}.

Lemma inv_cap_pos m Ts Hs hs ts : inv m Ts Hs hs ts → 0 < capacity_ m <= 2 ^ 31.
Proof. intros H. destruct (inv_cap _ _ _ _ _ H) as (e & He & -> & _). apply pow2_u32. lia. Qed.

(** [head_ <= hs' <= tail_ <= head_ + capacity]. *)
Lemma inv_bounds m Ts Hs hs ts :
  inv m Ts Hs hs ts →
  0 <= hs <= lenZ (popped m) ∧ lenZ (popped m) <= ts <= lenZ (pushed m) ∧
  lenZ (pushed m) <= lenZ (popped m) + capacity_ m.
Proof.
  intros H. pose proof (seen_le _ _ _ _ _ _ _ _ _ _ (inv_head _ _ _ _ _ H) (inv_pseen _ _ _ _ _ H)).
  pose proof (seen_le _ _ _ _ _ _ _ _ _ _ (inv_tail _ _ _ _ _ H) (inv_cseen _ _ _ _ _ H)).
  pose proof (inv_room _ _ _ _ _ H). pose proof (inv_avail _ _ _ _ _ H). lia.
Qed.

Lemma push_count_spec cap c now hs :
  0 < cap <= 2 ^ 31 → 0 <= now - hs <= cap →
  let n := push_count (T := T) cap c (u32 now) (u32 hs) in
  0 <= n <= lenZ (items c) ∧ now + n <= hs + cap ∧
  n = Z.min (lenZ (items c)) (cap - (now - hs)).
Proof.
  intros Hcap Hd. simpl. destruct c as [v | vs]; simpl; rewrite u32_diff by lia.
  - case_bool_decide; lia.
  - rewrite (u32_id (cap - (now - hs))) by mlia. rewrite u32_id by mlia. lia.
Qed.

Lemma pop_count_spec c now ts :
  valid_pop c → 0 < ts - now < 2 ^ 32 →
  let n := pop_count c (u32 ts) (u32 now) in
  0 < n ∧ now + n <= ts ∧ (c = TryPop → n = 1) ∧
  n = match c with TryPop => 1 | Drain k => Z.min (ts - now) k end.
Proof.
  intros Hv Hd. destruct c as [| k]; simpl in *; [split_and!; lia |].
  rewrite u32_diff by lia. split_and!; try lia. discriminate.
Qed.

(** Both ways of copying read the slots of consecutive positions. *)
Lemma pop_slot_spec e c now n i :
  1 <= e <= 31 → 0 <= i < n → n <= 2 ^ e → (c = TryPop → n = 1) →
  pop_slot tc (2 ^ e) (2 ^ e - 1) c (u32 now) n i = (now + i) mod 2 ^ e.
Proof.
  intros He Hi Hn Hc. pose proof (pow2_u32 e ltac:(lia)) as Hp.
  destruct c as [| k]; simpl.
  - rewrite ring_mask_slot by lia. f_equal. specialize (Hc eq_refl). lia.
  - destruct tc.
    + rewrite ring_mask_slot by lia. pose proof (Z.mod_pos_bound now (2 ^ e) ltac:(lia)) as Hm.
      rewrite (u32_id n) by mlia. rewrite u32_id by mlia.
      rewrite <- (Zplus_mod_idemp_l now). set (s := now mod 2 ^ e) in *.
      case_bool_decide.
      * symmetry. apply Z.mod_small. lia.
      * replace (s + i) with (s + i - 2 ^ e + 1 * 2 ^ e) by lia. rewrite Z.mod_add by lia.
        rewrite Z.mod_small by lia. lia.
    + rewrite u32_add_l, ring_mask_slot by lia. rewrite (u32_id i) by mlia. done.
Qed.
(** ** The producer's steps *)

Lemma pushed_return (l : list (PushCall T * Z)) c n :
  concat ((λ r : PushCall T * Z, take (Z.to_nat r.2) (items r.1)) <$> (l ++ [(c, n)])) =
  concat ((λ r : PushCall T * Z, take (Z.to_nat r.2) (items r.1)) <$> l) ++ take (Z.to_nat n) (items c).
Proof. rewrite fmap_app, concat_app. simpl. by rewrite app_nil_r. Qed.

Lemma popped_return (l : list (PopCall * list T)) c out :
  concat (snd <$> (l ++ [(c, out)])) = concat (snd <$> l) ++ out.
Proof. rewrite fmap_app, concat_app. simpl. by rewrite app_nil_r. Qed.

Lemma producer_starts m Ts Hs hs ts j call calls :
  inv m Ts Hs hs ts → p_pc (producer m) = PIdle → p_calls (producer m) = call :: calls →
  producer_step j m =
    Some (with_producer m (p_start (producer m) (PLoadHead call (u32 (lenZ (pushed m)))) calls)) ∧
  inv (with_producer m (p_start (producer m) (PLoadHead call (u32 (lenZ (pushed m)))) calls)) Ts Hs hs ts.
Proof.
  intros H Hpc Hcalls. unfold producer_step. rewrite Hpc, Hcalls.
  destruct (log_latest _ _ _ _ _ _ _ (inv_tail _ _ _ _ _ H)) as (st & -> & Hv).
  cbn [mbind option_bind]. rewrite Hv. split; [done |].
  destruct H. unfold stream in *. rewrite Hpc in *. split; try done.
  eapply log_tick; [done |]. simpl. lia.
Qed.

Lemma producer_loads m Ts Hs hs ts j call t :
  inv m Ts Hs hs ts → p_pc (producer m) = PLoadHead call t →
  ∃ m' hs' n, producer_step j m = Some m' ∧ inv m' Ts Hs hs' ts ∧ hs <= hs' <= lenZ (popped m) ∧
    n = Z.min (lenZ (items call)) (capacity_ m - (lenZ (pushed m) - hs')) ∧
    ((length (head_ m) - 1 <= j)%nat → hs' = lenZ (popped m)) ∧
    producer m' = (let p := producer m' in
      {| p_pc := if bool_decide (n > 0) then PWrite call t n 0 else PIdle;
         p_clock := p_clock p; p_knows := p_knows p; p_view := p_view p;
         p_calls := p_calls (producer m);
         p_done := if bool_decide (n > 0) then p_done (producer m) else p_done (producer m) ++ [(call, 0)] |}) ∧
    consumer m' = consumer m ∧ capacity_ m' = capacity_ m.
Proof.
  intros H Hpc. unfold producer_step. rewrite Hpc.
  destruct (acquire_spec _ _ _ _ _ _ _ _ _ _ j (inv_head _ _ _ _ _ H) (inv_pseen _ _ _ _ _ H))
    as (k & st & hs' & -> & Hv & Hle & Hseen & Hfresh).
  cbn [mbind option_bind]. rewrite Hv.
  pose proof (inv_cap_pos _ _ _ _ _ H) as Hcap. pose proof (inv_bounds _ _ _ _ _ H) as Hb.
  pose proof (inv_producer _ _ _ _ _ H) as Ht. rewrite Hpc in Ht. simpl in Ht. subst t.
  pose proof (inv_room _ _ _ _ _ H) as Hroom.
  destruct (push_count_spec (capacity_ m) call (lenZ (pushed m)) hs' Hcap ltac:(lia)) as (Hn & Hn' & Hn'').
  set (n := push_count _ _ _ _) in *.
  eexists _, hs', n. split; [done |]. split; [| split_and!; try done; try lia; by case_bool_decide].
  destruct H. unfold stream in *. rewrite Hpc in *. simpl in *. rewrite app_nil_r in *.
  assert (Hret : concat ((λ r : PushCall T * Z, take (Z.to_nat r.2) (items r.1)) <$>
                   (p_done (producer m) ++ [(call, 0)])) = pushed m).
  { rewrite pushed_return. simpl. rewrite take_0. apply app_nil_r. }
  case_bool_decide; split; unfold stream, pushed; simpl; rewrite ?Hret, ?take_0, ?app_nil_r;
    fold (pushed m); try done; try lia.
  all: try (eapply log_tick; [done |]; simpl; lia).
Qed.

Lemma producer_writes m Ts Hs hs ts j call t n i :
  inv m Ts Hs hs ts → p_pc (producer m) = PWrite call t n i →
  ∃ m', producer_step j m = Some m' ∧ inv m' Ts Hs hs ts ∧
    p_pc (producer m') = (if bool_decide (i + 1 < n) then PWrite call t n (i + 1) else PPublish call t n) ∧
    p_calls (producer m') = p_calls (producer m) ∧ p_done (producer m') = p_done (producer m) ∧
    consumer m' = consumer m ∧ capacity_ m' = capacity_ m.
Proof.
  intros H Hpc. unfold producer_step. rewrite Hpc.
  pose proof (inv_cap_pos _ _ _ _ _ H) as Hcap. pose proof (inv_bounds _ _ _ _ _ H) as Hb.
  pose proof (inv_producer _ _ _ _ _ H) as Ht. rewrite Hpc in Ht. simpl in Ht. destruct Ht as (-> & Hi & Hn & Hroom).
  assert (Hst : lenZ (stream m) = lenZ (pushed m) + i).
  { unfold stream. rewrite Hpc, length_app. simpl. rewrite length_take. lia. }
  assert (Hslot : Z.land (u32 (u32 (lenZ (pushed m)) + i)) (mask_ m) = lenZ (stream m) mod capacity_ m).
  { destruct (inv_cap _ _ _ _ _ H) as (e & He & -> & ->). by rewrite u32_add_l, ring_mask_slot, Hst by lia. }
  rewrite Hslot. set (F := lenZ (stream m)) in *.
  pose proof (Z.mod_pos_bound F (capacity_ m) ltac:(lia)) as Hmod.
  destruct (getZ_is_Some (items call) i) as [v Hv]; [lia |]. rewrite Hv. cbn [mbind option_bind].
  destruct (lo_stamps _ _ _ _ _ _ _ (inv_head _ _ _ _ _ H)) as [Hrl _].
  destruct (lo_stamps _ _ _ _ _ _ _ (inv_tail _ _ _ _ _ H)) as [Hwl _].
  destruct (getZ_is_Some (read m) (F mod capacity_ m)) as [r Hr]; [lia |]. rewrite Hr. cbn [mbind option_bind].
  pose proof (prefix_length _ _ (inv_prefix _ _ _ _ _ H)) as Hread.
  assert (Hknown : r <= p_knows (producer m)).
  { eapply (seen_known _ _ _ _ _ _ _ _ _ _ (F - capacity_ m)); [apply (inv_head _ _ _ _ _ H) | apply H | lia |].
    replace (F - capacity_ m) with (F + (-1) * capacity_ m) by lia. by rewrite Z.mod_add by lia. }
  unfold no_race. rewrite (bool_decide_true (r <= _)) by done. cbn [assertM mbind option_bind].
  rewrite !storeZ_Some by (rewrite ?(inv_buf _ _ _ _ _ H); lia). cbn [mbind option_bind].
  eexists. split; [done |]. split; [| done].
  set (m' := with_producer _ _).
  assert (Hm' : stream m' = stream m ++ [v]).
  { unfold stream. change (pushed m') with (pushed m). rewrite Hpc, <- app_assoc. f_equal. simpl.
    rewrite <- (take_snocZ _ _ _ Hv). case_bool_decide; simpl; [done |]. do 2 f_equal. lia. }
  assert (HF : lenZ (stream m') = F + 1) by (rewrite Hm', length_app; simpl; lia).
  pose proof (log_access (capacity_ m) ltac:(lia) _ _ _ _ _ _ (inv_tail _ _ _ _ _ H)) as Hlog.
  destruct H. split; try done.
  - unfold m'. simpl. by rewrite length_setZ.
  - rewrite HF. exact Hlog.
  - intros q Hq. rewrite HF in Hq. rewrite Hm'. unfold m'. simpl. change (popped m') with (popped m) in Hq.
    destruct (decide (q = F)) as [-> | Hne].
    + rewrite getZ_setZ_eq by lia. unfold F. by rewrite getZ_snoc.
    + rewrite getZ_setZ_ne; [| lia |].
      2:{ intros E. symmetry in E. apply (mod_apart (capacity_ m)) in E; [done | lia | lia]. }
      rewrite inv_content0 by lia. by rewrite getZ_app_l by (fold F; lia).
  - change (pushed m') with (pushed m). unfold m'. simpl.
    case_bool_decide; simpl; split_and!; try done; lia.
Qed.
Lemma producer_publishes m Ts Hs hs ts j call t n :
  inv m Ts Hs hs ts → p_pc (producer m) = PPublish call t n →
  ∃ m', producer_step j m = Some m' ∧ inv m' (Ts ++ [lenZ (stream m)]) Hs hs ts ∧
    producer m' = p_return (producer m) call n ∧ consumer m' = consumer m ∧ capacity_ m' = capacity_ m.
Proof.
  intros H Hpc. unfold producer_step. rewrite Hpc. eexists. split; [done |]. split; [| done].
  set (m' := with_producer _ _).
  pose proof (inv_producer _ _ _ _ _ H) as Ht. rewrite Hpc in Ht. simpl in Ht. destruct Ht as (-> & Hn & Hroom).
  assert (Hpush : pushed m' = stream m).
  { unfold pushed, stream, m'. simpl. rewrite pushed_return, Hpc. done. }
  assert (Hm' : stream m' = stream m) by (unfold stream at 1; rewrite Hpush; apply app_nil_r).
  assert (Hst : lenZ (stream m) = lenZ (pushed m) + n).
  { unfold stream. rewrite Hpc, length_app. simpl. rewrite length_take. lia. }
  pose proof (log_publish _ _ _ _ _ _ _ (inv_tail _ _ _ _ _ H)) as Hlog.
  destruct H. split; rewrite ?Hm', ?Hpush; try done.
  - unfold m'. simpl. rewrite u32_add_l, <- Hst. exact Hlog.
  - unfold m'. simpl. by apply seen_more.
  - rewrite Hst. change (capacity_ m') with (capacity_ m). lia.
  - trans (pushed m); [done |]. by apply prefix_app_r.
Qed.

(** ** The consumer's steps *)

Lemma consumer_starts m Ts Hs hs ts j call calls :
  inv m Ts Hs hs ts → c_pc (consumer m) = CIdle → c_calls (consumer m) = call :: calls →
  consumer_step tc j m =
    Some (with_consumer m (c_start (consumer m) (CLoadTail call (u32 (lenZ (popped m)))) calls)) ∧
  inv (with_consumer m (c_start (consumer m) (CLoadTail call (u32 (lenZ (popped m)))) calls)) Ts Hs hs ts.
Proof.
  intros H Hpc Hcalls. unfold consumer_step. rewrite Hpc, Hcalls.
  pose proof (inv_calls _ _ _ _ _ H) as Hc. rewrite Hcalls in Hc. inversion_clear Hc as [| ? ? Hcall Hrest].
  replace (match call with TryPop => true | Drain k => bool_decide (k > 0) end) with true.
  2:{ destruct call; [done |]. simpl in Hcall. symmetry. apply bool_decide_true. lia. }
  cbn [assertM mbind option_bind].
  destruct (log_latest _ _ _ _ _ _ _ (inv_head _ _ _ _ _ H)) as (st & -> & Hv).
  cbn [mbind option_bind]. rewrite Hv. split; [done |].
  destruct H. unfold read_off in *. rewrite Hpc in *. split; try done.
  eapply log_tick; [done |]. simpl. lia.
Qed.

Lemma consumer_loads m Ts Hs hs ts j call h :
  inv m Ts Hs hs ts → c_pc (consumer m) = CLoadTail call h →
  ∃ m' ts' n, consumer_step tc j m = Some m' ∧ inv m' Ts Hs hs ts' ∧ ts <= ts' <= lenZ (pushed m) ∧
    n = match call with TryPop => Z.min 1 (ts' - lenZ (popped m)) | Drain k => Z.min (ts' - lenZ (popped m)) k end ∧
    ((length (tail_ m) - 1 <= j)%nat → ts' = lenZ (pushed m)) ∧
    consumer m' = (let c := consumer m' in
      {| c_pc := if bool_decide (n > 0) then CRead call h n 0 [] else CIdle;
         c_clock := c_clock c; c_knows := c_knows c; c_view := c_view c;
         c_calls := c_calls (consumer m);
         c_done := if bool_decide (n > 0) then c_done (consumer m) else c_done (consumer m) ++ [(call, [])] |}) ∧
    producer m' = producer m ∧ capacity_ m' = capacity_ m.
Proof.
  intros H Hpc. unfold consumer_step. rewrite Hpc.
  destruct (acquire_spec _ _ _ _ _ _ _ _ _ _ j (inv_tail _ _ _ _ _ H) (inv_cseen _ _ _ _ _ H))
    as (k & st & ts' & -> & Hv & Hle & Hseen & Hfresh).
  cbn [mbind option_bind]. rewrite Hv.
  pose proof (inv_cap_pos _ _ _ _ _ H) as Hcap. pose proof (inv_bounds _ _ _ _ _ H) as Hb.
  pose proof (inv_consumer _ _ _ _ _ H) as Ht. rewrite Hpc in Ht. simpl in Ht. destruct Ht as [-> Hvalid].
  set (n := match call with TryPop => Z.min 1 (ts' - lenZ (popped m)) | Drain k => Z.min (ts' - lenZ (popped m)) k end).
  assert (Hcmp : bool_decide (u32 (lenZ (popped m)) = u32 ts') = bool_decide (n = 0)).
  { apply bool_decide_ext. split.
    - intros E%symmetry%u32_eq; [| lia]. unfold n. destruct call; simpl in Hvalid; lia.
    - intros E. f_equal. unfold n in E. destruct call; simpl in Hvalid; lia. }
  assert (Hn : 0 <= n) by (unfold n; destruct call; simpl in Hvalid; lia).
  eexists _, ts', n. split; [done |]. rewrite Hcmp.
  assert (Hret : concat (snd <$> (c_done (consumer m) ++ [(call, [])])) = popped m).
  { rewrite popped_return. apply app_nil_r. }
  destruct (decide (n = 0)) as [E | E].
  - rewrite (bool_decide_true (n = 0)), (bool_decide_false (n > 0)) by lia.
    split; [| split_and!; try done; lia].
    destruct H. unfold read_off in *. rewrite Hpc in *. simpl in *. rewrite app_nil_r in *.
    split; unfold read_off, popped; simpl; rewrite ?Hret, ?app_nil_r; fold (popped m); try done; try lia.
    eapply log_tick; [done |]. simpl. lia.
  - rewrite (bool_decide_false (n = 0)), (bool_decide_true (n > 0)) by lia.
    assert (Hgt : 0 < ts' - lenZ (popped m) < 2 ^ 32).
    { unfold n in E. destruct call; simpl in Hvalid; lia. }
    destruct (pop_count_spec call (lenZ (popped m)) ts' Hvalid Hgt) as (Hn1 & Hn2 & Hn3 & Hn4).
    replace (pop_count call (u32 ts') (u32 (lenZ (popped m)))) with n in *.
    2:{ rewrite Hn4. unfold n. destruct call; lia. }
    split; [| split_and!; try done; lia].
    destruct H. unfold read_off in *. rewrite Hpc in *. simpl in *. rewrite app_nil_r in *.
    split; unfold read_off, popped; simpl; rewrite ?app_nil_r; fold (popped m); try done; try lia.
    eapply log_tick; [done |]. simpl. lia.
Qed.

Lemma consumer_reads m Ts Hs hs ts j call h n i out :
  inv m Ts Hs hs ts → c_pc (consumer m) = CRead call h n i out →
  ∃ m' v, consumer_step tc j m = Some m' ∧ inv m' Ts Hs hs ts ∧
    c_pc (consumer m') = (if bool_decide (i + 1 < n) then CRead call h n (i + 1) (out ++ [v])
                          else CPublish call h n (out ++ [v])) ∧
    c_calls (consumer m') = c_calls (consumer m) ∧ c_done (consumer m') = c_done (consumer m) ∧
    producer m' = producer m ∧ capacity_ m' = capacity_ m.
Proof.
  intros H Hpc. unfold consumer_step. rewrite Hpc.
  pose proof (inv_cap_pos _ _ _ _ _ H) as Hcap. pose proof (inv_bounds _ _ _ _ _ H) as Hb.
  pose proof (inv_consumer _ _ _ _ _ H) as Ht. rewrite Hpc in Ht. simpl in Ht.
  destruct Ht as (-> & Hi & Hout & Hroom & Hone).
  assert (Hoff : lenZ (read_off m) = lenZ (popped m) + i).
  { unfold read_off. rewrite Hpc, length_app. simpl. lia. }
  assert (Hslot : pop_slot tc (capacity_ m) (mask_ m) call (u32 (lenZ (popped m))) n i =
                  lenZ (read_off m) mod capacity_ m).
  { destruct (inv_cap _ _ _ _ _ H) as (e & He & Hc & ->). rewrite Hc, Hoff in *. apply pop_slot_spec; try done; lia. }
  rewrite Hslot. set (R := lenZ (read_off m)) in *.
  pose proof (Z.mod_pos_bound R (capacity_ m) ltac:(lia)) as Hmod.
  destruct (lo_stamps _ _ _ _ _ _ _ (inv_head _ _ _ _ _ H)) as [Hrl _].
  destruct (lo_stamps _ _ _ _ _ _ _ (inv_tail _ _ _ _ _ H)) as [Hwl _].
  assert (Hpl : lenZ (stream m) >= lenZ (pushed m)) by (unfold stream; rewrite length_app; lia).
  destruct (getZ_is_Some (pushed m) R) as [v Hv]; [lia |].
  assert (Hbuf : (buf_raw_ m).[R mod capacity_ m] = Some v).
  { rewrite (inv_content _ _ _ _ _ H) by lia. unfold stream. by rewrite getZ_app_l by lia. }
  rewrite Hbuf. cbn [mbind option_bind].
  destruct (getZ_is_Some (written m) (R mod capacity_ m)) as [w Hw]; [lia |]. rewrite Hw. cbn [mbind option_bind].
  pose proof (inv_producer _ _ _ _ _ H) as Hprod.
  assert (Hfront : lenZ (stream m) <= hs + capacity_ m).
  { unfold stream. rewrite length_app. pose proof (inv_room _ _ _ _ _ H).
    destruct (p_pc (producer m)); simpl in *; rewrite ?length_take; lia. }
  assert (Hknown : w <= c_knows (consumer m)).
  { eapply (seen_known _ _ _ _ _ _ _ _ _ _ R); [apply (inv_tail _ _ _ _ _ H) | apply H | lia | done]. }
  unfold no_race. rewrite (bool_decide_true (w <= _)) by done. cbn [assertM mbind option_bind].
  rewrite !storeZ_Some by lia. cbn [mbind option_bind].
  eexists _, v. split; [done |]. split; [| done].
  set (m' := with_consumer _ _).
  assert (Hm' : read_off m' = read_off m ++ [v]).
  { unfold read_off. change (popped m') with (popped m). rewrite Hpc, <- app_assoc. f_equal. simpl.
    by case_bool_decide. }
  assert (HR : lenZ (read_off m') = R + 1) by (rewrite Hm', length_app; simpl; lia).
  pose proof (log_access (capacity_ m) ltac:(lia) _ _ _ _ _ _ (inv_head _ _ _ _ _ H)) as Hlog.
  destruct H. split; try done.
  - rewrite HR. exact Hlog.
  - rewrite Hm'. destruct inv_prefix0 as [k Hk]. change (pushed m') with (pushed m). rewrite Hk in Hv |- *.
    unfold R in Hv. rewrite getZ_nat in Hv. rewrite lookup_app_r, Nat.sub_diag in Hv by lia.
    destruct k as [| x k]; [done |]. injection Hv as ->. exists k. by rewrite <- app_assoc.
  - change (popped m') with (popped m). unfold m'. simpl.
    case_bool_decide; simpl; rewrite length_app; simpl; split_and!; try done; lia.
Qed.

Lemma consumer_publishes m Ts Hs hs ts j call h n out :
  inv m Ts Hs hs ts → c_pc (consumer m) = CPublish call h n out →
  ∃ m', consumer_step tc j m = Some m' ∧ inv m' Ts (Hs ++ [lenZ (read_off m)]) hs ts ∧
    consumer m' = c_return (consumer m) call out ∧ producer m' = producer m ∧ capacity_ m' = capacity_ m.
Proof.
  intros H Hpc. unfold consumer_step. rewrite Hpc. eexists. split; [done |]. split; [| done].
  set (m' := with_consumer _ _).
  pose proof (inv_bounds _ _ _ _ _ H) as Hb. pose proof (inv_cap_pos _ _ _ _ _ H) as Hcap.
  pose proof (inv_consumer _ _ _ _ _ H) as Ht. rewrite Hpc in Ht. simpl in Ht. destruct Ht as (-> & Hn & Hout & Hroom).
  assert (Hpop : popped m' = read_off m).
  { unfold popped, read_off, m'. simpl. rewrite popped_return, Hpc. done. }
  assert (Hm' : read_off m' = read_off m) by (unfold read_off at 1; rewrite Hpop; apply app_nil_r).
  assert (Hst : lenZ (read_off m) = lenZ (popped m) + n).
  { unfold read_off. rewrite Hpc, length_app. simpl. lia. }
  pose proof (log_publish _ _ _ _ _ _ _ (inv_head _ _ _ _ _ H)) as Hlog.
  destruct H. split; rewrite ?Hm', ?Hpop; try done.
  - unfold m'. simpl. rewrite (u32_id n) by mlia. rewrite u32_add_l, <- Hst. exact Hlog.
  - unfold m'. simpl. by apply seen_more.
  - lia.
  - intros q Hq. apply inv_content0. change (stream m') with (stream m) in Hq. lia.
Qed.
(** * Any interleaving *)

(** The calls a thread was given: returned, running and still to be made. *)
Definition p_program m : list (PushCall T) :=
  (fst <$> p_done (producer m)) ++
  match p_pc (producer m) with PIdle => [] | PLoadHead c _ | PWrite c _ _ _ | PPublish c _ _ => [c] end ++
  p_calls (producer m).
Definition c_program m : list PopCall :=
  (fst <$> c_done (consumer m)) ++
  match c_pc (consumer m) with CIdle => [] | CLoadTail c _ | CRead c _ _ _ _ | CPublish c _ _ _ => [c] end ++
  c_calls (consumer m).

(** How many of its own steps a thread needs at most until it has made all
    its calls. *)
Definition push_work (c : PushCall T) : Z := lenZ (items c) + 3.
Definition pop_work (cap : Z) (c : PopCall) : Z :=
  match c with TryPop => 1 | Drain k => Z.min k cap end + 3.
Fixpoint sumZ {A} (f : A → Z) (l : list A) : Z := match l with [] => 0 | x :: l => f x + sumZ f l end.
Definition p_work m : Z :=
  match p_pc (producer m) with
  | PIdle => 0
  | PLoadHead c _ => push_work c - 1
  | PWrite _ _ n i => n - i + 1
  | PPublish _ _ _ => 1
  end + sumZ push_work (p_calls (producer m)).
Definition c_work m : Z :=
  match c_pc (consumer m) with
  | CIdle => 0
  | CLoadTail c _ => pop_work (capacity_ m) c - 1
  | CRead _ _ n i _ => n - i + 1
  | CPublish _ _ _ _ => 1
  end + sumZ (pop_work (capacity_ m)) (c_calls (consumer m)).

Lemma sum_nonneg {A} (f : A → Z) (l : list A) : Forall (λ x, 0 < f x) l → 0 <= sumZ f (l).
Proof. induction 1; simpl; lia. Qed.

Lemma push_work_pos (l : list (PushCall T)) : Forall (λ c, 0 < push_work c) l.
Proof. apply Forall_forall. intros c _. unfold push_work in *. lia. Qed.

Lemma pop_work_pos cap (l : list PopCall) : 0 < cap → Forall valid_pop l → Forall (λ c, 0 < pop_work cap c) l.
Proof. intros Hcap. apply Forall_impl. intros [| k] Hk; unfold pop_work in *; simpl in *; lia. Qed.

(** A thread with no work left has returned from all its calls. *)
Lemma no_work m Ts Hs hs ts :
  inv m Ts Hs hs ts →
  0 <= p_work m ∧ 0 <= c_work m ∧
  (p_work m = 0 → p_program m = fst <$> p_done (producer m)) ∧
  (c_work m = 0 → c_program m = fst <$> c_done (consumer m)).
Proof.
  intros H. pose proof (inv_cap_pos _ _ _ _ _ H) as Hcap. unfold p_work, c_work, p_program, c_program.
  pose proof (inv_producer _ _ _ _ _ H) as Hp. pose proof (inv_consumer _ _ _ _ _ H) as Hc.
  pose proof (sum_nonneg push_work _ (push_work_pos (p_calls (producer m)))) as Hps.
  pose proof (sum_nonneg _ _ (pop_work_pos (capacity_ m) _ ltac:(lia) (inv_calls _ _ _ _ _ H))) as Hcs.
  assert (Hpc : ∀ c, p_calls (producer m) = c → sumZ push_work c = 0 → c = []).
  { intros [| c l] _ E; [done |]. simpl in E. pose proof (sum_nonneg _ _ (push_work_pos l)).
    unfold push_work at 1 in E. lia. }
  assert (Hcc : ∀ c, c_calls (consumer m) = c → sumZ (pop_work (capacity_ m)) c = 0 → c = []).
  { intros [| c l] Hl E; [done |]. simpl in E. pose proof (inv_calls _ _ _ _ _ H) as Hv. rewrite Hl in Hv.
    inversion_clear Hv as [| ? ? Hv1 Hvl].
    pose proof (sum_nonneg _ _ (pop_work_pos (capacity_ m) l ltac:(lia) Hvl)).
    destruct c; unfold pop_work in *; simpl in *; lia. }
  split_and!.
  - destruct (p_pc (producer m)); simpl in *; unfold push_work in *; lia.
  - destruct (c_pc (consumer m)) as [| [| k] ? | | ]; unfold pop_work in *; simpl in *; lia.
  - intros E. destruct (p_pc (producer m)); simpl in *; unfold push_work in *; try lia.
    rewrite (Hpc _ eq_refl) by (unfold push_work; lia). apply app_nil_r.
  - intros E. destruct (c_pc (consumer m)) as [| [| k] ? | | ]; unfold pop_work in *; simpl in *; try lia.
    rewrite (Hcc _ eq_refl) by lia. apply app_nil_r.
Qed.

(** One step of either thread, whatever store it reads. *)
Definition progress (turn : Turn) m m' : Prop :=
  match turn with
  | ProducerTurn _ => p_work m' <= Z.max 0 (p_work m - 1) ∧ c_work m' = c_work m
  | ConsumerTurn _ => c_work m' <= Z.max 0 (c_work m - 1) ∧ p_work m' = p_work m
  end.

Lemma producer_step_inv m Ts Hs hs ts j :
  inv m Ts Hs hs ts →
  ∃ m' Ts' hs', producer_step j m = Some m' ∧ inv m' Ts' Hs hs' ts ∧ capacity_ m' = capacity_ m ∧
    p_program m' = p_program m ∧ consumer m' = consumer m ∧ p_work m' <= Z.max 0 (p_work m - 1).
Proof.
  intros H. unfold p_program, p_work. pose proof (inv_producer _ _ _ _ _ H) as Hok.
  destruct (p_pc (producer m)) as [| call t | call t n i | call t n] eqn:Hpc; simpl in Hok.
  - destruct (p_calls (producer m)) as [| call calls] eqn:Hcalls.
    + exists m, Ts, hs. unfold producer_step. rewrite Hpc, Hcalls. by split_and!.
    + destruct (producer_starts _ _ _ _ _ j _ _ H Hpc Hcalls) as [-> Hinv].
      eexists _, _, _. split; [done |]. split; [done |]. simpl. split_and!; try done.
      pose proof (sum_nonneg _ _ (push_work_pos calls)). unfold push_work in *. lia.
  - destruct (producer_loads _ _ _ _ _ j _ _ H Hpc) as (m' & hs' & n & -> & Hinv & _ & Hn & _ & Hp & Hc & Hk).
    eexists _, _, _. split; [done |]. split; [done |]. rewrite Hp. simpl.
    pose proof (sum_nonneg _ _ (push_work_pos (p_calls (producer m)))).
    case_bool_decide; simpl; split_and!; try done; unfold push_work in *; try lia.
    by rewrite fmap_app, <- app_assoc.
  - destruct (producer_writes _ _ _ _ _ j _ _ _ _ H Hpc) as (m' & -> & Hinv & Hp & Hcalls & Hdone & Hc & Hk).
    eexists _, _, _. split; [done |]. split; [done |]. rewrite Hp, Hcalls, Hdone.
    pose proof (sum_nonneg _ _ (push_work_pos (p_calls (producer m)))).
    case_bool_decide; split_and!; try done; lia.
  - destruct (producer_publishes _ _ _ _ _ j _ _ _ H Hpc) as (m' & -> & Hinv & Hp & Hc & Hk).
    eexists _, _, _. split; [done |]. split; [done |]. rewrite Hp. simpl.
    pose proof (sum_nonneg _ _ (push_work_pos (p_calls (producer m)))).
    split_and!; try done; [by rewrite fmap_app, <- app_assoc | lia].
Qed.

Lemma consumer_step_inv m Ts Hs hs ts j :
  inv m Ts Hs hs ts →
  ∃ m' Hs' ts', consumer_step tc j m = Some m' ∧ inv m' Ts Hs' hs ts' ∧ capacity_ m' = capacity_ m ∧
    c_program m' = c_program m ∧ producer m' = producer m ∧ c_work m' <= Z.max 0 (c_work m - 1).
Proof.
  intros H. unfold c_program, c_work. pose proof (inv_consumer _ _ _ _ _ H) as Hok.
  pose proof (inv_cap_pos _ _ _ _ _ H) as Hcap. pose proof (inv_bounds _ _ _ _ _ H) as Hb.
  pose proof (sum_nonneg _ _ (pop_work_pos (capacity_ m) _ ltac:(lia) (inv_calls _ _ _ _ _ H))) as Hs0.
  destruct (c_pc (consumer m)) as [| call t | call t n i out | call t n out] eqn:Hpc; simpl in Hok.
  - destruct (c_calls (consumer m)) as [| call calls] eqn:Hcalls.
    + exists m, Hs, ts. unfold consumer_step. rewrite Hpc, Hcalls. by split_and!.
    + destruct (consumer_starts _ _ _ _ _ j _ _ H Hpc Hcalls) as [-> Hinv].
      eexists _, _, _. split; [done |]. split; [done |]. simpl in *. split_and!; try done. lia.
  - destruct (consumer_loads _ _ _ _ _ j _ _ H Hpc) as (m' & ts' & n & -> & Hinv & Hle & Hn & _ & Hp & Hc & Hk).
    eexists _, _, _. split; [done |]. split; [done |]. rewrite Hp, Hk. simpl.
    case_bool_decide; simpl; split_and!; try done; [| by rewrite fmap_app, <- app_assoc |];
      destruct call; unfold pop_work in *; simpl in *; lia.
  - destruct (consumer_reads _ _ _ _ _ j _ _ _ _ _ H Hpc) as (m' & v & -> & Hinv & Hp & Hcalls & Hdone & Hc & Hk).
    eexists _, _, _. split; [done |]. split; [done |]. rewrite Hp, Hcalls, Hdone, Hk.
    case_bool_decide; split_and!; try done; lia.
  - destruct (consumer_publishes _ _ _ _ _ j _ _ _ _ H Hpc) as (m' & -> & Hinv & Hp & Hc & Hk).
    eexists _, _, _. split; [done |]. split; [done |]. rewrite Hp, Hk. simpl.
    split_and!; try done; [by rewrite fmap_app, <- app_assoc | lia].
Qed.

Definition reachable m : Prop := ∃ Ts Hs hs ts, inv m Ts Hs hs ts.

Lemma step_reachable turn m :
  reachable m →
  ∃ m', step tc turn m = Some m' ∧ reachable m' ∧ capacity_ m' = capacity_ m ∧
    p_program m' = p_program m ∧ c_program m' = c_program m ∧ progress turn m m'.
Proof.
  intros (Ts & Hs & hs & ts & H). destruct turn as [j | j]; simpl.
  - destruct (producer_step_inv _ _ _ _ _ j H) as (m' & Ts' & hs' & -> & Hinv & Hk & Hp & Hc & Hw).
    exists m'. split; [done |]. split; [by eexists _, _, _, _ |]. unfold c_program, c_work. by rewrite Hc, Hk.
  - destruct (consumer_step_inv _ _ _ _ _ j H) as (m' & Hs' & ts' & -> & Hinv & Hk & Hp & Hc & Hw).
    exists m'. split; [done |]. split; [by eexists _, _, _, _ |]. unfold p_program, p_work. by rewrite Hc.
Qed.

Fixpoint p_turns (turns : list Turn) : Z :=
  match turns with [] => 0 | ProducerTurn _ :: l => p_turns l + 1 | ConsumerTurn _ :: l => p_turns l end.
Fixpoint c_turns (turns : list Turn) : Z :=
  match turns with [] => 0 | ConsumerTurn _ :: l => c_turns l + 1 | ProducerTurn _ :: l => c_turns l end.

Lemma turns_nonneg turns : 0 <= p_turns turns ∧ 0 <= c_turns turns.
Proof. induction turns as [| [] ? ?]; simpl; lia. Qed.

Lemma run_reachable turns m :
  reachable m →
  ∃ m', run tc turns m = Some m' ∧ reachable m' ∧ capacity_ m' = capacity_ m ∧
    p_program m' = p_program m ∧ c_program m' = c_program m ∧
    p_work m' <= Z.max 0 (p_work m - p_turns turns) ∧ c_work m' <= Z.max 0 (c_work m - c_turns turns).
Proof.
  revert m. induction turns as [| turn turns IH]; intros m H; simpl.
  - exists m. split_and!; try done; lia.
  - destruct (step_reachable turn m H) as (m1 & -> & H1 & Hk & Hp & Hc & Hprog). cbn [mbind option_bind].
    destruct (IH m1 H1) as (m2 & -> & H2 & Hk2 & Hp2 & Hc2 & Hw1 & Hw2). exists m2.
    pose proof (turns_nonneg turns).
    split_and!; try done; try congruence; destruct turn; simpl in *; lia.
Qed.

Lemma initial_reachable raw cap pushes pops :
  is_valid_capacity cap = true → is_u32 cap → lenZ raw = cap → Forall valid_pop pops →
  reachable (initial raw cap pushes pops).
Proof.
  intros Hc Hu Hl Hv. unfold is_valid_capacity in Hc. apply andb_true_iff in Hc as [Hc Hp].
  apply bool_decide_eq_true in Hc. apply is_power_of_two_iff in Hp as (e & He & ->); [| mlia].
  assert (He' : 1 <= e <= 31).
  { split; [destruct (decide (e = 0)) as [-> |]; [done | lia] |].
    destruct (decide (e <= 31)); [done |]. pose proof (Z.pow_le_mono_r 2 32 e ltac:(lia) ltac:(lia)). mlia. }
  pose proof (pow2_u32 e ltac:(lia)) as Hpos. destruct (log_initial (2 ^ e) ltac:(lia)) as [Hlog Hseen].
  exists [0], [0], 0, 0. split; unfold stream, read_off, pushed, popped; simpl; try done; try lia.
  exists e. split_and!; try done; try lia. rewrite u32_id; mlia.
Qed.

(** * A call that runs without interruption *)

Lemma producer_finishes j (k : nat) m call t n i :
  reachable m → p_pc (producer m) = PWrite call t n i → n - i = Z.of_nat k →
  ∃ steps m', run tc (replicate steps (ProducerTurn j)) m = Some m' ∧ reachable m' ∧
    consumer m' = consumer m ∧ capacity_ m' = capacity_ m ∧
    p_pc (producer m') = PIdle ∧ p_calls (producer m') = p_calls (producer m) ∧
    p_done (producer m') = p_done (producer m) ++ [(call, n)].
Proof.
  revert m i. induction k as [| k IH]; intros m i (Ts & Hs & hs & ts & H) Hpc Hk.
  { pose proof (inv_producer _ _ _ _ _ H) as Hp. rewrite Hpc in Hp. simpl in Hp. lia. }
  destruct (producer_writes _ _ _ _ _ j _ _ _ _ H Hpc) as (m1 & Hs1 & H1 & Hp1 & Hcalls & Hdone & Hc & Hcap).
  case_bool_decide as Hn.
  - destruct (IH m1 (i + 1)) as (steps & m2 & Hr & ?); [by eexists _, _, _, _ | done | lia |].
    exists (S steps), m2. simpl. rewrite Hs1. cbn [mbind option_bind]. split; [done |].
    by rewrite <- Hc, <- Hcap, <- Hcalls, <- Hdone.
  - destruct (producer_publishes _ _ _ _ _ j _ _ _ H1 Hp1) as (m2 & Hs2 & H2 & Hp2 & Hc2 & Hcap2).
    exists 2%nat, m2. simpl. rewrite Hs1. cbn [mbind option_bind]. rewrite Hs2. cbn [mbind option_bind].
    split; [done |]. split; [by eexists _, _, _, _ |]. rewrite Hp2, Hc2, Hcap2, Hc, Hcap. simpl.
    by rewrite Hcalls, Hdone.
Qed.

Lemma producer_alone j m call calls :
  reachable m → p_pc (producer m) = PIdle → p_calls (producer m) = call :: calls →
  ∃ steps m' n h, run tc (replicate steps (ProducerTurn j)) m = Some m' ∧ reachable m' ∧
    consumer m' = consumer m ∧ p_pc (producer m') = PIdle ∧ p_calls (producer m') = calls ∧
    p_done (producer m') = p_done (producer m) ++ [(call, n)] ∧
    n = Z.min (lenZ (items call)) (capacity_ m - (lenZ (pushed m) - h)) ∧ 0 <= h <= lenZ (popped m) ∧
    ((length (head_ m) - 1 <= j)%nat → h = lenZ (popped m)).
Proof.
  intros (Ts & Hs & hs & ts & H) Hpc Hcalls. pose proof (inv_bounds _ _ _ _ _ H) as Hb.
  destruct (producer_starts _ _ _ _ _ j _ _ H Hpc Hcalls) as [Hs1 H1].
  destruct (producer_loads _ _ _ _ _ j _ _ H1 eq_refl) as (m2 & h & n & Hs2 & H2 & Hle & Hn & Hfresh & Hp2 & Hc2 & Hcap2).
  simpl in *. change (pushed (with_producer m _)) with (pushed m) in Hn.
  change (popped (with_producer m _)) with (popped m) in Hle, Hfresh.
  case_bool_decide as Hpos.
  - destruct (producer_finishes j (Z.to_nat n) m2 call (u32 (lenZ (pushed m))) n 0)
      as (steps & m3 & Hr & H3 & Hc3 & Hcap3 & Hpc3 & Hcalls3 & Hdone3); [by eexists _, _, _, _ | by rewrite Hp2 | lia |].
    exists (S (S steps)), m3, n, h. simpl. rewrite Hs1. cbn [mbind option_bind]. rewrite Hs2. cbn [mbind option_bind].
    split; [done |]. split; [done |]. rewrite Hc3, Hpc3, Hcalls3, Hdone3, Hc2, Hp2. simpl.
    split_and!; try done; lia.
  - exists 2%nat, m2, n, h. simpl. rewrite Hs1. cbn [mbind option_bind]. rewrite Hs2. cbn [mbind option_bind].
    split; [done |]. split; [by eexists _, _, _, _ |]. rewrite Hc2, Hp2. simpl.
    pose proof (inv_room _ _ _ _ _ H2) as Hroom. rewrite Hcap2 in Hroom.
    assert (Hp : pushed m2 = pushed m).
    { unfold pushed at 1. rewrite Hp2. simpl. rewrite pushed_return. simpl. rewrite take_0. apply app_nil_r. }
    rewrite Hp in Hroom.
    assert (Hn0 : n = 0) by lia.
    split_and!; try done; try lia. by rewrite Hn0.
Qed.

Lemma consumer_finishes j (k : nat) m call h n i out :
  reachable m → c_pc (consumer m) = CRead call h n i out → n - i = Z.of_nat k →
  ∃ steps m' r, run tc (replicate steps (ConsumerTurn j)) m = Some m' ∧ reachable m' ∧
    producer m' = producer m ∧ c_pc (consumer m') = CIdle ∧ c_calls (consumer m') = c_calls (consumer m) ∧
    c_done (consumer m') = c_done (consumer m) ++ [(call, r)] ∧ lenZ r = n.
Proof.
  revert m i out. induction k as [| k IH]; intros m i out (Ts & Hs & hs & ts & H) Hpc Hk.
  { pose proof (inv_consumer _ _ _ _ _ H) as Hp. rewrite Hpc in Hp. simpl in Hp. lia. }
  pose proof (inv_consumer _ _ _ _ _ H) as Hok. rewrite Hpc in Hok. simpl in Hok.
  destruct (consumer_reads _ _ _ _ _ j _ _ _ _ _ H Hpc) as (m1 & v & Hs1 & H1 & Hp1 & Hcalls & Hdone & Hc & Hcap).
  case_bool_decide as Hn.
  - destruct (IH m1 (i + 1) (out ++ [v])) as (steps & m2 & r & Hr & ?); [by eexists _, _, _, _ | done | lia |].
    exists (S steps), m2, r. simpl. rewrite Hs1. cbn [mbind option_bind]. split; [done |].
    by rewrite <- Hc, <- Hcalls, <- Hdone.
  - destruct (consumer_publishes _ _ _ _ _ j _ _ _ _ H1 Hp1) as (m2 & Hs2 & H2 & Hp2 & Hc2 & Hcap2).
    exists 2%nat, m2, (out ++ [v]). simpl. rewrite Hs1. cbn [mbind option_bind]. rewrite Hs2. cbn [mbind option_bind].
    split; [done |]. split; [by eexists _, _, _, _ |]. rewrite Hp2, Hc2, Hc. simpl. rewrite Hcalls, Hdone, length_app. simpl.
    split_and!; try done. lia.
Qed.

Lemma consumer_alone j m call calls :
  reachable m → c_pc (consumer m) = CIdle → c_calls (consumer m) = call :: calls →
  ∃ steps m' r t, run tc (replicate steps (ConsumerTurn j)) m = Some m' ∧ reachable m' ∧
    producer m' = producer m ∧ c_pc (consumer m') = CIdle ∧ c_calls (consumer m') = calls ∧
    c_done (consumer m') = c_done (consumer m) ++ [(call, r)] ∧
    lenZ r = Z.min (t - lenZ (popped m)) (match call with TryPop => 1 | Drain k => k end) ∧
    lenZ (popped m) <= t <= lenZ (pushed m) ∧ ((length (tail_ m) - 1 <= j)%nat → t = lenZ (pushed m)).
Proof.
  intros (Ts & Hs & hs & ts & H) Hpc Hcalls. pose proof (inv_bounds _ _ _ _ _ H) as Hb.
  pose proof (inv_calls _ _ _ _ _ H) as Hv. rewrite Hcalls in Hv. inversion_clear Hv as [| ? ? Hv1 _].
  destruct (consumer_starts _ _ _ _ _ j _ _ H Hpc Hcalls) as [Hs1 H1].
  destruct (consumer_loads _ _ _ _ _ j _ _ H1 eq_refl) as (m2 & t & n & Hs2 & H2 & Hle & Hn & Hfresh & Hp2 & Hc2 & Hcap2).
  simpl in *. change (popped (with_consumer m _)) with (popped m) in Hn.
  change (pushed (with_consumer m _)) with (pushed m) in Hle, Hfresh.
  case_bool_decide as Hpos.
  - destruct (consumer_finishes j (Z.to_nat n) m2 call (u32 (lenZ (popped m))) n 0 [])
      as (steps & m3 & r & Hr & H3 & Hc3 & Hpc3 & Hcalls3 & Hdone3 & Hlen); [by eexists _, _, _, _ | by rewrite Hp2 | lia |].
    exists (S (S steps)), m3, r, t. simpl. rewrite Hs1. cbn [mbind option_bind]. rewrite Hs2. cbn [mbind option_bind].
    split; [done |]. split; [done |]. rewrite Hc3, Hpc3, Hcalls3, Hdone3, Hc2, Hp2, Hlen. simpl.
    split_and!; try done; try lia. destruct call; lia.
  - exists 2%nat, m2, [], t. simpl. rewrite Hs1. cbn [mbind option_bind]. rewrite Hs2. cbn [mbind option_bind].
    split; [done |]. split; [by eexists _, _, _, _ |]. rewrite Hc2, Hp2. simpl.
    split_and!; try done; try lia. destruct call; simpl in Hv1; lia.
Qed.

(** What a reachable machine looks like to its users. *)
Lemma reachable_fifo m :
  reachable m → popped m `prefix_of` pushed m ∧ lenZ (pushed m) - lenZ (popped m) <= capacity_ m.
Proof.
  intros (Ts & Hs & hs & ts & H). pose proof (inv_bounds _ _ _ _ _ H).
  split; [| lia]. trans (read_off m); [by apply prefix_app_r | apply H].
Qed.
End Machine.
End SPSCSpec.
