(* ===== verification/SpscTheorems.v ===== *)
(** What is proved of the single-producer single-consumer queues
    ([SpscQueue.v]): no interleaving and no admissible stale read loses,
    repeats, reorders or tears an item; every call finishes within a bounded
    number of its own steps; and an undisturbed call does exactly what a
    bounded queue does. *)
From S2P Require Import Prelude.
From S2P Require Import BitUtils.
From S2P Require Import SpscQueue.
From S2P Require Import SpscQueueSpec.
Import SPSC SPSCSpec.
Local Open Scope Z_scope.
Local Open Scope array_scope.

Lemma construct_initial {T} addr bytes cap size al (raw : list T) pushes pops m :
  construct addr bytes cap size al raw pushes pops = Some m →
  m = initial raw cap pushes pops ∧ is_valid_capacity cap = true.
Proof.
  unfold construct. destruct (is_valid_capacity cap); [| done]. cbn [assertM mbind option_bind].
  destruct (_ || _ || _); [done |]. by intros [= <-].
Qed.

(** [create] never aborts, and gives a queue exactly where the constructor
    does not abort. *)
Lemma create_construct {T} addr bytes cap size al (raw : list T) pushes pops :
  create addr bytes cap size al raw pushes pops = Some (construct addr bytes cap size al raw pushes pops).
Proof.
  unfold create, construct. destruct (is_valid_capacity cap); [| done]. cbn [assertM mbind option_bind negb].
  rewrite orb_false_l. repeat case_bool_decide; done.
Qed.

Lemma constructed_reachable {T} addr bytes cap size al (raw : list T) pushes pops m :
  construct addr bytes cap size al raw pushes pops = Some m → is_u32 cap → lenZ raw = cap →
  Forall valid_pop pops → reachable m.
Proof. intros [-> Hv]%construct_initial Hu Hl Hp. by apply initial_reachable. Qed.

(** [round_up_capacity] gives a capacity the constructor accepts. *)
Lemma round_up_capacity_valid n :
  0 < n <= 2 ^ 31 → ∃ c, round_up_capacity n = Some c ∧ is_valid_capacity c = true ∧ n <= c ∧ is_u32 c.
Proof.
  intros Hn. unfold round_up_capacity. rewrite bool_decide_false by lia.
  case_bool_decide as H2; [exists 2; split_and!; try done; mlia |].
  destruct (round_up_pow2_spec n ltac:(lia)) as (e & He & -> & Hle & _). cbn [mbind option_bind].
  pose proof (pow2_u32 e ltac:(lia)). exists (2 ^ e). rewrite u32_id by mlia. split_and!; try done; try mlia.
  unfold is_valid_capacity. rewrite bool_decide_true by lia. simpl. apply is_power_of_two_iff; [lia |].
  exists e. split; [lia | done].
Qed.

(** C20. For every pair of client programs, every interleaving of the two
    threads' memory accesses and every choice of the stores that the acquire
    loads read, a constructed queue runs without a data race and without
    an access outside its buffer; what has been popped is a prefix of what
    has been pushed, and at most [capacity] items are in between. *)
Theorem spsc_fifo {T} tc addr bytes cap size al (raw : list T) pushes pops m turns :
  construct addr bytes cap size al raw pushes pops = Some m → is_u32 cap → lenZ raw = cap →
  Forall valid_pop pops →
  ∃ m', run tc turns m = Some m' ∧ popped m' `prefix_of` pushed m' ∧
    lenZ (pushed m') - lenZ (popped m') <= cap.
Proof.
  intros Hc Hu Hl Hp. pose proof (constructed_reachable _ _ _ _ _ _ _ _ _ Hc Hu Hl Hp) as Hr.
  apply construct_initial in Hc as [-> _].
  destruct (run_reachable tc turns _ Hr) as (m' & Hrun & Hr' & Hcap & _).
  exists m'. split; [done |]. destruct (reachable_fifo _ Hr') as [Hpre Hlen]. split; [done |].
  rewrite Hcap in Hlen. exact Hlen.
Qed.

(** The queue is wait-free: a call of [n] items needs at most [n + 3]
    steps of its own thread, whatever the other thread does, so a thread that
    has had that many turns for its calls has returned from all of them, in
    order; in particular a stopped consumer cannot block the producer, nor
    the producer the consumer. *)
Theorem spsc_wait_free {T} tc addr bytes cap size al (raw : list T) pushes pops m turns m' :
  construct addr bytes cap size al raw pushes pops = Some m → is_u32 cap → lenZ raw = cap →
  Forall valid_pop pops → run tc turns m = Some m' →
  (sumZ (λ c, lenZ (items c) + 3) pushes <= p_turns turns → fst <$> p_done (producer m') = pushes) ∧
  (sumZ (λ c, match c with TryPop => 1 | Drain k => Z.min k cap end + 3) pops <= c_turns turns →
    fst <$> c_done (consumer m') = pops).
Proof.
  intros Hc Hu Hl Hp Hrun. pose proof (constructed_reachable _ _ _ _ _ _ _ _ _ Hc Hu Hl Hp) as Hr.
  apply construct_initial in Hc as [-> _].
  destruct (run_reachable tc turns _ Hr) as (m1 & Hrun1 & Hr1 & _ & Hpp & Hcp & Hpw & Hcw).
  rewrite Hrun in Hrun1. injection Hrun1 as <-. destruct Hr1 as (Ts & Hs & hs & ts & Hinv).
  destruct (no_work _ _ _ _ _ Hinv) as (Hp0 & Hc0 & Hpd & Hcd).
  unfold p_program, c_program in Hpp, Hcp. simpl in Hpp, Hcp.
  split; intros Hturns.
  - rewrite <- Hpd; [done |]. unfold p_work at 2 in Hpw. simpl in Hpw. unfold push_work in Hpw. lia.
  - rewrite <- Hcd; [done |]. unfold c_work at 2 in Hcw. simpl in Hcw. unfold pop_work in Hcw. lia.
Qed.

(** A call that is not interleaved with steps of the other thread does
    what a bounded queue does, whatever the other thread was in the middle
    of.  A push of [items] accepts as many as there is room for, measured
    against a [head_] not older than the last one seen, and exactly
    [capacity - size] when the load reads the newest store; a pop returns the
    oldest items, as many as asked for or present. *)
Theorem spsc_call_alone {T} tc addr bytes cap size al (raw : list T) pushes pops m0 turns m j :
  construct addr bytes cap size al raw pushes pops = Some m0 → is_u32 cap → lenZ raw = cap →
  Forall valid_pop pops → run tc turns m0 = Some m →
  (∀ call calls, p_pc (producer m) = PIdle → p_calls (producer m) = call :: calls →
    ∃ steps m' n h, run tc (replicate steps (ProducerTurn j)) m = Some m' ∧
      pushed m' = pushed m ++ take (Z.to_nat n) (items call) ∧ popped m' = popped m ∧
      p_pc (producer m') = PIdle ∧ p_calls (producer m') = calls ∧
      p_done (producer m') = p_done (producer m) ++ [(call, n)] ∧
      n = Z.min (lenZ (items call)) (cap - (lenZ (pushed m) - h)) ∧ 0 <= h <= lenZ (popped m) ∧
      ((length (head_ m) <= S j)%nat → h = lenZ (popped m))) ∧
  (∀ call calls, c_pc (consumer m) = CIdle → c_calls (consumer m) = call :: calls →
    ∃ steps m' r t, run tc (replicate steps (ConsumerTurn j)) m = Some m' ∧
      pushed m' = pushed m ∧ popped m' = popped m ++ r ∧
      c_pc (consumer m') = CIdle ∧ c_calls (consumer m') = calls ∧
      c_done (consumer m') = c_done (consumer m) ++ [(call, r)] ∧
      r = take (Z.to_nat (match call with TryPop => 1 | Drain k => k end))
            (drop (length (popped m)) (take (Z.to_nat t) (pushed m))) ∧
      lenZ (popped m) <= t <= lenZ (pushed m) ∧
      ((length (tail_ m) <= S j)%nat → t = lenZ (pushed m))).
Proof.
  intros Hc Hu Hl Hp Hrun. pose proof (constructed_reachable _ _ _ _ _ _ _ _ _ Hc Hu Hl Hp) as Hr.
  apply construct_initial in Hc as [-> _].
  destruct (run_reachable tc turns _ Hr) as (m1 & Hrun1 & Hr1 & Hcap & _).
  rewrite Hrun in Hrun1. injection Hrun1 as <-. simpl in Hcap. split; intros call calls Hpc Hcalls.
  - destruct (producer_alone tc j m call calls Hr1 Hpc Hcalls)
      as (k & m' & n & h & Hrun' & Hr' & Hcm & Hpc' & Hcalls' & Hd & Hn & Hh & Hf).
    exists k, m', n, h. split; [done |]. unfold pushed at 1, popped at 1. rewrite Hd, Hcm, pushed_return.
    split_and!; try done; try lia.
  - destruct (consumer_alone tc j m call calls Hr1 Hpc Hcalls)
      as (k & m' & r & t & Hrun' & Hr' & Hpm & Hpc' & Hcalls' & Hd & Hn & Ht & Hf).
    exists k, m', r, t. split; [done |].
    assert (Hpush : pushed m' = pushed m) by (unfold pushed; by rewrite Hpm).
    assert (Hpop : popped m' = popped m ++ r) by (unfold popped; by rewrite Hd, popped_return).
    split_and!; try done; try lia.
    destruct (reachable_fifo _ Hr') as [[rest Hrest] _]. rewrite Hpush, Hpop in Hrest.
    rewrite Hrest, skipn_firstn_comm, take_take, <- app_assoc, drop_app_length.
    replace (Nat.min _ _) with (length r) by (destruct call; lia). by rewrite take_app_length.
Qed.

(** ** A queue of two slots, its buffer full of garbage *)

Definition demo_pushes : list (PushCall Z) := [TryPush 1; TryPushBatch [2; 3; 4]; TryPush 5].
Definition demo_pops : list PopCall := [Drain 4; TryPop].
Definition demo : Machine Z := initial [77; 88] 2 demo_pushes demo_pops.

(** The producer is ahead, the consumer's first load of [tail_] is stale, and
    the producer is refused while it has not read the newest [head_]. *)
Definition demo_turns : list Turn :=
  (ProducerTurn 9 :: ProducerTurn 9 :: ProducerTurn 9 :: ConsumerTurn 0 :: ProducerTurn 9 :: ProducerTurn 9 ::
   ConsumerTurn 1 :: ProducerTurn 9 :: ConsumerTurn 9 :: ProducerTurn 9 :: ConsumerTurn 9 :: ProducerTurn 9 ::
   replicate 4 (ProducerTurn 0) ++ replicate 6 (ConsumerTurn 9)).

Example demo_runs :
  option_map (λ m, (p_done (producer m), c_done (consumer m))) (run true demo_turns demo) =
  Some ([(TryPush 1, 1); (TryPushBatch [2; 3; 4], 1); (TryPush 5, 0)], [(Drain 4, [1]); (TryPop, [2])]).
Proof. vm_compute. reflexivity. Qed.

Lemma demo_created : create 4096 16 2 8 8 [77; 88] demo_pushes demo_pops = Some (Some demo).
Proof. reflexivity. Qed.

Lemma demo_pops_valid : Forall valid_pop demo_pops.
Proof. repeat constructor. Qed.

Lemma spsc_fifo_witness :
  ∃ m', run true demo_turns demo = Some m' ∧ popped m' `prefix_of` pushed m' ∧
    lenZ (pushed m') - lenZ (popped m') <= 2.
Proof.
  apply (spsc_fifo true 4096 16 2 8 8 [77; 88] demo_pushes demo_pops);
    [reflexivity | unfold is_u32; lia | reflexivity | apply demo_pops_valid].
Defined.

Lemma spsc_wait_free_witness :
  ∃ m', run true (replicate 14 (ProducerTurn 0) ++ replicate 9 (ConsumerTurn 0)) demo = Some m' ∧
    fst <$> p_done (producer m') = demo_pushes ∧ fst <$> c_done (consumer m') = demo_pops.
Proof.
  eexists. split; [vm_compute; reflexivity |].
  edestruct (spsc_wait_free true 4096 16 2 8 8 [77; 88] demo_pushes demo_pops demo
            (replicate 14 (ProducerTurn 0) ++ replicate 9 (ConsumerTurn 0))) as [H H0];
    [reflexivity | unfold is_u32; lia | reflexivity | apply demo_pops_valid | vm_compute; reflexivity |].
  split; [apply H | apply H0]; vm_compute; discriminate.
Defined.

Lemma spsc_call_alone_witness :
  ∃ steps m' n h, run true (replicate steps (ProducerTurn 0)) demo = Some m' ∧
    pushed m' = take (Z.to_nat n) [1] ∧ n = Z.min 1 (2 - (0 - h)) ∧ 0 <= h <= 0.
Proof.
  destruct (spsc_call_alone true 4096 16 2 8 8 [77; 88] demo_pushes demo_pops demo [] demo 0) as [H _];
    [reflexivity | unfold is_u32; lia | reflexivity | apply demo_pops_valid | reflexivity |].
  destruct (H (TryPush 1) [TryPushBatch [2; 3; 4]; TryPush 5] eq_refl eq_refl)
    as (steps & m' & n & h & Hr & Hp & _ & _ & _ & _ & Hn & Hh & _).
  exists steps, m', n, h. split; [exact Hr |]. split; [exact Hp |]. split; [exact Hn | exact Hh].
Defined.
