(* ===== verification/HashUtils.v ===== *)
(** Hash mixing and pseudo-random state ([src/libs/ds/hash_utils.hpp],
    [src/libs/sys/xorshift64.hpp]).

    The mixers are proved to be permutations of the 64-bit words, by
    exhibiting the inverse of each of their rounds; this is what makes
    distinct integral keys keep distinct hashes before masking, and what
    keeps the state of [Xorshift64] away from zero. *)
From S2P Require Import Prelude.
Local Open Scope Z_scope.

(** * Definitions *)

Definition mix64 (k : Z) : Z :=
  let k := Z.lxor k (Z.shiftr k 33) in
  let k := u64 (k * 0xFF51AFD7ED558CCD) in
  let k := Z.lxor k (Z.shiftr k 33) in
  let k := u64 (k * 0xC4CEB9FE1A85EC53) in
  Z.lxor k (Z.shiftr k 33).

(** [SplitMix64::next]: the new state and the value returned. *)
Definition splitmix64_next (state : Z) : Z * Z :=
  let state := u64 (state + 0x9E3779B97F4A7C15) in
  let z := state in
  let z := u64 (Z.lxor z (Z.shiftr z 30) * 0xBF58476D1CE4E5B9) in
  let z := u64 (Z.lxor z (Z.shiftr z 27) * 0x94D049BB133111EB) in
  (state, Z.lxor z (Z.shiftr z 31)).

(** [sizeof(std::size_t) == 8] on the supported target. *)
Definition finalize_hash (h : Z) : Z := mix64 h.

Definition hash_combine_u64 (seed v : Z) : Z :=
  Z.lxor seed (u64 (v + 0x9E3779B97F4A7C15 + u64 (Z.shiftl seed 6) + Z.shiftr seed 2)).

Definition fnv1a_hash (data : list Z) : Z :=
  foldl (λ h b, u64 (Z.lxor h b * 1099511628211)) 14695981039346656037 data.

(** [DefaultHash<Key>] at an integral key: the cast to [size_t] wraps. *)
Definition DefaultHash (k : Z) : Z := finalize_hash (u64 k).

(** [Xorshift64]: construction aborts on a zero seed; [operator()] returns
    the new state, which is also the value drawn. *)
Definition xorshift64_seed (seed : Z) : option Z :=
  if bool_decide (seed = 0) then abort else Some seed.

Definition xorshift64_next (state : Z) : Z :=
  let state := Z.lxor state (u64 (Z.shiftl state 13)) in
  let state := Z.lxor state (Z.shiftr state 7) in
  Z.lxor state (u64 (Z.shiftl state 17)).

(** * Words as bit strings *)

Lemma is_u64_bits x : is_u64 x → ∀ n, 64 <= n → Z.testbit x n = false.
Proof.
  intros Hx n Hn. rewrite <- (Z.mod_small x (2 ^ 64)) by exact Hx.
  by apply Z.mod_pow2_bits_high.
Qed.

Lemma bits_is_u64 x : 0 <= x → (∀ n, 64 <= n → Z.testbit x n = false) → is_u64 x.
Proof.
  intros Hx Hb. split; [done |].
  destruct (decide (x = 0)) as [-> | Hne]; [lia |].
  apply Z.log2_lt_pow2; [lia |].
  destruct (Z.lt_ge_cases (Z.log2 x) 64) as [| Hge]; [done |].
  specialize (Hb _ Hge). rewrite Z.bit_log2 in Hb by lia. done.
Qed.

Lemma lxor_is_u64 x y : is_u64 x → is_u64 y → is_u64 (Z.lxor x y).
Proof.
  intros Hx Hy. apply bits_is_u64.
  - apply Z.lxor_nonneg. split; intros _; [apply Hy | apply Hx].
  - intros n Hn. by rewrite Z.lxor_spec, !is_u64_bits.
Qed.

Lemma shiftr_is_u64 x s : is_u64 x → 0 <= s → is_u64 (Z.shiftr x s).
Proof.
  intros Hx Hs. apply bits_is_u64; [by apply Z.shiftr_nonneg, Hx |].
  intros n Hn. rewrite Z.shiftr_spec by lia. apply is_u64_bits; [done | lia].
Qed.

#[export] Hint Resolve lxor_is_u64 shiftr_is_u64 : machine.

(** * The rounds are injective *)

(** A right xorshift is determined by its value: bit [n] of the result is
    bit [n] of the operand xor a higher bit, so the bits are recovered from
    the top. *)
Lemma xorshiftr_inj s x y :
  0 < s → is_u64 x → is_u64 y →
  Z.lxor x (Z.shiftr x s) = Z.lxor y (Z.shiftr y s) → x = y.
Proof.
  intros Hs Hx Hy Heq.
  assert (∀ m : nat, ∀ n, 64 - Z.of_nat m <= n → 0 <= n → Z.testbit x n = Z.testbit y n) as Hall.
  { induction m as [| m IH]; intros n Hn Hn0.
    - rewrite !is_u64_bits by (done || lia). done.
    - assert (Z.testbit (Z.lxor x (Z.shiftr x s)) n = Z.testbit (Z.lxor y (Z.shiftr y s)) n) as Hb
        by by rewrite Heq.
      rewrite !Z.lxor_spec, !Z.shiftr_spec, (IH (n + s)) in Hb by lia.
      destruct (Z.testbit x n), (Z.testbit y n), (Z.testbit y (n + s)); done. }
  apply Z.bits_inj'. intros n Hn. apply (Hall 64%nat); lia.
Qed.

(** A left xorshift likewise, recovered from the bottom. *)
Lemma xorshiftl_inj s x y :
  0 < s → is_u64 x → is_u64 y →
  Z.lxor x (u64 (Z.shiftl x s)) = Z.lxor y (u64 (Z.shiftl y s)) → x = y.
Proof.
  intros Hs Hx Hy Heq.
  assert (∀ m : nat, ∀ n, n < Z.of_nat m → 0 <= n → Z.testbit x n = Z.testbit y n) as Hall.
  { induction m as [| m IH]; intros n Hn Hn0; [lia |].
    destruct (Z.lt_ge_cases n 64) as [Hlt | Hge]; [| rewrite !is_u64_bits by (done || lia); done].
    assert (Z.testbit (Z.lxor x (u64 (Z.shiftl x s))) n
            = Z.testbit (Z.lxor y (u64 (Z.shiftl y s))) n) as Hb by by rewrite Heq.
    unfold u64 in Hb.
    rewrite !Z.lxor_spec, !Z.mod_pow2_bits_low, !Z.shiftl_spec in Hb by lia.
    destruct (Z.lt_ge_cases n s) as [Hns | Hns].
    - rewrite !(Z.testbit_neg_r _ (n - s)) in Hb by lia.
      by destruct (Z.testbit x n), (Z.testbit y n).
    - rewrite (IH (n - s)) in Hb by lia.
      destruct (Z.testbit x n), (Z.testbit y n), (Z.testbit y (n - s)); done. }
  apply Z.bits_inj'. intros n Hn. apply (Hall (S (Z.to_nat n))); lia.
Qed.

(** Multiplication by a constant with an inverse modulo 2^64. *)
Lemma mul_u64_inj c d x y :
  (c * d) mod 2 ^ 64 = 1 → is_u64 x → is_u64 y → u64 (x * c) = u64 (y * c) → x = y.
Proof.
  intros Hcd Hx Hy Heq. unfold u64 in Heq.
  assert (∀ z, is_u64 z → ((z * c) mod 2 ^ 64 * d) mod 2 ^ 64 = z) as Hinv.
  { intros z Hz. rewrite Zmult_mod_idemp_l, <- Z.mul_assoc, <- Zmult_mod_idemp_r, Hcd, Z.mul_1_r.
    by apply Z.mod_small. }
  rewrite <- (Hinv x Hx), <- (Hinv y Hy). by rewrite Heq.
Qed.

Lemma mix64_range k : is_u64 k → is_u64 (mix64 k).
Proof. intros Hk. unfold mix64. auto 10 with machine lia. Qed.

Lemma DefaultHash_range k : is_u64 (DefaultHash k).
Proof. apply mix64_range, u64_range. Qed.

Lemma DefaultHash_nonneg k : 0 <= DefaultHash k.
Proof. apply DefaultHash_range. Qed.

(** [mix64] is injective on 64-bit words: a permutation of them, so no two
    integral keys collide before the capacity mask is applied. *)
Lemma mix64_injective x y : is_u64 x → is_u64 y → mix64 x = mix64 y → x = y.
Proof.
  intros Hx Hy Heq. unfold mix64 in Heq.
  apply xorshiftr_inj in Heq; [| lia | auto with machine..].
  apply (mul_u64_inj _ 11291846944257947611) in Heq;
    [| by vm_compute | auto 10 with machine lia..].
  apply xorshiftr_inj in Heq; [| lia | auto with machine..].
  apply (mul_u64_inj _ 5725274745694666757) in Heq;
    [| by vm_compute | auto 10 with machine lia..].
  by apply xorshiftr_inj in Heq; [| lia | ..].
Qed.

(** * Xorshift64 *)

Lemma xorshift64_next_range s : is_u64 s → is_u64 (xorshift64_next s).
Proof. intros Hs. unfold xorshift64_next. auto 10 with machine lia. Qed.

Lemma xorshift64_next_injective x y :
  is_u64 x → is_u64 y → xorshift64_next x = xorshift64_next y → x = y.
Proof.
  intros Hx Hy Heq. unfold xorshift64_next in Heq.
  apply xorshiftl_inj in Heq; [| lia | auto 10 with machine lia..].
  apply xorshiftr_inj in Heq; [| lia | auto 10 with machine lia..].
  by apply xorshiftl_inj in Heq; [| lia | ..].
Qed.

(** The state stays a non-zero 64-bit word for ever: zero is a fixed point
    of an injective step, so no non-zero state reaches it. *)
Lemma xorshift64_never_zero seed s0 (n : nat) :
  is_u64 seed → xorshift64_seed seed = Some s0 →
  is_u64 (Nat.iter n xorshift64_next s0) ∧ Nat.iter n xorshift64_next s0 ≠ 0.
Proof.
  intros Hseed Hs. unfold xorshift64_seed in Hs. case_bool_decide; simplify_eq/=.
  induction n as [| n [IHr IHn]]; simpl; [done |].
  split; [by apply xorshift64_next_range |]. intros Hz. apply IHn.
  apply xorshift64_next_injective; [done | split; lia |].
  rewrite Hz. by vm_compute.
Qed.
