(* ===== verification/IndexFreeStack.v ===== *)
(** The LIFO pools of slot indices:
    [src/libs/ds/index_free_stack.hpp] (run-time capacity, caller's buffer)
    and [src/libs/ds/fixed_index_free_stack.hpp] (inline storage).

    The debug build keeps an [in_use_] tracker and aborts on a double free;
    the release build ([NDEBUG]) drops it.  Both are modelled: [ndebug]
    selects the build.  A failed operation ([std::abort]) is [None]. *)
From S2P Require Import Prelude.
Local Open Scope Z_scope.
Local Open Scope array_scope.

(** * State and operations of IndexFreeStack *)

Module IFS.

Record IndexFreeStack : Set := {
  indices_ : list Z;
  capacity_ : Z;
  top_ : Z;
  in_use_ : list bool;
}.

Section Build.
  Context (ndebug : bool).

Definition is_valid_capacity (c : Z) : bool :=
  bool_decide (c >= 1) && bool_decide (c <= 2 ^ 32 - 1).

(** [capacity * sizeof(uint32_t)], plus the tracker in a debug build. *)
Definition required_buffer_size (capacity : Z) : Z :=
  let size := u64 (capacity * 4) in
  if ndebug then size else u64 (size + u64 (capacity * 1)).

(** [partition_buffer]: the three checks on the caller's buffer, given by
    its address ([None] for a null pointer) and its size in bytes. *)
Definition partition_buffer (buf : option Z) (buf_bytes cap : Z) : bool :=
  match buf with
  | None => false
  | Some addr =>
      if negb (bool_decide (addr mod 4 = 0)) then false
      else negb (bool_decide (buf_bytes < required_buffer_size cap))
  end.

(** [init_storage]: indices in reverse, so that [pop] returns 0, 1, 2, ... *)
Definition init_storage (capacity : Z) : IndexFreeStack := {|
  indices_ := (λ i : nat, capacity - 1 - Z.of_nat i) <$> seq 0 (Z.to_nat capacity);
  capacity_ := capacity;
  top_ := capacity;
  in_use_ := if ndebug then [] else replicate (Z.to_nat capacity) false;
|}.

Definition create (buf : option Z) (buf_bytes capacity : Z) : option IndexFreeStack :=
  if negb (is_valid_capacity capacity) then None
  else if negb (partition_buffer buf buf_bytes capacity) then None
  else Some (init_storage (u32 capacity)).

(** The default constructor: empty and unusable. *)
Definition empty_stack : IndexFreeStack :=
  {| indices_ := []; capacity_ := 0; top_ := 0; in_use_ := [] |}.

(** [pop]: the new state, and the index written to [out] when the call
    returns [true]. *)
Definition pop (s : IndexFreeStack) : option (IndexFreeStack * option Z) :=
  if bool_decide (top_ s = 0) then Some (s, None)
  else
    let top := top_ s - 1 in
    out ← (indices_ s).[top];
    in_use ← (if ndebug then Some (in_use_ s) else storeZ (in_use_ s) out true);
    Some ({| indices_ := indices_ s; capacity_ := capacity_ s;
             top_ := top; in_use_ := in_use |}, Some out).

Definition push (s : IndexFreeStack) (idx : Z) : option IndexFreeStack :=
  if bool_decide (idx >= capacity_ s) || bool_decide (top_ s >= capacity_ s) then abort
  else
    in_use ← (if ndebug then Some (in_use_ s)
              else used ← (in_use_ s).[idx];
                   if negb used then abort else storeZ (in_use_ s) idx false);
    indices ← storeZ (indices_ s) (top_ s) idx;
    Some {| indices_ := indices; capacity_ := capacity_ s;
            top_ := top_ s + 1; in_use_ := in_use |}.

Definition available (s : IndexFreeStack) : Z := top_ s.
Definition is_empty (s : IndexFreeStack) : bool := bool_decide (top_ s = 0).
Definition is_full (s : IndexFreeStack) : bool := bool_decide (top_ s = capacity_ s).

(** * Abstraction: the free indices, most recently freed first *)

Definition free_list (s : IndexFreeStack) : list Z :=
  reverse (take (Z.to_nat (top_ s)) (indices_ s)).

Record stack_wf (s : IndexFreeStack) : Prop := {
  wf_len : lenZ (indices_ s) = capacity_ s;
  wf_top : 0 <= top_ s <= capacity_ s;
  wf_nodup : NoDup (free_list s);
  wf_range : ∀ i, i ∈ free_list s → 0 <= i < capacity_ s;
  wf_tracker : ndebug = false →
    lenZ (in_use_ s) = capacity_ s ∧
    ∀ i, 0 <= i < capacity_ s → (in_use_ s).[i] = Some (bool_decide (i ∉ free_list s));
}.

Lemma length_free_list s : stack_wf s → lenZ (free_list s) = top_ s.
Proof.
  intros Hwf. destruct Hwf. unfold free_list.
  rewrite length_reverse, length_take. lia.
Qed.

(** Distinct indices below the capacity: at most capacity of them. *)
Lemma nodup_range_length (l : list Z) (c : Z) :
  NoDup l → (∀ i, i ∈ l → 0 <= i < c) → lenZ l <= Z.max 0 c.
Proof.
  intros Hnd Hr.
  assert (length l ≤ length (Z.of_nat <$> seq 0 (Z.to_nat c)))%nat as Hle.
  { apply submseteq_length, NoDup_submseteq; [done |].
    intros i Hi. apply list_elem_of_fmap. exists (Z.to_nat i).
    specialize (Hr i Hi). rewrite elem_of_seq. lia. }
  rewrite length_fmap, length_seq in Hle. lia.
Qed.

Lemma top_lt_capacity s idx :
  stack_wf s → 0 <= idx < capacity_ s → idx ∉ free_list s → top_ s < capacity_ s.
Proof.
  intros Hwf Hi Hni. pose proof (length_free_list s Hwf). destruct Hwf.
  pose proof (nodup_range_length (idx :: free_list s) (capacity_ s)) as Hl.
  ospecialize (Hl _ _).
  - by constructor.
  - intros i [-> | Hin]%elem_of_cons; auto.
  - simpl in Hl. lia.
Qed.

(** [init_storage] starts with every index free, in increasing order. *)
Lemma free_list_init c :
  0 <= c → free_list (init_storage c) = Z.of_nat <$> seq 0 (Z.to_nat c).
Proof.
  intros Hc. unfold free_list, init_storage; simpl.
  rewrite take_ge by (rewrite length_fmap, length_seq; lia).
  apply list_eq_same_length with (Z.to_nat c);
    [by rewrite length_fmap, length_seq | by rewrite length_reverse, length_fmap, length_seq |].
  intros i x y Hi Hx Hy.
  rewrite reverse_lookup in Hx by (rewrite length_fmap, length_seq; lia).
  rewrite length_fmap, length_seq in Hx.
  rewrite list_lookup_fmap, lookup_seq_lt in Hx by lia.
  rewrite list_lookup_fmap, lookup_seq_lt in Hy by lia. simplify_eq/=. lia.
Qed.

Lemma init_storage_wf c : 0 <= c → stack_wf (init_storage c).
Proof.
  intros Hc. pose proof (free_list_init c Hc) as Hfl. split; simpl.
  - rewrite length_fmap, length_seq. lia.
  - lia.
  - rewrite Hfl. apply NoDup_fmap_2; [apply _ | apply NoDup_seq].
  - intros i. rewrite Hfl, list_elem_of_fmap. setoid_rewrite elem_of_seq.
    intros (n & -> & Hn). lia.
  - intros Hnd. rewrite Hnd. split; [by rewrite length_replicate; lia |].
    intros i Hi. rewrite <- (Z2Nat.id i) at 1 by lia. rewrite getZ_nat.
    rewrite lookup_replicate_2 by lia. f_equal. symmetry. apply bool_decide_eq_false.
    intros Hni. apply Hni. rewrite Hfl. apply list_elem_of_fmap.
    exists (Z.to_nat i). rewrite elem_of_seq. lia.
Qed.

Lemma free_list_cons s idx :
  0 < top_ s <= lenZ (indices_ s) → (indices_ s).[top_ s - 1] = Some idx →
  free_list s = idx :: reverse (take (Z.to_nat (top_ s - 1)) (indices_ s)).
Proof.
  intros Ht Hidx. unfold free_list.
  replace (Z.to_nat (top_ s)) with (S (Z.to_nat (top_ s - 1))) by lia.
  apply getZ_to_lookup in Hidx.
  by rewrite (take_S_r _ _ idx), reverse_snoc by done.
Qed.

(** [pop] on a well-formed stack never fails: it takes the head of the free
    list, or reports exhaustion and changes nothing. *)
Lemma pop_spec s :
  stack_wf s →
  match free_list s with
  | [] => pop s = Some (s, None)
  | idx :: rest => ∃ s', pop s = Some (s', Some idx) ∧ stack_wf s' ∧ free_list s' = rest ∧
      capacity_ s' = capacity_ s
  end.
Proof.
  intros Hwf. pose proof (length_free_list s Hwf) as Hlen. destruct Hwf as [Hl Ht Hnd Hr Htr].
  unfold pop. case_bool_decide as Htop.
  { destruct (free_list s); simpl in *; [done | lia]. }
  destruct (getZ_is_Some (indices_ s) (top_ s - 1)) as [idx Hidx]; [lia |].
  rewrite (free_list_cons s idx) in * by (done || lia).
  rewrite Hidx; simpl.
  assert (0 <= idx < capacity_ s) as Hir by (apply Hr; left).
  destruct ndebug eqn:Hb; simpl.
  - eexists. split; [done |]. apply nodup_cons in Hnd as [Hni Hnd].
    split; [| done]. split; simpl; unfold free_list; simpl; try done; [lia | | congruence].
    intros i Hi. apply Hr. by right.
  - destruct Htr as [Hul Hu]; [done |]. rewrite storeZ_Some by lia; simpl.
    eexists. split; [done |]. apply nodup_cons in Hnd as [Hni Hnd].
    split; [| done]. split; simpl; unfold free_list; simpl; try done; [lia | |].
    + intros i Hi. apply Hr. by right.
    + intros _. rewrite length_setZ. split; [done |]. intros i Hi.
      rewrite getZ_setZ by lia. case_decide as Hii.
      * subst. f_equal. by rewrite bool_decide_true.
      * rewrite Hu by done. f_equal. apply bool_decide_ext.
        rewrite elem_of_cons. naive_solver.
Qed.

(** [push] of an index that is in range and not free never fails, and puts
    it on top of the free list. *)
Lemma push_spec s idx :
  stack_wf s → 0 <= idx < capacity_ s → idx ∉ free_list s →
  ∃ s', push s idx = Some s' ∧ stack_wf s' ∧ free_list s' = idx :: free_list s ∧
    capacity_ s' = capacity_ s.
Proof.
  intros Hwf Hi Hni. pose proof (top_lt_capacity s idx Hwf Hi Hni) as Htop.
  destruct Hwf as [Hl Ht Hnd Hr Htr].
  assert (∀ iu, free_list {| indices_ := (indices_ s).[top_ s <- idx]; capacity_ := capacity_ s;
                   top_ := top_ s + 1; in_use_ := iu |} = idx :: free_list s) as Hfl.
  { intros iu. rewrite (free_list_cons _ idx); simpl.
    - f_equal. unfold free_list; simpl. replace (top_ s + 1 - 1) with (top_ s) by lia.
      unfold setZ. by rewrite take_insert_ge.
    - rewrite length_setZ. lia.
    - replace (top_ s + 1 - 1) with (top_ s) by lia. rewrite getZ_setZ_eq; [done | lia]. }
  unfold push. rewrite !bool_decide_false by lia; simpl.
  destruct ndebug eqn:Hb; simpl.
  - rewrite storeZ_Some by lia; simpl. eexists. split; [done |]. rewrite Hfl.
    split; [| done].
    split; simpl; rewrite ?Hfl, ?length_setZ; try done; [lia | by constructor | | congruence].
    intros i [-> |]%elem_of_cons; auto.
  - destruct Htr as [Hul Hu]; [done |]. rewrite Hu by done.
    rewrite bool_decide_true by done; simpl.
    rewrite !storeZ_Some by lia; simpl. eexists. split; [done |]. rewrite Hfl.
    split; [| done].
    split; simpl; rewrite ?Hfl, ?length_setZ; try done; [lia | by constructor | |].
    + intros i [-> |]%elem_of_cons; auto.
    + intros _. split; [done |]. intros i Hir. rewrite getZ_setZ by lia. case_decide as Hii.
      * subst. f_equal. symmetry. apply bool_decide_eq_false. intros Hc. apply Hc. left.
      * rewrite Hu by done. f_equal. apply bool_decide_ext. rewrite elem_of_cons. naive_solver.
Qed.

(** The debug build turns a double free into an abort. *)
Lemma push_double_free s idx :
  ndebug = false → stack_wf s → 0 <= idx < capacity_ s → idx ∈ free_list s → push s idx = None.
Proof.
  intros Hb Hwf Hi Hin. destruct Hwf as [Hl Ht Hnd Hr Htr].
  unfold push. destruct (_ || _); [done |]. rewrite Hb.
  destruct Htr as [Hul Hu]; [done |]. rewrite Hu by done.
  by rewrite bool_decide_false; [| tauto].
Qed.

End Build.
End IFS.

(** * FixedIndexFreeStack

    The same protocol with the capacity a template parameter.  Its state is
    the three arrays and counters; [to_runtime] reads it as the run-time
    stack of the same capacity. *)
Module FixedIFS.

Record FixedIndexFreeStack : Set := {
  indices_ : list Z;
  top_ : Z;
  in_use_ : list bool;
}.

Section Build.
  Context (ndebug : bool) (Capacity : Z).

Definition construct : FixedIndexFreeStack := {|
  indices_ := (λ i : nat, u32 (Capacity - 1 - Z.of_nat i)) <$> seq 0 (Z.to_nat Capacity);
  top_ := u32 Capacity;
  in_use_ := if ndebug then [] else replicate (Z.to_nat Capacity) false;
|}.

Definition pop (s : FixedIndexFreeStack) : option (FixedIndexFreeStack * option Z) :=
  if bool_decide (top_ s = 0) then Some (s, None)
  else
    let top := top_ s - 1 in
    out ← (indices_ s).[top];
    in_use ← (if ndebug then Some (in_use_ s) else storeZ (in_use_ s) out true);
    Some ({| indices_ := indices_ s; top_ := top; in_use_ := in_use |}, Some out).

Definition push (s : FixedIndexFreeStack) (idx : Z) : option FixedIndexFreeStack :=
  if bool_decide (idx >= Capacity) || bool_decide (top_ s >= Capacity) then abort
  else
    in_use ← (if ndebug then Some (in_use_ s)
              else used ← (in_use_ s).[idx];
                   if negb used then abort else storeZ (in_use_ s) idx false);
    indices ← storeZ (indices_ s) (top_ s) idx;
    Some {| indices_ := indices; top_ := top_ s + 1; in_use_ := in_use |}.

Definition to_runtime (s : FixedIndexFreeStack) : IFS.IndexFreeStack := {|
  IFS.indices_ := indices_ s;
  IFS.capacity_ := Capacity;
  IFS.top_ := top_ s;
  IFS.in_use_ := in_use_ s;
|}.

(** Every operation of the fixed stack is the operation of the run-time
    stack of that capacity: "same algorithm and semantics". *)
Lemma construct_refines :
  IFS.is_valid_capacity Capacity = true →
  to_runtime construct = IFS.init_storage ndebug Capacity.
Proof.
  unfold IFS.is_valid_capacity. intros [H1%bool_decide_eq_true H2%bool_decide_eq_true]%andb_true_iff.
  unfold to_runtime, construct, IFS.init_storage; simpl. f_equal; [| by rewrite u32_id by mlia].
  apply list_fmap_ext. intros i x [Hx Hi]%lookup_seq. rewrite u32_id; [done | mlia].
Qed.

Lemma pop_refines s :
  IFS.pop ndebug (to_runtime s)
  = (λ r, (to_runtime r.1, r.2)) <$> pop s.
Proof.
  unfold pop, IFS.pop; simpl. case_bool_decide; [done |].
  destruct ((indices_ s).[top_ s - 1]) as [out |]; simpl; [| done].
  destruct ndebug; simpl; [done |]. by destruct (storeZ _ _ _).
Qed.

Lemma push_refines s idx :
  IFS.push ndebug (to_runtime s) idx = to_runtime <$> push s idx.
Proof.
  unfold push, IFS.push; simpl. case_match; [done |].
  destruct ndebug; simpl; [by destruct (storeZ _ _ _) |].
  destruct ((in_use_ s).[idx]) as [[] |]; simpl; try done.
  destruct (storeZ (in_use_ s) _ _); simpl; [| done]. by destruct (storeZ (indices_ s) _ _).
Qed.

End Build.
End FixedIFS.
