(* ===== verification/LockFreeStack.v ===== *)
(** The lock-free stacks [src/libs/sys/memory/lock_free_stack.hpp] and
    [src/libs/sys/memory/intrusive_lock_free_stack.hpp] (the same algorithm
    on a wrapper node and on a hook), their single-threaded twin
    [single_thread_stack.hpp], and the object pools over them,
    [concurrent_object_pool.hpp] and [single_thread_object_pool.hpp].

    Any number of threads run their calls one memory access at a time, in any
    order.  [head_] is its modification order.  Every store to it is a
    read-modify-write, so each is in the release sequence of all the pushes
    before it: reading a store with acquire makes every earlier push known.
    A load reads any store that is not older than one its thread has read; a
    compare-and-swap succeeds on the last store only, may fail spuriously,
    and when it fails reads as a load does.  The links are relaxed atomics: a
    load of [next] reads any store to it that is not older than one the thread
    knows of.  Nodes are the indices of the pool's block. *)
From S2P Require Import Prelude.
From S2P Require Import BitUtils.
From S2P Require Import IndexFreeStack.
Local Open Scope Z_scope.
Local Open Scope array_scope.

Module LFS.

Record TaggedPtr : Set := { ptr : option Z; tag : Z }.

#[export] Instance TaggedPtr_eq_dec : EqDecision TaggedPtr.
Proof. solve_decision. Defined.

(** A store to [head_], with the stores to the links, by position for each
    node, that an acquire load of it makes known. *)
Record Store : Set := { value : TaggedPtr; published : list nat }.

(** * Threads *)

(** [Give] is no call of the stack: the caller hands a node it owns to
    another thread between calls, which learns what the giver knows. *)
Inductive Call : Set := Push (node : Z) | TryPop | Empty | Give (node : Z) (to : nat).

(** Results, with the position of the store that decided each: the call's
    own store, or the one that was read when there was nothing to pop, and by
    [empty]. *)
Inductive Result : Set :=
  | Pushed (node : Z) (j : nat) | Popped (node : Z) (j : nat) | Nothing (j : nat) | WasEmpty (b : bool) (j : nat).

(** [PushLink]: the link is to be stored; [PushCas]: the swap is next;
    [PopLink]: the link is to be loaded.  [old_head] is the local variable. *)
Inductive Pc : Set :=
  | Idle
  | PushLink (node : Z) (old_head : TaggedPtr)
  | PushCas (node : Z) (old_head : TaggedPtr)
  | PopLink (old_head : TaggedPtr)
  | PopCas (old_head : TaggedPtr) (next : option Z).

(** A thread: where it is, the position of the last store to [head_] it has
    read, the stores to the links it knows of, the nodes its caller owns and
    the calls that have returned. *)
Record Thread : Set := { pc : Pc; view : nat; knows : list nat; held : list Z; done : list Result }.

Record Machine : Set := { head_ : list Store; nexts : list (list (option Z)); threads : list Thread }.

Implicit Types (m : Machine) (th : Thread).

Definition go th (p : Pc) : Thread :=
  {| pc := p; view := view th; knows := knows th; held := held th; done := done th |}.
Definition seen th (j : nat) : Thread :=
  {| pc := pc th; view := j; knows := knows th; held := held th; done := done th |}.
Definition learn th (k : list nat) : Thread :=
  {| pc := pc th; view := view th; knows := k; held := held th; done := done th |}.
Definition own th (l : list Z) : Thread :=
  {| pc := pc th; view := view th; knows := knows th; held := l; done := done th |}.
Definition return_ th (r : Result) : Thread :=
  {| pc := Idle; view := view th; knows := knows th; held := held th; done := done th ++ [r] |}.

Definition with_thread m (t : nat) th : Machine :=
  {| head_ := head_ m; nexts := nexts m; threads := <[t := th]> (threads m) |}.
Definition with_head m (st : Store) : Machine :=
  {| head_ := head_ m ++ [st]; nexts := nexts m; threads := threads m |}.
Definition with_nexts m (l : list (list (option Z))) : Machine :=
  {| head_ := head_ m; nexts := l; threads := threads m |}.

(** * Memory accesses *)

(** A load of [head_]: [choice] picks the store. *)
Definition load (log : list Store) (from choice : nat) : option (nat * Store) :=
  let j := Nat.max from (Nat.min choice (length log - 1)) in
  st ← log !! j;
  Some (j, st).

Definition latest (log : list Store) : option Store := log !! (length log - 1)%nat.

Definition join (k1 k2 : list nat) : list nat := zip_with Nat.max k1 k2.

(** A relaxed load of a node's link. *)
Definition load_next (log : list (option Z)) (from choice : nat) : option (nat * option Z) :=
  let j := Nat.max from (Nat.min choice (length log - 1)) in
  v ← log !! j;
  Some (j, v).

(** * The calls *)

Definition new_head (p : option Z) (old_head : TaggedPtr) : TaggedPtr :=
  {| ptr := p; tag := u64 (tag old_head + 1) |}.

(** After [try_pop] has loaded [head_]. *)
Definition pop_test th (j : nat) (st : Store) : Thread :=
  let th := learn (seen th j) (join (knows th) (published st)) in
  match ptr (value st) with
  | None => return_ th (Nothing j)
  | Some _ => go th (PopLink (value st))
  end.

(** The next step of thread [t].  [start] is the call an idle thread begins,
    [choice] the store a load picks, [spurious] a swap that fails although it
    need not.  [None]: a push or a gift of a node its caller does not own, or an
    access outside the block. *)
Definition step (t : nat) (start : Call) (choice : nat) (spurious : bool) m : option Machine :=
  th ← threads m !! t;
  match pc th with
  | Idle =>
      match start with
      | Push node =>
          _ ← assertM (bool_decide (node ∈ held th));
          '(j, st) ← load (head_ m) (view th) choice;
          Some (with_thread m t (go (own (seen th j) (filter (λ x, x ≠ node) (held th))) (PushLink node (value st))))
      | TryPop =>
          '(j, st) ← load (head_ m) (view th) choice;
          Some (with_thread m t (pop_test th j st))
      | Empty =>
          '(j, st) ← load (head_ m) (view th) choice;
          Some (with_thread m t (return_ (seen th j) (WasEmpty (bool_decide (ptr (value st) = None)) j)))
      | Give node to =>
          _ ← assertM (bool_decide (node ∈ held th));
          let m := with_thread m t (own th (filter (λ x, x ≠ node) (held th))) in
          other ← threads m !! to;
          match pc other with
          | Idle => Some (with_thread m to (own (learn (seen other (Nat.max (view other) (view th))) (join (knows other) (knows th)))
                                                (held other ++ [node])))
          | _ => None
          end
      end
  | PushLink node old_head =>
      log ← (nexts m).[node];
      nexts ← storeZ (nexts m) node (log ++ [ptr old_head]);
      k ← storeZ (knows th) node (length log);
      Some (with_thread (with_nexts m nexts) t (go (learn th k) (PushCas node old_head)))
  | PushCas node old_head =>
      last ← latest (head_ m);
      if spurious || negb (bool_decide (value last = old_head)) then
        '(j, st) ← load (head_ m) (view th) choice;
        Some (with_thread m t (go (seen th j) (PushLink node (value st))))
      else
        let st := {| value := new_head (Some node) old_head; published := join (published last) (knows th) |} in
        Some (with_thread (with_head m st) t (return_ (seen th (length (head_ m))) (Pushed node (length (head_ m)))))
  | PopLink old_head =>
      node ← ptr old_head;
      log ← (nexts m).[node];
      from ← (knows th).[node];
      '(j, next) ← load_next log from choice;
      k ← storeZ (knows th) node j;
      Some (with_thread m t (go (learn th k) (PopCas old_head next)))
  | PopCas old_head next =>
      last ← latest (head_ m);
      if spurious || negb (bool_decide (value last = old_head)) then
        '(j, st) ← load (head_ m) (view th) choice;
        Some (with_thread m t (pop_test th j st))
      else
        node ← ptr old_head;
        let st := {| value := new_head next old_head; published := published last |} in
        let th := learn (seen th (length (head_ m))) (join (knows th) (published last)) in
        Some (with_thread (with_head m st) t (return_ (own th (held th ++ [node])) (Popped node (length (head_ m)))))
  end.

Record Turn : Set := { who : nat; start : Call; choice : nat; spurious : bool }.

Fixpoint run (turns : list Turn) m : option Machine :=
  match turns with
  | [] => Some m
  | x :: turns => m ← step (who x) (start x) (choice x) (spurious x) m; run turns m
  end.

(** The constructor, over a block of [n] nodes whose links are null; thread 0
    owns them all. *)
Definition nodes_of (n : nat) : list Z := Z.of_nat <$> seq 0 n.
Definition new_thread (n : nat) (l : list Z) : Thread :=
  {| pc := Idle; view := 0; knows := replicate n 0%nat; held := l; done := [] |}.
Definition construct (n others : nat) : Machine :=
  {| head_ := [{| value := {| ptr := None; tag := 0 |}; published := replicate n 0%nat |}];
     nexts := replicate n [None];
     threads := new_thread n (nodes_of n) :: replicate others (new_thread n []) |}.

(** [ConcurrentObjectPool::init_free_list]: the pushes of the constructing
    thread, before any other thread has the pool. *)
Definition push_turns (node : Z) : list Turn :=
  replicate 3 {| who := 0; start := Push node; choice := Z.to_nat node; spurious := false |}.
Definition init_free_list (n : nat) : list Turn := nodes_of n ≫= push_turns.
End LFS.

(** * The single-threaded stack *)

Module STS.

Record Stack : Set := { head_ : option Z; next : list (option Z) }.

Definition push (s : Stack) (node : Z) : option Stack :=
  nexts ← storeZ (next s) node (head_ s);
  Some {| head_ := Some node; next := nexts |}.

Definition try_pop (s : Stack) : option (Stack * option Z) :=
  match head_ s with
  | None => Some (s, None)
  | Some node => n ← (next s).[node]; Some ({| head_ := n; next := next s |}, Some node)
  end.

Definition empty (s : Stack) : bool := bool_decide (head_ s = None).
End STS.
