(* ===== verification/LockFreeSpec.v ===== *)
(** The lock-free stack ([LockFreeStack.v]) is linearizable: over every
    interleaving, every choice of the stores that loads read and every
    spurious failure, its committed calls are those of a sequential stack in
    the order of the stores to [head_], and a node has one owner. *)
From Stdlib Require Import Sorted.
From S2P Require Import Prelude.
From S2P Require Import LockFreeStack.
Local Open Scope Z_scope.
Local Open Scope array_scope.

Module LFSpec.
Import LFS.
Implicit Types (m : Machine) (th : Thread).

(** * Lists of threads *)

(** A quantity collected over the threads, when one of them changes. *)
Lemma collect_insert {A} (f : Thread → list A) (l : list Thread) t th th' :
  l !! t = Some th → (l ≫= f) ++ f th' ≡ₚ (<[t := th']> l ≫= f) ++ f th.
Proof.
  revert t. induction l as [| y l IH]; intros [| t] Ht; cbn [lookup list_lookup insert list_insert mbind list_bind] in *; [done | done | |].
  - injection Ht as ->. rewrite <- !app_assoc, (Permutation_app_comm (l ≫= f) (f th')), (Permutation_app_comm (l ≫= f) (f th)), !app_assoc.
    apply Permutation_app_tail, Permutation_app_comm.
  - rewrite <- !app_assoc. by apply Permutation_app_head, IH.
Qed.

Lemma collect_same {A} (f : Thread → list A) (l : list Thread) t th th' :
  l !! t = Some th → f th' ≡ₚ f th → (<[t := th']> l ≫= f) ≡ₚ l ≫= f.
Proof. intros Ht Hf. pose proof (collect_insert f l t th th' Ht) as H. rewrite Hf in H. by apply Permutation_app_inv_r in H. Qed.

Lemma collect_more {A} (f : Thread → list A) (l : list Thread) t th th' x :
  l !! t = Some th → f th' ≡ₚ x :: f th → (<[t := th']> l ≫= f) ≡ₚ x :: (l ≫= f).
Proof.
  intros Ht Hf. pose proof (collect_insert f l t th th' Ht) as H. rewrite Hf in H.
  rewrite <- Permutation_middle in H. by apply (Permutation_app_inv_r (f th) (x :: (l ≫= f))) in H.
Qed.

Lemma collect_elem {A} (f : Thread → list A) (l : list Thread) t th x : l !! t = Some th → x ∈ f th → x ∈ l ≫= f.
Proof. intros Ht Hx. apply list_elem_of_bind. exists th. split; [done |]. by eapply list_elem_of_lookup_2. Qed.

(** * The chain of nodes *)

(** The last store to a node's link. *)
Definition last_next (nexts : list (list (option Z))) (x : Z) : option (option Z) :=
  log ← nexts.[x]; log !! (length log - 1)%nat.

Fixpoint linked (nexts : list (list (option Z))) (p : option Z) (l : list Z) : Prop :=
  match l with
  | [] => p = None
  | x :: l => p = Some x ∧ ∃ q, last_next nexts x = Some q ∧ linked nexts q l
  end.

Lemma linked_ext nexts nexts' p l :
  (∀ x, x ∈ l → last_next nexts' x = last_next nexts x) → linked nexts p l → linked nexts' p l.
Proof.
  revert p. induction l as [| x l IH]; intros p He; cbn [linked]; [done |]. intros (-> & q & Hq & Hl).
  split; [done |]. exists q. rewrite He by by left. split; [done |]. apply IH; [| done]. intros y Hy. apply He. by right.
Qed.

Lemma linked_top nexts p l : linked nexts p l → p = hd_error l.
Proof. destruct l; cbn [linked]; [done | by intros [-> _]]. Qed.

(** * The invariant *)

(** The nodes of the callers and of the pushes under way. *)
Definition in_hand th : list Z :=
  held th ++ match pc th with PushLink x _ | PushCas x _ => [x] | _ => [] end.

(** The positions of the stores its calls have made. *)
Definition positions th : list nat :=
  omap (λ r, match r with Pushed _ j | Popped _ j => Some j | _ => None end) (done th).

(** What a returned call says about the stack. *)
Definition result_ok (hist : list (list Z)) (r : Result) : Prop :=
  match r with
  | Pushed x j => ∃ l, hist !! j = Some (x :: l) ∧ (0 < j)%nat ∧ hist !! (j - 1)%nat = Some l
  | Popped x j => ∃ l, hist !! j = Some l ∧ (0 < j)%nat ∧ hist !! (j - 1)%nat = Some (x :: l)
  | Nothing j => hist !! j = Some []
  | WasEmpty b j => ∃ l, hist !! j = Some l ∧ b = bool_decide (l = [])
  end.

Definition position_of (r : Result) : nat :=
  match r with Pushed _ j | Popped _ j | Nothing j | WasEmpty _ j => j end.

(** The knowledge [k] covers the stores up to the positions [k']. *)
Definition covers (k' k : list nat) : Prop := ∀ x i j, k'.[x] = Some i → k.[x] = Some j → (i <= j)%nat.

(** Positions that exist. *)
Definition known_ok (nexts : list (list (option Z))) (k : list nat) : Prop :=
  length k = length nexts ∧ ∀ x i log, k.[x] = Some i → nexts.[x] = Some log → (i < length log)%nat.

(** The thread's local variables. *)
Definition pc_ok m th : Prop :=
  match pc th with
  | Idle => True
  | PushLink x old => 0 <= x < lenZ (nexts m) ∧ ∃ st, head_ m !! view th = Some st ∧ value st = old
  | PushCas x old => 0 <= x < lenZ (nexts m) ∧ last_next (nexts m) x = Some (ptr old) ∧
      (∀ log i, (nexts m).[x] = Some log → (knows th).[x] = Some i → S i = length log) ∧
      ∃ st, head_ m !! view th = Some st ∧ value st = old
  | PopLink old => ∃ x st, 0 <= x < lenZ (nexts m) ∧ ptr old = Some x ∧ head_ m !! view th = Some st ∧ value st = old ∧ covers (published st) (knows th)
  | PopCas old next => ∃ x st, 0 <= x < lenZ (nexts m) ∧ ptr old = Some x ∧ head_ m !! view th = Some st ∧ value st = old ∧
      (S (view th) = length (head_ m) → last_next (nexts m) x = Some next)
  end.

Record thread_ok m (hist : list (list Z)) th : Prop := {
  to_view : (view th < length (head_ m))%nat;
  to_knows : known_ok (nexts m) (knows th);
  to_pc : pc_ok m th;
  to_done : Forall (λ r, result_ok hist r ∧ (position_of r <= view th)%nat) (done th);
  to_order : StronglySorted le (position_of <$> done th);
}.

Record inv (n : nat) m (hist : list (list Z)) (top : list Z) : Prop := {
  iv_len : length hist = length (head_ m);
  iv_top : hist !! (length (head_ m) - 1)%nat = Some top;
  iv_some : (0 < length (head_ m))%nat;
  iv_nodes : length (nexts m) = n ∧ ∀ x log, (nexts m).[x] = Some log → log ≠ [];
  iv_head j st : head_ m !! j = Some st → tag (value st) = u64 (Z.of_nat j) ∧ known_ok (nexts m) (published st) ∧
    ∃ l, hist !! j = Some l ∧ ptr (value st) = hd_error l;
  iv_hist j l x : hist !! j = Some l → x ∈ l → 0 <= x < Z.of_nat n;
  iv_linked : linked (nexts m) (hd_error top) top;
  iv_published st : latest (head_ m) = Some st →
    ∀ x log i, x ∈ top → (nexts m).[x] = Some log → (published st).[x] = Some i → S i = length log;
  iv_owned : top ++ (threads m ≫= in_hand) ≡ₚ nodes_of n;
  iv_threads t th : threads m !! t = Some th → thread_ok m hist th;
  iv_commits : threads m ≫= positions ≡ₚ seq 1 (length (head_ m) - 1);
}.

(** * Knowledge *)

Lemma join_lookup k1 k2 x i :
  (join k1 k2).[x] = Some i ↔ ∃ i1 i2, k1.[x] = Some i1 ∧ k2.[x] = Some i2 ∧ i = Nat.max i1 i2.
Proof.
  unfold join, getZ. case_bool_decide; [naive_solver |]. rewrite lookup_zip_with_Some. naive_solver.
Qed.

Lemma join_known nexts k1 k2 : known_ok nexts k1 → known_ok nexts k2 → known_ok nexts (join k1 k2).
Proof.
  intros [L1 H1] [L2 H2]. split; [unfold join; rewrite length_zip_with; lia |].
  intros x i log (i1 & i2 & E1 & E2 & ->)%join_lookup Hx. pose proof (H1 _ _ _ E1 Hx). pose proof (H2 _ _ _ E2 Hx). lia.
Qed.

Lemma covers_join k1 k2 : length k1 = length k2 → covers k2 (join k1 k2).
Proof. intros _ x i j E (i1 & i2 & E1 & E2 & ->)%join_lookup. rewrite E in E2. injection E2 as <-. lia. Qed.

Lemma known_lookup nexts k x : known_ok nexts k → 0 <= x < lenZ nexts → ∃ i, k.[x] = Some i.
Proof. intros [L _] Hx. apply getZ_is_Some. lia. Qed.

(** * Loads *)

Lemma load_spec log from choice :
  (from < length log)%nat → ∃ j st, load log from choice = Some (j, st) ∧ log !! j = Some st ∧ (from <= j < length log)%nat.
Proof.
  intros Hf. unfold load. set (j := Nat.max from (Nat.min choice (length log - 1))). assert (j < length log)%nat as Hj by lia.
  destruct (lookup_lt_is_Some_2 log j Hj) as [st Hst]. rewrite Hst. exists j, st. split; [done |]. split; [done |]. lia.
Qed.

Lemma load_next_spec log from choice :
  (from < length log)%nat → ∃ j v, load_next log from choice = Some (j, v) ∧ log !! j = Some v ∧ (from <= j < length log)%nat.
Proof.
  intros Hf. unfold load_next. set (j := Nat.max from (Nat.min choice (length log - 1))). assert (j < length log)%nat as Hj by lia.
  destruct (lookup_lt_is_Some_2 log j Hj) as [v Hv]. rewrite Hv. exists j, v. split; [done |]. split; [done |]. lia.
Qed.

Lemma latest_spec log : (0 < length log)%nat → ∃ st, latest log = Some st.
Proof. intros Hl. apply lookup_lt_is_Some_2. lia. Qed.

Section Inv.
Context (n : nat).
Implicit Types (hist : list (list Z)) (top : list Z).

(** * Steps that leave the shared memory alone *)

Lemma results_later hist th j :
  Forall (λ r, result_ok hist r ∧ (position_of r <= view th)%nat) (done th) → (view th <= j)%nat →
  Forall (λ r, result_ok hist r ∧ (position_of r <= j)%nat) (done th).
Proof. intros Hd Hj. eapply Forall_impl; [| exact Hd]. intros r [? ?]. split; [done | lia]. Qed.

Lemma sorted_snoc (l : list nat) j : StronglySorted le l → Forall (λ i, i <= j)%nat l → StronglySorted le (l ++ [j]).
Proof.
  induction 1 as [| i l Hl IH Hi]; intros Hj; cbn [app]; [repeat constructor |].
  inversion_clear Hj. constructor; [by apply IH |]. apply Forall_app. split; [done | by repeat constructor].
Qed.

(** One more result. *)
Lemma done_snoc hist th j r :
  Forall (λ r, result_ok hist r ∧ (position_of r <= view th)%nat) (done th) → StronglySorted le (position_of <$> done th) →
  (view th <= j)%nat → result_ok hist r → position_of r = j →
  Forall (λ r, result_ok hist r ∧ (position_of r <= j)%nat) (done th ++ [r]) ∧ StronglySorted le (position_of <$> done th ++ [r]).
Proof.
  intros Hd Hs Hj Hr Hp. split.
  - apply Forall_app. split; [by apply results_later | constructor; [split; [done | lia] | exact (Forall_nil_2 _)]].
  - rewrite fmap_app. apply sorted_snoc; [done |]. apply Forall_fmap. eapply Forall_impl; [| exact Hd]. intros x [_ ?]. cbn. lia.
Qed.

Lemma with_thread_ok m hist t th th' : thread_ok m hist th' → thread_ok (with_thread m t th) hist th'.
Proof. by intros []. Qed.

Lemma inv_update m hist top t th th' :
  inv n m hist top → threads m !! t = Some th → thread_ok m hist th' → in_hand th' ≡ₚ in_hand th → positions th' = positions th →
  inv n (with_thread m t th') hist top.
Proof.
  intros [] Ht Hok Hh Hp. split; try done.
  - cbn [threads with_thread]. by rewrite (collect_same in_hand _ t th th').
  - intros t' th'' Ht'. cbn [threads with_thread] in Ht'. apply list_lookup_insert_Some in Ht' as [(-> & <- & _) | (_ & Ht')]; apply with_thread_ok; [done |].
    by apply (iv_threads0 t').
  - cbn [threads with_thread]. rewrite (collect_same positions _ t th th'); [done | done | by rewrite Hp].
Qed.

(** A thread that has loaded [head_] and starts over. *)
Lemma thread_seen m hist top th j st :
  inv n m hist top → thread_ok m hist th → head_ m !! j = Some st → (view th <= j)%nat → 
  thread_ok m hist (go (seen th j) Idle).
Proof.
  intros Hi [] Hj Hv. pose proof (lookup_lt_Some _ _ _ Hj). split; cbn [view knows pc done go seen]; try done.
  by apply results_later.
Qed.

Lemma pop_test_spec m hist top th j st :
  inv n m hist top → thread_ok m hist th → head_ m !! j = Some st → (view th <= j)%nat →
  thread_ok m hist (pop_test th j st) ∧ held (pop_test th j st) = held th ∧ in_hand (pop_test th j st) = held th ∧
  positions (pop_test th j st) = positions th.
Proof.
  intros Hi Hok Hj Hv. destruct (iv_head _ _ _ _ Hi j st Hj) as (_ & Hk & l & Hl & Hptr). pose proof (lookup_lt_Some _ _ _ Hj) as Hlt.
  destruct Hok. pose proof (join_known _ _ _ to_knows0 Hk) as Hjk. unfold pop_test, in_hand, positions.
  destruct (ptr (value st)) as [x |] eqn:Ex.
  - cbn [pc go held done learn seen]. split; [| by rewrite app_nil_r]. split; cbn [view knows pc done go seen learn]; try done.
    2: by apply results_later.
    destruct l as [| y l]; [done |]. injection Hptr as <-. exists x, st. split; [| split; [done |]; split; [done |]; split; [done |]].
    + destruct (iv_nodes _ _ _ _ Hi) as [-> _]. apply (iv_hist _ _ _ _ Hi j (x :: l)); [done | by left].
    + apply covers_join. destruct to_knows0, Hk. congruence.
  - cbn [pc return_ held done learn seen]. split; [| split; [done |]; split; [by rewrite app_nil_r |]].
    + destruct (done_snoc hist th j (Nothing j) to_done0 to_order0 Hv) as [Hd Hs]; [cbn; destruct l; done | done |]. by split.
    + by rewrite omap_app, app_nil_r.
Qed.

(** * Idle threads *)

Lemma filter_keep (l : list Z) (x : Z) : x ∉ l → filter (λ y, y ≠ x) l = l.
Proof.
  induction l as [| z l IH]; intros Hx; [done |]. apply not_elem_of_cons in Hx as [Hz Hx].
  rewrite filter_cons, decide_True by auto. by rewrite IH.
Qed.

Lemma remove_hand (l : list Z) x : NoDup l → x ∈ l → filter (λ y, y ≠ x) l ++ [x] ≡ₚ l.
Proof.
  induction 1 as [| y l Hy Hnd IH]; intros Hx; [by apply elem_of_nil in Hx |]. rewrite filter_cons. apply elem_of_cons in Hx as [-> | Hx].
  - rewrite decide_False by tauto. rewrite Permutation_app_comm. cbn [app]. constructor.
    by rewrite filter_keep.
  - rewrite decide_True by (intros ->; done). cbn [app]. constructor. by apply IH.
Qed.

Lemma owned_nodup m hist top : inv n m hist top → NoDup (top ++ (threads m ≫= in_hand)).
Proof.
  intros Hi. rewrite (iv_owned _ _ _ _ Hi). unfold nodes_of. apply NoDup_fmap_2; [intros x y; lia | apply NoDup_seq].
Qed.

Lemma hand_nodup m hist top t th : inv n m hist top → threads m !! t = Some th → NoDup (in_hand th) ∧ ∀ x, x ∈ in_hand th → x ∉ top ∧ 0 <= x < Z.of_nat n.
Proof.
  intros Hi Ht. pose proof (owned_nodup _ _ _ Hi) as Hnd. apply nodup_app in Hnd as (_ & Hdis & Hnd). split.
  - pose proof (collect_insert in_hand (threads m) t th {| pc := Idle; view := 0; knows := []; held := []; done := [] |} Ht) as Hc.
    unfold in_hand at 2 in Hc. cbn in Hc. rewrite app_nil_r in Hc. rewrite Hc in Hnd. by apply nodup_app in Hnd as (_ & _ & ?).
  - intros x Hx. pose proof (collect_elem in_hand _ t th x Ht Hx) as Hc. split; [intros Htop; by apply (Hdis x) |].
    assert (x ∈ nodes_of n) as Hn by (rewrite <- (iv_owned _ _ _ _ Hi); apply elem_of_app; by right).
    unfold nodes_of in Hn. apply list_elem_of_fmap in Hn as (i & -> & Hn). apply elem_of_seq in Hn. lia.
Qed.

Definition allowed m th (start : Call) : Prop :=
  match start with
  | Push x => x ∈ held th
  | Give x to => x ∈ held th ∧ ∃ other, threads m !! to = Some other ∧ pc other = Idle
  | TryPop | Empty => True
  end.

Lemma idle_hand th : pc th = Idle → in_hand th = held th.
Proof. intros Hp. unfold in_hand. by rewrite Hp, app_nil_r. Qed.

Lemma step_idle m hist top t th start choice spurious :
  inv n m hist top → threads m !! t = Some th → pc th = Idle → allowed m th start →
  ∃ m', step t start choice spurious m = Some m' ∧ inv n m' hist top.
Proof.
  intros Hi Ht Hpc Ha. pose proof (iv_threads _ _ _ _ Hi t th Ht) as Hok. unfold step. rewrite Ht. cbn [mbind option_bind]. rewrite Hpc.
  destruct (load_spec (head_ m) (view th) choice (to_view _ _ _ Hok)) as (j & st & El & Hst & Hj).
  destruct (hand_nodup m hist top t th Hi Ht) as [Hnd Hin]. rewrite (idle_hand th Hpc) in Hnd, Hin. destruct start as [x | | | x to].
  - rewrite bool_decide_true by done. cbn [assertM mbind option_bind]. rewrite El. cbn [mbind option_bind].
    eexists. split; [done |]. apply (inv_update m hist top t th); [done | done | | | done].
    + destruct Hok. split; cbn [view knows pc done go own seen]; try done; [lia | | apply results_later; [done | lia]].
      unfold pc_ok. cbn [pc go]. destruct (iv_nodes _ _ _ _ Hi) as [-> _]. split; [by apply Hin | by exists st].
    + rewrite (idle_hand th Hpc). unfold in_hand. cbn. by apply remove_hand.
  - rewrite El. cbn [mbind option_bind]. eexists. split; [done |].
    destruct (pop_test_spec m hist top th j st Hi Hok Hst ltac:(lia)) as (Hok' & _ & Hh & Hp).
    apply (inv_update m hist top t th); try done. by rewrite Hh, (idle_hand th Hpc).
  - rewrite El. cbn [mbind option_bind]. eexists. split; [done |].
    destruct (iv_head _ _ _ _ Hi j st Hst) as (_ & _ & l & Hl & Hptr).
    apply (inv_update m hist top t th); [done | done | | by rewrite (idle_hand th Hpc); unfold in_hand; cbn; rewrite app_nil_r |].
    + destruct Hok. destruct (done_snoc hist th j (WasEmpty (bool_decide (ptr (value st) = None)) j) to_done0 to_order0) as [Hd Hs]; [lia | | done |].
      * cbn. exists l. split; [done |]. rewrite Hptr. apply bool_decide_ext. by destruct l.
      * split; cbn [view knows pc done return_ seen]; try done. lia.
    + unfold positions. cbn [done return_ seen]. by rewrite omap_app, app_nil_r.
  - destruct Ha as (Hx & other & Hother & Hidle). rewrite bool_decide_true by done. cbn [assertM mbind option_bind].
    set (th1 := own th (filter (λ y, y ≠ x) (held th))). set (m1 := with_thread m t th1).
    assert (∃ o, threads m1 !! to = Some o ∧ pc o = Idle ∧ thread_ok m hist o) as (o & Ho & Hpo & Hoko).
    { unfold m1. cbn [threads with_thread]. destruct (decide (t = to)) as [<- | Hne].
      - rewrite list_lookup_insert_eq by by eapply lookup_lt_Some. exists th1. split; [done |]. split; [done |]. by destruct Hok.
      - rewrite list_lookup_insert_ne by done. exists other. split; [done |]. split; [done |]. by apply (iv_threads _ _ _ _ Hi to). }
    rewrite Ho. cbn [mbind option_bind]. rewrite Hpo. eexists. split; [done |].
    assert (threads m ≫= in_hand ≡ₚ x :: (threads m1 ≫= in_hand)) as H1.
    { pose proof (collect_insert in_hand (threads m) t th th1 Ht) as Hc. rewrite (idle_hand th Hpc), (idle_hand th1 Hpc) in Hc.
      rewrite <- (remove_hand (held th) x Hnd Hx) in Hc. cbn [held own th1] in Hc.
      rewrite (Permutation_app_comm (filter _ _) [x]), app_assoc in Hc. apply Permutation_app_inv_r in Hc. rewrite Hc.
      by rewrite Permutation_app_comm. }
    destruct Hi, Hok, Hoko. split; try done.
    + cbn [threads with_thread]. rewrite <- iv_owned0. apply Permutation_app_head. rewrite H1.
      apply (collect_more in_hand (threads m1) to o); [done |]. rewrite (idle_hand o Hpo), idle_hand by done. cbn [held own]. by rewrite Permutation_app_comm.
    + intros t' th' Ht'. apply with_thread_ok. cbn [threads with_thread] in Ht'. apply list_lookup_insert_Some in Ht' as [(-> & <- & _) | (_ & Ht')].
      * unfold m1. apply with_thread_ok. split; cbn [view knows pc done own learn seen]; try done; [lia | by apply join_known | by unfold pc_ok; cbn [pc own learn seen]; rewrite Hpo | apply results_later; [done | lia]].
      * unfold m1. apply with_thread_ok. cbn in Ht'. apply list_lookup_insert_Some in Ht' as [(-> & <- & _) | (_ & Ht')]; [by split | by apply (iv_threads0 t')].
    + cbn [threads with_thread]. rewrite (collect_same positions _ to o) by done. cbn [threads with_thread m1]. by rewrite (collect_same positions _ t th).
Qed.

(** * Links *)

Definition no_thread : Thread := {| pc := Idle; view := 0; knows := []; held := []; done := [] |}.

(** A node is in the hands of one thread. *)
Lemma hands_disjoint m hist top t t' th th' x :
  inv n m hist top → threads m !! t = Some th → threads m !! t' = Some th' → t ≠ t' → x ∈ in_hand th → x ∉ in_hand th'.
Proof.
  intros Hi Ht Ht' Hne Hx Hx'. pose proof (owned_nodup _ _ _ Hi) as Hnd. apply nodup_app in Hnd as (_ & _ & Hnd).
  pose proof (collect_insert in_hand (threads m) t th no_thread Ht) as Hc. unfold in_hand at 2 in Hc. cbn in Hc. rewrite app_nil_r in Hc.
  rewrite Hc in Hnd. apply nodup_app in Hnd as (_ & Hdis & _). apply (Hdis x); [| done].
  apply (collect_elem in_hand _ t' th'); [| done]. by rewrite list_lookup_insert_ne.
Qed.

Lemma last_next_ne nexts x log y : 0 <= x → y ≠ x → last_next (nexts.[x <- log]) y = last_next nexts y.
Proof. intros Hx Hy. unfold last_next. by rewrite getZ_setZ_ne by auto. Qed.

Lemma last_next_eq nexts x log v : 0 <= x < lenZ nexts → last_next (nexts.[x <- log ++ [v]]) x = Some v.
Proof.
  intros Hx. unfold last_next. rewrite getZ_setZ_eq by done. cbn [mbind option_bind]. rewrite length_app. cbn [length].
  rewrite lookup_app_r by lia. by replace (length log + 1 - 1 - length log)%nat with 0%nat by lia.
Qed.

Lemma known_grow nexts x log v k : 0 <= x < lenZ nexts → nexts.[x] = Some log → known_ok nexts k → known_ok (nexts.[x <- log ++ [v]]) k.
Proof.
  intros Hx Hl [L H]. split; [by rewrite length_setZ |]. intros y i log' Hi. rewrite getZ_setZ by done. case_decide as Hxy; [| by apply H].
  subst y. intros [= <-]. rewrite length_app. pose proof (H _ _ _ Hi Hl). lia.
Qed.

(** The node at the last store's head is on top. *)
Lemma latest_top m hist top j st x :
  inv n m hist top → head_ m !! j = Some st → S j = length (head_ m) → ptr (value st) = Some x → x ∈ top.
Proof.
  intros Hi Hst Hj Hx. destruct (iv_head _ _ _ _ Hi j st Hst) as (_ & _ & l & Hl & Hp). pose proof (iv_top _ _ _ _ Hi) as Htop.
  replace (length (head_ m) - 1)%nat with j in Htop by lia. rewrite Hl in Htop. injection Htop as ->. rewrite Hx in Hp.
  destruct top as [| y top]; [done |]. injection Hp as ->. by left.
Qed.

Lemma step_push_link m hist top t th x old start choice spurious :
  inv n m hist top → threads m !! t = Some th → pc th = PushLink x old →
  ∃ m', step t start choice spurious m = Some m' ∧ inv n m' hist top.
Proof.
  intros Hi Ht Hpc. pose proof (iv_threads _ _ _ _ Hi t th Ht) as Hok. unfold step. rewrite Ht. cbn [mbind option_bind]. rewrite Hpc.
  pose proof (to_pc _ _ _ Hok) as Hp. unfold pc_ok in Hp. rewrite Hpc in Hp. destruct Hp as (Hx & st & Hst & Hold).
  destruct (getZ_is_Some _ _ Hx) as [log Hlog]. pose proof (to_knows _ _ _ Hok) as [Hkl Hk]. rewrite Hlog. cbn [mbind option_bind].
  rewrite storeZ_Some by lia. cbn [mbind option_bind]. rewrite storeZ_Some by lia. cbn [mbind option_bind]. eexists. split; [done |].
  set (nexts' := (nexts m).[x <- log ++ [ptr old]]). assert (length nexts' = length (nexts m)) as Hlen by apply length_setZ.
  assert (x ∈ in_hand th) as Hin by (unfold in_hand; rewrite Hpc; apply elem_of_app; right; by left).
  destruct (hand_nodup m hist top t th Hi Ht) as [_ Hh]. destruct (Hh x Hin) as [Htop _].
  assert (∀ y, y ∈ top → last_next nexts' y = last_next (nexts m) y) as Hln.
  { intros y Hy. apply last_next_ne; [lia |]. by intros ->. }
  pose proof (λ k, known_grow (nexts m) x log (ptr old) k Hx Hlog) as Hgrow. fold nexts' in Hgrow.
  destruct Hi as [H1 H2 H3 [H4 H4'] H5 H6 H7 H8 H9 H10 H11].
  assert (inv n m hist top) as Hi by by split.
  split; try done.
  - split; [by rewrite <- H4 |]. intros y log'. cbn [nexts with_thread with_nexts]. unfold nexts'. rewrite getZ_setZ by done.
    case_decide; [intros [= <-]; by destruct log | apply H4'].
  - intros j st' Hj. destruct (H5 j st' Hj) as (? & ? & ?). split; [done |]. split; [by apply Hgrow | done].
  - by apply (linked_ext (nexts m)).
  - intros st' Hl' y log' i Hy. cbn [nexts with_thread with_nexts]. unfold nexts'.
    rewrite getZ_setZ_ne; [by apply H8 | lia | by intros ->].
  - cbn [threads with_thread with_nexts]. rewrite (collect_same in_hand _ t th); [done | done |].
    unfold in_hand. cbn [pc held go learn]. by rewrite Hpc.
  - intros t' th' Ht'. cbn [threads with_thread with_nexts] in Ht'.
    apply list_lookup_insert_Some in Ht' as [(<- & <- & _) | (Hne & Ht')].
    + destruct Hok. split; cbn [view knows pc done go learn]; try done.
      * split; [cbn [nexts with_thread with_nexts]; rewrite length_setZ; lia |]. intros y i log'. cbn [nexts with_thread with_nexts]. unfold nexts'.
        rewrite !getZ_setZ by lia. case_decide; [intros [= <-] [= <-]; rewrite length_app; simpl; lia | apply Hk].
      * unfold pc_ok. cbn [pc go nexts with_thread with_nexts head_ view learn]. rewrite Hlen. split; [done |].
        split; [by apply last_next_eq |]. split; [| by exists st]. intros log' i El Ei. cbn [knows go learn] in Ei. unfold nexts' in El.
        rewrite getZ_setZ_eq in El by lia. rewrite getZ_setZ_eq in Ei by lia. injection El as <-. injection Ei as <-. rewrite length_app. cbn [length]. lia.
    + destruct (H10 t' th' Ht') as [V1 V2 V3 V4 V5]. split; try done; [by apply Hgrow |]. unfold pc_ok in *.
      destruct (pc th') as [| y old' | y old' | old' | old' next'] eqn:Hpc'; cbn [nexts with_thread with_nexts head_] in *; try rewrite Hlen; try done.
      * destruct V3 as (W1 & W2 & W3 & W4). assert (y ≠ x) as Hyx.
        { intros ->. apply (hands_disjoint m hist top t t' th th' x Hi Ht Ht' Hne Hin). unfold in_hand. rewrite Hpc'. apply elem_of_app. right. by left. }
        split; [done |]. unfold nexts'. rewrite last_next_ne, getZ_setZ_ne by (lia || auto). done.
      * destruct V3 as (y & st' & W1 & W2 & W3 & W4 & W5). exists y, st'. split; [done |]. split; [done |]. split; [done |]. split; [done |].
        intros Hl'. rewrite Hln by by (eapply latest_top; [exact Hi | exact W3 | done | by rewrite W4]). by apply W5.
  - cbn [threads with_thread with_nexts]. by rewrite (collect_same positions _ t th).
Qed.

Lemma step_pop_link m hist top t th old start choice spurious :
  inv n m hist top → threads m !! t = Some th → pc th = PopLink old →
  ∃ m', step t start choice spurious m = Some m' ∧ inv n m' hist top.
Proof.
  intros Hi Ht Hpc. pose proof (iv_threads _ _ _ _ Hi t th Ht) as Hok. unfold step. rewrite Ht. cbn [mbind option_bind]. rewrite Hpc.
  pose proof (to_pc _ _ _ Hok) as Hp. unfold pc_ok in Hp. rewrite Hpc in Hp. destruct Hp as (x & st & Hx & Hptr & Hst & Hold & Hcov).
  destruct (getZ_is_Some _ _ Hx) as [log Hlog]. destruct (to_knows _ _ _ Hok) as [Hkl Hk].
  destruct (known_lookup _ _ _ (to_knows _ _ _ Hok) Hx) as [i Hki]. pose proof (Hk x i log Hki Hlog) as Hil.
  rewrite Hptr. cbn [mbind option_bind]. rewrite Hlog. cbn [mbind option_bind]. rewrite Hki. cbn [mbind option_bind].
  destruct (load_next_spec log i choice Hil) as (j & v & -> & Hv & Hj). cbn [mbind option_bind].
  rewrite storeZ_Some by lia. cbn [mbind option_bind]. eexists. split; [done |].
  apply (inv_update m hist top t th); [done | done | | by unfold in_hand; cbn [pc held go learn]; rewrite Hpc | done].
  destruct Hok. split; cbn [view knows pc done go learn]; try done.
  - split; [by rewrite length_setZ |]. intros y k log' Hy Hl. rewrite getZ_setZ in Hy by lia. case_decide as Hyx; [| by apply (Hk y)].
    subst y. injection Hy as <-. rewrite Hlog in Hl. injection Hl as <-. lia.
  - unfold pc_ok. cbn [pc go view learn]. exists x, st. split; [done |]. split; [done |]. split; [done |]. split; [done |]. intros Hlast.
    pose proof (latest_top m hist top (view th) st x Hi Hst Hlast ltac:(by rewrite Hold)) as Htop.
    destruct (iv_head _ _ _ _ Hi _ _ Hst) as (_ & Hkp & _). destruct (known_lookup _ _ x Hkp Hx) as [k Hkx].
    assert (latest (head_ m) = Some st) as Hlat by (unfold latest; by replace (length (head_ m) - 1)%nat with (view th) by lia).
    pose proof (iv_published _ _ _ _ Hi st Hlat x log k Htop Hlog Hkx) as HS. pose proof (Hcov x k i Hkx Hki) as Hki'.
    unfold last_next. rewrite Hlog. cbn [mbind option_bind]. rewrite <- Hv. f_equal. lia.
Qed.

(** * Swaps *)

Lemma result_ok_app hist l r : result_ok hist r → result_ok (hist ++ [l]) r.
Proof.
  destruct r; cbn [result_ok].
  - intros (k & ? & ? & ?). exists k. split; [by apply lookup_app_l_Some | split; [done | by apply lookup_app_l_Some]].
  - intros (k & ? & ? & ?). exists k. split; [by apply lookup_app_l_Some | split; [done | by apply lookup_app_l_Some]].
  - intros ?. by apply lookup_app_l_Some.
  - intros (k & ? & ?). exists k. split; [by apply lookup_app_l_Some | done].
Qed.

(** The other threads, when a store to [head_] is made. *)
Lemma thread_commit m hist th st l : thread_ok m hist th → thread_ok (with_head m st) (hist ++ [l]) th.
Proof.
  intros [V1 V2 V3 V4 V5]. split; cbn [head_ nexts with_head]; try done.
  - rewrite length_app. lia.
  - unfold pc_ok in *. cbn [head_ nexts with_head]. destruct (pc th) as [| x old | x old | old | old next]; try done.
    + destruct V3 as (? & st' & ? & ?). split; [done |]. exists st'. split; [by apply lookup_app_l_Some | done].
    + destruct V3 as (? & ? & ? & st' & ? & ?). split; [done |]. split; [done |]. split; [done |]. exists st'. split; [by apply lookup_app_l_Some | done].
    + destruct V3 as (x & st' & ? & ? & ? & ? & ?). exists x, st'. split; [done |]. split; [done |]. split; [by apply lookup_app_l_Some | done].
    + destruct V3 as (x & st' & ? & ? & ? & ? & ?). exists x, st'. split; [done |]. split; [done |]. split; [by apply lookup_app_l_Some |].
      split; [done |]. intros Hl. rewrite length_app in Hl. cbn [length] in Hl. lia.
  - eapply Forall_impl; [| exact V4]. intros r [? ?]. split; [by apply result_ok_app | done].
Qed.

Lemma inv_commit m hist top t th th' st top' :
  inv n m hist top → threads m !! t = Some th →
  tag (value st) = u64 (Z.of_nat (length (head_ m))) → known_ok (nexts m) (published st) → ptr (value st) = hd_error top' →
  (∀ x, x ∈ top' → 0 <= x < Z.of_nat n) → linked (nexts m) (hd_error top') top' →
  (∀ x log i, x ∈ top' → (nexts m).[x] = Some log → (published st).[x] = Some i → S i = length log) →
  top' ++ in_hand th' ≡ₚ top ++ in_hand th → thread_ok (with_head m st) (hist ++ [top']) th' →
  positions th' = positions th ++ [length (head_ m)] →
  inv n (with_thread (with_head m st) t th') (hist ++ [top']) top'.
Proof.
  intros [] Ht Htag Hkn Hptr Hrange Hlink Hpub Hhand Hok Hpos. split; cbn [head_ nexts threads with_thread with_head]; rewrite ?length_app; cbn [length]; try done; try lia.
  - rewrite lookup_app_r by lia. by replace (length (head_ m) + 1 - 1 - length hist)%nat with 0%nat by lia.
  - intros j st' [Hj | [Hj Hs]]%lookup_app_Some.
    + destruct (iv_head0 j st' Hj) as (? & ? & l & ? & ?). split; [done |]. split; [done |]. exists l. split; [by apply lookup_app_l_Some | done].
    + apply list_lookup_singleton_Some in Hs as [H0 <-]. replace j with (length (head_ m)) by lia. split; [done |]. split; [done |].
      exists top'. split; [| done]. rewrite lookup_app_r by lia. by replace (length (head_ m) - length hist)%nat with 0%nat by lia.
  - intros j l x [Hj | [Hj Hs]]%lookup_app_Some; [by apply (iv_hist0 j) |]. apply list_lookup_singleton_Some in Hs as [_ <-]. apply Hrange.
  - intros st' Hl. assert (st' = st) as ->; [| done]. unfold latest in Hl. rewrite length_app in Hl. cbn [length] in Hl.
    rewrite lookup_app_r in Hl by lia. replace (length (head_ m) + 1 - 1 - length (head_ m))%nat with 0%nat in Hl by lia. by injection Hl.
  - rewrite <- iv_owned0. pose proof (collect_insert in_hand (threads m) t th th' Ht) as Hc.
    apply (Permutation_app_inv_r (in_hand th)). rewrite <- !app_assoc, <- Hc, !app_assoc.
    rewrite (Permutation_app_comm top), (Permutation_app_comm top'), <- !app_assoc. apply Permutation_app_head.
    exact Hhand.
  - intros t' th'' Ht'. apply with_thread_ok. apply list_lookup_insert_Some in Ht' as [(-> & <- & _) | (_ & Ht')]; [done |].
    apply thread_commit. by apply (iv_threads0 t').
  - pose proof (collect_insert positions (threads m) t th th' Ht) as Hc. rewrite Hpos in Hc.
    rewrite (Permutation_app_comm (positions th)), app_assoc in Hc. apply Permutation_app_inv_r in Hc. rewrite <- Hc, iv_commits0.
    replace (length (head_ m) + 1 - 1)%nat with (length (head_ m) - 1 + 1)%nat by lia. rewrite seq_app. cbn [seq].
    by replace (1 + (length (head_ m) - 1))%nat with (length (head_ m)) by lia.
Qed.

(** The last store, which the swap compares against. *)
Lemma latest_at m hist top st :
  inv n m hist top → latest (head_ m) = Some st →
  head_ m !! (length (head_ m) - 1)%nat = Some st ∧ tag (value st) = u64 (Z.of_nat (length (head_ m) - 1)) ∧
  known_ok (nexts m) (published st) ∧ ptr (value st) = hd_error top.
Proof.
  intros Hi Hst. unfold latest in Hst. destruct (iv_head _ _ _ _ Hi _ _ Hst) as (Ht & Hk & l & Hl & Hp).
  rewrite (iv_top _ _ _ _ Hi) in Hl. injection Hl as <-. done.
Qed.

Lemma next_tag k : (0 < k)%nat → u64 (u64 (Z.of_nat (k - 1)) + 1) = u64 (Z.of_nat k).
Proof. intros Hk. unfold u64. rewrite Z.add_mod_idemp_l by lia. f_equal. lia. Qed.

(** A thread that has made a store and returns. *)
Lemma thread_own m hist th th' st top' r :
  length hist = length (head_ m) → thread_ok m hist th → known_ok (nexts m) (knows th') →
  view th' = length (head_ m) → pc th' = Idle → done th' = done th ++ [r] →
  position_of r = length (head_ m) → result_ok (hist ++ [top']) r → thread_ok (with_head m st) (hist ++ [top']) th'.
Proof.
  intros Hl Hok Hk Hv Hp Hd Hr Hres. destruct (thread_commit m hist th st top' Hok) as [V1 V2 V3 V4 V5]. pose proof (to_view _ _ _ Hok) as Hlt.
  destruct (done_snoc (hist ++ [top']) th (length (head_ m)) r V4 V5) as [Hd1 Hd2]; [lia | done | done |].
  split; rewrite ?Hv, ?Hd; try done; [cbn; rewrite length_app; simpl; lia | unfold pc_ok; by rewrite Hp].
Qed.

Lemma step_push_cas m hist top t th x old start choice spurious :
  inv n m hist top → threads m !! t = Some th → pc th = PushCas x old →
  ∃ m' hist' top', step t start choice spurious m = Some m' ∧ inv n m' hist' top' ∧ hist `prefix_of` hist' ∧ (length (head_ m') <= S (length (head_ m)))%nat.
Proof.
  intros Hi Ht Hpc. pose proof (iv_threads _ _ _ _ Hi t th Ht) as Hok. unfold step. rewrite Ht. cbn [mbind option_bind]. rewrite Hpc.
  pose proof (to_pc _ _ _ Hok) as Hp. unfold pc_ok in Hp. rewrite Hpc in Hp. destruct Hp as (Hx & Hnext & Hknow & _).
  destruct (latest_spec (head_ m) (iv_some _ _ _ _ Hi)) as [l Hl]. rewrite Hl. cbn [mbind option_bind].
  destruct (latest_at _ _ _ _ Hi Hl) as (Hat & Htag & Hkl & Hptr). destruct (iv_nodes _ _ _ _ Hi) as [Hn _].
  destruct (spurious || negb (bool_decide (value l = old))) eqn:Hcas.
  - destruct (load_spec (head_ m) (view th) choice (to_view _ _ _ Hok)) as (j & st & -> & Hst & Hj). cbn [mbind option_bind].
    eexists _, hist, top. split; [done |]. split; [| split; [done | cbn; lia]]. apply (inv_update m hist top t th); [done | done | | | done].
    + destruct Hok. split; cbn [view knows pc done go seen]; try done; [lia | | apply results_later; [done | lia]].
      unfold pc_ok. cbn [pc go]. split; [done | by exists st].
    + unfold in_hand. cbn [pc held go seen]. by rewrite Hpc.
  - apply orb_false_iff in Hcas as [_ Hv]. apply negb_false_iff, bool_decide_eq_true in Hv.
    pose proof (iv_some _ _ _ _ Hi) as Hpos. assert (x ∈ in_hand th) as Hin by (unfold in_hand; rewrite Hpc; apply elem_of_app; right; by left).
    destruct (hand_nodup m hist top t th Hi Ht) as [_ Hh]. destruct (Hh x Hin) as [Htop _].
    eexists _, (hist ++ [x :: top]), (x :: top). split; [done |]. split; [| split; [by exists [x :: top] | cbn; rewrite length_app; simpl; lia]].
    pose proof (join_known _ _ _ Hkl (to_knows _ _ _ Hok)) as Hjk.
    apply (inv_commit m hist top t th); cbn [value published new_head ptr tag]; try done.
    + rewrite <- Hv, Htag. by apply next_tag.
    + intros y [-> | Hy]%elem_of_cons; [lia |]. apply (iv_hist _ _ _ _ Hi (length (head_ m) - 1)%nat top); [apply (iv_top _ _ _ _ Hi) | done].
    + cbn [linked hd_error]. split; [done |]. exists (ptr old). split; [done |]. rewrite <- Hv, Hptr. apply (iv_linked _ _ _ _ Hi).
    + intros y log i Hy Hlog (i1 & i2 & E1 & E2 & ->)%join_lookup. destruct Hjk as [_ Hb].
      assert (Nat.max i1 i2 < length log)%nat as Hmax by (apply (Hb y); [apply join_lookup; by exists i1, i2 | done]).
      apply elem_of_cons in Hy as [-> | Hy]; [pose proof (Hknow log i2 Hlog E2); lia |].
      pose proof (iv_published _ _ _ _ Hi l Hl y log i1 Hy Hlog E1). lia.
    + unfold in_hand. cbn [pc held return_ seen]. rewrite Hpc, app_nil_r, (Permutation_app_comm (held th)). cbn [app]. by rewrite Permutation_middle.
    + apply (thread_own m hist th _ _ _ (Pushed x (length (head_ m)))); try done; [apply (iv_len _ _ _ _ Hi) | apply (to_knows _ _ _ Hok) |].
      cbn [result_ok]. pose proof (iv_len _ _ _ _ Hi) as Hlen. exists top. split; [| split; [done | apply lookup_app_l_Some, (iv_top _ _ _ _ Hi)]].
      by rewrite <- Hlen, list_lookup_middle.
    + unfold positions. cbn [done return_ seen]. by rewrite omap_app.
Qed.

(** No tag has come round yet. *)
Lemma tags_distinct i j : (i < 2 ^ 64)%Z → (j < 2 ^ 64)%Z → 0 <= i → 0 <= j → u64 i = u64 j → i = j.
Proof. intros ????. by rewrite !u64_id by (unfold is_u64; lia). Qed.

Lemma step_pop_cas m hist top t th old next start choice spurious :
  lenZ (head_ m) <= 2 ^ 64 → inv n m hist top → threads m !! t = Some th → pc th = PopCas old next →
  ∃ m' hist' top', step t start choice spurious m = Some m' ∧ inv n m' hist' top' ∧ hist `prefix_of` hist' ∧ (length (head_ m') <= S (length (head_ m)))%nat.
Proof.
  intros Hmax Hi Ht Hpc. pose proof (iv_threads _ _ _ _ Hi t th Ht) as Hok. unfold step. rewrite Ht. cbn [mbind option_bind]. rewrite Hpc.
  pose proof (to_pc _ _ _ Hok) as Hp. unfold pc_ok in Hp. rewrite Hpc in Hp. destruct Hp as (x & st & Hx & Hold & Hst & Hval & Hnext).
  destruct (latest_spec (head_ m) (iv_some _ _ _ _ Hi)) as [l Hl]. rewrite Hl. cbn [mbind option_bind].
  destruct (latest_at _ _ _ _ Hi Hl) as (Hat & Htag & Hkl & Hptr).
  destruct (spurious || negb (bool_decide (value l = old))) eqn:Hcas.
  - destruct (load_spec (head_ m) (view th) choice (to_view _ _ _ Hok)) as (j & st' & -> & Hst' & Hj). cbn [mbind option_bind].
    eexists _, hist, top. split; [done |]. split; [| split; [done | cbn; lia]].
    destruct (pop_test_spec m hist top th j st' Hi Hok Hst' ltac:(lia)) as (Hok' & _ & Hh & Hp).
    apply (inv_update m hist top t th); try done. rewrite Hh. unfold in_hand. by rewrite Hpc, app_nil_r.
  - apply orb_false_iff in Hcas as [_ Hv]. apply negb_false_iff, bool_decide_eq_true in Hv. rewrite Hold. cbn [mbind option_bind].
    pose proof (iv_some _ _ _ _ Hi) as Hpos. pose proof (to_view _ _ _ Hok) as Hview.
    assert (S (view th) = length (head_ m)) as Hlast.
    { destruct (iv_head _ _ _ _ Hi _ _ Hst) as (Htv & _). rewrite Hval, <- Hv, Htag in Htv. apply tags_distinct in Htv; lia. }
    specialize (Hnext Hlast). rewrite <- Hv, Hptr in Hold. destruct top as [| y top]; [done |]. injection Hold as ->.
    destruct (iv_linked _ _ _ _ Hi) as (_ & q & Hq & Hlink). rewrite Hnext in Hq. injection Hq as <-.
    pose proof (linked_top _ _ _ Hlink) as Hq. pose proof (join_known _ _ _ (to_knows _ _ _ Hok) Hkl) as Hjk.
    eexists _, (hist ++ [top]), top. split; [done |]. split; [| split; [by exists [top] | cbn; rewrite length_app; simpl; lia]].
    apply (inv_commit m hist (x :: top) t th); cbn [value published new_head ptr tag]; try done.
    + rewrite <- Hv, Htag. by apply next_tag.
    + intros y Hy. apply (iv_hist _ _ _ _ Hi (length (head_ m) - 1)%nat (x :: top)); [apply (iv_top _ _ _ _ Hi) | by right].
    + by rewrite <- Hq.
    + intros y log i Hy. apply (iv_published _ _ _ _ Hi l Hl). by right.
    + unfold in_hand. cbn [pc held return_ seen own learn]. rewrite Hpc, !app_nil_r. cbn [app]. by rewrite app_assoc, Permutation_app_comm.
    + apply (thread_own m hist th _ _ _ (Popped x (length (head_ m)))); try done; [apply (iv_len _ _ _ _ Hi) |].
      cbn [result_ok]. pose proof (iv_len _ _ _ _ Hi) as Hlen. exists top. split; [| split; [done | apply lookup_app_l_Some, (iv_top _ _ _ _ Hi)]].
      by rewrite <- Hlen, list_lookup_middle.
    + unfold positions. cbn [done return_ seen own learn]. by rewrite omap_app.
Qed.

(** * Runs *)

Definition turn_allowed m (x : Turn) : Prop := ∃ th, threads m !! who x = Some th ∧ (pc th = Idle → allowed m th (start x)).

(** One step of one thread: it is defined, it keeps the invariant and it makes at most one store to [head_]. *)
Lemma step_inv m hist top x :
  lenZ (head_ m) <= 2 ^ 64 → inv n m hist top → turn_allowed m x →
  ∃ m' hist' top', step (who x) (start x) (choice x) (spurious x) m = Some m' ∧ inv n m' hist' top' ∧ hist `prefix_of` hist' ∧
    (length (head_ m') <= S (length (head_ m)))%nat.
Proof.
  intros Hmax Hi (th & Ht & Ha). destruct (pc th) as [| y old | y old | old | old next] eqn:Hpc.
  - destruct (step_idle m hist top (who x) th (start x) (choice x) (spurious x) Hi Ht Hpc (Ha eq_refl)) as (m' & H & Hi').
    exists m', hist, top. split; [done |]. split; [done |]. split; [done |]. rewrite <- (iv_len _ _ _ _ Hi), <- (iv_len _ _ _ _ Hi'). lia.
  - destruct (step_push_link m hist top (who x) th y old (start x) (choice x) (spurious x) Hi Ht Hpc) as (m' & H & Hi').
    exists m', hist, top. split; [done |]. split; [done |]. split; [done |]. rewrite <- (iv_len _ _ _ _ Hi), <- (iv_len _ _ _ _ Hi'). lia.
  - by eapply step_push_cas.
  - destruct (step_pop_link m hist top (who x) th old (start x) (choice x) (spurious x) Hi Ht Hpc) as (m' & H & Hi').
    exists m', hist, top. split; [done |]. split; [done |]. split; [done |]. rewrite <- (iv_len _ _ _ _ Hi), <- (iv_len _ _ _ _ Hi'). lia.
  - by eapply step_pop_cas.
Qed.

(** A step that was made was allowed. *)
Lemma step_allowed m m' x : step (who x) (start x) (choice x) (spurious x) m = Some m' → turn_allowed m x.
Proof.
  unfold step, turn_allowed. destruct (threads m !! who x) as [th |] eqn:Ht; [| done]. cbn [mbind option_bind]. intros H. exists th. split; [done |].
  intros Hp. rewrite Hp in H. destruct (start x) as [y | | | y to]; try done; unfold assertM in H; case_bool_decide; try done. split; [done |].
  cbn [mbind option_bind] in H. destruct (threads (with_thread m (who x) _) !! to) as [o |] eqn:Ho; [| done]. cbn [mbind option_bind] in H.
  destruct (pc o) eqn:Hpo; try done. cbn [threads with_thread] in Ho. apply list_lookup_insert_Some in Ho as [(<- & <- & _) | (_ & Ho)]; [by exists th | by exists o].
Qed.

Lemma new_stack_inv others : inv n (construct n others) [[]] [].
Proof.
  assert (∀ t th, threads (construct n others) !! t = Some th → ∃ l, th = new_thread n l) as Hth.
  { intros [| t] th; cbn [threads construct lookup list_lookup]; [by intros [= <-]; eexists |]. intros [-> _]%lookup_replicate. by eexists. }
  assert (∀ x l, (replicate n [None] : list (list (option Z))).[x] = Some l → l = [None]) as Hnx.
  { intros x l. unfold getZ. case_bool_decide; [done |]. by intros [-> _]%lookup_replicate. }
  assert (known_ok (nexts (construct n others)) (replicate n 0%nat)) as Hk.
  { split; [cbn; by rewrite !length_replicate |]. intros x i log Hi Hl. apply Hnx in Hl as ->. unfold getZ in Hi. case_bool_decide; [done |].
    apply lookup_replicate in Hi as [-> _]. cbn. lia. }
  assert (∀ A (f : Thread → list A) k, f (new_thread n []) = [] → replicate k (new_thread n []) ≫= f = []) as Hrep.
  { intros A f k Hf. induction k as [| k IH]; [done |]. cbn [replicate mbind list_bind]. by rewrite Hf, IH. }
  split; try done; cbn [head_ nexts threads construct length]; try lia.
  - split; [apply length_replicate |]. by intros x log ->%Hnx.
  - intros [| j] st; [| done]. intros [= <-]. split; [done |]. split; [done |]. by exists [].
  - intros [| j] l x; [| done]. intros [= <-] Hx. by apply elem_of_nil in Hx.
  - intros st _ x log i Hx. by apply elem_of_nil in Hx.
  - cbn [mbind list_bind app]. rewrite (Hrep _ in_hand others) by done. unfold in_hand, new_thread. cbn [held pc]. by rewrite !app_nil_r.
  - intros t th Ht. destruct (Hth t th Ht) as [l ->]. split; try done; cbn; [lia | constructor].
  - cbn [mbind list_bind app positions]. by rewrite (Hrep _ positions others).
Qed.

Lemma turns_app l1 l2 m : run (l1 ++ l2) m = m' ← run l1 m; run l2 m'.
Proof. revert m. induction l1 as [| x l1 IH]; intros m; cbn [app run]; [done |]. destruct (step _ _ _ _ m); cbn [mbind option_bind]; [apply IH | done]. Qed.

Lemma run_inv turns m m' hist top :
  lenZ (head_ m) + lenZ turns <= 2 ^ 64 → inv n m hist top → run turns m = Some m' →
  ∃ hist' top', inv n m' hist' top' ∧ hist `prefix_of` hist' ∧ (length (head_ m') <= length (head_ m) + length turns)%nat.
Proof.
  revert m hist top. induction turns as [| x turns IH]; intros m hist top Hmax Hi; cbn [run length].
  - intros [= <-]. exists hist, top. split; [done |]. split; [done | lia].
  - intros (m1 & Hs & Hr)%bind_Some. cbn [length] in Hmax.
    destruct (step_inv m hist top x ltac:(lia) Hi (step_allowed _ _ _ Hs)) as (m2 & hist1 & top1 & Hs2 & Hi1 & Hp1 & Hl1).
    rewrite Hs in Hs2. injection Hs2 as <-. destruct (IH m1 hist1 top1 ltac:(lia) Hi1 Hr) as (hist' & top' & Hi' & Hp' & Hl').
    exists hist', top'. split; [done |]. split; [by etrans | lia].
Qed.

Lemma reachable_inv others turns m :
  lenZ turns < 2 ^ 64 → run turns (construct n others) = Some m →
  ∃ hist top, inv n m hist top ∧ [[]] `prefix_of` hist ∧ (length (head_ m) <= S (length turns))%nat.
Proof.
  intros Hmax Hr. destruct (run_inv turns (construct n others) m [[]] []) as (hist & top & Hi & Hp & Hl); [cbn [head_ construct length]; lia | apply new_stack_inv | done |].
  exists hist, top. done.
Qed.

(** * Progress *)

(** A turn of thread [t] that reads the newest store and whose swap does not fail for nothing. *)
Definition turn_of (t : nat) (start : Call) (c : nat) : Turn := {| who := t; start := start; choice := c; spurious := false |}.

(** Thread [t] has the call [r] done, or is at [p] still. *)
Definition returned m t th : Prop := ∃ th' r, threads m !! t = Some th' ∧ pc th' = Idle ∧ done th' = done th ++ [r].
Definition moved m m' t th (p : Pc) : Prop :=
  ∃ th', threads m' !! t = Some th' ∧ pc th' = p ∧ done th' = done th ∧ head_ m' = head_ m.

Lemma load_latest log from c l : latest log = Some l → (from < length log)%nat → (length log <= c)%nat → load log from c = Some ((length log - 1)%nat, l).
Proof.
  intros Hl Hf Hc. unfold load. replace (Nat.max from (Nat.min c (length log - 1))) with (length log - 1)%nat by lia.
  unfold latest in Hl. by rewrite Hl.
Qed.

Lemma same_thread m t th th' : threads m !! t = Some th → threads (with_thread m t th') !! t = Some th'.
Proof. intros Ht. cbn [threads with_thread]. apply list_lookup_insert_eq. by eapply lookup_lt_Some. Qed.

(** Where a turn takes a thread that is in a call. *)
Lemma turn_link m m' t th start c :
  threads m !! t = Some th → step t start c false m = Some m' →
  match pc th with
  | PushLink x old => moved m m' t th (PushCas x old)
  | PopLink old => ∃ next, moved m m' t th (PopCas old next)
  | _ => True
  end.
Proof.
  intros Ht Hs. unfold step in Hs. rewrite Ht in Hs. cbn [mbind option_bind] in Hs. destruct (pc th) as [| x old | x old | old | old next]; try done.
  - apply bind_Some in Hs as (log & _ & (l1 & _ & (k & _ & [= <-])%bind_Some)%bind_Some).
    eexists. split; [by apply (same_thread (with_nexts m l1) t th) | done].
  - apply bind_Some in Hs as (x & _ & (log & _ & (from & _ & ([j v] & _ & (k & _ & [= <-])%bind_Some)%bind_Some)%bind_Some)%bind_Some).
    exists v. eexists. split; [by eapply same_thread | done].
Qed.

Lemma turn_swap m m' t th start c l :
  threads m !! t = Some th → step t start c false m = Some m' → latest (head_ m) = Some l →
  (view th < length (head_ m))%nat → (length (head_ m) <= c)%nat →
  match pc th with
  | PushCas x old => value l = old ∧ returned m' t th ∨ value l ≠ old ∧ moved m m' t th (PushLink x (value l))
  | PopCas old next => value l = old ∧ returned m' t th ∨ value l ≠ old ∧ (returned m' t th ∨ moved m m' t th (PopLink (value l)))
  | _ => True
  end.
Proof.
  intros Ht Hs Hl Hv Hc. unfold step in Hs. rewrite Ht in Hs. cbn [mbind option_bind] in Hs.
  destruct (pc th) as [| x old | x old | old | old next]; try done; rewrite Hl in Hs; cbn [mbind option_bind orb] in Hs;
    destruct (bool_decide_reflect (value l = old)) as [Heq | Hne]; cbn [negb] in Hs.
  - injection Hs as <-. left. split; [done |]. do 2 eexists. split; [by apply (same_thread (with_head m _) t th) | done].
  - right. split; [done |]. rewrite (load_latest _ _ _ l) in Hs by done. injection Hs as <-. eexists. split; [by eapply same_thread | done].
  - apply bind_Some in Hs as (x & _ & [= <-]). left. split; [done |]. do 2 eexists. split; [by apply (same_thread (with_head m _) t th) | done].
  - rewrite (load_latest _ _ _ l) in Hs by done. injection Hs as <-. right. split; [done |]. unfold pop_test. destruct (ptr (value l)).
    + right. eexists. split; [by eapply same_thread | done].
    + left. do 2 eexists. split; [by eapply same_thread | done].
Qed.

(** The head a call works from, and how many turns it needs at most when it runs alone. *)
Definition based p : option TaggedPtr :=
  match p with PushLink _ old | PushCas _ old | PopLink old | PopCas old _ => Some old | Idle => None end.
Definition turns_left m p : nat :=
  (match p with PushLink _ _ | PopLink _ => 2 | PushCas _ _ | PopCas _ _ => 1 | Idle => 0 end) +
  (if bool_decide (based p = value <$> latest (head_ m)) then 0 else 2).

Lemma turn_alone m hist top t th start c :
  lenZ (head_ m) <= 2 ^ 64 → inv n m hist top → threads m !! t = Some th → pc th ≠ Idle → (length (head_ m) <= c)%nat →
  ∃ m' hist' top', step t start c false m = Some m' ∧ inv n m' hist' top' ∧
    (returned m' t th ∨ ∃ p, moved m m' t th p ∧ p ≠ Idle ∧ (S (turns_left m' p) <= turns_left m (pc th))%nat).
Proof.
  intros Hmax Hi Ht Hpc Hc.
  destruct (step_inv m hist top (turn_of t start c) Hmax Hi) as (m' & hist' & top' & Hs & Hi' & _ & _); [by exists th |].
  exists m', hist', top'. split; [done |]. split; [done |]. cbn [who turn_of LFS.start LFS.choice spurious] in Hs.
  destruct (latest_spec (head_ m) (iv_some _ _ _ _ Hi)) as [l Hl].
  pose proof (turn_link m m' t th start c Ht Hs) as H1.
  pose proof (turn_swap m m' t th start c l Ht Hs Hl (to_view _ _ _ (iv_threads _ _ _ _ Hi t th Ht)) Hc) as H2.
  unfold turns_left. rewrite Hl. cbn [fmap option_map option_fmap].
  destruct (pc th) as [| x old | x old | old | old next]; [done | | | |].
  - right. exists (PushCas x old). split; [done |]. split; [done |]. destruct H1 as (? & _ & _ & _ & ->). rewrite Hl. cbn. lia.
  - destruct H2 as [[_ ?] | [Hne Hm]]; [by left | right]. exists (PushLink x (value l)). split; [done |]. split; [done |].
    destruct Hm as (? & _ & _ & _ & ->). rewrite Hl. cbn [based fmap option_fmap option_map].
    rewrite (bool_decide_true (Some (value l) = _)) by done. rewrite bool_decide_false by (intros [= ?]; by subst). lia.
  - right. destruct H1 as [next H1]. exists (PopCas old next). split; [done |]. split; [done |]. destruct H1 as (? & _ & _ & _ & ->). rewrite Hl. cbn. lia.
  - destruct H2 as [[_ ?] | [Hne [? | Hm]]]; [by left | by left | right]. exists (PopLink (value l)). split; [done |]. split; [done |].
    destruct Hm as (? & _ & _ & _ & ->). rewrite Hl. cbn [based fmap option_fmap option_map].
    rewrite (bool_decide_true (Some (value l) = _)) by done. rewrite bool_decide_false by (intros [= ?]; by subst). lia.
Qed.

Lemma alone_returns k m hist top t th start c :
  lenZ (head_ m) <= 2 ^ 64 → inv n m hist top → threads m !! t = Some th → pc th ≠ Idle → (length (head_ m) <= c)%nat →
  (turns_left m (pc th) <= k)%nat →
  ∃ i m', (0 < i <= k)%nat ∧ run (replicate i (turn_of t start c)) m = Some m' ∧ returned m' t th.
Proof.
  revert m hist top th. induction k as [| k IH]; intros m hist top th Hmax Hi Ht Hpc Hc Hk.
  { exfalso. unfold turns_left in Hk. destruct (pc th); [done | lia ..]. }
  destruct (turn_alone m hist top t th start c Hmax Hi Ht Hpc Hc) as (m' & hist' & top' & Hs & Hi' & [Hr | (p & Hm & Hp & Hl)]).
  - exists 1%nat, m'. split; [lia |]. cbn [replicate run who turn_of LFS.start LFS.choice spurious]. by rewrite Hs.
  - destruct Hm as (th' & Ht' & <- & Hd & Hh).
    destruct (IH m' hist' top' th') as (i & m2 & Hik & Hr & th2 & r & H2 & Hp2 & Hd2); [by rewrite Hh | done | done | done | by rewrite Hh | lia |].
    exists (S i), m2. split; [lia |]. split; [| exists th2, r; by rewrite <- Hd].
    cbn [replicate run who turn_of LFS.start LFS.choice spurious]. by rewrite Hs.
Qed.

(** * The constructor of the pool *)

(** A push without interference, by a thread that reads the newest store. *)
Lemma push_alone m hist top t th x c :
  lenZ (head_ m) <= 2 ^ 64 → inv n m hist top → threads m !! t = Some th → pc th = Idle → x ∈ held th → (length (head_ m) <= S c)%nat →
  ∃ m' th', run (replicate 3 {| who := t; start := Push x; choice := c; spurious := false |}) m = Some m' ∧
    inv n m' (hist ++ [x :: top]) (x :: top) ∧ threads m' !! t = Some th' ∧ pc th' = Idle ∧ held th' = filter (λ y, y ≠ x) (held th) ∧
    length (head_ m') = S (length (head_ m)).
Proof.
  intros Hmax Hi Ht Hpc Hx Hc. destruct (latest_spec (head_ m) (iv_some _ _ _ _ Hi)) as [l Hl].
  pose proof (iv_threads _ _ _ _ Hi t th Ht) as Hok. pose proof (to_view _ _ _ Hok) as Hv.
  assert (load (head_ m) (view th) c = Some ((length (head_ m) - 1)%nat, l)) as Hload.
  { unfold load. replace (Nat.max (view th) (Nat.min c (length (head_ m) - 1))) with (length (head_ m) - 1)%nat by lia.
    unfold latest in Hl. by rewrite Hl. }
  destruct (step_idle m hist top t th (Push x) c false Hi Ht Hpc Hx) as (m1 & Hs1 & Hi1).
  pose proof Hs1 as E1. unfold step in E1. rewrite Ht in E1. cbn [mbind option_bind] in E1. rewrite Hpc in E1.
  rewrite bool_decide_true in E1 by done. cbn [assertM mbind option_bind] in E1. rewrite Hload in E1. injection E1 as E1.
  assert (∃ th1, threads m1 !! t = Some th1 ∧ pc th1 = PushLink x (value l) ∧ held th1 = filter (λ y, y ≠ x) (held th) ∧ head_ m1 = head_ m) as (th1 & Ht1 & Hp1 & Hh1 & Hd1).
  { subst m1. eexists. split; [by eapply same_thread | done]. }
  destruct (step_push_link m1 hist top t th1 x (value l) (Push x) c false Hi1 Ht1 Hp1) as (m2 & Hs2 & Hi2).
  pose proof Hs2 as E2. unfold step in E2. rewrite Ht1 in E2. cbn [mbind option_bind] in E2. rewrite Hp1 in E2.
  apply bind_Some in E2 as (log & _ & (l1 & _ & (k & _ & E2)%bind_Some)%bind_Some). injection E2 as E2.
  assert (∃ th2, threads m2 !! t = Some th2 ∧ pc th2 = PushCas x (value l) ∧ held th2 = held th1 ∧ head_ m2 = head_ m) as (th2 & Ht2 & Hp2 & Hh2 & Hd2).
  { subst m2. eexists. split; [by apply (same_thread (with_nexts m1 l1) t th1) | done]. }
  destruct (step_push_cas m2 hist top t th2 x (value l) (Push x) c false Hi2 Ht2 Hp2) as (m3 & hist' & top' & Hs3 & Hi3 & Hpre & _).
  pose proof Hs3 as E3. unfold step in E3. rewrite Ht2 in E3. cbn [mbind option_bind] in E3. rewrite Hp2, Hd2, Hl in E3.
  cbn [mbind option_bind orb] in E3. rewrite bool_decide_true in E3 by done. injection E3 as E3.
  assert (∃ th3, threads m3 !! t = Some th3 ∧ pc th3 = Idle ∧ held th3 = held th2 ∧ length (head_ m3) = S (length (head_ m)) ∧
      Pushed x (length (head_ m)) ∈ done th3) as (th3 & Ht3 & Hp3 & Hh3 & Hd3 & Hres).
  { subst m3. eexists. split; [by apply (same_thread (with_head m2 _) t th2) |]. split; [done |]. split; [done |].
    split; [cbn; rewrite length_app, Hd2; simpl; lia |]. apply elem_of_app. right. by left. }
  exists m3, th3. split; [cbn [replicate run who start LFS.choice spurious]; rewrite Hs1; cbn [mbind option_bind]; rewrite Hs2; cbn [mbind option_bind]; by rewrite Hs3 |].
  rewrite Hh3, Hh2, Hh1. split; [| done].
  pose proof (to_done _ _ _ (iv_threads _ _ _ _ Hi3 t th3 Ht3)) as Hdone. rewrite Forall_forall in Hdone.
  apply list_elem_of_In in Hres. destruct (Hdone _ Hres) as [(k' & Hk & _ & Hk') _]. destruct Hpre as [ext ->].
  pose proof (iv_len _ _ _ _ Hi3) as L3. pose proof (iv_len _ _ _ _ Hi) as L. pose proof (iv_top _ _ _ _ Hi) as Htop. pose proof (iv_top _ _ _ _ Hi3) as Htop3.
  rewrite Hd3 in Htop3, L3. rewrite length_app in L3. replace (S (length (head_ m)) - 1)%nat with (length (head_ m)) in Htop3 by lia.
  rewrite Hk in Htop3. injection Htop3 as <-. rewrite lookup_app_l in Hk' by lia. rewrite Htop in Hk'. injection Hk' as <-.
  rewrite lookup_app_r in Hk by lia. replace (length (head_ m) - length hist)%nat with 0%nat in Hk by lia.
  destruct ext as [| e [| e2 ext]]; cbn [length] in L3; [lia | | lia]. cbn in Hk. by injection Hk as ->.
Qed.

Lemma nodes_of_S k : nodes_of (S k) = nodes_of k ++ [Z.of_nat k].
Proof. unfold nodes_of. by rewrite seq_S, fmap_app. Qed.

Lemma init_pushes others k :
  Z.of_nat n < 2 ^ 64 → (k <= n)%nat →
  ∃ m hist th, run (nodes_of k ≫= push_turns) (construct n others) = Some m ∧ inv n m hist (reverse (nodes_of k)) ∧
    threads m !! 0%nat = Some th ∧ pc th = Idle ∧ held th = Z.of_nat <$> seq k (n - k) ∧ length (head_ m) = S k.
Proof.
  intros Hn. induction k as [| k IH]; intros Hk.
  { exists (construct n others), [[]], (new_thread n (nodes_of n)). split; [done |]. split; [apply new_stack_inv |].
    split; [done |]. split; [done |]. split; [| done]. cbn [held new_thread]. unfold nodes_of. by rewrite Nat.sub_0_r. }
  destruct IH as (m & hist & th & Hr & Hi & Ht & Hpc & Hh & Hl); [lia |].
  destruct (push_alone m hist (reverse (nodes_of k)) 0 th (Z.of_nat k) k) as (m' & th' & Hr' & Hi' & Ht' & Hpc' & Hh' & Hl'); try done; [lia | | lia |].
  { rewrite Hh. replace (n - k)%nat with (S (n - S k)) by lia. by left. }
  exists m', (hist ++ [Z.of_nat k :: reverse (nodes_of k)]), th'. rewrite nodes_of_S, reverse_snoc. split; [| split; [done |]].
  - rewrite bind_app. cbn [mbind list_bind]. rewrite app_nil_r. unfold push_turns at 2. rewrite Nat2Z.id. rewrite turns_app, Hr. exact Hr'.
  - split; [done |]. split; [done |]. split; [| by rewrite Hl', Hl]. rewrite Hh', Hh. replace (n - k)%nat with (S (n - S k)) by lia.
    cbn [seq fmap list_fmap]. rewrite filter_cons, decide_False by tauto. apply filter_keep. intros (i & Hx & Hi2)%list_elem_of_fmap. apply elem_of_seq in Hi2. lia.
Qed.

(** The pool starts with every node on the stack, the first node at the bottom. *)
Lemma init_free_list_inv others :
  Z.of_nat n < 2 ^ 64 →
  ∃ m hist, run (init_free_list n) (construct n others) = Some m ∧ inv n m hist (reverse (nodes_of n)) ∧
    threads m ≫= in_hand = [] ∧ length (head_ m) = S n.
Proof.
  intros Hn. destruct (init_pushes others n Hn (le_n n)) as (m & hist & th & Hr & Hi & _ & _ & _ & Hl). exists m, hist. split; [done |]. split; [done |].
  split; [| done]. pose proof (iv_owned _ _ _ _ Hi) as Ho. rewrite reverse_Permutation in Ho.
  apply Permutation_length in Ho. rewrite length_app in Ho. apply length_zero_iff_nil. lia.
Qed.
End Inv.

(** * Theorems *)

(** C21. Whatever the threads do, in whatever order, with whatever stale stores their loads
    read and whatever swaps fail spuriously, as long as fewer than [2 ^ 64] steps were made:
    there is one sequence of contents, empty at first, in which every store to [head_] is
    exactly one returned push or pop of its thread, pushes and pops act on the top, a pop that
    finds nothing and [empty] read a moment of it, and each thread's calls are in order; the
    links spell the newest contents, every node is on the stack once or in one thread's hands,
    and no call a thread may make touches memory outside the block. *)
Theorem lock_free_stack_linearizable n others turns m :
  lenZ turns < 2 ^ 64 → run turns (construct n others) = Some m →
  ∃ hist top,
    hist !! 0%nat = Some [] ∧ length hist = length (head_ m) ∧ hist !! (length (head_ m) - 1)%nat = Some top ∧
    (∀ t th, threads m !! t = Some th → Forall (result_ok hist) (done th) ∧ StronglySorted le (position_of <$> done th)) ∧
    threads m ≫= positions ≡ₚ seq 1 (length (head_ m) - 1) ∧
    (∀ st, latest (head_ m) = Some st → linked (nexts m) (ptr (value st)) top) ∧
    top ++ (threads m ≫= in_hand) ≡ₚ nodes_of n ∧
    (∀ x, turn_allowed m x → is_Some (step (who x) (start x) (choice x) (spurious x) m)).
Proof.
  intros Hmax Hr. destruct (reachable_inv n others turns m Hmax Hr) as (hist & top & Hi & [ext ->] & Hl). exists ([[]] ++ ext), top. split; [done |]. split; [apply (iv_len _ _ _ _ Hi) |]. split; [apply (iv_top _ _ _ _ Hi) |].
  split; [| split; [apply (iv_commits _ _ _ _ Hi) |]; split; [| split; [apply (iv_owned _ _ _ _ Hi) |]]].
  - intros t th Ht. destruct (iv_threads _ _ _ _ Hi t th Ht) as [_ _ _ Hd Ho]. split; [| done]. eapply Forall_impl; [| exact Hd]. by intros r [? _].
  - intros st Hst. destruct (latest_at _ _ _ _ _ Hi Hst) as (_ & _ & _ & ->). apply (iv_linked _ _ _ _ Hi).
  - intros x Hx. destruct (step_inv n m _ top x ltac:(lia) Hi Hx) as (m' & _ & _ & Hs & _). by exists m'.
Qed.

(** The stack is lock-free.  When a call's swap must fail, another thread has made a store
    to [head_] since the call read it; and from any moment of any run, a thread that is inside
    a call and is left alone returns from it within four accesses. *)
Theorem lock_free_stack_progress n others turns m t th start c :
  lenZ turns < 2 ^ 64 → run turns (construct n others) = Some m → threads m !! t = Some th → pc th ≠ Idle →
  (∀ l, latest (head_ m) = Some l → based (pc th) ≠ Some (value l) → (S (view th) < length (head_ m))%nat) ∧
  ((length (head_ m) <= c)%nat →
   ∃ i m', (0 < i <= 4)%nat ∧ run (replicate i (turn_of t start c)) m = Some m' ∧ returned m' t th).
Proof.
  intros Hmax Hr Ht Hpc. destruct (reachable_inv n others turns m Hmax Hr) as (hist & top & Hi & _ & Hl). split.
  - intros l Hlat Hb. destruct (iv_threads _ _ _ _ Hi t th Ht) as [Hv _ Hp _ _].
    destruct (Nat.eq_dec (S (view th)) (length (head_ m))) as [He |]; [| lia]. exfalso. apply Hb.
    assert (∃ st, head_ m !! view th = Some st ∧ based (pc th) = Some (value st)) as (st & Hst & ->).
    { unfold pc_ok in Hp. destruct (pc th) as [| x old | x old | old | old next]; [done | | | |]; cbn [based].
      - destruct Hp as (_ & st & ? & <-). by exists st.
      - destruct Hp as (_ & _ & _ & st & ? & <-). by exists st.
      - destruct Hp as (x & st & _ & _ & ? & <- & _). by exists st.
      - destruct Hp as (x & st & _ & _ & ? & <- & _). by exists st. }
    unfold latest in Hlat. replace (length (head_ m) - 1)%nat with (view th) in Hlat by lia. rewrite Hlat in Hst. by injection Hst as <-.
  - intros Hc. apply (alone_returns n 4 m hist top); try done; [lia |]. unfold turns_left. destruct (pc th), (bool_decide _); lia.
Qed.

(** * A run: the ABA case

    Thread 1 has read the head (node 1) and its link (node 0) when thread 2 pops both nodes
    and pushes node 1 again.  The pointer is the same, the tag is not: the swap of thread 1
    fails, and it pops node 1 over the right link. *)
Definition turns_of (t : nat) (start : Call) (c k : nat) : list Turn := replicate k (turn_of t start c).
Definition aba_turns : list Turn :=
  init_free_list 2 ++ turns_of 1 TryPop 2 2 ++ turns_of 2 TryPop 9 3 ++ turns_of 2 TryPop 9 3 ++ turns_of 2 (Push 1) 9 3 ++ turns_of 1 TryPop 9 1.
Definition aba_machine : Machine := default (construct 2 2) (run aba_turns (construct 2 2)).

Lemma lock_free_stack_linearizable_witness :
  lenZ aba_turns < 2 ^ 64 ∧ run aba_turns (construct 2 2) = Some aba_machine ∧
  (pc <$> threads aba_machine !! 1%nat) = Some (PopLink {| ptr := Some 1; tag := 5 |}) ∧
  ∃ hist top,
    hist !! 0%nat = Some [] ∧ length hist = length (head_ aba_machine) ∧ hist !! (length (head_ aba_machine) - 1)%nat = Some top ∧
    (∀ t th, threads aba_machine !! t = Some th → Forall (result_ok hist) (done th) ∧ StronglySorted le (position_of <$> done th)) ∧
    threads aba_machine ≫= positions ≡ₚ seq 1 (length (head_ aba_machine) - 1) ∧
    (∀ st, latest (head_ aba_machine) = Some st → linked (nexts aba_machine) (ptr (value st)) top) ∧
    top ++ (threads aba_machine ≫= in_hand) ≡ₚ nodes_of 2 ∧
    (∀ x, turn_allowed aba_machine x → is_Some (step (who x) (start x) (choice x) (spurious x) aba_machine)).
Proof.
  assert (lenZ aba_turns < 2 ^ 64) as H1 by by vm_compute.
  assert (run aba_turns (construct 2 2) = Some aba_machine) as H2 by (vm_compute; reflexivity).
  split; [exact H1 |]. split; [exact H2 |]. split; [vm_compute; reflexivity |]. exact (lock_free_stack_linearizable 2 2 aba_turns aba_machine H1 H2).
Defined.

Lemma lock_free_stack_progress_witness :
  ∃ th, threads aba_machine !! 1%nat = Some th ∧ pc th ≠ Idle ∧
  (∀ l, latest (head_ aba_machine) = Some l → based (pc th) ≠ Some (value l) → (S (view th) < length (head_ aba_machine))%nat) ∧
  ((length (head_ aba_machine) <= 9)%nat →
   ∃ i m', (0 < i <= 4)%nat ∧ run (replicate i (turn_of 1 TryPop 9)) aba_machine = Some m' ∧ returned m' 1 th).
Proof.
  assert (lenZ aba_turns < 2 ^ 64) as H1 by by vm_compute.
  assert (run aba_turns (construct 2 2) = Some aba_machine) as H2 by (vm_compute; reflexivity).
  destruct (threads aba_machine !! 1%nat) as [th |] eqn:Ht; [| by vm_compute in Ht]. exists th. split; [done |].
  assert (pc th ≠ Idle) as Hpc. { intros Hp. assert (pc <$> threads aba_machine !! 1%nat = Some Idle) as Hc by by rewrite Ht, <- Hp. by vm_compute in Hc. }
  split; [exact Hpc |]. exact (lock_free_stack_progress 2 2 aba_turns aba_machine 1 th TryPop 9 H1 H2 Ht Hpc).
Defined.
End LFSpec.

(** * The single-threaded stack *)

Module STSpec.
Import STS.

Fixpoint chain (next : list (option Z)) (p : option Z) (l : list Z) : Prop :=
  match l with [] => p = None | x :: l => p = Some x ∧ ∃ q, next.[x] = Some q ∧ chain next q l end.

(** The links spell the contents, each node once. *)
Definition holds (s : Stack) (l : list Z) : Prop := NoDup l ∧ chain (next s) (head_ s) l.

Lemma chain_store nexts p l x v : x ∉ l → 0 <= x → chain nexts p l → chain (nexts.[x <- v]) p l.
Proof.
  intros Hx H0. revert p. induction l as [| y l IH]; intros p; [done |]. apply not_elem_of_cons in Hx as [Hy Hl]. intros (-> & q & Hq & Hc).
  split; [done |]. exists q. rewrite getZ_setZ_ne by auto. split; [done | by apply IH].
Qed.

Lemma push_holds s l x :
  holds s l → 0 <= x < lenZ (next s) → x ∉ l → ∃ s', push s x = Some s' ∧ holds s' (x :: l) ∧ length (next s') = length (next s).
Proof.
  intros [Hnd Hc] Hx Hl. unfold push. rewrite storeZ_Some by done. eexists. split; [done |]. split; [| apply length_setZ].
  split; [by constructor |]. cbn [chain next head_]. split; [done |]. exists (head_ s). rewrite getZ_setZ_eq by done. split; [done |]. apply chain_store; [done | lia | done].
Qed.

Lemma try_pop_holds s l :
  holds s l → match l with
              | [] => try_pop s = Some (s, None) ∧ empty s = true
              | x :: l => ∃ s', try_pop s = Some (s', Some x) ∧ holds s' l ∧ next s' = next s ∧ empty s = false
              end.
Proof.
  intros [Hnd Hc]. unfold try_pop, empty. destruct l as [| x l]; cbn [chain] in Hc; [by rewrite Hc | destruct Hc as (-> & q & Hq & Hc)].
  rewrite Hq. eexists. split; [done |]. split; [| done]. split; [| done]. by inversion_clear Hnd.
Qed.
End STSpec.
