(* ===== verification/ObjectPools.v ===== *)
(** The object pools [src/libs/sys/memory/single_thread_object_pool.hpp] and
    [src/libs/sys/memory/concurrent_object_pool.hpp].

    Addresses are [Z]; a region is its address and size, or nothing when it
    is not valid.  Mapping the region is not modelled: the pools here take
    the region their caller made.  [None] is [std::abort]. *)
From S2P Require Import Prelude.
From S2P Require Import BitUtils.
From S2P Require Import IndexFreeStack.
From S2P Require Import LockFreeStack.
From S2P Require Import LockFreeSpec.
Local Open Scope Z_scope.
Local Open Scope array_scope.

Definition size_max : Z := 2 ^ 64 - 1.

(** * SingleThreadObjectPool *)

Module STPool.

Record Pool : Set := { capacity_ : Z; slots : Z; free_ : IFS.IndexFreeStack }.

Section Build.
  Context (ndebug : bool) (sizeof_T : Z).

Definition index_buffer_offset (capacity : Z) : Z := align_up (u64 (capacity * sizeof_T)) 4.

Definition required_region_size (capacity : Z) : Z :=
  u64 (index_buffer_offset capacity + IFS.required_buffer_size ndebug capacity).

Definition abort_if_capacity_invalid (capacity : Z) : option unit :=
  let bad_capacity := bool_decide (capacity = 0) || bool_decide (capacity > 2 ^ 32 - 1) in
  let slots_overflow := bool_decide (capacity > size_max / sizeof_T) in
  if bad_capacity || slots_overflow then abort
  else
    let slot_bytes := u64 (capacity * sizeof_T) in
    if bool_decide (slot_bytes > size_max - (4 - 1)) then abort
    else if bool_decide (index_buffer_offset capacity > u64 (size_max - IFS.required_buffer_size ndebug capacity)) then abort
    else Some ().

(** The constructor that takes a region, with [init_free_list]. *)
Definition construct (region : option (Z * Z)) (capacity : Z) : option Pool :=
  '(base, size) ← region;
  _ ← abort_if_capacity_invalid capacity;
  if bool_decide (size < required_region_size capacity) then abort
  else
    free ← IFS.create ndebug (Some (base + index_buffer_offset capacity)) (IFS.required_buffer_size ndebug capacity) capacity;
    Some {| capacity_ := capacity; slots := base; free_ := free |}.

(** The pool, and the object or null. *)
Definition allocate (p : Pool) : option (Pool * option Z) :=
  '(free, idx) ← IFS.pop ndebug (free_ p);
  Some ({| capacity_ := capacity_ p; slots := slots p; free_ := free |}, (λ idx, slots p + idx * sizeof_T) <$> (idx : option Z)).

Definition deallocate (p : Pool) (obj : option Z) : option Pool :=
  match obj with
  | None => Some p
  | Some raw =>
      let base := slots p in
      _ ← assertM (ndebug || (bool_decide (raw >= base) && bool_decide (raw < base + capacity_ p * sizeof_T) &&
                              bool_decide ((raw - base) mod sizeof_T = 0)));
      let idx := u32 (u64 (raw - base) / sizeof_T) in
      free ← IFS.push ndebug (free_ p) idx;
      Some {| capacity_ := capacity_ p; slots := slots p; free_ := free |}
  end.

Definition empty (p : Pool) : bool := IFS.is_empty (free_ p).

(** ** What callers see *)

(** A pool in use: the objects its caller has, which are all the caller gives back. *)
Inductive reach (p0 : Pool) : Pool → list Z → Prop :=
  | reach_start : reach p0 p0 []
  | reach_allocate p out p' obj : reach p0 p out → allocate p = Some (p', obj) → reach p0 p' (out ++ option_list obj)
  | reach_deallocate p out obj p' : reach p0 p out → obj ∈ out → deallocate p (Some obj) = Some p' → reach p0 p' (filter (λ x, x ≠ obj) out)
  | reach_null p out p' : reach p0 p out → deallocate p None = Some p' → reach p0 p' out.

Context (Hsize : 0 < sizeof_T).

Definition slot (p : Pool) (i : Z) : Z := slots p + i * sizeof_T.

(** The slots in use and the free ones are all the slots, each once. *)
Record pool_inv (p : Pool) (out : list Z) : Prop := {
  pi_wf : IFS.stack_wf ndebug (free_ p);
  pi_cap : IFS.capacity_ (free_ p) = capacity_ p ∧ capacity_ p <= 2 ^ 32 - 1;
  pi_space : 0 <= slots p ∧ slots p + capacity_ p * sizeof_T < 2 ^ 64;
  pi_slots : ∃ idxs, out = slot p <$> idxs ∧ idxs ++ IFS.free_list (free_ p) ≡ₚ Z.of_nat <$> seq 0 (Z.to_nat (capacity_ p));
}.

Lemma slot_inj p i j : slot p i = slot p j → i = j.
Proof. unfold slot. nia. Qed.

Lemma slot_in p out idxs i :
  pool_inv p out → idxs ++ IFS.free_list (free_ p) ≡ₚ Z.of_nat <$> seq 0 (Z.to_nat (capacity_ p)) → i ∈ idxs → 0 <= i < capacity_ p.
Proof.
  intros Hi Hp Hx. assert (i ∈ Z.of_nat <$> seq 0 (Z.to_nat (capacity_ p))) as Hs by (rewrite <- Hp; apply elem_of_app; by left).
  apply list_elem_of_fmap in Hs as (k & -> & Hk). apply elem_of_seq in Hk. lia.
Qed.

Lemma allocate_inv p out :
  pool_inv p out →
  if bool_decide (lenZ out < capacity_ p) then
    ∃ p' obj, allocate p = Some (p', Some obj) ∧ obj ∉ out ∧ pool_inv p' (out ++ [obj]) ∧ capacity_ p' = capacity_ p ∧ slots p' = slots p
  else allocate p = Some (p, None).
Proof.
  intros [Hwf [Hc Hcm] Hs (idxs & -> & Hp)]. rewrite length_fmap.
  pose proof (IFS.pop_spec ndebug _ Hwf) as Hpop. pose proof (Permutation_length Hp) as Hlen. rewrite length_app, length_fmap, length_seq in Hlen.
  pose proof (IFS.length_free_list ndebug _ Hwf) as Hfl. pose proof (IFS.wf_top _ _ Hwf) as Htop.
  unfold allocate. destruct (IFS.free_list (free_ p)) as [| idx rest] eqn:Ef; cbn [length] in *.
  - rewrite bool_decide_false by lia. rewrite Hpop. cbn. by destruct p.
  - rewrite bool_decide_true by lia. destruct Hpop as (s' & -> & Hwf' & Hf' & Hc'). cbn [mbind option_bind fmap option_fmap option_map].
    assert (idx ∉ idxs) as Hni.
    { intros Hin. assert (NoDup (idxs ++ idx :: rest)) as Hnd by (rewrite Hp; apply NoDup_fmap_2; [intros ??; lia | apply NoDup_seq]).
      apply nodup_app in Hnd as (_ & Hd & _). apply (Hd idx Hin). by left. }
    do 2 eexists. split; [done |]. split; [| split; [| done]].
    + intros (j & Hj & Hin)%list_elem_of_fmap. change (slot p idx = slot p j) in Hj. apply slot_inj in Hj. by subst.
    + split; cbn [free_ capacity_ slots]; try done; [by rewrite Hc' |]. exists (idxs ++ [idx]). split; [by rewrite fmap_app |].
      rewrite Hf', <- app_assoc. exact Hp.
Qed.

Lemma deallocate_inv p out obj :
  pool_inv p out → obj ∈ out →
  ∃ p', deallocate p (Some obj) = Some p' ∧ pool_inv p' (filter (λ x, x ≠ obj) out) ∧ capacity_ p' = capacity_ p ∧ slots p' = slots p.
Proof.
  intros Hi Hin. pose proof Hi as [Hwf [Hc Hcm] [Hs0 Hs] (idxs & -> & Hp)].
  apply list_elem_of_fmap in Hin as (i & -> & Hin). pose proof (slot_in p _ idxs i Hi Hp Hin) as Hr.
  assert (NoDup (idxs ++ IFS.free_list (free_ p))) as Hnd by (rewrite Hp; apply NoDup_fmap_2; [intros ??; lia | apply NoDup_seq]).
  apply nodup_app in Hnd as (Hnd & Hd & _).
  unfold deallocate, slot. cbn zeta. assert (slots p + i * sizeof_T - slots p = i * sizeof_T) as -> by lia.
  rewrite Z.mod_mul by lia. rewrite !bool_decide_true by nia. rewrite orb_true_r. cbn [assertM mbind option_bind].
  rewrite u64_id by (unfold is_u64; nia). rewrite Z.div_mul by lia. rewrite u32_id by (unfold is_u32; lia).
  destruct (IFS.push_spec ndebug _ i Hwf ltac:(lia) (Hd i Hin)) as (s' & -> & Hwf' & Hf' & Hc'). cbn [mbind option_bind].
  eexists. split; [done |]. split; [| done]. split; cbn [free_ capacity_ slots]; try done; [by rewrite Hc' |].
  exists (filter (λ j, j ≠ i) idxs). split.
  - clear -Hsize. induction idxs as [| j idxs IH]; [done |]. cbn [fmap list_fmap]. rewrite !filter_cons. fold (slot p j).
    destruct (decide (j = i)) as [-> | Hne]; [rewrite !decide_False by tauto; exact IH |].
    rewrite !decide_True; [cbn [fmap list_fmap]; f_equal; exact IH | done |]. intros He. apply Hne. by apply (slot_inj p).
  - rewrite Hf', <- Hp. transitivity ((filter (λ j, j ≠ i) idxs ++ [i]) ++ IFS.free_list (free_ p)); [by rewrite <- app_assoc |].
    by rewrite (LFSpec.remove_hand idxs i Hnd Hin).
Qed.

Lemma required_region_spec cap :
  abort_if_capacity_invalid cap = Some () → 0 <= cap →
  1 <= cap <= 2 ^ 32 - 1 ∧ cap * sizeof_T <= index_buffer_offset cap < cap * sizeof_T + 4 ∧ index_buffer_offset cap mod 4 = 0 ∧
  required_region_size cap = index_buffer_offset cap + IFS.required_buffer_size ndebug cap ∧
  cap * 4 <= IFS.required_buffer_size ndebug cap ∧ required_region_size cap <= size_max.
Proof.
  intros H Hcap. unfold abort_if_capacity_invalid in H. destruct (_ || _) eqn:E1 in H; [done |].
  apply orb_false_iff in E1 as [[E1%bool_decide_eq_false E2%bool_decide_eq_false]%orb_false_iff E3%bool_decide_eq_false].
  assert (cap * sizeof_T <= size_max) as Hb.
  { assert (sizeof_T * (size_max / sizeof_T) <= size_max) by (apply Z.mul_div_le; lia). nia. }
  unfold size_max in *. assert (0 <= cap * sizeof_T) as Hb0 by nia. rewrite u64_id in H by (unfold is_u64; lia).
  case_bool_decide as E4; [done |]. case_bool_decide as E5; [done |].
  assert (cap * 4 <= IFS.required_buffer_size ndebug cap <= cap * 5) as Hq.
  { unfold IFS.required_buffer_size. rewrite (u64_id (cap * 4)) by (unfold is_u64; lia). destruct ndebug; [lia |].
    rewrite (u64_id (cap * 1)), u64_id by (unfold is_u64; lia). lia. }
  destruct (align_up_spec (cap * sizeof_T) 2) as (Ha & Hm & _); [lia.. |]. change (2 ^ 2) with 4 in *.
  unfold index_buffer_offset, required_region_size, index_buffer_offset in *. rewrite (u64_id (cap * sizeof_T)) in * by (unfold is_u64; lia).
  rewrite (u64_id (2 ^ 64 - 1 - _)) in E5 by (unfold is_u64; lia). rewrite u64_id by (unfold is_u64; lia). lia.
Qed.

(** The constructor accepts every region that is big enough. *)
Lemma construct_spec base size cap :
  0 <= base → base mod 4 = 0 → base + size < 2 ^ 64 → 0 <= cap → abort_if_capacity_invalid cap = Some () → required_region_size cap <= size →
  ∃ p, construct (Some (base, size)) cap = Some p ∧ pool_inv p [] ∧ slots p = base ∧ capacity_ p = cap ∧
    ∀ x, x ∈ IFS.free_list (free_ p) ↔ 0 <= x < cap.
Proof.
  intros H0 Hal Hsp Hcap Hok Hreg. destruct (required_region_spec cap Hok Hcap) as (Hc & Hoff & Hm & Hr & Hq & _).
  unfold construct. cbn [mbind option_bind]. rewrite Hok. cbn [mbind option_bind]. rewrite bool_decide_false by lia.
  unfold IFS.create, IFS.is_valid_capacity, IFS.partition_buffer. rewrite !bool_decide_true by (lia || rewrite Z.add_mod, Hal, Hm by lia; done).
  rewrite bool_decide_false by lia. cbn [andb negb mbind option_bind]. rewrite u32_id by (unfold is_u32; lia).
  eexists. split; [done |]. pose proof (IFS.free_list_init ndebug cap Hcap) as Hfl. split; [| split; [done |]; split; [done |]].
  - split; cbn [free_ capacity_ slots]; try done; [by apply IFS.init_storage_wf | cbn; lia | lia | exists []; split; [done |]; by rewrite Hfl].
  - intros x. cbn [free_]. rewrite Hfl, list_elem_of_fmap. setoid_rewrite elem_of_seq. split; [intros (k & -> & Hk); lia |].
    intros Hx. exists (Z.to_nat x). lia.
Qed.

Lemma reach_inv p0 p out : pool_inv p0 [] → reach p0 p out → pool_inv p out ∧ capacity_ p = capacity_ p0 ∧ slots p = slots p0.
Proof.
  intros H0. induction 1 as [| p out p' obj Hr (Hi & Hc & Hs) Ha | p out obj p' Hr (Hi & Hc & Hs) Hin Hd | p out p' Hr (Hi & Hc & Hs) Hd].
  - done.
  - pose proof (allocate_inv p out Hi) as H. case_bool_decide.
    + destruct H as (p2 & o & E & _ & Hi2 & Hc2 & Hs2). rewrite E in Ha. injection Ha as <- <-. by rewrite Hc2, Hs2.
    + rewrite H in Ha. injection Ha as <- <-. cbn [option_list]. by rewrite app_nil_r.
  - destruct (deallocate_inv p out obj Hi Hin) as (p2 & E & Hi2 & Hc2 & Hs2). rewrite E in Hd. injection Hd as <-. by rewrite Hc2, Hs2.
  - by injection Hd as <-.
Qed.

End Build.

(** The pool over any region its size check accepts.  However its objects are taken and given
    back: the objects out are at different places of the region, aligned as the region is, and
    do not overlap each other nor the free list behind them; [allocate] gives a new one until
    [capacity] are out, and then null, changing nothing; giving an object back never aborts,
    in the debug build and in the release build. *)
Theorem single_thread_pool_correct ndebug sizeof_T base size cap :
  0 < sizeof_T → 0 <= base → base mod 4 = 0 → base + size < 2 ^ 64 → 0 <= cap →
  abort_if_capacity_invalid ndebug sizeof_T cap = Some () → required_region_size ndebug sizeof_T cap <= size →
  ∃ p0, construct ndebug sizeof_T (Some (base, size)) cap = Some p0 ∧
  ∀ p out, reach ndebug sizeof_T p0 p out →
    NoDup out ∧
    (∀ a, a ∈ out → ∃ i, a = base + i * sizeof_T ∧ 0 <= i < cap ∧ a + sizeof_T <= base + index_buffer_offset sizeof_T cap) ∧
    (∀ a b, a ∈ out → b ∈ out → a ≠ b → a + sizeof_T <= b ∨ b + sizeof_T <= a) ∧
    base + index_buffer_offset sizeof_T cap + cap * 4 <= base + size ∧
    (if bool_decide (lenZ out < cap) then ∃ p' obj, allocate ndebug sizeof_T p = Some (p', Some obj) ∧ obj ∉ out
     else allocate ndebug sizeof_T p = Some (p, None)) ∧
    (∀ a, a ∈ out → is_Some (deallocate ndebug sizeof_T p (Some a))) ∧
    empty p = bool_decide (lenZ out = cap).
Proof.
  intros Hs H0 Hal Hsp Hcap Hok Hreg. destruct (construct_spec ndebug sizeof_T Hs base size cap H0 Hal Hsp Hcap Hok Hreg) as (p0 & Hp0 & Hi0 & Hb & Hc & _).
  exists p0. split; [done |]. intros p out Hr. destruct (reach_inv ndebug sizeof_T Hs p0 p out Hi0 Hr) as (Hi & Hcp & Hsl).
  rewrite Hc in Hcp. rewrite Hb in Hsl. destruct (required_region_spec ndebug sizeof_T Hs cap Hok Hcap) as (_ & Hoff & _ & Hrs & Hq & _).
  pose proof (pi_slots _ _ _ _ Hi) as (idxs & -> & Hp).
  assert (∀ i, i ∈ idxs → 0 <= i < cap) as Hin by (intros i Hx; rewrite <- Hcp; by apply (slot_in ndebug sizeof_T p _ idxs i Hi Hp)).
  assert (NoDup (idxs ++ IFS.free_list (free_ p))) as Hnd by (rewrite Hp; apply NoDup_fmap_2; [intros ??; lia | apply NoDup_seq]).
  apply nodup_app in Hnd as (Hnd & _ & _).
  split; [apply NoDup_fmap_2; [intros i j; by apply slot_inj | done] |].
  split; [| split; [| split; [lia |]; split; [| split]]].
  - intros a (i & -> & Hx)%list_elem_of_fmap. apply Hin in Hx. exists i. unfold slot. rewrite Hsl. split; [done |]. split; [done |]. nia.
  - intros a b (i & -> & _)%list_elem_of_fmap (j & -> & _)%list_elem_of_fmap Hne. assert (i ≠ j) by (by intros ->). unfold slot. nia.
  - pose proof (allocate_inv ndebug sizeof_T Hs p _ Hi) as H. rewrite Hcp in H. case_bool_decide; [| done].
    destruct H as (p' & obj & ? & ? & _). by exists p', obj.
  - intros a Ha. destruct (deallocate_inv ndebug sizeof_T Hs p _ a Hi Ha) as (p' & -> & _). by exists p'.
  - unfold empty, IFS.is_empty. pose proof (IFS.length_free_list ndebug _ (pi_wf _ _ _ _ Hi)) as Hl.
    apply Permutation_length in Hp. rewrite length_app, length_fmap, length_seq in Hp. rewrite length_fmap. apply bool_decide_ext. lia.
Qed.

(** Three slots of 24 bytes in a page, in the debug build. *)
Definition demo_pool : Pool := {| capacity_ := 3; slots := 4096; free_ := IFS.init_storage false 3 |}.

Lemma single_thread_pool_correct_witness :
  (∃ p out, reach false 24 demo_pool p out ∧ out = [4120]) ∧
  ∃ p0, construct false 24 (Some (4096, 4096)) 3 = Some p0 ∧
  ∀ p out, reach false 24 p0 p out →
    NoDup out ∧
    (∀ a, a ∈ out → ∃ i, a = 4096 + i * 24 ∧ 0 <= i < 3 ∧ a + 24 <= 4096 + index_buffer_offset 24 3) ∧
    (∀ a b, a ∈ out → b ∈ out → a ≠ b → a + 24 <= b ∨ b + 24 <= a) ∧
    4096 + index_buffer_offset 24 3 + 3 * 4 <= 4096 + 4096 ∧
    (if bool_decide (lenZ out < 3) then ∃ p' obj, allocate false 24 p = Some (p', Some obj) ∧ obj ∉ out
     else allocate false 24 p = Some (p, None)) ∧
    (∀ a, a ∈ out → is_Some (deallocate false 24 p (Some a))) ∧
    empty p = bool_decide (lenZ out = 3).
Proof.
  split.
  - do 2 eexists. split; [eapply (reach_deallocate _ _ _ _ _ 4096); [eapply reach_allocate; [eapply reach_allocate; [apply reach_start |] |] | |]; [by vm_compute | by vm_compute | by left | by vm_compute] | by vm_compute].
  - apply (single_thread_pool_correct false 24 4096 4096 3); [lia | lia | done | lia | lia | by vm_compute | by vm_compute].
Defined.
End STPool.

(** * ConcurrentObjectPool *)

Module CPool.

Section Layout.
  Context (sizeof_Node offsetof_data : Z).

Definition kHugePageSize2MB : Z := 2 * 1024 * 1024.

Definition calculate_optimal_capacity (min_object_count : Z) : Z :=
  if bool_decide (min_object_count > size_max / sizeof_Node) then 0
  else
    let bytes_needed := u64 (min_object_count * sizeof_Node) in
    if bool_decide (bytes_needed > size_max - (kHugePageSize2MB - 1)) then 0
    else align_up bytes_needed kHugePageSize2MB / sizeof_Node.

(** The constructor that takes a region, up to the pushes of
    [init_free_list]: the address of the nodes. *)
Definition construct (region : option (Z * Z)) (capacity : Z) : option Z :=
  '(base, size) ← region;
  if bool_decide (capacity > size_max / sizeof_Node) then abort
  else if bool_decide (size < u64 (capacity * sizeof_Node)) then abort
  else Some base.

(** [allocate] is [try_pop], and [&node->data] of what it returns. *)
Definition allocate_call : LFS.Call := LFS.TryPop.
Definition object_of (base node : Z) : Z := base + node * sizeof_Node + offsetof_data.
Definition allocated (base : Z) (r : LFS.Result) : option Z :=
  match r with LFS.Popped node _ => Some (object_of base node) | _ => None end.

(** [deallocate] is [push] of the node around the object. *)
Definition node_of (base obj : Z) : Z := (obj - offsetof_data - base) / sizeof_Node.
Definition deallocate_call (base : Z) (obj : option Z) : option LFS.Call :=
  (λ obj, LFS.Push (node_of base obj)) <$> obj.

Context (Hnode : 0 < sizeof_Node).

(** The capacity fills the huge pages that the request needs; [0] when the bytes cannot be counted. *)
Lemma calculate_optimal_capacity_spec min :
  0 <= min →
  let bytes := align_up (min * sizeof_Node) kHugePageSize2MB in
  if bool_decide (min * sizeof_Node <= size_max - (kHugePageSize2MB - 1)) then
    min <= calculate_optimal_capacity min ∧ bytes mod kHugePageSize2MB = 0 ∧ bytes < min * sizeof_Node + kHugePageSize2MB ∧
    calculate_optimal_capacity min * sizeof_Node <= bytes < (calculate_optimal_capacity min + 1) * sizeof_Node
  else calculate_optimal_capacity min = 0.
Proof.
  intros Hm. cbn zeta. unfold calculate_optimal_capacity. case_bool_decide as Hb.
  - assert (min <= size_max / sizeof_Node) by (apply Z.div_le_lower_bound; unfold kHugePageSize2MB in *; lia).
    rewrite bool_decide_false by lia. unfold size_max, kHugePageSize2MB in *. rewrite u64_id by (unfold is_u64; nia). rewrite bool_decide_false by lia.
    destruct (align_up_spec (min * sizeof_Node) 21) as (Ha & Hmod & _); [nia | lia | lia |]. change (2 * 1024 * 1024) with (2 ^ 21).
    set (b := align_up (min * sizeof_Node) (2 ^ 21)) in *. pose proof (Z.div_mod b sizeof_Node ltac:(lia)). pose proof (Z.mod_pos_bound b sizeof_Node Hnode).
    split; [apply Z.div_le_lower_bound; lia |]. split; [done |]. split; [lia |]. split; nia.
  - case_bool_decide as Hd; [done |]. assert (min * sizeof_Node <= size_max).
    { pose proof (Z.mul_div_le size_max sizeof_Node Hnode). nia. }
    unfold size_max in *. rewrite u64_id by (unfold is_u64; nia). by rewrite bool_decide_true by (unfold kHugePageSize2MB in *; lia).
Qed.

Lemma node_of_object base i : 0 <= offsetof_data < sizeof_Node → node_of base (object_of base i) = i.
Proof.
  intros Ho. unfold node_of, object_of. replace (base + i * sizeof_Node + offsetof_data - offsetof_data - base) with (i * sizeof_Node) by lia.
  by rewrite Z.div_mul by lia.
Qed.
End Layout.

(** The objects that threads have, or are giving back. *)
Definition objects_out (sizeof_Node offsetof_data base : Z) (m : LFS.Machine) : list Z :=
  object_of sizeof_Node offsetof_data base <$> (LFS.threads m ≫= LFSpec.in_hand).

(** C22. The concurrent pool over any region its constructor accepts starts with all [n] objects
    free.  After any run of any threads that take objects and give back what they took: the
    objects out are at different places inside the region and do not overlap, the free ones and
    those out are [n] together, a call that got null read a store that left the free list empty,
    and [deallocate] recovers the node of each object. *)
Theorem concurrent_pool_correct sizeof_Node offsetof_data sizeof_T base size n others turns m :
  0 <= offsetof_data → 0 < sizeof_T → offsetof_data + sizeof_T <= sizeof_Node → base + size < 2 ^ 64 → 0 <= base →
  construct sizeof_Node (Some (base, size)) (Z.of_nat n) = Some base →
  lenZ (LFS.init_free_list n ++ turns) < 2 ^ 64 → LFS.run (LFS.init_free_list n ++ turns) (LFS.construct n others) = Some m →
  (∃ m0, LFS.run (LFS.init_free_list n) (LFS.construct n others) = Some m0 ∧ objects_out sizeof_Node offsetof_data base m0 = [] ∧
    LFS.run turns m0 = Some m) ∧
  let out := objects_out sizeof_Node offsetof_data base m in
  NoDup out ∧
  (∀ a, a ∈ out → base <= a ∧ a + sizeof_T <= base + size ∧ deallocate_call sizeof_Node offsetof_data base (Some a) =
     Some (LFS.Push (node_of sizeof_Node offsetof_data base a)) ∧ a = object_of sizeof_Node offsetof_data base (node_of sizeof_Node offsetof_data base a)) ∧
  (∀ a b, a ∈ out → b ∈ out → a ≠ b → a + sizeof_T <= b ∨ b + sizeof_T <= a) ∧
  (∀ t th j, LFS.threads m !! t = Some th → LFS.Nothing j ∈ LFS.done th → ∃ st, LFS.head_ m !! j = Some st ∧ LFS.ptr (LFS.value st) = None) ∧
  (∃ free, (∀ l, LFS.latest (LFS.head_ m) = Some l → LFSpec.linked (LFS.nexts m) (LFS.ptr (LFS.value l)) free) ∧ (length free + length out = n)%nat).
Proof.
  intros Ho HT Hl Hsp Hb0 Hcon Hmax Hr.
  assert (0 < sizeof_Node) as Hn by lia.
  unfold construct in Hcon. cbn [mbind option_bind] in Hcon. case_bool_decide as Hc1; [done |].
  assert (Z.of_nat n * sizeof_Node <= size_max) as Hbytes by (pose proof (Z.mul_div_le size_max sizeof_Node Hn); nia).
  rewrite u64_id in Hcon by (unfold is_u64, size_max in *; lia). case_bool_decide as Hc2; [done |]. clear Hcon.
  destruct (LFSpec.reachable_inv n others _ m Hmax Hr) as (hist & top & Hi & _ & _).
  assert (Z.of_nat n < 2 ^ 64) as Hn64 by (unfold size_max in *; nia).
  pose proof (LFSpec.owned_nodup n m hist top Hi) as Hnd. apply nodup_app in Hnd as (_ & _ & Hnd).
  assert (∀ x, x ∈ LFS.threads m ≫= LFSpec.in_hand → 0 <= x < Z.of_nat n) as Hrange.
  { intros x Hx. assert (x ∈ LFS.nodes_of n) as Hx' by (rewrite <- (LFSpec.iv_owned _ _ _ _ Hi); apply elem_of_app; by right).
    unfold LFS.nodes_of in Hx'. apply list_elem_of_fmap in Hx' as (i & -> & Hx'). apply elem_of_seq in Hx'. lia. }
  split; [| cbn zeta; split; [| split; [| split; [| split]]]].
  - rewrite LFSpec.turns_app in Hr. destruct (LFSpec.init_free_list_inv n others Hn64) as (m0 & h0 & Hm0 & _ & Hh & _).
    rewrite Hm0 in Hr. exists m0. split; [done |]. split; [| exact Hr]. unfold objects_out. by rewrite Hh.
  - unfold objects_out. apply NoDup_fmap_2; [| done]. intros i j. unfold object_of. nia.
  - intros a (i & -> & Hx)%list_elem_of_fmap. apply Hrange in Hx. rewrite (node_of_object sizeof_Node offsetof_data Hn) by lia.
    unfold deallocate_call. cbn [fmap option_fmap option_map]. rewrite (node_of_object sizeof_Node offsetof_data Hn) by lia. unfold object_of. split; [nia |]. split; [nia | done].
  - intros a b (i & -> & _)%list_elem_of_fmap (j & -> & _)%list_elem_of_fmap Hne. assert (i ≠ j) by (by intros ->). unfold object_of. nia.
  - intros t th j Ht Hdone. destruct (LFSpec.iv_threads _ _ _ _ Hi t th Ht) as [_ _ _ Hd _]. rewrite Forall_forall in Hd.
    apply list_elem_of_In in Hdone. destruct (Hd _ Hdone) as [Hres _]. cbn [LFSpec.result_ok] in Hres. pose proof (lookup_lt_Some _ _ _ Hres) as Hlt.
    rewrite (LFSpec.iv_len _ _ _ _ Hi) in Hlt. destruct (lookup_lt_is_Some_2 _ _ Hlt) as [st Hst]. exists st. split; [done |].
    destruct (LFSpec.iv_head _ _ _ _ Hi _ _ Hst) as (_ & _ & l & Hl' & ->). rewrite Hres in Hl'. by injection Hl' as <-.
  - exists top. split.
    + intros l Hlat. destruct (LFSpec.latest_at _ _ _ _ _ Hi Hlat) as (_ & _ & _ & ->). apply (LFSpec.iv_linked _ _ _ _ Hi).
    + unfold objects_out. rewrite length_fmap. pose proof (Permutation_length (LFSpec.iv_owned _ _ _ _ Hi)) as Hlen.
      rewrite length_app in Hlen. rewrite Hlen. unfold LFS.nodes_of. by rewrite length_fmap, length_seq.
Qed.

(** Two objects of 8 bytes in nodes of 16; two threads take both, one gets null. *)
Definition demo_turns : list LFS.Turn :=
  LFSpec.turns_of 1 LFS.TryPop 9 3 ++ LFSpec.turns_of 2 LFS.TryPop 9 3 ++ LFSpec.turns_of 1 LFS.TryPop 9 1.
Definition demo_machine : LFS.Machine := default (LFS.construct 2 2) (LFS.run (LFS.init_free_list 2 ++ demo_turns) (LFS.construct 2 2)).

Lemma concurrent_pool_correct_witness :
  objects_out 16 8 4096 demo_machine = [4120; 4104] ∧
  (∃ m0, LFS.run (LFS.init_free_list 2) (LFS.construct 2 2) = Some m0 ∧ objects_out 16 8 4096 m0 = [] ∧ LFS.run demo_turns m0 = Some demo_machine) ∧
  NoDup (objects_out 16 8 4096 demo_machine).
Proof.
  split; [vm_compute; reflexivity |].
  assert (LFS.run (LFS.init_free_list 2 ++ demo_turns) (LFS.construct 2 2) = Some demo_machine) as Hr by (vm_compute; reflexivity).
  destruct (concurrent_pool_correct 16 8 8 4096 4096 2 2 demo_turns demo_machine) as (H1 & H2 & _); [lia | lia | lia | lia | lia | by vm_compute | by vm_compute | exact Hr |].
  split; [exact H1 | exact H2].
Defined.
End CPool.
