(* ===== verification/TableInterface.v ===== *)
(** The contract a hash table offers its clients.

    [OrderBook], [ExchangeCore] and [OrderManager] look orders up in tables
    and depend on four operations only.  [Table] names them, with failure
    ([std::abort]) explicit; [TableLaws] says what they promise about the
    finite map a table stands for.  The clients' theorems are proved against
    these two classes, and [HashMap.v] discharges them for both tables of
    [src/libs/ds/].

    The contract is honest about the table's weakness: an insertion of a new
    key may be refused, and the law [tbl_insert_spec] only promises that a
    refused insertion changes nothing. *)
From S2P Require Import Prelude.
Local Open Scope Z_scope.

Class Table (K V T : Type) := {
  tbl_find : T → K → option (option V);
  tbl_insert : T → K → V → option (T * bool);
  tbl_erase : T → K → option (T * bool);
  tbl_clear : T → T;
  tbl_size : T → Z;
}.

Class TableLaws (K V T : Type) `{Countable K} {TT : Table K V T} := {
  tbl_wf : T → Prop;
  tbl_map : T → gmap K V;
  tbl_find_spec t k : tbl_wf t → tbl_find t k = Some (tbl_map t !! k);
  tbl_insert_spec t k v : tbl_wf t →
    ∃ t' b, tbl_insert t k v = Some (t', b) ∧ tbl_wf t' ∧
      if b : bool
      then tbl_map t !! k = None ∧ tbl_map t' = <[k := v]> (tbl_map t)
      else t' = t;
  tbl_erase_spec t k : tbl_wf t →
    ∃ t', tbl_erase t k = Some (t', bool_decide (is_Some (tbl_map t !! k))) ∧ tbl_wf t' ∧
      tbl_map t' = delete k (tbl_map t);
  tbl_clear_spec t : tbl_wf t → tbl_wf (tbl_clear t) ∧ tbl_map (tbl_clear t) = ∅;
  tbl_size_spec t : tbl_wf t → tbl_size t = Z.of_nat (size (tbl_map t));
}.

(** Room for one more key: an insertion of a new key is then not refused,
    and an erasure takes no room away. *)
Class TableRoom (K V T : Type) `{Countable K} {TT : Table K V T} {TL : TableLaws K V T} := {
  tbl_room : T → Prop;
  tbl_room_insert t k v t' b : tbl_wf t → tbl_room t → tbl_map t !! k = None →
    tbl_insert t k v = Some (t', b) → b = true;
  tbl_room_erase t k t' b : tbl_wf t → tbl_room t → tbl_erase t k = Some (t', b) → tbl_room t';
}.

(** ** Iteration

    [for_each] with a callback that reads: it threads the callback's
    captured state through the live entries, each visited once, in an order
    that only the implementation knows. *)

Definition foldM {K V A : Type} (f : A → K → V → option A) (a : A) (l : list (K * V)) : option A :=
  foldl (λ acc kv, a ← acc; f a kv.1 kv.2) (Some a) l.

Class TableIter (K V T : Type) := {
  tbl_for_each : ∀ {A : Type}, (A → K → V → option A) → T → A → option A;
}.

(** Housekeeping: whether tombstones call for a [tbl_clear]. *)
Class TableRebuild (T : Type) := { tbl_needs_rebuild : T → bool }.

Class TableIterLaws (K V T : Type) `{Countable K} {TT : Table K V T} {TI : TableIter K V T}
    {TL : TableLaws K V T} := {
  tbl_capacity : Z;
  tbl_entries : T → list (K * V);
  tbl_entries_spec t : tbl_wf t → tbl_entries t ≡ₚ map_to_list (tbl_map t);
  tbl_entries_bound t : tbl_wf t → lenZ (tbl_entries t) <= tbl_capacity;
  tbl_for_each_spec {A : Type} (f : A → K → V → option A) t a :
    tbl_for_each f t a = foldM f a (tbl_entries t);
}.

Lemma foldM_None {K V A : Type} (f : A → K → V → option A) (l : list (K * V)) :
  foldl (λ acc kv, a ← acc; f a kv.1 kv.2) None l = None.
Proof. by induction l. Qed.

Lemma foldM_cons {K V A : Type} (f : A → K → V → option A) a kv (l : list (K * V)) :
  foldM f a (kv :: l) = a' ← f a kv.1 kv.2; foldM f a' l.
Proof. unfold foldM. simpl. destruct (f a kv.1 kv.2); [done | apply foldM_None]. Qed.
