(* ===== verification/HashMap.v ===== *)
(** Open-addressing hash tables: [src/libs/ds/hash_map.hpp] (run-time
    capacity, caller's buffer) and [src/libs/ds/fixed_hash_map.hpp] (inline
    storage, compile-time capacity).

    Linear probing, power-of-two masking, tombstone deletion and a 70%
    occupancy limit, as in the source; the slot array is a list, a probe
    that runs out of its [capacity_] iterations is the source's
    [std::abort] and is [None].  [hash_] is the template parameter [Hash];
    [KeyEqual] is equality. *)
From S2P Require Import Prelude.
From S2P Require Import BitUtils.
From S2P Require Import HashUtils.
From S2P Require Import TableInterface.
Local Open Scope Z_scope.
Local Open Scope array_scope.

Module HM.

Inductive SlotState : Set := kEmpty | kFull | kTombstone.

#[export] Instance SlotState_eq_dec : EqDecision SlotState.
Proof. solve_decision. Defined.

Record Slot (K V : Type) : Type := {
  key : K;
  value : V;
  state : SlotState;
}.
Arguments key {K V}.
Arguments value {K V}.
Arguments state {K V}.

Record HashMap (K V : Type) : Type := {
  slots_ : list (Slot K V);
  capacity_ : Z;
  mask_ : Z;
  max_load_ : Z;
  tombstone_threshold_ : Z;
  size_ : Z;
  tombstones_ : Z;
}.
Arguments slots_ {K V}.
Arguments capacity_ {K V}.
Arguments mask_ {K V}.
Arguments max_load_ {K V}.
Arguments tombstone_threshold_ {K V}.
Arguments size_ {K V}.
Arguments tombstones_ {K V}.

Inductive UpsertResult : Set := kInserted | kUpdated | kCapacityFull.

Section Operations.
  Context {K V : Type} `{!EqDecision K} (hash_ : K → Z).
  Implicit Types (m : HashMap K V) (k : K) (v : V).

Definition set_state (s : Slot K V) (st : SlotState) : Slot K V :=
  {| key := key s; value := value s; state := st |}.

Definition set_value (s : Slot K V) (v : V) : Slot K V :=
  {| key := key s; value := v; state := state s |}.

(** The table with another slot array and other counters. *)
Definition with_slots m (slots : list (Slot K V)) (size tombstones : Z) : HashMap K V :=
  {| slots_ := slots; capacity_ := capacity_ m; mask_ := mask_ m; max_load_ := max_load_ m;
     tombstone_threshold_ := tombstone_threshold_ m; size_ := size; tombstones_ := tombstones |}.

Definition bucket_for m k : Z := Z.land (hash_ k) (mask_ m).

Fixpoint probe_find_loop m k (n : nat) (idx : Z) : option Z :=
  match n with
  | O => abort
  | S n' =>
      slot ← (slots_ m).[idx];
      match state slot with
      | kEmpty => Some idx
      | kFull => if bool_decide (key slot = k) then Some idx
                 else probe_find_loop m k n' (Z.land (idx + 1) (mask_ m))
      | kTombstone => probe_find_loop m k n' (Z.land (idx + 1) (mask_ m))
      end
  end.

Definition probe_find m k : option Z :=
  probe_find_loop m k (Z.to_nat (capacity_ m)) (bucket_for m k).

Fixpoint probe_insert_loop m k (n : nat) (idx first_tombstone : Z) : option (Z * bool) :=
  match n with
  | O => abort
  | S n' =>
      slot ← (slots_ m).[idx];
      let next := Z.land (idx + 1) (mask_ m) in
      match state slot with
      | kEmpty =>
          Some (if bool_decide (first_tombstone ≠ capacity_ m) then first_tombstone else idx, false)
      | kTombstone =>
          probe_insert_loop m k n' next
            (if bool_decide (first_tombstone = capacity_ m) then idx else first_tombstone)
      | kFull => if bool_decide (key slot = k) then Some (idx, true)
                 else probe_insert_loop m k n' next first_tombstone
      end
  end.

Definition probe_insert m k : option (Z * bool) :=
  probe_insert_loop m k (Z.to_nat (capacity_ m)) (bucket_for m k) (capacity_ m).

Definition is_valid_capacity (c : Z) : bool :=
  bool_decide (c >= 4) && is_power_of_two (u32 c) && bool_decide (c <= 2 ^ 32 - 1).

Definition round_up_capacity (n : Z) : option Z :=
  if bool_decide (n = 0) then Some 0
  else if bool_decide (n <= 4) then Some 4
  else if bool_decide (n > 2 ^ 32 - 1) then Some 0
  else round_up_pow2 (u32 n).

Definition required_buffer_size (sizeof_slot capacity : Z) : Z := u64 (capacity * sizeof_slot).

Definition size m : Z := size_ m.
Definition empty m : bool := bool_decide (size_ m = 0).
Definition tombstone_count m : Z := tombstones_ m.
Definition needs_rebuild m : bool := bool_decide (tombstones_ m > tombstone_threshold_ m).

Definition find m k : option (option V) :=
  if bool_decide (capacity_ m = 0) then Some None
  else
    idx ← probe_find m k;
    slot ← (slots_ m).[idx];
    Some (if bool_decide (state slot = kFull) then Some (value slot) else None).

Definition insert m k v : option (HashMap K V * bool) :=
  if bool_decide (capacity_ m = 0) then Some (m, false)
  else
    '(idx, found_existing) ← probe_insert m k;
    if found_existing : bool then Some (m, false)
    else
      slot ← (slots_ m).[idx];
      let reusing_tombstone := bool_decide (state slot = kTombstone) in
      if negb reusing_tombstone && bool_decide (size_ m + tombstones_ m >= max_load_ m)
      then Some (m, false)
      else
        let tombstones := if reusing_tombstone then tombstones_ m - 1 else tombstones_ m in
        slots ← storeZ (slots_ m) idx {| key := k; value := v; state := kFull |};
        Some (with_slots m slots (size_ m + 1) tombstones, true).

Definition upsert m k v : option (HashMap K V * UpsertResult) :=
  if bool_decide (capacity_ m = 0) then Some (m, kCapacityFull)
  else
    '(idx, found_existing) ← probe_insert m k;
    slot ← (slots_ m).[idx];
    if found_existing : bool then
      slots ← storeZ (slots_ m) idx (set_value slot v);
      Some (with_slots m slots (size_ m) (tombstones_ m), kUpdated)
    else
      let reusing_tombstone := bool_decide (state slot = kTombstone) in
      if negb reusing_tombstone && bool_decide (size_ m + tombstones_ m >= max_load_ m)
      then Some (m, kCapacityFull)
      else
        let tombstones := if reusing_tombstone then tombstones_ m - 1 else tombstones_ m in
        slots ← storeZ (slots_ m) idx {| key := k; value := v; state := kFull |};
        Some (with_slots m slots (size_ m + 1) tombstones, kInserted).

Definition erase m k : option (HashMap K V * bool) :=
  if bool_decide (capacity_ m = 0) then Some (m, false)
  else
    idx ← probe_find m k;
    slot ← (slots_ m).[idx];
    if bool_decide (state slot ≠ kFull) then Some (m, false)
    else
      slots ← storeZ (slots_ m) idx (set_state slot kTombstone);
      Some (with_slots m slots (size_ m - 1) (tombstones_ m + 1), true).

Definition clear m : HashMap K V :=
  with_slots m ((λ s, set_state s kEmpty) <$> slots_ m) 0 0.

(** [for_each]: the callback threads an accumulator (what it captures by
    reference) and may change the value; it may also abort. *)
Fixpoint for_each_loop {A : Type} (fn : A → K → V → option (A * V)) (slots : list (Slot K V))
    (a : A) : option (A * list (Slot K V)) :=
  match slots with
  | [] => Some (a, [])
  | slot :: rest =>
      if bool_decide (state slot = kFull) then
        '(a', v') ← fn a (key slot) (value slot);
        '(a'', rest') ← for_each_loop fn rest a';
        Some (a'', set_value slot v' :: rest')
      else
        '(a', rest') ← for_each_loop fn rest a;
        Some (a', slot :: rest')
  end.

Definition for_each {A : Type} (fn : A → K → V → option (A * V)) m (a : A)
    : option (A * HashMap K V) :=
  '(a', slots) ← for_each_loop fn (slots_ m) a;
  Some (a', with_slots m slots (size_ m) (tombstones_ m)).

(** The private constructor: all geometry follows from the capacity. *)
Definition make (slots : list (Slot K V)) (cap : Z) : HashMap K V :=
  {| slots_ := slots; capacity_ := cap; mask_ := cap - 1; max_load_ := (cap * 7) / 10;
     tombstone_threshold_ := (cap * 2) / 10; size_ := 0; tombstones_ := 0 |}.

(** [create]: [external_buf] is the address and the slots found there (of
    unknown content), [sizeof_slot] and [alignof_slot] are the compiler's. *)
Definition create (sizeof_slot alignof_slot : Z) (external_buf : option (Z * list (Slot K V)))
    (buf_size_bytes capacity : Z) : option (HashMap K V) :=
  if negb (is_valid_capacity capacity) then None
  else
    match external_buf with
    | None => None
    | Some (addr, content) =>
        if negb (bool_decide (addr mod alignof_slot = 0)) then None
        else if bool_decide (buf_size_bytes < u64 (capacity * sizeof_slot)) then None
        else Some (clear (make (take (Z.to_nat capacity) content) capacity))
    end.

(** The default constructor: an unusable table of capacity zero. *)
Definition null_map : HashMap K V :=
  {| slots_ := []; capacity_ := 0; mask_ := 0; max_load_ := 0; tombstone_threshold_ := 0;
     size_ := 0; tombstones_ := 0 |}.

End Operations.

End HM.
