(* ===== verification/HashMapSpec.v ===== *)
(** Correctness of the probing hash table of [HashMap.v].

    The invariant [wf] says what the source's comments promise (a 70%
    occupancy bound, so every probe meets an empty slot) and what the
    probing needs (every live key is reachable from its bucket through
    non-empty slots, and lives in one slot).  [to_map] is the finite map a
    table stands for; every operation is proved against it, and the
    instance at the end discharges the interface of [TableInterface.v]. *)
From S2P Require Import Prelude.
From S2P Require Import BitUtils.
From S2P Require Import HashUtils.
From S2P Require Import TableInterface.
From S2P Require Import HashMap.
Local Open Scope Z_scope.
Local Open Scope array_scope.

Module HMSpec.
Import HM.

Section Spec.
  Context {K V : Type} `{Countable K} (hash_ : K → Z).
  Implicit Types (m : HashMap K V) (k : K) (v : V) (s : Slot K V).

Definition is_state (st : SlotState) (s : Slot K V) : bool := bool_decide (state s = st).

(** The live entries in slot order, and the map they stand for. *)
Definition entries (l : list (Slot K V)) : list (K * V) :=
  omap (λ s, if bool_decide (state s = kFull) then Some (key s, value s) else None) l.

Definition to_map m : gmap K V := list_to_map (entries (slots_ m)).

(** The [i]-th slot of the probe sequence of [k]. *)
Definition posn m k (i : Z) : Z := (hash_ k + i) mod capacity_ m.

Record geometry m : Prop := {
  g_cap : ∃ e, 2 <= e < 32 ∧ capacity_ m = 2 ^ e;
  g_mask : mask_ m = capacity_ m - 1;
  g_len : lenZ (slots_ m) = capacity_ m;
  g_load : max_load_ m = (capacity_ m * 7) / 10;
  g_tomb : tombstone_threshold_ m = (capacity_ m * 2) / 10;
}.

(** Slot [i] holds a live key that a probe for it reaches. *)
Definition reachable m k (i : Z) : Prop :=
  ∃ d, 0 <= d < capacity_ m ∧ i = posn m k d ∧
    ∀ j, 0 <= j < d → ∃ s, (slots_ m).[posn m k j] = Some s ∧ state s ≠ kEmpty.

Record wf m : Prop := {
  wf_geom : geometry m;
  wf_size : size_ m = countZ (is_state kFull) (slots_ m);
  wf_tombs : tombstones_ m = countZ (is_state kTombstone) (slots_ m);
  wf_bound : size_ m + tombstones_ m <= max_load_ m;
  wf_reach : ∀ i s, (slots_ m).[i] = Some s → state s = kFull → reachable m (key s) i;
  wf_uniq : ∀ i j s s', (slots_ m).[i] = Some s → (slots_ m).[j] = Some s' →
    state s = kFull → state s' = kFull → key s = key s' → i = j;
}.

(** ** Geometry *)

Section Geometry.
Context m (Hg : geometry m).

Lemma cap_bounds : 4 <= capacity_ m <= 2 ^ 31.
Proof.
  destruct (g_cap _ Hg) as (e & He & ->). split.
  - change 4 with (2 ^ 2). apply Z.pow_le_mono_r; lia.
  - apply Z.pow_le_mono_r; lia.
Qed.

Lemma mask_mod x : Z.land x (mask_ m) = x mod capacity_ m.
Proof.
  rewrite (g_mask _ Hg). destruct (g_cap _ Hg) as (e & He & ->). apply land_mask; lia.
Qed.

Lemma posn_bounds k i : 0 <= posn m k i < capacity_ m.
Proof. unfold posn. pose proof cap_bounds. apply Z.mod_pos_bound. lia. Qed.

Lemma bucket_posn k : bucket_for hash_ m k = posn m k 0.
Proof. unfold bucket_for, posn. by rewrite mask_mod, Z.add_0_r. Qed.

Lemma next_posn k i : Z.land (posn m k i + 1) (mask_ m) = posn m k (i + 1).
Proof.
  rewrite mask_mod. unfold posn. rewrite Zplus_mod_idemp_l. by rewrite Z.add_assoc.
Qed.

Lemma posn_lookup k i : ∃ s, (slots_ m).[posn m k i] = Some s.
Proof. apply getZ_is_Some. rewrite (g_len _ Hg). apply posn_bounds. Qed.

(** Every slot is some step of every probe sequence. *)
Lemma posn_surj k i : 0 <= i < capacity_ m → ∃ d, 0 <= d < capacity_ m ∧ posn m k d = i.
Proof.
  intros Hi. pose proof cap_bounds. exists ((i - hash_ k) mod capacity_ m).
  split; [apply Z.mod_pos_bound; lia |].
  unfold posn. rewrite Zplus_mod_idemp_r.
  replace (hash_ k + (i - hash_ k)) with i by lia. by apply Z.mod_small.
Qed.

Lemma posn_inj k d d' :
  0 <= d < capacity_ m → 0 <= d' < capacity_ m → posn m k d = posn m k d' → d = d'.
Proof.
  unfold posn. intros Hd Hd' Heq. pose proof cap_bounds.
  assert ((hash_ k + d - (hash_ k + d')) mod capacity_ m = 0) as Hz.
  { rewrite Zminus_mod, Heq, Z.sub_diag. by apply Zmod_0_l. }
  replace (hash_ k + d - (hash_ k + d')) with (d - d') in Hz by lia.
  apply Z.mod_divide in Hz as [q Hq]; [| lia].
  assert (q = 0) by nia. lia.
Qed.

(** ** The probe loops *)

(** Both probes stop at an empty slot or at the live slot of the key. *)
Definition stops k (i : Z) : Prop :=
  ∃ s, (slots_ m).[posn m k i] = Some s ∧ (state s = kEmpty ∨ state s = kFull ∧ key s = k).

Lemma probe_find_loop_spec k n i :
  0 <= i → Z.of_nat n + i = capacity_ m → (∃ j, i <= j < capacity_ m ∧ stops k j) →
  ∃ j, i <= j < capacity_ m ∧ probe_find_loop m k n (posn m k i) = Some (posn m k j) ∧
    stops k j ∧ ∀ j', i <= j' < j → ¬ stops k j'.
Proof.
  revert i. induction n as [| n IH]; intros i Hi Hn (j & Hj & Hstop); [lia |].
  simpl. destruct (posn_lookup k i) as [s Hs]. rewrite Hs; simpl.
  assert (¬ stops k i → ∃ j, i <= j < capacity_ m ∧
      probe_find_loop m k n (Z.land (posn m k i + 1) (mask_ m)) = Some (posn m k j) ∧
      stops k j ∧ ∀ j', i <= j' < j → ¬ stops k j') as Hnext.
  { intros Hns. rewrite next_posn.
    destruct (IH (i + 1)) as (j0 & Hj0 & Hl & Hst & Hleast); [lia | lia | |].
    - exists j. split; [| done]. destruct (decide (i = j)); [by subst | lia].
    - exists j0. repeat split; [lia | lia | done..|]. intros j' Hj'.
      destruct (decide (i = j')); [by subst | apply Hleast; lia]. }
  destruct (state s) eqn:Hst.
  - exists i. repeat split; [lia | lia | | intros; lia]. exists s. auto.
  - case_bool_decide as Hk.
    + exists i. repeat split; [lia | lia | | intros; lia]. exists s. auto.
    + apply Hnext. intros (s' & Hs' & Hc). naive_solver congruence.
  - apply Hnext. intros (s' & Hs' & Hc). naive_solver congruence.
Qed.

(** [t] is where a new key goes when the probe stopped at step [j]. *)
Definition insert_at k (j t : Z) : Prop :=
  0 <= t <= j ∧ ∃ s, (slots_ m).[posn m k t] = Some s ∧
    (state s = kTombstone ∨ t = j ∧ state s = kEmpty).

Lemma probe_insert_loop_spec k n i ft :
  0 <= i → Z.of_nat n + i = capacity_ m → (∃ j, i <= j < capacity_ m ∧ stops k j) →
  (ft = capacity_ m ∨ ∃ t, 0 <= t < i ∧ ft = posn m k t ∧
     ∃ s, (slots_ m).[posn m k t] = Some s ∧ state s = kTombstone) →
  ∃ j s, i <= j < capacity_ m ∧ (∀ j', i <= j' < j → ¬ stops k j') ∧
    (slots_ m).[posn m k j] = Some s ∧
    ((state s = kFull ∧ key s = k ∧
        probe_insert_loop m k n (posn m k i) ft = Some (posn m k j, true)) ∨
     (state s = kEmpty ∧ ∃ t, insert_at k j t ∧
        probe_insert_loop m k n (posn m k i) ft = Some (posn m k t, false))).
Proof.
  revert i ft. induction n as [| n IH]; intros i ft Hi Hn (j & Hj & Hstop) Hft; [lia |].
  simpl. destruct (posn_lookup k i) as [s Hs]. rewrite Hs; simpl.
  assert (∀ ft', (ft' = capacity_ m ∨ ∃ t, 0 <= t < i + 1 ∧ ft' = posn m k t ∧
       ∃ s, (slots_ m).[posn m k t] = Some s ∧ state s = kTombstone) → ¬ stops k i →
    ∃ j s, i <= j < capacity_ m ∧ (∀ j', i <= j' < j → ¬ stops k j') ∧
    (slots_ m).[posn m k j] = Some s ∧
    ((state s = kFull ∧ key s = k ∧
        probe_insert_loop m k n (Z.land (posn m k i + 1) (mask_ m)) ft'
          = Some (posn m k j, true)) ∨
     (state s = kEmpty ∧ ∃ t, insert_at k j t ∧
        probe_insert_loop m k n (Z.land (posn m k i + 1) (mask_ m)) ft'
          = Some (posn m k t, false)))) as Hnext.
  { intros ft' Hft' Hns. rewrite next_posn.
    destruct (IH (i + 1) ft') as (j0 & s0 & Hj0 & Hleast & Hrest); [lia | lia | | done |].
    - exists j. split; [| done]. destruct (decide (i = j)); [by subst | lia].
    - exists j0, s0. split; [lia |]. split; [| done]. intros j' Hj'.
      destruct (decide (i = j')); [by subst | apply Hleast; lia]. }
  destruct (state s) eqn:Hst.
  - exists i, s. split; [lia |]. split; [intros; lia |]. split; [done |]. right.
    split; [done |]. case_bool_decide as Hb.
    + destruct Hft as [-> | (t & Ht & -> & s' & Hs' & Hst')]; [done |].
      exists t. split; [| done]. split; [lia |]. eauto.
    + exists i. split; [| done]. split; [lia |]. eauto.
  - case_bool_decide as Hk.
    + exists i, s. split; [lia |]. split; [intros; lia |]. eauto.
    + apply Hnext.
      * destruct Hft as [-> | (t & Ht & Hrest)]; [by left |]. right. exists t. split; [lia | done].
      * intros (s' & Hs' & Hc). naive_solver congruence.
  - apply Hnext.
    + right. case_bool_decide as Hb.
      * exists i. split; [lia |]. eauto.
      * destruct Hft as [-> | (t & Ht & Hrest)]; [done |]. exists t. split; [lia | done].
    + intros (s' & Hs' & Hc). naive_solver congruence.
Qed.
End Geometry.

(** ** The map a table stands for *)

Definition holds m k v : Prop :=
  ∃ i s, (slots_ m).[i] = Some s ∧ state s = kFull ∧ key s = k ∧ value s = v.

Lemma entries_cons s (l : list (Slot K V)) :
  entries (s :: l)
  = if bool_decide (state s = kFull) then (key s, value s) :: entries l else entries l.
Proof. unfold entries; simpl. by case_bool_decide. Qed.

Lemma elem_of_entries (l : list (Slot K V)) k v :
  (k, v) ∈ entries l ↔ ∃ s, s ∈ l ∧ state s = kFull ∧ key s = k ∧ value s = v.
Proof.
  unfold entries. rewrite list_elem_of_omap. split.
  - intros (s & Hs & Heq). case_bool_decide; simplify_eq. by exists s.
  - intros (s & Hs & Hf & <- & <-). exists s. by rewrite bool_decide_true.
Qed.

Lemma nodup_entries (l : list (Slot K V)) :
  (∀ (i j : nat) s s', l !! i = Some s → l !! j = Some s' → state s = kFull →
     state s' = kFull → key s = key s' → i = j) →
  NoDup (entries l).*1.
Proof.
  induction l as [| s l IH]; intros Hu; [constructor |].
  assert (NoDup (entries l).*1) as IH'.
  { apply IH. intros i j s1 s2 H1 H2 Hf1 Hf2 Hk.
    by specialize (Hu (S i) (S j) s1 s2 H1 H2 Hf1 Hf2 Hk) as [= ?]. }
  rewrite entries_cons. case_bool_decide as Hf; simpl; [| done].
  apply nodup_cons. split; [| done].
  intros ([k v] & Hk & Hin)%list_elem_of_fmap. simpl in Hk.
  apply (elem_of_entries l) in Hin as (s' & Hs' & Hf' & Hk' & _).
  apply list_elem_of_lookup in Hs' as [j Hj].
  specialize (Hu 0%nat (S j) s s' eq_refl Hj Hf Hf'). simpl in Hu.
  by rewrite Hk' in Hu; specialize (Hu Hk).
Qed.

Lemma wf_nodup m : wf m → NoDup (entries (slots_ m)).*1.
Proof.
  intros Hwf. apply nodup_entries. intros i j s s' Hi Hj Hf Hf' Hk.
  apply Nat2Z.inj. by apply (wf_uniq _ Hwf _ _ s s'); rewrite ?getZ_nat.
Qed.

Lemma to_map_holds m k v : wf m → to_map m !! k = Some v ↔ holds m k v.
Proof.
  intros Hwf. unfold to_map. rewrite <- elem_of_list_to_map by by apply wf_nodup.
  rewrite elem_of_entries. unfold holds. split.
  - intros (s & [i Hi]%list_elem_of_lookup & Hs). exists (Z.of_nat i), s. by rewrite getZ_nat.
  - intros (i & s & Hi%getZ_to_lookup & Hs). exists s. split; [| done].
    by eapply list_elem_of_lookup_2.
Qed.

Lemma to_map_none m k :
  wf m → to_map m !! k = None ↔ ∀ i s, (slots_ m).[i] = Some s → state s = kFull → key s ≠ k.
Proof.
  intros Hwf. rewrite eq_None_not_Some. split.
  - intros Hn i s Hi Hf Hk. apply Hn. exists (value s). apply to_map_holds; [done |].
    by exists i, s.
  - intros Ha [v (i & s & Hi & Hf & Hk & Hv)%to_map_holds]; [| done]. by eapply Ha.
Qed.

(** Two tables stand for the same map when they hold the same entries. *)
Lemma to_map_ext m m' :
  wf m → ∀ M : gmap K V, (∀ k v, holds m k v ↔ M !! k = Some v) → to_map m = M.
Proof.
  intros Hwf M Hh. apply map_eq. intros k. apply option_eq. intros v.
  by rewrite to_map_holds.
Qed.

Lemma length_entries (l : list (Slot K V)) : lenZ (entries l) = countZ (is_state kFull) l.
Proof.
  induction l as [| s l IH]; [done |]. rewrite entries_cons. simpl. unfold is_state at 1.
  destruct (bool_decide (state s = kFull)); simpl; lia.
Qed.

Lemma size_to_map m : wf m → size m = Z.of_nat (base.size (to_map m)).
Proof.
  intros Hwf. unfold size, to_map. rewrite (wf_size _ Hwf), <- length_entries.
  by rewrite map_size_list_to_map, ?length_fmap by by apply wf_nodup.
Qed.

(** ** Probing a well-formed table *)

Section Probing.
Lemma is_state_sum (l : list (Slot K V)) :
  countZ (is_state kFull) l + countZ (is_state kTombstone) l
  = countZ (λ s, negb (is_state kEmpty s)) l.
Proof.
  induction l as [| s l IH]; simpl; [done |].
  unfold is_state in *. destruct (state s); simpl; lia.
Qed.

(** The 70% bound leaves an empty slot, so every probe stops. *)
Lemma probe_stops m k : wf m → ∃ j, 0 <= j < capacity_ m ∧ stops m k j.
Proof.
  intros Hwf. pose proof (wf_geom _ Hwf) as Hg. pose proof (cap_bounds _ Hg).
  destruct (countZ_lt_witness (λ s, negb (is_state kEmpty s)) (slots_ m)) as (n & s & Hn & Hs).
  { rewrite <- is_state_sum, <- (wf_size _ Hwf), <- (wf_tombs _ Hwf), (g_len _ Hg).
    pose proof (wf_bound _ Hwf). rewrite (g_load _ Hg) in *. Z.div_mod_to_equations; lia. }
  apply negb_false_iff, bool_decide_eq_true in Hs.
  apply getZ_of_lookup in Hn. pose proof (getZ_Some _ _ _ Hn) as Hi. rewrite (g_len _ Hg) in Hi.
  destruct (posn_surj _ Hg k _ Hi) as (d & Hd & Hp).
  exists d. split; [done |]. exists s. rewrite Hp. auto.
Qed.

(** A live slot of the key, reached at step [d], is where the probe stops. *)
Lemma full_is_stop m k j i s :
  wf m → 0 <= j < capacity_ m → (∀ j', 0 <= j' < j → ¬ stops m k j') → stops m k j →
  (slots_ m).[i] = Some s → state s = kFull → key s = k → i = posn m k j.
Proof.
  intros Hwf Hj Hleast (sj & Hsj & Hst) Hs Hf Hk.
  destruct (wf_reach _ Hwf i s Hs Hf) as (d & Hd & -> & Hch). rewrite Hk in *.
  destruct (Z.lt_trichotomy d j) as [Hlt | [-> | Hgt]]; [| done |].
  - destruct (Hleast d); [lia |]. exists s. auto.
  - destruct (Hch j) as (s' & Hs' & Hne); [lia |]. rewrite Hsj in Hs'. injection Hs' as <-.
    destruct Hst as [He | [Hfj Hkj]]; [done |].
    apply (wf_uniq _ Hwf _ _ s sj); congruence.
Qed.

Lemma probe_find_spec m k :
  wf m → ∃ j s, 0 <= j < capacity_ m ∧ probe_find hash_ m k = Some (posn m k j) ∧
    (slots_ m).[posn m k j] = Some s ∧
    (state s = kFull ∧ key s = k ∨
     state s = kEmpty ∧ ∀ i s', (slots_ m).[i] = Some s' → state s' = kFull → key s' ≠ k).
Proof.
  intros Hwf. pose proof (wf_geom _ Hwf) as Hg. pose proof (cap_bounds _ Hg).
  destruct (probe_find_loop_spec m Hg k (Z.to_nat (capacity_ m)) 0)
    as (j & Hj & Hl & (s & Hs & Hst) & Hleast); [lia | lia | by apply probe_stops |].
  exists j, s. split; [done |]. split.
  { unfold probe_find. by rewrite (bucket_posn m Hg). }
  split; [done |]. destruct Hst as [He | Hf]; [right | by left]. split; [done |].
  intros i s' Hs' Hf Hk.
  assert (i = posn m k j) as -> by (eapply full_is_stop; eauto; exists s; auto).
  congruence.
Qed.

Lemma probe_insert_spec m k :
  wf m →
  (∃ j s, 0 <= j < capacity_ m ∧ probe_insert hash_ m k = Some (posn m k j, true) ∧
     (slots_ m).[posn m k j] = Some s ∧ state s = kFull ∧ key s = k) ∨
  (∃ t s, 0 <= t < capacity_ m ∧ probe_insert hash_ m k = Some (posn m k t, false) ∧
     (slots_ m).[posn m k t] = Some s ∧ state s ≠ kFull ∧
     (∀ i s', (slots_ m).[i] = Some s' → state s' = kFull → key s' ≠ k) ∧
     ∀ j, 0 <= j < t → ∃ s', (slots_ m).[posn m k j] = Some s' ∧ state s' ≠ kEmpty).
Proof.
  intros Hwf. pose proof (wf_geom _ Hwf) as Hg. pose proof (cap_bounds _ Hg).
  destruct (probe_insert_loop_spec m Hg k (Z.to_nat (capacity_ m)) 0 (capacity_ m))
    as (j & s & Hj & Hleast & Hs & Hcase); [lia | lia | by apply probe_stops | by left |].
  unfold probe_insert. rewrite (bucket_posn m Hg).
  destruct Hcase as [(Hf & Hk & ->) | (He & t & (Ht & st & Hst & Hstate) & ->)].
  - left. by exists j, s.
  - right. exists t, st. split; [lia |]. split; [done |]. split; [done |]. split.
    { destruct Hstate as [-> | [_ ->]]; done. }
    split.
    + intros i s' Hs' Hf Hk.
      assert (i = posn m k j) as -> by (eapply full_is_stop; eauto; exists s; auto).
      congruence.
    + intros j' Hj'. destruct (posn_lookup m Hg k j') as [s' Hs']. exists s'.
      split; [done |]. intros Hem. apply (Hleast j'); [lia |]. exists s'. auto.
Qed.
End Probing.

(** ** Changing one slot *)

Lemma geometry_with_slots m l a b :
  geometry m → length l = length (slots_ m) → geometry (with_slots m l a b).
Proof. intros [] Hl. split; simpl; try done. by rewrite Hl. Qed.

(** Reachability survives any change that empties no slot. *)
Lemma reachable_mono m l a b k i :
  (∀ j s, (slots_ m).[j] = Some s → state s ≠ kEmpty →
     ∃ s', l.[j] = Some s' ∧ state s' ≠ kEmpty) →
  reachable m k i → reachable (with_slots m l a b) k i.
Proof.
  intros Hmono (d & Hd & -> & Hch). exists d. split; [done |]. split; [done |].
  intros j Hj. destruct (Hch j Hj) as (s & Hs & Hne). by apply (Hmono _ s).
Qed.

Lemma setZ_nonempty m idx s s' :
  (slots_ m).[idx] = Some s → state s' ≠ kEmpty →
  ∀ j s0, (slots_ m).[j] = Some s0 → state s0 ≠ kEmpty →
    ∃ s1, (slots_ m).[idx <- s'].[j] = Some s1 ∧ state s1 ≠ kEmpty.
Proof.
  intros Hs Hne j s0 Hs0 Hne0. rewrite getZ_setZ by by eapply getZ_Some.
  case_decide; eauto.
Qed.

(** Writing a new live entry into a slot a probe for its key can reach. *)
Section Put.
Context m (k : K) (v : V) (t : Z) (s : Slot K V).
Context (Hwf : wf m) (Ht : 0 <= t < capacity_ m)
        (Hs : (slots_ m).[posn m k t] = Some s) (Hnf : state s ≠ kFull)
        (Hfresh : ∀ i s', (slots_ m).[i] = Some s' → state s' = kFull → key s' ≠ k)
        (Hpre : ∀ j, 0 <= j < t → ∃ s', (slots_ m).[posn m k j] = Some s' ∧ state s' ≠ kEmpty).

Definition put_slots : list (Slot K V) :=
  (slots_ m).[posn m k t <- {| key := k; value := v; state := kFull |}].
Definition put_tombs : Z :=
  if bool_decide (state s = kTombstone) then tombstones_ m - 1 else tombstones_ m.
Definition put_map : HashMap K V := with_slots m put_slots (size_ m + 1) put_tombs.

Lemma put_lookup i :
  put_slots.[i] = if decide (posn m k t = i)
                  then Some {| key := k; value := v; state := kFull |} else (slots_ m).[i].
Proof. unfold put_slots. rewrite getZ_setZ by by eapply getZ_Some. done. Qed.

Lemma put_wf :
  state s = kTombstone ∨ size_ m + tombstones_ m < max_load_ m → wf put_map.
Proof.
  intros Hroom. pose proof (wf_size _ Hwf) as Hsz. pose proof (wf_tombs _ Hwf) as Htb.
  pose proof (wf_bound _ Hwf) as Hbd.
  split; simpl.
  - apply geometry_with_slots; [apply Hwf |]. apply length_setZ.
  - unfold put_slots. rewrite (countZ_setZ _ _ _ _ s) by done. unfold is_state at 2 3; simpl.
    rewrite (bool_decide_false (state s = kFull)) by done. simpl. lia.
  - unfold put_slots, put_tombs. rewrite (countZ_setZ _ _ _ _ s) by done.
    unfold is_state at 2 3; simpl. case_bool_decide; simpl; lia.
  - unfold put_tombs. case_bool_decide; [lia |]. destruct Hroom; [done | lia].
  - intros i s' Hi Hf. rewrite put_lookup in Hi. case_decide as Hpi.
    + simplify_eq/=. apply reachable_mono; [by apply (setZ_nonempty _ _ s) |].
      exists t. auto.
    + apply reachable_mono; [by apply (setZ_nonempty _ _ s) |]. by eapply wf_reach.
  - intros i j s1 s2 Hi Hj Hf1 Hf2 Hk. rewrite put_lookup in Hi, Hj.
    repeat case_decide; simplify_eq/=; [done | | |].
    + by destruct (Hfresh i s1).
    + by destruct (Hfresh j s2).
    + by eapply (wf_uniq _ Hwf i j s1 s2).
Qed.

Lemma put_to_map :
  state s = kTombstone ∨ size_ m + tombstones_ m < max_load_ m →
  to_map put_map = <[k := v]> (to_map m).
Proof.
  intros Hroom. apply (to_map_ext _ m); [by apply put_wf |]. intros k' v'.
  rewrite lookup_insert_Some, to_map_holds by done. unfold holds; simpl. split.
  - intros (i & s' & Hi & Hf & <- & <-). rewrite put_lookup in Hi. case_decide; simplify_eq/=.
    + by left.
    + right. split; [| by exists i, s']. intros Hk. by destruct (Hfresh i s').
  - intros [[<- <-] | [Hne (i & s' & Hi & Hf & <- & <-)]].
    + exists (posn m k t), {| key := k; value := v; state := kFull |}.
      rewrite put_lookup. by case_decide.
    + exists i, s'. rewrite put_lookup. case_decide; [congruence | done].
Qed.

Lemma put_to_map_fresh : to_map m !! k = None.
Proof. by apply to_map_none. Qed.
End Put.

(** Changing the value of a live slot. *)
Lemma set_value_wf m i s v :
  wf m → (slots_ m).[i] = Some s → state s = kFull →
  let m' := with_slots m ((slots_ m).[i <- set_value s v]) (size_ m) (tombstones_ m) in
  wf m' ∧ to_map m' = <[key s := v]> (to_map m).
Proof.
  intros Hwf Hs Hf m'.
  assert (∀ j, (slots_ m').[j] = if decide (i = j) then Some (set_value s v) else (slots_ m).[j]) as Hl.
  { intros j. apply getZ_setZ. by eapply getZ_Some. }
  assert (wf m') as Hwf'.
  { split; simpl.
    - apply geometry_with_slots; [apply Hwf | apply length_setZ].
    - rewrite (countZ_setZ _ _ _ _ s) by done. unfold is_state at 2 3; simpl.
      rewrite (wf_size _ Hwf). lia.
    - rewrite (countZ_setZ _ _ _ _ s) by done. unfold is_state at 2 3; simpl.
      rewrite (wf_tombs _ Hwf). lia.
    - apply Hwf.
    - intros j s' Hj Hfj. apply reachable_mono; [apply (setZ_nonempty _ _ s); simpl; congruence |].
      change (slots_ m').[j] with (slots_ m').[j] in Hj.
      specialize (Hl j). simpl in Hl. rewrite Hl in Hj. case_decide; simplify_eq/=.
      + by apply (wf_reach _ Hwf).
      + by apply (wf_reach _ Hwf).
    - intros j j' s1 s2 Hj Hj' Hf1 Hf2 Hk.
      pose proof (Hl j) as Hlj. pose proof (Hl j') as Hlj'. simpl in Hlj, Hlj'.
      rewrite Hlj in Hj. rewrite Hlj' in Hj'.
      repeat case_decide; simplify_eq/=; [done | ..]; by eapply (wf_uniq _ Hwf); eauto. }
  split; [done |]. apply (to_map_ext _ m); [done |]. intros k' v'.
  rewrite lookup_insert_Some, to_map_holds by done. unfold holds. setoid_rewrite Hl. split.
  - intros (j & s' & Hj & Hfj & <- & <-). case_decide; simplify_eq/=; [by left |].
    right. split; [| by exists j, s']. intros Hk.
    assert (i = j) by by apply (wf_uniq _ Hwf _ _ s s'). done.
  - intros [[<- <-] | [Hne (j & s' & Hj & Hfj & <- & <-)]].
    + exists i, (set_value s v). by rewrite decide_True.
    + exists j, s'. rewrite decide_False; [done |]. intros ->. congruence.
Qed.

(** Turning a live slot into a tombstone. *)
Lemma kill_wf m i s :
  wf m → (slots_ m).[i] = Some s → state s = kFull →
  let m' := with_slots m ((slots_ m).[i <- set_state s kTombstone])
              (size_ m - 1) (tombstones_ m + 1) in
  wf m' ∧ to_map m' = delete (key s) (to_map m).
Proof.
  intros Hwf Hs Hf m'.
  assert (∀ j, (slots_ m').[j]
    = if decide (i = j) then Some (set_state s kTombstone) else (slots_ m).[j]) as Hl.
  { intros j. apply getZ_setZ. by eapply getZ_Some. }
  assert (wf m') as Hwf'.
  { split; simpl.
    - apply geometry_with_slots; [apply Hwf | apply length_setZ].
    - rewrite (countZ_setZ _ _ _ _ s) by done. unfold is_state at 2 3; simpl.
      rewrite Hf, (wf_size _ Hwf); simpl. lia.
    - rewrite (countZ_setZ _ _ _ _ s) by done. unfold is_state at 2 3; simpl.
      rewrite Hf, (wf_tombs _ Hwf); simpl. lia.
    - pose proof (wf_bound _ Hwf). lia.
    - intros j s' Hj Hfj. apply reachable_mono; [by apply (setZ_nonempty _ _ s) |].
      specialize (Hl j). simpl in Hl. rewrite Hl in Hj. case_decide; simplify_eq/=.
      by apply (wf_reach _ Hwf).
    - intros j j' s1 s2 Hj Hj' Hf1 Hf2 Hk.
      pose proof (Hl j) as Hlj. pose proof (Hl j') as Hlj'. simpl in Hlj, Hlj'.
      rewrite Hlj in Hj. rewrite Hlj' in Hj'.
      repeat case_decide; simplify_eq/=. by apply (wf_uniq _ Hwf _ _ s1 s2). }
  split; [done |]. apply (to_map_ext _ m); [done |]. intros k' v'.
  rewrite lookup_delete_Some, to_map_holds by done. unfold holds. setoid_rewrite Hl. split.
  - intros (j & s' & Hj & Hfj & <- & <-). case_decide; simplify_eq/=.
    split; [| by exists j, s']. intros Hk.
    assert (i = j) by by apply (wf_uniq _ Hwf _ _ s s'). done.
  - intros [Hne (j & s' & Hj & Hfj & <- & <-)].
    exists j, s'. rewrite decide_False; [done |]. intros ->. congruence.
Qed.

(** ** The operations *)

Section Operations.
Lemma cap_nonzero m : wf m → capacity_ m ≠ 0.
Proof. intros Hwf. pose proof (cap_bounds _ (wf_geom _ Hwf)). lia. Qed.

Lemma find_spec m k : wf m → find hash_ m k = Some (to_map m !! k).
Proof.
  intros Hwf. unfold find. rewrite bool_decide_false by by apply cap_nonzero.
  destruct (probe_find_spec m k Hwf) as (j & s & Hj & -> & Hs & Hcase); simpl.
  rewrite Hs; simpl. f_equal. symmetry. destruct Hcase as [[Hf Hk] | [He Hno]].
  - rewrite bool_decide_true by done. apply to_map_holds; [done |].
    by exists (posn m k j), s.
  - rewrite bool_decide_false by congruence. by apply to_map_none.
Qed.

(** What an attempt to insert a key does, for [insert] and [upsert]. *)
Inductive insert_outcome m k v : Prop :=
| already_there j s :
    probe_insert hash_ m k = Some (j, true) → (slots_ m).[j] = Some s →
    state s = kFull → key s = k → insert_outcome m k v
| refused j s :
    probe_insert hash_ m k = Some (j, false) → (slots_ m).[j] = Some s →
    state s = kEmpty → size_ m + tombstones_ m >= max_load_ m →
    to_map m !! k = None → insert_outcome m k v
| stored j s slots tombs :
    probe_insert hash_ m k = Some (j, false) → (slots_ m).[j] = Some s →
    negb (bool_decide (state s = kTombstone)) &&
      bool_decide (size_ m + tombstones_ m >= max_load_ m) = false →
    storeZ (slots_ m) j {| key := k; value := v; state := kFull |} = Some slots →
    tombs = (if bool_decide (state s = kTombstone) then tombstones_ m - 1 else tombstones_ m) →
    to_map m !! k = None →
    wf (with_slots m slots (size_ m + 1) tombs) →
    to_map (with_slots m slots (size_ m + 1) tombs) = <[k := v]> (to_map m) →
    insert_outcome m k v.

Lemma insert_cases m k v : wf m → insert_outcome m k v.
Proof.
  intros Hwf. pose proof (g_len _ (wf_geom _ Hwf)) as Hlen.
  destruct (probe_insert_spec m k Hwf)
    as [(j & s & Hj & Hp & Hs & Hf & Hk) | (t & s & Ht & Hp & Hs & Hnf & Hfresh & Hpre)].
  - by eapply already_there.
  - assert (to_map m !! k = None) as Hnone by by apply to_map_none.
    destruct (negb (bool_decide (state s = kTombstone)) &&
      bool_decide (size_ m + tombstones_ m >= max_load_ m)) eqn:Hb.
    + apply andb_true_iff in Hb as [Hb1%negb_true_iff%bool_decide_eq_false
                                    Hb2%bool_decide_eq_true].
      eapply refused; eauto. destruct (state s); done.
    + assert (state s = kTombstone ∨ size_ m + tombstones_ m < max_load_ m) as Hroom.
      { apply andb_false_iff in Hb as [Hb%negb_false_iff%bool_decide_eq_true
                                      | Hb%bool_decide_eq_false]; [by left | right; lia]. }
      eapply stored; eauto.
      * apply storeZ_Some. by eapply getZ_Some.
      * by apply (put_wf m k v t s).
      * by apply (put_to_map m k v t s).
Qed.

Lemma insert_spec m k v :
  wf m → ∃ m' b, insert hash_ m k v = Some (m', b) ∧ wf m' ∧
    if b : bool then to_map m !! k = None ∧ to_map m' = <[k := v]> (to_map m) else m' = m.
Proof.
  intros Hwf. unfold insert. rewrite bool_decide_false by by apply cap_nonzero.
  destruct (insert_cases m k v Hwf)
    as [j s Hp Hs Hf Hk | j s Hp Hs He Hl Hn | j s sl tb Hp Hs Hb Hst -> Hn Hw Hm];
    rewrite Hp; simpl.
  - by exists m, false.
  - rewrite Hs; simpl. rewrite (bool_decide_false (state s = kTombstone)) by congruence; simpl.
    rewrite bool_decide_true by done. by exists m, false.
  - rewrite Hs; simpl. rewrite Hb, Hst; simpl. by eexists _, true.
Qed.

(** An insertion is refused exactly when the key is there, or when a fresh
    slot would be needed and the occupancy limit is reached. *)
Lemma insert_refused m k v :
  wf m → to_map m !! k = None → insert hash_ m k v = Some (m, false) →
  size_ m + tombstones_ m >= max_load_ m.
Proof.
  intros Hwf Hnone. unfold insert. rewrite bool_decide_false by by apply cap_nonzero.
  destruct (insert_cases m k v Hwf)
    as [j s Hp Hs Hf Hk | j s Hp Hs He Hl Hn | j s sl tb Hp Hs Hb Hst -> Hn Hw Hm];
    rewrite Hp; simpl.
  - exfalso. assert (holds m k (value s)) as Hh by by exists j, s.
    apply to_map_holds in Hh; [congruence | done].
  - done.
  - rewrite Hs; simpl. rewrite Hb, Hst; simpl. intros [=].
Qed.

Lemma insert_accepts m k v :
  wf m → to_map m !! k = None → size_ m + tombstones_ m < max_load_ m →
  ∃ m', insert hash_ m k v = Some (m', true) ∧ wf m' ∧ to_map m' = <[k := v]> (to_map m).
Proof.
  intros Hwf Hn Hroom. destruct (insert_spec m k v Hwf) as (m' & b & Hi & Hwf' & Hb).
  destruct b; [naive_solver |]. subst. apply insert_refused in Hi; [lia | done..].
Qed.

Lemma upsert_spec m k v :
  wf m → ∃ m' r, upsert hash_ m k v = Some (m', r) ∧ wf m' ∧
    match r with
    | kInserted => to_map m !! k = None ∧ to_map m' = <[k := v]> (to_map m)
    | kUpdated => is_Some (to_map m !! k) ∧ to_map m' = <[k := v]> (to_map m)
    | kCapacityFull => to_map m !! k = None ∧ m' = m ∧
                       size_ m + tombstones_ m >= max_load_ m
    end.
Proof.
  intros Hwf. unfold upsert. rewrite bool_decide_false by by apply cap_nonzero.
  destruct (insert_cases m k v Hwf)
    as [j s Hp Hs Hf Hk | j s Hp Hs He Hl Hn | j s sl tb Hp Hs Hb Hst -> Hn Hw Hm];
    rewrite Hp; simpl; rewrite Hs; simpl.
  - rewrite storeZ_Some by by eapply getZ_Some. simpl. eexists _, kUpdated. split; [done |].
    subst k. destruct (set_value_wf m j s v Hwf Hs Hf) as [Hw Hm]. split; [done |].
    split; [| done]. exists (value s). apply to_map_holds; [done |]. by exists j, s.
  - rewrite (bool_decide_false (state s = kTombstone)) by congruence; simpl.
    rewrite bool_decide_true by done. by exists m, kCapacityFull.
  - rewrite Hb, Hst; simpl. by eexists _, kInserted.
Qed.

Lemma erase_spec m k :
  wf m → ∃ m', erase hash_ m k = Some (m', bool_decide (is_Some (to_map m !! k))) ∧ wf m' ∧
    to_map m' = delete k (to_map m).
Proof.
  intros Hwf. unfold erase. rewrite bool_decide_false by by apply cap_nonzero.
  destruct (probe_find_spec m k Hwf) as (j & s & Hj & -> & Hs & Hcase); simpl.
  rewrite Hs; simpl. destruct Hcase as [[Hf Hk] | [He Hno]].
  - rewrite bool_decide_false by naive_solver.
    rewrite storeZ_Some by by eapply getZ_Some. simpl. subst k.
    destruct (kill_wf m _ s Hwf Hs Hf) as [Hw Hm]. eexists. split; [| by split].
    do 2 f_equal. symmetry. apply bool_decide_eq_true. exists (value s).
    apply to_map_holds; [done |]. by eexists _, s.
  - rewrite bool_decide_true by congruence.
    assert (to_map m !! k = None) as Hn by by apply to_map_none.
    exists m. rewrite bool_decide_false by (rewrite Hn; by intros [? ?]).
    split; [done |]. split; [done |]. by rewrite delete_id.
Qed.

(** Occupied slots (live or tombstone) are never given back by [insert]
    or [erase]: only [clear] frees them. *)
Definition occupied m : Z := size_ m + tombstones_ m.

Lemma insert_occupied m k v m' b :
  insert hash_ m k v = Some (m', b) → occupied m <= occupied m'.
Proof.
  unfold insert, occupied. case_bool_decide; [naive_solver lia |].
  destruct (probe_insert hash_ m k) as [[idx []] |]; simpl; [naive_solver lia | | done].
  destruct ((slots_ m).[idx]) as [s |]; simpl; [| done].
  destruct (negb _ && _); [naive_solver lia |].
  destruct (storeZ _ _ _) as [sl |]; simpl; [| done]. intros [= <- <-]; simpl.
  case_bool_decide; lia.
Qed.

Lemma erase_occupied m k m' b : erase hash_ m k = Some (m', b) → occupied m' = occupied m.
Proof.
  unfold erase, occupied. case_bool_decide; [naive_solver lia |].
  destruct (probe_find hash_ m k) as [idx |]; simpl; [| done].
  destruct ((slots_ m).[idx]) as [s |]; simpl; [| done].
  case_bool_decide; [naive_solver lia |].
  destruct (storeZ _ _ _) as [sl |]; simpl; [| done]. intros [= <- <-]; simpl. lia.
Qed.
End Operations.

(** ** Emptying, creating, visiting *)

Lemma empty_slots_wf m :
  geometry m → size_ m = 0 → tombstones_ m = 0 →
  (∀ s, s ∈ slots_ m → state s = kEmpty) → wf m ∧ to_map m = ∅.
Proof.
  intros Hg Hs Ht He. pose proof (cap_bounds _ Hg).
  assert (∀ st, st ≠ kEmpty → countZ (is_state st) (slots_ m) = 0) as Hc.
  { intros st Hst. apply countZ_zero. intros s Hin. unfold is_state.
    apply bool_decide_eq_false. rewrite (He s Hin). congruence. }
  assert (∀ i s, (slots_ m).[i] = Some s → state s = kFull → False) as Hno.
  { intros i s Hi%getZ_to_lookup Hf. rewrite (He s) in Hf; [done |].
    by eapply list_elem_of_lookup_2. }
  assert (wf m) as Hwf.
  { split; [done | | | | |].
    - by rewrite Hc.
    - by rewrite Hc.
    - rewrite (g_load _ Hg), Hs, Ht. Z.div_mod_to_equations; lia.
    - intros i s Hi Hf. by destruct (Hno i s).
    - intros i j s s' Hi _ Hf. by destruct (Hno i s). }
  split; [done |]. apply map_empty. intros k. apply to_map_none; [done |].
  intros i s Hi Hf. by destruct (Hno i s).
Qed.

Lemma clear_spec m : geometry m → wf (clear m) ∧ to_map (clear m) = ∅.
Proof.
  intros Hg. apply empty_slots_wf; [| done | done |].
  - apply geometry_with_slots; [done |]. by rewrite length_fmap.
  - simpl. intros s (s' & -> & _)%list_elem_of_fmap. done.
Qed.

Lemma is_valid_capacity_iff c :
  is_valid_capacity c = true ↔ ∃ e, 2 <= e < 32 ∧ c = 2 ^ e.
Proof.
  unfold is_valid_capacity. rewrite !andb_true_iff, !bool_decide_eq_true. split.
  - intros [[Hlo Hp] Hhi]. rewrite u32_id in Hp by mlia.
    apply is_power_of_two_iff in Hp as (e & He & ->); [| lia].
    exists e. split; [| done]. split.
    + destruct (Z.lt_ge_cases e 2) as [Hlt |]; [| done].
      assert (2 ^ e <= 2 ^ 1) by (apply Z.pow_le_mono_r; lia). lia.
    + destruct (Z.lt_ge_cases e 32) as [| Hge]; [done |].
      assert (2 ^ 32 <= 2 ^ e) by (apply Z.pow_le_mono_r; lia). lia.
  - intros (e & He & ->).
    assert (2 ^ 2 <= 2 ^ e) by (apply Z.pow_le_mono_r; lia).
    assert (2 ^ e < 2 ^ 32) by (apply Z.pow_lt_mono_r; lia).
    repeat split; [lia | | lia]. rewrite u32_id by mlia.
    apply is_power_of_two_iff; [lia |]. exists e. lia.
Qed.

Lemma make_geometry (l : list (Slot K V)) c :
  is_valid_capacity c = true → lenZ l = c → geometry (make l c).
Proof. intros Hc%is_valid_capacity_iff Hl. by split. Qed.

(** [create] succeeds on a valid capacity and a buffer that is there, aligned
    and large enough, and the table it returns is empty whatever the buffer
    held. *)
Lemma create_spec sz al addr content bytes c :
  is_valid_capacity c = true → addr mod al = 0 → 0 < sz → c * sz <= bytes < 2 ^ 64 →
  bytes <= lenZ content * sz →
  ∃ m, create sz al (Some (addr, content)) bytes c = Some m ∧ wf m ∧ to_map m = ∅ ∧
    capacity_ m = c.
Proof.
  intros Hc Ha Hsz Hb Hcont. pose proof (proj1 (is_valid_capacity_iff c) Hc) as (e & He & Hce).
  assert (0 < c) as Hc0 by (rewrite Hce; apply Z.pow_pos_nonneg; lia).
  unfold create. rewrite Hc, bool_decide_true by done; simpl.
  rewrite u64_id by (split; nia). rewrite bool_decide_false by lia.
  set (m := make _ _).
  assert (geometry m) as Hg by (apply make_geometry; [done |]; rewrite length_take; nia).
  destruct (clear_spec m Hg) as [Hw Hm]. by exists (clear m).
Qed.

(** [for_each] calls the callback on every live entry, once, in slot order,
    and changes nothing when the callback leaves the values alone. *)
Lemma for_each_loop_read {A : Type} (f : A → K → V → option A) (l : list (Slot K V)) (a : A) :
  for_each_loop (λ a k v, a' ← f a k v; Some (a', v)) l a
  = a' ← foldl (λ acc kv, a ← acc; f a kv.1 kv.2) (Some a) (entries l); Some (a', l).
Proof.
  revert a. induction l as [| s l IH]; intros a; [done |]. rewrite entries_cons; simpl.
  assert (∀ l, foldl (λ acc (kv : K * V), a ← acc; f a kv.1 kv.2) None l = None) as Hnone.
  { intros l'. induction l'; simpl; done. }
  case_bool_decide; simpl.
  - destruct (f a (key s) (value s)) as [a' |]; simpl; [| by rewrite Hnone].
    rewrite IH. destruct (foldl _ _ _); simpl; [| done]. by destruct s; simplify_eq/=.
  - rewrite IH. destruct (foldl _ _ _); simpl; done.
Qed.

Lemma for_each_read {A : Type} (f : A → K → V → option A) m (a : A) :
  for_each (λ a k v, a' ← f a k v; Some (a', v)) m a
  = a' ← foldl (λ acc kv, a ← acc; f a kv.1 kv.2) (Some a) (entries (slots_ m)); Some (a', m).
Proof.
  unfold for_each. rewrite for_each_loop_read.
  destruct (foldl _ _ _); simpl; [| done]. by destruct m.
Qed.

Lemma length_entries_le (l : list (Slot K V)) : (length (entries l) <= length l)%nat.
Proof. induction l as [| s l IH]; [done |]. rewrite entries_cons. case_bool_decide; simpl; lia. Qed.

Lemma entries_map_to_list m : wf m → entries (slots_ m) ≡ₚ map_to_list (to_map m).
Proof. intros Hwf. unfold to_map. by rewrite map_to_list_to_map by by apply wf_nodup. Qed.

End Spec.

(** ** The interface is met *)

#[export] Instance HashMap_Table {K V : Type} `{EqDecision K} (hash_ : K → Z) : Table K V (HashMap K V) := {
  tbl_find := find hash_;
  tbl_insert := insert hash_;
  tbl_erase := erase hash_;
  tbl_clear := clear;
  tbl_size := size;
}.

Lemma clear_wf {K V} `{Countable K} (hash_ : K → Z) (m : HashMap K V) :
  wf hash_ m → wf hash_ (clear m) ∧ to_map (clear m) = ∅.
Proof. intros Hwf. apply clear_spec, Hwf. Qed.

#[export] Instance HashMap_TableLaws {K V : Type} `{Countable K} (hash_ : K → Z) :
  TableLaws K V (HashMap K V) (TT := HashMap_Table hash_).
Proof.
  refine {| tbl_wf := wf hash_; tbl_map := to_map |}.
  - apply find_spec.
  - apply insert_spec.
  - apply erase_spec.
  - apply clear_wf.
  - apply size_to_map.
Defined.

#[export] Instance HashMap_TableIter {K V : Type} : TableIter K V (HashMap K V) := {
  tbl_for_each A f m a := fst <$> for_each (λ a k v, a' ← f a k v; Some (a', v)) m a;
}.

#[export] Instance HashMap_TableRebuild {K V : Type} : TableRebuild (HashMap K V) := {
  tbl_needs_rebuild := needs_rebuild;
}.

(** The laws for the tables of one capacity, which bounds an iteration. *)
Section Capacity.
Context {K V : Type} `{Countable K} (hash_ : K → Z) (cap : Z).
Implicit Types m : HashMap K V.

Definition wf_at m : Prop := wf hash_ m ∧ capacity_ m = cap.

Lemma insert_capacity m k v m' b : insert hash_ m k v = Some (m', b) → capacity_ m' = capacity_ m.
Proof.
  unfold insert. case_bool_decide; [by intros [= <- _] |].
  destruct (probe_insert hash_ m k) as [[idx []] |]; simpl; [by intros [= <- _] | | done].
  destruct ((slots_ m).[idx]); simpl; [| done]. destruct (negb _ && _); [by intros [= <- _] |].
  destruct (storeZ _ _ _); simpl; [by intros [= <- _] | done].
Qed.

Lemma erase_capacity m k m' b : erase hash_ m k = Some (m', b) → capacity_ m' = capacity_ m.
Proof.
  unfold erase. case_bool_decide; [by intros [= <- _] |].
  destruct (probe_find hash_ m k) as [idx |]; simpl; [| done].
  destruct ((slots_ m).[idx]); simpl; [| done]. case_bool_decide; [by intros [= <- _] |].
  destruct (storeZ _ _ _); simpl; [by intros [= <- _] | done].
Qed.

Definition HashMap_TableLaws_at : TableLaws K V (HashMap K V) (TT := HashMap_Table hash_).
Proof.
  refine {| tbl_wf := wf_at; tbl_map := to_map |}; simpl.
  - intros m k [Hwf _]. by apply find_spec.
  - intros m k v [Hwf Hc]. destruct (insert_spec hash_ m k v Hwf) as (m' & b & Hi & Hwf' & Hb).
    exists m', b. split; [done |]. split; [| done]. split; [done |]. apply insert_capacity in Hi. congruence.
  - intros m k [Hwf Hc]. destruct (erase_spec hash_ m k Hwf) as (m' & Hi & Hwf' & Hb).
    exists m'. split; [done |]. split; [| done]. split; [done |]. apply erase_capacity in Hi. congruence.
  - intros m [Hwf Hc]. destruct (clear_wf hash_ m Hwf). by split; [split |].
  - intros m [Hwf _]. by apply (size_to_map hash_).
Defined.

Definition HashMap_TableIterLaws_at :
  TableIterLaws K V (HashMap K V) (TT := HashMap_Table hash_) (TL := HashMap_TableLaws_at).
Proof.
  refine {| tbl_capacity := cap; tbl_entries m := entries (slots_ m) |}; simpl.
  - intros m [Hwf _]. by apply (entries_map_to_list hash_).
  - intros m [Hwf Hc]. pose proof (g_len _ (wf_geom _ _ Hwf)). pose proof (length_entries_le (slots_ m)). lia.
  - intros A f m a. rewrite for_each_read. unfold foldM. by destruct (foldl _ _ _).
Defined.
End Capacity.

End HMSpec.
