(* ===== verification/FixedHashMap.v ===== *)
(** The compile-time-capacity table: [src/libs/ds/fixed_hash_map.hpp].

    The definitions follow that file; the theorems are the equivalence its
    counterpart claims ("identical to FixedHashMap"): every operation is the
    operation of [HashMap] on the table read through [to_runtime], so all
    of [HashMapSpec.v] carries over, including the interface. *)
From S2P Require Import Prelude.
From S2P Require Import BitUtils.
From S2P Require Import HashUtils.
From S2P Require Import TableInterface.
From S2P Require Import HashMap.
From S2P Require Import HashMapSpec.
Local Open Scope Z_scope.
Local Open Scope array_scope.

Module FHM.
Import HM (Slot, key, value, state, SlotState, kEmpty, kFull, kTombstone,
           UpsertResult, kInserted, kUpdated, kCapacityFull, set_state, set_value).
#[local] Existing Instance HM.SlotState_eq_dec.

Record FixedHashMap (K V : Type) : Type := {
  slots_ : list (Slot K V);
  size_ : Z;
  tombstones_ : Z;
}.
Arguments slots_ {K V}.
Arguments size_ {K V}.
Arguments tombstones_ {K V}.

Section Operations.
  Context {K V : Type} `{!EqDecision K} (hash_ : K → Z) (CapacityPow2 : Z).
  Implicit Types (m : FixedHashMap K V) (k : K) (v : V).

Definition kMask : Z := CapacityPow2 - 1.
Definition kMaxLoad : Z := (CapacityPow2 * 7) / 10.
Definition kTombstoneThreshold : Z := (CapacityPow2 * 2) / 10.

(** The [static_assert]s on the capacity. *)
Definition valid_capacity : bool :=
  bool_decide (CapacityPow2 >= 4) && is_power_of_two (u32 CapacityPow2).

Definition bucket_for k : Z := Z.land (hash_ k) kMask.

Fixpoint probe_find_loop m k (n : nat) (idx : Z) : option Z :=
  match n with
  | O => abort
  | S n' =>
      slot ← (slots_ m).[idx];
      match state slot with
      | kEmpty => Some idx
      | kFull => if bool_decide (key slot = k) then Some idx
                 else probe_find_loop m k n' (Z.land (idx + 1) kMask)
      | kTombstone => probe_find_loop m k n' (Z.land (idx + 1) kMask)
      end
  end.

Definition probe_find m k : option Z :=
  probe_find_loop m k (Z.to_nat CapacityPow2) (bucket_for k).

Fixpoint probe_insert_loop m k (n : nat) (idx first_tombstone : Z) : option (Z * bool) :=
  match n with
  | O => abort
  | S n' =>
      slot ← (slots_ m).[idx];
      let next := Z.land (idx + 1) kMask in
      match state slot with
      | kEmpty =>
          Some (if bool_decide (first_tombstone ≠ CapacityPow2) then first_tombstone else idx, false)
      | kTombstone =>
          probe_insert_loop m k n' next
            (if bool_decide (first_tombstone = CapacityPow2) then idx else first_tombstone)
      | kFull => if bool_decide (key slot = k) then Some (idx, true)
                 else probe_insert_loop m k n' next first_tombstone
      end
  end.

Definition probe_insert m k : option (Z * bool) :=
  probe_insert_loop m k (Z.to_nat CapacityPow2) (bucket_for k) CapacityPow2.

(** Default construction: [slots_] is value-initialised. *)
Definition construct (default_key : K) (default_value : V) : FixedHashMap K V := {|
  slots_ := replicate (Z.to_nat CapacityPow2)
              {| HM.key := default_key; HM.value := default_value; HM.state := kEmpty |};
  size_ := 0;
  tombstones_ := 0;
|}.

Definition size m : Z := size_ m.
Definition empty m : bool := bool_decide (size_ m = 0).
Definition tombstone_count m : Z := tombstones_ m.
Definition needs_rebuild m : bool := bool_decide (tombstones_ m > kTombstoneThreshold).

Definition find m k : option (option V) :=
  idx ← probe_find m k;
  slot ← (slots_ m).[idx];
  Some (if bool_decide (state slot = kFull) then Some (value slot) else None).

Definition insert m k v : option (FixedHashMap K V * bool) :=
  '(idx, found_existing) ← probe_insert m k;
  if found_existing : bool then Some (m, false)
  else
    slot ← (slots_ m).[idx];
    let reusing_tombstone := bool_decide (state slot = kTombstone) in
    if negb reusing_tombstone && bool_decide (size_ m + tombstones_ m >= kMaxLoad)
    then Some (m, false)
    else
      let tombstones := if reusing_tombstone then tombstones_ m - 1 else tombstones_ m in
      slots ← storeZ (slots_ m) idx {| HM.key := k; HM.value := v; HM.state := kFull |};
      Some ({| slots_ := slots; size_ := size_ m + 1; tombstones_ := tombstones |}, true).

Definition upsert m k v : option (FixedHashMap K V * UpsertResult) :=
  '(idx, found_existing) ← probe_insert m k;
  slot ← (slots_ m).[idx];
  if found_existing : bool then
    slots ← storeZ (slots_ m) idx (set_value slot v);
    Some ({| slots_ := slots; size_ := size_ m; tombstones_ := tombstones_ m |}, kUpdated)
  else
    let reusing_tombstone := bool_decide (state slot = kTombstone) in
    if negb reusing_tombstone && bool_decide (size_ m + tombstones_ m >= kMaxLoad)
    then Some (m, kCapacityFull)
    else
      let tombstones := if reusing_tombstone then tombstones_ m - 1 else tombstones_ m in
      slots ← storeZ (slots_ m) idx {| HM.key := k; HM.value := v; HM.state := kFull |};
      Some ({| slots_ := slots; size_ := size_ m + 1; tombstones_ := tombstones |}, kInserted).

Definition erase m k : option (FixedHashMap K V * bool) :=
  idx ← probe_find m k;
  slot ← (slots_ m).[idx];
  if bool_decide (state slot ≠ kFull) then Some (m, false)
  else
    slots ← storeZ (slots_ m) idx (set_state slot kTombstone);
    Some ({| slots_ := slots; size_ := size_ m - 1; tombstones_ := tombstones_ m + 1 |}, true).

Definition clear m : FixedHashMap K V :=
  {| slots_ := (λ s, set_state s kEmpty) <$> slots_ m; size_ := 0; tombstones_ := 0 |}.

Definition for_each {A : Type} (fn : A → K → V → option (A * V)) m (a : A)
    : option (A * FixedHashMap K V) :=
  '(a', slots) ← HM.for_each_loop fn (slots_ m) a;
  Some (a', {| slots_ := slots; size_ := size_ m; tombstones_ := tombstones_ m |}).

(** ** The table as a run-time table *)

Definition to_runtime m : HM.HashMap K V := {|
  HM.slots_ := slots_ m;
  HM.capacity_ := CapacityPow2;
  HM.mask_ := kMask;
  HM.max_load_ := kMaxLoad;
  HM.tombstone_threshold_ := kTombstoneThreshold;
  HM.size_ := size_ m;
  HM.tombstones_ := tombstones_ m;
|}.

Lemma probe_find_refines m k : HM.probe_find hash_ (to_runtime m) k = probe_find m k.
Proof.
  unfold HM.probe_find, probe_find, HM.bucket_for, bucket_for; simpl.
  generalize (Z.to_nat CapacityPow2) (Z.land (hash_ k) kMask).
  induction n as [| n IH]; intros idx; simpl; [done |].
  destruct ((slots_ m).[idx]) as [s |]; simpl; [| done].
  destruct (state s); [done | | done]. by case_bool_decide.
Qed.

Lemma probe_insert_refines m k : HM.probe_insert hash_ (to_runtime m) k = probe_insert m k.
Proof.
  unfold HM.probe_insert, probe_insert, HM.bucket_for, bucket_for; simpl.
  generalize (Z.to_nat CapacityPow2) (Z.land (hash_ k) kMask).
  assert (∀ n idx ft, HM.probe_insert_loop (to_runtime m) k n idx ft
                      = probe_insert_loop m k n idx ft) as Hl; [| by intros].
  induction n as [| n IH]; intros idx ft; simpl; [done |].
  destruct ((slots_ m).[idx]) as [s |]; simpl; [| done].
  destruct (state s); [done | | done]. by case_bool_decide.
Qed.

Section Refinement.
Context (Hcap : valid_capacity = true).

Lemma capacity_nonzero : CapacityPow2 ≠ 0.
Proof.
  unfold valid_capacity in Hcap. apply andb_true_iff in Hcap as [H%bool_decide_eq_true _]. lia.
Qed.

Lemma find_refines m k : HM.find hash_ (to_runtime m) k = find m k.
Proof.
  unfold HM.find, find. rewrite bool_decide_false by apply capacity_nonzero.
  by rewrite probe_find_refines.
Qed.

Lemma insert_refines m k v :
  HM.insert hash_ (to_runtime m) k v = (λ r, (to_runtime r.1, r.2)) <$> insert m k v.
Proof.
  unfold HM.insert, insert. rewrite bool_decide_false by apply capacity_nonzero.
  rewrite probe_insert_refines. destruct (probe_insert m k) as [[idx []] |]; simpl; try done.
  destruct ((slots_ m).[idx]) as [s |]; simpl; [| done].
  case_match; simpl; [done |]. by destruct (storeZ _ _ _).
Qed.

Lemma upsert_refines m k v :
  HM.upsert hash_ (to_runtime m) k v = (λ r, (to_runtime r.1, r.2)) <$> upsert m k v.
Proof.
  unfold HM.upsert, upsert. rewrite bool_decide_false by apply capacity_nonzero.
  rewrite probe_insert_refines. destruct (probe_insert m k) as [[idx b] |]; simpl; [| done].
  destruct ((slots_ m).[idx]) as [s |]; simpl; [| by destruct b].
  destruct b; simpl; [by destruct (storeZ _ _ _) |].
  case_match; simpl; [done |]. by destruct (storeZ _ _ _).
Qed.

Lemma erase_refines m k :
  HM.erase hash_ (to_runtime m) k = (λ r, (to_runtime r.1, r.2)) <$> erase m k.
Proof.
  unfold HM.erase, erase. rewrite bool_decide_false by apply capacity_nonzero.
  rewrite probe_find_refines. destruct (probe_find m k) as [idx |]; simpl; [| done].
  destruct ((slots_ m).[idx]) as [s |]; simpl; [| done].
  case_bool_decide; simpl; [done |]. by destruct (storeZ _ _ _).
Qed.

Lemma clear_refines m : HM.clear (to_runtime m) = to_runtime (clear m).
Proof. done. Qed.

Lemma for_each_refines {A : Type} (fn : A → K → V → option (A * V)) m a :
  HM.for_each fn (to_runtime m) a = (λ r, (r.1, to_runtime r.2)) <$> for_each fn m a.
Proof. unfold HM.for_each, for_each; simpl. by destruct (HM.for_each_loop _ _ _) as [[] |]. Qed.
End Refinement.
End Operations.

(** ** The interface *)

#[export] Instance FixedHashMap_Table {K V : Type} `{EqDecision K} (hash_ : K → Z) (cap : Z) :
  Table K V (FixedHashMap K V) := {
  tbl_find := find hash_ cap;
  tbl_insert := insert hash_ cap;
  tbl_erase := erase hash_ cap;
  tbl_clear := clear;
  tbl_size := size;
}.

Section Laws.
Context {K V : Type} `{Countable K} (hash_ : K → Z) (cap : Z).
Implicit Types (m : FixedHashMap K V).

Definition wf m : Prop := HMSpec.wf hash_ (to_runtime cap m).
Definition to_map m : gmap K V := HMSpec.to_map (to_runtime cap m).

Lemma construct_wf dk dv :
  HM.is_valid_capacity cap = true → wf (construct cap dk dv) ∧ to_map (construct cap dk dv) = ∅.
Proof.
  intros Hc. apply HMSpec.empty_slots_wf; [| done | done |].
  - pose proof (proj1 (HMSpec.is_valid_capacity_iff cap) Hc) as (e & He & Hce).
    assert (0 < 2 ^ e) by (apply Z.pow_pos_nonneg; lia).
    split; simpl; [by exists e | done | | done | done]. rewrite length_replicate. lia.
  - simpl. intros s [-> _]%elem_of_replicate. done.
Qed.
End Laws.

(** A capacity the table's own checks accept. *)
Class ValidCapacity (cap : Z) : Prop := valid_cap : valid_capacity cap = true.

#[export] Instance FixedHashMap_TableLaws {K V : Type} `{Countable K} (hash_ : K → Z) (cap : Z)
    `{!ValidCapacity cap} : TableLaws K V (FixedHashMap K V) (TT := FixedHashMap_Table hash_ cap).
Proof.
  refine {| tbl_wf := wf hash_ cap; tbl_map := to_map cap |}; simpl.
  - intros m k Hwf. rewrite <- find_refines by done. by apply HMSpec.find_spec.
  - intros m k v Hwf. destruct (HMSpec.insert_spec hash_ (to_runtime cap m) k v Hwf)
      as (m' & b & Hi & Hwf' & Hb). rewrite insert_refines in Hi by done.
    apply fmap_Some in Hi as ([m1 b1] & Hi & [= -> ->]). exists m1, b1. split; [done |].
    split; [done |]. destruct b1; [done |]. simpl in Hb. by destruct m, m1; simplify_eq/=.
  - intros m k Hwf. destruct (HMSpec.erase_spec hash_ (to_runtime cap m) k Hwf)
      as (m' & Hi & Hwf' & Hb). rewrite erase_refines in Hi by done.
    apply fmap_Some in Hi as ([m1 b1] & Hi & [= -> <-]). exists m1. done.
  - intros m Hwf. apply (HMSpec.clear_wf hash_ (to_runtime cap m) Hwf).
  - intros m Hwf. apply (HMSpec.size_to_map hash_ (to_runtime cap m) Hwf).
Defined.

(** A table has room below its occupancy limit; tombstones count. *)
#[export] Instance FixedHashMap_TableRoom {K V : Type} `{Countable K} (hash_ : K → Z) (cap : Z) `{!ValidCapacity cap} :
  TableRoom K V (FixedHashMap K V) (TT := FixedHashMap_Table hash_ cap) (TL := FixedHashMap_TableLaws hash_ cap).
Proof.
  refine {| tbl_room := λ m : FixedHashMap K V, HMSpec.occupied (to_runtime cap m) < HM.max_load_ (to_runtime cap m) |}; simpl.
  - intros m k v m' b Hwf Hroom Hk Hi. destruct b; [done |]. exfalso.
    destruct (HMSpec.insert_spec hash_ (to_runtime cap m) k v Hwf) as (m2 & b2 & E & _ & Hb).
    rewrite insert_refines in E by done. rewrite Hi in E. injection E as <- <-. simpl in Hb.
    pose proof (HMSpec.insert_refused hash_ (to_runtime cap m) k v Hwf Hk) as Hr.
    rewrite insert_refines, Hi in Hr by done. simpl in Hr. rewrite Hb in Hr. specialize (Hr eq_refl).
    unfold HMSpec.occupied in Hroom. simpl in *. lia.
  - intros m k m' b Hwf Hroom He. pose proof (erase_refines hash_ cap valid_cap m k) as Hr. rewrite He in Hr.
    apply HMSpec.erase_occupied in Hr. simpl in *. lia.
Defined.

(** [for_each] with a callback that leaves the values alone. *)
#[export] Instance FixedHashMap_TableIter {K V : Type} : TableIter K V (FixedHashMap K V) := {
  tbl_for_each A f m a := fst <$> for_each (λ a k v, a' ← f a k v; Some (a', v)) m a;
}.

Section Iteration.
Context {K V : Type} `{Countable K} (hash_ : K → Z) (cap : Z) `{!ValidCapacity cap}.

Lemma for_each_reads {A : Type} (f : A → K → V → option A) (m : FixedHashMap K V) a :
  for_each (λ a k v, a' ← f a k v; Some (a', v)) m a = (λ a', (a', m)) <$> foldM f a (HMSpec.entries (slots_ m)).
Proof.
  unfold for_each, foldM. rewrite HMSpec.for_each_loop_read.
  destruct (foldl _ _ _); simpl; [| done]. by destruct m.
Qed.

#[export] Instance FixedHashMap_TableIterLaws :
  TableIterLaws K V (FixedHashMap K V) (TT := FixedHashMap_Table hash_ cap)
    (TL := FixedHashMap_TableLaws hash_ cap).
Proof.
  refine {| tbl_capacity := cap; tbl_entries m := HMSpec.entries (slots_ m) |}.
  - intros m Hwf. apply (HMSpec.entries_map_to_list hash_ (to_runtime cap m) Hwf).
  - intros m Hwf. pose proof (HMSpec.g_len _ (HMSpec.wf_geom _ _ Hwf)) as Hl. simpl in *.
    pose proof (HMSpec.length_entries_le (slots_ m)). lia.
  - intros A f m a. simpl. rewrite for_each_reads. by destruct (foldM _ _ _).
Defined.
End Iteration.

End FHM.
