(* ===== verification/IntrusiveListSpec.v ===== *)
(** The intrusive list of [IntrusiveList.v] implements a sequence.

    [is_list h l xs]: following [next] from the sentinel of [l] visits
    exactly [xs] and returns to the sentinel, [prev] runs it backwards, and
    [size_] counts it.  Each operation is the sequence operation, touches
    only the hooks of the list and of the node it moves ([frame]), and fails
    exactly when its assertion does. *)
From S2P Require Import Prelude.
From S2P Require Import IntrusiveList.
Local Open Scope Z_scope.

Module ILSpec.
Import IL.

(** Consecutive nodes of [l1] and [l2] are linked both ways. *)
Definition links (h : Hooks) (l1 l2 : list Z) : Prop :=
  Forall2 (λ a b, next_of h !! a = Some (Some b)) l1 l2 ∧
  Forall2 (λ a b, prev_of h !! b = Some (Some a)) l1 l2.

Record is_list (h : Hooks) (l : IntrusiveList) (xs : list Z) : Prop := {
  il_links : links h (sentinel_ l :: xs) (xs ++ [sentinel_ l]);
  il_nodup : NoDup (sentinel_ l :: xs);
  il_size : size_ l = lenZ xs;
}.

(** A node that belongs to no list. *)
Definition unlinked (h : Hooks) (n : Z) : Prop :=
  prev_of h !! n = Some None ∧ next_of h !! n = Some None.

(** Only the hooks of [touched] may differ. *)
Definition frame (h h' : Hooks) (touched : list Z) : Prop :=
  ∀ p, p ∉ touched → prev_of h' !! p = prev_of h !! p ∧ next_of h' !! p = next_of h !! p.

Definition same_hooks (h h' : Hooks) : Prop :=
  dom (prev_of h') = dom (prev_of h) ∧ dom (next_of h') = dom (next_of h).

(** * Field writes *)

Lemma set_next_Some h p v w :
  next_of h !! p = Some w →
  set_next h p v = Some {| prev_of := prev_of h; next_of := <[p := v]> (next_of h) |}.
Proof. intros Hp. unfold set_next. by rewrite bool_decide_true. Qed.

Lemma set_prev_Some h p v w :
  prev_of h !! p = Some w →
  set_prev h p v = Some {| prev_of := <[p := v]> (prev_of h); next_of := next_of h |}.
Proof. intros Hp. unfold set_prev. by rewrite bool_decide_true. Qed.

Lemma is_linked_unlinked h n : unlinked h n → is_linked h n = Some false.
Proof. intros [_ Hn]. unfold is_linked, get_next. by rewrite Hn. Qed.

Lemma is_linked_linked h n q : next_of h !! n = Some (Some q) → is_linked h n = Some true.
Proof. intros Hn. unfold is_linked, get_next. by rewrite Hn. Qed.

(** * Links under update *)

Lemma links_frame h h' l1 l2 :
  (∀ a, a ∈ l1 → next_of h' !! a = next_of h !! a) →
  (∀ b, b ∈ l2 → prev_of h' !! b = prev_of h !! b) →
  links h l1 l2 → links h' l1 l2.
Proof.
  intros Hn Hp [Ln Lp]. split.
  - eapply Forall2_impl_in, Ln. intros a b Ha _. by rewrite Hn.
  - eapply Forall2_impl_in, Lp. intros a b _ Hb. by rewrite Hp.
Qed.

Lemma links_app h l1 l2 k1 k2 :
  length l1 = length l2 → links h (l1 ++ k1) (l2 ++ k2) ↔ links h l1 l2 ∧ links h k1 k2.
Proof.
  intros Hl. unfold links. split.
  - intros [Hn Hp]. apply Forall2_app_inv in Hn as [? ?]; [| done].
    apply Forall2_app_inv in Hp as [? ?]; [| done]. done.
  - intros [[] []]. split; by apply Forall2_app.
Qed.

Lemma links_cons h a b l1 l2 :
  links h (a :: l1) (b :: l2) ↔
  (next_of h !! a = Some (Some b) ∧ prev_of h !! b = Some (Some a)) ∧ links h l1 l2.
Proof. unfold links. rewrite !Forall2_cons_iff. tauto. Qed.

Lemma links_length h l1 l2 : links h l1 l2 → length l1 = length l2.
Proof. intros [Hn _]. by apply Forall2_length in Hn. Qed.

(** The pointer writes that put [n] between [a] and [b]. *)
Definition spliced_in (h : Hooks) (a n b : Z) : Hooks := {|
  prev_of := <[b := Some n]> (<[n := Some a]> (prev_of h));
  next_of := <[a := Some n]> (<[n := Some b]> (next_of h));
|}.

(** The pointer writes that take [n] out from between [a] and [b]. *)
Definition spliced_out (h : Hooks) (a n b : Z) : Hooks := {|
  prev_of := <[n := None]> (<[b := Some a]> (prev_of h));
  next_of := <[n := None]> (<[a := Some b]> (next_of h));
|}.

Lemma links_splice_in h ys' a zs ys b zs' n :
  length ys' = length ys →
  links h (ys' ++ a :: zs) (ys ++ b :: zs') →
  NoDup (ys' ++ a :: zs) → NoDup (ys ++ b :: zs') →
  n ∉ ys' ++ a :: zs → n ∉ ys ++ b :: zs' →
  links (spliced_in h a n b) (ys' ++ a :: n :: zs) (ys ++ n :: b :: zs').
Proof.
  intros Hlen Hl Hnd1 Hnd2 Hn1 Hn2.
  apply links_app in Hl as [H1 [_ H2]%links_cons]; [| done].
  rewrite elem_of_app, elem_of_cons in Hn1, Hn2.
  apply nodup_app in Hnd1 as (_ & Ha & [Haz _]%nodup_cons).
  apply nodup_app in Hnd2 as (_ & Hb & [Hbz _]%nodup_cons).
  apply links_app; [done |]. rewrite !links_cons. simpl.
  split; [| split; [split | split; [split |]]].
  - eapply links_frame, H1; simpl.
    + intros x Hx. rewrite !lookup_insert_ne; [done | naive_solver | ].
      intros ->. apply (Ha x); [done | left].
    + intros x Hx. rewrite !lookup_insert_ne; [done | naive_solver | ].
      intros ->. apply (Hb x); [done | left].
  - by rewrite lookup_insert_eq.
  - rewrite lookup_insert_ne by naive_solver. by rewrite lookup_insert_eq.
  - rewrite lookup_insert_ne by naive_solver. by rewrite lookup_insert_eq.
  - by rewrite lookup_insert_eq.
  - eapply links_frame, H2; simpl.
    + intros x Hx. rewrite !lookup_insert_ne; naive_solver.
    + intros x Hx. rewrite !lookup_insert_ne; naive_solver.
Qed.

Lemma links_splice_out h ys' a zs ys b zs' n :
  length ys' = length ys →
  links h (ys' ++ a :: n :: zs) (ys ++ n :: b :: zs') →
  NoDup (ys' ++ a :: n :: zs) → NoDup (ys ++ n :: b :: zs') →
  links (spliced_out h a n b) (ys' ++ a :: zs) (ys ++ b :: zs').
Proof.
  intros Hlen Hl Hnd1 Hnd2.
  apply links_app in Hl as [H1 [_ [_ H2]%links_cons]%links_cons]; [| done].
  apply nodup_app in Hnd1 as (_ & Ha & [Haz [Hnz _]%nodup_cons]%nodup_cons).
  apply nodup_app in Hnd2 as (_ & Hb & [Hnz' [Hbz _]%nodup_cons]%nodup_cons).
  rewrite elem_of_cons in Haz, Hnz'.
  apply links_app; [done |]. rewrite !links_cons. simpl. split; [| split; [split |]].
  - eapply links_frame, H1; simpl.
    + intros x Hx. specialize (Ha x Hx). rewrite !elem_of_cons in Ha.
      rewrite !lookup_insert_ne; naive_solver.
    + intros x Hx. specialize (Hb x Hx). rewrite !elem_of_cons in Hb.
      rewrite !lookup_insert_ne; naive_solver.
  - rewrite lookup_insert_ne by naive_solver. by rewrite lookup_insert_eq.
  - rewrite lookup_insert_ne by naive_solver. by rewrite lookup_insert_eq.
  - eapply links_frame, H2; simpl.
    + intros x Hx. rewrite !lookup_insert_ne; naive_solver.
    + intros x Hx. rewrite !lookup_insert_ne; naive_solver.
Qed.

(** * The ring of a list, cut at a point *)

(** Cutting [sentinel :: ys ++ zs] after [ys] names the two neighbours of
    the cut. *)
Lemma ring_cut (s : Z) (ys zs : list Z) :
  ∃ ys' a b zs', s :: ys = ys' ++ [a] ∧ zs ++ [s] = b :: zs' ∧ length ys' = length ys.
Proof.
  destruct (exists_last (l := s :: ys)) as (ys' & a & Ha); [done |].
  destruct (zs ++ [s]) as [| b zs'] eqn:Hz; [by destruct zs |].
  exists ys', a, b, zs'. repeat split; [done..|].
  apply (f_equal length) in Ha. rewrite length_app in Ha. simpl in Ha. lia.
Qed.

Lemma nodup_rotate (s : Z) xs : NoDup (s :: xs) → NoDup (xs ++ [s]).
Proof. intros Hnd. by rewrite Permutation_app_comm. Qed.

Section Ring.
Context (h : Hooks) (l : IntrusiveList).

Lemma node_next xs n : is_list h l xs → n ∈ sentinel_ l :: xs → ∃ q, next_of h !! n = Some (Some q).
Proof.
  intros [[Hn _] _ _] Hin. apply list_elem_of_lookup in Hin as [i Hi].
  destruct (Forall2_lookup_l _ _ _ _ _ Hn Hi) as (q & _ & Hq). by exists q.
Qed.

Lemma node_prev xs n : is_list h l xs → n ∈ sentinel_ l :: xs → ∃ q, prev_of h !! n = Some (Some q).
Proof.
  intros [[_ Hp] _ _] Hin.
  assert (n ∈ xs ++ [sentinel_ l]) as Hin'.
  { rewrite elem_of_app, list_elem_of_singleton. apply elem_of_cons in Hin. tauto. }
  apply list_elem_of_lookup in Hin' as [i Hi].
  destruct (Forall2_lookup_r _ _ _ _ _ Hp Hi) as (q & _ & Hq). by exists q.
Qed.

Lemma unlinked_not_in xs n : is_list h l xs → unlinked h n → n ∉ sentinel_ l :: xs.
Proof. intros Hl [_ Hn] Hin. destruct (node_next _ _ Hl Hin) as [q Hq]. congruence. Qed.

(** Splicing a fresh node in at a cut, and out again. *)
Lemma ring_splice_in ys zs ys' a b zs' n :
  is_list h l (ys ++ zs) → unlinked h n →
  sentinel_ l :: ys = ys' ++ [a] → zs ++ [sentinel_ l] = b :: zs' → length ys' = length ys →
  is_list (spliced_in h a n b) (resize l (size_ l + 1)) (ys ++ n :: zs).
Proof.
  intros Hl Hun Ha Hb Hlen. pose proof (unlinked_not_in _ _ Hl Hun) as Hni.
  destruct Hl as [Hl Hnd Hsz].
  assert (sentinel_ l :: ys ++ zs = ys' ++ a :: zs) as E1.
  { rewrite app_comm_cons, Ha, <- app_assoc. done. }
  assert ((ys ++ zs) ++ [sentinel_ l] = ys ++ b :: zs') as E2.
  { rewrite <- app_assoc, Hb. done. }
  pose proof (nodup_rotate _ _ Hnd) as Hnd'.
  assert (n ∉ (ys ++ zs) ++ [sentinel_ l]) as Hni'.
  { rewrite elem_of_app, list_elem_of_singleton. rewrite elem_of_cons in Hni. tauto. }
  split; simpl.
  - replace (sentinel_ l :: ys ++ n :: zs) with (ys' ++ a :: n :: zs)
      by by rewrite app_comm_cons, Ha, <- app_assoc.
    replace ((ys ++ n :: zs) ++ [sentinel_ l]) with (ys ++ n :: b :: zs')
      by by rewrite <- app_assoc; simpl; rewrite Hb.
    apply links_splice_in; congruence.
  - rewrite elem_of_cons, elem_of_app in Hni. apply nodup_cons in Hnd as [Hs Hnd].
    rewrite <- Permutation_middle. rewrite elem_of_app in Hs.
    apply nodup_cons. rewrite elem_of_cons, elem_of_app.
    split; [naive_solver |]. apply nodup_cons. rewrite elem_of_app. naive_solver.
  - rewrite Hsz, !length_app. simpl. lia.
Qed.

Lemma ring_splice_out ys zs ys' a b zs' n :
  is_list h l (ys ++ n :: zs) →
  sentinel_ l :: ys = ys' ++ [a] → zs ++ [sentinel_ l] = b :: zs' → length ys' = length ys →
  is_list (spliced_out h a n b) (resize l (size_ l - 1)) (ys ++ zs) ∧
  unlinked (spliced_out h a n b) n ∧ a ≠ n ∧ b ≠ n ∧
  next_of h !! a = Some (Some n) ∧ prev_of h !! n = Some (Some a) ∧
  next_of h !! n = Some (Some b) ∧ prev_of h !! b = Some (Some n).
Proof.
  intros [Hl Hnd Hsz] Ha Hb Hlen. pose proof (nodup_rotate _ _ Hnd) as Hnd'.
  assert (sentinel_ l :: ys ++ n :: zs = ys' ++ a :: n :: zs) as E1.
  { rewrite app_comm_cons, Ha, <- app_assoc. done. }
  assert ((ys ++ n :: zs) ++ [sentinel_ l] = ys ++ n :: b :: zs') as E2.
  { rewrite <- app_assoc. simpl. rewrite Hb. done. }
  rewrite E1, E2 in Hl. rewrite E1 in Hnd. rewrite E2 in Hnd'.
  pose proof (links_splice_out _ _ _ _ _ _ _ _ Hlen Hl Hnd Hnd') as Hout.
  apply links_app in Hl as [_ [[Han Hna] [[Hnb Hbn] _]%links_cons]%links_cons]; [| done].
  assert (sentinel_ l :: ys ++ zs = ys' ++ a :: zs) as E3.
  { rewrite app_comm_cons, Ha, <- app_assoc. done. }
  assert (NoDup (ys' ++ a :: zs)) as Hnd2.
  { apply (sublist_NoDup _ (ys' ++ a :: n :: zs)); [done |].
    apply sublist_app; [done |]. by apply sublist_skip, sublist_cons. }
  apply nodup_app in Hnd as (_ & _ & [Hann _]%nodup_cons).
  apply nodup_app in Hnd' as (_ & _ & [Hnnb _]%nodup_cons).
  rewrite elem_of_cons in Hann, Hnnb.
  assert (a ≠ n) by naive_solver. assert (b ≠ n) by naive_solver.
  split; [split; simpl |].
  - by rewrite E3, <- app_assoc, Hb.
  - by rewrite E3.
  - rewrite Hsz, !length_app. simpl. lia.
  - split; [| done]. split; simpl; by rewrite lookup_insert_eq.
Qed.
End Ring.

(** * The operations implement the sequence *)

Section Operations.
Context (h : Hooks) (l : IntrusiveList).

(** [link_before pos node] with [pos = b] splices between [pos]'s
    predecessor [a] and [pos]. *)
Lemma link_before_spliced a b n :
  unlinked h n → a ≠ n → b ≠ n →
  next_of h !! a = Some (Some b) → prev_of h !! b = Some (Some a) →
  link_before h b n = Some (spliced_in h a n b).
Proof.
  intros [Hnp Hnn] Hane Hbne Hab Hba. unfold link_before.
  rewrite (set_next_Some _ _ _ _ Hnn); simpl. unfold get_prev; simpl. rewrite Hba; simpl.
  rewrite (set_prev_Some _ n _ None) by done; simpl.
  rewrite lookup_insert_ne, Hba by done; simpl.
  rewrite (set_next_Some _ a _ (Some b)) by (simpl; by rewrite lookup_insert_ne); simpl.
  rewrite (set_prev_Some _ b _ (Some a)) by (simpl; by rewrite lookup_insert_ne). done.
Qed.

Lemma link_after_spliced a b n :
  unlinked h n → a ≠ n → b ≠ n →
  next_of h !! a = Some (Some b) → prev_of h !! b = Some (Some a) →
  link_after h a n = Some (spliced_in h a n b).
Proof.
  intros [Hnp Hnn] Hane Hbne Hab Hba. unfold link_after.
  rewrite (set_prev_Some _ _ _ _ Hnp); simpl. unfold get_next; simpl. rewrite Hab; simpl.
  rewrite (set_next_Some _ n _ None) by done; simpl.
  rewrite lookup_insert_ne, Hab by done; simpl.
  rewrite (set_prev_Some _ b _ (Some a)) by (simpl; by rewrite lookup_insert_ne); simpl.
  rewrite (set_next_Some _ a _ (Some b)) by (simpl; by rewrite lookup_insert_ne). done.
Qed.

Lemma unlink_spliced a b n :
  a ≠ n → b ≠ n →
  next_of h !! a = Some (Some n) → prev_of h !! n = Some (Some a) →
  next_of h !! n = Some (Some b) → prev_of h !! b = Some (Some n) →
  unlink h n = Some (spliced_out h a n b).
Proof.
  intros Ha Hb Han Hna Hnb Hbn. unfold unlink, get_prev, get_next. rewrite Hna, Hnb; simpl.
  rewrite (set_next_Some _ _ _ _ Han); simpl. rewrite lookup_insert_ne, Hnb by done; simpl.
  rewrite Hna; simpl. rewrite (set_prev_Some _ b _ (Some n)) by done; simpl.
  rewrite (set_prev_Some _ n _ (Some a)) by (simpl; by rewrite lookup_insert_ne); simpl.
  rewrite (set_next_Some _ n _ (Some b)) by (simpl; by rewrite lookup_insert_ne). done.
Qed.

(** The two neighbours of a cut, and that they are linked. *)
Lemma cut_neighbours ys zs :
  is_list h l (ys ++ zs) →
  ∃ ys' a b zs', sentinel_ l :: ys = ys' ++ [a] ∧ zs ++ [sentinel_ l] = b :: zs' ∧
    length ys' = length ys ∧ a ∈ sentinel_ l :: ys ++ zs ∧ b ∈ sentinel_ l :: ys ++ zs ∧
    next_of h !! a = Some (Some b) ∧ prev_of h !! b = Some (Some a).
Proof.
  intros [Hl Hnd Hsz]. destruct (ring_cut (sentinel_ l) ys zs) as (ys' & a & b & zs' & Ha & Hb & Hlen).
  exists ys', a, b, zs'. split; [done |]. split; [done |]. split; [done |].
  assert (sentinel_ l :: ys ++ zs = ys' ++ a :: zs) as E1.
  { rewrite app_comm_cons, Ha, <- app_assoc. done. }
  assert ((ys ++ zs) ++ [sentinel_ l] = ys ++ b :: zs') as E2.
  { rewrite <- app_assoc, Hb. done. }
  rewrite E1, E2 in Hl. apply links_app in Hl as [_ [[Hab Hba] _]%links_cons]; [| done].
  split; [rewrite E1; set_solver |]. split; [| done].
  assert (b ∈ (ys ++ zs) ++ [sentinel_ l]) as Hin by (rewrite E2; set_solver). set_solver.
Qed.

Lemma insert_before_spec ys pos zs n :
  is_list h l (ys ++ pos :: zs) → unlinked h n →
  ∃ h' l', insert_before h l pos n = Some (h', l') ∧ is_list h' l' (ys ++ n :: pos :: zs) ∧
    sentinel_ l' = sentinel_ l ∧ frame h h' (n :: sentinel_ l :: ys ++ pos :: zs).
Proof.
  intros Hl Hun. pose proof (unlinked_not_in _ _ _ _ Hl Hun) as Hni.
  destruct (cut_neighbours ys (pos :: zs) Hl) as (ys' & a & b & zs' & Ha & Hb & Hlen & Hai & Hbi & Hab & Hba).
  simpl in Hb. injection Hb as <- Hb'.
  assert (a ≠ n) by set_solver. assert (pos ≠ n) by set_solver.
  unfold insert_before.
  destruct (node_next h l _ pos Hl) as [q Hq]; [set_solver |].
  rewrite (is_linked_linked h pos q) by done; simpl. rewrite is_linked_unlinked by done; simpl.
  rewrite (link_before_spliced a pos n) by done; simpl.
  eexists _, _. split; [done |]. split; [| split; [done |]].
  - eapply (ring_splice_in h l ys (pos :: zs)); eauto.
  - intros p Hp. simpl. rewrite !lookup_insert_ne by set_solver. done.
Qed.

Lemma push_back_spec xs n :
  is_list h l xs → unlinked h n →
  ∃ h' l', push_back h l n = Some (h', l') ∧ is_list h' l' (xs ++ [n]) ∧
    sentinel_ l' = sentinel_ l ∧ frame h h' (n :: sentinel_ l :: xs).
Proof.
  intros Hl Hun. pose proof (unlinked_not_in _ _ _ _ Hl Hun) as Hni.
  rewrite <- (app_nil_r xs) in Hl.
  destruct (cut_neighbours xs [] Hl) as (ys' & a & b & zs' & Ha & Hb & Hlen & Hai & Hbi & Hab & Hba).
  injection Hb as <- Hb'. rewrite app_nil_r in Hai, Hbi.
  assert (a ≠ n) by set_solver. assert (sentinel_ l ≠ n) by set_solver.
  unfold push_back. rewrite is_linked_unlinked by done; simpl.
  rewrite (link_before_spliced a (sentinel_ l) n) by done; simpl.
  eexists _, _. split; [done |]. split; [| split; [done |]].
  - eapply (ring_splice_in h l xs []); eauto.
  - intros p Hp. simpl. rewrite !lookup_insert_ne by set_solver. done.
Qed.

Lemma push_front_spec xs n :
  is_list h l xs → unlinked h n →
  ∃ h' l', push_front h l n = Some (h', l') ∧ is_list h' l' (n :: xs) ∧
    sentinel_ l' = sentinel_ l ∧ frame h h' (n :: sentinel_ l :: xs).
Proof.
  intros Hl Hun. pose proof (unlinked_not_in _ _ _ _ Hl Hun) as Hni.
  destruct (cut_neighbours [] xs Hl) as (ys' & a & b & zs' & Ha & Hb & Hlen & Hai & Hbi & Hab & Hba).
  destruct ys'; [| done]. injection Ha as <-. simpl in Hai, Hbi.
  assert (sentinel_ l ≠ n) by set_solver. assert (b ≠ n) by set_solver.
  unfold push_front. rewrite is_linked_unlinked by done; simpl.
  rewrite (link_after_spliced (sentinel_ l) b n) by done; simpl.
  eexists _, _. split; [done |]. split; [| split; [done |]].
  - by eapply (ring_splice_in h l [] xs []).
  - intros p Hp. simpl. rewrite !lookup_insert_ne by set_solver. done.
Qed.

Lemma list_erase_spec ys n zs :
  is_list h l (ys ++ n :: zs) →
  ∃ h' l', erase h l n = Some (h', l') ∧ is_list h' l' (ys ++ zs) ∧ unlinked h' n ∧
    sentinel_ l' = sentinel_ l ∧ frame h h' (sentinel_ l :: ys ++ n :: zs).
Proof.
  intros Hl. destruct (ring_cut (sentinel_ l) ys zs) as (ys' & a & b & zs' & Ha & Hb & Hlen).
  destruct (ring_splice_out h l ys zs ys' a b zs' n Hl Ha Hb Hlen)
    as (Hl' & Hun & Hane & Hbne & Han & Hna & Hnb & Hbn).
  unfold erase. rewrite (is_linked_linked _ _ b) by done; simpl.
  rewrite (unlink_spliced a b n) by done; simpl.
  rewrite is_linked_unlinked by done; simpl.
  eexists _, _. split; [done |]. split; [done |]. split; [done |]. split; [done |].
  assert (a ∈ sentinel_ l :: ys) by (rewrite Ha; set_solver).
  assert (b ∈ zs ++ [sentinel_ l]) by (rewrite Hb; set_solver).
  intros p Hp. simpl. rewrite !lookup_insert_ne by set_solver. done.
Qed.

Lemma front_spec x xs : is_list h l (x :: xs) → front h l = Some x.
Proof.
  intros [Hl Hnd Hsz]. unfold front, empty. simpl in Hsz.
  rewrite bool_decide_false by lia; simpl.
  simpl in Hl. apply links_cons in Hl as [[Hn _] _]. unfold get_next. by rewrite Hn.
Qed.

Lemma back_spec x xs : is_list h l (xs ++ [x]) → back h l = Some x.
Proof.
  intros [Hl Hnd Hsz]. unfold back, empty. rewrite length_app in Hsz; simpl in Hsz.
  rewrite bool_decide_false by lia; simpl.
  rewrite app_comm_cons in Hl. apply links_app in Hl as [_ [[_ Hp] _]%links_cons].
  - unfold get_prev. by rewrite Hp.
  - rewrite length_app. simpl. lia.
Qed.

Lemma pop_front_spec x xs :
  is_list h l (x :: xs) →
  ∃ h' l', pop_front h l = Some (h', l', x) ∧ is_list h' l' xs ∧ unlinked h' x ∧
    sentinel_ l' = sentinel_ l ∧ frame h h' (sentinel_ l :: x :: xs).
Proof.
  intros Hl. destruct (list_erase_spec [] x xs Hl) as (h' & l' & He & Hl' & Hun & Hs & Hf).
  exists h', l'. split; [| done]. unfold pop_front. rewrite (front_spec x xs) by done.
  unfold empty. destruct Hl as [_ _ Hsz]. rewrite bool_decide_false by (simpl in Hsz; lia); simpl.
  unfold erase in He. inv_bind He. inv_bind K. inv_bind K0. inv_bind K. inv_bind K0.
  rewrite E1; simpl. by simplify_eq.
Qed.

Lemma pop_back_spec x xs :
  is_list h l (xs ++ [x]) →
  ∃ h' l', pop_back h l = Some (h', l', x) ∧ is_list h' l' xs ∧ unlinked h' x ∧
    sentinel_ l' = sentinel_ l ∧ frame h h' (sentinel_ l :: xs ++ [x]).
Proof.
  intros Hl. destruct (list_erase_spec xs x [] Hl) as (h' & l' & He & Hl' & Hun & Hs & Hf).
  rewrite app_nil_r in Hl'.
  exists h', l'. split; [| done]. unfold pop_back. rewrite (back_spec x xs) by done.
  unfold empty. destruct Hl as [_ _ Hsz]. rewrite length_app in Hsz.
  rewrite bool_decide_false by (simpl in Hsz; lia); simpl.
  unfold erase in He. inv_bind He. inv_bind K. inv_bind K0. inv_bind K. inv_bind K0.
  rewrite E1; simpl. by simplify_eq.
Qed.

(** Popping from an empty list trips the assertion. *)
Lemma pop_front_empty : is_list h l [] → pop_front h l = None.
Proof. intros [_ _ Hsz]. unfold pop_front, empty. by rewrite Hsz. Qed.

(** Inserting a node that is already in the list trips the assertion. *)
Lemma push_back_linked xs n : is_list h l xs → n ∈ xs → push_back h l n = None.
Proof.
  intros Hl Hin. destruct (node_next h l xs n Hl) as [q Hq]; [by right |].
  unfold push_back. by rewrite (is_linked_linked _ _ q).
Qed.
End Operations.

(** Iterating from [begin()] to [end()] visits exactly the sequence. *)
Lemma iterate_spec h l fuel cur xs s' :
  links h (cur :: xs) (xs ++ [sentinel_ l]) → sentinel_ l ∉ cur :: xs → (length xs < fuel)%nat →
  s' = sentinel_ l → iterate fuel h s' cur = Some (cur :: xs).
Proof.
  revert cur fuel. induction xs as [| x xs IH]; intros cur fuel Hl Hs Hf ->;
    destruct fuel as [| fuel]; simpl in *; try lia.
  - rewrite bool_decide_false by set_solver. apply links_cons in Hl as [[Hn _] _].
    unfold get_next. rewrite Hn; simpl. destruct fuel; simpl; by rewrite bool_decide_true.
  - rewrite bool_decide_false by set_solver. apply links_cons in Hl as [[Hn _] Hl].
    unfold get_next. rewrite Hn; simpl. rewrite (IH x fuel); [done | done | set_solver | lia | done].
Qed.

Lemma to_list_spec h l xs :
  is_list h l xs → to_list (Z.to_nat (size_ l)) h l = Some xs.
Proof.
  intros [Hl Hnd Hsz]. unfold to_list. rewrite Hsz, Nat2Z.id. destruct xs as [| x xs]; simpl in Hl.
  - apply links_cons in Hl as [[Hn _] _]. unfold get_next. rewrite Hn; simpl.
    by rewrite bool_decide_true.
  - apply links_cons in Hl as [[Hn _] Hl]. unfold get_next. rewrite Hn; simpl.
    apply nodup_cons in Hnd as [Hs Hnd].
    exact (iterate_spec h l (length (x :: xs)) x xs _ Hl Hs ltac:(simpl; lia) eq_refl).
Qed.

(** * clear *)

(** The next-pointers of [xs], the last one to the sentinel. *)
Definition next_run (h : Hooks) (xs : list Z) (s : Z) : Prop :=
  Forall2 (λ a b, next_of h !! a = Some (Some b)) xs (tail (xs ++ [s])).

Lemma next_run_cons h x xs s :
  next_run h (x :: xs) s → next_of h !! x = Some (Some (hd s xs)) ∧ next_run h xs s.
Proof.
  unfold next_run. simpl. destruct xs as [| y xs]; simpl.
  - intros [Hn _]%Forall2_cons_iff. split; [done | constructor].
  - intros [Hn Hr]%Forall2_cons_iff. done.
Qed.

Lemma clear_loop_spec h s fuel xs cleared :
  next_run h xs s → (∀ x, x ∈ xs → is_Some (prev_of h !! x)) →
  NoDup (s :: xs) → (length xs ≤ fuel)%nat →
  ∃ h', clear_loop fuel h s (hd s xs) cleared = Some (h', cleared + lenZ xs) ∧
    (∀ x, x ∈ xs → unlinked h' x) ∧ frame h h' xs.
Proof.
  revert h fuel cleared. induction xs as [| x xs IH]; intros h fuel cleared Hl Hp Hnd Hf.
  - exists h. simpl. split; [| split; [by intros ? ?%elem_of_nil | by intros]].
    destruct fuel; simpl; rewrite bool_decide_true by done; by rewrite Z.add_0_r.
  - destruct fuel as [| fuel]; simpl in Hf; [lia |].
    apply nodup_cons in Hnd as [Hs [Hx Hnd]%nodup_cons]. simpl.
    rewrite bool_decide_false by set_solver.
    apply next_run_cons in Hl as [Hn Hl].
    destruct (Hp x) as [px Hpx]; [by left |].
    unfold get_next. rewrite Hn; simpl. rewrite (set_prev_Some _ _ _ _ Hpx); simpl.
    rewrite (set_next_Some _ x _ (Some (hd s xs))) by done; simpl.
    set (h1 := {| prev_of := _; next_of := _ |}).
    assert (frame h h1 [x]) as Hf1.
    { intros p Hpx'. simpl. rewrite !lookup_insert_ne by set_solver. done. }
    destruct (IH h1 fuel (cleared + 1)) as (h' & Hc & Hun & Hfr).
    + unfold next_run in *. eapply Forall2_impl_in; [| exact Hl].
      intros a b Ha _ Hab. destruct (Hf1 a) as [_ ->]; [| done].
      rewrite list_elem_of_singleton. by intros ->.
    + intros y Hy. destruct (Hf1 y) as [-> _]; [| by apply Hp; right].
      rewrite list_elem_of_singleton. by intros ->.
    + apply nodup_cons. split; [set_solver | done].
    + lia.
    + exists h'. rewrite Hc. split; [f_equal; f_equal; simpl; lia |]. split.
      * intros y [-> | Hy]%elem_of_cons; [| by apply Hun].
        destruct (Hfr x Hx) as [E1 E2]. split; rewrite ?E1, ?E2; simpl; by rewrite lookup_insert_eq.
      * intros p Hpp. destruct (Hfr p) as [-> ->]; [set_solver |]. apply Hf1. set_solver.
Qed.

Lemma init_sentinel_spec h l n :
  is_Some (prev_of h !! sentinel_ l) → is_Some (next_of h !! sentinel_ l) → size_ l = n →
  ∃ h', init_sentinel h l = Some h' ∧ is_list h' (resize l 0) [] ∧ frame h h' [sentinel_ l].
Proof.
  intros [p Hp] [q Hq] _. unfold init_sentinel. rewrite (set_prev_Some _ _ _ _ Hp); simpl.
  rewrite (set_next_Some _ _ _ q) by done. eexists. split; [done |]. split.
  - split; simpl; [| apply NoDup_singleton | done]. apply links_cons. simpl.
    rewrite !lookup_insert_eq. split; [done |]. split; constructor.
  - intros x Hx. simpl. rewrite !lookup_insert_ne by set_solver. done.
Qed.

Lemma is_list_next_run h l xs :
  is_list h l xs → next_of h !! sentinel_ l = Some (Some (hd (sentinel_ l) xs)) ∧
    next_run h xs (sentinel_ l).
Proof.
  intros [[Hn _] _ _]. apply (next_run_cons h (sentinel_ l) xs (sentinel_ l)). done.
Qed.

(** [clear] unlinks every node and leaves the empty list; its loop runs
    [size_] times. *)
Lemma list_clear_spec h l xs :
  is_list h l xs →
  ∃ h' l', clear (Z.to_nat (size_ l)) h l = Some (h', l') ∧ is_list h' l' [] ∧
    (∀ x, x ∈ xs → unlinked h' x) ∧ sentinel_ l' = sentinel_ l ∧
    frame h h' (sentinel_ l :: xs).
Proof.
  intros Hl. pose proof (is_list_next_run h l xs Hl) as [Hn Hr].
  pose proof Hl as [_ Hnd Hsz]. unfold clear, get_next. rewrite Hn; simpl.
  destruct (clear_loop_spec h (sentinel_ l) (Z.to_nat (size_ l)) xs 0) as (h1 & Hc & Hun & Hf1);
    [done | | done | lia |].
  { intros x Hx. destruct (node_prev h l xs x Hl) as [q Hq]; [by right | by exists (Some q)]. }
  rewrite Hc; simpl. rewrite bool_decide_true by lia; simpl.
  apply nodup_cons in Hnd as [Hs Hnd]. destruct (Hf1 (sentinel_ l) Hs) as [Ep En].
  destruct (node_prev h l xs (sentinel_ l) Hl) as [q Hq]; [by left |].
  destruct (init_sentinel_spec h1 l (size_ l)) as (h2 & Hi & Hl2 & Hf2);
    [rewrite Ep, Hq; by eexists | rewrite En, Hn; by eexists | done |].
  rewrite Hi; simpl. exists h2, (resize l 0). split; [done |]. split; [done |].
  split; [| split; [done |]].
  - intros x Hx. destruct (Hf2 x) as [E1 E2]; [set_solver |].
    destruct (Hun x Hx) as [H1 H2]. split; congruence.
  - intros p Hp. destruct (Hf2 p) as [-> ->]; [set_solver |]. apply Hf1. set_solver.
Qed.

End ILSpec.
