(* ===== verification/ContainerTheorems.v ===== *)
(** The properties of the building blocks: bit arithmetic, hashing, the free
    list of slots, the intrusive list and the two hash tables. *)
From S2P Require Import Prelude.
From S2P Require Import BitUtils.
From S2P Require Import HashUtils.
From S2P Require Import IndexFreeStack.
From S2P Require Import HashMap.
From S2P Require Import HashMapSpec.
From S2P Require Import FixedHashMap.
From S2P Require Import IntrusiveList.
From S2P Require Import IntrusiveListSpec.
Local Open Scope Z_scope.

(** * The hash table *)

(** C39. The probing table is a finite map with a refusal: on every table
    that satisfies the invariant, no operation aborts or leaves its slots;
    [find] is lookup; [insert] adds a fresh key or changes nothing, and is
    refused on a fresh key only at the occupancy limit; [upsert] adds,
    overwrites or reports the limit; [erase] deletes and tells whether the
    key was there, and gives no occupied slot back; [size] counts. *)
Theorem hash_map_correct {K V : Type} `{Countable K} (hash_ : K → Z) (m : HM.HashMap K V) k v :
  HMSpec.wf hash_ m →
  HM.find hash_ m k = Some (HMSpec.to_map m !! k) ∧
  (∃ m' b, HM.insert hash_ m k v = Some (m', b) ∧ HMSpec.wf hash_ m' ∧
     if b : bool then HMSpec.to_map m !! k = None ∧ HMSpec.to_map m' = <[k := v]> (HMSpec.to_map m)
     else m' = m ∧ (is_Some (HMSpec.to_map m !! k) ∨ HM.size_ m + HM.tombstones_ m >= HM.max_load_ m)) ∧
  (∃ m' r, HM.upsert hash_ m k v = Some (m', r) ∧ HMSpec.wf hash_ m' ∧
     match r with
     | HM.kInserted => HMSpec.to_map m !! k = None ∧ HMSpec.to_map m' = <[k := v]> (HMSpec.to_map m)
     | HM.kUpdated => is_Some (HMSpec.to_map m !! k) ∧ HMSpec.to_map m' = <[k := v]> (HMSpec.to_map m)
     | HM.kCapacityFull => HMSpec.to_map m !! k = None ∧ m' = m ∧
                           HM.size_ m + HM.tombstones_ m >= HM.max_load_ m
     end) ∧
  (∃ m', HM.erase hash_ m k = Some (m', bool_decide (is_Some (HMSpec.to_map m !! k))) ∧
     HMSpec.wf hash_ m' ∧ HMSpec.to_map m' = delete k (HMSpec.to_map m) ∧
     HMSpec.occupied m' = HMSpec.occupied m) ∧
  HM.size m = Z.of_nat (size (HMSpec.to_map m)).
Proof.
  intros Hwf. split; [by apply HMSpec.find_spec |].
  destruct (HMSpec.insert_spec hash_ m k v Hwf) as (m1 & b & E1 & W1 & P1).
  destruct (HMSpec.erase_spec hash_ m k Hwf) as (m3 & E3 & W3 & P3).
  split; [| split; [by apply HMSpec.upsert_spec | split]].
  - exists m1, b. split; [done |]. split; [done |]. destruct b; [done |]. split; [done |].
    subst m1. destruct (HMSpec.to_map m !! k) eqn:Hk; [by left; eexists | right].
    by apply (HMSpec.insert_refused hash_ m k v).
  - exists m3. by pose proof (HMSpec.erase_occupied _ _ _ _ _ E3).
  - by apply (HMSpec.size_to_map hash_).
Qed.

(** A table of eight slots over a buffer of garbage, with one key. *)
Definition small_table : HM.HashMap Z Z :=
  default HM.null_map (HM.create 24 8 (Some (4096, replicate 8 {| HM.key := 5; HM.value := 99; HM.state := HM.kFull |})) 192 8).
Definition one_key : HM.HashMap Z Z := default HM.null_map (fst <$> HM.insert DefaultHash small_table 5 50).

Lemma one_key_wf : HMSpec.wf DefaultHash one_key.
Proof.
  destruct (HMSpec.create_spec (K := Z) (V := Z) DefaultHash 24 8 4096
    (replicate 8 {| HM.key := 5; HM.value := 99; HM.state := HM.kFull |}) 192 8)
    as (m & Em & Hw & _ & _); [by vm_compute | done | lia | lia | by vm_compute |].
  assert (small_table = m) as Hm by (unfold small_table; by rewrite Em).
  destruct (HMSpec.insert_spec DefaultHash m 5 50 Hw) as (m1 & b & E1 & W1 & _).
  unfold one_key. rewrite Hm, E1. done.
Qed.

Lemma hash_map_correct_witness :
  HM.find DefaultHash one_key 5 = Some (HMSpec.to_map one_key !! 5) ∧
  (∃ m' b, HM.insert DefaultHash one_key 5 51 = Some (m', b) ∧ HMSpec.wf DefaultHash m' ∧
     if b : bool then HMSpec.to_map one_key !! 5 = None ∧ HMSpec.to_map m' = <[5 := 51]> (HMSpec.to_map one_key)
     else m' = one_key ∧ (is_Some (HMSpec.to_map one_key !! 5) ∨
                          HM.size_ one_key + HM.tombstones_ one_key >= HM.max_load_ one_key)) ∧
  (∃ m' r, HM.upsert DefaultHash one_key 5 51 = Some (m', r) ∧ HMSpec.wf DefaultHash m' ∧
     match r with
     | HM.kInserted => HMSpec.to_map one_key !! 5 = None ∧ HMSpec.to_map m' = <[5 := 51]> (HMSpec.to_map one_key)
     | HM.kUpdated => is_Some (HMSpec.to_map one_key !! 5) ∧ HMSpec.to_map m' = <[5 := 51]> (HMSpec.to_map one_key)
     | HM.kCapacityFull => HMSpec.to_map one_key !! 5 = None ∧ m' = one_key ∧
                           HM.size_ one_key + HM.tombstones_ one_key >= HM.max_load_ one_key
     end) ∧
  (∃ m', HM.erase DefaultHash one_key 5 = Some (m', bool_decide (is_Some (HMSpec.to_map one_key !! 5))) ∧
     HMSpec.wf DefaultHash m' ∧ HMSpec.to_map m' = delete 5 (HMSpec.to_map one_key) ∧
     HMSpec.occupied m' = HMSpec.occupied one_key) ∧
  HM.size one_key = Z.of_nat (size (HMSpec.to_map one_key)).
Proof. apply (hash_map_correct DefaultHash one_key 5 51), one_key_wf. Defined.

Example upsert_example : snd <$> HM.upsert DefaultHash one_key 5 51 = Some HM.kUpdated.
Proof. vm_compute. reflexivity. Qed.

(** The fixed-capacity table is the run-time table of its capacity: on
    every state and input the two give the same result and the same slots,
    for lookup, insertion, upsert, erasure, clearing and iteration. *)
Theorem fixed_hash_map_equivalent {K V A : Type} `{Countable K} (hash_ : K → Z) (cap : Z)
    (m : FHM.FixedHashMap K V) k v (fn : A → K → V → option (A * V)) a :
  FHM.valid_capacity cap = true →
  HM.find hash_ (FHM.to_runtime cap m) k = FHM.find hash_ cap m k ∧
  HM.insert hash_ (FHM.to_runtime cap m) k v =
    (λ r, (FHM.to_runtime cap r.1, r.2)) <$> FHM.insert hash_ cap m k v ∧
  HM.upsert hash_ (FHM.to_runtime cap m) k v =
    (λ r, (FHM.to_runtime cap r.1, r.2)) <$> FHM.upsert hash_ cap m k v ∧
  HM.erase hash_ (FHM.to_runtime cap m) k =
    (λ r, (FHM.to_runtime cap r.1, r.2)) <$> FHM.erase hash_ cap m k ∧
  HM.clear (FHM.to_runtime cap m) = FHM.to_runtime cap (FHM.clear m) ∧
  HM.for_each fn (FHM.to_runtime cap m) a =
    (λ r, (r.1, FHM.to_runtime cap r.2)) <$> FHM.for_each fn m a.
Proof.
  intros Hc. split; [by apply FHM.find_refines |]. split; [by apply FHM.insert_refines |].
  split; [by apply FHM.upsert_refines |]. split; [by apply FHM.erase_refines |].
  split; [apply FHM.clear_refines | apply FHM.for_each_refines].
Qed.

Definition fixed_table : FHM.FixedHashMap Z Z := FHM.construct 16 0 0.
Definition count_entries (n k v : Z) : option (Z * Z) := Some (n + 1, v).

Lemma fixed_hash_map_equivalent_witness :
  HM.find DefaultHash (FHM.to_runtime 16 fixed_table) 3 = FHM.find DefaultHash 16 fixed_table 3 ∧
  HM.insert DefaultHash (FHM.to_runtime 16 fixed_table) 3 4 =
    (λ r, (FHM.to_runtime 16 r.1, r.2)) <$> FHM.insert DefaultHash 16 fixed_table 3 4 ∧
  HM.upsert DefaultHash (FHM.to_runtime 16 fixed_table) 3 4 =
    (λ r, (FHM.to_runtime 16 r.1, r.2)) <$> FHM.upsert DefaultHash 16 fixed_table 3 4 ∧
  HM.erase DefaultHash (FHM.to_runtime 16 fixed_table) 3 =
    (λ r, (FHM.to_runtime 16 r.1, r.2)) <$> FHM.erase DefaultHash 16 fixed_table 3 ∧
  HM.clear (FHM.to_runtime 16 fixed_table) = FHM.to_runtime 16 (FHM.clear fixed_table) ∧
  HM.for_each count_entries (FHM.to_runtime 16 fixed_table) 0 =
    (λ r, (r.1, FHM.to_runtime 16 r.2)) <$> FHM.for_each count_entries fixed_table 0.
Proof. apply (fixed_hash_map_equivalent DefaultHash 16 fixed_table 3 4 count_entries 0). reflexivity. Defined.

(** * The free list of slots *)

(** The free list hands every index out at most once: on a well-formed
    stack [pop] never fails and takes the most recently freed index, or
    reports exhaustion exactly when none is free; [push] gives an index
    back, and in the debug build aborts when the index is already free.
    The fixed-capacity stack does exactly the same. *)
Theorem index_free_stack_correct (ndebug : bool) (s : IFS.IndexFreeStack) idx :
  IFS.stack_wf ndebug s → 0 <= idx < IFS.capacity_ s →
  match IFS.free_list s with
  | [] => IFS.pop ndebug s = Some (s, None)
  | top :: rest => ∃ s', IFS.pop ndebug s = Some (s', Some top) ∧ IFS.stack_wf ndebug s' ∧
      IFS.free_list s' = rest ∧ top ∉ rest ∧ 0 <= top < IFS.capacity_ s
  end ∧
  (idx ∉ IFS.free_list s → ∃ s', IFS.push ndebug s idx = Some s' ∧ IFS.stack_wf ndebug s' ∧
     IFS.free_list s' = idx :: IFS.free_list s) ∧
  (idx ∈ IFS.free_list s → ndebug = false → IFS.push ndebug s idx = None) ∧
  (∀ f, FixedIFS.to_runtime (IFS.capacity_ s) f = s →
     IFS.pop ndebug s = (λ r, (FixedIFS.to_runtime (IFS.capacity_ s) r.1, r.2)) <$> FixedIFS.pop ndebug f ∧
     IFS.push ndebug s idx =
       FixedIFS.to_runtime (IFS.capacity_ s) <$> FixedIFS.push ndebug (IFS.capacity_ s) f idx).
Proof.
  intros Hwf Hi. split; [| split; [| split]].
  - pose proof (IFS.pop_spec ndebug s Hwf) as Hp. pose proof (IFS.wf_nodup _ _ Hwf) as Hnd.
    pose proof (IFS.wf_range _ _ Hwf) as Hr.
    destruct (IFS.free_list s) as [| top rest]; [done |]. destruct Hp as (s' & E & W & F & _).
    apply nodup_cons in Hnd as [Hni _]. exists s'. split; [done |]. repeat (split; [done |]).
    apply Hr. left.
  - intros Hni. destruct (IFS.push_spec ndebug s idx Hwf Hi Hni) as (s' & E & W & F & _). by exists s'.
  - intros Hin Hd. by apply IFS.push_double_free.
  - intros f <-. split; [apply FixedIFS.pop_refines | apply FixedIFS.push_refines].
Qed.

Definition free_of_four : IFS.IndexFreeStack := IFS.init_storage false 4.

Lemma index_free_stack_correct_witness :
  match IFS.free_list free_of_four with
  | [] => IFS.pop false free_of_four = Some (free_of_four, None)
  | top :: rest => ∃ s', IFS.pop false free_of_four = Some (s', Some top) ∧ IFS.stack_wf false s' ∧
      IFS.free_list s' = rest ∧ top ∉ rest ∧ 0 <= top < IFS.capacity_ free_of_four
  end ∧
  (2 ∉ IFS.free_list free_of_four → ∃ s', IFS.push false free_of_four 2 = Some s' ∧ IFS.stack_wf false s' ∧
     IFS.free_list s' = 2 :: IFS.free_list free_of_four) ∧
  (2 ∈ IFS.free_list free_of_four → false = false → IFS.push false free_of_four 2 = None) ∧
  (∀ f, FixedIFS.to_runtime (IFS.capacity_ free_of_four) f = free_of_four →
     IFS.pop false free_of_four =
       (λ r, (FixedIFS.to_runtime (IFS.capacity_ free_of_four) r.1, r.2)) <$> FixedIFS.pop false f ∧
     IFS.push false free_of_four 2 =
       FixedIFS.to_runtime (IFS.capacity_ free_of_four)
         <$> FixedIFS.push false (IFS.capacity_ free_of_four) f 2).
Proof.
  apply (index_free_stack_correct false free_of_four 2); [apply IFS.init_storage_wf; lia | simpl; lia].
Defined.

(** * The intrusive list *)

(** The circular list with a sentinel implements a sequence: pushing at
    either end, inserting before a node and erasing a node are the sequence
    operations, write only the hooks of the list and of the node moved,
    leave an erased node unlinked, and iteration reads the sequence back; a
    node that is already in the list trips the assertion of [push_back]. *)
Theorem intrusive_list_correct (h : IL.Hooks) (l : IL.IntrusiveList) ys pos zs n :
  ILSpec.is_list h l (ys ++ pos :: zs) → ILSpec.unlinked h n →
  (∃ h' l', IL.push_back h l n = Some (h', l') ∧ ILSpec.is_list h' l' ((ys ++ pos :: zs) ++ [n]) ∧
     ILSpec.frame h h' (n :: IL.sentinel_ l :: ys ++ pos :: zs)) ∧
  (∃ h' l', IL.push_front h l n = Some (h', l') ∧ ILSpec.is_list h' l' (n :: ys ++ pos :: zs) ∧
     ILSpec.frame h h' (n :: IL.sentinel_ l :: ys ++ pos :: zs)) ∧
  (∃ h' l', IL.insert_before h l pos n = Some (h', l') ∧ ILSpec.is_list h' l' (ys ++ n :: pos :: zs) ∧
     ILSpec.frame h h' (n :: IL.sentinel_ l :: ys ++ pos :: zs)) ∧
  (∃ h' l', IL.erase h l pos = Some (h', l') ∧ ILSpec.is_list h' l' (ys ++ zs) ∧
     ILSpec.unlinked h' pos ∧ ILSpec.frame h h' (IL.sentinel_ l :: ys ++ pos :: zs)) ∧
  IL.to_list (Z.to_nat (IL.size_ l)) h l = Some (ys ++ pos :: zs) ∧
  IL.push_back h l pos = None.
Proof.
  intros Hl Hn.
  destruct (ILSpec.push_back_spec h l _ n Hl Hn) as (h1 & l1 & E1 & L1 & _ & F1).
  destruct (ILSpec.push_front_spec h l _ n Hl Hn) as (h2 & l2 & E2 & L2 & _ & F2).
  destruct (ILSpec.insert_before_spec h l ys pos zs n Hl Hn) as (h3 & l3 & E3 & L3 & _ & F3).
  destruct (ILSpec.list_erase_spec h l ys pos zs Hl) as (h4 & l4 & E4 & L4 & U4 & _ & F4).
  split; [by exists h1, l1 |]. split; [by exists h2, l2 |]. split; [by exists h3, l3 |].
  split; [by exists h4, l4 |]. split; [by apply ILSpec.to_list_spec |].
  apply (ILSpec.push_back_linked h l _ pos Hl). set_solver.
Qed.

(** A list of nodes 1 and 2 with sentinel 0; node 3 is unlinked. *)
Definition two_nodes : IL.Hooks := {|
  IL.prev_of := {[0 := Some 2; 1 := Some 0; 2 := Some 1; 3 := None]};
  IL.next_of := {[0 := Some 1; 1 := Some 2; 2 := Some 0; 3 := None]};
|}.
Definition two_list : IL.IntrusiveList := {| IL.sentinel_ := 0; IL.size_ := 2 |}.

Lemma two_list_is_list : ILSpec.is_list two_nodes two_list [1; 2].
Proof.
  split; simpl; [| | done].
  - by split; repeat constructor.
  - repeat (constructor; [set_solver |]). constructor.
Qed.

Lemma intrusive_list_correct_witness :
  (∃ h' l', IL.push_back two_nodes two_list 3 = Some (h', l') ∧ ILSpec.is_list h' l' [1; 2; 3] ∧
     ILSpec.frame two_nodes h' [3; 0; 1; 2]) ∧
  (∃ h' l', IL.push_front two_nodes two_list 3 = Some (h', l') ∧ ILSpec.is_list h' l' [3; 1; 2] ∧
     ILSpec.frame two_nodes h' [3; 0; 1; 2]) ∧
  (∃ h' l', IL.insert_before two_nodes two_list 2 3 = Some (h', l') ∧ ILSpec.is_list h' l' [1; 3; 2] ∧
     ILSpec.frame two_nodes h' [3; 0; 1; 2]) ∧
  (∃ h' l', IL.erase two_nodes two_list 2 = Some (h', l') ∧ ILSpec.is_list h' l' [1] ∧
     ILSpec.unlinked h' 2 ∧ ILSpec.frame two_nodes h' [0; 1; 2]) ∧
  IL.to_list (Z.to_nat (IL.size_ two_list)) two_nodes two_list = Some [1; 2] ∧
  IL.push_back two_nodes two_list 2 = None.
Proof. apply (intrusive_list_correct two_nodes two_list [1] 2 [] 3); [apply two_list_is_list | done]. Defined.

(** * Arithmetic *)

(** [align_up] is the least multiple of the alignment not below the
    value, and [round_up_pow2] the least power of two not below its operand;
    the latter is defined up to 2^31 and undefined (a shift by the width)
    above. *)
Theorem rounding_correct v e n :
  0 <= v → 0 <= e <= 63 → v + 2 ^ e - 1 < 2 ^ 64 → 0 <= n < 2 ^ 32 →
  v <= align_up v (2 ^ e) < v + 2 ^ e ∧ align_up v (2 ^ e) mod 2 ^ e = 0 ∧
  (∀ m, v <= m → m mod 2 ^ e = 0 → align_up v (2 ^ e) <= m) ∧
  (n <= 2 ^ 31 → ∃ k, 0 <= k <= 31 ∧ round_up_pow2 n = Some (2 ^ k) ∧ n <= 2 ^ k ∧
     ∀ k', 0 <= k' → n <= 2 ^ k' → 2 ^ k <= 2 ^ k') ∧
  (2 ^ 31 < n → round_up_pow2 n = None).
Proof.
  intros Hv He Hb Hn. destruct (align_up_spec v e Hv He Hb) as (H1 & H2 & H3).
  do 3 (split; [done |]). split.
  - intros Hle. apply round_up_pow2_spec. lia.
  - intros Hlt. apply round_up_pow2_undefined. lia.
Qed.

Lemma rounding_correct_witness :
  13 <= align_up 13 (2 ^ 3) < 13 + 2 ^ 3 ∧ align_up 13 (2 ^ 3) mod 2 ^ 3 = 0 ∧
  (∀ m, 13 <= m → m mod 2 ^ 3 = 0 → align_up 13 (2 ^ 3) <= m) ∧
  (5 <= 2 ^ 31 → ∃ k, 0 <= k <= 31 ∧ round_up_pow2 5 = Some (2 ^ k) ∧ 5 <= 2 ^ k ∧
     ∀ k', 0 <= k' → 5 <= 2 ^ k' → 2 ^ k <= 2 ^ k') ∧
  (2 ^ 31 < 5 → round_up_pow2 5 = None).
Proof. apply (rounding_correct 13 3 5); lia. Defined.

(** The hash of the tables mixes without loss: [mix64] is injective on
    64-bit words, so two integral keys collide only through the capacity
    mask; and the generator of the tests and benchmarks, seeded with any
    64-bit word, stays for ever on non-zero 64-bit words. *)
Theorem hashing_lossless x y seed s0 (n : nat) :
  is_u64 x → is_u64 y → is_u64 seed → xorshift64_seed seed = Some s0 →
  (mix64 x = mix64 y → x = y) ∧ is_u64 (mix64 x) ∧
  is_u64 (Nat.iter n xorshift64_next s0) ∧ Nat.iter n xorshift64_next s0 ≠ 0.
Proof.
  intros Hx Hy Hs Hs0. split; [by apply mix64_injective |]. split; [by apply mix64_range |].
  by apply (xorshift64_never_zero seed).
Qed.

Lemma hashing_lossless_witness :
  (mix64 1 = mix64 2 → 1 = 2) ∧ is_u64 (mix64 1) ∧
  is_u64 (Nat.iter 10 xorshift64_next 7) ∧ Nat.iter 10 xorshift64_next 7 ≠ 0.
Proof. apply (hashing_lossless 1 2 7 7 10); [by split | by split | by split | reflexivity]. Defined.
