(* ===== verification/TimingWheel.v ===== *)
(** The timing wheel: [src/libs/ds/timing_wheel.hpp] (run-time dimensions in
    a caller's buffer).

    A node is an index into the pool; the links of a bucket are indices, with
    [kNullIdx] for "none".  A callback is a value of a type [CB] (a function
    pointer) with an integer context (a [void*]); [call] is what running it
    does: it may re-enter the wheel and act on an outside world [W].  Pool
    operations fail as in [IndexFreeStack.v]; an access outside the pool or
    the bucket array is a failure. *)
From S2P Require Import Prelude.
From S2P Require Import BitUtils.
From S2P Require Import IndexFreeStack.
Local Open Scope Z_scope.
Local Open Scope array_scope.

Module TW.

Definition kNullIdx : Z := 2 ^ 32 - 1.
Definition kInvalidHandle : Z := 0.

Record TimerNode (CB : Type) : Type := {
  next : Z;
  cb : option CB;
  ctx : Z;
  gen : Z;
  prev : Z;
  slot : Z;
}.
Arguments next {CB}.
Arguments cb {CB}.
Arguments ctx {CB}.
Arguments gen {CB}.
Arguments prev {CB}.
Arguments slot {CB}.

Record TimingWheel (CB : Type) : Type := {
  bucket_heads_ : list Z;
  nodes_ : list (TimerNode CB);
  free_list_ : IFS.IndexFreeStack;
  wheel_size_ : Z;
  wheel_mask_ : Z;
  max_timers_ : Z;
  current_tick_ : Z;
  active_count_ : Z;
  in_tick_walk_ : bool;
}.
Arguments bucket_heads_ {CB}.
Arguments nodes_ {CB}.
Arguments free_list_ {CB}.
Arguments wheel_size_ {CB}.
Arguments wheel_mask_ {CB}.
Arguments max_timers_ {CB}.
Arguments current_tick_ {CB}.
Arguments active_count_ {CB}.
Arguments in_tick_walk_ {CB}.

(** * Dimensions and construction *)

Definition is_valid_wheel_size (ws : Z) : bool :=
  bool_decide (ws >= 2) && bool_decide (ws <= 2 ^ 32 - 1) && is_power_of_two ws.

Definition is_valid_max_timers (mt : Z) : bool :=
  bool_decide (mt >= 1) && bool_decide (mt <= 2 ^ 32 - 1) && is_power_of_two mt.

(** [sizeof] and [alignof] of [TimerNode] on the 64-bit target. *)
Definition sizeof_node : Z := 40.
Definition alignof_node : Z := 8.

Definition nodes_offset (ws : Z) : Z := align_up (u64 (ws * 4)) alignof_node.
Definition free_list_offset (ws mt : Z) : Z := u64 (nodes_offset ws + u64 (mt * sizeof_node)).

Definition round_up_capacity (n : Z) : option Z :=
  if bool_decide (n = 0) then Some 0
  else if bool_decide (n <= 2) then Some 2
  else if bool_decide (n > 2 ^ 32 - 1) then Some 0
  else round_up_pow2 (u32 n).

Definition pack_handle (idx gen : Z) : Z := Z.lor (u64 (Z.shiftl gen 32)) idx.
Definition unpack_handle (h : Z) : Z * Z := (u32 (Z.land h 0xFFFFFFFF), u32 (Z.shiftr h 32)).

Section Wheel.
Context (ndebug : bool) {CB : Type}.
Implicit Types (w : TimingWheel CB) (n : TimerNode CB).

Definition required_buffer_size (ws mt : Z) : Z :=
  u64 (free_list_offset ws mt + IFS.required_buffer_size ndebug mt).

(** [partition_buffer]: the buffer of the free list, by address and size. *)
Definition partition_buffer (buf : option Z) (buf_bytes ws mt : Z) : option (Z * Z) :=
  match buf with
  | None => None
  | Some addr =>
      if negb (bool_decide (addr mod alignof_node = 0)) then None
      else if bool_decide (buf_bytes < required_buffer_size ws mt) then None
      else Some (addr + free_list_offset ws mt, IFS.required_buffer_size ndebug mt)
  end.

Definition fresh_node : TimerNode CB :=
  {| next := kNullIdx; cb := None; ctx := 0; gen := 1; prev := kNullIdx; slot := 0 |}.

(** [init_nodes] overwrites every bucket head and node of the buffer. *)
Definition init_nodes (fl : IFS.IndexFreeStack) (ws mt : Z) : TimingWheel CB :=
  {| bucket_heads_ := replicate (Z.to_nat ws) kNullIdx;
     nodes_ := replicate (Z.to_nat mt) fresh_node;
     free_list_ := fl; wheel_size_ := ws; wheel_mask_ := ws - 1; max_timers_ := mt;
     current_tick_ := 0; active_count_ := 0; in_tick_walk_ := false |}.

(** The factory: [std::nullopt] is [None]; the constructor aborts instead. *)
Definition create (buf : option Z) (buf_bytes ws mt : Z) : option (TimingWheel CB) :=
  if negb (is_valid_wheel_size ws) || negb (is_valid_max_timers mt) then None
  else
    '(free_buf, free_buf_bytes) ← partition_buffer buf buf_bytes ws mt;
    free_list ← IFS.create ndebug (Some free_buf) free_buf_bytes mt;
    Some (init_nodes free_list (u32 ws) (u32 mt)).

Definition construct (buf : option Z) (buf_bytes ws mt : Z) : option (TimingWheel CB) :=
  if negb (is_valid_wheel_size ws) || negb (is_valid_max_timers mt) then abort
  else
    match partition_buffer buf buf_bytes ws mt with
    | None => abort
    | Some (free_buf, free_buf_bytes) =>
        free_list ← IFS.create ndebug (Some free_buf) free_buf_bytes mt;
        Some (init_nodes free_list (u32 ws) (u32 mt))
    end.

(** * Field updates *)

Definition set_next n v : TimerNode CB :=
  {| next := v; cb := cb n; ctx := ctx n; gen := gen n; prev := prev n; slot := slot n |}.
Definition set_prev n v : TimerNode CB :=
  {| next := next n; cb := cb n; ctx := ctx n; gen := gen n; prev := v; slot := slot n |}.
Definition set_payload n c x : TimerNode CB :=
  {| next := next n; cb := c; ctx := x; gen := gen n; prev := prev n; slot := slot n |}.
Definition set_gen n g : TimerNode CB :=
  {| next := next n; cb := cb n; ctx := ctx n; gen := g; prev := prev n; slot := slot n |}.
Definition set_slot n s : TimerNode CB :=
  {| next := next n; cb := cb n; ctx := ctx n; gen := gen n; prev := prev n; slot := s |}.

Definition with_chain w heads nodes : TimingWheel CB :=
  {| bucket_heads_ := heads; nodes_ := nodes; free_list_ := free_list_ w;
     wheel_size_ := wheel_size_ w; wheel_mask_ := wheel_mask_ w; max_timers_ := max_timers_ w;
     current_tick_ := current_tick_ w; active_count_ := active_count_ w;
     in_tick_walk_ := in_tick_walk_ w |}.
Definition with_nodes w nodes : TimingWheel CB := with_chain w (bucket_heads_ w) nodes.
Definition with_free w fl : TimingWheel CB :=
  {| bucket_heads_ := bucket_heads_ w; nodes_ := nodes_ w; free_list_ := fl;
     wheel_size_ := wheel_size_ w; wheel_mask_ := wheel_mask_ w; max_timers_ := max_timers_ w;
     current_tick_ := current_tick_ w; active_count_ := active_count_ w;
     in_tick_walk_ := in_tick_walk_ w |}.
Definition with_counts w tick active walking : TimingWheel CB :=
  {| bucket_heads_ := bucket_heads_ w; nodes_ := nodes_ w; free_list_ := free_list_ w;
     wheel_size_ := wheel_size_ w; wheel_mask_ := wheel_mask_ w; max_timers_ := max_timers_ w;
     current_tick_ := tick; active_count_ := active; in_tick_walk_ := walking |}.

(** A write through a reference to [nodes_[idx]]. *)
Definition update (nodes : list (TimerNode CB)) (idx : Z) (f : TimerNode CB → TimerNode CB)
    : option (list (TimerNode CB)) :=
  n ← nodes.[idx]; storeZ nodes idx (f n).

Definition is_armed n : bool := bool_decide (is_Some (cb n)).

(** * Bucket chains *)

Definition push_front w (slot idx : Z) : option (TimingWheel CB) :=
  nodes ← update (nodes_ w) idx (λ n, set_prev n kNullIdx);
  old_head ← (bucket_heads_ w).[slot];
  nodes ← update nodes idx (λ n, set_next n old_head);
  nodes ← (if bool_decide (old_head = kNullIdx) then Some nodes
           else update nodes old_head (λ n, set_prev n idx));
  heads ← storeZ (bucket_heads_ w) slot idx;
  Some (with_chain w heads nodes).

Definition unlink w (idx : Z) : option (TimingWheel CB) :=
  node ← (nodes_ w).[idx];
  '(heads, nodes) ←
    (if bool_decide (prev node = kNullIdx)
     then heads ← storeZ (bucket_heads_ w) (slot node) (next node); Some (heads, nodes_ w)
     else nodes ← update (nodes_ w) (prev node) (λ n, set_next n (next node));
          Some (bucket_heads_ w, nodes));
  node ← nodes.[idx];
  nodes ← (if bool_decide (next node = kNullIdx) then Some nodes
           else update nodes (next node) (λ n, set_prev n (prev node)));
  nodes ← update nodes idx (λ n, set_prev n kNullIdx);
  nodes ← update nodes idx (λ n, set_next n kNullIdx);
  Some (with_chain w heads nodes).

Definition next_gen (g : Z) : Z :=
  let g := u32 (g + 1) in if bool_decide (g = 0) then 1 else g.

Definition free_node w (idx : Z) : option (TimingWheel CB) :=
  nodes ← update (nodes_ w) idx (λ n, set_gen n (next_gen (gen n)));
  nodes ← update nodes idx (λ n, set_payload n None 0);
  fl ← IFS.push ndebug (free_list_ w) idx;
  Some (with_free (with_nodes w nodes) fl).

(** * The operations *)

Definition schedule w (c : option CB) (x delay : Z) : option (TimingWheel CB * Z) :=
  if bool_decide (delay = 0) || bool_decide (delay >= wheel_size_ w) || bool_decide (c = None)
  then abort
  else
    '(fl, popped) ← IFS.pop ndebug (free_list_ w);
    match popped with
    | None => Some (with_free w fl, kInvalidHandle)
    | Some idx =>
        let w := with_free w fl in
        nodes ← update (nodes_ w) idx (λ n, set_payload n c x);
        let slot := u32 (Z.land (u64 (current_tick_ w + delay)) (wheel_mask_ w)) in
        nodes ← update nodes idx (λ n, set_slot n slot);
        w ← push_front (with_nodes w nodes) slot idx;
        let w := with_counts w (current_tick_ w) (u32 (active_count_ w + 1)) (in_tick_walk_ w) in
        node ← (nodes_ w).[idx];
        Some (w, pack_handle idx (gen node))
    end.

Definition cancel w (h : Z) : option (TimingWheel CB * bool) :=
  if bool_decide (h = kInvalidHandle) then Some (w, false)
  else
    let '(idx, g) := unpack_handle h in
    if bool_decide (idx >= max_timers_ w) then Some (w, false)
    else
      node ← (nodes_ w).[idx];
      if negb (bool_decide (gen node = g)) then Some (w, false)
      else if negb (is_armed node) then Some (w, false)
      else
        w ← (if in_tick_walk_ w
             then nodes ← update (nodes_ w) idx (λ n, set_payload n None 0); Some (with_nodes w nodes)
             else w ← unlink w idx; free_node w idx);
        Some (with_counts w (current_tick_ w) (u32 (active_count_ w - 1)) (in_tick_walk_ w), true).

Definition reset_links w (idx : Z) : option (TimingWheel CB) :=
  nodes ← update (nodes_ w) idx (λ n, set_prev n kNullIdx);
  nodes ← update nodes idx (λ n, set_next n kNullIdx);
  Some (with_nodes w nodes).

Section Tick.
Context {W : Type} (call : CB → Z → TimingWheel CB → W → option (TimingWheel CB * W)).

(** The walk of the detached chain; [fuel] bounds its length. *)
Fixpoint walk (fuel : nat) w (world : W) (head fired : Z) : option (TimingWheel CB * W * Z) :=
  if bool_decide (head = kNullIdx) then Some (w, world, fired)
  else
    match fuel with
    | O => None
    | S fuel =>
        let cur_idx := head in
        cur ← (nodes_ w).[cur_idx];
        let head := next cur in
        match cb cur with
        | None =>
            w ← reset_links w cur_idx;
            w ← free_node w cur_idx;
            walk fuel w world head fired
        | Some c =>
            w ← reset_links w cur_idx;
            nodes ← update (nodes_ w) cur_idx (λ n, set_payload n None 0);
            let saved_gen := gen cur in
            '(w, world) ← call c (ctx cur) (with_nodes w nodes) world;
            cur ← (nodes_ w).[cur_idx];
            w ← (if bool_decide (gen cur = saved_gen) then free_node w cur_idx else Some w);
            walk fuel w world head (u32 (fired + 1))
        end
    end.

Definition tick w (world : W) : option (TimingWheel CB * W * Z) :=
  let tick := u64 (current_tick_ w + 1) in
  let slot := Z.land tick (wheel_mask_ w) in
  head_idx ← (bucket_heads_ w).[slot];
  heads ← storeZ (bucket_heads_ w) slot kNullIdx;
  let w := with_counts (with_chain w heads (nodes_ w)) tick (active_count_ w) true in
  '(w, world, fired) ← walk (Z.to_nat (max_timers_ w)) w world head_idx 0;
  Some (with_counts w (current_tick_ w) (u32 (active_count_ w - fired)) false, world, fired).
End Tick.

Fixpoint free_chain (fuel : nat) w (idx freed : Z) : option (TimingWheel CB * Z) :=
  if bool_decide (idx = kNullIdx) then Some (w, freed)
  else
    match fuel with
    | O => None
    | S fuel =>
        node ← (nodes_ w).[idx];
        let next_idx := next node in
        w ← reset_links w idx;
        w ← free_node w idx;
        free_chain fuel w next_idx (u32 (freed + 1))
    end.

Fixpoint reset_buckets (slots : list Z) w (freed : Z) : option (TimingWheel CB * Z) :=
  match slots with
  | [] => Some (w, freed)
  | slot :: slots =>
      head ← (bucket_heads_ w).[slot];
      '(w, freed) ← free_chain (Z.to_nat (max_timers_ w)) w head freed;
      heads ← storeZ (bucket_heads_ w) slot kNullIdx;
      reset_buckets slots (with_chain w heads (nodes_ w)) freed
  end.

(** [freed] and the assertion exist in the debug build only. *)
Definition reset w : option (TimingWheel CB) :=
  '(w, freed) ← reset_buckets (Z.of_nat <$> seq 0 (Z.to_nat (wheel_size_ w))) w 0;
  _ ← (if ndebug then Some tt else assertM (bool_decide (freed = active_count_ w)));
  Some (with_counts w 0 0 (in_tick_walk_ w)).

Definition current_tick w : Z := current_tick_ w.
Definition active_count w : Z := active_count_ w.
Definition wheel_size w : Z := wheel_size_ w.
Definition max_timers w : Z := max_timers_ w.
End Wheel.
End TW.
