(* ===== verification/TimingWheelSpec.v ===== *)
(** The invariant of the timing wheel of [TimingWheel.v] and what its
    operations do to it.

    Every node is in one place: the free list, one bucket's chain, the
    detached chain a [tick] is still to visit, or the hands of the [tick]
    that runs its callback.  [inv] says that the links realise these places,
    that idle nodes are disarmed and that [active_count_] counts the armed
    ones (plus those fired but not yet discounted).  [pending] is the
    abstract content: a finite map from handles to (ticks left, callback,
    context).

    The timing wheel implements a finite map of pending timers.

    [pending w] maps the handle of every armed timer to the ticks it has
    left, its callback and its context.  [schedule] inserts, [cancel]
    deletes, also from inside a callback, and [reset] empties; the fields
    of the invariant of [TimingWheelSpec.v] survive each of them. *)
From S2P Require Import Prelude.
From S2P Require Import BitUtils.
From S2P Require Import IndexFreeStack.
From S2P Require Import TimingWheel.
Local Open Scope Z_scope.
Local Open Scope array_scope.

Module TWSpec.
Import TW.

Inductive Place : Set := Free | Bucket (s : Z) | Detached | Running.

#[export] Instance Place_eq_dec : EqDecision Place.
Proof. solve_decision. Defined.

(** Pointwise update of a function of indices. *)
Definition upd {A : Type} (f : Z → A) (i : Z) (a : A) : Z → A := λ j, if decide (j = i) then a else f j.

Lemma upd_eq {A : Type} (f : Z → A) i a : upd f i a i = a.
Proof. unfold upd. by rewrite decide_True. Qed.
Lemma upd_ne {A : Type} (f : Z → A) i j a : j ≠ i → upd f i a j = f j.
Proof. intros. unfold upd. by rewrite decide_False. Qed.

Lemma upd_other {A : Type} (f : Z → A) i j a b : b ≠ a → upd f i a j = b ↔ j ≠ i ∧ f j = b.
Proof. intros. unfold upd. case_decide; intuition congruence. Qed.
Lemma upd_same {A : Type} (f : Z → A) i j a : upd f i a j = a ↔ j = i ∨ f j = a.
Proof. unfold upd. case_decide; intuition congruence. Qed.

Section Spec.
Context (ndebug : bool) {CB : Type}.
Implicit Types (w : TimingWheel CB) (n : TimerNode CB) (nodes : list (TimerNode CB)) (xs : list Z).

(** [xs] is linked both ways, [p] before its head and nothing after it. *)
Fixpoint linked nodes (p head : Z) xs : Prop :=
  match xs with
  | [] => head = kNullIdx
  | x :: xs => head = x ∧ ∃ n, nodes.[x] = Some n ∧ prev n = p ∧ linked nodes x (next n) xs
  end.

(** [xs] is linked forwards: all a walk needs. *)
Fixpoint forward nodes (head : Z) xs : Prop :=
  match xs with
  | [] => head = kNullIdx
  | x :: xs => head = x ∧ ∃ n, nodes.[x] = Some n ∧ forward nodes (next n) xs
  end.

Record geometry w : Prop := {
  g_wheel : ∃ e, 1 <= e < 32 ∧ wheel_size_ w = 2 ^ e;
  g_mask : wheel_mask_ w = wheel_size_ w - 1;
  g_heads : lenZ (bucket_heads_ w) = wheel_size_ w;
  g_nodes : lenZ (nodes_ w) = max_timers_ w;
  g_timers : 1 <= max_timers_ w <= 2 ^ 31;
  g_stack : IFS.stack_wf ndebug (free_list_ w);
  g_cap : IFS.capacity_ (free_list_ w) = max_timers_ w;
}.

Definition now w : Z := current_tick_ w mod wheel_size_ w.

(** The links realise the places. *)
Record shape w (place : Z → Place) (chains : Z → list Z) (rest : list Z) : Prop := {
  i_geom : geometry w;
  i_heads : ∀ s, 0 <= s < wheel_size_ w →
    ∃ head, (bucket_heads_ w).[s] = Some head ∧ linked (nodes_ w) kNullIdx head (chains s);
  i_chain : ∀ s i, 0 <= s < wheel_size_ w → i ∈ chains s ↔ 0 <= i < max_timers_ w ∧ place i = Bucket s;
  i_nodup : ∀ s, 0 <= s < wheel_size_ w → NoDup (chains s);
  i_free : ∀ i, i ∈ IFS.free_list (free_list_ w) ↔ 0 <= i < max_timers_ w ∧ place i = Free;
  i_rest : ∀ i, i ∈ rest ↔ 0 <= i < max_timers_ w ∧ place i = Detached;
  i_rest_nodup : NoDup rest;
  i_slot : ∀ i n s, (nodes_ w).[i] = Some n → place i = Bucket s → slot n = s ∧ 0 <= s < wheel_size_ w;
  i_gen : ∀ i n, (nodes_ w).[i] = Some n → 1 <= gen n < 2 ^ 32;
}.

(** Idle nodes are disarmed, and the counter is exact up to [fired]. *)
Record charges w (place : Z → Place) (fired : Z) : Prop := {
  i_idle : ∀ i n, (nodes_ w).[i] = Some n → place i = Free ∨ place i = Running → cb n = None;
  i_active : active_count_ w = u32 (countZ is_armed (nodes_ w) + fired);
}.

Record inv w place chains rest fired : Prop := {
  i_shape : shape w place chains rest;
  i_charges : charges w place fired;
  i_current : chains (now w) = [];
}.

(** Only links differ. *)
Definition links_only nodes nodes' : Prop :=
  length nodes' = length nodes ∧
  ∀ j m, nodes.[j] = Some m → ∃ m', nodes'.[j] = Some m' ∧ slot m' = slot m ∧ cb m' = cb m ∧
    ctx m' = ctx m ∧ gen m' = gen m.

Definition same_scalars w w' : Prop :=
  current_tick_ w' = current_tick_ w ∧ active_count_ w' = active_count_ w ∧
  in_tick_walk_ w' = in_tick_walk_ w ∧ wheel_size_ w' = wheel_size_ w ∧
  wheel_mask_ w' = wheel_mask_ w ∧ max_timers_ w' = max_timers_ w.

(** ** Writes through a node reference *)

Lemma update_Some nodes i n f : nodes.[i] = Some n → update nodes i f = Some (nodes.[i <- f n]).
Proof. intros Hn. unfold update. rewrite Hn. simpl. apply storeZ_Some. by eapply getZ_Some. Qed.

Lemma lookup_update nodes i n n' j :
  nodes.[i] = Some n → nodes.[i <- n'].[j] = if decide (j = i) then Some n' else nodes.[j].
Proof.
  intros Hn. rewrite getZ_setZ by by eapply getZ_Some. destruct (decide (j = i)) as [-> | Hji].
  - by rewrite decide_True.
  - by rewrite decide_False.
Qed.

(** Two writes to one node are one write. *)
Lemma update_update nodes i n f g :
  nodes.[i] = Some n → (nodes ← update nodes i f; update nodes i g) = Some (nodes.[i <- g (f n)]).
Proof.
  intros Hn. rewrite (update_Some _ _ _ _ Hn). simpl.
  rewrite (update_Some _ _ (f n)) by (rewrite (lookup_update _ _ n) by done; by rewrite decide_True).
  f_equal. unfold setZ. by rewrite list_insert_insert_eq.
Qed.

(** ** Chains *)

Lemma linked_frame nodes nodes' p head xs :
  (∀ x n, x ∈ xs → nodes.[x] = Some n → ∃ n', nodes'.[x] = Some n' ∧ next n' = next n ∧ prev n' = prev n) →
  linked nodes p head xs → linked nodes' p head xs.
Proof.
  revert p head. induction xs as [| x xs IH]; intros p head Hf; simpl; [done |].
  intros (-> & n & Hn & Hp & Hl). split; [done |].
  destruct (Hf x n) as (n' & Hn' & Hnx & Hpv); [left | done |]. exists n'. split; [done |].
  split; [congruence |]. rewrite Hnx. apply IH; [| done]. intros y m Hy. apply Hf. by right.
Qed.

Lemma forward_frame nodes nodes' head xs :
  (∀ x n, x ∈ xs → nodes.[x] = Some n → ∃ n', nodes'.[x] = Some n' ∧ next n' = next n) →
  forward nodes head xs → forward nodes' head xs.
Proof.
  revert head. induction xs as [| x xs IH]; intros head Hf; simpl; [done |].
  intros (-> & n & Hn & Hl). split; [done |].
  destruct (Hf x n) as (n' & Hn' & Hnx); [left | done |]. exists n'. split; [done |].
  rewrite Hnx. apply IH; [| done]. intros y m Hy. apply Hf. by right.
Qed.

Lemma linked_forward nodes p head xs : linked nodes p head xs → forward nodes head xs.
Proof.
  revert p head. induction xs as [| x xs IH]; intros p head; simpl; [done |].
  intros (-> & n & Hn & Hp & Hl). split; [done |]. exists n. eauto.
Qed.

(** A segment: from [head], preceded by [p], up to but excluding [h'],
    whose predecessor is [p']. *)
Fixpoint segment nodes (p head : Z) xs (p' h' : Z) : Prop :=
  match xs with
  | [] => p = p' ∧ head = h'
  | x :: xs => head = x ∧ ∃ n, nodes.[x] = Some n ∧ prev n = p ∧ segment nodes x (next n) xs p' h'
  end.

Lemma linked_app nodes p head ys zs :
  linked nodes p head (ys ++ zs) ↔ ∃ p' h', segment nodes p head ys p' h' ∧ linked nodes p' h' zs.
Proof.
  revert p head. induction ys as [| y ys IH]; intros p head; simpl.
  - split; [by intros; exists p, head | by intros (? & ? & [-> ->] & ?)].
  - split.
    + intros (-> & n & Hn & Hp & (p' & h' & Hs & Hl)%IH). exists p', h'. eauto 6.
    + intros (p' & h' & (-> & n & Hn & Hp & Hs) & Hl). split; [done |]. exists n.
      split; [done |]. split; [done |]. apply IH. eauto.
Qed.

Lemma segment_snoc nodes p head ys y p' h' :
  segment nodes p head (ys ++ [y]) p' h' ↔
  p' = y ∧ ∃ n, nodes.[y] = Some n ∧ next n = h' ∧ segment nodes p head ys (prev n) y.
Proof.
  revert p head. induction ys as [| x ys IH]; intros p head; simpl.
  - split.
    + intros (-> & n & Hn & <- & -> & <-). split; [done |]. by exists n.
    + intros (-> & n & Hn & <- & -> & ->). split; [done |]. by exists n.
  - split.
    + intros (-> & n & Hn & Hp & (-> & m & Hm & Hh & Hs)%IH). split; [done |]. exists m. eauto 8.
    + intros (-> & m & Hm & Hh & (-> & n & Hn & Hp & Hs)). split; [done |]. exists n.
      split; [done |]. split; [done |]. apply IH. split; [done |]. eauto.
Qed.

Lemma segment_frame nodes nodes' p head xs p' h' :
  (∀ x, x ∈ xs → nodes'.[x] = nodes.[x]) → segment nodes p head xs p' h' → segment nodes' p head xs p' h'.
Proof.
  revert p head. induction xs as [| x xs IH]; intros p head Hf; simpl; [done |].
  intros (-> & n & Hn & Hp & Hs). split; [done |]. exists n. rewrite Hf by left. split; [done |].
  split; [done |]. apply IH; [| done]. intros y Hy. apply Hf. by right.
Qed.

Lemma linked_same nodes nodes' p head xs :
  (∀ x, x ∈ xs → nodes'.[x] = nodes.[x]) → linked nodes p head xs → linked nodes' p head xs.
Proof. intros Hf. apply linked_frame. intros x n Hx Hn. exists n. by rewrite Hf. Qed.

Lemma links_only_refl nodes : links_only nodes nodes.
Proof. split; [done |]. intros j m Hm. by exists m. Qed.

Lemma links_only_trans nodes1 nodes2 nodes3 :
  links_only nodes1 nodes2 → links_only nodes2 nodes3 → links_only nodes1 nodes3.
Proof.
  intros [L1 H1] [L2 H2]. split; [congruence |]. intros j m Hm.
  destruct (H1 j m Hm) as (m2 & Hm2 & ? & ? & ? & ?). destruct (H2 j m2 Hm2) as (m3 & Hm3 & ? & ? & ? & ?).
  exists m3. repeat split; congruence.
Qed.

Lemma links_only_inv nodes nodes' j m' :
  links_only nodes nodes' → nodes'.[j] = Some m' →
  ∃ m, nodes.[j] = Some m ∧ slot m' = slot m ∧ cb m' = cb m ∧ ctx m' = ctx m ∧ gen m' = gen m.
Proof.
  intros [Hl Hk] Hm'. destruct (getZ_is_Some nodes j) as [m Hm].
  { rewrite <- Hl. by eapply getZ_Some. }
  exists m. split; [done |]. destruct (Hk j m Hm) as (m2 & Hm2 & H). rewrite Hm' in Hm2. by injection Hm2 as <-.
Qed.

Lemma links_only_update nodes i n n' :
  nodes.[i] = Some n → slot n' = slot n → cb n' = cb n → ctx n' = ctx n → gen n' = gen n →
  links_only nodes (nodes.[i <- n']).
Proof.
  intros Hn ? ? ? ?. split; [apply length_setZ |]. intros j m Hm.
  rewrite (lookup_update _ _ n) by done. case_decide as Hd; [| by exists m].
  subst j. rewrite Hn in Hm. injection Hm as <-. by exists n'.
Qed.

Lemma links_only_armed nodes nodes' :
  links_only nodes nodes' → countZ is_armed nodes' = countZ is_armed nodes.
Proof.
  intros [Hl Hf]. apply countZ_pointwise; [done |]. intros j m Hm.
  destruct (Hf j m Hm) as (m' & Hm' & _ & Hc & _). exists m'. split; [done |]. unfold is_armed. by rewrite Hc.
Qed.

(** Redirecting the [prev] of a chain's head. *)
Lemma linked_reprev nodes p q head xs :
  linked nodes p head xs → NoDup xs → (∀ x, x ∈ xs → x ≠ kNullIdx) →
  ∃ nodes', (if bool_decide (head = kNullIdx) then Some nodes
             else update nodes head (λ m, set_prev m q)) = Some nodes' ∧
    linked nodes' q head xs ∧ links_only nodes nodes' ∧ ∀ j, j ∉ xs → nodes'.[j] = nodes.[j].
Proof.
  intros Hl Hnd Hnn. destruct xs as [| x xs]; simpl in Hl.
  - subst head. rewrite bool_decide_true by done. exists nodes. by split; [| split; [| split; [apply links_only_refl |]]].
  - destruct Hl as (-> & m & Hm & Hp & Hl). rewrite bool_decide_false by (apply Hnn; left).
    apply nodup_cons in Hnd as [Hx Hnd].
    rewrite (update_Some _ _ m) by done. eexists. split; [done |]. split; [| split].
    + simpl. split; [done |]. exists (set_prev m q). rewrite (lookup_update _ _ m) by done.
      rewrite decide_True by done. split; [done |]. split; [done |]. simpl.
      eapply linked_same; [| exact Hl]. intros y Hy. rewrite (lookup_update _ _ m) by done.
      rewrite decide_False by (intros ->; done). done.
    + by eapply links_only_update.
    + intros j Hj. rewrite (lookup_update _ _ m) by done. rewrite decide_False; [done |]. set_solver.
Qed.

(** ** The places of the nodes *)

Section Shape.
Context w place chains rest (Hs : shape w place chains rest).

Lemma node_of i : 0 <= i < max_timers_ w → ∃ n, (nodes_ w).[i] = Some n.
Proof. intros Hi. apply getZ_is_Some. rewrite (g_nodes _ (i_geom _ _ _ _ Hs)). done. Qed.

Lemma node_range i n : (nodes_ w).[i] = Some n → 0 <= i < max_timers_ w.
Proof. intros Hn%getZ_Some. by rewrite (g_nodes _ (i_geom _ _ _ _ Hs)) in Hn. Qed.

Lemma index_not_null i : 0 <= i < max_timers_ w → i ≠ kNullIdx.
Proof. pose proof (g_timers _ (i_geom _ _ _ _ Hs)). unfold kNullIdx. lia. Qed.

Lemma chain_in s i : 0 <= s < wheel_size_ w → i ∈ chains s → 0 <= i < max_timers_ w ∧ place i = Bucket s.
Proof. intros Hr. apply (i_chain _ _ _ _ Hs s i Hr). Qed.

Lemma chain_not_null s i : 0 <= s < wheel_size_ w → i ∈ chains s → i ≠ kNullIdx.
Proof. intros Hr Hi. apply index_not_null. by eapply chain_in. Qed.

(** A node is in the chain of one bucket. *)
Lemma chain_disjoint s s' i :
  0 <= s < wheel_size_ w → 0 <= s' < wheel_size_ w → i ∈ chains s → i ∈ chains s' → s = s'.
Proof. intros H1 H2 [_ P1]%chain_in [_ P2]%chain_in; congruence. Qed.
End Shape.

Lemma geometry_with_chain w heads nodes :
  geometry w → length heads = length (bucket_heads_ w) → length nodes = length (nodes_ w) →
  geometry (with_chain w heads nodes).
Proof. intros [] Hh Hn. split; simpl; try done; congruence. Qed.

Lemma scalars_with_chain w heads nodes : same_scalars w (with_chain w heads nodes).
Proof. by repeat split. Qed.

(** Splicing a node out of the chain of its bucket. *)
Lemma splice_out nodes head ys i zs n :
  linked nodes kNullIdx head (ys ++ i :: zs) → NoDup (ys ++ i :: zs) →
  (∀ x, x ∈ ys ++ i :: zs → x ≠ kNullIdx) → nodes.[i] = Some n →
  ∃ nodes1 nodes2 head',
    (if bool_decide (prev n = kNullIdx) then nodes1 = nodes ∧ head' = next n ∧ ys = []
     else update nodes (prev n) (λ m, set_next m (next n)) = Some nodes1 ∧ head' = head) ∧
    nodes1.[i] = Some n ∧
    (if bool_decide (next n = kNullIdx) then Some nodes1
     else update nodes1 (next n) (λ m, set_prev m (prev n))) = Some nodes2 ∧
    nodes2.[i] = Some n ∧ linked nodes2 kNullIdx head' (ys ++ zs) ∧
    links_only nodes nodes2 ∧ ∀ j, j ∉ ys ++ i :: zs → nodes2.[j] = nodes.[j].
Proof.
  intros Hl Hnd Hnn Hn.
  apply linked_app in Hl as (p & h & Hseg & -> & n' & Hn' & Hpp & Hz).
  rewrite Hn in Hn'. injection Hn' as <-. subst p.
  apply nodup_app in Hnd as (Hys & Hdis & [Hiz Hzs]%nodup_cons).
  assert (∀ x, x ∈ zs → x ≠ kNullIdx) as Hznn by (intros x Hx; apply Hnn; set_solver).
  destruct ys as [| y ys _] using rev_ind.
  - destruct Hseg as [<- ->]. rewrite bool_decide_true by done.
    destruct (linked_reprev nodes i kNullIdx (next n) zs Hz Hzs Hznn) as (nodes2 & E & Hz2 & Hlo & Hf).
    exists nodes, nodes2, (next n). rewrite Hf by done.
    repeat (split; [done |]). intros j Hj. apply Hf. set_solver.
  - apply segment_snoc in Hseg as (Hp & m & Hm & Hnx & Hseg).
    assert (y ∉ ys ∧ y ≠ i ∧ y ∉ zs) as (Hyy & Hyi & Hyz).
    { apply nodup_app in Hys as (_ & Hd & _). split; [intros Hy; apply (Hd y Hy); left |].
      split; intros Hc; apply (Hdis y); set_solver. }
    rewrite bool_decide_false by (rewrite Hp; apply Hnn; set_solver). rewrite Hp.
    rewrite (update_Some _ _ m) by done.
    set (nodes1 := nodes.[y <- set_next m (next n)]).
    assert (∀ j, j ≠ y → nodes1.[j] = nodes.[j]) as H1.
    { intros j Hj. unfold nodes1. rewrite (lookup_update _ _ m) by done. by rewrite decide_False. }
    assert (linked nodes1 i (next n) zs) as Hz1
      by (eapply linked_same; [| exact Hz]; intros x Hx; apply H1; by intros ->).
    destruct (linked_reprev nodes1 i y (next n) zs Hz1 Hzs Hznn) as (nodes2 & E & Hz2 & Hlo & Hf).
    exists nodes1, nodes2, head. rewrite Hf, H1 by done.
    repeat (split; [done |]). split; [| split].
    + apply linked_app. exists y, (next n). split; [| done]. apply segment_snoc. split; [done |].
      exists (set_next m (next n)). rewrite Hf by done. unfold nodes1 at 1.
      rewrite (lookup_update _ _ m), decide_True by done. split; [done |]. split; [done |].
      eapply segment_frame; [| exact Hseg]. intros x Hx.
      rewrite Hf, H1; [done | by intros -> |]. intros Hc. apply (Hdis x); set_solver.
    + eapply links_only_trans; [| exact Hlo]. by eapply links_only_update.
    + intros j Hj. rewrite Hf, H1; [done | set_solver | set_solver].
Qed.

Lemma shape_unlink w place chains rest s ys i zs :
  shape w place chains rest → 0 <= s < wheel_size_ w → chains s = ys ++ i :: zs →
  ∃ w', unlink w i = Some w' ∧ shape w' (upd place i Running) (upd chains s (ys ++ zs)) rest ∧
    links_only (nodes_ w) (nodes_ w') ∧ same_scalars w w' ∧
    ∀ j, j ∉ chains s → (nodes_ w').[j] = (nodes_ w).[j].
Proof.
  intros Hs Hr Hc.
  destruct (i_heads _ _ _ _ Hs s Hr) as (head & Hh & Hl).
  pose proof (i_nodup _ _ _ _ Hs s Hr) as Hnd. rewrite Hc in Hl, Hnd.
  assert (i ∈ chains s) as Hi by (rewrite Hc; set_solver).
  destruct (chain_in _ _ _ _ Hs s i Hr Hi) as [Hir Hpi].
  destruct (node_of _ _ _ _ Hs i Hir) as [n Hn].
  destruct (i_slot _ _ _ _ Hs i n s Hn Hpi) as [Hsl _].
  destruct (splice_out (nodes_ w) head ys i zs n) as (n1 & n2 & head' & E1 & R1 & E2 & R2 & Hl2 & Hlo & Hf);
    [done | done | | done |].
  { intros x Hx. apply (chain_not_null _ _ _ _ Hs s x Hr). by rewrite Hc. }
  unfold unlink. rewrite Hn. cbn [mbind option_bind].
  assert (∃ heads, (if bool_decide (prev n = kNullIdx)
     then heads ← storeZ (bucket_heads_ w) (slot n) (next n); Some (heads, nodes_ w)
     else nodes ← update (nodes_ w) (prev n) (λ m, set_next m (next n));
          Some (bucket_heads_ w, nodes)) = Some (heads, n1) ∧
     length heads = length (bucket_heads_ w) ∧ heads.[s] = Some head' ∧
     ∀ j, j ≠ s → 0 <= j → heads.[j] = (bucket_heads_ w).[j]) as (heads & -> & Hhl & Hhs & Hho).
  { pose proof (getZ_Some _ _ _ Hh). destruct (bool_decide (prev n = kNullIdx)).
    - destruct E1 as (-> & -> & _). rewrite Hsl, storeZ_Some by done. eexists. split; [done |].
      split; [apply length_setZ |]. split; [by apply getZ_setZ_eq |]. intros j Hj Hj0. apply getZ_setZ_ne; lia.
    - destruct E1 as [-> ->]. eexists. split; [done |]. by repeat split. }
  cbn [mbind option_bind]. rewrite R1. cbn [mbind option_bind]. rewrite E2. cbn [mbind option_bind].
  rewrite (update_Some _ _ n) by done. cbn [mbind option_bind].
  rewrite (update_Some _ _ (set_prev n kNullIdx))
    by (rewrite (lookup_update _ _ n) by done; by rewrite decide_True).
  cbn [mbind option_bind]. eexists. split; [done |].
  set (n3 := setZ _ _ _).
  assert (links_only n2 n3) as Hlo3.
  { eapply links_only_trans; [by apply (links_only_update n2 i n (set_prev n kNullIdx)) |].
    apply (links_only_update _ i (set_prev n kNullIdx)); try done.
    rewrite (lookup_update _ _ n) by done. by rewrite decide_True. }
  assert (links_only (nodes_ w) n3) as Hlow by (by eapply links_only_trans).
  assert (∀ j, j ≠ i → n3.[j] = n2.[j]) as Hf3.
  { intros j Hj. unfold n3. rewrite (lookup_update _ _ (set_prev n kNullIdx)).
    - rewrite decide_False by done. rewrite (lookup_update _ _ n) by done. by rewrite decide_False.
    - rewrite (lookup_update _ _ n) by done. by rewrite decide_True. }
  assert (i ∉ ys ++ zs) as Hni.
  { apply nodup_app in Hnd as (_ & Hd & [Hz _]%nodup_cons). intros [Hy | ?]%elem_of_app; [| done].
    apply (Hd i Hy). left. }
  split; [| split; [done |]; split; [apply scalars_with_chain |]].
  2: { intros j Hj. simpl. rewrite Hf3 by (by intros ->). apply Hf. by rewrite <- Hc. }
  destruct Hs as [Hg Hhd Hch Hndp Hfr Hre Hrn Hslo Hge]. split; simpl; try done.
  - apply geometry_with_chain; [done | done |]. by destruct Hlow.
  - intros s' Hr'. destruct (decide (s' = s)) as [-> | Hne].
    + exists head'. split; [done |]. rewrite upd_eq. eapply linked_same; [| exact Hl2].
      intros x Hx. apply Hf3. by intros ->.
    + rewrite upd_ne by done. destruct (Hhd s' Hr') as (hd' & Hhd' & Hl'). exists hd'.
      rewrite Hho by lia. split; [done |]. eapply linked_same; [| exact Hl'].
      intros x Hx. assert (x ∉ chains s) as Hxs.
      { intros Hxs. apply Hch in Hx as [_ Hx]; [| done]. apply Hch in Hxs as [_ Hxs]; [| done]. congruence. }
      rewrite Hf3 by (by intros ->). apply Hf. by rewrite <- Hc.
  - intros s' j Hr'. rewrite upd_other by done. destruct (decide (s' = s)) as [-> | Hne].
    + rewrite upd_eq. assert (j ∈ ys ++ zs ↔ j ∈ chains s ∧ j ≠ i) as ->.
      { rewrite Hc. clear -Hni. set_solver. }
      rewrite Hch by done. tauto.
    + rewrite upd_ne, Hch by done. split; [| tauto]. intros [? Hp]. split; [done |].
      split; [| done]. intros ->. congruence.
  - intros s' Hr'. destruct (decide (s' = s)) as [-> | Hne]; [rewrite upd_eq | rewrite upd_ne by done; by apply Hndp].
    apply nodup_app in Hnd as (? & Hd & [_ ?]%nodup_cons). apply nodup_app. split; [done |].
    split; [| done]. intros x Hx Hxz. apply (Hd x Hx). by right.
  - intros j. rewrite upd_other, Hfr by done. split; [| tauto]. intros [? Hp]. split; [done |].
    split; [| done]. intros ->. congruence.
  - intros j. rewrite upd_other, Hre by done. split; [| tauto]. intros [? Hp]. split; [done |].
    split; [| done]. intros ->. congruence.
  - intros j m s' Hm [Hji Hpj]%upd_other; [| done].
    destruct (links_only_inv _ _ j m Hlow Hm) as (m0 & Hm0 & -> & _). by apply (Hslo j m0 s').
  - intros j m Hm. destruct (links_only_inv _ _ j m Hlow Hm) as (m0 & Hm0 & _ & _ & _ & ->).
    by apply (Hge j m0).
Qed.

Lemma in_chain_elsewhere w place chains rest s x :
  shape w place chains rest → 0 <= s < wheel_size_ w → x ∈ chains s → place x = Bucket s.
Proof. intros Hs Hr Hx. by apply (i_chain _ _ _ _ Hs) in Hx as [_ ?]. Qed.

Lemma geometry_write w i n' : geometry w → geometry (with_nodes w ((nodes_ w).[i <- n'])).
Proof. intros Hg. apply geometry_with_chain; [done | done | apply length_setZ]. Qed.

(** A node in no chain may be rewritten. *)
Lemma shape_write_idle w place chains rest i n' :
  shape w place chains rest → 0 <= i < max_timers_ w → place i = Running ∨ place i = Free →
  1 <= gen n' < 2 ^ 32 → shape (with_nodes w ((nodes_ w).[i <- n'])) place chains rest.
Proof.
  intros Hs Hi Hp Hgn. destruct (node_of _ _ _ _ Hs i Hi) as [n Hn].
  pose proof Hs as [Hg Hhd Hch Hndp Hfr Hre Hrn Hslo Hge]. split; simpl; try done.
  - by apply geometry_write.
  - intros s Hr. destruct (Hhd s Hr) as (head & Hh & Hl). exists head. split; [done |].
    eapply linked_same; [| exact Hl]. intros x Hx. rewrite (lookup_update _ _ n) by done.
    rewrite decide_False; [done |]. intros ->.
    pose proof (in_chain_elsewhere _ _ _ _ _ _ Hs Hr Hx). destruct Hp; congruence.
  - intros j m s Hm Hpj. rewrite (lookup_update _ _ n) in Hm by done.
    rewrite decide_False in Hm by (intros ->; destruct Hp; congruence). by apply (Hslo j m s).
  - intros j m Hm. rewrite (lookup_update _ _ n) in Hm by done.
    destruct (decide (j = i)); [by injection Hm as <- | by apply (Hge j m)].
Qed.

(** The payload of any node may be rewritten. *)
Lemma shape_write_payload w place chains rest i n c x :
  shape w place chains rest → (nodes_ w).[i] = Some n →
  shape (with_nodes w ((nodes_ w).[i <- set_payload n c x])) place chains rest.
Proof.
  intros Hs Hn. pose proof Hs as [Hg Hhd Hch Hndp Hfr Hre Hrn Hslo Hge]. split; simpl; try done.
  - by apply geometry_write.
  - intros s Hr. destruct (Hhd s Hr) as (head & Hh & Hl). exists head. split; [done |].
    eapply linked_frame; [| exact Hl]. intros y m Hy Hm. rewrite (lookup_update _ _ n) by done.
    case_decide as Hd; [| by exists m]. subst y. rewrite Hn in Hm. injection Hm as <-.
    by exists (set_payload n c x).
  - intros j m s Hm Hpj. rewrite (lookup_update _ _ n) in Hm by done.
    destruct (decide (j = i)) as [-> |]; [injection Hm as <-; simpl; by apply (Hslo i n s) | by apply (Hslo j m s)].
  - intros j m Hm. rewrite (lookup_update _ _ n) in Hm by done.
    destruct (decide (j = i)) as [-> |]; [injection Hm as <-; simpl; by apply (Hge i n) | by apply (Hge j m)].
Qed.

Lemma shape_push_front w place chains rest s i n :
  shape w place chains rest → 0 <= s < wheel_size_ w → 0 <= i < max_timers_ w → place i = Running →
  (nodes_ w).[i] = Some n → slot n = s →
  ∃ w', push_front w s i = Some w' ∧ shape w' (upd place i (Bucket s)) (upd chains s (i :: chains s)) rest ∧
    links_only (nodes_ w) (nodes_ w') ∧ same_scalars w w' ∧
    ∀ j, j ∉ i :: chains s → (nodes_ w').[j] = (nodes_ w).[j].
Proof.
  intros Hs Hr Hi Hp Hn Hsl.
  destruct (i_heads _ _ _ _ Hs s Hr) as (head & Hh & Hl).
  pose proof (i_nodup _ _ _ _ Hs s Hr) as Hnd.
  assert (i ∉ chains s) as Hni.
  { intros Hx%(in_chain_elsewhere _ _ _ _ _ _ Hs Hr). congruence. }
  set (n' := set_next (set_prev n kNullIdx) head).
  set (n1 := (nodes_ w).[i <- n']).
  assert (n1.[i] = Some n') as Hn1 by (unfold n1; rewrite (lookup_update _ _ n) by done; by rewrite decide_True).
  assert (∀ j, j ≠ i → n1.[j] = (nodes_ w).[j]) as Hf1.
  { intros j Hj. unfold n1. rewrite (lookup_update _ _ n) by done. by rewrite decide_False. }
  assert (linked n1 kNullIdx head (chains s)) as Hl1.
  { eapply linked_same; [| exact Hl]. intros x Hx. apply Hf1. by intros ->. }
  destruct (linked_reprev n1 kNullIdx i head (chains s) Hl1 Hnd) as (n2 & E & Hl2 & Hlo & Hf2).
  { intros x Hx. by apply (chain_not_null _ _ _ _ Hs s x Hr). }
  assert (links_only (nodes_ w) n2) as Hlow
    by (eapply links_only_trans; [by apply (links_only_update (nodes_ w) i n n') | exact Hlo]).
  unfold push_front. rewrite (update_Some _ _ n) by done. cbn [mbind option_bind]. rewrite Hh.
  cbn [mbind option_bind]. rewrite (update_Some _ _ (set_prev n kNullIdx))
    by (rewrite (lookup_update _ _ n) by done; by rewrite decide_True).
  cbn [mbind option_bind]. rewrite setZ_setZ. fold n' n1. rewrite E. cbn [mbind option_bind]. pose proof (getZ_Some _ _ _ Hh) as Hhr.
  rewrite storeZ_Some by done. cbn [mbind option_bind]. eexists. split; [done |].
  split; [| split; [done |]; split; [apply scalars_with_chain |]].
  2: { intros j Hj. simpl. rewrite Hf2, Hf1; [done | set_solver | set_solver]. }
  pose proof Hs as [Hg Hhd Hch Hndp Hfr Hre Hrn Hslo Hge]. split; simpl; try done.
  - apply geometry_with_chain; [done | apply length_setZ |]. by destruct Hlow.
  - intros s' Hr'. destruct (decide (s' = s)) as [-> | Hne].
    + exists i. rewrite getZ_setZ_eq, upd_eq by done. split; [done |]. simpl. split; [done |].
      exists n'. rewrite Hf2 by done. split; [done |]. done.
    + rewrite upd_ne by done. destruct (Hhd s' Hr') as (hd' & Hhd' & Hl'). exists hd'.
      rewrite getZ_setZ_ne by lia. split; [done |]. eapply linked_same; [| exact Hl'].
      intros x Hx. pose proof (in_chain_elsewhere _ _ _ _ _ _ Hs Hr' Hx).
      rewrite Hf2, Hf1; [done | intros ->; congruence |].
      intros Hxs%(in_chain_elsewhere _ _ _ _ _ _ Hs Hr). congruence.
  - intros s' j Hr'. destruct (decide (s' = s)) as [-> | Hne].
    + rewrite upd_eq, upd_same, elem_of_cons, Hch by done. naive_solver.
    + rewrite upd_ne, upd_other, Hch by congruence. split; [| tauto]. intros [? Hpj]. split; [done |].
      split; [| done]. intros ->. congruence.
  - intros s' Hr'. destruct (decide (s' = s)) as [-> | Hne].
    + rewrite upd_eq. by constructor.
    + rewrite upd_ne by done. by apply Hndp.
  - intros j. rewrite upd_other, Hfr by done. split; [| tauto]. intros [? Hpj]. split; [done |].
    split; [| done]. intros ->. congruence.
  - intros j. rewrite upd_other, Hre by done. split; [| tauto]. intros [? Hpj]. split; [done |].
    split; [| done]. intros ->. congruence.
  - intros j m s' Hm Hpj. destruct (links_only_inv _ _ j m Hlow Hm) as (m0 & Hm0 & -> & _).
    unfold upd in Hpj. destruct (decide (j = i)) as [-> |]; [naive_solver | by apply (Hslo j m0 s')].
  - intros j m Hm. destruct (links_only_inv _ _ j m Hlow Hm) as (m0 & Hm0 & _ & _ & _ & ->).
    by apply (Hge j m0).
Qed.

(** ** The free list *)

Lemma geometry_with_free w fl :
  geometry w → IFS.stack_wf ndebug fl → IFS.capacity_ fl = IFS.capacity_ (free_list_ w) →
  geometry (with_free w fl).
Proof. intros [] Hfl Hc. split; simpl; try done. congruence. Qed.

Lemma shape_pop w place chains rest i more :
  shape w place chains rest → IFS.free_list (free_list_ w) = i :: more →
  ∃ fl, IFS.pop ndebug (free_list_ w) = Some (fl, Some i) ∧ 0 <= i < max_timers_ w ∧ place i = Free ∧
    shape (with_free w fl) (upd place i Running) chains rest.
Proof.
  intros Hs Hfl. pose proof Hs as [Hg Hhd Hch Hndp Hfr Hre Hrn Hslo Hge].
  pose proof (IFS.pop_spec ndebug (free_list_ w) (g_stack _ Hg)) as Hp. rewrite Hfl in Hp.
  destruct Hp as (fl & E & Hwf & Hmore & Hcap).
  assert (0 <= i < max_timers_ w ∧ place i = Free) as [Hi Hpl] by (apply Hfr; rewrite Hfl; left).
  assert (i ∉ more) as Him.
  { pose proof (IFS.wf_nodup _ _ (g_stack _ Hg)) as Hnd. rewrite Hfl in Hnd. by apply nodup_cons in Hnd as [? _]. }
  exists fl. split; [done |]. split; [done |]. split; [done |]. split; simpl; try done.
  - by apply geometry_with_free.
  - intros s j Hr. rewrite upd_other, Hch by done. split; [| tauto]. intros [? Hpj]. split; [done |].
    split; [| done]. intros ->. congruence.
  - intros j. rewrite upd_other by done. rewrite Hmore.
    assert (j ∈ more ↔ j ∈ IFS.free_list (free_list_ w) ∧ j ≠ i) as ->; [| rewrite Hfr; tauto].
    rewrite Hfl. set_solver.
  - intros j. rewrite upd_other, Hre by done. split; [| tauto]. intros [? Hpj]. split; [done |].
    split; [| done]. intros ->. congruence.
  - intros j m s Hm [_ Hpj]%upd_other; [| done]. by apply (Hslo j m s).
Qed.

Lemma shape_push_free w place chains rest i :
  shape w place chains rest → 0 <= i < max_timers_ w → place i = Running →
  ∃ fl, IFS.push ndebug (free_list_ w) i = Some fl ∧
    IFS.free_list fl = i :: IFS.free_list (free_list_ w) ∧
    shape (with_free w fl) (upd place i Free) chains rest.
Proof.
  intros Hs Hi Hpl. pose proof Hs as [Hg Hhd Hch Hndp Hfr Hre Hrn Hslo Hge].
  destruct (IFS.push_spec ndebug (free_list_ w) i (g_stack _ Hg)) as (fl & E & Hwf & Hfl & Hcap).
  { by rewrite (g_cap _ Hg). }
  { intros [_ ?]%Hfr. congruence. }
  exists fl. split; [done |]. split; [done |]. split; simpl; try done.
  - by apply geometry_with_free.
  - intros s j Hr. rewrite upd_other, Hch by done. split; [| tauto]. intros [? Hpj]. split; [done |].
    split; [| done]. intros ->. congruence.
  - intros j. rewrite Hfl, elem_of_cons, upd_same, Hfr. naive_solver.
  - intros j. rewrite upd_other, Hre by done. split; [| tauto]. intros [? Hpj]. split; [done |].
    split; [| done]. intros ->. congruence.
  - intros j m s Hm [_ Hpj]%upd_other; [| done]. by apply (Hslo j m s).
Qed.

Lemma next_gen_range g : 1 <= g < 2 ^ 32 → 1 <= next_gen g < 2 ^ 32.
Proof. intros Hg. unfold next_gen. case_bool_decide; mlia. Qed.

(** A node out of every chain goes back to the pool, disarmed and with a
    new generation. *)
Definition freed n : TimerNode CB := set_payload (set_gen n (next_gen (gen n))) None 0.

Lemma shape_free_node w place chains rest i n :
  shape w place chains rest → 0 <= i < max_timers_ w → place i = Running → (nodes_ w).[i] = Some n →
  ∃ w', free_node ndebug w i = Some w' ∧ shape w' (upd place i Free) chains rest ∧
    nodes_ w' = (nodes_ w).[i <- freed n] ∧ bucket_heads_ w' = bucket_heads_ w ∧ same_scalars w w' ∧
    IFS.free_list (free_list_ w') = i :: IFS.free_list (free_list_ w).
Proof.
  intros Hs Hi Hpl Hn. unfold free_node. rewrite (update_Some _ _ n) by done. cbn [mbind option_bind].
  rewrite (update_Some _ _ (set_gen n (next_gen (gen n))))
    by (rewrite (lookup_update _ _ n) by done; by rewrite decide_True).
  cbn [mbind option_bind]. rewrite setZ_setZ. change (set_payload _ None 0) with (freed n).
  assert (shape (with_nodes w ((nodes_ w).[i <- freed n])) place chains rest) as Hs1.
  { apply shape_write_idle; [done | done | by left |]. simpl. apply next_gen_range. by apply (i_gen _ _ _ _ Hs i n). }
  destruct (shape_push_free _ _ _ _ i Hs1 Hi Hpl) as (fl & E & Hfl & Hs2). simpl in E. rewrite E.
  cbn [mbind option_bind]. eexists. split; [done |]. split; [exact Hs2 |]. by repeat split.
Qed.

(** ** The walk of a tick *)

Lemma shape_with_counts w place chains rest t a b :
  shape w place chains rest → shape (with_counts w t a b) place chains rest.
Proof. intros [[] ? ? ? ? ? ? ? ?]. by split. Qed.

(** Detaching the chain of a bucket. *)
Definition detach (place : Z → Place) (s : Z) : Z → Place :=
  λ i, if decide (place i = Bucket s) then Detached else place i.

Lemma shape_detach w place chains s heads :
  shape w place chains [] → 0 <= s < wheel_size_ w → storeZ (bucket_heads_ w) s kNullIdx = Some heads →
  shape (with_chain w heads (nodes_ w)) (detach place s) (upd chains s []) (chains s).
Proof.
  intros Hs Hr [Hh ->]%storeZ_inv. pose proof Hs as [Hg Hhd Hch Hndp Hfr Hre Hrn Hslo Hge].
  assert (∀ j q, q ≠ Bucket s → q ≠ Detached → detach place s j = q ↔ place j = q) as Hdet.
  { intros j q Hq Hq'. unfold detach. case_decide; intuition congruence. }
  assert (∀ j, place j = Detached → ¬ 0 <= j < max_timers_ w) as Hnone.
  { intros j Hp Hj. by pose proof (proj2 (Hre j) (conj Hj Hp)) as Hin%elem_of_nil. }
  split; simpl; try done.
  - apply geometry_with_chain; [done | apply length_setZ | done].
  - intros s' Hr'. destruct (decide (s' = s)) as [-> | Hne].
    + exists kNullIdx. rewrite getZ_setZ_eq, upd_eq by done. done.
    + rewrite upd_ne, getZ_setZ_ne by lia. by apply Hhd.
  - intros s' j Hr'. destruct (decide (s' = s)) as [-> | Hne].
    + rewrite upd_eq. split; [by intros ?%elem_of_nil |]. unfold detach. case_decide; naive_solver.
    + rewrite upd_ne, Hch, Hdet by congruence. done.
  - intros s' Hr'. destruct (decide (s' = s)) as [-> | Hne];
      [rewrite upd_eq; constructor | rewrite upd_ne by done; by apply Hndp].
  - intros j. rewrite Hfr, Hdet by done. done.
  - intros j. rewrite Hch by done. unfold detach. case_decide; [tauto |]. split; [tauto |].
    intros [Hj Hp]. by destruct (Hnone j Hp).
  - by apply Hndp.
  - intros j m s' Hm. unfold detach. case_decide; [done |]. by apply Hslo.
Qed.

(** Taking the first node of the detached chain. *)
Lemma shape_visit w place chains i rest n :
  shape w place chains (i :: rest) → (nodes_ w).[i] = Some n →
  reset_links w i = Some (with_nodes w ((nodes_ w).[i <- set_next (set_prev n kNullIdx) kNullIdx])) ∧
  shape (with_nodes w ((nodes_ w).[i <- set_next (set_prev n kNullIdx) kNullIdx])) (upd place i Running) chains rest ∧
  0 <= i < max_timers_ w ∧ place i = Detached ∧ i ∉ rest.
Proof.
  intros Hs Hn. pose proof Hs as [Hg Hhd Hch Hndp Hfr Hre Hrn Hslo Hge].
  assert (0 <= i < max_timers_ w ∧ place i = Detached) as [Hi Hpl] by (apply Hre; left).
  apply nodup_cons in Hrn as [Hir Hrn].
  assert (shape w (upd place i Running) chains rest) as Hs1.
  { split; try done.
    - intros s j Hr. rewrite upd_other, Hch by done. split; [| tauto]. intros [? Hpj]. split; [done |].
      split; [| done]. intros ->. congruence.
    - intros j. rewrite upd_other, Hfr by done. split; [| tauto]. intros [? Hpj]. split; [done |].
      split; [| done]. intros ->. congruence.
    - intros j. rewrite upd_other by done. assert (j ∈ rest ↔ j ∈ i :: rest ∧ j ≠ i) as ->.
      { clear -Hir. set_solver. } rewrite Hre. tauto.
    - intros j m s Hm [_ Hpj]%upd_other; [| done]. by apply (Hslo j m s). }
  split; [| split; [| done]].
  - unfold reset_links. rewrite (update_Some _ _ n) by done. cbn [mbind option_bind].
    rewrite (update_Some _ _ (set_prev n kNullIdx))
      by (rewrite (lookup_update _ _ n) by done; by rewrite decide_True).
    cbn [mbind option_bind]. by rewrite setZ_setZ.
  - apply shape_write_idle; [done | done | left; apply upd_eq |]. by apply (Hge i n).
Qed.
End Spec.
End TWSpec.

Module TWOps.
Import TW TWSpec.

(** * Handles *)

Lemma pack_handle_eq i g : 0 <= i < 2 ^ 32 → 0 <= g < 2 ^ 32 → pack_handle i g = g * 2 ^ 32 + i.
Proof.
  intros Hi Hg. unfold pack_handle. rewrite Z.shiftl_mul_pow2, u64_id by mlia.
  by apply lor_disjoint.
Qed.

Lemma unpack_pack i g : 0 <= i < 2 ^ 32 → 0 <= g < 2 ^ 32 → unpack_handle (pack_handle i g) = (i, g).
Proof.
  intros Hi Hg. unfold unpack_handle. rewrite pack_handle_eq by done.
  change 0xFFFFFFFF with (2 ^ 32 - 1). rewrite land_mask, Z.shiftr_div_pow2 by lia.
  f_equal; mlia.
Qed.

Lemma pack_unpack h : is_u64 h → pack_handle (unpack_handle h).1 (unpack_handle h).2 = h.
Proof.
  intros Hh. unfold unpack_handle. cbn [fst snd].
  change 0xFFFFFFFF with (2 ^ 32 - 1). rewrite land_mask, Z.shiftr_div_pow2 by lia.
  rewrite pack_handle_eq by mlia. mlia.
Qed.

Section Ops.
Context (ndebug : bool) {CB : Type}.
Implicit Types (w : TimingWheel CB) (n : TimerNode CB) (nodes : list (TimerNode CB)).
Abbreviation timer := (Z * CB * Z)%type.
Abbreviation inv := (inv ndebug (CB := CB)).
Abbreviation shape := (shape ndebug (CB := CB)).

(** * The pending timers *)

Definition timer_of w (i : Z) n : option (Z * timer) :=
  c ← cb n; Some (pack_handle i (gen n), ((slot n - current_tick_ w) mod wheel_size_ w, c, ctx n)).

(** The timer that node [i] holds. *)
Definition timer_at w (i : Z) : option (Z * timer) := n ← (nodes_ w).[i]; timer_of w i n.

Definition timers w : list (Z * timer) :=
  omap (timer_at w) (Z.of_nat <$> seq 0 (length (nodes_ w))).

Definition pending w : gmap Z timer := list_to_map (timers w).

Definition ranges w : Prop :=
  lenZ (nodes_ w) <= 2 ^ 31 ∧ ∀ i n, (nodes_ w).[i] = Some n → 1 <= gen n < 2 ^ 32.

Lemma shape_ranges w place chains rest : shape w place chains rest → ranges w.
Proof.
  intros Hs. split; [| by apply (i_gen _ _ _ _ _ Hs)].
  pose proof (i_geom _ _ _ _ _ Hs) as Hg. rewrite (g_nodes _ _ Hg). apply (g_timers _ _ Hg).
Qed.

Lemma timer_at_Some w i h v :
  timer_at w i = Some (h, v) → ∃ n, (nodes_ w).[i] = Some n ∧ cb n = Some v.1.2 ∧ ctx n = v.2 ∧
    h = pack_handle i (gen n) ∧ v.1.1 = (slot n - current_tick_ w) mod wheel_size_ w.
Proof.
  unfold timer_at, timer_of. intros H. inv_bind H. inv_bind K. injection K0 as <- <-. eauto 8.
Qed.

Lemma timer_at_armed w i n :
  (nodes_ w).[i] = Some n → is_Some (timer_at w i) ↔ is_armed n = true.
Proof.
  intros Hn. unfold timer_at, timer_of, is_armed. rewrite Hn. simpl. rewrite bool_decide_eq_true.
  destruct (cb n); simpl; split; [done | done | |]; by intros [? ?].
Qed.

Lemma handle_inj w i j h v v' :
  ranges w → timer_at w i = Some (h, v) → timer_at w j = Some (h, v') → i = j.
Proof.
  intros [Hl Hg] (n & Hn & _ & _ & Hh & _)%timer_at_Some (m & Hm & _ & _ & Hh' & _)%timer_at_Some.
  pose proof (Hg i n Hn). pose proof (Hg j m Hm). pose proof (getZ_Some _ _ _ Hn). pose proof (getZ_Some _ _ _ Hm).
  rewrite Hh in Hh'. apply (f_equal unpack_handle) in Hh'. rewrite !unpack_pack in Hh' by lia. congruence.
Qed.

Lemma elem_of_timers w h v : (h, v) ∈ timers w ↔ ∃ i, timer_at w i = Some (h, v).
Proof.
  unfold timers. rewrite list_elem_of_omap. split.
  - intros (i & _ & Hi). by exists i.
  - intros [i Hi]. exists i. split; [| done].
    apply timer_at_Some in Hi as (n & Hn & _). apply getZ_Some in Hn.
    apply list_elem_of_fmap. exists (Z.to_nat i). rewrite elem_of_seq. lia.
Qed.

Lemma omap_fst_NoDup {A : Type} (f : A → option (Z * timer)) (l : list A) :
  NoDup l → (∀ x y h v v', x ∈ l → y ∈ l → f x = Some (h, v) → f y = Some (h, v') → x = y) →
  NoDup (omap f l).*1.
Proof.
  induction l as [| a l IH]; intros Hnd Hinj; [constructor |].
  apply nodup_cons in Hnd as [Ha Hnd]. cbn [omap list_omap].
  assert (NoDup (omap f l).*1) as Hl.
  { apply IH; [done |]. intros x y h v v' Hx Hy. apply Hinj; by right. }
  destruct (f a) as [[h v] |] eqn:Hf; [| done]. rewrite fmap_cons. constructor; [| done].
  simpl. intros ([h' v'] & -> & (x & Hx & Hfx)%list_elem_of_omap)%list_elem_of_fmap.
  assert (a = x) as -> by (apply (Hinj a x h' v v'); [left | by right | done | done]). done.
Qed.

Lemma NoDup_timers w : ranges w → NoDup (timers w).*1.
Proof.
  intros Hr. apply omap_fst_NoDup.
  - apply NoDup_fmap_2; [apply _ | apply NoDup_seq].
  - intros x y h v v' _ _. by apply handle_inj.
Qed.

Lemma pending_lookup w h v : ranges w → pending w !! h = Some v ↔ ∃ i, timer_at w i = Some (h, v).
Proof.
  intros Hr. unfold pending. rewrite <- elem_of_timers, <- elem_of_list_to_map; [done |].
  by apply NoDup_timers.
Qed.

Lemma pending_none w h : ranges w → pending w !! h = None ↔ ∀ i v, timer_at w i ≠ Some (h, v).
Proof.
  intros Hr. rewrite eq_None_not_Some. split.
  - intros Hno i v Hi. apply Hno. exists v. apply pending_lookup; [done |]. by exists i.
  - intros Hno [v (i & Hi)%pending_lookup]; [| done]. by apply (Hno i v).
Qed.

Lemma length_omap {A B : Type} (f : A → option B) (l : list A) :
  lenZ (omap f l) = countZ (λ x, bool_decide (is_Some (f x))) l.
Proof.
  induction l as [| a l IH]; [done |]. cbn [omap list_omap countZ foldr]. fold (countZ (λ x, bool_decide (is_Some (f x))) l).
  destruct (f a); simpl length; [rewrite bool_decide_true by eauto | rewrite bool_decide_false by by intros []];
    unfold b2z; cbn [omap list_omap] in IH; lia.
Qed.

(** Counting the indices of an array is counting its elements. *)
Lemma countZ_indices {A : Type} (f : Z → bool) (g : A → bool) (l : list A) :
  (∀ i x, l.[i] = Some x → f i = g x) → countZ f (Z.of_nat <$> seq 0 (length l)) = countZ g l.
Proof.
  induction l as [| a l IH] using rev_ind; intros Hfg; [done |].
  rewrite length_app, Nat.add_comm. cbn [length Nat.add]. rewrite seq_S, fmap_app, !countZ_app.
  rewrite IH.
  - f_equal. cbn [fmap list_fmap countZ foldr Nat.add]. rewrite (Hfg _ a); [done |].
    rewrite getZ_nat, lookup_app_r, Nat.sub_diag by done. done.
  - intros i x Hx. apply Hfg. pose proof (getZ_Some _ _ _ Hx) as Hi. unfold getZ in *.
    rewrite bool_decide_false in * by lia. rewrite lookup_app_l; [done | lia].
Qed.

Lemma size_pending w : ranges w → Z.of_nat (size (pending w)) = countZ is_armed (nodes_ w).
Proof.
  intros Hr. unfold pending. rewrite map_size_list_to_map by by apply NoDup_timers.
  unfold timers. rewrite length_omap. apply countZ_indices. intros i n Hn.
  pose proof (timer_at_armed w i n Hn) as Ha. destruct (is_armed n).
  - by apply bool_decide_eq_true, Ha.
  - apply bool_decide_eq_false. intros Hi%Ha. done.
Qed.

(** ** Changing one node *)

Lemma timer_at_same w w' :
  links_only (nodes_ w) (nodes_ w') → current_tick_ w' = current_tick_ w → wheel_size_ w' = wheel_size_ w →
  ∀ i, timer_at w' i = timer_at w i.
Proof.
  intros Hlo Ht Hw i. unfold timer_at. destruct ((nodes_ w').[i]) as [m |] eqn:Hm.
  - destruct (links_only_inv _ _ i m Hlo Hm) as (n & -> & Es & Ec & Ex & Eg). simpl.
    unfold timer_of. by rewrite Es, Ec, Ex, Eg, Ht, Hw.
  - destruct ((nodes_ w).[i]) as [n |] eqn:Hn; [| done]. destruct Hlo as [_ Hk].
    destruct (Hk i n Hn) as (m & Hm' & _). congruence.
Qed.

Lemma pending_same w w' :
  ranges w → ranges w' → (∀ i, timer_at w' i = timer_at w i) → pending w' = pending w.
Proof.
  intros Hr Hr' Heq. apply map_eq. intros h. apply option_eq. intros v.
  rewrite !pending_lookup by done. by setoid_rewrite Heq.
Qed.

Lemma pending_insert w w' i h v :
  ranges w → ranges w' → (∀ j, j ≠ i → timer_at w' j = timer_at w j) →
  timer_at w i = None → timer_at w' i = Some (h, v) →
  pending w !! h = None ∧ pending w' = <[h := v]> (pending w).
Proof.
  intros Hr Hr' Heq Hi Hi'. split.
  - apply pending_none; [done |]. intros j v' Hj. assert (j ≠ i) as Hji by congruence.
    rewrite <- Heq in Hj by done. by pose proof (handle_inj w' j i h v' v Hr' Hj Hi').
  - apply map_eq. intros k. apply option_eq. intros u. rewrite pending_lookup by done.
    destruct (decide (k = h)) as [-> | Hk].
    + rewrite lookup_insert_eq. split.
      * intros [j Hj]. assert (j = i) as -> by by apply (handle_inj w' j i h u v). congruence.
      * intros [= <-]. by exists i.
    + rewrite lookup_insert_ne, pending_lookup by done. split; intros [j Hj]; exists j.
      * rewrite <- Heq; [done |]. intros ->. congruence.
      * rewrite Heq; [done |]. intros ->. congruence.
Qed.

Lemma pending_delete w w' i h v :
  ranges w → ranges w' → (∀ j, j ≠ i → timer_at w' j = timer_at w j) →
  timer_at w i = Some (h, v) → timer_at w' i = None →
  pending w' = delete h (pending w).
Proof.
  intros Hr Hr' Heq Hi Hi'. apply map_eq. intros k. apply option_eq. intros u. rewrite pending_lookup by done.
  destruct (decide (k = h)) as [-> | Hk].
  - rewrite lookup_delete_eq. split; [| done]. intros [j Hj]. assert (j ≠ i) as Hji by congruence.
    rewrite Heq in Hj by done. by destruct Hji; apply (handle_inj w j i h u v).
  - rewrite lookup_delete_ne, pending_lookup by done. split; intros [j Hj]; exists j.
    + rewrite <- Heq; [done |]. intros ->. congruence.
    + rewrite Heq; [done |]. intros ->. congruence.
Qed.

(** Nodes other than [i] keep everything but their links. *)
Definition agree_but nodes nodes' (i : Z) : Prop :=
  length nodes' = length nodes ∧
  ∀ j, j ≠ i → ∀ m, nodes.[j] = Some m → ∃ m', nodes'.[j] = Some m' ∧ slot m' = slot m ∧ cb m' = cb m ∧
    ctx m' = ctx m ∧ gen m' = gen m.

Lemma agree_but_inv nodes nodes' i j m' :
  agree_but nodes nodes' i → j ≠ i → nodes'.[j] = Some m' →
  ∃ m, nodes.[j] = Some m ∧ slot m' = slot m ∧ cb m' = cb m ∧ ctx m' = ctx m ∧ gen m' = gen m.
Proof.
  intros [Hl Hk] Hj Hm'. destruct (getZ_is_Some nodes j) as [m Hm].
  { rewrite <- Hl. by eapply getZ_Some. }
  exists m. split; [done |]. destruct (Hk j Hj m Hm) as (m2 & Hm2 & H). rewrite Hm' in Hm2. by injection Hm2 as <-.
Qed.

Lemma agree_links nodes nodes' i : links_only nodes nodes' → agree_but nodes nodes' i.
Proof. intros [Hl Hk]. split; [done |]. intros j _ m. apply Hk. Qed.

Lemma agree_write nodes i n n' : nodes.[i] = Some n → agree_but nodes (nodes.[i <- n']) i.
Proof.
  intros Hn. split; [apply length_setZ |]. intros j Hj m Hm. exists m. split; [| done].
  by rewrite (lookup_update _ _ n), decide_False by done.
Qed.

Lemma agree_trans nodes1 nodes2 nodes3 i :
  agree_but nodes1 nodes2 i → agree_but nodes2 nodes3 i → agree_but nodes1 nodes3 i.
Proof.
  intros [L1 H1] [L2 H2]. split; [congruence |]. intros j Hj m Hm.
  destruct (H1 j Hj m Hm) as (m2 & Hm2 & ? & ? & ? & ?). destruct (H2 j Hj m2 Hm2) as (m3 & Hm3 & ? & ? & ? & ?).
  exists m3. repeat split; congruence.
Qed.

Lemma timer_at_other w w' i j :
  agree_but (nodes_ w) (nodes_ w') i → current_tick_ w' = current_tick_ w → wheel_size_ w' = wheel_size_ w →
  j ≠ i → timer_at w' j = timer_at w j.
Proof.
  intros Hag Ht Hw Hj. unfold timer_at. destruct ((nodes_ w').[j]) as [m |] eqn:Hm.
  - destruct (agree_but_inv _ _ i j m Hag Hj Hm) as (n & -> & Es & Ec & Ex & Eg). simpl.
    unfold timer_of. by rewrite Es, Ec, Ex, Eg, Ht, Hw.
  - destruct ((nodes_ w).[j]) as [n |] eqn:Hn; [| done]. destruct Hag as [_ Hk].
    destruct (Hk j Hj n Hn) as (m & Hm' & _). congruence.
Qed.

Lemma agree_armed nodes nodes' i n n' :
  agree_but nodes nodes' i → nodes.[i] = Some n → nodes'.[i] = Some n' →
  countZ is_armed nodes' = countZ is_armed nodes - b2z (is_armed n) + b2z (is_armed n').
Proof.
  intros [Hl Hk] Hn Hn'. rewrite <- (countZ_setZ is_armed nodes i n' n Hn).
  apply countZ_pointwise; [by rewrite length_setZ |]. intros j m Hm. rewrite (lookup_update _ _ n) in Hm by done.
  destruct (decide (j = i)) as [-> | Hj]; [injection Hm as <-; by exists n' |].
  destruct (Hk j Hj m Hm) as (m' & Hm' & _ & Ec & _). exists m'. split; [done |]. unfold is_armed. by rewrite Ec.
Qed.

(** * Scheduling *)

Lemma u64_mod_wheel w z : geometry ndebug w → u64 z mod wheel_size_ w = z mod wheel_size_ w.
Proof.
  intros Hg. destruct (g_wheel _ _ Hg) as (e & He & ->). unfold u64.
  symmetry. apply Znumtheory.Zmod_div_mod; [apply Z.pow_pos_nonneg; lia | lia |].
  exists (2 ^ (64 - e)). rewrite <- Z.pow_add_r by lia. f_equal. lia.
Qed.

Lemma mask_slot w z : geometry ndebug w → Z.land (u64 z) (wheel_mask_ w) = z mod wheel_size_ w.
Proof.
  intros Hg. rewrite <- (u64_mod_wheel w z Hg). destruct (g_wheel _ _ Hg) as (e & He & Hw).
  rewrite (g_mask _ _ Hg), Hw. apply land_mask. lia.
Qed.

Lemma wheel_bounds w : geometry ndebug w → 2 <= wheel_size_ w <= 2 ^ 31.
Proof.
  intros Hg. destruct (g_wheel _ _ Hg) as (e & He & ->). split.
  - change 2 with (2 ^ 1) at 1. apply Z.pow_le_mono_r; lia.
  - apply Z.pow_le_mono_r; lia.
Qed.

Lemma slot_distance t d ws : 0 < ws → 1 <= d < ws → (t + d) mod ws ≠ t mod ws ∧ ((t + d) mod ws - t) mod ws = d.
Proof.
  intros Hws Hd. assert (((t + d) mod ws - t) mod ws = d) as H.
  { rewrite Zminus_mod_idemp_l. replace (t + d - t) with d by lia. apply Z.mod_small. lia. }
  split; [| done]. intros Heq. rewrite Heq, Zminus_mod_idemp_l, Z.sub_diag, Zmod_0_l in H. lia.
Qed.

(** What no operation may do to the nodes a [tick] still holds. *)
Definition keeps w (place : Z → Place) w' (place' : Z → Place) : Prop :=
  (∀ j, place j = Running → place' j = Running ∧ (nodes_ w').[j] = (nodes_ w).[j]) ∧
  (∀ j n, place j = Detached → (nodes_ w).[j] = Some n →
     place' j = Detached ∧ ∃ n', (nodes_ w').[j] = Some n' ∧ next n' = next n) ∧
  (∀ j, place' j = Running → place j = Running).

(** Every chained node is armed: true except after a cancellation from
    inside a callback. *)
Definition clean w (place : Z → Place) : Prop :=
  ∀ j n s, (nodes_ w).[j] = Some n → place j = Bucket s → is_armed n = true.

(** The dimensions, and the clock, that only [tick] and [reset] change. *)
Definition same_clock w w' : Prop :=
  current_tick_ w' = current_tick_ w ∧ in_tick_walk_ w' = in_tick_walk_ w ∧
  wheel_size_ w' = wheel_size_ w ∧ max_timers_ w' = max_timers_ w.

Lemma schedule_spec w place chains rest fired c x delay :
  inv w place chains rest fired → 1 <= delay < wheel_size_ w →
  match IFS.free_list (free_list_ w) with
  | [] => schedule ndebug w (Some c) x delay = Some (w, kInvalidHandle)
  | _ :: _ => ∃ w' h place' chains', schedule ndebug w (Some c) x delay = Some (w', h) ∧
      inv w' place' chains' rest fired ∧ is_u64 h ∧ h ≠ kInvalidHandle ∧
      pending w !! h = None ∧ pending w' = <[h := (delay, c, x)]> (pending w) ∧
      same_clock w w' ∧ keeps w place w' place' ∧ (clean w place → clean w' place')
  end.
Proof.
  intros [Hs [Hidle Hact] Hcur] Hd. pose proof (i_geom _ _ _ _ _ Hs) as Hg.
  unfold schedule. rewrite (bool_decide_false (delay = 0)), (bool_decide_false (delay >= _)), (bool_decide_false (Some c = None)) by (done || lia).
  cbn [orb]. pose proof (IFS.pop_spec ndebug _ (g_stack _ _ Hg)) as Hpop.
  destruct (IFS.free_list (free_list_ w)) as [| i more] eqn:Hfl.
  { rewrite Hpop. cbn [mbind option_bind]. by destruct w. }
  clear Hpop. destruct (shape_pop _ _ _ _ _ _ _ Hs Hfl) as (fl & -> & Hi & Hpl & Hs1). cbn [mbind option_bind].
  set (w1 := with_free w fl) in *. change (nodes_ w1) with (nodes_ w).
  destruct (node_of _ _ _ _ _ Hs i Hi) as [n Hn].
  rewrite (update_Some _ _ n) by done. cbn [mbind option_bind].
  change (wheel_mask_ w1) with (wheel_mask_ w). change (current_tick_ w1) with (current_tick_ w).
  rewrite mask_slot by done. set (s := (current_tick_ w + delay) mod wheel_size_ w).
  pose proof (wheel_bounds w Hg) as Hwb.
  assert (0 <= s < wheel_size_ w) as Hsr by (apply Z.mod_pos_bound; lia).
  rewrite (u32_id s) by mlia.
  rewrite (update_Some _ _ (set_payload n (Some c) x)) by (rewrite (lookup_update _ _ n) by done; by rewrite decide_True).
  cbn [mbind option_bind]. rewrite setZ_setZ. set (n' := set_slot (set_payload n (Some c) x) s).
  pose proof (i_gen _ _ _ _ _ Hs i n Hn) as Hgen.
  assert (shape (with_nodes w1 ((nodes_ w).[i <- n'])) (upd place i Running) chains rest) as Hs2.
  { apply (shape_write_idle _ w1); [done | done | left; apply upd_eq | done]. }
  assert ((nodes_ w).[i <- n'].[i] = Some n') as Hn' by (rewrite (lookup_update _ _ n) by done; by rewrite decide_True).
  destruct (shape_push_front _ _ _ _ _ s i n' Hs2) as (w3 & E3 & Hs3 & Hlo & Hsc & Hfr);
    [done | done | apply upd_eq | done | done |].
  change (nodes_ (with_nodes w1 ((nodes_ w).[i <- n']))) with ((nodes_ w).[i <- n']) in Hlo, Hfr.
  rewrite E3. cbn [mbind option_bind].
  assert (agree_but (nodes_ w) (nodes_ w3) i) as Hag
    by (eapply agree_trans; [by apply (agree_write _ i n n') | by apply agree_links]).
  destruct (proj2 Hlo i n' Hn') as (n3 & Hn3 & Esl & Ecb & Ectx & Egen).
  destruct Hsc as (Et & Ea & Ew & Ews & Emk & Emt). simpl in Et, Ea, Ew, Ews, Emk, Emt.
  change (nodes_ (with_counts w3 _ _ _)) with (nodes_ w3). rewrite Hn3. cbn [mbind option_bind].
  rewrite Egen. simpl (gen n').
  set (w4 := with_counts w3 _ _ _). set (h := pack_handle i (gen n)).
  assert (is_u64 h ∧ h ≠ kInvalidHandle) as [Hh Hh0].
  { pose proof (g_timers _ _ Hg). unfold h, kInvalidHandle. rewrite pack_handle_eq by lia. mlia. }
  assert (cb n = None) as Hcn by (apply (Hidle i n Hn); by left).
  assert (countZ is_armed (nodes_ w4) = countZ is_armed (nodes_ w) + 1) as Hcount.
  { change (nodes_ w4) with (nodes_ w3). rewrite (agree_armed _ _ i n n3) by done.
    unfold is_armed at 2 3. rewrite Hcn, Ecb. simpl. lia. }
  assert (shape w4 (upd (upd place i Running) i (Bucket s)) (upd chains s (i :: chains s)) rest) as Hs4
    by by apply shape_with_counts.
  assert (timer_at w i = None) as Hti.
  { unfold timer_at, timer_of. rewrite Hn. simpl. by rewrite Hcn. }
  destruct (slot_distance (current_tick_ w) delay (wheel_size_ w)) as [Hsn Hdist]; [lia | done |].
  assert (timer_at w4 i = Some (h, (delay, c, x))) as Hti'.
  { unfold timer_at, timer_of. change (nodes_ w4) with (nodes_ w3). rewrite Hn3. simpl. rewrite Ecb, Ectx, Esl, Egen. simpl.
    rewrite Et, Ews. unfold s. by rewrite Hdist. }
  destruct (pending_insert w w4 i h (delay, c, x)) as [Hfresh Hpend];
    [by eapply shape_ranges | by eapply shape_ranges | intros j; by apply timer_at_other | done | done |].
  assert (∀ j, place j = Detached ∨ place j = Running → j ≠ i ∧ (nodes_ w3).[j] = (nodes_ w).[j]) as Hheld.
  { intros j Hpj. assert (j ≠ i) as Hj by (intros ->; destruct Hpj; congruence). split; [done |].
    rewrite Hfr; [by rewrite (lookup_update _ _ n), decide_False by done |].
    intros [? | Hin]%elem_of_cons; [done |].
    pose proof (in_chain_elsewhere _ _ _ _ _ _ _ Hs Hsr Hin). destruct Hpj; congruence. }
  exists w4, h. eexists _, _. split; [done |]. split; [| split; [done |]; split; [done |]; split; [done |]; split; [done |]; split; [| split]].
  - split; [done | split |].
    + intros j m Hm Hpj. change (nodes_ w4) with (nodes_ w3) in Hm.
      destruct (decide (j = i)) as [-> | Hj]; [rewrite upd_eq in Hpj; by destruct Hpj |].
      rewrite !upd_ne in Hpj by done.
      destruct (agree_but_inv _ _ i j m Hag Hj Hm) as (m0 & Hm0 & _ & -> & _). by apply (Hidle j m0).
    + rewrite Hcount. simpl. rewrite Ea, Hact, u32_add_l. f_equal. lia.
    + unfold now in *. simpl. rewrite Et, Ews, upd_ne; [done |]. by apply not_eq_sym.
  - by repeat split.
  - split; [| split].
    + intros j Hpj. destruct (Hheld j) as [Hj ?]; [by right |]. by rewrite !upd_ne by done.
    + intros j m Hpj Hm. destruct (Hheld j) as [Hj E]; [by left |]. rewrite !upd_ne by done.
      split; [done |]. exists m. by rewrite <- Hm.
    + intros j [Hj Hpj]%upd_other; [| done]. by rewrite upd_ne in Hpj.
  - intros Hcl j m s' Hm Hpj. change (nodes_ w4) with (nodes_ w3) in Hm.
    destruct (decide (j = i)) as [-> | Hj].
    + rewrite Hn3 in Hm. injection Hm as <-. unfold is_armed. rewrite Ecb. by rewrite bool_decide_true by by eexists.
    + rewrite !upd_ne in Hpj by done.
      destruct (agree_but_inv _ _ i j m Hag Hj Hm) as (m0 & Hm0 & _ & Ec & _).
      unfold is_armed. rewrite Ec. by apply (Hcl j m0 s').
Qed.

(** * Cancelling *)

Lemma pending_at w i n :
  ranges w → (nodes_ w).[i] = Some n → pending w !! pack_handle i (gen n) = snd <$> timer_of w i n.
Proof.
  intros Hr Hn. destruct (timer_of w i n) as [[h v] |] eqn:E; simpl.
  - apply pending_lookup; [done |]. exists i. unfold timer_at. rewrite Hn. simpl. rewrite E.
    unfold timer_of in E. inv_bind E. by injection K as <- _.
  - apply pending_none; [done |]. intros j v Hj.
    pose proof Hj as (m & Hm & _ & _ & Hh & _)%timer_at_Some.
    pose proof (proj2 Hr i n Hn). pose proof (proj2 Hr j m Hm). pose proof (getZ_Some _ _ _ Hn).
    pose proof (getZ_Some _ _ _ Hm). destruct Hr as [Hl _].
    apply (f_equal unpack_handle) in Hh. rewrite !unpack_pack in Hh by lia. injection Hh as <- _.
    unfold timer_at in Hj. rewrite Hn in Hj. simpl in Hj. congruence.
Qed.

Lemma pending_stale w i g :
  ranges w → 0 <= i < 2 ^ 32 → 0 <= g < 2 ^ 32 → (∀ n, (nodes_ w).[i] = Some n → gen n ≠ g) →
  pending w !! pack_handle i g = None.
Proof.
  intros Hr Hi Hg Hno. apply pending_none; [done |]. intros j v (m & Hm & _ & _ & Hh & _)%timer_at_Some.
  pose proof (proj2 Hr j m Hm). pose proof (getZ_Some _ _ _ Hm). destruct Hr as [Hl _].
  apply (f_equal unpack_handle) in Hh. rewrite !unpack_pack in Hh by lia. injection Hh as -> ->.
  by apply (Hno m).
Qed.

Lemma pending_invalid w : ranges w → pending w !! kInvalidHandle = None.
Proof.
  intros Hr. change kInvalidHandle with (pack_handle 0 0). apply pending_stale; [done | lia | lia |].
  intros n Hn. pose proof (proj2 Hr _ _ Hn). lia.
Qed.

(** Disarming node [i], by whatever writes: what follows for the map, the
    counter and the idle nodes. *)
Lemma disarm w w' place place' chains chains' rest fired i n n' :
  inv w place chains rest fired → (nodes_ w).[i] = Some n → is_armed n = true →
  shape w' place' chains' rest → agree_but (nodes_ w) (nodes_ w') i →
  (nodes_ w').[i] = Some n' → cb n' = None → (∀ j, j ≠ i → place' j = place j) →
  (chains' (now w) = []) → current_tick_ w' = current_tick_ w → wheel_size_ w' = wheel_size_ w →
  active_count_ w' = u32 (active_count_ w - 1) →
  inv w' place' chains' rest fired ∧ pending w' = delete (pack_handle i (gen n)) (pending w).
Proof.
  intros [Hs [Hidle Hact] Hcur] Hn Har Hs' Hag Hn' Hc' Hpl Hch Ht Hw Ha. split; [split; [done | split |] |].
  - intros j m Hm Hpj. destruct (decide (j = i)) as [-> | Hj]; [congruence |]. rewrite !Hpl in Hpj by done.
    destruct (agree_but_inv _ _ i j m Hag Hj Hm) as (m0 & Hm0 & _ & -> & _). by apply (Hidle j m0).
  - rewrite (agree_armed _ _ i n n') by done. rewrite Ha, Hact, u32_sub_l, Har.
    assert (is_armed n' = false) as -> by (unfold is_armed; by rewrite Hc').
    simpl. f_equal. lia.
  - unfold now in *. by rewrite Ht, Hw.
  - assert (∃ v, timer_at w i = Some (pack_handle i (gen n), v)) as [v Hv].
    { unfold is_armed in Har. apply bool_decide_eq_true in Har as [c Hc]. unfold timer_at, timer_of.
      rewrite Hn. simpl. rewrite Hc. by eexists. }
    eapply (pending_delete w w' i); [by eapply shape_ranges | by eapply shape_ranges | | exact Hv |].
    + intros j. by apply timer_at_other.
    + unfold timer_at, timer_of. rewrite Hn'. simpl. by rewrite Hc'.
Qed.

(** [cancel] outside a tick: the node leaves its bucket and goes back to the
    pool. *)
Lemma cancel_unlink w place chains rest fired i n s :
  inv w place chains rest fired → (nodes_ w).[i] = Some n → is_armed n = true → place i = Bucket s →
  ∃ w1 w' place' chains', unlink w i = Some w1 ∧ free_node ndebug w1 i = Some w' ∧
    let w'' := with_counts w' (current_tick_ w') (u32 (active_count_ w' - 1)) (in_tick_walk_ w') in
    inv w'' place' chains' rest fired ∧ pending w'' = delete (pack_handle i (gen n)) (pending w) ∧
    same_clock w w'' ∧ keeps w place w'' place' ∧ (clean w place → clean w'' place').
Proof.
  intros Hinv Hn Har Hpl. pose proof Hinv as [Hs [Hidle Hact] Hcur].
  destruct (i_slot _ _ _ _ _ Hs i n s Hn Hpl) as [_ Hsr].
  assert (i ∈ chains s) as Hin.
  { apply (i_chain _ _ _ _ _ Hs); [done |]. split; [by eapply node_range | done]. }
  apply list_elem_of_split in Hin as (ys & zs & Hc).
  destruct (shape_unlink _ _ _ _ _ s ys i zs Hs Hsr Hc) as (w1 & E1 & Hs1 & Hlo & Hsc & Hf1).
  destruct Hsc as (Et & Ea & Ew & Ews & Emk & Emt).
  destruct (proj2 Hlo i n Hn) as (n1 & Hn1 & _ & _ & _ & Eg).
  destruct (shape_free_node _ _ _ _ _ i n1 Hs1) as (w' & E2 & Hs2 & Hnodes & _ & Hsc2 & _);
    [rewrite Emt; by eapply node_range | by rewrite upd_eq | done |].
  destruct Hsc2 as (Et' & Ea' & Ew' & Ews' & Emk' & Emt').
  exists w1, w'. eexists _, _. split; [done |]. split; [done |]. cbv zeta.
  set (w'' := with_counts w' _ _ _).
  assert ((nodes_ w'').[i] = Some (freed n1)) as Hn''.
  { simpl. rewrite Hnodes, (lookup_update _ _ n1) by done. by rewrite decide_True. }
  assert (agree_but (nodes_ w) (nodes_ w'') i) as Hag.
  { eapply agree_trans; [by apply agree_links |]. simpl. rewrite Hnodes. by eapply agree_write. }
  destruct (disarm w w'' place (upd (upd place i Running) i Free) chains (upd chains s (ys ++ zs)) rest fired i n (freed n1))
    as [Hinv' Hpend]; try done.
  - by apply shape_with_counts.
  - intros j Hj. by rewrite !upd_ne.
  - destruct (decide (now w = s)) as [E | E]; [| by rewrite upd_ne].
    rewrite E in Hcur. rewrite Hc in Hcur. by destruct ys.
  - simpl. congruence.
  - simpl. congruence.
  - simpl. congruence.
  - split; [exact Hinv' |]. split; [done |]. split; [repeat split; simpl; congruence |].
    assert (∀ j, place j = Detached ∨ place j = Running → j ≠ i ∧ (nodes_ w'').[j] = (nodes_ w).[j]) as Hheld.
    { intros j Hpj. assert (j ≠ i) as Hj by (intros ->; destruct Hpj; congruence). split; [done |].
      simpl. rewrite Hnodes, (lookup_update _ _ n1), decide_False by done. apply Hf1. intros Hin.
      pose proof (in_chain_elsewhere _ _ _ _ _ _ _ Hs Hsr Hin). destruct Hpj; congruence. }
    split; [split; [| split] |].
    + intros j Hpj. destruct (Hheld j) as [Hj ?]; [by right |]. by rewrite !upd_ne by done.
    + intros j m Hpj Hm. destruct (Hheld j) as [Hj E]; [by left |]. rewrite !upd_ne by done.
      split; [done |]. exists m. by rewrite <- Hm.
    + intros j [Hj Hpj]%upd_other; [| done]. by rewrite upd_ne in Hpj.
    + intros Hcl j m s' Hm Hpj. destruct (decide (j = i)) as [-> | Hj]; [by rewrite upd_eq in Hpj |].
      rewrite !upd_ne in Hpj by done.
      destruct (agree_but_inv _ _ i j m Hag Hj Hm) as (m0 & Hm0 & _ & Ec & _).
      unfold is_armed. rewrite Ec. by apply (Hcl j m0 s').
Qed.

(** [cancel] from inside a callback: the node is only disarmed. *)
Lemma cancel_lazy w place chains rest fired i n :
  inv w place chains rest fired → (nodes_ w).[i] = Some n → is_armed n = true →
  let w' := with_nodes w ((nodes_ w).[i <- set_payload n None 0]) in
  let w'' := with_counts w' (current_tick_ w') (u32 (active_count_ w' - 1)) (in_tick_walk_ w') in
  inv w'' place chains rest fired ∧ pending w'' = delete (pack_handle i (gen n)) (pending w) ∧
  same_clock w w'' ∧ keeps w place w'' place.
Proof.
  intros Hinv Hn Har w' w''. pose proof Hinv as [Hs [Hidle Hact] Hcur].
  destruct (disarm w w'' place place chains chains rest fired i n (set_payload n None 0)) as [Hinv' Hp]; try done.
  - by apply shape_with_counts, shape_write_payload.
  - by eapply agree_write.
  - simpl. by rewrite (lookup_update _ _ n), decide_True by done.
  - split; [done |]. split; [done |]. split; [by repeat split |]. split; [| split; [| done]].
    + intros j Hpj. split; [done |]. simpl. rewrite (lookup_update _ _ n) by done.
      case_decide as Hj; [| done]. subst j. unfold is_armed in Har. rewrite (Hidle i n) in Har; [done | done | by right].
    + intros j m Hpj Hm. split; [done |]. simpl. rewrite (lookup_update _ _ n) by done.
      case_decide as Hj; [| by exists m]. subst j. rewrite Hn in Hm. injection Hm as <-. by eexists.
Qed.

Lemma cancel_spec w place chains rest fired h :
  inv w place chains rest fired → is_u64 h → (in_tick_walk_ w = false → rest = []) →
  ∃ w' place' chains', cancel ndebug w h = Some (w', bool_decide (is_Some (pending w !! h))) ∧
    inv w' place' chains' rest fired ∧ pending w' = delete h (pending w) ∧ same_clock w w' ∧
    keeps w place w' place' ∧ (in_tick_walk_ w = false → clean w place → clean w' place').
Proof.
  intros Hinv Hh Hwalk. pose proof Hinv as [Hs [Hidle Hact] Hcur]. pose proof (i_geom _ _ _ _ _ Hs) as Hg.
  pose proof (shape_ranges _ _ _ _ Hs) as Hr.
  assert (pending w !! h = None → ∃ w' place' chains',
    Some (w, false) = Some (w', bool_decide (is_Some (pending w !! h))) ∧
    inv w' place' chains' rest fired ∧ pending w' = delete h (pending w) ∧ same_clock w w' ∧
    keeps w place w' place' ∧ (in_tick_walk_ w = false → clean w place → clean w' place')) as Hmiss.
  { intros Hno. exists w, place, chains. rewrite bool_decide_false by (rewrite Hno; by intros []).
    rewrite delete_id by done. split; [done |]. split; [done |]. split; [done |]. split; [by repeat split |].
    split; [| done]. split; [done |]. split; [| done]. intros j m Hpj Hm. eauto. }
  unfold cancel. destruct (bool_decide_reflect (h = kInvalidHandle)) as [-> | Hne].
  { apply Hmiss. by apply pending_invalid. }
  pose proof (pack_unpack h Hh) as Hpk. destruct (unpack_handle h) as [i g] eqn:Hup. cbn [fst snd] in Hpk.
  assert (0 <= i < 2 ^ 32 ∧ 0 <= g < 2 ^ 32) as [Hi Hgr].
  { unfold unpack_handle in Hup. injection Hup as <- <-. split; mlia. }
  destruct (bool_decide_reflect (i >= max_timers_ w)) as [Hbig | Hsmall].
  { apply Hmiss. rewrite <- Hpk. apply pending_stale; [done | done | done |].
    intros n Hn. pose proof (node_range _ _ _ _ _ Hs i n Hn). lia. }
  destruct (node_of _ _ _ _ _ Hs i ltac:(lia)) as [n Hn]. rewrite Hn. cbn [mbind option_bind].
  destruct (bool_decide_reflect (gen n = g)) as [Hgn | Hgn]; cbn [negb].
  2: { apply Hmiss. rewrite <- Hpk. apply pending_stale; [done | done | done |]. intros n' Hn'. congruence. }
  pose proof (pending_at w i n Hr Hn) as Hat. rewrite Hgn, Hpk in Hat.
  destruct (is_armed n) eqn:Har; cbn [negb].
  2: { apply Hmiss. rewrite Hat. unfold is_armed in Har. unfold timer_of. by destruct (cb n). }
  rewrite bool_decide_true.
  2: { rewrite Hat. unfold is_armed in Har. apply bool_decide_eq_true in Har as [c Hc]. unfold timer_of. rewrite Hc.
       by eexists. }
  subst g. destruct (in_tick_walk_ w) eqn:Hw.
  - rewrite (update_Some _ _ n) by done. cbn [mbind option_bind].
    destruct (cancel_lazy w place chains rest fired i n Hinv Hn Har) as (H1 & H2 & H3 & H4).
    rewrite Hpk in H2. eexists _, place, chains. split; [done |].
    split; [exact H1 |]. split; [exact H2 |]. split; [exact H3 |]. by split.
  - assert (∃ s, place i = Bucket s) as [s Hps].
    { destruct (place i) as [| s | |] eqn:Hpl; [| by exists s | |].
      - unfold is_armed in Har. rewrite (Hidle i n) in Har; [done | done | by left].
      - assert (i ∈ rest) as Hin by (apply (i_rest _ _ _ _ _ Hs); split; [lia | done]).
        rewrite Hwalk in Hin by done. by apply elem_of_nil in Hin.
      - unfold is_armed in Har. rewrite (Hidle i n) in Har; [done | done | by right]. }
    destruct (cancel_unlink w place chains rest fired i n s Hinv Hn Har Hps)
      as (w1 & w' & place' & chains' & -> & E2 & H1 & H2 & H3 & H4 & H5). cbn [mbind option_bind].
    rewrite E2. cbn [mbind option_bind]. rewrite Hpk in H2. eexists _, place', chains'. by split.
Qed.

End Ops.
End TWOps.
