(* ===== verification/TimingWheelTick.v ===== *)
(** Ticking and resetting the timing wheel.

    [tick] detaches the chain of the current bucket before it runs a
    callback, so a callback may schedule and cancel: the invariant is
    restored whatever a well-behaved callback does ([tick_safe]).  For
    callbacks that leave the wheel alone, [tick_fires] says which run:
    exactly those whose last tick this is.

    What the timing wheel promises its clients.

    [at_rest w]: between two calls the invariant holds, no tick is running
    and every chained node is armed.  The [rest_*] lemmas state each
    operation over [pending] alone; [OrderManager.v] uses nothing else.
    [required_buffer_size] is enough for [construct]. *)
From S2P Require Import Prelude.
From S2P Require Import BitUtils.
From S2P Require Import IndexFreeStack.
From S2P Require Import TableInterface.
From S2P Require Import TimingWheel.
From S2P Require Import TimingWheelSpec.
Local Open Scope Z_scope.
Local Open Scope array_scope.

Module TWTick.
Import TW TWSpec TWOps.

Section Tick.
Context (ndebug : bool) {CB : Type}.
Implicit Types (w : TimingWheel CB) (n : TimerNode CB) (nodes : list (TimerNode CB)).
Abbreviation inv := (inv ndebug (CB := CB)).
Abbreviation shape := (shape ndebug (CB := CB)).

(** * What a callback may do *)

Inductive wheel_step w : TimingWheel CB → Prop :=
  | step_schedule c x delay w' h :
      1 <= delay < wheel_size_ w → schedule ndebug w (Some c) x delay = Some (w', h) → wheel_step w w'
  | step_cancel h w' b : is_u64 h → cancel ndebug w h = Some (w', b) → wheel_step w w'.

Lemma keeps_refl w place : keeps w place w place.
Proof. split; [done |]. split; [| done]. intros j m Hpj Hm. eauto. Qed.

Lemma keeps_trans w1 p1 w2 p2 w3 p3 : keeps w1 p1 w2 p2 → keeps w2 p2 w3 p3 → keeps w1 p1 w3 p3.
Proof.
  intros (R1 & D1 & N1) (R2 & D2 & N2). split; [| split; [| auto]].
  - intros j Hj. destruct (R1 j Hj) as [Hj2 E1]. destruct (R2 j Hj2) as [Hj3 E2]. split; congruence.
  - intros j n Hj Hn. destruct (D1 j n Hj Hn) as (Hj2 & n2 & Hn2 & E2).
    destruct (D2 j n2 Hj2 Hn2) as (Hj3 & n3 & Hn3 & E3). split; [done |]. exists n3. split; congruence.
Qed.

Lemma same_clock_trans w1 w2 w3 : same_clock w1 w2 → same_clock w2 w3 → same_clock w1 w3.
Proof. intros (? & ? & ? & ?) (? & ? & ? & ?). repeat split; congruence. Qed.

Lemma step_keeps w w' place chains rest fired :
  wheel_step w w' → inv w place chains rest fired → in_tick_walk_ w = true →
  ∃ place' chains', inv w' place' chains' rest fired ∧ keeps w place w' place' ∧ same_clock w w'.
Proof.
  intros Hst Hinv Hw. destruct Hst as [c x delay w' h Hd E | h w' b Hh E].
  - pose proof (schedule_spec ndebug w place chains rest fired c x delay Hinv Hd) as Hs.
    destruct (IFS.free_list (free_list_ w)).
    + rewrite E in Hs. injection Hs as -> _. exists place, chains. split; [done |]. split; [apply keeps_refl | by repeat split].
    + destruct Hs as (w2 & h2 & p2 & ch2 & E2 & Hi & _ & _ & _ & _ & Hc & Hk & _). rewrite E in E2.
      injection E2 as -> ->. eauto.
  - destruct (cancel_spec ndebug w place chains rest fired h Hinv Hh) as (w2 & p2 & ch2 & E2 & Hi & _ & Hc & Hk & _).
    { by rewrite Hw. }
    rewrite E in E2. injection E2 as -> ->. eauto.
Qed.

Lemma steps_keep w w' place chains rest fired :
  rtc wheel_step w w' → inv w place chains rest fired → in_tick_walk_ w = true →
  ∃ place' chains', inv w' place' chains' rest fired ∧ keeps w place w' place' ∧ same_clock w w'.
Proof.
  intros Hst. revert place chains. induction Hst as [w | w1 w2 w3 H12 H23 IH]; intros place chains Hinv Hw.
  - exists place, chains. split; [done |]. split; [apply keeps_refl | by repeat split].
  - destruct (step_keeps w1 w2 place chains rest fired H12 Hinv Hw) as (p2 & ch2 & Hi2 & Hk2 & Hc2).
    destruct (IH p2 ch2 Hi2) as (p3 & ch3 & Hi3 & Hk3 & Hc3).
    { destruct Hc2 as (_ & -> & _). done. }
    exists p3, ch3. split; [done |]. split; [by eapply keeps_trans | by eapply same_clock_trans].
Qed.

Section Walk.
Context {W : Type} (call : CB → Z → TimingWheel CB → W → option (TimingWheel CB * W)).

(** A callback runs to its end and touches the wheel only by scheduling and
    cancelling. *)
Definition well_behaved : Prop :=
  ∀ c x w world place chains rest fired,
    inv w place chains rest fired → in_tick_walk_ w = true →
    ∃ w' world', call c x w world = Some (w', world') ∧ rtc wheel_step w w'.

(** Taking the head of the detached chain in hand, disarmed: the step
    common to a skipped and to a fired node. *)
Lemma visit w place chains i rest fired n :
  inv w place chains (i :: rest) fired → (nodes_ w).[i] = Some n →
  ∃ w1, reset_links w i = Some w1 ∧ (nodes_ w1).[i] = Some (set_next (set_prev n kNullIdx) kNullIdx) ∧
    (∀ j, j ≠ i → (nodes_ w1).[j] = (nodes_ w).[j]) ∧ same_scalars w w1 ∧
    let w2 := with_nodes w1 ((nodes_ w1).[i <- set_payload (set_next (set_prev n kNullIdx) kNullIdx) None 0]) in
    inv w2 (upd place i Running) chains rest (fired + b2z (is_armed n)) ∧ i ∉ rest.
Proof.
  intros [Hs [Hidle Hact] Hcur] Hn.
  destruct (shape_visit _ _ _ _ _ _ n Hs Hn) as (E & Hs1 & Hi & Hpl & Hir).
  set (n1 := set_next (set_prev n kNullIdx) kNullIdx) in *.
  assert ((nodes_ w).[i <- n1].[i] = Some n1) as Hn1 by (rewrite (lookup_update _ _ n) by done; by rewrite decide_True).
  eexists. split; [exact E |]. split; [exact Hn1 |]. split.
  { intros j Hj. simpl. rewrite (lookup_update _ _ n) by done. by rewrite decide_False. }
  split; [by repeat split |]. cbv zeta. split; [| done].
  set (w1 := with_nodes w _) in *. set (w2 := with_nodes w1 _).
  assert ((nodes_ w2).[i] = Some (set_payload n1 None 0)) as Hn2.
  { simpl. rewrite (lookup_update _ _ n1) by done. by rewrite decide_True. }
  assert (agree_but (nodes_ w) (nodes_ w2) i) as Hag.
  { eapply agree_trans; [by eapply agree_write | by eapply (agree_write _ i n1)]. }
  split; [| split |].
  - by apply (shape_write_payload ndebug w1).
  - intros j m Hm Hpj. destruct (decide (j = i)) as [-> | Hj]; [rewrite Hn2 in Hm; by injection Hm as <- |].
    rewrite !upd_ne in Hpj by done.
    destruct (agree_but_inv _ _ i j m Hag Hj Hm) as (m0 & Hm0 & _ & -> & _). by apply (Hidle j m0).
  - rewrite (agree_armed _ _ i n _ Hag Hn Hn2). change (is_armed (set_payload n1 None 0)) with false.
    simpl. rewrite Hact. f_equal. lia.
  - done.
Qed.

(** Giving a node in hand back to the pool. *)
Lemma release w place chains rest fired i n :
  inv w place chains rest fired → (nodes_ w).[i] = Some n → place i = Running →
  ∃ w', free_node ndebug w i = Some w' ∧ inv w' (upd place i Free) chains rest fired ∧
    (∀ j, j ≠ i → (nodes_ w').[j] = (nodes_ w).[j]) ∧ (∃ n', (nodes_ w').[i] = Some n' ∧ cb n' = None) ∧
    same_scalars w w'.
Proof.
  intros [Hs [Hidle Hact] Hcur] Hn Hpl.
  destruct (shape_free_node _ w place chains rest i n Hs) as (w' & E & Hs' & Hnodes & _ & Hsc & _);
    [by eapply node_range | done | done |].
  exists w'. split; [done |].
  assert (∀ j, j ≠ i → (nodes_ w').[j] = (nodes_ w).[j]) as Ho.
  { intros j Hj. rewrite Hnodes, (lookup_update _ _ n) by done. by rewrite decide_False. }
  assert ((nodes_ w').[i] = Some (freed n)) as Hn'.
  { rewrite Hnodes, (lookup_update _ _ n) by done. by rewrite decide_True. }
  split; [| split; [done |]; split; [by exists (freed n) | done]].
  destruct Hsc as (Et & Ea & _ & Ew & _ & _). split; [done | split |].
  - intros j m Hm Hpj. destruct (decide (j = i)) as [-> | Hj]; [rewrite Hn' in Hm; by injection Hm as <- |].
    rewrite Ho in Hm by done. rewrite upd_ne in Hpj by done. by apply (Hidle j m).
  - rewrite (agree_armed (nodes_ w) (nodes_ w') i n (freed n)); [| rewrite Hnodes; by eapply agree_write | done | done].
    change (is_armed (freed n)) with false. assert (is_armed n = false) as ->
      by (unfold is_armed; rewrite (Hidle i n); [done | done | by right]).
    simpl. rewrite Ea, Hact. f_equal. lia.
  - unfold now in *. by rewrite Et, Ew.
Qed.

Lemma free_node_payload w i n :
  (nodes_ w).[i] = Some n →
  free_node ndebug (with_nodes w ((nodes_ w).[i <- set_payload n None 0])) i = free_node ndebug w i.
Proof.
  intros Hn. unfold free_node. simpl.
  assert (∀ m, (nodes_ w).[i <- m].[i] = Some m) as Hw
    by (intros m; rewrite (lookup_update _ _ n) by done; by rewrite decide_True).
  rewrite (update_Some (nodes_ w) i n) by done.
  rewrite (update_Some _ i (set_payload n None 0)) by apply Hw. cbn [mbind option_bind].
  rewrite setZ_setZ. rewrite !(update_Some (setZ _ _ _) i (set_gen _ _)) by apply Hw.
  cbn [mbind option_bind]. by rewrite !setZ_setZ.
Qed.

(** The walk ends within its fuel, every visited node back in the pool. *)
Lemma walk_safe (Hcall : well_behaved) rest : ∀ fuel w world place chains head fired,
  inv w place chains rest fired → forward (nodes_ w) head rest → in_tick_walk_ w = true →
  (length rest <= fuel)%nat → 0 <= fired → fired + lenZ rest < 2 ^ 32 →
  ∃ w' world' place' chains' fired',
    walk ndebug call fuel w world head fired = Some (w', world', fired') ∧
    inv w' place' chains' [] fired' ∧ same_clock w w' ∧ fired <= fired' <= fired + lenZ rest ∧
    ∀ j, place' j = Running → place j = Running.
Proof.
  induction rest as [| i rest IH]; intros fuel w world place chains head fired Hinv Hfw Hw Hfuel Hf0 Hf.
  { simpl in Hfw. subst head. exists w, world, place, chains, fired.
    destruct fuel; simpl; (split; [done |]; split; [done |]; split; [by repeat split | split; [simpl; lia | done]]). }
  destruct Hfw as (-> & n & Hn & Hfw). destruct fuel as [| fuel]; [simpl in Hfuel; lia |].
  simpl length in Hf, Hfuel.
  pose proof (i_shape _ _ _ _ _ _ Hinv) as Hs.
  assert (i ≠ kNullIdx) as Hnull by (eapply index_not_null; [exact Hs | by eapply node_range]).
  destruct (visit w place chains i rest fired n Hinv Hn) as (w1 & E1 & Hn1 & Ho1 & Hsc1 & Hinv2 & Hir).
  set (n1 := set_next (set_prev n kNullIdx) kNullIdx) in *.
  set (w2 := with_nodes w1 _) in Hinv2.
  assert (same_clock w w2) as Hc2 by (destruct Hsc1 as (? & ? & ? & ? & ? & ?); repeat split; simpl; congruence).
  assert ((nodes_ w2).[i] = Some (set_payload n1 None 0)) as Hn2.
  { simpl. rewrite (lookup_update _ _ n1) by done. by rewrite decide_True. }
  assert (forward (nodes_ w2) (next n) rest) as Hfw2.
  { eapply forward_frame; [| exact Hfw]. intros y m Hy Hm. exists m. split; [| done].
    assert (y ≠ i) by (by intros ->). simpl. rewrite (lookup_update _ _ n1), decide_False, Ho1 by done. done. }
  (* the head is free again and the rest still linked: go on *)
  assert (∀ w3 world3 place3 chains3 fired3, inv w3 place3 chains3 rest fired3 → same_clock w w3 →
    keeps w2 (upd place i Running) w3 place3 → fired <= fired3 <= fired + 1 →
    ∃ w' world' place' chains' fired', (w4 ← free_node ndebug w3 i; walk ndebug call fuel w4 world3 (next n) fired3)
      = Some (w', world', fired') ∧ inv w' place' chains' [] fired' ∧ same_clock w w' ∧
      fired <= fired' <= fired + lenZ (i :: rest) ∧ ∀ j, place' j = Running → place j = Running) as Hgo.
  { intros w3 world3 place3 chains3 fired3 Hinv3 Hc3 (Hk1 & Hk2 & Hk3) Hf3.
    destruct (Hk1 i) as [Hp3 Hn3]; [apply upd_eq |]. rewrite Hn2 in Hn3.
    destruct (release w3 place3 chains3 rest fired3 i _ Hinv3 Hn3 Hp3) as (w4 & -> & Hinv4 & Ho4 & _ & Hsc4).
    cbn [mbind option_bind].
    destruct (IH fuel w4 world3 (upd place3 i Free) chains3 (next n) fired3)
      as (w' & world' & place' & chains' & fired' & E & Hinv' & Hc' & Hf' & Hrun); [done | | | lia | lia | lia |].
    - eapply forward_frame; [| exact Hfw2]. intros y m Hy Hm.
      assert (y ≠ i) by (by intros ->). rewrite Ho4 by done. apply (Hk2 y m); [| done].
      rewrite upd_ne by done. by apply (i_rest _ _ _ _ _ Hs); right.
    - destruct Hsc4 as (_ & _ & -> & _). destruct Hc3 as (_ & -> & _). done.
    - exists w', world', place', chains', fired'. split; [done |]. split; [done |].
      split; [| split; [simpl length; lia |]].
      + eapply same_clock_trans; [exact Hc3 |]. eapply same_clock_trans; [| exact Hc'].
        destruct Hsc4 as (? & ? & ? & ? & ? & ?). by repeat split.
      + intros j [Hji Hj]%Hrun%upd_other; [| done]. apply Hk3 in Hj. by rewrite upd_ne in Hj. }
  cbn [walk]. rewrite bool_decide_false by done. rewrite Hn. cbn [mbind option_bind].
  unfold is_armed in Hinv2. destruct (cb n) as [c |] eqn:Hc.
  - rewrite E1. cbn [mbind option_bind]. rewrite (update_Some _ _ n1) by done. cbn [mbind option_bind].
    fold w2. destruct (Hcall c (ctx n) w2 world _ _ _ _ Hinv2) as (w3 & world3 & -> & Hst).
    { destruct Hc2 as (_ & -> & _). done. }
    cbn [mbind option_bind].
    destruct (steps_keep w2 w3 _ _ _ _ Hst Hinv2) as (place3 & chains3 & Hinv3 & Hk3 & Hc3).
    { destruct Hc2 as (_ & -> & _). done. }
    rewrite bool_decide_true in Hinv3 by by eexists. simpl in Hinv3.
    destruct (proj1 Hk3 i) as [_ Hn3]; [apply upd_eq |]. rewrite Hn3, Hn2. cbn [mbind option_bind].
    rewrite bool_decide_true by done. rewrite u32_id by mlia.
    apply (Hgo w3 world3 place3 chains3 (fired + 1) Hinv3); [by eapply same_clock_trans | done | lia].
  - rewrite E1. cbn [mbind option_bind]. rewrite bool_decide_false in Hinv2 by by intros []. simpl in Hinv2.
    rewrite <- (free_node_payload w1 i n1 Hn1). fold w2.
    apply (Hgo w2 world _ _ fired ltac:(by rewrite Z.add_0_r in Hinv2)); [done | apply keeps_refl | lia].
Qed.

(** Before and after the walk. *)
Lemma tick_start w place chains :
  inv w place chains [] 0 →
  ∃ head heads s, s = (current_tick_ w + 1) mod wheel_size_ w ∧ 0 <= s < wheel_size_ w ∧
    Z.land (u64 (current_tick_ w + 1)) (wheel_mask_ w) = s ∧
    (bucket_heads_ w).[s] = Some head ∧ storeZ (bucket_heads_ w) s kNullIdx = Some heads ∧
    inv (with_counts (with_chain w heads (nodes_ w)) (u64 (current_tick_ w + 1)) (active_count_ w) true)
      (detach place s) (upd chains s []) (chains s) 0 ∧
    forward (nodes_ w) head (chains s) ∧ (length (chains s) <= Z.to_nat (max_timers_ w))%nat.
Proof.
  intros [Hs [Hidle Hact] Hcur]. pose proof (i_geom _ _ _ _ _ Hs) as Hg.
  pose proof (wheel_bounds ndebug w Hg) as Hwb.
  set (s := (current_tick_ w + 1) mod wheel_size_ w).
  assert (0 <= s < wheel_size_ w) as Hr by (apply Z.mod_pos_bound; lia).
  destruct (i_heads _ _ _ _ _ Hs s Hr) as (head & Hh & Hl).
  exists head, ((bucket_heads_ w).[s <- kNullIdx]), s.
  assert (storeZ (bucket_heads_ w) s kNullIdx = Some ((bucket_heads_ w).[s <- kNullIdx])) as Hst
    by (apply storeZ_Some; by eapply getZ_Some).
  split; [done |]. split; [done |]. split; [by apply (mask_slot ndebug) |]. split; [done |]. split; [done |].
  split; [| split; [by eapply linked_forward |]].
  - split; [| split |].
    + apply shape_with_counts. by apply shape_detach.
    + simpl. intros i n Hn Hp. apply (Hidle i n Hn). unfold detach in Hp. case_decide; [by destruct Hp | done].
    + done.
    + unfold now. simpl. rewrite (u64_mod_wheel ndebug) by done. apply upd_eq.
  - pose proof (IFS.nodup_range_length (chains s) (max_timers_ w) (i_nodup _ _ _ _ _ Hs s Hr)) as Hlen.
    pose proof (g_timers _ _ Hg). ospecialize (Hlen _); [| lia].
    intros i Hi. by destruct (chain_in _ _ _ _ _ Hs s i Hr Hi).
Qed.

Lemma tick_end w place chains fired :
  inv w place chains [] fired →
  inv (with_counts w (current_tick_ w) (u32 (active_count_ w - fired)) false) place chains [] 0.
Proof.
  intros [Hs [Hidle Hact] Hcur]. split; [by apply shape_with_counts | split; [done |] | done].
  simpl. rewrite Hact, u32_sub_l. f_equal. lia.
Qed.

(** * A tick is safe for any well-behaved callback *)
Lemma tick_safe (Hcall : well_behaved) w world place chains :
  inv w place chains [] 0 →
  ∃ w' world' fired place' chains', tick ndebug call w world = Some (w', world', fired) ∧
    inv w' place' chains' [] 0 ∧ in_tick_walk_ w' = false ∧ 0 <= fired <= max_timers_ w ∧
    current_tick_ w' = u64 (current_tick_ w + 1) ∧ wheel_size_ w' = wheel_size_ w ∧ max_timers_ w' = max_timers_ w ∧
    ∀ j, place' j = Running → place j = Running.
Proof.
  intros Hinv. destruct (tick_start w place chains Hinv) as (head & heads & s & _ & Hr & Es & Hh & Hst & Hinv1 & Hfw & Hlen).
  pose proof (g_timers _ _ (i_geom _ _ _ _ _ (i_shape _ _ _ _ _ _ Hinv))) as Hmt.
  unfold tick. rewrite Es, Hh. cbn [mbind option_bind]. rewrite Hst. cbn [mbind option_bind].
  destruct (walk_safe Hcall (chains s) (Z.to_nat (max_timers_ w)) _ world _ _ head 0 Hinv1)
    as (w' & world' & place' & chains' & fired & E & Hinv' & (Ht & _ & Hw & Hm) & Hf & Hrun); [done | done | done | lia | lia |].
  simpl in Ht, Hw, Hm. change (max_timers_ (with_counts _ _ _ _)) with (max_timers_ w).
  rewrite E. cbn [mbind option_bind]. eexists _, world', fired, place', chains'. split; [done |].
  split; [by apply tick_end |]. simpl. repeat (split; [done || lia |]).
  intros j Hj%Hrun. unfold detach in Hj. by case_decide.
Qed.
End Walk.

(** * Which callbacks run

    Callbacks that leave the wheel alone: [act] is their effect on the
    world, and may fail. *)
Section Fires.
Context {W : Type} (act : CB → Z → W → option W).

Definition call_of (c : CB) (x : Z) w (world : W) : option (TimingWheel CB * W) :=
  world' ← act c x world; Some (w, world').

Lemma omap_ext_in {A B : Type} (f g : A → option B) (l : list A) :
  (∀ x, x ∈ l → f x = g x) → omap f l = omap g l.
Proof.
  induction l as [| a l IH]; intros Hfg; [done |].
  assert (omap f l = omap g l) as E by (apply IH; intros x Hx; apply Hfg; by right).
  unfold omap in *. simpl. by rewrite Hfg, E by left.
Qed.

Definition payload_at w (i : Z) : option (CB * Z) := n ← (nodes_ w).[i]; c ← cb n; Some (c, ctx n).
Definition payloads w (xs : list Z) : list (CB * Z) := omap (payload_at w) xs.
Definition run (world : W) (l : list (CB * Z)) : option W := foldM (λ a c x, act c x a) world l.

Lemma walk_fires rest : ∀ fuel w place chains head fired,
  inv w place chains rest fired → forward (nodes_ w) head rest → in_tick_walk_ w = true →
  (∀ i n, i ∈ rest → (nodes_ w).[i] = Some n → is_armed n = true) →
  (length rest <= fuel)%nat → 0 <= fired → fired + lenZ rest < 2 ^ 32 →
  ∃ w' place', (∀ world, walk ndebug call_of fuel w world head fired =
      world' ← run world (payloads w rest); Some (w', world', fired + lenZ rest)) ∧
    inv w' place' chains [] (fired + lenZ rest) ∧ same_clock w w' ∧
    (∀ j, j ∉ rest → place' j = place j ∧ (nodes_ w').[j] = (nodes_ w).[j]) ∧
    (∀ j, j ∈ rest → place' j = Free ∧ ∃ n', (nodes_ w').[j] = Some n' ∧ cb n' = None).
Proof.
  induction rest as [| i rest IH]; intros fuel w place chains head fired Hinv Hfw Hw Harm Hfuel Hf0 Hf.
  { simpl in Hfw. subst head. exists w, place. rewrite Z.add_0_r.
    split; [by destruct fuel |]. split; [done |]. split; [by repeat split |]. split; [done |].
    by intros j ?%elem_of_nil. }
  destruct Hfw as (-> & n & Hn & Hfw). destruct fuel as [| fuel]; [simpl in Hfuel; lia |].
  simpl length in Hf, Hfuel. pose proof (i_shape _ _ _ _ _ _ Hinv) as Hs.
  assert (i ≠ kNullIdx) as Hnull by (eapply index_not_null; [exact Hs | by eapply node_range]).
  destruct (visit w place chains i rest fired n Hinv Hn) as (w1 & E1 & Hn1 & Ho1 & Hsc1 & Hinv2 & Hir).
  pose proof (Harm i n ltac:(left) Hn) as Har. rewrite Har in Hinv2.
  assert (∃ c, cb n = Some c) as [c Hc] by (unfold is_armed in Har; by apply bool_decide_eq_true in Har as [c Hc]; exists c).
  set (n1 := set_next (set_prev n kNullIdx) kNullIdx) in *. set (w2 := with_nodes w1 _) in Hinv2.
  assert ((nodes_ w2).[i] = Some (set_payload n1 None 0)) as Hn2.
  { simpl. rewrite (lookup_update _ _ n1) by done. by rewrite decide_True. }
  assert (∀ j, j ≠ i → (nodes_ w2).[j] = (nodes_ w).[j]) as Ho2.
  { intros j Hj. simpl. by rewrite (lookup_update _ _ n1), decide_False, Ho1 by done. }
  destruct (release w2 _ chains rest _ i _ Hinv2 Hn2 (upd_eq _ _ _)) as (w3 & E3 & Hinv3 & Ho3 & (n3 & Hn3 & Hc3) & Hsc3).
  assert (∀ j, j ∈ rest → j ≠ i) as Hne by (intros j Hj ->; done).
  assert (same_clock w w3) as Hcl3.
  { destruct Hsc1 as (? & ? & ? & ? & ? & ?), Hsc3 as (? & ? & ? & ? & ? & ?). repeat split; simpl in *; congruence. }
  destruct (IH fuel w3 _ chains (next n) (fired + 1) Hinv3) as (w' & place' & E & Hinv' & Hcl' & Hout & Hin).
  - eapply forward_frame; [| exact Hfw]. intros y m Hy Hm. exists m. by rewrite Ho3, Ho2 by auto.
  - destruct Hcl3 as (_ & -> & _). done.
  - intros j m Hj Hm. rewrite Ho3, Ho2 in Hm by auto. apply (Harm j m); [by right | done].
  - lia.
  - lia.
  - lia.
  - exists w', place'. simpl length. rewrite Nat2Z.inj_succ.
    replace (fired + Z.succ (lenZ rest)) with (fired + 1 + lenZ rest) by lia.
    split; [| split; [done |]; split; [by eapply same_clock_trans |]; split].
    + intros world. cbn [walk]. rewrite bool_decide_false by done. rewrite Hn. cbn [mbind option_bind].
      rewrite Hc, E1. cbn [mbind option_bind]. rewrite (update_Some _ _ n1) by done. cbn [mbind option_bind].
      fold w2. assert (call_of c (ctx n) w2 world = world' ← act c (ctx n) world; Some (w2, world')) as -> by done.
      unfold payloads. cbn [omap list_omap]. fold (payloads w rest).
      unfold payload_at at 1. rewrite Hn. cbn [mbind option_bind]. rewrite Hc. cbn [mbind option_bind].
      unfold run. rewrite foldM_cons. cbn [fst snd].
      destruct (act c (ctx n) world) as [world' |]; cbn [mbind option_bind]; [| done].
      rewrite Hn2. cbn [mbind option_bind]. rewrite bool_decide_true by done. rewrite E3. cbn [mbind option_bind].
      rewrite u32_id by mlia. rewrite E. unfold run.
      assert (payloads w3 rest = payloads w rest) as ->; [| done].
      unfold payloads. apply omap_ext_in. intros j Hj. unfold payload_at. by rewrite Ho3, Ho2 by auto.
    + intros j Hj. apply not_elem_of_cons in Hj as [Hji Hj]. destruct (Hout j Hj) as [-> ->].
      by rewrite !upd_ne, Ho3, Ho2 by done.
    + intros j [-> | Hj]%elem_of_cons; [| by apply Hin]. destruct (Hout i Hir) as [-> ->].
      rewrite upd_eq. split; [done |]. by exists n3.
Qed.

(** An armed timer sits in the bucket of its slot, not the current one. *)
Lemma armed_bucket w place chains fired i n :
  inv w place chains [] fired → (nodes_ w).[i] = Some n → is_armed n = true →
  place i = Bucket (slot n) ∧ 0 <= slot n < wheel_size_ w ∧ slot n ≠ now w ∧ i ∈ chains (slot n).
Proof.
  intros [Hs [Hidle Hact] Hcur] Hn Har. unfold is_armed in Har.
  pose proof (node_range _ _ _ _ _ Hs i n Hn) as Hi.
  destruct (place i) as [| s | |] eqn:Hp.
  - rewrite (Hidle i n) in Har; [done | done | by left].
  - destruct (i_slot _ _ _ _ _ Hs i n s Hn Hp) as [<- Hr].
    assert (i ∈ chains (slot n)) as Hin by (by apply (i_chain _ _ _ _ _ Hs)).
    split; [done |]. split; [done |]. split; [| done]. intros E. rewrite E, Hcur in Hin. by apply elem_of_nil in Hin.
  - assert (i ∈ []) as Hin by (by apply (i_rest _ _ _ _ _ Hs)). by apply elem_of_nil in Hin.
  - rewrite (Hidle i n) in Har; [done | done | by right].
Qed.

Lemma distance_step ws t a : 0 < ws → (a - t) mod ws ≠ 0 → (a - (t + 1)) mod ws = (a - t) mod ws - 1.
Proof.
  intros Hws Hne. pose proof (Z.mod_pos_bound (a - t) ws Hws).
  replace (a - (t + 1)) with ((a - t) - 1) by lia. rewrite <- Zminus_mod_idemp_l. apply Z.mod_small. lia.
Qed.

Lemma distance_one ws t a : 0 < ws → 0 <= a < ws → (a - t) mod ws = 1 ∧ 1 < ws ↔ a = (t + 1) mod ws ∧ 1 < ws.
Proof.
  intros Hws Ha. split; intros [H Hw]; (split; [| done]).
  - assert ((t + (a - t) mod ws) mod ws = a) as E.
    { rewrite Zplus_mod_idemp_r. replace (t + (a - t)) with a by lia. by apply Z.mod_small. }
    by rewrite H in E.
  - subst a. rewrite Zminus_mod_idemp_l. replace (t + 1 - t) with 1 by lia. apply Z.mod_small. lia.
Qed.

Lemma distance_zero ws t a : 0 < ws → 0 <= a < ws → (a - t) mod ws = 0 → a = t mod ws.
Proof.
  intros Hws Ha H. rewrite <- (Z.mod_small a ws) by done.
  replace a with ((a - t) + t) at 1 by lia. rewrite <- Zplus_mod_idemp_l, H. by rewrite Z.add_0_l.
Qed.

Definition payload_of (kv : Z * (Z * CB * Z)) : CB * Z := (kv.2.1.2, kv.2.2).

Lemma omap_of_fmap {A B C : Type} (f : A → option C) (g : B → C) (h : A → option B) (l : list A) :
  (∀ x, f x = g <$> h x) → omap f l = g <$> omap h l.
Proof.
  intros Hf. induction l as [| a l IH]; [done |]. unfold omap in *. simpl. rewrite Hf.
  destruct (h a); simpl; by rewrite IH.
Qed.

Lemma payloads_timers w xs : payloads w xs = payload_of <$> omap (timer_at w) xs.
Proof.
  apply omap_of_fmap. intros i. unfold payload_at, timer_at, timer_of.
  destruct ((nodes_ w).[i]) as [n |]; simpl; [| done]. by destruct (cb n).
Qed.

(** The chain of the next slot holds the timers with one tick left. *)
Lemma chain_due w place chains s :
  inv w place chains [] 0 → s = (current_tick_ w + 1) mod wheel_size_ w → 0 <= s < wheel_size_ w →
  omap (timer_at w) (chains s) ≡ₚ map_to_list (filter (λ kv, kv.2.1.1 = 1) (pending w)).
Proof.
  intros Hinv Hs Hr. pose proof (i_shape _ _ _ _ _ _ Hinv) as Hsh. pose proof (shape_ranges _ _ _ _ _ Hsh) as Hrg.
  pose proof (wheel_bounds ndebug w (i_geom _ _ _ _ _ Hsh)) as Hwb.
  apply NoDup_Permutation.
  - eapply NoDup_fmap_1. apply omap_fst_NoDup; [by apply (i_nodup _ _ _ _ _ Hsh) |].
    intros x y h v v' _ _. by apply handle_inj.
  - apply NoDup_map_to_list.
  - intros [h v]. rewrite list_elem_of_omap, elem_of_map_to_list, map_lookup_filter_Some, pending_lookup by done.
    simpl. split.
    + intros (i & Hi & Ht). split; [by exists i |]. apply timer_at_Some in Ht as (n & Hn & _ & _ & _ & ->).
      destruct (chain_in _ _ _ _ _ Hsh s i Hr Hi) as [_ Hp].
      destruct (i_slot _ _ _ _ _ Hsh i n s Hn Hp) as [Hsl _].
      apply (distance_one (wheel_size_ w) (current_tick_ w) (slot n)); [lia | lia |]. lia.
    + intros [[i Ht] Hone]. exists i. split; [| done].
      pose proof Ht as (n & Hn & Hc & _ & _ & Hd)%timer_at_Some.
      destruct (armed_bucket w place chains 0 i n Hinv Hn) as (Hp & Hsr & _ & Hin).
      { unfold is_armed. rewrite Hc. by rewrite bool_decide_true by by eexists. }
      assert (slot n = s) as <-; [| done]. rewrite Hs.
      apply (distance_one (wheel_size_ w) (current_tick_ w) (slot n)); [lia | lia |]. lia.
Qed.

Definition elapse (v : Z * CB * Z) : Z * CB * Z := (v.1.1 - 1, v.1.2, v.2).

(** * The tick runs exactly the timers with one tick left *)
Lemma tick_fires w place chains :
  inv w place chains [] 0 → clean w place →
  ∃ w' due place' chains',
    (∀ world, tick ndebug call_of w world = world' ← run world due; Some (w', world', lenZ due)) ∧
    due ≡ₚ payload_of <$> map_to_list (filter (λ kv, kv.2.1.1 = 1) (pending w)) ∧
    pending w' = elapse <$> filter (λ kv, kv.2.1.1 ≠ 1) (pending w) ∧
    inv w' place' chains' [] 0 ∧ clean w' place' ∧ in_tick_walk_ w' = false ∧
    wheel_size_ w' = wheel_size_ w ∧ max_timers_ w' = max_timers_ w ∧
    ∀ j, place' j = Running → place j = Running.
Proof.
  intros Hinv Hclean.
  destruct (tick_start w place chains Hinv) as (head & heads & s & Hsv & Hr & Es & Hh & Hst & Hinv1 & Hfw & Hlen).
  pose proof (i_shape _ _ _ _ _ _ Hinv) as Hsh. pose proof (i_geom _ _ _ _ _ Hsh) as Hg.
  pose proof (g_timers _ _ Hg) as Hmt. pose proof (wheel_bounds ndebug w Hg) as Hwb.
  set (w1 := with_counts (with_chain w heads (nodes_ w)) (u64 (current_tick_ w + 1)) (active_count_ w) true) in Hinv1.
  assert (∀ i n, i ∈ chains s → (nodes_ w).[i] = Some n → is_armed n = true) as Harm.
  { intros i n Hi Hn. apply (Hclean i n s Hn). by apply (in_chain_elsewhere _ _ _ _ _ _ _ Hsh Hr). }
  destruct (walk_fires (chains s) (Z.to_nat (max_timers_ w)) w1 _ _ head 0 Hinv1)
    as (w2 & place' & E & Hinv2 & (Ht & _ & Hws & Hm) & Hout & Hin); [done | done | done | done | lia | lia |].
  simpl in Ht, Hws, Hm, Hout.
  change (payloads w1 (chains s)) with (payloads w (chains s)) in E.
  assert (lenZ (payloads w (chains s)) = lenZ (chains s)) as Hpl.
  { unfold payloads. assert (∀ xs, (∀ i, i ∈ xs → is_Some (payload_at w i)) → length (omap (payload_at w) xs) = length xs) as Hom.
    { induction xs as [| x xs IHx]; intros Hx; [done |]. destruct (Hx x ltac:(left)) as [v Hv].
      unfold omap in *. simpl. rewrite Hv. simpl. rewrite IHx; [done |]. intros i Hi. apply Hx. by right. }
    rewrite Hom; [done |]. intros i Hi. destruct (chain_in _ _ _ _ _ Hsh s i Hr Hi) as [Hir _].
    destruct (node_of _ _ _ _ _ Hsh i Hir) as [n Hn]. pose proof (Harm i n Hi Hn) as Ha.
    unfold is_armed in Ha. apply bool_decide_eq_true in Ha as [c Hc]. unfold payload_at. rewrite Hn. simpl. rewrite Hc. by eexists. }
  set (w' := with_counts w2 (current_tick_ w2) (u32 (active_count_ w2 - (0 + lenZ (chains s)))) false).
  exists w', (payloads w (chains s)), place', (upd chains s []).
  split; [| split; [| split; [| split; [by apply tick_end | split]]]].
  - intros world. unfold tick. rewrite Es, Hh. cbn [mbind option_bind]. rewrite Hst. cbn [mbind option_bind].
    fold w1. change (max_timers_ w1) with (max_timers_ w). rewrite E.
    destruct (run world _) as [world' |]; cbn [mbind option_bind]; [| done]. by rewrite Hpl, Z.add_0_l.
  - rewrite payloads_timers. apply fmap_Permutation. by eapply chain_due.
  - pose proof (shape_ranges _ _ _ _ _ Hsh) as Hrg. pose proof (shape_ranges _ _ _ _ _ (i_shape _ _ _ _ _ _ Hinv2)) as Hrg2.
    apply map_eq. intros h. apply option_eq. intros u. rewrite pending_lookup by exact Hrg2.
    rewrite lookup_fmap_Some. setoid_rewrite map_lookup_filter_Some. setoid_rewrite pending_lookup; [| done]. simpl.
    assert (∀ i n c, (nodes_ w).[i] = Some n → cb n = Some c → i ∉ chains s →
      timer_at w i = Some (pack_handle i (gen n), ((slot n - current_tick_ w) mod wheel_size_ w, c, ctx n)) ∧
      (slot n - current_tick_ w) mod wheel_size_ w ≠ 1 ∧
      timer_at w' i = Some (pack_handle i (gen n), ((slot n - current_tick_ w) mod wheel_size_ w - 1, c, ctx n))) as Hlive.
    { intros i n c Hn Hc Hi. unfold timer_at, timer_of. rewrite Hn. simpl. rewrite Hc. simpl. split; [done |].
      destruct (armed_bucket w place chains 0 i n Hinv Hn) as (_ & Hsr & Hnow & Hic).
      { unfold is_armed. rewrite Hc. by rewrite bool_decide_true by by eexists. }
      split.
      - intros Hone. apply Hi. assert (slot n = s) as <-; [| done]. rewrite Hsv.
        apply (distance_one (wheel_size_ w) (current_tick_ w) (slot n)); [lia | lia |]. lia.
      - rewrite (proj2 (Hout i Hi)), Hn. simpl. rewrite Hc. simpl. do 4 f_equal. rewrite Ht, Hws.
        rewrite Zminus_mod, (u64_mod_wheel ndebug), <- Zminus_mod by done.
        apply distance_step; [lia |]. intros Hz. apply Hnow. apply distance_zero; [lia | lia | done]. }
    split.
    + intros [i Hi]. pose proof Hi as (n' & Hn' & Hc' & _)%timer_at_Some. simpl in Hn'.
      destruct (decide (i ∈ chains s)) as [Hic | Hic].
      { destruct (Hin i Hic) as (_ & n2 & Hn2 & Hc2). congruence. }
      rewrite (proj2 (Hout i Hic)) in Hn'. destruct (Hlive i n' _ Hn' Hc' Hic) as (H1 & H2 & H3).
      rewrite H3 in Hi. injection Hi as <- <-. eexists. split; [| split; [by exists i |]]; done.
    + intros (v & <- & [i Hi] & Hv). pose proof Hi as (n & Hn & Hc & _ & _ & Hd)%timer_at_Some.
      destruct (decide (i ∈ chains s)) as [Hic | Hic].
      { destruct Hv. rewrite Hd. destruct (chain_in _ _ _ _ _ Hsh s i Hr Hic) as [_ Hp].
        destruct (i_slot _ _ _ _ _ Hsh i n s Hn Hp) as [Hsl _].
        apply (distance_one (wheel_size_ w) (current_tick_ w) (slot n)); [lia | lia |]. lia. }
      destruct (Hlive i n _ Hn Hc Hic) as (H1 & H2 & H3). rewrite H1 in Hi. injection Hi as <- <-. by exists i.
  - intros j n s' Hn Hp. destruct (decide (j ∈ chains s)) as [Hjc | Hjc]; [by rewrite (proj1 (Hin j Hjc)) in Hp |].
    simpl in Hn. destruct (Hout j Hjc) as [E1 E2]. rewrite E1 in Hp. rewrite E2 in Hn.
    unfold detach in Hp. case_decide; [done |]. by apply (Hclean j n s').
  - split; [done |]. split; [done |]. split; [done |]. intros j Hj.
    destruct (decide (j ∈ chains s)) as [Hjc | Hjc]; [by rewrite (proj1 (Hin j Hjc)) in Hj |].
    rewrite (proj1 (Hout j Hjc)) in Hj. unfold detach in Hj. by case_decide.
Qed.
End Fires.
End Tick.
End TWTick.

Module TWService.
Import TW TWSpec TWOps TWTick.

Section Service.
Context (ndebug : bool) {CB : Type}.
Implicit Types (w : TimingWheel CB) (n : TimerNode CB).
Abbreviation inv := (inv ndebug (CB := CB)).
Abbreviation shape := (shape ndebug (CB := CB)).

Definition at_rest w : Prop :=
  ∃ place chains, inv w place chains [] 0 ∧ clean w place ∧ in_tick_walk_ w = false ∧
    ∀ j, place j ≠ Running.

Lemma rest_ranges w : at_rest w → ranges w.
Proof. intros (place & chains & [Hs _ _] & _). by eapply shape_ranges. Qed.

Lemma rest_dims w : at_rest w → 2 <= wheel_size_ w <= 2 ^ 31 ∧ 1 <= max_timers_ w <= 2 ^ 31.
Proof.
  intros (place & chains & [Hs _ _] & _). pose proof (i_geom _ _ _ _ _ Hs) as Hg.
  split; [by apply (wheel_bounds ndebug) | by apply (g_timers _ _ Hg)].
Qed.

(** Every armed timer has between one tick and a full turn left. *)
Lemma rest_remaining w h v : at_rest w → pending w !! h = Some v → 1 <= v.1.1 < wheel_size_ w.
Proof.
  intros Hr Hv. pose proof (rest_ranges w Hr) as Hrg. destruct (rest_dims w Hr) as [Hwb _].
  destruct Hr as (place & chains & Hinv & _).
  apply pending_lookup in Hv as [i (n & Hn & Hc & _ & _ & ->)%timer_at_Some]; [| done].
  destruct (armed_bucket ndebug w place chains 0 i n Hinv Hn) as (_ & Hsr & Hnow & _).
  { unfold is_armed. rewrite Hc. by rewrite bool_decide_true by by eexists. }
  pose proof (Z.mod_pos_bound (slot n - current_tick_ w) (wheel_size_ w)).
  assert ((slot n - current_tick_ w) mod wheel_size_ w ≠ 0); [| lia].
  intros Hz. apply Hnow. apply distance_zero; [lia | lia | done].
Qed.

Lemma rest_handle w h v : at_rest w → pending w !! h = Some v → is_u64 h ∧ h ≠ kInvalidHandle.
Proof.
  intros Hr Hv. pose proof (rest_ranges w Hr) as Hrg. split.
  - apply pending_lookup in Hv as [i (n & Hn & _ & _ & -> & _)%timer_at_Some]; [| done].
    pose proof (proj2 Hrg i n Hn). pose proof (getZ_Some _ _ _ Hn). destruct Hrg as [Hl _].
    rewrite pack_handle_eq by lia. mlia.
  - intros ->. rewrite pending_invalid in Hv by done. done.
Qed.

(** The counter counts the pending timers. *)
Lemma rest_count w : at_rest w → active_count w = Z.of_nat (size (pending w)) ∧ active_count w <= max_timers_ w.
Proof.
  intros Hr. rewrite size_pending by by apply rest_ranges. destruct (rest_dims w Hr) as [_ Hm].
  destruct Hr as (place & chains & [Hs [_ Ha] _] & _).
  pose proof (countZ_bounds is_armed (nodes_ w)). pose proof (g_nodes _ _ (i_geom _ _ _ _ _ Hs)).
  unfold active_count. rewrite Ha, Z.add_0_r, u32_id by mlia. lia.
Qed.

(** The pool is exhausted exactly when every timer is pending. *)
Lemma free_list_full w :
  at_rest w → IFS.free_list (free_list_ w) = [] ↔ Z.of_nat (size (pending w)) = max_timers_ w.
Proof.
  intros Hr. rewrite size_pending by by apply rest_ranges.
  destruct Hr as (place & chains & Hinv & Hclean & _ & Hrun). pose proof Hinv as [Hs [Hidle _] _].
  rewrite <- (g_nodes _ _ (i_geom _ _ _ _ _ Hs)). split.
  - intros Hfl. assert (∀ i n, (nodes_ w).[i] = Some n → is_armed n = true) as Hall.
    { intros i n Hn. pose proof (node_range _ _ _ _ _ Hs i n Hn) as Hi.
      destruct (place i) as [| s | |] eqn:Hp; [| by apply (Hclean i n s) | | by destruct (Hrun i)].
      - assert (i ∈ []) as []%elem_of_nil. rewrite <- Hfl. by apply (i_free _ _ _ _ _ Hs).
      - assert (i ∈ []) as []%elem_of_nil. by apply (i_rest _ _ _ _ _ Hs). }
    assert (∀ l : list (TimerNode CB), (∀ n, n ∈ l → is_armed n = true) → countZ is_armed l = lenZ l) as Hcount.
    { intros l. induction l as [| a l IH]; intros Hl; [done |]. cbn [countZ foldr]. fold (countZ (@is_armed CB) l).
      rewrite (Hl a) by left. rewrite IH by (intros n Hn; apply Hl; by right). simpl length. simpl b2z. lia. }
    apply Hcount. intros n [k Hk]%list_elem_of_lookup. apply (Hall (Z.of_nat k)). by rewrite getZ_nat.
  - intros Hcount. pose proof (countZ_full is_armed (nodes_ w) Hcount) as Hall.
    destruct (IFS.free_list (free_list_ w)) as [| i more] eqn:Hfl; [done |].
    assert (i ∈ IFS.free_list (free_list_ w)) as Hi by (rewrite Hfl; left).
    apply (i_free _ _ _ _ _ Hs) in Hi as [Hi Hp]. destruct (node_of _ _ _ _ _ Hs i Hi) as [n Hn].
    assert (is_armed n = true) as Ha.
    { apply Hall. apply getZ_to_lookup in Hn. by eapply list_elem_of_lookup_2. }
    unfold is_armed in Ha. rewrite (Hidle i n) in Ha; [done | done | by left].
Qed.

(** * The operations *)

Lemma rest_schedule w c x delay :
  at_rest w → 1 <= delay < wheel_size_ w →
  if bool_decide (Z.of_nat (size (pending w)) < max_timers_ w)
  then ∃ w' h, schedule ndebug w (Some c) x delay = Some (w', h) ∧ at_rest w' ∧
    is_u64 h ∧ h ≠ kInvalidHandle ∧ pending w !! h = None ∧
    pending w' = <[h := (delay, c, x)]> (pending w) ∧
    wheel_size_ w' = wheel_size_ w ∧ max_timers_ w' = max_timers_ w
  else schedule ndebug w (Some c) x delay = Some (w, kInvalidHandle).
Proof.
  intros Hr Hd. pose proof (free_list_full w Hr) as Hfull. destruct (rest_count w Hr) as [Hc Hle].
  pose proof Hr as (place & chains & Hinv & Hclean & Hw & Hrun).
  pose proof (schedule_spec ndebug w place chains [] 0 c x delay Hinv Hd) as Hs.
  destruct (IFS.free_list (free_list_ w)) as [| i more].
  - rewrite bool_decide_false; [done |]. rewrite (proj1 Hfull) by done. lia.
  - rewrite bool_decide_true.
    + destruct Hs as (w' & h & place' & chains' & E & Hinv' & Hh & Hh0 & Hno & Hp & (Et & Ew & Ews & Em) & (_ & _ & Hk) & Hcl).
      exists w', h. split; [done |]. split; [| done]. exists place', chains'. split; [done |].
      split; [by apply Hcl |]. split; [congruence |]. intros j Hj. by apply (Hrun j), Hk.
    + assert (Z.of_nat (size (pending w)) ≠ max_timers_ w) by (intros E; by apply Hfull in E). lia.
Qed.

Lemma rest_cancel w h :
  at_rest w → is_u64 h →
  ∃ w', cancel ndebug w h = Some (w', bool_decide (is_Some (pending w !! h))) ∧ at_rest w' ∧
    pending w' = delete h (pending w) ∧ wheel_size_ w' = wheel_size_ w ∧ max_timers_ w' = max_timers_ w.
Proof.
  intros (place & chains & Hinv & Hclean & Hw & Hrun) Hh.
  destruct (cancel_spec ndebug w place chains [] 0 h Hinv Hh)
    as (w' & place' & chains' & E & Hinv' & Hp & (Et & Ew & Ews & Em) & (_ & _ & Hk) & Hcl); [done |].
  exists w'. split; [done |]. split; [| done]. exists place', chains'. split; [done |].
  split; [by apply Hcl |]. split; [congruence |]. intros j Hj. by apply (Hrun j), Hk.
Qed.

Lemma rest_tick {W : Type} (act : CB → Z → W → option W) w :
  at_rest w →
  ∃ w' due, (∀ world, tick ndebug (call_of act) w world = world' ← run act world due; Some (w', world', lenZ due)) ∧
    at_rest w' ∧ due ≡ₚ payload_of <$> map_to_list (filter (λ kv, kv.2.1.1 = 1) (pending w)) ∧
    pending w' = elapse <$> filter (λ kv, kv.2.1.1 ≠ 1) (pending w) ∧
    wheel_size_ w' = wheel_size_ w ∧ max_timers_ w' = max_timers_ w.
Proof.
  intros (place & chains & Hinv & Hclean & Hw & Hrun).
  destruct (tick_fires ndebug act w place chains Hinv Hclean)
    as (w' & due & place' & chains' & E & Hdue & Hp & Hinv' & Hcl & Hw' & Ews & Em & Hk).
  exists w', due. split; [done |]. split; [| done]. exists place', chains'. repeat (split; [done |]).
  intros j Hj. by apply (Hrun j), Hk.
Qed.

(** * Resetting *)

Definition with_heads w hs : TimingWheel CB := with_chain w hs (nodes_ w).

Lemma reset_links_heads w hs i :
  reset_links (with_heads w hs) i = (λ w', with_heads w' hs) <$> reset_links w i.
Proof.
  unfold reset_links. simpl. destruct (update (nodes_ w) i _) as [ns |]; simpl; [| done].
  by destruct (update ns i _).
Qed.

Lemma free_node_heads w hs i :
  free_node ndebug (with_heads w hs) i = (λ w', with_heads w' hs) <$> free_node ndebug w i.
Proof.
  unfold free_node. simpl. destruct (update (nodes_ w) i _) as [ns |]; simpl; [| done].
  destruct (update ns i _) as [ns' |]; simpl; [| done]. by destruct (IFS.push _ _ _).
Qed.

(** Freeing a chain does not look at the bucket heads. *)
Lemma free_chain_heads fuel : ∀ w hs idx freed,
  free_chain ndebug fuel (with_heads w hs) idx freed
  = (λ r, (with_heads r.1 hs, r.2)) <$> free_chain ndebug fuel w idx freed.
Proof.
  induction fuel as [| fuel IH]; intros w hs idx freed; cbn [free_chain]; case_bool_decide; try done.
  change (nodes_ (with_heads w hs)) with (nodes_ w). destruct ((nodes_ w).[idx]) as [n |]; cbn [mbind option_bind]; [| done].
  rewrite reset_links_heads. destruct (reset_links w idx) as [w1 |]; cbn [mbind option_bind fmap option_fmap option_map]; [| done].
  rewrite free_node_heads. destruct (free_node ndebug w1 idx) as [w2 |]; cbn [mbind option_bind fmap option_fmap option_map]; [| done].
  apply IH.
Qed.

Lemma free_chain_spec rest : ∀ fuel w place chains head freed,
  inv w place chains rest freed → forward (nodes_ w) head rest →
  (∀ i n, i ∈ rest → (nodes_ w).[i] = Some n → is_armed n = true) →
  (length rest <= fuel)%nat → 0 <= freed → freed + lenZ rest < 2 ^ 32 →
  ∃ w' place', free_chain ndebug fuel w head freed = Some (w', freed + lenZ rest) ∧
    inv w' place' chains [] (freed + lenZ rest) ∧ same_scalars w w' ∧ bucket_heads_ w' = bucket_heads_ w ∧
    (∀ j, j ∉ rest → place' j = place j ∧ (nodes_ w').[j] = (nodes_ w).[j]) ∧
    (∀ j, j ∈ rest → place' j = Free).
Proof.
  induction rest as [| i rest IH]; intros fuel w place chains head freed Hinv Hfw Harm Hfuel Hf0 Hf.
  { simpl in Hfw. subst head. exists w, place. rewrite Z.add_0_r. split; [by destruct fuel |].
    split; [done |]. split; [by repeat split |]. split; [done |]. split; [done |]. by intros j ?%elem_of_nil. }
  destruct Hfw as (-> & n & Hn & Hfw). destruct fuel as [| fuel]; [simpl in Hfuel; lia |].
  simpl length in Hf, Hfuel. pose proof (i_shape _ _ _ _ _ _ Hinv) as Hs.
  assert (i ≠ kNullIdx) as Hnull by (eapply index_not_null; [exact Hs | by eapply node_range]).
  destruct (visit ndebug w place chains i rest freed n Hinv Hn) as (w1 & E1 & Hn1 & Ho1 & Hsc1 & Hinv2 & Hir).
  rewrite (Harm i n ltac:(left) Hn) in Hinv2. set (n1 := set_next (set_prev n kNullIdx) kNullIdx) in *.
  set (w2 := with_nodes w1 _) in Hinv2.
  assert ((nodes_ w2).[i] = Some (set_payload n1 None 0)) as Hn2.
  { simpl. rewrite (lookup_update _ _ n1) by done. by rewrite decide_True. }
  assert (∀ j, j ≠ i → (nodes_ w2).[j] = (nodes_ w).[j]) as Ho2.
  { intros j Hj. simpl. by rewrite (lookup_update _ _ n1), decide_False, Ho1 by done. }
  destruct (release ndebug w2 _ chains rest _ i _ Hinv2 Hn2 (upd_eq _ _ _)) as (w3 & E3 & Hinv3 & Ho3 & _ & Hsc3).
  assert (∀ j, j ∈ rest → j ≠ i) as Hne by (intros j Hj ->; done).
  assert (bucket_heads_ w3 = bucket_heads_ w) as Hh3.
  { unfold free_node in E3. inv_bind E3. inv_bind K. inv_bind K0. injection K as <-. simpl.
    unfold reset_links in E1. inv_bind E1. inv_bind K. by injection K0 as <-. }
  destruct (IH fuel w3 _ chains (next n) (freed + 1) Hinv3) as (w' & place' & E & Hinv' & Hsc' & Hh' & Hout & Hin);
    [| | lia | lia | lia |].
  - eapply forward_frame; [| exact Hfw]. intros y m Hy Hm. exists m. by rewrite Ho3, Ho2 by auto.
  - intros j m Hj Hm. rewrite Ho3, Ho2 in Hm by auto. apply (Harm j m); [by right | done].
  - exists w', place'. simpl length. rewrite Nat2Z.inj_succ.
    replace (freed + Z.succ (lenZ rest)) with (freed + 1 + lenZ rest) by lia.
    split; [| split; [done |]; split; [| split; [congruence |]; split]].
    + cbn [free_chain]. rewrite bool_decide_false by done. rewrite Hn. cbn [mbind option_bind].
      rewrite E1. cbn [mbind option_bind]. rewrite <- (free_node_payload ndebug w1 i n1 Hn1). fold w2.
      rewrite E3. cbn [mbind option_bind]. by rewrite u32_id by mlia.
    + destruct Hsc1 as (? & ? & ? & ? & ? & ?), Hsc3 as (? & ? & ? & ? & ? & ?), Hsc' as (? & ? & ? & ? & ? & ?).
      repeat split; simpl in *; congruence.
    + intros j Hj. apply not_elem_of_cons in Hj as [Hji Hj]. destruct (Hout j Hj) as [-> ->].
      by rewrite !upd_ne, Ho3, Ho2 by done.
    + intros j [-> | Hj]%elem_of_cons; [| by apply Hin]. destruct (Hout i Hir) as [-> _]. apply upd_eq.
Qed.

Lemma free_chain_keeps_heads fuel w idx freed w' freed' :
  free_chain ndebug fuel w idx freed = Some (w', freed') → bucket_heads_ w' = bucket_heads_ w.
Proof.
  intros E. pose proof (free_chain_heads fuel w (bucket_heads_ w) idx freed) as Hh.
  assert (with_heads w (bucket_heads_ w) = w) as Hw by by destruct w.
  rewrite Hw, E in Hh. simpl in Hh. injection Hh as ->. done.
Qed.

(** Between two buckets of a [reset]: [gone] are the nodes freed so far. *)
Record resetting w place chains (gone : list Z) : Prop := {
  r_inv : inv w place chains [] (lenZ gone);
  r_clean : clean w place;
  r_running : ∀ j, place j ≠ Running;
  r_gone : NoDup gone ∧ ∀ i, i ∈ gone → 0 <= i < max_timers_ w ∧ place i = Free;
}.

Lemma reset_bucket w place chains gone s :
  resetting w place chains gone → 0 <= s < wheel_size_ w →
  ∃ head w1 heads place' gone', (bucket_heads_ w).[s] = Some head ∧
    free_chain ndebug (Z.to_nat (max_timers_ w)) w head (lenZ gone) = Some (w1, lenZ gone') ∧
    storeZ (bucket_heads_ w1) s kNullIdx = Some heads ∧
    resetting (with_heads w1 heads) place' (upd chains s []) gone' ∧ same_scalars w (with_heads w1 heads).
Proof.
  intros [Hinv Hclean Hrun [Hgn Hgp]] Hr. pose proof Hinv as [Hs [Hidle Hact] Hcur].
  destruct (i_heads _ _ _ _ _ Hs s Hr) as (head & Hh & Hl). pose proof (i_geom _ _ _ _ _ Hs) as Hg.
  pose proof (g_timers _ _ Hg) as Hmt. pose proof (getZ_Some _ _ _ Hh) as Hhr.
  pose proof (storeZ_Some (bucket_heads_ w) s kNullIdx Hhr) as Hst. set (heads := setZ _ _ _) in Hst.
  pose proof (shape_detach _ _ _ _ _ _ Hs Hr Hst) as Hs0. fold (with_heads w heads) in Hs0.
  assert (NoDup (chains s ++ gone) ∧ ∀ i, i ∈ chains s ++ gone → 0 <= i < max_timers_ w) as [Hnd Hrange].
  { split.
    - apply nodup_app. split; [by apply (i_nodup _ _ _ _ _ Hs) |]. split; [| done].
      intros x Hx [_ Hf]%Hgp. destruct (chain_in _ _ _ _ _ Hs s x Hr Hx). congruence.
    - intros i [Hi | Hi]%elem_of_app; [by apply (chain_in _ _ _ _ _ Hs s i Hr Hi) | by apply Hgp]. }
  pose proof (IFS.nodup_range_length _ _ Hnd Hrange) as Hlen. rewrite length_app in Hlen.
  assert (inv (with_heads w heads) (detach place s) (upd chains s []) (chains s) (lenZ gone)) as Hinv0.
  { split; [done | split |].
    - intros i n Hn Hp. apply (Hidle i n Hn). unfold detach in Hp. case_decide; destruct Hp; [done | done | by left | by right].
    - done.
    - unfold now. simpl. destruct (decide (now w = s)) as [E | E]; [by rewrite <- E, upd_eq | by rewrite upd_ne]. }
  destruct (free_chain_spec (chains s) (Z.to_nat (max_timers_ w)) (with_heads w heads) _ _ head (lenZ gone) Hinv0)
    as (w' & place' & E & Hinv' & Hsc & Hbh & Hout & Hin); [by eapply linked_forward | | lia | lia | lia |].
  { intros i n Hi Hn. apply (Hclean i n s Hn). by apply (in_chain_elsewhere _ _ _ _ _ _ _ Hs Hr). }
  rewrite free_chain_heads in E. destruct (free_chain ndebug _ w head _) as [[w1 f] |] eqn:E1; [| done].
  simpl in E. injection E as <- ->. pose proof (free_chain_keeps_heads _ _ _ _ _ _ E1) as Hb1.
  assert (lenZ (chains s ++ gone) = lenZ gone + lenZ (chains s)) as Hlg by (rewrite length_app; lia).
  exists head, w1, heads, place', (chains s ++ gone). split; [done |]. split; [by rewrite Hlg |].
  split; [by rewrite Hb1 |]. split; [| done]. split.
  - by rewrite Hlg.
  - intros j n s' Hn Hp. destruct (decide (j ∈ chains s)) as [Hj | Hj]; [by rewrite (Hin j Hj) in Hp |].
    destruct (Hout j Hj) as [Ep En]. rewrite Ep in Hp. rewrite En in Hn. unfold detach in Hp.
    case_decide; [done |]. by apply (Hclean j n s').
  - intros j Hj. destruct (decide (j ∈ chains s)) as [Hjc | Hjc]; [by rewrite (Hin j Hjc) in Hj |].
    rewrite (proj1 (Hout j Hjc)) in Hj. unfold detach in Hj. case_decide; [done | by apply (Hrun j)].
  - split; [done |]. destruct Hsc as (_ & _ & _ & _ & _ & ->). simpl. intros i Hi. split; [by apply Hrange |].
    destruct (decide (i ∈ chains s)) as [Hic | Hic]; [by apply Hin |]. rewrite (proj1 (Hout i Hic)).
    apply elem_of_app in Hi as [? | Hi]; [done |]. destruct (Hgp i Hi) as [_ Hf]. unfold detach.
    rewrite decide_False; [done |]. congruence.
Qed.

Lemma same_scalars_trans w1 w2 w3 : same_scalars w1 w2 → same_scalars w2 w3 → same_scalars w1 w3.
Proof. intros (? & ? & ? & ? & ? & ?) (? & ? & ? & ? & ? & ?). repeat split; congruence. Qed.

Lemma reset_buckets_spec slots : ∀ w place chains gone,
  resetting w place chains gone → (∀ s, s ∈ slots → 0 <= s < wheel_size_ w) →
  ∃ w' place' chains' gone', reset_buckets ndebug slots w (lenZ gone) = Some (w', lenZ gone') ∧
    resetting w' place' chains' gone' ∧ same_scalars w w' ∧
    (∀ s, s ∈ slots → chains' s = []) ∧ (∀ s, chains s = [] → chains' s = []).
Proof.
  induction slots as [| s slots IH]; intros w place chains gone Hre Hr.
  { exists w, place, chains, gone. split; [done |]. split; [done |]. split; [by repeat split |].
    split; [by intros s ?%elem_of_nil | done]. }
  destruct (reset_bucket w place chains gone s Hre) as (head & w1 & heads & p1 & gone1 & Hh & E & Hst & Hre1 & Hsc1);
    [apply Hr; left |].
  destruct (IH _ p1 _ gone1 Hre1) as (w' & p' & ch' & gone' & E' & Hre' & Hsc' & Hin & Hk).
  { intros s' Hs'. destruct Hsc1 as (_ & _ & _ & -> & _). apply Hr. by right. }
  exists w', p', ch', gone'. split; [| split; [done |]; split; [by eapply same_scalars_trans |]; split].
  - cbn [reset_buckets]. rewrite Hh. cbn [mbind option_bind]. rewrite E. cbn [mbind option_bind].
    rewrite Hst. cbn [mbind option_bind]. exact E'.
  - intros s' [-> | Hs']%elem_of_cons; [apply Hk, upd_eq | by apply Hin].
  - intros s' Hs'. apply Hk. unfold upd. by case_decide.
Qed.

(** [reset] empties the wheel: the assertion of the debug build holds, every
    node is back in the pool and the clock is at 0. *)
Lemma rest_reset w :
  at_rest w → ∃ w', reset ndebug w = Some w' ∧ at_rest w' ∧ pending w' = ∅ ∧ current_tick_ w' = 0 ∧
    wheel_size_ w' = wheel_size_ w ∧ max_timers_ w' = max_timers_ w.
Proof.
  intros Hrest. destruct (rest_dims w Hrest) as [Hws Hmt].
  destruct Hrest as (place & chains & Hinv & Hclean & Hw & Hrun).
  destruct (reset_buckets_spec (Z.of_nat <$> seq 0 (Z.to_nat (wheel_size_ w))) w place chains [])
    as (w' & p' & ch' & gone & E & [Hinv' Hcl' Hrun' [Hgn Hgp]] & Hsc & Hin & _).
  { split; [done | done | done |]. split; [constructor |]. by intros i ?%elem_of_nil. }
  { intros s (k & -> & Hk)%list_elem_of_fmap. rewrite elem_of_seq in Hk. lia. }
  destruct Hsc as (Et & Ea & Ew & Ews & Emk & Emt).
  pose proof Hinv' as [Hs' [Hidle' Hact'] Hcur'].
  assert (∀ s, 0 <= s < wheel_size_ w → ch' s = []) as Hempty.
  { intros s Hs. apply Hin. apply list_elem_of_fmap. exists (Z.to_nat s). rewrite elem_of_seq. lia. }
  assert (countZ is_armed (nodes_ w') = 0) as Hzero.
  { apply countZ_zero. intros n [k Hk]%list_elem_of_lookup. apply not_true_iff_false. intros Har.
    destruct (armed_bucket ndebug w' p' ch' (lenZ gone) (Z.of_nat k) n Hinv') as (_ & Hsr & _ & Hic);
      [by rewrite getZ_nat | done |]. rewrite Hempty in Hic by lia. by apply elem_of_nil in Hic. }
  pose proof (IFS.nodup_range_length gone (max_timers_ w') Hgn (λ i Hi, proj1 (Hgp i Hi))) as Hlen.
  rewrite Hzero, Z.add_0_l, u32_id in Hact' by mlia.
  unfold reset. change (lenZ (@nil Z)) with 0 in E. rewrite E. cbn [mbind option_bind].
  assert ((if ndebug then Some tt else assertM (bool_decide (lenZ gone = active_count_ w'))) = Some tt) as ->.
  { destruct ndebug; [done |]. unfold assertM. by rewrite bool_decide_true. }
  cbn [mbind option_bind]. eexists. split; [done |].
  assert (at_rest (with_counts w' 0 0 (in_tick_walk_ w'))) as Hrest'.
  { exists p', ch'. split; [split; [by apply shape_with_counts | split |] |].
    - apply Hidle'.
    - simpl. by rewrite Hzero.
    - unfold now. simpl. apply Hempty. rewrite Zmod_0_l. lia.
    - split; [exact Hcl' |]. simpl. split; [congruence | done]. }
  split; [done |]. split; [| done]. apply map_size_empty_inv.
  pose proof (size_pending _ (rest_ranges _ Hrest')) as Hsz. simpl in Hsz. rewrite Hzero in Hsz. lia.
Qed.

(** * Construction *)

Lemma init_nodes_rest e mt :
  1 <= e < 32 → 1 <= mt <= 2 ^ 31 →
  at_rest (init_nodes (IFS.init_storage ndebug mt) (2 ^ e) mt) ∧
  pending (init_nodes (CB := CB) (IFS.init_storage ndebug mt) (2 ^ e) mt) = ∅.
Proof.
  intros He Hmt. set (w := init_nodes _ _ _).
  assert (0 < 2 ^ e) as Hpos by (apply Z.pow_pos_nonneg; lia).
  assert (∀ i n, (nodes_ w).[i] = Some n → n = fresh_node) as Hfresh.
  { intros i n Hn%getZ_to_lookup. simpl in Hn. by apply lookup_replicate in Hn as [-> _]. }
  assert (at_rest w) as Hrest.
  { exists (λ _, Free), (λ _, []). split; [split; [split | split | done] |]; simpl.
    - split; simpl; rewrite ?length_replicate; [by exists e | done | lia | lia | done | by apply IFS.init_storage_wf; lia | done].
    - intros s Hs. exists kNullIdx. split; [| done].
      rewrite <- (Z2Nat.id s) by lia. rewrite getZ_nat. apply lookup_replicate_2. lia.
    - intros s i _. split; [by intros ?%elem_of_nil | by intros [_ ?]].
    - constructor.
    - intros i. rewrite IFS.free_list_init, list_elem_of_fmap by lia. setoid_rewrite elem_of_seq. split.
      + intros (k & -> & Hk). split; [lia | done].
      + intros [Hi _]. exists (Z.to_nat i). lia.
    - intros i. split; [by intros ?%elem_of_nil | by intros [_ ?]].
    - constructor.
    - done.
    - intros i n ->%Hfresh. simpl. lia.
    - intros i n ->%Hfresh. done.
    - assert (∀ k, countZ (@is_armed CB) (replicate k fresh_node) = 0) as -> by (induction k; simpl; lia). done.
    - split; [| done]. intros j n s _ [=]. }
  split; [done |]. apply map_size_empty_inv.
  pose proof (size_pending _ (rest_ranges _ Hrest)) as Hsz.
  assert (∀ k, countZ (@is_armed CB) (replicate k fresh_node) = 0) as Hz by (induction k; simpl; lia).
  simpl in Hsz. rewrite Hz in Hsz. lia.
Qed.

(** A buffer of the advertised size, aligned as a node, is enough. *)
Lemma construct_enough addr bytes e k :
  1 <= e < 32 → 0 <= k < 32 → addr mod alignof_node = 0 → required_buffer_size ndebug (2 ^ e) (2 ^ k) <= bytes →
  construct ndebug (CB := CB) (Some addr) bytes (2 ^ e) (2 ^ k)
    = Some (init_nodes (IFS.init_storage ndebug (2 ^ k)) (2 ^ e) (2 ^ k)) ∧
  create ndebug (CB := CB) (Some addr) bytes (2 ^ e) (2 ^ k)
    = Some (init_nodes (IFS.init_storage ndebug (2 ^ k)) (2 ^ e) (2 ^ k)).
Proof.
  intros He Hk Ha Hb.
  assert (2 ^ 1 <= 2 ^ e <= 2 ^ 31) as Hws by (split; apply Z.pow_le_mono_r; lia).
  assert (2 ^ 0 <= 2 ^ k <= 2 ^ 31) as Hmt by (split; apply Z.pow_le_mono_r; lia).
  assert (free_list_offset (2 ^ e) (2 ^ k) mod 4 = 0) as Hoff.
  { unfold free_list_offset, nodes_offset, sizeof_node, alignof_node. rewrite !(u64_id (_ * _)) by mlia.
    change 8 with (2 ^ 3) at 1.
    pose proof (align_up_spec (2 ^ e * 4) 3 ltac:(lia) ltac:(lia) ltac:(lia)) as Hup.
    set (a := align_up _ _) in *. destruct Hup as (Hal & Hm & _). rewrite u64_id by mlia. clearbody a.
    change (2 ^ 3) with 8 in *. generalize dependent (2 ^ k). intros m _ Hm'. Z.div_mod_to_equations. lia. }
  assert (is_valid_wheel_size (2 ^ e) = true ∧ is_valid_max_timers (2 ^ k) = true) as [Hvw Hvm].
  { unfold is_valid_wheel_size, is_valid_max_timers. rewrite !bool_decide_true by lia. split.
    - apply (is_power_of_two_iff (2 ^ e)); [lia |]. exists e. lia.
    - apply (is_power_of_two_iff (2 ^ k)); [lia |]. exists k. lia. }
  unfold construct, create. rewrite Hvw, Hvm. cbn [negb orb]. unfold partition_buffer.
  rewrite (bool_decide_true (addr mod alignof_node = 0)), (bool_decide_false (bytes < _)) by lia. cbn [negb].
  assert (IFS.create ndebug (Some (addr + free_list_offset (2 ^ e) (2 ^ k))) (IFS.required_buffer_size ndebug (2 ^ k)) (2 ^ k)
    = Some (IFS.init_storage ndebug (2 ^ k))) as E.
  { unfold IFS.create, IFS.is_valid_capacity. rewrite !bool_decide_true by lia. cbn [negb andb].
    unfold IFS.partition_buffer. rewrite bool_decide_true.
    - cbn [negb]. rewrite bool_decide_false by lia. simpl. by rewrite u32_id by mlia.
    - unfold alignof_node in Ha. generalize dependent (free_list_offset (2 ^ e) (2 ^ k)). intros o Ho.
      clear -Ha Ho. Z.div_mod_to_equations. lia. }
  cbn [mbind option_bind]. rewrite !E. cbn [mbind option_bind].
  by rewrite (u32_id (2 ^ e)), (u32_id (2 ^ k)) by (clear -Hws Hmt; mlia).
Qed.

(** * After callbacks that cancelled

    A cancellation from inside a callback leaves a disarmed node in its
    chain.  [quiet] is [at_rest] without the cleanliness. *)

Definition quiet w : Prop :=
  ∃ place chains, inv w place chains [] 0 ∧ in_tick_walk_ w = false ∧ ∀ j, place j ≠ Running.

Lemma at_rest_quiet w : at_rest w → quiet w.
Proof. intros (place & chains & Hinv & _ & Hw & Hr). by exists place, chains. Qed.

Lemma quiet_tick {W : Type} (call : CB → Z → TimingWheel CB → W → option (TimingWheel CB * W)) w world :
  quiet w → well_behaved ndebug call →
  ∃ w' world' fired, tick ndebug call w world = Some (w', world', fired) ∧ quiet w' ∧
    0 <= fired <= max_timers_ w ∧ current_tick_ w' = u64 (current_tick_ w + 1) ∧
    wheel_size_ w' = wheel_size_ w ∧ max_timers_ w' = max_timers_ w.
Proof.
  intros (place & chains & Hinv & Hw & Hrun) Hcall.
  destruct (tick_safe ndebug call Hcall w world place chains Hinv)
    as (w' & world' & fired & p' & ch' & E & Hinv' & Hw' & Hf & Ht & Hws & Hm & Hr').
  exists w', world', fired. split; [done |]. split; [| done]. exists p', ch'. split; [done |].
  split; [done |]. intros j Hj. by apply (Hrun j), Hr'.
Qed.

Lemma quiet_count w : quiet w → active_count w = Z.of_nat (size (pending w)).
Proof.
  intros (place & chains & [Hs [_ Ha] _] & _). rewrite size_pending by by eapply shape_ranges.
  pose proof (countZ_bounds is_armed (nodes_ w)). pose proof (i_geom _ _ _ _ _ Hs) as Hg.
  pose proof (g_nodes _ _ Hg). pose proof (g_timers _ _ Hg).
  unfold active_count. rewrite Ha, Z.add_0_r, u32_id by mlia. lia.
Qed.

Lemma quiet_schedule w c x delay :
  quiet w → 1 <= delay < wheel_size_ w →
  ∃ w' h, schedule ndebug w (Some c) x delay = Some (w', h) ∧ quiet w' ∧
    (if bool_decide (h = kInvalidHandle) then w' = w
     else pending w !! h = None ∧ pending w' = <[h := (delay, c, x)]> (pending w)).
Proof.
  intros Hq Hd. pose proof Hq as (place & chains & Hinv & Hw & Hrun).
  pose proof (schedule_spec ndebug w place chains [] 0 c x delay Hinv Hd) as Hs.
  destruct (IFS.free_list (free_list_ w)) as [| i more].
  - exists w, kInvalidHandle. by rewrite bool_decide_true.
  - destruct Hs as (w' & h & place' & chains' & E & Hinv' & Hh & Hh0 & Hno & Hp & (Et & Ew & _) & (_ & _ & Hk) & _).
    exists w', h. rewrite bool_decide_false by done. split; [done |]. split; [| done].
    exists place', chains'. split; [done |]. split; [congruence |]. intros j Hj. by apply (Hrun j), Hk.
Qed.

Lemma quiet_cancel w h :
  quiet w → is_u64 h →
  ∃ w', cancel ndebug w h = Some (w', bool_decide (is_Some (pending w !! h))) ∧ quiet w' ∧
    pending w' = delete h (pending w).
Proof.
  intros (place & chains & Hinv & Hw & Hrun) Hh.
  destruct (cancel_spec ndebug w place chains [] 0 h Hinv Hh)
    as (w' & place' & chains' & E & Hinv' & Hp & (Et & Ew & _) & (_ & _ & Hk) & _); [done |].
  exists w'. split; [done |]. split; [| done]. exists place', chains'. split; [done |].
  split; [congruence |]. intros j Hj. by apply (Hrun j), Hk.
Qed.

(** * Many ticks *)

Section Ticks.
Context {W : Type} (act : CB → Z → W → option W).

Fixpoint ticks (k : nat) w (world : W) : option (TimingWheel CB * W) :=
  match k with
  | O => Some (w, world)
  | S k => '(w, world, _) ← tick ndebug (call_of act) w world; ticks k w world
  end.

Lemma run_app world l l' : run act world (l ++ l') = world' ← run act world l; run act world' l'.
Proof.
  revert world. induction l as [| a l IH]; intros world; [done |]. unfold run in *. cbn [app].
  rewrite !foldM_cons. destruct (act a.1 a.2 world) as [world' |]; cbn [mbind option_bind]; [apply IH | done].
Qed.

Definition elapse_by (k : Z) (v : Z * CB * Z) : Z * CB * Z := (v.1.1 - k, v.1.2, v.2).

Lemma ticks_rest k : ∀ w, at_rest w →
  ∃ w' due, (∀ world, ticks k w world = world' ← run act world due; Some (w', world')) ∧ at_rest w' ∧
    due ≡ₚ payload_of <$> map_to_list (filter (λ kv, kv.2.1.1 <= Z.of_nat k) (pending w)) ∧
    pending w' = elapse_by (Z.of_nat k) <$> filter (λ kv, Z.of_nat k < kv.2.1.1) (pending w) ∧
    wheel_size_ w' = wheel_size_ w ∧ max_timers_ w' = max_timers_ w.
Proof.
  induction k as [| k IH]; intros w Hr.
  { exists w, []. split; [done |]. split; [done |].
    assert (∀ h v, pending w !! h = Some v → 0 < v.1.1) as Hpos.
    { intros h v Hv. pose proof (rest_remaining _ _ _ Hr Hv). lia. }
    split; [| split; [| done]].
    - rewrite map_empty_filter_2; [done |]. intros h v Hv Hle. apply Hpos in Hv. simpl in Hle. lia.
    - apply map_eq. intros h. rewrite lookup_fmap. apply option_eq. intros v. rewrite fmap_Some.
      setoid_rewrite map_lookup_filter_Some. unfold elapse_by. simpl. split.
      + intros Hv. exists v. pose proof (Hpos h v Hv). destruct v as [[d c] x]. simpl. by rewrite Z.sub_0_r.
      + intros ([[d c] x] & [Hv _] & ->). simpl. by rewrite Z.sub_0_r. }
  destruct (rest_tick act w Hr) as (w1 & due1 & E1 & Hr1 & Hd1 & Hp1 & Hws1 & Hm1).
  destruct (IH w1 Hr1) as (w' & due2 & E2 & Hr' & Hd2 & Hp2 & Hws2 & Hm2).
  exists w', (due1 ++ due2). split; [| split; [done |]; split; [| split; [| split; congruence]]].
  - intros world. cbn [ticks]. rewrite E1, run_app. destruct (run act world due1); cbn [mbind option_bind]; [apply E2 | done].
  - rewrite Hd1, Hd2, Hp1, map_filter_fmap, map_to_list_fmap, <- list_fmap_compose.
    rewrite (list_fmap_ext (payload_of ∘ prod_map id elapse) payload_of) by done.
    rewrite <- fmap_app. apply fmap_Permutation. apply NoDup_Permutation.
    + apply nodup_app. split; [apply NoDup_map_to_list |]. split; [| apply NoDup_map_to_list].
      intros [h v]. rewrite !elem_of_map_to_list, !map_lookup_filter_Some. simpl. naive_solver.
    + apply NoDup_map_to_list.
    + intros [h v]. rewrite elem_of_app, !elem_of_map_to_list, !map_lookup_filter_Some. simpl. split.
      * intros [[Hv ?] | [[Hv ?] ?]]; (split; [done |]); lia.
      * intros [Hv ?]. destruct (decide (v.1.1 = 1)); [left | right]; repeat split; (done || lia).
  - rewrite Hp2, Hp1, map_filter_fmap, map_filter_filter, <- map_fmap_compose.
    rewrite (proj1 (map_filter_ext _ (λ kv : Z * (Z * CB * Z), Z.of_nat (S k) < kv.2.1.1) _)).
    + apply map_fmap_ext. intros h v _. unfold elapse_by, elapse. simpl. do 2 f_equal. lia.
    + intros h v Hv. pose proof (rest_remaining _ _ _ Hr Hv). simpl. lia.
Qed.
End Ticks.
End Service.
End TWService.
