(* ===== verification/TimingWheelTheorems.v ===== *)
(** What is proved of the timing wheel ([TimingWheel.v]): it is a map of
    pending timers, a tick runs the due ones and only those, a timer fires
    after its delay and not before, re-entrant callbacks are safe; and one
    limit, the debug assertion of [reset] after a cancellation from inside a
    callback. *)
From S2P Require Import Prelude.
From S2P Require Import BitUtils.
From S2P Require Import IndexFreeStack.
From S2P Require Import TableInterface.
From S2P Require Import TimingWheel.
From S2P Require Import TimingWheelSpec.
From S2P Require Import TimingWheelTick.
Local Open Scope Z_scope.
Local Open Scope array_scope.

Import TW TWSpec TWOps TWTick TWService.

(** A small wheel: 8 slots, 4 nodes, callbacks named by numbers, debug build. *)
Definition small_wheel : TimingWheel Z := init_nodes (IFS.init_storage false 4) 8 4.

Lemma small_wheel_rest : at_rest false small_wheel ∧ pending small_wheel = ∅.
Proof. apply (init_nodes_rest false 3 4); lia. Qed.

(** C33. The wheel implements a finite map of pending timers, in both builds.
    A buffer of the advertised size gives an empty wheel.  [schedule] inserts
    the timer under a fresh valid handle, or answers [kInvalidHandle] and
    changes nothing exactly when every node is in use; [cancel] of any 64-bit
    handle, stale or forged ones included, deletes that timer and says
    whether it was pending; [active_count] counts; [reset] empties (its
    assertion holds).  None of them fails or leaves an array. *)
Theorem timing_wheel_correct (ndebug : bool) {CB : Type} (addr bytes e k : Z) (w : TimingWheel CB) (c : CB) x delay h :
  1 <= e < 32 → 0 <= k < 32 → addr mod alignof_node = 0 → required_buffer_size ndebug (2 ^ e) (2 ^ k) <= bytes →
  at_rest ndebug w → 1 <= delay < wheel_size_ w → is_u64 h →
  (∃ w0, construct ndebug (CB := CB) (Some addr) bytes (2 ^ e) (2 ^ k) = Some w0 ∧ at_rest ndebug w0 ∧
     pending w0 = ∅ ∧ wheel_size_ w0 = 2 ^ e ∧ max_timers_ w0 = 2 ^ k) ∧
  (if bool_decide (Z.of_nat (size (pending w)) < max_timers_ w)
   then ∃ w' h', schedule ndebug w (Some c) x delay = Some (w', h') ∧ at_rest ndebug w' ∧ h' ≠ kInvalidHandle ∧
     pending w !! h' = None ∧ pending w' = <[h' := (delay, c, x)]> (pending w)
   else schedule ndebug w (Some c) x delay = Some (w, kInvalidHandle)) ∧
  (∃ w', cancel ndebug w h = Some (w', bool_decide (is_Some (pending w !! h))) ∧ at_rest ndebug w' ∧
     pending w' = delete h (pending w)) ∧
  active_count w = Z.of_nat (size (pending w)) ∧
  (∃ w', reset ndebug w = Some w' ∧ at_rest ndebug w' ∧ pending w' = ∅ ∧ current_tick w' = 0).
Proof.
  intros He Hk Ha Hb Hr Hd Hh. split; [| split; [| split; [| split]]].
  - destruct (construct_enough ndebug (CB := CB) addr bytes e k He Hk Ha Hb) as [-> _].
    assert (2 ^ 0 <= 2 ^ k <= 2 ^ 31) as Hm by (split; apply Z.pow_le_mono_r; lia).
    destruct (init_nodes_rest ndebug (CB := CB) e (2 ^ k) He) as [Hr0 Hp0]; [lia |]. by eexists.
  - pose proof (rest_schedule ndebug w c x delay Hr Hd) as Hs. case_bool_decide; [| done].
    destruct Hs as (w' & h' & ? & ? & _ & ? & ? & ? & _). by exists w', h'.
  - destruct (rest_cancel ndebug w h Hr Hh) as (w' & ? & ? & ? & _). by exists w'.
  - by apply (rest_count ndebug w).
  - destruct (rest_reset ndebug w Hr) as (w' & ? & ? & ? & ? & _). by exists w'.
Qed.

Lemma timing_wheel_correct_witness :
  (∃ w0, construct false (CB := Z) (Some 64) 4096 (2 ^ 3) (2 ^ 2) = Some w0 ∧ at_rest false w0 ∧
     pending w0 = ∅ ∧ wheel_size_ w0 = 2 ^ 3 ∧ max_timers_ w0 = 2 ^ 2) ∧
  (if bool_decide (Z.of_nat (size (pending small_wheel)) < max_timers_ small_wheel)
   then ∃ w' h', schedule false small_wheel (Some 7) 70 3 = Some (w', h') ∧ at_rest false w' ∧ h' ≠ kInvalidHandle ∧
     pending small_wheel !! h' = None ∧ pending w' = <[h' := (3, 7, 70)]> (pending small_wheel)
   else schedule false small_wheel (Some 7) 70 3 = Some (small_wheel, kInvalidHandle)) ∧
  (∃ w', cancel false small_wheel 5 = Some (w', bool_decide (is_Some (pending small_wheel !! 5))) ∧ at_rest false w' ∧
     pending w' = delete 5 (pending small_wheel)) ∧
  active_count small_wheel = Z.of_nat (size (pending small_wheel)) ∧
  (∃ w', reset false small_wheel = Some w' ∧ at_rest false w' ∧ pending w' = ∅ ∧ current_tick w' = 0).
Proof.
  apply (timing_wheel_correct false 64 4096 3 2 small_wheel 7 70 3 5);
    [lia | lia | reflexivity | vm_compute; discriminate | apply small_wheel_rest | simpl; lia | by split].
Defined.

(** A tick runs exactly the timers with one tick left, each once, with
    its own context, and counts them; every other timer stays under its
    handle with one tick less.  [act] is what the callbacks do to the outside
    world; when one of them fails, so does the tick. *)
Theorem tick_runs_due (ndebug : bool) {CB W : Type} (act : CB → Z → W → option W) (w : TimingWheel CB) :
  at_rest ndebug w →
  ∃ w' due,
    (∀ world, tick ndebug (call_of act) w world = world' ← run act world due; Some (w', world', lenZ due)) ∧
    due ≡ₚ payload_of <$> map_to_list (filter (λ kv, kv.2.1.1 = 1) (pending w)) ∧
    at_rest ndebug w' ∧ pending w' = elapse <$> filter (λ kv, kv.2.1.1 ≠ 1) (pending w).
Proof.
  intros Hr. destruct (rest_tick ndebug act w Hr) as (w' & due & E & Hr' & Hdue & Hp & _).
  by exists w', due.
Qed.

Lemma tick_runs_due_witness :
  ∃ w' due,
    (∀ world, tick false (call_of (λ c x world, Some ((c, x) :: world))) small_wheel world
       = world' ← run (λ c x world, Some ((c, x) :: world)) world due; Some (w', world', lenZ due)) ∧
    due ≡ₚ payload_of <$> map_to_list (filter (λ kv, kv.2.1.1 = 1) (pending small_wheel)) ∧
    at_rest false w' ∧ pending w' = elapse <$> filter (λ kv, kv.2.1.1 ≠ 1) (pending small_wheel).
Proof. apply (tick_runs_due false _ small_wheel), small_wheel_rest. Defined.

(** A timer fires on time, whatever the clock: scheduled with [delay]
    and not cancelled, it is still pending with [delay - k] left after
    [k < delay] ticks, the [delay]-th tick is the one that runs it, and from
    then on its handle is dead. *)
Theorem timer_fires_on_time (ndebug : bool) {CB W : Type} (act : CB → Z → W → option W) (w : TimingWheel CB) (c : CB) x delay :
  at_rest ndebug w → 1 <= delay < wheel_size_ w → Z.of_nat (size (pending w)) < max_timers_ w →
  ∃ w1 h, schedule ndebug w (Some c) x delay = Some (w1, h) ∧
    ∀ k : nat, ∃ w2 due,
      (∀ world, ticks ndebug act k w1 world = world' ← run act world due; Some (w2, world')) ∧
      pending w2 !! h = (if bool_decide (Z.of_nat k < delay) then Some (delay - Z.of_nat k, c, x) else None) ∧
      (delay <= Z.of_nat k → (c, x) ∈ due) ∧
      (Z.of_nat k = delay - 1 → ∃ w3 due', (c, x) ∈ due' ∧ ∀ world,
         tick ndebug (call_of act) w2 world = world' ← run act world due'; Some (w3, world', lenZ due')).
Proof.
  intros Hr Hd Hfree. pose proof (rest_schedule ndebug w c x delay Hr Hd) as Hs.
  rewrite bool_decide_true in Hs by done. destruct Hs as (w1 & h & E & Hr1 & _ & _ & _ & Hp & _).
  exists w1, h. split; [done |]. intros k.
  destruct (ticks_rest ndebug act k w1 Hr1) as (w2 & due & E2 & Hr2 & Hdue & Hp2 & _).
  exists w2, due. split; [done |].
  assert (pending w2 !! h = (if bool_decide (Z.of_nat k < delay) then Some (delay - Z.of_nat k, c, x) else None)) as Hh.
  { rewrite Hp2, lookup_fmap, Hp. apply option_eq. intros v. rewrite fmap_Some. setoid_rewrite map_lookup_filter_Some.
    rewrite lookup_insert_eq. simpl. case_bool_decide.
    - split; [intros (v0 & [[= <-] _] & ->); done | intros [= <-]; by exists (delay, c, x)].
    - split; [intros (v0 & [[= <-] Hlt] & _); simpl in Hlt; lia | done]. }
  split; [done |]. split.
  - intros Hle. rewrite Hdue. apply list_elem_of_fmap. exists (h, (delay, c, x)). split; [done |].
    apply elem_of_map_to_list, map_lookup_filter_Some. split; [by rewrite Hp, lookup_insert_eq | done].
  - intros Hk. rewrite Hk, bool_decide_true in Hh by lia.
    destruct (rest_tick ndebug act w2 Hr2) as (w3 & due' & E3 & _ & Hdue' & _).
    exists w3, due'. split; [| done]. rewrite Hdue'. apply list_elem_of_fmap. exists (h, (1, c, x)). split; [done |].
    apply elem_of_map_to_list, map_lookup_filter_Some. split; [| done]. rewrite Hh. do 3 f_equal. lia.
Qed.

Lemma timer_fires_on_time_witness :
  ∃ w1 h, schedule false small_wheel (Some 7) 70 3 = Some (w1, h) ∧
    ∀ k : nat, ∃ w2 due,
      (∀ world, ticks false (λ c x world, Some ((c, x) :: world)) k w1 world
        = world' ← run (λ c x world, Some ((c, x) :: world)) world due; Some (w2, world')) ∧
      pending w2 !! h = (if bool_decide (Z.of_nat k < 3) then Some (3 - Z.of_nat k, 7, 70) else None) ∧
      (3 <= Z.of_nat k → (7, 70) ∈ due) ∧
      (Z.of_nat k = 3 - 1 → ∃ w3 due', (7, 70) ∈ due' ∧ ∀ world,
         tick false (call_of (λ c x world, Some ((c, x) :: world))) w2 world
         = world' ← run (λ c x world, Some ((c, x) :: world)) world due'; Some (w3, world', lenZ due')).
Proof.
  apply (timer_fires_on_time false (λ c x world, Some ((c, x) :: world)) small_wheel 7 70 3);
    [apply small_wheel_rest | simpl; lia |].
  rewrite (proj2 small_wheel_rest). rewrite map_size_empty. simpl. lia.
Defined.

(** Callbacks may re-enter the wheel.  Whatever callbacks that end and
    touch the wheel only through [schedule] and [cancel] do, a tick ends
    within its fuel, accesses no array out of range and never frees a node
    twice; it fires at most every node once, advances the clock by one, and
    leaves a wheel on which all the operations keep their meaning. *)
Theorem tick_reentrant_safe (ndebug : bool) {CB W : Type}
    (call : CB → Z → TimingWheel CB → W → option (TimingWheel CB * W)) (w : TimingWheel CB) (world : W)
    (c : CB) x delay h :
  quiet ndebug w → well_behaved ndebug call → 1 <= delay < wheel_size_ w → is_u64 h →
  ∃ w' world' fired, tick ndebug call w world = Some (w', world', fired) ∧ quiet ndebug w' ∧
    0 <= fired <= max_timers_ w ∧ current_tick w' = u64 (current_tick w + 1) ∧
    active_count w' = Z.of_nat (size (pending w')) ∧
    (∃ w'' h', schedule ndebug w' (Some c) x delay = Some (w'', h') ∧ quiet ndebug w'' ∧
      (if bool_decide (h' = kInvalidHandle) then w'' = w'
       else pending w' !! h' = None ∧ pending w'' = <[h' := (delay, c, x)]> (pending w'))) ∧
    (∃ w'', cancel ndebug w' h = Some (w'', bool_decide (is_Some (pending w' !! h))) ∧ quiet ndebug w'' ∧
      pending w'' = delete h (pending w')).
Proof.
  intros Hq Hc Hd Hh. destruct (quiet_tick ndebug call w world Hq Hc) as (w' & world' & fired & E & Hq' & Hf & Ht & Hws & _).
  exists w', world', fired. do 4 (split; [done |]). split; [by apply (quiet_count ndebug) |]. split.
  - apply quiet_schedule; [done |]. by rewrite Hws.
  - by apply quiet_cancel.
Qed.

(** A callback that re-arms itself and cancels the timer its context names. *)
Definition rearming (c x : Z) (w : TimingWheel Z) (fired : list Z) : option (TimingWheel Z * list Z) :=
  '(w, _) ← schedule false w (Some c) x 1;
  '(w, _) ← cancel false w (u64 x);
  Some (w, c :: fired).

Lemma rearming_well_behaved : well_behaved false rearming.
Proof.
  intros c x w world place chains rest fired Hinv Hw.
  pose proof (wheel_bounds false w (i_geom _ _ _ _ _ (i_shape _ _ _ _ _ _ Hinv))) as Hwb.
  pose proof (schedule_spec false w place chains rest fired c x 1 Hinv ltac:(lia)) as Hs.
  assert (∃ w1 h p1 ch1, schedule false w (Some c) x 1 = Some (w1, h) ∧ inv false w1 p1 ch1 rest fired ∧ in_tick_walk_ w1 = true)
    as (w1 & h & p1 & ch1 & E1 & Hinv1 & Hw1).
  { destruct (IFS.free_list (free_list_ w)); [by exists w, kInvalidHandle, place, chains |].
    destruct Hs as (w1 & h & p1 & ch1 & E1 & Hi1 & _ & _ & _ & _ & (_ & Ew & _) & _). exists w1, h, p1, ch1.
    split; [done |]. split; [done |]. congruence. }
  destruct (cancel_spec false w1 p1 ch1 rest fired (u64 x) Hinv1) as (w2 & p2 & ch2 & E2 & _); [apply u64_range | by rewrite Hw1 |].
  exists w2, (c :: world). unfold rearming. rewrite E1. cbn [mbind option_bind]. rewrite E2.
  split; [done |]. eapply rtc_l; [eapply (step_schedule false w c x 1); [lia | exact E1] |].
  eapply rtc_l; [| apply rtc_refl]. eapply step_cancel; [| exact E2]. apply u64_range.
Qed.

Lemma tick_reentrant_safe_witness :
  ∃ w' world' fired, tick false rearming small_wheel [] = Some (w', world', fired) ∧ quiet false w' ∧
    0 <= fired <= max_timers_ small_wheel ∧ current_tick w' = u64 (current_tick small_wheel + 1) ∧
    active_count w' = Z.of_nat (size (pending w')) ∧
    (∃ w'' h', schedule false w' (Some 7) 70 3 = Some (w'', h') ∧ quiet false w'' ∧
      (if bool_decide (h' = kInvalidHandle) then w'' = w'
       else pending w' !! h' = None ∧ pending w'' = <[h' := (3, 7, 70)]> (pending w'))) ∧
    (∃ w'', cancel false w' 5 = Some (w'', bool_decide (is_Some (pending w' !! 5))) ∧ quiet false w'' ∧
      pending w'' = delete 5 (pending w')).
Proof.
  apply (tick_reentrant_safe false rearming small_wheel [] 7 70 3 5);
    [apply at_rest_quiet, small_wheel_rest | apply rearming_well_behaved | simpl; lia | by split].
Defined.

(** * A limit *)

(** Two timers, in slots 1 and 3; the first one's callback cancels the
    second, whose handle it has as its context; one tick, then [reset]. *)
Definition cancel_inside (ndebug : bool) : option (TimingWheel Z * Z) :=
  '(w, second) ← schedule ndebug (init_nodes (CB := Z) (IFS.init_storage ndebug 4) 8 4) (Some 2) 0 3;
  '(w, _) ← schedule ndebug w (Some 1) second 1;
  '(w, _, fired) ← tick ndebug
     (λ _ x w (_ : unit), '(w, _) ← cancel ndebug w x; Some (w, tt)) w tt;
  Some (w, fired).

(** [reset] asserts that it freed as many nodes as [active_count_] says.
    After a callback has cancelled a timer of another bucket the node is
    still chained but no longer counted, so the assertion of the debug build
    fails although the documented calls were used in a documented way; the
    release build resets. *)
Theorem reset_after_callback_cancel :
  (∃ w, cancel_inside false = Some (w, 1) ∧ active_count w = 0 ∧ reset false w = None) ∧
  (∃ w w', cancel_inside true = Some (w, 1) ∧ active_count w = 0 ∧ reset true w = Some w' ∧
     IFS.available (free_list_ w') = 4).
Proof.
  split.
  - destruct (cancel_inside false) as [[w f] |] eqn:E; [| by vm_compute in E].
    vm_compute in E. injection E as <- <-. eexists. split; [done |]. by split.
  - destruct (cancel_inside true) as [[w f] |] eqn:E; [| by vm_compute in E].
    vm_compute in E. injection E as <- <-. eexists _, _. split; [done |]. split; [done |].
    split; [vm_compute; reflexivity | done].
Qed.
