(* ===== verification/FixedTimingWheel.v ===== *)
(** The timing wheel of compile-time dimensions
    ([src/libs/ds/fixed_timing_wheel.hpp]), and its equivalence with the
    run-time wheel of [TimingWheel.v], callbacks that re-enter the wheel
    included.  The node structure and its field updates are those of the
    run-time wheel, which the source says it copies. *)
From S2P Require Import Prelude.
From S2P Require Import BitUtils.
From S2P Require Import IndexFreeStack.
From S2P Require Import TimingWheel.
From S2P Require Import TimingWheelTick.
Local Open Scope Z_scope.
Local Open Scope array_scope.

Module FTW.
Section Wheel.
Context (ndebug : bool) (WheelSize MaxTimers : Z) {CB : Type}.

Record FixedTimingWheel : Type := {
  bucket_heads_ : list Z;
  nodes_ : list (TW.TimerNode CB);
  free_list_ : FixedIFS.FixedIndexFreeStack;
  current_tick_ : Z;
  active_count_ : Z;
  in_tick_walk_ : bool;
}.
Implicit Types (w : FixedTimingWheel).

(** The [static_assert]s. *)
Definition accepted : bool :=
  is_power_of_two WheelSize && bool_decide (WheelSize > 1) && is_power_of_two MaxTimers && bool_decide (MaxTimers > 0).

Definition kWheelMask : Z := u64 (WheelSize - 1).
Definition kNullIdx : Z := 2 ^ 32 - 1.
Definition kInvalidHandle : Z := 0.

Definition construct : FixedTimingWheel :=
  {| bucket_heads_ := replicate (Z.to_nat WheelSize) kNullIdx;
     nodes_ := replicate (Z.to_nat MaxTimers) TW.fresh_node;
     free_list_ := FixedIFS.construct ndebug MaxTimers;
     current_tick_ := 0; active_count_ := 0; in_tick_walk_ := false |}.

Definition pack_handle (idx gen : Z) : Z := Z.lor (u64 (Z.shiftl gen 32)) idx.
Definition unpack_handle (h : Z) : Z * Z := (u32 (Z.land h 0xFFFFFFFF), u32 (Z.shiftr h 32)).

Definition with_chain w heads nodes : FixedTimingWheel :=
  {| bucket_heads_ := heads; nodes_ := nodes; free_list_ := free_list_ w;
     current_tick_ := current_tick_ w; active_count_ := active_count_ w; in_tick_walk_ := in_tick_walk_ w |}.
Definition with_nodes w nodes : FixedTimingWheel := with_chain w (bucket_heads_ w) nodes.
Definition with_free w fl : FixedTimingWheel :=
  {| bucket_heads_ := bucket_heads_ w; nodes_ := nodes_ w; free_list_ := fl;
     current_tick_ := current_tick_ w; active_count_ := active_count_ w; in_tick_walk_ := in_tick_walk_ w |}.
Definition with_counts w tick active walking : FixedTimingWheel :=
  {| bucket_heads_ := bucket_heads_ w; nodes_ := nodes_ w; free_list_ := free_list_ w;
     current_tick_ := tick; active_count_ := active; in_tick_walk_ := walking |}.

Definition is_armed (n : TW.TimerNode CB) : bool := bool_decide (is_Some (TW.cb n)).

Definition push_front w (slot idx : Z) : option FixedTimingWheel :=
  nodes ← TW.update (nodes_ w) idx (λ n, TW.set_prev n kNullIdx);
  old_head ← (bucket_heads_ w).[slot];
  nodes ← TW.update nodes idx (λ n, TW.set_next n old_head);
  nodes ← (if bool_decide (old_head = kNullIdx) then Some nodes
           else TW.update nodes old_head (λ n, TW.set_prev n idx));
  heads ← storeZ (bucket_heads_ w) slot idx;
  Some (with_chain w heads nodes).

Definition unlink w (idx : Z) : option FixedTimingWheel :=
  node ← (nodes_ w).[idx];
  '(heads, nodes) ←
    (if bool_decide (TW.prev node = kNullIdx)
     then heads ← storeZ (bucket_heads_ w) (TW.slot node) (TW.next node); Some (heads, nodes_ w)
     else nodes ← TW.update (nodes_ w) (TW.prev node) (λ n, TW.set_next n (TW.next node));
          Some (bucket_heads_ w, nodes));
  node ← nodes.[idx];
  nodes ← (if bool_decide (TW.next node = kNullIdx) then Some nodes
           else TW.update nodes (TW.next node) (λ n, TW.set_prev n (TW.prev node)));
  nodes ← TW.update nodes idx (λ n, TW.set_prev n kNullIdx);
  nodes ← TW.update nodes idx (λ n, TW.set_next n kNullIdx);
  Some (with_chain w heads nodes).

Definition next_gen (g : Z) : Z :=
  let g := u32 (g + 1) in if bool_decide (g = 0) then 1 else g.

Definition free_node w (idx : Z) : option FixedTimingWheel :=
  nodes ← TW.update (nodes_ w) idx (λ n, TW.set_gen n (next_gen (TW.gen n)));
  nodes ← TW.update nodes idx (λ n, TW.set_payload n None 0);
  fl ← FixedIFS.push ndebug MaxTimers (free_list_ w) idx;
  Some (with_free (with_nodes w nodes) fl).

Definition schedule w (c : option CB) (x delay : Z) : option (FixedTimingWheel * Z) :=
  if bool_decide (delay = 0) || bool_decide (delay >= WheelSize) || bool_decide (c = None) then abort
  else
    '(fl, popped) ← FixedIFS.pop ndebug (free_list_ w);
    match popped with
    | None => Some (with_free w fl, kInvalidHandle)
    | Some idx =>
        let w := with_free w fl in
        nodes ← TW.update (nodes_ w) idx (λ n, TW.set_payload n c x);
        let slot := u32 (Z.land (u64 (current_tick_ w + delay)) kWheelMask) in
        nodes ← TW.update nodes idx (λ n, TW.set_slot n slot);
        w ← push_front (with_nodes w nodes) slot idx;
        let w := with_counts w (current_tick_ w) (u32 (active_count_ w + 1)) (in_tick_walk_ w) in
        node ← (nodes_ w).[idx];
        Some (w, pack_handle idx (TW.gen node))
    end.

Definition cancel w (h : Z) : option (FixedTimingWheel * bool) :=
  if bool_decide (h = kInvalidHandle) then Some (w, false)
  else
    let '(idx, g) := unpack_handle h in
    if bool_decide (idx >= MaxTimers) then Some (w, false)
    else
      node ← (nodes_ w).[idx];
      if negb (bool_decide (TW.gen node = g)) then Some (w, false)
      else if negb (is_armed node) then Some (w, false)
      else
        w ← (if in_tick_walk_ w
             then nodes ← TW.update (nodes_ w) idx (λ n, TW.set_payload n None 0); Some (with_nodes w nodes)
             else w ← unlink w idx; free_node w idx);
        Some (with_counts w (current_tick_ w) (u32 (active_count_ w - 1)) (in_tick_walk_ w), true).

Definition reset_links w (idx : Z) : option FixedTimingWheel :=
  nodes ← TW.update (nodes_ w) idx (λ n, TW.set_prev n kNullIdx);
  nodes ← TW.update nodes idx (λ n, TW.set_next n kNullIdx);
  Some (with_nodes w nodes).

Section Tick.
Context {W : Type} (call : CB → Z → FixedTimingWheel → W → option (FixedTimingWheel * W)).

Fixpoint walk (fuel : nat) w (world : W) (head fired : Z) : option (FixedTimingWheel * W * Z) :=
  if bool_decide (head = kNullIdx) then Some (w, world, fired)
  else
    match fuel with
    | O => None
    | S fuel =>
        let cur_idx := head in
        cur ← (nodes_ w).[cur_idx];
        let head := TW.next cur in
        match TW.cb cur with
        | None =>
            w ← reset_links w cur_idx;
            w ← free_node w cur_idx;
            walk fuel w world head fired
        | Some c =>
            w ← reset_links w cur_idx;
            nodes ← TW.update (nodes_ w) cur_idx (λ n, TW.set_payload n None 0);
            let saved_gen := TW.gen cur in
            '(w, world) ← call c (TW.ctx cur) (with_nodes w nodes) world;
            cur ← (nodes_ w).[cur_idx];
            w ← (if bool_decide (TW.gen cur = saved_gen) then free_node w cur_idx else Some w);
            walk fuel w world head (u32 (fired + 1))
        end
    end.

Definition tick w (world : W) : option (FixedTimingWheel * W * Z) :=
  let tick := u64 (current_tick_ w + 1) in
  let slot := Z.land tick kWheelMask in
  head_idx ← (bucket_heads_ w).[slot];
  heads ← storeZ (bucket_heads_ w) slot kNullIdx;
  let w := with_counts (with_chain w heads (nodes_ w)) tick (active_count_ w) true in
  '(w, world, fired) ← walk (Z.to_nat MaxTimers) w world head_idx 0;
  Some (with_counts w (current_tick_ w) (u32 (active_count_ w - fired)) false, world, fired).
End Tick.

Fixpoint free_chain (fuel : nat) w (idx freed : Z) : option (FixedTimingWheel * Z) :=
  if bool_decide (idx = kNullIdx) then Some (w, freed)
  else
    match fuel with
    | O => None
    | S fuel =>
        node ← (nodes_ w).[idx];
        let next_idx := TW.next node in
        w ← reset_links w idx;
        w ← free_node w idx;
        free_chain fuel w next_idx (u32 (freed + 1))
    end.

Fixpoint reset_buckets (slots : list Z) w (freed : Z) : option (FixedTimingWheel * Z) :=
  match slots with
  | [] => Some (w, freed)
  | slot :: slots =>
      head ← (bucket_heads_ w).[slot];
      '(w, freed) ← free_chain (Z.to_nat MaxTimers) w head freed;
      heads ← storeZ (bucket_heads_ w) slot kNullIdx;
      reset_buckets slots (with_chain w heads (nodes_ w)) freed
  end.

(** Also the destructor. *)
Definition reset w : option FixedTimingWheel :=
  '(w, freed) ← reset_buckets (Z.of_nat <$> seq 0 (Z.to_nat WheelSize)) w 0;
  _ ← (if ndebug then Some tt else assertM (bool_decide (freed = active_count_ w)));
  Some (with_counts w 0 0 (in_tick_walk_ w)).

Definition current_tick w : Z := current_tick_ w.
Definition active_count w : Z := active_count_ w.
Definition wheel_size : Z := WheelSize.
Definition max_timers : Z := MaxTimers.
End Wheel.
Arguments FixedTimingWheel : clear implicits.
End FTW.

(** * Equivalence *)

(** What a callback does: calls of the wheel that depend on each other's
    results and on the outside world. *)
Inductive Script (CB W : Type) : Type :=
  | Return (world : W)
  | Schedule (c : option CB) (x delay : Z) (k : Z → Script CB W)
  | Cancel (h : Z) (k : bool → Script CB W).
Arguments Return {CB W} _.
Arguments Schedule {CB W} _ _ _ _.
Arguments Cancel {CB W} _ _.

Section Scripts.
Context {CB W Wheel : Type} (sched : Wheel → option CB → Z → Z → option (Wheel * Z)) (canc : Wheel → Z → option (Wheel * bool)).
Fixpoint run_script (s : Script CB W) (w : Wheel) : option (Wheel * W) :=
  match s with
  | Return world => Some (w, world)
  | Schedule c x delay k => '(w, h) ← sched w c x delay; run_script (k h) w
  | Cancel h k => '(w, b) ← canc w h; run_script (k b) w
  end.
End Scripts.

(** The calls of a wheel, and their answers. *)
Inductive WheelCall (CB : Type) : Type := CallSchedule (c : option CB) (x delay : Z) | CallCancel (h : Z) | CallTick | CallReset | CallCounts.
Arguments CallSchedule {CB} _ _ _.
Arguments CallCancel {CB} _.
Arguments CallTick {CB}.
Arguments CallReset {CB}.
Arguments CallCounts {CB}.

Section Calls.
Context (ndebug : bool) {CB W : Type} (script : CB → Z → W → Script CB W).

Definition runtime_call (w : TW.TimingWheel CB) (world : W) (c : WheelCall CB) : option (TW.TimingWheel CB * W * list Z) :=
  match c with
  | CallSchedule c x delay => '(w, h) ← TW.schedule ndebug w c x delay; Some (w, world, [h])
  | CallCancel h => '(w, b) ← TW.cancel ndebug w h; Some (w, world, [b2z b])
  | CallTick => '(w, world, n) ← TW.tick ndebug (λ c x w world, run_script (TW.schedule ndebug) (TW.cancel ndebug) (script c x world) w) w world; Some (w, world, [n])
  | CallReset => w ← TW.reset ndebug w; Some (w, world, [])
  | CallCounts => Some (w, world, [TW.current_tick w; TW.active_count w; TW.wheel_size w; TW.max_timers w])
  end.

Definition fixed_call (ws mt : Z) (w : FTW.FixedTimingWheel CB) (world : W) (c : WheelCall CB) : option (FTW.FixedTimingWheel CB * W * list Z) :=
  match c with
  | CallSchedule c x delay => '(w, h) ← FTW.schedule ndebug ws w c x delay; Some (w, world, [h])
  | CallCancel h => '(w, b) ← FTW.cancel ndebug mt w h; Some (w, world, [b2z b])
  | CallTick => '(w, world, n) ← FTW.tick ndebug ws mt (λ c x w world, run_script (FTW.schedule ndebug ws) (FTW.cancel ndebug mt) (script c x world) w) w world; Some (w, world, [n])
  | CallReset => w ← FTW.reset ndebug ws mt w; Some (w, world, [])
  | CallCounts => Some (w, world, [FTW.current_tick w; FTW.active_count w; FTW.wheel_size ws; FTW.max_timers mt])
  end.

Section RunCalls.
Context {Wheel : Type} (call : Wheel → W → WheelCall CB → option (Wheel * W * list Z)).
Fixpoint run_calls (w : Wheel) (world : W) (calls : list (WheelCall CB)) : option (W * list (list Z)) :=
  match calls with
  | [] => Some (world, [])
  | c :: calls => '(w, world, a) ← call w world c; '(world, answers) ← run_calls w world calls; Some (world, a :: answers)
  end.
End RunCalls.
End Calls.

Section Equivalence.
Context (ndebug : bool) (ws mt : Z) {CB : Type} (Hws : 2 <= ws < 2 ^ 64).
Implicit Types (w : FTW.FixedTimingWheel CB).

Definition to_runtime w : TW.TimingWheel CB :=
  {| TW.bucket_heads_ := FTW.bucket_heads_ w; TW.nodes_ := FTW.nodes_ w; TW.free_list_ := FixedIFS.to_runtime mt (FTW.free_list_ w);
     TW.wheel_size_ := ws; TW.wheel_mask_ := ws - 1; TW.max_timers_ := mt;
     TW.current_tick_ := FTW.current_tick_ w; TW.active_count_ := FTW.active_count_ w; TW.in_tick_walk_ := FTW.in_tick_walk_ w |}.

Lemma mask_eq : FTW.kWheelMask ws = ws - 1.
Proof. apply u64_id. unfold is_u64. lia. Qed.

(** Two computations step by step: the same first step, then the rest. *)
Lemma bind_same {A B C : Type} (e : option A) (f : A → option C) (g : A → option B) (r : B → C) :
  (∀ x, f x = r <$> g x) → e ≫= f = r <$> (e ≫= g).
Proof. intros Hfg. destruct e; [apply Hfg | done]. Qed.

Lemma bind_map {A A' B C : Type} (e : option A) (h : A → A') (f : A' → option C) (g : A → option B) (r : B → C) :
  (∀ x, f (h x) = r <$> g x) → (h <$> e) ≫= f = r <$> (e ≫= g).
Proof. intros Hfg. destruct e; [apply Hfg | done]. Qed.

Lemma push_front_eq w slot idx : TW.push_front (to_runtime w) slot idx = to_runtime <$> FTW.push_front w slot idx.
Proof.
  unfold TW.push_front, FTW.push_front. do 3 (apply bind_same; intros ?). apply bind_same. intros nodes. by apply bind_same.
Qed.

Lemma unlink_eq w idx : TW.unlink (to_runtime w) idx = to_runtime <$> FTW.unlink w idx.
Proof.
  unfold TW.unlink, FTW.unlink. apply bind_same. intros node. apply bind_same. intros [heads nodes].
  apply bind_same. intros node'. do 2 (apply bind_same; intros ?). by apply bind_same.
Qed.

Lemma free_node_eq w idx : TW.free_node ndebug (to_runtime w) idx = to_runtime <$> FTW.free_node ndebug mt w idx.
Proof.
  unfold TW.free_node, FTW.free_node. do 2 (apply bind_same; intros ?). cbn [to_runtime TW.free_list_]. rewrite FixedIFS.push_refines. by apply bind_map.
Qed.

Lemma reset_links_eq w idx : TW.reset_links (to_runtime w) idx = to_runtime <$> FTW.reset_links w idx.
Proof. unfold TW.reset_links, FTW.reset_links. apply bind_same. intros nodes. by apply bind_same. Qed.

Abbreviation both := (λ r, (to_runtime r.1, r.2)).

Lemma schedule_eq w c x delay : TW.schedule ndebug (to_runtime w) c x delay = both <$> FTW.schedule ndebug ws w c x delay.
Proof.
  unfold TW.schedule, FTW.schedule. cbn [to_runtime TW.wheel_size_ TW.free_list_]. destruct (_ || _ || _); [done |].
  rewrite FixedIFS.pop_refines. apply bind_map. intros [fl [idx |]]; [| done]. cbn [fst snd].
  apply bind_same. intros nodes. rewrite mask_eq. apply bind_same. intros nodes'.
  match goal with |- TW.push_front ?a ?b ?c ≫= _ = _ <$> (FTW.push_front ?a' _ _ ≫= _) =>
    change a with (to_runtime a'); rewrite (push_front_eq a' b c) end.
  apply bind_map. intros w'. by apply bind_same.
Qed.

Lemma cancel_eq w h : TW.cancel ndebug (to_runtime w) h = both <$> FTW.cancel ndebug mt w h.
Proof.
  unfold TW.cancel, FTW.cancel. change TW.kInvalidHandle with FTW.kInvalidHandle. case_bool_decide; [done |]. change TW.unpack_handle with FTW.unpack_handle. destruct (FTW.unpack_handle h) as [idx g].
  cbn [to_runtime TW.max_timers_]. case_bool_decide; [done |]. apply bind_same. intros node. case_match; [done |].
  change (TW.is_armed node) with (FTW.is_armed node). case_match; [done |]. change (TW.in_tick_walk_ (to_runtime w)) with (FTW.in_tick_walk_ w). destruct (FTW.in_tick_walk_ w).
  - change (TW.nodes_ (to_runtime w)) with (FTW.nodes_ w). by destruct (TW.update _ _ _).
  - rewrite unlink_eq. destruct (FTW.unlink w idx) as [w1 |]; [| done]. cbn [fmap option_fmap option_map mbind option_bind].
    rewrite free_node_eq. by apply bind_map.
Qed.

Lemma script_eq {W} (s : Script CB W) : ∀ w,
  run_script (TW.schedule ndebug) (TW.cancel ndebug) s (to_runtime w) = both <$> run_script (FTW.schedule ndebug ws) (FTW.cancel ndebug mt) s w.
Proof.
  induction s as [world | c x delay k IH | h k IH]; intros w; cbn [run_script]; [done | |].
  - rewrite schedule_eq. apply bind_map. intros [w' h]. apply IH.
  - rewrite cancel_eq. apply bind_map. intros [w' b]. apply IH.
Qed.

Section Tick.
Context {W : Type} (call : CB → Z → TW.TimingWheel CB → W → option (TW.TimingWheel CB * W)) (fcall : CB → Z → FTW.FixedTimingWheel CB → W → option (FTW.FixedTimingWheel CB * W)).
Context (Hcall : ∀ c x w world, call c x (to_runtime w) world = both <$> fcall c x w world).

Lemma walk_eq fuel : ∀ w world head fired,
  TW.walk ndebug call fuel (to_runtime w) world head fired = (λ r, (to_runtime r.1.1, r.1.2, r.2)) <$> FTW.walk ndebug mt fcall fuel w world head fired.
Proof.
  induction fuel as [| fuel IH]; intros w world head fired; cbn [TW.walk FTW.walk]; change FTW.kNullIdx with TW.kNullIdx; case_bool_decide; try done.
  apply bind_same. intros cur. destruct (TW.cb cur) as [c |].
  - rewrite reset_links_eq. apply bind_map. intros w1. apply bind_same. intros nodes.
    change (TW.with_nodes (to_runtime w1) nodes) with (to_runtime (FTW.with_nodes w1 nodes)). rewrite Hcall. apply bind_map. intros [w2 world']. cbn [fst snd].
    apply bind_same. intros cur'. case_bool_decide; [rewrite free_node_eq; apply bind_map; intros w3; apply IH | apply IH].
  - rewrite reset_links_eq. apply bind_map. intros w1. rewrite free_node_eq. apply bind_map. intros w2. apply IH.
Qed.

Lemma tick_eq w world : TW.tick ndebug call (to_runtime w) world = (λ r, (to_runtime r.1.1, r.1.2, r.2)) <$> FTW.tick ndebug ws mt fcall w world.
Proof.
  unfold TW.tick, FTW.tick. rewrite mask_eq. apply bind_same. intros head. apply bind_same. intros heads.
  match goal with |- TW.walk _ _ _ ?a _ _ _ ≫= _ = _ <$> (FTW.walk _ _ _ _ ?a' _ _ _ ≫= _) => change a with (to_runtime a') end.
  cbn [to_runtime TW.max_timers_]. fold (to_runtime). rewrite walk_eq. apply bind_map. by intros [[w1 world'] fired].
Qed.
End Tick.

Lemma free_chain_eq fuel : ∀ w idx freed, TW.free_chain ndebug fuel (to_runtime w) idx freed = both <$> FTW.free_chain ndebug mt fuel w idx freed.
Proof.
  induction fuel as [| fuel IH]; intros w idx freed; cbn [TW.free_chain FTW.free_chain]; change FTW.kNullIdx with TW.kNullIdx; case_bool_decide; try done.
  apply bind_same. intros node. rewrite reset_links_eq. apply bind_map. intros w1. rewrite free_node_eq. apply bind_map. intros w2. apply IH.
Qed.

Lemma reset_buckets_eq slots : ∀ w freed, TW.reset_buckets ndebug slots (to_runtime w) freed = both <$> FTW.reset_buckets ndebug mt slots w freed.
Proof.
  induction slots as [| slot slots IH]; intros w freed; cbn [TW.reset_buckets FTW.reset_buckets]; [done |].
  apply bind_same. intros head. cbn [to_runtime TW.max_timers_]. fold to_runtime. rewrite free_chain_eq. apply bind_map. intros [w1 freed'].
  apply bind_same. intros heads. apply (IH (FTW.with_chain w1 heads (FTW.nodes_ w1))).
Qed.

Lemma reset_eq w : TW.reset ndebug (to_runtime w) = to_runtime <$> FTW.reset ndebug ws mt w.
Proof. unfold TW.reset, FTW.reset. cbn [to_runtime TW.wheel_size_]. fold to_runtime. rewrite reset_buckets_eq. apply bind_map. intros [w1 freed]. by apply bind_same. Qed.

Lemma construct_eq : 1 <= mt <= 2 ^ 32 - 1 → to_runtime (FTW.construct ndebug ws mt) = TW.init_nodes (IFS.init_storage ndebug mt) ws mt.
Proof.
  intros Hmt. unfold to_runtime, FTW.construct, TW.init_nodes. cbn. rewrite FixedIFS.construct_refines; [done |].
  unfold IFS.is_valid_capacity. by rewrite !bool_decide_true by lia.
Qed.

Lemma calls_eq {W} (script : CB → Z → W → Script CB W) calls : ∀ w world,
  run_calls (runtime_call ndebug script) (to_runtime w) world calls = run_calls (fixed_call ndebug script ws mt) w world calls.
Proof.
  assert (∀ w world c, runtime_call ndebug script (to_runtime w) world c = (λ r, (to_runtime r.1.1, r.1.2, r.2)) <$> fixed_call ndebug script ws mt w world c) as Hone.
  { intros w world [c x delay | h | | |]; cbn [runtime_call fixed_call].
    - rewrite schedule_eq. apply bind_map. by intros [].
    - rewrite cancel_eq. apply bind_map. by intros [].
    - rewrite (tick_eq _ (λ c x w world, run_script (FTW.schedule ndebug ws) (FTW.cancel ndebug mt) (script c x world) w)) by (intros; apply script_eq).
      apply bind_map. by intros [[]].
    - rewrite reset_eq. by apply bind_map.
    - done. }
  induction calls as [| c calls IH]; intros w world; cbn [run_calls]; [done |]. rewrite Hone.
  destruct (fixed_call ndebug script ws mt w world c) as [[[w1 world1] a] |]; [| done]. cbn. by rewrite IH.
Qed.
End Equivalence.

(** C34. The wheel of compile-time dimensions is the run-time wheel.  For dimensions both accept,
    over a buffer of the size the run-time wheel asks for, every sequence of calls (schedules,
    cancellations, ticks, resets and the observers), with callbacks that may themselves
    schedule and cancel depending on the results, gives the same answers and effects, or fails
    at the same call, in the debug and the release build. *)
Theorem fixed_wheel_equivalent (ndebug : bool) {CB W : Type} (script : CB → Z → W → Script CB W) (addr bytes e k : Z) (world : W) (calls : list (WheelCall CB)) :
  1 <= e < 32 → 0 <= k < 32 → addr mod TW.alignof_node = 0 → TW.required_buffer_size ndebug (2 ^ e) (2 ^ k) <= bytes →
  FTW.accepted (2 ^ e) (2 ^ k) = true ∧
  ∃ w, TW.construct ndebug (Some addr) bytes (2 ^ e) (2 ^ k) = Some w ∧
    run_calls (fixed_call ndebug script (2 ^ e) (2 ^ k)) (FTW.construct ndebug (2 ^ e) (2 ^ k)) world calls = run_calls (runtime_call ndebug script) w world calls.
Proof.
  intros He Hk Ha Hb. assert (2 ^ 1 <= 2 ^ e <= 2 ^ 31) as Hw by (split; apply Z.pow_le_mono_r; lia).
  assert (2 ^ 0 <= 2 ^ k <= 2 ^ 31) as Hm by (split; apply Z.pow_le_mono_r; lia). split.
  - unfold FTW.accepted. rewrite !andb_true_iff, !bool_decide_eq_true, !is_power_of_two_iff by lia.
    split; [split; [split; [exists e; split; [lia | done] | lia] | exists k; split; [lia | done]] | lia].
  - destruct (TWService.construct_enough ndebug (CB := CB) addr bytes e k He Hk Ha Hb) as [-> _]. eexists. split; [done |].
    rewrite <- construct_eq by lia. symmetry. apply calls_eq. lia.
Qed.

(** A callback that cancels the timer named by its context and schedules
    another, and counts. *)
Definition demo_script (c x world : Z) : Script Z Z :=
  Cancel x (λ b, if b then Schedule (Some 8) 0 2 (λ _, Return (world + 1)) else Return (world + 10)).

Lemma fixed_wheel_equivalent_witness :
  run_calls (fixed_call true demo_script 8 4) (FTW.construct true 8 4) 0
    [CallSchedule (Some 7) (2 ^ 32 + 1) 1; CallSchedule (Some 7) 0 1; CallTick; CallTick; CallCounts] = Some (20, [[2 ^ 32]; [2 ^ 32 + 1]; [2]; [0]; [2; 0; 8; 4]]) ∧
  ∃ w, TW.construct true (CB := Z) (Some 64) 4096 8 4 = Some w ∧
    run_calls (fixed_call true demo_script 8 4) (FTW.construct true 8 4) 0 [CallSchedule (Some 7) 0 1; CallTick; CallReset] =
    run_calls (runtime_call true demo_script) w 0 [CallSchedule (Some 7) 0 1; CallTick; CallReset].
Proof.
  split; [vm_compute; reflexivity |].
  apply (fixed_wheel_equivalent true demo_script 64 4096 3 2 0); [lia | lia | reflexivity | vm_compute; discriminate].
Defined.
