(* ===== verification/TradingTypes.v ===== *)
(** The vocabulary types of [src/libs/algo/trading_types.hpp].

    [Price] is a 64-bit signed integer, [OrderId] a 64-bit and [Qty] a 32-bit
    unsigned one; all three are [Z] here, with the ranges of [Prelude.v]. *)
From S2P Require Import Prelude.
Local Open Scope Z_scope.

(** [enum class Side : uint8_t { kBid = 0, kAsk, kCount }].  A [uint8_t]
    enum may hold any byte; every value but the first two compares unequal
    to [kBid] and [kAsk] and is represented by [kCount]. *)
Inductive Side : Set := kBid | kAsk | kCount.

#[export] Instance Side_eq_dec : EqDecision Side.
Proof. solve_decision. Defined.

Definition side_to_u8 (s : Side) : Z := match s with kBid => 0 | kAsk => 1 | kCount => 2 end.

Definition side_of_u8 (b : Z) : Side :=
  if bool_decide (b = 0) then kBid else if bool_decide (b = 1) then kAsk else kCount.

(** The side an order trades against. *)
Definition opposite (s : Side) : Side := match s with kBid => kAsk | _ => kBid end.

Lemma side_roundtrip s : side_of_u8 (side_to_u8 s) = s.
Proof. by destruct s. Qed.
