(* ===== verification/OrderBook.v ===== *)
(** The limit order book: [src/libs/algo/order_book.hpp].

    An [Order*] or [PriceLevel*] is the index of its slot in the pool; the
    two intrusive lists are the sequences of slot indices they link
    ([IntrusiveListSpec.v] relates the pointers to the sequences), with
    [is_linked()] kept as a flag of the node so that the list's assertions
    can be stated.  The hash maps are used through [TableInterface.v].  A
    failed [assert], [std::abort] or access outside a pool is [None]. *)
From S2P Require Import Prelude.
From S2P Require Import IndexFreeStack.
From S2P Require Import TableInterface.
From S2P Require Import TradingTypes.
Local Open Scope Z_scope.
Local Open Scope array_scope.

Record Order : Set := {
  order_id : Z;
  price : Z;
  qty : Z;
  side : Side;
  level : option Z;
  linked : bool;
}.

Record PriceLevel : Set := {
  pl_price : Z;
  total_qty : Z;
  pl_side : Side;
  orders : list Z;
  pl_linked : bool;
}.

Record OrderBook (OM LM : Type) : Type := {
  order_slots_ : list Order;
  level_slots_ : list PriceLevel;
  max_orders_ : Z;
  max_levels_ : Z;
  order_free_ : IFS.IndexFreeStack;
  level_free_ : IFS.IndexFreeStack;
  bids_ : list Z;
  asks_ : list Z;
  order_map_ : OM;
  level_map_bid_ : LM;
  level_map_ask_ : LM;
}.
Arguments order_slots_ {OM LM}.
Arguments level_slots_ {OM LM}.
Arguments max_orders_ {OM LM}.
Arguments max_levels_ {OM LM}.
Arguments order_free_ {OM LM}.
Arguments level_free_ {OM LM}.
Arguments bids_ {OM LM}.
Arguments asks_ {OM LM}.
Arguments order_map_ {OM LM}.
Arguments level_map_bid_ {OM LM}.
Arguments level_map_ask_ {OM LM}.

(** * The sequence operations of the intrusive list *)

(** Removal of a node from the sequence it belongs to. *)
Definition seq_erase (n : Z) (xs : list Z) : list Z := filter (λ x, x ≠ n) xs.

(** * Field assignments *)

Definition set_linked (b : bool) (o : Order) : Order :=
  {| order_id := order_id o; price := price o; qty := qty o; side := side o;
     level := level o; linked := b |}.
Definition set_qty (q : Z) (o : Order) : Order :=
  {| order_id := order_id o; price := price o; qty := q; side := side o;
     level := level o; linked := linked o |}.
Definition set_level (l : option Z) (o : Order) : Order :=
  {| order_id := order_id o; price := price o; qty := qty o; side := side o;
     level := l; linked := linked o |}.
Definition set_terms (id p q : Z) (s : Side) (o : Order) : Order :=
  {| order_id := id; price := p; qty := q; side := s; level := level o; linked := linked o |}.

Definition set_orders (os : list Z) (l : PriceLevel) : PriceLevel :=
  {| pl_price := pl_price l; total_qty := total_qty l; pl_side := pl_side l;
     orders := os; pl_linked := pl_linked l |}.
Definition set_total (t : Z) (l : PriceLevel) : PriceLevel :=
  {| pl_price := pl_price l; total_qty := t; pl_side := pl_side l;
     orders := orders l; pl_linked := pl_linked l |}.
Definition set_pl_linked (b : bool) (l : PriceLevel) : PriceLevel :=
  {| pl_price := pl_price l; total_qty := total_qty l; pl_side := pl_side l;
     orders := orders l; pl_linked := b |}.
Definition set_pl_terms (p : Z) (s : Side) (l : PriceLevel) : PriceLevel :=
  {| pl_price := p; total_qty := 0; pl_side := s; orders := orders l; pl_linked := pl_linked l |}.

Section Book.
  Context (ndebug : bool) {OM LM : Type} `{Table Z Z OM} `{Table Z Z LM}.
  Implicit Types (b : OrderBook OM LM).

Definition with_order_slots b (v : list Order) : OrderBook OM LM :=
  {| order_slots_ := v; level_slots_ := level_slots_ b; max_orders_ := max_orders_ b;
     max_levels_ := max_levels_ b; order_free_ := order_free_ b; level_free_ := level_free_ b;
     bids_ := bids_ b; asks_ := asks_ b; order_map_ := order_map_ b;
     level_map_bid_ := level_map_bid_ b; level_map_ask_ := level_map_ask_ b |}.
Definition with_level_slots b (v : list PriceLevel) : OrderBook OM LM :=
  {| order_slots_ := order_slots_ b; level_slots_ := v; max_orders_ := max_orders_ b;
     max_levels_ := max_levels_ b; order_free_ := order_free_ b; level_free_ := level_free_ b;
     bids_ := bids_ b; asks_ := asks_ b; order_map_ := order_map_ b;
     level_map_bid_ := level_map_bid_ b; level_map_ask_ := level_map_ask_ b |}.
Definition with_order_free b (v : IFS.IndexFreeStack) : OrderBook OM LM :=
  {| order_slots_ := order_slots_ b; level_slots_ := level_slots_ b; max_orders_ := max_orders_ b;
     max_levels_ := max_levels_ b; order_free_ := v; level_free_ := level_free_ b;
     bids_ := bids_ b; asks_ := asks_ b; order_map_ := order_map_ b;
     level_map_bid_ := level_map_bid_ b; level_map_ask_ := level_map_ask_ b |}.
Definition with_level_free b (v : IFS.IndexFreeStack) : OrderBook OM LM :=
  {| order_slots_ := order_slots_ b; level_slots_ := level_slots_ b; max_orders_ := max_orders_ b;
     max_levels_ := max_levels_ b; order_free_ := order_free_ b; level_free_ := v;
     bids_ := bids_ b; asks_ := asks_ b; order_map_ := order_map_ b;
     level_map_bid_ := level_map_bid_ b; level_map_ask_ := level_map_ask_ b |}.
Definition with_order_map b (v : OM) : OrderBook OM LM :=
  {| order_slots_ := order_slots_ b; level_slots_ := level_slots_ b; max_orders_ := max_orders_ b;
     max_levels_ := max_levels_ b; order_free_ := order_free_ b; level_free_ := level_free_ b;
     bids_ := bids_ b; asks_ := asks_ b; order_map_ := v;
     level_map_bid_ := level_map_bid_ b; level_map_ask_ := level_map_ask_ b |}.

(** [side_index]: the assertion is the source's. *)
Definition side_index (s : Side) : option Z :=
  let idx := side_to_u8 s in
  _ ← assertM (bool_decide (0 <= idx <= 1));
  Some idx.

(** [level_map_[i]], an array of two tables. *)
Definition get_level_map b (i : Z) : option LM :=
  if bool_decide (i = 0) then Some (level_map_bid_ b)
  else if bool_decide (i = 1) then Some (level_map_ask_ b) else None.

Definition set_level_map b (i : Z) (v : LM) : OrderBook OM LM :=
  {| order_slots_ := order_slots_ b; level_slots_ := level_slots_ b; max_orders_ := max_orders_ b;
     max_levels_ := max_levels_ b; order_free_ := order_free_ b; level_free_ := level_free_ b;
     bids_ := bids_ b; asks_ := asks_ b; order_map_ := order_map_ b;
     level_map_bid_ := if bool_decide (i = 0) then v else level_map_bid_ b;
     level_map_ask_ := if bool_decide (i = 0) then level_map_ask_ b else v |}.

(** [(side == Side::kBid) ? bids_ : asks_] *)
Definition ladder b (s : Side) : list Z :=
  if bool_decide (s = kBid) then bids_ b else asks_ b.

Definition with_ladder b (s : Side) (v : list Z) : OrderBook OM LM :=
  {| order_slots_ := order_slots_ b; level_slots_ := level_slots_ b; max_orders_ := max_orders_ b;
     max_levels_ := max_levels_ b; order_free_ := order_free_ b; level_free_ := level_free_ b;
     bids_ := if bool_decide (s = kBid) then v else bids_ b;
     asks_ := if bool_decide (s = kBid) then asks_ b else v;
     order_map_ := order_map_ b;
     level_map_bid_ := level_map_bid_ b; level_map_ask_ := level_map_ask_ b |}.

Definition get_order b (o : Z) : option Order := (order_slots_ b).[o].
Definition get_level b (l : Z) : option PriceLevel := (level_slots_ b).[l].

(** Assignments to the fields of [*order] and [*level]. *)
Definition upd_order b (o : Z) (f : Order → Order) : option (OrderBook OM LM) :=
  r ← get_order b o;
  Some (with_order_slots b ((order_slots_ b).[o <- f r])).
Definition upd_level b (l : Z) (f : PriceLevel → PriceLevel) : option (OrderBook OM LM) :=
  r ← get_level b l;
  Some (with_level_slots b ((level_slots_ b).[l <- f r])).

(** * Pool management *)

Definition alloc_order b : option (OrderBook OM LM * option Z) :=
  '(s, idx) ← IFS.pop ndebug (order_free_ b);
  Some (with_order_free b s, idx).

Definition free_order b (o : Z) : option (OrderBook OM LM) :=
  _ ← assertM (bool_decide (0 <= o < max_orders_ b));
  b ← upd_order b o (λ r, set_level None (set_linked false r));
  s ← IFS.push ndebug (order_free_ b) (u32 o);
  Some (with_order_free b s).

Definition alloc_level b : option (OrderBook OM LM * option Z) :=
  '(s, idx) ← IFS.pop ndebug (level_free_ b);
  Some (with_level_free b s, idx).

Definition free_level b (l : Z) : option (OrderBook OM LM) :=
  _ ← assertM (bool_decide (0 <= l < max_levels_ b));
  r ← get_level b l;
  _ ← assertM (bool_decide (orders r = []));
  b ← upd_level b l (set_pl_linked false);
  s ← IFS.push ndebug (level_free_ b) (u32 l);
  Some (with_level_free b s).

(** * The list operations on the order queue of a level and on a ladder *)

(** [level->orders.push_back( *order)] *)
Definition orders_push_back b (l o : Z) : option (OrderBook OM LM) :=
  r ← get_order b o;
  _ ← assertM (negb (linked r));
  b ← upd_order b o (set_linked true);
  upd_level b l (λ lv, set_orders (orders lv ++ [o]) lv).

(** [level->orders.erase( *order)]; the node must belong to that queue. *)
Definition orders_erase b (l o : Z) : option (OrderBook OM LM) :=
  r ← get_order b o;
  _ ← assertM (linked r);
  lv ← get_level b l;
  _ ← assertM (bool_decide (o ∈ orders lv));
  b ← upd_order b o (set_linked false);
  upd_level b l (λ lv, set_orders (seq_erase o (orders lv)) lv).

(** [ladder.erase( *level)] *)
Definition ladder_erase b (s : Side) (l : Z) : option (OrderBook OM LM) :=
  lv ← get_level b l;
  _ ← assertM (pl_linked lv);
  _ ← assertM (bool_decide (l ∈ ladder b s));
  b ← upd_level b l (set_pl_linked false);
  Some (with_ladder b s (seq_erase l (ladder b s))).

(** * Level management *)

(** The insertion walk of [insert_level_sorted]: before the first level that
    is worse than the new price, or at the back. *)
Fixpoint insert_walk b (s : Side) (p : Z) (l : Z) (walk : list Z) : option (list Z) :=
  match walk with
  | [] => Some [l]
  | it :: rest =>
      lv ← get_level b it;
      let stop := if bool_decide (s = kBid) then bool_decide (pl_price lv < p)
                  else bool_decide (pl_price lv > p) in
      if stop then Some (l :: it :: rest)
      else rest' ← insert_walk b s p l rest; Some (it :: rest')
  end.

Definition insert_level_sorted b (s : Side) (l : Z) : option (OrderBook OM LM) :=
  lv ← get_level b l;
  _ ← assertM (negb (pl_linked lv));
  lad ← insert_walk b s (pl_price lv) l (ladder b s);
  b ← upd_level b l (set_pl_linked true);
  Some (with_ladder b s lad).

Definition find_or_create_level b (s : Side) (p : Z) : option (OrderBook OM LM * option Z) :=
  si ← side_index s;
  lm ← get_level_map b si;
  found ← tbl_find lm p;
  match found with
  | Some l => Some (b, Some l)
  | None =>
      '(b, slot) ← alloc_level b;
      match slot with
      | None => Some (b, None)
      | Some l =>
          b ← upd_level b l (set_pl_terms p s);
          lm ← get_level_map b si;
          '(lm, inserted) ← tbl_insert lm p l;
          let b := set_level_map b si lm in
          if negb inserted then
            b ← free_level b l;
            Some (b, None)
          else
            b ← insert_level_sorted b s l;
            Some (b, Some l)
      end
  end.

Definition remove_level b (l : Z) : option (OrderBook OM LM) :=
  lv ← get_level b l;
  _ ← assertM (bool_decide (orders lv = []));
  si ← side_index (pl_side lv);
  b ← ladder_erase b (pl_side lv) l;
  lm ← get_level_map b si;
  '(lm, _) ← tbl_erase lm (pl_price lv);
  let b := set_level_map b si lm in
  free_level b l.

(** * Modifiers *)

Definition add_order b (id : Z) (s : Side) (p q : Z) : option (OrderBook OM LM * bool) :=
  if bool_decide (q = 0) then Some (b, false)
  else
    dup ← tbl_find (order_map_ b) id;
    match dup with
    | Some _ => Some (b, false)
    | None =>
        '(b, slot) ← alloc_order b;
        match slot with
        | None => Some (b, false)
        | Some o =>
            b ← upd_order b o (set_terms id p q s);
            '(om, inserted) ← tbl_insert (order_map_ b) id o;
            let b := with_order_map b om in
            if negb inserted then
              b ← free_order b o;
              Some (b, false)
            else
              '(b, lvl) ← find_or_create_level b s p;
              match lvl with
              | None =>
                  '(om, _) ← tbl_erase (order_map_ b) id;
                  let b := with_order_map b om in
                  b ← free_order b o;
                  Some (b, false)
              | Some l =>
                  b ← upd_order b o (set_level (Some l));
                  b ← orders_push_back b l o;
                  b ← upd_level b l (λ lv, set_total (u32 (total_qty lv + q)) lv);
                  Some (b, true)
              end
        end
    end.

Definition rest_order b (id : Z) (s : Side) (p q : Z) : option (OrderBook OM LM * bool) :=
  add_order b id s p q.

(** Unlinking an order from its level: the common first half of
    [cancel_order], [modify_order(id, 0)] and [remove_filled_order]. *)
Definition take_from_level b (o : Z) : option (OrderBook OM LM * Z) :=
  r ← get_order b o;
  l ← level r;
  b ← orders_erase b l o;
  r ← get_order b o;
  b ← upd_level b l (λ lv, set_total (u32 (total_qty lv - qty r)) lv);
  Some (b, l).

Definition cancel_order b (id : Z) : option (OrderBook OM LM * bool) :=
  pp ← tbl_find (order_map_ b) id;
  match pp with
  | None => Some (b, false)
  | Some o =>
      '(b, l) ← take_from_level b o;
      lv ← get_level b l;
      b ← (if bool_decide (orders lv = []) then remove_level b l else Some b);
      '(om, _) ← tbl_erase (order_map_ b) id;
      let b := with_order_map b om in
      b ← free_order b o;
      Some (b, true)
  end.

Definition modify_order b (id : Z) (new_qty : Z) : option (OrderBook OM LM * bool) :=
  pp ← tbl_find (order_map_ b) id;
  match pp with
  | None => Some (b, false)
  | Some o =>
      r ← get_order b o;
      if bool_decide (new_qty >= qty r) then Some (b, false)
      else if bool_decide (new_qty = 0) then
        '(b, l) ← take_from_level b o;
        lv ← get_level b l;
        b ← (if bool_decide (orders lv = []) then remove_level b l else Some b);
        '(om, _) ← tbl_erase (order_map_ b) id;
        let b := with_order_map b om in
        b ← free_order b o;
        Some (b, true)
      else
        let delta := qty r - new_qty in
        b ← upd_order b o (set_qty new_qty);
        l ← level r;
        b ← upd_level b l (λ lv, set_total (u32 (total_qty lv - delta)) lv);
        Some (b, true)
  end.

(** The order of the calls differs from [cancel_order]: the table and the
    pool are updated before the emptiness test. *)
Definition remove_filled_order b (o : Z) : option (OrderBook OM LM * bool) :=
  '(b, l) ← take_from_level b o;
  r ← get_order b o;
  '(om, _) ← tbl_erase (order_map_ b) (order_id r);
  let b := with_order_map b om in
  b ← free_order b o;
  lv ← get_level b l;
  if bool_decide (orders lv = []) then
    b ← remove_level b l;
    Some (b, true)
  else Some (b, false).

(** [clear]: the inner and outer [while] loops, each with the length of the
    list it empties as fuel. *)
Fixpoint clear_orders (fuel : nat) b (l : Z) : option (OrderBook OM LM) :=
  lv ← get_level b l;
  match orders lv with
  | [] => Some b
  | o :: rest =>
      match fuel with
      | O => None
      | S fuel =>
          b ← upd_level b l (set_orders rest);
          b ← upd_order b o (set_linked false);
          b ← free_order b o;
          clear_orders fuel b l
      end
  end.

Fixpoint clear_levels (fuel : nat) b (s : Side) : option (OrderBook OM LM) :=
  match ladder b s with
  | [] => Some b
  | l :: rest =>
      match fuel with
      | O => None
      | S fuel =>
          let b := with_ladder b s rest in
          b ← upd_level b l (set_pl_linked false);
          lv ← get_level b l;
          b ← clear_orders (length (orders lv)) b l;
          b ← free_level b l;
          clear_levels fuel b s
      end
  end.

Definition clear_side b (s : Side) : option (OrderBook OM LM) :=
  b ← clear_levels (length (ladder b s)) b s;
  si ← side_index s;
  lm ← get_level_map b si;
  Some (set_level_map b si (tbl_clear lm)).

Definition clear b : option (OrderBook OM LM) :=
  b ← clear_side b kBid;
  b ← clear_side b kAsk;
  let b := with_order_map b (tbl_clear (order_map_ b)) in
  _ ← assertM (bool_decide (bids_ b = []));
  _ ← assertM (bool_decide (asks_ b = []));
  _ ← assertM (bool_decide (tbl_size (order_map_ b) = 0));
  Some b.

(** * Queries *)

Definition best_bid b : option (option Z) :=
  match bids_ b with
  | [] => Some None
  | l :: _ => lv ← get_level b l; Some (Some (pl_price lv))
  end.

Definition best_ask b : option (option Z) :=
  match asks_ b with
  | [] => Some None
  | l :: _ => lv ← get_level b l; Some (Some (pl_price lv))
  end.

(** The difference is a signed 64-bit subtraction: overflow is undefined. *)
Definition spread b : option (option Z) :=
  bb ← best_bid b;
  ba ← best_ask b;
  match bb, ba with
  | Some bb, Some ba =>
      let d := ba - bb in
      _ ← assertM (bool_decide (- 2 ^ 63 <= d < 2 ^ 63));
      Some (Some d)
  | _, _ => Some None
  end.

Definition volume_at_level b (s : Side) (p : Z) : option Z :=
  si ← side_index s;
  lm ← get_level_map b si;
  pp ← tbl_find lm p;
  match pp with
  | None => Some 0
  | Some l => lv ← get_level b l; Some (total_qty lv)
  end.

Definition order_count_at_level b (s : Side) (p : Z) : option Z :=
  si ← side_index s;
  lm ← get_level_map b si;
  pp ← tbl_find lm p;
  match pp with
  | None => Some 0
  | Some l => lv ← get_level b l; Some (u32 (lenZ (orders lv)))
  end.

Definition has_order b (id : Z) : option bool :=
  r ← tbl_find (order_map_ b) id;
  Some (bool_decide (is_Some r)).

Definition order_qty b (id : Z) : option Z :=
  pp ← tbl_find (order_map_ b) id;
  match pp with
  | None => Some 0
  | Some o => r ← get_order b o; Some (qty r)
  end.

Definition book_depth b (s : Side) : Z := lenZ (ladder b s).
Definition total_orders b : Z := tbl_size (order_map_ b).
Definition free_order_count b : Z := IFS.available (order_free_ b).
Definition free_level_count b : Z := IFS.available (level_free_ b).

End Book.
