(* ===== verification/BookView.v ===== *)
(** The abstract specification of a limit order book: what a client can see.

    A ladder is the sequence of its prices, best first, each with its queue
    of [(id, quantity)] pairs, oldest first.  The operations below are the
    whole contract: no pools, no pointers, no tables. *)
From Stdlib Require Import Sorted.
From S2P Require Import Prelude.
From S2P Require Import TradingTypes.
Local Open Scope Z_scope.

Abbreviation queue := (list (Z * Z)).
Abbreviation vladder := (list (Z * list (Z * Z))).

(** [p] is strictly better than [p'] for side [s]. *)
Definition betterb (s : Side) (p p' : Z) : bool :=
  if bool_decide (s = kBid) then bool_decide (p' < p) else bool_decide (p' > p).

(** An order joins the back of the queue of its price; a new price goes
    before the first worse one. *)
Fixpoint v_add (s : Side) (p id q : Z) (V : vladder) : vladder :=
  match V with
  | [] => [(p, [(id, q)])]
  | (p', os) :: V' =>
      if bool_decide (p' = p) then (p', os ++ [(id, q)]) :: V'
      else if betterb s p p' then (p, [(id, q)]) :: V
      else (p', os) :: v_add s p id q V'
  end.

(** A level, unless its queue is empty. *)
Definition v_level (p : Z) (os : queue) : vladder :=
  match os with [] => [] | _ => [(p, os)] end.

Definition q_remove (id : Z) (os : queue) : queue := filter (λ o, o.1 ≠ id) os.
Definition q_resize (id q : Z) (os : queue) : queue :=
  (λ o, if bool_decide (o.1 = id) then (o.1, q) else o) <$> os.

Definition v_remove (id : Z) (V : vladder) : vladder :=
  V ≫= λ l, v_level l.1 (q_remove id l.2).
Definition v_resize (id q : Z) (V : vladder) : vladder :=
  (λ l, (l.1, q_resize id q l.2)) <$> V.

Definition v_ids (V : vladder) : list Z := V ≫= λ l, l.2.*1.
Definition v_volume (os : queue) : Z := foldr (λ o n, o.2 + n) 0 os.
Definition v_total (V : vladder) : Z := foldr (λ l n, v_volume l.2 + n) 0 V.

Definition v_lookup (p : Z) (V : vladder) : queue :=
  foldr (λ l r, if bool_decide (l.1 = p) then l.2 else r) [] V.
Fixpoint q_find (id : Z) (os : queue) : option Z :=
  match os with
  | [] => None
  | o :: os => if bool_decide (o.1 = id) then Some o.2 else q_find id os
  end.
Definition v_orders (V : vladder) : queue := V ≫= snd.

Definition v_best (V : vladder) : option Z := fst <$> head V.

(** A ladder is well formed: prices strictly worsen, no queue is empty,
    every quantity is positive. *)
Record v_wf (s : Side) (V : vladder) : Prop := {
  vw_sorted : StronglySorted (λ p p', betterb s p p' = true) V.*1;
  vw_queues : ∀ p os, (p, os) ∈ V → os ≠ [] ∧ ∀ o, o ∈ os → 0 < o.2;
}.

(** ** Volumes and identities under the operations *)

Lemma v_volume_app os os' : v_volume (os ++ os') = v_volume os + v_volume os'.
Proof. unfold v_volume. induction os; simpl; lia. Qed.

Lemma v_total_app V V' : v_total (V ++ V') = v_total V + v_total V'.
Proof. unfold v_total. induction V; simpl; lia. Qed.

Lemma v_total_add s p id q V : v_total (v_add s p id q V) = v_total V + q.
Proof.
  unfold v_total. induction V as [| [p' os] V IH]; simpl; [lia |].
  case_bool_decide; simpl; [rewrite v_volume_app; simpl; lia |].
  destruct (betterb s p p'); simpl; lia.
Qed.

Lemma v_ids_add s p id q V : v_ids (v_add s p id q V) ≡ₚ id :: v_ids V.
Proof.
  unfold v_ids. induction V as [| [p' os] V IH]; simpl; [done |].
  case_bool_decide; simpl.
  - rewrite fmap_app; simpl. rewrite <- app_assoc. simpl. by rewrite <- Permutation_middle.
  - destruct (betterb s p p'); simpl; [done |]. rewrite IH. by rewrite <- Permutation_middle.
Qed.

Lemma q_remove_notin id os : id ∉ os.*1 → q_remove id os = os.
Proof.
  unfold q_remove. induction os as [| o os IH]; intros Hn; [done |].
  apply not_elem_of_cons in Hn as [Hne Hn]. rewrite filter_cons_True by done. f_equal. by apply IH.
Qed.

Lemma q_remove_split id q X Y :
  id ∉ X.*1 → id ∉ Y.*1 → q_remove id (X ++ (id, q) :: Y) = X ++ Y.
Proof.
  intros HX HY. induction X as [| x X IH]; simpl.
  - transitivity (q_remove id Y); [| by apply q_remove_notin].
    unfold q_remove. by rewrite filter_cons_False by naive_solver.
  - apply not_elem_of_cons in HX as [Hx HX]. unfold q_remove.
    rewrite filter_cons_True by done. f_equal. by apply IH.
Qed.

Lemma q_resize_notin id q os : id ∉ os.*1 → q_resize id q os = os.
Proof.
  unfold q_resize. induction os as [| o os IH]; intros Hn; [done |].
  apply not_elem_of_cons in Hn as [Hne Hn]. simpl. rewrite bool_decide_false by done.
  f_equal. by apply IH.
Qed.

Lemma v_level_ne p os : os ≠ [] → v_level p os = [(p, os)].
Proof. by destruct os. Qed.

(** Removing an identity a ladder does not hold changes nothing. *)
Lemma v_remove_notin id V :
  (∀ p os, (p, os) ∈ V → os ≠ []) → id ∉ v_ids V → v_remove id V = V.
Proof.
  unfold v_remove, v_ids. induction V as [| [p os] V IH]; intros Hne Hn; [done |].
  simpl in *. rewrite elem_of_app in Hn.
  rewrite q_remove_notin, v_level_ne by (tauto || (eapply Hne; left)). simpl.
  f_equal. apply IH; [| tauto]. intros p' os' Hin. eapply Hne. by right.
Qed.

Lemma v_resize_notin id q V : id ∉ v_ids V → v_resize id q V = V.
Proof.
  unfold v_resize, v_ids. induction V as [| [p os] V IH]; intros Hn; [done |].
  simpl in *. rewrite elem_of_app in Hn. rewrite q_resize_notin by tauto.
  f_equal. apply IH. tauto.
Qed.

Lemma v_resize_app id q V V' : v_resize id q (V ++ V') = v_resize id q V ++ v_resize id q V'.
Proof. apply fmap_app. Qed.

Lemma v_resize_cons id q l V :
  v_resize id q (l :: V) = (l.1, q_resize id q l.2) :: v_resize id q V.
Proof. done. Qed.

Lemma q_resize_split id q q' X Y :
  id ∉ X.*1 → id ∉ Y.*1 → q_resize id q (X ++ (id, q') :: Y) = X ++ (id, q) :: Y.
Proof.
  intros HX HY. unfold q_resize. rewrite fmap_app, fmap_cons. simpl.
  rewrite bool_decide_true by done. f_equal; [by apply q_resize_notin |].
  f_equal. by apply q_resize_notin.
Qed.

Lemma v_remove_app id V V' : v_remove id (V ++ V') = v_remove id V ++ v_remove id V'.
Proof. unfold v_remove. by rewrite bind_app. Qed.

Lemma v_ids_app V V' : v_ids (V ++ V') = v_ids V ++ v_ids V'.
Proof. unfold v_ids. by rewrite bind_app. Qed.

(** ** Whole books *)

Record vbook : Set := { v_bids : vladder; v_asks : vladder }.

Definition v_side (v : vbook) (s : Side) : vladder :=
  match s with kBid => v_bids v | kAsk => v_asks v | kCount => [] end.

Definition v_with (v : vbook) (s : Side) (V : vladder) : vbook :=
  match s with
  | kBid => {| v_bids := V; v_asks := v_asks v |}
  | kAsk => {| v_bids := v_bids v; v_asks := V |}
  | kCount => v
  end.

Definition vb_ids (v : vbook) : list Z := v_ids (v_bids v) ++ v_ids (v_asks v).
Definition vb_orders (v : vbook) : queue := v_orders (v_bids v) ++ v_orders (v_asks v).
Definition vb_total (v : vbook) : Z := v_total (v_bids v) + v_total (v_asks v).

Definition vb_add (s : Side) (p id q : Z) (v : vbook) : vbook :=
  v_with v s (v_add s p id q (v_side v s)).
Definition vb_remove (id : Z) (v : vbook) : vbook :=
  {| v_bids := v_remove id (v_bids v); v_asks := v_remove id (v_asks v) |}.
Definition vb_resize (id q : Z) (v : vbook) : vbook :=
  {| v_bids := v_resize id q (v_bids v); v_asks := v_resize id q (v_asks v) |}.
Definition vb_empty : vbook := {| v_bids := []; v_asks := [] |}.

Definition vb_qty (id : Z) (v : vbook) : option Z := q_find id (vb_orders v).

Record vb_wf (v : vbook) : Prop := {
  vb_bids_wf : v_wf kBid (v_bids v);
  vb_asks_wf : v_wf kAsk (v_asks v);
  vb_nodup : NoDup (vb_ids v);
}.

(** The best bid is below the best ask. *)
Definition not_crossed (v : vbook) : Prop :=
  ∀ pb pa, v_best (v_bids v) = Some pb → v_best (v_asks v) = Some pa → pb < pa.
