(* ===== verification/OrderBookRep.v ===== *)
(** What an order book represents: the abstract book and the invariant that
    ties it to pools, lists and tables.

    An abstract book is two ladders of price levels, each a queue of orders;
    every order and level is annotated with the pool slot that holds it.
    [core b A F] says that the concrete book [b] holds exactly the abstract
    book [A], with the order slots [F] allocated but not linked into any
    level.  The operations pass through states in which a level is empty or
    an order is in flight, so [core] allows both; [book_rep] is the
    invariant between two calls. *)
From Stdlib Require Import Sorted.
From S2P Require Import Prelude.
From S2P Require Import IndexFreeStack.
From S2P Require Import TableInterface.
From S2P Require Import TradingTypes.
From S2P Require Import OrderBook.
Local Open Scope Z_scope.
Local Open Scope array_scope.

(** * Abstract books *)

Record aorder : Set := { ao_slot : Z; ao_id : Z; ao_qty : Z }.
Record alevel : Set := { al_slot : Z; al_price : Z; al_orders : list aorder }.
Record abook : Set := { a_bids : list alevel; a_asks : list alevel }.

#[export] Instance aorder_eq_dec : EqDecision aorder.
Proof. solve_decision. Defined.
#[export] Instance alevel_eq_dec : EqDecision alevel.
Proof. solve_decision. Defined.

Definition valid_side (s : Side) : bool := bool_decide (s ≠ kCount).

Definition side_of (A : abook) (s : Side) : list alevel :=
  match s with kBid => a_bids A | kAsk => a_asks A | kCount => [] end.

Definition with_side (A : abook) (s : Side) (L : list alevel) : abook :=
  match s with
  | kBid => {| a_bids := L; a_asks := a_asks A |}
  | kAsk => {| a_bids := a_bids A; a_asks := L |}
  | kCount => A
  end.

Definition levels (A : abook) : list alevel := a_bids A ++ a_asks A.
Definition orders_in (L : list alevel) : list aorder := L ≫= al_orders.
Definition all_orders (A : abook) : list aorder := orders_in (levels A).
Definition sum_qty (os : list aorder) : Z := foldr (λ o n, ao_qty o + n) 0 os.

(** [p] is strictly better than [q] for side [s]. *)
Definition better (s : Side) (p q : Z) : Prop :=
  match s with kBid => p > q | _ => p < q end.

Definition with_orders (l : alevel) (os : list aorder) : alevel :=
  {| al_slot := al_slot l; al_price := al_price l; al_orders := os |}.

(** The other ladder, whichever the side. *)
Definition other_side (A : abook) (s : Side) : list alevel := side_of A (opposite s).

(** * Concrete image of abstract nodes *)

Definition order_image (s : Side) (l : alevel) (o : aorder) : Order :=
  {| order_id := ao_id o; price := al_price l; qty := ao_qty o; side := s;
     level := Some (al_slot l); linked := true |}.

Definition level_image (s : Side) (l : alevel) : PriceLevel :=
  {| pl_price := al_price l; total_qty := u32 (sum_qty (al_orders l)); pl_side := s;
     orders := ao_slot <$> al_orders l; pl_linked := true |}.

Definition order_entries (os : list aorder) : gmap Z Z :=
  list_to_map ((λ o, (ao_id o, ao_slot o)) <$> os).
Definition level_entries (L : list alevel) : gmap Z Z :=
  list_to_map ((λ l, (al_price l, al_slot l)) <$> L).

Definition range (n : Z) : list Z := Z.of_nat <$> seq 0 (Z.to_nat n).

Definition side_sorted (s : Side) (L : list alevel) : Prop :=
  StronglySorted (better s) (al_price <$> L).

(** * Lemmas on abstract books *)

Lemma valid_side_cases s : valid_side s = true → s = kBid ∨ s = kAsk.
Proof. destruct s; [by left | by right | done]. Qed.

Lemma valid_side_u8 s : valid_side s = true → side_to_u8 s = 0 ∨ side_to_u8 s = 1.
Proof. intros [-> | ->]%valid_side_cases; auto. Qed.

Lemma side_of_with_side A s L : valid_side s = true → side_of (with_side A s L) s = L.
Proof. by intros [-> | ->]%valid_side_cases. Qed.

Lemma side_of_with_side_ne A s s' L : s' ≠ s → side_of (with_side A s L) s' = side_of A s'.
Proof. by destruct s, s'. Qed.

Lemma with_side_same A s L : side_of A s = L → with_side A s L = A.
Proof. destruct A, s; simpl; congruence. Qed.

Lemma with_side_twice A s L L' : with_side (with_side A s L) s L' = with_side A s L'.
Proof. by destruct s. Qed.

Lemma other_with_side A s L :
  valid_side s = true → other_side (with_side A s L) s = other_side A s.
Proof. by intros [-> | ->]%valid_side_cases. Qed.

(** The levels of a book, the chosen side first. *)
Lemma levels_split A s : valid_side s = true → levels A ≡ₚ side_of A s ++ other_side A s.
Proof. intros [-> | ->]%valid_side_cases; unfold levels, other_side; simpl; [done | apply Permutation_app_comm]. Qed.

Lemma levels_with_side A s L :
  valid_side s = true → levels (with_side A s L) ≡ₚ L ++ other_side A s.
Proof. intros Hs. by rewrite (levels_split _ s), side_of_with_side, other_with_side by done. Qed.

Lemma orders_in_app L L' : orders_in (L ++ L') = orders_in L ++ orders_in L'.
Proof. apply bind_app. Qed.

Lemma orders_in_cons l L : orders_in (l :: L) = al_orders l ++ orders_in L.
Proof. done. Qed.

#[export] Instance orders_in_proper : Proper ((≡ₚ) ==> (≡ₚ)) orders_in.
Proof. intros L L' HL. unfold orders_in. by rewrite HL. Qed.

Lemma all_orders_split A s :
  valid_side s = true → all_orders A ≡ₚ orders_in (side_of A s) ++ orders_in (other_side A s).
Proof. intros Hs. unfold all_orders. by rewrite (levels_split A s), orders_in_app by done. Qed.

Lemma all_orders_with_side A s L :
  valid_side s = true →
  all_orders (with_side A s L) ≡ₚ orders_in L ++ orders_in (other_side A s).
Proof. intros Hs. unfold all_orders. by rewrite levels_with_side, orders_in_app by done. Qed.

Lemma elem_of_levels A l : l ∈ levels A ↔ ∃ s, valid_side s = true ∧ l ∈ side_of A s.
Proof.
  unfold levels. rewrite elem_of_app. split.
  - intros [H | H]; [by exists kBid | by exists kAsk].
  - intros ([] & Hs & H); [by left | by right | done].
Qed.

Lemma elem_of_orders_in L o : o ∈ orders_in L ↔ ∃ l, l ∈ L ∧ o ∈ al_orders l.
Proof. unfold orders_in. rewrite list_elem_of_bind. naive_solver. Qed.

Lemma elem_of_range n i : i ∈ range n ↔ 0 <= i < n.
Proof.
  unfold range. rewrite list_elem_of_fmap. setoid_rewrite elem_of_seq. split.
  - intros (k & -> & Hk). lia.
  - intros Hi. exists (Z.to_nat i). lia.
Qed.

Lemma nodup_range n : NoDup (range n).
Proof. apply NoDup_fmap_2; [apply _ | apply NoDup_seq]. Qed.

Lemma length_range n : 0 <= n → lenZ (range n) = n.
Proof. intros. unfold range. rewrite length_fmap, length_seq. lia. Qed.

(** ** The entry maps *)

Lemma order_entries_cons o os :
  order_entries (o :: os) = <[ao_id o := ao_slot o]> (order_entries os).
Proof. done. Qed.

Lemma order_entries_perm os os' :
  NoDup (ao_id <$> os) → os ≡ₚ os' → order_entries os = order_entries os'.
Proof.
  intros Hnd Hp. unfold order_entries. apply list_to_map_proper.
  - by rewrite <- list_fmap_compose.
  - by rewrite Hp.
Qed.

Lemma order_entries_none os id : id ∉ (ao_id <$> os) → order_entries os !! id = None.
Proof.
  intros Hni. apply not_elem_of_list_to_map_1. by rewrite <- list_fmap_compose.
Qed.

Lemma order_entries_Some os id sl :
  order_entries os !! id = Some sl → ∃ o, o ∈ os ∧ ao_id o = id ∧ ao_slot o = sl.
Proof.
  intros H%elem_of_list_to_map_2. apply list_elem_of_fmap in H as (o & [= -> ->] & Ho).
  by exists o.
Qed.

Lemma order_entries_In os o :
  NoDup (ao_id <$> os) → o ∈ os → order_entries os !! ao_id o = Some (ao_slot o).
Proof.
  intros Hnd Ho. apply elem_of_list_to_map_1.
  - by rewrite <- list_fmap_compose.
  - by apply list_elem_of_fmap_2 with (f := λ o, (ao_id o, ao_slot o)).
Qed.

Lemma order_entries_delete os o os' :
  NoDup (ao_id <$> os) → os ≡ₚ o :: os' →
  delete (ao_id o) (order_entries os) = order_entries os'.
Proof.
  intros Hnd Hp. rewrite (order_entries_perm _ _ Hnd Hp), order_entries_cons.
  apply delete_insert_id, order_entries_none.
  rewrite Hp in Hnd. by apply nodup_cons in Hnd as [??].
Qed.

Lemma size_order_entries os : NoDup (ao_id <$> os) → size (order_entries os) = length os.
Proof.
  induction os as [| o os IH]; intros Hnd; [done |].
  apply nodup_cons in Hnd as [Hni Hnd]. rewrite order_entries_cons.
  rewrite map_size_insert_None by (by apply order_entries_none). by rewrite IH.
Qed.

Lemma level_entries_none L p : p ∉ (al_price <$> L) → level_entries L !! p = None.
Proof. intros Hni. apply not_elem_of_list_to_map_1. by rewrite <- list_fmap_compose. Qed.

Lemma level_entries_Some L p sl :
  level_entries L !! p = Some sl → ∃ l, l ∈ L ∧ al_price l = p ∧ al_slot l = sl.
Proof.
  intros H%elem_of_list_to_map_2. apply list_elem_of_fmap in H as (l & [= -> ->] & Hl).
  by exists l.
Qed.

Lemma level_entries_In L l :
  NoDup (al_price <$> L) → l ∈ L → level_entries L !! al_price l = Some (al_slot l).
Proof.
  intros Hnd Hl. apply elem_of_list_to_map_1.
  - by rewrite <- list_fmap_compose.
  - by apply list_elem_of_fmap_2 with (f := λ l, (al_price l, al_slot l)).
Qed.

Lemma level_entries_perm L L' :
  NoDup (al_price <$> L) → L ≡ₚ L' → level_entries L = level_entries L'.
Proof.
  intros Hnd Hp. unfold level_entries. apply list_to_map_proper.
  - by rewrite <- list_fmap_compose.
  - by rewrite Hp.
Qed.

(** Changing the queue of a level leaves the table of prices as it is. *)
Lemma level_entries_with_orders P l S os :
  level_entries (P ++ with_orders l os :: S) = level_entries (P ++ l :: S).
Proof. unfold level_entries. by rewrite !fmap_app. Qed.

Lemma level_entries_insert P l S :
  NoDup (al_price <$> P ++ l :: S) →
  level_entries (P ++ l :: S) = <[al_price l := al_slot l]> (level_entries (P ++ S)).
Proof.
  intros Hnd. rewrite (level_entries_perm _ (l :: P ++ S)); [done | done |].
  by rewrite Permutation_middle.
Qed.

Lemma level_entries_delete P l S :
  NoDup (al_price <$> P ++ l :: S) →
  delete (al_price l) (level_entries (P ++ l :: S)) = level_entries (P ++ S).
Proof.
  intros Hnd. rewrite level_entries_insert by done.
  apply delete_insert_id, level_entries_none.
  rewrite fmap_app, fmap_cons in Hnd. rewrite fmap_app, elem_of_app.
  apply nodup_app in Hnd as (_ & Hd & Hn). apply nodup_cons in Hn as [Hn _].
  intros [Hc | Hc]; [| done]. apply (Hd _ Hc). left.
Qed.

(** ** Sorted ladders *)

Lemma better_irrefl s p : ¬ better s p p.
Proof. destruct s; simpl; lia. Qed.

Lemma better_trans s p q r : better s p q → better s q r → better s p r.
Proof. destruct s; simpl; lia. Qed.

Lemma side_sorted_nodup s L : side_sorted s L → NoDup (al_price <$> L).
Proof.
  unfold side_sorted. induction 1 as [| p ps Hs IH Hf]; [constructor |].
  apply nodup_cons. split; [| done]. intros Hin.
  rewrite List.Forall_forall in Hf. apply (better_irrefl s p), Hf. by apply list_elem_of_In.
Qed.

Lemma strongly_sorted_app {A : Type} (R : A → A → Prop) (l k : list A) :
  StronglySorted R (l ++ k) ↔
  StronglySorted R l ∧ StronglySorted R k ∧ (∀ x y, x ∈ l → y ∈ k → R x y).
Proof.
  induction l as [| a l IH]; simpl.
  - split; [intros H; split; [constructor | split; [done |]] | naive_solver].
    by intros x y ?%elem_of_nil.
  - split.
    + intros H. apply StronglySorted_inv in H as [H Hf]. apply IH in H as (H1 & H2 & H3).
      rewrite List.Forall_forall in Hf. setoid_rewrite <- list_elem_of_In in Hf.
      split; [| split; [done |]].
      * constructor; [done |]. apply List.Forall_forall. intros x Hx%list_elem_of_In.
        apply Hf. rewrite elem_of_app. by left.
      * intros x y [-> | Hx]%elem_of_cons Hy; [| by apply H3].
        apply Hf. rewrite elem_of_app. by right.
    + intros (H1 & H2 & H3). apply StronglySorted_inv in H1 as [H1 Hf].
      constructor.
      * apply IH. split; [done |]. split; [done |]. intros x y Hx. apply H3. by right.
      * apply List.Forall_app. split; [done |]. apply List.Forall_forall.
        intros y Hy%list_elem_of_In. apply H3; [left | done].
Qed.

(** The price of a level decides its position: deletion keeps the order. *)
Lemma side_sorted_remove s P l S : side_sorted s (P ++ l :: S) → side_sorted s (P ++ S).
Proof.
  unfold side_sorted. rewrite !fmap_app, fmap_cons, !strongly_sorted_app.
  intros (H1 & H2 & H3). apply StronglySorted_inv in H2 as [H2 _].
  split; [done |]. split; [done |]. intros x y Hx Hy. apply H3; [done | by right].
Qed.

Lemma side_sorted_with_orders s P l S os :
  side_sorted s (P ++ with_orders l os :: S) ↔ side_sorted s (P ++ l :: S).
Proof. unfold side_sorted. by rewrite !fmap_app. Qed.

(** The head of a ladder has its best price. *)
Lemma side_sorted_head s l S l' :
  side_sorted s (l :: S) → l' ∈ S → better s (al_price l) (al_price l').
Proof.
  unfold side_sorted. rewrite fmap_cons. intros [_ Hf]%StronglySorted_inv Hl'.
  rewrite List.Forall_forall in Hf. apply Hf, list_elem_of_In. by apply list_elem_of_fmap_2.
Qed.

(** * The representation invariant *)

Section Rep.
Context (ndebug : bool) {OM LM : Type} `{TO : Table Z Z OM} `{TL : Table Z Z LM}
  {OML : TableLaws Z Z OM} {LML : TableLaws Z Z LM}.
Implicit Types (b : OrderBook OM LM) (A : abook) (F : list Z).

(** The order pool: the slots in use are those of the queued orders and of
    the orders in flight, and each holds what the abstract book says. *)
Record orders_ok b A F : Prop := {
  oo_stack : IFS.stack_wf ndebug (order_free_ b);
  oo_cap : IFS.capacity_ (order_free_ b) = max_orders_ b;
  oo_len : lenZ (order_slots_ b) = max_orders_ b;
  oo_bound : 0 <= max_orders_ b <= 2 ^ 32 - 1;
  oo_perm : IFS.free_list (order_free_ b) ++ F ++ (ao_slot <$> all_orders A)
            ≡ₚ range (max_orders_ b);
  oo_free : ∀ i, i ∈ IFS.free_list (order_free_ b) ++ F →
    ∃ r, get_order b i = Some r ∧ linked r = false;
  oo_slot : ∀ s l o, l ∈ side_of A s → o ∈ al_orders l →
    get_order b (ao_slot o) = Some (order_image s l o);
}.

(** The level pool, the two ladders and the two tables of prices. *)
Record levels_ok b A : Prop := {
  lo_stack : IFS.stack_wf ndebug (level_free_ b);
  lo_cap : IFS.capacity_ (level_free_ b) = max_levels_ b;
  lo_len : lenZ (level_slots_ b) = max_levels_ b;
  lo_bound : 0 <= max_levels_ b <= 2 ^ 32 - 1;
  lo_perm : IFS.free_list (level_free_ b) ++ (al_slot <$> levels A)
            ≡ₚ range (max_levels_ b);
  lo_free : ∀ i, i ∈ IFS.free_list (level_free_ b) →
    ∃ r, get_level b i = Some r ∧ pl_linked r = false ∧ orders r = [];
  lo_slot : ∀ s l, l ∈ side_of A s → get_level b (al_slot l) = Some (level_image s l);
  lo_ladder : ∀ s, valid_side s = true → ladder b s = al_slot <$> side_of A s;
  lo_sorted : ∀ s, side_sorted s (side_of A s);
  lo_map : ∀ s, valid_side s = true → ∃ lm,
    get_level_map b (side_to_u8 s) = Some lm ∧ tbl_wf lm ∧
    tbl_map lm = level_entries (side_of A s);
}.

Definition core b A F : Prop := orders_ok b A F ∧ levels_ok b A ∧ tbl_wf (order_map_ b).

(** The invariant: nothing is in flight, no level is empty, the order table
    holds exactly the resting orders, and every resting order has a 32-bit
    quantity of at least [lo] -- 1 between calls, 0 while the matching
    engine is about to remove an order it has just filled. *)
Record book_rep (lo : Z) b A : Prop := {
  br_core : core b A [];
  br_nonempty : ∀ l, l ∈ levels A → al_orders l ≠ [];
  br_qty : ∀ o, o ∈ all_orders A → lo <= ao_qty o < 2 ^ 32;
  br_ids : NoDup (ao_id <$> all_orders A);
  br_omap : tbl_map (order_map_ b) = order_entries (all_orders A);
}.

(** Operations on levels leave the order pool and the order table alone,
    and conversely. *)
Record same_orders b b' : Prop := {
  so_slots : order_slots_ b' = order_slots_ b;
  so_free : order_free_ b' = order_free_ b;
  so_max : max_orders_ b' = max_orders_ b;
  so_map : order_map_ b' = order_map_ b;
}.

Record same_levels b b' : Prop := {
  sl_slots : level_slots_ b' = level_slots_ b;
  sl_free : level_free_ b' = level_free_ b;
  sl_max : max_levels_ b' = max_levels_ b;
  sl_bids : bids_ b' = bids_ b;
  sl_asks : asks_ b' = asks_ b;
  sl_mbid : level_map_bid_ b' = level_map_bid_ b;
  sl_mask : level_map_ask_ b' = level_map_ask_ b;
}.

Lemma same_orders_refl b : same_orders b b.
Proof. done. Qed.

Lemma same_orders_trans b1 b2 b3 : same_orders b1 b2 → same_orders b2 b3 → same_orders b1 b3.
Proof. intros [] []. split; congruence. Qed.

Lemma same_orders_get b b' i : same_orders b b' → get_order b' i = get_order b i.
Proof. intros []. unfold get_order. congruence. Qed.

Lemma same_levels_get b b' i : same_levels b b' → get_level b' i = get_level b i.
Proof. intros []. unfold get_level. congruence. Qed.

(** The order part of the invariant sees of the abstract book only which
    order sits in which level, and nothing of the level structures. *)
Lemma orders_ok_frame b b' A A' F :
  same_orders b b' → all_orders A' ≡ₚ all_orders A →
  (∀ s l o, l ∈ side_of A' s → o ∈ al_orders l →
     ∃ l', l' ∈ side_of A s ∧ o ∈ al_orders l' ∧ order_image s l' o = order_image s l o) →
  orders_ok b A F → orders_ok b' A' F.
Proof.
  intros Hs Hp Hi [].
  assert (∀ i, get_order b' i = get_order b i) as Hg by (intros; by apply same_orders_get).
  destruct Hs as [Hs1 Hs2 Hs3 Hs4]. split; rewrite ?Hs1, ?Hs2, ?Hs3, ?Hp; try done.
  - intros i Hin. rewrite Hg. auto.
  - intros s l o Hl Ho. rewrite Hg. destruct (Hi s l o Hl Ho) as (l' & Hl' & Ho' & <-). auto.
Qed.

Lemma levels_ok_frame b b' A : same_levels b b' → levels_ok b A → levels_ok b' A.
Proof.
  intros Hs [].
  assert (∀ i, get_level b' i = get_level b i) as Hg by (intros; by apply same_levels_get).
  assert (∀ s, ladder b' s = ladder b s) as Hlad.
  { destruct Hs. intros s. unfold ladder. by case_bool_decide. }
  assert (∀ i, get_level_map b' i = get_level_map b i) as Hlm.
  { destruct Hs as [_ _ _ _ _ E1 E2]. intros i. unfold get_level_map. by rewrite E1, E2. }
  destruct Hs as [Hs1 Hs2 Hs3 _ _ _ _].
  split; rewrite ?Hs1, ?Hs2, ?Hs3; try done.
  - intros i Hin. rewrite Hg. auto.
  - intros s l Hl. rewrite Hg. auto.
  - intros s Hv. rewrite Hlad. auto.
  - intros s Hv. rewrite Hlm. auto.
Qed.

(** Slots are used once. *)
Lemma orders_ok_nodup b A F :
  orders_ok b A F →
  NoDup (IFS.free_list (order_free_ b) ++ F ++ (ao_slot <$> all_orders A)).
Proof. intros []. by rewrite oo_perm0; apply nodup_range. Qed.

Lemma levels_ok_nodup b A :
  levels_ok b A → NoDup (IFS.free_list (level_free_ b) ++ (al_slot <$> levels A)).
Proof. intros []. by rewrite lo_perm0; apply nodup_range. Qed.

Lemma orders_ok_in_range b A F i :
  orders_ok b A F → i ∈ F ++ (ao_slot <$> all_orders A) → 0 <= i < max_orders_ b.
Proof.
  intros [] Hi. apply elem_of_range. rewrite <- oo_perm0, elem_of_app. by right.
Qed.

Lemma levels_ok_in_range b A l :
  levels_ok b A → l ∈ levels A → 0 <= al_slot l < max_levels_ b.
Proof.
  intros [] Hl. apply elem_of_range. rewrite <- lo_perm0, elem_of_app. right.
  by apply list_elem_of_fmap_2.
Qed.

Lemma levels_slot_inj b A l l' :
  levels_ok b A → l ∈ levels A → l' ∈ levels A → al_slot l = al_slot l' → l = l'.
Proof.
  intros Hok%levels_ok_nodup Hl Hl' Heq. apply nodup_app in Hok as (_ & _ & Hnd).
  apply list_elem_of_lookup in Hl as [i Hi]. apply list_elem_of_lookup in Hl' as [j Hj].
  assert (i = j); [| naive_solver].
  eapply NoDup_lookup; [exact Hnd | |]; rewrite list_lookup_fmap.
  - by rewrite Hi.
  - by rewrite Hj; simpl; rewrite Heq.
Qed.
End Rep.
