(* ===== verification/OrderBookCore.v ===== *)
(** The building blocks of the order book preserve its invariant: pool
    allocation and release, queueing and unqueueing an order, inserting a
    level at its place in the ladder and removing an empty one.

    Each lemma says that the step does not fail, which part of the book it
    changes, and which abstract book it produces.

    The compound steps of the order book: queueing an order at a level,
    taking one off, resizing one, finding or creating a level, removing one.
    Built from the lemmas above.

    The level structure of the order book: finding or creating the level of a
    price, and removing a level that has become empty.  Both touch the level
    pool, one ladder and one table of prices, and nothing else. *)
From Stdlib Require Import Sorted.
From S2P Require Import Prelude.
From S2P Require Import IndexFreeStack.
From S2P Require Import TableInterface.
From S2P Require Import TradingTypes.
From S2P Require Import OrderBook.
From S2P Require Import OrderBookRep.
Local Open Scope Z_scope.
Local Open Scope array_scope.

Section Core.
Context (ndebug : bool) {OM LM : Type} `{TO : Table Z Z OM} `{TL : Table Z Z LM}
  {OML : TableLaws Z Z OM} {LML : TableLaws Z Z LM}.
Implicit Types (b : OrderBook OM LM) (A : abook) (F : list Z).
Abbreviation orders_ok := (orders_ok (OM := OM) (LM := LM) ndebug).
Abbreviation levels_ok := (levels_ok (OM := OM) (LM := LM) ndebug).

(** * Frames *)

(** Only the node in slot [i] may differ. *)
Record oframe (i : Z) b b' : Prop := {
  of_len : length (order_slots_ b') = length (order_slots_ b);
  of_max : max_orders_ b' = max_orders_ b;
  of_free : order_free_ b' = order_free_ b;
  of_get : ∀ j, j ≠ i → get_order b' j = get_order b j;
}.

Record lframe (i : Z) b b' : Prop := {
  lf_len : length (level_slots_ b') = length (level_slots_ b);
  lf_max : max_levels_ b' = max_levels_ b;
  lf_free : level_free_ b' = level_free_ b;
  lf_bids : bids_ b' = bids_ b;
  lf_asks : asks_ b' = asks_ b;
  lf_mbid : level_map_bid_ b' = level_map_bid_ b;
  lf_mask : level_map_ask_ b' = level_map_ask_ b;
  lf_get : ∀ j, j ≠ i → get_level b' j = get_level b j;
}.

Lemma oframe_trans i b1 b2 b3 : oframe i b1 b2 → oframe i b2 b3 → oframe i b1 b3.
Proof.
  intros [] []. split; try congruence. intros j Hj. rewrite of_get1, of_get0; done.
Qed.

Lemma lframe_trans i b1 b2 b3 : lframe i b1 b2 → lframe i b2 b3 → lframe i b1 b3.
Proof.
  intros [] []. split; try congruence. intros j Hj. rewrite lf_get1, lf_get0; done.
Qed.

Lemma same_orders_oframe i b b' : same_orders b b' → oframe i b b'.
Proof. intros []. split; unfold get_order; congruence. Qed.

Lemma same_levels_lframe i b b' : same_levels b b' → lframe i b b'.
Proof. intros []. split; unfold get_level; congruence. Qed.

Lemma same_levels_refl b : same_levels b b.
Proof. done. Qed.

Lemma same_levels_trans b1 b2 b3 : same_levels b1 b2 → same_levels b2 b3 → same_levels b1 b3.
Proof. intros [] []. split; congruence. Qed.

Lemma upd_order_spec b o f r :
  get_order b o = Some r →
  ∃ b', upd_order b o f = Some b' ∧ oframe o b b' ∧ get_order b' o = Some (f r) ∧
    same_levels b b' ∧ order_map_ b' = order_map_ b.
Proof.
  intros Hr. pose proof (getZ_Some _ _ _ Hr) as Hi. unfold upd_order. rewrite Hr; simpl.
  eexists. split; [done |]. split; [| split; [| done]].
  - split; simpl; [apply length_setZ | done | done |].
    intros j Hj. unfold get_order; simpl. apply getZ_setZ_ne; [lia | done].
  - unfold get_order; simpl. by apply getZ_setZ_eq.
Qed.

Lemma upd_level_spec b l f r :
  get_level b l = Some r →
  ∃ b', upd_level b l f = Some b' ∧ lframe l b b' ∧ get_level b' l = Some (f r) ∧
    same_orders b b'.
Proof.
  intros Hr. pose proof (getZ_Some _ _ _ Hr) as Hi. unfold upd_level. rewrite Hr; simpl.
  eexists. split; [done |]. split; [| split; [| done]].
  - split; simpl; [apply length_setZ | done.. |].
    intros j Hj. unfold get_level; simpl. apply getZ_setZ_ne; [lia | done].
  - unfold get_level; simpl. by apply getZ_setZ_eq.
Qed.

(** * The order pool *)

Lemma with_order_free_same b : with_order_free b (order_free_ b) = b.
Proof. by destruct b. Qed.

Lemma with_level_free_same b : with_level_free b (level_free_ b) = b.
Proof. by destruct b. Qed.

Lemma alloc_order_spec b A F :
  orders_ok b A F →
  match IFS.free_list (order_free_ b) with
  | [] => alloc_order ndebug b = Some (b, None)
  | o :: rest => ∃ b', alloc_order ndebug b = Some (b', Some o) ∧ orders_ok b' A (o :: F) ∧
      same_levels b b' ∧ order_map_ b' = order_map_ b ∧
      IFS.free_list (order_free_ b') = rest
  end.
Proof.
  intros []. pose proof (IFS.pop_spec ndebug _ oo_stack) as Hpop. unfold alloc_order.
  destruct (IFS.free_list (order_free_ b)) as [| o rest] eqn:Hfl.
  { rewrite Hpop; simpl. by rewrite with_order_free_same. }
  destruct Hpop as (st & -> & Hwf & Hrest & Hcap); simpl.
  eexists. split; [done |]. split; [| done].
  split; simpl; rewrite ?Hrest; try done; [congruence | |].
  - rewrite <- oo_perm. simpl. rewrite <- Permutation_middle. done.
  - intros i Hi. apply oo_free. revert Hi. simpl.
    rewrite !elem_of_app, !elem_of_cons, elem_of_app. naive_solver.
Qed.

Lemma orders_ok_flight_get b A F o :
  orders_ok b A F → o ∈ F → ∃ r, get_order b o = Some r ∧ linked r = false.
Proof. intros [] Ho. apply oo_free. rewrite elem_of_app. by right. Qed.

Lemma orders_ok_flight_fresh b A F o l :
  orders_ok b A (o :: F) → l ∈ levels A → o ∉ (ao_slot <$> al_orders l).
Proof.
  intros Hok%orders_ok_nodup Hl Hin.
  apply nodup_app in Hok as (_ & _ & Hok). simpl in Hok. apply nodup_cons in Hok as [Hni _].
  apply Hni. rewrite elem_of_app. right. apply list_elem_of_fmap in Hin as (x & -> & Hx).
  apply list_elem_of_fmap_2, elem_of_orders_in. by exists l.
Qed.

(** Writing to an order in flight. *)
Lemma orders_ok_flight b b' A F o r :
  orders_ok b A (o :: F) → oframe o b b' → get_order b' o = Some r → linked r = false →
  orders_ok b' A (o :: F).
Proof.
  intros Hok [Hl Hm Hf Hg] Hr Hlk.
  pose proof (λ l, orders_ok_flight_fresh b A F o l Hok) as Hfr. destruct Hok. split; rewrite ?Hl, ?Hm, ?Hf; try done.
  - intros i Hi. destruct (decide (i = o)) as [-> | Hio]; [by exists r |].
    rewrite Hg by done. by apply oo_free.
  - intros s l x Hls Hx. rewrite Hg; [by apply oo_slot |].
    intros <-. apply (Hfr l).
    + apply elem_of_levels. exists s. split; [by destruct s; [| | apply elem_of_nil in Hls] | done].
    + by apply list_elem_of_fmap_2.
Qed.

Lemma free_order_spec b A F o :
  orders_ok b A (o :: F) →
  ∃ b', free_order ndebug b o = Some b' ∧ orders_ok b' A F ∧
    same_levels b b' ∧ order_map_ b' = order_map_ b.
Proof.
  intros Hok.
  assert (0 <= o < max_orders_ b) as Hr by (apply (orders_ok_in_range _ _ _ _ _ Hok); left).
  destruct (orders_ok_flight_get _ _ _ o Hok) as (r & Hget & Hlk); [left |].
  destruct (upd_order_spec b o (λ r, set_level None (set_linked false r)) r Hget)
    as (b1 & Hu & Hof & Hg1 & Hsl & Hom).
  assert (orders_ok b1 A (o :: F)) as Hok1 by (by eapply orders_ok_flight).
  unfold free_order. rewrite bool_decide_true by done; simpl. rewrite Hu; simpl.
  pose proof (oo_bound _ _ _ _ Hok). rewrite u32_id by mlia.
  pose proof (orders_ok_nodup _ _ _ _ Hok1) as Hnd.
  assert (o ∉ IFS.free_list (order_free_ b1)) as Hni.
  { intros Hc. apply nodup_app in Hnd as (_ & Hd & _). apply (Hd _ Hc). left. }
  destruct Hof as [Hlen Hm Hf Hg]. destruct Hok1.
  destruct (IFS.push_spec ndebug (order_free_ b1) o) as (st & -> & Hwf & Hfl & Hcap); simpl;
    [done | lia | done |].
  eexists. split; [done |]. split; [| by destruct Hsl].
  split; simpl; rewrite ?Hfl; try done; [congruence | |].
  - rewrite <- oo_perm. simpl. by rewrite <- Permutation_middle.
  - intros i Hi. apply oo_free. revert Hi. simpl.
    rewrite !elem_of_app, !elem_of_cons, elem_of_app. naive_solver.
Qed.

(** * Changing the queue of one level *)

Section OneLevel.
Context (A : abook) (s : Side) (P S : list alevel) (l : alevel).
Context (Hv : valid_side s = true) (Hside : side_of A s = P ++ l :: S).

Definition rest_levels : list alevel := P ++ S ++ other_side A s.

Lemma levels_focus : levels A ≡ₚ l :: rest_levels.
Proof using Hv Hside.
  rewrite (levels_split A s Hv), Hside. unfold rest_levels.
  rewrite <- Permutation_middle. simpl. by rewrite <- app_assoc.
Qed.

Lemma levels_set l' : levels (with_side A s (P ++ l' :: S)) ≡ₚ l' :: rest_levels.
Proof using Hv.
  rewrite (levels_with_side A s _ Hv). unfold rest_levels.
  rewrite <- Permutation_middle. simpl. by rewrite <- app_assoc.
Qed.

Lemma levels_drop : levels (with_side A s (P ++ S)) ≡ₚ rest_levels.
Proof using Hv. rewrite (levels_with_side A s _ Hv). unfold rest_levels. by rewrite <- app_assoc. Qed.

Lemma all_orders_focus : all_orders A ≡ₚ al_orders l ++ orders_in rest_levels.
Proof using Hv Hside. unfold all_orders. by rewrite levels_focus, orders_in_cons. Qed.

Lemma all_orders_set l' :
  all_orders (with_side A s (P ++ l' :: S)) ≡ₚ al_orders l' ++ orders_in rest_levels.
Proof using Hv. unfold all_orders. by rewrite levels_set, orders_in_cons. Qed.

Lemma all_orders_drop :
  all_orders (with_side A s (P ++ S)) ≡ₚ orders_in rest_levels.
Proof using Hv. unfold all_orders. by rewrite levels_drop. Qed.

(** A level of the changed book is the changed level or one of the rest. *)
Lemma side_set_cases l' s' x :
  x ∈ side_of (with_side A s (P ++ l' :: S)) s' →
  (s' = s ∧ x = l') ∨ (x ∈ side_of A s' ∧ x ∈ rest_levels).
Proof using Hv Hside.
  destruct (decide (s' = s)) as [-> | Hne].
  - rewrite side_of_with_side by done. unfold rest_levels. rewrite Hside, !elem_of_app, !elem_of_cons.
    naive_solver.
  - rewrite side_of_with_side_ne by done. intros Hx. right. split; [done |].
    unfold rest_levels, other_side. rewrite !elem_of_app. right; right.
    by destruct s, s'; try done; apply elem_of_nil in Hx.
Qed.

Lemma side_drop_cases s' x :
  x ∈ side_of (with_side A s (P ++ S)) s' → x ∈ side_of A s' ∧ x ∈ rest_levels.
Proof using Hv Hside.
  intros Hx. destruct (side_set_cases l s' x) as [[-> ->] | ?]; [| | done].
  - destruct (decide (s' = s)) as [-> | Hne].
    + rewrite side_of_with_side in Hx |- * by done.
      rewrite elem_of_app in Hx. rewrite elem_of_app, elem_of_cons. naive_solver.
    + by rewrite side_of_with_side_ne in Hx |- * by done.
  - rewrite side_of_with_side in Hx by done. rewrite Hside, elem_of_app, elem_of_cons.
    unfold rest_levels. rewrite !elem_of_app. rewrite elem_of_app in Hx. naive_solver.
Qed.

Lemma focus_in_side : l ∈ side_of A s.
Proof using Hside. rewrite Hside, elem_of_app. right. left. Qed.

Lemma focus_in_levels : l ∈ levels A.
Proof using Hv Hside. apply elem_of_levels. exists s. split; [done | apply focus_in_side]. Qed.

Lemma rest_slot_ne b x : levels_ok b A → x ∈ rest_levels → al_slot x ≠ al_slot l.
Proof using Hv Hside.
  intros Hok%levels_ok_nodup Hx Heq. rewrite levels_focus in Hok.
  apply nodup_app in Hok as (_ & _ & Hok). simpl in Hok. apply nodup_cons in Hok as [Hni _].
  apply Hni. rewrite <- Heq. by apply list_elem_of_fmap_2.
Qed.

(** The general update: the slots of the queue and of the orders in
    flight are exchanged among themselves, one node changes. *)
Lemma orders_ok_update b b' F F' os' i :
  orders_ok b A F → oframe i b b' →
  i ∈ F ++ (ao_slot <$> al_orders l) →
  F' ++ (ao_slot <$> os') ≡ₚ F ++ (ao_slot <$> al_orders l) →
  (∀ o, o ∈ os' → get_order b' (ao_slot o) = Some (order_image s l o)) →
  (∀ j, j ∈ F' → ∃ r, get_order b' j = Some r ∧ linked r = false) →
  orders_ok b' (with_side A s (P ++ with_orders l os' :: S)) F'.
Proof using Hv Hside.
  intros Hok [Hl Hm Hf Hg] Hi Hperm Hos HF.
  pose proof (orders_ok_nodup _ _ _ _ Hok) as Hnd.
  rewrite all_orders_focus, fmap_app, (app_assoc F) in Hnd.
  apply nodup_app in Hnd as (_ & Hd1 & Hnd). apply nodup_app in Hnd as (_ & Hd2 & _).
  destruct Hok. split; rewrite ?Hl, ?Hm, ?Hf; try done.
  - rewrite <- oo_perm. rewrite all_orders_set, all_orders_focus; simpl.
    rewrite !fmap_app, !(app_assoc F'), !(app_assoc F). by rewrite Hperm.
  - intros j [Hj | Hj]%elem_of_app; [| by apply HF].
    rewrite Hg; [apply oo_free; rewrite elem_of_app; by left |].
    intros ->. apply (Hd1 _ Hj). rewrite elem_of_app. by left.
  - intros s' x o Hx Ho. apply side_set_cases in Hx as [[-> ->] | [Hx Hr]].
    { by apply Hos. }
    rewrite Hg; [by apply oo_slot |]. intros <-.
    apply (Hd2 _ Hi). apply list_elem_of_fmap_2, elem_of_orders_in. by exists x.
Qed.

Lemma levels_ok_update b b' os' :
  levels_ok b A → lframe (al_slot l) b b' →
  get_level b' (al_slot l) = Some (level_image s (with_orders l os')) →
  levels_ok b' (with_side A s (P ++ with_orders l os' :: S)).
Proof using Hv Hside.
  intros Hok Hlf Hget. pose proof (λ x, rest_slot_ne b x Hok) as Hne.
  pose proof (levels_ok_nodup _ _ _ Hok) as Hnd.
  destruct Hlf as [Hl Hm Hf Hb Ha Hmb Hma Hg]. destruct Hok.
  split; rewrite ?Hl, ?Hm, ?Hf; try done.
  - rewrite <- lo_perm, levels_set, levels_focus. done.
  - intros i Hi. rewrite Hg; [by apply lo_free |]. intros ->.
    apply nodup_app in Hnd as (_ & Hd & _). apply (Hd _ Hi).
    apply list_elem_of_fmap_2, focus_in_levels.
  - intros s' x Hx. apply side_set_cases in Hx as [[-> ->] | [Hx Hr]]; [done |].
    rewrite Hg by auto. by apply lo_slot.
  - intros s' Hs'. assert (ladder b' s' = ladder b s') as ->.
    { unfold ladder. by rewrite Hb, Ha. }
    rewrite lo_ladder by done. destruct (decide (s' = s)) as [-> | ?].
    + rewrite side_of_with_side, Hside by done. by rewrite !fmap_app.
    + by rewrite side_of_with_side_ne.
  - intros s'. destruct (decide (s' = s)) as [-> | ?].
    + rewrite side_of_with_side by done. rewrite side_sorted_with_orders, <- Hside. done.
    + by rewrite side_of_with_side_ne.
  - intros s' Hs'. destruct (lo_map s' Hs') as (lm & Hlm & Hwf & Hm').
    exists lm. split; [| split; [done |]].
    + rewrite <- Hlm. unfold get_level_map. by rewrite Hmb, Hma.
    + rewrite Hm'. destruct (decide (s' = s)) as [-> | ?].
      * rewrite side_of_with_side by done. by rewrite level_entries_with_orders, Hside.
      * by rewrite side_of_with_side_ne.
Qed.
End OneLevel.
End Core.

(** A new level goes before the first level that is worse. *)
Fixpoint place_level (s : Side) (l : alevel) (L : list alevel) : list alevel :=
  match L with
  | [] => [l]
  | x :: L' =>
      let worse := if bool_decide (s = kBid) then bool_decide (al_price x < al_price l)
                   else bool_decide (al_price x > al_price l) in
      if worse then l :: x :: L' else x :: place_level s l L'
  end.

(** On a sorted ladder without that price, the place splits the ladder into
    the better and the worse levels. *)
Lemma place_level_split s l L :
  valid_side s = true → side_sorted s L → al_price l ∉ (al_price <$> L) →
  ∃ P S, L = P ++ S ∧ place_level s l L = P ++ l :: S ∧ side_sorted s (P ++ l :: S).
Proof.
  intros Hv. unfold side_sorted. induction L as [| x L IH]; intros Hs Hni.
  { exists [], []. simpl. repeat split; constructor; constructor. }
  rewrite fmap_cons in Hs, Hni. apply not_elem_of_cons in Hni as [Hne Hni].
  apply StronglySorted_inv in Hs as [Hs Hf]. simpl.
  assert (∀ w, w = (if bool_decide (s = kBid) then bool_decide (al_price x < al_price l)
                   else bool_decide (al_price x > al_price l)) →
            if w : bool then better s (al_price l) (al_price x)
            else better s (al_price x) (al_price l)) as Hw.
  { intros w ->. by apply valid_side_cases in Hv as [-> | ->]; simpl; case_bool_decide; lia. }
  specialize (Hw _ eq_refl).
  destruct (if bool_decide (s = kBid) then _ else _).
  - exists [], (x :: L). split; [done |]. split; [done |]. simpl.
    constructor; [by constructor |]. constructor; [done |].
    eapply List.Forall_impl; [| exact Hf]. intros y Hy. by eapply better_trans.
  - destruct (IH Hs Hni) as (P & S & -> & -> & Hss). exists (x :: P), S.
    split; [done |]. split; [done |]. simpl. constructor; [done |].
    rewrite fmap_app in Hf |- *. apply List.Forall_app in Hf as [Hf1 Hf2].
    apply List.Forall_app. split; [done |]. simpl. by constructor.
Qed.

Section Steps.
Context (ndebug : bool) {OM LM : Type} `{TO : Table Z Z OM} `{TL : Table Z Z LM}
  {OML : TableLaws Z Z OM} {LML : TableLaws Z Z LM}.
Implicit Types (b : OrderBook OM LM) (A : abook) (F : list Z).
Abbreviation orders_ok := (orders_ok (OM := OM) (LM := LM) ndebug).
Abbreviation levels_ok := (levels_ok (OM := OM) (LM := LM) ndebug).

Lemma get_level_focus b A s l :
  levels_ok b A → l ∈ side_of A s → get_level b (al_slot l) = Some (level_image s l).
Proof. intros [] Hl. auto. Qed.

(** ** Queueing *)

Lemma enqueue_spec b A s P l S F ao r :
  valid_side s = true → side_of A s = P ++ l :: S →
  orders_ok b A (ao_slot ao :: F) → levels_ok b A →
  get_order b (ao_slot ao) = Some r → linked r = false →
  set_linked true (set_level (Some (al_slot l)) r) = order_image s l ao →
  ∃ b1 b2 b3,
    upd_order b (ao_slot ao) (set_level (Some (al_slot l))) = Some b1 ∧
    orders_push_back b1 (al_slot l) (ao_slot ao) = Some b2 ∧
    upd_level b2 (al_slot l) (λ lv, set_total (u32 (total_qty lv + ao_qty ao)) lv) = Some b3 ∧
    orders_ok b3 (with_side A s (P ++ with_orders l (al_orders l ++ [ao]) :: S)) F ∧
    levels_ok b3 (with_side A s (P ++ with_orders l (al_orders l ++ [ao]) :: S)) ∧
    order_map_ b3 = order_map_ b.
Proof.
  intros Hv Hside Ho Hl Hr Hlk Himg.
  assert (l ∈ side_of A s) as Hin by (by eapply focus_in_side).
  assert (l ∈ levels A) as Hinl by (by eapply focus_in_levels).
  pose proof (get_level_focus _ _ _ _ Hl Hin) as Hlv.
  destruct (upd_order_spec b _ (set_level (Some (al_slot l))) r Hr)
    as (b1 & E1 & Hf1 & Hg1 & Hs1 & Hm1).
  exists b1. rewrite E1. unfold orders_push_back. rewrite Hg1; simpl. rewrite Hlk; simpl.
  destruct (upd_order_spec b1 _ (set_linked true) _ Hg1) as (b2 & E2 & Hf2 & Hg2 & Hs2 & Hm2).
  rewrite E2; simpl.
  assert (get_level b2 (al_slot l) = Some (level_image s l)) as Hlv2.
  { by rewrite (same_levels_get _ _ _ Hs2), (same_levels_get _ _ _ Hs1). }
  destruct (upd_level_spec b2 _ (λ lv, set_orders (orders lv ++ [ao_slot ao]) lv) _ Hlv2)
    as (b3 & E3 & Hf3 & Hg3 & Hs3).
  destruct (upd_level_spec b3 _ (λ lv, set_total (u32 (total_qty lv + ao_qty ao)) lv) _ Hg3)
    as (b4 & E4 & Hf4 & Hg4 & Hs4).
  exists b3, b4. split; [done |]. split; [done |]. split; [done |].
  assert (same_orders b2 b4) as Hs24 by (by eapply same_orders_trans).
  split; [| split].
  - eapply (orders_ok_update ndebug A s P S l Hv Hside b b4 _ _ _ (ao_slot ao)).
    + exact Ho.
    + eapply oframe_trans; [exact Hf1 |]. eapply oframe_trans; [exact Hf2 |].
      by apply same_orders_oframe.
    + left.
    + rewrite fmap_app; simpl. rewrite app_assoc. symmetry. apply Permutation_cons_append.
    + intros o [Ho' | ->%list_elem_of_singleton]%elem_of_app.
      * rewrite (same_orders_get _ _ _ Hs24).
        assert (ao_slot o ≠ ao_slot ao) as Hne.
        { intros Heq. eapply (orders_ok_flight_fresh ndebug b A F); [exact Ho | exact Hinl |].
          rewrite <- Heq. by apply list_elem_of_fmap_2. }
        rewrite (of_get _ _ _ Hf2), (of_get _ _ _ Hf1) by done.
        by apply (oo_slot _ _ _ _ Ho s l o).
      * rewrite (same_orders_get _ _ _ Hs24), Hg2. by f_equal.
    + intros j Hj.
      assert (j ≠ ao_slot ao) as Hne.
      { intros ->. apply orders_ok_nodup in Ho. apply nodup_app in Ho as (_ & _ & Ho).
        simpl in Ho. apply nodup_cons in Ho as [Ho _]. apply Ho. rewrite elem_of_app. by left. }
      rewrite (same_orders_get _ _ _ Hs24), (of_get _ _ _ Hf2), (of_get _ _ _ Hf1) by done.
      eapply orders_ok_flight_get; [exact Ho | by right].
  - eapply (levels_ok_update ndebug A s P S l Hv Hside b); [done | |].
    + eapply lframe_trans; [eapply same_levels_lframe, same_levels_trans; eassumption |].
      eapply lframe_trans; eassumption.
    + rewrite Hg4. f_equal. unfold set_total, set_orders, level_image; simpl.
      rewrite u32_add_l, fmap_app. f_equal. f_equal. unfold sum_qty. rewrite foldr_app; simpl.
      clear. induction (al_orders l); simpl; lia.
  - destruct Hs24. congruence.
Qed.

(** ** Taking an order off its level *)

Lemma sum_qty_app os os' : sum_qty (os ++ os') = sum_qty os + sum_qty os'.
Proof. unfold sum_qty. induction os; simpl; lia. Qed.

Lemma order_in_focus b A s P l S F X o Y :
  valid_side s = true → side_of A s = P ++ l :: S → al_orders l = X ++ o :: Y →
  orders_ok b A F → get_order b (ao_slot o) = Some (order_image s l o).
Proof.
  intros Hv Hside Hos Ho. eapply oo_slot; [exact Ho | | ].
  - rewrite Hside, elem_of_app. right. left.
  - rewrite Hos, elem_of_app. right. left.
Qed.

(** The slots of one queue are distinct. *)
Lemma queue_nodup b A s P l S F :
  valid_side s = true → side_of A s = P ++ l :: S → orders_ok b A F →
  NoDup (F ++ (ao_slot <$> al_orders l)).
Proof.
  intros Hv Hside Ho%orders_ok_nodup.
  rewrite (all_orders_focus A s P S l Hv Hside), fmap_app, (app_assoc F) in Ho.
  apply nodup_app in Ho as (_ & _ & Ho). by apply nodup_app in Ho as (Ho & _ & _).
Qed.

Lemma seq_erase_notin (X : list Z) n : n ∉ X → seq_erase n X = X.
Proof.
  induction X as [| x X IH]; intros Hn; [done |].
  apply not_elem_of_cons in Hn as [Hne Hn]. unfold seq_erase.
  rewrite filter_cons_True by done. f_equal. by apply IH.
Qed.

Lemma seq_erase_split (X Y : list Z) n :
  n ∉ X → n ∉ Y → seq_erase n (X ++ n :: Y) = X ++ Y.
Proof.
  intros HX HY. unfold seq_erase. rewrite list.filter_app, filter_cons_False by tauto.
  f_equal; by apply seq_erase_notin.
Qed.

Lemma take_from_level_spec b A s P l S F X o Y :
  valid_side s = true → side_of A s = P ++ l :: S → al_orders l = X ++ o :: Y →
  orders_ok b A F → levels_ok b A →
  ∃ b', take_from_level b (ao_slot o) = Some (b', al_slot l) ∧
    orders_ok b' (with_side A s (P ++ with_orders l (X ++ Y) :: S)) (ao_slot o :: F) ∧
    levels_ok b' (with_side A s (P ++ with_orders l (X ++ Y) :: S)) ∧
    get_order b' (ao_slot o) = Some (set_linked false (order_image s l o)) ∧
    order_map_ b' = order_map_ b.
Proof.
  intros Hv Hside Hos Ho Hl.
  assert (l ∈ side_of A s) as Hin by (by eapply focus_in_side).
  pose proof (get_level_focus _ _ _ _ Hl Hin) as Hlv.
  pose proof (order_in_focus _ _ _ _ _ _ _ _ _ _ Hv Hside Hos Ho) as Hr.
  pose proof (queue_nodup _ _ _ _ _ _ _ Hv Hside Ho) as Hnd.
  rewrite Hos, fmap_app, fmap_cons, app_assoc in Hnd.
  assert (ao_slot o ∉ (F ++ (ao_slot <$> X)) ∧ ao_slot o ∉ (ao_slot <$> Y)) as [HnX HnY].
  { apply nodup_app in Hnd as (_ & Hd & Hnd). apply nodup_cons in Hnd as [HnY _].
    split; [| done]. intros Hc. apply (Hd _ Hc). left. }
  unfold take_from_level. rewrite Hr; simpl. unfold orders_erase. rewrite Hr; simpl.
  rewrite Hlv; simpl. rewrite bool_decide_true by (apply list_elem_of_fmap_2; rewrite Hos; set_solver).
  simpl.
  destruct (upd_order_spec b _ (set_linked false) _ Hr) as (b1 & E1 & Hf1 & Hg1 & Hs1 & Hm1).
  rewrite E1; simpl.
  assert (get_level b1 (al_slot l) = Some (level_image s l)) as Hlv1.
  { by rewrite (same_levels_get _ _ _ Hs1). }
  destruct (upd_level_spec b1 _ (λ lv, set_orders (seq_erase (ao_slot o) (orders lv)) lv) _ Hlv1)
    as (b2 & E2 & Hf2 & Hg2 & Hs2).
  rewrite E2; simpl. rewrite (same_orders_get _ _ _ Hs2), Hg1; simpl.
  destruct (upd_level_spec b2 _ (λ lv, set_total (u32 (total_qty lv - ao_qty o)) lv) _ Hg2)
    as (b3 & E3 & Hf3 & Hg3 & Hs3).
  rewrite E3; simpl. eexists. split; [done |].
  assert (same_orders b1 b3) as Hs13 by (by eapply same_orders_trans).
  split; [| split; [| split]].
  - eapply (orders_ok_update ndebug A s P S l Hv Hside b b3 _ _ _ (ao_slot o)).
    + exact Ho.
    + eapply oframe_trans; [exact Hf1 |]. by apply same_orders_oframe.
    + rewrite Hos, fmap_app, fmap_cons. set_solver.
    + rewrite Hos, !fmap_app, fmap_cons. simpl.
      rewrite !(app_assoc F). by rewrite <- Permutation_middle.
    + intros x Hx. rewrite (same_orders_get _ _ _ Hs13), (of_get _ _ _ Hf1).
      * apply (oo_slot _ _ _ _ Ho s l x); [done | rewrite Hos; set_solver].
      * intros Heq. apply (list_elem_of_fmap_2 ao_slot) in Hx. rewrite Heq, fmap_app in Hx. set_solver.
    + intros j Hj. rewrite (same_orders_get _ _ _ Hs13).
      destruct (decide (j = ao_slot o)) as [-> | Hne]; [by eexists |].
      rewrite (of_get _ _ _ Hf1) by done.
      eapply orders_ok_flight_get; [exact Ho |]. set_solver.
  - eapply (levels_ok_update ndebug A s P S l Hv Hside b); [done | |].
    + eapply lframe_trans; [eapply same_levels_lframe; eassumption |].
      eapply lframe_trans; eassumption.
    + rewrite Hg3. f_equal. unfold set_total, set_orders, level_image; simpl.
      rewrite u32_sub_l, Hos, !fmap_app, fmap_cons, seq_erase_split by set_solver.
      f_equal. f_equal. rewrite !sum_qty_app; simpl. lia.
  - rewrite (same_orders_get _ _ _ Hs13), Hg1. done.
  - destruct Hs13. congruence.
Qed.

(** ** Changing the quantity of a queued order *)

Definition with_qty (q : Z) (o : aorder) : aorder :=
  {| ao_slot := ao_slot o; ao_id := ao_id o; ao_qty := q |}.

Lemma resize_spec b A s P l S F X o Y q d :
  valid_side s = true → side_of A s = P ++ l :: S → al_orders l = X ++ o :: Y →
  orders_ok b A F → levels_ok b A → d = ao_qty o - q →
  ∃ b1 b2,
    upd_order b (ao_slot o) (set_qty q) = Some b1 ∧
    upd_level b1 (al_slot l) (λ lv, set_total (u32 (total_qty lv - d)) lv) = Some b2 ∧
    orders_ok b2 (with_side A s (P ++ with_orders l (X ++ with_qty q o :: Y) :: S)) F ∧
    levels_ok b2 (with_side A s (P ++ with_orders l (X ++ with_qty q o :: Y) :: S)) ∧
    get_order b1 (ao_slot o) = Some (order_image s l (with_qty q o)) ∧
    get_order b2 (ao_slot o) = Some (order_image s l (with_qty q o)) ∧
    order_map_ b2 = order_map_ b.
Proof.
  intros Hv Hside Hos Ho Hl ->.
  assert (l ∈ side_of A s) as Hin by (by eapply focus_in_side).
  pose proof (get_level_focus _ _ _ _ Hl Hin) as Hlv.
  pose proof (order_in_focus _ _ _ _ _ _ _ _ _ _ Hv Hside Hos Ho) as Hr.
  pose proof (queue_nodup _ _ _ _ _ _ _ Hv Hside Ho) as Hnd.
  rewrite Hos, fmap_app, fmap_cons, app_assoc in Hnd.
  assert (ao_slot o ∉ (F ++ (ao_slot <$> X)) ∧ ao_slot o ∉ (ao_slot <$> Y)) as [HnX HnY].
  { apply nodup_app in Hnd as (_ & Hd & Hnd). apply nodup_cons in Hnd as [HnY _].
    split; [| done]. intros Hc. apply (Hd _ Hc). left. }
  destruct (upd_order_spec b _ (set_qty q) _ Hr) as (b1 & E1 & Hf1 & Hg1 & Hs1 & Hm1).
  assert (get_level b1 (al_slot l) = Some (level_image s l)) as Hlv1.
  { by rewrite (same_levels_get _ _ _ Hs1). }
  destruct (upd_level_spec b1 _ (λ lv, set_total (u32 (total_qty lv - (ao_qty o - q))) lv) _ Hlv1)
    as (b2 & E2 & Hf2 & Hg2 & Hs2).
  exists b1, b2. split; [done |]. split; [done |].
  split; [| split; [| split; [done | split]]].
  - eapply (orders_ok_update ndebug A s P S l Hv Hside b b2 _ _ _ (ao_slot o)).
    + exact Ho.
    + eapply oframe_trans; [exact Hf1 |]. by apply same_orders_oframe.
    + rewrite Hos, fmap_app, fmap_cons. set_solver.
    + by rewrite Hos, !fmap_app.
    + intros x Hx. rewrite (same_orders_get _ _ _ Hs2).
      destruct (decide (ao_slot x = ao_slot o)) as [Heq | Hne].
      * assert (x = with_qty q o) as -> by (apply (list_elem_of_fmap_2 ao_slot) in Hx as Hx'; set_solver).
        simpl. rewrite Hg1. done.
      * rewrite (of_get _ _ _ Hf1) by done.
        apply (oo_slot _ _ _ _ Ho s l x); [done | rewrite Hos; set_solver].
    + intros j Hj. rewrite (same_orders_get _ _ _ Hs2), (of_get _ _ _ Hf1) by set_solver.
      eapply orders_ok_flight_get; [exact Ho | done].
  - eapply (levels_ok_update ndebug A s P S l Hv Hside b); [done | |].
    + eapply lframe_trans; [eapply same_levels_lframe; eassumption |]. eassumption.
    + rewrite Hg2. f_equal. unfold set_total, level_image; simpl.
      rewrite u32_sub_l, Hos, !fmap_app. f_equal. f_equal. rewrite !sum_qty_app; simpl. lia.
  - rewrite (same_orders_get _ _ _ Hs2), Hg1. done.
  - destruct Hs2. congruence.
Qed.
End Steps.

Section Levels.
Context (ndebug : bool) {OM LM : Type} `{TO : Table Z Z OM} `{TL : Table Z Z LM}
  {OML : TableLaws Z Z OM} {LML : TableLaws Z Z LM}.
Implicit Types (b : OrderBook OM LM) (A : abook) (F : list Z).
Abbreviation orders_ok := (orders_ok (OM := OM) (LM := LM) ndebug).
Abbreviation levels_ok := (levels_ok (OM := OM) (LM := LM) ndebug).

Lemma side_index_valid s : valid_side s = true → side_index s = Some (side_to_u8 s).
Proof. by intros [-> | ->]%valid_side_cases. Qed.

Lemma get_set_level_map b s s' (lm : LM) :
  valid_side s = true → valid_side s' = true →
  get_level_map (set_level_map b (side_to_u8 s) lm) (side_to_u8 s')
  = if decide (s' = s) then Some lm else get_level_map b (side_to_u8 s').
Proof. by intros [-> | ->]%valid_side_cases [-> | ->]%valid_side_cases. Qed.

Lemma ladder_set_level_map b s s' (lm : LM) :
  ladder (set_level_map b (side_to_u8 s) lm) s' = ladder b s'.
Proof. by destruct s'. Qed.

Lemma ladder_with_ladder b s s' v :
  valid_side s = true → valid_side s' = true →
  ladder (with_ladder b s v) s' = if decide (s' = s) then v else ladder b s'.
Proof. by intros [-> | ->]%valid_side_cases [-> | ->]%valid_side_cases. Qed.

(** The insertion walk computes [place_level]. *)
Lemma insert_walk_spec b s new L :
  (∀ x, x ∈ L → get_level b (al_slot x) = Some (level_image s x)) →
  insert_walk b s (al_price new) (al_slot new) (al_slot <$> L)
  = Some (al_slot <$> place_level s new L).
Proof.
  induction L as [| x L IH]; intros Hget; [done |].
  rewrite fmap_cons. cbn [insert_walk place_level].
  rewrite (Hget x) by left. cbn. destruct (if bool_decide (s = kBid) then _ else _); [done |].
  rewrite IH; [done |]. intros y Hy. apply Hget. by right.
Qed.

(** A book whose level structures changed only by one new, empty level. *)
Definition level_added b A s (new : alevel) b' : Prop :=
  ∃ P S, side_of A s = P ++ S ∧ al_orders new = [] ∧
    place_level s new (side_of A s) = P ++ new :: S ∧
    levels_ok b' (with_side A s (P ++ new :: S)) ∧ same_orders b b'.

(** Why a new level may be refused. *)
Definition level_refused b s p : Prop :=
  IFS.free_list (level_free_ b) = [] ∨
  ∃ lm l, get_level_map b (side_to_u8 s) = Some lm ∧ tbl_insert lm p l = Some (lm, false).

Lemma lookup_level b A s p :
  levels_ok b A → valid_side s = true →
  (∃ P l S, side_of A s = P ++ l :: S ∧ al_price l = p ∧
     level_entries (side_of A s) !! p = Some (al_slot l)) ∨
  (p ∉ (al_price <$> side_of A s) ∧ level_entries (side_of A s) !! p = None).
Proof.
  intros [] Hv. destruct (level_entries (side_of A s) !! p) as [sl |] eqn:He.
  - left. apply level_entries_Some in He as (l & Hl & <- & <-).
    apply list_elem_of_split in Hl as (P & S & HL). by exists P, l, S.
  - right. split; [| done]. intros (l & -> & Hl)%list_elem_of_fmap.
    rewrite level_entries_In in He; [done | | done]. eapply side_sorted_nodup, lo_sorted.
Qed.

Definition fresh_level (p : Z) (s : Side) : PriceLevel :=
  {| pl_price := p; total_qty := 0; pl_side := s; orders := []; pl_linked := false |}.

(** The free level taken from the pool, with the terms of the new level. *)
Lemma take_level b A sl rest s p :
  levels_ok b A → IFS.free_list (level_free_ b) = sl :: rest →
  ∃ st b2, alloc_level ndebug b = Some (with_level_free b st, Some sl) ∧
    upd_level (with_level_free b st) sl (set_pl_terms p s) = Some b2 ∧
    IFS.stack_wf ndebug st ∧ IFS.free_list st = rest ∧ IFS.capacity_ st = max_levels_ b ∧
    lframe sl (with_level_free b st) b2 ∧ same_orders b b2 ∧
    get_level b2 sl = Some (fresh_level p s).
Proof.
  intros [] Hfl. pose proof (IFS.pop_spec ndebug _ lo_stack) as Hpop. rewrite Hfl in Hpop.
  destruct Hpop as (st & Hpop & Hwf & Hrest & Hcap).
  destruct (lo_free sl) as (r & Hr & Hlk & Hos); [rewrite Hfl; left |].
  destruct (upd_level_spec (with_level_free b st) sl (set_pl_terms p s) r Hr)
    as (b2 & E2 & Hf2 & Hg2 & Hs2).
  exists st, b2. unfold alloc_level. rewrite Hpop; simpl.
  repeat (split; [first [done | congruence] |]). split; [by destruct Hs2 |].
  rewrite Hg2. unfold set_pl_terms, fresh_level. by rewrite Hos, Hlk.
Qed.

Lemma free_level_at b sl st r :
  level_free_ b = st → IFS.stack_wf ndebug st → IFS.capacity_ st = max_levels_ b →
  max_levels_ b <= 2 ^ 32 - 1 →
  0 <= sl < max_levels_ b → sl ∉ IFS.free_list st →
  get_level b sl = Some r → orders r = [] →
  ∃ b', free_level ndebug b sl = Some b' ∧ same_orders b b' ∧
    IFS.stack_wf ndebug (level_free_ b') ∧ IFS.free_list (level_free_ b') = sl :: IFS.free_list st ∧
    IFS.capacity_ (level_free_ b') = max_levels_ b ∧ max_levels_ b' = max_levels_ b ∧
    length (level_slots_ b') = length (level_slots_ b) ∧
    bids_ b' = bids_ b ∧ asks_ b' = asks_ b ∧
    level_map_bid_ b' = level_map_bid_ b ∧ level_map_ask_ b' = level_map_ask_ b ∧
    get_level b' sl = Some (set_pl_linked false r) ∧
    (∀ j, j ≠ sl → get_level b' j = get_level b j).
Proof.
  intros Hst Hwf Hcap Hbd Hsl Hni Hr Hos. unfold free_level.
  rewrite bool_decide_true by done; simpl. rewrite Hr; simpl.
  rewrite bool_decide_true by done; simpl.
  destruct (upd_level_spec b sl (set_pl_linked false) r Hr) as (b1 & E1 & [L1 L2 L3 L4 L5 L6 L7 L8] & Hg1 & Hs1).
  rewrite E1; simpl. rewrite u32_id by mlia. rewrite L3, Hst.
  destruct (IFS.push_spec ndebug st sl) as (st' & -> & Hwf' & Hfl' & Hcap'); simpl;
    [done | lia | done |].
  eexists. split; [done |]. simpl.
  repeat (split; [first [done | congruence | by destruct Hs1] |]). done.
Qed.

Lemma insert_level_sorted_spec b s new L r :
  valid_side s = true → ladder b s = al_slot <$> L →
  (∀ x, x ∈ L → get_level b (al_slot x) = Some (level_image s x)) →
  get_level b (al_slot new) = Some r → pl_price r = al_price new → pl_linked r = false →
  ∃ b', insert_level_sorted b s (al_slot new)
        = Some (with_ladder b' s (al_slot <$> place_level s new L)) ∧
    lframe (al_slot new) b b' ∧ same_orders b b' ∧
    get_level b' (al_slot new) = Some (set_pl_linked true r).
Proof.
  intros Hv Hlad Hget Hr Hp Hlk. unfold insert_level_sorted. rewrite Hr; simpl.
  rewrite Hlk; simpl. rewrite Hlad, Hp, insert_walk_spec by done; simpl.
  destruct (upd_level_spec b _ (set_pl_linked true) r Hr) as (b1 & E1 & Hf1 & Hg1 & Hs1).
  rewrite E1; simpl. by exists b1.
Qed.

(** Assembling the invariant around a new level. *)
Lemma levels_ok_insert b b' A s P S new rest :
  valid_side s = true → levels_ok b A →
  IFS.free_list (level_free_ b) = al_slot new :: rest →
  side_of A s = P ++ S → side_sorted s (P ++ new :: S) →
  IFS.stack_wf ndebug (level_free_ b') → IFS.free_list (level_free_ b') = rest →
  IFS.capacity_ (level_free_ b') = max_levels_ b → max_levels_ b' = max_levels_ b →
  length (level_slots_ b') = length (level_slots_ b) →
  get_level b' (al_slot new) = Some (level_image s new) →
  (∀ j, j ≠ al_slot new → get_level b' j = get_level b j) →
  (∀ s', valid_side s' = true →
     ladder b' s' = if decide (s' = s) then al_slot <$> P ++ new :: S else ladder b s') →
  (∀ s', valid_side s' = true →
     ∃ lm, get_level_map b' (side_to_u8 s') = Some lm ∧ tbl_wf lm ∧
       if decide (s' = s) then tbl_map lm = <[al_price new := al_slot new]> (level_entries (side_of A s))
       else get_level_map b (side_to_u8 s') = Some lm) →
  levels_ok b' (with_side A s (P ++ new :: S)).
Proof.
  intros Hv Hok Hfl Hside Hsort Hwf' Hfl' Hcap' Hmax' Hlen' Hnew Hget Hlad Hmap.
  pose proof (levels_ok_nodup _ _ _ Hok) as Hnd. destruct Hok.
  rewrite Hfl in Hnd. simpl in Hnd. apply nodup_cons in Hnd as [Hni _].
  rewrite elem_of_app in Hni.
  assert (∀ x, x ∈ levels A → al_slot x ≠ al_slot new) as Hne.
  { intros x Hx Heq. apply Hni. right. rewrite <- Heq. by apply list_elem_of_fmap_2. }
  assert (∀ s' x, x ∈ side_of A s' → x ∈ levels A) as Hin.
  { intros s' x Hx. apply elem_of_levels. exists s'. by destruct s'; [| | apply elem_of_nil in Hx]. }
  split; rewrite ?Hmax', ?Hlen'; try done.
  - rewrite <- lo_perm, Hfl', Hfl, levels_with_side, (levels_split A s), Hside by done.
    rewrite !fmap_app, fmap_cons. simpl. rewrite <- !app_assoc. simpl.
    rewrite !(app_assoc rest). by rewrite <- Permutation_middle.
  - intros i. rewrite Hfl'. intros Hi. rewrite Hget; [apply lo_free; rewrite Hfl; by right |].
    intros ->. tauto.
  - intros s' x Hx. destruct (decide (s' = s)) as [-> | Hs'].
    + rewrite side_of_with_side in Hx by done.
      apply elem_of_app in Hx as [Hx | [-> | Hx]%elem_of_cons]; [| done |].
      * assert (x ∈ side_of A s) by (rewrite Hside, elem_of_app; by left).
        rewrite Hget by eauto. by apply lo_slot.
      * assert (x ∈ side_of A s) by (rewrite Hside, elem_of_app; by right).
        rewrite Hget by eauto. by apply lo_slot.
    + rewrite side_of_with_side_ne in Hx by done. rewrite Hget by eauto. by apply lo_slot.
  - intros s' Hs'. rewrite Hlad by done. case_decide; subst.
    + by rewrite side_of_with_side.
    + rewrite side_of_with_side_ne by done. auto.
  - intros s'. destruct (decide (s' = s)) as [-> | ?].
    + by rewrite side_of_with_side.
    + by rewrite side_of_with_side_ne.
  - intros s' Hs'. destruct (Hmap s' Hs') as (lm & Hlm & Hlwf & Hm). exists lm.
    split; [done |]. split; [done |]. case_decide as Hss; subst.
    + rewrite side_of_with_side, level_entries_insert, Hm, Hside by
        (done || by eapply side_sorted_nodup). done.
    + rewrite side_of_with_side_ne by done. destruct (lo_map s' Hs') as (lm' & ? & ? & ?).
      congruence.
Qed.

Lemma find_or_create_level_spec b A s p :
  valid_side s = true → levels_ok b A →
  (∃ P l S, side_of A s = P ++ l :: S ∧ al_price l = p ∧
     find_or_create_level ndebug b s p = Some (b, Some (al_slot l))) ∨
  (p ∉ (al_price <$> side_of A s) ∧ ∃ b',
     find_or_create_level ndebug b s p = Some (b', None) ∧
     levels_ok b' A ∧ same_orders b b' ∧ level_refused b s p) ∨
  (p ∉ (al_price <$> side_of A s) ∧ ∃ b' sl,
     find_or_create_level ndebug b s p = Some (b', Some sl) ∧
     level_added b A s {| al_slot := sl; al_price := p; al_orders := [] |} b').
Proof.
  intros Hv Hok. unfold find_or_create_level. rewrite side_index_valid by done; simpl.
  destruct (lo_map _ _ _ Hok s Hv) as (lm & Hlm & Hlwf & Hmap). rewrite Hlm; simpl.
  rewrite tbl_find_spec by done; simpl. rewrite Hmap.
  destruct (lookup_level b A s p Hok Hv) as [(P & l & S & Hside & Hp & ->) | [Hni ->]].
  { left. by exists P, l, S. }
  right. destruct (IFS.free_list (level_free_ b)) as [| sl rest] eqn:Hfl.
  { left. split; [done |]. exists b. unfold alloc_level.
    pose proof (IFS.pop_spec ndebug _ (lo_stack _ _ _ Hok)) as Hpop. rewrite Hfl in Hpop.
    rewrite Hpop; simpl. rewrite with_level_free_same. split; [done |]. split; [done |].
    split; [apply same_orders_refl |]. by left. }
  destruct (take_level b A sl rest s p Hok Hfl)
    as (st & b2 & -> & E2 & Hwf2 & Hfl2 & Hcap2 & Hlf2 & Hso2 & Hg2). simpl.
  rewrite E2; simpl.
  assert (get_level_map b2 (side_to_u8 s) = Some lm) as ->.
  { rewrite <- Hlm. destruct Hlf2 as [_ _ _ L4 L5 L6 L7 _]. unfold get_level_map. by rewrite L6, L7. }
  simpl. destruct (tbl_insert_spec lm p sl Hlwf) as (lm' & ins & Hins & Hwf' & Hres).
  rewrite Hins; simpl.
  pose proof (levels_ok_nodup _ _ _ Hok) as Hnd. rewrite Hfl in Hnd.
  simpl in Hnd. apply nodup_cons in Hnd as [Hnsl _]. rewrite elem_of_app in Hnsl.
  assert (0 <= sl < max_levels_ b) as Hrange.
  { apply elem_of_range. rewrite <- (lo_perm _ _ _ Hok), Hfl. left. }
  pose proof (lo_bound _ _ _ Hok) as Hbd.
  destruct ins; simpl.
  - (* the level is linked into its ladder *)
    right. split; [done |]. destruct Hres as [Hnone Hmap'].
    set (new := {| al_slot := sl; al_price := p; al_orders := [] |}).
    destruct (place_level_split s new (side_of A s) Hv (lo_sorted _ _ _ Hok s) Hni)
      as (P & S & Hside & Hplace & Hsort).
    assert (∀ x, x ∈ side_of A s → al_slot x ≠ sl) as Hne.
    { intros x Hx <-. apply Hnsl. right. apply list_elem_of_fmap_2, elem_of_levels. by exists s. }
    destruct (insert_level_sorted_spec (set_level_map b2 (side_to_u8 s) lm') s new (side_of A s)
                (fresh_level p s) Hv) as (b3 & E3 & Hlf3 & Hso3 & Hg3); [| | exact Hg2 | done | done |].
    { rewrite ladder_set_level_map. transitivity (ladder b s); [| by apply (lo_ladder _ _ _ Hok)].
      destruct Hlf2 as [_ _ _ L4 L5 L6 L7 _]. unfold ladder. by rewrite L4, L5. }
    { intros x Hx. transitivity (get_level b (al_slot x)).
      - apply (lf_get _ _ _ Hlf2). by apply Hne.
      - by apply (lo_slot _ _ _ Hok). }
    simpl in E3. rewrite E3; simpl. eexists _, sl. split; [done |].
    exists P, S. split; [done |]. split; [done |]. split; [done |]. split.
    + rewrite Hplace. destruct Hlf2 as [L1 L2 L3 L4 L5 L6 L7 L8].
      destruct Hlf3 as [K1 K2 K3 K4 K5 K6 K7 K8]. simpl in *.
      apply (levels_ok_insert b _ A s P S new rest); try done; simpl; try congruence.
      * intros j Hj. etransitivity; [by apply K8 |]. by apply L8.
      * intros s' Hs'. rewrite ladder_with_ladder by done. destruct (decide (s' = s)); [done |].
        unfold ladder. by rewrite K4, K5, L4, L5.
      * intros s' Hs'.
        assert (∀ i, get_level_map (with_ladder b3 s (al_slot <$> P ++ new :: S)) i
                 = get_level_map (set_level_map b2 (side_to_u8 s) lm') i) as Hgm.
        { intros i. unfold get_level_map; simpl. by rewrite K6, K7. }
        rewrite Hgm, get_set_level_map by done. destruct (decide (s' = s)) as [-> | Hss].
        -- exists lm'. by rewrite <- Hmap.
        -- assert (get_level_map b2 (side_to_u8 s') = get_level_map b (side_to_u8 s')) as ->.
           { unfold get_level_map. by rewrite L6, L7. }
           destruct (lo_map _ _ _ Hok s' Hs') as (lm'' & ? & ? & ?). by exists lm''.
    + destruct Hso2, Hso3. split; simpl in *; congruence.
  - (* the table is full: the level goes back to the pool *)
    left. split; [done |]. subst lm'.
    destruct (free_level_at (set_level_map b2 (side_to_u8 s) lm) sl st
                (fresh_level p s) ltac:(by destruct Hlf2) Hwf2)
      as (b3 & E3 & Hso3 & Hwf3 & Hfl3 & Hcap3 & Hm3 & Hlen3 & Hb3 & Ha3 & Hmb3 & Hma3 & Hg3 & Hget3);
      [| | | | exact Hg2 | done |].
    { destruct Hlf2; simpl in *; congruence. }
    { destruct Hlf2; simpl in *. lia. }
    { destruct Hlf2 as [_ L2 _ _ _ _ _ _]; simpl in *. by rewrite L2. }
    { rewrite Hfl2. tauto. }
    rewrite E3; simpl. exists b3. split; [done |].
    split; [| split; [destruct Hso2, Hso3; split; simpl in *; congruence |]].
    2:{ right. by exists lm, sl. }
    destruct Hlf2 as [L1 L2 L3 L4 L5 L6 L7 L8]. simpl in *.
    assert (∀ j, j ≠ sl → get_level b3 j = get_level b j) as Hg.
    { intros j Hj. rewrite Hget3 by done. etransitivity; [| by apply L8]. done. }
    destruct Hok. split; rewrite ?Hm3, ?L2, ?Hlen3, ?L1; try done; try congruence.
    + intros i Hi. rewrite Hfl3, Hfl2 in Hi. destruct (decide (i = sl)) as [-> | Hne].
      * by eexists.
      * rewrite Hg by done. apply lo_free. by rewrite Hfl.
    + intros s' x Hx. rewrite Hg; [by apply lo_slot |]. intros Heq. apply Hnsl. right.
      rewrite <- Heq. apply list_elem_of_fmap_2, elem_of_levels.
      exists s'. by destruct s'; [| | apply elem_of_nil in Hx].
    + intros s' Hs'. rewrite <- lo_ladder by done. unfold ladder. rewrite Hb3, Ha3.
      by rewrite L4, L5.
    + intros s' Hs'. destruct (lo_map s' Hs') as (lm' & Hlm' & ? & ?). exists lm'.
      split; [| done]. rewrite <- Hlm'.
      assert (get_level_map b3 (side_to_u8 s')
              = get_level_map (set_level_map b2 (side_to_u8 s) lm) (side_to_u8 s')) as ->.
      { unfold get_level_map. by rewrite Hmb3, Hma3. }
      rewrite get_set_level_map by done. destruct (decide (s' = s)); [congruence |].
      unfold get_level_map. by rewrite L6, L7.
Qed.

(** A level in its ladder, for the erasure. *)
Lemma ladder_erase_spec b A s P l S :
  valid_side s = true → side_of A s = P ++ l :: S → levels_ok b A →
  ∃ b', ladder_erase b s (al_slot l) = Some (with_ladder b' s (al_slot <$> P ++ S)) ∧
    lframe (al_slot l) b b' ∧ same_orders b b' ∧
    get_level b' (al_slot l) = Some (set_pl_linked false (level_image s l)).
Proof.
  intros Hv Hside Hok.
  assert (l ∈ side_of A s) as Hin by (by eapply focus_in_side).
  pose proof (get_level_focus _ _ _ _ _ Hok Hin) as Hlv.
  unfold ladder_erase. rewrite Hlv; simpl.
  rewrite (lo_ladder _ _ _ Hok) by done. rewrite Hside.
  rewrite bool_decide_true by (apply list_elem_of_fmap_2; set_solver); simpl.
  destruct (upd_level_spec b _ (set_pl_linked false) _ Hlv) as (b1 & E1 & Hf1 & Hg1 & Hs1).
  rewrite E1; simpl. exists b1. split; [| done]. do 2 f_equal.
  assert (ladder b1 s = al_slot <$> P ++ l :: S) as ->.
  { rewrite <- Hside, <- (lo_ladder _ _ _ Hok) by done.
    destruct Hf1 as [_ _ _ L4 L5 _ _ _]. unfold ladder. by rewrite L4, L5. }
  assert (NoDup (al_slot <$> P ++ l :: S)) as Hnd.
  { pose proof (levels_ok_nodup _ _ _ Hok) as Hn.
    rewrite (levels_split A s Hv), Hside in Hn.
    apply nodup_app in Hn as (_ & _ & Hn). rewrite fmap_app in Hn.
    by apply nodup_app in Hn as (Hn & _ & _). }
  rewrite !fmap_app, !fmap_cons in Hnd |- *. apply nodup_app in Hnd as (_ & Hd & Hn).
  apply nodup_cons in Hn as [Hn _]. rewrite seq_erase_split; [by rewrite ?fmap_app | | done].
  intros Hc. apply (Hd _ Hc). left.
Qed.

Lemma remove_level_spec b A s P l S :
  valid_side s = true → side_of A s = P ++ l :: S → al_orders l = [] → levels_ok b A →
  ∃ b', remove_level ndebug b (al_slot l) = Some b' ∧
    levels_ok b' (with_side A s (P ++ S)) ∧ same_orders b b'.
Proof.
  intros Hv Hside Hemp Hok.
  assert (l ∈ side_of A s) as Hin by (by eapply focus_in_side).
  assert (l ∈ levels A) as Hinl by (by eapply focus_in_levels).
  pose proof (get_level_focus _ _ _ _ _ Hok Hin) as Hlv.
  pose proof (levels_ok_in_range _ _ _ _ Hok Hinl) as Hrange.
  pose proof (λ x, rest_slot_ne ndebug A s P S l Hv Hside b x Hok) as Hne.
  pose proof (levels_ok_nodup _ _ _ Hok) as Hnd.
  assert (al_slot l ∉ IFS.free_list (level_free_ b)) as Hnfree.
  { intros Hc. apply nodup_app in Hnd as (_ & Hd & _). apply (Hd _ Hc).
    by apply list_elem_of_fmap_2. }
  unfold remove_level. rewrite Hlv; simpl. rewrite Hemp; simpl.
  rewrite side_index_valid by done; simpl.
  destruct (ladder_erase_spec b A s P l S Hv Hside Hok) as (b1 & -> & Hlf & Hso & Hg1). simpl.
  destruct (lo_map _ _ _ Hok s Hv) as (lm & Hlm & Hlwf & Hmap).
  destruct Hlf as [L1 L2 L3 L4 L5 L6 L7 L8].
  assert (get_level_map (with_ladder b1 s (al_slot <$> P ++ S)) (side_to_u8 s) = Some lm) as ->.
  { rewrite <- Hlm. unfold get_level_map; simpl. by rewrite L6, L7. }
  simpl. destruct (tbl_erase_spec lm (al_price l) Hlwf) as (lm' & -> & Hlwf' & Hmap'). simpl.
  destruct (free_level_at
    (set_level_map (with_ladder b1 s (al_slot <$> P ++ S)) (side_to_u8 s) lm') (al_slot l)
    (level_free_ b) (set_pl_linked false (level_image s l)) L3 (lo_stack _ _ _ Hok))
    as (b3 & E3 & Hso3 & Hwf3 & Hfl3 & Hcap3 & Hm3 & Hlen3 & Hb3 & Ha3 & Hmb3 & Hma3 & Hg3 & Hget3).
  { simpl. rewrite L2. apply (lo_cap _ _ _ Hok). }
  { simpl. rewrite L2. apply (lo_bound _ _ _ Hok). }
  { simpl. by rewrite L2. }
  { done. }
  { done. }
  { simpl. by rewrite Hemp. }
  exists b3. rewrite E3. split; [done |].
  split; [| destruct Hso, Hso3; split; simpl in *; congruence].
  cbn [max_levels_ level_slots_ with_ladder set_level_map] in Hcap3, Hm3, Hlen3.
  assert (∀ j, j ≠ al_slot l → get_level b3 j = get_level b j) as Hg.
  { intros j Hj. rewrite Hget3 by done. etransitivity; [| by apply L8]. done. }
  pose proof (lo_sorted _ _ _ Hok s) as Hsort. rewrite Hside in Hsort.
  destruct Hok. split; rewrite ?Hm3, ?L2, ?Hlen3, ?L1; try done; try congruence.
  - rewrite <- lo_perm, Hfl3, (levels_drop A s P S Hv), (levels_focus A s P S l Hv Hside).
    simpl. by rewrite <- Permutation_middle.
  - intros i Hi. rewrite Hfl3 in Hi. destruct (decide (i = al_slot l)) as [-> | Hne'].
    + eexists. split; [done |]. simpl. by rewrite Hemp.
    + rewrite Hg by done. apply lo_free. by apply elem_of_cons in Hi as [-> |].
  - intros s' x Hx. apply (side_drop_cases A s P S l Hv Hside) in Hx as [Hx Hr].
    rewrite Hg by auto. by apply lo_slot.
  - intros s' Hs'. assert (ladder b3 s' = ladder (with_ladder b1 s (al_slot <$> P ++ S)) s') as ->.
    { unfold ladder. rewrite Hb3, Ha3. done. }
    rewrite ladder_with_ladder by done. destruct (decide (s' = s)) as [-> | ?].
    + by rewrite side_of_with_side.
    + rewrite side_of_with_side_ne by done. rewrite <- lo_ladder by done.
      unfold ladder. by rewrite L4, L5.
  - intros s'. destruct (decide (s' = s)) as [-> | ?].
    + rewrite side_of_with_side by done. by eapply side_sorted_remove.
    + by rewrite side_of_with_side_ne.
  - intros s' Hs'.
    assert (get_level_map b3 (side_to_u8 s')
      = get_level_map (set_level_map (with_ladder b1 s (al_slot <$> P ++ S)) (side_to_u8 s) lm')
          (side_to_u8 s')) as ->.
    { unfold get_level_map. by rewrite Hmb3, Hma3. }
    rewrite get_set_level_map by done. destruct (decide (s' = s)) as [-> | ?].
    + exists lm'. split; [done |]. split; [done |].
      rewrite side_of_with_side, Hmap', Hmap, Hside by done.
      apply level_entries_delete. by eapply side_sorted_nodup.
    + rewrite side_of_with_side_ne by done.
      destruct (lo_map s' Hs') as (lm'' & ? & ? & ?). exists lm''. split; [| done].
      etransitivity; [| done]. unfold get_level_map; simpl. by rewrite L6, L7.
Qed.
End Levels.
