(* ===== verification/OrderBookSpec.v ===== *)
(** The order book implements its abstract specification.

    [represents b v]: the concrete book [b] (pools, intrusive queues, hash
    tables) stands for the abstract book [v] of [BookView.v].  For every
    operation of [OrderBook.v]: from a book that represents [v] it cannot
    fail -- no assertion of the source, no pool or table misuse -- and its
    result represents the abstract operation applied to [v].

    The correctness theorems of the order book: every modifier and query of
    [OrderBook.v] against the abstract book of [BookView.v].

    [OrderBook::clear] empties any well-formed book.

    While a side is being cleared its table of prices is stale and the level
    being drained is in no ladder, so the loops are proved against a weaker
    invariant, [clearing]. *)
From Stdlib Require Import Sorted.
From S2P Require Import Prelude.
From S2P Require Import IndexFreeStack.
From S2P Require Import TableInterface.
From S2P Require Import TradingTypes.
From S2P Require Import OrderBook.
From S2P Require Import BookView.
From S2P Require Import OrderBookRep.
From S2P Require Import OrderBookCore.
Local Open Scope Z_scope.
Local Open Scope array_scope.

(** * Views of abstract books *)

Definition view_order (o : aorder) : Z * Z := (ao_id o, ao_qty o).
Definition view_level (l : alevel) : Z * queue := (al_price l, view_order <$> al_orders l).
Definition view (L : list alevel) : vladder := view_level <$> L.
Definition book_view (A : abook) : vbook := {| v_bids := view (a_bids A); v_asks := view (a_asks A) |}.

Lemma v_side_view A s : v_side (book_view A) s = view (side_of A s).
Proof. by destruct s. Qed.

Lemma book_view_with_side A s L :
  valid_side s = true → book_view (with_side A s L) = v_with (book_view A) s (view L).
Proof. by intros [-> | ->]%valid_side_cases. Qed.

Lemma view_app L L' : view (L ++ L') = view L ++ view L'.
Proof. apply fmap_app. Qed.

Lemma v_ids_view L : v_ids (view L) = ao_id <$> orders_in L.
Proof.
  induction L as [| l L IH]; [done |].
  change (v_ids (view (l :: L))) with ((view_order <$> al_orders l).*1 ++ v_ids (view L)).
  rewrite IH, orders_in_cons, fmap_app. by rewrite <- list_fmap_compose.
Qed.

Lemma v_orders_view L : v_orders (view L) = view_order <$> orders_in L.
Proof.
  induction L as [| l L IH]; [done |].
  change (v_orders (view (l :: L))) with ((view_order <$> al_orders l) ++ v_orders (view L)).
  by rewrite IH, orders_in_cons, fmap_app.
Qed.

Lemma vb_ids_view A : vb_ids (book_view A) = ao_id <$> all_orders A.
Proof.
  unfold vb_ids, all_orders, levels; simpl. by rewrite !v_ids_view, orders_in_app, fmap_app.
Qed.

Lemma vb_orders_view A : vb_orders (book_view A) = view_order <$> all_orders A.
Proof.
  unfold vb_orders, all_orders, levels; simpl. by rewrite !v_orders_view, orders_in_app, fmap_app.
Qed.

Lemma v_volume_view os : v_volume (view_order <$> os) = sum_qty os.
Proof.
  unfold v_volume, sum_qty. induction os as [| o os IH]; [done |].
  rewrite fmap_cons. cbn [foldr]. by rewrite IH.
Qed.

(** The abstract addition, on a price that is there and on a new one. *)
Lemma v_add_found s p id q P l S :
  valid_side s = true → side_sorted s (P ++ l :: S) → al_price l = p →
  v_add s p id q (view (P ++ l :: S))
  = view P ++ (p, (view_order <$> al_orders l) ++ [(id, q)]) :: view S.
Proof.
  intros Hv Hs <-. unfold side_sorted in Hs. rewrite fmap_app, fmap_cons in Hs.
  apply strongly_sorted_app in Hs as (_ & _ & Hb). rewrite view_app.
  assert (∀ x, x ∈ P → better s (al_price x) (al_price l)) as HP.
  { intros x Hx. apply Hb; [by apply list_elem_of_fmap_2 | left]. }
  clear Hb. induction P as [| x P IH]; simpl.
  - by rewrite bool_decide_true.
  - pose proof (HP x ltac:(left)) as Hx. unfold betterb.
    apply valid_side_cases in Hv as Hv'.
    rewrite bool_decide_false by (intros Heq; rewrite Heq in Hx; by apply better_irrefl in Hx).
    assert ((if bool_decide (s = kBid) then bool_decide (al_price x < al_price l)
             else bool_decide (al_price x > al_price l)) = false) as ->.
    { destruct Hv' as [-> | ->]; simpl in *; apply bool_decide_eq_false; lia. }
    f_equal. apply IH. intros y Hy. apply HP. by right.
Qed.

Lemma v_add_new s p id q l P S :
  al_price l = p → p ∉ (al_price <$> P ++ S) → place_level s l (P ++ S) = P ++ l :: S →
  v_add s p id q (view (P ++ S)) = view P ++ (p, [(id, q)]) :: view S.
Proof.
  intros Hp Hni Hpl. induction P as [| x P IH]; simpl in *.
  - destruct S as [| x S]; [done |]. simpl in *.
    apply not_elem_of_cons in Hni as [Hne _]. rewrite bool_decide_false by done.
    unfold betterb. rewrite Hp in Hpl. destruct (if bool_decide (s = kBid) then _ else _); [done |].
    simplify_eq.
  - apply not_elem_of_cons in Hni as [Hne Hni]. rewrite bool_decide_false by done.
    unfold betterb. rewrite Hp in Hpl. destruct (if bool_decide (s = kBid) then _ else _).
    + simplify_eq.
    + simplify_eq. f_equal. by apply IH.
Qed.

(** * Locating an order *)

(** [located A s P l S X o Y]: order [o] rests on side [s], in level [l]
    between the levels [P] and [S], between the orders [X] and [Y]. *)
Record located (A : abook) (s : Side) (P : list alevel) (l : alevel) (S : list alevel)
    (X : list aorder) (o : aorder) (Y : list aorder) : Prop := {
  loc_side : valid_side s = true;
  loc_level : side_of A s = P ++ l :: S;
  loc_order : al_orders l = X ++ o :: Y;
}.

Lemma locate A o : o ∈ all_orders A → ∃ s P l S X Y, located A s P l S X o Y.
Proof.
  intros (l & Hl & Ho)%elem_of_orders_in. apply elem_of_levels in Hl as (s & Hs & Hl).
  apply list_elem_of_split in Hl as (P & S & HP). apply list_elem_of_split in Ho as (X & Y & HX).
  by exists s, P, l, S, X, Y.
Qed.

(** The level that remains, unless it became empty. *)
Definition keep_level (l : alevel) (os : list aorder) : list alevel :=
  match os with [] => [] | _ => [with_orders l os] end.

Definition drop_order (A : abook) s P l S X Y : abook :=
  with_side A s (P ++ keep_level l (X ++ Y) ++ S).

Definition resize_order (A : abook) s P l S X o Y q : abook :=
  with_side A s (P ++ with_orders l (X ++ with_qty q o :: Y) :: S).

Section Located.
Context (A : abook) s P l S X o Y (Hloc : located A s P l S X o Y).

Lemma located_in : o ∈ all_orders A.
Proof using Hloc.
  destruct Hloc. apply elem_of_orders_in. exists l. split.
  - by eapply focus_in_levels.
  - rewrite loc_order0. set_solver.
Qed.

Lemma orders_in_keep os : orders_in (keep_level l os) = os.
Proof. destruct os; [done |]. unfold keep_level. by rewrite orders_in_cons, app_nil_r. Qed.

Lemma all_orders_located :
  all_orders A ≡ₚ o :: all_orders (drop_order A s P l S X Y).
Proof using Hloc.
  destruct Hloc as [Hv Hl Ho]. unfold drop_order.
  rewrite (all_orders_split A s), all_orders_with_side, Hl by done.
  rewrite !orders_in_app, orders_in_cons, orders_in_keep, Ho.
  rewrite <- (Permutation_middle X). simpl. by rewrite <- (Permutation_middle (orders_in P)).
Qed.

Lemma all_orders_resize q :
  all_orders (resize_order A s P l S X o Y q)
  ≡ₚ with_qty q o :: all_orders (drop_order A s P l S X Y).
Proof using Hloc.
  destruct Hloc as [Hv Hl Ho]. unfold drop_order, resize_order.
  rewrite !all_orders_with_side by done.
  rewrite !orders_in_app, orders_in_cons, orders_in_keep. simpl.
  rewrite <- (Permutation_middle X). simpl. by rewrite <- (Permutation_middle (orders_in P)).
Qed.

Lemma view_keep os : view (keep_level l os) = v_level (al_price l) (view_order <$> os).
Proof. by destruct os. Qed.

Lemma drop_nonempty :
  (∀ x, x ∈ levels A → al_orders x ≠ []) →
  ∀ x, x ∈ levels (drop_order A s P l S X Y) → al_orders x ≠ [].
Proof using Hloc.
  destruct Hloc as [Hv Hl Ho]. intros Hne x. unfold drop_order.
  rewrite levels_with_side, !elem_of_app by done. intros Hx.
  assert (x ∈ keep_level l (X ++ Y) ∨ x ∈ levels A) as [Hk | Hk].
  { rewrite (levels_split A s) by done. rewrite Hl, !elem_of_app, elem_of_cons. tauto. }
  - unfold keep_level in Hk. destruct (X ++ Y) eqn:Hxy; [by apply elem_of_nil in Hk |].
    by apply list_elem_of_singleton in Hk as ->.
  - by apply Hne.
Qed.
End Located.

Lemma view_nonempty L p os :
  (∀ x, x ∈ L → al_orders x ≠ []) → (p, os) ∈ view L → os ≠ [].
Proof.
  intros Hne (x & [= -> ->] & Hx)%list_elem_of_fmap Hc. apply (Hne x Hx).
  by destruct (al_orders x).
Qed.

(** The identity of a located order occurs nowhere else. *)
Lemma located_ids A s P l S X o Y :
  located A s P l S X o Y → NoDup (ao_id <$> all_orders A) →
  ao_id o ∉ (ao_id <$> orders_in P) ∧ ao_id o ∉ (ao_id <$> orders_in S) ∧
  ao_id o ∉ (view_order <$> X).*1 ∧ ao_id o ∉ (view_order <$> Y).*1 ∧
  ao_id o ∉ (ao_id <$> orders_in (other_side A s)).
Proof.
  intros [Hv Hl Ho] Hnd. rewrite <- !list_fmap_compose.
  assert (all_orders A ≡ₚ o :: (orders_in P ++ (X ++ Y) ++ orders_in S)
            ++ orders_in (other_side A s)) as Hp.
  { rewrite (all_orders_split A s), Hl, orders_in_app, orders_in_cons, Ho by done.
    rewrite <- (Permutation_middle X). simpl. by rewrite <- (Permutation_middle (orders_in P)). }
  rewrite Hp, fmap_cons, !fmap_app in Hnd. apply nodup_cons in Hnd as [Hn _].
  rewrite !elem_of_app in Hn. change (compose fst view_order) with ao_id. tauto.
Qed.

(** In a book without duplicate identities, dropping a located order is
    removing its identity from both ladders. *)
Lemma view_drop_order A s P l S X o Y :
  located A s P l S X o Y → NoDup (ao_id <$> all_orders A) →
  (∀ x, x ∈ levels A → al_orders x ≠ []) →
  book_view (drop_order A s P l S X Y) = vb_remove (ao_id o) (book_view A).
Proof.
  intros Hloc Hnd Hne.
  destruct (located_ids _ _ _ _ _ _ _ _ Hloc Hnd) as (HnP & HnS & HnX & HnY & HnO).
  destruct Hloc as [Hv Hl Ho].
  assert (∀ L, (∀ x, x ∈ L → x ∈ levels A) → ao_id o ∉ (ao_id <$> orders_in L) →
    v_remove (ao_id o) (view L) = view L) as Hrest.
  { intros L HL Hn. apply v_remove_notin; [| by rewrite v_ids_view].
    intros p os. apply view_nonempty. auto. }
  assert (∀ x, x ∈ other_side A s → x ∈ levels A) as Hoth.
  { intros x Hx. rewrite (levels_split A s) by done. set_solver. }
  assert (∀ x, x ∈ P ∨ x ∈ S → x ∈ levels A) as HPS.
  { intros x Hx. rewrite (levels_split A s), Hl by done. set_solver. }
  assert (v_remove (ao_id o) (view (side_of A s)) = view (P ++ keep_level l (X ++ Y) ++ S)) as Hs.
  { rewrite Hl, !view_app, v_remove_app, Hrest by auto. f_equal.
    change (view (l :: S)) with ([view_level l] ++ view S).
    rewrite v_remove_app, (Hrest S) by auto. f_equal. rewrite view_keep. unfold v_remove; simpl.
    rewrite app_nil_r, Ho, !fmap_app, fmap_cons. f_equal.
    by apply q_remove_split. }
  unfold drop_order. rewrite book_view_with_side by done. unfold vb_remove.
  specialize (Hrest (other_side A s) Hoth HnO).
  unfold other_side in Hrest.
  by apply valid_side_cases in Hv as [-> | ->]; simpl in *; rewrite Hs, Hrest.
Qed.

Lemma view_resize_order A s P l S X o Y q :
  located A s P l S X o Y → NoDup (ao_id <$> all_orders A) →
  book_view (resize_order A s P l S X o Y q) = vb_resize (ao_id o) q (book_view A).
Proof.
  intros Hloc Hnd.
  destruct (located_ids _ _ _ _ _ _ _ _ Hloc Hnd) as (HnP & HnS & HnX & HnY & HnO).
  destruct Hloc as [Hv Hl Ho].
  assert (∀ L, ao_id o ∉ (ao_id <$> orders_in L) →
    v_resize (ao_id o) q (view L) = view L) as Hrest.
  { intros L Hn. apply v_resize_notin. by rewrite v_ids_view. }
  assert (v_resize (ao_id o) q (view (side_of A s))
          = view (P ++ with_orders l (X ++ with_qty q o :: Y) :: S)) as Hs.
  { rewrite Hl, !view_app, v_resize_app, Hrest by done. f_equal.
    change (view (l :: S)) with (view_level l :: view S).
    rewrite v_resize_cons, Hrest by done. cbn [fst snd view_level].
    rewrite Ho, fmap_app, fmap_cons. change (view_order o) with (ao_id o, ao_qty o).
    rewrite q_resize_split by done. unfold view at 2. rewrite fmap_cons. f_equal.
    unfold view_level; simpl. by rewrite fmap_app. }
  unfold resize_order. rewrite book_view_with_side by done. unfold vb_resize.
  specialize (Hrest (other_side A s) HnO).
  unfold other_side in Hrest.
  by apply valid_side_cases in Hv as [-> | ->]; simpl in *; rewrite Hs, Hrest.
Qed.

(** * The operations *)

Section Ops.
Context (ndebug : bool) {OM LM : Type} `{TO : Table Z Z OM} `{TL : Table Z Z LM}
  {OML : TableLaws Z Z OM} {LML : TableLaws Z Z LM}.
Implicit Types (b : OrderBook OM LM) (A : abook) (F : list Z).
Abbreviation orders_ok := (orders_ok (OM := OM) (LM := LM) ndebug).
Abbreviation levels_ok := (levels_ok (OM := OM) (LM := LM) ndebug).
Context (lo : Z).
Abbreviation book_rep := (book_rep (OM := OM) (LM := LM) ndebug lo).

Lemma orders_ok_set_map b A F om : orders_ok b A F → orders_ok (with_order_map b om) A F.
Proof. by intros []. Qed.

Lemma levels_ok_set_map b A om : levels_ok b A → levels_ok (with_order_map b om) A.
Proof. by intros []. Qed.

(** What the order table answers. *)
Lemma find_order b A id :
  book_rep b A →
  (id ∉ (ao_id <$> all_orders A) ∧ tbl_find (order_map_ b) id = Some None) ∨
  (∃ s P l S X o Y, located A s P l S X o Y ∧ ao_id o = id ∧
     tbl_find (order_map_ b) id = Some (Some (ao_slot o))).
Proof.
  intros [(Ho & Hl & Hwf) Hne Hq Hids Hmap]. rewrite tbl_find_spec, Hmap by done.
  destruct (decide (id ∈ (ao_id <$> all_orders A))) as [Hin | Hni].
  - right. apply list_elem_of_fmap in Hin as (o & -> & Hin).
    destruct (locate A o Hin) as (s & P & l & S & X & Y & Hloc).
    exists s, P, l, S, X, o, Y. split; [done |]. split; [done |].
    by rewrite order_entries_In.
  - left. split; [done |]. by rewrite order_entries_none.
Qed.

(** ** Leaving the book *)

(** The order is off its level, and its level is gone if it became empty. *)
Lemma unlink_spec b A s P l S X o Y :
  book_rep b A → located A s P l S X o Y →
  ∃ b1 b2 lv, take_from_level b (ao_slot o) = Some (b1, al_slot l) ∧
    get_level b1 (al_slot l) = Some lv ∧
    (if bool_decide (orders lv = []) then remove_level ndebug b1 (al_slot l) else Some b1) = Some b2 ∧
    orders_ok b2 (drop_order A s P l S X Y) [ao_slot o] ∧
    levels_ok b2 (drop_order A s P l S X Y) ∧
    order_map_ b2 = order_map_ b.
Proof.
  intros [(Ho & Hl & Hwf) Hne Hq Hids Hmap] [Hv Hside Hos].
  destruct (take_from_level_spec ndebug b A s P l S [] X o Y Hv Hside Hos Ho Hl)
    as (b1 & E1 & Ho1 & Hl1 & Hg1 & Hm1).
  set (A1 := with_side A s (P ++ with_orders l (X ++ Y) :: S)) in *.
  assert (side_of A1 s = P ++ with_orders l (X ++ Y) :: S) as Hside1 by (by apply side_of_with_side).
  assert (get_level b1 (al_slot l) = Some (level_image s (with_orders l (X ++ Y)))) as Hg.
  { apply (get_level_focus ndebug _ A1 s (with_orders l (X ++ Y)) Hl1). rewrite Hside1. set_solver. }
  exists b1. unfold drop_order, keep_level. destruct (X ++ Y) as [| x XY] eqn:HXY.
  - destruct (remove_level_spec ndebug b1 A1 s P (with_orders l []) S Hv Hside1 eq_refl Hl1)
      as (b2 & E2 & Hl2 & Hs2).
    exists b2, (level_image s (with_orders l [])). simpl in E2 |- *.
    unfold A1 in Hl2. rewrite with_side_twice in Hl2.
    split; [done |]. split; [done |]. split; [done |]. split; [| split; [done |]].
    + eapply orders_ok_frame; [exact Hs2 | | | exact Ho1].
      * unfold A1. rewrite !all_orders_with_side by done. by rewrite !orders_in_app.
      * intros s' l' o' Hl' Ho'. exists l'. split; [| done].
        unfold A1. destruct (decide (s' = s)) as [-> | ?].
        -- rewrite side_of_with_side in * by done. set_solver.
        -- by rewrite side_of_with_side_ne in *.
    + destruct Hs2. congruence.
  - exists b1, (level_image s (with_orders l (x :: XY))). simpl.
    repeat (split; [done |]). done.
Qed.

Lemma book_rep_drop b b' A s P l S X o Y :
  book_rep b A → located A s P l S X o Y →
  orders_ok b' (drop_order A s P l S X Y) [] → levels_ok b' (drop_order A s P l S X Y) →
  tbl_wf (order_map_ b') → tbl_map (order_map_ b') = delete (ao_id o) (tbl_map (order_map_ b)) →
  book_rep b' (drop_order A s P l S X Y).
Proof.
  intros [Hc Hne Hq Hids Hmap] Hloc Ho' Hl' Hwf' Hmap'.
  pose proof (all_orders_located _ _ _ _ _ _ _ _ Hloc) as Hp. split.
  - done.
  - by eapply drop_nonempty.
  - intros x Hx. apply Hq. rewrite Hp. by right.
  - rewrite Hp, fmap_cons in Hids. by apply nodup_cons in Hids as [_ ?].
  - rewrite Hmap', Hmap. by apply order_entries_delete.
Qed.

(** The common path of [cancel_order] and [modify_order(id, 0)]. *)
Lemma leave_spec b A s P l S X o Y :
  book_rep b A → located A s P l S X o Y →
  ∃ b1 lv b2 om e b3, take_from_level b (ao_slot o) = Some (b1, al_slot l) ∧
    get_level b1 (al_slot l) = Some lv ∧
    (if bool_decide (orders lv = []) then remove_level ndebug b1 (al_slot l) else Some b1) = Some b2 ∧
    tbl_erase (order_map_ b2) (ao_id o) = Some (om, e) ∧
    free_order ndebug (with_order_map b2 om) (ao_slot o) = Some b3 ∧
    book_rep b3 (drop_order A s P l S X Y).
Proof.
  intros Hrep Hloc.
  destruct (unlink_spec b A s P l S X o Y Hrep Hloc)
    as (b1 & b2 & lv & E1 & Hlv & E2 & Ho2 & Hl2 & Hm2).
  assert (tbl_wf (order_map_ b)) as Hwf by apply Hrep.
  destruct (tbl_erase_spec (order_map_ b) (ao_id o) Hwf) as (om & Ee & Hwf' & Hmap').
  destruct (free_order_spec ndebug (with_order_map b2 om) (drop_order A s P l S X Y) [] (ao_slot o))
    as (b3 & Ef & Ho3 & Hs3 & Hm3); [by apply orders_ok_set_map |].
  eexists b1, lv, b2, om, _, b3. rewrite Hm2. repeat (split; [done |]).
  eapply book_rep_drop; [exact Hrep | exact Hloc | done | | by rewrite Hm3 | by rewrite Hm3].
  eapply levels_ok_frame; [exact Hs3 |]. by apply levels_ok_set_map.
Qed.

Lemma cancel_order_rep b A id :
  book_rep b A →
  (id ∉ (ao_id <$> all_orders A) ∧ cancel_order ndebug b id = Some (b, false)) ∨
  (∃ s P l S X o Y b', located A s P l S X o Y ∧ ao_id o = id ∧
     cancel_order ndebug b id = Some (b', true) ∧ book_rep b' (drop_order A s P l S X Y)).
Proof.
  intros Hrep. unfold cancel_order.
  destruct (find_order b A id Hrep) as [[Hni ->] | (s & P & l & S & X & o & Y & Hloc & <- & ->)];
    [by left | right]. simpl.
  destruct (leave_spec b A s P l S X o Y Hrep Hloc)
    as (b1 & lv & b2 & om & e & b3 & -> & Hlv & E2 & E3 & E4 & Hrep'). simpl.
  rewrite Hlv; simpl. rewrite E2; simpl. rewrite E3; simpl. rewrite E4; simpl.
  by exists s, P, l, S, X, o, Y, b3.
Qed.

(** ** Modification *)

Lemma book_rep_resize b b' A s P l S X o Y q :
  book_rep b A → located A s P l S X o Y → lo <= q < 2 ^ 32 →
  orders_ok b' (resize_order A s P l S X o Y q) [] →
  levels_ok b' (resize_order A s P l S X o Y q) →
  order_map_ b' = order_map_ b → book_rep b' (resize_order A s P l S X o Y q).
Proof.
  intros [(Ho & Hl & Hwf) Hne Hq Hids Hmap] Hloc Hqq Ho' Hl' Hm'.
  pose proof (all_orders_located _ _ _ _ _ _ _ _ Hloc) as Hp.
  pose proof (all_orders_resize _ _ _ _ _ _ _ _ Hloc q) as Hp'. split.
  - split; [done |]. split; [done |]. by rewrite Hm'.
  - intros x. unfold resize_order. destruct Hloc as [Hv Hs Hos].
    rewrite levels_with_side by done. rewrite elem_of_app, elem_of_app, elem_of_cons.
    intros [[Hx | [-> | Hx]] | Hx]; simpl;
      [| by destruct X | |]; apply Hne; rewrite (levels_split A s), Hs by done; set_solver.
  - intros x. rewrite Hp'. intros [-> | Hx]%elem_of_cons; [done |].
    apply Hq. rewrite Hp. by right.
  - rewrite Hp', fmap_cons. by rewrite Hp, fmap_cons in Hids.
  - rewrite Hm', Hmap. rewrite (order_entries_perm _ _ Hids Hp).
    symmetry. transitivity (order_entries (with_qty q o :: all_orders (drop_order A s P l S X Y))).
    + apply order_entries_perm; [| done]. rewrite Hp', fmap_cons. by rewrite Hp, fmap_cons in Hids.
    + done.
Qed.

Lemma located_image b A s P l S X o Y :
  book_rep b A → located A s P l S X o Y →
  get_order b (ao_slot o) = Some (order_image s l o).
Proof. intros [(Ho & _) _ _ _ _] []. by eapply order_in_focus. Qed.

Lemma modify_order_rep b A id q :
  lo <= 1 → book_rep b A → is_u32 q →
  (id ∉ (ao_id <$> all_orders A) ∧ modify_order ndebug b id q = Some (b, false)) ∨
  (∃ s P l S X o Y, located A s P l S X o Y ∧ ao_id o = id ∧
     if bool_decide (q >= ao_qty o) then modify_order ndebug b id q = Some (b, false)
     else ∃ b', modify_order ndebug b id q = Some (b', true) ∧
            book_rep b' (if bool_decide (q = 0) then drop_order A s P l S X Y
                         else resize_order A s P l S X o Y q)).
Proof.
  intros Hlo Hrep Hqr. unfold modify_order.
  destruct (find_order b A id Hrep) as [[Hni ->] | (s & P & l & S & X & o & Y & Hloc & <- & ->)];
    [by left | right].
  exists s, P, l, S, X, o, Y. split; [done |]. split; [done |]. simpl.
  rewrite (located_image _ _ _ _ _ _ _ _ _ Hrep Hloc). simpl.
  destruct (bool_decide (q >= ao_qty o)) eqn:Hge; [done |]. apply bool_decide_eq_false in Hge.
  destruct (bool_decide (q = 0)) eqn:Hz.
  - destruct (leave_spec b A s P l S X o Y Hrep Hloc)
      as (b1 & lv & b2 & om & e & b3 & -> & Hlv & E2 & E3 & E4 & Hrep'). simpl.
    rewrite Hlv; simpl. rewrite E2; simpl. rewrite E3; simpl. rewrite E4; simpl. by exists b3.
  - apply bool_decide_eq_false in Hz. pose proof Hloc as [Hv Hs Hos].
    pose proof Hrep as [(Ho & Hl & Hwf) _ _ _ _].
    destruct (resize_spec ndebug b A s P l S [] X o Y q (ao_qty o - q) Hv Hs Hos Ho Hl eq_refl)
      as (b1 & b2 & -> & E2 & Ho2 & Hl2 & Hg1 & Hg2 & Hm2). simpl. rewrite E2; simpl.
    exists b2. split; [done |]. eapply book_rep_resize; try done. mlia.
Qed.

(** ** A filled order *)

Lemma remove_filled_order_rep b A s P l S X o Y :
  book_rep b A → located A s P l S X o Y →
  ∃ b', remove_filled_order ndebug b (ao_slot o)
        = Some (b', bool_decide (X ++ Y = [])) ∧
    book_rep b' (drop_order A s P l S X Y).
Proof.
  intros Hrep Hloc. pose proof Hloc as [Hv Hside Hos].
  pose proof Hrep as [(Ho & Hl & Hwf) _ _ _ _].
  destruct (take_from_level_spec ndebug b A s P l S [] X o Y Hv Hside Hos Ho Hl)
    as (b1 & E1 & Ho1 & Hl1 & Hg1 & Hm1).
  set (A1 := with_side A s (P ++ with_orders l (X ++ Y) :: S)) in *.
  assert (side_of A1 s = P ++ with_orders l (X ++ Y) :: S) as Hside1 by (by apply side_of_with_side).
  unfold remove_filled_order. rewrite E1; simpl. rewrite Hg1; simpl. rewrite Hm1.
  destruct (tbl_erase_spec (order_map_ b) (ao_id o) Hwf) as (om & -> & Hwf' & Hmap'). simpl.
  destruct (free_order_spec ndebug (with_order_map b1 om) A1 [] (ao_slot o))
    as (b2 & -> & Ho2 & Hs2 & Hm2); [by apply orders_ok_set_map |]. simpl.
  assert (levels_ok b2 A1) as Hl2.
  { eapply levels_ok_frame; [exact Hs2 |]. by apply levels_ok_set_map. }
  assert (get_level b2 (al_slot l) = Some (level_image s (with_orders l (X ++ Y)))) as ->.
  { apply (get_level_focus ndebug _ A1 s (with_orders l (X ++ Y)) Hl2). rewrite Hside1. set_solver. }
  simpl. destruct (X ++ Y) as [| x XY] eqn:HXY.
  - destruct (remove_level_spec ndebug b2 A1 s P (with_orders l []) S Hv Hside1 eq_refl Hl2)
      as (b3 & E3 & Hl3 & Hs3).
    simpl in E3 |- *. rewrite E3; simpl. exists b3. split; [done |].
    assert (drop_order A s P l S X Y = with_side A s (P ++ S)) as Hd.
    { unfold drop_order. by rewrite HXY. }
    eapply book_rep_drop; [exact Hrep | exact Hloc | | | | ]; rewrite ?Hd.
    + eapply orders_ok_frame; [exact Hs3 | | | exact Ho2].
      * unfold A1. rewrite !all_orders_with_side by done. by rewrite !orders_in_app.
      * intros s' l' o' Hl' Ho'. exists l'. split; [| done].
        unfold A1. destruct (decide (s' = s)) as [-> | ?].
        -- rewrite side_of_with_side in * by done. set_solver.
        -- by rewrite side_of_with_side_ne in *.
    + unfold A1 in Hl3. by rewrite with_side_twice in Hl3.
    + destruct Hs3 as [_ _ _ ->]. by rewrite Hm2.
    + destruct Hs3 as [_ _ _ ->]. by rewrite Hm2.
  - simpl. exists b2. split; [done |].
    assert (drop_order A s P l S X Y = A1) as Hd.
    { unfold drop_order, A1. by rewrite HXY. }
    eapply book_rep_drop; [exact Hrep | exact Hloc | | | | ]; rewrite ?Hd; try done; by rewrite Hm2.
Qed.
(** ** Entering the book *)

(** Why a new order may be refused. *)
Definition add_refused b A (id : Z) (s : Side) (p q : Z) : Prop :=
  q = 0 ∨ id ∈ (ao_id <$> all_orders A) ∨
  IFS.free_list (order_free_ b) = [] ∨
  (∃ o, tbl_insert (order_map_ b) id o = Some (order_map_ b, false)) ∨
  (p ∉ (al_price <$> side_of A s) ∧ level_refused b s p).

Lemma level_refused_same b b' s p :
  same_levels b b' → level_refused b' s p → level_refused b s p.
Proof.
  intros [S1 S2 S3 S4 S5 S6 S7] [Hr | (lm & l & Hlm & Hins)].
  - left. congruence.
  - right. exists lm, l. split; [| done]. rewrite <- Hlm. unfold get_level_map. by rewrite S6, S7.
Qed.

(** The order goes to the back of level [l], which may have just been
    created, of the book [A1]. *)
Lemma book_rep_enqueue b b' A A1 s P l S ao :
  book_rep b A → valid_side s = true → side_of A1 s = P ++ l :: S →
  all_orders A1 ≡ₚ all_orders A →
  (∀ x, x ∈ rest_levels A1 s P S → al_orders x ≠ []) →
  lo <= ao_qty ao < 2 ^ 32 → ao_id ao ∉ (ao_id <$> all_orders A) →
  let A' := with_side A1 s (P ++ with_orders l (al_orders l ++ [ao]) :: S) in
  orders_ok b' A' [] → levels_ok b' A' → tbl_wf (order_map_ b') →
  tbl_map (order_map_ b') = <[ao_id ao := ao_slot ao]> (tbl_map (order_map_ b)) →
  book_rep b' A'.
Proof.
  intros [(Ho & Hl & Hwf) Hne Hq Hids Hmap] Hv Hside Hall Hrest Hqa Hfresh A' Ho' Hl' Hwf' Hmap'.
  assert (all_orders A' ≡ₚ ao :: all_orders A) as Hp.
  { rewrite <- Hall, (all_orders_focus A1 s P S l Hv Hside). unfold A'.
    rewrite (all_orders_set A1 s P S Hv). simpl. rewrite <- app_assoc. simpl.
    by rewrite <- Permutation_middle. }
  assert (NoDup (ao_id <$> all_orders A')) as Hnd.
  { rewrite Hp, fmap_cons. by apply nodup_cons. }
  split; [done | | | done |].
  - intros x. unfold A'. rewrite (levels_set A1 s P S Hv). intros [-> | Hx]%elem_of_cons.
    + simpl. by destruct (al_orders l).
    + by apply Hrest.
  - intros x. rewrite Hp. intros [-> | Hx]%elem_of_cons; auto.
  - by rewrite Hmap', Hmap, (order_entries_perm _ _ Hnd Hp).
Qed.

Lemma get_flight b A F o r :
  orders_ok b A (o :: F) → get_order b o = Some r → linked r = false.
Proof.
  intros Hok Hr. destruct (orders_ok_flight_get ndebug _ _ _ o Hok) as (r' & Hr' & ?); [left |].
  congruence.
Qed.

(** The level an order of price [p] will join, found or created. *)
Lemma target_level_spec b A F s p :
  valid_side s = true → orders_ok b A F → levels_ok b A →
  (∀ x, x ∈ levels A → al_orders x ≠ []) →
  (∃ b', find_or_create_level ndebug b s p = Some (b', None) ∧
     orders_ok b' A F ∧ levels_ok b' A ∧ same_orders b b' ∧
     p ∉ (al_price <$> side_of A s) ∧ level_refused b s p) ∨
  (∃ b' A1 P l S, find_or_create_level ndebug b s p = Some (b', Some (al_slot l)) ∧
     orders_ok b' A1 F ∧ levels_ok b' A1 ∧ same_orders b b' ∧
     side_of A1 s = P ++ l :: S ∧ al_price l = p ∧ all_orders A1 ≡ₚ all_orders A ∧
     (∀ x, x ∈ rest_levels A1 s P S → al_orders x ≠ []) ∧
     (∀ s', s' ≠ s → side_of A1 s' = side_of A s') ∧
     ∀ id q, v_add s p id q (view (side_of A s))
             = view P ++ (p, (view_order <$> al_orders l) ++ [(id, q)]) :: view S).
Proof.
  intros Hv Ho Hl Hne.
  assert (∀ A1 P l S, side_of A1 s = P ++ l :: S → ∀ x, x ∈ rest_levels A1 s P S → x ∈ levels A1) as Hr.
  { intros A1 P l S Hs x Hx. rewrite (levels_focus A1 s P S l Hv Hs). by right. }
  destruct (find_or_create_level_spec ndebug b A s p Hv Hl)
    as [(P & l & S & Hside & Hp & E) | [(Hni & b' & E & Hl' & Hs & Href) | (Hni & b' & sl & E & Hadd)]].
  - right. exists b, A, P, l, S. repeat (split; [first [done | apply same_orders_refl] |]).
    split; [intros x Hx; apply Hne; by eapply Hr |]. split; [done |]. intros id q.
    rewrite Hside. apply v_add_found; [done | | done]. rewrite <- Hside. apply Hl.
  - left. exists b'. split; [done |]. split; [| done].
    eapply orders_ok_frame; [exact Hs | done | | exact Ho]. intros s' l' o' ? ?. by exists l'.
  - right. set (l := {| al_slot := sl; al_price := p; al_orders := [] |}) in *.
    destruct Hadd as (P & S & Hside & _ & Hpl & Hl' & Hs).
    exists b', (with_side A s (P ++ l :: S)), P, l, S. split; [done |].
    assert (all_orders (with_side A s (P ++ l :: S)) ≡ₚ all_orders A) as Hall.
    { rewrite all_orders_with_side, (all_orders_split A s), Hside by done.
      by rewrite !orders_in_app. }
    split.
    { eapply orders_ok_frame; [exact Hs | done | | exact Ho].
      intros s' l' o' Hl'' Ho'. exists l'. split; [| done].
      destruct (decide (s' = s)) as [-> | ?].
      - rewrite side_of_with_side in Hl'' by done. rewrite Hside.
        apply elem_of_app in Hl'' as [? | [-> | ?]%elem_of_cons];
          [set_solver | by apply elem_of_nil in Ho' | set_solver].
      - by rewrite side_of_with_side_ne in Hl''. }
    split; [done |]. split; [done |]. split; [by apply side_of_with_side |].
    split; [done |]. split; [done |]. split; [| split].
    + unfold rest_levels. rewrite other_with_side by done. intros x Hx. apply Hne.
      rewrite (levels_split A s), Hside by done. rewrite <- app_assoc. done.
    + intros s' Hs'. by apply side_of_with_side_ne.
    + intros id q. rewrite Hside in Hni, Hpl |- *.
      rewrite (v_add_new s p id q l P S); done.
Qed.

Lemma add_order_rep b A id s p q :
  lo <= 1 → book_rep b A → valid_side s = true → is_u32 q →
  (∃ b', add_order ndebug b id s p q = Some (b', false) ∧ book_rep b' A ∧
     add_refused b A id s p q) ∨
  (∃ b' A', add_order ndebug b id s p q = Some (b', true) ∧ book_rep b' A' ∧
     q ≠ 0 ∧ id ∉ (ao_id <$> all_orders A) ∧
     book_view A' = vb_add s p id q (book_view A)).
Proof.
  intros Hlo Hrep Hv Hq. unfold add_order, add_refused.
  destruct (bool_decide (q = 0)) eqn:Hz.
  { apply bool_decide_eq_true in Hz. left. exists b. split; [done |]. split; [done | by left]. }
  apply bool_decide_eq_false in Hz.
  destruct (find_order b A id Hrep) as [[Hni ->] | (s' & P & l & S & X & o & Y & Hloc & Hid & ->)];
    cbn [mbind option_bind]; simpl.
  2:{ left. exists b. split; [done |]. split; [done |]. right; left. rewrite <- Hid.
      apply list_elem_of_fmap_2. by eapply located_in. }
  pose proof Hrep as [(Ho & Hl & Hwf) Hne Hqq Hids Hmap].
  pose proof (alloc_order_spec ndebug b A [] Ho) as Halloc.
  destruct (IFS.free_list (order_free_ b)) as [| o rest] eqn:Hfl.
  { rewrite Halloc. simpl. left. exists b. split; [done |]. split; [done |]. tauto. }
  destruct Halloc as (b1 & -> & Ho1 & Hs1 & Hm1 & _). simpl.
  destruct (orders_ok_flight_get ndebug _ _ _ o Ho1) as (r & Hr & Hlk); [left |].
  destruct (upd_order_spec b1 o (set_terms id p q s) r Hr) as (b2 & -> & Hf2 & Hg2 & Hs2 & Hm2). simpl.
  assert (orders_ok b2 A [o]) as Ho2 by (by eapply orders_ok_flight).
  assert (same_levels b b2) as Hs12 by (by eapply same_levels_trans).
  assert (levels_ok b2 A) as Hl2 by (by eapply levels_ok_frame).
  rewrite Hm2, Hm1. destruct (tbl_insert_spec (order_map_ b) id o Hwf) as (om & ins & Hins & Hwf' & Hres).
  rewrite Hins. simpl. destruct ins; simpl.
  2:{ subst om. destruct (free_order_spec ndebug (with_order_map b2 (order_map_ b)) A [] o)
        as (b3 & -> & Ho3 & Hs3 & Hm3); [by apply orders_ok_set_map |]. simpl.
      left. exists b3. split; [done |]. split.
      - split; try done; [| by rewrite Hm3]. split; [done |]. split; [| by rewrite Hm3].
        eapply levels_ok_frame; [exact Hs3 |]. by apply levels_ok_set_map.
      - right; right; right; left. by exists o. }
  destruct Hres as [Hnone Hmap'].
  destruct (target_level_spec (with_order_map b2 om) A [o] s p Hv
              (orders_ok_set_map _ _ _ _ Ho2) (levels_ok_set_map _ _ _ Hl2) Hne)
    as [(b3 & -> & Ho3 & Hl3 & Hs3 & Hnp & Href)
       | (b3 & A1 & P & l & S & -> & Ho3 & Hl3 & Hs3 & Hside & Hp & Hall & Hrest & Hoth & Hview)]; simpl.
  - left. destruct Hs3 as [Hsl3 Hfr3 Hmx3 Hmp3]. rewrite Hmp3. simpl.
    destruct (tbl_erase_spec om id Hwf') as (om' & -> & Hwf'' & Hmap''). simpl.
    destruct (free_order_spec ndebug (with_order_map b3 om') A [] o)
      as (b4 & -> & Ho4 & Hs4 & Hm4); [by apply orders_ok_set_map |]. simpl.
    exists b4. split; [done |]. split.
    + split; try done.
      * split; [done |]. split; [| by rewrite Hm4].
        eapply levels_ok_frame; [exact Hs4 |]. by apply levels_ok_set_map.
      * rewrite Hm4. simpl. rewrite Hmap'', Hmap', <- Hmap. by rewrite delete_insert_id.
    + do 4 right. split; [done |]. eapply level_refused_same; [| exact Href]. by destruct Hs12.
  - right. set (ao := {| ao_slot := o; ao_id := id; ao_qty := q |}).
    assert (get_order b3 (ao_slot ao) = Some (set_terms id p q s r)) as Hg3.
    { by rewrite (same_orders_get _ _ _ Hs3). }
    destruct (enqueue_spec ndebug b3 A1 s P l S [] ao (set_terms id p q s r))
      as (b4 & b5 & b6 & E4 & E5 & E6 & Ho6 & Hl6 & Hm6); try done.
    { unfold order_image, set_linked, set_level, set_terms; simpl. by rewrite Hp. }
    simpl in E4, E5, E6. rewrite E4; simpl. rewrite E5; simpl. rewrite E6; simpl.
    destruct Hs3 as [Hsl3 Hfr3 Hmx3 Hmp3]. simpl in Hmp3.
    eexists b6, _. split; [done |]. split; [| split; [done | split; [done |]]].
    + eapply (book_rep_enqueue b b6 A A1 s P l S ao); try done.
      * simpl. mlia.
      * by rewrite Hm6, Hmp3.
      * by rewrite Hm6, Hmp3.
    + rewrite book_view_with_side by done. unfold vb_add. rewrite v_side_view, Hview.
      rewrite view_app. change (view (?x :: S)) with (view_level x :: view S).
      unfold view_level at 1; simpl. rewrite fmap_app, Hp. simpl.
      apply valid_side_cases in Hv as [-> | ->]; simpl.
      * specialize (Hoth kAsk ltac:(done)). simpl in Hoth. by rewrite Hoth.
      * specialize (Hoth kBid ltac:(done)). simpl in Hoth. by rewrite Hoth.
Qed.
End Ops.

(** ** Well-formed views *)

Lemma better_betterb s p p' : valid_side s = true → better s p p' ↔ betterb s p p' = true.
Proof.
  by intros [-> | ->]%valid_side_cases; unfold betterb; simpl; rewrite bool_decide_eq_true; lia.
Qed.

Lemma view_prices L : (view L).*1 = al_price <$> L.
Proof. unfold view. by rewrite <- list_fmap_compose. Qed.

Lemma view_wf s L :
  valid_side s = true → side_sorted s L →
  (∀ l, l ∈ L → al_orders l ≠ []) → (∀ o, o ∈ orders_in L → 1 <= ao_qty o) → v_wf s (view L).
Proof.
  intros Hv Hs Hne Hq. split.
  - rewrite view_prices. unfold side_sorted in Hs.
    induction Hs as [| p ps Hs IH Hf]; constructor; [done |].
    eapply List.Forall_impl; [| exact Hf]. intros p'. by apply better_betterb.
  - intros p os (l & [= -> ->] & Hl)%list_elem_of_fmap. split.
    + intros Hc. apply (Hne l Hl). by destruct (al_orders l).
    + intros o (x & -> & Hx)%list_elem_of_fmap. simpl.
      enough (1 <= ao_qty x) by lia. apply Hq, elem_of_orders_in. by exists l.
Qed.

Lemma q_find_view os id :
  q_find id (view_order <$> os) = None ∧ id ∉ (ao_id <$> os) ∨
  ∃ o, o ∈ os ∧ ao_id o = id ∧ q_find id (view_order <$> os) = Some (ao_qty o).
Proof.
  induction os as [| o os IH]; [left; split; [done | by apply not_elem_of_nil] |].
  rewrite !fmap_cons. cbn [q_find view_order fst snd]. case_bool_decide as Hid.
  - right. exists o. split; [left | done].
  - destruct IH as [[-> Hn] | (o' & Ho' & Hid' & ->)].
    + left. split; [done |]. by apply not_elem_of_cons.
    + right. exists o'. split; [by right | done].
Qed.

Lemma q_find_In os o :
  NoDup (ao_id <$> os) → o ∈ os → q_find (ao_id o) (view_order <$> os) = Some (ao_qty o).
Proof.
  induction os as [| o' os IH]; intros Hnd Ho; [by apply elem_of_nil in Ho |].
  rewrite !fmap_cons. cbn [q_find view_order fst snd].
  apply nodup_cons in Hnd as [Hni Hnd].
  apply elem_of_cons in Ho as [-> | Ho]; [by rewrite bool_decide_true |].
  rewrite bool_decide_false; [by apply IH |]. intros Heq. apply Hni. rewrite Heq.
  by apply list_elem_of_fmap_2.
Qed.

Lemma v_lookup_none p V : p ∉ V.*1 → v_lookup p V = [].
Proof.
  induction V as [| [p' os] V IH]; intros Hn; [done |]. simpl in *.
  apply not_elem_of_cons in Hn as [Hne Hn]. rewrite bool_decide_false by done. by apply IH.
Qed.

Lemma v_lookup_view L l :
  NoDup (al_price <$> L) → l ∈ L →
  v_lookup (al_price l) (view L) = view_order <$> al_orders l.
Proof.
  induction L as [| x L IH]; intros Hnd Hl; [by apply elem_of_nil in Hl |]. simpl.
  apply nodup_cons in Hnd as [Hni Hnd].
  apply elem_of_cons in Hl as [-> | Hl]; [by rewrite bool_decide_true |].
  rewrite bool_decide_false; [by apply IH |]. intros Heq. apply Hni. rewrite Heq.
  by apply list_elem_of_fmap_2.
Qed.

Section Correct.
Context (ndebug : bool) {OM LM : Type} `{TO : Table Z Z OM} `{TL : Table Z Z LM}
  {OML : TableLaws Z Z OM} {LML : TableLaws Z Z LM}.
Implicit Types (b : OrderBook OM LM) (v : vbook).
Abbreviation book_rep := (book_rep (OM := OM) (LM := LM) ndebug).

(** The concrete book [b] stands for the abstract book [v]. *)
Definition represents b v : Prop := ∃ A, book_rep 1 b A ∧ book_view A = v.

Lemma represents_wf_aux b v : represents b v → vb_wf v.
Proof.
  intros (A & [(Ho & Hl & Hwf) Hne Hq Hids Hmap] & <-).
  assert (∀ s, valid_side s = true → v_wf s (view (side_of A s))) as Hw.
  { intros s Hv. apply view_wf; [done | apply Hl | |].
    - intros l Hin. apply Hne. rewrite (levels_split A s Hv). set_solver.
    - intros o Hin. apply Hq. rewrite (all_orders_split A s Hv). set_solver. }
  split; [by apply (Hw kBid) | by apply (Hw kAsk) | by rewrite vb_ids_view].
Qed.

(** ** Queries *)

Lemma level_lookup b A s p :
  book_rep 1 b A → valid_side s = true →
  ∃ lm, side_index s ≫= get_level_map b = Some lm ∧
    tbl_find lm p = Some (level_entries (side_of A s) !! p).
Proof.
  intros [(Ho & Hl & Hwf) _ _ _ _] Hv. rewrite side_index_valid by done. simpl.
  destruct (lo_map _ _ _ Hl s Hv) as (lm & -> & Hlwf & Hm). exists lm. split; [done |].
  by rewrite tbl_find_spec, Hm by done.
Qed.

Lemma best_view b A s :
  book_rep 1 b A → valid_side s = true →
  match ladder b s with
  | [] => v_best (view (side_of A s)) = None
  | l :: _ => ∃ lv, get_level b l = Some lv ∧ v_best (view (side_of A s)) = Some (pl_price lv)
  end.
Proof.
  intros [(Ho & Hl & Hwf) _ _ _ _] Hv. rewrite (lo_ladder _ _ _ Hl s Hv).
  destruct (side_of A s) as [| l L] eqn:Hs; [done |]. simpl.
  exists (level_image s l). split; [| done]. apply (lo_slot _ _ _ Hl). rewrite Hs. left.
Qed.

Lemma best_bid_eq b v : represents b v → best_bid b = Some (v_best (v_bids v)).
Proof.
  intros (A & Hrep & <-). pose proof (best_view b A kBid Hrep eq_refl) as Hb.
  unfold best_bid. simpl in *. unfold ladder in Hb. simpl in Hb.
  destruct (bids_ b) as [| l lad]; [by rewrite Hb |].
  destruct Hb as (lv & -> & ->). done.
Qed.

Lemma best_ask_eq b v : represents b v → best_ask b = Some (v_best (v_asks v)).
Proof.
  intros (A & Hrep & <-). pose proof (best_view b A kAsk Hrep eq_refl) as Hb.
  unfold best_ask. simpl in *. unfold ladder in Hb. simpl in Hb.
  destruct (asks_ b) as [| l lad]; [by rewrite Hb |].
  destruct Hb as (lv & -> & ->). done.
Qed.

Lemma order_qty_eq b v id : represents b v → order_qty b id = Some (default 0 (vb_qty id v)).
Proof.
  intros (A & Hrep & <-). unfold order_qty, vb_qty. rewrite vb_orders_view.
  destruct (find_order ndebug 1 b A id Hrep)
    as [[Hni ->] | (s & P & l & S & X & o & Y & Hloc & <- & ->)]; simpl.
  - destruct (q_find_view (all_orders A) id) as [[-> _] | (o & Ho & <- & _)]; [done |].
    destruct Hni. by apply list_elem_of_fmap_2.
  - rewrite (located_image _ _ _ _ _ _ _ _ _ _ _ Hrep Hloc). simpl.
    rewrite q_find_In; [done | apply Hrep | by eapply located_in].
Qed.

Lemma has_order_eq b v id : represents b v → has_order b id = Some (bool_decide (id ∈ vb_ids v)).
Proof.
  intros (A & Hrep & <-). unfold has_order. rewrite vb_ids_view.
  destruct (find_order ndebug 1 b A id Hrep)
    as [[Hni ->] | (s & P & l & S & X & o & Y & Hloc & <- & ->)]; simpl; f_equal.
  - symmetry. by apply bool_decide_eq_false.
  - symmetry. apply bool_decide_eq_true. apply list_elem_of_fmap_2. by eapply located_in.
Qed.

(** The level of a price, as the queries see it. *)
Lemma level_at b A s p :
  book_rep 1 b A → valid_side s = true →
  (level_entries (side_of A s) !! p = None ∧ v_lookup p (view (side_of A s)) = []) ∨
  (∃ l, level_entries (side_of A s) !! p = Some (al_slot l) ∧
     get_level b (al_slot l) = Some (level_image s l) ∧
     v_lookup p (view (side_of A s)) = view_order <$> al_orders l).
Proof.
  intros [(Ho & Hl & Hwf) _ _ _ _] Hv.
  destruct (lookup_level ndebug b A s p Hl Hv) as [(P & l & S & Hside & <- & ->) | [Hni ->]].
  - right. exists l. split; [done |]. split.
    + apply (lo_slot _ _ _ Hl). rewrite Hside. set_solver.
    + apply v_lookup_view; [by eapply side_sorted_nodup, Hl | rewrite Hside; set_solver].
  - left. split; [done |]. apply v_lookup_none. by rewrite view_prices.
Qed.

Lemma volume_at_level_eq b v s p :
  represents b v → valid_side s = true →
  volume_at_level b s p = Some (u32 (v_volume (v_lookup p (v_side v s)))).
Proof.
  intros (A & Hrep & <-) Hv. unfold volume_at_level. rewrite v_side_view.
  destruct (level_lookup b A s p Hrep Hv) as (lm & Hlm & Hf).
  rewrite side_index_valid in * by done. simpl in *. rewrite Hlm; simpl. rewrite Hf; simpl.
  destruct (level_at b A s p Hrep Hv) as [[-> ->] | (l & -> & Hg & ->)]; [done |].
  rewrite Hg; simpl. by rewrite v_volume_view.
Qed.

Lemma order_count_at_level_eq b v s p :
  represents b v → valid_side s = true →
  order_count_at_level b s p = Some (u32 (lenZ (v_lookup p (v_side v s)))).
Proof.
  intros (A & Hrep & <-) Hv. unfold order_count_at_level. rewrite v_side_view.
  destruct (level_lookup b A s p Hrep Hv) as (lm & Hlm & Hf).
  rewrite side_index_valid in * by done. simpl in *. rewrite Hlm; simpl. rewrite Hf; simpl.
  destruct (level_at b A s p Hrep Hv) as [[-> ->] | (l & -> & Hg & ->)]; [done |].
  rewrite Hg; simpl. by rewrite !length_fmap.
Qed.

(** The pools account for every slot. *)
Lemma counts_eq b v :
  represents b v →
  total_orders b = lenZ (vb_orders v) ∧
  free_order_count b = max_orders_ b - lenZ (vb_orders v) ∧
  free_level_count b = max_levels_ b - lenZ (v_bids v) - lenZ (v_asks v) ∧
  ∀ s, valid_side s = true → book_depth b s = lenZ (v_side v s).
Proof.
  intros (A & [(Ho & Hl & Hwf) Hne Hq Hids Hmap] & <-).
  rewrite vb_orders_view. split; [| split; [| split]].
  - unfold total_orders. rewrite tbl_size_spec, Hmap, size_order_entries by done.
    by rewrite length_fmap.
  - destruct Ho. unfold free_order_count, IFS.available.
    rewrite <- (IFS.length_free_list ndebug) by done.
    apply Permutation_length in oo_perm. rewrite !length_app, !length_fmap in oo_perm. simpl in *.
    unfold range in oo_perm. rewrite length_fmap, length_seq in oo_perm. rewrite length_fmap. lia.
  - destruct Hl. unfold free_level_count, IFS.available.
    rewrite <- (IFS.length_free_list ndebug) by done.
    apply Permutation_length in lo_perm. rewrite !length_app, !length_fmap in lo_perm.
    unfold range, levels in lo_perm. rewrite length_fmap, length_seq, length_app in lo_perm.
    simpl. unfold view. rewrite !length_fmap. lia.
  - intros s Hv. unfold book_depth. rewrite (lo_ladder _ _ _ Hl s Hv), v_side_view.
    unfold view. by rewrite !length_fmap.
Qed.
End Correct.

Section Clear.
Context (ndebug : bool) {OM LM : Type} `{TO : Table Z Z OM} `{TL : Table Z Z LM}
  {OML : TableLaws Z Z OM} {LML : TableLaws Z Z LM}.
Implicit Types (b : OrderBook OM LM) (A : abook).
Abbreviation orders_ok := (orders_ok (OM := OM) (LM := LM) ndebug).
Abbreviation levels_ok := (levels_ok (OM := OM) (LM := LM) ndebug).

(** [levels_ok] without the table of prices of side [s]. *)
Record clearing b A s : Prop := {
  cl_stack : IFS.stack_wf ndebug (level_free_ b);
  cl_cap : IFS.capacity_ (level_free_ b) = max_levels_ b;
  cl_len : lenZ (level_slots_ b) = max_levels_ b;
  cl_bound : 0 <= max_levels_ b <= 2 ^ 32 - 1;
  cl_perm : IFS.free_list (level_free_ b) ++ (al_slot <$> levels A) ≡ₚ range (max_levels_ b);
  cl_free : ∀ i, i ∈ IFS.free_list (level_free_ b) →
    ∃ r, get_level b i = Some r ∧ pl_linked r = false ∧ orders r = [];
  cl_slot : ∀ s l, l ∈ side_of A s → get_level b (al_slot l) = Some (level_image s l);
  cl_ladder : ∀ s, valid_side s = true → ladder b s = al_slot <$> side_of A s;
  cl_sorted : ∀ s, side_sorted s (side_of A s);
  cl_map : ∀ s', valid_side s' = true → ∃ lm,
    get_level_map b (side_to_u8 s') = Some lm ∧ tbl_wf lm ∧
    (s' ≠ s → tbl_map lm = level_entries (side_of A s'));
}.

Lemma levels_ok_clearing b A s : levels_ok b A → clearing b A s.
Proof.
  intros []. split; try done. intros s' Hs'. destruct (lo_map s' Hs') as (lm & ? & ? & ?).
  by exists lm.
Qed.

(** Draining the queue of one level, which is in no ladder any more. *)
Lemma clear_orders_spec A s S l os fuel b lv :
  valid_side s = true → (length os <= fuel)%nat →
  orders_ok b (with_side A s (with_orders l os :: S)) [] →
  get_level b (al_slot l) = Some lv → orders lv = ao_slot <$> os →
  ∃ b' lv', clear_orders ndebug fuel b (al_slot l) = Some b' ∧
    orders_ok b' (with_side A s (with_orders l [] :: S)) [] ∧
    get_level b' (al_slot l) = Some lv' ∧ orders lv' = [] ∧
    lframe (al_slot l) b b' ∧ order_map_ b' = order_map_ b.
Proof.
  intros Hv. revert fuel b lv. induction os as [| o os IH]; intros fuel b lv Hf Ho Hlv Hos.
  { exists b, lv. destruct fuel; simpl; rewrite Hlv; simpl; rewrite Hos; simpl;
      (split; [done |]; split; [done |]; split; [done |]; split; [done |]; split; [| done];
       apply same_levels_lframe, same_levels_refl). }
  destruct fuel as [| fuel]; [simpl in Hf; lia |]. simpl. rewrite Hlv; simpl. rewrite Hos; simpl.
  change (list_fmap aorder Z ao_slot os) with (ao_slot <$> os).
  destruct (upd_level_spec b (al_slot l) (set_orders (ao_slot <$> os)) lv Hlv)
    as (b1 & -> & Hf1 & Hg1 & Hs1). simpl.
  set (A1 := with_side A s (with_orders l (o :: os) :: S)) in *.
  assert (side_of A1 s = [] ++ with_orders l (o :: os) :: S) as Hside by (by apply side_of_with_side).
  assert (get_order b1 (ao_slot o) = Some (order_image s (with_orders l (o :: os)) o)) as Hr.
  { rewrite (same_orders_get _ _ _ Hs1). apply (oo_slot _ _ _ _ Ho); [rewrite Hside; left | left]. }
  destruct (upd_order_spec b1 (ao_slot o) (set_linked false) _ Hr) as (b2 & -> & Hf2 & Hg2 & Hs2 & Hm2).
  simpl.
  assert (NoDup (ao_slot <$> o :: os)) as Hnd.
  { pose proof (queue_nodup ndebug b A1 s [] _ S [] Hv Hside Ho) as Hn. done. }
  apply nodup_cons in Hnd as [Hni Hnd].
  assert (orders_ok b2 (with_side A s (with_orders l os :: S)) [ao_slot o]) as Ho2.
  { pose proof (orders_ok_update ndebug A1 s [] S (with_orders l (o :: os)) Hv Hside b b2 []
      [ao_slot o] os (ao_slot o) Ho) as Hup.
    unfold A1 in Hup. rewrite with_side_twice in Hup. apply Hup.
    - eapply oframe_trans; [apply same_orders_oframe; exact Hs1 | exact Hf2].
    - left.
    - done.
    - intros x Hx. rewrite (of_get _ _ _ Hf2).
      + rewrite (same_orders_get _ _ _ Hs1). apply (oo_slot _ _ _ _ Ho s (with_orders l (o :: os)) x);
          [rewrite Hside; left | by right].
      + intros Heq. apply Hni. rewrite <- Heq. by apply list_elem_of_fmap_2.
    - intros j ->%list_elem_of_singleton. by eexists. }
  destruct (free_order_spec ndebug b2 _ [] (ao_slot o) Ho2) as (b3 & -> & Ho3 & Hs3 & Hm3). simpl.
  assert (get_level b3 (al_slot l) = Some (set_orders (ao_slot <$> os) lv)) as Hlv3.
  { by rewrite (same_levels_get _ _ _ Hs3), (same_levels_get _ _ _ Hs2). }
  destruct (IH fuel b3 _ ltac:(simpl in Hf; lia) Ho3 Hlv3 eq_refl)
    as (b' & lv' & E & Ho' & Hlv' & Hos' & Hf' & Hm').
  exists b', lv'. split; [done |]. split; [done |]. split; [done |]. split; [done |]. split.
  - eapply lframe_trans; [exact Hf1 |].
    eapply lframe_trans; [apply same_levels_lframe; exact Hs2 |].
    eapply lframe_trans; [apply same_levels_lframe; exact Hs3 |]. done.
  - rewrite Hm', Hm3, Hm2. by destruct Hs1.
Qed.

(** One level of the ladder: popped, drained, returned to the pool. *)
Lemma clear_level_spec A s l S b :
  valid_side s = true → side_of A s = l :: S → clearing b A s → orders_ok b A [] →
  ∃ b1 b2 b3 lv, upd_level (with_ladder b s (al_slot <$> S)) (al_slot l) (set_pl_linked false) = Some b1 ∧
    get_level b1 (al_slot l) = Some lv ∧
    clear_orders ndebug (length (orders lv)) b1 (al_slot l) = Some b2 ∧
    free_level ndebug b2 (al_slot l) = Some b3 ∧
    clearing b3 (with_side A s S) s ∧ orders_ok b3 (with_side A s S) [] ∧
    order_map_ b3 = order_map_ b.
Proof.
  intros Hv Hside Hcl Ho.
  assert (get_level (with_ladder b s (al_slot <$> S)) (al_slot l) = Some (level_image s l)) as Hg0.
  { apply (cl_slot _ _ _ Hcl). rewrite Hside. left. }
  destruct (upd_level_spec _ _ (set_pl_linked false) _ Hg0) as (b1 & E1 & Hf1 & Hg1 & Hs1).
  assert (with_side A s (with_orders l (al_orders l) :: S) = A) as HA.
  { rewrite <- (with_side_same A s (l :: S)) at 2 by done. by destruct l. }
  assert (orders_ok b1 (with_side A s (with_orders l (al_orders l) :: S)) []) as Ho1.
  { rewrite HA. eapply orders_ok_frame; [| done | | exact Ho].
    - destruct Hs1. split; simpl in *; done.
    - intros s' l' o' ? ?. by exists l'. }
  destruct (clear_orders_spec A s S l (al_orders l) (length (al_orders l)) b1 _ Hv ltac:(lia) Ho1 Hg1 eq_refl)
    as (b2 & lv2 & E2 & Ho2 & Hg2 & Hos2 & Hf2 & Hm2).
  pose proof (lframe_trans _ _ _ _ Hf1 Hf2) as [L1 L2 L3 L4 L5 L6 L7 L8]. simpl in *.
  assert (NoDup (IFS.free_list (level_free_ b) ++ (al_slot <$> levels A))) as Hnd.
  { rewrite (cl_perm _ _ _ Hcl). apply nodup_range. }
  assert (levels A ≡ₚ l :: levels (with_side A s S)) as Hlv.
  { rewrite (levels_split A s Hv), (levels_with_side A s S Hv), Hside. done. }
  assert (0 <= al_slot l < max_levels_ b) as Hrange.
  { apply elem_of_range. rewrite <- (cl_perm _ _ _ Hcl), Hlv. set_solver. }
  rewrite Hlv, fmap_cons in Hnd. apply nodup_app in Hnd as (_ & Hd & Hn).
  apply nodup_cons in Hn as [Hn _].
  assert (al_slot l ∉ IFS.free_list (level_free_ b)) as Hnf by (intros Hc; apply (Hd _ Hc); left).
  destruct Hcl.
  destruct (free_level_at ndebug b2 (al_slot l) (level_free_ b) lv2)
    as (b3 & E3 & Hso3 & Hwf3 & Hfl3 & Hcap3 & Hm3 & Hlen3 & Hb3 & Ha3 & Hmb3 & Hma3 & Hg3 & Hget3);
    [done | done | by rewrite L2 | by rewrite L2; lia | by rewrite L2 | done | done | done |].
  exists b1, b2, b3, (set_pl_linked false (level_image s l)).
  split; [done |]. split; [done |]. split; [simpl; by rewrite length_fmap |]. split; [done |].
  assert (∀ j, j ≠ al_slot l → get_level b3 j = get_level b j) as Hg.
  { intros j Hj. rewrite Hget3 by done. by apply L8. }
  assert (∀ s' x, x ∈ side_of (with_side A s S) s' → x ∈ side_of A s') as Hsub.
  { intros s' x. destruct (decide (s' = s)) as [-> | ?].
    - rewrite side_of_with_side, Hside by done. by right.
    - by rewrite side_of_with_side_ne. }
  split; [| split].
  - split; rewrite ?Hm3, ?L2, ?Hlen3, ?L1; try done; try congruence.
    + rewrite <- cl_perm0, Hfl3, Hlv. simpl. by rewrite <- Permutation_middle.
    + intros i Hi. rewrite Hfl3 in Hi. destruct (decide (i = al_slot l)) as [-> | Hne].
      * eexists. split; [done |]. done.
      * rewrite Hg by done. apply cl_free0. by apply elem_of_cons in Hi as [-> |].
    + intros s' x Hx. rewrite Hg; [by apply cl_slot0, Hsub |]. intros Heq. apply Hn. rewrite <- Heq.
      apply list_elem_of_fmap_2, elem_of_levels. exists s'. split; [| done].
      by destruct s'; [| | destruct s; apply elem_of_nil in Hx].
    + intros s' Hs'. assert (ladder b3 s' = ladder (with_ladder b s (al_slot <$> S)) s') as ->.
      { unfold ladder. by rewrite Hb3, Ha3, L4, L5. }
      rewrite ladder_with_ladder by done. destruct (decide (s' = s)) as [-> | ?].
      * by rewrite side_of_with_side.
      * rewrite side_of_with_side_ne by done. auto.
    + intros s'. destruct (decide (s' = s)) as [-> | ?].
      * rewrite side_of_with_side by done. specialize (cl_sorted0 s). rewrite Hside in cl_sorted0.
        by apply (side_sorted_remove s [] l).
      * by rewrite side_of_with_side_ne.
    + intros s' Hs'. destruct (cl_map0 s' Hs') as (lm & Hlm & Hwf & Hm). exists lm. split; [| split; [done |]].
      * rewrite <- Hlm. unfold get_level_map. by rewrite Hmb3, Hma3, L6, L7.
      * intros Hne. rewrite side_of_with_side_ne by done. auto.
  - eapply orders_ok_frame; [exact Hso3 | | | exact Ho2].
    + by rewrite !all_orders_with_side.
    + intros s' l' o' Hl' Ho'. exists l'. split; [| done]. destruct (decide (s' = s)) as [-> | ?].
      * rewrite side_of_with_side in * by done. by right.
      * by rewrite side_of_with_side_ne in *.
  - destruct Hso3, Hs1. simpl in *. congruence.
Qed.

Lemma clear_levels_spec s L A b :
  valid_side s = true → side_of A s = L → clearing b A s → orders_ok b A [] →
  ∃ b', clear_levels ndebug (length (ladder b s)) b s = Some b' ∧
    clearing b' (with_side A s []) s ∧ orders_ok b' (with_side A s []) [] ∧
    order_map_ b' = order_map_ b.
Proof.
  intros Hv. revert A b. induction L as [| l S IH]; intros A b Hside Hcl Ho.
  all: rewrite (cl_ladder _ _ _ Hcl s Hv), Hside; simpl; rewrite (cl_ladder _ _ _ Hcl s Hv), Hside; simpl.
  - exists b. by rewrite with_side_same.
  - destruct (clear_level_spec A s l S b Hv Hside Hcl Ho)
      as (b1 & b2 & b3 & lv & E1 & Hg & E2 & E3 & Hcl3 & Ho3 & Hm3).
    change (list_fmap alevel Z al_slot S) with (al_slot <$> S).
    rewrite E1; simpl. rewrite Hg; simpl. rewrite E2; simpl. rewrite E3; simpl.
    destruct (IH (with_side A s S) b3 ltac:(by apply side_of_with_side) Hcl3 Ho3)
      as (b' & E' & Hcl' & Ho' & Hm').
    rewrite (cl_ladder _ _ _ Hcl3 s Hv), side_of_with_side, length_fmap in E' by done.
    rewrite length_fmap, E'. exists b'. rewrite with_side_twice in Hcl', Ho'.
    repeat (split; [done |]). congruence.
Qed.

Lemma clear_side_spec A s b :
  valid_side s = true → levels_ok b A → orders_ok b A [] →
  ∃ b', clear_side ndebug b s = Some b' ∧ levels_ok b' (with_side A s []) ∧
    orders_ok b' (with_side A s []) [] ∧ order_map_ b' = order_map_ b.
Proof.
  intros Hv Hl Ho. unfold clear_side.
  destruct (clear_levels_spec s _ A b Hv eq_refl (levels_ok_clearing _ _ s Hl) Ho)
    as (b1 & -> & Hcl & Ho1 & Hm1). simpl.
  rewrite side_index_valid by done. simpl.
  destruct (cl_map _ _ _ Hcl s Hv) as (lm & Hlm & Hwf & _). rewrite Hlm; simpl.
  destruct (tbl_clear_spec lm Hwf) as [Hwf' Hmap'].
  eexists. split; [done |]. split; [| split; [by destruct Ho1 | done]].
  destruct Hcl. split; try done.
  - intros s' Hs'. rewrite get_set_level_map by done. destruct (decide (s' = s)) as [-> | Hne].
    + exists (tbl_clear lm). rewrite side_of_with_side by done. done.
    + destruct (cl_map0 s' Hs') as (lm' & ? & ? & Hm). exists lm'. auto.
Qed.

Lemma clear_aux b v :
  represents ndebug b v → ∃ b', clear ndebug b = Some b' ∧ represents ndebug b' vb_empty.
Proof.
  intros (A & [(Ho & Hl & Hwf) Hne Hq Hids Hmap] & <-). unfold clear.
  destruct (clear_side_spec A kBid b eq_refl Hl Ho) as (b1 & -> & Hl1 & Ho1 & Hm1). simpl.
  destruct (clear_side_spec _ kAsk b1 eq_refl Hl1 Ho1) as (b2 & -> & Hl2 & Ho2 & Hm2). simpl.
  set (A2 := with_side (with_side A kBid []) kAsk []) in *.
  assert (bids_ b2 = []) as -> by (by pose proof (lo_ladder _ _ _ Hl2 kBid eq_refl)).
  assert (asks_ b2 = []) as -> by (by pose proof (lo_ladder _ _ _ Hl2 kAsk eq_refl)).
  simpl. rewrite Hm2, Hm1. destruct (tbl_clear_spec (order_map_ b) Hwf) as [Hwf' Hmap'].
  rewrite tbl_size_spec, Hmap' by done. rewrite map_size_empty; simpl.
  eexists. split; [done |]. exists A2. split; [| done].
  split; [| by intros l ?%elem_of_nil | by intros o ?%elem_of_nil | constructor | done].
  split; [by destruct Ho2 | split; [by destruct Hl2 | done]].
Qed.
End Clear.
