(* ===== verification/Arena.v ===== *)
(** The bump allocator [src/libs/sys/memory/arena_allocator.hpp].

    Addresses are [Z]; an arena is the three pointers of the class.  The
    region-owning constructors ([mmap]) are outside the model: an arena here
    views memory its caller provides. *)
From S2P Require Import Prelude.
From S2P Require Import BitUtils.
Local Open Scope Z_scope.

Module AR.

Record Arena : Set := { base_ : Z; cur_ : Z; end_ : Z }.

Definition construct (addr size : Z) : Arena := {| base_ := addr; cur_ := addr; end_ := addr + size |}.

Definition capacity (a : Arena) : Z := end_ a - base_ a.
Definition used (a : Arena) : Z := cur_ a - base_ a.
Definition remaining (a : Arena) : Z := end_ a - cur_ a.

(** [alignof(void * )] on the target. *)
Definition alignof_void_ptr : Z := 8.

(** [align_ptr_up] of [bit_utils.hpp]. *)
Definition align_ptr_up (ptr alignment : Z) : Z := align_up ptr alignment.

Definition alloc (a : Arena) (bytes alignment : Z) : option (Arena * option Z) :=
  let alignment := Z.max alignment alignof_void_ptr in
  _ ← assertM (is_power_of_two alignment);
  let p := align_ptr_up (cur_ a) alignment in
  if bool_decide (p > end_ a) || bool_decide (bytes > end_ a - p) then Some (a, None)
  else Some ({| base_ := base_ a; cur_ := p + bytes; end_ := end_ a |}, Some p).

(** [alloc<T>(count)] for a type of the given size and alignment. *)
Definition alloc_array (a : Arena) (sizeof_T alignof_T count : Z) : option (Arena * option Z) :=
  alloc a (u64 (count * sizeof_T)) alignof_T.

Definition reset (a : Arena) : Arena := {| base_ := base_ a; cur_ := base_ a; end_ := end_ a |}.

(** ** Theorems *)

Record arena_wf (a : Arena) : Prop := {
  aw_low : 0 <= base_ a <= cur_ a;
  aw_high : cur_ a <= end_ a;
  (** the region does not reach the end of the address space *)
  aw_space : end_ a < 2 ^ 63;
}.


(** An allocation with a power-of-two alignment up to [2^32] returns aligned
    memory inside the unused part of the region, or leaves the arena as it
    is; it succeeds whenever the bytes and the worst padding fit. *)
Lemma alloc_spec a bytes e :
  arena_wf a → 3 <= e <= 32 → 0 <= bytes →
  (∃ p, alloc a bytes (2 ^ e) = Some ({| base_ := base_ a; cur_ := p + bytes; end_ := end_ a |}, Some p) ∧
     p mod 2 ^ e = 0 ∧ cur_ a <= p < cur_ a + 2 ^ e ∧ p + bytes <= end_ a ∧
     arena_wf {| base_ := base_ a; cur_ := p + bytes; end_ := end_ a |}) ∨
  (alloc a bytes (2 ^ e) = Some (a, None) ∧ end_ a < cur_ a + bytes + 2 ^ e - 1).
Proof.
  intros [Hl Hh Hs] He Hb. unfold alloc, align_ptr_up, alignof_void_ptr.
  assert (2 ^ 3 <= 2 ^ e) by (apply Z.pow_le_mono_r; lia).
  assert (2 ^ e <= 2 ^ 32) by (apply Z.pow_le_mono_r; lia).
  rewrite Z.max_l by lia.
  assert (is_power_of_two (2 ^ e) = true) as -> by (apply is_power_of_two_iff; [lia | exists e; lia]).
  simpl. destruct (align_up_spec (cur_ a) e) as (Hp & Hm & _); [lia.. |].
  set (p := align_up (cur_ a) (2 ^ e)) in *.
  destruct (bool_decide (p > end_ a) || bool_decide (bytes > end_ a - p)) eqn:Hc.
  - right. split; [done |].
    apply orb_true_iff in Hc as [Hc%bool_decide_eq_true | Hc%bool_decide_eq_true]; lia.
  - left. apply orb_false_iff in Hc as [Hc1%bool_decide_eq_false Hc2%bool_decide_eq_false].
    exists p. split; [done |]. split; [done |]. split; [lia |]. split; [lia |].
    split; simpl; lia.
Qed.

End AR.
