(* ===== verification/BookBind.v ===== *)
(** Construction of an order book in a caller's buffer:
    [OrderBook::required_buffer_size], [bind] and [create] of
    [src/libs/algo/order_book.hpp], with the tables of [HashMap.v] and the
    bump allocator of [Arena.v].

    What the raw memory holds before construction is unknown: the slots
    found by the two kinds of tables are arguments of [bind]. *)
From S2P Require Import Prelude.
From S2P Require Import BitUtils.
From S2P Require Import IndexFreeStack.
From S2P Require Import TableInterface.
From S2P Require Import HashMap.
From S2P Require Import HashMapSpec.
From S2P Require Import TradingTypes.
From S2P Require Import OrderBook.
From S2P Require Import BookView.
From S2P Require Import OrderBookRep.
From S2P Require Import OrderBookSpec.
From S2P Require Import Arena.
Local Open Scope Z_scope.

Record Params : Set := {
  max_orders : Z;
  max_levels : Z;
  order_map_cap : Z;
  level_map_cap : Z;
}.

(** The defaults of [struct Params]. *)
Definition default_params : Params :=
  {| max_orders := 65536; max_levels := 4096; order_map_cap := 131072; level_map_cap := 8192 |}.

(** Sizes and alignments the source asserts or documents for the target. *)
Definition sizeof_Order : Z := 48.
Definition sizeof_PriceLevel : Z := 56.
Definition sizeof_Slot : Z := 24.
Definition alignof_Slot : Z := 8.
Definition alignof_max_align : Z := 16.

(** A zeroed order and a constructed level. *)
Definition zero_order : Order :=
  {| order_id := 0; price := 0; qty := 0; side := kBid; level := None; linked := false |}.
Definition new_level : PriceLevel :=
  {| pl_price := 0; total_qty := 0; pl_side := kBid; orders := []; pl_linked := false |}.

Section Bind.
  Context (ndebug : bool) (hash_id hash_price : Z → Z).

Definition required_buffer_size (params : Params) : Z :=
  let order_pool := u64 (max_orders params * sizeof_Order) in
  let level_pool := u64 (max_levels params * sizeof_PriceLevel) in
  let order_free := IFS.required_buffer_size ndebug (max_orders params) in
  let level_free := IFS.required_buffer_size ndebug (max_levels params) in
  let order_map := HM.required_buffer_size sizeof_Slot (order_map_cap params) in
  let bid_map := HM.required_buffer_size sizeof_Slot (level_map_cap params) in
  let ask_map := HM.required_buffer_size sizeof_Slot (level_map_cap params) in
  let kMaxPadding := 6 * (alignof_max_align - 1) in
  u64 (order_pool + level_pool + order_free + level_free + order_map + bid_map + ask_map
       + kMaxPadding).

Definition params_valid (params : Params) : bool :=
  negb (bool_decide (max_orders params = 0) || bool_decide (max_levels params = 0)) &&
  negb (negb (is_power_of_two (u32 (order_map_cap params))) || bool_decide (order_map_cap params < 4)) &&
  negb (negb (is_power_of_two (u32 (level_map_cap params))) || bool_decide (level_map_cap params < 4)) &&
  negb (bool_decide (max_orders params > order_map_cap params)) &&
  negb (bool_decide (max_levels params > level_map_cap params)).

(** A sub-region and the structure created in it: [nullopt] if either the
    arena or the factory refuses. *)
Definition sub_region {T : Type} (a : AR.Arena) (bytes al : Z) (create : Z → option T)
    : option (AR.Arena * option T) :=
  '(a, p) ← AR.alloc a bytes al;
  Some (a, p ≫= create).

Abbreviation Table := (HM.HashMap Z Z).

(** [bind], with the book it builds; the outer option is failure, the inner
    one [false]. *)
Definition bind (buf : option Z) (buf_bytes : Z) (params : Params)
    (om_raw bid_raw ask_raw : list (HM.Slot Z Z)) : option (option (OrderBook Table Table)) :=
  if negb (params_valid params) then Some None
  else
    match buf with
    | None => Some None
    | Some addr =>
        if bool_decide (buf_bytes < required_buffer_size params) then Some None
        else
          let a := AR.construct addr buf_bytes in
          '(a, op) ← AR.alloc_array a sizeof_Order 8 (max_orders params);
          if bool_decide (op = None) then Some None else
          '(a, lp) ← AR.alloc_array a sizeof_PriceLevel 8 (max_levels params);
          if bool_decide (lp = None) then Some None else
          let ofs_size := IFS.required_buffer_size ndebug (max_orders params) in
          '(a, ofree) ← sub_region a ofs_size 4
                          (λ p, IFS.create ndebug (Some p) ofs_size (max_orders params));
          match ofree with None => Some None | Some ofree =>
          let lfs_size := IFS.required_buffer_size ndebug (max_levels params) in
          '(a, lfree) ← sub_region a lfs_size 4
                          (λ p, IFS.create ndebug (Some p) lfs_size (max_levels params));
          match lfree with None => Some None | Some lfree =>
          let om_size := HM.required_buffer_size sizeof_Slot (order_map_cap params) in
          '(a, om) ← sub_region a om_size alignof_Slot
            (λ p, HM.create sizeof_Slot alignof_Slot (Some (p, om_raw)) om_size (order_map_cap params));
          match om with None => Some None | Some om =>
          let lm_size := HM.required_buffer_size sizeof_Slot (level_map_cap params) in
          '(a, bm) ← sub_region a lm_size alignof_Slot
            (λ p, HM.create sizeof_Slot alignof_Slot (Some (p, bid_raw)) lm_size (level_map_cap params));
          match bm with None => Some None | Some bm =>
          '(a, am) ← sub_region a lm_size alignof_Slot
            (λ p, HM.create sizeof_Slot alignof_Slot (Some (p, ask_raw)) lm_size (level_map_cap params));
          match am with None => Some None | Some am =>
          Some (Some {|
            order_slots_ := replicate (Z.to_nat (max_orders params)) zero_order;
            level_slots_ := replicate (Z.to_nat (max_levels params)) new_level;
            max_orders_ := max_orders params;
            max_levels_ := max_levels params;
            order_free_ := ofree;
            level_free_ := lfree;
            bids_ := [];
            asks_ := [];
            order_map_ := om;
            level_map_bid_ := bm;
            level_map_ask_ := am;
          |})
          end end end end end
    end.

(** [create] is [bind] on a default-constructed book. *)
Definition create := bind.

(** * The required size is enough *)

(** A book built of fresh parts represents the empty book. *)
Lemma fresh_book_rep {OM LM : Type} `{TO : TableInterface.Table Z Z OM} `{TL : TableInterface.Table Z Z LM}
    {OML : TableLaws Z Z OM} {LML : TableLaws Z Z LM} mo ml (om : OM) (bm am : LM) :
  0 <= mo <= 2 ^ 32 - 1 → 0 <= ml <= 2 ^ 32 - 1 →
  tbl_wf om → tbl_map om = ∅ → tbl_wf bm → tbl_map bm = ∅ → tbl_wf am → tbl_map am = ∅ →
  represents ndebug {|
    order_slots_ := replicate (Z.to_nat mo) zero_order;
    level_slots_ := replicate (Z.to_nat ml) new_level;
    max_orders_ := mo; max_levels_ := ml;
    order_free_ := IFS.init_storage ndebug mo; level_free_ := IFS.init_storage ndebug ml;
    bids_ := []; asks_ := []; order_map_ := om; level_map_bid_ := bm; level_map_ask_ := am |}
    vb_empty.
Proof.
  intros Hmo Hml Hw1 Hm1 Hw2 Hm2 Hw3 Hm3.
  set (A := {| a_bids := []; a_asks := [] |}).
  assert (∀ s, side_of A s = []) as Hs by (by intros []).
  assert (∀ {T : Type} (n : Z) (x : T) i, i ∈ IFS.free_list (IFS.init_storage ndebug n) → 0 <= n →
            getZ (replicate (Z.to_nat n) x) i = Some x) as Hrep.
  { intros T n x i Hi Hn. rewrite IFS.free_list_init in Hi by done.
    apply list_elem_of_fmap in Hi as (k & -> & Hk%elem_of_seq).
    rewrite getZ_nat. apply lookup_replicate_2. lia. }
  exists A. split; [| done]. split.
  - split; [| split; [| done]].
    + split; simpl; try done.
      * apply IFS.init_storage_wf. lia.
      * rewrite length_replicate. lia.
      * rewrite app_nil_r, IFS.free_list_init by lia. done.
      * intros i Hi. rewrite app_nil_r in Hi. exists zero_order. split; [| done].
        unfold get_order; simpl. apply Hrep; [done | lia].
      * intros s l o Hl. rewrite Hs in Hl. by apply elem_of_nil in Hl.
    + split; simpl; try done.
      * apply IFS.init_storage_wf. lia.
      * rewrite length_replicate. lia.
      * rewrite app_nil_r, IFS.free_list_init by lia. done.
      * intros i Hi. exists new_level. split; [| done].
        unfold get_level; simpl. apply Hrep; [done | lia].
      * intros s l Hl. rewrite Hs in Hl. by apply elem_of_nil in Hl.
      * intros s Hv. rewrite Hs. by apply valid_side_cases in Hv as [-> | ->].
      * intros s. rewrite Hs. constructor.
      * intros s Hv. rewrite Hs. apply valid_side_cases in Hv as [-> | ->];
          [exists bm | exists am]; done.
  - intros l Hl. by apply elem_of_nil in Hl.
  - intros o Ho. by apply elem_of_nil in Ho.
  - constructor.
  - done.
Qed.

(** Within bounds, a sub-region is carved and its structure created. *)
Lemma sub_region_ok {T : Type} a bytes al (create : Z → option T) (Q : T → Prop) :
  AR.arena_wf a → al = 4 ∨ al = 8 → 0 <= bytes → AR.cur_ a + bytes + 7 <= AR.end_ a →
  (∀ p, p mod 8 = 0 → 0 <= p → ∃ t, create p = Some t ∧ Q t) →
  ∃ a' t, sub_region a bytes al create = Some (a', Some t) ∧ Q t ∧
    AR.arena_wf a' ∧ AR.end_ a' = AR.end_ a ∧ AR.cur_ a' <= AR.cur_ a + bytes + 7.
Proof.
  intros Hwf Hal Hb Hroom Hc.
  assert (AR.alloc a bytes al = AR.alloc a bytes (2 ^ 3)) as Heq by (by destruct Hal as [-> | ->]).
  destruct (AR.alloc_spec a bytes 3 Hwf ltac:(lia) Hb) as [(p & E & Hm & Hp & Hend & Hwf') | [_ Hno]];
    [| change (2 ^ 3) with 8 in Hno; lia].
  unfold sub_region. rewrite Heq, E; simpl.
  destruct (Hc p Hm) as (t & -> & HQ); [destruct Hwf; lia |].
  eexists _, t. split; [done |]. split; [done |]. split; [done |]. simpl.
  change (2 ^ 3) with 8 in Hp. lia.
Qed.
(** Parameters the source accepts: capacities of the tables are powers of
    two, and the pools fit the tables. *)
Record good_params (ps : Params) : Prop := {
  gp_orders : 0 < max_orders ps <= order_map_cap ps;
  gp_levels : 0 < max_levels ps <= level_map_cap ps;
  gp_ocap : ∃ e, 2 <= e <= 31 ∧ order_map_cap ps = 2 ^ e;
  gp_lcap : ∃ e, 2 <= e <= 31 ∧ level_map_cap ps = 2 ^ e;
}.

Lemma pow2_cap e : 2 <= e <= 31 → 4 <= 2 ^ e <= 2 ^ 31 ∧ is_power_of_two (u32 (2 ^ e)) = true.
Proof.
  intros He. assert (2 ^ 2 <= 2 ^ e <= 2 ^ 31) by (split; apply Z.pow_le_mono_r; lia).
  split; [lia |]. rewrite u32_id by mlia. apply is_power_of_two_iff; [lia | by exists e; split; [lia |]].
Qed.

Lemma good_params_bounds ps :
  good_params ps →
  0 < max_orders ps <= 2 ^ 31 ∧ 0 < max_levels ps <= 2 ^ 31 ∧
  4 <= order_map_cap ps <= 2 ^ 31 ∧ 4 <= level_map_cap ps <= 2 ^ 31 ∧
  HM.is_valid_capacity (order_map_cap ps) = true ∧ HM.is_valid_capacity (level_map_cap ps) = true ∧
  params_valid ps = true.
Proof.
  intros [Ho Hl (eo & Heo & Eo) (el & Hel & El)].
  destruct (pow2_cap eo Heo) as [Hbo Hpo]. destruct (pow2_cap el Hel) as [Hbl Hpl].
  rewrite <- Eo in Hbo, Hpo. rewrite <- El in Hbl, Hpl.
  repeat (split; [lia |]). unfold HM.is_valid_capacity, params_valid. rewrite Hpo, Hpl.
  rewrite !bool_decide_true, !bool_decide_false by lia. done.
Qed.

Lemma required_buffer_size_eq ps :
  good_params ps →
  required_buffer_size ps =
    max_orders ps * 48 + max_levels ps * 56 +
    IFS.required_buffer_size ndebug (max_orders ps) + IFS.required_buffer_size ndebug (max_levels ps) +
    order_map_cap ps * 24 + 2 * (level_map_cap ps * 24) + 90.
Proof.
  intros (Ho & Hl & Hoc & Hlc & _)%good_params_bounds.
  unfold required_buffer_size, HM.required_buffer_size, IFS.required_buffer_size,
    sizeof_Order, sizeof_PriceLevel, sizeof_Slot, alignof_max_align.
  destruct ndebug; cbn zeta; rewrite !u64_id; mlia.
Qed.

Lemma free_stack_create p c :
  p mod 8 = 0 → 0 < c <= 2 ^ 31 →
  IFS.create ndebug (Some p) (IFS.required_buffer_size ndebug c) c = Some (IFS.init_storage ndebug c).
Proof.
  intros Hp Hc. unfold IFS.create, IFS.is_valid_capacity, IFS.partition_buffer.
  rewrite !bool_decide_true by lia. simpl.
  assert (p mod 4 = 0) as ->.
  { apply Z.div_exact in Hp; [| lia]. rewrite Hp.
    replace (8 * (p / 8)) with ((2 * (p / 8)) * 4) by lia. apply Z.mod_mul. lia. }
  rewrite bool_decide_true by done. simpl. rewrite bool_decide_false by lia. simpl.
  by rewrite u32_id by mlia.
Qed.

Lemma table_create (hash_ : Z → Z) p c raw :
  p mod 8 = 0 → 0 < c <= 2 ^ 31 → HM.is_valid_capacity c = true → c <= lenZ raw →
  ∃ m : Table, HM.create sizeof_Slot alignof_Slot (Some (p, raw)) (HM.required_buffer_size sizeof_Slot c) c
    = Some m ∧ HMSpec.wf hash_ m ∧ HMSpec.to_map m = ∅.
Proof.
  intros Hp Hc Hv Hraw. unfold HM.required_buffer_size, sizeof_Slot, alignof_Slot.
  rewrite u64_id by mlia.
  destruct (HMSpec.create_spec hash_ 24 8 p raw (c * 24) c Hv Hp ltac:(lia) ltac:(lia) ltac:(lia))
    as (m & ? & ? & ? & _). by exists m.
Qed.
Lemma alloc_array_ok a sz n :
  AR.arena_wf a → 0 <= n * sz < 2 ^ 64 → AR.cur_ a + n * sz + 7 <= AR.end_ a →
  ∃ a' p, AR.alloc_array a sz 8 n = Some (a', Some p) ∧
    AR.arena_wf a' ∧ AR.end_ a' = AR.end_ a ∧ AR.cur_ a' <= AR.cur_ a + n * sz + 7.
Proof.
  intros Hwf Hn Hroom. unfold AR.alloc_array. rewrite u64_id by done.
  destruct (AR.alloc_spec a (n * sz) 3 Hwf ltac:(lia) ltac:(lia))
    as [(p & E & Hm & Hp & Hend & Hwf') | [_ Hno]]; [| change (2 ^ 3) with 8 in Hno; lia].
  change (2 ^ 3) with 8 in *. rewrite E. eexists _, p. split; [done |]. split; [done |].
  simpl. lia.
Qed.

Lemma table_region (hash_ : Z → Z) a c (raw : list (HM.Slot Z Z)) :
  AR.arena_wf a → 0 < c <= 2 ^ 31 → HM.is_valid_capacity c = true →
  c <= lenZ raw → AR.cur_ a + c * 24 + 7 <= AR.end_ a →
  ∃ a' t, sub_region a (HM.required_buffer_size sizeof_Slot c) alignof_Slot
    (λ p, HM.create sizeof_Slot alignof_Slot (Some (p, raw)) (HM.required_buffer_size sizeof_Slot c) c)
    = Some (a', Some t) ∧ (HMSpec.wf hash_ t ∧ HMSpec.to_map t = ∅) ∧
    AR.arena_wf a' ∧ AR.end_ a' = AR.end_ a ∧ AR.cur_ a' <= AR.cur_ a + c * 24 + 7.
Proof.
  intros Hw Hc Hv Hraw Hroom.
  assert (HM.required_buffer_size sizeof_Slot c = c * 24) as Hrs by (apply u64_id; mlia).
  destruct (sub_region_ok a (HM.required_buffer_size sizeof_Slot c) alignof_Slot
    (λ p, HM.create sizeof_Slot alignof_Slot (Some (p, raw)) (HM.required_buffer_size sizeof_Slot c) c)
    (λ t, HMSpec.wf hash_ t ∧ HMSpec.to_map t = ∅) Hw ltac:(by right) ltac:(lia) ltac:(lia))
    as (a' & t & E & HQ & Hw' & He' & Hc').
  { intros p Hp _. by apply table_create. }
  exists a', t. rewrite Hrs in Hc'. done.
Qed.

#[local] Existing Instance HMSpec.HashMap_Table.
#[local] Existing Instance HMSpec.HashMap_TableLaws.

Lemma bind_ok_aux addr bytes ps om_raw bid_raw ask_raw :
  good_params ps → 0 <= addr → addr + bytes < 2 ^ 63 → required_buffer_size ps <= bytes →
  order_map_cap ps <= lenZ om_raw → level_map_cap ps <= lenZ bid_raw →
  level_map_cap ps <= lenZ ask_raw →
  ∃ b, bind (Some addr) bytes ps om_raw bid_raw ask_raw = Some (Some b) ∧
    represents (TO := HMSpec.HashMap_Table hash_id) (TL := HMSpec.HashMap_Table hash_price)
      (OML := HMSpec.HashMap_TableLaws hash_id) (LML := HMSpec.HashMap_TableLaws hash_price)
      ndebug b vb_empty.
Proof.
  intros Hgp Ha Hab Hreq Ho1 Ho2 Ho3.
  pose proof (required_buffer_size_eq ps Hgp) as Hsz.
  destruct (good_params_bounds ps Hgp) as (Hmo & Hml & Hoc & Hlc & Hvo & Hvl & Hpv).
  assert (0 <= IFS.required_buffer_size ndebug (max_orders ps)) as Hf1
    by (unfold IFS.required_buffer_size; destruct ndebug; apply u64_range).
  assert (0 <= IFS.required_buffer_size ndebug (max_levels ps)) as Hf2
    by (unfold IFS.required_buffer_size; destruct ndebug; apply u64_range).
  assert (HM.required_buffer_size sizeof_Slot (order_map_cap ps) = order_map_cap ps * 24) as Hom
    by (apply u64_id; mlia).
  assert (HM.required_buffer_size sizeof_Slot (level_map_cap ps) = level_map_cap ps * 24) as Hlm
    by (apply u64_id; mlia).
  unfold bind. rewrite Hpv. simpl. rewrite bool_decide_false by lia.
  assert (AR.arena_wf (AR.construct addr bytes)) as Hw0 by (split; simpl; lia).
  destruct (alloc_array_ok (AR.construct addr bytes) sizeof_Order (max_orders ps) Hw0)
    as (a1 & p1 & -> & Hw1 & He1 & Hc1); [unfold sizeof_Order; lia | unfold sizeof_Order; simpl; lia |].
  unfold sizeof_Order in Hc1. simpl in He1, Hc1 |- *.
  destruct (alloc_array_ok a1 sizeof_PriceLevel (max_levels ps) Hw1)
    as (a2 & p2 & -> & Hw2 & He2 & Hc2); [unfold sizeof_PriceLevel; lia | unfold sizeof_PriceLevel; lia |].
  unfold sizeof_PriceLevel in Hc2. simpl.
  destruct (sub_region_ok a2 (IFS.required_buffer_size ndebug (max_orders ps)) 4
    (λ p, IFS.create ndebug (Some p) (IFS.required_buffer_size ndebug (max_orders ps)) (max_orders ps))
    (λ t, t = IFS.init_storage ndebug (max_orders ps)) Hw2 ltac:(by left) Hf1 ltac:(lia))
    as (a3 & t3 & -> & -> & Hw3 & He3 & Hc3).
  { intros p Hp _. eexists. split; [apply free_stack_create; [done | lia] | done]. }
  simpl.
  destruct (sub_region_ok a3 (IFS.required_buffer_size ndebug (max_levels ps)) 4
    (λ p, IFS.create ndebug (Some p) (IFS.required_buffer_size ndebug (max_levels ps)) (max_levels ps))
    (λ t, t = IFS.init_storage ndebug (max_levels ps)) Hw3 ltac:(by left) Hf2 ltac:(lia))
    as (a4 & t4 & -> & -> & Hw4 & He4 & Hc4).
  { intros p Hp _. eexists. split; [apply free_stack_create; [done | lia] | done]. }
  simpl.
  destruct (table_region hash_id a4 (order_map_cap ps) om_raw) as (a5 & om & -> & [Hwo Hmo'] & Hw5 & He5 & Hc5);
    [done | lia | done | done | lia |]. simpl.
  destruct (table_region hash_price a5 (level_map_cap ps) bid_raw) as (a6 & bm & -> & [Hwb Hmb] & Hw6 & He6 & Hc6);
    [done | lia | done | done | lia |]. simpl.
  destruct (table_region hash_price a6 (level_map_cap ps) ask_raw) as (a7 & am & -> & [Hwa Hma] & Hw7 & He7 & Hc7);
    [done | lia | done | done | lia |]. simpl.
  eexists. split; [done |].
  apply (fresh_book_rep (TO := HMSpec.HashMap_Table hash_id) (TL := HMSpec.HashMap_Table hash_price)
    (OML := HMSpec.HashMap_TableLaws hash_id) (LML := HMSpec.HashMap_TableLaws hash_price)); try done; lia.
Qed.
End Bind.
