(* ===== verification/OrderBookTheorems.v ===== *)
(** The properties of the order book, and a concrete book that witnesses
    them: four orders, four levels and two tables of eight slots, bound to a
    buffer whose contents before construction are garbage. *)
From S2P Require Import Prelude.
From S2P Require Import HashUtils.
From S2P Require Import IndexFreeStack.
From S2P Require Import TableInterface.
From S2P Require Import HashMap.
From S2P Require Import HashMapSpec.
From S2P Require Import TradingTypes.
From S2P Require Import OrderBook.
From S2P Require Import BookView.
From S2P Require Import OrderBookRep.
From S2P Require Import OrderBookCore.
From S2P Require Import OrderBookSpec.
From S2P Require Import BookBind.
Local Open Scope Z_scope.

(** * The contracts, shared with the matching engine *)

Section Contracts.
Context (ndebug : bool) {OM LM : Type} `{TO : Table Z Z OM} `{TL : Table Z Z LM}
  {OML : TableLaws Z Z OM} {LML : TableLaws Z Z LM}.
Implicit Types (b : OrderBook OM LM) (v : vbook).

(** The reasons the source gives for refusing an order. *)
Definition refusal b v (id : Z) (s : Side) (p q : Z) : Prop :=
  q = 0 ∨ id ∈ vb_ids v ∨ free_order_count b = 0 ∨
  (∃ o, tbl_insert (order_map_ b) id o = Some (order_map_ b, false)) ∨
  (v_lookup p (v_side v s) = [] ∧
   (free_level_count b = 0 ∨
    ∃ lm l, get_level_map b (side_to_u8 s) = Some lm ∧ tbl_insert lm p l = Some (lm, false))).

Lemma free_list_nil st : IFS.stack_wf ndebug st → IFS.free_list st = [] → IFS.available st = 0.
Proof. intros Hwf Hn. apply IFS.length_free_list in Hwf. rewrite Hn in Hwf. done. Qed.

Lemma add_order_aux b v id s p q :
  represents ndebug b v → valid_side s = true → is_u32 q →
  ∃ b' ok, add_order ndebug b id s p q = Some (b', ok) ∧
    represents ndebug b' (if ok then vb_add s p id q v else v) ∧
    if ok : bool then q ≠ 0 ∧ id ∉ vb_ids v else refusal b v id s p q.
Proof.
  intros (A & Hrep & <-) Hv Hq. rewrite vb_ids_view.
  destruct (add_order_rep ndebug 1 b A id s p q ltac:(lia) Hrep Hv Hq)
    as [(b' & E & Hrep' & Href) | (b' & A' & E & Hrep' & Hz & Hid & Hview)].
  - exists b', false. split; [done |]. split; [by exists A |].
    pose proof Hrep as [(Ho & Hl & _) _ _ _ _]. unfold refusal. rewrite vb_ids_view.
    destruct Href as [? | [? | [Hf | [? | (Hni & Hr)]]]]; [by left | by right; left | | by do 3 right; left |].
    + right; right; left. apply (free_list_nil _ (oo_stack _ _ _ _ Ho) Hf).
    + do 4 right. rewrite v_side_view. split; [by apply v_lookup_none; rewrite view_prices |].
      destruct Hr as [Hf | Hr]; [left | by right]. apply (free_list_nil _ (lo_stack _ _ _ Hl) Hf).
  - exists b', true. split; [done |]. split; [by exists A' |]. done.
Qed.

Lemma cancel_order_aux b v id :
  represents ndebug b v →
  ∃ b', cancel_order ndebug b id = Some (b', bool_decide (id ∈ vb_ids v)) ∧
    represents ndebug b' (vb_remove id v).
Proof.
  intros (A & Hrep & <-). rewrite vb_ids_view.
  destruct (cancel_order_rep ndebug 1 b A id Hrep)
    as [[Hni ->] | (s & P & l & S & X & o & Y & b' & Hloc & <- & -> & Hrep')].
  - exists b. rewrite bool_decide_false by done. split; [done |].
    exists A. split; [done |].
    unfold vb_remove, book_view. f_equal; symmetry; apply v_remove_notin.
    all: try (intros p os; apply view_nonempty; intros x Hx; apply (br_nonempty _ _ _ _ Hrep);
              unfold levels; set_solver).
    all: rewrite v_ids_view; intros Hc; apply Hni; unfold all_orders, levels;
         rewrite orders_in_app, fmap_app; set_solver.
  - exists b'. rewrite bool_decide_true.
    + split; [done |]. exists (drop_order A s P l S X Y). split; [done |].
      apply view_drop_order; [done | apply Hrep | apply Hrep].
    + apply list_elem_of_fmap_2. by eapply located_in.
Qed.

Lemma modify_order_aux b v id q :
  represents ndebug b v → is_u32 q →
  ∃ b', let ok := bool_decide (q < default 0 (vb_qty id v)) in
    modify_order ndebug b id q = Some (b', ok) ∧
    represents ndebug b' (if ok then if bool_decide (q = 0) then vb_remove id v else vb_resize id q v
                          else v).
Proof.
  intros (A & Hrep & <-) Hq. unfold vb_qty. rewrite vb_orders_view.
  destruct (modify_order_rep ndebug 1 b A id q ltac:(lia) Hrep Hq)
    as [[Hni ->] | (s & P & l & S & X & o & Y & Hloc & <- & Hm)].
  - exists b. destruct (q_find_view (all_orders A) id) as [[-> _] | (o & Ho & <- & _)].
    + simpl. rewrite bool_decide_false by mlia. split; [done | by exists A].
    + destruct Hni. by apply list_elem_of_fmap_2.
  - rewrite q_find_In; [| apply Hrep | by eapply located_in]. simpl.
    destruct (bool_decide (q >= ao_qty o)) eqn:Hge.
    + apply bool_decide_eq_true in Hge. exists b. rewrite bool_decide_false by lia.
      split; [done | by exists A].
    + apply bool_decide_eq_false in Hge. destruct Hm as (b' & -> & Hrep').
      exists b'. rewrite bool_decide_true by lia. split; [done |].
      destruct (bool_decide (q = 0)); eexists; (split; [exact Hrep' |]).
      * apply view_drop_order; [done | apply Hrep | apply Hrep].
      * apply view_resize_order; [done | apply Hrep].
Qed.
End Contracts.

(** * A concrete book *)

Abbreviation Tab := (HM.HashMap Z Z).
#[export] Instance demo_table : Table Z Z Tab := HMSpec.HashMap_Table DefaultHash.
#[export] Instance demo_laws : TableLaws Z Z Tab := HMSpec.HashMap_TableLaws DefaultHash.

Definition demo_params : Params :=
  {| max_orders := 4; max_levels := 4; order_map_cap := 8; level_map_cap := 8 |}.
Definition garbage : list (HM.Slot Z Z) :=
  replicate 8 {| HM.key := 5; HM.value := 99; HM.state := HM.kFull |}.
Definition no_book : OrderBook Tab Tab :=
  {| order_slots_ := []; level_slots_ := []; max_orders_ := 0; max_levels_ := 0;
     order_free_ := IFS.empty_stack; level_free_ := IFS.empty_stack; bids_ := []; asks_ := [];
     order_map_ := HM.null_map; level_map_bid_ := HM.null_map; level_map_ask_ := HM.null_map |}.
Definition demo : OrderBook Tab Tab :=
  default no_book (default None (bind true (Some 4099) 2000 demo_params garbage garbage garbage)).

Lemma demo_params_good : good_params demo_params.
Proof. split; simpl; [lia | lia | exists 3; lia | exists 3; lia]. Qed.

Lemma demo_represents : represents true demo vb_empty.
Proof.
  destruct (bind_ok_aux true DefaultHash DefaultHash 4099 2000 demo_params garbage garbage garbage
    demo_params_good) as (b & E & Hb); [lia | lia | vm_compute; congruence | vm_compute; congruence .. |].
  unfold demo. by rewrite E.
Qed.

(** The book after some additions. *)
Definition demo_add (b : OrderBook Tab Tab) (id : Z) (s : Side) (p q : Z) : OrderBook Tab Tab :=
  default b (fst <$> add_order true b id s p q).
Definition demo1 : OrderBook Tab Tab := demo_add demo 7 kBid 100 5.
Definition demo2 : OrderBook Tab Tab := demo_add demo1 8 kBid 100 3.
Definition demo3 : OrderBook Tab Tab := demo_add demo2 9 kAsk 102 4.
Definition demo_view : vbook :=
  {| v_bids := [(100, [(7, 5); (8, 3)])]; v_asks := [(102, [(9, 4)])] |}.

Lemma demo_add_represents b v id s p q b' :
  represents true b v → valid_side s = true → is_u32 q →
  add_order true b id s p q = Some (b', true) → represents true b' (vb_add s p id q v).
Proof.
  intros Hb Hv Hq E. destruct (add_order_aux true b v id s p q Hb Hv Hq) as (b1 & ok & E1 & Hr & _).
  rewrite E in E1. by simplify_eq.
Qed.

Lemma demo3_represents : represents true demo3 demo_view.
Proof.
  change demo_view with (vb_add kAsk 102 9 4 (vb_add kBid 100 8 3 (vb_add kBid 100 7 5 vb_empty))).
  apply (demo_add_represents demo2); [| done | by split | by vm_compute].
  apply (demo_add_represents demo1); [| done | by split | by vm_compute].
  apply (demo_add_represents demo); [apply demo_represents | done | by split | by vm_compute].
Qed.

(** * The properties *)

Section Properties.
Context (ndebug : bool) {OM LM : Type} `{TO : Table Z Z OM} `{TL : Table Z Z LM}
  {OML : TableLaws Z Z OM} {LML : TableLaws Z Z LM}.
Implicit Types (b : OrderBook OM LM) (v : vbook).

(** C2. [add_order] on a book that represents [v] never fails an assertion
    or leaves a pool or table: it either appends the order to the queue of
    its price (creating the level at its sorted place if needed) or
    refuses, for one of the documented reasons, and leaves the book as it
    was. *)
Theorem add_order_correct b v id s p q :
  represents ndebug b v → valid_side s = true → is_u32 q →
  ∃ b' ok, add_order ndebug b id s p q = Some (b', ok) ∧
    represents ndebug b' (if ok then vb_add s p id q v else v) ∧
    if ok : bool then q ≠ 0 ∧ id ∉ vb_ids v else refusal b v id s p q.
Proof. apply add_order_aux. Qed.

(** [cancel_order] succeeds exactly on the identities that rest in the
    book, and removes that order and nothing else; a level it empties
    disappears. *)
Theorem cancel_order_correct b v id :
  represents ndebug b v →
  ∃ b', cancel_order ndebug b id = Some (b', bool_decide (id ∈ vb_ids v)) ∧
    represents ndebug b' (vb_remove id v).
Proof. apply cancel_order_aux. Qed.

(** [modify_order] only ever reduces: it returns true exactly when the
    new quantity is below the resting one, it keeps the order's place in
    its queue, and a reduction to zero is a cancellation. *)
Theorem modify_order_correct b v id q :
  represents ndebug b v → is_u32 q →
  ∃ b', let ok := bool_decide (q < default 0 (vb_qty id v)) in
    modify_order ndebug b id q = Some (b', ok) ∧
    represents ndebug b' (if ok then if bool_decide (q = 0) then vb_remove id v else vb_resize id q v
                          else v).
Proof. apply modify_order_aux. Qed.

(** [clear] empties a book of any content and depth, and its three
    closing assertions hold. *)
Theorem clear_correct b v :
  represents ndebug b v → ∃ b', clear ndebug b = Some b' ∧ represents ndebug b' vb_empty.
Proof. apply clear_aux. Qed.

(** Every query answers what the abstract book says: best prices, the
    quantity of an order, the volume (modulo 2^32, the width of [Qty]) and
    the number of orders at a price, presence of an identity, and depth. *)
Theorem queries_correct b v :
  represents ndebug b v →
  best_bid b = Some (v_best (v_bids v)) ∧
  best_ask b = Some (v_best (v_asks v)) ∧
  (∀ id, has_order b id = Some (bool_decide (id ∈ vb_ids v))) ∧
  (∀ id, order_qty b id = Some (default 0 (vb_qty id v))) ∧
  (∀ s p, valid_side s = true →
     volume_at_level b s p = Some (u32 (v_volume (v_lookup p (v_side v s)))) ∧
     order_count_at_level b s p = Some (u32 (lenZ (v_lookup p (v_side v s)))) ∧
     book_depth b s = lenZ (v_side v s)).
Proof.
  intros Hr. split; [by apply (best_bid_eq ndebug) |]. split; [by apply (best_ask_eq ndebug) |].
  split; [intros id; by apply (has_order_eq ndebug) |].
  split; [intros id; by apply (order_qty_eq ndebug) |].
  intros s p Hv. split; [by apply (volume_at_level_eq ndebug) |].
  split; [by apply (order_count_at_level_eq ndebug) |].
  by destruct (counts_eq ndebug b v Hr) as (_ & _ & _ & ->).
Qed.

(** C35. The type invariant of the book: prices of a ladder strictly worsen
    from the front, no level is empty, quantities are positive, identities
    are unique; and the pools account for every slot, so that no slot
    leaks or is used twice. *)
Theorem book_invariant b v :
  represents ndebug b v →
  vb_wf v ∧ total_orders b = lenZ (vb_orders v) ∧
  free_order_count b + lenZ (vb_orders v) = max_orders_ b ∧
  free_level_count b + lenZ (v_bids v) + lenZ (v_asks v) = max_levels_ b.
Proof.
  intros Hr. split; [by apply (represents_wf_aux ndebug b) |].
  destruct (counts_eq ndebug b v Hr) as (H1 & H2 & H3 & _). lia.
Qed.
End Properties.

Lemma add_order_correct_witness :
  valid_side kBid = true ∧
  ∃ b' ok, add_order true demo3 10 kBid 101 2 = Some (b', ok) ∧
    represents true b' (if ok then vb_add kBid 101 10 2 demo_view else demo_view) ∧
    if ok : bool then 2 ≠ 0 ∧ 10 ∉ vb_ids demo_view else refusal demo3 demo_view 10 kBid 101 2.
Proof.
  split; [done |].
  apply (add_order_correct true demo3 demo_view 10 kBid 101 2); [apply demo3_represents | done | by split].
Defined.

Lemma cancel_order_correct_witness :
  ∃ b', cancel_order true demo3 7 = Some (b', bool_decide (7 ∈ vb_ids demo_view)) ∧
    represents true b' (vb_remove 7 demo_view).
Proof. apply (cancel_order_correct true demo3 demo_view 7), demo3_represents. Defined.

Lemma modify_order_correct_witness :
  ∃ b', let ok := bool_decide (2 < default 0 (vb_qty 7 demo_view)) in
    modify_order true demo3 7 2 = Some (b', ok) ∧
    represents true b' (if ok then if bool_decide (2 = 0) then vb_remove 7 demo_view
                                   else vb_resize 7 2 demo_view else demo_view).
Proof. apply (modify_order_correct true demo3 demo_view 7 2); [apply demo3_represents | by split]. Defined.

Lemma clear_correct_witness : ∃ b', clear true demo3 = Some b' ∧ represents true b' vb_empty.
Proof. apply (clear_correct true demo3 demo_view), demo3_represents. Defined.

Lemma queries_correct_witness :
  best_bid demo3 = Some (Some 100) ∧ best_ask demo3 = Some (Some 102) ∧
  (∀ id, has_order demo3 id = Some (bool_decide (id ∈ vb_ids demo_view))) ∧
  (∀ id, order_qty demo3 id = Some (default 0 (vb_qty id demo_view))) ∧
  (∀ s p, valid_side s = true →
     volume_at_level demo3 s p = Some (u32 (v_volume (v_lookup p (v_side demo_view s)))) ∧
     order_count_at_level demo3 s p = Some (u32 (lenZ (v_lookup p (v_side demo_view s)))) ∧
     book_depth demo3 s = lenZ (v_side demo_view s)).
Proof. apply (queries_correct true demo3 demo_view), demo3_represents. Defined.

Lemma book_invariant_witness :
  vb_wf demo_view ∧ total_orders demo3 = lenZ (vb_orders demo_view) ∧
  free_order_count demo3 + lenZ (vb_orders demo_view) = max_orders_ demo3 ∧
  free_level_count demo3 + lenZ (v_bids demo_view) + lenZ (v_asks demo_view) = max_levels_ demo3.
Proof. apply (book_invariant true demo3 demo_view), demo3_represents. Defined.

(** The buffer size [required_buffer_size] promises is enough: whatever
    the buffer's address and contents, [bind] on valid parameters carves its
    seven regions, and the book it builds represents the empty book. *)
Theorem bind_correct ndebug hash_id hash_price addr bytes ps om_raw bid_raw ask_raw :
  good_params ps → 0 <= addr → addr + bytes < 2 ^ 63 → required_buffer_size ndebug ps <= bytes →
  order_map_cap ps <= lenZ om_raw → level_map_cap ps <= lenZ bid_raw →
  level_map_cap ps <= lenZ ask_raw →
  ∃ b, bind ndebug (Some addr) bytes ps om_raw bid_raw ask_raw = Some (Some b) ∧
    represents (TO := HMSpec.HashMap_Table hash_id) (TL := HMSpec.HashMap_Table hash_price)
      (OML := HMSpec.HashMap_TableLaws hash_id) (LML := HMSpec.HashMap_TableLaws hash_price)
      ndebug b vb_empty.
Proof. apply bind_ok_aux. Qed.

Lemma bind_correct_witness :
  ∃ b, bind true (Some 4099) 2000 demo_params garbage garbage garbage = Some (Some b) ∧
    represents true b vb_empty.
Proof.
  apply (bind_correct true DefaultHash DefaultHash 4099 2000 demo_params garbage garbage garbage);
    [apply demo_params_good | lia | lia | vm_compute; congruence | vm_compute; congruence ..].
Defined.

(** A book of four levels and a price table of four slots: the parameters are
    accepted, but the table takes only two levels, so the third price of a
    side is refused although levels are free and nothing was ever erased.
    The source says this path is unreachable. *)
Definition tight_params : Params :=
  {| max_orders := 4; max_levels := 4; order_map_cap := 8; level_map_cap := 4 |}.
Definition tight : OrderBook Tab Tab :=
  default no_book (default None (bind true (Some 4099) 2000 tight_params garbage garbage garbage)).

(** [find_or_create_level] can refuse a level while the level pool has
    free levels and [max_levels <= level_map_cap] holds: the 70% load limit
    of the price table comes first. *)
Theorem level_table_limit :
  params_valid tight_params = true ∧
  ∃ b1 b2 b3, add_order true tight 1 kBid 100 1 = Some (b1, true) ∧
    add_order true b1 2 kBid 101 1 = Some (b2, true) ∧
    add_order true b2 3 kBid 102 1 = Some (b3, false) ∧
    free_level_count b2 = 2 ∧ free_order_count b2 = 2.
Proof.
  split; [done |].
  exists (demo_add tight 1 kBid 100 1), (demo_add (demo_add tight 1 kBid 100 1) 2 kBid 101 1).
  eexists. split; [by vm_compute |]. split; [by vm_compute |].
  split; [vm_compute; reflexivity |]. by vm_compute.
Qed.
