(* ===== verification/MatchingEngine.v ===== *)
(** The price-time priority matching engine:
    [src/libs/algo/matching_engine.hpp].

    The two nested [while] loops of [submit_order] are [match_level] and
    [match_loop]; every iteration that does not leave its loop records a
    fill, so [MaxFills] iterations are fuel enough for either. *)
From S2P Require Import Prelude.
From S2P Require Import IndexFreeStack.
From S2P Require Import TableInterface.
From S2P Require Import TradingTypes.
From S2P Require Import OrderBook.
Local Open Scope Z_scope.
Local Open Scope array_scope.

Record Fill : Set := {
  maker_id : Z;
  taker_id : Z;
  f_price : Z;
  f_qty : Z;
}.

#[export] Instance Fill_eq_dec : EqDecision Fill.
Proof. solve_decision. Defined.

Record MatchResult : Set := {
  fills : list Fill;
  remaining_qty : Z;
  rested : bool;
}.

Definition has_fills (r : MatchResult) : bool := negb (bool_decide (fills r = [])).
Definition fully_filled (r : MatchResult) : bool :=
  negb (bool_decide (fills r = [])) && bool_decide (remaining_qty r = 0) && negb (rested r).
Definition rested_in_book (r : MatchResult) : bool := rested r.
Definition rejected (r : MatchResult) : bool :=
  bool_decide (fills r = []) && negb (rested r).

Record ModifyResult : Set := {
  m_fills : list Fill;
  m_remaining_qty : Z;
  m_rested : bool;
  success : bool;
}.

Definition m_rested_in_book (r : ModifyResult) : bool := success r && m_rested r.

Record MatchingEngine (OM LM : Type) : Type := {
  book_ : OrderBook OM LM;
  fills_ : list Fill;
  fill_count_ : Z;
}.
Arguments book_ {OM LM}.
Arguments fills_ {OM LM}.
Arguments fill_count_ {OM LM}.

Definition empty_fill : Fill := {| maker_id := 0; taker_id := 0; f_price := 0; f_qty := 0 |}.

Section Engine.
  Context (ndebug : bool) {OM LM : Type} `{Table Z Z OM} `{Table Z Z LM}.
  Context (MaxFills : Z).
  Implicit Types (e : MatchingEngine OM LM) (b : OrderBook OM LM).

Definition with_book e b : MatchingEngine OM LM :=
  {| book_ := b; fills_ := fills_ e; fill_count_ := fill_count_ e |}.

(** [explicit MatchingEngine(OrderBook &&book)] *)
Definition from_book b : MatchingEngine OM LM :=
  {| book_ := b; fills_ := replicate (Z.to_nat MaxFills) empty_fill; fill_count_ := 0 |}.

(** [std::span<const Fill>(fills_.data(), n)] *)
Definition fills_span e (n : Z) : list Fill := take (Z.to_nat n) (fills_ e).

(** The price test: a buy crosses at or above the best ask, a sell at or
    below the best bid. *)
Definition crosses (s : Side) (price best : Z) : bool :=
  if bool_decide (s = kBid) then bool_decide (price >= best) else bool_decide (price <= best).

(** One execution against the front order [o] of level [l]: the fill is
    recorded, the three quantities are reduced, and a filled order leaves
    the book.  The flag says that the level was destroyed. *)
Definition match_one e (id l o exec_price remaining : Z)
    : option (MatchingEngine OM LM * Z * bool) :=
  let b := book_ e in
  resting ← get_order b o;
  let fill_qty := Z.min remaining (qty resting) in
  fills ← storeZ (fills_ e) (fill_count_ e)
    {| maker_id := order_id resting; taker_id := id; f_price := exec_price; f_qty := fill_qty |};
  let remaining := u32 (remaining - fill_qty) in
  b ← upd_order b o (set_qty (u32 (qty resting - fill_qty)));
  b ← upd_level b l (λ lv, set_total (u32 (total_qty lv - fill_qty)) lv);
  resting ← get_order b o;
  '(b, destroyed) ← (if bool_decide (qty resting = 0) then remove_filled_order ndebug b o
                     else Some (b, false));
  Some ({| book_ := b; fills_ := fills; fill_count_ := u32 (fill_count_ e + 1) |},
        remaining, destroyed).

(** The inner loop, over the orders of [best_level] in FIFO order. *)
Fixpoint match_level (fuel : nat) e (id l exec_price remaining : Z)
    : option (MatchingEngine OM LM * Z) :=
  if bool_decide (remaining > 0) then
    lv ← get_level (book_ e) l;
    match orders lv with
    | [] => Some (e, remaining)
    | o :: _ =>
        if bool_decide (fill_count_ e < MaxFills) then
          match fuel with
          | O => None
          | S fuel =>
              '(e, remaining, destroyed) ← match_one e id l o exec_price remaining;
              if destroyed : bool then Some (e, remaining)
              else match_level fuel e id l exec_price remaining
          end
        else Some (e, remaining)
    end
  else Some (e, remaining).

(** The outer loop, over the crossing levels of the opposite ladder. *)
Fixpoint match_loop (fuel : nat) e (id : Z) (s : Side) (price remaining : Z)
    : option (MatchingEngine OM LM * Z) :=
  if bool_decide (remaining > 0) then
    match ladder (book_ e) (opposite s) with
    | [] => Some (e, remaining)
    | l :: _ =>
        if bool_decide (fill_count_ e < MaxFills) then
          lv ← get_level (book_ e) l;
          if negb (crosses s price (pl_price lv)) then Some (e, remaining)
          else
            match fuel with
            | O => None
            | S fuel =>
                '(e, remaining) ← match_level (Z.to_nat MaxFills) e id l (pl_price lv) remaining;
                match_loop fuel e id s price remaining
            end
        else Some (e, remaining)
    end
  else Some (e, remaining).

(** [still_crosses]: matching stopped although the prices overlap. *)
Definition still_crosses b (s : Side) (price : Z) : option bool :=
  match ladder b (opposite s) with
  | [] => Some false
  | l :: _ => lv ← get_level b l; Some (crosses s price (pl_price lv))
  end.

Definition submit_order e (id : Z) (s : Side) (price q : Z)
    : option (MatchingEngine OM LM * MatchResult) :=
  if bool_decide (q = 0) then
    Some (e, {| fills := fills_span e 0; remaining_qty := 0; rested := false |})
  else
    dup ← has_order (book_ e) id;
    if dup : bool then
      Some (e, {| fills := fills_span e 0; remaining_qty := q; rested := false |})
    else
      let e := {| book_ := book_ e; fills_ := fills_ e; fill_count_ := 0 |} in
      '(e, remaining) ← match_loop (Z.to_nat MaxFills) e id s price q;
      '(e, rested) ←
        (if bool_decide (remaining > 0) then
           still ← still_crosses (book_ e) s price;
           if still : bool then Some (e, false)
           else
             '(b, rested) ← rest_order ndebug (book_ e) id s price remaining;
             Some (with_book e b, rested)
         else Some (e, false));
      Some (e, {| fills := fills_span e (fill_count_ e); remaining_qty := remaining;
                  rested := rested |}).

Definition cancel e (id : Z) : option (MatchingEngine OM LM * bool) :=
  '(b, ok) ← cancel_order ndebug (book_ e) id;
  Some (with_book e b, ok).

(** Cancel and re-submit: the replacement loses its time priority. *)
Definition modify e (old_id : Z) (s : Side) (new_price new_qty new_id : Z)
    : option (MatchingEngine OM LM * ModifyResult) :=
  '(e, found) ← cancel e old_id;
  if negb found then
    Some (e, {| m_fills := fills_span e 0; m_remaining_qty := 0; m_rested := false;
                success := false |})
  else
    '(e, r) ← submit_order e new_id s new_price new_qty;
    Some (e, {| m_fills := fills r; m_remaining_qty := remaining_qty r;
                m_rested := rested r; success := true |}).

End Engine.
