(* ===== verification/MatchSpec.v ===== *)
(** Matching, abstractly: what an incoming order does to the opposite ladder.

    [q_match] consumes a queue from its front, [v_match] a ladder from its
    best price, each within a budget of fills.  The theorems of this file
    are the rules of price-time priority; the second half shows that
    the engine computes exactly these functions.

    The matching engine computes price-time priority matching: its nested
    loops over pools and intrusive queues are these
    functions on the abstract ladder.

    The matching engine, call by call: submission, cancellation and
    modification against the abstract book, and the market rules that follow
    (price-time priority, conservation, no crossed book). *)
From Stdlib Require Import Sorted.
From S2P Require Import Prelude.
From S2P Require Import IndexFreeStack.
From S2P Require Import TableInterface.
From S2P Require Import TradingTypes.
From S2P Require Import OrderBook.
From S2P Require Import BookView.
From S2P Require Import OrderBookRep.
From S2P Require Import OrderBookCore.
From S2P Require Import OrderBookSpec.
From S2P Require Import MatchingEngine.
Local Open Scope Z_scope.
Local Open Scope array_scope.

Definition mk_fill (mid taker p q : Z) : Fill :=
  {| maker_id := mid; taker_id := taker; f_price := p; f_qty := q |}.

(** Fills, what is left of the queue, what is left of the order. *)
Fixpoint q_match (n : nat) (os : queue) (taker p rem : Z) : list Fill * queue * Z :=
  match n, os with
  | S n, (mid, q) :: os' =>
      if bool_decide (rem <= 0) then ([], os, rem)
      else if bool_decide (rem < q) then ([mk_fill mid taker p rem], (mid, q - rem) :: os', 0)
      else let '(fs, os'', rem') := q_match n os' taker p (rem - q) in
           (mk_fill mid taker p q :: fs, os'', rem')
  | _, _ => ([], os, rem)
  end.

Fixpoint v_match (n : nat) (V : vladder) (taker : Z) (s : Side) (price rem : Z)
    : list Fill * vladder * Z :=
  match V with
  | [] => ([], [], rem)
  | (p, os) :: V' =>
      if bool_decide (rem <= 0) || bool_decide (n = 0%nat) || negb (crosses s price p)
      then ([], V, rem)
      else
        let '(fs, os', rem') := q_match n os taker p rem in
        match os' with
        | [] => let '(fs', V'', rem'') := v_match (n - length fs) V' taker s price rem' in
                (fs ++ fs', V'', rem'')
        | _ => (fs, (p, os') :: V', rem')
        end
  end.

Definition fill_total (fs : list Fill) : Z := foldr (λ f n, f_qty f + n) 0 fs.

(** The best price of the ladder still crosses. *)
Definition v_crosses (s : Side) (price : Z) (V : vladder) : bool :=
  match V with [] => false | (p, _) :: _ => crosses s price p end.

(** The abstract outcome of a submission: the fills, the remainder, and the
    book before the remainder rests. *)
Definition vb_match (n : nat) (v : vbook) (taker : Z) (s : Side) (price q : Z)
    : list Fill * vbook * Z :=
  let '(fs, V, rem) := v_match n (v_side v (opposite s)) taker s price q in
  (fs, v_with v (opposite s) V, rem).

(** * Properties of the abstract matching *)

Lemma fill_total_app fs fs' : fill_total (fs ++ fs') = fill_total fs + fill_total fs'.
Proof. unfold fill_total. induction fs; simpl; lia. Qed.

Section Queue.
Context (taker p : Z).

Record q_match_props (n : nat) (os : queue) (rem : Z) (fs : list Fill) (os' : queue) (rem' : Z) : Prop := {
  qm_taken : fill_total fs = rem - rem';
  qm_queue : v_volume os' = v_volume os - fill_total fs;
  qm_rem : 0 <= rem' <= rem;
  qm_count : (length fs <= n)%nat;
  qm_pos : ∀ f, f ∈ fs → 0 < f_qty f;
  qm_price : ∀ f, f ∈ fs → f_price f = p ∧ taker_id f = taker;
  (** FIFO: the makers are the front of the queue. *)
  qm_fifo : maker_id <$> fs = take (length fs) os.*1;
  qm_ids : ∀ i, i ∈ os'.*1 → i ∈ os.*1;
  qm_nodup : NoDup os.*1 → NoDup os'.*1;
  qm_left : ∀ o, o ∈ os' → 0 < o.2;
  (** It stops because nothing remains, the queue is empty or the budget
      is spent. *)
  qm_stop : rem' = 0 ∨ os' = [] ∨ length fs = n;
  qm_progress : n ≠ 0%nat → os ≠ [] → 0 < rem → fs ≠ [];
  (** Every order of the queue is either a maker or still queued. *)
  qm_all : (length fs <= length os <= length fs + length os')%nat;
}.

Lemma q_match_spec n os rem :
  0 <= rem → (∀ o, o ∈ os → 0 < o.2) →
  let '(fs, os', rem') := q_match n os taker p rem in q_match_props n os rem fs os' rem'.
Proof.
  revert os rem. induction n as [| n IH]; intros os rem Hrem Hpos; [| destruct os as [| [mid q] os]]; simpl.
  1,2: split; simpl; try done; try lia; try (by intros ? ?%elem_of_nil);
       tauto.
  assert (0 < q) as Hq by (apply (Hpos (mid, q)); left).
  case_bool_decide.
  { split; simpl; try done; try lia; try (by intros ? ?%elem_of_nil).
    }
  case_bool_decide.
  - split; simpl; try done; try lia.
    + intros f ->%list_elem_of_singleton. simpl. lia.
    + by intros f ->%list_elem_of_singleton.
    + intros o [-> | Ho]%elem_of_cons; simpl; [lia |]. apply Hpos. by right.
  - specialize (IH os (rem - q) ltac:(lia)).
    destruct (q_match n os taker p (rem - q)) as [[fs os'] rem'].
    destruct IH; [intros o Ho; apply Hpos; by right |].
    split; simpl; try done; try lia.
    + intros f [-> | Hf]%elem_of_cons; [done | auto].
    + intros f [-> | Hf]%elem_of_cons; [done | auto].
    + f_equal. exact qm_fifo0.
    + intros i Hi. right. auto.
    + intros [_ Hnd]%nodup_cons. auto.
    + destruct qm_stop0 as [? | [? | <-]]; auto.
Qed.
End Queue.

Section Ladder.
Context (taker : Z) (s : Side) (price : Z).

Record v_match_props (n : nat) (V : vladder) (rem : Z) (fs : list Fill) (V' : vladder) (rem' : Z) : Prop := {
  vm_taken : fill_total fs = rem - rem';
  vm_total : v_total V' = v_total V - fill_total fs;
  vm_rem : 0 <= rem' <= rem;
  vm_count : (length fs <= n)%nat;
  vm_pos : ∀ f, f ∈ fs → 0 < f_qty f;
  (** Every fill is at the price of the maker's level, which crosses. *)
  vm_price : ∀ f, f ∈ fs → taker_id f = taker ∧ crosses s price (f_price f) = true ∧
    ∃ os, (f_price f, os) ∈ V ∧ maker_id f ∈ os.*1;
  (** The makers are the first orders of the ladder in priority order. *)
  vm_fifo : maker_id <$> fs = take (length fs) (v_ids V);
  vm_ids : ∀ i, i ∈ v_ids V' → i ∈ v_ids V;
  vm_nodup : NoDup (v_ids V) → NoDup (v_ids V');
  vm_prices : ∃ k, V'.*1 = drop k V.*1;
  vm_queues : ∀ p os, (p, os) ∈ V' → os ≠ [] ∧ ∀ o, o ∈ os → 0 < o.2;
  vm_stop : rem' = 0 ∨ v_crosses s price V' = false ∨ length fs = n;
}.

Definition queues_ok (V : vladder) : Prop :=
  ∀ p os, (p, os) ∈ V → os ≠ [] ∧ ∀ o, o ∈ os → 0 < o.2.

(** The ladder after its first level was consumed, or kept. *)
Lemma v_ids_cons p os V : v_ids ((p, os) :: V) = os.*1 ++ v_ids V.
Proof. done. Qed.

Lemma v_total_cons p os V : v_total ((p, os) :: V) = v_volume os + v_total V.
Proof. done. Qed.

Lemma v_match_nil n V rem :
  0 <= rem → queues_ok V → (rem = 0 ∨ v_crosses s price V = false ∨ n = 0%nat) →
  v_match_props n V rem [] V rem.
Proof.
  intros Hr Hq Hs. split; simpl; try done; try lia; try (by intros ? ?%elem_of_nil).
  - by exists 0%nat.
  - naive_solver.
Qed.

Lemma queues_ok_tail p os V : queues_ok ((p, os) :: V) → queues_ok V.
Proof. intros Hq p' os' H. apply (Hq p' os'). by right. Qed.

(** The queue is not exhausted: matching stops inside the level. *)
Lemma v_match_props_stay n p os V rem fs o os' rem' :
  queues_ok ((p, os) :: V) → crosses s price p = true →
  q_match_props taker p n os rem fs (o :: os') rem' →
  v_match_props n ((p, os) :: V) rem fs ((p, o :: os') :: V) rem'.
Proof.
  intros Hq Hc Hqm. destruct Hqm.
  split; rewrite ?v_ids_cons, ?v_total_cons; try done.
  - lia.
  - intros f Hf. destruct (qm_price0 f Hf) as [-> ->]. split; [done |]. split; [done |].
    exists os. split; [left |].
    apply (list_elem_of_fmap_2 maker_id) in Hf. rewrite qm_fifo0 in Hf.
    apply elem_of_take in Hf as (i & Hi & _). by eapply list_elem_of_lookup_2.
  - rewrite qm_fifo0. apply (f_equal length) in qm_fifo0 as Hlen.
    rewrite length_fmap, length_take in Hlen. rewrite take_app_le; [done | lia].
  - intros i. rewrite !elem_of_app. intros [Hi | Hi]; auto.
  - rewrite !nodup_app. intros (H1 & H2 & H3). split; [auto |]. split; [| done].
    intros i Hi. apply H2. auto.
  - by exists 0%nat.
  - intros p' os'' [[= -> ->] | H]%elem_of_cons; [by split |]. apply (Hq p' os''). by right.
  - naive_solver.
Qed.

(** The queue is exhausted: matching goes on with the next level. *)
Lemma v_match_props_next n p os V rem fs rem1 fs' V' rem' :
  queues_ok ((p, os) :: V) → crosses s price p = true →
  q_match_props taker p n os rem fs [] rem1 →
  v_match_props (n - length fs) V rem1 fs' V' rem' →
  v_match_props n ((p, os) :: V) rem (fs ++ fs') V' rem'.
Proof.
  intros Hq Hc Hqm Hvm. destruct Hqm, Hvm.
  assert (length fs = length os) as Hall by (simpl in *; lia).
  split; rewrite ?fill_total_app, ?v_ids_cons, ?v_total_cons; try done.
  - lia.
  - simpl in *. lia.
  - lia.
  - rewrite length_app. lia.
  - intros f [Hf | Hf]%elem_of_app; auto.
  - intros f [Hf | Hf]%elem_of_app.
    + destruct (qm_price0 f Hf) as [-> ->]. split; [done |]. split; [done |].
      exists os. split; [left |]. apply (list_elem_of_fmap_2 maker_id) in Hf.
      rewrite qm_fifo0 in Hf. apply elem_of_take in Hf as (i & Hi & _).
      by eapply list_elem_of_lookup_2.
    + destruct (vm_price0 f Hf) as (? & ? & os0 & ? & ?). split; [done |]. split; [done |].
      exists os0. split; [by right | done].
  - rewrite fmap_app, length_app, take_app, length_fmap.
    replace (length fs + length fs' - length os)%nat with (length fs') by lia.
    rewrite qm_fifo0, vm_fifo0. f_equal.
    rewrite !take_ge; rewrite ?length_fmap; try done; lia.
  - intros i Hi. rewrite elem_of_app. right. auto.
  - rewrite nodup_app. intros (_ & _ & H). auto.
  - destruct vm_prices0 as [k Hk]. by exists (S k).
  - rewrite length_app. destruct vm_stop0 as [? | [? | ?]]; [by left | by right; left |].
    right; right. lia.
Qed.

Lemma v_match_spec n V rem :
  0 <= rem → queues_ok V →
  let '(fs, V', rem') := v_match n V taker s price rem in v_match_props n V rem fs V' rem'.
Proof.
  revert n rem. induction V as [| [p os] V IH]; intros n rem Hr Hq; simpl.
  { apply v_match_nil; [done.. |]. by right; left. }
  destruct (bool_decide (rem <= 0) || bool_decide (n = 0%nat) || negb (crosses s price p)) eqn:Hstop.
  { apply v_match_nil; [done.. |]. simpl. apply orb_true_iff in Hstop as [Hs | Hs].
    - apply orb_true_iff in Hs as [Hs%bool_decide_eq_true | Hs%bool_decide_eq_true]; [left; lia | by right; right].
    - right; left. by destruct (crosses s price p). }
  apply orb_false_iff in Hstop as [Hs Hc%negb_false_iff].
  apply orb_false_iff in Hs as [Hr0%bool_decide_eq_false Hn%bool_decide_eq_false].
  destruct (Hq p os ltac:(left)) as [Hne Hpos].
  pose proof (q_match_spec taker p n os rem Hr Hpos) as Hqm.
  destruct (q_match n os taker p rem) as [[fs os'] rem1].
  destruct os' as [| o os'].
  - specialize (IH (n - length fs)%nat rem1 ltac:(by destruct Hqm; lia) (queues_ok_tail _ _ _ Hq)).
    destruct (v_match (n - length fs) V taker s price rem1) as [[fs' V'] rem2].
    by eapply v_match_props_next.
  - by eapply v_match_props_stay.
Qed.
End Ladder.

Lemma take_setZ_snoc {A : Type} (l : list A) (n : Z) (x : A) :
  0 <= n < lenZ l → take (Z.to_nat (n + 1)) (l.[n <- x]) = take (Z.to_nat n) l ++ [x].
Proof.
  intros Hn. replace (Z.to_nat (n + 1)) with (S (Z.to_nat n)) by lia. unfold setZ.
  rewrite (take_S_r _ _ x) by (apply list_lookup_insert_eq; lia). by rewrite take_insert_ge.
Qed.

Lemma valid_opposite s : valid_side (opposite s) = true.
Proof. by destruct s. Qed.

Section EngineSpec.
Context (ndebug : bool) {OM LM : Type} `{TO : Table Z Z OM} `{TL : Table Z Z LM}
  {OML : TableLaws Z Z OM} {LML : TableLaws Z Z LM}.
Context (MaxFills : Z) (HMax : 0 <= MaxFills < 2 ^ 32).
Implicit Types (e : MatchingEngine OM LM) (b : OrderBook OM LM) (A : abook).
Abbreviation book_rep := (book_rep (OM := OM) (LM := LM) ndebug).

Lemma book_rep_weaken lo lo' b A : lo' <= lo → book_rep lo b A → book_rep lo' b A.
Proof. intros Hlo [Hc Hne Hq Hids Hmap]. split; try done. intros o Ho. specialize (Hq o Ho). lia. Qed.

Lemma drop_after_resize A s P l S X o Y q :
  valid_side s = true → side_of A s = P ++ l :: S →
  drop_order (resize_order A s P l S X o Y q) s P
    (with_orders l (X ++ with_qty q o :: Y)) S X Y
  = drop_order A s P l S X Y.
Proof.
  intros Hv Hs. unfold drop_order, resize_order. rewrite with_side_twice.
  unfold keep_level. by destruct (X ++ Y).
Qed.

(** One execution. *)
Lemma match_one_spec e A s l S o Y id rem :
  book_rep 1 (book_ e) A → located A s [] l S [] o Y →
  0 < rem < 2 ^ 32 → lenZ (fills_ e) = MaxFills → 0 <= fill_count_ e < MaxFills →
  let fq := Z.min rem (ao_qty o) in
  ∃ b', match_one ndebug e id (al_slot l) (ao_slot o) (al_price l) rem
    = Some ({| book_ := b';
               fills_ := (fills_ e).[fill_count_ e <- mk_fill (ao_id o) id (al_price l) fq];
               fill_count_ := fill_count_ e + 1 |},
            rem - fq, bool_decide (ao_qty o <= rem) && bool_decide (Y = [])) ∧
    book_rep 1 b' (if bool_decide (ao_qty o <= rem) then drop_order A s [] l S [] Y
                   else resize_order A s [] l S [] o Y (ao_qty o - rem)).
Proof.
  intros Hrep Hloc Hrem Hlen Hcnt fq. pose proof Hloc as [Hv Hs Hos].
  assert (1 <= ao_qty o < 2 ^ 32) as Hqo.
  { apply (br_qty _ _ _ _ Hrep). by eapply located_in. }
  unfold match_one. rewrite (located_image _ _ _ _ _ _ _ _ _ _ _ Hrep Hloc). simpl. fold fq.
  rewrite storeZ_Some by lia. simpl.
  assert (u32 (ao_qty o - fq) = ao_qty o - fq) as -> by (apply u32_id; mlia).
  assert (u32 (rem - fq) = rem - fq) as -> by (apply u32_id; mlia).
  assert (u32 (fill_count_ e + 1) = fill_count_ e + 1) as -> by (apply u32_id; mlia).
  pose proof Hrep as [(Ho & Hl & Hwf) _ _ _ _].
  destruct (resize_spec ndebug (book_ e) A s [] l S [] [] o Y (ao_qty o - fq) fq Hv Hs Hos Ho Hl
              ltac:(lia)) as (b1 & b2 & -> & E2 & Ho2 & Hl2 & Hg1 & Hg2 & Hm2). simpl.
  rewrite E2; simpl. rewrite Hg2; simpl.
  assert (book_rep 0 b2 (resize_order A s [] l S [] o Y (ao_qty o - fq))) as Hrep2.
  { eapply book_rep_resize; [| exact Hloc | mlia | done | done | done].
    eapply book_rep_weaken; [| exact Hrep]. lia. }
  destruct (bool_decide (ao_qty o <= rem)) eqn:Hle.
  - apply bool_decide_eq_true in Hle. rewrite bool_decide_true by lia.
    set (A2 := resize_order A s [] l S [] o Y (ao_qty o - fq)) in *.
    assert (located A2 s [] (with_orders l (with_qty (ao_qty o - fq) o :: Y)) S []
              (with_qty (ao_qty o - fq) o) Y) as Hloc2.
    { split; [done | | done]. unfold A2, resize_order. by rewrite side_of_with_side. }
    destruct (remove_filled_order_rep ndebug 0 b2 A2 _ _ _ _ _ _ _ Hrep2 Hloc2)
      as (b3 & E3 & Hrep3).
    simpl in E3. rewrite E3; simpl. exists b3. split; [done |].
    unfold A2 in Hrep3.
    rewrite (drop_after_resize A s [] l S [] o Y) in Hrep3 by done.
    destruct Hrep3 as [Hc Hne Hq Hids Hmap]. split; try done.
    intros x Hx. apply (br_qty _ _ _ _ Hrep). rewrite (all_orders_located _ _ _ _ _ _ _ _ Hloc).
    by right.
  - apply bool_decide_eq_false in Hle. rewrite bool_decide_false by lia. simpl.
    exists b2. split; [done |]. replace fq with rem in * by lia.
    destruct Hrep2 as [Hc Hne Hq Hids Hmap]. split; try done.
    intros x. rewrite (all_orders_resize _ _ _ _ _ _ _ _ Hloc). intros [-> | Hx]%elem_of_cons.
    + simpl. lia.
    + apply (br_qty _ _ _ _ Hrep). rewrite (all_orders_located _ _ _ _ _ _ _ _ Hloc). by right.
Qed.

(** The engine after [fs] more fills were recorded. *)
Record filled e (fs : list Fill) e' : Prop := {
  fd_span : fills_span e' (fill_count_ e') = fills_span e (fill_count_ e) ++ fs;
  fd_count : fill_count_ e' = fill_count_ e + lenZ fs;
  fd_len : length (fills_ e') = length (fills_ e);
}.

Lemma filled_nil e : filled e [] e.
Proof. split; [by rewrite app_nil_r | simpl; lia | done]. Qed.

Lemma filled_trans e1 fs1 e2 fs2 e3 :
  filled e1 fs1 e2 → filled e2 fs2 e3 → filled e1 (fs1 ++ fs2) e3.
Proof.
  intros [] []. split; rewrite ?length_app; try lia.
  by rewrite fd_span1, fd_span0, app_assoc.
Qed.

Lemma filled_one e f b :
  0 <= fill_count_ e < lenZ (fills_ e) →
  filled e [f] {| book_ := b; fills_ := (fills_ e).[fill_count_ e <- f];
                  fill_count_ := fill_count_ e + 1 |}.
Proof.
  intros Hc. split; simpl; [| done | apply length_setZ].
  unfold fills_span; simpl. by apply take_setZ_snoc.
Qed.

Definition cons_level (p : Z) (os : queue) (V : vladder) : vladder := v_level p os ++ V.

(** What one call of the inner loop leaves. *)
Record level_done e A s (S : list alevel) (p : Z) (fs : list Fill) (os' : queue) e' A' : Prop := {
  ld_filled : filled e fs e';
  ld_rep : book_rep 1 (book_ e') A';
  ld_view : view (side_of A' s) = cons_level p os' (view S);
  ld_others : ∀ s', s' ≠ s → side_of A' s' = side_of A s';
}.

Lemma match_level_spec fuel e A s l S id rem :
  book_rep 1 (book_ e) A → valid_side s = true → side_of A s = l :: S →
  0 <= rem < 2 ^ 32 → lenZ (fills_ e) = MaxFills → 0 <= fill_count_ e <= MaxFills →
  (Z.to_nat (MaxFills - fill_count_ e) <= fuel)%nat →
  let '(fs, os', rem') := q_match (Z.to_nat (MaxFills - fill_count_ e))
                            (view_order <$> al_orders l) id (al_price l) rem in
  ∃ e' A', match_level ndebug MaxFills fuel e id (al_slot l) (al_price l) rem = Some (e', rem') ∧
    level_done e A s S (al_price l) fs os' e' A'.
Proof.
  intros Hrep Hv. revert e A l rem Hrep.
  induction fuel as [| fuel IH]; intros e A l rem Hrep Hs Hrem Hlen Hcnt Hfuel.
  all: assert (al_orders l ≠ []) as Hne
    by (apply (br_nonempty _ _ _ _ Hrep), elem_of_levels; exists s; rewrite Hs; set_solver).
  all: assert (level_done e A s S (al_price l) [] (view_order <$> al_orders l) e A) as Hdone0
    by (split; [apply filled_nil | done | rewrite Hs; unfold cons_level; rewrite v_level_ne by (by destruct (al_orders l)); done | done]).
  all: assert (get_level (book_ e) (al_slot l) = Some (level_image s l)) as Hg
    by (apply (get_level_focus ndebug _ A s l); [apply Hrep | rewrite Hs; left]).
  all: assert (rem <= 0 ∨ 0 < rem) as [Hz | Hz] by lia.
  - replace (Z.to_nat (MaxFills - fill_count_ e)) with 0%nat by lia. simpl.
    rewrite bool_decide_false by lia. by exists e, A.
  - replace (Z.to_nat (MaxFills - fill_count_ e)) with 0%nat by lia. simpl.
    rewrite bool_decide_true by lia. rewrite Hg; simpl.
    destruct (al_orders l) as [| o Y]; [done |]. simpl. rewrite bool_decide_false by lia.
    by exists e, A.
  - simpl. rewrite (bool_decide_false (rem > 0)) by lia.
    destruct (Z.to_nat (MaxFills - fill_count_ e)), (al_orders l) as [| o Y]; try done; simpl;
      rewrite ?bool_decide_true by lia; by exists e, A.
  - simpl. rewrite (bool_decide_true (rem > 0)) by lia. rewrite Hg; simpl.
    destruct (al_orders l) as [| o Y] eqn:Hos; [done |]. simpl.
    destruct (bool_decide (fill_count_ e < MaxFills)) eqn:Hfc.
    2:{ apply bool_decide_eq_false in Hfc.
        replace (Z.to_nat (MaxFills - fill_count_ e)) with 0%nat by lia. simpl. by exists e, A. }
    apply bool_decide_eq_true in Hfc.
    assert (located A s [] l S [] o Y) as Hloc by done.
    destruct (match_one_spec e A s l S o Y id rem Hrep Hloc ltac:(lia) Hlen ltac:(lia))
      as (b' & -> & Hrep'). simpl.
    replace (Z.to_nat (MaxFills - fill_count_ e))
      with (Datatypes.S (Z.to_nat (MaxFills - (fill_count_ e + 1)))) by lia. simpl.
    rewrite (bool_decide_false (rem <= 0)) by lia.
    pose proof (filled_one e (mk_fill (ao_id o) id (al_price l) (Z.min rem (ao_qty o))) b'
                  ltac:(lia)) as Hf1.
    set (e1 := {| book_ := b'; fills_ := _; fill_count_ := _ |}) in *.
    assert (lenZ (fills_ e1) = MaxFills) as Hlen1 by (by rewrite (fd_len _ _ _ Hf1)).
    destruct (bool_decide (ao_qty o <= rem)) eqn:Hle; simpl.
    + (* the resting order is filled *)
      apply bool_decide_eq_true in Hle. rewrite (bool_decide_false (rem < ao_qty o)) by lia.
      replace (Z.min rem (ao_qty o)) with (ao_qty o) in * by lia.
      assert (ao_qty o <= rem) as Hle' by done.
      assert (1 <= ao_qty o) as Hq1.
      { apply (br_qty _ _ _ _ Hrep). by eapply located_in. }
      destruct (decide (Y = [])) as [-> | HY].
      * destruct (Z.to_nat (MaxFills - (fill_count_ e + 1))); simpl;
          (exists e1, (drop_order A s [] l S [] []); split; [done |];
           split; [done | done | | intros; by apply side_of_with_side_ne];
           unfold drop_order; rewrite side_of_with_side by done; done).
      * assert (side_of (drop_order A s [] l S [] Y) s = with_orders l Y :: S) as Hs'.
        { unfold drop_order. rewrite side_of_with_side by done. by destruct Y. }
        specialize (IH e1 (drop_order A s [] l S [] Y) (with_orders l Y) (rem - ao_qty o)
                      Hrep' Hs' ltac:(lia) Hlen1 ltac:(simpl; lia) ltac:(simpl; lia)).
        simpl in IH. rewrite bool_decide_false by done.
        change (list_fmap aorder (Z * Z)%type view_order Y) with (view_order <$> Y).
        destruct (q_match _ (view_order <$> Y) id (al_price l) (rem - ao_qty o)) as [[fs os'] rem'].
        destruct IH as (e' & A' & -> & []). exists e', A'. split; [done |]. split; try done.
        -- by eapply (filled_trans e [_]).
        -- intros s' Hs''. rewrite ld_others0 by done. unfold drop_order. by apply side_of_with_side_ne.
    + (* the incoming order is filled *)
      apply bool_decide_eq_false in Hle. rewrite (bool_decide_true (rem < ao_qty o)) by lia.
      replace (Z.min rem (ao_qty o)) with rem in * by lia.
      replace (rem - rem) with 0 by lia.
      set (A1 := resize_order A s [] l S [] o Y (ao_qty o - rem)) in *.
      exists e1, A1. split.
      * by destruct fuel.
      * split; [done | done | | intros; by apply side_of_with_side_ne].
        unfold A1, resize_order. by rewrite side_of_with_side.
Qed.
Lemma view_queues b A s :
  book_rep 1 b A → valid_side s = true → queues_ok (view (side_of A s)).
Proof.
  intros Hrep Hv p os (l & [= -> ->] & Hl)%list_elem_of_fmap.
  assert (l ∈ levels A) as Hin by (apply elem_of_levels; by exists s).
  split.
  - intros Hc. apply (br_nonempty _ _ _ _ Hrep l Hin). by destruct (al_orders l).
  - intros o (x & -> & Hx)%list_elem_of_fmap. simpl.
    enough (1 <= ao_qty x) by lia. apply (br_qty _ _ _ _ Hrep). apply elem_of_orders_in.
    by exists l.
Qed.

(** The ladder with a partly consumed best level: nothing more to do. *)
Lemma match_loop_stop fuel e A s id price rem :
  book_rep 1 (book_ e) A → 0 <= rem →
  side_of A (opposite s) ≠ [] → (rem = 0 ∨ fill_count_ e = MaxFills) →
  match_loop ndebug MaxFills fuel e id s price rem = Some (e, rem).
Proof.
  intros Hrep Hr Hne Hs.
  assert (ladder (book_ e) (opposite s) = al_slot <$> side_of A (opposite s)) as Hlad.
  { apply (lo_ladder _ _ _ (proj1 (proj2 (br_core _ _ _ _ Hrep)))), valid_opposite. }
  destruct fuel; simpl; rewrite Hlad;
    (destruct (side_of A (opposite s)) as [| l S]; [done |]; simpl;
     destruct Hs as [-> | Hs]; [done |]; case_bool_decide; [| done];
     by rewrite bool_decide_false by lia).
Qed.

Lemma match_loop_spec fuel e A s id price rem :
  book_rep 1 (book_ e) A → 0 <= rem < 2 ^ 32 →
  lenZ (fills_ e) = MaxFills → 0 <= fill_count_ e <= MaxFills →
  (Z.to_nat (MaxFills - fill_count_ e) <= fuel)%nat →
  let '(fs, V', rem') := v_match (Z.to_nat (MaxFills - fill_count_ e))
                           (view (side_of A (opposite s))) id s price rem in
  ∃ e' A', match_loop ndebug MaxFills fuel e id s price rem = Some (e', rem') ∧
    filled e fs e' ∧ book_rep 1 (book_ e') A' ∧ view (side_of A' (opposite s)) = V' ∧
    (∀ s', s' ≠ opposite s → side_of A' s' = side_of A s').
Proof.
  revert e A rem. induction fuel as [| fuel IH]; intros e A rem Hrep Hrem Hlen Hcnt Hfuel.
  all: assert (ladder (book_ e) (opposite s) = al_slot <$> side_of A (opposite s)) as Hlad
    by apply (lo_ladder _ _ _ (proj1 (proj2 (br_core _ _ _ _ Hrep)))), valid_opposite.
  all: destruct (side_of A (opposite s)) as [| l S] eqn:Hs; simpl; rewrite Hlad; simpl;
    [exists e, A; split; [by case_bool_decide |]; rewrite Hs; by repeat (split; [apply filled_nil || done |]) |].
  - replace (Z.to_nat (MaxFills - fill_count_ e)) with 0%nat by lia.
    rewrite orb_true_r. simpl. exists e, A. split.
    { case_bool_decide; [| done]. by rewrite bool_decide_false by lia. }
    rewrite Hs. by repeat (split; [apply filled_nil || done |]).
  - assert (get_level (book_ e) (al_slot l) = Some (level_image (opposite s) l)) as Hg
      by (apply (get_level_focus ndebug _ A); [apply Hrep | rewrite Hs; left]).
    destruct (decide (rem <= 0)) as [Hz | Hz].
    { rewrite (bool_decide_true (rem <= 0)), (bool_decide_false (rem > 0)) by lia. simpl.
      exists e, A. rewrite Hs. by repeat (split; [apply filled_nil || done |]). }
    rewrite (bool_decide_false (rem <= 0)), (bool_decide_true (rem > 0)) by lia. simpl.
    destruct (decide (fill_count_ e < MaxFills)) as [Hfc | Hfc].
    2:{ rewrite (bool_decide_false (fill_count_ e < MaxFills)) by done.
        rewrite bool_decide_true by lia. simpl.
        exists e, A. rewrite Hs. by repeat (split; [apply filled_nil || done |]). }
    rewrite (bool_decide_true (fill_count_ e < MaxFills)) by done.
    rewrite (bool_decide_false (Z.to_nat (MaxFills - fill_count_ e) = 0%nat)) by lia.
    rewrite Hg; simpl. destruct (crosses s price (al_price l)); simpl.
    2:{ exists e, A. rewrite Hs. by repeat (split; [apply filled_nil || done |]). }
    pose proof (match_level_spec (Z.to_nat MaxFills) e A (opposite s) l S id rem Hrep
                  (valid_opposite s) Hs Hrem Hlen Hcnt ltac:(lia)) as Hml.
    pose proof (view_queues _ _ _ Hrep (valid_opposite s)) as Hvq. rewrite Hs in Hvq.
    destruct (Hvq (al_price l) (view_order <$> al_orders l) ltac:(left)) as [Hqne Hqpos].
    pose proof (q_match_spec id (al_price l) (Z.to_nat (MaxFills - fill_count_ e)) _ rem
                  ltac:(lia) Hqpos) as Hqm.
    destruct (q_match _ (view_order <$> al_orders l) id (al_price l) rem) as [[fs os'] rem1].
    destruct Hml as (e1 & A1 & -> & [Hfd Hrep1 Hview Hoth]). simpl.
    pose proof (qm_progress _ _ _ _ _ _ _ _ Hqm ltac:(lia) Hqne ltac:(lia)) as Hprog.
    pose proof (qm_count _ _ _ _ _ _ _ _ Hqm) as Hcount.
    pose proof (qm_rem _ _ _ _ _ _ _ _ Hqm) as Hrem1.
    pose proof (fd_count _ _ _ Hfd) as Hc1. pose proof (fd_len _ _ _ Hfd) as Hl1.
    assert (0 < length fs)%nat as Hfs by (destruct fs; [done | simpl; lia]).
    destruct os' as [| o os'].
    + specialize (IH e1 A1 rem1 Hrep1 ltac:(lia) ltac:(lia) ltac:(lia) ltac:(lia)).
      unfold cons_level in Hview. simpl in Hview. rewrite Hview in IH.
      replace (Z.to_nat (MaxFills - fill_count_ e) - length fs)%nat
        with (Z.to_nat (MaxFills - fill_count_ e1)) by lia.
      destruct (v_match _ (view S) id s price rem1) as [[fs' V'] rem2].
      destruct IH as (e2 & A2 & -> & Hfd2 & Hrep2 & Hview2 & Hoth2).
      exists e2, A2. split; [done |]. split; [by eapply filled_trans |]. split; [done |].
      split; [done |]. intros s' Hs'. by rewrite Hoth2, Hoth.
    + exists e1, A1. split; [| split; [done | split; [done | split; [done |]]]].
      2:{ intros s' Hs'. by apply Hoth. }
      apply (match_loop_stop _ _ A1); [done | lia | |].
      * intros Hn. rewrite Hn in Hview. done.
      * destruct (qm_stop _ _ _ _ _ _ _ _ Hqm) as [? | [? | ?]]; [by left | done | right; lia].
Qed.
End EngineSpec.

(** ** Crossed books *)

Lemma betterb_irrefl s p : betterb s p p = false.
Proof. unfold betterb. case_bool_decide; apply bool_decide_eq_false; lia. Qed.

(** The best price after an addition. *)
Lemma v_best_add s p id q V :
  v_best (v_add s p id q V) = Some p ∨
  (v_best (v_add s p id q V) = v_best V ∧ v_best V ≠ None).
Proof.
  destruct V as [| [p' os] V]; simpl; [by left |].
  case_bool_decide as Hp; [by right |]. destruct (betterb s p p'); [by left | by right].
Qed.

(** Consuming a ladder from its best price only worsens the best price. *)
Lemma v_best_drop s V V' k p :
  v_wf s V → V'.*1 = drop k V.*1 → v_best V' = Some p →
  ∃ p0, v_best V = Some p0 ∧ (p0 = p ∨ betterb s p0 p = true).
Proof.
  intros [Hs _] Hd Hb. unfold v_best in *. destruct V' as [| [p' os'] V']; [done |].
  simpl in Hb. injection Hb as <-. destruct V as [| [p0 os] V].
  { simpl in Hd. by rewrite drop_nil in Hd. }
  simpl. exists p0. split; [done |]. destruct k as [| k]; simpl in Hd.
  - left. by injection Hd.
  - right. simpl in Hs. apply StronglySorted_inv in Hs as [_ Hf].
    rewrite List.Forall_forall in Hf. apply Hf, list_elem_of_In.
    assert (p' ∈ drop k V.*1) as Hin by (unfold fmap; rewrite <- Hd; left).
    apply list_elem_of_lookup in Hin as [j Hj]. rewrite lookup_drop in Hj. by eapply list_elem_of_lookup_2.
Qed.

Lemma v_crosses_best s price V p :
  v_best V = Some p → v_crosses s price V = crosses s price p.
Proof. destruct V as [| [p' os] V]; [done |]. simpl. by intros [= ->]. Qed.

Lemma v_side_with v s V : valid_side s = true → v_side (v_with v s V) s = V.
Proof. by intros [-> | ->]%valid_side_cases. Qed.

Lemma v_side_with_opp v s V : valid_side s = true → v_side (v_with v (opposite s) V) s = v_side v s.
Proof. by intros [-> | ->]%valid_side_cases. Qed.

(** Matching keeps a book uncrossed, and so does resting what no longer
    crosses. *)
Lemma not_crossed_match v s V k :
  valid_side s = true → vb_wf v → not_crossed v →
  V.*1 = drop k (v_side v (opposite s)).*1 → not_crossed (v_with v (opposite s) V).
Proof.
  intros Hv [Hb Ha _] Hnc HV pb pa. apply valid_side_cases in Hv as [-> | ->]; simpl in *; intros H1 H2.
  - destruct (v_best_drop kAsk _ _ _ _ Ha HV H2) as (p0 & Hp0 & Hc).
    specialize (Hnc _ _ H1 Hp0). destruct Hc as [-> | Hc]; [done |].
    unfold betterb in Hc. simpl in Hc. apply bool_decide_eq_true in Hc. lia.
  - destruct (v_best_drop kBid _ _ _ _ Hb HV H1) as (p0 & Hp0 & Hc).
    specialize (Hnc _ _ Hp0 H2). destruct Hc as [-> | Hc]; [done |].
    unfold betterb in Hc. simpl in Hc. apply bool_decide_eq_true in Hc. lia.
Qed.

Lemma not_crossed_rest v s price id q :
  valid_side s = true → not_crossed v → v_crosses s price (v_side v (opposite s)) = false →
  not_crossed (vb_add s price id q v).
Proof.
  intros Hv Hnc Hcr pb pa.
  apply valid_side_cases in Hv as [-> | ->]; unfold vb_add; simpl in *; intros H1 H2.
  - rewrite (v_crosses_best _ _ _ _ H2) in Hcr. unfold crosses in Hcr. simpl in Hcr.
    apply bool_decide_eq_false in Hcr.
    destruct (v_best_add kBid price id q (v_bids v)) as [Hn | [Hn _]]; rewrite Hn in H1.
    + injection H1 as <-. lia.
    + by apply Hnc.
  - rewrite (v_crosses_best _ _ _ _ H1) in Hcr. unfold crosses in Hcr. simpl in Hcr.
    apply bool_decide_eq_false in Hcr.
    destruct (v_best_add kAsk price id q (v_asks v)) as [Hn | [Hn _]]; rewrite Hn in H2.
    + injection H2 as <-. lia.
    + by apply Hnc.
Qed.

Section EngineCorrect.
Context (ndebug : bool) {OM LM : Type} `{TO : Table Z Z OM} `{TL : Table Z Z LM}
  {OML : TableLaws Z Z OM} {LML : TableLaws Z Z LM}.
Context (MaxFills : Z) (HMax : 0 <= MaxFills < 2 ^ 32).
Implicit Types (e : MatchingEngine OM LM) (v : vbook).

(** The engine [e] holds the abstract book [v]. *)
Definition engine_rep e v : Prop :=
  represents ndebug (book_ e) v ∧ lenZ (fills_ e) = MaxFills ∧ 0 <= fill_count_ e <= MaxFills.

(** What an accepted submission does, abstractly. *)
Definition outcome v (id : Z) (s : Side) (price q : Z) : list Fill * vbook * Z :=
  vb_match (Z.to_nat MaxFills) v id s price q.

Lemma fills_span_zero e : fills_span e 0 = [].
Proof. done. Qed.

Lemma submit_rejected e v id s price q :
  engine_rep e v → q = 0 ∨ id ∈ vb_ids v →
  submit_order ndebug MaxFills e id s price q
  = Some (e, {| fills := []; remaining_qty := q; rested := false |}).
Proof.
  intros (Hrep & _) Hor. unfold submit_order. destruct (bool_decide (q = 0)) eqn:Hz.
  { apply bool_decide_eq_true in Hz as ->. done. }
  apply bool_decide_eq_false in Hz. destruct Hor as [? | Hid]; [done |].
  rewrite (has_order_eq ndebug _ _ _ Hrep), bool_decide_true by done. done.
Qed.

Lemma submit_accepted e v id s price q :
  engine_rep e v → valid_side s = true → is_u32 q → q ≠ 0 → id ∉ vb_ids v →
  let '(fs, v1, rem) := outcome v id s price q in
  ∃ e1 e' r, represents ndebug (book_ e1) v1 ∧
    match_loop ndebug MaxFills (Z.to_nat MaxFills) {| book_ := book_ e; fills_ := fills_ e; fill_count_ := 0 |} id s price q
    = Some (e1, rem) ∧
    submit_order ndebug MaxFills e id s price q
    = Some (e', {| fills := fs; remaining_qty := rem; rested := r |}) ∧
    engine_rep e' (if r then vb_add s price id rem v1 else v1) ∧
    (if r : bool then 0 < rem ∧ v_crosses s price (v_side v1 (opposite s)) = false ∧ id ∉ vb_ids v1
     else rem = 0 ∨ v_crosses s price (v_side v1 (opposite s)) = true ∨
          add_order ndebug (book_ e1) id s price rem = Some (book_ e', false)).
Proof using HMax.
  intros ((A & Hrep & Hview) & Hlen & Hcnt) Hv Hq Hq0 Hid. unfold outcome, vb_match.
  set (e0 := {| book_ := book_ e; fills_ := fills_ e; fill_count_ := 0 |}).
  pose proof (match_loop_spec ndebug MaxFills HMax (Z.to_nat MaxFills) e0 A s id price q Hrep Hq Hlen
                ltac:(simpl; lia) ltac:(simpl; lia)) as Hm.
  pose proof (v_match_spec id s price (Z.to_nat MaxFills) (view (side_of A (opposite s))) q
                ltac:(mlia) (view_queues _ _ _ _ Hrep (valid_opposite s))) as Hvm.
  simpl in Hm. rewrite Z.sub_0_r in Hm. rewrite <- Hview, v_side_view.
  destruct (v_match _ (view (side_of A (opposite s))) id s price q) as [[fs V'] rem].
  destruct Hm as (e1 & A1 & E1 & Hfd & Hrep1 & HV' & Hoth).
  assert (book_view A1 = v_with (book_view A) (opposite s) V') as Hview1.
  { unfold book_view, v_with. apply valid_side_cases in Hv as [-> | ->]; simpl in *; rewrite HV'.
    - specialize (Hoth kBid ltac:(done)). simpl in Hoth. by rewrite Hoth.
    - specialize (Hoth kAsk ltac:(done)). simpl in Hoth. by rewrite Hoth. }
  assert (lenZ (fills_ e1) = MaxFills) as Hlen1 by (rewrite (fd_len _ _ _ Hfd); done).
  pose proof (fd_count _ _ _ Hfd) as Hc1. simpl in Hc1.
  pose proof (vm_count _ _ _ _ _ _ _ _ _ Hvm) as Hn.
  assert (fills_span e1 (fill_count_ e1) = fs) as Hspan by (rewrite (fd_span _ _ _ Hfd); done).
  assert (represents ndebug (book_ e1) (v_with (book_view A) (opposite s) V')) as Hr1 by (by exists A1).
  assert (0 <= rem) as Hrem0 by (destruct Hvm; lia).
  assert (is_u32 rem) as Hrem by (destruct Hvm; mlia).
  assert (ladder (book_ e1) (opposite s) = al_slot <$> side_of A1 (opposite s)) as Hlad.
  { apply (lo_ladder _ _ _ (proj1 (proj2 (br_core _ _ _ _ Hrep1)))), valid_opposite. }
  unfold submit_order. rewrite bool_decide_false by done.
  rewrite (has_order_eq ndebug _ v) by (by exists A). simpl. rewrite bool_decide_false by done.
  fold e0. rewrite E1. simpl.
  destruct (bool_decide (rem > 0)) eqn:Hr; cycle 1.
  { apply bool_decide_eq_false in Hr. exists e1, e1, false. simpl. rewrite Hspan.
    split; [done |]. split; [done |]. split; [done |]. split; [split; [done | lia] | left; lia]. }
  apply bool_decide_eq_true in Hr.
  assert (still_crosses (book_ e1) s price = Some (v_crosses s price V')) as Hstill.
  { unfold still_crosses. rewrite Hlad, <- HV'. destruct (side_of A1 (opposite s)) as [| l S] eqn:HS; [done |].
    simpl. rewrite (get_level_focus ndebug _ A1 (opposite s) l); [done | apply Hrep1 | rewrite HS; left]. }
  rewrite Hstill. simpl. rewrite v_side_with by apply valid_opposite.
  destruct (v_crosses s price V') eqn:Hcr; simpl.
  { exists e1, e1, false. simpl. rewrite Hspan. split; [done |]. split; [done |]. split; [done |].
    split; [split; [done | lia] | by right; left]. }
  unfold rest_order.
  destruct (add_order_rep ndebug 1 (book_ e1) A1 id s price rem ltac:(lia) Hrep1 Hv Hrem)
    as [(b2 & E2 & Hrep2 & _) | (b2 & A2 & E2 & Hrep2 & _ & Hfresh & Hview2)]; rewrite E2; simpl.
  - exists e1, (with_book e1 b2), false. simpl.
    assert (fills_span (with_book e1 b2) (fill_count_ e1) = fs) as -> by done.
    split; [done |]. split; [done |]. split; [done |].
    split; [split; [by exists A2 || by exists A1 | simpl; lia] | by right; right].
  - exists e1, (with_book e1 b2), true. simpl.
    assert (fills_span (with_book e1 b2) (fill_count_ e1) = fs) as -> by done.
    split; [done |]. split; [done |]. split; [done |]. split.
    + split; [| simpl; lia]. exists A2. split; [done |]. by rewrite Hview2, Hview1.
    + split; [lia |]. split; [done |]. by rewrite <- Hview1, vb_ids_view.
Qed.

Lemma cancel_engine e v id :
  engine_rep e v →
  ∃ e', cancel ndebug e id = Some (e', bool_decide (id ∈ vb_ids v)) ∧
    engine_rep e' (vb_remove id v).
Proof.
  intros ((A & Hrep & <-) & Hlen & Hcnt). unfold cancel. rewrite vb_ids_view.
  destruct (cancel_order_rep ndebug 1 (book_ e) A id Hrep)
    as [[Hni ->] | (s & P & l & S & X & o & Y & b' & Hloc & <- & -> & Hrep')]; simpl.
  - exists (with_book e (book_ e)). rewrite bool_decide_false by done. split; [done |].
    split; [| done]. exists A. split; [done |].
    unfold vb_remove, book_view. f_equal; symmetry; apply v_remove_notin.
    all: try (intros p os; apply view_nonempty; intros x Hx; apply (br_nonempty _ _ _ _ Hrep);
              unfold levels; set_solver).
    all: rewrite v_ids_view; intros Hc; apply Hni; unfold all_orders, levels;
         rewrite orders_in_app, fmap_app; set_solver.
  - exists (with_book e b'). rewrite bool_decide_true.
    + split; [done |]. split; [| done]. exists (drop_order A s P l S X Y). split; [done |].
      apply view_drop_order; [done | apply Hrep | apply Hrep].
    + apply list_elem_of_fmap_2. by eapply located_in.
Qed.
End EngineCorrect.
