(* ===== verification/MatchingTheorems.v ===== *)
(** The properties of the matching engine, witnessed on the concrete book of
    [OrderBookTheorems.v]. *)
From S2P Require Import Prelude.
From S2P Require Import TableInterface.
From S2P Require Import TradingTypes.
From S2P Require Import OrderBook.
From S2P Require Import MatchingEngine.
From S2P Require Import BookView.
From S2P Require Import MatchSpec.
From S2P Require Import OrderBookRep.
From S2P Require Import OrderBookSpec.
From S2P Require Import OrderBookTheorems.
Local Open Scope Z_scope.

(** * Abstract facts about one submission *)

Lemma v_side_total v s : valid_side s = true → vb_total v = v_total (v_side v s) + v_total (v_side v (opposite s)).
Proof. intros [-> | ->]%valid_side_cases; unfold vb_total; simpl; lia. Qed.

Lemma vb_total_with v s V :
  valid_side s = true →
  vb_total (v_with v (opposite s) V) = vb_total v - v_total (v_side v (opposite s)) + v_total V.
Proof. intros [-> | ->]%valid_side_cases; unfold vb_total; simpl; lia. Qed.

Lemma vb_total_add v s p id q : valid_side s = true → vb_total (vb_add s p id q v) = vb_total v + q.
Proof.
  intros [-> | ->]%valid_side_cases; unfold vb_total, vb_add; simpl; rewrite v_total_add; lia.
Qed.

Lemma wf_queues v s : vb_wf v → valid_side s = true → queues_ok (v_side v s).
Proof. intros [Hb Ha _] [-> | ->]%valid_side_cases p os Hin;
  [by apply (vw_queues _ _ Hb p) | by apply (vw_queues _ _ Ha p)].
Qed.

Section Properties.
Context (ndebug : bool) {OM LM : Type} `{TO : Table Z Z OM} `{TL : Table Z Z LM}
  {OML : TableLaws Z Z OM} {LML : TableLaws Z Z LM}.
Context (MaxFills : Z).
Implicit Types (e : MatchingEngine OM LM) (v : vbook).
Abbreviation engine_rep := (engine_rep (OM := OM) (LM := LM) ndebug MaxFills).

(** The result of a submission and the book it leaves, abstractly. *)
Definition submission v (id : Z) (s : Side) (price q : Z) (r : MatchResult) v' : Prop :=
  if bool_decide (q = 0) || bool_decide (id ∈ vb_ids v)
  then r = {| fills := []; remaining_qty := q; rested := false |} ∧ v' = v
  else
    let '(fs, v1, rem) := outcome MaxFills v id s price q in
    fills r = fs ∧ remaining_qty r = rem ∧
    v' = (if rested r then vb_add s price id rem v1 else v1) ∧
    (rested r = true → 0 < rem ∧ v_crosses s price (v_side v1 (opposite s)) = false).

(** When the remainder does not rest: nothing of the order is left, the best
    opposite price still crosses, or the very book the matching loop leaves
    refuses it for one of the reasons of [add_order]. *)
Definition rests_or_refused e v (id : Z) (s : Side) (price q : Z) (r : MatchResult) : Prop :=
  rested r = false → q ≠ 0 → id ∉ vb_ids v →
  let '(_, v1, rem) := outcome MaxFills v id s price q in
  rem = 0 ∨ v_crosses s price (v_side v1 (opposite s)) = true ∨
  ∃ e1, match_loop ndebug MaxFills (Z.to_nat MaxFills) {| book_ := book_ e; fills_ := fills_ e; fill_count_ := 0 |} id s price q
          = Some (e1, rem) ∧
    represents ndebug (book_ e1) v1 ∧ refusal (book_ e1) v1 id s price rem.

Lemma submit_full e v id s price q :
  0 <= MaxFills < 2 ^ 32 → engine_rep e v → valid_side s = true → is_u32 q →
  ∃ e' r v', submit_order ndebug MaxFills e id s price q = Some (e', r) ∧
    engine_rep e' v' ∧ submission v id s price q r v' ∧ rests_or_refused e v id s price q r.
Proof.
  intros HM He Hv Hq. unfold submission, rests_or_refused.
  destruct (bool_decide (q = 0) || bool_decide (id ∈ vb_ids v)) eqn:Hrej.
  - apply orb_true_iff in Hrej as Hrej'. rewrite !bool_decide_eq_true in Hrej'.
    exists e, {| fills := []; remaining_qty := q; rested := false |}, v.
    split; [by eapply submit_rejected |]. split; [done |]. split; [done |]. by destruct Hrej'.
  - apply orb_false_iff in Hrej as [Hz%bool_decide_eq_false Hid%bool_decide_eq_false].
    pose proof (submit_accepted ndebug MaxFills HM e v id s price q He Hv Hq Hz Hid) as Hs.
    pose proof (v_match_spec id s price (Z.to_nat MaxFills) (v_side v (opposite s)) q
      ltac:(mlia) (wf_queues v _ (represents_wf_aux ndebug (book_ e) v (proj1 He)) (valid_opposite s))) as Hm.
    unfold outcome, vb_match in *. destruct (v_match _ _ id s price q) as [[fs V] rem].
    destruct Hs as (e1 & e' & r & Hr1 & El & E & He' & Hr).
    eexists e', {| fills := fs; remaining_qty := rem; rested := r |}, _.
    split; [exact E |]. split; [exact He' |]. simpl. split; [repeat (split; [done |]); by intros ->; tauto |].
    intros -> _ _. destruct Hr as [? | [? | Hadd]]; [by left | by right; left | do 2 right].
    exists e1. split; [exact El |]. split; [done |].
    destruct (add_order_aux ndebug (book_ e1) _ id s price rem Hr1 Hv) as (b' & ok & Ea & _ & Hok); [destruct Hm; mlia |].
    rewrite Ea in Hadd. injection Hadd as _ ->. done.
Qed.

Lemma submit_aux e v id s price q :
  0 <= MaxFills < 2 ^ 32 → engine_rep e v → valid_side s = true → is_u32 q →
  ∃ e' r v', submit_order ndebug MaxFills e id s price q = Some (e', r) ∧
    engine_rep e' v' ∧ submission v id s price q r v'.
Proof.
  intros HM He Hv Hq. destruct (submit_full e v id s price q HM He Hv Hq) as (e' & r & v' & ? & ? & ? & _). by exists e', r, v'.
Qed.

(** The facts of [v_match_spec] about a submission. *)
Lemma submission_facts v id s price q r v' :
  vb_wf v → valid_side s = true → is_u32 q → submission v id s price q r v' →
  ((q = 0 ∨ id ∈ vb_ids v) ∧ v' = v ∧
     r = {| fills := []; remaining_qty := q; rested := false |}) ∨
  (∃ V, v_match_props id s price (Z.to_nat MaxFills) (v_side v (opposite s)) q
          (fills r) V (remaining_qty r) ∧
     v' = (if rested r then vb_add s price id (remaining_qty r) (v_with v (opposite s) V)
           else v_with v (opposite s) V) ∧
     (rested r = true → 0 < remaining_qty r ∧ v_crosses s price V = false)).
Proof.
  intros Hwf Hv Hq Hsub. unfold submission in Hsub.
  pose proof (v_match_spec id s price (Z.to_nat MaxFills) (v_side v (opposite s)) q
    ltac:(mlia) (wf_queues v _ Hwf (valid_opposite s))) as Hm.
  destruct (bool_decide (q = 0) || bool_decide (id ∈ vb_ids v)) eqn:Hrej.
  - destruct Hsub as [-> ->]. left. split; [| done].
    apply orb_true_iff in Hrej as [?%bool_decide_eq_true | ?%bool_decide_eq_true]; auto.
  - right. unfold outcome, vb_match in Hsub.
    destruct (v_match _ (v_side v (opposite s)) id s price q) as [[fs V] rem].
    destruct Hsub as (Hf & Hr & Hv' & Hrest). rewrite v_side_with in Hrest by apply valid_opposite.
    subst fs rem. by exists V.
Qed.

Lemma engine_wf e v : engine_rep e v → vb_wf v.
Proof. intros [Hr _]. by apply (represents_wf_aux ndebug (book_ e)). Qed.

(** C1. [submit_order] is price-time priority matching: from an engine that
    holds the abstract book [v] it never fails, it rejects a zero quantity
    or a duplicate identity without touching the book, and otherwise its
    fills, remainder and resulting book are those of the abstract matching
    [v_match] within the budget of [MaxFills] fills.  What is left rests at
    its price whenever it is positive and the best opposite price does not
    cross, unless the book that the matching leaves refuses it: no free
    order, a new price without a free level, or a table that refuses. *)
Theorem submit_order_correct e v id s price q :
  0 <= MaxFills < 2 ^ 32 → engine_rep e v → valid_side s = true → is_u32 q →
  ∃ e' r v', submit_order ndebug MaxFills e id s price q = Some (e', r) ∧
    engine_rep e' v' ∧ submission v id s price q r v' ∧ rests_or_refused e v id s price q r.
Proof. apply submit_full. Qed.

(** C29. Market rules of one submission: the makers are exactly the first
    orders of the opposite side in price-time priority, every fill has a
    positive quantity and the price of its maker's level, which the incoming
    order accepts, and matching stops only when the order is filled, the
    best remaining price does not cross, or [MaxFills] fills were made. *)
Theorem price_time_priority e v id s price q :
  0 <= MaxFills < 2 ^ 32 → engine_rep e v → valid_side s = true → is_u32 q →
  ∃ e' r v', submit_order ndebug MaxFills e id s price q = Some (e', r) ∧ engine_rep e' v' ∧
    maker_id <$> fills r = take (length (fills r)) (v_ids (v_side v (opposite s))) ∧
    (length (fills r) <= Z.to_nat MaxFills)%nat ∧
    (∀ f, f ∈ fills r → 0 < f_qty f ∧ taker_id f = id ∧ crosses s price (f_price f) = true ∧
       ∃ os, (f_price f, os) ∈ v_side v (opposite s) ∧ maker_id f ∈ os.*1) ∧
    (q = 0 ∨ id ∈ vb_ids v ∨ remaining_qty r = 0 ∨
     v_crosses s price (v_side v' (opposite s)) = false ∨ length (fills r) = Z.to_nat MaxFills).
Proof.
  intros HM He Hv Hq. destruct (submit_aux e v id s price q HM He Hv Hq) as (e' & r & v' & E & He' & Hs).
  exists e', r, v'. split; [done |]. split; [done |].
  destruct (submission_facts v id s price q r v' (engine_wf _ _ He) Hv Hq Hs)
    as [(Hrej & -> & ->) | (V & Hm & Hv' & Hrest)].
  - simpl. split; [done |]. split; [lia |]. split; [by intros f ?%elem_of_nil |]. tauto.
  - destruct Hm. split; [done |]. split; [done |]. split.
    + intros f Hf. destruct (vm_price f Hf) as (? & ? & ?). split; [by apply vm_pos |]. done.
    + do 2 right. destruct vm_stop as [? | [Hc | ?]]; [by left | | by right; right].
      right; left. rewrite Hv'. destruct (rested r).
      * unfold vb_add. apply valid_side_cases in Hv as [-> | ->]; done.
      * by rewrite v_side_with by apply valid_opposite.
Qed.

(** Quantity is conserved: what is filled and what remains add up to the
    order, the book loses exactly what was filled, and gains the remainder
    exactly when it rests. *)
Theorem quantity_conserved e v id s price q :
  0 <= MaxFills < 2 ^ 32 → engine_rep e v → valid_side s = true → is_u32 q →
  ∃ e' r v', submit_order ndebug MaxFills e id s price q = Some (e', r) ∧ engine_rep e' v' ∧
    fill_total (fills r) + remaining_qty r = q ∧ 0 <= remaining_qty r ∧
    vb_total v' = vb_total v - fill_total (fills r) + (if rested r then remaining_qty r else 0).
Proof.
  intros HM He Hv Hq. destruct (submit_aux e v id s price q HM He Hv Hq) as (e' & r & v' & E & He' & Hs).
  exists e', r, v'. split; [done |]. split; [done |].
  destruct (submission_facts v id s price q r v' (engine_wf _ _ He) Hv Hq Hs)
    as [(Hrej & -> & ->) | (V & Hm & -> & Hrest)].
  - simpl. mlia.
  - destruct Hm. split; [lia |]. split; [lia |].
    destruct (rested r); rewrite ?vb_total_add, ?vb_total_with by done; lia.
Qed.

(** The engine never leaves a crossed book: if the best bid was below
    the best ask before a submission it still is afterwards, also when the
    budget of fills ran out in the middle of crossing levels. *)
Theorem never_crossed e v id s price q :
  0 <= MaxFills < 2 ^ 32 → engine_rep e v → valid_side s = true → is_u32 q → not_crossed v →
  ∃ e' r v', submit_order ndebug MaxFills e id s price q = Some (e', r) ∧ engine_rep e' v' ∧
    not_crossed v'.
Proof.
  intros HM He Hv Hq Hnc. destruct (submit_aux e v id s price q HM He Hv Hq) as (e' & r & v' & E & He' & Hs).
  exists e', r, v'. split; [done |]. split; [done |].
  destruct (submission_facts v id s price q r v' (engine_wf _ _ He) Hv Hq Hs)
    as [(Hrej & -> & ->) | (V & Hm & -> & Hrest)]; [done |].
  destruct (vm_prices _ _ _ _ _ _ _ _ _ Hm) as [k Hk].
  assert (not_crossed (v_with v (opposite s) V)) as Hnc1.
  { apply (not_crossed_match v s V k Hv (engine_wf _ _ He) Hnc Hk). }
  destruct (rested r) eqn:Hr; [| done]. apply not_crossed_rest; [done | done |].
  rewrite v_side_with by apply valid_opposite. by apply Hrest.
Qed.

Lemma modify_aux e v old_id s new_price new_qty new_id :
  0 <= MaxFills < 2 ^ 32 → engine_rep e v → valid_side s = true → is_u32 new_qty →
  ∃ e' r v', modify ndebug MaxFills e old_id s new_price new_qty new_id = Some (e', r) ∧
    engine_rep e' v' ∧ success r = bool_decide (old_id ∈ vb_ids v) ∧
    if success r
    then ∃ r', submission (vb_remove old_id v) new_id s new_price new_qty r' v' ∧
           m_fills r = fills r' ∧ m_remaining_qty r = remaining_qty r' ∧ m_rested r = rested r'
    else v' = v ∧ r = {| m_fills := []; m_remaining_qty := 0; m_rested := false; success := false |}.
Proof.
  intros HM He Hv Hq. unfold modify.
  destruct (cancel_engine ndebug MaxFills HM e v old_id He) as (e1 & -> & He1). simpl.
  destruct (bool_decide (old_id ∈ vb_ids v)) eqn:Hin; simpl.
  - destruct (submit_aux e1 _ new_id s new_price new_qty HM He1 Hv Hq) as (e' & r & v' & -> & He' & Hs).
    simpl. exists e'. eexists. exists v'. split; [done |]. split; [done |]. split; [done |].
    by exists r.
  - apply bool_decide_eq_false in Hin. exists e1. eexists. exists v. split; [done |].
    split; [| done].
    destruct He1 as [Hr1 He1]. split; [| done].
    assert (vb_remove old_id v = v) as <-; [| done].
    pose proof (engine_wf _ _ He) as [Hb Ha _]. unfold vb_ids in Hin. rewrite elem_of_app in Hin.
    destruct v as [vb va]. unfold vb_remove. simpl in *.
    f_equal; apply v_remove_notin; try tauto.
    + intros p os Hp. by apply (vw_queues _ _ Hb p os Hp).
    + intros p os Hp. by apply (vw_queues _ _ Ha p os Hp).
Qed.

(** A modification is a cancellation and, if the old order was there, a
    new submission: time priority is lost, [success] says that the old order
    was found, and an unknown identity leaves the book alone. *)
Theorem modify_order_engine_correct e v old_id s new_price new_qty new_id :
  0 <= MaxFills < 2 ^ 32 → engine_rep e v → valid_side s = true → is_u32 new_qty →
  ∃ e' r v', modify ndebug MaxFills e old_id s new_price new_qty new_id = Some (e', r) ∧
    engine_rep e' v' ∧ success r = bool_decide (old_id ∈ vb_ids v) ∧
    if success r
    then ∃ r', submission (vb_remove old_id v) new_id s new_price new_qty r' v' ∧
           m_fills r = fills r' ∧ m_remaining_qty r = remaining_qty r' ∧ m_rested r = rested r'
    else v' = v ∧ r = {| m_fills := []; m_remaining_qty := 0; m_rested := false; success := false |}.
Proof. apply modify_aux. Qed.
End Properties.

(** * Witnesses *)

Definition demo_engine : MatchingEngine Tab Tab := from_book 64 demo3.

Lemma demo_engine_rep : engine_rep true 64 demo_engine demo_view.
Proof. split; [apply demo3_represents |]. split; [by vm_compute | simpl; lia]. Qed.

Lemma submit_order_correct_witness :
  ∃ e' r v', submit_order true 64 demo_engine 11 kAsk 99 6 = Some (e', r) ∧
    engine_rep true 64 e' v' ∧ submission 64 demo_view 11 kAsk 99 6 r v' ∧
    rests_or_refused true 64 demo_engine demo_view 11 kAsk 99 6 r.
Proof.
  apply (submit_order_correct true 64 demo_engine demo_view 11 kAsk 99 6);
    [lia | apply demo_engine_rep | done | by split].
Defined.

Lemma price_time_priority_witness :
  ∃ e' r v', submit_order true 64 demo_engine 11 kAsk 99 6 = Some (e', r) ∧ engine_rep true 64 e' v' ∧
    maker_id <$> fills r = take (length (fills r)) (v_ids (v_side demo_view (opposite kAsk))) ∧
    (length (fills r) <= Z.to_nat 64)%nat ∧
    (∀ f, f ∈ fills r → 0 < f_qty f ∧ taker_id f = 11 ∧ crosses kAsk 99 (f_price f) = true ∧
       ∃ os, (f_price f, os) ∈ v_side demo_view (opposite kAsk) ∧ maker_id f ∈ os.*1) ∧
    (6 = 0 ∨ 11 ∈ vb_ids demo_view ∨ remaining_qty r = 0 ∨
     v_crosses kAsk 99 (v_side v' (opposite kAsk)) = false ∨ length (fills r) = Z.to_nat 64).
Proof.
  apply (price_time_priority true 64 demo_engine demo_view 11 kAsk 99 6);
    [lia | apply demo_engine_rep | done | by split].
Defined.

Lemma quantity_conserved_witness :
  ∃ e' r v', submit_order true 64 demo_engine 11 kAsk 99 6 = Some (e', r) ∧ engine_rep true 64 e' v' ∧
    fill_total (fills r) + remaining_qty r = 6 ∧ 0 <= remaining_qty r ∧
    vb_total v' = vb_total demo_view - fill_total (fills r) + (if rested r then remaining_qty r else 0).
Proof.
  apply (quantity_conserved true 64 demo_engine demo_view 11 kAsk 99 6);
    [lia | apply demo_engine_rep | done | by split].
Defined.

Lemma never_crossed_witness :
  not_crossed demo_view ∧
  ∃ e' r v', submit_order true 64 demo_engine 11 kAsk 99 6 = Some (e', r) ∧ engine_rep true 64 e' v' ∧
    not_crossed v'.
Proof.
  assert (not_crossed demo_view) as Hnc by (intros pb pa [= <-] [= <-]; lia).
  split; [done |].
  apply (never_crossed true 64 demo_engine demo_view 11 kAsk 99 6);
    [lia | apply demo_engine_rep | done | by split | done].
Defined.

Lemma modify_order_engine_correct_witness :
  ∃ e' r v', modify true 64 demo_engine 7 kBid 102 9 12 = Some (e', r) ∧
    engine_rep true 64 e' v' ∧ success r = bool_decide (7 ∈ vb_ids demo_view) ∧
    if success r
    then ∃ r', submission 64 (vb_remove 7 demo_view) 12 kBid 102 9 r' v' ∧
           m_fills r = fills r' ∧ m_remaining_qty r = remaining_qty r' ∧ m_rested r = rested r'
    else v' = demo_view ∧
         r = {| m_fills := []; m_remaining_qty := 0; m_rested := false; success := false |}.
Proof.
  apply (modify_order_engine_correct true 64 demo_engine demo_view 7 kBid 102 9 12);
    [lia | apply demo_engine_rep | done | by split].
Defined.

(** What the engine computes on these inputs. *)
Example submit_example :
  snd <$> submit_order true 64 demo_engine 11 kAsk 99 6
  = Some {| fills := [mk_fill 7 11 100 5; mk_fill 8 11 100 1]; remaining_qty := 0; rested := false |}.
Proof. vm_compute. reflexivity. Qed.

Example modify_example :
  snd <$> modify true 64 demo_engine 7 kBid 102 9 12
  = Some {| m_fills := [mk_fill 9 12 102 4]; m_remaining_qty := 5; m_rested := true; success := true |}.
Proof. vm_compute. reflexivity. Qed.
