(* ===== verification/Endian.v ===== *)
(** Byte order and big-endian loads and stores ([src/libs/sys/endian.hpp]).

    Memory is a list of bytes, each a [Z] in [0, 256); a [std::span] is such
    a list.  [native_little] is [std::endian::native == std::endian::little]:
    both branches of the [if constexpr]s are modelled, and the theorems hold
    for either host. *)
From S2P Require Import Prelude.
Local Open Scope Z_scope.

(** * Integers as byte sequences *)

Fixpoint to_le (n : nat) (v : Z) : list Z :=
  match n with O => [] | S n => v mod 256 :: to_le n (v / 256) end.
Fixpoint of_le (bs : list Z) : Z :=
  match bs with [] => 0 | b :: bs => b + 256 * of_le bs end.

Definition to_be (n : nat) (v : Z) : list Z := reverse (to_le n v).
Definition of_be (bs : list Z) : Z := of_le (reverse bs).

Definition bytes_ok (bs : list Z) : Prop := Forall is_u8 bs.

(** * Swaps and conversions *)

Definition bswap16 (x : Z) : Z := u16 (Z.lor (Z.shiftr x 8) (Z.shiftl x 8)).

Definition bswap32 (x : Z) : Z :=
  Z.lor (Z.lor (Z.lor
    (Z.shiftl (Z.land x 0x000000FF) 24)
    (Z.shiftl (Z.land x 0x0000FF00) 8))
    (Z.shiftr (Z.land x 0x00FF0000) 8))
    (Z.shiftr (Z.land x 0xFF000000) 24).

Definition bswap64 (x : Z) : Z :=
  Z.lor (Z.lor (Z.lor (Z.lor (Z.lor (Z.lor (Z.lor
    (Z.shiftl (Z.land x 0x00000000000000FF) 56)
    (Z.shiftl (Z.land x 0x000000000000FF00) 40))
    (Z.shiftl (Z.land x 0x0000000000FF0000) 24))
    (Z.shiftl (Z.land x 0x00000000FF000000) 8))
    (Z.shiftr (Z.land x 0x000000FF00000000) 8))
    (Z.shiftr (Z.land x 0x0000FF0000000000) 24))
    (Z.shiftr (Z.land x 0x00FF000000000000) 40))
    (Z.shiftr (Z.land x 0xFF00000000000000) 56).

#[global] Arguments to_be : simpl never.

Section Host.
Context (native_little : bool).

Definition host_to_be16 (x : Z) : Z := if native_little then bswap16 x else x.
Definition host_to_be32 (x : Z) : Z := if native_little then bswap32 x else x.
Definition host_to_be64 (x : Z) : Z := if native_little then bswap64 x else x.
Definition be16_to_host (x : Z) : Z := host_to_be16 x.
Definition be32_to_host (x : Z) : Z := host_to_be32 x.
Definition be64_to_host (x : Z) : Z := host_to_be64 x.
Definition host_to_le16 (x : Z) : Z := if native_little then x else bswap16 x.
Definition host_to_le32 (x : Z) : Z := if native_little then x else bswap32 x.
Definition host_to_le64 (x : Z) : Z := if native_little then x else bswap64 x.
Definition le16_to_host (x : Z) : Z := host_to_le16 x.
Definition le32_to_host (x : Z) : Z := host_to_le32 x.
Definition le64_to_host (x : Z) : Z := host_to_le64 x.

(** [std::memcpy] between an integer and memory: the host's representation. *)
Definition native_bytes (n : nat) (v : Z) : list Z := if native_little then to_le n v else to_be n v.
Definition native_value (bs : list Z) : Z := if native_little then of_le bs else of_be bs.

(** Copies into and out of memory; failure outside the object. *)
Definition blit (mem : list Z) (off : Z) (bs : list Z) : list Z :=
  take (Z.to_nat off) mem ++ bs ++ drop (Z.to_nat off + length bs) mem.
Definition sub_bytes (mem : list Z) (off : Z) (n : nat) : list Z := take n (drop (Z.to_nat off) mem).

Definition memcpy_to (mem : list Z) (off : Z) (bs : list Z) : option (list Z) :=
  _ ← assertM (bool_decide (0 <= off) && bool_decide (off + lenZ bs <= lenZ mem));
  Some (blit mem off bs).
Definition memcpy_from (mem : list Z) (off : Z) (n : nat) : option (list Z) :=
  _ ← assertM (bool_decide (0 <= off) && bool_decide (off + Z.of_nat n <= lenZ mem));
  Some (sub_bytes mem off n).

Definition load_be16 (mem : list Z) (off : Z) : option Z :=
  bs ← memcpy_from mem off 2; Some (be16_to_host (native_value bs)).
Definition load_be32 (mem : list Z) (off : Z) : option Z :=
  bs ← memcpy_from mem off 4; Some (be32_to_host (native_value bs)).
Definition load_be64 (mem : list Z) (off : Z) : option Z :=
  bs ← memcpy_from mem off 8; Some (be64_to_host (native_value bs)).
Definition store_be16 (mem : list Z) (off v : Z) : option (list Z) :=
  memcpy_to mem off (native_bytes 2 (host_to_be16 v)).
Definition store_be32 (mem : list Z) (off v : Z) : option (list Z) :=
  memcpy_to mem off (native_bytes 4 (host_to_be32 v)).
Definition store_be64 (mem : list Z) (off v : Z) : option (list Z) :=
  memcpy_to mem off (native_bytes 8 (host_to_be64 v)).
End Host.

(** * Byte sequences *)

Lemma length_to_le n v : length (to_le n v) = n.
Proof. revert v. induction n; intros v; simpl; auto. Qed.

Lemma length_to_be n v : length (to_be n v) = n.
Proof. unfold to_be. by rewrite length_reverse, length_to_le. Qed.

Lemma to_le_bytes n v : bytes_ok (to_le n v).
Proof. revert v. induction n as [| n IH]; intros v; simpl; constructor; [mlia | apply IH]. Qed.

Lemma of_le_to_le n v : 0 <= v < 256 ^ Z.of_nat n → of_le (to_le n v) = v.
Proof.
  revert v. induction n as [| n IH]; intros v Hv; simpl.
  - simpl in Hv. lia.
  - rewrite Nat2Z.inj_succ, Z.pow_succ_r in Hv by lia. rewrite IH.
    + pose proof (Z.div_mod v 256 ltac:(lia)). lia.
    + split; [apply Z.div_pos; lia |]. apply Z.div_lt_upper_bound; lia.
Qed.

Lemma to_le_of_le bs : bytes_ok bs → to_le (length bs) (of_le bs) = bs.
Proof.
  induction 1 as [| b bs Hb Hbs IH]; simpl; [done |]. unfold is_u8 in Hb. change (2 ^ 8) with 256 in Hb.
  rewrite (Z.mul_comm 256), Z.mod_add, Z.div_add, Z.mod_small, Z.div_small, Z.add_0_l, IH by lia. done.
Qed.

Lemma of_le_range bs : bytes_ok bs → 0 <= of_le bs < 256 ^ lenZ bs.
Proof.
  induction 1 as [| b bs Hb Hbs IH]; simpl of_le; [simpl; lia |].
  simpl length. rewrite Nat2Z.inj_succ, Z.pow_succ_r by lia. unfold is_u8 in Hb.
  change (2 ^ 8) with 256 in Hb. lia.
Qed.

Lemma of_be_to_be n v : 0 <= v < 256 ^ Z.of_nat n → of_be (to_be n v) = v.
Proof. intros Hv. unfold of_be, to_be. rewrite reverse_involutive. by apply of_le_to_le. Qed.

Lemma to_be_bytes n v : bytes_ok (to_be n v).
Proof. apply Forall_reverse, to_le_bytes. Qed.

(** * Swaps reverse the bytes *)

Lemma land_byte x k : 0 <= k → Z.land x (255 * 2 ^ k) = (x / 2 ^ k) mod 256 * 2 ^ k.
Proof.
  intros Hk. change 256 with (2 ^ 8). change 255 with (Z.ones 8).
  rewrite <- !Z.shiftl_mul_pow2, <- Z.land_ones, <- Z.shiftr_div_pow2 by lia.
  apply Z.bits_inj'. intros n Hn.
  rewrite Z.land_spec, !Z.shiftl_spec, Z.land_spec by lia.
  destruct (decide (n < k)) as [Hlt | Hge].
  - rewrite (Z.testbit_neg_r (Z.ones 8)) by lia. rewrite andb_false_r.
    rewrite (Z.testbit_neg_r (Z.shiftr x k)) by lia. done.
  - rewrite Z.shiftr_spec by lia. by replace (n - k + k) with n by lia.
Qed.

Lemma shiftl_shiftr_byte y k j : 0 <= j <= k → Z.shiftr (y * 2 ^ k) j = y * 2 ^ (k - j).
Proof.
  intros Hj. rewrite Z.shiftr_div_pow2 by lia.
  replace k with ((k - j) + j) at 1 by lia. rewrite Z.pow_add_r, Z.mul_assoc by lia.
  apply Z.div_mul. apply Z.pow_nonzero; lia.
Qed.

Lemma shiftl_byte y k j : 0 <= k → 0 <= j → Z.shiftl (y * 2 ^ k) j = y * 2 ^ (k + j).
Proof. intros Hk Hj. rewrite Z.shiftl_mul_pow2, Z.pow_add_r by lia. lia. Qed.

Lemma bswap32_spec x : bswap32 x = of_be (to_le 4 x).
Proof.
  unfold bswap32.
  change 0x000000FF with (255 * 2 ^ 0). change 0x0000FF00 with (255 * 2 ^ 8).
  change 0x00FF0000 with (255 * 2 ^ 16). change 0xFF000000 with (255 * 2 ^ 24).
  rewrite !land_byte by lia. rewrite !shiftl_shiftr_byte, !shiftl_byte by lia.
  change (0 + 24) with 24. change (8 + 8) with 16. change (16 - 8) with 8. change (24 - 24) with 0.
  rewrite Z.pow_0_r, Z.div_1_r, Z.mul_1_r.
  assert (∀ y, 0 <= y mod 256 < 256) as Hb by (intros y; apply Z.mod_pos_bound; lia).
  pose proof (Hb x). pose proof (Hb (x / 2 ^ 8)). pose proof (Hb (x / 2 ^ 16)).
  pose proof (Hb (x / 2 ^ 24)). clear Hb.
  unfold of_be. cbn [to_le]. rewrite !Z.div_div by lia.
  change (256 * 256) with (2 ^ 16). change (2 ^ 16 * 256) with (2 ^ 24). change (x / 256) with (x / 2 ^ 8).
  set (b0 := x mod 256) in *. set (b1 := (x / 2 ^ 8) mod 256) in *.
  set (b2 := (x / 2 ^ 16) mod 256) in *. set (b3 := (x / 2 ^ 24) mod 256) in *.
  clearbody b0 b1 b2 b3.
  rewrite (lor_disjoint b0 (b1 * 2 ^ 16) 24) by lia.
  replace (b0 * 2 ^ 24 + b1 * 2 ^ 16) with ((b0 * 2 ^ 8 + b1) * 2 ^ 16) by lia.
  rewrite (lor_disjoint _ (b2 * 2 ^ 8) 16) by lia.
  replace (_ * 2 ^ 16 + b2 * 2 ^ 8) with (((b0 * 2 ^ 8 + b1) * 2 ^ 8 + b2) * 2 ^ 8) by lia.
  rewrite (lor_disjoint _ b3 8) by lia.
  cbn [reverse rev_append of_le]. lia.
Qed.

Lemma bswap16_spec x : 0 <= x < 2 ^ 16 → bswap16 x = of_be (to_le 2 x).
Proof.
  intros Hx. unfold bswap16. rewrite Z.lor_comm, Z.shiftl_mul_pow2, Z.shiftr_div_pow2 by lia.
  rewrite (lor_disjoint x (x / 2 ^ 8) 8) by mlia.
  unfold of_be. cbn [to_le reverse rev_append of_le].
  assert (x / 256 mod 256 = x / 256) as -> by (apply Z.mod_small; mlia). mlia.
Qed.

Lemma bswap64_spec x : bswap64 x = of_be (to_le 8 x).
Proof.
  unfold bswap64.
  change 0x00000000000000FF with (255 * 2 ^ 0). change 0x000000000000FF00 with (255 * 2 ^ 8).
  change 0x0000000000FF0000 with (255 * 2 ^ 16). change 0x00000000FF000000 with (255 * 2 ^ 24).
  change 0x000000FF00000000 with (255 * 2 ^ 32). change 0x0000FF0000000000 with (255 * 2 ^ 40).
  change 0x00FF000000000000 with (255 * 2 ^ 48). change 0xFF00000000000000 with (255 * 2 ^ 56).
  rewrite !land_byte by lia. rewrite !shiftl_shiftr_byte, !shiftl_byte by lia.
  change (0 + 56) with 56. change (8 + 40) with 48. change (16 + 24) with 40. change (24 + 8) with 32.
  change (32 - 8) with 24. change (40 - 24) with 16. change (48 - 40) with 8. change (56 - 56) with 0.
  rewrite Z.pow_0_r, Z.div_1_r, Z.mul_1_r.
  assert (∀ y, 0 <= y mod 256 < 256) as Hb by (intros y; apply Z.mod_pos_bound; lia).
  pose proof (Hb x). pose proof (Hb (x / 2 ^ 8)). pose proof (Hb (x / 2 ^ 16)).
  pose proof (Hb (x / 2 ^ 24)). pose proof (Hb (x / 2 ^ 32)). pose proof (Hb (x / 2 ^ 40)).
  pose proof (Hb (x / 2 ^ 48)). pose proof (Hb (x / 2 ^ 56)). clear Hb.
  unfold of_be. cbn [to_le]. rewrite !Z.div_div by lia.
  change (256 * 256) with (2 ^ 16). change (2 ^ 16 * 256) with (2 ^ 24). change (2 ^ 24 * 256) with (2 ^ 32).
  change (2 ^ 32 * 256) with (2 ^ 40). change (2 ^ 40 * 256) with (2 ^ 48).
  change (2 ^ 48 * 256) with (2 ^ 56). change (x / 256) with (x / 2 ^ 8).
  set (b0 := x mod 256) in *. set (b1 := (x / 2 ^ 8) mod 256) in *.
  set (b2 := (x / 2 ^ 16) mod 256) in *. set (b3 := (x / 2 ^ 24) mod 256) in *.
  set (b4 := (x / 2 ^ 32) mod 256) in *. set (b5 := (x / 2 ^ 40) mod 256) in *.
  set (b6 := (x / 2 ^ 48) mod 256) in *. set (b7 := (x / 2 ^ 56) mod 256) in *.
  clearbody b0 b1 b2 b3 b4 b5 b6 b7.
  rewrite (lor_disjoint b0 (b1 * 2 ^ 48) 56) by lia.
  replace (b0 * 2 ^ 56 + b1 * 2 ^ 48) with ((b0 * 2 ^ 8 + b1) * 2 ^ 48) by lia.
  rewrite (lor_disjoint _ (b2 * 2 ^ 40) 48) by lia.
  replace (_ * 2 ^ 48 + b2 * 2 ^ 40) with (((b0 * 2 ^ 8 + b1) * 2 ^ 8 + b2) * 2 ^ 40) by lia.
  rewrite (lor_disjoint _ (b3 * 2 ^ 32) 40) by lia.
  replace (_ * 2 ^ 40 + b3 * 2 ^ 32) with ((((b0 * 2 ^ 8 + b1) * 2 ^ 8 + b2) * 2 ^ 8 + b3) * 2 ^ 32) by lia.
  rewrite (lor_disjoint _ (b4 * 2 ^ 24) 32) by lia.
  replace (_ * 2 ^ 32 + b4 * 2 ^ 24)
    with (((((b0 * 2 ^ 8 + b1) * 2 ^ 8 + b2) * 2 ^ 8 + b3) * 2 ^ 8 + b4) * 2 ^ 24) by lia.
  rewrite (lor_disjoint _ (b5 * 2 ^ 16) 24) by lia.
  replace (_ * 2 ^ 24 + b5 * 2 ^ 16)
    with ((((((b0 * 2 ^ 8 + b1) * 2 ^ 8 + b2) * 2 ^ 8 + b3) * 2 ^ 8 + b4) * 2 ^ 8 + b5) * 2 ^ 16) by lia.
  rewrite (lor_disjoint _ (b6 * 2 ^ 8) 16) by lia.
  replace (_ * 2 ^ 16 + b6 * 2 ^ 8)
    with (((((((b0 * 2 ^ 8 + b1) * 2 ^ 8 + b2) * 2 ^ 8 + b3) * 2 ^ 8 + b4) * 2 ^ 8 + b5) * 2 ^ 8 + b6) * 2 ^ 8) by lia.
  rewrite (lor_disjoint _ b7 8) by lia.
  cbn [reverse rev_append of_le]. lia.
Qed.

(** * Loads and stores are big-endian on every host *)

Lemma to_le_of_be n v : to_le n (of_be (to_le n v)) = to_be n v.
Proof.
  unfold of_be. rewrite <- (length_to_be n v) at 1. apply to_le_of_le, to_be_bytes.
Qed.

Lemma of_le_swap n bs : length bs = n → bytes_ok bs → of_be (to_le n (of_le bs)) = of_be bs.
Proof. intros <- Hb. by rewrite to_le_of_le. Qed.

(** Writing and reading the [n] bytes of a value, most significant first. *)
Definition put (n : nat) (mem : list Z) (off v : Z) : option (list Z) := memcpy_to mem off (to_be n v).
Definition get (n : nat) (mem : list Z) (off : Z) : option Z :=
  bs ← memcpy_from mem off n; Some (of_be bs).

Lemma store_be16_put nl mem off v : is_u16 v → store_be16 nl mem off v = put 2 mem off v.
Proof.
  intros Hv. unfold store_be16, native_bytes, host_to_be16. destruct nl; [| done].
  by rewrite bswap16_spec, to_le_of_be by (unfold is_u16 in Hv; lia).
Qed.
Lemma store_be32_put nl mem off v : store_be32 nl mem off v = put 4 mem off v.
Proof.
  unfold store_be32, native_bytes, host_to_be32. destruct nl; [| done].
  by rewrite bswap32_spec, to_le_of_be.
Qed.
Lemma store_be64_put nl mem off v : store_be64 nl mem off v = put 8 mem off v.
Proof.
  unfold store_be64, native_bytes, host_to_be64. destruct nl; [| done].
  by rewrite bswap64_spec, to_le_of_be.
Qed.

Lemma memcpy_from_inv mem off n bs :
  bytes_ok mem → memcpy_from mem off n = Some bs → length bs = n ∧ bytes_ok bs.
Proof.
  unfold memcpy_from. intros Hm H. inv_bind H. apply assertM_inv in E.
  apply andb_true_iff in E as [H1%bool_decide_eq_true H2%bool_decide_eq_true]. simplify_eq/=.
  unfold sub_bytes. split; [rewrite length_take, length_drop; lia |].
  by apply Forall_take, Forall_drop.
Qed.

Lemma load_be16_get nl mem off : bytes_ok mem → load_be16 nl mem off = get 2 mem off.
Proof.
  intros Hm. unfold load_be16, get. destruct (memcpy_from mem off 2) as [bs |] eqn:E; [| done].
  apply memcpy_from_inv in E as [Hl Hb]; [| done]. simpl. f_equal.
  unfold be16_to_host, host_to_be16, native_value. destruct nl; [| done].
  pose proof (of_le_range bs Hb) as Hr. rewrite Hl in Hr.
  rewrite bswap16_spec; [by apply of_le_swap | exact Hr].
Qed.
Lemma load_be32_get nl mem off : bytes_ok mem → load_be32 nl mem off = get 4 mem off.
Proof.
  intros Hm. unfold load_be32, get. destruct (memcpy_from mem off 4) as [bs |] eqn:E; [| done].
  apply memcpy_from_inv in E as [Hl Hb]; [| done]. simpl. f_equal.
  unfold be32_to_host, host_to_be32, native_value. destruct nl; [| done].
  rewrite bswap32_spec. by apply of_le_swap.
Qed.
Lemma load_be64_get nl mem off : bytes_ok mem → load_be64 nl mem off = get 8 mem off.
Proof.
  intros Hm. unfold load_be64, get. destruct (memcpy_from mem off 8) as [bs |] eqn:E; [| done].
  apply memcpy_from_inv in E as [Hl Hb]; [| done]. simpl. f_equal.
  unfold be64_to_host, host_to_be64, native_value. destruct nl; [| done].
  rewrite bswap64_spec. by apply of_le_swap.
Qed.

Create Rewrite HintDb wire.
#[export] Hint Rewrite store_be32_put store_be64_put : wire.

(** ** Composing writes and reads along a layout *)

Lemma memcpy_to_here mem off bs :
  off = 0 → (length bs <= length mem)%nat → memcpy_to mem off bs = Some (bs ++ drop (length bs) mem).
Proof. intros -> Hn. unfold memcpy_to. by rewrite !bool_decide_true by lia. Qed.

Lemma memcpy_to_skip xs mem off bs :
  lenZ xs <= off → memcpy_to (xs ++ mem) off bs = (λ mem', xs ++ mem') <$> memcpy_to mem (off - lenZ xs) bs.
Proof.
  intros Hm. unfold memcpy_to. rewrite length_app.
  assert (bool_decide (0 <= off) && bool_decide (off + lenZ bs <= Z.of_nat (length xs + length mem))
          = bool_decide (0 <= off - lenZ xs) && bool_decide (off - lenZ xs + lenZ bs <= lenZ mem)) as ->.
  { rewrite (bool_decide_true (0 <= off)), (bool_decide_true (0 <= off - _)) by lia. simpl.
    apply bool_decide_ext. lia. }
  destruct (_ && _); simpl; [| done]. f_equal. unfold blit.
  rewrite list.take_app, drop_app, take_ge, (drop_ge xs) by lia.
  rewrite <- app_assoc. f_equal. simpl.
  replace (Z.to_nat off - length xs)%nat with (Z.to_nat (off - lenZ xs)) by lia.
  by replace (Z.to_nat off + length bs - length xs)%nat with (Z.to_nat (off - lenZ xs) + length bs)%nat by lia.
Qed.

Lemma memcpy_from_here bs rest off n :
  off = 0 → n = length bs → memcpy_from (bs ++ rest) off n = Some bs.
Proof.
  intros -> ->. unfold memcpy_from. rewrite length_app, !bool_decide_true by lia. simpl.
  unfold sub_bytes. change (drop (Z.to_nat 0) (bs ++ rest)) with (bs ++ rest).
  by rewrite take_app_length.
Qed.

Lemma memcpy_from_skip xs mem off n :
  lenZ xs <= off → memcpy_from (xs ++ mem) off n = memcpy_from mem (off - lenZ xs) n.
Proof.
  intros Hm. unfold memcpy_from. rewrite length_app.
  assert (bool_decide (0 <= off) && bool_decide (off + Z.of_nat n <= Z.of_nat (length xs + length mem))
          = bool_decide (0 <= off - lenZ xs) && bool_decide (off - lenZ xs + Z.of_nat n <= lenZ mem)) as ->.
  { rewrite (bool_decide_true (0 <= off)), (bool_decide_true (0 <= off - _)) by lia. simpl.
    apply bool_decide_ext. lia. }
  destruct (_ && _); simpl; [| done]. f_equal. unfold sub_bytes.
  rewrite drop_app, drop_ge by lia. simpl.
  by replace (Z.to_nat off - length xs)%nat with (Z.to_nat (off - lenZ xs)) by lia.
Qed.

Lemma put_here n t v off :
  off = 0 → (n <= length t)%nat → put n t off v = Some (to_be n v ++ drop n t).
Proof. intros H Hn. unfold put. rewrite memcpy_to_here; rewrite ?length_to_be; done. Qed.

Lemma put_skip n m w t off v :
  Z.of_nat m <= off → put n (to_be m w ++ t) off v = (λ t', to_be m w ++ t') <$> put n t (off - Z.of_nat m) v.
Proof. intros Hm. unfold put. rewrite memcpy_to_skip; rewrite length_to_be; done. Qed.

Lemma get_here n v t off :
  off = 0 → 0 <= v < 256 ^ Z.of_nat n → get n (to_be n v ++ t) off = Some v.
Proof.
  intros H Hv. unfold get. rewrite memcpy_from_here by (rewrite ?length_to_be; done). simpl.
  by rewrite of_be_to_be.
Qed.

Lemma get_all n v off :
  off = 0 → 0 <= v < 256 ^ Z.of_nat n → get n (to_be n v) off = Some v.
Proof. intros. rewrite <- (app_nil_r (to_be n v)). by apply get_here. Qed.

Lemma get_skip n m w t off :
  Z.of_nat m <= off → get n (to_be m w ++ t) off = get n t (off - Z.of_nat m).
Proof. intros Hm. unfold get. by rewrite memcpy_from_skip; rewrite length_to_be. Qed.

(** Any bytes begin with the big-endian form of some value. *)
Lemma split_be n bs :
  bytes_ok bs → (n <= length bs)%nat →
  ∃ v rest, bs = to_be n v ++ rest ∧ 0 <= v < 256 ^ Z.of_nat n ∧ bytes_ok rest.
Proof.
  intros Hb Hn. exists (of_be (take n bs)), (drop n bs).
  assert (bytes_ok (reverse (take n bs))) as Hr by (by apply Forall_reverse, Forall_take).
  assert (length (reverse (take n bs)) = n) as Hl by (rewrite length_reverse, length_take; lia).
  split; [| split; [| by apply Forall_drop]].
  - unfold to_be, of_be. pose proof (to_le_of_le _ Hr) as E. rewrite Hl in E. rewrite E.
    by rewrite reverse_involutive, take_drop.
  - unfold of_be. pose proof (of_le_range _ Hr) as H. by rewrite Hl in H.
Qed.

(** One byte through a [std::byte *]. *)
Definition store_u8 (mem : list Z) (off v : Z) : option (list Z) := memcpy_to mem off [v].
Definition load_u8 (mem : list Z) (off : Z) : option Z :=
  bs ← memcpy_from mem off 1; head bs.

Lemma store_u8_put mem off v : is_u8 v → store_u8 mem off v = put 1 mem off v.
Proof. intros Hv. unfold put, to_be. cbn. by rewrite Z.mod_small. Qed.

Lemma load_u8_get mem off : bytes_ok mem → load_u8 mem off = get 1 mem off.
Proof.
  intros Hm. unfold load_u8, get. destruct (memcpy_from mem off 1) as [bs |] eqn:E; [| done].
  apply memcpy_from_inv in E as [Hl _]; [| done]. destruct bs as [| b []]; try done. simpl.
  unfold of_be. cbn. f_equal. lia.
Qed.

(** Runs a sequence of stores, or of loads, along a layout of [to_be]s. *)
Ltac run_puts :=
  repeat first
    [ rewrite store_be64_put
    | rewrite store_be32_put
    | rewrite store_u8_put by done
    | rewrite put_here by (try rewrite !length_drop; lia)
    | rewrite put_skip by lia
    | progress cbn [mbind option_bind fmap option_fmap option_map Z.of_nat]
    | progress rewrite !drop_drop ].
Ltac run_gets :=
  repeat first
    [ rewrite get_here by (try mlia; lia)
    | rewrite get_all by (try mlia; lia)
    | rewrite load_be16_get by assumption
    | rewrite get_skip by lia
    | rewrite load_be64_get by assumption
    | rewrite load_be32_get by assumption
    | rewrite load_u8_get by assumption
    | progress cbn [mbind option_bind fmap option_fmap option_map] ].

Lemma bytes_ok_app bs bs' : bytes_ok bs → bytes_ok bs' → bytes_ok (bs ++ bs').
Proof. apply Forall_app_2. Qed.
