(* ===== verification/WireCursors.v ===== *)
(** Bounds-checked cursors over a byte buffer
    ([src/libs/net/wire_reader.hpp], [src/libs/net/wire_writer.hpp]).

    A cursor is its span and its position, both public in the source: the
    theorems allow any position.  [None] is a failed [assert] or a copy
    outside the buffer; the source's [false] and [nullopt] are values. *)
From S2P Require Import Prelude.
From S2P Require Import Endian.
Local Open Scope Z_scope.

Module Wire.
Section Host.
Context (native_little : bool).

(** * Writing *)

Record WireWriter : Set := { wbuf : list Z; wpos : Z }.
Implicit Types (w : WireWriter).

Definition write_bytes w (src : list Z) : option (WireWriter * bool) :=
  _ ← assertM (negb (bool_decide (src = [])));
  if bool_decide (wpos w > lenZ (wbuf w)) || bool_decide (lenZ src > u64 (lenZ (wbuf w) - wpos w)) then Some (w, false)
  else
    buf ← memcpy_to (wbuf w) (wpos w) src;
    Some ({| wbuf := buf; wpos := u64 (wpos w + lenZ src) |}, true).

(** [std::as_bytes] of an integer is its representation on the host. *)
Definition write_u16_be w (v : Z) := write_bytes w (native_bytes native_little 2 (host_to_be16 native_little v)).
Definition write_u32_be w (v : Z) := write_bytes w (native_bytes native_little 4 (host_to_be32 native_little v)).
Definition write_u64_be w (v : Z) := write_bytes w (native_bytes native_little 8 (host_to_be64 native_little v)).
Definition write_u16_le w (v : Z) := write_bytes w (native_bytes native_little 2 (host_to_le16 native_little v)).
Definition write_u32_le w (v : Z) := write_bytes w (native_bytes native_little 4 (host_to_le32 native_little v)).
Definition write_u64_le w (v : Z) := write_bytes w (native_bytes native_little 8 (host_to_le64 native_little v)).

Definition written w : Z := wpos w.
Definition write_remaining w : Z := u64 (lenZ (wbuf w) - wpos w).

(** * Reading *)

Record WireReader : Set := { rbuf : list Z; rpos : Z }.
Implicit Types (r : WireReader).

(** The bytes written to a destination of [n] bytes, or [false]. *)
Definition read_bytes r (n : nat) : option (WireReader * option (list Z)) :=
  if bool_decide (rpos r > lenZ (rbuf r)) || bool_decide (Z.of_nat n > u64 (lenZ (rbuf r) - rpos r)) then Some (r, None)
  else
    bs ← memcpy_from (rbuf r) (rpos r) n;
    Some ({| rbuf := rbuf r; rpos := u64 (rpos r + Z.of_nat n) |}, Some bs).

Definition read_int r (n : nat) (convert : Z → Z) : option (WireReader * option Z) :=
  '(r, bs) ← read_bytes r n;
  Some (r, option_map (λ bs, convert (native_value native_little bs)) bs).
Definition read_u16_be r := read_int r 2 (be16_to_host native_little).
Definition read_u32_be r := read_int r 4 (be32_to_host native_little).
Definition read_u64_be r := read_int r 8 (be64_to_host native_little).
Definition read_u16_le r := read_int r 2 (le16_to_host native_little).
Definition read_u32_le r := read_int r 4 (le32_to_host native_little).
Definition read_u64_le r := read_int r 8 (le64_to_host native_little).

Definition consumed r : Z := rpos r.
Definition read_remaining r : Z := u64 (lenZ (rbuf r) - rpos r).
End Host.
End Wire.

(** * Fields *)

Import Wire.

Inductive Order : Set := BE | LE.
Inductive Width : Set := W16 | W32 | W64.
Definition size (w : Width) : nat := match w with W16 => 2 | W32 => 4 | W64 => 8 end.

(** What is written, and what a reader asks for. *)
Inductive Field : Set := Int (o : Order) (w : Width) (v : Z) | Raw (bs : list Z).
Inductive Shape : Set := AnInt (o : Order) (w : Width) | SomeBytes (n : nat).

Definition shape (f : Field) : Shape := match f with Int o w _ => AnInt o w | Raw bs => SomeBytes (length bs) end.
Definition shape_size (s : Shape) : nat := match s with AnInt _ w => size w | SomeBytes n => n end.

(** The format on the wire, whatever the host. *)
Definition encoding (f : Field) : list Z :=
  match f with Int BE w v => to_be (size w) v | Int LE w v => to_le (size w) v | Raw bs => bs end.
Definition decoded (s : Shape) (bs : list Z) : Field :=
  match s with AnInt BE w => Int BE w (of_be bs) | AnInt LE w => Int LE w (of_le bs) | SomeBytes _ => Raw bs end.

Definition field_ok (f : Field) : Prop :=
  match f with Int _ w v => 0 <= v < 256 ^ Z.of_nat (size w) | Raw bs => bs ≠ [] ∧ bytes_ok bs end.

Definition write_field (nl : bool) (w : WireWriter) (f : Field) : option (WireWriter * bool) :=
  match f with
  | Int BE W16 v => write_u16_be nl w v
  | Int BE W32 v => write_u32_be nl w v
  | Int BE W64 v => write_u64_be nl w v
  | Int LE W16 v => write_u16_le nl w v
  | Int LE W32 v => write_u32_le nl w v
  | Int LE W64 v => write_u64_le nl w v
  | Raw bs => write_bytes w bs
  end.

Definition read_field (nl : bool) (r : WireReader) (s : Shape) : option (WireReader * option Field) :=
  let int o w (res : option (WireReader * option Z)) := '(r, v) ← res; Some (r, option_map (Int o w) v) in
  match s with
  | AnInt BE W16 => int BE W16 (read_u16_be nl r)
  | AnInt BE W32 => int BE W32 (read_u32_be nl r)
  | AnInt BE W64 => int BE W64 (read_u64_be nl r)
  | AnInt LE W16 => int LE W16 (read_u16_le nl r)
  | AnInt LE W32 => int LE W32 (read_u32_le nl r)
  | AnInt LE W64 => int LE W64 (read_u64_le nl r)
  | SomeBytes n => '(r, bs) ← read_bytes r n; Some (r, option_map Raw bs)
  end.

(** A serializer and a parser that stop at the first refusal. *)
Fixpoint write_all (nl : bool) (w : WireWriter) (fs : list Field) : option (WireWriter * bool) :=
  match fs with
  | [] => Some (w, true)
  | f :: fs => '(w, ok) ← write_field nl w f; if (ok : bool) then write_all nl w fs else Some (w, false)
  end.

Fixpoint read_all (nl : bool) (r : WireReader) (ss : list Shape) : option (WireReader * option (list Field)) :=
  match ss with
  | [] => Some (r, Some [])
  | s :: ss =>
      '(r, f) ← read_field nl r s;
      match f with
      | None => Some (r, None)
      | Some f => '(r, fs) ← read_all nl r ss; Some (r, option_map (cons f) fs)
      end
  end.

(** * The host's byte order does not show *)

Lemma native_be n (nl : bool) (swap : Z → Z) v : (nl = true → swap v = of_be (to_le n v)) → native_bytes nl n (if nl then swap v else v) = to_be n v.
Proof. unfold native_bytes. destruct nl; [| done]. intros ->; [| done]. apply to_le_of_be. Qed.

Lemma native_le n (nl : bool) (swap : Z → Z) v : (nl = false → swap v = of_be (to_le n v)) → native_bytes nl n (if nl then v else swap v) = to_le n v.
Proof. unfold native_bytes. destruct nl; [done |]. intros ->; [| done]. unfold to_be at 1. rewrite to_le_of_be. unfold to_be. apply reverse_involutive. Qed.

Lemma write_field_eq nl w f : field_ok f → write_field nl w f = write_bytes w (encoding f).
Proof.
  destruct f as [[] [] v |]; cbn [field_ok size]; intros Hv; cbn; try done;
    unfold write_u16_be, write_u32_be, write_u64_be, write_u16_le, write_u32_le, write_u64_le, host_to_be16, host_to_be32, host_to_be64, host_to_le16, host_to_le32, host_to_le64.
  - by rewrite (native_be 2) by (intros; apply bswap16_spec; lia).
  - by rewrite (native_be 4) by (intros; apply bswap32_spec).
  - by rewrite (native_be 8) by (intros; apply bswap64_spec).
  - by rewrite (native_le 2) by (intros; apply bswap16_spec; lia).
  - by rewrite (native_le 4) by (intros; apply bswap32_spec).
  - by rewrite (native_le 8) by (intros; apply bswap64_spec).
Qed.

Lemma value_be n (nl : bool) (swap : Z → Z) bs :
  length bs = n → bytes_ok bs → (∀ v, 0 <= v < 256 ^ Z.of_nat n → swap v = of_be (to_le n v)) →
  (if nl then swap (native_value nl bs) else native_value nl bs) = of_be bs.
Proof. intros <- Hb Hs. destruct nl; [| done]. cbn. rewrite Hs by (by apply of_le_range). by apply of_le_swap. Qed.

Lemma value_le n (nl : bool) (swap : Z → Z) bs :
  length bs = n → bytes_ok bs → (∀ v, 0 <= v < 256 ^ Z.of_nat n → swap v = of_be (to_le n v)) →
  (if nl then native_value nl bs else swap (native_value nl bs)) = of_le bs.
Proof.
  intros <- Hb Hs. destruct nl; [done |]. cbn. assert (bytes_ok (reverse bs)) as Hr by (by apply Forall_reverse).
  rewrite Hs by (unfold of_be; rewrite <- (length_reverse bs); by apply of_le_range).
  unfold of_be at 2. rewrite <- (length_reverse bs), to_le_of_le by done. unfold of_be. by rewrite reverse_involutive.
Qed.

(** A read as one copy. *)
Lemma read_field_eq nl r s :
  bytes_ok (rbuf r) →
  read_field nl r s = ('(r, bs) ← read_bytes r (shape_size s); Some (r, option_map (decoded s) bs)).
Proof.
  intros Hb.
  assert (∀ n bs r', read_bytes r n = Some (r', Some bs) → length bs = n ∧ bytes_ok bs) as Hlen.
  { intros n bs r'. unfold read_bytes. destruct (_ || _); [done |]. destruct (memcpy_from _ _ _) as [bs' |] eqn:E; [| done].
    cbn. intros [= _ <-]. by apply (memcpy_from_inv (rbuf r) (rpos r)). }
  destruct s as [[] [] | n]; cbn [read_field shape_size size]; try done;
    unfold read_u16_be, read_u32_be, read_u64_be, read_u16_le, read_u32_le, read_u64_le, read_int;
    destruct (read_bytes r _) as [[r' [bs |]] |] eqn:E; cbn; try done; destruct (Hlen _ _ _ E) as [Hl Hbs];
    unfold be16_to_host, be32_to_host, be64_to_host, le16_to_host, le32_to_host, le64_to_host, host_to_be16, host_to_be32, host_to_be64, host_to_le16, host_to_le32, host_to_le64.
  - by rewrite (value_be 2) by (done || intros; apply bswap16_spec; done).
  - by rewrite (value_be 4) by (done || intros; apply bswap32_spec; done).
  - by rewrite (value_be 8) by (done || intros; apply bswap64_spec; done).
  - by rewrite (value_le 2) by (done || intros; apply bswap16_spec; done).
  - by rewrite (value_le 4) by (done || intros; apply bswap32_spec; done).
  - by rewrite (value_le 8) by (done || intros; apply bswap64_spec; done).
Qed.

(** * One field *)

Lemma encoding_bytes f : field_ok f → bytes_ok (encoding f).
Proof. destruct f as [[] w v | bs]; cbn; intros H; [apply to_be_bytes | apply to_le_bytes | apply H]. Qed.

Lemma encoding_nonempty f : field_ok f → encoding f ≠ [].
Proof.
  destruct f as [[] w v | bs]; cbn; intros H E; [| | by apply (proj1 H)]; apply (f_equal length) in E;
    rewrite ?length_to_be, ?length_to_le in E; by destruct w.
Qed.

Lemma length_encoding f : length (encoding f) = shape_size (shape f).
Proof. destruct f as [[] w v | bs]; cbn; [apply length_to_be | apply length_to_le | done]. Qed.

Lemma decoded_encoding f : field_ok f → decoded (shape f) (encoding f) = f.
Proof. destruct f as [[] w v | bs]; cbn [decoded shape encoding field_ok]; intros H; [by rewrite of_be_to_be | by rewrite of_le_to_le | done]. Qed.

Abbreviation writer pre rest := {| wbuf := pre ++ rest; wpos := lenZ pre |}.
Abbreviation reader pre rest := {| rbuf := pre ++ rest; rpos := lenZ pre |}.

Lemma write_field_fits nl pre room f :
  field_ok f → lenZ (pre ++ room) < 2 ^ 64 → lenZ (encoding f) <= lenZ room →
  write_field nl (writer pre room) f = Some (writer (pre ++ encoding f) (drop (length (encoding f)) room), true).
Proof.
  intros Hf Hl Hr. rewrite write_field_eq by done. unfold write_bytes. cbn [wbuf wpos]. rewrite length_app in *.
  rewrite (bool_decide_false (encoding f = [])) by (by apply encoding_nonempty). cbn [negb assertM mbind option_bind].
  rewrite !bool_decide_false by (rewrite ?u64_id by (unfold is_u64; lia); lia). cbn [orb].
  rewrite memcpy_to_skip by lia. rewrite Z.sub_diag, memcpy_to_here by (done || lia). cbn [fmap option_fmap option_map mbind option_bind].
  rewrite u64_id by (unfold is_u64; lia). rewrite <- app_assoc, length_app. do 3 f_equal. lia.
Qed.

Lemma write_field_refused nl w f :
  field_ok f → 0 <= wpos w → lenZ (wbuf w) < 2 ^ 64 → lenZ (wbuf w) < wpos w + lenZ (encoding f) → write_field nl w f = Some (w, false).
Proof.
  intros Hf Hp Hl Hr. rewrite write_field_eq by done. unfold write_bytes.
  rewrite (bool_decide_false (encoding f = [])) by (by apply encoding_nonempty). cbn [negb assertM mbind option_bind].
  destruct (decide (wpos w > lenZ (wbuf w))); [by rewrite bool_decide_true | rewrite bool_decide_false by done].
  rewrite bool_decide_true; [done |]. rewrite u64_id by (unfold is_u64; lia). lia.
Qed.

Lemma read_field_fits nl pre after f :
  field_ok f → bytes_ok (pre ++ encoding f ++ after) → lenZ (pre ++ encoding f ++ after) < 2 ^ 64 →
  read_field nl (reader pre (encoding f ++ after)) (shape f) = Some (reader (pre ++ encoding f) after, Some f).
Proof.
  intros Hf Hb Hl. rewrite read_field_eq by done. rewrite <- length_encoding. unfold read_bytes. cbn [rbuf rpos]. rewrite !length_app in *.
  rewrite !bool_decide_false by (rewrite ?u64_id by (unfold is_u64; lia); lia). cbn [orb].
  rewrite memcpy_from_skip by lia. rewrite memcpy_from_here by (done || lia). cbn [mbind option_bind option_map]. rewrite decoded_encoding by done.
  rewrite u64_id by (unfold is_u64; lia). rewrite <- app_assoc. do 3 f_equal. lia.
Qed.

Lemma read_field_refused nl r s :
  bytes_ok (rbuf r) → 0 <= rpos r → lenZ (rbuf r) < 2 ^ 64 → lenZ (rbuf r) < rpos r + Z.of_nat (shape_size s) → read_field nl r s = Some (r, None).
Proof.
  intros Hb Hp Hl Hr. rewrite read_field_eq by done. unfold read_bytes.
  destruct (decide (rpos r > lenZ (rbuf r))); [by rewrite bool_decide_true | rewrite bool_decide_false by done].
  rewrite bool_decide_true; [done |]. rewrite u64_id by (unfold is_u64; lia). lia.
Qed.

(** * Sequences of fields *)

Definition wire (fs : list Field) : list Z := concat (encoding <$> fs).

Lemma wire_bytes fs : Forall field_ok fs → bytes_ok (wire fs).
Proof. induction 1 as [| f fs Hf _ IH]; [constructor |]. cbn. apply bytes_ok_app; [by apply encoding_bytes | done]. Qed.

(** What fits is written; the first field that does not is refused. *)
Lemma write_all_eq nl fs : ∀ pre room,
  Forall field_ok fs → lenZ (pre ++ room) < 2 ^ 64 →
  (lenZ (wire fs) <= lenZ room ∧ write_all nl (writer pre room) fs = Some (writer (pre ++ wire fs) (drop (length (wire fs)) room), true)) ∨
  ∃ done f rest, fs = done ++ f :: rest ∧ lenZ (wire done) <= lenZ room < lenZ (wire done) + lenZ (encoding f) ∧
    write_all nl (writer pre room) fs = Some (writer (pre ++ wire done) (drop (length (wire done)) room), false).
Proof.
  induction fs as [| f fs IH]; intros pre room Hfs Hl; cbn [write_all]; [left; split; [cbn; lia | by rewrite app_nil_r] |].
  apply Forall_cons_1 in Hfs as [Hf Hfs]. destruct (decide (lenZ (encoding f) <= lenZ room)) as [Hle | Hgt].
  - rewrite write_field_fits by done. cbn [mbind option_bind].
    destruct (IH (pre ++ encoding f) (drop (length (encoding f)) room) Hfs) as [[H1 H2] | (done_ & g & rest & -> & H1 & H2)].
    + rewrite !length_app, length_drop in *. lia.
    + left. rewrite length_drop in H1. cbn [wire concat fmap list_fmap]. fold (wire fs). split; [rewrite length_app; lia |].
      by rewrite H2, drop_drop, <- (app_assoc pre), (length_app (encoding f)).
    + right. rewrite length_drop in H1. exists (f :: done_), g, rest. split; [done |]. cbn [wire concat fmap list_fmap]. fold (wire done_).
      split; [rewrite length_app; lia |]. by rewrite H2, drop_drop, <- (app_assoc pre), (length_app (encoding f)).
  - right. exists [], f, fs. split; [done |]. split; [cbn; lia |]. rewrite write_field_refused; [| done | cbn; lia | done |].
    + cbn [mbind option_bind]. by rewrite app_nil_r.
    + cbn [wbuf wpos]. rewrite length_app. lia.
Qed.

(** Reading what was written, up to any cut. *)
Lemma read_all_eq nl fs : ∀ pre after,
  Forall field_ok fs → bytes_ok pre → bytes_ok after → lenZ (pre ++ wire fs ++ after) < 2 ^ 64 →
  read_all nl (reader pre (wire fs ++ after)) (shape <$> fs) = Some (reader (pre ++ wire fs) after, Some fs).
Proof.
  induction fs as [| f fs IH]; intros pre after Hfs Hp Ha Hl; cbn [read_all fmap list_fmap]; [by rewrite app_nil_r |].
  apply Forall_cons_1 in Hfs as [Hf Hfs]. cbn [wire concat fmap list_fmap] in *. fold (wire fs) in *. rewrite <- app_assoc in *.
  pose proof (encoding_bytes f Hf) as He. rewrite read_field_fits; [| done | | done].
  - cbn [mbind option_bind]. rewrite (IH (pre ++ encoding f) after Hfs); [| by apply bytes_ok_app | done | by rewrite <- app_assoc].
    cbn [mbind option_bind option_map]. by rewrite <- (app_assoc pre).
  - apply bytes_ok_app; [done |]. apply bytes_ok_app; [done |]. apply bytes_ok_app; [by apply wire_bytes | done].
Qed.

Lemma read_all_cut nl fs : ∀ pre part lost,
  Forall field_ok fs → bytes_ok pre → wire fs = part ++ lost → lost ≠ [] → lenZ (pre ++ part) < 2 ^ 64 →
  ∃ done f rest tail, fs = done ++ f :: rest ∧ part = wire done ++ tail ∧ lenZ tail < lenZ (encoding f) ∧
    read_all nl (reader pre part) (shape <$> fs) = Some (reader (pre ++ wire done) tail, None).
Proof.
  induction fs as [| f fs IH]; intros pre part lost Hfs Hp Hw Hlost Hl; [by destruct part, lost |].
  apply Forall_cons_1 in Hfs as [Hf Hfs]. cbn [wire concat fmap list_fmap read_all] in *. fold (wire fs) in *.
  pose proof (encoding_bytes f Hf) as He. assert (bytes_ok part) as Hpart.
  { assert (bytes_ok (part ++ lost)) as H by (rewrite <- Hw; apply bytes_ok_app; [done | by apply wire_bytes]). by apply Forall_app in H as [? _]. }
  destruct (decide (length (encoding f) <= length part)%nat) as [Hle | Hgt].
  - assert (part = encoding f ++ drop (length (encoding f)) part) as Ep.
    { rewrite <- (take_drop (length (encoding f)) part) at 1. f_equal. apply (f_equal (take (length (encoding f)))) in Hw.
      rewrite take_app_length, take_app_le in Hw by done. done. }
    rewrite Ep in Hw |- *. rewrite <- app_assoc in Hw. apply app_inv_head in Hw.
    rewrite read_field_fits; [| done | rewrite <- Ep; by apply bytes_ok_app | by rewrite <- Ep]. cbn [mbind option_bind].
    destruct (IH (pre ++ encoding f) (drop (length (encoding f)) part) lost Hfs) as (done_ & g & rest & tl & -> & Hd & Ht & Hr);
      [by apply bytes_ok_app | done | done | by rewrite <- app_assoc, <- Ep |].
    exists (f :: done_), g, rest, tl. split; [done |]. cbn [wire concat fmap list_fmap]. fold (wire done_). rewrite <- app_assoc.
    split; [by rewrite <- Hd |]. split; [done |]. rewrite Hr. cbn [mbind option_bind option_map]. by rewrite <- (app_assoc pre).
  - exists [], f, fs, part. split; [done |]. split; [done |]. split; [lia |]. rewrite read_field_refused.
    + cbn [mbind option_bind]. by rewrite app_nil_r.
    + by apply bytes_ok_app.
    + cbn. lia.
    + done.
    + cbn [rbuf rpos]. rewrite <- length_encoding, length_app. lia.
Qed.

(** C27. Writing and reading through cursors are inverse.  Fields that fit are written in their
    wire order, whatever the host, with the rest of the buffer untouched, and a reader on a
    host of either byte order gets them back and stops where the writer did.  Without room the
    fields before the first that does not fit are written and that one is refused, leaving
    buffer and cursor as they were; from a truncated message the fields before the first
    incomplete one are consumed and the cursor stays there.  Nothing is ever accessed outside
    the buffer, wherever the cursor was placed. *)
Theorem wire_cursors_round_trip (nl nl' : bool) (fs : list Field) (pre room : list Z) :
  Forall field_ok fs → bytes_ok pre → bytes_ok room → lenZ (pre ++ room) < 2 ^ 64 →
  (lenZ (wire fs) <= lenZ room →
     ∃ w, write_all nl (writer pre room) fs = Some (w, true) ∧ wbuf w = pre ++ wire fs ++ drop (length (wire fs)) room ∧ written w = lenZ pre + lenZ (wire fs) ∧
       read_all nl' {| rbuf := wbuf w; rpos := lenZ pre |} (shape <$> fs) = Some ({| rbuf := wbuf w; rpos := written w |}, Some fs)) ∧
  (lenZ room < lenZ (wire fs) →
     ∃ w done f rest, write_all nl (writer pre room) fs = Some (w, false) ∧ fs = done ++ f :: rest ∧ wbuf w = pre ++ wire done ++ drop (length (wire done)) room ∧
       written w = lenZ pre + lenZ (wire done) ∧ lenZ (wire done) <= lenZ room < lenZ (wire done) + lenZ (encoding f)) ∧
  (∀ lost, wire fs = room ++ lost → lost ≠ [] →
     ∃ r done f rest, read_all nl' (reader pre room) (shape <$> fs) = Some (r, None) ∧ fs = done ++ f :: rest ∧
       consumed r = lenZ pre + lenZ (wire done) ∧ rbuf r = pre ++ room ∧ lenZ (wire done) <= lenZ room < lenZ (wire done) + lenZ (encoding f)) ∧
  (∀ pos f, lenZ (pre ++ room) < pos → field_ok f →
     write_field nl {| wbuf := pre ++ room; wpos := pos |} f = Some ({| wbuf := pre ++ room; wpos := pos |}, false) ∧
     read_field nl {| rbuf := pre ++ room; rpos := pos |} (shape f) = Some ({| rbuf := pre ++ room; rpos := pos |}, None)).
Proof.
  intros Hfs Hpre Hroom Hl. pose proof (length_app pre room) as Hla. destruct (write_all_eq nl fs pre room Hfs Hl) as [[H1 H2] | (done_ & f & rest & H0 & H1 & H2)].
  - split; [| split; [lia |]].
    + intros _. eexists. split; [exact H2 |]. cbn [wbuf]. unfold written. cbn [wpos]. rewrite <- app_assoc, length_app. split; [done |]. split; [lia |].
      rewrite read_all_eq; [| done | done | by apply Forall_drop | rewrite !length_app, length_drop in *; lia]. rewrite <- app_assoc, length_app. done.
    + split.
      * intros lost Hlost Hne. exfalso. rewrite Hlost, length_app in H1. destruct lost; [done | cbn in H1; lia].
      * intros pos f Hpos Hf. split; [apply write_field_refused; cbn; [done | lia | done | lia] |].
        apply read_field_refused; cbn; [by apply bytes_ok_app | lia | done | lia].
  - assert (lenZ room < lenZ (wire fs)) as Hlt.
    { rewrite H0. unfold wire. rewrite fmap_app, concat_app. cbn [fmap list_fmap concat]. rewrite !length_app. unfold wire in H1. lia. }
    split; [lia |]. split; [| split].
    + intros _. eexists _, done_, f, rest. split; [exact H2 |]. split; [done |]. cbn [wbuf]. unfold written. cbn [wpos]. rewrite <- app_assoc, length_app.
      split; [done |]. split; [lia | done].
    + intros lost Hw Hne. destruct (read_all_cut nl' fs pre room lost Hfs Hpre Hw Hne Hl) as (d & g & rs & tl & -> & Hp & Ht & Hr).
      eexists _, d, g, rs. split; [exact Hr |]. split; [done |]. unfold consumed. cbn [rpos rbuf]. rewrite <- app_assoc, length_app. split; [lia |].
      split; [by rewrite Hp |]. rewrite Hp, length_app. lia.
    + intros pos g Hpos Hg. split; [apply write_field_refused; cbn; [done | lia | done | lia] |].
      apply read_field_refused; cbn; [by apply bytes_ok_app | lia | done | lia].
Qed.

Lemma wire_cursors_round_trip_witness :
  ∃ w, write_all true (writer [9] (replicate 8 0)) [Int BE W16 258; Int LE W32 1; Raw [7]] = Some (w, true) ∧
    wbuf w = [9; 1; 2; 1; 0; 0; 0; 7; 0] ∧ 
    read_all false {| rbuf := wbuf w; rpos := 1 |} [AnInt BE W16; AnInt LE W32; SomeBytes 1] =
      Some ({| rbuf := wbuf w; rpos := 8 |}, Some [Int BE W16 258; Int LE W32 1; Raw [7]]).
Proof.
  destruct (wire_cursors_round_trip true false [Int BE W16 258; Int LE W32 1; Raw [7]] [9] (replicate 8 0)) as (H & _).
  - repeat constructor; cbn; try lia; done.
  - repeat constructor; unfold is_u8; lia.
  - repeat constructor; unfold is_u8; lia.
  - cbn; lia.
  - destruct H as (w & Hw & Hb & Hp & Hr); [vm_compute; congruence |]. exists w. split; [exact Hw |].
    rewrite Hp in Hr. split; [rewrite Hb; vm_compute; reflexivity | exact Hr].
Defined.
