(* ===== verification/Protocol.v ===== *)
(** The wire protocol: [src/apps/shared/protocol.hpp] and
    [src/apps/shared/protocol_codec.hpp].

    Enumerations of one byte ([Side], [RejectReason], [MdMsgType]) are kept
    in the messages as the byte they are on the wire, because
    deserialisation casts any byte to them.  Each serialiser is its sequence
    of stores into a copy of the caller's buffer; its theorem says that the
    bytes are the documented layout, and each deserialiser's that it
    recovers the message from that layout. *)
From S2P Require Import Prelude.
From S2P Require Import Endian.
Local Open Scope Z_scope.

(** * Protocol constants *)

Definition kProtocolVersion : Z := 2.

Inductive MsgType : Set :=
  | kMarketDataUpdate | kNewOrder | kCancelOrder | kOrderAck | kOrderReject | kFillReport
  | kCancelAck | kCancelReject | kModifyOrder | kModifyAck | kModifyReject
  | kHeartbeat | kHeartbeatAck.

Definition msg_type_id (t : MsgType) : Z :=
  match t with
  | kMarketDataUpdate => 1 | kNewOrder => 2 | kCancelOrder => 3 | kOrderAck => 4
  | kOrderReject => 5 | kFillReport => 6 | kCancelAck => 7 | kCancelReject => 8
  | kModifyOrder => 9 | kModifyAck => 10 | kModifyReject => 11 | kHeartbeat => 12
  | kHeartbeatAck => 13
  end.

Definition verify_protocol_version (header_version : Z) : bool :=
  bool_decide (header_version = kProtocolVersion).

Inductive RejectReason : Set :=
  | kUnknown | kDuplicateOrderId | kBookFull | kInvalidPrice | kInvalidQty | kOrderNotFound
  | kInvalidOrderId | kUnknownSymbol | kThrottled.

#[export] Instance RejectReason_eq_dec : EqDecision RejectReason.
Proof. solve_decision. Defined.

Definition reason_id (r : RejectReason) : Z :=
  match r with
  | kUnknown => 0 | kDuplicateOrderId => 1 | kBookFull => 2 | kInvalidPrice => 3 | kInvalidQty => 4
  | kOrderNotFound => 5 | kInvalidOrderId => 6 | kUnknownSymbol => 7 | kThrottled => 8
  end.

Inductive MdMsgType : Set := kBBOUpdate | kTrade.
Definition md_msg_type_id (t : MdMsgType) : Z := match t with kBBOUpdate => 0 | kTrade => 1 end.

Lemma msg_type_id_inj t t' : msg_type_id t = msg_type_id t' → t = t'.
Proof. by destruct t, t'. Qed.

(** * Automation of the codec proofs *)

(** A serialiser is the concatenation of its fields. *)
Ltac codec_serialize ser lay size :=
  intros; destruct_and?; unfold ser, lay;
  match goal with |- context [bool_decide (?l < size)] =>
    rewrite (bool_decide_false (l < size)) by lia end;
  unfold size in *; run_puts; rewrite <- ?app_assoc; done.

(** A deserialiser reads the fields back. *)
Ltac codec_deserialize des lay size :=
  intros; destruct_and?; unfold des;
  first
    [ rewrite bool_decide_true
        by (unfold lay, size; rewrite ?length_app, ?length_to_be; lia)
    | rewrite bool_decide_false
        by (unfold lay, size; rewrite ?length_app, ?length_to_be; lia) ];
  match goal with |- context [load_be64 _ ?m 0] => assert (bytes_ok m) as ?Hok
    by (unfold lay; repeat first [apply bytes_ok_app | apply to_be_bytes | done]) end;
  unfold lay in *; cbn -[to_be load_be64 load_be32 load_u8 u64 s64 app] in *; rewrite <- ?app_assoc in *; run_gets;
  rewrite ?s64_u64 by done; done.

(** * Messages *)

Record MarketDataUpdate : Set := {
  md_seq_num : Z;
  md_symbol_id : Z;
  md_msg_type : Z;
  md_side : Z;
  md_price : Z;
  md_qty : Z;
  md_exchange_ts : Z;
}.

Definition kMarketDataWireSize : Z := 8 + 4 + 1 + 1 + 8 + 4 + 8.

(** The ranges of the fields' C++ types. *)
Definition MarketDataUpdate_ok (md : MarketDataUpdate) : Prop :=
  is_u64 (md_seq_num md) ∧ is_u32 (md_symbol_id md) ∧ is_u8 (md_msg_type md) ∧ is_u8 (md_side md) ∧ is_s64 (md_price md) ∧ is_u32 (md_qty md) ∧ is_s64 (md_exchange_ts md).

Record NewOrder : Set := {
  no_client_order_id : Z;
  no_symbol_id : Z;
  no_side : Z;
  no_price : Z;
  no_qty : Z;
  no_send_ts : Z;
}.

Definition kNewOrderWireSize : Z := 8 + 4 + 1 + 8 + 4 + 8.

(** The ranges of the fields' C++ types. *)
Definition NewOrder_ok (o : NewOrder) : Prop :=
  is_u64 (no_client_order_id o) ∧ is_u32 (no_symbol_id o) ∧ is_u8 (no_side o) ∧ is_s64 (no_price o) ∧ is_u32 (no_qty o) ∧ is_s64 (no_send_ts o).

Record CancelOrder : Set := {
  co_client_order_id : Z;
  co_symbol_id : Z;
  co_send_ts : Z;
}.

Definition kCancelOrderWireSize : Z := 8 + 4 + 8.

(** The ranges of the fields' C++ types. *)
Definition CancelOrder_ok (c : CancelOrder) : Prop :=
  is_u64 (co_client_order_id c) ∧ is_u32 (co_symbol_id c) ∧ is_s64 (co_send_ts c).

Record OrderAck : Set := {
  oa_client_order_id : Z;
  oa_exchange_order_id : Z;
  oa_send_ts : Z;
}.

Definition kOrderAckWireSize : Z := 8 + 8 + 8.

(** The ranges of the fields' C++ types. *)
Definition OrderAck_ok (a : OrderAck) : Prop :=
  is_u64 (oa_client_order_id a) ∧ is_u64 (oa_exchange_order_id a) ∧ is_s64 (oa_send_ts a).

Record OrderReject : Set := {
  or_client_order_id : Z;
  or_reason : Z;
  or_send_ts : Z;
}.

Definition kOrderRejectWireSize : Z := 8 + 1 + 8.

(** The ranges of the fields' C++ types. *)
Definition OrderReject_ok (r_msg : OrderReject) : Prop :=
  is_u64 (or_client_order_id r_msg) ∧ is_u8 (or_reason r_msg) ∧ is_s64 (or_send_ts r_msg).

Record FillReport : Set := {
  fr_client_order_id : Z;
  fr_exchange_order_id : Z;
  fr_fill_price : Z;
  fr_fill_qty : Z;
  fr_remaining_qty : Z;
  fr_send_ts : Z;
}.

Definition kFillReportWireSize : Z := 8 + 8 + 8 + 4 + 4 + 8.

(** The ranges of the fields' C++ types. *)
Definition FillReport_ok (f : FillReport) : Prop :=
  is_u64 (fr_client_order_id f) ∧ is_u64 (fr_exchange_order_id f) ∧ is_s64 (fr_fill_price f) ∧ is_u32 (fr_fill_qty f) ∧ is_u32 (fr_remaining_qty f) ∧ is_s64 (fr_send_ts f).

Record CancelAck : Set := {
  ca_client_order_id : Z;
  ca_send_ts : Z;
}.

Definition kCancelAckWireSize : Z := 8 + 8.

(** The ranges of the fields' C++ types. *)
Definition CancelAck_ok (a : CancelAck) : Prop :=
  is_u64 (ca_client_order_id a) ∧ is_s64 (ca_send_ts a).

Record CancelReject : Set := {
  cr_client_order_id : Z;
  cr_reason : Z;
  cr_send_ts : Z;
}.

Definition kCancelRejectWireSize : Z := 8 + 1 + 8.

(** The ranges of the fields' C++ types. *)
Definition CancelReject_ok (cr : CancelReject) : Prop :=
  is_u64 (cr_client_order_id cr) ∧ is_u8 (cr_reason cr) ∧ is_s64 (cr_send_ts cr).

Record ModifyOrder : Set := {
  mo_client_order_id : Z;
  mo_symbol_id : Z;
  mo_new_price : Z;
  mo_new_qty : Z;
  mo_send_ts : Z;
}.

Definition kModifyOrderWireSize : Z := 8 + 4 + 8 + 4 + 8.

(** The ranges of the fields' C++ types. *)
Definition ModifyOrder_ok (mo : ModifyOrder) : Prop :=
  is_u64 (mo_client_order_id mo) ∧ is_u32 (mo_symbol_id mo) ∧ is_s64 (mo_new_price mo) ∧ is_u32 (mo_new_qty mo) ∧ is_s64 (mo_send_ts mo).

Record ModifyAck : Set := {
  ma_client_order_id : Z;
  ma_new_exchange_order_id : Z;
  ma_send_ts : Z;
}.

Definition kModifyAckWireSize : Z := 8 + 8 + 8.

(** The ranges of the fields' C++ types. *)
Definition ModifyAck_ok (ma : ModifyAck) : Prop :=
  is_u64 (ma_client_order_id ma) ∧ is_u64 (ma_new_exchange_order_id ma) ∧ is_s64 (ma_send_ts ma).

Record ModifyReject : Set := {
  mr_client_order_id : Z;
  mr_reason : Z;
  mr_send_ts : Z;
}.

Definition kModifyRejectWireSize : Z := 8 + 1 + 8.

(** The ranges of the fields' C++ types. *)
Definition ModifyReject_ok (mr : ModifyReject) : Prop :=
  is_u64 (mr_client_order_id mr) ∧ is_u8 (mr_reason mr) ∧ is_s64 (mr_send_ts mr).

Section Codec.
Context (native_little : bool).

Definition serialize_market_data (buf : list Z) (md : MarketDataUpdate) : option (list Z * Z) :=
  if bool_decide (lenZ buf < kMarketDataWireSize) then Some (buf, 0)
  else
    buf ← store_be64 native_little buf 0 (md_seq_num md);
    buf ← store_be32 native_little buf 8 (md_symbol_id md);
    buf ← store_u8 buf 12 (md_msg_type md);
    buf ← store_u8 buf 13 (md_side md);
    buf ← store_be64 native_little buf 14 (u64 (md_price md));
    buf ← store_be32 native_little buf 22 (md_qty md);
    buf ← store_be64 native_little buf 26 (u64 (md_exchange_ts md));
    Some (buf, kMarketDataWireSize).

Definition deserialize_market_data (buf : list Z) : option (option MarketDataUpdate) :=
  if negb (bool_decide (lenZ buf = kMarketDataWireSize)) then Some None
  else
    x0 ← load_be64 native_little buf 0;
    x1 ← load_be32 native_little buf 8;
    x2 ← load_u8 buf 12;
    x3 ← load_u8 buf 13;
    x4 ← load_be64 native_little buf 14;
    x5 ← load_be32 native_little buf 22;
    x6 ← load_be64 native_little buf 26;
    Some (Some {| md_seq_num := x0; md_symbol_id := x1; md_msg_type := x2; md_side := x3; md_price := s64 x4; md_qty := x5; md_exchange_ts := s64 x6 |}).

(** The documented layout of the payload. *)
Definition layout_market_data (md : MarketDataUpdate) : list Z :=
  to_be 8 (md_seq_num md) ++ to_be 4 (md_symbol_id md) ++ to_be 1 (md_msg_type md) ++ to_be 1 (md_side md) ++ to_be 8 (u64 (md_price md)) ++ to_be 4 (md_qty md) ++ to_be 8 (u64 (md_exchange_ts md)).

Lemma serialize_market_data_eq buf md :
  MarketDataUpdate_ok md → kMarketDataWireSize <= lenZ buf →
  serialize_market_data buf md = Some (layout_market_data md ++ drop 34 buf, kMarketDataWireSize).
Proof. unfold MarketDataUpdate_ok. codec_serialize serialize_market_data layout_market_data kMarketDataWireSize. Qed.

Lemma deserialize_market_data_eq md :
  MarketDataUpdate_ok md → deserialize_market_data (layout_market_data md) = Some (Some md).
Proof. unfold MarketDataUpdate_ok. destruct md. codec_deserialize deserialize_market_data layout_market_data kMarketDataWireSize. Qed.

Definition serialize_new_order (buf : list Z) (o : NewOrder) : option (list Z * Z) :=
  if bool_decide (lenZ buf < kNewOrderWireSize) then Some (buf, 0)
  else
    buf ← store_be64 native_little buf 0 (no_client_order_id o);
    buf ← store_be32 native_little buf 8 (no_symbol_id o);
    buf ← store_u8 buf 12 (no_side o);
    buf ← store_be64 native_little buf 13 (u64 (no_price o));
    buf ← store_be32 native_little buf 21 (no_qty o);
    buf ← store_be64 native_little buf 25 (u64 (no_send_ts o));
    Some (buf, kNewOrderWireSize).

Definition deserialize_new_order (buf : list Z) : option (option NewOrder) :=
  if bool_decide (lenZ buf < kNewOrderWireSize) then Some None
  else
    x0 ← load_be64 native_little buf 0;
    x1 ← load_be32 native_little buf 8;
    x2 ← load_u8 buf 12;
    x3 ← load_be64 native_little buf 13;
    x4 ← load_be32 native_little buf 21;
    x5 ← load_be64 native_little buf 25;
    Some (Some {| no_client_order_id := x0; no_symbol_id := x1; no_side := x2; no_price := s64 x3; no_qty := x4; no_send_ts := s64 x5 |}).

(** The documented layout of the payload. *)
Definition layout_new_order (o : NewOrder) : list Z :=
  to_be 8 (no_client_order_id o) ++ to_be 4 (no_symbol_id o) ++ to_be 1 (no_side o) ++ to_be 8 (u64 (no_price o)) ++ to_be 4 (no_qty o) ++ to_be 8 (u64 (no_send_ts o)).

Lemma serialize_new_order_eq buf o :
  NewOrder_ok o → kNewOrderWireSize <= lenZ buf →
  serialize_new_order buf o = Some (layout_new_order o ++ drop 33 buf, kNewOrderWireSize).
Proof. unfold NewOrder_ok. codec_serialize serialize_new_order layout_new_order kNewOrderWireSize. Qed.

Lemma deserialize_new_order_eq o rest :
  NewOrder_ok o → bytes_ok rest → deserialize_new_order (layout_new_order o ++ rest) = Some (Some o).
Proof. unfold NewOrder_ok. destruct o. codec_deserialize deserialize_new_order layout_new_order kNewOrderWireSize. Qed.

Definition serialize_cancel_order (buf : list Z) (c : CancelOrder) : option (list Z * Z) :=
  if bool_decide (lenZ buf < kCancelOrderWireSize) then Some (buf, 0)
  else
    buf ← store_be64 native_little buf 0 (co_client_order_id c);
    buf ← store_be32 native_little buf 8 (co_symbol_id c);
    buf ← store_be64 native_little buf 12 (u64 (co_send_ts c));
    Some (buf, kCancelOrderWireSize).

Definition deserialize_cancel_order (buf : list Z) : option (option CancelOrder) :=
  if bool_decide (lenZ buf < kCancelOrderWireSize) then Some None
  else
    x0 ← load_be64 native_little buf 0;
    x1 ← load_be32 native_little buf 8;
    x2 ← load_be64 native_little buf 12;
    Some (Some {| co_client_order_id := x0; co_symbol_id := x1; co_send_ts := s64 x2 |}).

(** The documented layout of the payload. *)
Definition layout_cancel_order (c : CancelOrder) : list Z :=
  to_be 8 (co_client_order_id c) ++ to_be 4 (co_symbol_id c) ++ to_be 8 (u64 (co_send_ts c)).

Lemma serialize_cancel_order_eq buf c :
  CancelOrder_ok c → kCancelOrderWireSize <= lenZ buf →
  serialize_cancel_order buf c = Some (layout_cancel_order c ++ drop 20 buf, kCancelOrderWireSize).
Proof. unfold CancelOrder_ok. codec_serialize serialize_cancel_order layout_cancel_order kCancelOrderWireSize. Qed.

Lemma deserialize_cancel_order_eq c rest :
  CancelOrder_ok c → bytes_ok rest → deserialize_cancel_order (layout_cancel_order c ++ rest) = Some (Some c).
Proof. unfold CancelOrder_ok. destruct c. codec_deserialize deserialize_cancel_order layout_cancel_order kCancelOrderWireSize. Qed.

Definition serialize_order_ack (buf : list Z) (a : OrderAck) : option (list Z * Z) :=
  if bool_decide (lenZ buf < kOrderAckWireSize) then Some (buf, 0)
  else
    buf ← store_be64 native_little buf 0 (oa_client_order_id a);
    buf ← store_be64 native_little buf 8 (oa_exchange_order_id a);
    buf ← store_be64 native_little buf 16 (u64 (oa_send_ts a));
    Some (buf, kOrderAckWireSize).

Definition deserialize_order_ack (buf : list Z) : option (option OrderAck) :=
  if bool_decide (lenZ buf < kOrderAckWireSize) then Some None
  else
    x0 ← load_be64 native_little buf 0;
    x1 ← load_be64 native_little buf 8;
    x2 ← load_be64 native_little buf 16;
    Some (Some {| oa_client_order_id := x0; oa_exchange_order_id := x1; oa_send_ts := s64 x2 |}).

(** The documented layout of the payload. *)
Definition layout_order_ack (a : OrderAck) : list Z :=
  to_be 8 (oa_client_order_id a) ++ to_be 8 (oa_exchange_order_id a) ++ to_be 8 (u64 (oa_send_ts a)).

Lemma serialize_order_ack_eq buf a :
  OrderAck_ok a → kOrderAckWireSize <= lenZ buf →
  serialize_order_ack buf a = Some (layout_order_ack a ++ drop 24 buf, kOrderAckWireSize).
Proof. unfold OrderAck_ok. codec_serialize serialize_order_ack layout_order_ack kOrderAckWireSize. Qed.

Lemma deserialize_order_ack_eq a rest :
  OrderAck_ok a → bytes_ok rest → deserialize_order_ack (layout_order_ack a ++ rest) = Some (Some a).
Proof. unfold OrderAck_ok. destruct a. codec_deserialize deserialize_order_ack layout_order_ack kOrderAckWireSize. Qed.

Definition serialize_order_reject (buf : list Z) (r_msg : OrderReject) : option (list Z * Z) :=
  if bool_decide (lenZ buf < kOrderRejectWireSize) then Some (buf, 0)
  else
    buf ← store_be64 native_little buf 0 (or_client_order_id r_msg);
    buf ← store_u8 buf 8 (or_reason r_msg);
    buf ← store_be64 native_little buf 9 (u64 (or_send_ts r_msg));
    Some (buf, kOrderRejectWireSize).

Definition deserialize_order_reject (buf : list Z) : option (option OrderReject) :=
  if bool_decide (lenZ buf < kOrderRejectWireSize) then Some None
  else
    x0 ← load_be64 native_little buf 0;
    x1 ← load_u8 buf 8;
    x2 ← load_be64 native_little buf 9;
    Some (Some {| or_client_order_id := x0; or_reason := x1; or_send_ts := s64 x2 |}).

(** The documented layout of the payload. *)
Definition layout_order_reject (r_msg : OrderReject) : list Z :=
  to_be 8 (or_client_order_id r_msg) ++ to_be 1 (or_reason r_msg) ++ to_be 8 (u64 (or_send_ts r_msg)).

Lemma serialize_order_reject_eq buf r_msg :
  OrderReject_ok r_msg → kOrderRejectWireSize <= lenZ buf →
  serialize_order_reject buf r_msg = Some (layout_order_reject r_msg ++ drop 17 buf, kOrderRejectWireSize).
Proof. unfold OrderReject_ok. codec_serialize serialize_order_reject layout_order_reject kOrderRejectWireSize. Qed.

Lemma deserialize_order_reject_eq r_msg rest :
  OrderReject_ok r_msg → bytes_ok rest → deserialize_order_reject (layout_order_reject r_msg ++ rest) = Some (Some r_msg).
Proof. unfold OrderReject_ok. destruct r_msg. codec_deserialize deserialize_order_reject layout_order_reject kOrderRejectWireSize. Qed.

Definition serialize_fill_report (buf : list Z) (f : FillReport) : option (list Z * Z) :=
  if bool_decide (lenZ buf < kFillReportWireSize) then Some (buf, 0)
  else
    buf ← store_be64 native_little buf 0 (fr_client_order_id f);
    buf ← store_be64 native_little buf 8 (fr_exchange_order_id f);
    buf ← store_be64 native_little buf 16 (u64 (fr_fill_price f));
    buf ← store_be32 native_little buf 24 (fr_fill_qty f);
    buf ← store_be32 native_little buf 28 (fr_remaining_qty f);
    buf ← store_be64 native_little buf 32 (u64 (fr_send_ts f));
    Some (buf, kFillReportWireSize).

Definition deserialize_fill_report (buf : list Z) : option (option FillReport) :=
  if bool_decide (lenZ buf < kFillReportWireSize) then Some None
  else
    x0 ← load_be64 native_little buf 0;
    x1 ← load_be64 native_little buf 8;
    x2 ← load_be64 native_little buf 16;
    x3 ← load_be32 native_little buf 24;
    x4 ← load_be32 native_little buf 28;
    x5 ← load_be64 native_little buf 32;
    Some (Some {| fr_client_order_id := x0; fr_exchange_order_id := x1; fr_fill_price := s64 x2; fr_fill_qty := x3; fr_remaining_qty := x4; fr_send_ts := s64 x5 |}).

(** The documented layout of the payload. *)
Definition layout_fill_report (f : FillReport) : list Z :=
  to_be 8 (fr_client_order_id f) ++ to_be 8 (fr_exchange_order_id f) ++ to_be 8 (u64 (fr_fill_price f)) ++ to_be 4 (fr_fill_qty f) ++ to_be 4 (fr_remaining_qty f) ++ to_be 8 (u64 (fr_send_ts f)).

Lemma serialize_fill_report_eq buf f :
  FillReport_ok f → kFillReportWireSize <= lenZ buf →
  serialize_fill_report buf f = Some (layout_fill_report f ++ drop 40 buf, kFillReportWireSize).
Proof. unfold FillReport_ok. codec_serialize serialize_fill_report layout_fill_report kFillReportWireSize. Qed.

Lemma deserialize_fill_report_eq f rest :
  FillReport_ok f → bytes_ok rest → deserialize_fill_report (layout_fill_report f ++ rest) = Some (Some f).
Proof. unfold FillReport_ok. destruct f. codec_deserialize deserialize_fill_report layout_fill_report kFillReportWireSize. Qed.

Definition serialize_cancel_ack (buf : list Z) (a : CancelAck) : option (list Z * Z) :=
  if bool_decide (lenZ buf < kCancelAckWireSize) then Some (buf, 0)
  else
    buf ← store_be64 native_little buf 0 (ca_client_order_id a);
    buf ← store_be64 native_little buf 8 (u64 (ca_send_ts a));
    Some (buf, kCancelAckWireSize).

Definition deserialize_cancel_ack (buf : list Z) : option (option CancelAck) :=
  if bool_decide (lenZ buf < kCancelAckWireSize) then Some None
  else
    x0 ← load_be64 native_little buf 0;
    x1 ← load_be64 native_little buf 8;
    Some (Some {| ca_client_order_id := x0; ca_send_ts := s64 x1 |}).

(** The documented layout of the payload. *)
Definition layout_cancel_ack (a : CancelAck) : list Z :=
  to_be 8 (ca_client_order_id a) ++ to_be 8 (u64 (ca_send_ts a)).

Lemma serialize_cancel_ack_eq buf a :
  CancelAck_ok a → kCancelAckWireSize <= lenZ buf →
  serialize_cancel_ack buf a = Some (layout_cancel_ack a ++ drop 16 buf, kCancelAckWireSize).
Proof. unfold CancelAck_ok. codec_serialize serialize_cancel_ack layout_cancel_ack kCancelAckWireSize. Qed.

Lemma deserialize_cancel_ack_eq a rest :
  CancelAck_ok a → bytes_ok rest → deserialize_cancel_ack (layout_cancel_ack a ++ rest) = Some (Some a).
Proof. unfold CancelAck_ok. destruct a. codec_deserialize deserialize_cancel_ack layout_cancel_ack kCancelAckWireSize. Qed.

Definition serialize_cancel_reject (buf : list Z) (cr : CancelReject) : option (list Z * Z) :=
  if bool_decide (lenZ buf < kCancelRejectWireSize) then Some (buf, 0)
  else
    buf ← store_be64 native_little buf 0 (cr_client_order_id cr);
    buf ← store_u8 buf 8 (cr_reason cr);
    buf ← store_be64 native_little buf 9 (u64 (cr_send_ts cr));
    Some (buf, kCancelRejectWireSize).

Definition deserialize_cancel_reject (buf : list Z) : option (option CancelReject) :=
  if bool_decide (lenZ buf < kCancelRejectWireSize) then Some None
  else
    x0 ← load_be64 native_little buf 0;
    x1 ← load_u8 buf 8;
    x2 ← load_be64 native_little buf 9;
    Some (Some {| cr_client_order_id := x0; cr_reason := x1; cr_send_ts := s64 x2 |}).

(** The documented layout of the payload. *)
Definition layout_cancel_reject (cr : CancelReject) : list Z :=
  to_be 8 (cr_client_order_id cr) ++ to_be 1 (cr_reason cr) ++ to_be 8 (u64 (cr_send_ts cr)).

Lemma serialize_cancel_reject_eq buf cr :
  CancelReject_ok cr → kCancelRejectWireSize <= lenZ buf →
  serialize_cancel_reject buf cr = Some (layout_cancel_reject cr ++ drop 17 buf, kCancelRejectWireSize).
Proof. unfold CancelReject_ok. codec_serialize serialize_cancel_reject layout_cancel_reject kCancelRejectWireSize. Qed.

Lemma deserialize_cancel_reject_eq cr rest :
  CancelReject_ok cr → bytes_ok rest → deserialize_cancel_reject (layout_cancel_reject cr ++ rest) = Some (Some cr).
Proof. unfold CancelReject_ok. destruct cr. codec_deserialize deserialize_cancel_reject layout_cancel_reject kCancelRejectWireSize. Qed.

Definition serialize_modify_order (buf : list Z) (mo : ModifyOrder) : option (list Z * Z) :=
  if bool_decide (lenZ buf < kModifyOrderWireSize) then Some (buf, 0)
  else
    buf ← store_be64 native_little buf 0 (mo_client_order_id mo);
    buf ← store_be32 native_little buf 8 (mo_symbol_id mo);
    buf ← store_be64 native_little buf 12 (u64 (mo_new_price mo));
    buf ← store_be32 native_little buf 20 (mo_new_qty mo);
    buf ← store_be64 native_little buf 24 (u64 (mo_send_ts mo));
    Some (buf, kModifyOrderWireSize).

Definition deserialize_modify_order (buf : list Z) : option (option ModifyOrder) :=
  if bool_decide (lenZ buf < kModifyOrderWireSize) then Some None
  else
    x0 ← load_be64 native_little buf 0;
    x1 ← load_be32 native_little buf 8;
    x2 ← load_be64 native_little buf 12;
    x3 ← load_be32 native_little buf 20;
    x4 ← load_be64 native_little buf 24;
    Some (Some {| mo_client_order_id := x0; mo_symbol_id := x1; mo_new_price := s64 x2; mo_new_qty := x3; mo_send_ts := s64 x4 |}).

(** The documented layout of the payload. *)
Definition layout_modify_order (mo : ModifyOrder) : list Z :=
  to_be 8 (mo_client_order_id mo) ++ to_be 4 (mo_symbol_id mo) ++ to_be 8 (u64 (mo_new_price mo)) ++ to_be 4 (mo_new_qty mo) ++ to_be 8 (u64 (mo_send_ts mo)).

Lemma serialize_modify_order_eq buf mo :
  ModifyOrder_ok mo → kModifyOrderWireSize <= lenZ buf →
  serialize_modify_order buf mo = Some (layout_modify_order mo ++ drop 32 buf, kModifyOrderWireSize).
Proof. unfold ModifyOrder_ok. codec_serialize serialize_modify_order layout_modify_order kModifyOrderWireSize. Qed.

Lemma deserialize_modify_order_eq mo rest :
  ModifyOrder_ok mo → bytes_ok rest → deserialize_modify_order (layout_modify_order mo ++ rest) = Some (Some mo).
Proof. unfold ModifyOrder_ok. destruct mo. codec_deserialize deserialize_modify_order layout_modify_order kModifyOrderWireSize. Qed.

Definition serialize_modify_ack (buf : list Z) (ma : ModifyAck) : option (list Z * Z) :=
  if bool_decide (lenZ buf < kModifyAckWireSize) then Some (buf, 0)
  else
    buf ← store_be64 native_little buf 0 (ma_client_order_id ma);
    buf ← store_be64 native_little buf 8 (ma_new_exchange_order_id ma);
    buf ← store_be64 native_little buf 16 (u64 (ma_send_ts ma));
    Some (buf, kModifyAckWireSize).

Definition deserialize_modify_ack (buf : list Z) : option (option ModifyAck) :=
  if bool_decide (lenZ buf < kModifyAckWireSize) then Some None
  else
    x0 ← load_be64 native_little buf 0;
    x1 ← load_be64 native_little buf 8;
    x2 ← load_be64 native_little buf 16;
    Some (Some {| ma_client_order_id := x0; ma_new_exchange_order_id := x1; ma_send_ts := s64 x2 |}).

(** The documented layout of the payload. *)
Definition layout_modify_ack (ma : ModifyAck) : list Z :=
  to_be 8 (ma_client_order_id ma) ++ to_be 8 (ma_new_exchange_order_id ma) ++ to_be 8 (u64 (ma_send_ts ma)).

Lemma serialize_modify_ack_eq buf ma :
  ModifyAck_ok ma → kModifyAckWireSize <= lenZ buf →
  serialize_modify_ack buf ma = Some (layout_modify_ack ma ++ drop 24 buf, kModifyAckWireSize).
Proof. unfold ModifyAck_ok. codec_serialize serialize_modify_ack layout_modify_ack kModifyAckWireSize. Qed.

Lemma deserialize_modify_ack_eq ma rest :
  ModifyAck_ok ma → bytes_ok rest → deserialize_modify_ack (layout_modify_ack ma ++ rest) = Some (Some ma).
Proof. unfold ModifyAck_ok. destruct ma. codec_deserialize deserialize_modify_ack layout_modify_ack kModifyAckWireSize. Qed.

Definition serialize_modify_reject (buf : list Z) (mr : ModifyReject) : option (list Z * Z) :=
  if bool_decide (lenZ buf < kModifyRejectWireSize) then Some (buf, 0)
  else
    buf ← store_be64 native_little buf 0 (mr_client_order_id mr);
    buf ← store_u8 buf 8 (mr_reason mr);
    buf ← store_be64 native_little buf 9 (u64 (mr_send_ts mr));
    Some (buf, kModifyRejectWireSize).

Definition deserialize_modify_reject (buf : list Z) : option (option ModifyReject) :=
  if bool_decide (lenZ buf < kModifyRejectWireSize) then Some None
  else
    x0 ← load_be64 native_little buf 0;
    x1 ← load_u8 buf 8;
    x2 ← load_be64 native_little buf 9;
    Some (Some {| mr_client_order_id := x0; mr_reason := x1; mr_send_ts := s64 x2 |}).

(** The documented layout of the payload. *)
Definition layout_modify_reject (mr : ModifyReject) : list Z :=
  to_be 8 (mr_client_order_id mr) ++ to_be 1 (mr_reason mr) ++ to_be 8 (u64 (mr_send_ts mr)).

Lemma serialize_modify_reject_eq buf mr :
  ModifyReject_ok mr → kModifyRejectWireSize <= lenZ buf →
  serialize_modify_reject buf mr = Some (layout_modify_reject mr ++ drop 17 buf, kModifyRejectWireSize).
Proof. unfold ModifyReject_ok. codec_serialize serialize_modify_reject layout_modify_reject kModifyRejectWireSize. Qed.

Lemma deserialize_modify_reject_eq mr rest :
  ModifyReject_ok mr → bytes_ok rest → deserialize_modify_reject (layout_modify_reject mr ++ rest) = Some (Some mr).
Proof. unfold ModifyReject_ok. destruct mr. codec_deserialize deserialize_modify_reject layout_modify_reject kModifyRejectWireSize. Qed.

End Codec.
