(* ===== verification/ProtocolTotal.v ===== *)
(** Deserialisation of arbitrary bytes ([src/apps/shared/protocol_codec.hpp]).

    A peer may send anything: on every byte string each deserialiser reads
    inside its input, and what it accepts has every field in the range of its
    type. *)
From S2P Require Import Prelude.
From S2P Require Import Endian.
From S2P Require Import Protocol.
Local Open Scope Z_scope.

Lemma get_total n mem off :
  bytes_ok mem → 0 <= off → off + Z.of_nat n <= lenZ mem → ∃ v, get n mem off = Some v ∧ 0 <= v < 256 ^ Z.of_nat n.
Proof.
  intros Hm H0 H1. unfold get, memcpy_from. rewrite !bool_decide_true by done. simpl.
  eexists. split; [done |]. unfold of_be.
  pose proof (of_le_range (reverse (sub_bytes mem off n))) as Hr. rewrite length_reverse in Hr.
  unfold sub_bytes in *. rewrite length_take, length_drop in Hr.
  replace (Z.of_nat (Nat.min n _)) with (Z.of_nat n) in Hr by lia. apply Hr.
  apply Forall_reverse. by apply Forall_take, Forall_drop.
Qed.

Lemma load_u8_total mem off :
  bytes_ok mem → 0 <= off → off + 1 <= lenZ mem → ∃ v, load_u8 mem off = Some v ∧ is_u8 v.
Proof. intros Hm H0 H1. rewrite load_u8_get by done. by apply (get_total 1). Qed.
Lemma load_be32_total nl mem off :
  bytes_ok mem → 0 <= off → off + 4 <= lenZ mem → ∃ v, load_be32 nl mem off = Some v ∧ is_u32 v.
Proof. intros Hm H0 H1. rewrite load_be32_get by done. by apply (get_total 4). Qed.
Lemma load_be64_total nl mem off :
  bytes_ok mem → 0 <= off → off + 8 <= lenZ mem → ∃ v, load_be64 nl mem off = Some v ∧ is_u64 v.
Proof. intros Hm H0 H1. rewrite load_be64_get by done. by apply (get_total 8). Qed.

(** Runs every load of a deserialiser and collects the ranges. *)
Ltac total_loads :=
  repeat match goal with
  | H : bytes_ok ?m |- context [load_u8 ?m ?k] =>
      let v := fresh "v" in let E := fresh "E" in let Hv := fresh "Hv" in
      destruct (load_u8_total m k H) as (v & E & Hv); [lia | lia |]; rewrite E; cbn [mbind option_bind]; clear E
  | H : bytes_ok ?m |- context [load_be32 ?nl ?m ?k] =>
      let v := fresh "v" in let E := fresh "E" in let Hv := fresh "Hv" in
      destruct (load_be32_total nl m k H) as (v & E & Hv); [lia | lia |]; rewrite E; cbn [mbind option_bind]; clear E
  | H : bytes_ok ?m |- context [load_be64 ?nl ?m ?k] =>
      let v := fresh "v" in let E := fresh "E" in let Hv := fresh "Hv" in
      destruct (load_be64_total nl m k H) as (v & E & Hv); [lia | lia |]; rewrite E; cbn [mbind option_bind]; clear E
  end.

Ltac codec_total des ok size :=
  intros; unfold des, size;
  match goal with |- context [bool_decide ?P] => destruct (bool_decide_reflect P) as [Hlen | Hlen] end; simpl negb; cbv iota;
  first
    [ total_loads; eexists; split; [reflexivity |]; intros ? [= <-]; unfold ok; simpl; split_and!; auto with machine; done
    | eexists; split; [reflexivity |]; intros ? [=] ].

Section Total.
Context (native_little : bool).
Implicit Types buf : list Z.

Lemma deserialize_market_data_total buf :
  bytes_ok buf → ∃ r, deserialize_market_data native_little buf = Some r ∧ ∀ x, r = Some x → MarketDataUpdate_ok x.
Proof. codec_total deserialize_market_data MarketDataUpdate_ok kMarketDataWireSize. Qed.

Lemma deserialize_new_order_total buf :
  bytes_ok buf → ∃ r, deserialize_new_order native_little buf = Some r ∧ ∀ x, r = Some x → NewOrder_ok x.
Proof. codec_total deserialize_new_order NewOrder_ok kNewOrderWireSize. Qed.

Lemma deserialize_cancel_order_total buf :
  bytes_ok buf → ∃ r, deserialize_cancel_order native_little buf = Some r ∧ ∀ x, r = Some x → CancelOrder_ok x.
Proof. codec_total deserialize_cancel_order CancelOrder_ok kCancelOrderWireSize. Qed.

Lemma deserialize_order_ack_total buf :
  bytes_ok buf → ∃ r, deserialize_order_ack native_little buf = Some r ∧ ∀ x, r = Some x → OrderAck_ok x.
Proof. codec_total deserialize_order_ack OrderAck_ok kOrderAckWireSize. Qed.

Lemma deserialize_order_reject_total buf :
  bytes_ok buf → ∃ r, deserialize_order_reject native_little buf = Some r ∧ ∀ x, r = Some x → OrderReject_ok x.
Proof. codec_total deserialize_order_reject OrderReject_ok kOrderRejectWireSize. Qed.

Lemma deserialize_fill_report_total buf :
  bytes_ok buf → ∃ r, deserialize_fill_report native_little buf = Some r ∧ ∀ x, r = Some x → FillReport_ok x.
Proof. codec_total deserialize_fill_report FillReport_ok kFillReportWireSize. Qed.

Lemma deserialize_cancel_ack_total buf :
  bytes_ok buf → ∃ r, deserialize_cancel_ack native_little buf = Some r ∧ ∀ x, r = Some x → CancelAck_ok x.
Proof. codec_total deserialize_cancel_ack CancelAck_ok kCancelAckWireSize. Qed.

Lemma deserialize_cancel_reject_total buf :
  bytes_ok buf → ∃ r, deserialize_cancel_reject native_little buf = Some r ∧ ∀ x, r = Some x → CancelReject_ok x.
Proof. codec_total deserialize_cancel_reject CancelReject_ok kCancelRejectWireSize. Qed.

Lemma deserialize_modify_order_total buf :
  bytes_ok buf → ∃ r, deserialize_modify_order native_little buf = Some r ∧ ∀ x, r = Some x → ModifyOrder_ok x.
Proof. codec_total deserialize_modify_order ModifyOrder_ok kModifyOrderWireSize. Qed.

Lemma deserialize_modify_ack_total buf :
  bytes_ok buf → ∃ r, deserialize_modify_ack native_little buf = Some r ∧ ∀ x, r = Some x → ModifyAck_ok x.
Proof. codec_total deserialize_modify_ack ModifyAck_ok kModifyAckWireSize. Qed.

Lemma deserialize_modify_reject_total buf :
  bytes_ok buf → ∃ r, deserialize_modify_reject native_little buf = Some r ∧ ∀ x, r = Some x → ModifyReject_ok x.
Proof. codec_total deserialize_modify_reject ModifyReject_ok kModifyRejectWireSize. Qed.

End Total.
