(* ===== verification/MarketData.v ===== *)
(** Market data, from the exchange's socket to the client's queue:
    [src/apps/simulated_exchange/market_data_publisher.hpp] and
    [src/apps/tick_to_trade/feed_handler.hpp].

    Several publishers stamp one shared sequence number; a datagram goes to
    Feed A and, where configured, to Feed B.  What the network does with it
    is outside the model: [sendto]'s result is only logged, so a publisher's
    effect is the list of datagrams it hands over.  The client parses a
    datagram and arbitrates by sequence number.  The relaxed atomic counters
    of [FeedHandler] have one writer and are plain 64-bit words. *)
From S2P Require Import Prelude.
From S2P Require Import HashUtils.
From S2P Require Import TradingTypes.
From S2P Require Import Endian.
From S2P Require Import Protocol.
Local Open Scope Z_scope.

Module MDPub.

(** * The publisher *)

Definition kTickSize : Z := 100.
Definition kHalfSpread : Z := 500.
Definition kDefaultRefPrice : Z := 1000000.

Record MarketDataPublisher : Set := {
  symbol_id_ : Z;
  has_feed_b : bool;   (* feed_b_dest_ <> nullptr *)
  ref_price_ : Z;
  mid_price_ : Z;
  send_buf_ : list Z;
  rng_ : Z;            (* the state of the Xorshift64 *)
}.

Inductive Feed : Set := FeedA | FeedB.

Record QuoteSnapshot : Set := { bid_price : Z; bid_qty : Z; ask_price : Z; ask_qty : Z }.

Section Publisher.
Context (native_little : bool).
Implicit Types p : MarketDataPublisher.

Definition with_mid p (mid rng : Z) : MarketDataPublisher :=
  {| symbol_id_ := symbol_id_ p; has_feed_b := has_feed_b p; ref_price_ := ref_price_ p; mid_price_ := mid;
     send_buf_ := send_buf_ p; rng_ := rng |}.
Definition with_buf p (buf : list Z) : MarketDataPublisher :=
  {| symbol_id_ := symbol_id_ p; has_feed_b := has_feed_b p; ref_price_ := ref_price_ p; mid_price_ := mid_price_ p;
     send_buf_ := buf; rng_ := rng_ p |}.

(** The constructor; [seed] is the fixed one of a debug build or the clock,
    and a zero seed aborts. *)
Definition construct (symbol_id : Z) (feed_b : bool) (seed : Z) : option MarketDataPublisher :=
  rng ← xorshift64_seed seed;
  Some {| symbol_id_ := symbol_id; has_feed_b := feed_b; ref_price_ := kDefaultRefPrice;
          mid_price_ := kDefaultRefPrice; send_buf_ := replicate 128 0; rng_ := rng |}.

Definition generate_quotes p : option (MarketDataPublisher * QuoteSnapshot) :=
  let r1 := xorshift64_next (rng_ p) in
  let jitter := r1 mod 7 - 3 in
  mid ← check_s64 (mid_price_ p + jitter * kTickSize);
  gap ← check_s64 (ref_price_ p - mid);
  let drift := Z.quot gap 10 in
  mid ← check_s64 (mid + drift);
  let r2 := xorshift64_next r1 in
  let r3 := xorshift64_next r2 in
  bid ← check_s64 (mid - kHalfSpread);
  ask ← check_s64 (mid + kHalfSpread);
  Some (with_mid p mid r3,
        {| bid_price := bid; bid_qty := u32 (100 + r2 mod 901); ask_price := ask; ask_qty := u32 (100 + r3 mod 901) |}).

(** [shared_seq] is the counter shared by all publishers; the last component
    is what is handed to the socket. *)
Definition send_datagram p (shared_seq : Z) (msg_type : MdMsgType) (s : Side) (price qty ts : Z)
    : option (MarketDataPublisher * Z * list (Feed * list Z)) :=
  let md := {| md_seq_num := shared_seq; md_symbol_id := symbol_id_ p; md_msg_type := md_msg_type_id msg_type;
               md_side := side_to_u8 s; md_price := price; md_qty := qty; md_exchange_ts := ts |} in
  let shared_seq := u64 (shared_seq + 1) in
  '(buf, bytes) ← serialize_market_data native_little (send_buf_ p) md;
  let p := with_buf p buf in
  if bool_decide (bytes = 0) then Some (p, shared_seq, [])
  else
    let datagram := take (Z.to_nat bytes) buf in
    Some (p, shared_seq, (FeedA, datagram) :: (if has_feed_b p then [(FeedB, datagram)] else [])).

Definition publish_tick p (shared_seq now : Z) : option (MarketDataPublisher * Z * list (Feed * list Z)) :=
  '(p, q) ← generate_quotes p;
  '(p, shared_seq, bid) ← send_datagram p shared_seq kBBOUpdate kBid (bid_price q) (bid_qty q) now;
  '(p, shared_seq, ask) ← send_datagram p shared_seq kBBOUpdate kAsk (ask_price q) (ask_qty q) now;
  Some (p, shared_seq, bid ++ ask).

Definition publish_trade p (shared_seq : Z) (aggressor_side : Side) (trade_price trade_qty now : Z)
    : option (MarketDataPublisher * Z * list (Feed * list Z)) :=
  send_datagram p shared_seq kTrade aggressor_side trade_price trade_qty now.

Definition publish_update p (shared_seq : Z) (s : Side) (price qty now : Z)
    : option (MarketDataPublisher * Z * list (Feed * list Z)) :=
  send_datagram p shared_seq kBBOUpdate s price qty now.

Definition mid_price p : Z := mid_price_ p.
Definition symbol_id p : Z := symbol_id_ p.
End Publisher.
End MDPub.

(** * The feed handler *)

Module Feed.

Record FeedHandler : Set := {
  initialized_ : bool;
  expected_seq_ : Z;
  gap_count_ : Z;
  duplicate_count_ : Z;
  parse_errors_ : Z;
  total_updates_ : Z;
}.

Definition construct : FeedHandler :=
  {| initialized_ := false; expected_seq_ := 0; gap_count_ := 0; duplicate_count_ := 0; parse_errors_ := 0;
     total_updates_ := 0 |}.

Section Handler.
Context (native_little : bool).
Implicit Types h : FeedHandler.

Definition accept h (gap seq : Z) : FeedHandler :=
  {| initialized_ := true; expected_seq_ := u64 (seq + 1); gap_count_ := u64 (gap_count_ h + gap);
     duplicate_count_ := duplicate_count_ h; parse_errors_ := parse_errors_ h;
     total_updates_ := u64 (total_updates_ h + 1) |}.
Definition duplicate h : FeedHandler :=
  {| initialized_ := initialized_ h; expected_seq_ := expected_seq_ h; gap_count_ := gap_count_ h;
     duplicate_count_ := u64 (duplicate_count_ h + 1); parse_errors_ := parse_errors_ h;
     total_updates_ := total_updates_ h |}.
Definition parse_error h : FeedHandler :=
  {| initialized_ := initialized_ h; expected_seq_ := expected_seq_ h; gap_count_ := gap_count_ h;
     duplicate_count_ := duplicate_count_ h; parse_errors_ := u64 (parse_errors_ h + 1);
     total_updates_ := total_updates_ h |}.

(** The answer is [out] where the source returns [true]. *)
Definition on_udp_data h (buf : list Z) : option (FeedHandler * option MarketDataUpdate) :=
  parsed ← deserialize_market_data native_little buf;
  match parsed with
  | None => Some (parse_error h, None)
  | Some out =>
      let seq := md_seq_num out in
      if negb (initialized_ h) then Some (accept h 0 seq, Some out)
      else if negb (bool_decide (seq = expected_seq_ h)) then
        if bool_decide (seq > expected_seq_ h) then Some (accept h (u64 (seq - expected_seq_ h)) seq, Some out)
        else Some (duplicate h, None)
      else Some (accept h 0 seq, Some out)
  end.

(** The datagrams of a feed, one after the other, with the updates that get
    through. *)
Fixpoint on_feed h (datagrams : list (list Z)) : option (FeedHandler * list MarketDataUpdate) :=
  match datagrams with
  | [] => Some (h, [])
  | d :: datagrams =>
      '(h, out) ← on_udp_data h d;
      '(h, outs) ← on_feed h datagrams;
      Some (h, match out with Some md => md :: outs | None => outs end)
  end.
End Handler.
End Feed.
