(* ===== verification/MarketDataTheorems.v ===== *)
(** What is proved of market data ([MarketData.v]): the publisher's stream is
    numbered without holes, identical on both feeds and never crossed; the
    feed handler lets through exactly the updates that are newer than all
    before them; and with two feeds no update is lost or doubled as long as
    one copy of each arrives before anything newer. *)
From Stdlib Require Import Sorted.
From S2P Require Import Prelude.
From S2P Require Import HashUtils.
From S2P Require Import TradingTypes.
From S2P Require Import Endian.
From S2P Require Import Protocol.
From S2P Require Import ProtocolTotal.
From S2P Require Import MarketData.
Local Open Scope Z_scope.

(** * Arbitration, abstractly *)

Definition older (a b : MarketDataUpdate) : Prop := md_seq_num a < md_seq_num b.

Definition is_newer (last : option Z) (md : MarketDataUpdate) : bool :=
  match last with None => true | Some s => bool_decide (s < md_seq_num md) end.

(** The updates newer than [last] and than everything before them. *)
Fixpoint newer (last : option Z) (l : list MarketDataUpdate) : list MarketDataUpdate :=
  match l with
  | [] => []
  | md :: l =>
      if is_newer last md then md :: newer (Some (md_seq_num md)) l
      else newer last l
  end.

(** Of each sequence number the first copy. *)
Fixpoint first_copies (known : list Z) (l : list MarketDataUpdate) : list MarketDataUpdate :=
  match l with
  | [] => []
  | md :: l =>
      if bool_decide (md_seq_num md ∈ known) then first_copies known l
      else md :: first_copies (md_seq_num md :: known) l
  end.

Lemma newer_above last l md : md ∈ newer last l → ∀ s, last = Some s → s < md_seq_num md.
Proof.
  revert last. induction l as [| x l IH]; intros last; simpl; [by intros ?%elem_of_nil |].
  intros Hin s ->. simpl in Hin. case_bool_decide as Hx; [| by eapply IH].
  apply elem_of_cons in Hin as [-> | Hin]; [done |]. specialize (IH _ Hin _ eq_refl). lia.
Qed.

Lemma newer_sorted last l : StronglySorted older (newer last l).
Proof.
  revert last. induction l as [| x l IH]; intros last; simpl; [constructor |].
  destruct (is_newer last x); [| done].
  constructor; [done |]. apply Forall_forall. intros md Hmd. apply list_elem_of_In in Hmd. by eapply newer_above.
Qed.

Lemma newer_sublist last l : newer last l `sublist_of` l.
Proof.
  revert last. induction l as [| x l IH]; intros last; simpl; [done |].
  destruct (is_newer last x); [by apply sublist_skip | by apply sublist_cons].
Qed.

(** When the first copies come in order, they are what gets through. *)
Lemma newer_first_copies l known last :
  (∀ s, s ∈ known → match last with None => False | Some t => s <= t end) →
  StronglySorted older (first_copies known l) →
  (∀ md t, md ∈ first_copies known l → last = Some t → t < md_seq_num md) →
  newer last l = first_copies known l.
Proof.
  revert known last. induction l as [| x l IH]; intros known last Hk Hs Hl; simpl in *; [done |].
  destruct (bool_decide_reflect (md_seq_num x ∈ known)) as [Hx | Hx].
  - specialize (Hk _ Hx) as Ht. destruct last as [t |]; [| done].
    unfold is_newer. rewrite bool_decide_false by lia. by apply IH.
  - assert (Hnew : is_newer last x = true).
    { destruct last as [t |]; [| done]. apply bool_decide_true. apply Hl; [apply elem_of_cons; by left | done]. }
    rewrite Hnew. f_equal. apply StronglySorted_inv in Hs as [Hs Hall]. rewrite Forall_forall in Hall.
    apply IH; [| done |].
    + intros s [-> | Hin]%elem_of_cons; [lia |]. specialize (Hk _ Hin). destruct last as [t |]; [| done].
      simpl in Hnew. apply bool_decide_eq_true in Hnew. lia.
    + intros md t Hin [= <-]. apply Hall. by apply list_elem_of_In.
Qed.

(** * The feed handler *)

Section Feed.
Context (nl : bool).

(** The updates that parse, in order of arrival. *)
Definition updates (ds : list (list Z)) : list MarketDataUpdate :=
  omap (λ d, match deserialize_market_data nl d with Some (Some md) => Some md | _ => None end) ds.

(** The handler after accepting up to [last], [total] updates of which the
    first was [first]. *)
Record handled (h : Feed.FeedHandler) (first last : option Z) (errors dups total : Z) : Prop := {
  hd_init : Feed.initialized_ h = match last with Some _ => true | None => false end;
  hd_expected : ∀ s, last = Some s → Feed.expected_seq_ h = s + 1;
  hd_gaps : match first, last with
            | Some f, Some s => Feed.gap_count_ h = u64 (s - f + 1 - total) ∧ f <= s
            | None, None => Feed.gap_count_ h = 0 ∧ total = 0
            | _, _ => False end;
  hd_errors : Feed.parse_errors_ h = u64 errors;
  hd_dups : Feed.duplicate_count_ h = u64 dups;
  hd_total : Feed.total_updates_ h = u64 total;
}.

Lemma handled_ext h first last errors dups total errors' dups' total' :
  handled h first last errors dups total → errors = errors' → dups = dups' → total = total' →
  handled h first last errors' dups' total'.
Proof. by intros ? <- <- <-. Qed.

Lemma u64_add_l a b : u64 (u64 a + b) = u64 (a + b).
Proof. unfold u64. by rewrite Zplus_mod_idemp_l. Qed.
Lemma u64_add_r a b : u64 (a + u64 b) = u64 (a + b).
Proof. unfold u64. by rewrite Zplus_mod_idemp_r. Qed.

Definition parsed (d : list Z) : option MarketDataUpdate :=
  match deserialize_market_data nl d with Some (Some md) => Some md | _ => None end.

(** One datagram. *)
Lemma on_udp_step d h first last errors dups total :
  bytes_ok d → (∀ md, parsed d = Some md → md_seq_num md < 2 ^ 64 - 1) →
  handled h first last errors dups total →
  ∃ h' out, Feed.on_udp_data nl h d = Some (h', out) ∧
    match parsed d with
    | None => out = None ∧ handled h' first last (errors + 1) dups total
    | Some md =>
        if is_newer last md
        then out = Some md ∧
             handled h' (Some (default (md_seq_num md) first)) (Some (md_seq_num md)) errors dups (total + 1)
        else out = None ∧ handled h' first last errors (dups + 1) total
    end.
Proof.
  intros Hd Hseq Hh. destruct (deserialize_market_data_total nl d Hd) as (r & Hr & Hok).
  unfold Feed.on_udp_data, parsed in *. rewrite Hr in *. cbn [mbind option_bind].
  destruct r as [md |].
  2:{ eexists _, _. split; [done |]. split; [done |]. destruct Hh. split; simpl; try done.
      rewrite hd_errors0. apply u64_add_l. }
  specialize (Hseq md eq_refl). pose proof (Hok md eq_refl) as (Hu & _). unfold is_u64 in Hu.
  assert (Hone : u64 (md_seq_num md + 1) = md_seq_num md + 1) by (apply u64_id; mlia).
  destruct Hh. rewrite hd_init0. destruct last as [s |]; simpl.
  - rewrite (hd_expected0 s eq_refl).
    destruct first as [f |]; [| done]. destruct hd_gaps0 as [Hg Hfs].
    destruct (bool_decide_reflect (s < md_seq_num md)) as [Hnew | Hold].
    + destruct (bool_decide_reflect (md_seq_num md = s + 1)) as [Heq | Hne]; simpl.
      * eexists _, _. split; [done |]. split; [done |]. split; simpl; try done.
        -- by intros ? [= <-].
        -- rewrite Hg, u64_add_l. split; [f_equal; lia | lia].
        -- rewrite hd_total0. apply u64_add_l.
      * rewrite bool_decide_true by lia. eexists _, _. split; [done |]. split; [done |]. split; simpl; try done.
        -- by intros ? [= <-].
        -- rewrite Hg, u64_add_r, u64_add_l. split; [f_equal; lia | lia].
        -- rewrite hd_total0. apply u64_add_l.
    + rewrite (bool_decide_false (md_seq_num md = s + 1)), (bool_decide_false (md_seq_num md > s + 1)) by lia.
      eexists _, _. split; [done |]. split; [done |]. split; simpl; try done.
      rewrite hd_dups0. apply u64_add_l.
  - destruct first as [f |]; [done |].
    destruct hd_gaps0 as [Hg ->]. eexists _, _. split; [done |]. split; [done |]. split; simpl; try done.
    + by intros ? [= <-].
    + rewrite Hg. split; [| lia]. f_equal. lia.
    + rewrite hd_total0. apply u64_add_l.
Qed.

Definition first_of (first : option Z) (l : list MarketDataUpdate) : option Z :=
  match first with Some f => Some f | None => md_seq_num <$> head l end.
Definition last_of (last : option Z) (l : list MarketDataUpdate) : option Z :=
  foldl (λ _ md, Some (md_seq_num md)) last l.

Lemma on_feed_spec ds h first last errors dups total :
  Forall bytes_ok ds → (∀ md, md ∈ updates ds → md_seq_num md < 2 ^ 64 - 1) →
  handled h first last errors dups total →
  ∃ h', Feed.on_feed nl h ds = Some (h', newer last (updates ds)) ∧
    handled h' (first_of first (newer last (updates ds))) (last_of last (newer last (updates ds)))
      (errors + (lenZ ds - lenZ (updates ds))) (dups + (lenZ (updates ds) - lenZ (newer last (updates ds))))
      (total + lenZ (newer last (updates ds))).
Proof.
  revert h first last errors dups total.
  induction ds as [| d ds IH]; intros h first last errors dups total Hb Hseq Hh; cbn [Feed.on_feed].
  { exists h. split; [done |]. destruct first; (eapply handled_ext; [exact Hh | simpl; lia..]). }
  inversion_clear Hb as [| ? ? Hd Hds]. change (updates (d :: ds)) with
    (match parsed d with Some md => md :: updates ds | None => updates ds end) in *.
  destruct (on_udp_step d h first last errors dups total Hd) as (h1 & out & -> & Hout); [| done |].
  { intros md E. apply Hseq. rewrite E. apply elem_of_cons. by left. }
  cbn [mbind option_bind].
  assert (Hrest : ∀ md, md ∈ updates ds → md_seq_num md < 2 ^ 64 - 1).
  { intros md Hin. apply Hseq. destruct (parsed d); [apply elem_of_cons; by right | done]. }
  destruct (parsed d) as [md |]; [| destruct Hout as [-> H1]].
  - cbn [newer]. destruct (is_newer last md); destruct Hout as [-> H1].
    + destruct (IH _ _ _ _ _ _ Hds Hrest H1) as (h2 & -> & H2). cbn [mbind option_bind].
      exists h2. split; [done |]. unfold first_of, last_of in *. simpl.
      destruct first; (eapply handled_ext; [exact H2 | simpl; lia..]).
    + destruct (IH _ _ _ _ _ _ Hds Hrest H1) as (h2 & -> & H2). cbn [mbind option_bind].
      exists h2. split; [done |]. eapply handled_ext; [exact H2 | simpl; lia..].
  - destruct (IH _ _ _ _ _ _ Hds Hrest H1) as (h2 & -> & H2). cbn [mbind option_bind].
    exists h2. split; [done |]. eapply handled_ext; [exact H2 | simpl; lia..].
Qed.
End Feed.

(** * The publisher *)

Section Publisher.
Context (nl : bool).
Import MDPub.
Implicit Types p : MarketDataPublisher.

(** The deviation of the mid price from the reference: a step of at most 300
    and a pull of a tenth keep it below 2710. *)
Definition mid_bound : Z := 2709.

Record pub_ok p : Prop := {
  po_symbol : is_u32 (symbol_id_ p);
  po_buf : lenZ (send_buf_ p) = 128;
  po_ref : ref_price_ p = kDefaultRefPrice;
  po_mid : - mid_bound <= mid_price_ p - ref_price_ p <= mid_bound;
  po_rng : is_u64 (rng_ p);
}.

Lemma construct_ok sym b seed p :
  construct sym b seed = Some p → is_u32 sym → is_u64 seed →
  pub_ok p ∧ symbol_id_ p = sym ∧ has_feed_b p = b.
Proof.
  unfold construct, xorshift64_seed. case_bool_decide; [done |]. cbn [mbind option_bind]. intros [= <-] Hs Hseed.
  split; [| done]. split; simpl; try done.
Qed.

Lemma generate_quotes_spec p :
  pub_ok p →
  ∃ p' q, generate_quotes p = Some (p', q) ∧ pub_ok p' ∧ symbol_id_ p' = symbol_id_ p ∧ has_feed_b p' = has_feed_b p ∧
    ask_price q - bid_price q = 2 * kHalfSpread ∧ mid_price_ p' = bid_price q + kHalfSpread ∧
    100 <= bid_qty q <= 1000 ∧ 100 <= ask_qty q <= 1000.
Proof.
  intros [Hsym Hbuf Href Hmid Hrng]. unfold generate_quotes, kTickSize, kHalfSpread.
  unfold kDefaultRefPrice, mid_bound in *. rewrite Href in *.
  set (r1 := xorshift64_next (rng_ p)). set (r2 := xorshift64_next r1). set (r3 := xorshift64_next r2).
  assert (is_u64 r1 ∧ is_u64 r2 ∧ is_u64 r3) as (Hr1 & Hr2 & Hr3).
  { unfold r3, r2, r1. split_and!; auto using xorshift64_next_range. }
  pose proof (Z.mod_pos_bound r1 7 ltac:(lia)). pose proof (Z.mod_pos_bound r2 901 ltac:(lia)).
  pose proof (Z.mod_pos_bound r3 901 ltac:(lia)).
  set (j := r1 mod 7 - 3) in *. rewrite (check_s64_ok (mid_price_ p + j * 100)) by mlia. cbn [mbind option_bind].
  rewrite (check_s64_ok (1000000 - _)) by mlia. cbn [mbind option_bind].
  set (d := 1000000 - (mid_price_ p + j * 100)).
  assert (Hq : 10 * Z.quot d 10 = d - Z.rem d 10 ∧ (0 <= d → 0 <= Z.rem d 10 < 10) ∧ (d <= 0 → - 10 < Z.rem d 10 <= 0)).
  { pose proof (Z.quot_rem d 10 ltac:(lia)). split; [lia |].
    split; intros Hd; [pose proof (Z.rem_bound_pos d 10 Hd ltac:(lia)) | pose proof (Z.rem_bound_pos_neg d 10 ltac:(lia) Hd)]; lia. }
  destruct Hq as (Hq & Hpos & Hneg).
  assert (Hd : - 3009 <= d <= 3009) by (unfold d; lia).
  assert (Hmid' : - 2709 <= mid_price_ p + j * 100 + Z.quot d 10 - 1000000 <= 2709).
  { replace (mid_price_ p + j * 100) with (1000000 - d) by (unfold d; lia).
    destruct (decide (0 <= d)); [specialize (Hpos ltac:(lia)) | specialize (Hneg ltac:(lia))]; lia. }
  rewrite (check_s64_ok (_ + Z.quot d 10)) by mlia. cbn [mbind option_bind].
  rewrite !check_s64_ok by mlia. cbn [mbind option_bind].
  eexists _, _. split; [done |]. simpl. rewrite !u32_id by mlia.
  split_and!; try done; try lia. split; simpl; try done; unfold mid_bound; rewrite ?Href; lia.
Qed.

Definition feed_of (f : Feed) (out : list (Feed * list Z)) : list (list Z) :=
  omap (λ x, match x.1, f with FeedA, FeedA | FeedB, FeedB => Some x.2 | _, _ => None end) out.

Lemma length_layout md : length (layout_market_data md) = 34%nat.
Proof. unfold layout_market_data. rewrite !length_app, !length_to_be. done. Qed.

(** What one datagram says. *)
Definition quote (sym seq : Z) (t : MdMsgType) (s : Side) (price qty ts : Z) : MarketDataUpdate :=
  {| md_seq_num := seq; md_symbol_id := sym; md_msg_type := md_msg_type_id t; md_side := side_to_u8 s;
     md_price := price; md_qty := qty; md_exchange_ts := ts |}.

Lemma send_datagram_spec p seq t s price qty ts :
  pub_ok p → is_u64 seq → is_s64 price → is_u32 qty → is_s64 ts →
  ∃ p', send_datagram nl p seq t s price qty ts =
      Some (p', u64 (seq + 1),
            let d := layout_market_data (quote (symbol_id_ p) seq t s price qty ts) in
            (FeedA, d) :: (if has_feed_b p then [(FeedB, d)] else [])) ∧
    MarketDataUpdate_ok (quote (symbol_id_ p) seq t s price qty ts) ∧
    pub_ok p' ∧ symbol_id_ p' = symbol_id_ p ∧ has_feed_b p' = has_feed_b p.
Proof.
  intros Hp Hseq Hprice Hqty Hts. pose proof (po_symbol _ Hp). pose proof (po_buf _ Hp) as Hbuf.
  assert (Hok : MarketDataUpdate_ok (quote (symbol_id_ p) seq t s price qty ts)).
  { unfold MarketDataUpdate_ok. simpl. split_and!; try done; [by destruct t | by destruct s]. }
  unfold send_datagram. fold (quote (symbol_id_ p) seq t s price qty ts).
  rewrite serialize_market_data_eq by (try done; unfold kMarketDataWireSize; lia). cbn [mbind option_bind].
  unfold kMarketDataWireSize at 1. rewrite bool_decide_false by lia.
  change (Z.to_nat kMarketDataWireSize) with 34%nat.
  eexists. rewrite take_app_length' by by rewrite length_layout. split; [done |]. split; [done |]. split; [| done].
  destruct Hp. split; [done | | done..]. cbn [with_buf send_buf_]. rewrite length_app, length_layout, length_drop. lia.
Qed.

(** A call of a publisher. *)
Inductive Publish :=
  | Tick (now : Z)
  | Trade (s : Side) (price qty now : Z)
  | Update (s : Side) (price qty now : Z).

Definition publish_ok (c : Publish) : Prop :=
  match c with
  | Tick now => is_s64 now
  | Trade _ price qty now | Update _ price qty now => is_s64 price ∧ is_u32 qty ∧ is_s64 now
  end.

Definition publish p (seq : Z) (c : Publish) : option (MarketDataPublisher * Z * list (Feed * list Z)) :=
  match c with
  | Tick now => publish_tick nl p seq now
  | Trade s price qty now => publish_trade nl p seq s price qty now
  | Update s price qty now => publish_update nl p seq s price qty now
  end.

Fixpoint publish_all p (seq : Z) (calls : list Publish) : option (MarketDataPublisher * Z * list (Feed * list Z)) :=
  match calls with
  | [] => Some (p, seq, [])
  | c :: calls =>
      '(p, seq, out) ← publish p seq c;
      '(p, seq, outs) ← publish_all p seq calls;
      Some (p, seq, out ++ outs)
  end.

(** [mds] is a stream of [sym] numbered from [seq], and [out] its datagrams. *)
Record streamed (sym : Z) (b : bool) (seq : Z) (mds : list MarketDataUpdate) (out : list (Feed * list Z)) : Prop := {
  st_numbered : ∀ k md, mds !! k = Some md →
    md_seq_num md = u64 (seq + Z.of_nat k) ∧ md_symbol_id md = sym ∧ MarketDataUpdate_ok md;
  st_feed_a : feed_of FeedA out = layout_market_data <$> mds;
  st_feed_b : feed_of FeedB out = if b then layout_market_data <$> mds else [];
}.

Lemma streamed_app sym b seq mds mds' out out' :
  streamed sym b seq mds out → streamed sym b (u64 (seq + lenZ mds)) mds' out' →
  streamed sym b seq (mds ++ mds') (out ++ out').
Proof.
  intros [Hn Ha Hb] [Hn' Ha' Hb']. split.
  - intros k md [Hk | [Hk Hk']]%lookup_app_Some; [by apply Hn |].
    destruct (Hn' _ _ Hk') as [-> ?]. split; [| done]. rewrite u64_add_l. f_equal. lia.
  - unfold feed_of in *. by rewrite omap_app, fmap_app, Ha, Ha'.
  - unfold feed_of in *. rewrite omap_app, Hb, Hb'. destruct b; [by rewrite fmap_app | done].
Qed.

Lemma streamed_one p seq t s price qty ts :
  is_u64 seq → MarketDataUpdate_ok (quote (symbol_id_ p) seq t s price qty ts) →
  streamed (symbol_id_ p) (has_feed_b p) seq [quote (symbol_id_ p) seq t s price qty ts]
    (let d := layout_market_data (quote (symbol_id_ p) seq t s price qty ts) in
     (FeedA, d) :: (if has_feed_b p then [(FeedB, d)] else [])).
Proof.
  intros Hs Hok. split; [| by destruct (has_feed_b p)..].
  intros [| k] md Hk; [| destruct k; discriminate]. injection Hk as <-. rewrite Z.add_0_r, u64_id by done. done.
Qed.

Lemma publish_spec p seq c :
  pub_ok p → is_u64 seq → publish_ok c →
  ∃ p' mds out, publish p seq c = Some (p', u64 (seq + lenZ mds), out) ∧
    pub_ok p' ∧ symbol_id_ p' = symbol_id_ p ∧ has_feed_b p' = has_feed_b p ∧
    streamed (symbol_id_ p) (has_feed_b p) seq mds out.
Proof.
  intros Hp Hseq Hc. destruct c as [now | s price qty now | s price qty now]; simpl in *.
  - unfold publish_tick.
    destruct (generate_quotes_spec p Hp) as (p1 & q & -> & Hp1 & Hs1 & Hb1 & Hspread & Hmid & Hbq & Haq).
    cbn [mbind option_bind].
    pose proof (po_mid _ Hp1) as Hm. rewrite (po_ref _ Hp1) in Hm. unfold mid_bound, kDefaultRefPrice, kHalfSpread in *.
    destruct (send_datagram_spec p1 seq kBBOUpdate kBid (bid_price q) (bid_qty q) now)
      as (p2 & -> & Hok2 & Hp2 & Hs2 & Hb2); [done | done | mlia | mlia | done |]. cbn [mbind option_bind].
    destruct (send_datagram_spec p2 (u64 (seq + 1)) kBBOUpdate kAsk (ask_price q) (ask_qty q) now)
      as (p3 & -> & Hok3 & Hp3 & Hs3 & Hb3); [done | auto with machine | mlia | mlia | done |]. cbn [mbind option_bind].
    eexists p3, _, _. split; [| split_and!; [done | congruence | congruence |]].
    2:{ eapply streamed_app.
        - rewrite <- Hs1, <- Hb1. by apply streamed_one.
        - simpl. rewrite <- Hs1, <- Hb1, <- Hs2, <- Hb2. apply streamed_one; [auto with machine | done]. }
    simpl. do 3 f_equal. rewrite u64_add_l. f_equal. lia.
  - destruct Hc as (H1 & H2 & H3). unfold publish_trade.
    destruct (send_datagram_spec p seq kTrade s price qty now) as (p2 & -> & Hok2 & Hp2 & Hs2 & Hb2); try done.
    eexists p2, _, _. split; [| split_and!; try done; by apply streamed_one]. done.
  - destruct Hc as (H1 & H2 & H3). unfold publish_update.
    destruct (send_datagram_spec p seq kBBOUpdate s price qty now) as (p2 & -> & Hok2 & Hp2 & Hs2 & Hb2); try done.
    eexists p2, _, _. split; [| split_and!; try done; by apply streamed_one]. done.
Qed.

Lemma publish_all_spec calls p seq :
  pub_ok p → is_u64 seq → Forall publish_ok calls →
  ∃ p' mds out, publish_all p seq calls = Some (p', u64 (seq + lenZ mds), out) ∧
    pub_ok p' ∧ symbol_id_ p' = symbol_id_ p ∧ has_feed_b p' = has_feed_b p ∧
    streamed (symbol_id_ p) (has_feed_b p) seq mds out.
Proof.
  revert p seq. induction calls as [| c calls IH]; intros p seq Hp Hseq Hc; simpl.
  - exists p, [], []. simpl. rewrite Z.add_0_r, u64_id by done. split_and!; try done.
    split; [done | done |]. by destruct (has_feed_b p).
  - inversion_clear Hc as [| ? ? Hc1 Hc2].
    destruct (publish_spec p seq c Hp Hseq Hc1) as (p1 & mds1 & out1 & -> & Hp1 & Hs1 & Hb1 & Hst1).
    cbn [mbind option_bind].
    destruct (IH p1 (u64 (seq + lenZ mds1))) as (p2 & mds2 & out2 & -> & Hp2 & Hs2 & Hb2 & Hst2);
      [done | auto with machine | done |]. cbn [mbind option_bind].
    exists p2, (mds1 ++ mds2), (out1 ++ out2).
    split; [| split_and!; [done | congruence | congruence |]].
    + do 3 f_equal. rewrite u64_add_l, length_app. f_equal. lia.
    + rewrite Hs1, Hb1 in Hst2. by eapply streamed_app.
Qed.
End Publisher.

(** * The stream as it arrives *)

Lemma layout_bytes md : bytes_ok (layout_market_data md).
Proof. unfold layout_market_data. repeat first [apply bytes_ok_app | apply to_be_bytes | done]. Qed.

Lemma updates_layout nl (mds : list MarketDataUpdate) :
  (∀ md, md ∈ mds → MarketDataUpdate_ok md) → updates nl (layout_market_data <$> mds) = mds.
Proof.
  induction mds as [| md mds IH]; intros Hok; [done |].
  rewrite fmap_cons. unfold updates. cbn [omap list_omap].
  rewrite deserialize_market_data_eq by (apply Hok, elem_of_cons; by left). f_equal.
  apply IH. intros x Hx. apply Hok, elem_of_cons. by right.
Qed.

Lemma updates_copies nl (mds : list MarketDataUpdate) ds :
  (∀ md, md ∈ mds → MarketDataUpdate_ok md) →
  (∀ d, d ∈ ds → ∃ md, md ∈ mds ∧ d = layout_market_data md) →
  Forall bytes_ok ds ∧ (∀ md, md ∈ updates nl ds → md ∈ mds) ∧ lenZ (updates nl ds) = lenZ ds.
Proof.
  intros Hok. induction ds as [| d ds IH]; intros Hds; [split_and!; [done | by intros ? ?%elem_of_nil | done] |].
  destruct IH as (Hb & Hin & Hlen); [intros x Hx; apply Hds, elem_of_cons; by right |].
  destruct (Hds d) as (md & Hmd & ->); [apply elem_of_cons; by left |].
  unfold updates in *. cbn [omap list_omap]. rewrite deserialize_market_data_eq by by apply Hok.
  split_and!.
  - constructor; [apply layout_bytes | done].
  - intros x [-> | Hx]%elem_of_cons; [done | by apply Hin].
  - cbn [length]. lia.
Qed.

Lemma numbered_sorted seq (mds : list MarketDataUpdate) :
  (∀ k md, mds !! k = Some md → md_seq_num md = seq + Z.of_nat k) → StronglySorted older mds.
Proof.
  revert seq. induction mds as [| md mds IH]; intros seq Hn; constructor.
  - apply (IH (seq + 1)). intros k x Hk. rewrite (Hn (S k) x Hk). lia.
  - apply Forall_forall. intros x Hx. apply list_elem_of_In, list_elem_of_lookup in Hx as [k Hk].
    unfold older. rewrite (Hn 0%nat md eq_refl), (Hn (S k) x Hk). lia.
Qed.

Lemma numbered_last seq md mds last :
  (∀ k x, (md :: mds) !! k = Some x → md_seq_num x = seq + Z.of_nat k) →
  last_of last (md :: mds) = Some (seq + lenZ mds).
Proof.
  revert seq md last. induction mds as [| x mds IH]; intros seq md last Hn.
  - unfold last_of. simpl. f_equal. rewrite (Hn 0%nat md eq_refl). simpl. lia.
  - change (last_of last (md :: x :: mds)) with (last_of (Some (md_seq_num md)) (x :: mds)).
    rewrite (IH (seq + 1)); [simpl; f_equal; lia |]. intros k y Hk. rewrite (Hn (S k) y Hk). lia.
Qed.

(** * The theorems *)

(** The feed handler accepts exactly the updates that are newer than all
    before them, whatever datagrams arrive (garbage, duplicates, losses,
    reordering): it never fails, what it passes on is in strictly increasing
    sequence order and is a subsequence of the arrivals, every datagram is
    counted once (accepted, duplicate or unparsable), and [gap_count] is the
    number of sequence numbers skipped between the first and the last
    accepted update. *)
Theorem feed_arbitration nl ds :
  Forall bytes_ok ds → (∀ md, md ∈ updates nl ds → md_seq_num md < 2 ^ 64 - 1) →
  let out := newer None (updates nl ds) in
  ∃ h, Feed.on_feed nl Feed.construct ds = Some (h, out) ∧
    StronglySorted older out ∧ out `sublist_of` updates nl ds ∧
    Feed.parse_errors_ h = u64 (lenZ ds - lenZ (updates nl ds)) ∧
    Feed.duplicate_count_ h = u64 (lenZ (updates nl ds) - lenZ out) ∧
    Feed.total_updates_ h = u64 (lenZ out) ∧
    (∀ a b, head out = Some a → last_of None out = Some b →
      Feed.expected_seq_ h = b + 1 ∧ Feed.gap_count_ h = u64 (b - md_seq_num a + 1 - lenZ out)).
Proof.
  intros Hb Hs out.
  destruct (on_feed_spec nl ds Feed.construct None None 0 0 0 Hb Hs) as (h & Hh & Hd); [by split |].
  exists h. fold out in Hh, Hd. split; [done |]. destruct Hd as [Hi He Hg Herr Hdup Htot].
  split_and!; [apply newer_sorted | apply newer_sublist | done | done | by rewrite Htot |].
  intros a b Ha Hl. rewrite Hl in *. unfold first_of in Hg. rewrite Ha in Hg. simpl in Hg.
  split; [by apply He | by destruct Hg].
Qed.

(** A publisher never fails over any sequence of calls: its datagrams
    carry its symbol and the sequence numbers of the shared counter without a
    hole, Feed B is a copy of Feed A, and the next quotes are one full spread
    apart, with quantities from 100 to 1000 and a mid price within 2709 of
    the reference price, however long it has walked. *)
Theorem publisher_stream nl sym feed_b seed p seq calls :
  MDPub.construct sym feed_b seed = Some p → is_u32 sym → is_u64 seed → is_u64 seq → Forall publish_ok calls →
  ∃ p' mds out, publish_all nl p seq calls = Some (p', u64 (seq + lenZ mds), out) ∧
    (∀ k md, mds !! k = Some md → md_seq_num md = u64 (seq + Z.of_nat k) ∧ md_symbol_id md = sym) ∧
    feed_of MDPub.FeedA out = layout_market_data <$> mds ∧
    feed_of MDPub.FeedB out = (if feed_b then layout_market_data <$> mds else []) ∧
    ∃ p'' q, MDPub.generate_quotes p' = Some (p'', q) ∧
      MDPub.ask_price q = MDPub.bid_price q + 2 * MDPub.kHalfSpread ∧
      - 2709 <= MDPub.bid_price q + MDPub.kHalfSpread - MDPub.kDefaultRefPrice <= 2709 ∧
      100 <= MDPub.bid_qty q <= 1000 ∧ 100 <= MDPub.ask_qty q <= 1000.
Proof.
  intros Hc Hsym Hseed Hseq Hcalls. destruct (construct_ok _ _ _ _ Hc Hsym Hseed) as (Hp & <- & <-).
  destruct (publish_all_spec nl calls p seq Hp Hseq Hcalls) as (p' & mds & out & -> & Hp' & _ & _ & [Hn Ha Hb]).
  exists p', mds, out. split_and!; try done; [intros k md Hk; by destruct (Hn k md Hk) as (? & ? & _) |].
  destruct (generate_quotes_spec p' Hp') as (p'' & q & -> & Hp'' & _ & _ & Hspread & Hmid & ? & ?).
  exists p'', q. pose proof (po_mid _ Hp'') as Hm. rewrite (po_ref _ Hp'') in Hm. unfold mid_bound in Hm.
  split_and!; try done; lia.
Qed.

(** C23. Redundant feeds: whatever mixture of the two feeds the network
    delivers -- each datagram on either feed, any number of times, with any
    losses -- if of every published update some copy arrives before any
    newer one does, the client receives the publisher's stream exactly, once
    and in order, and counts no gap and no error. *)
Theorem redundant_feeds nl sym feed_b seed p seq calls p' seq' out ds :
  MDPub.construct sym feed_b seed = Some p → is_u32 sym → is_u64 seed → 0 <= seq → Forall publish_ok calls →
  publish_all nl p seq calls = Some (p', seq', out) → seq + lenZ (feed_of MDPub.FeedA out) < 2 ^ 64 →
  Forall (λ d, d ∈ feed_of MDPub.FeedA out ++ feed_of MDPub.FeedB out) ds →
  first_copies [] (updates nl ds) = updates nl (feed_of MDPub.FeedA out) →
  ∃ h, Feed.on_feed nl Feed.construct ds = Some (h, updates nl (feed_of MDPub.FeedA out)) ∧
    Feed.gap_count_ h = 0 ∧ Feed.parse_errors_ h = 0 ∧
    layout_market_data <$> updates nl (feed_of MDPub.FeedA out) = feed_of MDPub.FeedA out.
Proof.
  intros Hc Hsym Hseed Hseq Hcalls Hrun Hend Hds Hfirst.
  destruct (construct_ok _ _ _ _ Hc Hsym Hseed) as (Hp & <- & <-).
  destruct (publish_all_spec nl calls p seq Hp) as (p1 & mds & out1 & Hrun1 & _ & _ & _ & Hst); [mlia | done |].
  rewrite Hrun in Hrun1. injection Hrun1 as <- _ <-. destruct Hst as [Hn Ha Hb].
  rewrite Ha in *. rewrite length_fmap in Hend.
  assert (Hok : ∀ md, md ∈ mds → MarketDataUpdate_ok md).
  { intros md [k Hk]%list_elem_of_lookup. by apply (Hn k md Hk). }
  assert (Hseqs : ∀ k md, mds !! k = Some md → md_seq_num md = seq + Z.of_nat k).
  { intros k md Hk. destruct (Hn k md Hk) as [-> _]. apply u64_id. pose proof (lookup_lt_Some _ _ _ Hk). mlia. }
  assert (Hcopies : ∀ d, d ∈ ds → ∃ md, md ∈ mds ∧ d = layout_market_data md).
  { intros d Hd. rewrite Forall_forall in Hds. specialize (Hds d ltac:(by apply list_elem_of_In)).
    apply elem_of_app in Hds as [Hd' | Hd']; [by apply list_elem_of_fmap in Hd' as (md & -> & ?); eauto |].
    rewrite Hb in Hd'. destruct (MDPub.has_feed_b p); [| by apply elem_of_nil in Hd'].
    apply list_elem_of_fmap in Hd' as (md & -> & ?); eauto. }
  rewrite (updates_layout nl mds Hok) in *.
  destruct (updates_copies nl mds ds Hok Hcopies) as (Hbytes & Hin & Hlen).
  assert (Hout : newer None (updates nl ds) = mds).
  { rewrite <- Hfirst. apply newer_first_copies; [by intros ? ?%elem_of_nil | | done].
    rewrite Hfirst. by apply (numbered_sorted seq). }
  destruct (on_feed_spec nl ds Feed.construct None None 0 0 0 Hbytes) as (h & Hh & Hd); [| by split |].
  { intros md Hmd. apply Hin in Hmd as [k Hk]%list_elem_of_lookup. rewrite (Hseqs k md Hk).
    pose proof (lookup_lt_Some _ _ _ Hk). lia. }
  rewrite Hout in *. exists h. split; [done |]. destruct Hd as [Hi He Hg Herr Hdup Htot].
  split_and!; [| by rewrite Herr, Hlen, Z.sub_diag | done].
  destruct mds as [| md mds]; [by destruct Hg |].
  rewrite (numbered_last seq) in Hg by done. simpl in Hg. pose proof (Hseqs 0%nat md eq_refl) as Hmd.
  destruct Hg as [-> _]. rewrite Hmd. simpl. replace (_ - _) with 0 by lia. done.
Qed.

(** ** Witnesses: a publisher of symbol 7 on two feeds, the first update lost
    on Feed A and the second duplicated. *)

Definition demo_calls : list Publish := [Update kBid 1000 5 11; Trade kAsk 990 2 12; Update kAsk 1010 4 13].
Definition demo_pub : MDPub.MarketDataPublisher :=
  {| MDPub.symbol_id_ := 7; MDPub.has_feed_b := true; MDPub.ref_price_ := 1000000; MDPub.mid_price_ := 1000000;
     MDPub.send_buf_ := replicate 128 0; MDPub.rng_ := 99 |}.
Definition demo_datagram (seq : Z) (t : MdMsgType) (s : Side) (price qty ts : Z) : list Z :=
  layout_market_data (quote 7 seq t s price qty ts).
Definition demo_d0 : list Z := demo_datagram 40 kBBOUpdate kBid 1000 5 11.
Definition demo_d1 : list Z := demo_datagram 41 kTrade kAsk 990 2 12.
Definition demo_d2 : list Z := demo_datagram 42 kBBOUpdate kAsk 1010 4 13.

Lemma demo_calls_ok : Forall publish_ok demo_calls.
Proof. unfold demo_calls. repeat constructor; unfold is_s64, is_u32; lia. Qed.

Lemma feed_arbitration_witness :
  ∃ h, Feed.on_feed true Feed.construct [demo_d1; demo_d0; [1; 2]; demo_d1; demo_d2] =
    Some (h, newer None (updates true [demo_d1; demo_d0; [1; 2]; demo_d1; demo_d2])) ∧
    Feed.parse_errors_ h = 1 ∧ Feed.duplicate_count_ h = 2 ∧ Feed.total_updates_ h = 2.
Proof.
  destruct (feed_arbitration true [demo_d1; demo_d0; [1; 2]; demo_d1; demo_d2]) as (h & Hh & _ & _ & He & Hd & Ht & _).
  - apply (bool_decide_unpack _). vm_compute. exact I.
  - intros md Hmd. apply list_elem_of_In in Hmd. revert md Hmd. apply Forall_forall.
    apply (bool_decide_unpack _). vm_compute. exact I.
  - exists h. split; [exact Hh |]. split; [rewrite He | split; [rewrite Hd | rewrite Ht]]; vm_compute; reflexivity.
Defined.

Lemma publisher_stream_witness :
  ∃ p' (mds : list MarketDataUpdate) out, publish_all true demo_pub 40 demo_calls = Some (p', u64 (40 + lenZ mds), out).
Proof.
  destruct (publisher_stream true 7 true 99 demo_pub 40 demo_calls) as (p' & mds & out & H & _);
    [reflexivity | unfold is_u32; lia | unfold is_u64; lia | unfold is_u64; lia | apply demo_calls_ok |].
  exists p', mds, out. exact H.
Defined.

Definition demo_end : MDPub.MarketDataPublisher * Z * list (MDPub.Feed * list Z) :=
  Eval vm_compute in
    match publish_all true demo_pub 40 demo_calls with Some r => r | None => (demo_pub, 0, []) end.

Lemma redundant_feeds_witness :
  ∃ h, Feed.on_feed true Feed.construct [demo_d0; demo_d1; demo_d1; demo_d2; demo_d0] =
    Some (h, updates true [demo_d0; demo_d1; demo_d2]) ∧ Feed.gap_count_ h = 0.
Proof.
  destruct (redundant_feeds true 7 true 99 demo_pub 40 demo_calls demo_end.1.1 demo_end.1.2 demo_end.2
              [demo_d0; demo_d1; demo_d1; demo_d2; demo_d0]) as (h & Hh & Hg & _).
  - reflexivity.
  - unfold is_u32; lia.
  - unfold is_u64; lia.
  - lia.
  - apply demo_calls_ok.
  - vm_compute. reflexivity.
  - vm_compute. reflexivity.
  - apply (bool_decide_unpack _). vm_compute. exact I.
  - vm_compute. reflexivity.
  - exists h. split; [exact Hh | exact Hg].
Defined.
