(* ===== verification/Framing.v ===== *)
(** Message framing on a byte stream: [src/libs/net/message_codec.hpp],
    [src/libs/net/length_prefix_codec.hpp], [src/libs/net/packed_codec.hpp],
    [src/apps/simulated_exchange/message_codec_framer.hpp] and the framers of
    [src/libs/net/tcp_server.hpp].

    A span is a list of bytes; a function that fills an output buffer returns
    the buffer after the call.  [Framer] is the C++ concept; [FramerLaws] is
    what the server relies on: which byte strings are frames, that a buffer
    starting with a frame yields it, that a proper prefix of a frame is
    incomplete rather than an error, and that decoding any bytes is safe. *)
From S2P Require Import Prelude.
From S2P Require Import Endian.
From S2P Require Import Protocol.
Local Open Scope Z_scope.

(** * The fixed header and its payload *)

Definition kMessageMagic : Z := 0x53455231.
Definition kMaxPayloadSize : Z := 65536.

Record MessageHeader : Set := {
  mh_magic : Z;
  mh_version : Z;
  mh_msg_type : Z;
  mh_payload_len : Z;
  mh_flags : Z;
}.

Definition kMessageHeaderSize : Z := 4 + 2 + 2 + 4 + 4.

Record ParsedMessageView : Set := {
  pmv_header : MessageHeader;
  pmv_payload : list Z;
}.

Section Host.
Context (native_little : bool).

Definition pack_message (out : list Z) (version msg_type flags : Z) (payload : list Z)
    : option (list Z * Z) :=
  if bool_decide (lenZ payload > kMaxPayloadSize) then Some (out, 0)
  else
    let total := kMessageHeaderSize + lenZ payload in
    if bool_decide (lenZ out < total) then Some (out, 0)
    else
      out ← store_be32 native_little out 0 kMessageMagic;
      out ← store_be16 native_little out 4 version;
      out ← store_be16 native_little out 6 msg_type;
      out ← store_be32 native_little out 8 (u32 (lenZ payload));
      out ← store_be32 native_little out 12 flags;
      out ← (if payload is [] then Some out else memcpy_to out kMessageHeaderSize payload);
      Some (out, total).

Definition unpack_message (inp : list Z) : option (option ParsedMessageView) :=
  if bool_decide (lenZ inp < kMessageHeaderSize) then Some None
  else
    magic ← load_be32 native_little inp 0;
    ver ← load_be16 native_little inp 4;
    mtype ← load_be16 native_little inp 6;
    plen ← load_be32 native_little inp 8;
    fl ← load_be32 native_little inp 12;
    if negb (bool_decide (magic = kMessageMagic)) then Some None
    else if bool_decide (plen > kMaxPayloadSize) then Some None
    else if bool_decide (plen > lenZ inp - kMessageHeaderSize) then Some None
    else
      payload ← memcpy_from inp kMessageHeaderSize (Z.to_nat plen);
      Some (Some {| pmv_header := {| mh_magic := magic; mh_version := ver; mh_msg_type := mtype;
                                     mh_payload_len := plen; mh_flags := fl |};
                    pmv_payload := payload |}).

(** [protocol_codec.hpp]: the envelope every TCP message of the protocol has. *)
Definition pack_tcp_message (out : list Z) (msg_type : MsgType) (payload : list Z) : option (list Z * Z) :=
  pack_message out kProtocolVersion (msg_type_id msg_type) 0 payload.

(** * Length-prefixed frames *)

Definition kLengthPrefixSize : Z := 4.
Definition kDefaultMaxFrameSize : Z := 64 * 1024.

Inductive FrameStatus : Set := kOk | kIncomplete | kError.

Record FrameDecodeResult : Set := {
  fdr_status : FrameStatus;
  fdr_frame_size : Z;
  fdr_payload : list Z;
}.

Definition frame_incomplete : FrameDecodeResult :=
  {| fdr_status := kIncomplete; fdr_frame_size := 0; fdr_payload := [] |}.
Definition frame_error : FrameDecodeResult :=
  {| fdr_status := kError; fdr_frame_size := 0; fdr_payload := [] |}.

Definition encode_length_prefix_frame (out payload : list Z) (max_frame_size : Z)
    : option (list Z * option Z) :=
  let frame_size := kLengthPrefixSize + lenZ payload in
  if bool_decide (frame_size > max_frame_size) then Some (out, None)
  else if bool_decide (lenZ out < frame_size) then Some (out, None)
  else
    out ← store_be32 native_little out 0 (u32 frame_size);
    out ← (if payload is [] then Some out else memcpy_to out kLengthPrefixSize payload);
    Some (out, Some frame_size).

Definition decode_length_prefix_frame (buf : list Z) (max_frame_size : Z) : option FrameDecodeResult :=
  if bool_decide (lenZ buf < kLengthPrefixSize) then Some frame_incomplete
  else
    total_len ← load_be32 native_little buf 0;
    if bool_decide (total_len < kLengthPrefixSize) || bool_decide (total_len > max_frame_size)
    then Some frame_error
    else if bool_decide (lenZ buf < total_len) then Some frame_incomplete
    else
      payload ← memcpy_from buf kLengthPrefixSize (Z.to_nat (total_len - kLengthPrefixSize));
      Some {| fdr_status := kOk; fdr_frame_size := total_len; fdr_payload := payload |}.

(** * The framers of the servers *)

Definition MessageCodecFramer_decode (buf : list Z) : option FrameDecodeResult :=
  if bool_decide (lenZ buf < kMessageHeaderSize) then Some frame_incomplete
  else
    magic ← load_be32 native_little buf 0;
    if negb (bool_decide (magic = kMessageMagic)) then Some frame_error
    else
      plen ← load_be32 native_little buf 8;
      if bool_decide (plen > kMaxPayloadSize) then Some frame_error
      else
        let frame_size := kMessageHeaderSize + plen in
        if bool_decide (lenZ buf < frame_size) then Some frame_incomplete
        else
          payload ← memcpy_from buf 0 (Z.to_nat frame_size);
          Some {| fdr_status := kOk; fdr_frame_size := frame_size; fdr_payload := payload |}.

Definition MessageCodecFramer_encode (tx_buf payload : list Z) : option (list Z * Z) :=
  if bool_decide (lenZ payload > lenZ tx_buf) then Some (tx_buf, 0)
  else tx_buf ← memcpy_to tx_buf 0 payload; Some (tx_buf, lenZ payload).

Definition LengthPrefixFramer_decode (buf : list Z) : option FrameDecodeResult :=
  decode_length_prefix_frame buf kDefaultMaxFrameSize.

Definition LengthPrefixFramer_encode (tx_buf payload : list Z) : option (list Z * Z) :=
  '(tx_buf, r) ← encode_length_prefix_frame tx_buf payload kDefaultMaxFrameSize;
  Some (tx_buf, default 0 r).

Definition RawFramer_decode (buf : list Z) : option FrameDecodeResult :=
  if buf is [] then Some frame_incomplete
  else Some {| fdr_status := kOk; fdr_frame_size := lenZ buf; fdr_payload := buf |}.

Definition RawFramer_encode (tx_buf payload : list Z) : option (list Z * Z) :=
  if bool_decide (lenZ payload > lenZ tx_buf) then Some (tx_buf, 0)
  else tx_buf ← memcpy_to tx_buf 0 payload; Some (tx_buf, lenZ payload).
End Host.

(** * Packed structures

    [T] is a trivially copyable type with its object representation: the
    bytes of a value, always [sizeof T] of them. *)
Section Packed.
Context {T : Type} (sizeof : nat) (bytes_of : T → list Z) (of_bytes : list Z → T).

Definition pack_struct (buf : list Z) (msg : T) : option (list Z * Z) :=
  if bool_decide (lenZ buf < Z.of_nat sizeof) then Some (buf, 0)
  else buf ← memcpy_to buf 0 (bytes_of msg); Some (buf, Z.of_nat sizeof).

Definition unpack_struct (buf : list Z) : option (option T) :=
  if bool_decide (lenZ buf < Z.of_nat sizeof) then Some None
  else bs ← memcpy_from buf 0 sizeof; Some (Some (of_bytes bs)).
End Packed.

(** * The framer interface *)

Class Framer := {
  framer_decode : list Z → option FrameDecodeResult;
  framer_encode : list Z → list Z → option (list Z * Z);
}.

(** [is_frame f p]: the bytes [f] are one frame, delivered as [p]. *)
Class FramerLaws (F : Framer) := {
  is_frame : list Z → list Z → Prop;
  frame_nonempty f p : is_frame f p → f ≠ [];
  decode_frame f p rest :
    is_frame f p → bytes_ok rest →
    framer_decode (f ++ rest) = Some {| fdr_status := kOk; fdr_frame_size := lenZ f; fdr_payload := p |};
  decode_prefix f p part rest :
    is_frame f p → f = part ++ rest → rest ≠ [] → framer_decode part = Some frame_incomplete;
  decode_safe buf :
    bytes_ok buf → ∃ r, framer_decode buf = Some r ∧
      (fdr_status r = kOk → 0 < fdr_frame_size r <= lenZ buf);
}.

(** * What the bytes of a message are *)

Definition header_bytes (version msg_type payload_len flags : Z) : list Z :=
  to_be 4 kMessageMagic ++ to_be 2 version ++ to_be 2 msg_type ++ to_be 4 payload_len ++ to_be 4 flags.

Definition message_bytes (version msg_type flags : Z) (payload : list Z) : list Z :=
  header_bytes version msg_type (lenZ payload) flags ++ payload.

Definition message_view (version msg_type flags : Z) (payload : list Z) : ParsedMessageView :=
  {| pmv_header := {| mh_magic := kMessageMagic; mh_version := version; mh_msg_type := msg_type;
                      mh_payload_len := lenZ payload; mh_flags := flags |};
     pmv_payload := payload |}.

(** The fields of a message that can be sent. *)
Definition message_ok (version msg_type flags : Z) (payload : list Z) : Prop :=
  is_u16 version ∧ is_u16 msg_type ∧ is_u32 flags ∧ bytes_ok payload ∧ lenZ payload <= kMaxPayloadSize.

Lemma length_header_bytes v t n f : length (header_bytes v t n f) = 16%nat.
Proof. unfold header_bytes. by rewrite !length_app, !length_to_be. Qed.

Lemma length_message_bytes v t f p : lenZ (message_bytes v t f p) = kMessageHeaderSize + lenZ p.
Proof. unfold message_bytes, kMessageHeaderSize. rewrite length_app, length_header_bytes. lia. Qed.

Lemma header_bytes_ok v t n f : bytes_ok (header_bytes v t n f).
Proof. unfold header_bytes. repeat apply bytes_ok_app; apply to_be_bytes. Qed.

Lemma message_bytes_ok v t f p : bytes_ok p → bytes_ok (message_bytes v t f p).
Proof. intros. apply bytes_ok_app; [apply header_bytes_ok | done]. Qed.

#[export] Hint Resolve header_bytes_ok message_bytes_ok bytes_ok_app : machine.

(** Sixteen bytes are a header, up to the magic number. *)
Lemma split_header bs :
  bytes_ok bs → kMessageHeaderSize <= lenZ bs →
  ∃ m v t n f rest, bs = to_be 4 m ++ to_be 2 v ++ to_be 2 t ++ to_be 4 n ++ to_be 4 f ++ rest ∧
    is_u32 m ∧ is_u16 v ∧ is_u16 t ∧ is_u32 n ∧ is_u32 f ∧ bytes_ok rest.
Proof.
  unfold kMessageHeaderSize. intros Hb Hl.
  destruct (split_be 4 bs) as (m & r1 & -> & Hm & H1); [done | lia |]. rewrite length_app, length_to_be in Hl.
  destruct (split_be 2 r1) as (v & r2 & -> & Hv & H2); [done | lia |]. rewrite length_app, length_to_be in Hl.
  destruct (split_be 2 r2) as (t & r3 & -> & Ht & H3); [done | lia |]. rewrite length_app, length_to_be in Hl.
  destruct (split_be 4 r3) as (n & r4 & -> & Hn & H4); [done | lia |]. rewrite length_app, length_to_be in Hl.
  destruct (split_be 4 r4) as (f & r5 & -> & Hf & H5); [done | lia |].
  exists m, v, t, n, f, r5. done.
Qed.

Section MessageCodec.
Context (native_little : bool).

Lemma pack_message_eq out v t f p :
  message_ok v t f p → kMessageHeaderSize + lenZ p <= lenZ out →
  pack_message native_little out v t f p =
    Some (message_bytes v t f p ++ drop (16 + length p) out, kMessageHeaderSize + lenZ p).
Proof.
  intros (Hv & Ht & Hf & Hp & Hlen) Hout. unfold pack_message.
  rewrite !bool_decide_false by (unfold kMaxPayloadSize in *; lia).
  unfold kMessageHeaderSize, kMaxPayloadSize in *.
  rewrite u32_id by mlia. unfold message_bytes, header_bytes.
  repeat first [progress run_puts | rewrite store_be16_put by done].
  destruct p as [| b p]; [cbn [mbind option_bind]; rewrite <- !app_assoc; done |].
  rewrite !memcpy_to_skip by (rewrite ?length_to_be; lia).
  rewrite memcpy_to_here by (rewrite ?length_to_be, ?length_drop; lia).
  cbn [mbind option_bind fmap option_fmap option_map]. rewrite drop_drop, <- !app_assoc. done.
Qed.

Lemma pack_message_refused out v t f p :
  lenZ p > kMaxPayloadSize ∨ lenZ out < kMessageHeaderSize + lenZ p →
  pack_message native_little out v t f p = Some (out, 0).
Proof. unfold pack_message. intros H. case_bool_decide; [done |]. case_bool_decide; [done | lia]. Qed.

(** The outcome on sixteen bytes or more, by the decoded fields. *)
Lemma unpack_message_header m v t n f rest :
  is_u32 m → is_u16 v → is_u16 t → is_u32 n → is_u32 f → bytes_ok rest →
  unpack_message native_little (to_be 4 m ++ to_be 2 v ++ to_be 2 t ++ to_be 4 n ++ to_be 4 f ++ rest) =
    Some (if bool_decide (m = kMessageMagic ∧ n <= kMaxPayloadSize ∧ n <= lenZ rest)
          then Some {| pmv_header := {| mh_magic := m; mh_version := v; mh_msg_type := t;
                                        mh_payload_len := n; mh_flags := f |};
                       pmv_payload := take (Z.to_nat n) rest |}
          else None).
Proof.
  intros Hm Hv Ht Hn Hf Hr. unfold unpack_message.
  set (bs := to_be 4 m ++ _).
  assert (bytes_ok bs) as Hb by (unfold bs; repeat first [apply bytes_ok_app | apply to_be_bytes | assumption]).
  assert (lenZ bs = kMessageHeaderSize + lenZ rest) as Hl.
  { unfold bs, kMessageHeaderSize. rewrite !length_app, !length_to_be. lia. }
  rewrite bool_decide_false by lia. unfold bs in *. run_gets.
  destruct (decide (m = kMessageMagic ∧ n <= kMaxPayloadSize ∧ n <= lenZ rest)) as [(-> & ? & ?) | Hno].
  2: { rewrite (bool_decide_false _ Hno), Hl.
       case_bool_decide; [| done]. cbn [negb]. case_bool_decide; [done |]. case_bool_decide; [done | lia]. }
  rewrite Hl, !bool_decide_true by (try done; lia). cbn [negb].
  rewrite (bool_decide_false (n > kMaxPayloadSize)), (bool_decide_false (n > _)) by lia.
  unfold kMessageHeaderSize. rewrite !memcpy_from_skip by (rewrite ?length_to_be; lia).
  rewrite <- (take_drop (Z.to_nat n) rest) at 1.
  rewrite memcpy_from_here by (rewrite ?length_to_be, ?length_take; lia). by rewrite bool_decide_true by done.
Qed.

Lemma unpack_message_frame v t f p rest :
  message_ok v t f p → bytes_ok rest →
  unpack_message native_little (message_bytes v t f p ++ rest) = Some (Some (message_view v t f p)).
Proof.
  intros (Hv & Ht & Hf & Hp & Hlen) Hr. unfold message_bytes, header_bytes. rewrite <- !app_assoc.
  rewrite unpack_message_header; try done; [| unfold kMaxPayloadSize in *; mlia | by apply bytes_ok_app].
  rewrite bool_decide_true by (rewrite length_app; lia).
  rewrite Nat2Z.id, take_app_length. done.
Qed.

(** Acceptance is exact: what is accepted begins with the bytes of the view. *)
Lemma unpack_message_inv inp w :
  bytes_ok inp → unpack_message native_little inp = Some (Some w) →
  ∃ v t f p rest, message_ok v t f p ∧ inp = message_bytes v t f p ++ rest ∧ w = message_view v t f p.
Proof.
  intros Hb H. destruct (decide (lenZ inp < kMessageHeaderSize)) as [Hs | Hs].
  { unfold unpack_message in H. by rewrite bool_decide_true in H. }
  destruct (split_header inp) as (m & v & t & n & f & rest & -> & Hm & Hv & Ht & Hn & Hf & Hr); [done | lia |].
  rewrite unpack_message_header in H by done.
  case_bool_decide as Hc; [| done]. destruct Hc as (-> & Hmax & Hlen). injection H as <-.
  assert (lenZ (take (Z.to_nat n) rest) = n) as Hn' by (rewrite length_take; mlia).
  exists v, t, f, (take (Z.to_nat n) rest), (drop (Z.to_nat n) rest). split; [| split].
  - unfold message_ok. do 3 (split; [done |]). split; [by apply Forall_take | lia].
  - unfold message_bytes, header_bytes. rewrite Hn', <- !app_assoc, take_drop. done.
  - unfold message_view. by rewrite Hn'.
Qed.

(** Decoding never reads outside its input. *)
Lemma unpack_message_total inp : bytes_ok inp → ∃ r, unpack_message native_little inp = Some r.
Proof.
  intros Hb. destruct (decide (lenZ inp < kMessageHeaderSize)) as [Hs | Hs].
  { unfold unpack_message. rewrite bool_decide_true by done. by eexists. }
  destruct (split_header inp) as (m & v & t & n & f & rest & -> & Hm & Hv & Ht & Hn & Hf & Hr); [done | lia |].
  rewrite unpack_message_header by done. by eexists.
Qed.
End MessageCodec.

(** * The framers satisfy their contract *)

Section Framers.
Context (native_little : bool).

#[export] Instance MessageCodecFramer : Framer := {|
  framer_decode := MessageCodecFramer_decode native_little;
  framer_encode := MessageCodecFramer_encode;
|}.

#[export] Instance LengthPrefixFramer : Framer := {|
  framer_decode := LengthPrefixFramer_decode native_little;
  framer_encode := LengthPrefixFramer_encode native_little;
|}.

(** The framer's outcome on sixteen bytes or more. *)
Lemma MessageCodecFramer_header m v t n f rest :
  is_u32 m → is_u32 n → bytes_ok rest →
  MessageCodecFramer_decode native_little (to_be 4 m ++ to_be 2 v ++ to_be 2 t ++ to_be 4 n ++ to_be 4 f ++ rest) =
    Some (if bool_decide (m = kMessageMagic ∧ n <= kMaxPayloadSize)
          then if bool_decide (n <= lenZ rest)
               then {| fdr_status := kOk; fdr_frame_size := kMessageHeaderSize + n;
                       fdr_payload := to_be 4 m ++ to_be 2 v ++ to_be 2 t ++ to_be 4 n ++ to_be 4 f
                                      ++ take (Z.to_nat n) rest |}
               else frame_incomplete
          else frame_error).
Proof.
  intros Hm Hn Hr. unfold MessageCodecFramer_decode.
  set (bs := to_be 4 m ++ _ ++ _ ++ _ ++ _ ++ rest).
  assert (bytes_ok bs) as Hb by (unfold bs; repeat first [apply bytes_ok_app | apply to_be_bytes | assumption]).
  assert (lenZ bs = kMessageHeaderSize + lenZ rest) as Hl.
  { unfold bs, kMessageHeaderSize. rewrite !length_app, !length_to_be. lia. }
  rewrite bool_decide_false by lia. unfold bs in *. run_gets. rewrite Hl. clear bs Hb.
  destruct (decide (m = kMessageMagic ∧ n <= kMaxPayloadSize)) as [[-> Hmax] | Hno].
  2: { rewrite (bool_decide_false _ Hno). case_bool_decide; [| done]. cbn [negb].
       case_bool_decide; [done | lia]. }
  rewrite (bool_decide_true (_ ∧ _)), bool_decide_true by done. cbn [negb]. rewrite bool_decide_false by lia.
  destruct (decide (n <= lenZ rest)) as [Hin | Hin].
  2: { rewrite (bool_decide_true (_ < _)), (bool_decide_false (n <= _)) by lia. done. }
  rewrite (bool_decide_false (_ < _)), (bool_decide_true (n <= _)) by lia.
  rewrite <- (take_drop (Z.to_nat n) rest) at 1. rewrite !(assoc_L (++)).
  rewrite memcpy_from_here; [by rewrite <- !(assoc_L (++)) | done |].
  unfold kMessageHeaderSize. rewrite !length_app, !length_to_be, length_take. mlia.
Qed.

Lemma MessageCodecFramer_short buf :
  lenZ buf < kMessageHeaderSize → MessageCodecFramer_decode native_little buf = Some frame_incomplete.
Proof. intros. unfold MessageCodecFramer_decode. by rewrite bool_decide_true. Qed.

(** Decoding is total, and a frame found lies inside the buffer. *)
Lemma MessageCodecFramer_safe buf :
  bytes_ok buf → ∃ r, MessageCodecFramer_decode native_little buf = Some r ∧
    (fdr_status r = kOk → 0 < fdr_frame_size r <= lenZ buf).
Proof.
  intros Hb. destruct (decide (lenZ buf < kMessageHeaderSize)) as [Hs | Hs].
  { rewrite MessageCodecFramer_short by done. by eexists. }
  destruct (split_header buf) as (m & v & t & n & f & rest & -> & Hm & Hv & Ht & Hn & Hf & Hr); [done | lia |].
  rewrite MessageCodecFramer_header by done. eexists. split; [done |].
  case_bool_decide; [| done]. case_bool_decide; [| done]. intros _. cbn [fdr_frame_size].
  unfold kMessageHeaderSize. rewrite !length_app, !length_to_be. mlia.
Qed.
(** Frames of the codec: whole messages, delivered whole. *)
Definition codec_frame (f p : list Z) : Prop :=
  ∃ v t fl body, message_ok v t fl body ∧ f = message_bytes v t fl body ∧ p = f.

(** A whole frame, and a proper part of one. *)
Lemma codec_decode f p rest :
  codec_frame f p → bytes_ok rest →
  MessageCodecFramer_decode native_little (f ++ rest) = Some {| fdr_status := kOk; fdr_frame_size := lenZ f; fdr_payload := p |}.
Proof.
  intros (v & t & fl & body & (Hv & Ht & Hf & Hp & Hlen) & -> & ->) Hr.
  rewrite length_message_bytes. unfold message_bytes, header_bytes. rewrite <- !app_assoc.
  rewrite MessageCodecFramer_header by first [done | by apply bytes_ok_app | unfold kMaxPayloadSize in *; mlia].
  rewrite !bool_decide_true by first [done | rewrite length_app; lia].
  by rewrite Nat2Z.id, take_app_length.
Qed.

Lemma codec_decode_part f p part rest :
  codec_frame f p → f = part ++ rest → rest ≠ [] → MessageCodecFramer_decode native_little part = Some frame_incomplete.
Proof.
  intros (v & t & fl & body & (Hv & Ht & Hf & Hp & Hlen) & -> & ->) Hpart Hne.
  destruct (decide (lenZ part < kMessageHeaderSize)) as [Hs | Hs]; [by apply MessageCodecFramer_short |].
  unfold kMessageHeaderSize in Hs.
  assert (∃ body', part = header_bytes v t (lenZ body) fl ++ body' ∧ body = body' ++ rest) as (body' & -> & ->).
  { exists (drop 16 part). apply (f_equal (take 16)) in Hpart as E1. apply (f_equal (drop 16)) in Hpart as E2.
    unfold message_bytes in E1, E2. pose proof (length_header_bytes v t (lenZ body) fl) as Hh.
    rewrite <- Hh in E1 at 1. rewrite <- Hh in E2 at 1. rewrite take_app_length in E1. rewrite drop_app_length in E2.
    rewrite take_app_le in E1 by lia. rewrite drop_app_le in E2 by lia.
    split; [| done]. rewrite E1, take_drop. done. }
  unfold header_bytes. rewrite <- !app_assoc.
  assert (rest = [] ∨ 0 < lenZ rest) as [| Hpos] by (destruct rest; [by left | right; simpl; lia]); [done |].
  apply Forall_app in Hp as [Hp1 Hp2].
  rewrite MessageCodecFramer_header by first [done | unfold kMaxPayloadSize in *; mlia].
  rewrite bool_decide_true by done. rewrite bool_decide_false by (rewrite length_app; lia). done.
Qed.

#[export] Instance MessageCodecFramer_laws : FramerLaws MessageCodecFramer.
Proof.
  refine {| is_frame := codec_frame |}.
  - intros f p (v & t & fl & body & _ & -> & _) Hnil. apply (f_equal length) in Hnil.
    unfold message_bytes in Hnil. rewrite length_app, length_header_bytes in Hnil. done.
  - apply codec_decode.
  - apply codec_decode_part.
  - apply MessageCodecFramer_safe.
Qed.

End Framers.

Section LengthPrefix.
Context (native_little : bool).

Definition prefixed_bytes (payload : list Z) : list Z :=
  to_be 4 (kLengthPrefixSize + lenZ payload) ++ payload.

Lemma length_prefixed_bytes p : lenZ (prefixed_bytes p) = kLengthPrefixSize + lenZ p.
Proof. unfold prefixed_bytes, kLengthPrefixSize. rewrite length_app, length_to_be. lia. Qed.

Lemma encode_length_prefix_eq out p max :
  max < 2 ^ 32 → kLengthPrefixSize + lenZ p <= max → kLengthPrefixSize + lenZ p <= lenZ out →
  encode_length_prefix_frame native_little out p max =
    Some (prefixed_bytes p ++ drop (4 + length p) out, Some (kLengthPrefixSize + lenZ p)).
Proof.
  intros Hmax Hp Hout. unfold encode_length_prefix_frame.
  rewrite !bool_decide_false by lia. unfold prefixed_bytes, kLengthPrefixSize in *.
  rewrite u32_id by mlia. run_puts.
  destruct p as [| b p]; [cbn [mbind option_bind]; rewrite <- !app_assoc; done |].
  rewrite !memcpy_to_skip by (rewrite ?length_to_be; lia).
  rewrite memcpy_to_here by (rewrite ?length_to_be, ?length_drop; lia).
  cbn [mbind option_bind fmap option_fmap option_map]. rewrite drop_drop, <- !app_assoc. done.
Qed.

Lemma encode_length_prefix_refused out p max :
  kLengthPrefixSize + lenZ p > max ∨ lenZ out < kLengthPrefixSize + lenZ p →
  encode_length_prefix_frame native_little out p max = Some (out, None).
Proof.
  unfold encode_length_prefix_frame. intros H.
  case_bool_decide; [done |]. case_bool_decide; [done | lia].
Qed.

(** The decoder's outcome on four bytes or more. *)
Lemma decode_length_prefix_header n rest max :
  is_u32 n → bytes_ok rest →
  decode_length_prefix_frame native_little (to_be 4 n ++ rest) max =
    Some (if bool_decide (kLengthPrefixSize <= n <= max)
          then if bool_decide (n <= kLengthPrefixSize + lenZ rest)
               then {| fdr_status := kOk; fdr_frame_size := n;
                       fdr_payload := take (Z.to_nat (n - kLengthPrefixSize)) rest |}
               else frame_incomplete
          else frame_error).
Proof.
  intros Hn Hr. unfold decode_length_prefix_frame.
  set (bs := to_be 4 n ++ rest).
  assert (bytes_ok bs) as Hb by (unfold bs; repeat first [apply bytes_ok_app | apply to_be_bytes | assumption]).
  assert (lenZ bs = kLengthPrefixSize + lenZ rest) as Hl.
  { unfold bs, kLengthPrefixSize. rewrite length_app, length_to_be. lia. }
  rewrite bool_decide_false by lia. unfold bs in *. run_gets. rewrite Hl. clear bs Hb.
  destruct (decide (kLengthPrefixSize <= n <= max)) as [Hok | Hno].
  2: { rewrite (bool_decide_false _ Hno).
       case_bool_decide; [done |]. case_bool_decide; [done | lia]. }
  rewrite (bool_decide_true (_ ∧ _)), (bool_decide_false (n < _)), (bool_decide_false (n > _)) by lia. cbn [orb].
  destruct (decide (n <= kLengthPrefixSize + lenZ rest)) as [Hin | Hin].
  2: { rewrite (bool_decide_true (_ < n)), (bool_decide_false (n <= _)) by lia. done. }
  rewrite (bool_decide_false (_ < n)), (bool_decide_true (n <= _)) by lia.
  unfold kLengthPrefixSize in *. rewrite memcpy_from_skip by (rewrite length_to_be; lia).
  rewrite <- (take_drop (Z.to_nat (n - 4)) rest) at 1.
  rewrite memcpy_from_here; [done | rewrite length_to_be; lia | rewrite length_take; lia].
Qed.

Lemma decode_length_prefix_short buf max :
  lenZ buf < kLengthPrefixSize → decode_length_prefix_frame native_little buf max = Some frame_incomplete.
Proof. intros. unfold decode_length_prefix_frame. by rewrite bool_decide_true. Qed.

Lemma LengthPrefixFramer_safe buf :
  bytes_ok buf → ∃ r, LengthPrefixFramer_decode native_little buf = Some r ∧
    (fdr_status r = kOk → 0 < fdr_frame_size r <= lenZ buf).
Proof.
  intros Hb. unfold LengthPrefixFramer_decode. destruct (decide (lenZ buf < kLengthPrefixSize)) as [Hs | Hs].
  { rewrite decode_length_prefix_short by done. by eexists. }
  unfold kLengthPrefixSize in Hs. destruct (split_be 4 buf) as (n & rest & -> & Hn & Hr); [done | lia |].
  rewrite decode_length_prefix_header by done. eexists. split; [done |].
  case_bool_decide; [| done]. case_bool_decide; [| done]. intros _. cbn [fdr_frame_size].
  unfold kLengthPrefixSize in *. rewrite length_app, length_to_be. lia.
Qed.
(** A whole frame decodes to its payload, whatever follows it. *)
Lemma decode_prefixed p rest max :
  bytes_ok p → bytes_ok rest → max < 2 ^ 32 → kLengthPrefixSize + lenZ p <= max →
  decode_length_prefix_frame native_little (prefixed_bytes p ++ rest) max =
    Some {| fdr_status := kOk; fdr_frame_size := kLengthPrefixSize + lenZ p; fdr_payload := p |}.
Proof.
  intros Hp Hr Hmax Hl. unfold prefixed_bytes. rewrite <- app_assoc.
  rewrite decode_length_prefix_header
    by (first [by apply bytes_ok_app | unfold kLengthPrefixSize in *; mlia]).
  rewrite !bool_decide_true by (rewrite ?length_app; lia).
  replace (Z.to_nat _) with (length p) by lia. by rewrite take_app_length.
Qed.

(** A proper prefix of a frame is incomplete. *)
Lemma decode_prefixed_part p part rest max :
  bytes_ok p → max < 2 ^ 32 → kLengthPrefixSize + lenZ p <= max →
  prefixed_bytes p = part ++ rest → rest ≠ [] →
  decode_length_prefix_frame native_little part max = Some frame_incomplete.
Proof.
  intros Hp Hmax Hl Hpart Hne.
  destruct (decide (lenZ part < kLengthPrefixSize)) as [Hs | Hs]; [by apply decode_length_prefix_short |].
  unfold kLengthPrefixSize in Hs.
  assert (∃ p', part = to_be 4 (kLengthPrefixSize + lenZ p) ++ p' ∧ p = p' ++ rest) as (p' & -> & Ep).
  { exists (drop 4 part). apply (f_equal (take 4)) in Hpart as E1. apply (f_equal (drop 4)) in Hpart as E2.
    unfold prefixed_bytes in E1, E2. pose proof (length_to_be 4 (kLengthPrefixSize + lenZ p)) as Hh.
    rewrite <- Hh in E1 at 1. rewrite <- Hh in E2 at 1. rewrite take_app_length in E1. rewrite drop_app_length in E2.
    rewrite take_app_le in E1 by lia. rewrite drop_app_le in E2 by lia.
    split; [| done]. rewrite E1, take_drop. done. }
  assert (0 < lenZ rest) as Hpos by (destruct rest; [done | simpl; lia]).
  assert (lenZ p = lenZ p' + lenZ rest) as Hlp by (rewrite Ep, length_app; lia).
  assert (bytes_ok p') as Hp' by (rewrite Ep in Hp; by apply Forall_app in Hp as [? _]).
  rewrite decode_length_prefix_header by (first [done | unfold kLengthPrefixSize in *; mlia]).
  rewrite bool_decide_true by lia. by rewrite bool_decide_false by lia.
Qed.

(** Length-prefixed frames, delivered without their prefix. *)
Definition prefixed_frame (f p : list Z) : Prop :=
  bytes_ok p ∧ f = prefixed_bytes p ∧ lenZ f <= kDefaultMaxFrameSize.

#[export] Instance LengthPrefixFramer_laws : FramerLaws (LengthPrefixFramer native_little).
Proof.
  refine {| is_frame := prefixed_frame |}.
  - intros f p (_ & -> & _) Hnil. apply (f_equal length) in Hnil.
    unfold prefixed_bytes in Hnil. rewrite length_app, length_to_be in Hnil. done.
  - intros f p rest (Hp & -> & Hmax) Hr. rewrite length_prefixed_bytes in *.
    by apply decode_prefixed.
  - intros f p part rest (Hp & -> & Hmax) Hpart Hne. rewrite length_prefixed_bytes in Hmax.
    by apply (decode_prefixed_part p part rest kDefaultMaxFrameSize).
  - apply LengthPrefixFramer_safe.
Qed.

End LengthPrefix.

(** * Packed structures round-trip for any faithful representation *)
Section PackedCorrect.
Context {T : Type} (sizeof : nat) (bytes_of : T → list Z) (of_bytes : list Z → T).
Hypothesis representation : ∀ x, of_bytes (bytes_of x) = x.
Hypothesis representation_size : ∀ x, length (bytes_of x) = sizeof.

Lemma pack_struct_eq buf msg :
  (sizeof <= length buf)%nat →
  pack_struct sizeof bytes_of buf msg = Some (bytes_of msg ++ drop sizeof buf, Z.of_nat sizeof).
Proof.
  intros Hl. unfold pack_struct. rewrite bool_decide_false by lia.
  rewrite memcpy_to_here by (rewrite ?representation_size; lia). simpl. by rewrite representation_size.
Qed.

Lemma unpack_struct_eq msg rest :
  unpack_struct sizeof of_bytes (bytes_of msg ++ rest) = Some (Some msg).
Proof.
  unfold unpack_struct. rewrite bool_decide_false by (rewrite length_app, representation_size; lia).
  rewrite memcpy_from_here by done. simpl. by rewrite representation.
Qed.
End PackedCorrect.
