(* ===== verification/ByteStream.v ===== *)
(** The messages of a byte stream.

    What a receiver of [src/libs/net/message_codec.hpp]'s envelopes makes of a
    stream, as a function of the bytes alone: [split] repeats
    [unpack_message] at the front until it finds no complete message.  The
    receive loops of the program see the stream in pieces; [split_step] is
    why the pieces do not matter. *)
From S2P Require Import Prelude.
From S2P Require Import Endian.
From S2P Require Import Protocol.
From S2P Require Import Framing.
Local Open Scope Z_scope.

Section Stream.
Context (native_little : bool).
Implicit Types bs : list Z.

(** The size of a message on the wire, as the receivers compute it. *)
Definition frame_size (m : ParsedMessageView) : Z := kMessageHeaderSize + mh_payload_len (pmv_header m).

Fixpoint split_at (fuel : nat) bs : list ParsedMessageView * list Z :=
  match fuel with
  | O => ([], bs)
  | S fuel =>
      match unpack_message native_little bs with
      | Some (Some m) => let r := split_at fuel (drop (Z.to_nat (frame_size m)) bs) in (m :: r.1, r.2)
      | _ => ([], bs)
      end
  end.

(** A message is longer than its header, so the length is fuel enough. *)
Definition split bs : list ParsedMessageView * list Z := split_at (length bs) bs.

Lemma unpack_cut bs m :
  bytes_ok bs → unpack_message native_little bs = Some (Some m) →
  ∃ f rest, bs = f ++ rest ∧ lenZ f = frame_size m ∧ kMessageHeaderSize <= lenZ f ∧ bytes_ok f ∧
    ∀ rest', bytes_ok rest' → unpack_message native_little (f ++ rest') = Some (Some m).
Proof.
  intros Hb Hu. destruct (unpack_message_inv native_little bs m Hb Hu) as (v & t & f & p & rest & Hok & -> & ->).
  exists (message_bytes v t f p), rest. rewrite length_message_bytes. split_and!; try done.
  - unfold kMessageHeaderSize. lia.
  - apply message_bytes_ok, Hok.
  - intros rest' Hr. by apply unpack_message_frame.
Qed.

Lemma split_at_enough bs : bytes_ok bs → ∀ n, (length bs <= n)%nat → split_at n bs = split bs.
Proof.
  unfold split. revert bs.
  assert (∀ k bs, (length bs <= k)%nat → bytes_ok bs → ∀ n, (length bs <= n)%nat → split_at n bs = split_at (length bs) bs) as H.
  2:{ intros bs Hb n Hn. by apply (H (length bs)). }
  induction k as [| k IH]; intros bs Hk Hb n Hn.
  { destruct bs; [| simpl in Hk; lia]. destruct n; done. }
  destruct (length bs) as [| l] eqn:El.
  { destruct bs; [| done]. destruct n; done. }
  destruct n as [| n]; [lia |]. cbn [split_at].
  destruct (unpack_message native_little bs) as [[m |] |] eqn:Hu; [| done | done].
  destruct (unpack_cut bs m Hb Hu) as (f & rest & -> & Hf & Hf16 & _ & _).
  unfold kMessageHeaderSize in Hf16. rewrite length_app in *. rewrite <- Hf, Nat2Z.id, drop_app_length.
  apply Forall_app in Hb as [_ Hr].
  rewrite (IH rest ltac:(lia) Hr n) by lia. by rewrite (IH rest ltac:(lia) Hr l) by lia.
Qed.

Lemma split_none bs : bytes_ok bs → unpack_message native_little bs = Some None → split bs = ([], bs).
Proof. intros Hb Hu. unfold split. destruct bs; [done |]. cbn [length split_at]. by rewrite Hu. Qed.

Lemma split_some f rest m :
  bytes_ok f → bytes_ok rest → unpack_message native_little (f ++ rest) = Some (Some m) → lenZ f = frame_size m →
  kMessageHeaderSize <= lenZ f →
  split (f ++ rest) = (m :: (split rest).1, (split rest).2).
Proof.
  intros Hf Hr Hu Hl H16. unfold kMessageHeaderSize in H16. unfold split at 1. rewrite length_app.
  destruct (length f + length rest)%nat as [| l] eqn:El; [lia |]. cbn [split_at]. rewrite Hu, <- Hl, Nat2Z.id, drop_app_length.
  by rewrite split_at_enough by (done || lia).
Qed.

(** The consumed part of a stream is independent of what follows it. *)
Lemma split_step bs :
  bytes_ok bs →
  ∃ c, bs = c ++ (split bs).2 ∧ bytes_ok c ∧ unpack_message native_little (split bs).2 = Some None ∧
    ∀ x, bytes_ok x → split (c ++ x) = ((split bs).1 ++ (split x).1, (split x).2).
Proof.
  assert (∀ k bs, (length bs <= k)%nat → bytes_ok bs →
    ∃ c, bs = c ++ (split bs).2 ∧ bytes_ok c ∧ unpack_message native_little (split bs).2 = Some None ∧
      ∀ x, bytes_ok x → split (c ++ x) = ((split bs).1 ++ (split x).1, (split x).2)) as H.
  2:{ intros Hb. by apply (H (length bs)). }
  clear bs. induction k as [| k IH]; intros bs Hk Hb.
  { destruct bs; [| simpl in Hk; lia]. exists []. split_and!; [done | done | done |]. intros x _. apply surjective_pairing. }
  destruct (unpack_message_total native_little bs Hb) as [[m |] Hu].
  - destruct (unpack_cut bs m Hb Hu) as (f & rest & -> & Hf & Hf16 & Hfo & Hup).
    apply Forall_app in Hb as [_ Hr]. rewrite (split_some f rest m) by done.
    unfold kMessageHeaderSize in Hf16. rewrite length_app in Hk.
    destruct (IH rest) as (c & Hc & Hco & Hstop & Hx); [lia | done |]. cbn [fst snd].
    exists (f ++ c). split; [by rewrite <- app_assoc, <- Hc |]. split; [by apply Forall_app |]. split; [done |].
    intros x Hxo. rewrite <- app_assoc, (split_some f (c ++ x) m); try done.
    + by rewrite (Hx x Hxo).
    + by apply Forall_app.
    + apply Hup. by apply Forall_app.
  - rewrite (split_none bs Hb Hu). exists []. split; [done |]. split; [constructor |]. split; [exact Hu |]. intros x _. apply surjective_pairing.
Qed.

Lemma split_rest_ok bs : bytes_ok bs → bytes_ok (split bs).2.
Proof. intros Hb. destruct (split_step bs Hb) as (c & Hc & _). rewrite Hc in Hb. by apply Forall_app in Hb as [_ ?]. Qed.

(** In pieces or at once. *)
Lemma split_app a b :
  bytes_ok a → bytes_ok b →
  split (a ++ b) = ((split a).1 ++ (split ((split a).2 ++ b)).1, (split ((split a).2 ++ b)).2).
Proof.
  intros Ha Hb. destruct (split_step a Ha) as (c & Hc & _ & _ & Hx). rewrite Hc at 1. rewrite <- app_assoc.
  apply Hx. apply Forall_app. split; [by apply split_rest_ok | done].
Qed.

Lemma split_idle bs : bytes_ok bs → split (split bs).2 = ([], (split bs).2).
Proof.
  intros Hb. destruct (split_step bs Hb) as (_ & _ & _ & Hstop & _). apply split_none; [by apply split_rest_ok | done].
Qed.

(** * Streams of well-formed messages *)

Record Frame : Set := { fm_version : Z; fm_type : Z; fm_flags : Z; fm_payload : list Z }.

Definition frame_ok (f : Frame) : Prop := message_ok (fm_version f) (fm_type f) (fm_flags f) (fm_payload f).
Definition frame_bytes (f : Frame) : list Z := message_bytes (fm_version f) (fm_type f) (fm_flags f) (fm_payload f).
Definition frame_view (f : Frame) : ParsedMessageView :=
  message_view (fm_version f) (fm_type f) (fm_flags f) (fm_payload f).

Lemma frame_bytes_ok f : frame_ok f → bytes_ok (frame_bytes f).
Proof. intros (_ & _ & _ & Hp & _). by apply message_bytes_ok. Qed.

Lemma frame_bytes_length f : lenZ (frame_bytes f) = kMessageHeaderSize + lenZ (fm_payload f).
Proof. apply length_message_bytes. Qed.

Lemma stream_bytes_ok fs : Forall frame_ok fs → bytes_ok (concat (frame_bytes <$> fs)).
Proof.
  induction 1 as [| f fs Hf _ IH]; [constructor |]. cbn [fmap list_fmap concat]. apply Forall_app. split; [by apply frame_bytes_ok | done].
Qed.

Lemma split_frame f rest :
  frame_ok f → bytes_ok rest → split (frame_bytes f ++ rest) = (frame_view f :: (split rest).1, (split rest).2).
Proof.
  intros Hf Hr. pose proof (frame_bytes_length f). unfold kMessageHeaderSize in *. apply split_some; try done.
  - by apply frame_bytes_ok.
  - by apply unpack_message_frame.
  - unfold kMessageHeaderSize. lia.
Qed.

(** A proper prefix of a message is no message yet. *)
Lemma split_partial f part more :
  frame_ok f → frame_bytes f = part ++ more → more ≠ [] → split part = ([], part).
Proof.
  intros Hf Hpm Hne. pose proof (frame_bytes_ok f Hf) as Hb. rewrite Hpm in Hb. apply Forall_app in Hb as [Hp Hm].
  apply split_none; [done |]. destruct (unpack_message_total native_little part Hp) as [[m |] Hu]; [| done]. exfalso.
  destruct (unpack_cut part m Hp Hu) as (g & rest & -> & Hg & _ & _ & Hup).
  assert (unpack_message native_little (frame_bytes f) = Some (Some (frame_view f))) as Hfull.
  { pose proof (unpack_message_frame native_little _ _ _ _ [] Hf (Forall_nil_2 _)) as H. by rewrite app_nil_r in H. }
  rewrite Hpm, <- app_assoc in Hfull. rewrite Hup in Hfull.
  2:{ apply Forall_app. split; [by apply Forall_app in Hp as [_ ?] | done]. }
  injection Hfull as ->. apply (f_equal length) in Hpm. pose proof (frame_bytes_length f) as Hl.
  rewrite !length_app in Hpm. destruct more; [done |]. cbn [length] in Hpm.
  change (frame_size (frame_view f)) with (kMessageHeaderSize + lenZ (fm_payload f)) in Hg. lia.
Qed.

(** A stream of messages, the last one possibly cut. *)
Definition well_framed (size : Z) (fs : list Frame) (part : list Z) : Prop :=
  Forall (λ f, frame_ok f ∧ lenZ (frame_bytes f) <= size) fs ∧ 0 < size ∧
  ∃ f more, frame_ok f ∧ lenZ (frame_bytes f) <= size ∧ frame_bytes f = part ++ more ∧ more ≠ [].

(** What is pending of any prefix of the stream is shorter than [size]. *)
Definition fits (size : Z) bs : Prop := ∀ q r, bs = q ++ r → lenZ (split q).2 < size.

Lemma split_well_framed size fs part :
  well_framed size fs part → split (concat (frame_bytes <$> fs) ++ part) = (frame_view <$> fs, part).
Proof.
  intros (Hfs & _ & g & more & Hg & _ & Hpm & Hne).
  assert (bytes_ok part) as Hpart.
  { pose proof (frame_bytes_ok g Hg) as Hb. rewrite Hpm in Hb. by apply Forall_app in Hb as [? _]. }
  induction fs as [| f fs IH]; [by apply (split_partial g part more) |].
  inversion_clear Hfs as [| ? ? [Hf _] Hfs']. cbn [fmap list_fmap concat]. rewrite <- app_assoc, split_frame; [| done |].
  - by rewrite (IH Hfs').
  - apply Forall_app. split; [| done]. apply stream_bytes_ok. eapply Forall_impl; [| exact Hfs']. by intros ? [? _].
Qed.

(** What has arrived of a stream of messages is one. *)
Lemma well_framed_prefix size fs part : ∀ q r,
  well_framed size fs part → concat (frame_bytes <$> fs) ++ part = q ++ r →
  ∃ fs1 fs2 part', fs = fs1 ++ fs2 ∧ q = concat (frame_bytes <$> fs1) ++ part' ∧ well_framed size fs1 part' ∧
    part' ++ r = concat (frame_bytes <$> fs2) ++ part.
Proof.
  induction fs as [| f fs IH]; intros q r (Hfs & Hpos & g & more & Hg & Hgs & Hpm & Hne) Hq.
  - cbn [fmap list_fmap concat] in *. rewrite app_nil_l in Hq. exists [], [], q. split; [done |]. split; [done |]. split; [| done].
    split; [constructor |]. split; [done |]. exists g, (r ++ more). rewrite app_assoc, <- Hq. split_and!; try done. by destruct r.
  - inversion_clear Hfs as [| ? ? [Hf Hfsz] Hfs']. cbn [fmap list_fmap concat] in *. rewrite <- app_assoc in Hq.
    apply app_eq_app in Hq as (k & [[Hfk Hr] | [-> Hk]]).
    + destruct k as [| y k].
      * rewrite app_nil_r in Hfk. subst q. exists [f], fs, []. cbn [fmap list_fmap concat]. rewrite !app_nil_r. split; [done |]. split; [done |].
        split; [| by rewrite Hr]. split; [constructor; [done | constructor] |]. split; [done |]. exists f, (frame_bytes f). split_and!; try done.
      * exists [], (f :: fs), q. cbn [fmap list_fmap concat]. split; [done |]. split; [done |]. split.
        ** split; [constructor |]. split; [done |]. by exists f, (y :: k).
        ** by rewrite Hr, Hfk, <- !app_assoc.
    + destruct (IH k r) as (fs1 & fs2 & part' & -> & -> & (H1 & _ & H2) & H3); [| done |].
      { split; [done |]. split; [done |]. by exists g, more. }
      exists (f :: fs1), fs2, part'. cbn [fmap list_fmap concat]. rewrite app_assoc. split; [done |]. split; [done |]. split; [| done].
      split; [by constructor |]. done.
Qed.

Lemma well_framed_part size fs part : well_framed size fs part → lenZ part < size ∧ bytes_ok part.
Proof.
  intros (_ & _ & g & more & Hg & Hgs & Hpm & Hne). pose proof (frame_bytes_ok g Hg) as Hb. rewrite Hpm in Hb, Hgs.
  apply Forall_app in Hb as [? _]. rewrite length_app in Hgs. destruct more; [done |]. simpl in Hgs. split; [lia | done].
Qed.

Lemma fits_well_framed size fs part :
  well_framed size fs part → fits size (concat (frame_bytes <$> fs) ++ part).
Proof.
  intros Hwf q r Hq. destruct (well_framed_prefix size fs part q r Hwf Hq) as (fs1 & fs2 & part' & _ & -> & Hwf' & _).
  rewrite (split_well_framed size fs1 part' Hwf'). by apply (well_framed_part size fs1 part').
Qed.
End Stream.
