(* ===== verification/OrderManager.v ===== *)
(** The order manager of the trading client:
    [src/apps/tick_to_trade/order_manager.hpp], with its data of
    [order_types.hpp], [strategy_ctx.hpp] and [strategy_policy.hpp].

    One state holds the manager and the arrays of the [StrategyCtx] it
    refers to.  The outstanding map is any [Table]; the timing wheel is
    [TimingWheel.v]'s, with one callback ([on_order_timeout]) whose context is
    the client order id.  [sys::monotonic_nanos()] is an argument, one per
    call; the relaxed atomic counters have one writer and are plain words;
    log lines are left out.  A signed overflow, a division by zero, an access
    outside an array and a failed assertion are [None].  A pointer into the
    map is the entry it points to: no handler writes through one, and each is
    last used before its entry is erased. *)
From S2P Require Import Prelude.
From S2P Require Import TableInterface.
From S2P Require Import TradingTypes.
From S2P Require Import HashMap.
From S2P Require Import Protocol.
From S2P Require Import TimingWheel.
Local Open Scope Z_scope.
Local Open Scope array_scope.

Module OMgr.
Import TW (TimingWheel).

(** * Data *)

Record Signal : Set := {
  sig_side : Side;
  sig_price : Z;
  sig_qty : Z;
  sig_symbol_id : Z;
}.

Record OrderInfo : Set := {
  oi_side : Side;
  oi_price : Z;
  oi_qty : Z;
  oi_symbol_id : Z;
  oi_send_ts : Z;
  oi_timer_handle : Z;
}.

Record ActiveOrder : Set := {
  ao_client_order_id : Z;
  ao_price : Z;
  ao_qty : Z;
  ao_resting : bool;
}.

Definition kSideCount : Z := 2.

(** [order_ctx_map_capacity]; the factor is 4. *)
Definition order_ctx_map_capacity (max_outstanding : Z) : option Z :=
  HM.round_up_capacity (u64 (max_outstanding * 4)).

(** The fields of [StrategyCtx] the manager reads and writes. *)
Record StrategyCtx : Set := {
  net_position : list Z;
  outstanding_per_symbol : list Z;
  active_orders : list ActiveOrder;
  cancel_buf : list CancelOrder;
  timeout_ids : list Z;
  max_symbols : Z;
  max_outstanding : Z;
  max_outstanding_per_symbol : Z;
}.

Inductive KillSwitchState : Set := kNormal | kCancelling | kDraining | kComplete.

#[export] Instance KillSwitchState_eq_dec : EqDecision KillSwitchState.
Proof. solve_decision. Defined.

(** The pre-trade checks, in the order they are made. *)
Inductive RiskCheck : Set :=
  | rcKillSwitch | rcOutstanding | rcPerSymbol | rcSize | rcNotional | rcRate | rcPosition.

#[export] Instance RiskCheck_eq_dec : EqDecision RiskCheck.
Proof. solve_decision. Defined.

(** The atomic counters; [risk_rejects] is the family [risk_rejects_*_]. *)
Record Counters : Type := {
  acks_received : Z;
  rejects_received : Z;
  fills_received : Z;
  total_fill_qty : Z;
  modifies_sent : Z;
  modifies_acked : Z;
  modifies_rejected : Z;
  timeouts_fired : Z;
  risk_rejects : RiskCheck → Z;
}.

Record OrderManager (M : Type) : Type := {
  ctx_ : StrategyCtx;
  next_order_id_ : Z;
  outstanding_count_ : Z;
  max_position_ : Z;
  max_order_size_ : Z;
  max_notional_ : Z;
  bucket_capacity_ : Z;
  refill_interval_ns_ : Z;
  last_refill_ts_ : Z;
  tokens_ : Z;
  counters_ : Counters;
  kill_switch_state_ : KillSwitchState;
  pending_cancel_count_ : Z;
  outstanding_ : M;
  timeout_wheel_ : TimingWheel unit;
  order_timeout_ns_ : Z;
  last_advance_ns_ : Z;
  timeout_count_ : Z;
}.
Arguments ctx_ {M}.
Arguments next_order_id_ {M}.
Arguments outstanding_count_ {M}.
Arguments max_position_ {M}.
Arguments max_order_size_ {M}.
Arguments max_notional_ {M}.
Arguments bucket_capacity_ {M}.
Arguments refill_interval_ns_ {M}.
Arguments last_refill_ts_ {M}.
Arguments tokens_ {M}.
Arguments counters_ {M}.
Arguments kill_switch_state_ {M}.
Arguments pending_cancel_count_ {M}.
Arguments outstanding_ {M}.
Arguments timeout_wheel_ {M}.
Arguments order_timeout_ns_ {M}.
Arguments last_advance_ns_ {M}.
Arguments timeout_count_ {M}.

Definition kTickIntervalNs : Z := 1000000.

(** * Updates of the context and of the counters *)

Definition ctx_positions (x : StrategyCtx) v : StrategyCtx :=
  {| net_position := v; outstanding_per_symbol := outstanding_per_symbol x; active_orders := active_orders x;
     cancel_buf := cancel_buf x; timeout_ids := timeout_ids x; max_symbols := max_symbols x;
     max_outstanding := max_outstanding x; max_outstanding_per_symbol := max_outstanding_per_symbol x |}.
Definition ctx_per_symbol (x : StrategyCtx) v : StrategyCtx :=
  {| net_position := net_position x; outstanding_per_symbol := v; active_orders := active_orders x;
     cancel_buf := cancel_buf x; timeout_ids := timeout_ids x; max_symbols := max_symbols x;
     max_outstanding := max_outstanding x; max_outstanding_per_symbol := max_outstanding_per_symbol x |}.
Definition ctx_active (x : StrategyCtx) v : StrategyCtx :=
  {| net_position := net_position x; outstanding_per_symbol := outstanding_per_symbol x; active_orders := v;
     cancel_buf := cancel_buf x; timeout_ids := timeout_ids x; max_symbols := max_symbols x;
     max_outstanding := max_outstanding x; max_outstanding_per_symbol := max_outstanding_per_symbol x |}.
Definition ctx_buffers (x : StrategyCtx) cancels ids : StrategyCtx :=
  {| net_position := net_position x; outstanding_per_symbol := outstanding_per_symbol x;
     active_orders := active_orders x; cancel_buf := cancels; timeout_ids := ids; max_symbols := max_symbols x;
     max_outstanding := max_outstanding x; max_outstanding_per_symbol := max_outstanding_per_symbol x |}.

(** [fetch_add] of the response counters, in the order of the record. *)
Definition add_counts (k : Counters) (ack rej fill qty msent mack mrej tmo : Z) : Counters :=
  {| acks_received := u64 (acks_received k + ack); rejects_received := u64 (rejects_received k + rej);
     fills_received := u64 (fills_received k + fill); total_fill_qty := u64 (total_fill_qty k + qty);
     modifies_sent := u64 (modifies_sent k + msent); modifies_acked := u64 (modifies_acked k + mack);
     modifies_rejected := u64 (modifies_rejected k + mrej); timeouts_fired := u64 (timeouts_fired k + tmo);
     risk_rejects := risk_rejects k |}.

Definition count_risk (k : Counters) (r : RiskCheck) : Counters :=
  {| acks_received := acks_received k; rejects_received := rejects_received k;
     fills_received := fills_received k; total_fill_qty := total_fill_qty k;
     modifies_sent := modifies_sent k; modifies_acked := modifies_acked k;
     modifies_rejected := modifies_rejected k; timeouts_fired := timeouts_fired k;
     risk_rejects := λ r', if decide (r' = r) then u64 (risk_rejects k r + 1) else risk_rejects k r' |}.

Section Manager.
Context (ndebug : bool) {M : Type} `{Table Z OrderInfo M} `{TableIter Z OrderInfo M} `{TableRebuild M}.
Abbreviation Manager := (OrderManager M).
Implicit Types (o : Manager).

(** * Updates of the manager *)

Definition with_ctx o x : Manager :=
  {| ctx_ := x; next_order_id_ := next_order_id_ o; outstanding_count_ := outstanding_count_ o;
     max_position_ := max_position_ o; max_order_size_ := max_order_size_ o; max_notional_ := max_notional_ o;
     bucket_capacity_ := bucket_capacity_ o; refill_interval_ns_ := refill_interval_ns_ o;
     last_refill_ts_ := last_refill_ts_ o; tokens_ := tokens_ o; counters_ := counters_ o;
     kill_switch_state_ := kill_switch_state_ o; pending_cancel_count_ := pending_cancel_count_ o;
     outstanding_ := outstanding_ o; timeout_wheel_ := timeout_wheel_ o; order_timeout_ns_ := order_timeout_ns_ o;
     last_advance_ns_ := last_advance_ns_ o; timeout_count_ := timeout_count_ o |}.
Definition with_next_order_id o x : Manager :=
  {| ctx_ := ctx_ o; next_order_id_ := x; outstanding_count_ := outstanding_count_ o;
     max_position_ := max_position_ o; max_order_size_ := max_order_size_ o; max_notional_ := max_notional_ o;
     bucket_capacity_ := bucket_capacity_ o; refill_interval_ns_ := refill_interval_ns_ o;
     last_refill_ts_ := last_refill_ts_ o; tokens_ := tokens_ o; counters_ := counters_ o;
     kill_switch_state_ := kill_switch_state_ o; pending_cancel_count_ := pending_cancel_count_ o;
     outstanding_ := outstanding_ o; timeout_wheel_ := timeout_wheel_ o; order_timeout_ns_ := order_timeout_ns_ o;
     last_advance_ns_ := last_advance_ns_ o; timeout_count_ := timeout_count_ o |}.
Definition with_map o m count : Manager :=
  {| ctx_ := ctx_ o; next_order_id_ := next_order_id_ o; outstanding_count_ := count;
     max_position_ := max_position_ o; max_order_size_ := max_order_size_ o; max_notional_ := max_notional_ o;
     bucket_capacity_ := bucket_capacity_ o; refill_interval_ns_ := refill_interval_ns_ o;
     last_refill_ts_ := last_refill_ts_ o; tokens_ := tokens_ o; counters_ := counters_ o;
     kill_switch_state_ := kill_switch_state_ o; pending_cancel_count_ := pending_cancel_count_ o;
     outstanding_ := m; timeout_wheel_ := timeout_wheel_ o; order_timeout_ns_ := order_timeout_ns_ o;
     last_advance_ns_ := last_advance_ns_ o; timeout_count_ := timeout_count_ o |}.
Definition with_tokens o n ts : Manager :=
  {| ctx_ := ctx_ o; next_order_id_ := next_order_id_ o; outstanding_count_ := outstanding_count_ o;
     max_position_ := max_position_ o; max_order_size_ := max_order_size_ o; max_notional_ := max_notional_ o;
     bucket_capacity_ := bucket_capacity_ o; refill_interval_ns_ := refill_interval_ns_ o;
     last_refill_ts_ := ts; tokens_ := n; counters_ := counters_ o;
     kill_switch_state_ := kill_switch_state_ o; pending_cancel_count_ := pending_cancel_count_ o;
     outstanding_ := outstanding_ o; timeout_wheel_ := timeout_wheel_ o; order_timeout_ns_ := order_timeout_ns_ o;
     last_advance_ns_ := last_advance_ns_ o; timeout_count_ := timeout_count_ o |}.
Definition with_counters o k : Manager :=
  {| ctx_ := ctx_ o; next_order_id_ := next_order_id_ o; outstanding_count_ := outstanding_count_ o;
     max_position_ := max_position_ o; max_order_size_ := max_order_size_ o; max_notional_ := max_notional_ o;
     bucket_capacity_ := bucket_capacity_ o; refill_interval_ns_ := refill_interval_ns_ o;
     last_refill_ts_ := last_refill_ts_ o; tokens_ := tokens_ o; counters_ := k;
     kill_switch_state_ := kill_switch_state_ o; pending_cancel_count_ := pending_cancel_count_ o;
     outstanding_ := outstanding_ o; timeout_wheel_ := timeout_wheel_ o; order_timeout_ns_ := order_timeout_ns_ o;
     last_advance_ns_ := last_advance_ns_ o; timeout_count_ := timeout_count_ o |}.
Definition with_kill o st pending : Manager :=
  {| ctx_ := ctx_ o; next_order_id_ := next_order_id_ o; outstanding_count_ := outstanding_count_ o;
     max_position_ := max_position_ o; max_order_size_ := max_order_size_ o; max_notional_ := max_notional_ o;
     bucket_capacity_ := bucket_capacity_ o; refill_interval_ns_ := refill_interval_ns_ o;
     last_refill_ts_ := last_refill_ts_ o; tokens_ := tokens_ o; counters_ := counters_ o;
     kill_switch_state_ := st; pending_cancel_count_ := pending;
     outstanding_ := outstanding_ o; timeout_wheel_ := timeout_wheel_ o; order_timeout_ns_ := order_timeout_ns_ o;
     last_advance_ns_ := last_advance_ns_ o; timeout_count_ := timeout_count_ o |}.
Definition with_wheel o w : Manager :=
  {| ctx_ := ctx_ o; next_order_id_ := next_order_id_ o; outstanding_count_ := outstanding_count_ o;
     max_position_ := max_position_ o; max_order_size_ := max_order_size_ o; max_notional_ := max_notional_ o;
     bucket_capacity_ := bucket_capacity_ o; refill_interval_ns_ := refill_interval_ns_ o;
     last_refill_ts_ := last_refill_ts_ o; tokens_ := tokens_ o; counters_ := counters_ o;
     kill_switch_state_ := kill_switch_state_ o; pending_cancel_count_ := pending_cancel_count_ o;
     outstanding_ := outstanding_ o; timeout_wheel_ := w; order_timeout_ns_ := order_timeout_ns_ o;
     last_advance_ns_ := last_advance_ns_ o; timeout_count_ := timeout_count_ o |}.
Definition with_advance o ts count : Manager :=
  {| ctx_ := ctx_ o; next_order_id_ := next_order_id_ o; outstanding_count_ := outstanding_count_ o;
     max_position_ := max_position_ o; max_order_size_ := max_order_size_ o; max_notional_ := max_notional_ o;
     bucket_capacity_ := bucket_capacity_ o; refill_interval_ns_ := refill_interval_ns_ o;
     last_refill_ts_ := last_refill_ts_ o; tokens_ := tokens_ o; counters_ := counters_ o;
     kill_switch_state_ := kill_switch_state_ o; pending_cancel_count_ := pending_cancel_count_ o;
     outstanding_ := outstanding_ o; timeout_wheel_ := timeout_wheel_ o; order_timeout_ns_ := order_timeout_ns_ o;
     last_advance_ns_ := ts; timeout_count_ := count |}.

(** * Construction

    [outstanding] and [wheel] are what the constructors of the two members
    make of the context's buffers; they abort on a bad buffer. *)
Definition construct (ctx : StrategyCtx) (outstanding : option M) (wheel : option (TimingWheel unit))
    (max_position max_order_size max_notional max_orders_per_window rate_window_ns order_timeout_ns : Z)
    : option Manager :=
  m ← outstanding;
  w ← wheel;
  Some {| ctx_ := ctx; next_order_id_ := 1; outstanding_count_ := 0; max_position_ := max_position;
          max_order_size_ := max_order_size; max_notional_ := max_notional;
          bucket_capacity_ := max_orders_per_window;
          refill_interval_ns_ := if bool_decide (max_orders_per_window > 0)
                                 then Z.quot rate_window_ns max_orders_per_window else rate_window_ns;
          last_refill_ts_ := 0; tokens_ := max_orders_per_window;
          counters_ := {| acks_received := 0; rejects_received := 0; fills_received := 0; total_fill_qty := 0;
                          modifies_sent := 0; modifies_acked := 0; modifies_rejected := 0; timeouts_fired := 0;
                          risk_rejects := λ _, 0 |};
          kill_switch_state_ := kNormal; pending_cancel_count_ := 0; outstanding_ := m; timeout_wheel_ := w;
          order_timeout_ns_ := order_timeout_ns; last_advance_ns_ := 0; timeout_count_ := 0 |}.

(** * Private functions *)

Definition maybe_compact_outstanding o : Manager :=
  if bool_decide (outstanding_count_ o = 0) && tbl_needs_rebuild (outstanding_ o)
  then with_map o (tbl_clear (outstanding_ o)) (outstanding_count_ o)
  else o.

Definition check_drain_complete o : Manager :=
  if bool_decide (kill_switch_state_ o = kDraining) then
    let pending := if bool_decide (pending_cancel_count_ o > 0) then pending_cancel_count_ o - 1
                   else pending_cancel_count_ o in
    with_kill o (if bool_decide (pending = 0) then kComplete else kill_switch_state_ o) pending
  else o.

(** The element of [active_orders] of a symbol and a side. *)
Definition active_index (sym_idx : Z) (s : Side) : Z := sym_idx * kSideCount + side_to_u8 s.

Definition clear_active_if_match o (symbol_id : Z) (s : Side) (client_order_id : Z) : option Manager :=
  if bool_decide (symbol_id = 0) || bool_decide (symbol_id > max_symbols (ctx_ o)) then Some o
  else
    let idx := active_index (symbol_id - 1) s in
    active ← (active_orders (ctx_ o)).[idx];
    if ao_resting active && bool_decide (ao_client_order_id active = client_order_id) then
      actives ← storeZ (active_orders (ctx_ o)) idx
        {| ao_client_order_id := ao_client_order_id active; ao_price := ao_price active;
           ao_qty := ao_qty active; ao_resting := false |};
      Some (with_ctx o (ctx_active (ctx_ o) actives))
    else Some o.

(** [on_order_timeout]: [world] is what it writes, [timeout_ids_] and
    [timeout_count_]. *)
Definition on_order_timeout (limit : Z) (_ : unit) (coid : Z) (world : list Z * Z) : option (list Z * Z) :=
  _ ← (if ndebug then Some tt else assertM (bool_decide (world.2 < limit)));
  ids ← storeZ world.1 world.2 coid;
  Some (ids, u32 (world.2 + 1)).

(** A decrement or increment of [ctx_.outstanding_per_symbol]. *)
Definition add_per_symbol o (idx d : Z) : option Manager :=
  n ← (outstanding_per_symbol (ctx_ o)).[idx];
  ns ← storeZ (outstanding_per_symbol (ctx_ o)) idx (u32 (n + d));
  Some (with_ctx o (ctx_per_symbol (ctx_ o) ns)).

(** The three statements the handlers run on a tracked order that is over. *)
Definition drop_tracking o (coid : Z) (info : OrderInfo) : option Manager :=
  '(w, _) ← TW.cancel ndebug (timeout_wheel_ o) (oi_timer_handle info);
  o ← clear_active_if_match (with_wheel o w) (oi_symbol_id info) (oi_side info) coid;
  add_per_symbol o (u32 (oi_symbol_id info - 1)) (-1).

(** [outstanding_.erase] and the guarded decrement that follows it. *)
Definition erase_outstanding o (coid : Z) : option Manager :=
  '(m, _) ← tbl_erase (outstanding_ o) coid;
  Some (with_map o m (if bool_decide (outstanding_count_ o > 0) then outstanding_count_ o - 1
                      else outstanding_count_ o)).

(** What [on_order_reject], [on_cancel_ack] and a final [on_fill] share. *)
Definition retire o (coid : Z) (info : option OrderInfo) : option Manager :=
  o ← (match info with Some info => drop_tracking o coid info | None => Some o end);
  o ← erase_outstanding o coid;
  Some (maybe_compact_outstanding o).

(** * Signals *)

Definition check_modify o (signal : Signal) (now : Z) : option (Manager * option ModifyOrder) :=
  if negb (bool_decide (kill_switch_state_ o = kNormal)) then Some (o, None)
  else
    let sym_idx := u32 (sig_symbol_id signal - 1) in
    let idx := active_index sym_idx (sig_side signal) in
    active ← (active_orders (ctx_ o)).[idx];
    if negb (ao_resting active) then Some (o, None)
    else if bool_decide (ao_price active = sig_price signal) then Some (o, None)
    else
      let out := {| mo_client_order_id := ao_client_order_id active; mo_symbol_id := sig_symbol_id signal;
                    mo_new_price := sig_price signal; mo_new_qty := sig_qty signal; mo_send_ts := now |} in
      actives ← storeZ (active_orders (ctx_ o)) idx
        {| ao_client_order_id := ao_client_order_id active; ao_price := sig_price signal;
           ao_qty := sig_qty signal; ao_resting := ao_resting active |};
      let o := with_ctx o (ctx_active (ctx_ o) actives) in
      Some (with_counters o (add_counts (counters_ o) 0 0 0 0 1 0 0 0), Some out).

Definition reject_risk o (r : RiskCheck) : Manager * option NewOrder :=
  (with_counters o (count_risk (counters_ o) r), None).

(** The refill of the token bucket. *)
Definition refill o (now : Z) : option Manager :=
  elapsed ← check_s64 (now - last_refill_ts_ o);
  if bool_decide (elapsed >= refill_interval_ns_ o) then
    if bool_decide (refill_interval_ns_ o = 0) then None
    else
      let new_tokens := u32 (Z.quot elapsed (refill_interval_ns_ o)) in
      let tokens := Z.min (u32 (tokens_ o + new_tokens)) (bucket_capacity_ o) in
      advance ← check_s64 (new_tokens * refill_interval_ns_ o);
      ts ← check_s64 (last_refill_ts_ o + advance);
      Some (with_tokens o tokens ts)
  else Some o.

(** [on_signal] after its checks. *)
Definition place_order o (signal : Signal) (sym_idx now : Z) : option (Manager * option NewOrder) :=
  let coid := next_order_id_ o in
  let o := with_next_order_id o (u64 (coid + 1)) in
  let out := {| no_client_order_id := coid; no_symbol_id := sig_symbol_id signal;
                no_side := side_to_u8 (sig_side signal); no_price := sig_price signal;
                no_qty := sig_qty signal; no_send_ts := now |} in
  let delay_ticks := u64 (Z.quot (order_timeout_ns_ o) kTickIntervalNs) in
  '(w, handle) ← TW.schedule ndebug (timeout_wheel_ o) (Some tt) coid delay_ticks;
  let o := with_wheel o w in
  let info := {| oi_side := sig_side signal; oi_price := sig_price signal; oi_qty := sig_qty signal;
                 oi_symbol_id := sig_symbol_id signal; oi_send_ts := now; oi_timer_handle := handle |} in
  '(m, inserted) ← tbl_insert (outstanding_ o) coid info;
  if negb inserted then
    '(w, _) ← TW.cancel ndebug (timeout_wheel_ o) handle;
    Some (with_wheel (with_map o m (outstanding_count_ o)) w, None)
  else
    let o := with_map o m (u32 (outstanding_count_ o + 1)) in
    o ← add_per_symbol o sym_idx 1;
    actives ← storeZ (active_orders (ctx_ o)) (active_index sym_idx (sig_side signal))
      {| ao_client_order_id := coid; ao_price := sig_price signal; ao_qty := sig_qty signal; ao_resting := true |};
    let o := with_ctx o (ctx_active (ctx_ o) actives) in
    Some (with_tokens o (u32 (tokens_ o - 1)) (last_refill_ts_ o), Some out).

(** [None] beside the state is the answer [false], whatever was written to
    [out]. *)
Definition on_signal o (signal : Signal) (now_rate now_send : Z) : option (Manager * option NewOrder) :=
  if negb (bool_decide (kill_switch_state_ o = kNormal)) then Some (reject_risk o rcKillSwitch)
  else if bool_decide (outstanding_count_ o >= max_outstanding (ctx_ o)) then Some (reject_risk o rcOutstanding)
  else
    let sym_idx := u32 (sig_symbol_id signal - 1) in
    per_symbol ← (outstanding_per_symbol (ctx_ o)).[sym_idx];
    if bool_decide (per_symbol >= max_outstanding_per_symbol (ctx_ o)) then Some (reject_risk o rcPerSymbol)
    else if bool_decide (sig_qty signal > max_order_size_ o) then Some (reject_risk o rcSize)
    else
      notional ← check_s64 (sig_price signal * sig_qty signal);
      if bool_decide (notional > max_notional_ o) then Some (reject_risk o rcNotional)
      else
        o ← refill o now_rate;
        if bool_decide (tokens_ o = 0) then Some (reject_risk o rcRate)
        else
          position ← (net_position (ctx_ o)).[sym_idx];
          projected_position ← check_s64 (if bool_decide (sig_side signal = kBid)
                                          then position + sig_qty signal else position - sig_qty signal);
          abs_pos ← (if bool_decide (projected_position < 0) then check_s64 (- projected_position)
                     else Some projected_position);
          if bool_decide (abs_pos > max_position_ o) then Some (reject_risk o rcPosition)
          else place_order o signal sym_idx now_send.

(** * Kill switch *)

(** One element of a batch of cancellations: guarded, as in the source. *)
Definition push_cancel (limit : Z) (batch : list CancelOrder * Z) (c : CancelOrder) : option (list CancelOrder * Z) :=
  if bool_decide (batch.2 < limit) then
    cancels ← storeZ batch.1 batch.2 c;
    Some (cancels, u32 (batch.2 + 1))
  else Some batch.

(** The returned batch is the first [count] elements of [cancel_buf]. *)
Definition trigger_kill_switch o (now : Z) : option (Manager * Z) :=
  if negb (bool_decide (kill_switch_state_ o = kNormal)) then Some (o, 0)
  else
    let o := with_kill o kCancelling (pending_cancel_count_ o) in
    '(cancels, count) ← tbl_for_each
       (λ batch order_id info, push_cancel (max_outstanding (ctx_ o)) batch
          {| co_client_order_id := order_id; co_symbol_id := oi_symbol_id info; co_send_ts := now |})
       (outstanding_ o) (cancel_buf (ctx_ o), 0);
    w ← TW.reset ndebug (timeout_wheel_ o);
    let o := with_wheel (with_ctx o (ctx_buffers (ctx_ o) cancels (timeout_ids (ctx_ o)))) w in
    Some (with_kill o (if bool_decide (count = 0) then kComplete else kDraining) count, count).

(** * Exchange responses *)

Definition on_order_ack o (ack : OrderAck) : Manager :=
  with_counters o (add_counts (counters_ o) 1 0 0 0 0 0 0 0).

Definition on_order_reject o (reject : OrderReject) : option Manager :=
  info ← tbl_find (outstanding_ o) (or_client_order_id reject);
  o ← retire o (or_client_order_id reject) info;
  Some (with_counters o (add_counts (counters_ o) 0 1 0 0 0 0 0 0)).

Definition on_fill o (fill : FillReport) : option Manager :=
  info ← tbl_find (outstanding_ o) (fr_client_order_id fill);
  o ← (match info with
       | None => Some o
       | Some info =>
           let sym_idx := u32 (oi_symbol_id info - 1) in
           if bool_decide (sym_idx < max_symbols (ctx_ o)) then
             position ← (net_position (ctx_ o)).[sym_idx];
             position ← check_s64 (if bool_decide (oi_side info = kBid)
                                   then position + fr_fill_qty fill else position - fr_fill_qty fill);
             positions ← storeZ (net_position (ctx_ o)) sym_idx position;
             Some (with_ctx o (ctx_positions (ctx_ o) positions))
           else Some o
       end);
  o ← (if bool_decide (fr_remaining_qty fill = 0) then retire o (fr_client_order_id fill) info else Some o);
  Some (with_counters o (add_counts (counters_ o) 0 0 1 (fr_fill_qty fill) 0 0 0 0)).

Definition on_modify_ack o (ack : ModifyAck) : Manager :=
  with_counters o (add_counts (counters_ o) 0 0 0 0 0 1 0 0).

Definition on_modify_reject o (reject : ModifyReject) : option Manager :=
  info ← tbl_find (outstanding_ o) (mr_client_order_id reject);
  o ← (match info with
       | Some info => clear_active_if_match o (oi_symbol_id info) (oi_side info) (mr_client_order_id reject)
       | None => Some o
       end);
  Some (with_counters o (add_counts (counters_ o) 0 0 0 0 0 0 1 0)).

Definition on_cancel_ack o (ack : CancelAck) : option Manager :=
  info ← tbl_find (outstanding_ o) (ca_client_order_id ack);
  o ← retire o (ca_client_order_id ack) info;
  Some (check_drain_complete o).

Definition on_cancel_reject o (reject : CancelReject) : option Manager :=
  info ← tbl_find (outstanding_ o) (cr_client_order_id reject);
  o ← (match info with
       | Some info => retire o (cr_client_order_id reject) (Some info)
       | None => Some o
       end);
  Some (check_drain_complete o).

(** * Timeouts *)

Fixpoint tick_wheel (n : nat) (limit : Z) (w : TimingWheel unit) (world : list Z * Z)
    : option (TimingWheel unit * (list Z * Z)) :=
  match n with
  | O => Some (w, world)
  | S n =>
      '(w, world, _) ← TW.tick ndebug
         (λ c x w world, world ← on_order_timeout limit c x world; Some (w, world)) w world;
      tick_wheel n limit w world
  end.

(** The loop over the collected ids, given by their positions. *)
Fixpoint process_timeouts (idxs : list Z) o (batch : list CancelOrder * Z) (now_ns : Z)
    : option (Manager * (list CancelOrder * Z)) :=
  match idxs with
  | [] => Some (o, batch)
  | i :: idxs =>
      coid ← (timeout_ids (ctx_ o)).[i];
      info ← tbl_find (outstanding_ o) coid;
      match info with
      | None => process_timeouts idxs o batch now_ns
      | Some info =>
          batch ← push_cancel (max_outstanding (ctx_ o)) batch
            {| co_client_order_id := coid; co_symbol_id := oi_symbol_id info; co_send_ts := now_ns |};
          o ← clear_active_if_match o (oi_symbol_id info) (oi_side info) coid;
          o ← add_per_symbol o (u32 (oi_symbol_id info - 1)) (-1);
          o ← erase_outstanding o coid;
          process_timeouts idxs (with_counters o (add_counts (counters_ o) 0 0 0 0 0 0 0 1)) batch now_ns
      end
  end.

Definition advance_timeouts o (now_ns : Z) : option (Manager * Z) :=
  if negb (bool_decide (kill_switch_state_ o = kNormal)) then Some (o, 0)
  else
    elapsed_ns ← check_s64 (now_ns - last_advance_ns_ o);
    if bool_decide (elapsed_ns < kTickIntervalNs) then Some (o, 0)
    else
      let elapsed_ticks := u32 (Z.quot elapsed_ns kTickIntervalNs) in
      '(w, (ids, timeout_count)) ← tick_wheel (Z.to_nat elapsed_ticks) (max_outstanding (ctx_ o))
         (timeout_wheel_ o) (timeout_ids (ctx_ o), 0);
      let o := with_wheel (with_ctx o (ctx_buffers (ctx_ o) (cancel_buf (ctx_ o)) ids)) w in
      ts ← check_s64 (last_advance_ns_ o + elapsed_ticks * kTickIntervalNs);
      let o := with_advance o ts timeout_count in
      '(o, (cancels, count)) ← process_timeouts (Z.of_nat <$> seq 0 (Z.to_nat timeout_count)) o
         (cancel_buf (ctx_ o), 0) now_ns;
      let o := with_ctx o (ctx_buffers (ctx_ o) cancels (timeout_ids (ctx_ o))) in
      Some (maybe_compact_outstanding o, count).

(** * Observers *)

Definition net_position_of o (symbol_id : Z) : option Z := (net_position (ctx_ o)).[u32 (symbol_id - 1)].

Fixpoint total_loop (positions : list Z) (n : nat) (i total : Z) : option Z :=
  match n with
  | O => Some total
  | S n =>
      p ← positions.[i];
      total ← check_s64 (total + p);
      total_loop positions n (i + 1) total
  end.
Definition total_net_position o : option Z :=
  total_loop (net_position (ctx_ o)) (Z.to_nat (max_symbols (ctx_ o))) 0 0.

Definition outstanding_count o : Z := outstanding_count_ o.
Definition orders_sent o : Z := u64 (next_order_id_ o - 1).
Definition kill_switch_state o : KillSwitchState := kill_switch_state_ o.
Definition is_killed o : bool := negb (bool_decide (kill_switch_state_ o = kNormal)).
End Manager.
End OMgr.
