(* ===== verification/OrderManagerSpec.v ===== *)
(** The invariant of the order manager of [OrderManager.v] and the effect of
    its private steps.

    [orders] is the content of the outstanding map.  [core] ties it to the
    counters, the per-symbol counts, the active slots and the arrays;
    [timers_ok due] says that the pending timers are exactly those of the
    tracked orders outside [due] (the orders a timeout pass has collected and
    not yet erased, or all of them once the kill switch has emptied the
    wheel).

    [check_modify] and [on_signal] of the order manager: what they decide and
    what an accepted order changes. *)
From S2P Require Import Prelude.
From S2P Require Import TableInterface.
From S2P Require Import TimingWheel.
From S2P Require Import TimingWheelSpec.
From S2P Require Import TimingWheelTick.
From S2P Require Import TradingTypes.
From S2P Require Import Protocol.
From S2P Require Import OrderManager.
Local Open Scope Z_scope.
Local Open Scope array_scope.

Module OMSpec.
Import OMgr TWOps TWService.

(** * Orders per symbol *)

Definition symbol_count (m : gmap Z OrderInfo) (s : Z) : Z :=
  Z.of_nat (size (filter (λ kv : Z * OrderInfo, oi_symbol_id kv.2 = s) m)).

Lemma symbol_count_insert m k i s :
  m !! k = None → symbol_count (<[k := i]> m) s = symbol_count m s + b2z (bool_decide (oi_symbol_id i = s)).
Proof.
  intros Hk. unfold symbol_count. case_bool_decide as Hs; simpl.
  - rewrite map_filter_insert_True by done. rewrite map_size_insert_None; [lia |].
    apply map_lookup_filter_None. by left.
  - rewrite map_filter_insert_False, delete_id by done. lia.
Qed.

Lemma symbol_count_delete m k i s :
  m !! k = Some i → symbol_count (delete k m) s = symbol_count m s - b2z (bool_decide (oi_symbol_id i = s)).
Proof.
  intros Hk. rewrite <- (insert_delete_id m k i Hk) at 2.
  rewrite symbol_count_insert by apply lookup_delete_eq. lia.
Qed.

Lemma symbol_count_range m s : 0 <= symbol_count m s <= Z.of_nat (size m).
Proof.
  unfold symbol_count. pose proof (map_size_filter (λ kv : Z * OrderInfo, oi_symbol_id kv.2 = s) m). lia.
Qed.

Section Spec.
Context (ndebug : bool) {M : Type} `{TM : Table Z OrderInfo M} `{TI : TableIter Z OrderInfo M} `{TR : TableRebuild M}.
Context {TL : TableLaws Z OrderInfo M}.
Abbreviation Manager := (OrderManager M).
Implicit Types (o : Manager) (due : list Z).

Definition orders o : gmap Z OrderInfo := tbl_map (outstanding_ o).
Definition timers o := pending (timeout_wheel_ o).

(** * The limits a manager is built with *)

Record config o : Prop := {
  c_orders : 0 <= max_outstanding (ctx_ o) < 2 ^ 32;
  c_symbols : 1 <= max_symbols (ctx_ o) < 2 ^ 32;
  c_positions : lenZ (net_position (ctx_ o)) = max_symbols (ctx_ o);
  c_per_symbol : lenZ (outstanding_per_symbol (ctx_ o)) = max_symbols (ctx_ o);
  c_active : lenZ (active_orders (ctx_ o)) = max_symbols (ctx_ o) * kSideCount;
  c_cancels : lenZ (cancel_buf (ctx_ o)) = max_outstanding (ctx_ o);
  c_ids : lenZ (timeout_ids (ctx_ o)) = max_outstanding (ctx_ o);
  c_timers : max_outstanding (ctx_ o) <= TW.max_timers_ (timeout_wheel_ o);
  c_timeout : 1 <= Z.quot (order_timeout_ns_ o) kTickIntervalNs < TW.wheel_size_ (timeout_wheel_ o);
  c_refill : 1 <= refill_interval_ns_ o < 2 ^ 63;
  c_bucket : 0 <= bucket_capacity_ o < 2 ^ 32;
}.

(** * The invariant *)

Record core o : Prop := {
  v_config : config o;
  v_table : tbl_wf (outstanding_ o);
  v_wheel : at_rest ndebug (timeout_wheel_ o);
  v_count : outstanding_count_ o = Z.of_nat (size (orders o));
  v_limit : outstanding_count_ o <= max_outstanding (ctx_ o);
  v_next : 1 <= next_order_id_ o < 2 ^ 64;
  v_info : ∀ k i, orders o !! k = Some i →
    1 <= k < next_order_id_ o ∧ 1 <= oi_symbol_id i <= max_symbols (ctx_ o) ∧ oi_side i ≠ kCount ∧
    is_u64 (oi_timer_handle i);
  v_per_symbol : ∀ s, 1 <= s <= max_symbols (ctx_ o) →
    (outstanding_per_symbol (ctx_ o)).[s - 1] = Some (symbol_count (orders o) s);
  v_active : ∀ s d a, 1 <= s <= max_symbols (ctx_ o) → d ≠ kCount →
    (active_orders (ctx_ o)).[active_index (s - 1) d] = Some a → ao_resting a = true →
    ∃ i, orders o !! ao_client_order_id a = Some i ∧ oi_symbol_id i = s ∧ oi_side i = d;
  v_tokens : 0 <= tokens_ o <= bucket_capacity_ o;
  v_clock : 0 <= last_refill_ts_ o < 2 ^ 63 ∧ 0 <= last_advance_ns_ o < 2 ^ 63;
}.

Definition timers_ok o due : Prop :=
  (∀ h v, timers o !! h = Some v → ∃ i, orders o !! v.2 = Some i ∧ oi_timer_handle i = h ∧ v.2 ∉ due) ∧
  (∀ k i, orders o !! k = Some i → k ∉ due → ∃ d, timers o !! oi_timer_handle i = Some (d, tt, k)).

(** While the switch is untouched every tracked order has its timer; after
    it no timer is left and the cancellations are counted. *)
Definition kill_ok o : Prop :=
  match kill_switch_state_ o with
  | kNormal => timers_ok o []
  | kCancelling => False
  | kDraining => timers o = ∅ ∧ 1 <= pending_cancel_count_ o < 2 ^ 32
  | kComplete => timers o = ∅ ∧ pending_cancel_count_ o = 0
  end.

Definition inv o : Prop := core o ∧ kill_ok o.

(** What an operation leaves as it was. *)
Definition same_limits o o' : Prop :=
  max_position_ o' = max_position_ o ∧ max_order_size_ o' = max_order_size_ o ∧
  max_notional_ o' = max_notional_ o ∧ bucket_capacity_ o' = bucket_capacity_ o ∧
  refill_interval_ns_ o' = refill_interval_ns_ o ∧ order_timeout_ns_ o' = order_timeout_ns_ o ∧
  max_symbols (ctx_ o') = max_symbols (ctx_ o) ∧ max_outstanding (ctx_ o') = max_outstanding (ctx_ o) ∧
  max_outstanding_per_symbol (ctx_ o') = max_outstanding_per_symbol (ctx_ o).

Lemma same_limits_refl o : same_limits o o.
Proof. by repeat split. Qed.

Lemma same_limits_trans o1 o2 o3 : same_limits o1 o2 → same_limits o2 o3 → same_limits o1 o3.
Proof. unfold same_limits. intros. destruct_and!. repeat split; congruence. Qed.

(** Everything but the tracked orders and the buffers. *)
Definition same_rest o o' : Prop :=
  same_limits o o' ∧ net_position (ctx_ o') = net_position (ctx_ o) ∧
  kill_switch_state_ o' = kill_switch_state_ o ∧ pending_cancel_count_ o' = pending_cancel_count_ o ∧
  counters_ o' = counters_ o ∧ next_order_id_ o' = next_order_id_ o ∧ tokens_ o' = tokens_ o ∧
  last_refill_ts_ o' = last_refill_ts_ o ∧ last_advance_ns_ o' = last_advance_ns_ o.

Lemma same_rest_refl o : same_rest o o.
Proof. by repeat split. Qed.

Lemma same_rest_trans o1 o2 o3 : same_rest o1 o2 → same_rest o2 o3 → same_rest o1 o3.
Proof.
  intros (L1 & ? & ? & ? & ? & ? & ? & ? & ?) (L2 & ? & ? & ? & ? & ? & ? & ? & ?).
  split; [by eapply same_limits_trans |]. repeat split; congruence.
Qed.

(** The limits concern sizes only. *)
Definition same_sizes o o' : Prop :=
  length (net_position (ctx_ o')) = length (net_position (ctx_ o)) ∧
  length (outstanding_per_symbol (ctx_ o')) = length (outstanding_per_symbol (ctx_ o)) ∧
  length (active_orders (ctx_ o')) = length (active_orders (ctx_ o)) ∧
  length (cancel_buf (ctx_ o')) = length (cancel_buf (ctx_ o)) ∧
  length (timeout_ids (ctx_ o')) = length (timeout_ids (ctx_ o)) ∧
  TW.max_timers_ (timeout_wheel_ o') = TW.max_timers_ (timeout_wheel_ o) ∧
  TW.wheel_size_ (timeout_wheel_ o') = TW.wheel_size_ (timeout_wheel_ o).

Lemma config_frame o o' : config o → same_limits o o' → same_sizes o o' → config o'.
Proof.
  intros [] (? & ? & ? & ? & ? & ? & ? & ? & ?) (? & ? & ? & ? & ? & ? & ?). split; congruence.
Qed.

(** * Active slots *)

Lemma active_index_inj s d s' d' :
  d ≠ kCount → d' ≠ kCount → active_index s d = active_index s' d' → s = s' ∧ d = d'.
Proof. unfold active_index, kSideCount. intros. destruct d, d'; simpl in *; try done; split; (done || lia). Qed.

Lemma active_index_range o s d :
  config o → 1 <= s <= max_symbols (ctx_ o) → d ≠ kCount →
  0 <= active_index (s - 1) d < lenZ (active_orders (ctx_ o)).
Proof.
  intros Hc Hs Hd. rewrite (c_active _ Hc). unfold active_index, kSideCount. destruct d; simpl; [lia | lia | done].
Qed.

(** Clearing the slot of an order never fails, and afterwards no slot names
    that order if only the slot of its symbol and side could. *)
Lemma clear_active_spec o s d k :
  config o → 1 <= s <= max_symbols (ctx_ o) → d ≠ kCount →
  ∃ actives, clear_active_if_match o s d k = Some (with_ctx o (ctx_active (ctx_ o) actives)) ∧
    length actives = length (active_orders (ctx_ o)) ∧
    (∀ j a, actives.[j] = Some a → ao_resting a = true →
      (active_orders (ctx_ o)).[j] = Some a ∧ (j = active_index (s - 1) d → ao_client_order_id a ≠ k)).
Proof.
  intros Hc Hs Hd. pose proof (active_index_range o s d Hc Hs Hd) as Hr.
  unfold clear_active_if_match. rewrite (bool_decide_false (s = 0)), (bool_decide_false (s > _)) by lia. cbn [orb].
  destruct (getZ_is_Some _ _ Hr) as [a Ha]. rewrite Ha. cbn [mbind option_bind].
  destruct (ao_resting a && bool_decide (ao_client_order_id a = k)) eqn:Hm.
  - rewrite storeZ_Some by done. cbn [mbind option_bind]. eexists. split; [done |]. split; [apply length_setZ |].
    intros j b. rewrite getZ_setZ by done. destruct (decide (active_index (s - 1) d = j)); [by intros [= <-] |].
    intros Hb Hbr. split; [done |]. by intros ->.
  - exists (active_orders (ctx_ o)). split; [by destruct o as [[]] |]. split; [done |].
    intros j b Hb Hbr. split; [done |]. intros ->. rewrite Ha in Hb. injection Hb as <-.
    rewrite Hbr in Hm. simpl in Hm. by apply bool_decide_eq_false in Hm.
Qed.

Lemma add_per_symbol_spec o s d n :
  config o → 1 <= s <= max_symbols (ctx_ o) → (outstanding_per_symbol (ctx_ o)).[s - 1] = Some n →
  add_per_symbol o (u32 (s - 1)) d
  = Some (with_ctx o (ctx_per_symbol (ctx_ o) ((outstanding_per_symbol (ctx_ o)).[s - 1 <- u32 (n + d)]))).
Proof.
  intros Hc Hs Hn. pose proof (c_symbols _ Hc). unfold add_per_symbol. rewrite (u32_id (s - 1)) by mlia. rewrite Hn.
  cbn [mbind option_bind]. rewrite storeZ_Some by by eapply getZ_Some. done.
Qed.

(** * Forgetting one tracked order

    Its active slot, its per-symbol count and its entry; the timer has been
    dealt with. *)
Lemma forget_spec o k i :
  core o → orders o !! k = Some i →
  ∃ o', (o1 ← clear_active_if_match o (oi_symbol_id i) (oi_side i) k;
         o2 ← add_per_symbol o1 (u32 (oi_symbol_id i - 1)) (-1);
         erase_outstanding o2 k) = Some o' ∧
    core o' ∧ orders o' = delete k (orders o) ∧ same_rest o o' ∧
    timeout_wheel_ o' = timeout_wheel_ o ∧ timeout_ids (ctx_ o') = timeout_ids (ctx_ o) ∧
    cancel_buf (ctx_ o') = cancel_buf (ctx_ o).
Proof.
  intros [Hc Ht Hw Hcnt Hlim Hnx Hinfo Hper Hact Htok Hclk] Hk. destruct (Hinfo k i Hk) as (Hkr & Hs & Hd & Hh).
  destruct (clear_active_spec o (oi_symbol_id i) (oi_side i) k Hc Hs Hd) as (actives & -> & Hlen & Ha).
  cbn [mbind option_bind]. pose proof (Hper _ Hs) as Hn.
  rewrite (add_per_symbol_spec _ _ _ (symbol_count (orders o) (oi_symbol_id i))); [| by eapply config_frame | done | done].
  cbn [mbind option_bind]. unfold erase_outstanding. simpl.
  destruct (tbl_erase_spec (outstanding_ o) k Ht) as (m' & -> & Hwf' & Hm'). cbn [mbind option_bind].
  assert (Z.of_nat (size (delete k (orders o))) = Z.of_nat (size (orders o)) - 1) as Hsz.
  { rewrite map_size_delete. unfold orders in *. rewrite Hk. simpl.
    assert (size (tbl_map (outstanding_ o)) ≠ 0%nat) by (intros E%map_size_empty_inv; by rewrite E in Hk). lia. }
  assert (outstanding_count_ o > 0) as Hpos by (rewrite Hcnt; lia).
  rewrite bool_decide_true by done. eexists. split; [done |]. set (o' := with_map _ _ _).
  assert (orders o' = delete k (orders o)) as Ho by done.
  pose proof (symbol_count_range (orders o) (oi_symbol_id i)) as Hscr.
  pose proof (c_orders _ Hc) as Hmo. pose proof (getZ_Some _ _ _ Hn) as Hnr.
  split; [| by repeat split]. split.
  - eapply config_frame; [exact Hc | done |]. repeat split; simpl; [by rewrite length_setZ | done].
  - done.
  - done.
  - rewrite Ho, Hsz. simpl. lia.
  - simpl. lia.
  - done.
  - intros k' i'. rewrite Ho. intros [_ Hk']%lookup_delete_Some. by apply Hinfo.
  - intros s Hsr. simpl. rewrite Ho, (symbol_count_delete _ k i) by done.
    rewrite getZ_setZ by done. destruct (decide (oi_symbol_id i - 1 = s - 1)) as [E | E].
    + assert (oi_symbol_id i = s) as <- by lia. rewrite bool_decide_true by done. simpl.
      pose proof (symbol_count_delete (orders o) k i (oi_symbol_id i) Hk) as Hd'.
      rewrite bool_decide_true in Hd' by done. simpl in Hd'.
      pose proof (symbol_count_range (delete k (orders o)) (oi_symbol_id i)).
      f_equal. apply u32_id. mlia.
    + rewrite bool_decide_false by congruence. simpl. rewrite Z.sub_0_r. by apply Hper.
  - intros s d a Hsr Hdn Haj Har. destruct (Ha _ _ Haj Har) as [Haj' Hne].
    destruct (Hact s d a Hsr Hdn Haj' Har) as (i' & Hi' & Es & Ed). exists i'. split; [| done].
    rewrite Ho. apply lookup_delete_Some. split; [| done].
    intros E. rewrite <- E, Hk in Hi'. injection Hi' as <-. subst s d. by apply Hne.
  - done.
  - done.
Qed.

(** * Changes of one component *)

Ltac core_change :=
  intros []; intros; split; try done; first [by eapply config_frame | destruct_and?; done].

Lemma core_wheel o w :
  core o → at_rest ndebug w → TW.max_timers_ w = TW.max_timers_ (timeout_wheel_ o) →
  TW.wheel_size_ w = TW.wheel_size_ (timeout_wheel_ o) → core (with_wheel o w).
Proof. core_change. Qed.

Lemma core_counters o c : core o → core (with_counters o c).
Proof. core_change. Qed.

Lemma core_kill o st p : core o → core (with_kill o st p).
Proof. core_change. Qed.

Lemma core_buffers o cancels ids :
  core o → length cancels = length (cancel_buf (ctx_ o)) → length ids = length (timeout_ids (ctx_ o)) →
  core (with_ctx o (ctx_buffers (ctx_ o) cancels ids)).
Proof. core_change. Qed.

Lemma core_positions o ps :
  core o → length ps = length (net_position (ctx_ o)) → core (with_ctx o (ctx_positions (ctx_ o) ps)).
Proof. core_change. Qed.

Lemma core_tokens o n ts : core o → 0 <= n <= bucket_capacity_ o → 0 <= ts < 2 ^ 63 → core (with_tokens o n ts).
Proof. core_change. Qed.

Lemma core_advance o ts n : core o → 0 <= ts < 2 ^ 63 → core (with_advance o ts n).
Proof. core_change. Qed.

Lemma compact_spec o :
  core o →
  core (maybe_compact_outstanding o) ∧ orders (maybe_compact_outstanding o) = orders o ∧
  same_rest o (maybe_compact_outstanding o) ∧
  timeout_wheel_ (maybe_compact_outstanding o) = timeout_wheel_ o ∧
  ctx_ (maybe_compact_outstanding o) = ctx_ o ∧ outstanding_count_ (maybe_compact_outstanding o) = outstanding_count_ o.
Proof.
  intros Hc. unfold maybe_compact_outstanding. destruct (_ && _) eqn:E; [| done].
  apply andb_true_iff in E as [Hz%bool_decide_eq_true _]. destruct (tbl_clear_spec _ (v_table _ Hc)) as [Hwf Hm].
  assert (orders o = ∅) as Ho by (apply map_size_empty_inv; pose proof (v_count _ Hc); lia).
  assert (orders (with_map o (tbl_clear (outstanding_ o)) (outstanding_count_ o)) = orders o) as Ho'
    by (rewrite Ho; exact Hm).
  split; [| by repeat split]. pose proof Hc as [Hcf Ht Hw Hcnt Hlim Hnx Hinfo Hper Hact Htok Hclk].
  split; rewrite ?Ho'; try done. by eapply config_frame.
Qed.

(** * Retiring a tracked order *)

Lemma timers_ok_frame o o' due :
  timers_ok o due → timers o' = timers o → orders o' = orders o → timers_ok o' due.
Proof. intros [H1 H2] Ht Ho. unfold timers_ok. by rewrite Ht, Ho. Qed.

Lemma retire_known o k i :
  core o → timers_ok o [] ∨ timers o = ∅ → orders o !! k = Some i →
  ∃ o', retire ndebug o k (Some i) = Some o' ∧ core o' ∧ orders o' = delete k (orders o) ∧ same_rest o o' ∧
    (timers_ok o [] → timers_ok o' []) ∧ (timers o = ∅ → timers o' = ∅).
Proof.
  intros Hc Htm Hk. destruct (v_info _ Hc k i Hk) as (Hkr & Hs & Hd & Hh).
  destruct (rest_cancel ndebug (timeout_wheel_ o) (oi_timer_handle i) (v_wheel _ Hc) Hh) as (w & Ew & Hw & Hp & Hws & Hmt).
  pose proof (core_wheel o w Hc Hw Hmt Hws) as Hc1. set (o1 := with_wheel o w) in *.
  destruct (forget_spec o1 k i Hc1 Hk) as (o4 & E & Hc4 & Ho4 & Hsr & Hw4 & _).
  destruct (compact_spec o4 Hc4) as (Hc5 & Ho5 & Hsr5 & Hw5 & _).
  exists (maybe_compact_outstanding o4). split; [| split; [done |]; split; [| split; [| split]]].
  - unfold retire, drop_tracking. rewrite Ew. cbn [mbind option_bind]. fold o1.
    apply bind_inv in E as (oa & Ea & E). apply bind_inv in E as (ob & Eb & E).
    rewrite Ea. cbn [mbind option_bind]. rewrite Eb. cbn [mbind option_bind]. by rewrite E.
  - by rewrite Ho5, Ho4.
  - eapply same_rest_trans; [| exact Hsr5]. eapply same_rest_trans; [| exact Hsr]. by repeat split.
  - intros [Ha Hb]. unfold timers_ok, timers. rewrite Hw5, Hw4, Ho5, Ho4. simpl. rewrite Hp.
    destruct (Hb k i Hk) as [d Hkt]; [by apply not_elem_of_nil |]. fold (timers o). split.
    + intros h v [Hne Hv]%lookup_delete_Some. destruct (Ha h v Hv) as (i' & Hi' & Hh' & Hn'). exists i'.
      split; [| done]. apply lookup_delete_Some. split; [| done]. intros E'. rewrite <- E', Hk in Hi'. congruence.
    + intros k' i' [Hne Hi']%lookup_delete_Some _. destruct (Hb k' i' Hi') as [d' Hd']; [by apply not_elem_of_nil |].
      exists d'. apply lookup_delete_Some. split; [| done]. intros E'. rewrite <- E', Hkt in Hd'. congruence.
  - intros He. unfold timers in *. rewrite Hw5, Hw4. simpl. by rewrite Hp, He, delete_empty.
Qed.

(** A response about an order that is not tracked, while some order is:
    the count is lowered all the same, and no longer counts. *)
Lemma retire_unknown o k :
  core o → orders o !! k = None →
  ∃ m, tbl_erase (outstanding_ o) k = Some (m, false) ∧ tbl_map m = orders o ∧
    retire ndebug o k None
    = Some (maybe_compact_outstanding (with_map o m (if bool_decide (outstanding_count_ o > 0)
        then outstanding_count_ o - 1 else outstanding_count_ o))).
Proof.
  intros Hc Hk. destruct (tbl_erase_spec _ k (v_table _ Hc)) as (m & E & _ & Hm). unfold orders in Hk.
  rewrite Hk in E. rewrite bool_decide_false in E by by intros []. exists m. split; [done |].
  split; [by rewrite Hm, delete_id |]. unfold retire. cbn [mbind option_bind]. unfold erase_outstanding. by rewrite E.
Qed.
End Spec.
End OMSpec.

Module OMSignal.
Import OMgr TWOps TWService OMSpec.

Section Signal.
Context (ndebug : bool) {M : Type} `{TM : Table Z OrderInfo M} `{TI : TableIter Z OrderInfo M} `{TR : TableRebuild M}.
Context {TL : TableLaws Z OrderInfo M}.
Abbreviation Manager := (OrderManager M).
Abbreviation core := (core ndebug (M := M)).
Abbreviation inv := (inv ndebug (M := M)).
Implicit Types (o : Manager) (s : Signal).

(** * Room in the wheel *)

(** Every timer belongs to a tracked order, so the wheel has a node left
    whenever the outstanding limit has room. *)
Lemma size_timers o : timers_ok o [] → (size (timers o) <= size (orders o))%nat.
Proof.
  intros [Ht _]. rewrite <- !length_map_to_list, <- (length_fmap (λ kv, kv.2.2) (map_to_list (timers o))),
    <- (length_fmap fst (map_to_list (orders o))).
  apply submseteq_length, NoDup_submseteq.
  - apply NoDup_fmap_2_strong; [| apply NoDup_map_to_list].
    intros [h v] [h' v'] Hv%elem_of_map_to_list Hv'%elem_of_map_to_list E. simpl in E.
    destruct (Ht h v Hv) as (i & Hi & Hh & _), (Ht h' v' Hv') as (i' & Hi' & Hh' & _).
    rewrite <- E, Hi in Hi'. injection Hi' as <-. assert (h = h') as <- by congruence. congruence.
  - intros k (kv & -> & Hkv)%list_elem_of_fmap. destruct kv as [h v]. apply elem_of_map_to_list in Hkv.
    destruct (Ht h v Hkv) as (i & Hi & _). apply list_elem_of_fmap. exists (v.2, i). split; [done |].
    by apply elem_of_map_to_list.
Qed.

(** * Placing an order *)

(** The signal names a symbol of the context and a real side. *)
Definition signal_ok o s : Prop :=
  1 <= sig_symbol_id s <= max_symbols (ctx_ o) ∧ sig_side s ≠ kCount ∧ is_s64 (sig_price s) ∧ is_u32 (sig_qty s).

Definition order_of o s (now : Z) : NewOrder :=
  {| no_client_order_id := next_order_id_ o; no_symbol_id := sig_symbol_id s; no_side := side_to_u8 (sig_side s);
     no_price := sig_price s; no_qty := sig_qty s; no_send_ts := now |}.

Definition info_of s (now h : Z) : OrderInfo :=
  {| oi_side := sig_side s; oi_price := sig_price s; oi_qty := sig_qty s; oi_symbol_id := sig_symbol_id s;
     oi_send_ts := now; oi_timer_handle := h |}.

Definition slot_of o s : ActiveOrder :=
  {| ao_client_order_id := next_order_id_ o; ao_price := sig_price s; ao_qty := sig_qty s; ao_resting := true |}.

Definition delay_of o : Z := Z.quot (order_timeout_ns_ o) kTickIntervalNs.

(** What placing an order does to everything but the risk counters. *)
Definition placed o s (now : Z) o' (out : option NewOrder) : Prop :=
  match out with
  | Some m => m = order_of o s now ∧ ∃ h, h ∉ dom (timers o) ∧ h ≠ TW.kInvalidHandle ∧
      orders o' = <[next_order_id_ o := info_of s now h]> (orders o) ∧
      timers o' = <[h := (delay_of o, tt, next_order_id_ o)]> (timers o) ∧
      tokens_ o' = tokens_ o - 1 ∧
      active_orders (ctx_ o') = (active_orders (ctx_ o)).[active_index (sig_symbol_id s - 1) (sig_side s) <- slot_of o s]
  | None => orders o' = orders o ∧ timers o' = timers o ∧ tokens_ o' = tokens_ o ∧
      active_orders (ctx_ o') = active_orders (ctx_ o) ∧
      orders o !! next_order_id_ o = None ∧
      ∃ h, tbl_insert (outstanding_ o) (next_order_id_ o) (info_of s now h) = Some (outstanding_ o, false)
  end.

Lemma core_insert o s now h m :
  core o → signal_ok o s → outstanding_count_ o < max_outstanding (ctx_ o) → 1 <= tokens_ o →
  next_order_id_ o + 1 < 2 ^ 64 → is_u64 h → tbl_wf m →
  tbl_map m = <[next_order_id_ o := info_of s now h]> (orders o) → orders o !! next_order_id_ o = None →
  ∃ o', (o1 ← add_per_symbol (with_map (with_next_order_id o (next_order_id_ o + 1)) m (u32 (outstanding_count_ o + 1)))
                (u32 (sig_symbol_id s - 1)) 1;
         actives ← storeZ (active_orders (ctx_ o1)) (active_index (u32 (sig_symbol_id s - 1)) (sig_side s)) (slot_of o s);
         Some (with_tokens (with_ctx o1 (ctx_active (ctx_ o1) actives)) (u32 (tokens_ o1 - 1)) (last_refill_ts_ o1))) = Some o' ∧
    core o' ∧ same_limits o o' ∧ outstanding_ o' = m ∧ timeout_wheel_ o' = timeout_wheel_ o ∧
    net_position (ctx_ o') = net_position (ctx_ o) ∧ kill_switch_state_ o' = kill_switch_state_ o ∧
    counters_ o' = counters_ o ∧ next_order_id_ o' = next_order_id_ o + 1 ∧ tokens_ o' = tokens_ o - 1 ∧
    last_refill_ts_ o' = last_refill_ts_ o ∧ last_advance_ns_ o' = last_advance_ns_ o ∧
    active_orders (ctx_ o') = (active_orders (ctx_ o)).[active_index (sig_symbol_id s - 1) (sig_side s) <- slot_of o s].
Proof.
  intros [Hc Ht Hw Hcnt Hlim Hnx Hinfo Hper Hact Htok Hclk] (Hs & Hd & _ & Hq) Hroom Htk Hnext Hh Hwf Hm Hfresh.
  pose proof (c_orders _ Hc) as Hmo. pose proof (c_symbols _ Hc) as Hms. pose proof (c_bucket _ Hc) as Hbk.
  rewrite (u32_id (outstanding_count_ o + 1)) by mlia.
  set (o1 := with_map _ m _).
  assert (config o1) as Hc1 by (by eapply config_frame).
  rewrite (add_per_symbol_spec o1 _ _ (symbol_count (orders o) (sig_symbol_id s)) Hc1 Hs (Hper _ Hs)). cbn [mbind option_bind].
  rewrite (u32_id (sig_symbol_id s - 1)) by mlia.
  pose proof (active_index_range o _ _ Hc Hs Hd) as Hai. simpl. rewrite storeZ_Some by done. cbn [mbind option_bind].
  rewrite (u32_id (tokens_ o - 1)) by mlia. eexists. split; [done |]. set (o' := with_tokens _ _ _).
  assert (orders o' = <[next_order_id_ o := info_of s now h]> (orders o)) as Ho by exact Hm.
  assert (size (orders o') = S (size (orders o))) as Hsz by (rewrite Ho; by apply map_size_insert_None).
  pose proof (symbol_count_range (orders o) (sig_symbol_id s)) as Hscr.
  split; [| by repeat split]. split; try done.
  - eapply config_frame; [exact Hc | done |]. repeat split; simpl; by rewrite length_setZ.
  - rewrite Hsz. simpl. lia.
  - simpl. lia.
  - simpl. lia.
  - intros k i. rewrite Ho. simpl. intros [[<- <-] | [Hne Hk]]%lookup_insert_Some; [simpl; repeat split; (done || lia || apply Hh) |].
    destruct (Hinfo k i Hk) as [Hkr Hrest]. split; [lia | exact Hrest].
  - intros t Htr. simpl. rewrite Ho, symbol_count_insert by done. simpl.
    pose proof (getZ_Some _ _ _ (Hper _ Hs)). rewrite getZ_setZ by done.
    destruct (decide (sig_symbol_id s - 1 = t - 1)) as [E | E].
    + assert (sig_symbol_id s = t) as <- by lia. rewrite bool_decide_true by done. simpl. f_equal. apply u32_id. mlia.
    + rewrite bool_decide_false by lia. simpl. rewrite Z.add_0_r. by apply Hper.
  - intros t d a Htr Hdn. simpl. rewrite getZ_setZ by done. rewrite Ho.
    destruct (decide (active_index (sig_symbol_id s - 1) (sig_side s) = active_index (t - 1) d)) as [E | E].
    + intros [= <-] _. apply active_index_inj in E as [Es <-]; [| done | done]. exists (info_of s now h).
      simpl. rewrite lookup_insert_eq. split; [done |]. split; [lia | done].
    + intros Ha Har. destruct (Hact t d a Htr Hdn Ha Har) as (i & Hi & ? & ?). exists i. split; [| done].
      apply lookup_insert_Some. right. split; [| done]. intros E'. rewrite <- E', Hfresh in Hi. done.
  - simpl. lia.
Qed.

Lemma place_order_spec o s now :
  core o → timers_ok o [] → signal_ok o s → outstanding_count_ o < max_outstanding (ctx_ o) → 1 <= tokens_ o →
  next_order_id_ o + 1 < 2 ^ 64 →
  ∃ o' out, place_order ndebug o s (u32 (sig_symbol_id s - 1)) now = Some (o', out) ∧
    core o' ∧ timers_ok o' [] ∧ same_limits o o' ∧ net_position (ctx_ o') = net_position (ctx_ o) ∧
    kill_switch_state_ o' = kill_switch_state_ o ∧ counters_ o' = counters_ o ∧
    next_order_id_ o' = next_order_id_ o + 1 ∧ last_refill_ts_ o' = last_refill_ts_ o ∧
    last_advance_ns_ o' = last_advance_ns_ o ∧ placed o s now o' out.
Proof.
  intros Hcore Htm Hsig Hroom Htk Hnext. pose proof Hcore as [Hc Ht Hw Hcnt Hlim Hnx Hinfo Hper Hact Htok Hclk].
  pose proof (c_timeout _ Hc) as Hdl. fold (delay_of o) in Hdl. pose proof (size_timers o Htm) as Hsz.
  pose proof (rest_schedule ndebug (timeout_wheel_ o) tt (next_order_id_ o) (delay_of o) Hw Hdl) as Hsch.
  rewrite bool_decide_true in Hsch by (pose proof (c_timers _ Hc); unfold timers in Hsz; lia).
  destruct Hsch as (w & h & Es & Hw1 & Hh & Hh0 & Hno & Hp & Hws & Hmt).
  assert (orders o !! next_order_id_ o = None) as Hfresh.
  { destruct (orders o !! next_order_id_ o) as [i |] eqn:E; [| done]. destruct (Hinfo _ _ E) as (? & _). lia. }
  destruct (rest_dims ndebug (timeout_wheel_ o) Hw) as [Hwd _].
  unfold place_order. rewrite (u64_id (next_order_id_ o + 1)) by mlia. simpl (order_timeout_ns_ _). fold (delay_of o).
  rewrite (u64_id (delay_of o)) by mlia. simpl (timeout_wheel_ _). rewrite Es. cbn [mbind option_bind].
  fold (info_of s now h).
  destruct (tbl_insert_spec (outstanding_ o) (next_order_id_ o) (info_of s now h) Ht) as (m & b & Ei & Hwf & Hb).
  simpl (outstanding_ _). rewrite Ei. cbn [mbind option_bind]. destruct b; cbn [negb].
  - destruct Hb as [_ Hm]. pose proof (core_wheel ndebug o w Hcore Hw1 Hmt Hws) as Hcore1.
    destruct (core_insert (with_wheel o w) s now h m Hcore1 Hsig Hroom Htk Hnext Hh Hwf Hm Hfresh)
      as (o' & E & Hc' & Hsl & Ho & Hwh & Hnp & Hk & Hcn & Hn & Htok' & Hlr & Hla & Hac).
    exists o', (Some (order_of o s now)). split.
    { apply bind_inv in E as (o1 & E1 & E). apply bind_inv in E as (acts & E2 & E). simpl in E.
      change (with_map (with_wheel (with_next_order_id o (next_order_id_ o + 1)) w) m
        (u32 (outstanding_count_ (with_wheel (with_next_order_id o (next_order_id_ o + 1)) w) + 1)))
        with (with_map (with_next_order_id (with_wheel o w) (next_order_id_ o + 1)) m (u32 (outstanding_count_ o + 1))).
      simpl in E1. rewrite E1. cbn [mbind option_bind]. fold (slot_of o s). change (slot_of (with_wheel o w) s) with (slot_of o s) in E2.
      rewrite E2. cbn [mbind option_bind]. by injection E as <-. }
    split; [done |]. assert (timers o' = <[h := (delay_of o, tt, next_order_id_ o)]> (timers o)) as Htm'.
    { unfold timers. rewrite Hwh. exact Hp. }
    assert (orders o' = <[next_order_id_ o := info_of s now h]> (orders o)) as Hor by (unfold orders at 1; by rewrite Ho).
    split.
    { destruct Htm as [Ha Hb]. unfold timers_ok. rewrite Htm', Hor. split.
      - intros h' v [[<- <-] | [Hne Hv]]%lookup_insert_Some.
        + exists (info_of s now h). simpl. rewrite lookup_insert_eq. split; [done |]. split; [done | apply not_elem_of_nil].
        + destruct (Ha h' v Hv) as (i & Hi & ? & ?). exists i. split; [| done]. apply lookup_insert_Some. right.
          split; [| done]. intros E'. rewrite <- E', Hfresh in Hi. done.
      - intros k i [[<- <-] | [Hne Hk']]%lookup_insert_Some _.
        + exists (delay_of o). simpl. apply lookup_insert_eq.
        + destruct (Hb k i Hk') as [d Hd]; [apply not_elem_of_nil |]. exists d. apply lookup_insert_Some. right.
          split; [| done]. intros E'. unfold timers in Hd. rewrite <- E', Hno in Hd. done. }
    do 7 (split; [done |]). split; [done |]. exists h. split; [by apply not_elem_of_dom |]. done.
  - subst m. assert (is_Some (pending w !! h)) as Hsome by (rewrite Hp, lookup_insert_eq; by eexists).
    destruct (rest_cancel ndebug w h Hw1 Hh) as (w2 & E2 & Hw2 & Hp2 & Hws2 & Hmt2).
    simpl (timeout_wheel_ _). rewrite E2. cbn [mbind option_bind]. eexists _, None. split; [done |]. simpl (outstanding_count_ _).
    set (o' := with_wheel _ _).
    assert (timers o' = timers o) as Htm'.
    { unfold timers. simpl. rewrite Hp2, Hp, delete_insert_id; done. }
    assert (orders o' = orders o) as Hor by done.
    split.
    { split; try done; simpl; try lia.
      - eapply config_frame; [exact Hc | done |]. repeat split; simpl; congruence.
      - intros k i Hk. destruct (Hinfo k i Hk) as [Hkr Hrest]. split; [lia | exact Hrest]. }
    split; [by eapply timers_ok_frame |]. do 7 (split; [done |]). do 4 (split; [done |]). split; [done | by exists h].
Qed.

(** * The checks *)

(** The bucket after its refill, and the time of that refill. *)
Definition refilled o (now : Z) : Z * Z :=
  let n := u32 (Z.quot (now - last_refill_ts_ o) (refill_interval_ns_ o)) in
  if bool_decide (now - last_refill_ts_ o >= refill_interval_ns_ o)
  then (Z.min (u32 (tokens_ o + n)) (bucket_capacity_ o), last_refill_ts_ o + n * refill_interval_ns_ o)
  else (tokens_ o, last_refill_ts_ o).

Lemma refill_spec o now :
  core o → 0 <= now < 2 ^ 63 →
  refill o now = Some (with_tokens o (refilled o now).1 (refilled o now).2) ∧
  0 <= (refilled o now).1 <= bucket_capacity_ o ∧ 0 <= (refilled o now).2 < 2 ^ 63.
Proof.
  intros Hc Hn. destruct (v_clock _ _ Hc) as [Hr _]. pose proof (v_tokens _ _ Hc) as Ht.
  pose proof (c_refill _ (v_config _ _ Hc)) as Hi. pose proof (c_bucket _ (v_config _ _ Hc)) as Hb.
  unfold refill, refilled. rewrite check_s64_ok by mlia. cbn [mbind option_bind].
  destruct (bool_decide_reflect (now - last_refill_ts_ o >= refill_interval_ns_ o)) as [Hge | Hlt].
  - rewrite bool_decide_false by lia. set (q := Z.quot _ _).
    assert (0 <= q ∧ q * refill_interval_ns_ o <= now - last_refill_ts_ o) as [Hq0 Hq].
    { unfold q. rewrite Z.quot_div_nonneg by lia. split; [apply Z.div_pos; lia |]. rewrite Z.mul_comm. apply Z.mul_div_le. lia. }
    assert (0 <= u32 q <= q) as Hu by (unfold u32; split; [apply Z.mod_pos_bound; lia | apply Z.mod_le; lia]).
    assert (0 <= u32 q * refill_interval_ns_ o <= now - last_refill_ts_ o) as Hadv by nia.
    rewrite !check_s64_ok by mlia. cbn [mbind option_bind]. rewrite check_s64_ok by mlia. cbn [mbind option_bind fst snd].
    split; [done |]. pose proof (u32_range (tokens_ o + u32 q)) as Hur. unfold is_u32 in Hur. lia.
  - split; [by destruct o | simpl; lia].
Qed.

Definition projected o s : Z :=
  let p := default 0 ((net_position (ctx_ o)).[sig_symbol_id s - 1]) in
  if bool_decide (sig_side s = kBid) then p + sig_qty s else p - sig_qty s.

(** The first check, in the documented order, that a signal fails. *)
Definition verdict o s (now : Z) : option RiskCheck :=
  if bool_decide (kill_switch_state_ o ≠ kNormal) then Some rcKillSwitch
  else if bool_decide (Z.of_nat (size (orders o)) >= max_outstanding (ctx_ o)) then Some rcOutstanding
  else if bool_decide (symbol_count (orders o) (sig_symbol_id s) >= max_outstanding_per_symbol (ctx_ o))
  then Some rcPerSymbol
  else if bool_decide (sig_qty s > max_order_size_ o) then Some rcSize
  else if bool_decide (sig_price s * sig_qty s > max_notional_ o) then Some rcNotional
  else if bool_decide ((refilled o now).1 = 0) then Some rcRate
  else if bool_decide (Z.abs (projected o s) > max_position_ o) then Some rcPosition
  else None.

(** The arithmetic of the checks stays within its type. *)
Definition signal_fits o s : Prop :=
  is_s64 (sig_price s * sig_qty s) ∧ is_s64 (projected o s) ∧ is_s64 (- projected o s) ∧
  next_order_id_ o + 1 < 2 ^ 64.

(** The part of the state a refused signal may change: its counter and, once
    the rate check is reached, the bucket. *)
Definition refused o (r : RiskCheck) (now : Z) : Manager :=
  let o := match r with
           | rcRate | rcPosition => with_tokens o (refilled o now).1 (refilled o now).2
           | _ => o
           end in
  with_counters o (count_risk (counters_ o) r).

Lemma on_signal_spec o s now_rate now_send :
  inv o → signal_ok o s → signal_fits o s → 0 <= now_rate < 2 ^ 63 →
  match verdict o s now_rate with
  | Some r => on_signal ndebug o s now_rate now_send = Some (refused o r now_rate, None)
  | None => on_signal ndebug o s now_rate now_send
            = place_order ndebug (with_tokens o (refilled o now_rate).1 (refilled o now_rate).2) s
                (u32 (sig_symbol_id s - 1)) now_send ∧
            kill_switch_state_ o = kNormal ∧ outstanding_count_ o < max_outstanding (ctx_ o) ∧
            1 <= (refilled o now_rate).1
  end.
Proof.
  intros [Hc _] (Hs & Hd & _ & Hq) (Hnot & Hproj & Hneg & Hnext) Hnow.
  pose proof (c_symbols _ (v_config _ _ Hc)) as Hms.
  destruct (refill_spec o now_rate Hc Hnow) as (Er & Ht & _).
  unfold verdict, on_signal. destruct (bool_decide_reflect (kill_switch_state_ o = kNormal)) as [Hk | Hk]; cbn [negb].
  2: { by rewrite bool_decide_true. }
  rewrite (bool_decide_false (kill_switch_state_ o ≠ kNormal)) by (intros Hn; by apply Hn).
  rewrite (v_count _ _ Hc).
  destruct (bool_decide_reflect (Z.of_nat (size (orders o)) >= max_outstanding (ctx_ o))) as [Hf | Hroom]; [done |].
  rewrite (u32_id (sig_symbol_id s - 1)) by mlia. rewrite (v_per_symbol _ _ Hc _ Hs). cbn [mbind option_bind].
  destruct (bool_decide_reflect (symbol_count (orders o) (sig_symbol_id s) >= max_outstanding_per_symbol (ctx_ o))); [done |].
  destruct (bool_decide_reflect (sig_qty s > max_order_size_ o)); [done |].
  rewrite check_s64_ok by done. cbn [mbind option_bind].
  destruct (bool_decide_reflect (sig_price s * sig_qty s > max_notional_ o)); [done |].
  rewrite Er. cbn [mbind option_bind]. simpl (tokens_ _).
  destruct (bool_decide_reflect ((refilled o now_rate).1 = 0)) as [Hz | Hz]; [done |].
  simpl (net_position _). destruct (getZ_is_Some (net_position (ctx_ o)) (sig_symbol_id s - 1)) as [p Hp].
  { rewrite (c_positions _ (v_config _ _ Hc)). lia. }
  unfold projected in *. rewrite Hp in *. cbn [mbind option_bind default from_option] in *.
  rewrite check_s64_ok by done. cbn [mbind option_bind]. set (pr := if bool_decide (sig_side s = kBid) then _ else _) in *.
  assert ((if bool_decide (pr < 0) then check_s64 (- pr) else Some pr) = Some (Z.abs pr)) as ->.
  { case_bool_decide; [rewrite check_s64_ok by done |]; f_equal; lia. }
  cbn [mbind option_bind]. simpl (max_position_ _).
  destruct (bool_decide_reflect (Z.abs pr > max_position_ o)); [done |].
  split; [done |]. split; [done |]. split; lia.
Qed.

(** * Modify or new *)

(** A modification is sent exactly when the switch is untouched and the slot
    of the symbol and side rests at another price; it names a tracked order of
    that symbol and side. *)
Lemma check_modify_spec o s now :
  inv o → signal_ok o s →
  ∃ a o' out, (active_orders (ctx_ o)).[active_index (sig_symbol_id s - 1) (sig_side s)] = Some a ∧
    check_modify o s now = Some (o', out) ∧ inv o' ∧ orders o' = orders o ∧ timers o' = timers o ∧
    same_limits o o' ∧ net_position (ctx_ o') = net_position (ctx_ o) ∧
    kill_switch_state_ o' = kill_switch_state_ o ∧ next_order_id_ o' = next_order_id_ o ∧
    if bool_decide (kill_switch_state_ o = kNormal) && ao_resting a && negb (bool_decide (ao_price a = sig_price s))
    then out = Some {| mo_client_order_id := ao_client_order_id a; mo_symbol_id := sig_symbol_id s;
                       mo_new_price := sig_price s; mo_new_qty := sig_qty s; mo_send_ts := now |} ∧
         (∃ i, orders o !! ao_client_order_id a = Some i ∧ oi_symbol_id i = sig_symbol_id s ∧ oi_side i = sig_side s)
    else out = None ∧ o' = o.
Proof.
  intros Hinv (Hs & Hd & Hpr & Hq). pose proof Hinv as [Hc Hk]. pose proof (c_symbols _ (v_config _ _ Hc)) as Hms.
  pose proof (active_index_range o _ _ (v_config _ _ Hc) Hs Hd) as Hai.
  destruct (getZ_is_Some _ _ Hai) as [a Ha]. exists a. unfold check_modify.
  rewrite (u32_id (sig_symbol_id s - 1)) by mlia.
  destruct (bool_decide_reflect (kill_switch_state_ o = kNormal)) as [Hn | Hn]; cbn [negb andb]; [| by exists o, None].
  rewrite Ha. cbn [mbind option_bind]. destruct (ao_resting a) eqn:Har; cbn [negb andb]; [| by exists o, None].
  destruct (bool_decide_reflect (ao_price a = sig_price s)) as [Hp | Hp]; cbn [negb]; [by exists o, None |].
  rewrite storeZ_Some by done. cbn [mbind option_bind]. eexists _, _. split; [done |]. split; [done |].
  set (o' := with_counters _ _). destruct (v_active _ _ Hc _ _ _ Hs Hd Ha Har) as (i & Hi & Es & Ed).
  split; [| do 7 (split; [done |]); by exists i].
  split; [| exact Hk]. destruct Hc as [Hcf Ht Hw Hcnt Hlim Hnx Hinfo Hper Hact Htok Hclk]. split; try done.
  - eapply config_frame; [exact Hcf | done |]. repeat split; simpl; by rewrite length_setZ.
  - intros t d b Htr Hdn. simpl. rewrite getZ_setZ by done.
    destruct (decide (active_index (sig_symbol_id s - 1) (sig_side s) = active_index (t - 1) d)) as [E | E]; [| by apply Hact].
    intros [= <-] _. apply active_index_inj in E as [E <-]; [| done | done]. exists i. simpl.
    split; [done |]. split; [lia | done].
Qed.
End Signal.
End OMSignal.
