(* ===== verification/OrderManagerResponses.v ===== *)
(** The exchange's responses, the kill switch and the timeout pass of the
    order manager, against the invariant of [OrderManagerSpec.v].

    The two passes of the order manager over all its orders: the kill switch
    and the timeout pass. *)
From S2P Require Import Prelude.
From S2P Require Import TableInterface.
From S2P Require Import TimingWheel.
From S2P Require Import TimingWheelSpec.
From S2P Require Import TimingWheelTick.
From S2P Require Import TradingTypes.
From S2P Require Import Protocol.
From S2P Require Import OrderManager.
From S2P Require Import OrderManagerSpec.
Local Open Scope Z_scope.
Local Open Scope array_scope.

Module OMResp.
Import OMgr TWOps TWTick TWService OMSpec OMSignal.

(** * Batches of cancellations *)

Definition cancel_of (now : Z) (kv : Z * OrderInfo) : CancelOrder :=
  {| co_client_order_id := kv.1; co_symbol_id := oi_symbol_id kv.2; co_send_ts := now |}.

Lemma take_snoc_set {A : Type} (l : list A) (n : Z) x :
  0 <= n < lenZ l → take (Z.to_nat (n + 1)) (l.[n <- x]) = take (Z.to_nat n) l ++ [x].
Proof.
  intros Hn. replace (Z.to_nat (n + 1)) with (S (Z.to_nat n)) by lia.
  rewrite (take_S_r _ _ x); [| apply list_lookup_insert_eq; lia]. f_equal. apply take_insert_ge. lia.
Qed.

(** A batch holds [done] in its first [batch.2] elements. *)
Definition holds {A : Type} (batch : list A * Z) (len : nat) (filled : list A) : Prop :=
  length batch.1 = len ∧ batch.2 = lenZ filled ∧ take (Z.to_nat batch.2) batch.1 = filled ∧ lenZ filled <= Z.of_nat len.

Lemma holds_snoc {A : Type} (l : list A) (len : nat) filled x :
  holds (l, lenZ filled) len filled → lenZ filled < Z.of_nat len →
  storeZ l (lenZ filled) x = Some (l.[lenZ filled <- x]) ∧ holds (l.[lenZ filled <- x], lenZ filled + 1) len (filled ++ [x]).
Proof.
  intros (Hl & _ & Ht & _) Hlt. simpl in *. rewrite storeZ_Some by lia. split; [done |].
  unfold holds. cbn [fst snd]. rewrite length_setZ, length_app, take_snoc_set, Ht by lia. simpl length.
  repeat split; (done || lia).
Qed.

Lemma push_cancel_holds batch limit filled c :
  holds batch (Z.to_nat limit) filled → lenZ filled < limit < 2 ^ 32 →
  ∃ batch', push_cancel limit batch c = Some batch' ∧ holds batch' (Z.to_nat limit) (filled ++ [c]).
Proof.
  intros Hb Hlt. destruct batch as [l n]. pose proof Hb as (_ & Hn & _ & _). simpl in Hn. subst n.
  unfold push_cancel. cbn [fst snd]. rewrite bool_decide_true by lia.
  destruct (holds_snoc l _ filled c Hb) as [-> Hb']; [lia |]. cbn [mbind option_bind].
  rewrite u32_id by mlia. eexists. split; [done | exact Hb'].
Qed.

Section Responses.
Context (ndebug : bool) {M : Type} `{TM : Table Z OrderInfo M} `{TI : TableIter Z OrderInfo M} `{TR : TableRebuild M}.
Context {TL : TableLaws Z OrderInfo M} {TIL : TableIterLaws Z OrderInfo M}.
Abbreviation Manager := (OrderManager M).
Abbreviation core := (core ndebug (M := M)).
Abbreviation inv := (inv ndebug (M := M)).
Implicit Types (o : Manager).

(** * Responses *)

Lemma kill_timers o : kill_ok o → timers_ok o [] ∨ timers o = ∅.
Proof. unfold kill_ok. destruct (kill_switch_state_ o); intros Hk; [by left | done | right; apply Hk | right; apply Hk]. Qed.

Lemma kill_ok_rest o o' :
  kill_ok o → kill_switch_state_ o' = kill_switch_state_ o → pending_cancel_count_ o' = pending_cancel_count_ o →
  (timers_ok o [] → timers_ok o' []) → (timers o = ∅ → timers o' = ∅) → kill_ok o'.
Proof. unfold kill_ok. intros Hk -> -> H1 H2. destruct (kill_switch_state_ o); naive_solver. Qed.

Lemma retire_inv o k i :
  inv o → orders o !! k = Some i →
  ∃ o', retire ndebug o k (Some i) = Some o' ∧ inv o' ∧ orders o' = delete k (orders o) ∧ same_rest o o'.
Proof.
  intros [Hc Hk] Hi. destruct (retire_known ndebug o k i Hc (kill_timers o Hk) Hi) as (o' & E & Hc' & Ho & Hsr & H1 & H2).
  exists o'. split; [done |]. split; [| done]. split; [done |].
  destruct Hsr as (_ & _ & Hks & Hpc & _). by eapply kill_ok_rest.
Qed.

Lemma inv_counters o c : inv o → inv (with_counters o c).
Proof. intros [Hc Hk]. split; [by apply core_counters | exact Hk]. Qed.

Lemma tracked_order o k : core o → tbl_find (outstanding_ o) k = Some (orders o !! k).
Proof. intros Hc. apply tbl_find_spec, Hc. Qed.

(** A response that ends a tracked order; [n] is what it adds to the
    counters. *)
Definition ended o (k : Z) o' (c : Counters) : Prop :=
  inv o' ∧ orders o' = delete k (orders o) ∧ same_limits o o' ∧ net_position (ctx_ o') = net_position (ctx_ o) ∧
  outstanding_count_ o' = outstanding_count_ o - 1 ∧ counters_ o' = c ∧ next_order_id_ o' = next_order_id_ o.

Lemma count_delete o o' k i :
  core o → core o' → orders o !! k = Some i → orders o' = delete k (orders o) →
  outstanding_count_ o' = outstanding_count_ o - 1.
Proof.
  intros Hc Hc' Hi Ho. rewrite (v_count _ _ Hc), (v_count _ _ Hc'), Ho, map_size_delete, Hi. simpl.
  assert (size (orders o) ≠ 0%nat) by (intros E%map_size_empty_inv; by rewrite E in Hi). lia.
Qed.

Lemma on_order_reject_known o r i :
  inv o → orders o !! or_client_order_id r = Some i →
  ∃ o', on_order_reject ndebug o r = Some o' ∧ kill_switch_state_ o' = kill_switch_state_ o ∧
    ended o (or_client_order_id r) o' (add_counts (counters_ o) 0 1 0 0 0 0 0 0).
Proof.
  intros Hinv Hi. destruct (retire_inv o _ i Hinv Hi) as (o' & E & Hinv' & Ho & Hl & Hp & Hk & Hpc & Hcn & Hnx & _).
  exists (with_counters o' (add_counts (counters_ o') 0 1 0 0 0 0 0 0)). unfold on_order_reject.
  rewrite (tracked_order o) by apply Hinv. cbn [mbind option_bind]. rewrite Hi, E. cbn [mbind option_bind].
  split; [done |]. split; [done |]. split; [by apply inv_counters |].
  pose proof (count_delete o o' _ i (proj1 Hinv) (proj1 Hinv') Hi Ho). simpl. rewrite Hcn. by split_and!.
Qed.

(** A cancel response during the drain: one fewer to wait for. *)
Definition drained (st : KillSwitchState) (n : Z) : KillSwitchState * Z :=
  match st with
  | kDraining => if bool_decide (n = 1) then (kComplete, 0) else (kDraining, n - 1)
  | _ => (st, n)
  end.

Lemma drain_spec o :
  inv o → inv (check_drain_complete o) ∧
    check_drain_complete o = with_kill o (drained (kill_switch_state_ o) (pending_cancel_count_ o)).1
                                         (drained (kill_switch_state_ o) (pending_cancel_count_ o)).2.
Proof.
  intros [Hc Hk].
  assert (check_drain_complete o = with_kill o (drained (kill_switch_state_ o) (pending_cancel_count_ o)).1
    (drained (kill_switch_state_ o) (pending_cancel_count_ o)).2) as E.
  { unfold check_drain_complete, drained, kill_ok in *.
    destruct (kill_switch_state_ o) eqn:Es; cbn [fst snd]; try (rewrite bool_decide_false by done; rewrite <- Es; by destruct o).
    rewrite bool_decide_true by done. destruct Hk as [_ Hp]. rewrite (bool_decide_true (_ > 0)) by lia.
    destruct (bool_decide_reflect (pending_cancel_count_ o = 1)) as [-> | Hne]; [done |].
    rewrite bool_decide_false by lia. done. }
  split; [| done]. rewrite E. split; [by apply core_kill |]. unfold kill_ok, drained in *.
  destruct (kill_switch_state_ o); cbn [fst snd]; try done.
  destruct Hk as [Ht Hp]. case_bool_decide; simpl; split; (done || lia).
Qed.

(** What a cancel response leaves of the switch. *)
Definition drain_step o o' : Prop :=
  (kill_switch_state_ o', pending_cancel_count_ o') = drained (kill_switch_state_ o) (pending_cancel_count_ o).

Lemma cancel_known o k i :
  inv o → orders o !! k = Some i →
  ∃ o', (o1 ← retire ndebug o k (Some i); Some (check_drain_complete o1)) = Some o' ∧
    ended o k o' (counters_ o) ∧ drain_step o o'.
Proof.
  intros Hinv Hi. destruct (retire_inv o k i Hinv Hi) as (o' & E & Hinv' & Ho & Hl & Hp & Hk & Hpc & Hcn & Hnx & _).
  destruct (drain_spec o' Hinv') as [Hinv2 E2]. exists (check_drain_complete o').
  rewrite E. cbn [mbind option_bind]. split; [done |]. split.
  - split; [done |]. rewrite E2. pose proof (count_delete o o' k i (proj1 Hinv) (proj1 Hinv') Hi Ho). by split_and!.
  - unfold drain_step. rewrite E2, Hk, Hpc. simpl. by rewrite <- surjective_pairing.
Qed.

Lemma on_cancel_ack_known o a i :
  inv o → orders o !! ca_client_order_id a = Some i →
  ∃ o', on_cancel_ack ndebug o a = Some o' ∧ ended o (ca_client_order_id a) o' (counters_ o) ∧ drain_step o o'.
Proof.
  intros Hinv Hi. destruct (cancel_known o _ i Hinv Hi) as (o' & E & H). exists o'. split; [| done].
  unfold on_cancel_ack. rewrite (tracked_order o) by apply Hinv. cbn [mbind option_bind]. by rewrite Hi.
Qed.

(** The acknowledgement of a cancellation for an order that is not tracked
    lowers the counter all the same, and with it may clear the table. *)
Lemma on_cancel_ack_unknown o a :
  core o → orders o !! ca_client_order_id a = None →
  ∃ o', on_cancel_ack ndebug o a = Some o' ∧ outstanding_count_ o' = Z.max 0 (Z.of_nat (size (orders o)) - 1) ∧
    (orders o' = orders o ∨ orders o' = ∅ ∧ outstanding_count_ o' = 0) ∧
    ctx_ o' = ctx_ o.
Proof.
  intros Hc Hk. destruct (retire_unknown ndebug o _ Hc Hk) as (m & Em & Hm & E). unfold on_cancel_ack.
  rewrite (tracked_order o) by done. cbn [mbind option_bind]. rewrite Hk, E. cbn [mbind option_bind]. eexists. split; [reflexivity |].
  pose proof (v_count _ _ Hc) as Hcnt. set (n := if bool_decide (outstanding_count_ o > 0) then _ else _).
  assert (n = Z.max 0 (Z.of_nat (size (orders o)) - 1)) as Hn by (unfold n; case_bool_decide; lia). rewrite <- Hn.
  assert (tbl_wf m) as Hwf by (destruct (tbl_erase_spec _ (ca_client_order_id a) (v_table _ _ Hc)) as (m' & Em' & Hw & _); congruence).
  set (p := with_map o m n). assert (∀ q : Manager, outstanding_count_ (check_drain_complete q) = outstanding_count_ q ∧
    outstanding_ (check_drain_complete q) = outstanding_ q ∧ ctx_ (check_drain_complete q) = ctx_ q) as Hd.
  { intros q. unfold check_drain_complete. by destruct (bool_decide (kill_switch_state_ q = kDraining)). }
  destruct (Hd (maybe_compact_outstanding p)) as (D1 & D2 & D3). unfold orders in *. rewrite D1, D2, D3.
  unfold maybe_compact_outstanding. change (outstanding_count_ p) with n. change (outstanding_ p) with m.
  destruct (bool_decide_reflect (n = 0)) as [Hz | _], (tbl_needs_rebuild m); cbn [andb]; try (by split; [| split; [left |]]).
  split; [done |]. split; [| done]. right. split; [apply (tbl_clear_spec m Hwf) | done].
Qed.

(** A cancel reject is harmless for any id: an unknown order changes
    nothing but the drain. *)
Lemma on_cancel_reject_spec o r :
  inv o →
  ∃ o', on_cancel_reject ndebug o r = Some o' ∧ inv o' ∧ orders o' = delete (cr_client_order_id r) (orders o) ∧
    same_limits o o' ∧ net_position (ctx_ o') = net_position (ctx_ o) ∧ counters_ o' = counters_ o ∧
    next_order_id_ o' = next_order_id_ o ∧ drain_step o o'.
Proof.
  intros Hinv. unfold on_cancel_reject. rewrite (tracked_order o) by apply Hinv. cbn [mbind option_bind].
  destruct (orders o !! cr_client_order_id r) as [i |] eqn:Hi.
  - destruct (cancel_known o _ i Hinv Hi) as (o' & E & (Hinv' & Ho & Hl & Hp & _ & Hc & Hn) & Hd). by exists o'.
  - cbn [mbind option_bind]. destruct (drain_spec o Hinv) as [Hinv2 E2]. exists (check_drain_complete o).
    split; [done |]. split; [done |]. split; [by rewrite delete_id, E2 |]. rewrite E2. do 4 (split; [done |]).
    unfold drain_step. simpl. by rewrite <- surjective_pairing.
Qed.

Lemma on_modify_reject_spec o r :
  inv o →
  ∃ o', on_modify_reject o r = Some o' ∧ inv o' ∧ orders o' = orders o ∧ same_limits o o' ∧
    net_position (ctx_ o') = net_position (ctx_ o) ∧ kill_switch_state_ o' = kill_switch_state_ o ∧
    next_order_id_ o' = next_order_id_ o ∧
    (∀ a j, (active_orders (ctx_ o')).[j] = Some a → ao_resting a = true → ao_client_order_id a ≠ mr_client_order_id r).
Proof.
  intros Hinv. pose proof Hinv as [Hc Hk]. pose proof Hc as [Hcf Ht Hw Hcnt Hlim Hnx Hinfo Hper Hact Htok Hclk].
  (* every resting slot is the slot of its order's symbol and side *)
  assert (∀ j a, (active_orders (ctx_ o)).[j] = Some a → ao_resting a = true →
    ∃ i, orders o !! ao_client_order_id a = Some i ∧ j = active_index (oi_symbol_id i - 1) (oi_side i)) as Hslot.
  { intros j a Ha Har. pose proof (getZ_Some _ _ _ Ha) as Hj. rewrite (c_active _ Hcf) in Hj. unfold kSideCount in Hj.
    assert (∃ s d, 1 <= s <= max_symbols (ctx_ o) ∧ d ≠ kCount ∧ j = active_index (s - 1) d) as (s & d & Hs & Hd & ->).
    { unfold active_index, kSideCount. exists (j / 2 + 1). pose proof (Z.div_mod j 2 ltac:(lia)).
      pose proof (Z.mod_pos_bound j 2 ltac:(lia)). destruct (decide (j mod 2 = 0)) as [E | E].
      - exists kBid. split; [Z.div_mod_to_equations; lia |]. split; [done |]. simpl. lia.
      - exists kAsk. split; [Z.div_mod_to_equations; lia |]. split; [done |]. simpl. lia. }
    destruct (Hact s d a Hs Hd Ha Har) as (i & Hi & <- & <-). by exists i. }
  unfold on_modify_reject. rewrite (tracked_order o) by done. cbn [mbind option_bind].
  destruct (orders o !! mr_client_order_id r) as [i |] eqn:Hi.
  - destruct (Hinfo _ i Hi) as (_ & Hs & Hd & _).
    destruct (clear_active_spec o (oi_symbol_id i) (oi_side i) (mr_client_order_id r) Hcf Hs Hd) as (acts & -> & Hl & Ha).
    cbn [mbind option_bind]. eexists. split; [done |]. set (o' := with_counters _ _).
    split; [| do 5 (split; [done |])].
    + split; [| exact Hk]. split; try done; [by eapply config_frame |].
      intros s d a Hsr Hdn Haj Har. destruct (Ha _ _ Haj Har) as [Haj' _]. by apply (Hact s d a).
    + intros a j Haj Har E. destruct (Ha j a Haj Har) as [Haj' Hne]. destruct (Hslot j a Haj' Har) as (i' & Hi' & ->).
      rewrite E, Hi in Hi'. injection Hi' as <-. by apply Hne.
  - cbn [mbind option_bind]. eexists. split; [done |]. split; [by apply inv_counters |]. do 5 (split; [done |]).
    intros a j Haj Har E. destruct (Hslot j a Haj Har) as (i' & Hi' & _). congruence.
Qed.

(** * Fills *)

Definition signed_fill (i : OrderInfo) (f : FillReport) : Z :=
  if bool_decide (oi_side i = kBid) then fr_fill_qty f else - fr_fill_qty f.

(** A fill of a tracked order moves the position of its symbol, and of no
    other, by the signed quantity; the last fill ends the order. *)
Lemma on_fill_known o f i p :
  inv o → orders o !! fr_client_order_id f = Some i →
  (net_position (ctx_ o)).[oi_symbol_id i - 1] = Some p → is_s64 (p + signed_fill i f) →
  ∃ o', on_fill ndebug o f = Some o' ∧ inv o' ∧
    net_position (ctx_ o') = (net_position (ctx_ o)).[oi_symbol_id i - 1 <- p + signed_fill i f] ∧
    orders o' = (if bool_decide (fr_remaining_qty f = 0) then delete (fr_client_order_id f) (orders o) else orders o) ∧
    same_limits o o' ∧ kill_switch_state_ o' = kill_switch_state_ o ∧
    counters_ o' = add_counts (counters_ o) 0 0 1 (fr_fill_qty f) 0 0 0 0 ∧ next_order_id_ o' = next_order_id_ o.
Proof.
  intros Hinv Hi Hp Hs. pose proof Hinv as [Hc Hk]. destruct (v_info _ _ Hc _ i Hi) as (_ & Hsym & _).
  pose proof (c_symbols _ (v_config _ _ Hc)) as Hms. pose proof (getZ_Some _ _ _ Hp) as Hpr.
  unfold on_fill. rewrite (tracked_order o) by done. cbn [mbind option_bind]. rewrite Hi. cbn [mbind option_bind].
  rewrite (u32_id (oi_symbol_id i - 1)) by mlia. rewrite (bool_decide_true (_ < _)) by lia. rewrite Hp. cbn [mbind option_bind].
  assert ((if bool_decide (oi_side i = kBid) then p + fr_fill_qty f else p - fr_fill_qty f) = p + signed_fill i f) as ->.
  { unfold signed_fill. case_bool_decide; lia. }
  rewrite check_s64_ok by done. cbn [mbind option_bind]. rewrite storeZ_Some by done. cbn [mbind option_bind].
  set (o1 := with_ctx o _). assert (inv o1) as Hinv1.
  { split; [apply core_positions; [done | apply length_setZ] | exact Hk]. }
  destruct (bool_decide (fr_remaining_qty f = 0)).
  - destruct (retire_inv o1 _ i Hinv1 Hi) as (o2 & E & Hinv2 & Ho & Hl & Hnp & Hks & Hpc & Hcn & Hnx & _).
    rewrite E. cbn [mbind option_bind]. eexists. split; [done |]. split; [by apply inv_counters |].
    split_and!; [exact Hnp | exact Ho | exact Hl | exact Hks | simpl; by rewrite Hcn | exact Hnx].
  - cbn [mbind option_bind]. eexists. split; [done |]. split; [by apply inv_counters |]. by split_and!.
Qed.

(** A fill of an order that is not tracked does not move any position. *)
Lemma on_fill_unknown o f :
  inv o → orders o !! fr_client_order_id f = None → fr_remaining_qty f ≠ 0 →
  on_fill ndebug o f = Some (with_counters o (add_counts (counters_ o) 0 0 1 (fr_fill_qty f) 0 0 0 0)).
Proof.
  intros [Hc _] Hn Hr. unfold on_fill. rewrite (tracked_order o) by done. cbn [mbind option_bind]. rewrite Hn.
  cbn [mbind option_bind]. by rewrite bool_decide_false.
Qed.
End Responses.
End OMResp.

Module OMTime.
Import OMgr TWOps TWTick TWService OMSpec OMSignal OMResp.

Section Passes.
Context (ndebug : bool) {M : Type} `{TM : Table Z OrderInfo M} `{TI : TableIter Z OrderInfo M} `{TR : TableRebuild M}.
Context {TL : TableLaws Z OrderInfo M} {TIL : TableIterLaws Z OrderInfo M}.
Abbreviation Manager := (OrderManager M).
Abbreviation core := (core ndebug (M := M)).
Abbreviation inv := (inv ndebug (M := M)).
Implicit Types (o : Manager).

(** * The kill switch *)

Lemma collect_cancels now limit l : ∀ batch filled,
  holds batch (Z.to_nat limit) filled → lenZ filled + lenZ l <= limit < 2 ^ 32 →
  ∃ batch', foldM (λ b k i, push_cancel limit b {| co_client_order_id := k; co_symbol_id := oi_symbol_id i; co_send_ts := now |})
      batch l = Some batch' ∧ holds batch' (Z.to_nat limit) (filled ++ (cancel_of now <$> l)).
Proof.
  induction l as [| kv l IH]; intros batch filled Hb Hl.
  - exists batch. rewrite app_nil_r. done.
  - simpl length in Hl. rewrite foldM_cons.
    destruct (push_cancel_holds batch limit filled (cancel_of now kv) Hb) as (b1 & E1 & Hb1); [lia |].
    change {| co_client_order_id := kv.1; co_symbol_id := _; co_send_ts := now |} with (cancel_of now kv).
    rewrite E1. cbn [mbind option_bind].
    destruct (IH b1 (filled ++ [cancel_of now kv]) Hb1) as (b2 & E2 & Hb2).
    { rewrite length_app. simpl length. lia. }
    exists b2. split; [exact E2 |]. rewrite fmap_cons, cons_middle, app_assoc. exact Hb2.
Qed.

Lemma entries_length o : core o → lenZ (tbl_entries (outstanding_ o)) = outstanding_count_ o.
Proof.
  intros Hc. rewrite (v_count _ _ Hc), (Permutation_length (tbl_entries_spec _ (v_table _ _ Hc))).
  by rewrite length_map_to_list.
Qed.

Lemma trigger_spec o now :
  inv o → kill_switch_state_ o = kNormal →
  ∃ o' n, trigger_kill_switch ndebug o now = Some (o', n) ∧ inv o' ∧ n = outstanding_count_ o ∧
    take (Z.to_nat n) (cancel_buf (ctx_ o')) ≡ₚ cancel_of now <$> map_to_list (orders o) ∧
    orders o' = orders o ∧ timers o' = ∅ ∧ same_limits o o' ∧ net_position (ctx_ o') = net_position (ctx_ o) ∧
    counters_ o' = counters_ o ∧ next_order_id_ o' = next_order_id_ o ∧ pending_cancel_count_ o' = n ∧
    kill_switch_state_ o' = (if bool_decide (n = 0) then kComplete else kDraining).
Proof.
  intros [Hc Hk] Hn. pose proof (c_orders _ (v_config _ _ Hc)) as Hmo. pose proof (v_limit _ _ Hc) as Hlim.
  pose proof (v_count _ _ Hc) as Hcnt. pose proof (entries_length o Hc) as Hlen.
  destruct (collect_cancels now (max_outstanding (ctx_ o)) (tbl_entries (outstanding_ o)) (cancel_buf (ctx_ o), 0) [])
    as ([cb n] & E & Hl & Hnn & Ht & _).
  { pose proof (c_cancels _ (v_config _ _ Hc)). repeat split; simpl; lia. }
  { simpl. lia. }
  simpl in Hl, Hnn, Ht. rewrite length_fmap in Hnn.
  destruct (rest_reset ndebug (timeout_wheel_ o) (v_wheel _ _ Hc)) as (w & Ew & Hw & Hp & _ & Hws & Hmt).
  exists (with_kill (with_wheel (with_ctx o (ctx_buffers (ctx_ o) cb (timeout_ids (ctx_ o)))) w)
            (if bool_decide (n = 0) then kComplete else kDraining) n), n.
  split.
  { unfold trigger_kill_switch. rewrite Hn, bool_decide_true by done. cbn [negb].
    change (outstanding_ (with_kill o kCancelling (pending_cancel_count_ o))) with (outstanding_ o).
    rewrite tbl_for_each_spec.
    change (ctx_ (with_kill o kCancelling (pending_cancel_count_ o))) with (ctx_ o).
    rewrite E. cbn [mbind option_bind]. simpl (timeout_wheel_ _). rewrite Ew. done. }
  assert (core (with_ctx o (ctx_buffers (ctx_ o) cb (timeout_ids (ctx_ o))))) as Hc1.
  { apply core_buffers; [done | | done]. pose proof (c_cancels _ (v_config _ _ Hc)). lia. }
  split; [| split; [lia |]; split; [| split_and!; done]].
  - split; [by apply core_kill, core_wheel |]. unfold kill_ok, timers. simpl.
    case_bool_decide; (split; [done |]); lia.
  - simpl. rewrite Ht. apply fmap_Permutation. apply tbl_entries_spec, Hc.
Qed.

(** A second trigger changes nothing and cancels nothing. *)
Lemma trigger_again o now : kill_switch_state_ o ≠ kNormal → trigger_kill_switch ndebug o now = Some (o, 0).
Proof. intros Hn. unfold trigger_kill_switch. by rewrite bool_decide_false. Qed.

(** * The timeout pass *)

Lemma tick_wheel_ticks n limit : ∀ w world,
  tick_wheel ndebug n limit w world = ticks ndebug (on_order_timeout ndebug limit) n w world.
Proof.
  induction n as [| n IH]; intros w world; [done |]. cbn [tick_wheel ticks].
  change (λ c x w world, world' ← on_order_timeout ndebug limit c x world; Some (w, world'))
    with (call_of (CB := unit) (on_order_timeout ndebug limit)).
  destruct (TW.tick ndebug (call_of (on_order_timeout ndebug limit)) w world) as [[[w' world'] f] |];
    cbn [mbind option_bind]; [apply IH | done].
Qed.

(** The callbacks of a pass append the contexts of the due timers. *)
Lemma run_timeouts limit due : ∀ batch filled,
  holds batch (Z.to_nat limit) filled → lenZ filled + lenZ due <= limit < 2 ^ 32 →
  ∃ batch', run (on_order_timeout ndebug limit) batch due = Some batch' ∧
    holds batch' (Z.to_nat limit) (filled ++ due.*2).
Proof.
  induction due as [| [c x] due IH]; intros batch filled Hb Hl.
  - exists batch. rewrite app_nil_r. done.
  - simpl length in Hl. unfold run. rewrite foldM_cons. cbn [fst snd]. destruct batch as [l n].
    pose proof Hb as (_ & Hn & _ & _). simpl in Hn. subst n.
    destruct (holds_snoc l _ filled x Hb) as [Es Hb1]; [lia |].
    assert (on_order_timeout ndebug limit c x (l, lenZ filled) = Some (l.[lenZ filled <- x], lenZ filled + 1)) as ->.
    { unfold on_order_timeout. cbn [fst snd].
      assert ((if ndebug then Some tt else assertM (bool_decide (lenZ filled < limit))) = Some tt) as ->.
      { destruct ndebug; [done |]. unfold assertM. by rewrite bool_decide_true by lia. }
      cbn [mbind option_bind]. rewrite Es. cbn [mbind option_bind]. by rewrite u32_id by mlia. }
    cbn [mbind option_bind]. destruct (IH _ (filled ++ [x]) Hb1) as (b2 & E2 & Hb2).
    { rewrite length_app. simpl length. lia. }
    exists b2. split; [exact E2 |]. rewrite fmap_cons, cons_middle, app_assoc. exact Hb2.
Qed.

(** The ticks an order's timer has left. *)
Definition remaining o (i : OrderInfo) : Z := (default (0, tt, 0) (timers o !! oi_timer_handle i)).1.1.

Definition due_orders o (n : Z) : gmap Z OrderInfo := filter (λ kv : Z * OrderInfo, remaining o kv.2 <= n) (orders o).
Lemma timer_of_order o k i :
  timers_ok o [] → orders o !! k = Some i → timers o !! oi_timer_handle i = Some (remaining o i, tt, k).
Proof.
  intros [_ Hb] Hi. destruct (Hb k i Hi) as [d Hd]; [apply not_elem_of_nil |]. unfold remaining. by rewrite Hd.
Qed.

Lemma order_of_timer o h v :
  timers_ok o [] → timers o !! h = Some v →
  ∃ i, orders o !! v.2 = Some i ∧ oi_timer_handle i = h ∧ v = (remaining o i, tt, v.2).
Proof.
  intros Htm Hv. destruct (proj1 Htm h v Hv) as (i & Hi & <- & _). exists i. split; [done |]. split; [done |].
  rewrite (timer_of_order o v.2 i Htm Hi) in Hv. congruence.
Qed.

(** The contexts of the due timers name the due orders, each once. *)
Lemma due_ids o n :
  timers_ok o [] →
  (payload_of <$> map_to_list (filter (λ kv, kv.2.1.1 <= n) (timers o))).*2 ≡ₚ (map_to_list (due_orders o n)).*1.
Proof.
  intros Htm. rewrite <- list_fmap_compose. apply NoDup_Permutation; [| apply NoDup_fst_map_to_list |].
  - apply NoDup_fmap_2_strong; [| apply NoDup_map_to_list].
    intros [h v] [h' v'] Hv Hv' E. rewrite elem_of_map_to_list, map_lookup_filter_Some in Hv, Hv'. simpl in E.
    destruct (order_of_timer o h v Htm (proj1 Hv)) as (i & Hi & Hh & _).
    destruct (order_of_timer o h' v' Htm (proj1 Hv')) as (i' & Hi' & Hh' & _).
    rewrite <- E, Hi in Hi'. injection Hi' as <-. assert (h = h') as <- by congruence.
    destruct Hv as [Hv _], Hv' as [Hv' _]. congruence.
  - intros k. rewrite !list_elem_of_fmap. split.
    + intros ([h v] & -> & [Hv Hle]%elem_of_map_to_list%map_lookup_filter_Some). simpl in *.
      destruct (order_of_timer o h v Htm Hv) as (i & Hi & Hh & Ev). exists (v.2, i). split; [done |].
      apply elem_of_map_to_list, map_lookup_filter_Some. split; [done |]. simpl. rewrite Ev in Hle. done.
    + intros ([k' i] & -> & [Hi Hle]%elem_of_map_to_list%map_lookup_filter_Some). simpl in *.
      exists (oi_timer_handle i, (remaining o i, tt, k')). split; [done |].
      apply elem_of_map_to_list, map_lookup_filter_Some. split; [by apply timer_of_order | done].
Qed.

(** After the ticks: the timers of the due orders are gone. *)
Lemma timers_after o o' n :
  timers_ok o [] → orders o' = orders o →
  timers o' = elapse_by n <$> filter (λ kv, n < kv.2.1.1) (timers o) →
  timers_ok o' (map_to_list (due_orders o n)).*1.
Proof.
  intros Htm Ho Ht. assert (∀ k i, orders o !! k = Some i → k ∈ (map_to_list (due_orders o n)).*1 ↔ remaining o i <= n) as Hdue.
  { intros k i Hi. rewrite list_elem_of_fmap. split.
    - intros ([k' i'] & -> & [Hi' Hle]%elem_of_map_to_list%map_lookup_filter_Some). simpl in *. congruence.
    - intros Hle. exists (k, i). split; [done |]. by apply elem_of_map_to_list, map_lookup_filter_Some. }
  unfold timers_ok. rewrite Ho, Ht. split.
  - intros h v. rewrite lookup_fmap_Some. intros (v0 & <- & [Hv Hlt]%map_lookup_filter_Some). simpl in Hlt.
    destruct (order_of_timer o h v0 Htm Hv) as (i & Hi & Hh & Ev). exists i. split; [done |]. split; [done |].
    unfold elapse_by. simpl. rewrite (Hdue _ _ Hi). rewrite Ev in Hlt. simpl in Hlt. lia.
  - intros k i Hi Hn. rewrite (Hdue _ _ Hi) in Hn. exists (remaining o i - n). rewrite lookup_fmap_Some.
    exists (remaining o i, tt, k). split; [done |]. apply map_lookup_filter_Some.
    split; [by apply timer_of_order | simpl; lia].
Qed.

(** The loop over the collected ids erases exactly those orders. *)
Lemma process_spec now limit l : ∀ (base : nat) o batch filled,
  core o → timers_ok o l → NoDup l → max_outstanding (ctx_ o) = limit →
  (∀ k, k ∈ l → is_Some (orders o !! k)) →
  (∀ j k, l !! j = Some k → (timeout_ids (ctx_ o)).[Z.of_nat (base + j)] = Some k) →
  holds batch (Z.to_nat limit) filled → lenZ filled + lenZ l <= limit < 2 ^ 32 →
  ∃ o' batch' fs, process_timeouts (Z.of_nat <$> seq base (length l)) o batch now = Some (o', batch') ∧
    core o' ∧ timers_ok o' [] ∧ orders o' = filter (λ kv : Z * OrderInfo, kv.1 ∉ l) (orders o) ∧
    holds batch' (Z.to_nat limit) (filled ++ (cancel_of now <$> fs)) ∧
    fs ≡ₚ map_to_list (filter (λ kv : Z * OrderInfo, kv.1 ∈ l) (orders o)) ∧
    same_limits o o' ∧ net_position (ctx_ o') = net_position (ctx_ o) ∧
    kill_switch_state_ o' = kill_switch_state_ o ∧ pending_cancel_count_ o' = pending_cancel_count_ o ∧
    next_order_id_ o' = next_order_id_ o ∧ last_advance_ns_ o' = last_advance_ns_ o ∧
    timeout_wheel_ o' = timeout_wheel_ o ∧ timeout_ids (ctx_ o') = timeout_ids (ctx_ o) ∧
    cancel_buf (ctx_ o') = cancel_buf (ctx_ o).
Proof.
  induction l as [| k l IH]; intros base o batch filled Hc Htm Hnd Hlim Hl Hids Hb Hlen.
  { exists o, batch, []. split; [done |]. split; [done |]. split; [done |].
    split_and!; try done; [| by rewrite app_nil_r |].
    - apply map_eq. intros k. apply option_eq. intros i. rewrite map_lookup_filter_Some. simpl.
      split; [| tauto]. intros Hi. split; [done | apply not_elem_of_nil].
    - rewrite map_empty_filter_2; [done |]. intros ? ? _ Hin. simpl in Hin. by apply elem_of_nil in Hin. }
  apply nodup_cons in Hnd as [Hkl Hnd]. simpl length in Hlen.
  destruct (Hl k ltac:(left)) as [i Hi].
  pose proof (Hids 0%nat k eq_refl) as Hid. rewrite Nat.add_0_r in Hid.
  destruct (push_cancel_holds batch limit filled (cancel_of now (k, i)) Hb) as (b1 & Eb & Hb1); [lia |].
  destruct (forget_spec ndebug o k i Hc Hi) as (o1 & E1 & Hc1 & Ho1 & (Hsl & Hnp & Hks & Hpc & Hcn & Hnx & Htk & Hlr & Hla) & Hw1 & Hti & Hcb).
  set (o2 := with_counters o1 (add_counts (counters_ o1) 0 0 0 0 0 0 0 1)).
  assert (orders o2 = delete k (orders o)) as Ho2 by exact Ho1.
  assert (timers o2 = timers o) as Ht2 by (unfold timers; simpl; by rewrite Hw1).
  destruct (IH (S base) o2 b1 (filled ++ [cancel_of now (k, i)])) as (o' & b' & fs & E & Hc' & Htm' & Ho' & Hb' & Hfs & Hsl' & Hrest).
  - by apply core_counters.
  - destruct Htm as [Ha Hbk]. unfold timers_ok. rewrite Ht2, Ho2. split.
    + intros h v Hv. destruct (Ha h v Hv) as (j & Hj & Hh & Hn). apply not_elem_of_cons in Hn as [Hn1 Hn2].
      exists j. split; [| done]. by apply lookup_delete_Some.
    + intros k' j [Hne Hj]%lookup_delete_Some Hn. apply (Hbk k' j Hj). apply not_elem_of_cons. by split.
  - done.
  - destruct Hsl as (_ & _ & _ & _ & _ & _ & _ & E & _). simpl. congruence.
  - intros k' Hk'. destruct (Hl k') as [j Hj]; [by right |]. exists j. rewrite Ho2.
    apply lookup_delete_Some. split; [| done]. intros E. congruence.
  - intros j k' Hj. simpl. rewrite Hti. replace (S (base + j))%nat with (base + S j)%nat by lia.
    by apply (Hids (S j)).
  - exact Hb1.
  - rewrite length_app. simpl length. lia.
  - exists o', b', ((k, i) :: fs). split.
    { cbn [length seq fmap list_fmap process_timeouts]. rewrite Hid. cbn [mbind option_bind].
      rewrite (tbl_find_spec _ _ (v_table _ _ Hc)). cbn [mbind option_bind]. fold (orders o). rewrite Hi.
      rewrite Hlim. fold (cancel_of now (k, i)). change (cancel_of now (k, i)) with (cancel_of now (k, i)) in Eb.
      unfold cancel_of in Eb at 1. cbn [fst snd] in Eb. rewrite Eb. cbn [mbind option_bind].
      apply bind_inv in E1 as (oa & Ea & E1). apply bind_inv in E1 as (ob & Ebb & E1).
      rewrite Ea. cbn [mbind option_bind]. rewrite Ebb. cbn [mbind option_bind]. rewrite E1. cbn [mbind option_bind].
      exact E. }
    split; [done |]. split; [done |]. split.
    { rewrite Ho', Ho2. apply map_eq. intros k'. apply option_eq. intros j.
      rewrite !map_lookup_filter_Some, lookup_delete_Some, not_elem_of_cons. simpl. naive_solver. }
    split; [by rewrite fmap_cons, cons_middle, app_assoc |]. split.
    { rewrite Hfs, Ho2, <- map_to_list_insert.
      - match goal with |- map_to_list ?a ≡ₚ map_to_list ?b => assert (a = b) as ->; [| done] end.
        apply map_eq. intros k'. apply option_eq. intros j.
        rewrite lookup_insert_Some, !map_lookup_filter_Some, lookup_delete_Some. setoid_rewrite elem_of_cons. simpl.
        destruct (decide (k = k')) as [<- | Hne]; naive_solver.
      - apply map_lookup_filter_None. left. apply lookup_delete_eq. }
    split; [by eapply same_limits_trans |]. destruct Hrest as (? & ? & ? & ? & ? & ? & ? & ?). simpl in *.
    split_and!; congruence.
Qed.

(** The whole ticks between the last pass and [now]. *)
Definition ticks_due o (now : Z) : Z := u32 (Z.quot (now - last_advance_ns_ o) kTickIntervalNs).

Lemma in_due o n k i : orders o !! k = Some i → k ∈ (map_to_list (due_orders o n)).*1 ↔ remaining o i <= n.
Proof.
  intros Hi. rewrite list_elem_of_fmap. split.
  - intros ([k' i'] & -> & [Hi' Hle]%elem_of_map_to_list%map_lookup_filter_Some). simpl in *. congruence.
  - intros Hle. exists (k, i). split; [done |]. by apply elem_of_map_to_list, map_lookup_filter_Some.
Qed.

Lemma advance_clock o now :
  core o → kTickIntervalNs <= now - last_advance_ns_ o → 0 <= now < 2 ^ 63 →
  0 <= ticks_due o now < 2 ^ 32 ∧ 0 <= last_advance_ns_ o + ticks_due o now * kTickIntervalNs <= now.
Proof.
  intros Hc Hge Hn. destruct (v_clock _ _ Hc) as [_ Hl]. unfold ticks_due.
  rewrite Z.quot_div_nonneg by (unfold kTickIntervalNs in *; lia).
  set (q := (now - last_advance_ns_ o) / kTickIntervalNs).
  assert (0 <= q ∧ kTickIntervalNs * q <= now - last_advance_ns_ o) as [Hq Hm].
  { unfold q, kTickIntervalNs in *. split; [apply Z.div_pos; lia | apply Z.mul_div_le; lia]. }
  assert (0 <= u32 q <= q) as Hu by (unfold u32; split; [apply Z.mod_pos_bound; lia | apply Z.mod_le; lia]).
  pose proof (u32_range q) as Hr. unfold is_u32 in Hr. unfold kTickIntervalNs in *. split; [lia | nia].
Qed.

Lemma advance_idle o now :
  core o → 0 <= now < 2 ^ 63 → kill_switch_state_ o ≠ kNormal ∨ now - last_advance_ns_ o < kTickIntervalNs →
  advance_timeouts ndebug o now = Some (o, 0).
Proof.
  intros Hc Hn Hor. destruct (v_clock _ _ Hc) as [_ Hl]. unfold advance_timeouts.
  destruct (bool_decide_reflect (kill_switch_state_ o = kNormal)) as [Hk | Hk]; cbn [negb]; [| done].
  rewrite check_s64_ok by mlia. cbn [mbind option_bind]. by rewrite bool_decide_true by tauto.
Qed.

(** What a pass of [n] ticks does: exactly the orders with at most [n] ticks
    left are cancelled and forgotten, the others have [n] ticks less. *)
Definition timed_out o (n now : Z) o' (count : Z) : Prop :=
  orders o' = filter (λ kv : Z * OrderInfo, n < remaining o kv.2) (orders o) ∧
  count = Z.of_nat (size (due_orders o n)) ∧
  take (Z.to_nat count) (cancel_buf (ctx_ o')) ≡ₚ cancel_of now <$> map_to_list (due_orders o n) ∧
  ∀ k i, orders o' !! k = Some i → remaining o' i = remaining o i - n.

Lemma advance_spec o now :
  inv o → kill_switch_state_ o = kNormal → 0 <= now < 2 ^ 63 → kTickIntervalNs <= now - last_advance_ns_ o →
  ∃ o' count, advance_timeouts ndebug o now = Some (o', count) ∧ inv o' ∧
    timed_out o (ticks_due o now) now o' count ∧ same_limits o o' ∧
    net_position (ctx_ o') = net_position (ctx_ o) ∧ kill_switch_state_ o' = kNormal ∧
    next_order_id_ o' = next_order_id_ o ∧
    last_advance_ns_ o' = last_advance_ns_ o + ticks_due o now * kTickIntervalNs.
Proof.
  intros [Hc Hko] Hn Hnow Hge. unfold kill_ok in Hko. rewrite Hn in Hko.
  destruct (advance_clock o now Hc Hge Hnow) as [Hq Hts]. destruct (v_clock _ _ Hc) as [_ Hla].
  pose proof (c_orders _ (v_config _ _ Hc)) as Hmo. pose proof (v_limit _ _ Hc) as Hlim. pose proof (v_count _ _ Hc) as Hcnt.
  set (n := ticks_due o now) in *. set (limit := max_outstanding (ctx_ o)) in *.
  destruct (ticks_rest ndebug (on_order_timeout ndebug limit) (Z.to_nat n) (timeout_wheel_ o) (v_wheel _ _ Hc))
    as (w & due & Et & Hw & Hdue & Hp & Hws & Hmt). rewrite Z2Nat.id in Hdue, Hp by lia.
  assert (due.*2 ≡ₚ (map_to_list (due_orders o n)).*1) as Hids.
  { rewrite Hdue. by apply due_ids. }
  assert (size (due_orders o n) <= size (orders o))%nat as Hsz by apply map_size_filter.
  assert (length due.*2 = size (due_orders o n)) as Hlen by (rewrite Hids, length_fmap; apply length_map_to_list).
  destruct (run_timeouts limit due (timeout_ids (ctx_ o), 0) []) as ([ids cnt] & Er & Hl & Hcn & Hta & Hle).
  { pose proof (c_ids _ (v_config _ _ Hc)). repeat split; simpl; lia. }
  { rewrite length_fmap in Hlen. simpl. lia. }
  cbn [fst snd app] in Hl, Hcn, Hta, Hle.
  set (o1 := with_advance (with_wheel (with_ctx o (ctx_buffers (ctx_ o) (cancel_buf (ctx_ o)) ids)) w)
    (last_advance_ns_ o + n * kTickIntervalNs) cnt).
  assert (core o1) as Hc1.
  { apply core_advance; [| lia]. apply core_wheel; [| done | done | done]. apply core_buffers; [done | done |].
    pose proof (c_ids _ (v_config _ _ Hc)). lia. }
  pose proof (timers_after o o1 n Hko eq_refl Hp) as Htm1.
  assert (NoDup due.*2) as Hnd by (rewrite Hids; apply NoDup_fst_map_to_list).
  assert (∀ k, k ∈ due.*2 ↔ ∃ i, orders o !! k = Some i ∧ remaining o i <= n) as Hin.
  { intros k. rewrite Hids, list_elem_of_fmap. split.
    - intros ([k' i] & -> & [Hi Hr]%elem_of_map_to_list%map_lookup_filter_Some). by exists i.
    - intros (i & Hi & Hr). exists (k, i). split; [done |]. by apply elem_of_map_to_list, map_lookup_filter_Some. }
  destruct (process_spec now limit due.*2 0 o1 (cancel_buf (ctx_ o), 0) [] Hc1)
    as (o2 & [cb bn] & fs & E2 & Hc2 & Htm2 & Ho2 & (Hcl & Hbn & Hbt & _) & Hfs & Hsl & Hnp & Hks & Hpc & Hnx & Hla2 & Hw2 & Hti & Hcb);
    [| done | done | | | | rewrite Hlen; simpl; lia |].
  { destruct Htm1 as [Ha Hb]. split.
    - intros h v Hv. destruct (Ha h v Hv) as (i & ? & ? & Hni). exists i. by rewrite Hids.
    - intros k i Hi. rewrite Hids. by apply Hb. }
  { intros k (i & Hi & _)%Hin. by exists i. }
  { intros j k Hj. simpl. rewrite getZ_nat. rewrite <- Hta in Hj. by apply lookup_take_Some in Hj as [? _]. }
  { pose proof (c_cancels _ (v_config _ _ Hc)). repeat split; simpl; lia. }
  cbn [fst snd app] in Hcl, Hbn, Hbt.
  set (o3 := with_ctx o2 (ctx_buffers (ctx_ o2) cb (timeout_ids (ctx_ o2)))).
  assert (core o3) as Hc3.
  { apply core_buffers; [done | | done]. rewrite Hcb. pose proof (c_cancels _ (v_config _ _ Hc)). simpl. lia. }
  destruct (compact_spec ndebug o3 Hc3) as (Hc4 & Ho4 & (Hsl4 & Hnp4 & Hks4 & Hpc4 & Hcn4 & Hnx4 & Htk4 & Hlr4 & Hla4) & Hw4 & Hx4 & _).
  exists (maybe_compact_outstanding o3), bn. split.
  { unfold advance_timeouts. rewrite Hn, bool_decide_true by done. cbn [negb]. rewrite check_s64_ok by mlia.
    cbn [mbind option_bind]. rewrite bool_decide_false by lia. fold (ticks_due o now). fold n limit.
    rewrite tick_wheel_ticks, Et, Er. cbn [mbind option_bind]. simpl (last_advance_ns_ _).
    rewrite check_s64_ok by (split; lia). cbn [mbind option_bind].
    fold o1. rewrite Hcn, Nat2Z.id. change (cancel_buf (ctx_ o1)) with (cancel_buf (ctx_ o)). rewrite E2. done. }
  assert (orders (maybe_compact_outstanding o3) = filter (λ kv : Z * OrderInfo, n < remaining o kv.2) (orders o)) as Hord.
  { rewrite Ho4. change (orders o3) with (orders o2). rewrite Ho2. apply map_filter_ext. intros k i Hi. simpl.
    change (orders o1) with (orders o) in Hi. rewrite Hin. split.
    - intros Hnot. destruct (decide (n < remaining o i)); [done |]. destruct Hnot. exists i. split; [done | lia].
    - intros Hlt (i' & Hi' & Hr). assert (i' = i) as -> by congruence. lia. }
  assert (timers (maybe_compact_outstanding o3) = elapse_by n <$> filter (λ kv, n < kv.2.1.1) (timers o)) as Htm4.
  { unfold timers. rewrite Hw4. simpl. rewrite Hw2. exact Hp. }
  split; [split; [done |] |]; [| split; [| split; [| split_and!]]].
  - unfold kill_ok. rewrite Hks4. simpl. rewrite Hks. simpl. rewrite Hn.
    eapply timers_ok_frame; [exact Htm2 | unfold timers; by rewrite Hw4 | by rewrite Ho4].
  - assert (filter (λ kv : Z * OrderInfo, kv.1 ∈ due.*2) (orders o1) = due_orders o n) as Hdo.
    { apply map_filter_ext. intros k i Hi. simpl. change (orders o1) with (orders o) in Hi. rewrite Hin. split.
      - intros (i' & Hi' & Hr). assert (i' = i) as -> by congruence. done.
      - intros Hr. by exists i. }
    rewrite Hdo in Hfs. split; [exact Hord |]. split; [| split].
    + rewrite Hbn, length_fmap, Hfs. by rewrite length_map_to_list.
    + rewrite Hx4. simpl. rewrite Hbt. by apply fmap_Permutation.
    + intros k i. rewrite Hord. intros [Hi Hr]%map_lookup_filter_Some. simpl in Hr.
      pose proof (timer_of_order o k i Hko Hi) as Ht. unfold remaining at 1. rewrite Htm4, lookup_fmap.
      assert (filter (λ kv, n < kv.2.1.1) (timers o) !! oi_timer_handle i = Some (remaining o i, tt, k)) as ->; [| done].
      by apply map_lookup_filter_Some.
  - eapply same_limits_trans; [| exact Hsl4]. eapply same_limits_trans; [| by apply (same_limits_trans _ _ _ Hsl)]. done.
  - by rewrite Hnp4.
  - rewrite Hks4. simpl. by rewrite Hks.
  - rewrite Hnx4. simpl. by rewrite Hnx.
  - rewrite Hla4. simpl. by rewrite Hla2.
Qed.
End Passes.
End OMTime.
