(* ===== verification/OrderManagerTheorems.v ===== *)
(** What is proved of the order manager ([OrderManager.v]): the pre-trade
    checks, the invariant over every sequence of admissible calls, position
    accounting, timeouts, the kill switch, modify-or-new; and, on a concrete
    manager, what goes wrong when a response arrives for an order that is no
    longer tracked. *)
From S2P Require Import Prelude.
From S2P Require Import HashUtils.
From S2P Require Import IndexFreeStack.
From S2P Require Import TableInterface.
From S2P Require Import HashMap.
From S2P Require Import HashMapSpec.
From S2P Require Import TradingTypes.
From S2P Require Import Protocol.
From S2P Require Import TimingWheel.
From S2P Require Import TimingWheelSpec.
From S2P Require Import TimingWheelTick.
From S2P Require Import OrderManager.
From S2P Require Import OrderManagerSpec.
From S2P Require Import OrderManagerResponses.
Local Open Scope Z_scope.
Local Open Scope array_scope.

Import OMgr TWOps TWService OMSpec OMSignal OMResp OMTime.

(** * Sequences of calls *)

Inductive event : Set :=
  | EvSignal (s : Signal) (now_rate now_send : Z)
  | EvModify (s : Signal) (now : Z)
  | EvTimeouts (now : Z)
  | EvKill (now : Z)
  | EvOrderAck (a : OrderAck)
  | EvOrderReject (r : OrderReject)
  | EvFill (f : FillReport)
  | EvModifyAck (a : ModifyAck)
  | EvModifyReject (r : ModifyReject)
  | EvCancelAck (a : CancelAck)
  | EvCancelReject (r : CancelReject).

Section Events.
Context (ndebug : bool) {M : Type} `{TM : Table Z OrderInfo M} `{TI : TableIter Z OrderInfo M} `{TR : TableRebuild M}.
Implicit Types (o : OrderManager M).

Definition handle o (ev : event) : option (OrderManager M) :=
  match ev with
  | EvSignal s t1 t2 => fst <$> on_signal ndebug o s t1 t2
  | EvModify s t => fst <$> check_modify o s t
  | EvTimeouts t => fst <$> advance_timeouts ndebug o t
  | EvKill t => fst <$> trigger_kill_switch ndebug o t
  | EvOrderAck a => Some (on_order_ack o a)
  | EvOrderReject r => on_order_reject ndebug o r
  | EvFill f => on_fill ndebug o f
  | EvModifyAck a => Some (on_modify_ack o a)
  | EvModifyReject r => on_modify_reject o r
  | EvCancelAck a => on_cancel_ack ndebug o a
  | EvCancelReject r => on_cancel_reject ndebug o r
  end.

Fixpoint handle_all o (evs : list event) : option (OrderManager M) :=
  match evs with
  | [] => Some o
  | ev :: evs => o ← handle o ev; handle_all o evs
  end.

Context {TL : TableLaws Z OrderInfo M} {TIL : TableIterLaws Z OrderInfo M}.

(** What a call may ask: a symbol of the context, times and quantities in
    range; and the responses that end an order name a tracked one. *)
Definition admissible o (ev : event) : Prop :=
  match ev with
  | EvSignal s t1 _ => signal_ok o s ∧ signal_fits o s ∧ 0 <= t1 < 2 ^ 63
  | EvModify s _ => signal_ok o s
  | EvTimeouts t => 0 <= t < 2 ^ 63
  | EvOrderReject r => is_Some (orders o !! or_client_order_id r)
  | EvFill f =>
      match orders o !! fr_client_order_id f with
      | Some i => ∀ p, (net_position (ctx_ o)).[oi_symbol_id i - 1] = Some p → is_s64 (p + signed_fill i f)
      | None => fr_remaining_qty f ≠ 0
      end
  | EvCancelAck a => is_Some (orders o !! ca_client_order_id a)
  | _ => True
  end.

Inductive om_step o : OrderManager M → Prop :=
  | om_step_intro ev o' : admissible o ev → handle o ev = Some o' → om_step o o'.

Definition per_symbol_limit o : Prop :=
  ∀ s, 1 <= s <= max_symbols (ctx_ o) →
    symbol_count (orders o) s <= max_outstanding_per_symbol (ctx_ o).

Lemma symbol_count_mono (m m' : gmap Z OrderInfo) s : m' ⊆ m → symbol_count m' s <= symbol_count m s.
Proof.
  intros Hsub. unfold symbol_count. apply inj_le, map_subseteq_size. apply map_subseteq_spec. intros k i.
  rewrite !map_lookup_filter_Some. intros [Hk Hs]. split; [by eapply lookup_weaken | done].
Qed.

Lemma limit_shrinks o o' : per_symbol_limit o → orders o' ⊆ orders o → same_limits o o' → per_symbol_limit o'.
Proof.
  intros Hp Hsub (_ & _ & _ & _ & _ & _ & Hs & _ & Hm) s Hr. rewrite Hs in Hr. rewrite Hm.
  pose proof (symbol_count_mono _ _ s Hsub). pose proof (Hp s Hr). lia.
Qed.

(** A signal is placed or refused; either way the invariant survives. *)
Lemma signal_step o s t1 t2 :
  inv ndebug o → per_symbol_limit o → signal_ok o s → signal_fits o s → 0 <= t1 < 2 ^ 63 →
  ∃ o' out, on_signal ndebug o s t1 t2 = Some (o', out) ∧ inv ndebug o' ∧ per_symbol_limit o' ∧
    same_limits o o' ∧ net_position (ctx_ o') = net_position (ctx_ o) ∧
    match verdict o s t1 with
    | Some r => out = None ∧ o' = refused o r t1
    | None => placed (with_tokens o (refilled o t1).1 (refilled o t1).2) s t2 o' out
    end.
Proof.
  intros Hinv Hp Hok Hfits Ht. pose proof (on_signal_spec ndebug o s t1 t2 Hinv Hok Hfits Ht) as Hs.
  pose proof Hinv as [Hc Hk]. destruct (refill_spec ndebug o t1 Hc Ht) as (_ & Htk & Hlr).
  assert (inv ndebug (with_tokens o (refilled o t1).1 (refilled o t1).2)) as Hinv1.
  { split; [by apply core_tokens | exact Hk]. }
  destruct (verdict o s t1) as [r |] eqn:Hv.
  - exists (refused o r t1), None. split; [done |]. unfold refused.
    split; [destruct r; by apply (inv_counters ndebug) |]. destruct r; by split_and!.
  - destruct Hs as (E & Hn & Hroom & Htok). set (o1 := with_tokens o _ _) in *.
    assert (timers_ok o1 []) as Htm by (unfold kill_ok in Hk; rewrite Hn in Hk; exact Hk).
    destruct (place_order_spec ndebug o1 s t2 (proj1 Hinv1) Htm Hok Hroom Htok (proj2 (proj2 (proj2 Hfits))))
      as (o' & out & E' & Hc' & Htm' & Hsl & Hnp & Hks & _ & Hnx & _ & _ & Hpl).
    exists o', out. rewrite E, E'. split; [done |]. split.
    { split; [done |]. unfold kill_ok. rewrite Hks. simpl. by rewrite Hn. }
    split; [| by split_and!].
    destruct out as [m |]; simpl in Hpl.
    + destruct Hpl as (_ & h & _ & _ & Ho & _). intros t Htr.
      destruct Hsl as (_ & _ & _ & _ & _ & _ & Es & _ & Em). rewrite Es in Htr. rewrite Em, Ho.
      rewrite symbol_count_insert.
      2: { destruct (orders o1 !! next_order_id_ o1) as [i |] eqn:Ei; [| done].
           destruct (v_info _ _ Hc _ i Ei) as (Hlt & _). simpl in Hlt. lia. }
      simpl. destruct (bool_decide_reflect (sig_symbol_id s = t)) as [Hst | _]; simpl; [| rewrite Z.add_0_r; by apply Hp].
      subst t. unfold verdict in Hv. repeat (case_bool_decide; [done |]). simpl. change (orders o1) with (orders o). lia.
    + destruct Hpl as (Ho & _). eapply limit_shrinks; [exact Hp | by rewrite Ho | done].
Qed.

Lemma order_manager_step o ev :
  inv ndebug o → per_symbol_limit o → admissible o ev →
  ∃ o', handle o ev = Some o' ∧ inv ndebug o' ∧ per_symbol_limit o' ∧ same_limits o o'.
Proof.
  intros Hinv Hp Had. pose proof Hinv as [Hc Hk].
  (* every other call keeps a part of the orders *)
  assert (∀ o', inv ndebug o' → orders o' ⊆ orders o → same_limits o o' →
    ∃ o2, Some o' = Some o2 ∧ inv ndebug o2 ∧ per_symbol_limit o2 ∧ same_limits o o2) as Hshrink.
  { intros o' Hi Hsub Hsl. exists o'. split; [done |]. split; [done |]. split; [by eapply limit_shrinks | done]. }
  destruct ev as [s t1 t2 | s t | t | t | a | r | f | a | r | a | r]; simpl in *.
  - destruct Had as (Hok & Hfits & Ht). destruct (signal_step o s t1 t2 Hinv Hp Hok Hfits Ht) as (o' & out & -> & ? & ? & ? & _).
    by exists o'.
  - destruct (check_modify_spec ndebug o s t Hinv Had) as (a & o' & out & _ & -> & Hi & Ho & _ & Hsl & _).
    apply (Hshrink o'); [done | by rewrite Ho | done].
  - destruct (decide (kill_switch_state_ o = kNormal)) as [Hn | Hn];
      [destruct (decide (t - last_advance_ns_ o < kTickIntervalNs)) as [Hlt | Hge] |].
    + rewrite (advance_idle ndebug o t Hc Had) by by right. by apply (Hshrink o).
    + destruct (advance_spec ndebug o t Hinv Hn Had) as (o' & n & -> & Hi & (Ho & _) & Hsl & _); [lia |].
      apply (Hshrink o'); [done | rewrite Ho; apply map_filter_subseteq | done].
    + rewrite (advance_idle ndebug o t Hc Had) by by left. by apply (Hshrink o).
  - destruct (decide (kill_switch_state_ o = kNormal)) as [Hn | Hn].
    + destruct (trigger_spec ndebug o t Hinv Hn) as (o' & n & -> & Hi & _ & _ & Ho & _ & Hsl & _).
      apply (Hshrink o'); [done | by rewrite Ho | done].
    + rewrite (trigger_again ndebug o t Hn). by apply (Hshrink o).
  - apply Hshrink; [by apply (inv_counters ndebug) | done | done].
  - destruct Had as [i Hi]. destruct (on_order_reject_known ndebug o r i Hinv Hi) as (o' & -> & _ & Hi' & Ho & Hsl & _).
    apply (Hshrink o'); [done | rewrite Ho; apply delete_subseteq | done].
  - destruct (orders o !! fr_client_order_id f) as [i |] eqn:Hi.
    + destruct (v_info _ _ Hc _ i Hi) as (_ & Hs & _).
      destruct (getZ_is_Some (net_position (ctx_ o)) (oi_symbol_id i - 1)) as [p Hpp].
      { rewrite (c_positions _ (v_config _ _ Hc)). lia. }
      destruct (on_fill_known ndebug o f i p Hinv Hi Hpp (Had p Hpp)) as (o' & -> & Hi' & _ & Ho & Hsl & _).
      apply (Hshrink o'); [done | rewrite Ho; case_bool_decide; [apply delete_subseteq | done] | done].
    + rewrite (on_fill_unknown ndebug o f Hinv Hi Had). apply Hshrink; [by apply (inv_counters ndebug) | done | done].
  - apply Hshrink; [by apply (inv_counters ndebug) | done | done].
  - destruct (on_modify_reject_spec ndebug o r Hinv) as (o' & -> & Hi & Ho & Hsl & _).
    apply (Hshrink o'); [done | by rewrite Ho | done].
  - destruct Had as [i Hi]. destruct (on_cancel_ack_known ndebug o a i Hinv Hi) as (o' & -> & (Hi' & Ho & Hsl & _) & _).
    apply (Hshrink o'); [done | rewrite Ho; apply delete_subseteq | done].
  - destruct (on_cancel_reject_spec ndebug o r Hinv) as (o' & -> & Hi & Ho & Hsl & _).
    apply (Hshrink o'); [done | rewrite Ho; apply delete_subseteq | done].
Qed.

Lemma order_manager_step_inv o ev o' :
  inv ndebug o → per_symbol_limit o → admissible o ev → handle o ev = Some o' →
  inv ndebug o' ∧ per_symbol_limit o' ∧ same_limits o o'.
Proof.
  intros Hinv Hp Had E. destruct (order_manager_step o ev Hinv Hp Had) as (o2 & E2 & H). rewrite E in E2. by injection E2 as <-.
Qed.
End Events.

(** * The drain *)

Inductive cancel_response : Set := Acked (a : CancelAck) | Refused (r : CancelReject).

Section Drain.
Context (ndebug : bool) {M : Type} `{TM : Table Z OrderInfo M} `{TI : TableIter Z OrderInfo M} `{TR : TableRebuild M}.
Context {TL : TableLaws Z OrderInfo M} {TIL : TableIterLaws Z OrderInfo M}.
Implicit Types (o : OrderManager M) (rs : list cancel_response).

Definition respond o (r : cancel_response) : option (OrderManager M) :=
  match r with Acked a => on_cancel_ack ndebug o a | Refused r => on_cancel_reject ndebug o r end.

Fixpoint respond_all o rs : option (OrderManager M) :=
  match rs with [] => Some o | r :: rs => o ← respond o r; respond_all o rs end.

(** An acknowledgement names an order still tracked; a reject may name any. *)
Fixpoint responses_ok o rs : Prop :=
  match rs with
  | [] => True
  | r :: rs => (match r with Acked a => is_Some (orders o !! ca_client_order_id a) | Refused _ => True end) ∧
               ∀ o', respond o r = Some o' → responses_ok o' rs
  end.

(** The switch with [n] responses to come. *)
Definition awaiting o (n : Z) : Prop :=
  kill_switch_state_ o = (if bool_decide (n = 0) then kComplete else kDraining) ∧ pending_cancel_count_ o = n.

Lemma respond_drains o r n :
  inv ndebug o → awaiting o n → 1 <= n → responses_ok o [r] →
  ∃ o', respond o r = Some o' ∧ inv ndebug o' ∧ awaiting o' (n - 1).
Proof.
  intros Hinv [Hs Hp] Hn [Hr _]. rewrite bool_decide_false in Hs by lia.
  assert (∀ o', drain_step o o' → awaiting o' (n - 1)) as Hd.
  { intros o'. unfold drain_step, awaiting. rewrite Hs, Hp. simpl. case_bool_decide.
    - intros [= -> ->]. rewrite bool_decide_true by lia. split; [done | lia].
    - intros [= -> ->]. by rewrite bool_decide_false by lia. }
  destruct r as [a | r]; simpl in *.
  - destruct Hr as [i Hi]. destruct (on_cancel_ack_known ndebug o a i Hinv Hi) as (o' & E & (Hinv' & _) & Hst).
    exists o'. split; [done |]. split; [done | by apply Hd].
  - destruct (on_cancel_reject_spec ndebug o r Hinv) as (o' & E & Hinv' & _ & _ & _ & _ & _ & Hst).
    exists o'. split; [done |]. split; [done | by apply Hd].
Qed.

Lemma drain_run rs : ∀ o n,
  inv ndebug o → awaiting o n → lenZ rs <= n → responses_ok o rs →
  ∃ o', respond_all o rs = Some o' ∧ inv ndebug o' ∧ awaiting o' (n - lenZ rs).
Proof.
  induction rs as [| r rs IH]; intros o n Hinv Hw Hl Hok.
  - exists o. split; [done |]. split; [done |]. simpl. by rewrite Z.sub_0_r.
  - simpl length in Hl. destruct Hok as [Hr Hrs].
    destruct (respond_drains o r n Hinv Hw) as (o1 & E & Hinv1 & Hw1); [lia | by split |].
    destruct (IH o1 (n - 1) Hinv1 Hw1) as (o' & E' & Hinv' & Hw'); [lia | by apply Hrs |].
    exists o'. cbn [respond_all]. rewrite E. cbn [mbind option_bind]. split; [done |]. split; [done |].
    simpl length. by replace (n - Z.of_nat (S (length rs))) with (n - 1 - lenZ rs) by lia.
Qed.
End Drain.

(** * A fresh manager *)

Section Fresh.
Context (ndebug : bool) {M : Type} `{TM : Table Z OrderInfo M} `{TI : TableIter Z OrderInfo M} `{TR : TableRebuild M}.
Context {TL : TableLaws Z OrderInfo M}.
Implicit Types (o : OrderManager M).

Lemma construct_inv ctx m w mp ms mn bucket window timeout o :
  construct ctx (Some m) (Some w) mp ms mn bucket window timeout = Some o → config o →
  tbl_wf m → tbl_map m = ∅ → at_rest ndebug w → pending w = ∅ →
  (∀ n, n ∈ outstanding_per_symbol ctx → n = 0) → (∀ a, a ∈ active_orders ctx → ao_resting a = false) →
  0 <= max_outstanding_per_symbol ctx →
  inv ndebug o ∧ per_symbol_limit o ∧ orders o = ∅.
Proof.
  intros [= <-] Hc Hwf Hm Hw Hp Hper Hact Hlim. set (o := {| ctx_ := ctx |}) in *.
  assert (orders o = ∅) as Ho by exact Hm.
  assert (∀ s, symbol_count (orders o) s = 0) as Hcount.
  { intros s. unfold symbol_count. rewrite Ho, map_filter_empty, map_size_empty. done. }
  pose proof (c_orders _ Hc) as Hmo. pose proof (c_bucket _ Hc) as Hb. simpl in Hmo, Hb.
  split; [split; [split |] | split; [| done]].
  - done.
  - done.
  - done.
  - rewrite Ho, map_size_empty. done.
  - simpl. lia.
  - simpl. lia.
  - intros k i. by rewrite Ho, lookup_empty.
  - intros s Hs. rewrite Hcount. pose proof (c_per_symbol _ Hc) as Hl. simpl in *.
    destruct (getZ_is_Some (outstanding_per_symbol ctx) (s - 1)) as [n Hn]; [lia |]. rewrite Hn. f_equal.
    apply Hper. apply getZ_to_lookup in Hn. by eapply list_elem_of_lookup_2.
  - intros s d a _ _ Ha Har. simpl in Ha. apply getZ_to_lookup, list_elem_of_lookup_2, Hact in Ha. congruence.
  - simpl. lia.
  - simpl. lia.
  - unfold kill_ok. simpl. split.
    + intros h v. unfold timers. simpl. by rewrite Hp, lookup_empty.
    + intros k i. by rewrite Ho, lookup_empty.
  - intros s _. rewrite Hcount. done.
Qed.
End Fresh.

(** * A small manager

    Two symbols, two orders at a time, a timeout of five ticks on a wheel of
    eight slots, a table of the eight slots that [order_ctx_map_capacity]
    gives for two orders; the debug build. *)

Abbreviation Outstanding := (HM.HashMap Z OrderInfo).
#[export] Instance outstanding_table : Table Z OrderInfo Outstanding := HMSpec.HashMap_Table DefaultHash.
#[export] Instance outstanding_iter : TableIter Z OrderInfo Outstanding := HMSpec.HashMap_TableIter.
#[export] Instance outstanding_rebuild : TableRebuild Outstanding := HMSpec.HashMap_TableRebuild.
#[export] Instance outstanding_laws : TableLaws Z OrderInfo Outstanding := HMSpec.HashMap_TableLaws_at DefaultHash 8.
#[export] Instance outstanding_iter_laws : TableIterLaws Z OrderInfo Outstanding := HMSpec.HashMap_TableIterLaws_at DefaultHash 8.

Definition no_info : OrderInfo :=
  {| oi_side := kBid; oi_price := 0; oi_qty := 0; oi_symbol_id := 0; oi_send_ts := 0; oi_timer_handle := 0 |}.
Definition demo_slots : list (HM.Slot Z OrderInfo) :=
  replicate 8 {| HM.key := 0; HM.value := no_info; HM.state := HM.kEmpty |}.
Definition demo_map : Outstanding := HM.clear (HM.make demo_slots 8).
Definition demo_wheel : TW.TimingWheel unit := TW.init_nodes (IFS.init_storage false 2) 8 2.
Definition demo_ctx : StrategyCtx :=
  {| net_position := [0; 0]; outstanding_per_symbol := [0; 0];
     active_orders := replicate 4 {| ao_client_order_id := 0; ao_price := 0; ao_qty := 0; ao_resting := false |};
     cancel_buf := replicate 2 {| co_client_order_id := 0; co_symbol_id := 0; co_send_ts := 0 |};
     timeout_ids := [0; 0]; max_symbols := 2; max_outstanding := 2; max_outstanding_per_symbol := 2 |}.

Definition or_demo (x : option (OrderManager Outstanding)) : OrderManager Outstanding :=
  match x with
  | Some o => o
  | None => {| ctx_ := demo_ctx; next_order_id_ := 1; outstanding_count_ := 0; max_position_ := 0; max_order_size_ := 0;
               max_notional_ := 0; bucket_capacity_ := 0; refill_interval_ns_ := 1; last_refill_ts_ := 0; tokens_ := 0;
               counters_ := {| acks_received := 0; rejects_received := 0; fills_received := 0; total_fill_qty := 0;
                               modifies_sent := 0; modifies_acked := 0; modifies_rejected := 0; timeouts_fired := 0;
                               risk_rejects := λ _, 0 |};
               kill_switch_state_ := kComplete; pending_cancel_count_ := 0; outstanding_ := demo_map;
               timeout_wheel_ := demo_wheel; order_timeout_ns_ := 0; last_advance_ns_ := 0; timeout_count_ := 0 |}
  end.

(** Position limit 100, size limit 100, notional limit 50000, a burst of 100
    orders. *)
Definition demo : OrderManager Outstanding :=
  or_demo (construct demo_ctx (Some demo_map) (Some demo_wheel) 100 100 50000 100 1000000000 5000000).

Lemma demo_inv : inv false demo ∧ per_symbol_limit demo ∧ orders demo = ∅.
Proof.
  assert (HMSpec.geometry (HM.make demo_slots 8)) as Hg by (apply HMSpec.make_geometry; reflexivity).
  destruct (HMSpec.clear_spec DefaultHash (HM.make demo_slots 8) Hg) as [Hwf Hm].
  destruct (init_nodes_rest false (CB := unit) 3 2) as [Hw Hp]; [lia | lia |].
  apply (construct_inv false demo_ctx demo_map demo_wheel 100 100 50000 100 1000000000 5000000).
  - reflexivity.
  - split; vm_compute; try split; congruence.
  - split; [exact Hwf | reflexivity].
  - exact Hm.
  - exact Hw.
  - exact Hp.
  - simpl. intros n Hn. rewrite !elem_of_cons in Hn. destruct Hn as [? | [? | Hn]]; [done | done |]. by apply elem_of_nil in Hn.
  - intros a [-> _]%elem_of_replicate. done.
  - done.
Qed.

(** One bid of 5 at price 10 on symbol 1. *)
Definition bid5 : Signal := {| sig_side := kBid; sig_price := 10; sig_qty := 5; sig_symbol_id := 1 |}.
Definition demo1 : OrderManager Outstanding := or_demo (handle false demo (EvSignal bid5 0 0)).

Lemma bid5_admissible : admissible demo (EvSignal bid5 0 0).
Proof.
  split; [| split; [| lia]].
  - split; [simpl; lia |]. split; [done |]. split; split; vm_compute; congruence.
  - repeat split; vm_compute; congruence.
Qed.

Lemma demo1_reached : handle false demo (EvSignal bid5 0 0) = Some demo1.
Proof. vm_compute. reflexivity. Qed.

Lemma demo1_inv : inv false demo1 ∧ per_symbol_limit demo1.
Proof.
  destruct demo_inv as (Hinv & Hp & _).
  destruct (order_manager_step_inv false demo _ demo1 Hinv Hp bid5_admissible demo1_reached) as (H1 & H2 & _). by split.
Qed.

Lemma demo1_order : ∃ i, orders demo1 !! 1 = Some i ∧ oi_symbol_id i = 1 ∧ oi_side i = kBid.
Proof. eexists. split; [vm_compute; reflexivity |]. done. Qed.

Lemma demo1_fields :
  net_position (ctx_ demo1) = [0; 0] ∧ max_symbols (ctx_ demo1) = 2 ∧ kill_switch_state_ demo1 = kNormal ∧
  last_advance_ns_ demo1 = 0.
Proof. vm_compute. by split_and!. Qed.

Opaque demo1.

(** * Properties *)

(** C4. [on_signal] applies the seven documented checks in their order. The
    first one failed, if any, is the one counted, and the signal is refused
    with no other change than that counter and, when the rate check was
    reached, the refill of the token bucket.  Otherwise the order returned
    carries a fresh id and the signal's terms, is tracked with a timer of the
    configured delay, occupies the slot of its symbol and side, and costs one
    token; only if the outstanding map, as it is at the call, refuses the
    insertion of that id is no order returned, and then orders, timers, slots
    and tokens are as before. *)
Theorem on_signal_correct (ndebug : bool) {M : Type} `{TM : Table Z OrderInfo M} `{TI : TableIter Z OrderInfo M}
    `{TR : TableRebuild M} {TL : TableLaws Z OrderInfo M} (o : OrderManager M) (s : Signal) (now_rate now_send : Z) :
  inv ndebug o → per_symbol_limit o → signal_ok o s → signal_fits o s → 0 <= now_rate < 2 ^ 63 →
  ∃ o' out, on_signal ndebug o s now_rate now_send = Some (o', out) ∧ inv ndebug o' ∧ per_symbol_limit o' ∧
    net_position (ctx_ o') = net_position (ctx_ o) ∧
    match verdict o s now_rate with
    | Some r => out = None ∧ o' = refused o r now_rate
    | None => placed (with_tokens o (refilled o now_rate).1 (refilled o now_rate).2) s now_send o' out
    end.
Proof.
  intros Hinv Hp Hok Hf Ht. destruct (signal_step ndebug o s now_rate now_send Hinv Hp Hok Hf Ht)
    as (o' & out & E & Hi & Hp' & _ & Hn & Hv). by exists o', out.
Qed.

Lemma on_signal_correct_witness :
  ∃ o' out, on_signal false demo bid5 0 0 = Some (o', out) ∧ inv false o' ∧ per_symbol_limit o' ∧
    net_position (ctx_ o') = net_position (ctx_ demo) ∧
    match verdict demo bid5 0 with
    | Some r => out = None ∧ o' = refused demo r 0
    | None => placed (with_tokens demo (refilled demo 0).1 (refilled demo 0).2) bid5 0 o' out
    end.
Proof. apply (on_signal_correct false demo bid5 0 0); [apply demo_inv | apply demo_inv | apply bid5_admissible | apply bid5_admissible | lia]. Defined.

(** C5. After any sequence of admissible calls every admissible call
    succeeds (no assertion, overflow or array access fails), the outstanding
    counter counts the tracked orders and respects the global limit, the
    per-symbol counters count the orders of their symbol and respect theirs,
    every tracked order has its timer while the switch is untouched and none
    has one after it, every resting slot names a tracked order of its symbol
    and side, and the bucket never exceeds its capacity. *)
Theorem order_manager_invariant (ndebug : bool) {M : Type} `{TM : Table Z OrderInfo M} `{TI : TableIter Z OrderInfo M}
    `{TR : TableRebuild M} {TL : TableLaws Z OrderInfo M} {TIL : TableIterLaws Z OrderInfo M} (o o' : OrderManager M) :
  inv ndebug o → per_symbol_limit o → rtc (om_step ndebug) o o' →
  (∀ ev, admissible o' ev → ∃ o'', handle ndebug o' ev = Some o'') ∧
  outstanding_count o' = Z.of_nat (size (orders o')) ∧ outstanding_count o' <= max_outstanding (ctx_ o) ∧
  (∀ s, 1 <= s <= max_symbols (ctx_ o) →
     (outstanding_per_symbol (ctx_ o')).[s - 1] = Some (symbol_count (orders o') s) ∧
     symbol_count (orders o') s <= max_outstanding_per_symbol (ctx_ o)) ∧
  (kill_switch_state o' = kNormal → ∀ k i, orders o' !! k = Some i → ∃ d, timers o' !! oi_timer_handle i = Some (d, tt, k)) ∧
  (is_killed o' = true → timers o' = ∅) ∧
  (∀ s d a, 1 <= s <= max_symbols (ctx_ o) → d ≠ kCount →
     (active_orders (ctx_ o')).[active_index (s - 1) d] = Some a → ao_resting a = true →
     ∃ i, orders o' !! ao_client_order_id a = Some i ∧ oi_symbol_id i = s ∧ oi_side i = d) ∧
  0 <= tokens_ o' <= bucket_capacity_ o.
Proof.
  intros Hinv Hp Hst. assert (inv ndebug o' ∧ per_symbol_limit o' ∧ same_limits o o') as (Hi & Hl & Hsl).
  { revert Hinv Hp. induction Hst as [o | o1 o2 o3 H12 _ IH]; intros Hinv Hp; [by split_and! |].
    destruct H12 as [ev o2 Had E].
    destruct (order_manager_step_inv ndebug o1 ev o2 Hinv Hp Had E) as (Hi2 & Hp2 & Hs2).
    destruct (IH Hi2 Hp2) as (Hi3 & Hp3 & Hs3). split_and!; [done | done |]. by eapply same_limits_trans. }
  pose proof Hi as [Hc Hk]. destruct Hsl as (_ & _ & _ & Eb & _ & _ & Es & Eo & Em).
  rewrite <- Es, <- Eo, <- Em, <- Eb. split_and!.
  - intros ev Had. destruct (order_manager_step ndebug o' ev Hi Hl Had) as (o2 & E & _). by exists o2.
  - apply Hc.
  - apply Hc.
  - intros s Hs. split; [by apply Hc | by apply Hl].
  - unfold kill_switch_state. intros Hn k i Hki. unfold kill_ok in Hk. rewrite Hn in Hk.
    apply (proj2 Hk k i Hki). apply not_elem_of_nil.
  - unfold is_killed, kill_ok in *. destruct (kill_switch_state_ o'); [done | done | intros _; apply Hk | intros _; apply Hk].
  - apply Hc.
  - apply Hc.
  - apply Hc.
Qed.

Lemma order_manager_invariant_witness :
  inv false demo ∧ per_symbol_limit demo ∧ rtc (om_step false) demo demo1 ∧
  outstanding_count demo1 = Z.of_nat (size (orders demo1)) ∧ outstanding_count demo1 <= max_outstanding (ctx_ demo).
Proof.
  destruct demo_inv as (Hi & Hp & _). split; [done |]. split; [done |].
  assert (rtc (om_step false) demo demo1) as Hst.
  { eapply rtc_l; [| apply rtc_refl]. eapply om_step_intro; [apply bid5_admissible | apply demo1_reached]. }
  split; [done |]. destruct (order_manager_invariant false demo demo1 Hi Hp Hst) as (_ & H1 & H2 & _). by split.
Defined.

(** A fill moves the position of the order's symbol, and no other, by
    the signed quantity, and ends the order exactly when nothing remains; a
    fill of an order that is not tracked (any more) moves nothing. *)
Theorem fill_accounting (ndebug : bool) {M : Type} `{TM : Table Z OrderInfo M} `{TI : TableIter Z OrderInfo M}
    `{TR : TableRebuild M} {TL : TableLaws Z OrderInfo M} (o : OrderManager M) (f : FillReport) :
  inv ndebug o → admissible o (EvFill f) →
  ∃ o', on_fill ndebug o f = Some o' ∧ inv ndebug o' ∧
    counters_ o' = add_counts (counters_ o) 0 0 1 (fr_fill_qty f) 0 0 0 0 ∧
    match orders o !! fr_client_order_id f with
    | Some i =>
        ∃ p, net_position_of o (oi_symbol_id i) = Some p ∧
          net_position (ctx_ o') = (net_position (ctx_ o)).[oi_symbol_id i - 1 <- p + signed_fill i f] ∧
          orders o' = (if bool_decide (fr_remaining_qty f = 0) then delete (fr_client_order_id f) (orders o) else orders o)
    | None => net_position (ctx_ o') = net_position (ctx_ o) ∧ orders o' = orders o
    end.
Proof.
  intros Hinv Had. pose proof Hinv as [Hc _]. simpl in Had.
  destruct (orders o !! fr_client_order_id f) as [i |] eqn:Hi.
  - destruct (v_info _ _ Hc _ i Hi) as (_ & Hs & _). pose proof (c_symbols _ (v_config _ _ Hc)).
    destruct (getZ_is_Some (net_position (ctx_ o)) (oi_symbol_id i - 1)) as [p Hp].
    { rewrite (c_positions _ (v_config _ _ Hc)). lia. }
    destruct (on_fill_known ndebug o f i p Hinv Hi Hp (Had p Hp)) as (o' & E & Hi' & Hn & Ho & _ & _ & Hct & _).
    exists o'. split_and!; [done | done | done |]. exists p. unfold net_position_of. by rewrite (u32_id (oi_symbol_id i - 1)) by mlia.
  - rewrite (on_fill_unknown ndebug o f Hinv Hi Had). eexists. split; [done |].
    split; [by apply (inv_counters ndebug) | done].
Qed.

Definition fill5 : FillReport :=
  {| fr_client_order_id := 1; fr_exchange_order_id := 0; fr_fill_price := 10; fr_fill_qty := 5; fr_remaining_qty := 0;
     fr_send_ts := 0 |}.

Lemma fill5_admissible : admissible demo1 (EvFill fill5).
Proof.
  destruct demo1_order as (i & Hi & Hs & Hd), demo1_fields as (Hp & _). unfold admissible.
  change (fr_client_order_id fill5) with 1. rewrite Hi, Hp, Hs. intros p. unfold signed_fill. rewrite Hd.
  intros [= <-]. split; vm_compute; congruence.
Qed.

Lemma fill_accounting_witness :
  ∃ o', on_fill false demo1 fill5 = Some o' ∧ inv false o' ∧
    counters_ o' = add_counts (counters_ demo1) 0 0 1 (fr_fill_qty fill5) 0 0 0 0 ∧
    match orders demo1 !! fr_client_order_id fill5 with
    | Some i =>
        ∃ p, net_position_of demo1 (oi_symbol_id i) = Some p ∧
          net_position (ctx_ o') = (net_position (ctx_ demo1)).[oi_symbol_id i - 1 <- p + signed_fill i fill5] ∧
          orders o' = (if bool_decide (fr_remaining_qty fill5 = 0) then delete (fr_client_order_id fill5) (orders demo1)
                       else orders demo1)
    | None => net_position (ctx_ o') = net_position (ctx_ demo1) ∧ orders o' = orders demo1
    end.
Proof. apply (fill_accounting false demo1 fill5); [apply demo1_inv | apply fill5_admissible]. Defined.

(** C6. The kill switch. Triggering it returns exactly one cancellation per
    tracked order, with its symbol, empties the timing wheel and leaves the
    orders tracked; from then on every signal is refused, nothing is
    modified, no timeout runs and a second trigger cancels nothing. The drain
    counts cancel responses, rejects of unknown orders included: the state is
    [kComplete] exactly when as many have come as were sent. *)
Theorem kill_switch_correct (ndebug : bool) {M : Type} `{TM : Table Z OrderInfo M} `{TI : TableIter Z OrderInfo M}
    `{TR : TableRebuild M} {TL : TableLaws Z OrderInfo M} {TIL : TableIterLaws Z OrderInfo M}
    (o : OrderManager M) (now : Z) (rs : list cancel_response) :
  inv ndebug o → kill_switch_state o = kNormal → lenZ rs <= outstanding_count o →
  (∀ o1 n, trigger_kill_switch ndebug o now = Some (o1, n) → responses_ok ndebug o1 rs) →
  ∃ o1 n o2, trigger_kill_switch ndebug o now = Some (o1, n) ∧ n = Z.of_nat (size (orders o)) ∧
    take (Z.to_nat n) (cancel_buf (ctx_ o1)) ≡ₚ cancel_of now <$> map_to_list (orders o) ∧
    orders o1 = orders o ∧ timers o1 = ∅ ∧ net_position (ctx_ o1) = net_position (ctx_ o) ∧
    respond_all ndebug o1 rs = Some o2 ∧
    kill_switch_state o2 = (if bool_decide (lenZ rs = n) then kComplete else kDraining) ∧
    ∀ o', o' = o1 ∨ o' = o2 → is_killed o' = true ∧
      (∀ s t1 t2, on_signal ndebug o' s t1 t2 = Some (reject_risk o' rcKillSwitch)) ∧
      (∀ s t, check_modify o' s t = Some (o', None)) ∧
      (∀ t, advance_timeouts ndebug o' t = Some (o', 0)) ∧
      (∀ t, trigger_kill_switch ndebug o' t = Some (o', 0)).
Proof.
  intros Hinv Hn Hl Hok. destruct (trigger_spec ndebug o now Hinv Hn)
    as (o1 & n & E & Hi1 & En & Hb & Ho & Ht & Hsl & Hnp & _ & _ & Hpc & Hks).
  pose proof (v_count _ _ (proj1 Hinv)) as Hcnt. unfold outstanding_count in Hl.
  destruct (drain_run ndebug rs o1 n Hi1) as (o2 & E2 & Hi2 & Hk2 & Hp2); [by split | lia | by apply (Hok o1 n) |].
  exists o1, n, o2. split_and!; try done; [lia | |].
  - unfold kill_switch_state. rewrite Hk2.
    by assert (bool_decide (n - lenZ rs = 0) = bool_decide (lenZ rs = n)) as -> by (apply bool_decide_ext; lia).
  - intros o' Ho'. assert (kill_switch_state_ o' ≠ kNormal) as Hne.
    { destruct Ho' as [-> | ->]; [rewrite Hks | rewrite Hk2]; clear; destruct (bool_decide _); intros [=]. }
    unfold is_killed, on_signal, check_modify, advance_timeouts, trigger_kill_switch.
    by rewrite bool_decide_false by done.
Qed.

(** Reject the cancellation of order 1. *)
Definition reject1 : cancel_response := Refused {| cr_client_order_id := 1; cr_reason := 5; cr_send_ts := 0 |}.

Lemma kill_switch_correct_witness :
  ∃ o1 n o2, trigger_kill_switch false demo1 7 = Some (o1, n) ∧ n = Z.of_nat (size (orders demo1)) ∧
    take (Z.to_nat n) (cancel_buf (ctx_ o1)) ≡ₚ cancel_of 7 <$> map_to_list (orders demo1) ∧
    orders o1 = orders demo1 ∧ timers o1 = ∅ ∧ net_position (ctx_ o1) = net_position (ctx_ demo1) ∧
    respond_all false o1 [reject1] = Some o2 ∧
    kill_switch_state o2 = (if bool_decide (lenZ [reject1] = n) then kComplete else kDraining) ∧
    ∀ o', o' = o1 ∨ o' = o2 → is_killed o' = true ∧
      (∀ s t1 t2, on_signal false o' s t1 t2 = Some (reject_risk o' rcKillSwitch)) ∧
      (∀ s t, check_modify o' s t = Some (o', None)) ∧
      (∀ t, advance_timeouts false o' t = Some (o', 0)) ∧
      (∀ t, trigger_kill_switch false o' t = Some (o', 0)).
Proof.
  apply (kill_switch_correct false demo1 7 [reject1]);
    [apply demo1_inv | apply demo1_fields | vm_compute; congruence | by intros o1 n _].
Defined.

(** C7. The timeout pass. With [n] the whole milliseconds since the last
    pass, exactly the orders whose timer has at most [n] ticks left are
    cancelled, one message each, and forgotten; every other order has [n]
    ticks less, no position moves, and the clock advances by exactly [n]
    ticks, keeping the fraction. A pass within the same tick does nothing. *)
Theorem advance_timeouts_correct (ndebug : bool) {M : Type} `{TM : Table Z OrderInfo M} `{TI : TableIter Z OrderInfo M}
    `{TR : TableRebuild M} {TL : TableLaws Z OrderInfo M} {TIL : TableIterLaws Z OrderInfo M}
    (o : OrderManager M) (now : Z) :
  inv ndebug o → kill_switch_state o = kNormal → 0 <= now < 2 ^ 63 →
  (now - last_advance_ns_ o < kTickIntervalNs → advance_timeouts ndebug o now = Some (o, 0)) ∧
  (kTickIntervalNs <= now - last_advance_ns_ o →
   ∃ o' count, advance_timeouts ndebug o now = Some (o', count) ∧ inv ndebug o' ∧
     timed_out o (ticks_due o now) now o' count ∧ net_position (ctx_ o') = net_position (ctx_ o) ∧
     last_advance_ns_ o' = last_advance_ns_ o + ticks_due o now * kTickIntervalNs).
Proof.
  intros Hinv Hn Ht. split.
  - intros Hlt. apply (advance_idle ndebug o now (proj1 Hinv)); [done | by right].
  - intros Hge. destruct (advance_spec ndebug o now Hinv Hn Ht Hge) as (o' & n & E & Hi & Hto & _ & Hnp & _ & _ & Hla).
    by exists o', n.
Qed.

Lemma advance_timeouts_correct_witness :
  (6000000 - last_advance_ns_ demo1 < kTickIntervalNs → advance_timeouts false demo1 6000000 = Some (demo1, 0)) ∧
  (kTickIntervalNs <= 6000000 - last_advance_ns_ demo1 →
   ∃ o' count, advance_timeouts false demo1 6000000 = Some (o', count) ∧ inv false o' ∧
     timed_out demo1 (ticks_due demo1 6000000) 6000000 o' count ∧
     net_position (ctx_ o') = net_position (ctx_ demo1) ∧
     last_advance_ns_ o' = last_advance_ns_ demo1 + ticks_due demo1 6000000 * kTickIntervalNs).
Proof. apply (advance_timeouts_correct false demo1 6000000); [apply demo1_inv | apply demo1_fields | lia]. Defined.

(** Modify or new. A modification is sent exactly when the switch is
    untouched and an order rests for the symbol and side at another price; it
    then names an order that is tracked, of that symbol and side, and never a
    stale one. Nothing but the remembered price and quantity changes. *)
Theorem modify_or_new (ndebug : bool) {M : Type} `{TM : Table Z OrderInfo M} `{TI : TableIter Z OrderInfo M}
    `{TR : TableRebuild M} {TL : TableLaws Z OrderInfo M} (o : OrderManager M) (s : Signal) (now : Z) :
  inv ndebug o → signal_ok o s →
  ∃ a o' out, (active_orders (ctx_ o)).[active_index (sig_symbol_id s - 1) (sig_side s)] = Some a ∧
    check_modify o s now = Some (o', out) ∧ inv ndebug o' ∧ orders o' = orders o ∧ timers o' = timers o ∧
    if bool_decide (kill_switch_state o = kNormal) && ao_resting a && negb (bool_decide (ao_price a = sig_price s))
    then out = Some {| mo_client_order_id := ao_client_order_id a; mo_symbol_id := sig_symbol_id s;
                       mo_new_price := sig_price s; mo_new_qty := sig_qty s; mo_send_ts := now |} ∧
         ∃ i, orders o !! ao_client_order_id a = Some i ∧ oi_symbol_id i = sig_symbol_id s ∧ oi_side i = sig_side s
    else out = None ∧ o' = o.
Proof.
  intros Hinv Hok. destruct (check_modify_spec ndebug o s now Hinv Hok)
    as (a & o' & out & Ha & E & Hi & Ho & Ht & _ & _ & _ & _ & Hout). by exists a, o', out.
Qed.

(** The same bid at price 11. *)
Definition bid11 : Signal := {| sig_side := kBid; sig_price := 11; sig_qty := 5; sig_symbol_id := 1 |}.

Lemma modify_or_new_witness :
  ∃ a o' out, (active_orders (ctx_ demo1)).[active_index (sig_symbol_id bid11 - 1) (sig_side bid11)] = Some a ∧
    check_modify demo1 bid11 9 = Some (o', out) ∧ inv false o' ∧ orders o' = orders demo1 ∧ timers o' = timers demo1 ∧
    if bool_decide (kill_switch_state demo1 = kNormal) && ao_resting a && negb (bool_decide (ao_price a = sig_price bid11))
    then out = Some {| mo_client_order_id := ao_client_order_id a; mo_symbol_id := sig_symbol_id bid11;
                       mo_new_price := sig_price bid11; mo_new_qty := sig_qty bid11; mo_send_ts := 9 |} ∧
         ∃ i, orders demo1 !! ao_client_order_id a = Some i ∧ oi_symbol_id i = sig_symbol_id bid11 ∧
           oi_side i = sig_side bid11
    else out = None ∧ o' = demo1.
Proof.
  apply (modify_or_new false demo1 bid11 9); [apply demo1_inv |].
  destruct demo1_fields as (_ & Hm & _). split; [rewrite Hm; simpl; lia |]. split; [done |].
  split; split; vm_compute; congruence.
Defined.

(** * What responses to forgotten orders do *)

Definition buy (sym price qty : Z) : Signal :=
  {| sig_side := kBid; sig_price := price; sig_qty := qty; sig_symbol_id := sym |}.
Definition sell (sym price qty : Z) : Signal :=
  {| sig_side := kAsk; sig_price := price; sig_qty := qty; sig_symbol_id := sym |}.
Definition signal_at (s : Signal) (t : Z) : event := EvSignal s t t.
Definition cancel_ack (k : Z) : event := EvCancelAck {| ca_client_order_id := k; ca_send_ts := 0 |}.
Definition full_fill (k qty : Z) : event :=
  EvFill {| fr_client_order_id := k; fr_exchange_order_id := 0; fr_fill_price := 10; fr_fill_qty := qty;
            fr_remaining_qty := 0; fr_send_ts := 0 |}.

(** Order 1 at 0 ms, order 2 at 3 ms, the timeout pass at 5 ms. *)
Definition timeout_script : list event :=
  [signal_at (buy 1 10 5) 0; EvTimeouts 3000000; signal_at (buy 1 10 5) 3000000; EvTimeouts 5000000].

(** The counter and the number of orders it should count. *)
Definition counted (o : OrderManager Outstanding) : Z * Z := (outstanding_count o, HM.size (outstanding_ o)).

(** The same, with two orders filled beside order 1; the live order is 4. *)
Definition compaction_script : list event :=
  [signal_at (buy 1 10 5) 0; signal_at (buy 2 10 1) 0; full_fill 2 1; signal_at (buy 2 10 1) 0; full_fill 3 1;
   EvTimeouts 3000000; signal_at (sell 2 10 7) 3000000; EvTimeouts 5000000].

(** Order 1 rests; seventeen orders come and go beside it. *)
Definition churn_script : list event :=
  signal_at (buy 1 10 5) 0 ::
  concat ((λ k, [signal_at (buy 2 10 1) 0; full_fill (Z.of_nat k) 1]) <$> seq 2 17).

(** C40. The timeout pass forgets every order it cancels, so the exchange's
    acknowledgement of that very cancellation finds no order, yet still lowers
    [outstanding_count_].  From every state of the invariant: after the pass
    and the acknowledgement for any order it cancelled, the count is one less
    than the number of orders that are tracked, and when it has reached zero
    the table may be cleared with a live order in it; unless no order was
    left, the invariant does not hold any more. *)
Theorem late_cancel_ack_miscounts (ndebug : bool) {M : Type} `{TM : Table Z OrderInfo M} `{TI : TableIter Z OrderInfo M}
    `{TR : TableRebuild M} {TL : TableLaws Z OrderInfo M} {TIL : TableIterLaws Z OrderInfo M}
    (o : OrderManager M) (now : Z) k i ack :
  inv ndebug o → kill_switch_state o = kNormal → 0 <= now < 2 ^ 63 → kTickIntervalNs <= now - last_advance_ns_ o →
  orders o !! k = Some i → remaining o i <= ticks_due o now → ca_client_order_id ack = k →
  ∃ o1 count o2, advance_timeouts ndebug o now = Some (o1, count) ∧ inv ndebug o1 ∧ orders o1 !! k = None ∧
    on_cancel_ack ndebug o1 ack = Some o2 ∧ outstanding_count o2 = Z.max 0 (Z.of_nat (size (orders o1)) - 1) ∧
    (orders o2 = orders o1 ∨ orders o2 = ∅ ∧ outstanding_count o2 = 0) ∧ (orders o1 ≠ ∅ → ¬ inv ndebug o2).
Proof.
  intros Hinv Hn Ht Hge Hk Hr Hack. destruct (advance_spec ndebug o now Hinv Hn Ht Hge) as (o1 & n & E & Hi1 & (Ho1 & _) & _).
  assert (orders o1 !! k = None) as Hk1.
  { rewrite Ho1. apply map_lookup_filter_None. right. intros i' Hi'. simpl. rewrite Hk in Hi'. injection Hi' as <-. lia. }
  subst k. destruct (on_cancel_ack_unknown ndebug o1 ack (proj1 Hi1) Hk1) as (o2 & E2 & Hc2 & Ho2 & Hx).
  exists o1, n, o2. do 6 (split; [done |]). intros Hne [Hco2 _].
  destruct (map_choose (orders o1) Hne) as (k' & i' & Hk'). pose proof (v_count _ _ Hco2) as Hs2. unfold outstanding_count in *.
  assert (0 < size (orders o1))%nat as Hpos by (apply Nat.neq_0_lt_0; intros H0; by apply map_size_empty_iff in H0).
  destruct Ho2 as [Ho2 | [Ho2 Hz]]; rewrite Ho2 in Hs2; [lia |].
  destruct (v_info _ _ (proj1 Hi1) k' i' Hk') as (_ & Hsym & _).
  pose proof (v_per_symbol _ _ (proj1 Hi1) _ Hsym) as Hp1. rewrite <- Hx in Hsym. pose proof (v_per_symbol _ _ Hco2 _ Hsym) as Hp2.
  rewrite Hx, Hp1, Ho2 in Hp2. injection Hp2 as Hp2. pose proof (symbol_count_delete _ _ _ (oi_symbol_id i') Hk') as Hd.
  rewrite bool_decide_true in Hd by done. pose proof (symbol_count_range (delete k' (orders o1)) (oi_symbol_id i')) as Hrg.
  pose proof (symbol_count_range ∅ (oi_symbol_id i')) as H0. rewrite map_size_empty in H0. simpl in Hd. lia.
Qed.

(** Order 1 at 0 ms, order 2 at 3 ms: the pass at 5 ms cancels order 1. *)
Definition demo2 : OrderManager Outstanding := or_demo (handle false demo1 (EvTimeouts 3000000)).
Definition demo3 : OrderManager Outstanding := or_demo (handle false demo2 (EvSignal bid5 3000000 3000000)).

Lemma demo3_inv : inv false demo3.
Proof.
  destruct demo1_inv as [Hi1 Hp1].
  destruct (order_manager_step_inv false demo1 (EvTimeouts 3000000) demo2 Hi1 Hp1) as (Hi2 & Hp2 & _);
    [split; vm_compute; congruence | vm_compute; reflexivity |].
  apply (order_manager_step_inv false demo2 (EvSignal bid5 3000000 3000000) demo3 Hi2 Hp2); [| vm_compute; reflexivity].
  split; [| split; [| split; vm_compute; congruence]].
  - split; [vm_compute; split; congruence |]. split; [done |]. split; split; vm_compute; congruence.
  - repeat split; vm_compute; congruence.
Qed.

Lemma demo3_due : ∃ i, orders demo3 !! 1 = Some i ∧ remaining demo3 i <= ticks_due demo3 5000000.
Proof. eexists. split; vm_compute; [reflexivity | congruence]. Qed.

Lemma demo3_clock : kTickIntervalNs <= 5000000 - last_advance_ns_ demo3.
Proof. vm_compute. congruence. Qed.

Lemma demo3_normal : kill_switch_state demo3 = kNormal.
Proof. vm_compute. reflexivity. Qed.

Lemma demo3_leaves : (λ p : OrderManager Outstanding * Z, size (orders p.1)) <$> advance_timeouts false demo3 5000000 = Some 1%nat.
Proof. vm_compute. reflexivity. Qed.

Opaque demo3.

Lemma late_cancel_ack_miscounts_witness :
  ∃ o1 count o2, advance_timeouts false demo3 5000000 = Some (o1, count) ∧ inv false o1 ∧
    on_cancel_ack false o1 {| ca_client_order_id := 1; ca_send_ts := 0 |} = Some o2 ∧
    outstanding_count o2 = 0 ∧ size (orders o1) = 1%nat ∧ ¬ inv false o2.
Proof.
  destruct demo3_due as (i & Hi & Hr).
  destruct (late_cancel_ack_miscounts false demo3 5000000 1 i {| ca_client_order_id := 1; ca_send_ts := 0 |} demo3_inv demo3_normal
    ltac:(lia) demo3_clock Hi Hr eq_refl) as (o1 & count & o2 & E & H1 & _ & E2 & Hc & _ & Hno).
  pose proof demo3_leaves as Hs. rewrite E in Hs. injection Hs as Hs.
  change (size (orders o1) = 1%nat) in Hs. exists o1, count, o2. split; [exact E |]. split; [exact H1 |]. split; [exact E2 |].
  split; [by rewrite Hc, Hs |]. split; [exact Hs |]. apply Hno. intros H0. by rewrite H0, map_size_empty in Hs.
Defined.

(** Five limits on concrete runs. An order that was acknowledged still
    times out, since nothing but its end stops its timer; the position check
    projects the one order only, so two accepted orders can carry a position
    past the limit; a modification passes no size, notional or position
    check; and an order that passes every check can be refused by the
    outstanding map, full of tombstones while one order of two is live,
    which the source says should never happen.  And after a late
    acknowledgement the global limit of two lets a third order through, and
    a compaction forgets the live order, whose fill then moves no position. *)
Example order_manager_limits :
  max_outstanding (ctx_ demo) = 2 ∧
  (λ o, (counted o, take 1 (cancel_buf (ctx_ o)))) <$> handle_all false demo timeout_script
    = Some ((1, 1), [{| co_client_order_id := 1; co_symbol_id := 1; co_send_ts := 5000000 |}]) ∧
  counted <$> handle_all false demo (timeout_script ++ [cancel_ack 1]) = Some (0, 1) ∧
  counted <$> handle_all false demo
    (timeout_script ++ [cancel_ack 1; signal_at (sell 1 10 5) 6000000; signal_at (sell 2 10 5) 6000000]) = Some (2, 3) ∧
  (λ o, (counted o, net_position (ctx_ o))) <$> handle_all false demo compaction_script = Some ((1, 1), [0; 2]) ∧
  (λ o, (counted o, net_position (ctx_ o))) <$> handle_all false demo (compaction_script ++ [cancel_ack 1])
    = Some ((0, 0), [0; 2]) ∧
  (λ o, net_position (ctx_ o)) <$> handle_all false demo (compaction_script ++ [cancel_ack 1; full_fill 4 7])
    = Some [0; 2] ∧
  (λ o, (counted o, acks_received (counters_ o), timeouts_fired (counters_ o),
         take 1 (cancel_buf (ctx_ o)))) <$>
    handle_all false demo
      [signal_at (buy 1 10 5) 0;
       EvOrderAck {| oa_client_order_id := 1; oa_exchange_order_id := 9; oa_send_ts := 0 |}; EvTimeouts 5000000]
    = Some ((0, 0), 1, 1, [{| co_client_order_id := 1; co_symbol_id := 1; co_send_ts := 5000000 |}]) ∧
  (λ o, (max_position_ o, net_position (ctx_ o))) <$>
    handle_all false demo
      [signal_at (buy 1 10 100) 0; signal_at (buy 1 10 100) 0; full_fill 1 100; full_fill 2 100]
    = Some (100, [200; 0]) ∧
  (λ o, (max_order_size_ o, max_notional_ o, snd <$> check_modify o (buy 1 1000 1000) 7)) <$>
    handle_all false demo [signal_at (buy 1 10 5) 0]
    = Some (100, 50000, Some (Some {| mo_client_order_id := 1; mo_symbol_id := 1; mo_new_price := 1000;
                                      mo_new_qty := 1000; mo_send_ts := 7 |})) ∧
  (λ o, (counted o, verdict o (buy 2 10 1) 0, snd <$> on_signal false o (buy 2 10 1) 0 0)) <$>
    handle_all false demo churn_script
    = Some ((1, 1), None, Some None).
Proof. vm_compute. by split_and!. Qed.
