(* ===== verification/Startup.v ===== *)
(** Starting the trading client: how [src/apps/tick_to_trade/strategy_ctx.hpp]
    and [md_ctx.hpp] carve one buffer into the arrays of a thread, and the
    decisions of [main.cpp] (the sizes derived from the flags, the checks of
    the NUMA topology, the signal handler).

    Memory is the function from addresses to bytes; a pointer is its address.
    Sizes and alignments are those of the 64-bit target.  What the kernel
    says about processors, cards and memory is an argument. *)
From S2P Require Import Prelude.
From S2P Require Import BitUtils.
From S2P Require Import HashUtils.
From S2P Require Import IndexFreeStack.
From S2P Require Import TableInterface.
From S2P Require Import HashMap.
From S2P Require Import HashMapSpec.
From S2P Require Import TimingWheel.
From S2P Require Import TimingWheelSpec.
From S2P Require Import TimingWheelTick.
From S2P Require Import TradingTypes.
From S2P Require Import Endian.
From S2P Require Import Protocol.
From S2P Require Import OrderManager.
From S2P Require Import OrderManagerSpec.
From S2P Require Import OrderManagerTheorems.
Local Open Scope Z_scope.
Local Open Scope array_scope.

Definition kCacheLineSize : Z := 64.
Definition alignof_max_align_t : Z := 16.

(** [std::memset(a, 0, n)]. *)
Definition zero_fill (mem : Z → Z) (a n : Z) : Z → Z := λ x, if bool_decide (a <= x) && bool_decide (x < a + n) then 0 else mem x.

(** * The buffer of the strategy thread *)

Module Carve.
Section Carve.
Context (ndebug : bool) (kMaxSymbols : Z).

Definition sizeof_ActiveOrder : Z := 24.
Definition alignof_ActiveOrder : Z := 8.
Definition sizeof_CancelOrder : Z := 24.
Definition alignof_CancelOrder : Z := 8.
Definition slot_size : Z := 56.
Definition slot_alignment : Z := 8.

(** A [std::span] is its address and size. *)
Record StrategyCtx : Set := {
  tcp_rx : Z;
  tcp_rx_size : Z;
  tcp_tx : Z * Z;
  scratch : Z * Z;
  net_position : Z;
  outstanding_per_symbol : Z;
  active_orders : Z;
  map_buf : Z;
  map_buf_size : Z;
  map_capacity : Z;
  cancel_buf : Z;
  timeout_wheel_buf : Z;
  timeout_wheel_buf_size : Z;
  timeout_wheel_size : Z;
  timeout_max_timers : Z;
  timeout_ids : Z;
  max_symbols : Z;
  max_outstanding : Z;
  max_outstanding_per_symbol : Z;
}.

Definition strategy_ctx_buf_size (tcp_rx_size tcp_tx_size scratch_size max_outstanding timeout_wheel_size timeout_max_timers : Z) : option Z :=
  let offset := u64 (u64 (align_up tcp_rx_size kCacheLineSize + align_up tcp_tx_size kCacheLineSize) + scratch_size) in
  let offset := align_up offset alignof_max_align_t in
  let offset := u64 (offset + u64 (kMaxSymbols * 8)) in
  let offset := align_up offset 4 in
  let offset := u64 (offset + u64 (kMaxSymbols * 4)) in
  let offset := align_up offset alignof_ActiveOrder in
  let offset := u64 (offset + u64 (u64 (kMaxSymbols * OMgr.kSideCount) * sizeof_ActiveOrder)) in
  let offset := align_up offset alignof_CancelOrder in
  let offset := u64 (offset + u64 (max_outstanding * sizeof_CancelOrder)) in
  map_cap ← OMgr.order_ctx_map_capacity max_outstanding;
  let offset := align_up offset slot_alignment in
  let offset := u64 (offset + HM.required_buffer_size slot_size map_cap) in
  let offset := align_up offset 8 in
  let offset := u64 (offset + u64 (max_outstanding * 8)) in
  let offset := align_up offset alignof_max_align_t in
  Some (u64 (offset + TW.required_buffer_size ndebug timeout_wheel_size timeout_max_timers)).

Definition make_strategy_ctx (base tcp_rx_size tcp_tx_size scratch_size max_outstanding max_outstanding_per_symbol timeout_wheel_size timeout_max_timers : Z)
    (mem : Z → Z) : option (StrategyCtx * (Z → Z)) :=
  let tcp_rx := base + 0 in
  let offset := align_up (u64 (0 + tcp_rx_size)) kCacheLineSize in
  let tcp_tx := base + offset in
  let offset := align_up (u64 (offset + tcp_tx_size)) kCacheLineSize in
  let scratch := base + offset in
  let offset := u64 (offset + scratch_size) in
  let offset := align_up offset alignof_max_align_t in
  let net_pos := base + offset in
  let offset := u64 (offset + u64 (kMaxSymbols * 8)) in
  let mem := zero_fill mem net_pos (u64 (kMaxSymbols * 8)) in
  let offset := align_up offset 4 in
  let os_per_sym := base + offset in
  let offset := u64 (offset + u64 (kMaxSymbols * 4)) in
  let mem := zero_fill mem os_per_sym (u64 (kMaxSymbols * 4)) in
  let offset := align_up offset alignof_ActiveOrder in
  let active := base + offset in
  let active_bytes := u64 (u64 (kMaxSymbols * OMgr.kSideCount) * sizeof_ActiveOrder) in
  let offset := u64 (offset + active_bytes) in
  let mem := zero_fill mem active active_bytes in
  let offset := align_up offset alignof_CancelOrder in
  let cancel := base + offset in
  let offset := u64 (offset + u64 (max_outstanding * sizeof_CancelOrder)) in
  map_cap ← OMgr.order_ctx_map_capacity max_outstanding;
  let offset := align_up offset slot_alignment in
  let map := base + offset in
  let map_size := HM.required_buffer_size slot_size map_cap in
  let offset := u64 (offset + map_size) in
  let offset := align_up offset 8 in
  let tids := base + offset in
  let offset := u64 (offset + u64 (max_outstanding * 8)) in
  let offset := align_up offset alignof_max_align_t in
  let wheel_buf := base + offset in
  let wheel_buf_size := TW.required_buffer_size ndebug timeout_wheel_size timeout_max_timers in
  Some ({| tcp_rx := tcp_rx; tcp_rx_size := tcp_rx_size; tcp_tx := (tcp_tx, tcp_tx_size); scratch := (scratch, scratch_size);
           net_position := net_pos; outstanding_per_symbol := os_per_sym; active_orders := active;
           map_buf := map; map_buf_size := map_size; map_capacity := map_cap; cancel_buf := cancel;
           timeout_wheel_buf := wheel_buf; timeout_wheel_buf_size := wheel_buf_size;
           timeout_wheel_size := timeout_wheel_size; timeout_max_timers := timeout_max_timers; timeout_ids := tids;
           max_symbols := kMaxSymbols; max_outstanding := max_outstanding; max_outstanding_per_symbol := max_outstanding_per_symbol |}, mem).

(** The arrays a context points to, by address and size, in the order of the
    layout. *)
Definition regions (c : StrategyCtx) : list (Z * Z) :=
  [(tcp_rx c, tcp_rx_size c); tcp_tx c; scratch c; (net_position c, max_symbols c * 8); (outstanding_per_symbol c, max_symbols c * 4);
   (active_orders c, max_symbols c * OMgr.kSideCount * sizeof_ActiveOrder); (cancel_buf c, max_outstanding c * sizeof_CancelOrder);
   (map_buf c, map_buf_size c); (timeout_ids c, max_outstanding c * 8); (timeout_wheel_buf c, timeout_wheel_buf_size c)].
Definition alignments : list Z :=
  [kCacheLineSize; kCacheLineSize; kCacheLineSize; alignof_max_align_t; 4; alignof_ActiveOrder; alignof_CancelOrder; slot_alignment; 8; alignof_max_align_t].
End Carve.

(** What the order manager finds through the pointers. *)
Section View.
Context (native_little : bool) (mem : Z → Z).
Definition word (a : Z) (n : nat) : Z := native_value native_little ((λ i, mem (a + i)) <$> seqZ 0 (Z.of_nat n)).
Definition array {A : Type} (elt : Z → A) (a count size : Z) : list A := (λ i, elt (a + i * size)) <$> seqZ 0 count.
Definition view (c : StrategyCtx) : OMgr.StrategyCtx :=
  {| OMgr.net_position := array (λ a, s64 (word a 8)) (net_position c) (max_symbols c) 8;
     OMgr.outstanding_per_symbol := array (λ a, word a 4) (outstanding_per_symbol c) (max_symbols c) 4;
     OMgr.active_orders := array (λ a, {| OMgr.ao_client_order_id := word a 8; OMgr.ao_price := s64 (word (a + 8) 8); OMgr.ao_qty := word (a + 16) 4;
                                          OMgr.ao_resting := bool_decide (word (a + 20) 1 ≠ 0) |})
                             (active_orders c) (max_symbols c * OMgr.kSideCount) sizeof_ActiveOrder;
     OMgr.cancel_buf := array (λ a, {| co_client_order_id := word a 8; co_symbol_id := word (a + 8) 4; co_send_ts := s64 (word (a + 16) 8) |})
                          (cancel_buf c) (max_outstanding c) sizeof_CancelOrder;
     OMgr.timeout_ids := array (λ a, word a 8) (timeout_ids c) (max_outstanding c) 8;
     OMgr.max_symbols := max_symbols c; OMgr.max_outstanding := max_outstanding c; OMgr.max_outstanding_per_symbol := max_outstanding_per_symbol c |}.
End View.
End Carve.

(** * The buffer of the feed thread *)

Module MdCarve.
Section MdCarve.
(** [CMSG_SPACE(sizeof(struct timespec))] is the C library's. *)
Context (kCmsgBufSize : Z).

Definition sizeof_iovec : Z := 16.
Definition alignof_iovec : Z := 8.
Definition sizeof_mmsghdr : Z := 64.
Definition alignof_mmsghdr : Z := 8.
Definition alignof_cmsghdr : Z := 8.

Record iovec : Set := { iov_base : Z; iov_len : Z }.
Record mmsghdr : Set := { msg_name : Z; msg_namelen : Z; msg_iov : Z; msg_iovlen : Z; msg_control : Z; msg_controllen : Z; msg_flags : Z; msg_len : Z }.
Definition zero_hdr : mmsghdr :=
  {| msg_name := 0; msg_namelen := 0; msg_iov := 0; msg_iovlen := 0; msg_control := 0; msg_controllen := 0; msg_flags := 0; msg_len := 0 |}.

Record MdCtx : Set := {
  mmsg_bufs : Z;
  iovecs : Z;
  msgvec : Z;
  cmsg_bufs : Z;
  batch_size : Z;
  buf_size : Z;
}.

Definition md_ctx_buf_size (batch_size buf_size : Z) : Z :=
  let offset := u64 (0 + u64 (batch_size * buf_size)) in
  let offset := align_up offset alignof_iovec in
  let offset := u64 (offset + u64 (batch_size * sizeof_iovec)) in
  let offset := align_up offset alignof_mmsghdr in
  let offset := u64 (offset + u64 (batch_size * sizeof_mmsghdr)) in
  let offset := align_up offset alignof_cmsghdr in
  u64 (offset + u64 (batch_size * kCmsgBufSize)).

(** The loop that wires the arrays, from index [j]. *)
Fixpoint wire (n : nat) (j bufs iovs cmsgs buf_size : Z) (iov : list iovec) (msg : list mmsghdr) : option (list iovec * list mmsghdr) :=
  match n with
  | O => Some (iov, msg)
  | S n =>
      iov ← storeZ iov j {| iov_base := bufs + u64 (j * buf_size); iov_len := buf_size |};
      h ← msg.[j];
      msg ← storeZ msg j {| msg_name := msg_name h; msg_namelen := msg_namelen h; msg_iov := iovs + j * sizeof_iovec; msg_iovlen := 1;
                            msg_control := cmsgs + u64 (j * kCmsgBufSize); msg_controllen := kCmsgBufSize; msg_flags := msg_flags h; msg_len := msg_len h |};
      wire n (u32 (j + 1)) bufs iovs cmsgs buf_size iov msg
  end.

(** [content] is what the array of [iovec] held. *)
Definition make_md_ctx (base batch_size buf_size : Z) (content : list iovec) : option (MdCtx * list iovec * list mmsghdr) :=
  let bufs := base + 0 in
  let offset := u64 (0 + u64 (batch_size * buf_size)) in
  let offset := align_up offset alignof_iovec in
  let iovs := base + offset in
  let offset := u64 (offset + u64 (batch_size * sizeof_iovec)) in
  let offset := align_up offset alignof_mmsghdr in
  let msgs := base + offset in
  let offset := u64 (offset + u64 (batch_size * sizeof_mmsghdr)) in
  let offset := align_up offset alignof_cmsghdr in
  let cmsgs := base + offset in
  '(iov, msg) ← wire (Z.to_nat batch_size) 0 bufs iovs cmsgs buf_size (take (Z.to_nat batch_size) content) (replicate (Z.to_nat batch_size) zero_hdr);
  Some ({| mmsg_bufs := bufs; iovecs := iovs; msgvec := msgs; cmsg_bufs := cmsgs; batch_size := batch_size; buf_size := buf_size |}, iov, msg).
End MdCarve.
End MdCarve.

(** * The start of the process *)

Module Startup.

(** Both flags are written by the handler and the threads; [true] is set. *)
Definition SIGUSR1 : Z := 10.
Definition signal_handler (signum : Z) (g_stop g_kill_switch : bool) : bool * bool :=
  if bool_decide (signum = SIGUSR1) then (g_stop, true)
  else if g_kill_switch then (true, g_kill_switch)
  else (g_stop, true).

(** [check_hot_thread_affinity]: may the thread run there? *)
Definition check_hot_thread_affinity (strict_affinity : bool) (core numa : Z) : bool :=
  if bool_decide (core < 0) then negb strict_affinity
  else if bool_decide (numa >= 0) then true
  else negb strict_affinity.

Definition check_node_match (lhs_node rhs_node : Z) : bool :=
  negb (bool_decide (lhs_node >= 0) && bool_decide (rhs_node >= 0) && bool_decide (lhs_node ≠ rhs_node)).

Definition resolve_alloc_numa (requested_numa nic_node strategy_node md_node : Z) : Z :=
  if bool_decide (requested_numa >= 0) then requested_numa
  else if bool_decide (nic_node >= 0) then nic_node
  else if bool_decide (strategy_node >= 0) then strategy_node
  else if bool_decide (md_node >= 0) then md_node
  else -1.

(** [get_cpu_numa_node] and [get_nic_numa_node] answer from the kernel's
    tables; [nic_iface] is [None] when no interface is named.  The result is
    whether to go on, and the node left in [numa_node]. *)
Definition configure_numa_topology (get_cpu_numa_node : Z → Z) (get_nic_numa_node : list Z → Z)
    (pin_core_strategy pin_core_md : Z) (strict_affinity : bool) (nic_iface : list Z) (numa_node : Z) : bool * Z :=
  let strategy_numa := if bool_decide (pin_core_strategy >= 0) then get_cpu_numa_node (u32 pin_core_strategy) else -1 in
  let md_numa := if bool_decide (pin_core_md >= 0) then get_cpu_numa_node (u32 pin_core_md) else -1 in
  if negb (check_hot_thread_affinity strict_affinity pin_core_strategy strategy_numa) then (false, numa_node)
  else if negb (check_hot_thread_affinity strict_affinity pin_core_md md_numa) then (false, numa_node)
  else
    let nic_numa := if bool_decide (nic_iface = []) then -1 else get_nic_numa_node nic_iface in
    if negb (check_node_match strategy_numa md_numa) then (false, numa_node)
    else
      let numa_node := resolve_alloc_numa numa_node nic_numa strategy_numa md_numa in
      if bool_decide (numa_node >= 0) then
        if negb (check_node_match numa_node strategy_numa) then (false, numa_node)
        else if negb (check_node_match numa_node md_numa) then (false, numa_node)
        else if negb (check_node_match numa_node nic_numa) then (false, numa_node)
        else (true, numa_node)
      else (true, numa_node).

(** The flags that size and limit the strategy thread. *)
Record Flags : Set := {
  tcp_rx_size : Z;
  tcp_tx_size : Z;
  scratch_size : Z;
  max_outstanding : Z;
  max_outstanding_per_symbol : Z;
  max_position : Z;
  max_order_size : Z;
  max_notional : Z;
  max_orders_per_sec : Z;
  order_timeout_ms : Z;
}.

Section Start.
Context (native_little ndebug : bool) (kMaxSymbols : Z).

(** [timeout_wheel_size] and [timeout_max_timers]. *)
Definition wheel_dimensions (f : Flags) : option (Z * Z) :=
  let timeout_ticks := u64 (order_timeout_ms f) in
  timeout_wheel_size ← TW.round_up_capacity (u64 (timeout_ticks * 2));
  timeout_max_timers ← TW.round_up_capacity (max_outstanding f);
  Some (timeout_wheel_size, timeout_max_timers).

(** [strat_buf_total]. *)
Definition strat_buf_total (f : Flags) : option Z :=
  '(ws, mt) ← wheel_dimensions f;
  Carve.strategy_ctx_buf_size ndebug kMaxSymbols (tcp_rx_size f) (tcp_tx_size f) (scratch_size f) (max_outstanding f) ws mt.

(** The contexts and the order manager over a region at [base], whose bytes
    are [mem] and, where the map's slots will be, [slots]. *)
Definition start_order_manager (f : Flags) (base : Z) (mem : Z → Z) (slots : list (HM.Slot Z OMgr.OrderInfo))
    : option (Carve.StrategyCtx * OMgr.OrderManager (HM.HashMap Z OMgr.OrderInfo)) :=
  '(ws, mt) ← wheel_dimensions f;
  '(ctx, mem) ← Carve.make_strategy_ctx ndebug kMaxSymbols base (tcp_rx_size f) (tcp_tx_size f) (scratch_size f) (max_outstanding f)
                  (max_outstanding_per_symbol f) ws mt mem;
  order_timeout_ns ← check_s64 (order_timeout_ms f * 1000000);
  o ← OMgr.construct (Carve.view native_little mem ctx)
        (HM.create Carve.slot_size Carve.slot_alignment (Some (Carve.map_buf ctx, slots)) (Carve.map_buf_size ctx) (Carve.map_capacity ctx))
        (TW.construct ndebug (Some (Carve.timeout_wheel_buf ctx)) (Carve.timeout_wheel_buf_size ctx) (Carve.timeout_wheel_size ctx) (Carve.timeout_max_timers ctx))
        (max_position f) (max_order_size f) (max_notional f) (max_orders_per_sec f) 1000000000 order_timeout_ns;
  Some (ctx, o).
End Start.
End Startup.

(** * Layouts *)

(** Regions one after another between [lo] and [hi]: disjoint, and inside. *)
Fixpoint stacked (lo : Z) (rs : list (Z * Z)) (hi : Z) : Prop :=
  match rs with
  | [] => lo <= hi
  | (a, n) :: rs => lo <= a ∧ 0 <= n ∧ stacked (a + n) rs hi
  end.

Definition small_alignment (al : Z) : Prop := al = 4 ∨ al = 8 ∨ al = 16 ∨ al = 64.

Lemma align_step o al : small_alignment al → 0 <= o < 2 ^ 60 → o <= align_up o al < o + al ∧ align_up o al mod al = 0.
Proof.
  assert (∀ e, 0 <= e <= 6 → 0 <= o < 2 ^ 60 → o <= align_up o (2 ^ e) < o + 2 ^ e ∧ align_up o (2 ^ e) mod 2 ^ e = 0) as H.
  { intros e He Ho. assert (2 ^ e <= 2 ^ 6) by (apply Z.pow_le_mono_r; lia).
    destruct (align_up_spec o e) as (? & ? & _); [lia | lia | lia | done]. }
  intros [-> | [-> | [-> | ->]]]; [apply (H 2) | apply (H 3) | apply (H 4) | apply (H 6)]; lia.
Qed.

Lemma align_up_shift a x al :
  small_alignment al → 0 <= a < 2 ^ 59 → 0 <= x < 2 ^ 59 → a mod al = 0 → align_up (a + x) al = a + align_up x al.
Proof.
  intros Hal Ha Hx Hm. destruct (align_step (a + x) al Hal ltac:(lia)) as [H1 H2]. destruct (align_step x al Hal ltac:(lia)) as [H3 H4].
  revert H1 H2 H3 H4. generalize (align_up (a + x) al) (align_up x al). intros p q.
  destruct Hal as [-> | [-> | [-> | ->]]]; intros; Z.div_mod_to_equations; lia.
Qed.

Lemma aligned_at base off al : small_alignment al → base mod 64 = 0 → off mod al = 0 → (base + off) mod al = 0.
Proof. intros [-> | [-> | [-> | ->]]]; intros; Z.div_mod_to_equations; lia. Qed.

Lemma wheel_bytes_bound ndebug e k :
  1 <= e < 32 → 0 <= k < 32 → 0 <= TW.required_buffer_size ndebug (2 ^ e) (2 ^ k) < 2 ^ 40.
Proof.
  intros He Hk. assert (2 ^ e <= 2 ^ 31) by (apply Z.pow_le_mono_r; lia). assert (2 ^ k <= 2 ^ 31) by (apply Z.pow_le_mono_r; lia).
  assert (0 < 2 ^ e) by (apply Z.pow_pos_nonneg; lia). assert (0 < 2 ^ k) by (apply Z.pow_pos_nonneg; lia).
  unfold TW.required_buffer_size, TW.free_list_offset, TW.nodes_offset, IFS.required_buffer_size, TW.sizeof_node, TW.alignof_node.
  rewrite (u64_id (2 ^ e * 4)), (u64_id (2 ^ k * 40)), (u64_id (2 ^ k * 4)), (u64_id (2 ^ k * 1)) by mlia.
  destruct (align_step (2 ^ e * 4) 8) as [Ha _]; [unfold small_alignment; lia | lia |]. revert Ha. generalize (align_up (2 ^ e * 4) 8). intros a Ha.
  destruct ndebug; rewrite !u64_id; mlia.
Qed.

Lemma map_capacity_of mo :
  1 <= mo <= 2 ^ 29 → ∃ c, 2 <= c < 32 ∧ OMgr.order_ctx_map_capacity mo = Some (2 ^ c) ∧ mo * 4 <= 2 ^ c.
Proof.
  intros Hm. unfold OMgr.order_ctx_map_capacity, HM.round_up_capacity. rewrite u64_id by mlia.
  rewrite bool_decide_false by lia. case_bool_decide.
  - exists 2. split; [lia |]. split; [done |]. lia.
  - rewrite bool_decide_false by lia. rewrite u32_id by mlia. destruct (round_up_pow2_spec (mo * 4)) as (c & Hc & Hr & Hle & _); [lia |].
    exists c. split; [| done]. split; [| lia]. destruct (decide (c <= 1)); [| lia]. assert (2 ^ c <= 2 ^ 1) by (apply Z.pow_le_mono_r; lia). lia.
Qed.

Ltac layout_step :=
  match goal with
  | |- context [align_up ?o ?al] =>
      lazymatch o with context [align_up _ _] => fail | context [u64 _] => fail | _ => idtac end;
      let H := fresh "Hal" in let a := fresh "off" in
      assert (o <= align_up o al < o + al ∧ align_up o al mod al = 0) as H by (apply align_step; [unfold small_alignment; lia | lia]);
      generalize dependent (align_up o al); intros a H
  | |- context [u64 ?t] =>
      lazymatch t with context [align_up _ _] => fail | context [u64 _] => fail | _ => idtac end;
      rewrite (u64_id t) by (unfold is_u64; lia)
  end.

Section CarveSpec.
Import Carve.
Context (ndebug : bool) (K : Z) (HK : 1 <= K < 2 ^ 16).

(** The buffer is as large as its size says, to the byte, and the arrays are
    disjoint, in the documented order and aligned. *)
Lemma carve_spec base rx tx sc mo mops e k mem :
  0 <= base → base mod 64 = 0 → is_u32 rx → is_u32 tx → is_u32 sc → 1 <= mo <= 2 ^ 29 → 1 <= e < 32 → 0 <= k < 32 →
  ∃ N c ctx, strategy_ctx_buf_size ndebug K rx tx sc mo (2 ^ e) (2 ^ k) = Some N ∧ N < 2 ^ 60 ∧
    make_strategy_ctx ndebug K base rx tx sc mo mops (2 ^ e) (2 ^ k) mem =
      Some (ctx, zero_fill (zero_fill (zero_fill mem (net_position ctx) (K * 8)) (outstanding_per_symbol ctx) (K * 4))
                   (active_orders ctx) (K * OMgr.kSideCount * sizeof_ActiveOrder)) ∧
    2 <= c < 32 ∧ OMgr.order_ctx_map_capacity mo = Some (2 ^ c) ∧ mo * 4 <= 2 ^ c ∧
    ctx = {| tcp_rx := base; tcp_rx_size := rx; tcp_tx := ((tcp_tx ctx).1, tx); scratch := ((scratch ctx).1, sc);
             net_position := net_position ctx; outstanding_per_symbol := outstanding_per_symbol ctx; active_orders := active_orders ctx;
             map_buf := map_buf ctx; map_buf_size := 2 ^ c * slot_size; map_capacity := 2 ^ c; cancel_buf := cancel_buf ctx;
             timeout_wheel_buf := timeout_wheel_buf ctx; timeout_wheel_buf_size := TW.required_buffer_size ndebug (2 ^ e) (2 ^ k);
             timeout_wheel_size := 2 ^ e; timeout_max_timers := 2 ^ k; timeout_ids := timeout_ids ctx;
             max_symbols := K; max_outstanding := mo; max_outstanding_per_symbol := mops |} ∧
    stacked base (regions ctx) (base + N) ∧ timeout_wheel_buf ctx + timeout_wheel_buf_size ctx = base + N ∧
    Forall2 (λ r al, r.1 mod al = 0) (regions ctx) alignments.
Proof.
  intros Hb Hb64 Hrx Htx Hsc Hmo He Hk. destruct (map_capacity_of mo Hmo) as (c & Hc & Hcap & Hle).
  pose proof (wheel_bytes_bound ndebug e k He Hk) as HW. assert (2 ^ c <= 2 ^ 31) by (apply Z.pow_le_mono_r; lia).
  unfold strategy_ctx_buf_size, make_strategy_ctx. rewrite Hcap. cbn [mbind option_bind]. unfold HM.required_buffer_size. cbv zeta.
  unfold kCacheLineSize, alignof_max_align_t, alignof_ActiveOrder, alignof_CancelOrder, sizeof_ActiveOrder, sizeof_CancelOrder, slot_size, slot_alignment, OMgr.kSideCount.
  unfold is_u32 in *. remember (TW.required_buffer_size ndebug (2 ^ e) (2 ^ k)) as W eqn:EW. remember (2 ^ c) as cap eqn:Ecap.
  rewrite !Z.add_0_r, !Z.add_0_l. rewrite !(u64_id rx) by (unfold is_u64; lia).
  assert (align_up (align_up rx 64 + tx) 64 = align_up rx 64 + align_up tx 64) as Hshift.
  { destruct (align_step rx 64) as [? ?]; [unfold small_alignment; lia | lia |]. apply align_up_shift; [unfold small_alignment; lia | lia | lia | done]. }
  assert (u64 (align_up rx 64 + tx) = align_up rx 64 + tx) as Hu.
  { destruct (align_step rx 64) as [? ?]; [unfold small_alignment; lia | lia |]. rewrite u64_id by (unfold is_u64; lia). done. }
  rewrite Hu, Hshift. clear Hu Hshift.
  repeat layout_step.
  match goal with |- context [Some (?x, _) = Some (_, zero_fill _ _ _)] => eexists _, c, x end. split; [reflexivity |]. split; [lia |]. split; [reflexivity |]. rewrite <- Ecap.
  split; [done |]. split; [done |]. split; [done |]. split; [reflexivity |].
  cbn [regions tcp_rx tcp_rx_size tcp_tx scratch net_position outstanding_per_symbol active_orders map_buf map_buf_size cancel_buf
       timeout_wheel_buf timeout_wheel_buf_size timeout_ids max_symbols max_outstanding stacked].
  unfold OMgr.kSideCount, sizeof_ActiveOrder, sizeof_CancelOrder. split; [repeat split; lia |]. split; [lia |].
  assert (off mod 64 = 0) as Hoff by (by destruct Hal). assert ((off + off0) mod 64 = 0) as Hoff' by (destruct Hal as [_ ?], Hal0 as [_ ?]; Z.div_mod_to_equations; lia).
  repeat constructor; cbn [fst]; (exact Hb64 || (apply aligned_at; [unfold small_alignment, kCacheLineSize, alignof_max_align_t, alignof_ActiveOrder, alignof_CancelOrder, slot_alignment; lia | done |]));
    (done || (by repeat match goal with H : _ ∧ _ mod _ = 0 |- _ => destruct H as [_ ?] end)).
Qed.
End CarveSpec.

(** * The start of the order manager *)

Section StartSpec.
Import Startup OMSpec TWOps TWService.
Context (native_little ndebug : bool) (K : Z) (HK : 1 <= K < 2 ^ 16).

Lemma of_le_zero n : of_le (replicate n 0) = 0.
Proof. induction n as [| n IH]; [done |]. cbn [replicate of_le]. rewrite IH. done. Qed.

Lemma word_zero mem a (n : nat) : (∀ x, a <= x < a + Z.of_nat n → mem x = 0) → Carve.word native_little mem a n = 0.
Proof.
  intros Hz. unfold Carve.word. assert ((λ i, mem (a + i)) <$> seqZ 0 (Z.of_nat n) = replicate n 0) as ->.
  { apply list_eq_same_length with (n := n); [by rewrite length_replicate | rewrite length_fmap, length_seqZ; lia |].
    intros i x y Hi. rewrite list_lookup_fmap, lookup_replicate_2 by lia. rewrite lookup_seqZ_lt by lia. cbn [fmap option_fmap option_map].
    intros [= <-] [= <-]. apply Hz. lia. }
  unfold native_value, of_be. destruct native_little; [apply of_le_zero |]. rewrite reverse_replicate. apply of_le_zero.
Qed.

Lemma length_array {A : Type} (elt : Z → A) a count size : 0 <= count → lenZ (Carve.array elt a count size) = count.
Proof. intros Hc. unfold Carve.array. rewrite length_fmap, length_seqZ. lia. Qed.

Lemma elem_of_array {A : Type} (elt : Z → A) a count size x :
  x ∈ Carve.array elt a count size → ∃ i, 0 <= i < count ∧ x = elt (a + i * size).
Proof. unfold Carve.array. intros (i & -> & Hi)%list_elem_of_fmap. apply elem_of_seqZ in Hi. exists i. split; [lia | done]. Qed.

Lemma zero_fill_in mem a n x : a <= x < a + n → zero_fill mem a n x = 0.
Proof. intros H. unfold zero_fill. rewrite !bool_decide_true by lia. done. Qed.
Lemma zero_fill_keeps mem a n x : mem x = 0 → zero_fill mem a n x = 0.
Proof. intros H. unfold zero_fill. by destruct (_ && _). Qed.

(** What the flags may be. *)
Record flags_ok (f : Flags) : Prop := {
  fo_rx : is_u32 (tcp_rx_size f);
  fo_tx : is_u32 (tcp_tx_size f);
  fo_scratch : is_u32 (scratch_size f);
  fo_outstanding : 1 <= max_outstanding f <= 2 ^ 29;
  fo_per_symbol : is_u32 (max_outstanding_per_symbol f);
  fo_rate : is_u32 (max_orders_per_sec f);
  fo_timeout : 1 <= order_timeout_ms f <= 2 ^ 30;
}.

Lemma wheel_capacity n : 1 <= n <= 2 ^ 31 → ∃ e, 1 <= e < 32 ∧ TW.round_up_capacity n = Some (2 ^ e) ∧ n <= 2 ^ e.
Proof.
  intros Hn. unfold TW.round_up_capacity. rewrite bool_decide_false by lia. case_bool_decide; [exists 1; split; [lia |]; split; [done | lia] |].
  rewrite bool_decide_false by lia. rewrite u32_id by mlia. destruct (round_up_pow2_spec n) as (e & He & -> & Hle & _); [lia |].
  exists e. split; [| done]. split; [| lia]. destruct (decide (e <= 0)); [| lia]. assert (2 ^ e <= 2 ^ 0) by (apply Z.pow_le_mono_r; lia). lia.
Qed.

Lemma wheel_dimensions_ok f : flags_ok f →
  ∃ e k, 1 <= e < 32 ∧ 1 <= k < 32 ∧ wheel_dimensions f = Some (2 ^ e, 2 ^ k) ∧ order_timeout_ms f * 2 <= 2 ^ e ∧ max_outstanding f <= 2 ^ k.
Proof.
  intros [_ _ _ Hm _ _ Ht]. unfold wheel_dimensions. rewrite (u64_id (order_timeout_ms f)) by mlia. rewrite u64_id by mlia.
  destruct (wheel_capacity (order_timeout_ms f * 2)) as (e & He & -> & Hle); [lia |].
  destruct (wheel_capacity (max_outstanding f)) as (k & Hk & -> & Hlk); [lia |]. exists e, k. done.
Qed.

(** Integer division makes the refill interval zero above one order per
    nanosecond. *)
Lemma refill_divides_by_zero {M : Type} `{TM : Table Z OMgr.OrderInfo M} (o : OMgr.OrderManager M) now :
  OMgr.refill_interval_ns_ o = 0 → OMgr.last_refill_ts_ o = 0 → 0 <= now < 2 ^ 63 → OMgr.refill o now = None.
Proof.
  intros H0 Hl Hn. unfold OMgr.refill. rewrite Hl, H0, Z.sub_0_r. rewrite check_s64_ok by (unfold is_s64; lia). cbn [mbind option_bind].
  rewrite (bool_decide_true (now >= 0)) by lia. done.
Qed.

Lemma start_spec f base mem :
  flags_ok f → 0 <= base → base mod 4096 = 0 →
  ∃ N c ctx, strat_buf_total ndebug K f = Some N ∧ stacked base (Carve.regions ctx) (base + N) ∧
    Carve.timeout_wheel_buf ctx + Carve.timeout_wheel_buf_size ctx = base + N ∧
    Forall2 (λ r al, r.1 mod al = 0) (Carve.regions ctx) Carve.alignments ∧
    2 <= c < 32 ∧ OMgr.order_ctx_map_capacity (max_outstanding f) = Some (2 ^ c) ∧ Carve.map_capacity ctx = 2 ^ c ∧ Carve.map_buf_size ctx = 2 ^ c * Carve.slot_size ∧
    ∀ slots, 2 ^ c <= lenZ slots →
      ∃ m w mem' o, start_order_manager native_little ndebug K f base mem slots = Some (ctx, o) ∧
        OMgr.construct (Carve.view native_little mem' ctx) (Some m) (Some w) (max_position f) (max_order_size f) (max_notional f)
          (max_orders_per_sec f) 1000000000 (order_timeout_ms f * 1000000) = Some o ∧
        HMSpec.wf_at DefaultHash (2 ^ c) m ∧ HMSpec.to_map m = ∅ ∧ at_rest ndebug w ∧ pending w = ∅ ∧
        max_outstanding f <= TW.max_timers_ w ∧ order_timeout_ms f * 2 <= TW.wheel_size_ w ∧
        Carve.max_symbols ctx = K ∧ Carve.max_outstanding ctx = max_outstanding f ∧
        Carve.max_outstanding_per_symbol ctx = max_outstanding_per_symbol f ∧
        (∀ p, p ∈ OMgr.net_position (Carve.view native_little mem' ctx) → p = 0) ∧
        (∀ n, n ∈ OMgr.outstanding_per_symbol (Carve.view native_little mem' ctx) → n = 0) ∧
        (∀ a, a ∈ OMgr.active_orders (Carve.view native_little mem' ctx) → OMgr.ao_resting a = false).
Proof.
  intros Hf Hb Hpage. assert (base mod 64 = 0) as Hb64 by (Z.div_mod_to_equations; lia).
  destruct (wheel_dimensions_ok f Hf) as (e & k & He & Hk & Hdim & Hle & Hlk). destruct Hf as [Hrx Htx Hsc Hmo Hps Hrate Hto].
  destruct (carve_spec ndebug K HK base _ _ _ _ (max_outstanding_per_symbol f) e k mem Hb Hb64 Hrx Htx Hsc Hmo He ltac:(lia))
    as (N & c & ctx & HN & HN60 & Hmk & Hc & Hcap0 & Hcle & Hctx & Hst & Hend & Hal).
  exists N, c, ctx. unfold strat_buf_total. rewrite Hdim. cbn [mbind option_bind]. split; [exact HN |]. split; [exact Hst |]. split; [exact Hend |].
  split; [exact Hal |]. split; [exact Hc |]. split; [exact Hcap0 |].
  assert (Carve.map_capacity ctx = 2 ^ c ∧ Carve.map_buf_size ctx = 2 ^ c * Carve.slot_size ∧ Carve.timeout_wheel_buf_size ctx = TW.required_buffer_size ndebug (2 ^ e) (2 ^ k) ∧
    Carve.timeout_wheel_size ctx = 2 ^ e ∧ Carve.timeout_max_timers ctx = 2 ^ k ∧ Carve.max_symbols ctx = K ∧ Carve.max_outstanding ctx = max_outstanding f ∧
    Carve.max_outstanding_per_symbol ctx = max_outstanding_per_symbol f) as (E1 & E2 & E3 & E4 & E5 & E6 & E7 & E8) by (rewrite Hctx; done).
  clear Hctx. split; [exact E1 |]. split; [exact E2 |]. intros slots Hslots.
  assert (Carve.map_buf ctx mod Carve.slot_alignment = 0) as Hma by exact (Forall2_lookup_lr _ _ _ 7 _ _ Hal eq_refl eq_refl).
  assert (Carve.timeout_wheel_buf ctx mod 16 = 0) as Hwa by exact (Forall2_lookup_lr _ _ _ 9 _ _ Hal eq_refl eq_refl).
  assert (2 ^ c <= 2 ^ 31) by (apply Z.pow_le_mono_r; lia). assert (0 < 2 ^ c) by (apply Z.pow_pos_nonneg; lia).
  destruct (HMSpec.create_spec DefaultHash (K := Z) (V := OMgr.OrderInfo) Carve.slot_size Carve.slot_alignment (Carve.map_buf ctx) slots (Carve.map_buf_size ctx) (2 ^ c))
    as (m & Hm & Hwf & Hmm & Hmc); [apply HMSpec.is_valid_capacity_iff; by exists c | exact Hma | done | rewrite E2; unfold Carve.slot_size; lia | rewrite E2; unfold Carve.slot_size; lia |].
  destruct (TWService.construct_enough ndebug (CB := unit) (Carve.timeout_wheel_buf ctx) (Carve.timeout_wheel_buf_size ctx) e k) as [Hw _];
    [done | lia | unfold TW.alignof_node; Z.div_mod_to_equations; lia | rewrite E3; lia |].
  assert (2 ^ k <= 2 ^ 31) by (apply Z.pow_le_mono_r; lia). assert (0 < 2 ^ k) by (apply Z.pow_pos_nonneg; lia).
  destruct (TWService.init_nodes_rest ndebug (CB := unit) e (2 ^ k)) as [Hrest Hpend]; [done | lia |].
  unfold start_order_manager. rewrite Hdim. cbn [mbind option_bind]. rewrite Hmk. cbn [mbind option_bind].
  rewrite check_s64_ok by (unfold is_s64; lia). cbn [mbind option_bind]. rewrite E1, Hm, E4, E5, Hw.
  set (mem' := zero_fill _ _ _). eexists m, _, mem', _. split; [reflexivity |]. split; [reflexivity |]. split; [by split |]. split; [done |].
  split; [exact Hrest |]. split; [exact Hpend |]. cbn [TW.max_timers_ TW.wheel_size_ TW.init_nodes]. split; [done |]. split; [done |]. do 3 (split; [done |]).
  assert (∀ x, Carve.net_position ctx <= x < Carve.net_position ctx + K * 8 → mem' x = 0) as Z1 by (intros x Hx; by do 2 apply zero_fill_keeps; apply zero_fill_in).
  assert (∀ x, Carve.outstanding_per_symbol ctx <= x < Carve.outstanding_per_symbol ctx + K * 4 → mem' x = 0) as Z2 by (intros x Hx; by apply zero_fill_keeps, zero_fill_in).
  assert (∀ x, Carve.active_orders ctx <= x < Carve.active_orders ctx + K * OMgr.kSideCount * Carve.sizeof_ActiveOrder → mem' x = 0) as Z3 by (intros x Hx; by apply zero_fill_in).
  cbn [Carve.view OMgr.net_position OMgr.outstanding_per_symbol OMgr.active_orders]. rewrite E6. split; [| split].
  - intros p (i & Hi & ->)%elem_of_array. rewrite word_zero; [done |]. intros x Hx. apply Z1. lia.
  - intros p (i & Hi & ->)%elem_of_array. apply word_zero. intros x Hx. apply Z2. lia.
  - intros a (i & Hi & ->)%elem_of_array. cbn [OMgr.ao_resting]. rewrite word_zero; [done |]. intros x Hx. apply Z3.
    unfold Carve.sizeof_ActiveOrder in *. lia.
Qed.
End StartSpec.

(** The flags' defaults, with 32 outstanding orders. *)
Definition demo_flags : Startup.Flags :=
  {| Startup.tcp_rx_size := 8192; Startup.tcp_tx_size := 4096; Startup.scratch_size := 128; Startup.max_outstanding := 32; Startup.max_outstanding_per_symbol := 16;
     Startup.max_position := 100; Startup.max_order_size := 1000; Startup.max_notional := 50000000; Startup.max_orders_per_sec := 100; Startup.order_timeout_ms := 5000 |}.

Import Startup OMSpec TWOps TWService.

(** The laws of the outstanding map at the capacity it is given. *)
Abbreviation laws c := (HMSpec.HashMap_TableLaws_at (V := OMgr.OrderInfo) DefaultHash (2 ^ c)).
Abbreviation iter_laws c := (HMSpec.HashMap_TableIterLaws_at (V := OMgr.OrderInfo) DefaultHash (2 ^ c)).

Lemma steps_inv ndebug c (o o' : OMgr.OrderManager Outstanding) :
  inv ndebug (TL := laws c) o → per_symbol_limit (TL := laws c) o → rtc (om_step ndebug (TL := laws c)) o o' →
  inv ndebug (TL := laws c) o' ∧ per_symbol_limit (TL := laws c) o'.
Proof.
  intros Hi Hp Hst. induction Hst as [o | o1 o2 o3 H12 _ IH]; [done |]. destruct H12 as [ev o2 Had E].
  destruct (order_manager_step_inv ndebug (TL := laws c) (TIL := iter_laws c) o1 ev o2 Hi Hp Had E) as (Hi2 & Hp2 & _). by apply IH.
Qed.

(** A null buffer size is no capacity: the map or the wheel aborts. *)
Lemma zero_flag_aborts native_little ndebug K g base mem slots :
  order_timeout_ms g = 0 ∨ max_outstanding g = 0 → start_order_manager native_little ndebug K g base mem slots = None.
Proof.
  intros Hz. destruct (start_order_manager native_little ndebug K g base mem slots) as [r |] eqn:E; [exfalso | done].
  unfold start_order_manager in E. destruct (wheel_dimensions g) as [[ws mt] |] eqn:Ed; [| done]. cbn [mbind option_bind] in E.
  destruct (Carve.make_strategy_ctx _ _ _ _ _ _ _ _ _ _ _) as [[ctx mem'] |] eqn:Em; [| done]. cbn [mbind option_bind] in E.
  unfold Carve.make_strategy_ctx in Em. destruct (OMgr.order_ctx_map_capacity (max_outstanding g)) as [cap |] eqn:Ec; [| done]. cbn [mbind option_bind] in Em.
  assert (Carve.timeout_wheel_size ctx = ws ∧ Carve.map_capacity ctx = cap) as [E1 E2] by (by injection Em as <- _). clear Em. rewrite E1, E2 in E.
  destruct (check_s64 _); [| done]. cbn [mbind option_bind] in E. destruct Hz as [Hz | Hz].
  - unfold wheel_dimensions in Ed. rewrite Hz in Ed. change (u64 (u64 0 * 2)) with 0 in Ed. change (TW.round_up_capacity 0) with (Some 0) in Ed. cbn [mbind option_bind] in Ed.
    destruct (TW.round_up_capacity (max_outstanding g)); [| done]. injection Ed as <- _. unfold TW.construct in E. cbn in E.
    by destruct (HM.create _ _ _ _ _).
  - rewrite Hz in Ec. vm_compute in Ec. injection Ec as <-. cbn in E. done.
Qed.

(** C11. The client starts: for every combination of valid flags the region [main] asks for is
    exactly what the contexts use, the arrays carved out of it are disjoint, in the documented
    order and aligned, whatever the memory held, and over them the outstanding map, the timing
    wheel and the order manager are constructed without aborting: without orders, at position zero,
    in the invariant, so that from there no admissible call ever fails.  A flag value of zero
    for the timeout or the number of orders aborts the start; a rate above one order per
    nanosecond is accepted and divides by zero at the first refill. *)
Theorem client_starts (native_little ndebug : bool) (K : Z) (f : Flags) (base : Z) (mem : Z → Z) :
  1 <= K < 2 ^ 16 → flags_ok f → 0 <= base → base mod 4096 = 0 →
  (∃ N c ctx, strat_buf_total ndebug K f = Some N ∧ stacked base (Carve.regions ctx) (base + N) ∧
     Carve.timeout_wheel_buf ctx + Carve.timeout_wheel_buf_size ctx = base + N ∧
     Forall2 (λ r al, r.1 mod al = 0) (Carve.regions ctx) Carve.alignments ∧
     OMgr.order_ctx_map_capacity (max_outstanding f) = Some (2 ^ c) ∧ Carve.map_buf_size ctx = 2 ^ c * Carve.slot_size ∧
     ∀ slots, 2 ^ c <= lenZ slots →
       ∃ o, start_order_manager native_little ndebug K f base mem slots = Some (ctx, o) ∧
         (∀ p, p ∈ OMgr.net_position (OMgr.ctx_ o) → p = 0) ∧
         if bool_decide (max_orders_per_sec f <= 1000000000)
         then inv ndebug (TL := laws c) o ∧ per_symbol_limit (TL := laws c) o ∧ orders (TL := laws c) o = ∅ ∧
              ∀ o', rtc (om_step ndebug (TL := laws c)) o o' → ∀ ev, admissible (TL := laws c) o' ev → is_Some (handle ndebug o' ev)
         else ∀ now, 0 <= now < 2 ^ 63 → OMgr.refill o now = None) ∧
  (∀ g slots, order_timeout_ms g = 0 ∨ max_outstanding g = 0 → start_order_manager native_little ndebug K g base mem slots = None).
Proof.
  intros HK Hf Hb Hpage. split.
  - destruct (start_spec native_little ndebug K HK f base mem Hf Hb Hpage) as (N & c & ctx & HN & Hst & Hend & Hal & Hc & Hmcap & Hcap & Hms & Hgo).
    exists N, c, ctx. do 6 (split; [done |]). intros slots Hsl.
    destruct (Hgo slots Hsl) as (m & w & mem' & o & Hstart & Hcon & Hwf & Hmm & Hrest & Hpend & Hmt & Hws & E6 & E7 & E8 & Hpos & Hper & Hact).
    assert (OMgr.ctx_ o = Carve.view native_little mem' ctx ∧ OMgr.refill_interval_ns_ o = (if bool_decide (max_orders_per_sec f > 0) then Z.quot 1000000000 (max_orders_per_sec f) else 1000000000) ∧
      OMgr.last_refill_ts_ o = 0 ∧ OMgr.order_timeout_ns_ o = order_timeout_ms f * 1000000 ∧ OMgr.timeout_wheel_ o = w ∧ OMgr.bucket_capacity_ o = max_orders_per_sec f) as (F1 & F2 & F3 & F4 & F5 & F6).
    { unfold OMgr.construct in Hcon. cbn [mbind option_bind] in Hcon. by injection Hcon as <-. }
    exists o. split; [done |]. split; [by rewrite F1 |]. destruct Hf as [_ _ _ Hmo Hps Hrate Hto]. unfold is_u32 in *.
    destruct (bool_decide_reflect (max_orders_per_sec f <= 1000000000)) as [Hr | Hr].
    + destruct (construct_inv ndebug (TL := laws c) _ m w _ _ _ _ _ _ o Hcon) as (Hi & Hp & Ho); try done.
      * split; rewrite ?F1, ?F2, ?F4, ?F5, ?F6; cbn [Carve.view OMgr.max_outstanding OMgr.max_symbols OMgr.net_position OMgr.outstanding_per_symbol OMgr.active_orders OMgr.cancel_buf OMgr.timeout_ids];
          rewrite ?E6, ?E7; unfold OMgr.kSideCount; rewrite ?length_array by lia; try lia.
        -- unfold OMgr.kTickIntervalNs. rewrite Z.quot_mul by lia. lia.
        -- case_bool_decide; [| lia]. rewrite Z.quot_div_nonneg by lia. split; [apply Z.div_le_lower_bound; lia | apply Z.div_lt_upper_bound; nia].
      * cbn [Carve.view OMgr.max_outstanding_per_symbol]. rewrite E8. lia.
      * split; [done |]. split; [done |]. split; [done |]. intros o' Hrun ev Had. destruct (steps_inv ndebug c o o' Hi Hp Hrun) as [Hi' Hp'].
        destruct (order_manager_step ndebug (TL := laws c) (TIL := iter_laws c) o' ev Hi' Hp' Had) as (o2 & E & _). by eexists.
    + intros now Hn. apply refill_divides_by_zero; [| done | done]. rewrite F2, bool_decide_true by lia. apply Z.quot_small. lia.
  - intros g slots Hz. by apply zero_flag_aborts.
Qed.

Lemma client_starts_witness :
  strat_buf_total true 2 demo_flags = Some 87680 ∧
  ∃ ctx o, start_order_manager true true 2 demo_flags 4096 (λ _, 255) (replicate 128 {| HM.key := 0; HM.value := no_info; HM.state := HM.kFull |}) = Some (ctx, o) ∧
    stacked 4096 (Carve.regions ctx) (4096 + 87680) ∧ inv true (TL := laws 7) o ∧ orders (TL := laws 7) o = ∅.
Proof.
  destruct (client_starts true true 2 demo_flags 4096 (λ _, 255)) as [(N & c & ctx & HN & Hst & _ & _ & Hcap & _ & Hgo) _];
    [lia | split; cbn; unfold is_u32; lia | lia | reflexivity |].
  split; [vm_compute; reflexivity |]. assert (N = 87680) as -> by (vm_compute in HN; congruence).
  assert (2 ^ c = 2 ^ 7) as Hc.
  { change (Some (2 ^ 7) = Some (2 ^ c)) in Hcap. by injection Hcap as <-. }
  assert (c = 7) as ->.
  { destruct (Z.lt_ge_cases c 0); [rewrite Z.pow_neg_r in Hc by lia; discriminate |]. by apply (Z.pow_inj_r 2). }
  destruct (Hgo (replicate 128 {| HM.key := 0; HM.value := no_info; HM.state := HM.kFull |})) as (o & Ho & _ & Hi); [reflexivity |].
  exists ctx, o. split; [exact Ho |]. split; [exact Hst |]. destruct Hi as (Hi & _ & Hord & _). split; [exact Hi | exact Hord].
Defined.

(** * Decisions of the start *)

(** C38. The gate and the handler of the trading process.  The start goes on exactly when strict
    affinity finds both threads pinned to cores of known nodes and all known nodes (requested,
    of the card, of either core) are one, and memory is bound to that node, or to none when
    none is known.  So without a requested node and with the strategy core unpinned memory is
    still bound to the node of the card or of the feed's core, where the help text of the flag
    [numa_node] says that there is no explicit binding.  Of any sequence of signals the first
    sets the kill switch, and the stop flag is set by every later one that is not [SIGUSR1],
    and by nothing else. *)
Theorem startup_decisions (cpu_node : Z → Z) (nic_node : list Z → Z) (core_s core_m : Z) (strict : bool) (iface : list Z) (requested n : Z) (signals : list Z) :
  let strategy := if bool_decide (core_s >= 0) then cpu_node (u32 core_s) else -1 in
  let md := if bool_decide (core_m >= 0) then cpu_node (u32 core_m) else -1 in
  let nic := if bool_decide (iface = []) then -1 else nic_node iface in
  let nodes := [requested; nic; strategy; md] in
  (configure_numa_topology cpu_node nic_node core_s core_m strict iface requested = (true, n) ↔
     (strict = true → 0 <= core_s ∧ 0 <= strategy ∧ 0 <= core_m ∧ 0 <= md) ∧
     (if bool_decide (n = -1) then Forall (λ x, x < 0) nodes else 0 <= n ∧ n ∈ nodes ∧ Forall (λ x, 0 <= x → x = n) nodes)) ∧
  foldl (λ '(stop, kill) s, signal_handler s stop kill) (false, false) signals =
    (existsb (λ s, negb (bool_decide (s = SIGUSR1))) (tail signals), negb (bool_decide (signals = []))).
Proof.
  intros strategy md nic nodes. split.
  - assert ((if bool_decide (n = -1) then Forall (λ x, x < 0) nodes else 0 <= n ∧ n ∈ nodes ∧ Forall (λ x, 0 <= x → x = n) nodes) ↔
      (n = -1 ∧ requested < 0 ∧ nic < 0 ∧ strategy < 0 ∧ md < 0) ∨
      (n ≠ -1 ∧ 0 <= n ∧ (n = requested ∨ n = nic ∨ n = strategy ∨ n = md) ∧
       (0 <= requested → requested = n) ∧ (0 <= nic → nic = n) ∧ (0 <= strategy → strategy = n) ∧ (0 <= md → md = n))) as ->.
    { unfold nodes. destruct (bool_decide_reflect (n = -1)); rewrite !list.Forall_cons, list.Forall_nil, ?elem_of_cons, ?elem_of_nil; tauto. }
    unfold configure_numa_topology. fold strategy md nic.
    assert (core_s < 0 → strategy = -1) as Hs by (intros; unfold strategy; rewrite bool_decide_false by lia; done).
    assert (core_m < 0 → md = -1) as Hm by (intros; unfold md; rewrite bool_decide_false by lia; done).
    clearbody strategy md nic. clear nodes.
    assert (∀ P Q R : Prop, (strict = true → P) ∧ Q ↔ (if strict then P else True) ∧ Q) as Hif by (destruct strict; naive_solver).
    rewrite Hif by exact True. unfold check_hot_thread_affinity, check_node_match, resolve_alloc_numa.
    destruct strict; repeat (case_bool_decide; cbn [negb andb]); (split; [intros Hx; first [discriminate | injection Hx as <-]; lia | intros Hx; first [exfalso; lia | f_equal; lia]]).
  - destruct signals as [| s0 signals]; [done |]. cbn [tail]. rewrite bool_decide_false by done. cbn [foldl negb].
    assert (signal_handler s0 false false = (false, true)) as -> by (unfold signal_handler; by case_bool_decide).
    enough (∀ b, foldl (λ '(stop, kill) s, signal_handler s stop kill) (b, true) signals = (b || existsb (λ s, negb (bool_decide (s = SIGUSR1))) signals, true)) as H by apply H.
    induction signals as [| s signals IH]; intros b; cbn [foldl existsb]; [by rewrite orb_false_r |].
    assert (signal_handler s b true = (b || negb (bool_decide (s = SIGUSR1)), true)) as ->.
    { unfold signal_handler. case_bool_decide; cbn; [by rewrite orb_false_r | by rewrite orb_true_r]. }
    by rewrite IH, orb_assoc.
Qed.

(** * The buffer of the feed thread *)

Section MdSpec.
Import MdCarve.
Context (kCmsgBufSize : Z).

(** [CMSG_SPACE] pads to the alignment of [cmsghdr]. *)
Definition cmsg_space_ok : Prop := 0 < kCmsgBufSize < 2 ^ 16 ∧ kCmsgBufSize mod 8 = 0.

Definition iovec_of (c : MdCtx) (j : Z) : iovec := {| iov_base := mmsg_bufs c + j * buf_size c; iov_len := buf_size c |}.
Definition header_of (c : MdCtx) (j : Z) : mmsghdr :=
  {| msg_name := 0; msg_namelen := 0; msg_iov := iovecs c + j * sizeof_iovec; msg_iovlen := 1;
     msg_control := cmsg_bufs c + j * kCmsgBufSize; msg_controllen := kCmsgBufSize; msg_flags := 0; msg_len := 0 |}.
Definition md_regions (c : MdCtx) : list (Z * Z) :=
  ((λ j, (mmsg_bufs c + j * buf_size c, buf_size c)) <$> seqZ 0 (batch_size c)) ++
  [(iovecs c, batch_size c * sizeof_iovec); (msgvec c, batch_size c * sizeof_mmsghdr)] ++
  ((λ j, (cmsg_bufs c + j * kCmsgBufSize, kCmsgBufSize)) <$> seqZ 0 (batch_size c)).

Lemma stacked_app lo rs rs' hi : ∀ mid, stacked lo rs mid → stacked mid rs' hi → stacked lo (rs ++ rs') hi.
Proof.
  revert lo. induction rs as [| [a n] rs IH]; cbn [stacked app]; intros lo mid H1 H2.
  - destruct rs' as [| [a n] rs']; cbn [stacked] in *; [lia |]. destruct H2 as (? & ? & ?). split; [lia | done].
  - destruct H1 as (? & ? & ?). split; [done |]. split; [done |]. by eapply IH.
Qed.

Lemma stacked_slots a size lo n j hi :
  0 <= size → lo <= a + j * size → a + (j + Z.of_nat n) * size <= hi → stacked lo ((λ j, (a + j * size, size)) <$> seqZ j (Z.of_nat n)) hi.
Proof.
  intros Hs. revert lo j. induction n as [| n IH]; intros lo j Hlo Hhi.
  - change (lo <= hi). lia.
  - rewrite seqZ_cons by lia. cbn [fmap list_fmap stacked]. split; [done |]. split; [done |].
    replace (Z.pred (Z.of_nat (S n))) with (Z.of_nat n) by lia. apply IH; lia.
Qed.

Lemma wire_spec n : ∀ j c (iov : list iovec) (msg : list mmsghdr),
  lenZ iov = batch_size c → lenZ msg = batch_size c → 0 <= j → j + Z.of_nat n = batch_size c → batch_size c < 2 ^ 32 →
  0 <= buf_size c → batch_size c * buf_size c < 2 ^ 64 → cmsg_space_ok →
  drop (Z.to_nat j) msg = replicate n zero_hdr →
  wire kCmsgBufSize n j (mmsg_bufs c) (iovecs c) (cmsg_bufs c) (buf_size c) iov msg =
    Some (take (Z.to_nat j) iov ++ (iovec_of c <$> seqZ j (Z.of_nat n)), take (Z.to_nat j) msg ++ (header_of c <$> seqZ j (Z.of_nat n))).
Proof.
  induction n as [| n IH]; intros j c iov msg Hi Hm Hj Hn Hb Hs Hov [Hk Hk8] Hz.
  - cbn [wire seqZ]. rewrite !take_ge by lia. cbn. by rewrite !app_nil_r.
  - cbn [wire]. assert (msg.[j] = Some zero_hdr) as Hmj.
    { unfold getZ. rewrite bool_decide_false by lia. rewrite <- (Nat.add_0_r (Z.to_nat j)), <- lookup_drop, Hz. done. }
    rewrite Hmj. unfold storeZ. rewrite !bool_decide_true by lia. cbn [mbind option_bind].
    rewrite !u64_id by (unfold is_u64; nia). rewrite u32_id by (unfold is_u32; lia).
    rewrite IH; [| unfold setZ; by rewrite length_insert | unfold setZ; by rewrite length_insert | lia | lia | done | done | done | done |].
    + do 2 f_equal; rewrite (seqZ_cons j (Z.of_nat (S n))) by lia; replace (Z.pred (Z.of_nat (S n))) with (Z.of_nat n) by lia; cbn [fmap list_fmap];
        rewrite cons_middle, app_assoc; f_equal; unfold setZ; replace (Z.to_nat (j + 1)) with (S (Z.to_nat j)) by lia;
        (erewrite take_S_r by (apply list_lookup_insert_eq; lia)); rewrite take_insert_ge by lia; done.
    + unfold setZ. replace (Z.to_nat (j + 1)) with (S (Z.to_nat j)) by lia. rewrite drop_insert_lt by lia.
      rewrite <- Nat.add_1_r, <- drop_drop, Hz. done.
Qed.

(** The buffer is as large as its size says; every header of the batch
    points to its own element of the vector, that to its own slot, and to its
    own control buffer, aligned and overlapping nothing. *)
Lemma md_carve_spec base batch size content :
  0 <= base → base mod 64 = 0 → 0 < batch < 2 ^ 32 → 0 <= size < 2 ^ 20 → cmsg_space_ok → batch <= lenZ content →
  ∃ c, make_md_ctx kCmsgBufSize base batch size content = Some (c, iovec_of c <$> seqZ 0 batch, header_of c <$> seqZ 0 batch) ∧
    batch_size c = batch ∧ buf_size c = size ∧ mmsg_bufs c = base ∧
    stacked base (md_regions c) (base + md_ctx_buf_size kCmsgBufSize batch size) ∧
    cmsg_bufs c + batch * kCmsgBufSize = base + md_ctx_buf_size kCmsgBufSize batch size ∧
    iovecs c mod alignof_iovec = 0 ∧ msgvec c mod alignof_mmsghdr = 0 ∧
    Forall (λ h, msg_control h mod alignof_cmsghdr = 0) (header_of c <$> seqZ 0 batch).
Proof.
  intros Hb Hb64 Hn Hs [Hk Hk8] Hc. unfold make_md_ctx, md_ctx_buf_size. cbv zeta.
  unfold alignof_iovec, alignof_mmsghdr, alignof_cmsghdr, sizeof_iovec, sizeof_mmsghdr. rewrite !Z.add_0_r, !Z.add_0_l.
  assert (0 <= batch * size < 2 ^ 53) as Hbs by nia. assert (0 <= batch * kCmsgBufSize < 2 ^ 50) as Hbk by nia.
  rewrite !(u64_id (batch * size)) by (unfold is_u64; lia). repeat layout_step.
  set (c := {| mmsg_bufs := base; iovecs := base + off; msgvec := base + off0; cmsg_bufs := base + off1; batch_size := batch; buf_size := size |}).
  pose proof (wire_spec (Z.to_nat batch) 0 c (take (Z.to_nat batch) content) (replicate (Z.to_nat batch) zero_hdr)) as Hw.
  cbn [mmsg_bufs iovecs cmsg_bufs batch_size buf_size c] in Hw. rewrite Hw; [| rewrite length_take; lia | rewrite length_replicate; lia | lia | lia | lia | lia | lia | done | done].
  cbn [mbind option_bind take Z.to_nat app]. rewrite !Z2Nat.id by lia. exists c. split; [done |]. do 3 (split; [done |]).
  split; [| split; [cbn; lia | split; [| split]]].
  - unfold md_regions. cbn [mmsg_bufs iovecs msgvec cmsg_bufs batch_size buf_size c]. unfold sizeof_iovec, sizeof_mmsghdr.
    rewrite <- (Z2Nat.id batch) at 1 4 by lia.
    apply (stacked_app _ _ _ _ (base + batch * size)); [apply stacked_slots; lia |]. cbn [stacked app]. split; [lia |]. split; [lia |]. split; [lia |]. split; [lia |].
    apply stacked_slots; lia.
  - cbn [iovecs c]. apply aligned_at; [unfold small_alignment; lia | done | by destruct Hal].
  - cbn [msgvec c]. apply aligned_at; [unfold small_alignment; lia | done | by destruct Hal0].
  - apply Forall_forall. intros h (j & <- & Hj)%in_map_iff. cbn [header_of msg_control cmsg_bufs c]. destruct Hal1 as [_ Hal1]. clear -Hb64 Hal1 Hk8.
    replace (base + off1 + j * kCmsgBufSize) with (base + (off1 + j * kCmsgBufSize)) by lia. apply aligned_at; [unfold small_alignment; lia | done |].
    rewrite Z.add_mod, Hal1, Z.mul_mod, Hk8 by lia. by rewrite Z.mul_0_r.
Qed.
End MdSpec.
