(* ===== verification/Strategy.v ===== *)
(** The spread strategy: [src/apps/tick_to_trade/spread_strategy.hpp].

    [NSymbols] is the template parameter.  An update is the message of
    [Protocol.v]; its type and side are bytes, compared as the source's
    enumerations are.  [out] is written only with the answer [true], so the
    answer is the signal. *)
From S2P Require Import Prelude.
From S2P Require Import TradingTypes.
From S2P Require Import Protocol.
From S2P Require Import OrderManager.
Local Open Scope Z_scope.
Local Open Scope array_scope.

Module Spread.
Import OMgr.

Record SymbolBBO : Set := {
  best_bid_ : Z;
  best_ask_ : Z;
  has_bid : bool;
  has_ask : bool;
  buy_next : bool;
}.

Record SpreadStrategy : Set := {
  spread_threshold_ : Z;
  default_qty_ : Z;
  bbo_ : list SymbolBBO;
  signals_generated_ : Z;
}.

Section Strategy.
Context (NSymbols : Z).
Implicit Types s : SpreadStrategy.

Definition no_bbo : SymbolBBO :=
  {| best_bid_ := 0; best_ask_ := 0; has_bid := false; has_ask := false; buy_next := true |}.

Definition construct (spread_threshold default_qty : Z) : SpreadStrategy :=
  {| spread_threshold_ := spread_threshold; default_qty_ := default_qty;
     bbo_ := replicate (Z.to_nat NSymbols) no_bbo; signals_generated_ := 0 |}.

Definition with_bbo s (bbos : list SymbolBBO) (generated : Z) : SpreadStrategy :=
  {| spread_threshold_ := spread_threshold_ s; default_qty_ := default_qty_ s; bbo_ := bbos;
     signals_generated_ := generated |}.

Definition on_market_data s (update : MarketDataUpdate) : option (SpreadStrategy * option Signal) :=
  if negb (bool_decide (md_msg_type update = md_msg_type_id kBBOUpdate)) then Some (s, None)
  else if bool_decide (md_symbol_id update = 0) || bool_decide (md_symbol_id update > NSymbols) then Some (s, None)
  else
    let idx := u32 (md_symbol_id update - 1) in
    bbo ← (bbo_ s).[idx];
    let bbo :=
      if bool_decide (side_of_u8 (md_side update) = kBid)
      then {| best_bid_ := md_price update; best_ask_ := best_ask_ bbo; has_bid := true; has_ask := has_ask bbo;
              buy_next := buy_next bbo |}
      else {| best_bid_ := best_bid_ bbo; best_ask_ := md_price update; has_bid := has_bid bbo; has_ask := true;
              buy_next := buy_next bbo |} in
    bbos ← storeZ (bbo_ s) idx bbo;
    let s := with_bbo s bbos (signals_generated_ s) in
    if negb (has_bid bbo) || negb (has_ask bbo) then Some (s, None)
    else if bool_decide (best_ask_ bbo <= best_bid_ bbo) then Some (s, None)
    else
      spread ← check_s64 (best_ask_ bbo - best_bid_ bbo);
      if bool_decide (spread > spread_threshold_ s) then
        let side := if buy_next bbo then kBid else kAsk in
        let out := {| sig_side := side; sig_price := if bool_decide (side = kBid) then best_ask_ bbo else best_bid_ bbo;
                      sig_qty := default_qty_ s; sig_symbol_id := md_symbol_id update |} in
        bbos ← storeZ (bbo_ s) idx
          {| best_bid_ := best_bid_ bbo; best_ask_ := best_ask_ bbo; has_bid := has_bid bbo; has_ask := has_ask bbo;
             buy_next := negb (buy_next bbo) |};
        Some (with_bbo s bbos (u64 (signals_generated_ s + 1)), Some out)
      else Some (s, None).

(** The drained updates, one after the other, with the signals they cause. *)
Fixpoint on_updates s (updates : list MarketDataUpdate) : option (SpreadStrategy * list Signal) :=
  match updates with
  | [] => Some (s, [])
  | u :: updates =>
      '(s, out) ← on_market_data s u;
      '(s, outs) ← on_updates s updates;
      Some (s, match out with Some sg => sg :: outs | None => outs end)
  end.

Definition best_bid s (symbol_id : Z) : option Z := bbo ← (bbo_ s).[u32 (symbol_id - 1)]; Some (best_bid_ bbo).
Definition best_ask s (symbol_id : Z) : option Z := bbo ← (bbo_ s).[u32 (symbol_id - 1)]; Some (best_ask_ bbo).
Definition spread s (symbol_id : Z) : option Z :=
  bbo ← (bbo_ s).[u32 (symbol_id - 1)];
  if negb (has_bid bbo) || negb (has_ask bbo) then Some 0 else check_s64 (best_ask_ bbo - best_bid_ bbo).
Definition signals_generated s : Z := signals_generated_ s.
End Strategy.
End Spread.
