(* ===== verification/StrategyTheorems.v ===== *)
(** What is proved of the spread strategy ([Strategy.v]): its per-symbol
    state machine takes the decisions of a specification that looks at the
    whole history of updates, and every signal it emits is one the order
    manager may be given. *)
From S2P Require Import Prelude.
From S2P Require Import TradingTypes.
From S2P Require Import Protocol.
From S2P Require Import OrderManager.
From S2P Require Import OrderManagerSpec.
From S2P Require Import Strategy.
Import OMgr Spread.
Local Open Scope Z_scope.
Local Open Scope array_scope.

(** * The specification *)

(** An update of symbol [sym] the strategy looks at, on the bid side or not. *)
Definition concerns (sym : Z) (bid : bool) (u : MarketDataUpdate) : bool :=
  bool_decide (md_msg_type u = md_msg_type_id kBBOUpdate) && bool_decide (md_symbol_id u = sym) &&
  bool_decide ((side_of_u8 (md_side u) = kBid) ↔ bid = true).

(** The latest price of a side, [past] being newest first. *)
Fixpoint latest_price (sym : Z) (bid : bool) (past : list MarketDataUpdate) : option Z :=
  match past with
  | [] => None
  | u :: past => if concerns sym bid u then Some (md_price u) else latest_price sym bid past
  end.

(** Buy first, then alternate, per symbol. *)
Definition next_side (sym : Z) (emitted : list Signal) : Side :=
  if Nat.even (length (List.filter (λ sg, bool_decide (sig_symbol_id sg = sym)) emitted)) then kBid else kAsk.

(** The decision on the newest update of [past]. *)
Definition decide_signal (N threshold qty : Z) (past : list MarketDataUpdate) (emitted : list Signal) : option Signal :=
  match past with
  | [] => None
  | u :: _ =>
      let sym := md_symbol_id u in
      if bool_decide (md_msg_type u = md_msg_type_id kBBOUpdate) && bool_decide (1 <= sym <= N) then
        match latest_price sym true past, latest_price sym false past with
        | Some bid, Some ask =>
            if bool_decide (bid < ask) && bool_decide (ask - bid > threshold) then
              let side := next_side sym emitted in
              Some {| sig_side := side; sig_price := if bool_decide (side = kBid) then ask else bid;
                      sig_qty := qty; sig_symbol_id := sym |}
            else None
        | _, _ => None
        end
      else None
  end.

Fixpoint decisions (N threshold qty : Z) (past : list MarketDataUpdate) (emitted : list Signal)
    (updates : list MarketDataUpdate) : list Signal :=
  match updates with
  | [] => []
  | u :: updates =>
      match decide_signal N threshold qty (u :: past) emitted with
      | Some sg => sg :: decisions N threshold qty (u :: past) (emitted ++ [sg]) updates
      | None => decisions N threshold qty (u :: past) emitted updates
      end
  end.

(** * The state machine follows it *)

Section Strategy.
Context (N : Z) (HN : 0 <= N < 2 ^ 32).
Implicit Types s : SpreadStrategy.

Definition update_ok (u : MarketDataUpdate) : Prop :=
  is_u32 (md_symbol_id u) ∧ - 2 ^ 62 <= md_price u < 2 ^ 62.

Record follows s (past : list MarketDataUpdate) (emitted : list Signal) : Prop := {
  fo_length : lenZ (bbo_ s) = N;
  fo_bbo : ∀ sym b, 1 <= sym <= N → (bbo_ s).[sym - 1] = Some b →
    best_bid_ b = default 0 (latest_price sym true past) ∧ has_bid b = bool_decide (is_Some (latest_price sym true past)) ∧
    best_ask_ b = default 0 (latest_price sym false past) ∧ has_ask b = bool_decide (is_Some (latest_price sym false past)) ∧
    buy_next b = bool_decide (next_side sym emitted = kBid);
  fo_count : signals_generated_ s = u64 (lenZ emitted);
  fo_prices : ∀ sym bid p, latest_price sym bid past = Some p → - 2 ^ 62 <= p < 2 ^ 62;
}.

Lemma construct_follows threshold qty : follows (construct N threshold qty) [] [].
Proof.
  split; simpl; try done; [rewrite length_replicate; lia |].
  intros sym b _ Hb. apply getZ_to_lookup in Hb. by apply lookup_replicate in Hb as [-> _].
Qed.

Lemma latest_other sym bid u past :
  (md_msg_type u ≠ md_msg_type_id kBBOUpdate ∨ md_symbol_id u ≠ sym) →
  latest_price sym bid (u :: past) = latest_price sym bid past.
Proof.
  intros H. simpl. unfold concerns. destruct H as [H | H].
  - by rewrite (bool_decide_false (md_msg_type u = _)).
  - by rewrite (bool_decide_false (md_symbol_id u = sym)), andb_false_r.
Qed.

Lemma latest_this sym bid u past :
  md_msg_type u = md_msg_type_id kBBOUpdate → md_symbol_id u = sym →
  latest_price sym bid (u :: past) =
    if bool_decide (side_of_u8 (md_side u) = kBid) then (if bid then Some (md_price u) else latest_price sym bid past)
    else (if bid then latest_price sym bid past else Some (md_price u)).
Proof.
  intros H1 H2. simpl. unfold concerns. rewrite (bool_decide_true _ H1), (bool_decide_true _ H2). simpl.
  destruct bid; repeat case_bool_decide; try done; intuition congruence.
Qed.

Lemma latest_bounds u past :
  update_ok u → (∀ sym bid p, latest_price sym bid past = Some p → - 2 ^ 62 <= p < 2 ^ 62) →
  ∀ sym bid p, latest_price sym bid (u :: past) = Some p → - 2 ^ 62 <= p < 2 ^ 62.
Proof.
  intros [_ Hu] Hp sym bid p. simpl. destruct (concerns sym bid u); [by intros [= <-] | apply Hp].
Qed.

Local Arguments latest_price : simpl never.

Lemma next_side_other sym emitted sg : sig_symbol_id sg ≠ sym → next_side sym (emitted ++ [sg]) = next_side sym emitted.
Proof. intros H. unfold next_side. rewrite filter_app. simpl. by rewrite bool_decide_false, app_nil_r by done. Qed.

Lemma next_side_this sym emitted sg :
  sig_symbol_id sg = sym → (next_side sym (emitted ++ [sg]) = kBid) ↔ ¬ (next_side sym emitted = kBid).
Proof.
  intros H. unfold next_side. rewrite filter_app. simpl. rewrite bool_decide_true, length_app by done. simpl.
  rewrite Nat.add_1_r, Nat.even_succ, <- Nat.negb_even. by destruct (Nat.even _).
Qed.

Lemma follows_skip s u past emitted :
  follows s past emitted → update_ok u →
  (md_msg_type u ≠ md_msg_type_id kBBOUpdate ∨ ¬ 1 <= md_symbol_id u <= N) →
  follows s (u :: past) emitted.
Proof.
  intros [Hl Hb Hc Hp] Hu Hskip. split; try done; [| by apply latest_bounds].
  intros sym b Hs Hbs. rewrite !latest_other by (destruct Hskip; [by left | right; lia]). by apply Hb.
Qed.

Lemma follows_store s sym b past past' emitted emitted' generated :
  follows s past emitted → 1 <= sym <= N →
  best_bid_ b = default 0 (latest_price sym true past') → has_bid b = bool_decide (is_Some (latest_price sym true past')) →
  best_ask_ b = default 0 (latest_price sym false past') → has_ask b = bool_decide (is_Some (latest_price sym false past')) →
  buy_next b = bool_decide (next_side sym emitted' = kBid) →
  (∀ sym' bid, sym' ≠ sym → latest_price sym' bid past' = latest_price sym' bid past) →
  (∀ sym', sym' ≠ sym → next_side sym' emitted' = next_side sym' emitted) →
  (∀ sym bid p, latest_price sym bid past' = Some p → - 2 ^ 62 <= p < 2 ^ 62) →
  generated = u64 (lenZ emitted') →
  follows (with_bbo s ((bbo_ s).[sym - 1 <- b]) generated) past' emitted'.
Proof.
  intros [Hl Hb Hc Hp] Hs H1 H2 H3 H4 H5 Hother Hside Hpr Hg. split; simpl; try done; [by rewrite length_setZ |].
  intros sym' b' Hs' Hb'. destruct (decide (sym' = sym)) as [-> | Hne].
  - rewrite getZ_setZ_eq in Hb' by lia. by injection Hb' as <-.
  - rewrite getZ_setZ_ne in Hb' by lia. rewrite !Hother, Hside by done. by apply Hb.
Qed.

Lemma on_market_data_spec s u past emitted :
  follows s past emitted → update_ok u →
  let out := decide_signal N (spread_threshold_ s) (default_qty_ s) (u :: past) emitted in
  ∃ s', on_market_data N s u = Some (s', out) ∧
    follows s' (u :: past) (emitted ++ match out with Some sg => [sg] | None => [] end) ∧
    spread_threshold_ s' = spread_threshold_ s ∧ default_qty_ s' = default_qty_ s.
Proof.
  intros Hf Hu. unfold on_market_data. cbn [decide_signal].
  destruct (bool_decide_reflect (md_msg_type u = md_msg_type_id kBBOUpdate)) as [Ht | Ht]; simpl.
  2:{ exists s. rewrite app_nil_r. split_and!; try done. apply follows_skip; [done | done | by left]. }
  destruct (bool_decide_reflect (1 <= md_symbol_id u <= N)) as [Hs | Hs].
  2:{ assert (Hz : bool_decide (md_symbol_id u = 0) || bool_decide (md_symbol_id u > N) = true).
      { destruct Hu as [Hu _]. apply orb_true_iff. rewrite !bool_decide_eq_true. mlia. }
      rewrite Hz. exists s. rewrite app_nil_r. split_and!; try done. apply follows_skip; [done | done | by right]. }
  rewrite (bool_decide_false (_ = 0)), (bool_decide_false (_ > N)) by lia. simpl.
  set (sym := md_symbol_id u) in *. rewrite u32_id by mlia.
  destruct (getZ_is_Some (bbo_ s) (sym - 1)) as [b Hb]; [rewrite (fo_length _ _ _ Hf); lia |].
  rewrite Hb. cbn [mbind option_bind].
  destruct (fo_bbo _ _ _ Hf sym b Hs Hb) as (Hbb & Hhb & Hba & Hha & Hbn).
  pose proof (latest_bounds u past Hu (fo_prices _ _ _ Hf)) as Hprices.
  pose proof (latest_this sym true u past Ht eq_refl) as Hlb. pose proof (latest_this sym false u past Ht eq_refl) as Hla.
  set (b1 := if bool_decide (side_of_u8 (md_side u) = kBid) then _ else _).
  assert (best_bid_ b1 = default 0 (latest_price sym true (u :: past)) ∧
          has_bid b1 = bool_decide (is_Some (latest_price sym true (u :: past))) ∧
          best_ask_ b1 = default 0 (latest_price sym false (u :: past)) ∧
          has_ask b1 = bool_decide (is_Some (latest_price sym false (u :: past))) ∧
          buy_next b1 = bool_decide (next_side sym emitted = kBid)) as (H1 & H2 & H3 & H4 & H5).
  { rewrite Hlb, Hla. unfold b1. destruct (bool_decide_reflect (side_of_u8 (md_side u) = kBid)); simpl; split_and!; try done;
      symmetry; apply bool_decide_true; eauto. }
  assert (Hother : ∀ sym' bid, sym' ≠ sym → latest_price sym' bid (u :: past) = latest_price sym' bid past).
  { intros sym' bid Hne. apply latest_other. right. unfold sym in Hne. congruence. }
  clearbody b1. rewrite storeZ_Some by (rewrite (fo_length _ _ _ Hf); lia). cbn [mbind option_bind].
  assert (Hf1 : follows (with_bbo s ((bbo_ s).[sym - 1 <- b1]) (signals_generated_ s)) (u :: past) emitted).
  { eapply follows_store; try done. apply Hf. }
  cbn [with_bbo spread_threshold_ default_qty_ signals_generated_ bbo_].
  rewrite H2, H4. destruct (latest_price sym true (u :: past)) as [bid |] eqn:Ebid.
  2:{ rewrite bool_decide_false by by intros [? ?]. simpl. eexists. rewrite app_nil_r. split; [by destruct (latest_price sym false (u :: past)) | done]. }
  destruct (latest_price sym false (u :: past)) as [ask |] eqn:Eask.
  2:{ rewrite (bool_decide_false (is_Some None)) by by intros [? ?]. rewrite orb_true_r. eexists. rewrite app_nil_r. split; done. }
  rewrite !bool_decide_true by eauto. cbn [negb orb]. simpl in H1, H3. rewrite H1, H3.
  pose proof (Hprices _ _ _ Ebid). pose proof (Hprices _ _ _ Eask).
  destruct (bool_decide_reflect (bid < ask)) as [Hlt | Hge].
  2:{ rewrite bool_decide_true by lia. eexists. rewrite app_nil_r. split; done. }
  rewrite (bool_decide_false (ask <= bid)) by lia. rewrite check_s64_ok by mlia. cbn [mbind option_bind andb].
  destruct (bool_decide_reflect (ask - bid > spread_threshold_ s)) as [Hgt | Hle].
  2:{ eexists. rewrite app_nil_r. split; done. }
  rewrite H5. cbn [bbo_]. rewrite storeZ_Some by (rewrite length_setZ, (fo_length _ _ _ Hf); lia). cbn [mbind option_bind].
  assert (Hside : (if bool_decide (next_side sym emitted = kBid) then kBid else kAsk) = next_side sym emitted).
  { unfold next_side. by destruct (Nat.even _). }
  rewrite Hside. eexists. split; [done |]. split; [| done].
  set (sg := {| sig_side := _ |}).
  eapply (follows_store _ sym _ _ _ _ _ _ Hf1); simpl; rewrite ?Ebid, ?Eask; try done.
  - pose proof (next_side_this sym emitted sg eq_refl) as Hns.
    repeat case_bool_decide; simpl; try done; tauto.
  - intros sym' Hne. apply next_side_other. done.
  - rewrite (fo_count _ _ _ Hf), length_app. unfold u64. rewrite Zplus_mod_idemp_l. f_equal. simpl. lia.
Qed.

Local Arguments decide_signal : simpl never.

Lemma on_updates_spec updates s past emitted :
  follows s past emitted → Forall update_ok updates →
  ∃ s', on_updates N s updates = Some (s', decisions N (spread_threshold_ s) (default_qty_ s) past emitted updates) ∧
    follows s' (rev updates ++ past) (emitted ++ decisions N (spread_threshold_ s) (default_qty_ s) past emitted updates).
Proof.
  revert s past emitted. induction updates as [| u updates IH]; intros s past emitted Hf Hu; cbn [on_updates decisions].
  { exists s. by rewrite app_nil_r. }
  inversion_clear Hu as [| ? ? Hu1 Hu2].
  destruct (on_market_data_spec s u past emitted Hf Hu1) as (s1 & -> & Hf1 & Ht & Hq). cbn [mbind option_bind].
  destruct (IH _ _ _ Hf1 Hu2) as (s2 & -> & Hf2). cbn [mbind option_bind]. rewrite Ht, Hq in *.
  exists s2. simpl. rewrite <- app_assoc.
  destruct (decide_signal _ _ _ _ _) as [sg |].
  2:{ rewrite !app_nil_r in *. by split. }
  split; [done |]. by rewrite <- app_assoc in Hf2.
Qed.
End Strategy.

(** * What every signal satisfies *)

Definition of_symbol (sym : Z) (l : list Signal) : list Signal :=
  List.filter (λ sg, bool_decide (sig_symbol_id sg = sym)) l.

Definition alternating (l : list Signal) : Prop :=
  ∀ sym k sg, of_symbol sym l !! k = Some sg → sig_side sg = if Nat.even k then kBid else kAsk.

Lemma decide_signal_inv N threshold qty past emitted sg :
  decide_signal N threshold qty past emitted = Some sg →
  ∃ u rest bid ask, past = u :: rest ∧ sig_symbol_id sg = md_symbol_id u ∧ 1 <= md_symbol_id u <= N ∧
    latest_price (md_symbol_id u) true past = Some bid ∧ latest_price (md_symbol_id u) false past = Some ask ∧
    bid < ask ∧ ask - bid > threshold ∧ sig_qty sg = qty ∧ sig_side sg = next_side (md_symbol_id u) emitted ∧
    sig_price sg = if bool_decide (sig_side sg = kBid) then ask else bid.
Proof.
  destruct past as [| u rest]; [done |]. cbn [decide_signal].
  destruct (bool_decide (md_msg_type u = _)); [| done].
  destruct (bool_decide_reflect (1 <= md_symbol_id u <= N)); [| done]. cbn [andb].
  destruct (latest_price _ true _) as [bid |] eqn:Eb; [| done].
  destruct (latest_price _ false _) as [ask |] eqn:Ea; [| done].
  destruct (bool_decide_reflect (bid < ask)); [| done].
  destruct (bool_decide_reflect (ask - bid > threshold)); [| done]. cbn [andb]. intros [= <-].
  exists u, rest, bid, ask. split_and!; try done; lia.
Qed.

Lemma alternating_snoc l sg :
  alternating l → sig_side sg = next_side (sig_symbol_id sg) l → alternating (l ++ [sg]).
Proof.
  intros Hl Hs sym k x. unfold of_symbol. rewrite filter_app. intros [Hx | [Hk Hx]]%lookup_app_Some; [by apply (Hl sym) |].
  cbn [List.filter] in Hx. destruct (bool_decide_reflect (sig_symbol_id sg = sym)) as [<- |]; [| done].
  match goal with H : context [(k - length ?f)%nat] |- _ => assert (k = length f) as -> end.
  { destruct (k - _)%nat eqn:Ek; [lia | by destruct n]. }
  rewrite Nat.sub_diag in Hx. injection Hx as <-. rewrite Hs. done.
Qed.

Lemma decisions_sound N threshold qty updates past emitted :
  (∀ sym bid p, latest_price sym bid past = Some p → - 2 ^ 62 <= p < 2 ^ 62) → Forall update_ok updates →
  alternating emitted →
  alternating (emitted ++ decisions N threshold qty past emitted updates) ∧
  Forall (λ sg, 1 <= sig_symbol_id sg <= N ∧ sig_side sg ≠ kCount ∧ is_s64 (sig_price sg) ∧ sig_qty sg = qty)
    (decisions N threshold qty past emitted updates).
Proof.
  revert past emitted. induction updates as [| u updates IH]; intros past emitted Hp Hu Ha; cbn [decisions].
  { by rewrite app_nil_r. }
  inversion_clear Hu as [| ? ? Hu1 Hu2]. pose proof (latest_bounds u past Hu1 Hp) as Hp'.
  destruct (decide_signal N threshold qty (u :: past) emitted) as [sg |] eqn:E; [| by apply IH].
  apply decide_signal_inv in E as (v & rest & bid & ask & [= <- <-] & Hsym & Hs & Eb & Ea & Hlt & Hgt & Hq & Hside & Hprice).
  destruct (IH (u :: past) (emitted ++ [sg]) Hp' Hu2) as [IH1 IH2].
  { apply alternating_snoc; [done | by rewrite Hsym]. }
  rewrite <- app_assoc in IH1. split; [done |]. constructor; [| done].
  split_and!; [lia | lia | | | done].
  - rewrite Hside. unfold next_side. by destruct (Nat.even _).
  - rewrite Hprice. pose proof (Hp' _ _ _ Eb). pose proof (Hp' _ _ _ Ea). case_bool_decide; mlia.
Qed.

(** C28. Over any stream of updates the strategy never fails and emits exactly
    the signals of the specification: on a quote of a known symbol whose two
    latest prices are not crossed and further apart than the threshold, an
    order of the fixed size at the far side's price, buying first and then
    alternating, per symbol.  Its observers give the latest prices. *)
Theorem strategy_correct N threshold qty updates :
  0 <= N < 2 ^ 32 → Forall update_ok updates →
  let out := decisions N threshold qty [] [] updates in
  ∃ s, on_updates N (construct N threshold qty) updates = Some (s, out) ∧
    signals_generated s = u64 (lenZ out) ∧ alternating out ∧
    ∀ sym, 1 <= sym <= N →
      best_bid s sym = Some (default 0 (latest_price sym true (rev updates))) ∧
      best_ask s sym = Some (default 0 (latest_price sym false (rev updates))).
Proof.
  intros HN Hu out. destruct (on_updates_spec N HN updates _ [] [] (construct_follows N HN threshold qty) Hu) as (s & Hs & Hf).
  exists s. cbn [construct spread_threshold_ default_qty_] in Hs, Hf. simpl app in Hf. rewrite app_nil_r in Hf. fold out in Hs, Hf.
  split; [done |]. destruct (decisions_sound N threshold qty updates [] []) as [Ha _]; [done | done | by intros ? [|] ? |].
  split_and!; [apply Hf | exact Ha |].
  intros sym Hsym. unfold best_bid, best_ask. rewrite u32_id by mlia.
  destruct (getZ_is_Some (bbo_ s) (sym - 1)) as [b Hb]; [rewrite (fo_length _ _ _ _ Hf); lia |]. rewrite Hb.
  cbn [mbind option_bind]. destruct (fo_bbo _ _ _ _ Hf sym b Hsym Hb) as (-> & _ & -> & _). done.
Qed.

(** Whatever the market does, every signal of the strategy is one the
    order manager's checks may be run on: it names a symbol of the context,
    a real side, and a price and quantity of their types. *)
Theorem strategy_feeds_order_manager {M} (o : OrderManager M) N threshold qty updates s out :
  0 <= N < 2 ^ 32 → N <= max_symbols (ctx_ o) → is_u32 qty → Forall update_ok updates →
  on_updates N (construct N threshold qty) updates = Some (s, out) →
  Forall (OMSignal.signal_ok o) out.
Proof.
  intros HN Hmax Hq Hu Hrun.
  destruct (on_updates_spec N HN updates _ [] [] (construct_follows N HN threshold qty) Hu) as (s' & Hs & _).
  rewrite Hrun in Hs. injection Hs as _ ->.
  destruct (decisions_sound N threshold qty updates [] []) as [_ Ha]; [done | done | by intros ? [|] ? |].
  eapply Forall_impl; [| exact Ha]. intros sg (H1 & H2 & H3 & H4). unfold OMSignal.signal_ok. rewrite H4. split_and!; try done; lia.
Qed.

(** ** A witness: symbol 1 quoted wide, narrow and wide again. *)

Definition demo_update (s : Side) (price : Z) : MarketDataUpdate :=
  {| md_seq_num := 1; md_symbol_id := 1; md_msg_type := 0; md_side := side_to_u8 s; md_price := price; md_qty := 10;
     md_exchange_ts := 0 |}.
Definition demo_updates : list MarketDataUpdate :=
  [demo_update kBid 100; demo_update kAsk 300; demo_update kAsk 120; demo_update kBid 50; demo_update kBid 200].

Example demo_signals :
  (λ sg, (sig_side sg, sig_price sg)) <$> decisions 2 60 5 [] [] demo_updates = [(kBid, 300); (kAsk, 50)].
Proof. vm_compute. reflexivity. Qed.

Lemma demo_updates_ok : Forall update_ok demo_updates.
Proof. unfold demo_updates. repeat constructor; cbn; lia. Qed.

Lemma strategy_correct_witness :
  ∃ s, on_updates 2 (construct 2 60 5) demo_updates = Some (s, decisions 2 60 5 [] [] demo_updates) ∧
    signals_generated s = 2.
Proof.
  destruct (strategy_correct 2 60 5 demo_updates) as (s & Hs & Hg & _); [lia | apply demo_updates_ok |].
  exists s. split; [exact Hs | rewrite Hg; vm_compute; reflexivity].
Defined.
