(* ===== verification/TcpSocket.v ===== *)
(** The TCP socket wrapper: [src/libs/net/tcp_socket.hpp].

    The kernel is the environment: [Os] holds the answers it will give to
    [send] and [recv] on the current connection, the later connections, the
    readings of the monotonic clock, and what has been handed over so far.
    [Room n] is a [send] that finds room for [n] bytes, so it takes what of
    the buffer fits; [Arrived bs] is a [recv] that finds [bs] waiting, so it
    gives what of them fits and keeps the rest.  These are exactly the answers
    POSIX allows.  When the answers of a connection are used up, a
    non-blocking call finds nothing ([EAGAIN]) and a blocking call waits
    ([None] there: it has not returned). *)
From S2P Require Import Prelude.
Local Open Scope Z_scope.

Module Tcp.

Inductive Errno : Set := EINTR | EAGAIN | EWOULDBLOCK | EPIPE | ECONNRESET | Eother (code : Z).

#[export] Instance Errno_eq_dec : EqDecision Errno.
Proof. solve_decision. Defined.

Inductive SendAnswer : Set := Room (n : nat) | SendError (e : Errno).
Inductive RecvAnswer : Set := Arrived (bs : list Z) | RecvError (e : Errno).

Record Os : Set := {
  sends : list SendAnswer;
  recvs : list RecvAnswer;
  wire : list Z;                                          (* handed over on this connection *)
  later : list (list SendAnswer * list RecvAnswer);       (* the connections to come *)
  past : list (list Z);                                   (* handed over on earlier connections *)
  clock : list Z;
}.

Definition with_sends (w : Os) sends wire : Os :=
  {| sends := sends; recvs := recvs w; wire := wire; later := later w; past := past w; clock := clock w |}.
Definition with_recvs (w : Os) recvs : Os :=
  {| sends := sends w; recvs := recvs; wire := wire w; later := later w; past := past w; clock := clock w |}.

(** [sys::monotonic_nanos()]: the last reading repeats. *)
Definition monotonic_nanos (w : Os) : Z * Os :=
  match clock w with
  | [] => (0, w)
  | [t] => (t, w)
  | t :: ts => (t, {| sends := sends w; recvs := recvs w; wire := wire w; later := later w; past := past w;
                      clock := ts |})
  end.

(** [TcpSocket::reset] and the assignment of a freshly connected socket. *)
Definition close_socket (w : Os) : Os :=
  {| sends := []; recvs := []; wire := []; later := later w; past := past w ++ [wire w]; clock := clock w |}.
Definition open_socket (w : Os) : Os :=
  match later w with
  | [] => {| sends := []; recvs := []; wire := []; later := []; past := past w; clock := clock w |}
  | (s, r) :: later =>
      {| sends := s; recvs := r; wire := []; later := later; past := past w; clock := clock w |}
  end.

(** * Results *)

Inductive SendStatus : Set := kOk | kWouldBlock | kPeerClosed | kError.

#[export] Instance SendStatus_eq_dec : EqDecision SendStatus.
Proof. solve_decision. Defined.

Record SendResult : Set := { sr_status : SendStatus; bytes_sent : Z; sr_err_no : option Errno }.

Inductive RecvStatus : Set := rOk | rPeerClosed | rWouldBlock | rError.

#[export] Instance RecvStatus_eq_dec : EqDecision RecvStatus.
Proof. solve_decision. Defined.

(** The bytes received stand for the part of [buf] that was written. *)
Record RecvResult : Set := { rr_status : RecvStatus; bytes_received : list Z; rr_err_no : option Errno }.

Definition SSIZE_MAX : Z := 2 ^ 63 - 1.

Definition would_block (e : Errno) : bool := bool_decide (e = EAGAIN) || bool_decide (e = EWOULDBLOCK).
Definition peer_gone (e : Errno) : bool := bool_decide (e = EPIPE) || bool_decide (e = ECONNRESET).

(** * Sending *)

Definition send_failure (e : Errno) : SendResult :=
  if would_block e then {| sr_status := kWouldBlock; bytes_sent := 0; sr_err_no := None |}
  else if peer_gone e then {| sr_status := kPeerClosed; bytes_sent := 0; sr_err_no := Some e |}
  else {| sr_status := kError; bytes_sent := 0; sr_err_no := Some e |}.

Definition send_success (sent : Z) : SendResult :=
  if bool_decide (sent = 0) then {| sr_status := kError; bytes_sent := 0; sr_err_no := None |}
  else {| sr_status := kOk; bytes_sent := sent; sr_err_no := None |}.

(** The [do ... while] around [::send]: an interrupted call is repeated. *)
Fixpoint send_loop (answers : list SendAnswer) (buf : list Z) : list SendAnswer * list Z * SendResult :=
  match answers with
  | [] => ([], [], send_failure EAGAIN)
  | SendError EINTR :: answers => send_loop answers buf
  | SendError e :: answers => (answers, [], send_failure e)
  | Room n :: answers => (answers, take n buf, send_success (lenZ (take n buf)))
  end.

Definition send_nonblocking (w : Os) (buf : list Z) : option (Os * SendResult) :=
  _ ← assertM (bool_decide (0 < lenZ buf));
  let '(rest, taken, result) := send_loop (sends w) (take (Z.to_nat (Z.min (lenZ buf) SSIZE_MAX)) buf) in
  Some (with_sends w rest (wire w ++ taken), result).

Fixpoint send_all (answers : list SendAnswer) (buf : list Z) (total_sent : Z)
    : option (list SendAnswer * list Z * SendResult) :=
  if bool_decide (total_sent < lenZ buf) then
    match answers with
    | [] => None
    | SendError e :: answers =>
        if bool_decide (e = EINTR) then send_all answers buf total_sent
        else if peer_gone e
        then Some (answers, [], {| sr_status := kPeerClosed; bytes_sent := total_sent; sr_err_no := Some e |})
        else Some (answers, [], {| sr_status := kError; bytes_sent := total_sent; sr_err_no := Some e |})
    | Room n :: answers =>
        let chunk := Z.min (lenZ buf - total_sent) SSIZE_MAX in
        let taken := take n (take (Z.to_nat chunk) (drop (Z.to_nat total_sent) buf)) in
        if bool_decide (lenZ taken = 0)
        then Some (answers, [], {| sr_status := kError; bytes_sent := total_sent; sr_err_no := None |})
        else
          '(answers, more, result) ← send_all answers buf (total_sent + lenZ taken);
          Some (answers, taken ++ more, result)
    end
  else Some (answers, [], {| sr_status := kOk; bytes_sent := total_sent; sr_err_no := None |}).

Definition send_blocking (w : Os) (buf : list Z) : option (Os * SendResult) :=
  _ ← assertM (bool_decide (0 < lenZ buf));
  '(rest, taken, result) ← send_all (sends w) buf 0;
  Some (with_sends w rest (wire w ++ taken), result).

(** * Receiving *)

Definition recv_failure (e : Errno) : RecvResult :=
  if would_block e then {| rr_status := rWouldBlock; bytes_received := []; rr_err_no := None |}
  else {| rr_status := rError; bytes_received := []; rr_err_no := Some e |}.

(** What a [recv] of [len] bytes leaves of the bytes that were waiting. *)
Definition unread (len : nat) (bs : list Z) (answers : list RecvAnswer) : list RecvAnswer :=
  if bool_decide (length bs <= len)%nat then answers else Arrived (drop len bs) :: answers.

Fixpoint recv_loop (answers : list RecvAnswer) (len : nat) : list RecvAnswer * RecvResult :=
  match answers with
  | [] => ([], recv_failure EAGAIN)
  | RecvError EINTR :: answers => recv_loop answers len
  | RecvError e :: answers => (answers, recv_failure e)
  | Arrived bs :: answers =>
      if bool_decide (take len bs = [])
      then (unread len bs answers, {| rr_status := rPeerClosed; bytes_received := []; rr_err_no := None |})
      else (unread len bs answers, {| rr_status := rOk; bytes_received := take len bs; rr_err_no := None |})
  end.

Definition receive_nonblocking (w : Os) (len : Z) : option (Os * RecvResult) :=
  _ ← assertM (bool_decide (0 < len));
  let '(rest, result) := recv_loop (recvs w) (Z.to_nat (Z.min len SSIZE_MAX)) in
  Some (with_recvs w rest, result).

Fixpoint recv_all (fuel : nat) (answers : list RecvAnswer) (len : Z) (received : list Z)
    : option (list RecvAnswer * RecvResult) :=
  if bool_decide (lenZ received < len) then
    match fuel, answers with
    | O, _ | _, [] => None
    | S fuel, RecvError e :: answers =>
        if bool_decide (e = EINTR) then recv_all fuel answers len received
        else Some (answers, {| rr_status := rError; bytes_received := received; rr_err_no := Some e |})
    | S fuel, Arrived bs :: answers =>
        let to_receive := Z.to_nat (Z.min (len - lenZ received) SSIZE_MAX) in
        if bool_decide (take to_receive bs = [])
        then Some (unread to_receive bs answers,
                   {| rr_status := rPeerClosed; bytes_received := received; rr_err_no := None |})
        else recv_all fuel (unread to_receive bs answers) len (received ++ take to_receive bs)
    end
  else Some (answers, {| rr_status := rOk; bytes_received := received; rr_err_no := None |}).

(** Every iteration uses up an answer or a byte. *)
Definition answer_size (a : RecvAnswer) : nat := match a with Arrived bs => S (length bs) | RecvError _ => 1 end.
Definition recv_size (answers : list RecvAnswer) : nat := sum_list_with answer_size answers.

Definition receive_blocking (w : Os) (len : Z) : option (Os * RecvResult) :=
  _ ← assertM (bool_decide (0 < len));
  '(rest, result) ← recv_all (recv_size (recvs w)) (recvs w) len [];
  Some (with_recvs w rest, result).
End Tcp.
