(* ===== verification/TcpServer.v ===== *)
(** The TCP server [src/libs/net/tcp_server.hpp].

    The kernel is the environment.  [Sock] is an open connection: the answers
    that [recv] and [send] on it will get ([TcpSocket.v]), the bytes received
    and taken so far, and what [epoll] watches.  [accept4] and [epoll_wait]
    get any answers.  The handler is any program over a state of its own that
    may call [send] and [close] of the server from [on_connect] and
    [on_data], in any order and depending on their results; [on_disconnect]
    works on the handler's state only, since a call of [close] from it would
    not return.  [calls_] is not part of the program: it records the
    callbacks and the bytes queued, in order.

    [None] is a failed [assert] or an access outside an array. *)
From S2P Require Import Prelude.
From S2P Require Import Framing.
From S2P Require Import TcpSocket.
Local Open Scope Z_scope.
Local Open Scope array_scope.

Module Srv.
Import Tcp.

Definition EPOLLIN : Z := 1.
Definition EPOLLOUT : Z := 4.
Definition EPOLLERR : Z := 8.
Definition EPOLLHUP : Z := 16.
Definition EPOLLRDHUP : Z := 8192.
Definition EPOLLET : Z := 2 ^ 31.

Definition has (flags f : Z) : bool := negb (bool_decide (Z.land flags f = 0)).

(** * The kernel *)

Record Sock : Set := {
  sends : list SendAnswer;
  recvs : list RecvAnswer;
  wire : list Z;               (* taken by [send] *)
  got : list Z;                (* given by [recv] *)
  interest : option (Z * Z);   (* the events watched, with [data.u64] *)
}.

(** [accept4] fails with an error number, or opens a connection; [add_ok]:
    [epoll_ctl] will add it. *)
Inductive AcceptAnswer : Set :=
  | AcceptError (e : Z)
  | Accepted (fd : Z) (sends : list SendAnswer) (recvs : list RecvAnswer) (add_ok : bool).

(** [EINTR], [ECONNABORTED], [ENETDOWN], [EPROTO], [ENOPROTOOPT],
    [EHOSTDOWN], [ENONET], [EHOSTUNREACH], [EOPNOTSUPP], [ENETUNREACH]. *)
Definition transient (e : Z) : bool := bool_decide (e ∈ [4; 103; 100; 71; 92; 112; 64; 113; 95; 101]).

Definition with_interest (k : Sock) (i : option (Z * Z)) : Sock :=
  {| sends := sends k; recvs := recvs k; wire := wire k; got := got k; interest := i |}.
Definition with_recvs (k : Sock) (l : list RecvAnswer) (bs : list Z) : Sock :=
  {| sends := sends k; recvs := l; wire := wire k; got := got k ++ bs; interest := interest k |}.
Definition with_sends (k : Sock) (l : list SendAnswer) (bs : list Z) : Sock :=
  {| sends := l; recvs := recvs k; wire := wire k ++ bs; got := got k; interest := interest k |}.
Definition new_sock (s : list SendAnswer) (r : list RecvAnswer) : Sock :=
  {| sends := s; recvs := r; wire := []; got := []; interest := None |}.

(** * Handlers *)

Inductive Prog (H A : Type) : Type :=
  | Ret (a : A)
  | Get (k : H → Prog H A)
  | Put (h : H) (p : Prog H A)
  | SendTo (id : Z) (payload : list Z) (k : bool → Prog H A)
  | CloseConn (id : Z) (p : Prog H A).
Arguments Ret {H A} _.
Arguments Get {H A} _.
Arguments Put {H A} _ _.
Arguments SendTo {H A} _ _ _.
Arguments CloseConn {H A} _ _.

(** The [TcpHandler] concept.  [on_data] is given the contents of [tx_space]
    and leaves new ones, with the number of bytes it reports. *)
Record Handler (H : Type) : Type := {
  on_connect : Z → Prog H bool;
  on_data : Z → list Z → list Z → Prog H (list Z * Z);
  on_disconnect : H → Z → H;
}.
Arguments on_connect {H} _ _.
Arguments on_data {H} _ _ _ _.
Arguments on_disconnect {H} _ _ _.

Inductive Callback : Set :=
  | Connect (id : Z) | Reject (id : Z) | Data (id : Z) (payload : list Z) | Queue (id : Z) (bytes : list Z) | Disconnect (id : Z).

(** * State *)

Record ConnSlot : Set := {
  fd : Z;
  generation : Z;
  rx_fill : Z;
  tx_size : Z;
  tx_sent : Z;
  peer_rd_closed : bool;
  rx_buf : list Z;
  tx_buf : list Z;
}.

Record Server (H : Type) : Type := {
  handler_ : H;
  slots_ : list ConnSlot;
  scratch_ : list Z;
  started_ : bool;
  socks : gmap Z Sock;
  accepts : list AcceptAnswer;
  calls_ : list Callback;
}.
Arguments handler_ {H} _.
Arguments slots_ {H} _.
Arguments scratch_ {H} _.
Arguments started_ {H} _.
Arguments socks {H} _.
Arguments accepts {H} _.
Arguments calls_ {H} _.

(** A member assignment of a slot. *)
Definition set_fd (f : Z) (s : ConnSlot) : ConnSlot :=
  {| fd := f; generation := generation s; rx_fill := rx_fill s; tx_size := tx_size s; tx_sent := tx_sent s;
     peer_rd_closed := peer_rd_closed s; rx_buf := rx_buf s; tx_buf := tx_buf s |}.
Definition set_generation (g : Z) (s : ConnSlot) : ConnSlot :=
  {| fd := fd s; generation := g; rx_fill := rx_fill s; tx_size := tx_size s; tx_sent := tx_sent s;
     peer_rd_closed := peer_rd_closed s; rx_buf := rx_buf s; tx_buf := tx_buf s |}.
Definition set_rx (fill : Z) (buf : list Z) (s : ConnSlot) : ConnSlot :=
  {| fd := fd s; generation := generation s; rx_fill := fill; tx_size := tx_size s; tx_sent := tx_sent s;
     peer_rd_closed := peer_rd_closed s; rx_buf := buf; tx_buf := tx_buf s |}.
Definition set_tx (size sent : Z) (buf : list Z) (s : ConnSlot) : ConnSlot :=
  {| fd := fd s; generation := generation s; rx_fill := rx_fill s; tx_size := size; tx_sent := sent;
     peer_rd_closed := peer_rd_closed s; rx_buf := rx_buf s; tx_buf := buf |}.
Definition set_peer_rd_closed (b : bool) (s : ConnSlot) : ConnSlot :=
  {| fd := fd s; generation := generation s; rx_fill := rx_fill s; tx_size := tx_size s; tx_sent := tx_sent s;
     peer_rd_closed := b; rx_buf := rx_buf s; tx_buf := tx_buf s |}.

Definition tx_pending (s : ConnSlot) : Z := u32 (tx_size s - tx_sent s).

Section Server.
Context {F : Framer} {H : Type} (hd : Handler H) (kMaxConns kRxBufSize kTxBufSize : Z).
Implicit Types (s : Server H) (sl : ConnSlot).

Definition rx_space sl : Z := u32 (kRxBufSize - rx_fill sl).

Definition with_handler s (h : H) : Server H :=
  {| handler_ := h; slots_ := slots_ s; scratch_ := scratch_ s; started_ := started_ s; socks := socks s; accepts := accepts s; calls_ := calls_ s |}.
Definition with_slots s (l : list ConnSlot) : Server H :=
  {| handler_ := handler_ s; slots_ := l; scratch_ := scratch_ s; started_ := started_ s; socks := socks s; accepts := accepts s; calls_ := calls_ s |}.
Definition with_scratch s (l : list Z) : Server H :=
  {| handler_ := handler_ s; slots_ := slots_ s; scratch_ := l; started_ := started_ s; socks := socks s; accepts := accepts s; calls_ := calls_ s |}.
Definition with_socks s (m : gmap Z Sock) : Server H :=
  {| handler_ := handler_ s; slots_ := slots_ s; scratch_ := scratch_ s; started_ := started_ s; socks := m; accepts := accepts s; calls_ := calls_ s |}.
Definition with_accepts s (l : list AcceptAnswer) : Server H :=
  {| handler_ := handler_ s; slots_ := slots_ s; scratch_ := scratch_ s; started_ := started_ s; socks := socks s; accepts := l; calls_ := calls_ s |}.
Definition called s (c : Callback) : Server H :=
  {| handler_ := handler_ s; slots_ := slots_ s; scratch_ := scratch_ s; started_ := started_ s; socks := socks s; accepts := accepts s; calls_ := calls_ s ++ [c] |}.

Definition upd_slot s (i : Z) (f : ConnSlot → ConnSlot) : option (Server H) :=
  sl ← (slots_ s).[i];
  slots ← storeZ (slots_ s) i (f sl);
  Some (with_slots s slots).

Definition upd_sock s (fd : Z) (f : Sock → Sock) : Server H := with_socks s (alter f fd (socks s)).

(** * epoll *)

Definition encode_u64 sl : Z := Z.lor (u64 (Z.shiftl (generation sl) 32)) (u32 (fd sl)).

Definition base_events sl : Z :=
  if negb (peer_rd_closed sl) then Z.lor EPOLLET (Z.lor EPOLLIN EPOLLRDHUP) else EPOLLET.

Definition epoll_mod_conn s (fd events : Z) sl : Server H :=
  upd_sock s fd (λ k, with_interest k (Some (events, encode_u64 sl))).
Definition enable_epollout s (fd : Z) sl : Server H := epoll_mod_conn s fd (Z.lor (base_events sl) EPOLLOUT) sl.
Definition disable_epollout s (fd : Z) sl : Server H := epoll_mod_conn s fd (base_events sl) sl.

(** * Slots *)

Definition alloc_slot s (i : Z) : option (Server H) :=
  upd_slot s i (λ sl, {| fd := i; generation := generation sl; rx_fill := 0; tx_size := 0; tx_sent := 0;
                         peer_rd_closed := false; rx_buf := rx_buf sl; tx_buf := tx_buf sl |}).

Definition release_slot s (i : Z) : option (Server H) :=
  upd_slot s i (λ sl, set_generation (u32 (generation sl + 1)) (set_fd (-1) sl)).

Definition disconnect s (i : Z) : Server H := called (with_handler s (on_disconnect hd (handler_ s) i)) (Disconnect i).

Definition close_connection s (i : Z) : option (Server H) :=
  let s := upd_sock s i (λ k, with_interest k None) in
  let s := disconnect s i in
  s ← release_slot s i;
  Some (with_socks s (delete i (socks s))).

(** * Send API *)

(** The framer writes behind the bytes that are queued. *)
Definition queue s (i : Z) sl (payload : list Z) : option (Server H * Z) :=
  '(out, written) ← framer_encode (drop (Z.to_nat (tx_size sl)) (tx_buf sl)) payload;
  let buf := take (Z.to_nat (tx_size sl)) (tx_buf sl) ++ out in
  if bool_decide (written = 0) then s ← upd_slot s i (set_tx (tx_size sl) (tx_sent sl) buf); Some (s, 0)
  else
    s ← upd_slot s i (set_tx (u32 (tx_size sl + written)) (tx_sent sl) buf);
    Some (called s (Queue i (take (Z.to_nat written) out)), written).

Definition send s (id : Z) (payload : list Z) : option (Server H * bool) :=
  _ ← assertM (bool_decide (0 <= id < kMaxConns));
  sl ← (slots_ s).[id];
  _ ← assertM (bool_decide (fd sl = id));
  '(s, written) ← queue s id sl payload;
  Some (s, negb (bool_decide (written = 0))).

Definition close s (id : Z) : option (Server H) :=
  _ ← assertM (bool_decide (0 <= id < kMaxConns));
  sl ← (slots_ s).[id];
  if bool_decide (fd sl = id) then close_connection s id else Some s.

(** A callback of the handler. *)
Fixpoint run_prog {A} (p : Prog H A) s : option (Server H * A) :=
  match p with
  | Ret a => Some (s, a)
  | Get k => run_prog (k (handler_ s)) s
  | Put h p => run_prog p (with_handler s h)
  | SendTo id payload k => '(s, ok) ← send s id payload; run_prog (k ok) s
  | CloseConn id p => s ← close s id; run_prog p s
  end.

(** * Frames *)

Definition kFrameError : Z := 2 ^ 32 - 1.

(** One frame: [on_data], and its response.  [false]: the frame is refused. *)
Definition handle_frame s (i : Z) (payload : list Z) : option (Server H * bool) :=
  sl ← (slots_ s).[i];
  '(s, (tx_space, resp_len)) ← run_prog (on_data hd (fd sl) payload (scratch_ s)) (called s (Data (fd sl) payload));
  let s := with_scratch s tx_space in
  if bool_decide (resp_len > 0) then
    if bool_decide (resp_len > kTxBufSize) then Some (s, false)
    else
      sl ← (slots_ s).[i];
      '(s, encoded) ← queue s i sl (take (Z.to_nat resp_len) (scratch_ s));
      Some (s, negb (bool_decide (encoded = 0)))
  else Some (s, true).

Fixpoint frames_loop (fuel : nat) s (i consumed : Z) : option (Server H * Z) :=
  match fuel with
  | O => None
  | S fuel =>
      sl ← (slots_ s).[i];
      let remaining := take (Z.to_nat (u32 (rx_fill sl - consumed))) (drop (Z.to_nat consumed) (rx_buf sl)) in
      result ← framer_decode remaining;
      match fdr_status result with
      | Framing.kError => Some (s, kFrameError)
      | Framing.kIncomplete => Some (s, consumed)
      | Framing.kOk =>
          '(s, ok) ← handle_frame s i (fdr_payload result);
          if negb ok then Some (s, kFrameError)
          else frames_loop fuel s i (u32 (consumed + u32 (fdr_frame_size result)))
      end
  end.

(** Every frame uses up a byte. *)
Definition process_frames s (i : Z) : option (Server H * Z) :=
  sl ← (slots_ s).[i];
  frames_loop (S (length (rx_buf sl))) s i 0.

Definition compact_rx_buf s (i consumed : Z) : option (Server H) :=
  if bool_decide (consumed = 0) then Some s
  else
    upd_slot s i (λ sl,
      let remaining := u32 (rx_fill sl - consumed) in
      let moved := take (Z.to_nat remaining) (drop (Z.to_nat consumed) (rx_buf sl)) in
      set_rx remaining (moved ++ drop (Z.to_nat remaining) (rx_buf sl)) sl).

(** * Writing *)

(** [raw_send]: an unknown descriptor is an error. *)
Definition raw_send s (fd : Z) (buf : list Z) : Server H * SendResult :=
  match socks s !! fd with
  | None => (s, {| sr_status := kError; bytes_sent := 0; sr_err_no := None |})
  | Some k =>
      let '(rest, taken, result) := send_loop (sends k) buf in
      (upd_sock s fd (λ k, with_sends k rest taken), result)
  end.

Fixpoint write_loop (fuel : nat) s (i : Z) : option (Server H * bool) :=
  match fuel with
  | O => None
  | S fuel =>
      sl ← (slots_ s).[i];
      if bool_decide (tx_pending sl > 0) then
        let '(s, result) := raw_send s (fd sl) (take (Z.to_nat (tx_pending sl)) (drop (Z.to_nat (tx_sent sl)) (tx_buf sl))) in
        match sr_status result with
        | kWouldBlock => Some (s, true)
        | kPeerClosed | kError => Some (s, false)
        | kOk =>
            s ← upd_slot s i (set_tx (tx_size sl) (u32 (tx_sent sl + bytes_sent result)) (tx_buf sl));
            write_loop fuel s i
        end
      else s ← upd_slot s i (set_tx 0 0 (tx_buf sl)); Some (s, true)
  end.

(** Every iteration uses up an answer. *)
Definition handle_write_et s (i : Z) : option (Server H * bool) :=
  sl ← (slots_ s).[i];
  write_loop (S (S (length (default [] (sends <$> socks s !! fd sl))))) s i.

(** * Reading *)

Definition raw_recv s (fd : Z) (len : Z) : Server H * RecvResult :=
  match socks s !! fd with
  | None => (s, {| rr_status := rError; bytes_received := []; rr_err_no := None |})
  | Some k =>
      let '(rest, result) := recv_loop (recvs k) (Z.to_nat len) in
      (upd_sock s fd (λ k, with_recvs k rest (bytes_received result)), result)
  end.

(** Frames are processed and the buffer compacted, or the connection is
    closed: [false]. *)
Definition process_and_compact s (i : Z) : option (Server H * bool) :=
  '(s, consumed) ← process_frames s i;
  sl ← (slots_ s).[i];
  if bool_decide (consumed = kFrameError) then s ← close_connection s (fd sl); Some (s, false)
  else s ← compact_rx_buf s i consumed; Some (s, true).

(** The head of an iteration: room in the buffer, or [false]. *)
Definition make_rx_space s (i : Z) : option (Server H * bool) :=
  sl ← (slots_ s).[i];
  if bool_decide (rx_space sl = 0) then
    '(s, ok) ← process_and_compact s i;
    if negb ok then Some (s, false)
    else
      sl ← (slots_ s).[i];
      if bool_decide (rx_space sl = 0) then s ← close_connection s (fd sl); Some (s, false)
      else Some (s, true)
  else Some (s, true).

(** The loop up to its [break] ([true]) or [return] ([false]). *)
Fixpoint read_loop (fuel : nat) s (i : Z) : option (Server H * bool) :=
  match fuel with
  | O => None
  | S fuel =>
      '(s, ok) ← make_rx_space s i;
      if negb ok then Some (s, false)
      else
        sl ← (slots_ s).[i];
        let '(s, result) := raw_recv s (fd sl) (rx_space sl) in
        match rr_status result with
        | rWouldBlock => Some (s, true)
        | rPeerClosed => s ← upd_slot s i (set_peer_rd_closed true); Some (s, true)
        | rError => s ← close_connection s (fd sl); Some (s, false)
        | rOk =>
            let bs := bytes_received result in
            s ← upd_slot s i (set_rx (u32 (rx_fill sl + lenZ bs))
                   (take (Z.to_nat (rx_fill sl)) (rx_buf sl) ++ bs ++ drop (Z.to_nat (rx_fill sl) + length bs) (rx_buf sl)));
            read_loop fuel s i
        end
  end.

(** Every iteration uses up an answer or a byte of one. *)
Definition handle_read_et s (i : Z) : option (Server H) :=
  sl ← (slots_ s).[i];
  '(s, ok) ← read_loop (S (recv_size (default [] (recvs <$> socks s !! fd sl)))) s i;
  if negb ok then Some s
  else '(s, _) ← process_and_compact s i; Some s.

(** * Accepting *)

(** One connection, up to the next iteration. *)
Definition accept_one s (i : Z) (sends : list SendAnswer) (recvs : list RecvAnswer) (add_ok : bool) : option (Server H) :=
  if bool_decide (i >= kMaxConns) then Some s
  else
    let s := with_socks s (<[i := new_sock sends recvs]> (socks s)) in
    s ← alloc_slot s i;
    '(s, ok) ← run_prog (on_connect hd i) (called s (Connect i));
    if negb ok then
      s ← release_slot s i;
      Some (called (with_socks s (delete i (socks s))) (Reject i))
    else
      sl ← (slots_ s).[i];
      if add_ok && bool_decide (is_Some (socks s !! i)) then
        Some (upd_sock s i (λ k, with_interest k (Some (Z.lor EPOLLIN (Z.lor EPOLLRDHUP EPOLLET), encode_u64 sl))))
      else
        s ← release_slot (disconnect s i) i;
        Some (with_socks s (delete i (socks s))).

(** A descriptor is not negative and not open already: other answers are not
    the kernel's, and are passed over. *)
Fixpoint accept_loop (answers : list AcceptAnswer) s : option (Server H) :=
  match answers with
  | [] => Some (with_accepts s [])
  | AcceptError e :: answers => if transient e then accept_loop answers s else Some (with_accepts s answers)
  | Accepted i sends recvs add_ok :: answers =>
      if bool_decide (i < 0) || bool_decide (is_Some (socks s !! i)) then accept_loop answers s
      else s ← accept_one s i sends recvs add_ok; accept_loop answers s
  end.

Definition handle_accept s : option (Server H) := accept_loop (accepts s) s.

(** * Events *)

Definition kListenerSentinel : Z := 2 ^ 64 - 1.

(** The part after [EPOLLIN]. *)
Definition dispatch_write s (i flags : Z) : option (Server H) :=
  s ← (if has flags EPOLLRDHUP then upd_slot s i (set_peer_rd_closed true) else Some s);
  sl ← (slots_ s).[i];
  if has flags (Z.lor EPOLLHUP EPOLLERR) then close_connection s (fd sl)
  else
    '(s, returned) ←
      (if has flags EPOLLOUT then
         '(s, ok) ← handle_write_et s i;
         sl ← (slots_ s).[i];
         if negb ok then s ← close_connection s (fd sl); Some (s, true)
         else if bool_decide (tx_pending sl = 0) then
           if peer_rd_closed sl then s ← close_connection s (fd sl); Some (s, true)
           else Some (disable_epollout s (fd sl) sl, false)
         else Some (s, false)
       else Some (s, false));
    if (returned : bool) then Some s
    else
      sl ← (slots_ s).[i];
      let s := if negb (bool_decide (fd sl = -1)) && bool_decide (tx_pending sl > 0) then enable_epollout s (fd sl) sl else s in
      if negb (bool_decide (fd sl = -1)) && peer_rd_closed sl && bool_decide (tx_pending sl = 0) then close_connection s (fd sl)
      else Some s.

(** [static_cast<int>] of the low half. *)
Definition slot_index (u64 : Z) : Z :=
  let low := Z.land u64 (2 ^ 32 - 1) in if bool_decide (low < 2 ^ 31) then low else low - 2 ^ 32.

Definition dispatch_event s (ev : Z * Z) : option (Server H) :=
  let '(u64, flags) := ev in
  if bool_decide (u64 = kListenerSentinel) then handle_accept s
  else
    let i := slot_index u64 in
    let gen := Z.shiftr u64 32 in
    if bool_decide (i < 0) || bool_decide (i >= kMaxConns) then Some s
    else
      sl ← (slots_ s).[i];
      if bool_decide (fd sl = -1) || negb (bool_decide (generation sl = gen)) then Some s
      else if has flags EPOLLIN then
        s ← handle_read_et s i;
        sl ← (slots_ s).[i];
        if bool_decide (fd sl = -1) then Some s else dispatch_write s i flags
      else dispatch_write s i flags.

Fixpoint dispatch_all (evs : list (Z * Z)) s : option (Server H) :=
  match evs with
  | [] => Some s
  | ev :: evs => s ← dispatch_event s ev; dispatch_all evs s
  end.

(** What [epoll_wait] answers: events, or an error. *)
Inductive WaitAnswer : Set := Ready (evs : list (Z * Z)) | WaitError (e : Errno).

Definition poll_once s (answer : WaitAnswer) : option (Server H * Z) :=
  _ ← assertM (started_ s);
  match answer with
  | WaitError e => Some (s, if bool_decide (e = EINTR) then 0 else -1)
  | Ready evs => s ← dispatch_all evs s; Some (s, lenZ evs)
  end.

(** [run] after [start]: what [stop_] reads before each batch, and the
    answer. *)
Fixpoint run (batches : list (bool * WaitAnswer)) s : option (Server H) :=
  match batches with
  | [] => Some s
  | (stop, answer) :: batches => if (stop : bool) then Some s else '(s, _) ← poll_once s answer; run batches s
  end.

(** * Construction *)

Definition sizeof_ConnSlot : Z := 64.
Definition kSlotsBytes : Z := u64 (kMaxConns * sizeof_ConnSlot).
Definition kRxTotalBytes : Z := u64 (kMaxConns * kRxBufSize).
Definition kTxTotalBytes : Z := u64 (kMaxConns * kTxBufSize).
Definition required_buffer_size : Z := u64 (u64 (u64 (kSlotsBytes + kRxTotalBytes) + kTxTotalBytes) + kTxBufSize).

(** Where the parts of a buffer at [base] are. *)
Definition slots_addr (base i : Z) : Z := base + i * sizeof_ConnSlot.
Definition rx_addr (base i : Z) : Z := base + kSlotsBytes + i * kRxBufSize.
Definition tx_addr (base i : Z) : Z := base + kSlotsBytes + kRxTotalBytes + i * kTxBufSize.
Definition scratch_addr (base : Z) : Z := base + kSlotsBytes + kRxTotalBytes + kTxTotalBytes.

Definition new_slot (rx tx : list Z) : ConnSlot :=
  {| fd := -1; generation := 0; rx_fill := 0; tx_size := 0; tx_sent := 0; peer_rd_closed := false; rx_buf := rx; tx_buf := tx |}.

(** Over a buffer given by its address and size, whose bytes are [mem]. *)
Definition construct (buf : option Z) (buf_size : Z) (mem : Z → Z) (h : H) (accepts : list AcceptAnswer) : option (Server H) :=
  base ← buf;
  if negb (bool_decide (base mod 64 = 0)) || bool_decide (buf_size < required_buffer_size) then abort
  else
    let bytes addr n := (λ k : nat, mem (addr + Z.of_nat k)) <$> seq 0 (Z.to_nat n) in
    Some {| handler_ := h;
            slots_ := (λ k : nat, new_slot (bytes (rx_addr base (Z.of_nat k)) kRxBufSize) (bytes (tx_addr base (Z.of_nat k)) kTxBufSize)) <$> seq 0 (Z.to_nat kMaxConns);
            scratch_ := bytes (scratch_addr base) kTxBufSize;
            started_ := false; socks := ∅; accepts := accepts; calls_ := [] |}.

(** [start]: only the flag is the server's. *)
Definition start s : Server H :=
  {| handler_ := handler_ s; slots_ := slots_ s; scratch_ := scratch_ s; started_ := true; socks := socks s; accepts := accepts s; calls_ := calls_ s |}.
End Server.
End Srv.
