(* ===== verification/TcpServerSpec.v ===== *)
(** What the TCP server ([TcpServer.v]) keeps true whatever the kernel
    answers and whatever a handler that keeps its contract does. *)
From S2P Require Import Prelude.
From S2P Require Import Endian.
From S2P Require Import Framing.
From S2P Require Import TcpSocket.
From S2P Require Import TcpServer.
Local Open Scope Z_scope.
Local Open Scope array_scope.

(** What a server relies on when it encodes. *)
Class FramerWrites (F : Framer) :=
  encode_safe out payload : ∃ out' n, framer_encode out payload = Some (out', n) ∧ 0 <= n <= lenZ out ∧ length out' = length out.

#[export] Instance LengthPrefixFramer_writes b : FramerWrites (LengthPrefixFramer b).
Proof.
  intros out p. unfold framer_encode. cbn. unfold LengthPrefixFramer_encode.
  destruct (decide (kLengthPrefixSize + lenZ p <= kDefaultMaxFrameSize ∧ kLengthPrefixSize + lenZ p <= lenZ out)) as [[H1 H2] | Hn].
  - rewrite encode_length_prefix_eq by (done || lia). do 2 eexists. split; [done |]. unfold kLengthPrefixSize in *. cbn [default from_option id]. split; [lia |].
    rewrite length_app, length_drop. pose proof (length_prefixed_bytes p). unfold kLengthPrefixSize in *. lia.
  - rewrite encode_length_prefix_refused by lia. do 2 eexists. split; [done |]. cbn. split; [lia | done].
Qed.

#[export] Instance MessageCodecFramer_writes b : FramerWrites (MessageCodecFramer b).
Proof.
  intros out p. unfold framer_encode. cbn. unfold MessageCodecFramer_encode. case_bool_decide as Hl.
  - do 2 eexists. split; [done |]. split; [lia | done].
  - rewrite memcpy_to_here by lia. do 2 eexists. split; [done |]. split; [lia |]. rewrite length_app, length_drop. lia.
Qed.

Module SrvSpec.
Import Tcp Srv.

(** * What the callbacks say *)

(** The connections the handler has been told of, in this order and no other;
    [None]: a callback came for a connection that is not there, or a second
    [on_connect] for one that is. *)
Definition connection_step (live : option (gset Z)) (c : Callback) : option (gset Z) :=
  l ← live;
  match c with
  | Connect i => if decide (i ∈ l) then None else Some ({[i]} ∪ l)
  | Reject i | Disconnect i => if decide (i ∈ l) then Some (l ∖ {[i]}) else None
  | Data i _ | Queue i _ => if decide (i ∈ l) then Some l else None
  end.
Definition connections (calls : list Callback) : option (gset Z) := fold_left connection_step calls (Some ∅).

(** The payloads given to [on_data], and the bytes queued, since the
    connection was made. *)
Definition delivered_step (i : Z) (acc : list (list Z)) (c : Callback) : list (list Z) :=
  match c with
  | Connect j => if decide (j = i) then [] else acc
  | Data j p => if decide (j = i) then acc ++ [p] else acc
  | _ => acc
  end.
Definition delivered (i : Z) (calls : list Callback) : list (list Z) := fold_left (delivered_step i) calls [].

Definition queued_step (i : Z) (acc : list Z) (c : Callback) : list Z :=
  match c with
  | Connect j => if decide (j = i) then [] else acc
  | Queue j bs => if decide (j = i) then acc ++ bs else acc
  | _ => acc
  end.
Definition queued (i : Z) (calls : list Callback) : list Z := fold_left (queued_step i) calls [].

Lemma connections_snoc calls c : connections (calls ++ [c]) = connection_step (connections calls) c.
Proof. unfold connections. by rewrite fold_left_app. Qed.
Lemma delivered_snoc i calls c : delivered i (calls ++ [c]) = delivered_step i (delivered i calls) c.
Proof. unfold delivered. by rewrite fold_left_app. Qed.
Lemma queued_snoc i calls c : queued i (calls ++ [c]) = queued_step i (queued i calls) c.
Proof. unfold queued. by rewrite fold_left_app. Qed.

(** * Streams *)

Section Stream.
Context {F : Framer} {L : FramerLaws F}.

(** [parsed bs ps rest]: the stream [bs] was cut into frames delivered as
    [ps], each decoded from what of the stream had arrived, and [rest]. *)
Inductive parsed : list Z → list (list Z) → list Z → Prop :=
  | parsed_nil bs : parsed bs [] bs
  | parsed_cons f avail more bs p ps rest :
      framer_decode (f ++ avail) = Some {| fdr_status := Framing.kOk; fdr_frame_size := lenZ f; fdr_payload := p |} → f ≠ [] →
      bs = avail ++ more → parsed bs ps rest → parsed (f ++ bs) (p :: ps) rest.

Lemma parsed_more bs ps rest x : parsed bs ps rest → parsed (bs ++ x) ps (rest ++ x).
Proof.
  induction 1 as [bs | f avail more bs p ps rest Hd Hne Hbs Hp IH]; [constructor |]. rewrite <- app_assoc.
  eapply parsed_cons; [exact Hd | done | | exact IH]. by rewrite Hbs, <- app_assoc.
Qed.

Lemma parsed_next bs ps f r p :
  parsed bs ps (f ++ r) → framer_decode (f ++ r) = Some {| fdr_status := Framing.kOk; fdr_frame_size := lenZ f; fdr_payload := p |} → f ≠ [] →
  parsed bs (ps ++ [p]) r.
Proof.
  intros Hp. remember (f ++ r) as rest eqn:E. induction Hp as [bs | f' avail more bs p' ps rest Hd Hne Hbs Hp IH]; intros Hdec Hf.
  - subst. cbn [app]. eapply (parsed_cons f r []); [exact Hdec | done | by rewrite app_nil_r | constructor].
  - cbn [app]. eapply parsed_cons; [exact Hd | done | exact Hbs |]. by apply IH.
Qed.

Lemma parsed_rest bs ps rest : parsed bs ps rest → ∃ c, bs = c ++ rest.
Proof. induction 1 as [bs | f avail more bs p ps rest Hd Hne Hbs Hp [c ->]]; [by exists [] | exists (f ++ c); by rewrite <- app_assoc]. Qed.

(** No whole frame is left. *)
Definition settled (rest : list Z) : Prop :=
  ∀ n p, framer_decode rest ≠ Some {| fdr_status := Framing.kOk; fdr_frame_size := n; fdr_payload := p |}.

Lemma settled_nil : settled [].
Proof. intros n p Hd. destruct (decode_safe []) as (r & Hr & Hs); [exact (Forall_nil_2 _) |]. rewrite Hr in Hd. injection Hd as ->. specialize (Hs eq_refl). cbn in Hs. lia. Qed.

(** A stream of frames is delivered as their payloads, when the rest is no
    frame yet. *)
Lemma parsed_frames fs ps part bs ps' rest :
  Forall2 is_frame fs ps → (part = [] ∨ ∃ f p r, is_frame f p ∧ f = part ++ r ∧ r ≠ []) → bytes_ok bs →
  bs = concat fs ++ part → parsed bs ps' rest → settled rest →
  ps' = ps ∧ rest = part.
Proof.
  intros Hfs Hpart Hb. revert bs ps' rest Hb. induction Hfs as [| f p fs ps Hf Hfs IH]; intros bs ps' rest Hb Ebs Hp Hrest.
  - cbn [concat app] in Ebs. subst bs. inversion Hp as [| f' avail more bs' p' ps'' rest' Hd Hne Hbs Hp' E1 E2]; subst; [done |]. exfalso.
    destruct Hpart as [Hn | (f & p & r & Hf & -> & Hr)].
    + apply app_nil in Hn as [-> _]. done.
    + rewrite (decode_prefix ((f' ++ avail ++ more) ++ r) p (f' ++ avail) (more ++ r)) in Hd; [done | done | by rewrite <- !app_assoc |].
      intros E. apply app_nil in E as [_ ?]. done.
  - cbn [concat] in Ebs. rewrite <- app_assoc in Ebs. assert (bytes_ok (concat fs ++ part)) as Hb' by (subst bs; by apply Forall_app in Hb as [_ ?]).
    inversion Hp as [| f' avail more bs' p' ps'' rest' Hd Hne Hbs Hp' E1 E2]; subst ps'.
    + exfalso. subst. eapply Hrest. by apply decode_frame.
    + subst rest'. assert (f' = f ∧ p' = p ∧ bs' = concat fs ++ part) as (-> & -> & ->).
      { assert (f' ++ avail ++ more = f ++ concat fs ++ part) as E by (rewrite <- Ebs, <- E1; by rewrite Hbs).
        destruct (decide (length f <= length (f' ++ avail))%nat) as [Hle | Hgt].
        - assert (f' ++ avail = f ++ drop (length f) (f' ++ avail)) as Ea.
          { rewrite app_assoc in E. rewrite <- (take_drop (length f) (f' ++ avail)) at 1. f_equal.
            apply (f_equal (take (length f))) in E. rewrite take_app_le, take_app_length in E by done. done. }
          assert (bytes_ok (drop (length f) (f' ++ avail))) as Hbd.
          { apply Forall_drop. rewrite Ebs in Hb. rewrite <- E in Hb. rewrite app_assoc in Hb. by apply Forall_app in Hb as [? _]. }
          rewrite Ea, (decode_frame f p _ Hf Hbd) in Hd. injection Hd as Hlen ->.
          assert (f' = f) as ->; [| split; [done |]; split; [done |]; rewrite Hbs; by apply app_inv_head in E].
          rewrite <- (take_app_length f' (avail ++ more)), E. apply Nat2Z.inj in Hlen. rewrite <- Hlen. by rewrite take_app_length.
        - exfalso. assert (f = (f' ++ avail) ++ drop (length (f' ++ avail)) f) as Ef.
          { rewrite <- (take_drop (length (f' ++ avail)) f) at 1. f_equal. apply (f_equal (take (length (f' ++ avail)))) in E.
            rewrite app_assoc, take_app_length in E. rewrite take_app_le in E by lia. done. }
          rewrite (decode_prefix f p (f' ++ avail) _ Hf Ef) in Hd; [done |]. intros En. apply (f_equal length) in En. rewrite length_drop in En. cbn in En. lia. }
      destruct (IH _ _ _ Hb' eq_refl Hp' Hrest) as [-> ->]. done.
Qed.
End Stream.

(** * The contract of a handler *)

Section Contract.
Context {H : Type} (hd : Handler H) (kMaxConns kTxBufSize : Z).

(** A callback about [self], run in the handler state [h] while the
    connections [live] are there: it sends to these only, and closes any
    connection but [self]. *)
Fixpoint wp {A} (self : Z) (p : Prog H A) (h : H) (live : gset Z) (Q : H → gset Z → A → Prop) : Prop :=
  match p with
  | Ret a => Q h live a
  | Get k => wp self (k h) h live Q
  | Put h p => wp self p h live Q
  | SendTo id _ k => id ∈ live ∧ ∀ b, wp self (k b) h live Q
  | CloseConn id p =>
      0 <= id < kMaxConns ∧ id ≠ self ∧
      if decide (id ∈ live) then wp self p (on_disconnect hd h id) (live ∖ {[id]}) Q else wp self p h live Q
  end.

(** [I]: what the handler keeps true between the callbacks. *)
Class HandlerOk (I : H → gset Z → Prop) := {
  ok_connect id h live :
    I h live → 0 <= id < kMaxConns → id ∉ live →
    wp id (on_connect hd id) h ({[id]} ∪ live) (λ h' live' b, if (b : bool) then I h' live' else I h' (live' ∖ {[id]}));
  ok_data id payload tx h live :
    I h live → id ∈ live → lenZ tx = kTxBufSize →
    wp id (on_data hd id payload tx) h live (λ h' live' r, I h' live' ∧ length r.1 = length tx);
  ok_disconnect id h live : I h live → id ∈ live → I (on_disconnect hd h id) (live ∖ {[id]});
}.
End Contract.
Arguments ok_connect {H hd kMaxConns kTxBufSize I HandlerOk}.
Arguments ok_data {H hd kMaxConns kTxBufSize I HandlerOk}.
Arguments ok_disconnect {H hd kMaxConns kTxBufSize I HandlerOk}.

(** * The invariant *)

Section Inv.
Context {F : Framer} {L : FramerLaws F} {W : FramerWrites F} {H : Type} (hd : Handler H) (kMaxConns kRxBufSize kTxBufSize : Z).
Context (Hmax : 0 < kMaxConns < 2 ^ 31) (Hrx : 0 < kRxBufSize < 2 ^ 32 - 1) (Htx : 0 < kTxBufSize < 2 ^ 32).
Implicit Types (s : Server H) (sl : ConnSlot) (live : gset Z).

Definition sub (l : list Z) (from n : Z) : list Z := take (Z.to_nat n) (drop (Z.to_nat from) l).

Definition recvs_ok (l : list RecvAnswer) : Prop := Forall (λ a, match a with Arrived bs => bytes_ok bs | RecvError _ => True end) l.
Definition accepts_ok (l : list AcceptAnswer) : Prop := Forall (λ a, match a with Accepted _ _ r _ => recvs_ok r | AcceptError _ => True end) l.

(** Bytes of the receive buffer that are delivered but not yet moved out:
    [Some c] while frames of the connection are processed. *)
Definition consumed (m : option Z) : Z := default 0 m.

Record slot_ok sl : Prop := {
  so_rx : lenZ (rx_buf sl) = kRxBufSize;
  so_tx : lenZ (tx_buf sl) = kTxBufSize;
  so_gen : is_u32 (generation sl);
}.

(** An open connection; [reg]: it is registered with [epoll]. *)
Record conn_ok (calls : list Callback) (i : Z) sl (k : Sock) (m : option Z) (reg : bool) : Prop := {
  co_fd : fd sl = i;
  co_rx : 0 <= consumed m <= rx_fill sl ∧ rx_fill sl <= kRxBufSize;
  co_tx : 0 <= tx_sent sl <= tx_size sl ∧ tx_size sl <= kTxBufSize;
  co_parsed : parsed (got k) (delivered i calls) (sub (rx_buf sl) (consumed m) (rx_fill sl - consumed m));
  co_settled : m = None → settled (sub (rx_buf sl) 0 (rx_fill sl));
  co_queued : wire k ++ sub (tx_buf sl) (tx_sent sl) (tx_size sl - tx_sent sl) = queued i calls;
  co_bytes : bytes_ok (got k) ∧ recvs_ok (recvs k);
  co_reg : reg = true → ∃ ev, interest k = Some (ev, encode_u64 sl);
}.

Record srv_inv s live (m : Z → option Z) (reg : Z → bool) : Prop := {
  si_slots : lenZ (slots_ s) = kMaxConns;
  si_scratch : lenZ (scratch_ s) = kTxBufSize;
  si_range i : i ∈ live → 0 <= i < kMaxConns;
  si_slot i sl : (slots_ s).[i] = Some sl → slot_ok sl;
  si_live i sl : (slots_ s).[i] = Some sl → i ∈ live → ∃ k, socks s !! i = Some k ∧ conn_ok (calls_ s) i sl k (m i) (reg i);
  si_dead i sl : (slots_ s).[i] = Some sl → i ∉ live → fd sl = -1 ∧ socks s !! i = None;
  si_socks i k : socks s !! i = Some k → i ∈ live;
  si_calls : connections (calls_ s) = Some live;
}.

Lemma live_slot s live m reg i :
  srv_inv s live m reg → i ∈ live →
  ∃ sl k, (slots_ s).[i] = Some sl ∧ socks s !! i = Some k ∧ slot_ok sl ∧ conn_ok (calls_ s) i sl k (m i) (reg i) ∧ 0 <= i < lenZ (slots_ s).
Proof.
  intros Hi Hl. pose proof (si_range _ _ _ _ Hi i Hl) as Hr. rewrite <- (si_slots _ _ _ _ Hi) in Hr.
  destruct (getZ_is_Some _ _ Hr) as [sl Hsl]. destruct (si_live _ _ _ _ Hi i sl Hsl Hl) as (k & Hk & Hc).
  exists sl, k. split; [done |]. split; [done |]. split; [by apply (si_slot _ _ _ _ Hi i) | done].
Qed.

(** A slot of the table, open or not. *)
Lemma any_slot s live m reg i :
  srv_inv s live m reg → 0 <= i < kMaxConns → ∃ sl, (slots_ s).[i] = Some sl ∧ slot_ok sl ∧ fd sl = (if decide (i ∈ live) then i else -1).
Proof.
  intros Hi Hr. rewrite <- (si_slots _ _ _ _ Hi) in Hr. destruct (getZ_is_Some _ _ Hr) as [sl Hsl]. exists sl.
  split; [done |]. split; [by apply (si_slot _ _ _ _ Hi i) |]. case_decide as Hl.
  - destruct (si_live _ _ _ _ Hi i sl Hsl Hl) as (k & _ & Hc). apply (co_fd _ _ _ _ _ _ Hc).
  - apply (si_dead _ _ _ _ Hi i sl Hsl Hl).
Qed.

Lemma upd_slot_eq s i sl f : (slots_ s).[i] = Some sl → 0 <= i < lenZ (slots_ s) → upd_slot s i f = Some (with_slots s ((slots_ s).[i <- f sl])).
Proof. intros Hsl Hr. unfold upd_slot. rewrite Hsl. cbn [mbind option_bind]. by rewrite storeZ_Some. Qed.

(** Callbacks about another connection. *)
Definition about (c : Callback) : Z := match c with Connect i | Reject i | Data i _ | Queue i _ | Disconnect i => i end.

Lemma conn_ok_other calls i sl k m reg c : about c ≠ i → conn_ok calls i sl k m reg → conn_ok (calls ++ [c]) i sl k m reg.
Proof.
  intros Hc [C1 C2 C3 C4 C5 C6 C7 C8]. split; try done.
  - rewrite delivered_snoc. destruct c; cbn [delivered_step about] in *; try done; by rewrite decide_False.
  - rewrite queued_snoc. destruct c; cbn [queued_step about] in *; try done; by rewrite decide_False.
Qed.

(** One connection [i] changes: slot, socket, one callback about it. *)
Lemma srv_inv_update s live m reg i s' sl' k' m' reg' :
  srv_inv s live m reg → i ∈ live → 
  slots_ s' = (slots_ s).[i <- sl'] → socks s' = <[i := k']> (socks s) → lenZ (scratch_ s') = kTxBufSize →
  (calls_ s' = calls_ s ∨ ∃ c, about c = i ∧ calls_ s' = calls_ s ++ [c] ∧ connection_step (Some live) c = Some live) →
  slot_ok sl' → conn_ok (calls_ s') i sl' k' (m' i) (reg' i) → (∀ j, j ≠ i → m' j = m j ∧ reg' j = reg j) →
  srv_inv s' live m' reg'.
Proof.
  intros Hi Hl Hs Hk Hscr Hc Hok Hco Hm. destruct (live_slot s live m reg i Hi Hl) as (sl & k & Hsl & Hks & _ & _ & Hr).
  assert (∀ j slj kj, j ≠ i → conn_ok (calls_ s) j slj kj (m j) (reg j) → conn_ok (calls_ s') j slj kj (m' j) (reg' j)) as Hother.
  { intros j slj kj Hj Hcj. destruct (Hm j Hj) as [-> ->]. destruct Hc as [-> | (c & Hab & -> & _)]; [done |]. apply conn_ok_other; [congruence | done]. }
  destruct Hi as [V1 V2 V3 V4 V5 V6 V7 V8]. split.
  - by rewrite Hs, length_setZ.
  - done.
  - done.
  - intros j slj. rewrite Hs, getZ_setZ by done. case_decide; [by intros [= <-] | apply V4].
  - intros j slj. rewrite Hs, Hk, getZ_setZ by done. case_decide as Hij.
    + subst j. intros [= <-] _. exists k'. split; [by rewrite lookup_insert_eq | done].
    + intros Hj Hlj. destruct (V5 j slj Hj Hlj) as (kj & Hkj & Hcj). exists kj. rewrite lookup_insert_ne by congruence. split; [done |]. apply Hother; [congruence | done].
  - intros j slj. rewrite Hs, Hk, getZ_setZ by done. case_decide as Hij; [by subst j |]. intros Hj Hlj. rewrite lookup_insert_ne by congruence. by apply V6.
  - intros j kj. rewrite Hk. intros [[<- _] | [_ Hj]]%lookup_insert_Some; [done | by apply (V7 j kj)].
  - destruct Hc as [-> | (c & _ & -> & Hstep)]; [done |]. rewrite connections_snoc, V8. exact Hstep.
Qed.

(** What callbacks leave alone: they make no connection and touch no socket
    but those they close. *)
Definition same s s' : Prop := started_ s' = started_ s ∧ accepts s' = accepts s.
Definition kept s live s' live' : Prop :=
  live' ⊆ live ∧ same s s' ∧ ∀ j, j ∈ live' → socks s' !! j = socks s !! j.

Lemma same_trans s1 s2 s3 : same s1 s2 → same s2 s3 → same s1 s3.
Proof. intros [E1 E2] [E3 E4]. split; congruence. Qed.

Lemma kept_refl s live : kept s live s live.
Proof. done. Qed.
Lemma kept_trans s1 l1 s2 l2 s3 l3 : kept s1 l1 s2 l2 → kept s2 l2 s3 l3 → kept s1 l1 s3 l3.
Proof. intros (H1 & H2 & H3) (K1 & K2 & K3). split; [set_solver |]. split; [by eapply same_trans |]. intros j Hj. rewrite K3 by done. apply H3. by apply K1. Qed.

(** * Queueing *)

Lemma sub_append (buf out : list Z) from size n :
  0 <= from <= size → size <= lenZ buf → 0 <= n → 
  sub (take (Z.to_nat size) buf ++ out) from (size + n - from) = sub buf from (size - from) ++ take (Z.to_nat n) out.
Proof.
  intros Hf Hs Hn. unfold sub. replace (Z.to_nat (size + n - from)) with (Z.to_nat (size - from) + Z.to_nat n)%nat by lia.
  rewrite drop_app_le by (rewrite length_take; lia). rewrite take_app, length_drop, length_take.
  rewrite drop_take_drop || idtac. f_equal.
  - rewrite skipn_firstn_comm, take_take. f_equal. lia.
  - f_equal. lia.
Qed.

Lemma queue_inv s live m reg i sl payload :
  srv_inv s live m reg → i ∈ live → (slots_ s).[i] = Some sl →
  ∃ s' n, queue s i sl payload = Some (s', n) ∧ srv_inv s' live m reg ∧ handler_ s' = handler_ s ∧ kept s live s' live.
Proof.
  intros Hi Hl Hsl. destruct (live_slot s live m reg i Hi Hl) as (sl0 & k & Hsl0 & Hk & Hok & Hc & Hr).
  rewrite Hsl in Hsl0. injection Hsl0 as <-. destruct Hok as [O1 O2 O3]. destruct Hc as [C1 C2 C3 C4 C5 C6 C7 C8] eqn:EC. clear EC.
  unfold queue. destruct (encode_safe (drop (Z.to_nat (tx_size sl)) (tx_buf sl)) payload) as (out & n & -> & Hn & Hlen). cbn [mbind option_bind].
  rewrite length_drop in Hn, Hlen.
  set (buf := take (Z.to_nat (tx_size sl)) (tx_buf sl) ++ out).
  assert (lenZ buf = kTxBufSize) as Hbuf by (unfold buf; rewrite length_app, length_take, Hlen; lia).
  assert (tx_size sl + n <= kTxBufSize) as Hroom by lia.
  assert (socks s = <[i:=k]> (socks s)) as Hid by by rewrite insert_id.
  case_bool_decide as Hz; rewrite (upd_slot_eq s i sl) by done; cbn [mbind option_bind].
  - exists (with_slots s ((slots_ s).[i <- set_tx (tx_size sl) (tx_sent sl) buf sl])), 0. split; [done |]. split; [| done].
    apply (srv_inv_update s live m reg i _ (set_tx (tx_size sl) (tx_sent sl) buf sl) k m reg Hi Hl); try done; [by apply (si_scratch _ _ _ _ Hi) | by left |].
    split; try done. pose proof (sub_append (tx_buf sl) out (tx_sent sl) (tx_size sl) 0) as Hsub. fold buf in Hsub. rewrite Z.add_0_r in Hsub.
    cbn [tx_buf tx_sent tx_size set_tx with_slots calls_]. rewrite Hsub by lia. by rewrite app_nil_r.
  - rewrite u32_id by (unfold is_u32; lia).
    set (sl' := set_tx (tx_size sl + n) (tx_sent sl) buf sl).
    exists (called (with_slots s ((slots_ s).[i <- sl'])) (Queue i (take (Z.to_nat n) out))), n. split; [done |]. split; [| done].
    apply (srv_inv_update s live m reg i _ sl' k m reg Hi Hl); try done; [by apply (si_scratch _ _ _ _ Hi) | |].
    + right. exists (Queue i (take (Z.to_nat n) out)). split; [done |]. split; [done |]. cbn. by rewrite decide_True.
    + cbn [called calls_ with_slots]. split; cbn [fd rx_fill rx_buf tx_buf tx_sent tx_size sl' set_tx]; try done.
      * lia.
      * rewrite delivered_snoc. exact C4.
      * unfold buf. rewrite sub_append by lia. rewrite app_assoc, C6, queued_snoc. cbn [queued_step]. by rewrite decide_True.
Qed.

(** A callback about [i] that changes neither what was delivered nor what was queued. *)
Lemma send_inv s live m reg i payload :
  srv_inv s live m reg → i ∈ live →
  ∃ s' b, send kMaxConns s i payload = Some (s', b) ∧ srv_inv s' live m reg ∧ handler_ s' = handler_ s ∧ kept s live s' live.
Proof.
  intros Hi Hl. destruct (live_slot s live m reg i Hi Hl) as (sl & k & Hsl & _ & _ & Hc & _).
  unfold send. rewrite bool_decide_true by by apply (si_range _ _ _ _ Hi). cbn [assertM mbind option_bind]. rewrite Hsl. cbn [mbind option_bind].
  rewrite bool_decide_true by apply (co_fd _ _ _ _ _ _ Hc). cbn [assertM mbind option_bind].
  destruct (queue_inv s live m reg i sl payload Hi Hl Hsl) as (s' & n & -> & Hi' & Hh & Hst). cbn [mbind option_bind]. by do 2 eexists.
Qed.

(** * Closing *)

(** A slot becomes free: the handler was told. *)
Lemma inv_release s live m reg i s' sl' c m' reg' :
  srv_inv s live m reg → i ∈ live →
  slots_ s' = (slots_ s).[i <- sl'] → socks s' = delete i (socks s) → scratch_ s' = scratch_ s →
  calls_ s' = calls_ s ++ [c] → c = Disconnect i ∨ c = Reject i → slot_ok sl' → fd sl' = -1 →
  (∀ j, j ≠ i → m' j = m j ∧ reg' j = reg j) → srv_inv s' (live ∖ {[i]}) m' reg'.
Proof.
  intros Hi Hl Hs Hk Hscr Hc Hci Hok Hfd Hm. destruct (live_slot s live m reg i Hi Hl) as (sl & k & Hsl & Hks & _ & _ & Hr).
  destruct Hi as [V1 V2 V3 V4 V5 V6 V7 V8]. split.
  - by rewrite Hs, length_setZ.
  - by rewrite Hscr.
  - intros j [Hj _]%elem_of_difference. by apply V3.
  - intros j slj. rewrite Hs, getZ_setZ by done. case_decide; [by intros [= <-] | apply V4].
  - intros j slj. rewrite Hs, Hk, getZ_setZ by done. intros Hj [Hlj Hne]%elem_of_difference. rewrite elem_of_singleton in Hne.
    rewrite decide_False in Hj by congruence. destruct (V5 j slj Hj Hlj) as (kj & Hkj & Hcj). exists kj. rewrite lookup_delete_ne by congruence. split; [done |].
    destruct (Hm j Hne) as [-> ->]. rewrite Hc. apply conn_ok_other; [destruct Hci as [-> | ->]; cbn; congruence | done].
  - intros j slj. rewrite Hs, Hk, getZ_setZ by done. case_decide as Hij.
    + subst j. intros [= <-] _. by rewrite lookup_delete_eq.
    + intros Hj Hlj. rewrite lookup_delete_ne by congruence. apply V6; [done |]. intros Hin. apply Hlj. apply elem_of_difference. split; [done |]. rewrite elem_of_singleton. congruence.
  - intros j kj. rewrite Hk. intros [Hne Hj]%lookup_delete_Some. apply elem_of_difference. split; [by apply (V7 j kj) | rewrite elem_of_singleton; congruence].
  - rewrite Hc, connections_snoc, V8. destruct Hci as [-> | ->]; cbn; by rewrite decide_True.
Qed.

Lemma close_inv s live m reg i m' reg' :
  srv_inv s live m reg → i ∈ live → (∀ j, j ≠ i → m' j = m j ∧ reg' j = reg j) →
  ∃ s', close_connection hd s i = Some s' ∧ srv_inv s' (live ∖ {[i]}) m' reg' ∧ handler_ s' = on_disconnect hd (handler_ s) i ∧ kept s live s' (live ∖ {[i]}).
Proof.
  intros Hi Hl Hm. destruct (live_slot s live m reg i Hi Hl) as (sl & k & Hsl & Hk & Hok & Hc & Hr).
  unfold close_connection, release_slot. cbn zeta. set (s1 := disconnect hd (upd_sock s i _) i).
  rewrite (upd_slot_eq s1 i sl) by done. cbn [mbind option_bind]. eexists. split; [done |]. split.
  2:{ split; [done |]. split; [set_solver |]. split; [done |]. intros j [Hj Hne]%elem_of_difference. rewrite elem_of_singleton in Hne.
      change (delete i (alter (λ k0, with_interest k0 None) i (socks s)) !! j = socks s !! j). by rewrite lookup_delete_ne, lookup_alter_ne by congruence. }
  apply (inv_release s live m reg i _ (set_generation (u32 (generation sl + 1)) (set_fd (-1) sl)) (Disconnect i) m' reg' Hi Hl); try done.
  - change (delete i (alter (λ k0, with_interest k0 None) i (socks s)) = delete i (socks s)). apply map_eq. intros j.
    destruct (decide (j = i)) as [-> |]; [by rewrite !lookup_delete_eq |]. by rewrite !lookup_delete_ne, lookup_alter_ne by congruence.
  - by left.
  - destruct Hok. split; cbn [rx_buf tx_buf generation set_generation set_fd]; try done. apply u32_range.
Qed.

(** * Callbacks *)

Lemma inv_handler s live m reg h : srv_inv s live m reg → srv_inv (with_handler s h) live m reg.
Proof. by intros []. Qed.

(** A callback that keeps to its contract neither aborts nor breaks the
    invariant, and ends as the contract says. *)
Lemma run_prog_inv {A} (p : Prog H A) self s live m reg Q :
  srv_inv s live m reg → wp hd kMaxConns self p (handler_ s) live Q →
  ∃ s' a live', run_prog hd kMaxConns p s = Some (s', a) ∧ srv_inv s' live' m reg ∧ Q (handler_ s') live' a ∧
    (self ∈ live → self ∈ live') ∧ kept s live s' live'.
Proof.
  revert s live. induction p as [a | k IH | h p IH | id payload k IH | id p IH]; intros s live Hi Hw; cbn [wp run_prog] in *.
  - by exists s, a, live.
  - by apply IH.
  - apply (IH (with_handler s h) live); [by apply inv_handler | done].
  - destruct Hw as [Hid Hw]. destruct (send_inv s live m reg id payload Hi Hid) as (s1 & b & -> & Hi1 & Hh & Hst). cbn [mbind option_bind].
    destruct (IH b s1 live Hi1) as (s' & a & live' & Hr & Hi' & HQ & Hself & Hst'); [by rewrite Hh |].
    exists s', a, live'. split; [done |]. split; [done |]. split; [done |]. split; [done | by eapply kept_trans].
  - destruct Hw as (Hr & Hne & Hw). unfold close. rewrite bool_decide_true by done. cbn [assertM mbind option_bind].
    destruct (any_slot s live m reg id Hi Hr) as (sl & -> & _ & Hfd). cbn [mbind option_bind]. rewrite Hfd. case_decide as Hl.
    + rewrite bool_decide_true by done. destruct (close_inv s live m reg id m reg Hi Hl) as (s1 & -> & Hi1 & Hh & Hst); [done |]. cbn [mbind option_bind].
      destruct (IH s1 (live ∖ {[id]}) Hi1) as (s' & a & live' & Hrun & Hi' & HQ & Hself & Hst'); [by rewrite Hh |].
      exists s', a, live'. split; [done |]. split; [done |]. split; [done |]. split; [| by eapply kept_trans].
      intros Hs. apply Hself. set_solver.
    + rewrite bool_decide_false by lia. cbn [mbind option_bind]. by apply IH.
Qed.

(** * Frames *)

Context (I : H → gset Z → Prop) {HO : HandlerOk hd kMaxConns kTxBufSize I}.

Definition at_conn (i : Z) (c : option Z) : Z → option Z := λ j, if decide (j = i) then c else None.

Lemma at_conn_eq i c : at_conn i c i = c.
Proof. unfold at_conn. by rewrite decide_True. Qed.
Lemma at_conn_ne i c c' j : j ≠ i → at_conn i c j = at_conn i c' j.
Proof. intros Hj. unfold at_conn. by rewrite !decide_False. Qed.

Lemma sub_split (l : list Z) from n k : 0 <= from → 0 <= k <= n → sub l from n = sub l from k ++ sub l (from + k) (n - k).
Proof.
  intros Hf Hk. unfold sub. replace (Z.to_nat n) with (Z.to_nat k + Z.to_nat (n - k))%nat by lia.
  replace (Z.to_nat (from + k)) with (Z.to_nat from + Z.to_nat k)%nat by lia. rewrite <- drop_drop.
  by rewrite take_take_drop.
Qed.

Lemma sub_front (a b : list Z) n : lenZ a = n → sub (a ++ b) 0 n = a.
Proof. intros Hn. unfold sub. cbn [Z.to_nat drop]. replace (Z.to_nat n) with (length a) by lia. apply take_app_length. Qed.

Lemma length_sub (l : list Z) from n : 0 <= from → 0 <= n → from + n <= lenZ l → lenZ (sub l from n) = n.
Proof. intros. unfold sub. rewrite length_take, length_drop. lia. Qed.

(** The next frame is handed to the handler: it counts as delivered. *)
Lemma data_inv s live reg i c n p sl :
  srv_inv s live (at_conn i (Some c)) reg → i ∈ live → (slots_ s).[i] = Some sl →
  framer_decode (sub (rx_buf sl) c (rx_fill sl - c)) = Some {| fdr_status := Framing.kOk; fdr_frame_size := n; fdr_payload := p |} →
  0 < n <= rx_fill sl - c →
  srv_inv (called s (Data i p)) live (at_conn i (Some (c + n))) reg.
Proof.
  intros Hi Hl Hsl Hd Hn. destruct (live_slot s live _ reg i Hi Hl) as (sl0 & k & Hsl0 & Hk & Hok & Hc & Hr).
  rewrite Hsl in Hsl0. injection Hsl0 as <-. rewrite at_conn_eq in Hc. destruct Hc as [C1 C2 C3 C4 C5 C6 C7 C8]. cbn [consumed default from_option id] in *.
  assert (slots_ s = (slots_ s).[i <- sl]) as Hs by by rewrite setZ_same.
  assert (socks s = <[i:=k]> (socks s)) as Hks by by rewrite insert_id.
  apply (srv_inv_update s live (at_conn i (Some c)) reg i _ sl k _ reg Hi Hl); try done; [apply (si_scratch _ _ _ _ Hi) | | |].
  - right. exists (Data i p). split; [done |]. split; [done |]. cbn. by rewrite decide_True.
  - cbn [called calls_]. rewrite at_conn_eq. split; cbn [consumed default from_option id]; try done; [lia | | by rewrite queued_snoc].
    rewrite delivered_snoc. cbn [delivered_step]. rewrite decide_True by done.
    rewrite (sub_split (rx_buf sl) c (rx_fill sl - c) n) in C4, Hd by lia. replace (rx_fill sl - (c + n)) with (rx_fill sl - c - n) by lia.
    assert (lenZ (sub (rx_buf sl) c n) = n) as Hlen by (apply length_sub; destruct Hok; lia).
    eapply parsed_next; [exact C4 | by rewrite Hlen | intros E; rewrite E in Hlen; cbn in Hlen; lia].
  - intros j Hj. split; [by apply at_conn_ne | done].
Qed.

(** One frame: the handler runs, and its response is queued. *)
Lemma handle_frame_inv s live reg i c n p sl :
  srv_inv s live (at_conn i (Some c)) reg → I (handler_ s) live → i ∈ live → (slots_ s).[i] = Some sl →
  framer_decode (sub (rx_buf sl) c (rx_fill sl - c)) = Some {| fdr_status := Framing.kOk; fdr_frame_size := n; fdr_payload := p |} →
  0 < n <= rx_fill sl - c →
  ∃ s' b live', handle_frame hd kMaxConns kTxBufSize s i p = Some (s', b) ∧ srv_inv s' live' (at_conn i (Some (c + n))) reg ∧
    I (handler_ s') live' ∧ i ∈ live' ∧ kept s live s' live'.
Proof.
  intros Hi HI Hl Hsl Hd Hn. pose proof (data_inv s live reg i c n p sl Hi Hl Hsl Hd Hn) as Hi1.
  assert (fd sl = i) as Hfd. { destruct (si_live _ _ _ _ Hi i sl Hsl Hl) as (k & _ & Hc). apply (co_fd _ _ _ _ _ _ Hc). }
  unfold handle_frame. rewrite Hsl. cbn [mbind option_bind]. rewrite Hfd.
  destruct (run_prog_inv (on_data hd i p (scratch_ s)) i (called s (Data i p)) live _ reg _ Hi1 (ok_data i p (scratch_ s) _ live HI Hl (si_scratch _ _ _ _ Hi)))
    as (s2 & [tx resp] & live' & -> & Hi2 & [HI2 Hlen] & Hself & Hst). cbn [mbind option_bind fst snd] in *. specialize (Hself Hl).
  assert (srv_inv (with_scratch s2 tx) live' (at_conn i (Some (c + n))) reg) as Hi3.
  { destruct Hi2. split; try done. cbn. rewrite Hlen. apply (si_scratch _ _ _ _ Hi). }
  case_bool_decide as Hpos; [| by exists (with_scratch s2 tx), true, live'].
  case_bool_decide as Hbig; [by exists (with_scratch s2 tx), false, live' |].
  destruct (live_slot _ live' _ reg i Hi3 Hself) as (sl3 & k3 & Hsl3 & _). rewrite Hsl3. cbn [mbind option_bind].
  destruct (queue_inv _ live' _ reg i sl3 (take (Z.to_nat resp) tx) Hi3 Hself Hsl3) as (s4 & e & Hq & Hi4 & Hh4 & Hst4). cbn [with_scratch scratch_] in *. rewrite Hq.
  cbn [mbind option_bind]. do 2 eexists. exists live'. split; [done |]. split; [done |]. split; [by rewrite Hh4 |]. split; [done |]. eapply kept_trans; [exact Hst | exact Hst4].
Qed.

Lemma inv_ext s live m reg m' reg' : srv_inv s live m reg → (∀ j, m' j = m j ∧ reg' j = reg j) → srv_inv s live m' reg'.
Proof.
  intros [] He. split; try done. intros i sl Hsl Hl. destruct (si_live0 i sl Hsl Hl) as (k & ? & ?). exists k. destruct (He i) as [-> ->]. done.
Qed.

(** What is left in the buffer is bytes. *)
Lemma rest_bytes calls i sl k m reg : conn_ok calls i sl k m reg → bytes_ok (sub (rx_buf sl) (consumed m) (rx_fill sl - consumed m)).
Proof.
  intros Hc. destruct (parsed_rest _ _ _ (co_parsed _ _ _ _ _ _ Hc)) as [b Hb]. pose proof (proj1 (co_bytes _ _ _ _ _ _ Hc)) as Hg.
  rewrite Hb in Hg. by apply Forall_app in Hg as [_ ?].
Qed.

(** The loop over the frames ends: with an error, or with [c'] bytes consumed
    and no whole frame left. *)
Lemma frames_loop_inv fuel s live reg i c :
  srv_inv s live (at_conn i (Some c)) reg → I (handler_ s) live → i ∈ live → kRxBufSize - c < Z.of_nat fuel →
  ∃ s' r live' c', frames_loop hd kMaxConns kTxBufSize fuel s i c = Some (s', r) ∧ srv_inv s' live' (at_conn i (Some c')) reg ∧
    I (handler_ s') live' ∧ i ∈ live' ∧ kept s live s' live' ∧
    (r = kFrameError ∨ r = c' ∧ r < kFrameError ∧ ∀ sl, (slots_ s').[i] = Some sl → settled (sub (rx_buf sl) c' (rx_fill sl - c'))).
Proof.
  revert s live c. induction fuel as [| fuel IH]; intros s live c Hi HI Hl Hf; destruct (live_slot s live _ reg i Hi Hl) as (sl & k & Hsl & Hk & Hok & Hc & Hr);
    rewrite at_conn_eq in Hc; pose proof (co_rx _ _ _ _ _ _ Hc) as Hcr; cbn [consumed default from_option id] in Hcr; [lia |].
  cbn [frames_loop]. rewrite Hsl. cbn [mbind option_bind]. rewrite u32_id by (unfold is_u32; lia). fold (sub (rx_buf sl) c (rx_fill sl - c)).
  pose proof (rest_bytes _ _ _ _ _ _ Hc) as Hb. cbn [consumed default from_option id] in Hb.
  destruct (decode_safe _ Hb) as (res & Hd & Hs). rewrite Hd. cbn [mbind option_bind]. rewrite (length_sub (rx_buf sl)) in Hs by (destruct Hok; lia).
  destruct res as [[] n p]; cbn [fdr_status fdr_frame_size fdr_payload] in *.
  - specialize (Hs eq_refl). destruct (handle_frame_inv s live reg i c n p sl Hi HI Hl Hsl Hd Hs) as (s1 & b & l1 & -> & Hi1 & HI1 & Hl1 & Hk1). cbn [mbind option_bind].
    destruct b; cbn [negb].
    + rewrite !(u32_id n), u32_id by (unfold is_u32; lia).
      destruct (IH s1 l1 (c + n) Hi1 HI1 Hl1 ltac:(lia)) as (s' & r & l' & c' & -> & Hi' & HI' & Hl' & Hk' & Hr').
      exists s', r, l', c'. split; [done |]. split; [done |]. split; [done |]. split; [done |]. split; [by eapply kept_trans | done].
    + exists s1, kFrameError, l1, (c + n). split; [done |]. split; [done |]. split; [done |]. split; [done |]. split; [done | by left].
  - exists s, c, live, c. split; [done |]. split; [done |]. split; [done |]. split; [done |]. split; [done |]. right. split; [done |].
    split; [unfold kFrameError; lia |]. intros sl'. rewrite Hsl. intros [= <-] n' p' Hd'. rewrite Hd in Hd'. by injection Hd'.
  - exists s, kFrameError, live, c. split; [done |]. split; [done |]. split; [done |]. split; [done |]. split; [done | by left].
Qed.

(** Frames are processed and what is left moves to the front, or the
    connection is closed. *)
Lemma process_and_compact_inv s live reg i :
  srv_inv s live (at_conn i (Some 0)) reg → I (handler_ s) live → i ∈ live →
  ∃ s' b live', process_and_compact hd kMaxConns kTxBufSize s i = Some (s', b) ∧ srv_inv s' live' (at_conn i None) reg ∧
    I (handler_ s') live' ∧ b = bool_decide (i ∈ live') ∧ kept s live s' live'.
Proof.
  intros Hi HI Hl. destruct (live_slot s live _ reg i Hi Hl) as (sl & k & Hsl & _ & Hok & _). unfold process_and_compact, process_frames.
  rewrite Hsl. cbn [mbind option_bind].
  destruct (frames_loop_inv (S (length (rx_buf sl))) s live reg i 0 Hi HI Hl) as (s1 & r & l1 & c & -> & Hi1 & HI1 & Hl1 & Hk1 & Hr); [destruct Hok; lia |].
  cbn [mbind option_bind]. destruct (live_slot s1 l1 _ reg i Hi1 Hl1) as (sl1 & k1 & Hsl1 & Hks1 & Hok1 & Hc1 & Hrange).
  rewrite Hsl1. cbn [mbind option_bind]. rewrite at_conn_eq in Hc1. pose proof (co_rx _ _ _ _ _ _ Hc1) as Hcr. cbn [consumed default from_option id] in Hcr.
  destruct Hr as [-> | (-> & Hlt & Hset)].
  - rewrite bool_decide_true by done. rewrite (co_fd _ _ _ _ _ _ Hc1).
    destruct (close_inv s1 l1 _ reg i (at_conn i None) reg Hi1 Hl1) as (s2 & -> & Hi2 & Hh2 & Hk2); [intros j Hj; split; [by apply at_conn_ne | done] |].
    cbn [mbind option_bind]. exists s2, false, (l1 ∖ {[i]}). split; [done |]. split; [done |]. split; [rewrite Hh2; by apply ok_disconnect |].
    split; [rewrite bool_decide_false; [done | set_solver] | by eapply kept_trans].
  - rewrite bool_decide_false by lia. specialize (Hset sl1 Hsl1).
    assert (∃ sl2, compact_rx_buf s1 i c = Some (with_slots s1 ((slots_ s1).[i <- sl2])) ∧ slot_ok sl2 ∧
        conn_ok (calls_ s1) i sl2 k1 None (reg i)) as (sl2 & -> & Hok2 & Hc2).
    { destruct Hc1 as [C1 C2 C3 C4 C5 C6 C7 C8]. cbn [consumed default from_option id] in *. unfold compact_rx_buf. case_bool_decide as Hz.
      - subst c. exists sl1. split; [rewrite setZ_same by done; by destruct s1 |]. split; [done |]. rewrite Z.sub_0_r in *. split; cbn [consumed default from_option id]; try done; by rewrite Z.sub_0_r.
      - rewrite (upd_slot_eq s1 i sl1) by done. cbn zeta. rewrite u32_id by (unfold is_u32; lia). fold (sub (rx_buf sl1) c (rx_fill sl1 - c)).
        destruct Hok1 as [O1 O2 O3]. assert (lenZ (sub (rx_buf sl1) c (rx_fill sl1 - c)) = rx_fill sl1 - c) as Hlen by (apply length_sub; lia).
        eexists. split; [done |].
        assert (sub (sub (rx_buf sl1) c (rx_fill sl1 - c) ++ drop (Z.to_nat (rx_fill sl1 - c)) (rx_buf sl1)) 0 (rx_fill sl1 - c) = sub (rx_buf sl1) c (rx_fill sl1 - c)) as Hfront.
        { by apply sub_front. }
        split; split; cbn [rx_buf tx_buf generation set_rx rx_fill tx_size tx_sent fd consumed default from_option id]; try done.
        + rewrite length_app, length_drop. lia.
        + lia.
        + by rewrite Z.sub_0_r, Hfront.
        + intros _. by rewrite Hfront. }
    cbn [mbind option_bind]. eexists _, true, l1. split; [done |]. split.
    + apply (srv_inv_update s1 l1 (at_conn i (Some c)) reg i _ sl2 k1 _ reg Hi1 Hl1); try done; [cbn; by rewrite insert_id | apply (si_scratch _ _ _ _ Hi1) | by left | by rewrite at_conn_eq |].
      intros j Hj. split; [by apply at_conn_ne | done].
    + split; [done |]. split; [by rewrite bool_decide_true |]. exact Hk1.
Qed.

(** * Reading *)

Lemma conn_ok_busy calls i sl k reg : conn_ok calls i sl k None reg → conn_ok calls i sl k (Some 0) reg.
Proof. by intros []. Qed.

Lemma inv_busy s live reg i : srv_inv s live (at_conn i None) reg → srv_inv s live (at_conn i (Some 0)) reg.
Proof.
  intros []. split; try done. intros j sl Hsl Hl. destruct (si_live0 j sl Hsl Hl) as (k & ? & Hc). exists k. split; [done |].
  unfold at_conn in *. case_decide; [by apply conn_ok_busy | done].
Qed.

Lemma upd_sock_eq s i k f : socks s !! i = Some k → upd_sock s i f = with_socks s (<[i := f k]> (socks s)).
Proof.
  intros Hk. unfold upd_sock. f_equal. apply map_eq. intros j. destruct (decide (j = i)) as [-> |].
  - by rewrite lookup_alter_eq, Hk, lookup_insert_eq.
  - by rewrite lookup_alter_ne, lookup_insert_ne by congruence.
Qed.

Lemma rx_space_eq sl : 0 <= rx_fill sl <= kRxBufSize → rx_space kRxBufSize sl = kRxBufSize - rx_fill sl.
Proof. intros ?. unfold rx_space. apply u32_id. unfold is_u32. lia. Qed.

Lemma make_rx_space_inv s live reg i :
  srv_inv s live (at_conn i (Some 0)) reg → I (handler_ s) live → i ∈ live →
  ∃ s' b live', make_rx_space hd kMaxConns kRxBufSize kTxBufSize s i = Some (s', b) ∧ I (handler_ s') live' ∧ b = bool_decide (i ∈ live') ∧ kept s live s' live' ∧
    srv_inv s' live' (at_conn i (if b then Some 0 else None)) reg ∧ (b = true → ∀ sl, (slots_ s').[i] = Some sl → rx_fill sl < kRxBufSize).
Proof.
  intros Hi HI Hl. destruct (live_slot s live _ reg i Hi Hl) as (sl & k & Hsl & _ & _ & Hc & _). rewrite at_conn_eq in Hc.
  pose proof (co_rx _ _ _ _ _ _ Hc) as Hcr. cbn [consumed default from_option id] in Hcr. unfold make_rx_space. rewrite Hsl. cbn [mbind option_bind].
  rewrite rx_space_eq by lia. destruct (bool_decide_reflect (kRxBufSize - rx_fill sl = 0)) as [Hfull | Hfull].
  - destruct (process_and_compact_inv s live reg i Hi HI Hl) as (s1 & b & l1 & -> & Hi1 & HI1 & Hb & Hk1). cbn [mbind option_bind].
    destruct b; cbn [negb].
    2:{ exists s1, false, l1. done. }
    symmetry in Hb. apply bool_decide_eq_true in Hb as Hl1. destruct (live_slot s1 l1 _ reg i Hi1 Hl1) as (sl1 & k1 & Hsl1 & _ & _ & Hc1 & _).
    rewrite at_conn_eq in Hc1. pose proof (co_rx _ _ _ _ _ _ Hc1) as Hcr1. cbn [consumed default from_option id] in Hcr1.
    rewrite Hsl1. cbn [mbind option_bind]. rewrite rx_space_eq by lia. destruct (bool_decide_reflect (kRxBufSize - rx_fill sl1 = 0)) as [Hfull1 | Hfull1].
    + rewrite (co_fd _ _ _ _ _ _ Hc1).
      destruct (close_inv s1 l1 _ reg i (at_conn i None) reg Hi1 Hl1) as (s2 & -> & Hi2 & Hh2 & Hk2); [done |].
      cbn [mbind option_bind]. exists s2, false, (l1 ∖ {[i]}). split; [done |]. split; [rewrite Hh2; by apply ok_disconnect |].
      split; [rewrite bool_decide_false; [done | set_solver] |]. split; [by eapply kept_trans | done].
    + exists s1, true, l1. split; [done |]. split; [done |]. split; [by rewrite bool_decide_true |]. split; [done |]. split; [by apply inv_busy |].
      intros _ sl2. rewrite Hsl1. intros [= <-]. lia.
  - exists s, true, live. split; [done |]. split; [done |]. split; [by rewrite bool_decide_true |]. split; [done |]. split; [done |].
    intros _ sl2. rewrite Hsl. intros [= <-]. lia.
Qed.

(** The answers of [recv] to a call with room. *)
Lemma raw_recv_loop_spec l len :
  recvs_ok l → (0 < len)%nat →
  recvs_ok (recv_loop l len).1 ∧ 
  match rr_status (recv_loop l len).2 with
  | rOk => let bs := bytes_received (recv_loop l len).2 in
           bytes_ok bs ∧ bs ≠ [] ∧ (length bs <= len)%nat ∧ (recv_size (recv_loop l len).1 < recv_size l)%nat
  | _ => bytes_received (recv_loop l len).2 = []
  end.
Proof.
  intros Hok Hlen. induction Hok as [| a l Ha Hok IH]; [split; [exact (Forall_nil_2 _) | done] |]. destruct a as [bs | e]; cbn [recv_loop].
  - assert (recvs_ok (unread len bs l)) as Hun.
    { unfold unread. case_bool_decide; [done |]. constructor; [by apply Forall_drop | done]. }
    case_bool_decide as Hz; cbn [fst snd rr_status bytes_received]; [done |]. split; [done |]. split; [by apply Forall_take |]. split; [done |].
    split; [rewrite length_take; lia |]. unfold unread. assert (bs ≠ []) by (intros ->; by rewrite take_nil in Hz).
    unfold recv_size. case_bool_decide; simpl; [lia |]. rewrite length_drop. destruct bs; [done | simpl in *; lia].
  - assert (recvs_ok l) as Hl by done. destruct e; cbn [fst snd rr_status recv_failure would_block]; try done.
    destruct IH as [IH1 IH2]. split; [done |]. destruct (rr_status (recv_loop l len).2); try done.
    destruct IH2 as (? & ? & ? & ?). split; [done |]. split; [done |]. split; [done |]. unfold recv_size in *. simpl. lia.
Qed.

(** [recv] on a connection: nothing but its answers change, and what it gives
    is written behind the bytes in the buffer. *)
Lemma recv_inv s live reg i sl k l bs :
  srv_inv s live (at_conn i (Some 0)) reg → i ∈ live → (slots_ s).[i] = Some sl → socks s !! i = Some k → recvs_ok l → bytes_ok bs →
  rx_fill sl + lenZ bs <= kRxBufSize →
  srv_inv (with_slots (with_socks s (<[i := with_recvs k l bs]> (socks s))) ((slots_ s).[i <- 
     set_rx (rx_fill sl + lenZ bs) (take (Z.to_nat (rx_fill sl)) (rx_buf sl) ++ bs ++ drop (Z.to_nat (rx_fill sl) + length bs) (rx_buf sl)) sl]))
    live (at_conn i (Some 0)) reg.
Proof.
  intros Hi Hl Hsl Hk Hrl Hbs Hroom. destruct (live_slot s live _ reg i Hi Hl) as (sl0 & k0 & Hsl0 & Hk0 & Hok & Hc & Hr).
  rewrite Hsl in Hsl0. injection Hsl0 as <-. rewrite Hk in Hk0. injection Hk0 as <-. rewrite at_conn_eq in Hc.
  destruct Hc as [C1 C2 C3 C4 C5 C6 C7 C8], Hok as [O1 O2 O3]. cbn [consumed default from_option id] in *.
  set (buf := take _ _ ++ bs ++ _). apply (srv_inv_update s live (at_conn i (Some 0)) reg i _ (set_rx (rx_fill sl + lenZ bs) buf sl) (with_recvs k l bs) _ reg Hi Hl); try done;
    [apply (si_scratch _ _ _ _ Hi) | by left | |].
  - split; cbn [rx_buf tx_buf generation set_rx]; try done. unfold buf. rewrite !length_app, length_take, length_drop. lia.
  - rewrite at_conn_eq. split; cbn [consumed default from_option id fd rx_fill tx_sent tx_size tx_buf rx_buf set_rx got wire recvs interest with_recvs calls_ with_slots with_socks]; try done.
    + lia.
    + assert (sub buf 0 (rx_fill sl + lenZ bs - 0) = sub (rx_buf sl) 0 (rx_fill sl - 0) ++ bs) as ->; [| by apply parsed_more].
      unfold buf. rewrite app_assoc. rewrite !Z.sub_0_r. unfold sub. cbn [Z.to_nat drop].
      replace (Z.to_nat (rx_fill sl + lenZ bs)) with (length (take (Z.to_nat (rx_fill sl)) (rx_buf sl) ++ bs)) by (rewrite length_app, length_take; lia).
      apply take_app_length.
    + split; [apply bytes_ok_app; [apply C7 | done] | done].
Qed.

Lemma recv_nothing_inv s live reg i sl k l :
  srv_inv s live (at_conn i (Some 0)) reg → i ∈ live → (slots_ s).[i] = Some sl → socks s !! i = Some k → recvs_ok l → rx_fill sl <= kRxBufSize →
  srv_inv (with_socks s (<[i := with_recvs k l []]> (socks s))) live (at_conn i (Some 0)) reg.
Proof.
  intros Hi Hl Hsl Hk Hrl Hf. pose proof (recv_inv s live reg i sl k l [] Hi Hl Hsl Hk Hrl (Forall_nil_2 _) ltac:(cbn; lia)) as Hinv.
  assert (set_rx (rx_fill sl + lenZ (@nil Z)) (take (Z.to_nat (rx_fill sl)) (rx_buf sl) ++ [] ++ drop (Z.to_nat (rx_fill sl) + length (@nil Z)) (rx_buf sl)) sl = sl) as Es.
  { destruct sl. unfold set_rx. cbn. rewrite Nat.add_0_r, take_drop, Z.add_0_r. done. }
  rewrite Es, setZ_same in Hinv by done. exact Hinv.
Qed.

Lemma kept_same s live s' live' : kept s live s' live' → live' ⊆ live ∧ same s s'.
Proof. by intros (? & ? & _). Qed.

(** The peer closed its side. *)
Lemma peer_closed_inv s live m reg i sl :
  srv_inv s live m reg → i ∈ live → (slots_ s).[i] = Some sl →
  ∃ s', upd_slot s i (set_peer_rd_closed true) = Some s' ∧ s' = with_slots s ((slots_ s).[i <- set_peer_rd_closed true sl]) ∧ srv_inv s' live m reg.
Proof.
  intros Hi Hl Hsl. destruct (live_slot s live m reg i Hi Hl) as (sl0 & k & Hsl0 & Hk & Hok & Hc & Hr). rewrite Hsl in Hsl0. injection Hsl0 as <-.
  rewrite (upd_slot_eq s i sl) by done. eexists. split; [done |]. split; [done |].
  apply (srv_inv_update s live m reg i _ (set_peer_rd_closed true sl) k m reg Hi Hl); try done; [by rewrite insert_id | apply (si_scratch _ _ _ _ Hi) | by left | by destruct Hok | by destruct Hc].
Qed.

Lemma read_loop_inv fuel s live reg i k :
  srv_inv s live (at_conn i (Some 0)) reg → I (handler_ s) live → i ∈ live → socks s !! i = Some k → (recv_size (recvs k) < fuel)%nat →
  ∃ s' b live', read_loop hd kMaxConns kRxBufSize kTxBufSize fuel s i = Some (s', b) ∧ I (handler_ s') live' ∧ b = bool_decide (i ∈ live') ∧
    live' ⊆ live ∧ same s s' ∧ srv_inv s' live' (at_conn i (if b then Some 0 else None)) reg.
Proof.
  revert s live k. induction fuel as [| fuel IH]; intros s live k Hi HI Hl Hk Hf; [lia |]. cbn [read_loop].
  destruct (make_rx_space_inv s live reg i Hi HI Hl) as (s1 & b & l1 & -> & HI1 & Hb & Hk1 & Hi1 & Hroom). cbn [mbind option_bind].
  destruct b; cbn [negb]; [| exists s1, false, l1; split; [done |]; split; [done |]; split; [done |]; destruct (kept_same _ _ _ _ Hk1); done].
  symmetry in Hb. apply bool_decide_eq_true in Hb as Hl1. specialize (Hroom eq_refl).
  destruct (live_slot s1 l1 _ reg i Hi1 Hl1) as (sl & k0 & Hsl & Hks & Hok & Hc & Hr). rewrite at_conn_eq in Hc.
  assert (k0 = k) as -> by (destruct Hk1 as (_ & _ & Hk1); rewrite (Hk1 i Hl1), Hk in Hks; by injection Hks).
  apply kept_same in Hk1 as [Hsub Hsame]. pose proof (co_rx _ _ _ _ _ _ Hc) as Hcr. cbn [consumed default from_option id] in Hcr. specialize (Hroom sl Hsl).
  rewrite Hsl. cbn [mbind option_bind]. rewrite (co_fd _ _ _ _ _ _ Hc), rx_space_eq by lia. unfold raw_recv. rewrite Hks.
  pose proof (raw_recv_loop_spec (recvs k) (Z.to_nat (kRxBufSize - rx_fill sl)) (proj2 (co_bytes _ _ _ _ _ _ Hc)) ltac:(lia)) as [Hrest Hres].
  destruct (recv_loop (recvs k) (Z.to_nat (kRxBufSize - rx_fill sl))) as [rest res]. cbn [fst snd] in *.
  rewrite (upd_sock_eq s1 i k) by done.
  assert (rr_status res ≠ rOk → srv_inv (with_socks s1 (<[i := with_recvs k rest (bytes_received res)]> (socks s1))) l1 (at_conn i (Some 0)) reg) as Hother.
  { intros Hne. assert (bytes_received res = []) as E by (by destruct (rr_status res)).
    rewrite E. apply (recv_nothing_inv s1 l1 reg i sl); try done. lia. }
  destruct (rr_status res) eqn:Es.
  - destruct Hres as (Hbs & Hne & Hle & Hsz).
    rewrite (upd_slot_eq _ i sl) by done. cbn [mbind option_bind slots_ with_socks]. rewrite u32_id by (unfold is_u32; lia).
    pose proof (recv_inv s1 l1 reg i sl k rest (bytes_received res) Hi1 Hl1 Hsl Hks Hrest Hbs ltac:(lia)) as Hinv.
    edestruct (IH _ l1 (with_recvs k rest (bytes_received res)) Hinv HI1 Hl1) as (s' & b & l' & Hrun & HI' & Hb' & Hsub' & Hsame' & Hi'); [cbn; by rewrite lookup_insert_eq | change (recv_size rest < fuel)%nat; lia |].
    exists s', b, l'. split; [exact Hrun |]. split; [done |]. split; [done |]. split; [set_solver |]. split; [by eapply same_trans | done].
  - destruct (peer_closed_inv _ l1 _ reg i sl (Hother ltac:(done)) Hl1 Hsl) as (s2 & -> & -> & Hi2). cbn [mbind option_bind].
    eexists _, true, l1. split; [done |]. split; [done |]. split; [by rewrite bool_decide_true |]. split; [done |]. split; [exact Hsame | done].
  - eexists _, true, l1. split; [done |]. split; [done |]. split; [by rewrite bool_decide_true |]. split; [done |]. split; [done |]. by apply Hother.
  - destruct (close_inv _ l1 _ reg i (at_conn i None) reg (Hother ltac:(done)) Hl1) as (s2 & -> & Hi2 & Hh2 & Hk2); [intros j Hj; split; [by apply at_conn_ne | done] |]. cbn [mbind option_bind].
    apply kept_same in Hk2 as [Hsub2 Hsame2]. exists s2, false, (l1 ∖ {[i]}). split; [done |]. split; [rewrite Hh2; by apply ok_disconnect |].
    split; [rewrite bool_decide_false; [done | set_solver] |]. split; [set_solver |]. split; [by eapply same_trans | done].
Qed.

Lemma handle_read_inv s live reg i :
  srv_inv s live (at_conn i None) reg → I (handler_ s) live → i ∈ live →
  ∃ s' live', handle_read_et hd kMaxConns kRxBufSize kTxBufSize s i = Some s' ∧ I (handler_ s') live' ∧
    live' ⊆ live ∧ same s s' ∧ srv_inv s' live' (at_conn i None) reg.
Proof.
  intros Hi HI Hl. apply inv_busy in Hi. destruct (live_slot s live _ reg i Hi Hl) as (sl & k & Hsl & Hk & _ & Hc & _).
  unfold handle_read_et. rewrite Hsl. cbn [mbind option_bind]. rewrite (co_fd _ _ _ _ _ _ Hc), Hk. cbn [fmap option_fmap option_map default from_option id].
  destruct (read_loop_inv (S (recv_size (recvs k))) s live reg i k Hi HI Hl Hk) as (s1 & b & l1 & -> & HI1 & Hb & Hsub & Hsame & Hi1); [lia |]. cbn [mbind option_bind].
  destruct b; cbn [negb]; [| by exists s1, l1]. symmetry in Hb. apply bool_decide_eq_true in Hb as Hl1.
  destruct (process_and_compact_inv s1 l1 reg i Hi1 HI1 Hl1) as (s2 & b & l2 & -> & Hi2 & HI2 & _ & Hk2). cbn [mbind option_bind].
  apply kept_same in Hk2 as [Hsub2 Hsame2]. exists s2, l2. split; [done |]. split; [done |]. split; [set_solver |]. split; [by eapply same_trans | done].
Qed.

(** * Writing *)

Lemma raw_send_loop_spec l buf :
  buf ≠ [] →
  ∃ n, (send_loop l buf).1.2 = take n buf ∧ 
  match sr_status (send_loop l buf).2 with
  | kOk => bytes_sent (send_loop l buf).2 = lenZ (take n buf) ∧ 0 < lenZ (take n buf) ∧ (length (send_loop l buf).1.1 < length l)%nat
  | _ => take n buf = []
  end.
Proof.
  intros Hb. induction l as [| a l IH]; [by exists 0%nat |]. destruct a as [n | e]; cbn [send_loop].
  - exists n. cbn [fst snd]. unfold send_success. split; [done |]. case_bool_decide as Hz; cbn [sr_status bytes_sent length]; [| lia].
    apply (f_equal Z.to_nat) in Hz. rewrite Nat2Z.id in Hz. by apply length_zero_iff_nil in Hz.
  - destruct e; try (exists 0%nat; cbn [fst snd]; split; [done |]; by cbn).
    destruct IH as (n & E & IH). exists n. split; [done |]. destruct (sr_status (send_loop l buf).2); try done. destruct IH as (? & ? & ?). split; [done |]. split; [done |]. cbn [length]. lia.
Qed.

Lemma tx_pending_eq calls i sl k m reg : conn_ok calls i sl k m reg → tx_pending sl = tx_size sl - tx_sent sl.
Proof. intros Hc. pose proof (co_tx _ _ _ _ _ _ Hc). unfold tx_pending. apply u32_id. unfold is_u32. lia. Qed.

(** [send] on a connection takes bytes from the front of what is queued. *)
Lemma sent_inv s live m reg i sl k l n size :
  srv_inv s live m reg → i ∈ live → (slots_ s).[i] = Some sl → socks s !! i = Some k → 0 <= n <= tx_size sl - tx_sent sl →
  (size = tx_size sl ∧ True ∨ size = 0 ∧ n = tx_size sl - tx_sent sl) →
  srv_inv (with_slots (with_socks s (<[i := with_sends k l (sub (tx_buf sl) (tx_sent sl) n)]> (socks s))) ((slots_ s).[i <-
     set_tx size (if bool_decide (size = 0) then 0 else tx_sent sl + n) (tx_buf sl) sl])) live m reg.
Proof.
  intros Hi Hl Hsl Hk Hn Hsize. destruct (live_slot s live m reg i Hi Hl) as (sl0 & k0 & Hsl0 & Hk0 & Hok & Hc & Hr).
  rewrite Hsl in Hsl0. injection Hsl0 as <-. rewrite Hk in Hk0. injection Hk0 as <-. destruct Hc as [C1 C2 C3 C4 C5 C6 C7 C8].
  set (sent := if bool_decide (size = 0) then 0 else tx_sent sl + n). assert (0 <= sent <= size ∧ size <= tx_size sl) as Hs.
  { unfold sent. case_bool_decide; lia. }
  apply (srv_inv_update s live m reg i _ (set_tx size sent (tx_buf sl) sl) (with_sends k l (sub (tx_buf sl) (tx_sent sl) n)) m reg Hi Hl); try done;
    [apply (si_scratch _ _ _ _ Hi) | by left | by destruct Hok |].
  split; cbn [fd rx_fill rx_buf tx_size tx_sent tx_buf set_tx got wire recvs interest with_sends calls_ with_slots with_socks]; try done; [lia |].
  rewrite <- C6, <- app_assoc. f_equal. rewrite (sub_split (tx_buf sl) (tx_sent sl) (tx_size sl - tx_sent sl) n) by lia. f_equal.
  unfold sent. unfold sub. case_bool_decide as Hz.
  - replace (Z.to_nat (size - 0)) with 0%nat by lia. replace (Z.to_nat (tx_size sl - tx_sent sl - n)) with 0%nat by lia. done.
  - by replace (size - (tx_sent sl + n)) with (tx_size sl - tx_sent sl - n) by lia.
Qed.

Lemma sub_0 (l : list Z) from : sub l from 0 = [].
Proof. unfold sub. by replace (Z.to_nat 0) with 0%nat by lia. Qed.

Lemma sub_take (l : list Z) from n k : take k (sub l from n) = sub l from (lenZ (take k (sub l from n))).
Proof.
  unfold sub. rewrite Nat2Z.id, take_take. set (d := drop (Z.to_nat from) l). rewrite length_take.
  transitivity (take (Nat.min k (Z.to_nat n)) (take (length d) d)); [by rewrite (take_ge d (length d)) by done | by rewrite take_take].
Qed.

(** Nothing was taken. *)
Lemma not_sent_inv s live m reg i sl k l :
  srv_inv s live m reg → i ∈ live → (slots_ s).[i] = Some sl → socks s !! i = Some k → 0 < tx_size sl →
  srv_inv (with_socks s (<[i := with_sends k l []]> (socks s))) live m reg.
Proof.
  intros Hi Hl Hsl Hk Hpos. destruct (live_slot s live m reg i Hi Hl) as (sl0 & k0 & Hsl0 & Hk0 & _ & Hc & _).
  rewrite Hsl in Hsl0. injection Hsl0 as <-. pose proof (co_tx _ _ _ _ _ _ Hc) as Ht.
  pose proof (sent_inv s live m reg i sl k l 0 (tx_size sl) Hi Hl Hsl Hk ltac:(lia) ltac:(by left)) as H1. rewrite sub_0, bool_decide_false, Z.add_0_r in H1 by lia.
  replace (set_tx (tx_size sl) (tx_sent sl) (tx_buf sl) sl) with sl in H1 by by destruct sl.
  rewrite setZ_same in H1 by done. exact H1.
Qed.

(** Everything was taken: the buffer starts over. *)
Lemma flushed_inv s live m reg i sl :
  srv_inv s live m reg → i ∈ live → (slots_ s).[i] = Some sl → tx_pending sl = 0 →
  srv_inv (with_slots s ((slots_ s).[i <- set_tx 0 0 (tx_buf sl) sl])) live m reg.
Proof.
  intros Hi Hl Hsl Hp. destruct (live_slot s live m reg i Hi Hl) as (sl0 & k & Hsl0 & Hk & _ & Hc & _).
  rewrite Hsl in Hsl0. injection Hsl0 as <-. rewrite (tx_pending_eq _ _ _ _ _ _ Hc) in Hp. pose proof (co_tx _ _ _ _ _ _ Hc) as Ht.
  pose proof (sent_inv s live m reg i sl k (sends k) 0 0 Hi Hl Hsl Hk ltac:(lia) ltac:(right; lia)) as H1. rewrite sub_0, bool_decide_true in H1 by done.
  replace (with_sends k (sends k) []) with k in H1 by (destruct k; unfold with_sends; cbn; by rewrite app_nil_r).
  rewrite insert_id in H1 by done. exact H1.
Qed.

Lemma write_loop_inv fuel s live m reg i k :
  srv_inv s live m reg → i ∈ live → socks s !! i = Some k → (length (sends k) < fuel)%nat →
  ∃ s' b, write_loop fuel s i = Some (s', b) ∧ srv_inv s' live m reg ∧ handler_ s' = handler_ s ∧ same s s' ∧ calls_ s' = calls_ s.
Proof.
  revert s k. induction fuel as [| fuel IH]; intros s k Hi Hl Hk Hf; [lia |]. cbn [write_loop].
  destruct (live_slot s live m reg i Hi Hl) as (sl & k0 & Hsl & Hk0 & _ & Hc & Hr). rewrite Hk in Hk0. injection Hk0 as <-.
  rewrite Hsl. cbn [mbind option_bind]. pose proof (tx_pending_eq _ _ _ _ _ _ Hc) as Hp. pose proof (co_tx _ _ _ _ _ _ Hc) as Ht. case_bool_decide as Hpos.
  - rewrite (co_fd _ _ _ _ _ _ Hc). unfold raw_send. rewrite Hk. fold (sub (tx_buf sl) (tx_sent sl) (tx_pending sl)).
    set (buf := sub (tx_buf sl) (tx_sent sl) (tx_pending sl)).
    assert (lenZ buf = tx_pending sl) as Hbuf.
    { apply length_sub; [lia | lia |]. destruct (si_slot _ _ _ _ Hi i sl Hsl). lia. }
    destruct (raw_send_loop_spec (sends k) buf) as (n & Htk & Hres); [by intros E; rewrite E in Hbuf; cbn in Hbuf; lia |].
    destruct (send_loop (sends k) buf) as [[rest taken] res]. cbn [fst snd] in *. rewrite (upd_sock_eq s i k) by done. subst taken.
    destruct (sr_status res).
    2,3,4: rewrite Hres; do 2 eexists; split; [done |]; split; [| done]; by apply (not_sent_inv s live m reg i sl); [.. | lia].
    destruct Hres as (Hb & Hpn & Hlt). rewrite Hb. rewrite (upd_slot_eq _ i sl) by done. cbn [mbind option_bind slots_ with_socks].
    assert (lenZ (take n buf) <= tx_pending sl) as Hle by (rewrite length_take; lia).
    pose proof (sent_inv s live m reg i sl k rest (lenZ (take n buf)) (tx_size sl) Hi Hl Hsl Hk ltac:(lia) ltac:(by left)) as Hi1.
    unfold buf in Hi1 at 1. rewrite <- sub_take in Hi1. fold buf in Hi1. rewrite bool_decide_false in Hi1 by lia. rewrite u32_id by (unfold is_u32; lia).
    edestruct (IH _ (with_sends k rest (take n buf)) Hi1 Hl) as (s' & b & Hrun & Hi' & Hh & Hsame & Hcalls); [cbn; by rewrite lookup_insert_eq | cbn; lia |].
    exists s', b. split; [exact Hrun |]. split; [done |]. split; [exact Hh |]. split; [exact Hsame | exact Hcalls].
  - rewrite (upd_slot_eq s i sl) by done. cbn [mbind option_bind]. do 2 eexists. split; [done |]. split; [| done].
    apply flushed_inv; try done. lia.
Qed.

Lemma handle_write_inv s live m reg i :
  srv_inv s live m reg → i ∈ live →
  ∃ s' b, handle_write_et s i = Some (s', b) ∧ srv_inv s' live m reg ∧ handler_ s' = handler_ s ∧ same s s' ∧ calls_ s' = calls_ s.
Proof.
  intros Hi Hl. destruct (live_slot s live m reg i Hi Hl) as (sl & k & Hsl & Hk & _ & Hc & _). unfold handle_write_et.
  rewrite Hsl. cbn [mbind option_bind]. rewrite (co_fd _ _ _ _ _ _ Hc), Hk. cbn [fmap option_fmap option_map default from_option id].
  apply (write_loop_inv _ s live m reg i k Hi Hl Hk). lia.
Qed.

(** * Events *)

(** What [epoll] watches for changes. *)
Lemma watch_inv s live m reg i sl ev :
  srv_inv s live m reg → i ∈ live → (slots_ s).[i] = Some sl →
  srv_inv (epoll_mod_conn s i ev sl) live m (λ j, if decide (j = i) then true else reg j) ∧
  ∃ k, socks (epoll_mod_conn s i ev sl) !! i = Some k ∧ interest k = Some (ev, encode_u64 sl).
Proof.
  intros Hi Hl Hsl. destruct (live_slot s live m reg i Hi Hl) as (sl0 & k & Hsl0 & Hk & Hok & Hc & Hr). rewrite Hsl in Hsl0. injection Hsl0 as <-.
  unfold epoll_mod_conn. rewrite (upd_sock_eq s i k) by done. split; [| eexists; split; [cbn; by rewrite lookup_insert_eq | done]].
  apply (srv_inv_update s live m reg i _ sl (with_interest k (Some (ev, encode_u64 sl))) m _ Hi Hl); try done;
    [cbn; by rewrite setZ_same | apply (si_scratch _ _ _ _ Hi) | by left | destruct Hc; split; try done; intros _; by exists ev |].
  intros j Hj. by rewrite decide_False.
Qed.

(** Bytes wait only with [EPOLLOUT] watched, and a connection whose peer has
    closed its side is kept only for the bytes that wait. *)
Definition armed s (i : Z) : Prop :=
  ∀ sl k, (slots_ s).[i] = Some sl → socks s !! i = Some k →
    (tx_pending sl > 0 → ∃ ev u, interest k = Some (ev, u) ∧ has ev EPOLLOUT = true) ∧
    (peer_rd_closed sl = true → tx_pending sl > 0).

Lemma has_epollout sl : has (Z.lor (base_events sl) EPOLLOUT) EPOLLOUT = true.
Proof. unfold base_events. by destruct (peer_rd_closed sl). Qed.

Definition all_registered : Z → bool := λ _, true.

Lemma watch_all s live m i sl ev :
  srv_inv s live m all_registered → i ∈ live → (slots_ s).[i] = Some sl → srv_inv (epoll_mod_conn s i ev sl) live m all_registered.
Proof.
  intros Hi Hl Hsl. destruct (watch_inv s live m _ i sl ev Hi Hl Hsl) as [H1 _]. eapply inv_ext; [exact H1 |]. intros j. split; [done |]. by case_decide.
Qed.

(** The end of an event: [EPOLLOUT] is watched if bytes wait, and a connection
    with nothing left to do is closed. *)
Lemma finish_event s live i :
  srv_inv s live (at_conn i None) all_registered → I (handler_ s) live → i ∈ live →
  ∃ s' live',
    (sl ← (slots_ s).[i];
     let s := if negb (bool_decide (fd sl = -1)) && bool_decide (tx_pending sl > 0) then enable_epollout s (fd sl) sl else s in
     if negb (bool_decide (fd sl = -1)) && peer_rd_closed sl && bool_decide (tx_pending sl = 0) then close_connection hd s (fd sl) else Some s) = Some s' ∧
    srv_inv s' live' (at_conn i None) all_registered ∧ I (handler_ s') live' ∧ live' ⊆ live ∧ same s s' ∧ (i ∈ live' → armed s' i).
Proof.
  intros Hi HI Hl. destruct (live_slot s live _ _ i Hi Hl) as (sl & k & Hsl & Hk & _ & Hc & Hr). rewrite Hsl. cbn [mbind option_bind]. cbn zeta.
  rewrite (co_fd _ _ _ _ _ _ Hc). rewrite (bool_decide_false (i = -1)) by lia. cbn [negb andb].
  pose proof (tx_pending_eq _ _ _ _ _ _ Hc) as Hp. pose proof (co_tx _ _ _ _ _ _ Hc) as Ht.
  destruct (bool_decide_reflect (tx_pending sl > 0)) as [Hpos | Hpos].
  - rewrite (bool_decide_false (tx_pending sl = 0)) by lia. rewrite andb_false_r.
    pose proof (watch_all s live _ i sl (Z.lor (base_events sl) EPOLLOUT) Hi Hl Hsl) as Hi'. eexists _, live. split; [done |]. split; [exact Hi' |].
    split; [done |]. split; [done |]. split; [done |]. intros _ sl' k'. unfold enable_epollout, epoll_mod_conn. rewrite (upd_sock_eq s i k) by done.
    cbn [slots_ with_socks socks]. rewrite Hsl, lookup_insert_eq. intros [= <-] [= <-]. split; [| lia]. intros _.
    do 2 eexists. split; [done |]. apply has_epollout.
  - rewrite (bool_decide_true (tx_pending sl = 0)) by lia. rewrite andb_true_r. destruct (peer_rd_closed sl) eqn:Epeer.
    + destruct (close_inv s live _ _ i (at_conn i None) all_registered Hi Hl) as (s' & -> & Hi' & Hh & Hk'); [done |]. apply kept_same in Hk' as [Hsub Hsame].
      exists s', (live ∖ {[i]}). split; [done |]. split; [done |]. split; [rewrite Hh; by apply ok_disconnect |]. split; [done |]. split; [done |]. set_solver.
    + exists s, live. split; [done |]. split; [done |]. split; [done |]. split; [done |]. split; [done |]. intros _ sl' k'.
      rewrite Hsl. intros [= <-] _. split; [lia | by rewrite Epeer].
Qed.

(** The conclusion of every handler of events. *)
Definition keeps s live (r : option (Server H)) (i : Z) : Prop :=
  ∃ s' live', r = Some s' ∧ srv_inv s' live' (at_conn i None) all_registered ∧ I (handler_ s') live' ∧ live' ⊆ live ∧ same s s' ∧ (i ∈ live' → armed s' i).

Lemma keeps_from s live s1 live1 r i : live1 ⊆ live → same s s1 → keeps s1 live1 r i → keeps s live r i.
Proof.
  intros Hsub Hsame (s' & live' & Hr & Hi & HI & Hsub' & Hsame' & Ha). exists s', live'. split; [done |]. split; [done |]. split; [done |].
  split; [set_solver |]. split; [by eapply same_trans | done].
Qed.

Lemma keeps_close s live i :
  srv_inv s live (at_conn i None) all_registered → I (handler_ s) live → i ∈ live → keeps s live (close_connection hd s i) i.
Proof.
  intros Hi HI Hl. destruct (close_inv s live _ _ i (at_conn i None) all_registered Hi Hl) as (s' & -> & Hi' & Hh & Hk'); [done |]. apply kept_same in Hk' as [Hsub Hsame].
  exists s', (live ∖ {[i]}). split; [done |]. split; [done |]. split; [rewrite Hh; by apply ok_disconnect |]. split; [done |]. split; [done |]. set_solver.
Qed.

Lemma dispatch_write_inv s live i flags :
  srv_inv s live (at_conn i None) all_registered → I (handler_ s) live → i ∈ live → keeps s live (dispatch_write hd s i flags) i.
Proof.
  intros Hi HI Hl. unfold dispatch_write.
  assert (∃ s1, (if has flags EPOLLRDHUP then upd_slot s i (set_peer_rd_closed true) else Some s) = Some s1 ∧ srv_inv s1 live (at_conn i None) all_registered ∧
    I (handler_ s1) live ∧ same s s1) as (s1 & -> & Hi1 & HI1 & Hs1).
  { destruct (has flags EPOLLRDHUP); [| by exists s]. destruct (live_slot s live _ _ i Hi Hl) as (sl & _ & Hsl & _).
    destruct (peer_closed_inv s live _ _ i sl Hi Hl Hsl) as (s1 & -> & -> & Hi1). eexists. split; [done |]. done. }
  cbn [mbind option_bind]. apply (keeps_from s live s1 live); [done | done |].
  destruct (live_slot s1 live _ _ i Hi1 Hl) as (sl & k & Hsl & _ & _ & Hc & _). rewrite Hsl. cbn [mbind option_bind].
  destruct (has flags (Z.lor EPOLLHUP EPOLLERR)); [rewrite (co_fd _ _ _ _ _ _ Hc); by apply keeps_close |].
  destruct (has flags EPOLLOUT); cbn [mbind option_bind].
  2:{ destruct (finish_event s1 live i Hi1 HI1 Hl) as (s' & live' & Hr & ?). by exists s', live'. }
  destruct (handle_write_inv s1 live _ _ i Hi1 Hl) as (s2 & b & -> & Hi2 & Hh2 & Hs2 & _). cbn [mbind option_bind].
  apply (keeps_from s1 live s2 live); [done | done |]. rewrite <- Hh2 in HI1.
  destruct (live_slot s2 live _ _ i Hi2 Hl) as (sl2 & k2 & Hsl2 & _ & _ & Hc2 & _). rewrite Hsl2. cbn [mbind option_bind]. rewrite (co_fd _ _ _ _ _ _ Hc2).
  assert (keeps s2 live (s ← close_connection hd s2 i; Some s) i) as Hclose.
  { destruct (keeps_close s2 live i Hi2 HI1 Hl) as (s' & live' & -> & ?). by exists s', live'. }
  destruct b; cbn [negb].
  - destruct (bool_decide_reflect (tx_pending sl2 = 0)) as [Hz | Hz].
    + destruct (peer_rd_closed sl2).
      * destruct (close_connection hd s2 i); exact Hclose.
      * cbn [mbind option_bind]. pose proof (watch_all s2 live _ i sl2 (base_events sl2) Hi2 Hl Hsl2) as Hi3.
        destruct (finish_event (disable_epollout s2 i sl2) live i Hi3 HI1 Hl) as (s' & live' & Hr & ?). by exists s', live'.
    + cbn [mbind option_bind]. destruct (finish_event s2 live i Hi2 HI1 Hl) as (s' & live' & Hr & ?). by exists s', live'.
  - destruct (close_connection hd s2 i); exact Hclose.
Qed.

(** * Accepting *)

Lemma at_conn_idle i j : at_conn i None j = None.
Proof. unfold at_conn. by case_decide. Qed.

Definition idle : Z → option Z := λ _, None.

Lemma inv_at s live reg i : srv_inv s live idle reg ↔ srv_inv s live (at_conn i None) reg.
Proof. split; intros Hi; (eapply inv_ext; [exact Hi |]); intros j; by rewrite ?at_conn_idle. Qed.

(** A connection appears. *)
Lemma inv_connect s live i sends recvs s' :
  srv_inv s live idle all_registered → 0 <= i < kMaxConns → socks s !! i = None → recvs_ok recvs →
  alloc_slot (with_socks s (<[i := new_sock sends recvs]> (socks s))) i = Some s' →
  i ∉ live ∧ same s s' ∧ handler_ s' = handler_ s ∧ srv_inv (called s' (Connect i)) ({[i]} ∪ live) idle (λ j, negb (bool_decide (j = i))).
Proof.
  intros Hi Hr Hnone Hrecvs Hal. assert (i ∉ live) as Hnl.
  { intros Hl. destruct (live_slot s live _ _ i Hi Hl) as (_ & k & _ & Hk & _). by rewrite Hnone in Hk. }
  destruct (any_slot s live _ _ i Hi Hr) as (sl & Hsl & Hok & _). rewrite <- (si_slots _ _ _ _ Hi) in Hr.
  unfold alloc_slot in Hal. rewrite (upd_slot_eq _ i sl) in Hal by done. injection Hal as <-. split; [done |]. split; [done |]. split; [done |].
  destruct Hi as [V1 V2 V3 V4 V5 V6 V7 V8]. split; cbn [slots_ socks scratch_ calls_ called with_slots with_socks].
  - by rewrite length_setZ.
  - done.
  - intros j [->%elem_of_singleton | Hj]%elem_of_union; [by rewrite <- V1 | by apply V3].
  - intros j slj. rewrite getZ_setZ by done. case_decide; [intros [= <-]; by destruct Hok | apply V4].
  - intros j slj. rewrite getZ_setZ by done. case_decide as Hij.
    + subst j. intros [= <-] _. exists (new_sock sends recvs). split; [by rewrite lookup_insert_eq |]. rewrite bool_decide_true by done.
      split; cbn [fd rx_fill tx_sent tx_size tx_buf rx_buf got wire Srv.recvs consumed default from_option id idle negb new_sock]; try done; rewrite ?Z.sub_0_r, ?sub_0.
      * lia.
      * lia.
      * rewrite delivered_snoc. cbn. rewrite decide_True by done. constructor.
      * intros _. apply settled_nil.
      * rewrite queued_snoc. cbn. by rewrite decide_True.
      * split; [exact (Forall_nil_2 _) | done].
    + intros Hj [Hji%elem_of_singleton | Hlj]%elem_of_union; [congruence |]. destruct (V5 j slj Hj Hlj) as (kj & Hkj & Hcj).
      exists kj. rewrite lookup_insert_ne by congruence. split; [done |]. rewrite bool_decide_false by congruence. apply conn_ok_other; [cbn; congruence | done].
  - intros j slj. rewrite getZ_setZ by done. case_decide as Hij; [subst j; set_solver |]. intros Hj Hlj. rewrite lookup_insert_ne by congruence. apply V6; [done | set_solver].
  - intros j kj [[<- _] | [_ Hj]]%lookup_insert_Some; [set_solver |]. apply elem_of_union. right. by apply (V7 j kj).
  - rewrite connections_snoc, V8. cbn. by rewrite decide_False.
Qed.

(** What [accept_one] does when the connection is not kept. *)
Lemma drop_inv s live reg i c s0 s1 :
  srv_inv s live idle reg → (∀ j, j ≠ i → reg j = true) → i ∈ live → slots_ s0 = slots_ s → socks s0 = socks s → scratch_ s0 = scratch_ s →
  release_slot s0 i = Some s1 → calls_ s1 ++ c = calls_ s ++ [Disconnect i] ∨ calls_ s1 ++ c = calls_ s ++ [Reject i] →
  ∀ s', slots_ s' = slots_ s1 → socks s' = delete i (socks s1) → scratch_ s' = scratch_ s1 → calls_ s' = calls_ s1 ++ c →
  srv_inv s' (live ∖ {[i]}) idle all_registered.
Proof.
  intros Hi Hreg Hl E1 E2 E3 Hrel Hcalls s' F1 F2 F3 F4. destruct (live_slot s live _ _ i Hi Hl) as (sl & k & Hsl & Hk & Hok & Hc & Hr).
  unfold release_slot in Hrel. rewrite (upd_slot_eq s0 i sl) in Hrel by (by rewrite E1). injection Hrel as <-. cbn [slots_ socks scratch_ calls_ with_slots] in *.
  assert (∃ c', (c' = Disconnect i ∨ c' = Reject i) ∧ calls_ s' = calls_ s ++ [c']) as (c' & Hc' & Hcs).
  { destruct Hcalls as [Hx | Hx]; rewrite F4, Hx; eexists; (split; [| done]); [by left | by right]. }
  apply (inv_release s live idle reg i s' (set_generation (u32 (generation sl + 1)) (set_fd (-1) sl)) c' idle all_registered Hi Hl); try done.
  - by rewrite F1, E1.
  - by rewrite F2, E2.
  - by rewrite F3, E3.
  - destruct Hok. split; cbn [rx_buf tx_buf generation set_generation set_fd]; try done. apply u32_range.
  - intros j Hj. split; [done |]. by rewrite Hreg.
Qed.

(** The state between events. *)
Record srv_ok s live : Prop := {
  sv_inv : srv_inv s live idle all_registered;
  sv_handler : I (handler_ s) live;
}.

Lemma accept_one_inv s live i sends recvs add_ok :
  srv_ok s live → 0 <= i → socks s !! i = None → recvs_ok recvs →
  ∃ s' live', accept_one hd kMaxConns s i sends recvs add_ok = Some s' ∧ srv_ok s' live' ∧ same s s'.
Proof.
  intros [Hi HI] H0 Hnone Hrecvs. unfold accept_one. case_bool_decide as Hbig; [by exists s, live |].
  assert (0 <= i < kMaxConns) as Hr by lia. cbn zeta. set (s0 := with_socks s (<[i:=new_sock sends recvs]> (socks s))).
  assert (∃ s1, alloc_slot s0 i = Some s1) as [s1 Hal].
  { destruct (any_slot s live _ _ i Hi Hr) as (sl & Hsl & _). unfold alloc_slot. rewrite (upd_slot_eq s0 i sl); [by eexists | done | cbn; by rewrite (si_slots _ _ _ _ Hi)]. }
  rewrite Hal. cbn [mbind option_bind]. destruct (inv_connect s live i sends recvs s1 Hi Hr Hnone Hrecvs Hal) as (Hnl & Hs1 & Hh1 & Hi1).
  rewrite <- Hh1 in HI. pose proof (ok_connect i (handler_ s1) live HI Hr Hnl) as Hwp.
  destruct (run_prog_inv (on_connect hd i) i _ ({[i]} ∪ live) idle _ _ Hi1 Hwp) as (s2 & b & l2 & -> & Hi2 & HQ & Hself & Hk2).
  cbn [mbind option_bind]. specialize (Hself ltac:(set_solver)). apply kept_same in Hk2 as [_ Hs2].
  assert (same s s2) as Hss by (eapply same_trans; [exact Hs1 | exact Hs2]).
  destruct (live_slot s2 l2 _ _ i Hi2 Hself) as (sl & k & Hsl & Hk & Hok & Hc & Hrange).
  assert (∀ j, j ≠ i → negb (bool_decide (j = i)) = true) as Hreg by (intros j Hj; by rewrite bool_decide_false).
  assert (∀ sx, slots_ sx = slots_ s2 → ∃ s3, release_slot sx i = Some s3 ∧ s3 = with_slots sx ((slots_ sx).[i <- set_generation (u32 (generation sl + 1)) (set_fd (-1) sl)])) as Hrel.
  { intros sx E. unfold release_slot. rewrite (upd_slot_eq sx i sl) by (by rewrite E). by eexists. }
  destruct b; cbn [negb].
  - rewrite Hsl. cbn [mbind option_bind]. rewrite Hk. rewrite (bool_decide_true (is_Some _)) by by eexists. rewrite andb_true_r. destruct add_ok.
    + eexists _, l2. split; [done |]. split; [| exact Hss]. split; [| exact HQ].
      destruct (watch_inv s2 l2 idle _ i sl (Z.lor EPOLLIN (Z.lor EPOLLRDHUP EPOLLET)) Hi2 Hself Hsl) as [Hi3 _].
      eapply inv_ext; [exact Hi3 |]. intros j. split; [done |]. cbn beta. destruct (decide (j = i)) as [Hj | Hj]; [reflexivity |]. symmetry. by apply Hreg.
    + destruct (Hrel (disconnect hd s2 i) eq_refl) as (s3 & Hs3 & E3). rewrite Hs3. cbn [mbind option_bind]. eexists _, (l2 ∖ {[i]}). split; [done |]. split.
      * split; [| rewrite E3; by apply ok_disconnect].
        eapply (drop_inv s2 l2 _ i [] (disconnect hd s2 i) s3 Hi2 Hreg Hself); try done; [left; by rewrite E3, app_nil_r | by rewrite app_nil_r].
      * rewrite E3. exact Hss.
  - destruct (Hrel s2 eq_refl) as (s3 & Hs3 & E3). rewrite Hs3. cbn [mbind option_bind]. eexists _, (l2 ∖ {[i]}). split; [done |]. split.
    + split; [| rewrite E3; exact HQ].
      eapply (drop_inv s2 l2 _ i [Reject i] s2 s3 Hi2 Hreg Hself); try done. right. by rewrite E3.
    + rewrite E3. exact Hss.
Qed.

Lemma accept_loop_inv l s live :
  srv_ok s live → accepts_ok l → ∃ s' live', accept_loop hd kMaxConns l s = Some s' ∧ srv_ok s' live' ∧ started_ s' = started_ s ∧ accepts_ok (accepts s').
Proof.
  revert s live. induction l as [| a l IH]; intros s live Hok Hl; cbn [accept_loop].
  - eexists _, live. split; [done |]. split; [destruct Hok as [[] ?]; by split |]. split; [done | exact (Forall_nil_2 _)].
  - inversion_clear Hl as [| ? ? Ha Hl']. destruct a as [e | i sends recvs add_ok].
    + destruct (transient e); [by apply (IH s live) |]. eexists _, live. split; [done |]. split; [destruct Hok as [[] ?]; by split | done].
    + destruct (bool_decide (i < 0) || bool_decide (is_Some (socks s !! i))) eqn:E; [by apply (IH s live) |].
      apply orb_false_iff in E as [E1%bool_decide_eq_false E2%bool_decide_eq_false].
      destruct (accept_one_inv s live i sends recvs add_ok Hok ltac:(lia)) as (s1 & l1 & -> & Hok1 & [Hs1 _]); [by apply eq_None_not_Some | done |].
      cbn [mbind option_bind]. destruct (IH s1 l1 Hok1 Hl') as (s' & live' & Hrun & Hok' & Hs' & Ha'). exists s', live'. by rewrite Hs', Hs1.
Qed.

(** * Events *)

(** After an event of connection [i] its bytes that wait are watched for. *)
Definition event_keeps s live (ev : Z * Z) (r : option (Server H)) : Prop :=
  ∃ s' live', r = Some s' ∧ srv_ok s' live' ∧ started_ s' = started_ s ∧ accepts_ok (accepts s') ∧
    ∀ i sl, (slots_ s).[i] = Some sl → i ∈ live → ev.1 = encode_u64 sl → i ∈ live' → armed s' i.

Lemma encode_parts sl : is_u32 (generation sl) → 0 <= fd sl < 2 ^ 31 → slot_index (encode_u64 sl) = fd sl ∧ Z.shiftr (encode_u64 sl) 32 = generation sl.
Proof.
  intros Hg Hf. unfold encode_u64, slot_index. rewrite (u32_id (fd sl)) by (unfold is_u32; lia).
  assert (Z.lor (u64 (Z.shiftl (generation sl) 32)) (fd sl) = fd sl + 2 ^ 32 * generation sl) as ->.
  { unfold is_u32 in Hg. rewrite Z.shiftl_mul_pow2 by lia. rewrite u64_id by (unfold is_u64; nia). rewrite lor_disjoint by lia. lia. }
  split.
  - change (2 ^ 32 - 1) with (Z.ones 32). rewrite Z.land_ones by lia. rewrite Z.mul_comm, Z_mod_plus_full, Z.mod_small by lia. by rewrite bool_decide_true by lia.
  - rewrite Z.shiftr_div_pow2 by lia. rewrite Z.mul_comm, Z_div_plus_full by lia. rewrite Z.div_small by lia. lia.
Qed.

Lemma keeps_event s live ev r i :
  accepts_ok (accepts s) → slot_index ev.1 = i → keeps s live r i → srv_ok s live → event_keeps s live ev r.
Proof.
  intros Ha Hi (s' & live' & -> & Hi' & HI' & _ & [Hs1 Hs2] & Harm) [Hinv _]. exists s', live'. split; [done |]. split; [split; [by apply (inv_at _ _ _ i) | done] |].
  split; [done |]. split; [by rewrite Hs2 |]. intros j sl Hsl Hl He. destruct (live_slot s live _ _ j Hinv Hl) as (sl0 & k & Hsl0 & _ & Hok & Hc & Hr).
  rewrite Hsl in Hsl0. injection Hsl0 as <-. destruct (encode_parts sl) as [Hx _]; [apply Hok | rewrite (co_fd _ _ _ _ _ _ Hc); pose proof (si_slots _ _ _ _ Hinv); lia |].
  rewrite He, Hx, (co_fd _ _ _ _ _ _ Hc) in Hi. by subst j.
Qed.

Lemma dispatch_event_inv s live ev :
  srv_ok s live → accepts_ok (accepts s) → event_keeps s live ev (dispatch_event hd kMaxConns kRxBufSize kTxBufSize s ev).
Proof.
  intros Hok Ha. destruct ev as [u flags]. unfold dispatch_event. case_bool_decide as Hsent.
  { destruct (accept_loop_inv (accepts s) s live Hok Ha) as (s' & live' & Hr & Hok' & Hs' & Ha'). exists s', live'. split; [exact Hr |]. split; [done |]. split; [done |]. split; [done |].
    intros i sl Hsl Hl He. exfalso. destruct Hok as [Hi _]. destruct (live_slot s live _ _ i Hi Hl) as (sl0 & k & Hsl0 & _ & Ho & Hc & Hr').
    rewrite Hsl in Hsl0. injection Hsl0 as <-. pose proof (si_slots _ _ _ _ Hi) as Hlen.
    destruct (encode_parts sl) as [Hx _]; [apply Ho | rewrite (co_fd _ _ _ _ _ _ Hc); lia |]. cbn [fst] in He. rewrite <- He, Hsent, (co_fd _ _ _ _ _ _ Hc) in Hx.
    assert (slot_index kListenerSentinel = -1) as E by by vm_compute. lia. }
  cbn zeta. set (i := slot_index u).
  assert (∀ slx, (∀ j sl, (slots_ s).[j] = Some sl → j ∈ live → u = encode_u64 sl → False) → slx = Some s → event_keeps s live (u, flags) slx) as Hskip.
  { intros slx Hno ->. exists s, live. split; [done |]. split; [done |]. split; [done |]. split; [done |]. intros j sl Hsl Hl He. by destruct (Hno j sl Hsl Hl He). }
  assert (∀ j sl, (slots_ s).[j] = Some sl → j ∈ live → u = encode_u64 sl → j = i ∧ generation sl = Z.shiftr u 32 ∧ 0 <= j < kMaxConns) as Hown.
  { intros j sl Hsl Hl ->. destruct Hok as [Hi _]. destruct (live_slot s live _ _ j Hi Hl) as (sl0 & k & Hsl0 & _ & Ho & Hc & Hr').
    rewrite Hsl in Hsl0. injection Hsl0 as <-. pose proof (si_slots _ _ _ _ Hi) as Hlen.
    destruct (encode_parts sl) as [Hx Hy]; [apply Ho | rewrite (co_fd _ _ _ _ _ _ Hc); lia |]. unfold i. rewrite Hx, Hy, (co_fd _ _ _ _ _ _ Hc). split; [done |]. split; [done | lia]. }
  destruct (bool_decide (i < 0) || bool_decide (i >= kMaxConns)) eqn:Erange.
  { apply Hskip; [| done]. intros j sl Hsl Hl He. destruct (Hown j sl Hsl Hl He) as (-> & _ & Hr).
    apply orb_true_iff in Erange as [E%bool_decide_eq_true | E%bool_decide_eq_true]; lia. }
  apply orb_false_iff in Erange as [E1%bool_decide_eq_false E2%bool_decide_eq_false].
  destruct (any_slot s live _ _ i (sv_inv _ _ Hok) ltac:(lia)) as (sl & Hsl & _ & Hfd). rewrite Hsl. cbn [mbind option_bind].
  destruct (bool_decide (fd sl = -1) || negb (bool_decide (generation sl = Z.shiftr u 32))) eqn:Estale.
  { apply Hskip; [| done]. intros j slj Hslj Hl He. destruct (Hown j slj Hslj Hl He) as (-> & Hg & Hr). rewrite Hsl in Hslj. injection Hslj as <-.
    rewrite Hfd, decide_True in Estale by done. rewrite bool_decide_false, Hg, bool_decide_true in Estale by (done || lia). done. }
  apply orb_false_iff in Estale as [E3%bool_decide_eq_false _]. rewrite Hfd in E3. case_decide as Hl; [| done].
  destruct Hok as [Hi HI]. pose proof (proj1 (inv_at s live _ i) Hi) as Hi0.
  apply (keeps_event s live (u, flags) _ i Ha eq_refl); [| by split]. destruct (has flags EPOLLIN).
  - destruct (handle_read_inv s live _ i Hi0 HI Hl) as (s1 & l1 & -> & HI1 & Hsub & Hsame & Hi1). cbn [mbind option_bind].
    destruct (any_slot s1 l1 _ _ i Hi1 ltac:(lia)) as (sl1 & Hsl1 & _ & Hfd1). rewrite Hsl1. cbn [mbind option_bind]. rewrite Hfd1. case_decide as Hl1.
    + rewrite bool_decide_false by lia. apply (keeps_from s live s1 l1); [done | done |]. by apply dispatch_write_inv.
    + rewrite bool_decide_true by done. exists s1, l1. done.
  - by apply dispatch_write_inv.
Qed.

Lemma dispatch_all_inv evs s live :
  srv_ok s live → accepts_ok (accepts s) →
  ∃ s' live', dispatch_all hd kMaxConns kRxBufSize kTxBufSize evs s = Some s' ∧ srv_ok s' live' ∧ started_ s' = started_ s ∧ accepts_ok (accepts s').
Proof.
  revert s live. induction evs as [| ev evs IH]; intros s live Hok Ha; cbn [dispatch_all]; [by exists s, live |].
  destruct (dispatch_event_inv s live ev Hok Ha) as (s1 & l1 & -> & Hok1 & Hs1 & Ha1 & _). cbn [mbind option_bind].
  destruct (IH s1 l1 Hok1 Ha1) as (s' & live' & Hr & Hok' & Hs' & Ha'). exists s', live'. by rewrite Hs', Hs1.
Qed.

Lemma run_ok batches s live :
  srv_ok s live → accepts_ok (accepts s) → started_ s = true →
  ∃ s' live', run hd kMaxConns kRxBufSize kTxBufSize batches s = Some s' ∧ srv_ok s' live' ∧ accepts_ok (accepts s').
Proof.
  revert s live. induction batches as [| [stop answer] batches IH]; intros s live Hok Ha Hst; cbn [run]; [by exists s, live |].
  destruct stop; [by exists s, live |]. unfold poll_once. rewrite Hst. cbn [assertM mbind option_bind]. destruct answer as [evs | e]; cbn [mbind option_bind].
  - destruct (dispatch_all_inv evs s live Hok Ha) as (s1 & l1 & -> & Hok1 & Hs1 & Ha1). cbn [mbind option_bind]. apply (IH s1 l1 Hok1 Ha1). by rewrite Hs1.
  - by apply (IH s live).
Qed.

(** * Construction *)

Lemma getZ_fmap_seq {A} (f : nat → A) n i x : (f <$> seq 0 n).[i] = Some x → ∃ j : nat, x = f j ∧ i = Z.of_nat j ∧ (j < n)%nat.
Proof.
  unfold getZ. case_bool_decide; [done |]. rewrite list_lookup_fmap. intros (j & [Hj Hlt]%lookup_seq & ->)%fmap_Some. exists j. split; [done |]. subst j. cbn in *. lia.
Qed.

Lemma start_inv buf size mem h acc s :
  construct kMaxConns kRxBufSize kTxBufSize buf size mem h acc = Some s → I h ∅ → accepts_ok acc →
  srv_ok (start s) ∅ ∧ accepts_ok (accepts (start s)) ∧ started_ (start s) = true.
Proof.
  intros Hc HI Ha. unfold construct in Hc. apply bind_Some in Hc as (base & _ & Hc). destruct (_ || _); [done |]. injection Hc as <-.
  split; [| done]. split; [| done]. split; cbn [start slots_ scratch_ socks calls_].
  - rewrite length_fmap, length_seq. lia.
  - rewrite length_fmap, length_seq. lia.
  - intros i Hi. by apply elem_of_empty in Hi.
  - intros i sl (j & -> & _)%getZ_fmap_seq. split; cbn [rx_buf tx_buf generation new_slot]; rewrite ?length_fmap, ?length_seq; [lia | lia | unfold is_u32; lia].
  - intros i sl _ Hi. by apply elem_of_empty in Hi.
  - intros i sl (j & -> & _)%getZ_fmap_seq _. done.
  - done.
  - done.
Qed.

Lemma row_end i j n : i < j → 0 <= n → i * n + n <= j * n.
Proof. intros Hij Hn. nia. Qed.

(** The regions of the buffer do not overlap and fit in what the server asks for. *)
Lemma layout_ok base i j :
  kMaxConns * sizeof_ConnSlot + kMaxConns * kRxBufSize + kMaxConns * kTxBufSize + kTxBufSize < 2 ^ 64 → 0 <= i < kMaxConns → 0 <= j < kMaxConns →
  base <= slots_addr base i ∧ slots_addr base i + sizeof_ConnSlot <= rx_addr kMaxConns kRxBufSize base 0 ∧
  (i < j → rx_addr kMaxConns kRxBufSize base i + kRxBufSize <= rx_addr kMaxConns kRxBufSize base j) ∧
  rx_addr kMaxConns kRxBufSize base i + kRxBufSize <= tx_addr kMaxConns kRxBufSize kTxBufSize base 0 ∧
  (i < j → tx_addr kMaxConns kRxBufSize kTxBufSize base i + kTxBufSize <= tx_addr kMaxConns kRxBufSize kTxBufSize base j) ∧
  tx_addr kMaxConns kRxBufSize kTxBufSize base i + kTxBufSize <= scratch_addr kMaxConns kRxBufSize kTxBufSize base ∧
  scratch_addr kMaxConns kRxBufSize kTxBufSize base + kTxBufSize = base + required_buffer_size kMaxConns kRxBufSize kTxBufSize.
Proof.
  intros Hb Hi Hj. unfold slots_addr, rx_addr, tx_addr, scratch_addr, required_buffer_size, kSlotsBytes, kRxTotalBytes, kTxTotalBytes, sizeof_ConnSlot in *.
  pose proof (row_end i kMaxConns kRxBufSize ltac:(lia) ltac:(lia)) as R1. pose proof (row_end i kMaxConns kTxBufSize ltac:(lia) ltac:(lia)) as T1.
  pose proof (λ H, row_end i j kRxBufSize H ltac:(lia)) as R2. pose proof (λ H, row_end i j kTxBufSize H ltac:(lia)) as T2.
  assert (0 <= kMaxConns * kRxBufSize) as R0 by nia. assert (0 <= kMaxConns * kTxBufSize) as T0 by nia.
  set (A := kMaxConns * 64) in *. assert (i * 64 + 64 <= A) as A1 by lia. assert (0 <= A) by lia. clearbody A.
  set (B := kMaxConns * kRxBufSize) in *. clearbody B. set (C := kMaxConns * kTxBufSize) in *. clearbody C.
  set (ri := i * kRxBufSize) in *. set (ti := i * kTxBufSize) in *. set (rj := j * kRxBufSize) in *. set (tj := j * kTxBufSize) in *. clearbody ri ti rj tj.
  rewrite (u64_id A), (u64_id B), (u64_id C) by (unfold is_u64; lia). rewrite (u64_id (A + B)) by (unfold is_u64; lia).
  rewrite (u64_id (A + B + C)) by (unfold is_u64; lia). rewrite u64_id by (unfold is_u64; lia). rewrite !Z.mul_0_l.
  split_and!; try lia.
Qed.

(** * A writable event *)

Lemma write_room s live m reg i sl k n rest :
  srv_inv s live m reg → i ∈ live → (slots_ s).[i] = Some sl → socks s !! i = Some k → 0 < tx_pending sl → sends k = Room n :: rest → tx_pending sl <= Z.of_nat n →
  ∃ s', handle_write_et s i = Some (s', true) ∧ (slots_ s').[i] = Some (set_tx 0 0 (tx_buf sl) sl) ∧ calls_ s' = calls_ s.
Proof.
  intros Hi Hl Hsl Hk Hpos Hsend Hn. destruct (live_slot s live m reg i Hi Hl) as (sl0 & k0 & Hsl0 & Hk0 & Hok & Hc & Hr).
  rewrite Hsl in Hsl0. injection Hsl0 as <-. rewrite Hk in Hk0. injection Hk0 as <-.
  pose proof (tx_pending_eq _ _ _ _ _ _ Hc) as Hp. pose proof (co_tx _ _ _ _ _ _ Hc) as Ht. destruct Hok as [O1 O2 O3].
  unfold handle_write_et. rewrite Hsl. cbn [mbind option_bind]. rewrite (co_fd _ _ _ _ _ _ Hc), Hk. cbn [fmap option_fmap option_map default from_option id].
  rewrite Hsend. cbn [length write_loop]. rewrite Hsl. cbn [mbind option_bind]. rewrite bool_decide_true by lia. rewrite (co_fd _ _ _ _ _ _ Hc).
  unfold raw_send. rewrite Hk, Hsend. cbn [send_loop]. fold (sub (tx_buf sl) (tx_sent sl) (tx_pending sl)).
  assert (lenZ (sub (tx_buf sl) (tx_sent sl) (tx_pending sl)) = tx_pending sl) as Hlen by (apply length_sub; lia).
  rewrite take_ge by lia. rewrite Hlen. unfold send_success. rewrite bool_decide_false by lia. cbn [sr_status bytes_sent].
  rewrite (upd_slot_eq _ i sl) by done. cbn [mbind option_bind slots_ with_slots upd_sock with_socks]. rewrite u32_id by (unfold is_u32; lia).
  rewrite getZ_setZ_eq by done. cbn [mbind option_bind].
  assert (tx_pending (set_tx (tx_size sl) (tx_sent sl + tx_pending sl) (tx_buf sl) sl) = 0) as Hz.
  { unfold tx_pending at 1. cbn [tx_size tx_sent set_tx]. replace (tx_size sl - (tx_sent sl + tx_pending sl)) with 0 by lia. done. }
  rewrite Hz. rewrite bool_decide_false by lia. unfold upd_slot. cbn [slots_ with_slots with_socks]. rewrite getZ_setZ_eq by done. cbn [mbind option_bind].
  rewrite storeZ_Some by (rewrite length_setZ; lia). cbn [mbind option_bind]. eexists. split; [done |]. cbn [slots_ with_slots with_socks calls_]. split; [| done].
  by rewrite getZ_setZ_eq by (rewrite length_setZ; lia).
Qed.

Lemma write_event s live i sl k n rest :
  srv_ok s live → i ∈ live → (slots_ s).[i] = Some sl → socks s !! i = Some k → 0 < tx_pending sl → sends k = Room n :: rest → tx_pending sl <= Z.of_nat n →
  ∃ s' sl', dispatch_event hd kMaxConns kRxBufSize kTxBufSize s (encode_u64 sl, EPOLLOUT) = Some s' ∧ (slots_ s').[i] = Some sl' ∧
    if peer_rd_closed sl then fd sl' = -1 else fd sl' = i ∧ tx_pending sl' = 0 ∧ calls_ s' = calls_ s.
Proof.
  intros [Hi HI] Hl Hsl Hk Hpos Hsend Hroom. destruct (live_slot s live _ _ i Hi Hl) as (sl0 & k0 & Hsl0 & _ & Hok & Hc & Hr).
  rewrite Hsl in Hsl0. injection Hsl0 as <-. pose proof (si_slots _ _ _ _ Hi) as Hlen. pose proof (co_fd _ _ _ _ _ _ Hc) as Hfd.
  destruct (encode_parts sl) as [Hx Hy]; [apply Hok | lia |]. unfold dispatch_event. rewrite Hx, Hy, Hfd.
  rewrite bool_decide_false.
  2:{ intros E. rewrite E in Hx. assert (slot_index kListenerSentinel = -1) as E' by by vm_compute. lia. }
  cbn zeta. rewrite (bool_decide_false (i < 0)), (bool_decide_false (i >= kMaxConns)) by lia. cbn [orb]. rewrite Hsl. cbn [mbind option_bind]. rewrite Hfd, (bool_decide_false (i = -1)) by lia. rewrite bool_decide_true by done.
  cbn [negb orb]. change (has EPOLLOUT EPOLLIN) with false. cbn [negb]. unfold dispatch_write.
  change (has EPOLLOUT EPOLLRDHUP) with false. change (has EPOLLOUT (Z.lor EPOLLHUP EPOLLERR)) with false. change (has EPOLLOUT EPOLLOUT) with true.
  cbn [mbind option_bind]. rewrite Hsl. cbn [mbind option_bind].
  destruct (write_room s live _ _ i sl k n rest Hi Hl Hsl Hk Hpos Hsend Hroom) as (s1 & Hw & Hsl1 & Hc1).
  destruct (handle_write_inv s live _ _ i Hi Hl) as (s1' & b & Hw' & Hi1 & _). rewrite Hw in Hw'. injection Hw' as <- <-. rewrite Hw. cbn [mbind option_bind].
  rewrite Hsl1. cbn [mbind option_bind negb]. change (tx_pending (set_tx 0 0 (tx_buf sl) sl)) with 0. rewrite bool_decide_true by done.
  cbn [peer_rd_closed fd set_tx]. rewrite Hfd. destruct (peer_rd_closed sl) eqn:Epeer.
  - destruct (close_inv s1 live _ _ i idle all_registered Hi1 Hl) as (s2 & -> & Hi2 & _); [done |]. cbn [mbind option_bind].
    destruct (any_slot s2 _ _ _ i Hi2 ltac:(lia)) as (sl2 & Hsl2 & _ & Hf2). rewrite decide_False in Hf2 by set_solver. by exists s2, sl2.
  - cbn [mbind option_bind]. unfold disable_epollout, epoll_mod_conn, upd_sock. cbn [slots_ with_socks]. rewrite Hsl1. cbn [mbind option_bind fd set_tx peer_rd_closed].
    change (tx_pending (set_tx 0 0 (tx_buf sl) sl)) with 0. rewrite Hfd, Epeer, (bool_decide_false (i = -1)), (bool_decide_false (0 > 0)) by lia. cbn [negb andb].
    do 2 eexists. split; [done |]. split; [exact Hsl1 |]. done.
Qed.
End Inv.
End SrvSpec.
