(* ===== verification/TcpServerTheorems.v ===== *)
(** What the TCP server ([TcpServer.v]) promises to its handler and to its
    peers, and three uses of its API that it does not serve. *)
From S2P Require Import Prelude.
From S2P Require Import Endian.
From S2P Require Import Framing.
From S2P Require Import TcpSocket.
From S2P Require Import TcpServer.
From S2P Require Import TcpServerSpec.
Local Open Scope Z_scope.
Local Open Scope array_scope.
Import Tcp Srv SrvSpec.

(** C15. For any handler that keeps its contract and anything the kernel answers (connections,
    segments of any size, full socket buffers, interruptions, errors, stale events), the server
    runs without a fault and every loop ends.  The callbacks come in order ([on_connect] first,
    [on_disconnect] or a rejection once and last), and at the end, for each open connection:
    the payloads given to [on_data] are the frames of the bytes received, in order, the bytes
    kept are the rest, in which there is no whole frame; if the peer sent frames and a part of
    another, exactly their payloads were delivered; and what was queued is what was sent
    followed by what waits. *)
Theorem tcp_server_streams (F : Framer) (L : FramerLaws F) (W : FramerWrites F) (H : Type) (hd : Handler H) kMaxConns kRxBufSize kTxBufSize
    (I : H → gset Z → Prop) (HO : HandlerOk hd kMaxConns kTxBufSize I) buf size mem h acc s0 batches :
  0 < kMaxConns < 2 ^ 31 → 0 < kRxBufSize < 2 ^ 32 - 1 → 0 < kTxBufSize < 2 ^ 32 → I h ∅ → accepts_ok acc →
  construct kMaxConns kRxBufSize kTxBufSize buf size mem h acc = Some s0 →
  ∃ s live, run hd kMaxConns kRxBufSize kTxBufSize batches (start s0) = Some s ∧ I (handler_ s) live ∧ connections (calls_ s) = Some live ∧
    ∀ i, i ∈ live →
      ∃ sl k, 0 <= i < kMaxConns ∧ (slots_ s).[i] = Some sl ∧ fd sl = i ∧ socks s !! i = Some k ∧
        parsed (got k) (delivered i (calls_ s)) (sub (rx_buf sl) 0 (rx_fill sl)) ∧ settled (sub (rx_buf sl) 0 (rx_fill sl)) ∧
        (∀ fs ps part, Forall2 is_frame fs ps → (part = [] ∨ ∃ f p r, is_frame f p ∧ f = part ++ r ∧ r ≠ []) → got k = concat fs ++ part →
           delivered i (calls_ s) = ps ∧ sub (rx_buf sl) 0 (rx_fill sl) = part) ∧
        wire k ++ sub (tx_buf sl) (tx_sent sl) (tx_pending sl) = queued i (calls_ s).
Proof.
  intros Hmax Hrx Htx HI Ha Hc. destruct (start_inv _ _ _ Hmax Hrx Htx I _ _ _ _ _ _ Hc HI Ha) as (Hok & Ha' & Hst).
  destruct (run_ok hd _ _ _ Hmax Hrx Htx I batches _ _ Hok Ha' Hst) as (s & live & Hr & [Hi HI'] & _).
  exists s, live. split; [done |]. split; [done |]. split; [apply (si_calls _ _ _ _ _ _ _ Hi) |]. intros i Hl.
  destruct (live_slot _ _ _ _ _ _ _ i Hi Hl) as (sl & k & Hsl & Hk & _ & Hco & Hrange). pose proof (si_slots _ _ _ _ _ _ _ Hi) as Hlen.
  pose proof (tx_pending_eq _ _ Htx _ _ _ _ _ _ Hco) as Hp. destruct Hco as [C1 C2 C3 C4 C5 C6 C7 C8]. cbn [idle consumed default from_option id] in *.
  rewrite Z.sub_0_r in C4. specialize (C5 eq_refl).
  exists sl, k. split; [lia |]. split; [done |]. split; [done |]. split; [done |]. split; [done |]. split; [done |]. split; [| by rewrite Hp].
  intros fs ps part Hfs Hpart Hg. destruct (parsed_frames fs ps part (got k) (delivered i (calls_ s)) _ Hfs Hpart (proj1 C7) Hg C4 C5) as [-> ->]. done.
Qed.

(** C16. Queued bytes do not wait in vain.  After any event of an open connection that leaves it
    open, [EPOLLOUT] is watched if bytes wait, and a connection whose peer has closed its side is
    kept only if bytes wait.  On a writable event with room for them all the waiting bytes are
    sent, so that everything queued has gone out, and if the peer has closed its side the
    connection is closed. *)
Theorem tcp_server_flushes (F : Framer) (L : FramerLaws F) (W : FramerWrites F) (H : Type) (hd : Handler H) kMaxConns kRxBufSize kTxBufSize
    (I : H → gset Z → Prop) (HO : HandlerOk hd kMaxConns kTxBufSize I) s live i sl k flags :
  0 < kMaxConns < 2 ^ 31 → 0 < kRxBufSize < 2 ^ 32 - 1 → 0 < kTxBufSize < 2 ^ 32 →
  srv_ok kMaxConns kRxBufSize kTxBufSize I s live → accepts_ok (accepts s) → i ∈ live → (slots_ s).[i] = Some sl → socks s !! i = Some k →
  ∃ s' live', dispatch_event hd kMaxConns kRxBufSize kTxBufSize s (encode_u64 sl, flags) = Some s' ∧ srv_ok kMaxConns kRxBufSize kTxBufSize I s' live' ∧
    (i ∈ live' → ∀ sl' k', (slots_ s').[i] = Some sl' → socks s' !! i = Some k' →
       (tx_pending sl' > 0 → ∃ ev u, interest k' = Some (ev, u) ∧ has ev EPOLLOUT = true) ∧ (peer_rd_closed sl' = true → tx_pending sl' > 0)) ∧
    (flags = EPOLLOUT → 0 < tx_pending sl → ∀ n rest, sends k = Room n :: rest → tx_pending sl <= Z.of_nat n →
       if peer_rd_closed sl then i ∉ live'
       else i ∈ live' ∧ ∃ k', socks s' !! i = Some k' ∧ wire k' = queued i (calls_ s') ∧ calls_ s' = calls_ s).
Proof.
  intros Hmax Hrx Htx Hok Ha Hl Hsl Hk. destruct (dispatch_event_inv hd _ _ _ Hmax Hrx Htx I s live (encode_u64 sl, flags) Hok Ha) as (s' & live' & Hd & Hok' & _ & _ & Harm).
  exists s', live'. split; [done |]. split; [done |]. split; [intros Hl'; by apply (Harm i sl) |].
  intros -> Hpos n rest Hsend Hroom. destruct (write_event hd _ _ _ Hmax Hrx Htx I s live i sl k n rest Hok Hl Hsl Hk Hpos Hsend Hroom) as (s2 & sl2 & Hd2 & Hsl2 & Hs2).
  rewrite Hd in Hd2. injection Hd2 as <-. destruct Hok' as [Hi' _]. pose proof (si_range _ _ _ _ _ _ _ (sv_inv _ _ _ _ _ _ Hok) i Hl) as Hr.
  destruct (any_slot _ _ _ s' live' _ _ i Hi' Hr) as (sl' & Hsl' & _ & Hfd). rewrite Hsl2 in Hsl'. injection Hsl' as <-. destruct (peer_rd_closed sl).
  - rewrite Hs2 in Hfd. case_decide; [lia | done].
  - destruct Hs2 as (Hf2 & Hp2 & Hcalls). rewrite Hf2 in Hfd. case_decide as Hl'; [| lia]. split; [done |].
    destruct (live_slot _ _ _ _ _ _ _ i Hi' Hl') as (sl' & k' & Hsl' & Hk' & _ & Hco & _). rewrite Hsl2 in Hsl'. injection Hsl' as <-.
    exists k'. split; [done |]. split; [| done]. rewrite <- (co_queued _ _ _ _ _ _ _ _ Hco). rewrite <- (tx_pending_eq _ _ Htx _ _ _ _ _ _ Hco), Hp2.
    by rewrite sub_0, app_nil_r.
Qed.

(** * A counting echo server *)

(** It answers each payload with itself and counts its connections. *)
Definition echo : Handler Z := {|
  on_connect _ := Get (λ n, Put (n + 1) (Ret true));
  on_data _ p tx := Ret (if bool_decide (lenZ p <= lenZ tx) then (p ++ drop (length p) tx, lenZ p) else (tx, 0));
  on_disconnect n _ := n - 1;
|}.

Definition echo_inv (n : Z) (live : gset Z) : Prop := n = Z.of_nat (size live).

Lemma size_remove (live : gset Z) i : i ∈ live → size (live ∖ {[i]}) = (size live - 1)%nat.
Proof. intros Hi. rewrite size_difference by set_solver. by rewrite size_singleton. Qed.

#[export] Instance echo_ok : HandlerOk echo 8 64 echo_inv.
Proof.
  split.
  - intros id h live HI _ Hl. cbn. unfold echo_inv in *. rewrite size_union by set_solver. rewrite size_singleton. lia.
  - intros id p tx h live HI Hl _. cbn. split; [done |]. case_bool_decide; [| done]. cbn. rewrite length_app, length_drop. lia.
  - intros id h live HI Hl. unfold echo_inv in *. cbn. rewrite size_remove by done.
    assert (size live ≠ 0%nat) by (intros E; apply size_empty_inv in E; set_solver). lia.
Qed.

(** Two connections; the frames of the first arrive in three pieces, with an
    interrupted call between; its answers go out when there is room. *)
Definition frame (p : list Z) : list Z := prefixed_bytes p.
Definition demo_accepts : list AcceptAnswer :=
  [AcceptError 4; Accepted 5 [Room 100] [Arrived (take 3 (frame [1; 2])); RecvError EINTR; Arrived (drop 3 (frame [1; 2]) ++ frame [3]); RecvError EAGAIN; Arrived (take 5 (frame [4; 5; 6]))] true;
   Accepted 6 [] [] true].
Definition demo_batches : list (bool * WaitAnswer) :=
  [(false, Ready [(kListenerSentinel, EPOLLIN)]); (false, WaitError EINTR); (false, Ready [(5, EPOLLIN); (2 ^ 32 + 5, EPOLLIN)]);
   (false, Ready [(5, Z.lor EPOLLIN EPOLLOUT); (6, EPOLLHUP)]); (true, Ready [])].
Definition demo_start : Server Z :=
  {| handler_ := 0;
     slots_ := replicate 8 (new_slot (replicate 64 0) (replicate 64 0));
     scratch_ := replicate 64 0; started_ := false; socks := ∅; accepts := demo_accepts; calls_ := [] |}.

(** The run ends with one connection, to which two answers were sent. *)
Lemma demo_run :
  (λ s, (handler_ s, calls_ s, (λ k, wire k) <$> socks s !! 5)) <$> run (F := LengthPrefixFramer true) echo 8 64 64 demo_batches (start demo_start)
  = Some (1, [Connect 5; Connect 6; Data 5 [1; 2]; Queue 5 (frame [1; 2]); Data 5 [3]; Queue 5 (frame [3]); Disconnect 6], Some (frame [1; 2] ++ frame [3])).
Proof. by vm_compute. Qed.

Lemma demo_accepts_ok : accepts_ok demo_accepts.
Proof. repeat lazymatch goal with |- is_u8 _ => split; by vm_compute | |- True => exact I | |- _ => constructor end. Qed.

Lemma tcp_server_streams_witness :
  construct 8 64 64 (Some 4096) 4096 (λ _, 0) 0 demo_accepts = Some demo_start ∧
  ∃ s live, run (F := LengthPrefixFramer true) echo 8 64 64 demo_batches (start demo_start) = Some s ∧ echo_inv (handler_ s) live ∧ connections (calls_ s) = Some live ∧
    ∀ i, i ∈ live →
      ∃ sl k, 0 <= i < 8 ∧ (slots_ s).[i] = Some sl ∧ fd sl = i ∧ socks s !! i = Some k ∧
        parsed (F := LengthPrefixFramer true) (got k) (delivered i (calls_ s)) (sub (rx_buf sl) 0 (rx_fill sl)) ∧
        settled (F := LengthPrefixFramer true) (sub (rx_buf sl) 0 (rx_fill sl)) ∧
        (∀ fs ps part, Forall2 (is_frame (F := LengthPrefixFramer true)) fs ps → (part = [] ∨ ∃ f p r, is_frame (F := LengthPrefixFramer true) f p ∧ f = part ++ r ∧ r ≠ []) → got k = concat fs ++ part →
           delivered i (calls_ s) = ps ∧ sub (rx_buf sl) 0 (rx_fill sl) = part) ∧
        wire k ++ sub (tx_buf sl) (tx_sent sl) (tx_pending sl) = queued i (calls_ s).
Proof.
  assert (construct 8 64 64 (Some 4096) 4096 (λ _, 0) 0 demo_accepts = Some demo_start) as Hc by (vm_compute; reflexivity).
  split; [exact Hc |].
  apply (tcp_server_streams (LengthPrefixFramer true) (LengthPrefixFramer_laws true) (LengthPrefixFramer_writes true) Z echo 8 64 64 echo_inv echo_ok (Some 4096) 4096 (λ _, 0) 0 demo_accepts);
    [lia | lia | lia | reflexivity | | exact Hc].
  exact demo_accepts_ok.
Defined.

(** The first three batches leave answers waiting; a writable event sends them. *)
Definition demo_waiting : option (Server Z) := run (F := LengthPrefixFramer true) echo 8 64 64 (take 3 demo_batches) (start demo_start).

Lemma demo_waiting_ok :
  ∃ s, demo_waiting = Some s ∧ srv_ok (F := LengthPrefixFramer true) 8 64 64 echo_inv s {[5; 6]} ∧ accepts_ok (accepts s).
Proof.
  assert (construct 8 64 64 (Some 4096) 4096 (λ _, 0) 0 demo_accepts = Some demo_start) as Hc by (vm_compute; reflexivity).
  destruct (start_inv (F := LengthPrefixFramer true) 8 64 64 ltac:(lia) ltac:(lia) ltac:(lia) echo_inv _ _ _ _ _ _ Hc eq_refl demo_accepts_ok) as (Hok & Ha & Hst).
  destruct (run_ok (F := LengthPrefixFramer true) echo 8 64 64 ltac:(lia) ltac:(lia) ltac:(lia) echo_inv (take 3 demo_batches) _ _ Hok Ha Hst) as (s & live & Hr & Hs & Ha').
  exists s. split; [exact Hr |]. split; [| done]. replace {[5; 6]} with live; [done |].
  pose proof (si_calls _ _ _ _ _ _ _ (sv_inv _ _ _ _ _ _ Hs)) as Hcalls.
  assert (connections <$> (calls_ <$> demo_waiting) = Some (Some {[5; 6]})) as E by (by vm_compute).
  unfold demo_waiting in E. rewrite Hr in E. cbn [fmap option_fmap option_map] in E. rewrite Hcalls in E. by injection E as ->.
Qed.

Lemma tcp_server_flushes_witness :
  ∃ s sl k s' (live' : gset Z), demo_waiting = Some s ∧ (slots_ s).[5] = Some sl ∧ socks s !! 5 = Some k ∧ tx_pending sl = 11 ∧ wire k = [] ∧
    dispatch_event (F := LengthPrefixFramer true) echo 8 64 64 s (encode_u64 sl, EPOLLOUT) = Some s' ∧
    5 ∈ live' ∧ ∃ k', socks s' !! 5 = Some k' ∧ wire k' = queued 5 (calls_ s') ∧ calls_ s' = calls_ s.
Proof.
  destruct demo_waiting_ok as (s & Hs & Hok & Ha).
  assert ((λ s, (sends <$> socks s !! 5, wire <$> socks s !! 5, tx_pending <$> (slots_ s).[5], peer_rd_closed <$> (slots_ s).[5])) <$> demo_waiting =
          Some (Some [Room 100], Some [], Some 11, Some false)) as E by (by vm_compute).
  rewrite Hs in E. cbn [fmap option_fmap option_map] in E.
  destruct ((slots_ s).[5]) as [sl |] eqn:Hsl; [| discriminate]. destruct (socks s !! 5) as [k |] eqn:Hk; [| discriminate].
  injection E as E1 E2 E3 E4.
  destruct (tcp_server_flushes (LengthPrefixFramer true) (LengthPrefixFramer_laws true) (LengthPrefixFramer_writes true) Z echo 8 64 64 echo_inv echo_ok s {[5; 6]} 5 sl k EPOLLOUT)
    as (s' & live' & Hd & _ & _ & Hout); [lia | lia | lia | exact Hok | exact Ha | set_solver | exact Hsl | exact Hk |].
  rewrite E4 in Hout. destruct (Hout eq_refl ltac:(lia) 100%nat [] E1 ltac:(lia)) as [Hl' Hk'].
  exists s, sl, k, s', live'. exact (conj Hs (conj Hsl (conj Hk (conj E3 (conj E2 (conj Hd (conj Hl' Hk'))))))).
Defined.

(** * Three uses of the API outside the contract *)

(** [leaver] closes a connection that says [0]; [greeter] sends
    from [on_connect]; [forwarder] sends what connection 5 says to 6. *)
Definition leaver : Handler unit :=
  {| on_connect _ := Ret true; on_data id p tx := if decide (p = [0]) then CloseConn id (Ret (tx, 0)) else Ret (tx, 0); on_disconnect h _ := h |}.
Definition greeter : Handler unit :=
  {| on_connect id := SendTo id [1] Ret; on_data _ _ tx := Ret (tx, 0); on_disconnect h _ := h |}.
Definition forwarder : Handler unit :=
  {| on_connect _ := Ret true; on_data _ p tx := SendTo 6 p (λ _, Ret (tx, 0)); on_disconnect h _ := h |}.

(** A server of eight connections with 64-byte buffers, run on two
    connections with room to send, the first of which gets [bs]. *)
Definition demo_run_of (hd : Handler unit) (bs : list Z) : option (Server unit) :=
  s ← construct 8 64 64 (Some 4096) 4096 (λ _, 0) tt [Accepted 5 [Room 100] [Arrived bs] true; Accepted 6 [Room 100] [] true];
  run (F := LengthPrefixFramer true) hd 8 64 64 [(false, Ready [(kListenerSentinel, EPOLLIN)]); (false, Ready [(5, EPOLLIN)])] (start s).

(** Waiting bytes of a connection, the events watched and the bytes sent. *)
Definition waiting (i : Z) (s : Server unit) : option (Z * option Z * list Z) :=
  sl ← (slots_ s).[i];
  k ← socks s !! i;
  Some (tx_pending sl, fst <$> interest k, wire k).

(** Three uses of the send interface that the server does not serve.  After a handler has
    closed its own connection from [on_data] the rest of the buffer is still processed: later
    frames go to [on_data] with the identifier -1, after [on_disconnect], and a malformed one
    makes the server index its table with -1.  What is sent from [on_connect], or from [on_data]
    to another connection, is queued but [EPOLLOUT] is not watched, although there is room in
    the socket: it waits for the peer to send something. *)
Example tcp_server_limits :
  calls_ <$> demo_run_of leaver (frame [0] ++ frame [2]) = Some [Connect 5; Connect 6; Data 5 [0]; Disconnect 5; Data (-1) [2]] ∧
  demo_run_of leaver (frame [0] ++ [0; 0; 0; 0]) = None ∧
  calls_ <$> demo_run_of leaver (frame [0]) = Some [Connect 5; Connect 6; Data 5 [0]; Disconnect 5] ∧
  (demo_run_of greeter [] ≫= waiting 6) = Some (5, Some (Z.lor EPOLLIN (Z.lor EPOLLRDHUP EPOLLET)), []) ∧
  (demo_run_of forwarder (frame [7]) ≫= waiting 6) = Some (5, Some (Z.lor EPOLLIN (Z.lor EPOLLRDHUP EPOLLET)), []).
Proof. repeat split; by vm_compute. Qed.
