(* ===== verification/TcpConnection.v ===== *)
(** The client's connection to the exchange:
    [src/apps/tick_to_trade/tcp_connection.hpp].

    The state machine of a connection ([TcpState]) with its heartbeats, its
    reconnection schedule and its counters.  [epoll.add] and [epoll.remove]
    are the kernel's and leave no trace here; the results of [setsockopt] and
    [fcntl] are arguments; log lines are left out.  The relaxed atomic
    counters have one writer and are 32-bit words.  [now] is a reading of
    [sys::monotonic_nanos()], converted to [std::uint64_t] where the source
    does. *)
From S2P Require Import Prelude.
From S2P Require Import TcpSocket.
Local Open Scope Z_scope.

Module Conn.
Import Tcp.

Definition kHeartbeatIntervalNs : Z := 1000000000.
Definition kHeartbeatTimeoutNs : Z := 3000000000.
Definition kReconnectBaseDelayNs : Z := 1000000000.
Definition kReconnectMaxDelayNs : Z := 10000000000.
Definition kMaxReconnectAttempts : Z := 10.
Definition kConnectTimeoutNs : Z := 3000000000.

Inductive TcpState : Set := kConnected | kDisconnected | kConnecting.

#[export] Instance TcpState_eq_dec : EqDecision TcpState.
Proof. solve_decision. Defined.

(** [connecting_fd] is only compared with -1. *)
Record ConnectionState : Set := {
  state : TcpState;
  last_hb_sent : Z;
  last_hb_recv : Z;
  next_reconnect_at : Z;
  reconnect_delay : Z;
  reconnect_attempts : Z;
  connecting : bool;
  connect_deadline : Z;
  heartbeats_sent : Z;
  heartbeats_recv : Z;
  reconnect_count : Z;
  send_would_block : Z;
  send_failures : Z;
}.

Definition initial : ConnectionState :=
  {| state := kConnected; last_hb_sent := 0; last_hb_recv := 0; next_reconnect_at := 0;
     reconnect_delay := kReconnectBaseDelayNs; reconnect_attempts := 0; connecting := false; connect_deadline := 0;
     heartbeats_sent := 0; heartbeats_recv := 0; reconnect_count := 0; send_would_block := 0; send_failures := 0 |}.

Implicit Types c : ConnectionState.

(** * Updates *)

Definition with_state c st connecting deadline : ConnectionState :=
  {| state := st; last_hb_sent := last_hb_sent c; last_hb_recv := last_hb_recv c;
     next_reconnect_at := next_reconnect_at c; reconnect_delay := reconnect_delay c;
     reconnect_attempts := reconnect_attempts c; connecting := connecting; connect_deadline := deadline;
     heartbeats_sent := heartbeats_sent c; heartbeats_recv := heartbeats_recv c;
     reconnect_count := reconnect_count c; send_would_block := send_would_block c; send_failures := send_failures c |}.
Definition with_schedule c next delay attempts : ConnectionState :=
  {| state := state c; last_hb_sent := last_hb_sent c; last_hb_recv := last_hb_recv c;
     next_reconnect_at := next; reconnect_delay := delay;
     reconnect_attempts := attempts; connecting := connecting c; connect_deadline := connect_deadline c;
     heartbeats_sent := heartbeats_sent c; heartbeats_recv := heartbeats_recv c;
     reconnect_count := reconnect_count c; send_would_block := send_would_block c; send_failures := send_failures c |}.
Definition with_heartbeat c sent recv nsent nrecv : ConnectionState :=
  {| state := state c; last_hb_sent := sent; last_hb_recv := recv;
     next_reconnect_at := next_reconnect_at c; reconnect_delay := reconnect_delay c;
     reconnect_attempts := reconnect_attempts c; connecting := connecting c; connect_deadline := connect_deadline c;
     heartbeats_sent := nsent; heartbeats_recv := nrecv;
     reconnect_count := reconnect_count c; send_would_block := send_would_block c; send_failures := send_failures c |}.
Definition with_diagnostics c reconnects would_block failures : ConnectionState :=
  {| state := state c; last_hb_sent := last_hb_sent c; last_hb_recv := last_hb_recv c;
     next_reconnect_at := next_reconnect_at c; reconnect_delay := reconnect_delay c;
     reconnect_attempts := reconnect_attempts c; connecting := connecting c; connect_deadline := connect_deadline c;
     heartbeats_sent := heartbeats_sent c; heartbeats_recv := heartbeats_recv c;
     reconnect_count := reconnects; send_would_block := would_block; send_failures := failures |}.

(** * Lifecycle *)

Definition schedule_reconnect c (now : Z) : ConnectionState :=
  with_schedule c (u64 (now + reconnect_delay c)) (Z.min (u64 (reconnect_delay c * 2)) kReconnectMaxDelayNs)
    (u32 (reconnect_attempts c + 1)).

(** [tcp_rx_read] and [tcp_rx_write] are the cursors of the receive buffer. *)
Definition disconnect_and_reconnect c (w : Os) (tcp_rx_read tcp_rx_write : Z) : ConnectionState * Os * Z * Z :=
  if negb (bool_decide (state c = kConnected)) then (c, w, tcp_rx_read, tcp_rx_write)
  else
    let w := close_socket w in
    let c := with_state c kDisconnected (connecting c) (connect_deadline c) in
    let '(now, w) := monotonic_nanos w in
    (with_schedule c (u64 (now + kReconnectBaseDelayNs)) kReconnectBaseDelayNs 0, w, 0, 0).

(** [nodelay] and [nonblocking]: whether the two socket options that matter
    could be set. *)
Definition finalize_tcp_connect c (w : Os) (nodelay nonblocking : bool) : ConnectionState * Os * bool :=
  let w := open_socket w in
  if negb nodelay then (c, close_socket w, false)
  else if negb nonblocking then (c, close_socket w, false)
  else
    let '(ts, w) := monotonic_nanos w in
    let c := with_heartbeat c (u64 ts) (u64 ts) (heartbeats_sent c) (heartbeats_recv c) in
    let c := with_state c kConnected false (connect_deadline c) in
    let c := with_schedule c (next_reconnect_at c) kReconnectBaseDelayNs 0 in
    (with_diagnostics c (u32 (reconnect_count c + 1)) (send_would_block c) (send_failures c), w, true).

(** * Diagnostics of a send *)

Definition check_send_result (result : SendResult) c : ConnectionState * bool :=
  match sr_status result with
  | kOk => (c, true)
  | kWouldBlock => (with_diagnostics c (reconnect_count c) (u32 (send_would_block c + 1)) (send_failures c), true)
  | kPeerClosed | kError =>
      (with_diagnostics c (reconnect_count c) (send_would_block c) (u32 (send_failures c + 1)), false)
  end.
End Conn.
