(* ===== verification/OrderPath.v ===== *)
(** The order path of the client, out and in:
    [src/apps/tick_to_trade/order_send_handler.hpp],
    [src/apps/tick_to_trade/order_response_handler.hpp].

    [Io] is what the handlers are lent by the strategy thread: the scratch
    and transmit buffers, the connection and the kernel.  The latency tracker
    and the log queue only record; they are left out.  [on_signal] reads the
    clock once in [check_modify] and twice in the order manager's checks; the
    readings are taken before the calls, as arguments. *)
From S2P Require Import Prelude.
From S2P Require Import TableInterface.
From S2P Require Import TradingTypes.
From S2P Require Import Protocol.
From S2P Require Import Framing.
From S2P Require Import TimingWheel.
From S2P Require Import OrderManager.
From S2P Require Import TcpSocket.
From S2P Require Import TcpConnection.
Local Open Scope Z_scope.
Local Open Scope array_scope.

(** * Messages onto the socket *)

Module Io.
Import Tcp Conn.

Record Io : Set := { scratch : list Z; tcp_tx_buf : list Z; os : Os; conn : ConnectionState }.

Section Send.
Context (native_little : bool).
Implicit Types io : Io.

Definition with_scratch io scratch : Io :=
  {| scratch := scratch; tcp_tx_buf := tcp_tx_buf io; os := os io; conn := conn io |}.
Definition with_tx io tx : Io :=
  {| scratch := scratch io; tcp_tx_buf := tx; os := os io; conn := conn io |}.
Definition with_os io os : Io :=
  {| scratch := scratch io; tcp_tx_buf := tcp_tx_buf io; os := os; conn := conn io |}.
Definition with_conn io conn : Io :=
  {| scratch := scratch io; tcp_tx_buf := tcp_tx_buf io; os := os io; conn := conn |}.

Definition now io : Z * Io := let '(t, w) := monotonic_nanos (os io) in (t, with_os io w).

(** A payload into a frame, the frame to the socket, and the diagnosis of the
    send; no [bool] when the frame does not fit, so that nothing was sent. *)
Definition send_frame io (msg_type : MsgType) (payload : list Z) : option (Io * option bool) :=
  '(tx, tlen) ← pack_tcp_message native_little (tcp_tx_buf io) msg_type payload;
  let io := with_tx io tx in
  if bool_decide (tlen > 0) then
    '(w, result) ← send_nonblocking (os io) (take (Z.to_nat tlen) tx);
    let '(c, ok) := check_send_result result (conn io) in
    Some (with_conn (with_os io w) c, Some ok)
  else Some (io, None).

(** The same from a serialised message in the scratch buffer. *)
Definition send_message io (msg_type : MsgType) (serialized : option (list Z * Z)) : option (Io * option bool) :=
  '(scratch, plen) ← serialized;
  let io := with_scratch io scratch in
  if bool_decide (plen > 0) then send_frame io msg_type (take (Z.to_nat plen) scratch) else Some (io, None).
End Send.
End Io.

(** * Orders out *)

Module SendHandler.
Import OMgr Tcp Conn Io.

Record OrderSendHandler : Set := { orders_serialized_ : Z; modifies_serialized_ : Z }.

Definition construct : OrderSendHandler := {| orders_serialized_ := 0; modifies_serialized_ := 0 |}.

Section Handler.
Context (ndebug native_little : bool) {M : Type} `{Table Z OrderInfo M} `{TableIter Z OrderInfo M} `{TableRebuild M}.
Implicit Types (h : OrderSendHandler) (o : OrderManager M) (io : Io).

Definition on_signal h (signal : Signal) o io : option (OrderSendHandler * OrderManager M * Io * bool) :=
  let '(t, io) := now io in
  '(o, modify) ← OMgr.check_modify o signal t;
  match modify with
  | Some modify =>
      '(io, sent) ← send_message native_little io kModifyOrder (serialize_modify_order native_little (scratch io) modify);
      Some ({| orders_serialized_ := orders_serialized_ h; modifies_serialized_ := u64 (modifies_serialized_ h + 1) |},
            o, io, default true sent)
  | None =>
      let '(t1, io) := now io in
      let '(t2, io) := now io in
      '(o, order) ← OMgr.on_signal ndebug o signal t1 t2;
      match order with
      | None => Some (h, o, io, true)
      | Some order =>
          '(io, sent) ← send_message native_little io kNewOrder (serialize_new_order native_little (scratch io) order);
          match sent with
          | None => Some (h, o, io, true)
          | Some ok =>
              Some ({| orders_serialized_ := u64 (orders_serialized_ h + 1);
                       modifies_serialized_ := modifies_serialized_ h |}, o, io, ok)
          end
      end
  end.

Definition orders_serialized h : Z := orders_serialized_ h.
Definition modifies_serialized h : Z := modifies_serialized_ h.
End Handler.
End SendHandler.

(** * Responses in *)

Module ResponseHandler.
Import OMgr Tcp Conn Io.

Definition kNumRejectReasons : Z := 9.
Definition kMaxConsecutiveRejects : Z := 5.

Record OrderResponseHandler : Set := {
  consecutive_rejects_ : Z;
  parse_errors_ : Z;
  unknown_types_ : Z;
  reject_by_reason_ : list Z;
}.

Definition construct : OrderResponseHandler :=
  {| consecutive_rejects_ := 0; parse_errors_ := 0; unknown_types_ := 0;
     reject_by_reason_ := replicate (Z.to_nat kNumRejectReasons) 0 |}.

Section Handler.
Context (ndebug native_little : bool) {M : Type} `{Table Z OrderInfo M} `{TableIter Z OrderInfo M} `{TableRebuild M}.
Implicit Types (h : OrderResponseHandler) (o : OrderManager M) (c : ConnectionState).

Definition with_rejects h n : OrderResponseHandler :=
  {| consecutive_rejects_ := n; parse_errors_ := parse_errors_ h; unknown_types_ := unknown_types_ h;
     reject_by_reason_ := reject_by_reason_ h |}.
Definition parse_error h : OrderResponseHandler :=
  {| consecutive_rejects_ := consecutive_rejects_ h; parse_errors_ := u64 (parse_errors_ h + 1);
     unknown_types_ := unknown_types_ h; reject_by_reason_ := reject_by_reason_ h |}.
Definition unknown_type h : OrderResponseHandler :=
  {| consecutive_rejects_ := consecutive_rejects_ h; parse_errors_ := parse_errors_ h;
     unknown_types_ := u64 (unknown_types_ h + 1); reject_by_reason_ := reject_by_reason_ h |}.

(** The counter of the reason, when it is one of the known ones. *)
Definition count_reason h (reason : Z) : option OrderResponseHandler :=
  if bool_decide (reason < kNumRejectReasons) then
    n ← (reject_by_reason_ h).[reason];
    counts ← storeZ (reject_by_reason_ h) reason (u64 (n + 1));
    Some {| consecutive_rejects_ := consecutive_rejects_ h; parse_errors_ := parse_errors_ h;
            unknown_types_ := unknown_types_ h; reject_by_reason_ := counts |}
  else Some h.

(** [now] is the reading the heartbeat case makes. *)
Definition on_tcp_message h (msg : ParsedMessageView) o c (now : Z)
    : option (OrderResponseHandler * OrderManager M * ConnectionState * bool) :=
  let msg_type := mh_msg_type (pmv_header msg) in
  let payload := pmv_payload msg in
  if bool_decide (msg_type = msg_type_id kOrderAck) then
    parsed ← deserialize_order_ack native_little payload;
    match parsed with
    | Some ack => Some (with_rejects h 0, OMgr.on_order_ack o ack, c, false)
    | None => Some (parse_error h, o, c, false)
    end
  else if bool_decide (msg_type = msg_type_id kOrderReject) then
    parsed ← deserialize_order_reject native_little payload;
    match parsed with
    | Some rej =>
        o ← OMgr.on_order_reject ndebug o rej;
        let h := with_rejects h (u32 (consecutive_rejects_ h + 1)) in
        h ← count_reason h (or_reason rej);
        Some (h, o, c, bool_decide (consecutive_rejects_ h >= kMaxConsecutiveRejects))
    | None => Some (parse_error h, o, c, false)
    end
  else if bool_decide (msg_type = msg_type_id kFillReport) then
    parsed ← deserialize_fill_report native_little payload;
    match parsed with
    | Some fill => o ← OMgr.on_fill ndebug o fill; Some (with_rejects h 0, o, c, false)
    | None => Some (parse_error h, o, c, false)
    end
  else if bool_decide (msg_type = msg_type_id kCancelAck) then
    parsed ← deserialize_cancel_ack native_little payload;
    match parsed with
    | Some ack => o ← OMgr.on_cancel_ack ndebug o ack; Some (h, o, c, false)
    | None => Some (parse_error h, o, c, false)
    end
  else if bool_decide (msg_type = msg_type_id kCancelReject) then
    parsed ← deserialize_cancel_reject native_little payload;
    match parsed with
    | Some cr => o ← OMgr.on_cancel_reject ndebug o cr; Some (h, o, c, false)
    | None => Some (parse_error h, o, c, false)
    end
  else if bool_decide (msg_type = msg_type_id kModifyAck) then
    parsed ← deserialize_modify_ack native_little payload;
    match parsed with
    | Some ack => Some (h, OMgr.on_modify_ack o ack, c, false)
    | None => Some (parse_error h, o, c, false)
    end
  else if bool_decide (msg_type = msg_type_id kModifyReject) then
    parsed ← deserialize_modify_reject native_little payload;
    match parsed with
    | Some rej => o ← OMgr.on_modify_reject o rej; Some (h, o, c, false)
    | None => Some (parse_error h, o, c, false)
    end
  else if bool_decide (msg_type = msg_type_id kHeartbeatAck) then
    Some (h, o, with_heartbeat c (last_hb_sent c) (u64 now) (heartbeats_sent c) (u32 (heartbeats_recv c + 1)), false)
  else Some (unknown_type h, o, c, false).

Definition consecutive_rejects h : Z := consecutive_rejects_ h.
Definition parse_errors h : Z := parse_errors_ h.
Definition unknown_types h : Z := unknown_types_ h.
Definition reject_count_for h (reason : RejectReason) : option Z :=
  let idx := reason_id reason in
  if bool_decide (idx >= kNumRejectReasons) then Some 0 else (reject_by_reason_ h).[idx].
End Handler.
End ResponseHandler.
