(* ===== verification/StrategyPolicy.v ===== *)
(** The interface of a trading strategy:
    [src/apps/tick_to_trade/strategy_policy.hpp].

    [StrategyPolicy] is the C++ concept.  [StrategyLaws] is what the rest of
    the client relies on: from a state of the strategy's own invariant, an
    update with fields in range is always processed, the invariant is kept,
    and a signal names one of the strategy's symbols, a real side, a price in
    the quoted range and a quantity. *)
From S2P Require Import Prelude.
From S2P Require Import TradingTypes.
From S2P Require Import Protocol.
From S2P Require Import OrderManager.
Local Open Scope Z_scope.

Import OMgr.

Class StrategyPolicy (S : Type) := {
  kMaxSymbols : Z;
  on_market_data : S → MarketDataUpdate → option (S * option Signal);
  signals_generated : S → Z;
}.

(** A symbol number and a price as the market data carries them.  Prices are
    64-bit fixed-point numbers; beyond 32 bits (more than 200,000 dollars) the
    product of a price and a quantity, which the risk checks form, may
    overflow. *)
Definition price_ok (p : Z) : Prop := - 2 ^ 31 <= p < 2 ^ 31.

Definition quote_ok (u : MarketDataUpdate) : Prop := is_u32 (md_symbol_id u) ∧ price_ok (md_price u).

Definition signal_of (symbols : Z) (sg : Signal) : Prop :=
  1 <= sig_symbol_id sg <= symbols ∧ sig_side sg ≠ kCount ∧ price_ok (sig_price sg) ∧ is_u32 (sig_qty sg).

Class StrategyLaws (S : Type) `{StrategyPolicy S} := {
  policy_ok : S → Prop;
  policy_step s u :
    policy_ok s → quote_ok u →
    ∃ s' out, on_market_data s u = Some (s', out) ∧ policy_ok s' ∧
      ∀ sg, out = Some sg → signal_of kMaxSymbols sg;
}.
