(* ===== verification/SpreadPolicy.v ===== *)
(** The spread strategy ([Strategy.v]) is a [StrategyPolicy]: the instance
    the trading process is built with. *)
From S2P Require Import Prelude.
From S2P Require Import TradingTypes.
From S2P Require Import Protocol.
From S2P Require Import OrderManager.
From S2P Require Import Strategy.
From S2P Require Import StrategyPolicy.
Local Open Scope Z_scope.
Local Open Scope array_scope.

Module SpreadPolicy.
Import OMgr.

Section Instance.
Context (N : Z).
Implicit Types s : Spread.SpreadStrategy.

Definition policy : StrategyPolicy Spread.SpreadStrategy :=
  {| kMaxSymbols := N; on_market_data := Spread.on_market_data N; signals_generated := Spread.signals_generated |}.

Definition bbo_ok (b : Spread.SymbolBBO) : Prop := price_ok (Spread.best_bid_ b) ∧ price_ok (Spread.best_ask_ b).
Definition spread_ok s : Prop := lenZ (Spread.bbo_ s) = N ∧ is_u32 (Spread.default_qty_ s) ∧ Forall bbo_ok (Spread.bbo_ s).

Lemma spread_construct_ok threshold qty : 0 <= N → is_u32 qty → spread_ok (Spread.construct N threshold qty).
Proof.
  intros HN Hq. split; [simpl; rewrite length_replicate; lia |]. split; [done |].
  apply Forall_replicate. split; unfold price_ok; simpl; lia.
Qed.

Lemma stored_ok s i b n : spread_ok s → bbo_ok b → spread_ok (Spread.with_bbo s ((Spread.bbo_ s).[i <- b]) n).
Proof.
  intros (Hl & Hq & Hb) Hbo. unfold spread_ok. cbn [Spread.with_bbo Spread.bbo_ Spread.default_qty_]. rewrite length_setZ.
  split; [done |]. split; [done |]. by apply Forall_insert.
Qed.

Lemma spread_step s u : 0 <= N < 2 ^ 32 → spread_ok s → quote_ok u →
  ∃ s' out, Spread.on_market_data N s u = Some (s', out) ∧ spread_ok s' ∧ ∀ sg, out = Some sg → signal_of N sg.
Proof.
  intros HN Hs [Hsym Hp]. pose proof Hs as (Hl & Hq & Hb). unfold Spread.on_market_data.
  destruct (bool_decide (md_msg_type u = _)); cbn [negb]; [| by exists s, None].
  destruct (bool_decide_reflect (md_symbol_id u = 0)); cbn [orb]; [by exists s, None |].
  destruct (bool_decide_reflect (md_symbol_id u > N)); [by exists s, None |].
  rewrite u32_id by mlia. destruct (getZ_is_Some (Spread.bbo_ s) (md_symbol_id u - 1)) as [b Eb]; [mlia |].
  rewrite Eb. cbn [mbind option_bind].
  assert (bbo_ok b) as [Hbb Hba] by (apply (proj1 (Forall_lookup _ _) Hb (Z.to_nat (md_symbol_id u - 1))); by apply getZ_to_lookup).
  set (b1 := if bool_decide (side_of_u8 (md_side u) = kBid) then _ else _).
  assert (bbo_ok b1) as Hb1 by (unfold b1; destruct (bool_decide _); by split). clearbody b1.
  rewrite storeZ_Some by mlia. cbn [mbind option_bind].
  pose proof (stored_ok s (md_symbol_id u - 1) b1 (Spread.signals_generated_ s) Hs Hb1) as Hs1.
  set (s1 := Spread.with_bbo s _ _) in *. pose proof Hs1 as (Hl1 & Hq1 & _). destruct Hb1 as [Hb1 Ha1]. unfold price_ok in Hb1, Ha1.
  destruct (negb _ || negb _); [by exists s1, None |]. destruct (bool_decide (_ <= _)); [by exists s1, None |].
  rewrite check_s64_ok by mlia. cbn [mbind option_bind]. destruct (bool_decide (_ > _)); [| by exists s1, None].
  rewrite storeZ_Some by mlia. cbn [mbind option_bind].
  eexists _, _. split; [reflexivity |]. split; [by apply stored_ok |].
  intros sg [= <-]. unfold signal_of. simpl. split; [mlia |]. split; [by destruct (Spread.buy_next b1) |]. split; [| done].
  unfold price_ok. destruct (bool_decide _); lia.
Qed.

Lemma policy_step_spread s u : 0 <= N < 2 ^ 32 → spread_ok s → quote_ok u →
  ∃ s' out, @on_market_data _ policy s u = Some (s', out) ∧ spread_ok s' ∧ ∀ sg, out = Some sg → signal_of (@kMaxSymbols _ policy) sg.
Proof. exact (spread_step s u). Qed.

Definition laws (HN : 0 <= N < 2 ^ 32) : @StrategyLaws Spread.SpreadStrategy policy :=
  @Build_StrategyLaws _ policy spread_ok (λ s u, policy_step_spread s u HN).
End Instance.
End SpreadPolicy.
