(* ===== verification/StrategyThread.v ===== *)
(** The strategy thread of the client:
    [src/apps/tick_to_trade/strategy_thread.hpp].

    One iteration of the loop is the composition of its phases, in the
    source's order, over one record of everything the thread owns or refers
    to.  The strategy is any [StrategyPolicy].  What comes from outside in an
    iteration is [Inputs]: signals that set the two flags, the outcome of a
    connection attempt, the updates drained from the queue, the events of
    [epoll_wait].  The answers of the socket and of the clock are in the
    kernel's state ([TcpSocket.v]); the clock is read before a call that
    reads it, once more than the source on the paths that return earlier.
    The statistics line, the latency tracker and the log queue are left out. *)
From S2P Require Import Prelude.
From S2P Require Import TableInterface.
From S2P Require Import TradingTypes.
From S2P Require Import Endian.
From S2P Require Import Protocol.
From S2P Require Import Framing.
From S2P Require Import TimingWheel.
From S2P Require Import OrderManager.
From S2P Require Import StrategyPolicy.
From S2P Require Import TcpSocket.
From S2P Require Import TcpConnection.
From S2P Require Import OrderPath.
Local Open Scope Z_scope.

Module ST.
Import OMgr Tcp Conn Io.

(** * Inputs of an iteration *)

(** [socket], [connect] and the options of a connection attempt. *)
Inductive ConnectAttempt : Set :=
  | NoSocket | Refused | InProgress | Established (nodelay nonblocking : bool).

(** One event of [epoll_wait], with what [getsockopt] and the socket options
    answer when it completes a connection. *)
Record EpollEvent : Set := {
  epollout : bool;
  epollin : bool;
  epollhup_or_err : bool;
  sock_err : bool;
  nodelay_ok : bool;
  nonblocking_ok : bool;
}.

Record Inputs : Set := {
  stop_requested : bool;
  kill_requested : bool;
  attempt : ConnectAttempt;
  batch : list MarketDataUpdate;
  events : list EpollEvent;
}.

Section Thread.
Context (ndebug native_little : bool).
Context {M : Type} `{Table Z OrderInfo M} `{TableIter Z OrderInfo M} `{TableRebuild M}.
Context {S : Type} `{StrategyPolicy S}.

Record StrategyThread : Type := {
  strategy_ : S;
  order_mgr_ : OrderManager M;
  io_ : Io;                     (* tcp_tx_buf_, scratch_, tcp_sock_, conn_ *)
  tcp_rx_data_ : list Z;
  tcp_rx_read_ : Z;
  tcp_rx_write_ : Z;
  stop_flag_ : bool;
  kill_switch_flag_ : bool;
  response_handler_ : ResponseHandler.OrderResponseHandler;
  send_handler_ : SendHandler.OrderSendHandler;
}.
Implicit Types t : StrategyThread.

(** * Updates *)

Definition with_market t strategy o io h : StrategyThread :=
  {| strategy_ := strategy; order_mgr_ := o; io_ := io; tcp_rx_data_ := tcp_rx_data_ t;
     tcp_rx_read_ := tcp_rx_read_ t; tcp_rx_write_ := tcp_rx_write_ t; stop_flag_ := stop_flag_ t;
     kill_switch_flag_ := kill_switch_flag_ t; response_handler_ := response_handler_ t; send_handler_ := h |}.
Definition with_order_io t o io : StrategyThread := with_market t (strategy_ t) o io (send_handler_ t).
Definition with_io t io : StrategyThread := with_order_io t (order_mgr_ t) io.
Definition with_rx t data read write : StrategyThread :=
  {| strategy_ := strategy_ t; order_mgr_ := order_mgr_ t; io_ := io_ t; tcp_rx_data_ := data;
     tcp_rx_read_ := read; tcp_rx_write_ := write; stop_flag_ := stop_flag_ t;
     kill_switch_flag_ := kill_switch_flag_ t; response_handler_ := response_handler_ t;
     send_handler_ := send_handler_ t |}.
Definition with_flags t stop kill : StrategyThread :=
  {| strategy_ := strategy_ t; order_mgr_ := order_mgr_ t; io_ := io_ t; tcp_rx_data_ := tcp_rx_data_ t;
     tcp_rx_read_ := tcp_rx_read_ t; tcp_rx_write_ := tcp_rx_write_ t; stop_flag_ := stop;
     kill_switch_flag_ := kill; response_handler_ := response_handler_ t; send_handler_ := send_handler_ t |}.
Definition with_response t o io h kill : StrategyThread :=
  {| strategy_ := strategy_ t; order_mgr_ := o; io_ := io; tcp_rx_data_ := tcp_rx_data_ t;
     tcp_rx_read_ := tcp_rx_read_ t; tcp_rx_write_ := tcp_rx_write_ t; stop_flag_ := stop_flag_ t;
     kill_switch_flag_ := kill; response_handler_ := h; send_handler_ := send_handler_ t |}.

Definition conn_of t : ConnectionState := conn (io_ t).
Definition connected t : bool := bool_decide (state (conn_of t) = kConnected).
Definition with_conn_of t c : StrategyThread := with_io t (with_conn (io_ t) c).

(** The clock, and the teardown every failure of the connection leads to. *)
Definition read_clock t : Z * StrategyThread := let '(now, io) := now (io_ t) in (now, with_io t io).

Definition disconnect t : StrategyThread :=
  let '(c, w, read, write) := disconnect_and_reconnect (conn_of t) (os (io_ t)) (tcp_rx_read_ t) (tcp_rx_write_ t) in
  with_rx (with_io t (with_conn (with_os (io_ t) w) c)) (tcp_rx_data_ t) read write.

(** * Cancellations

    The loop over a batch: a failed send ends it. *)
Fixpoint send_cancels t (cancels : list CancelOrder) : option StrategyThread :=
  match cancels with
  | [] => Some t
  | c :: cancels =>
      '(io, sent) ← send_message native_little (io_ t) kCancelOrder (serialize_cancel_order native_little (scratch (io_ t)) c);
      let t := with_io t io in
      if default true sent then send_cancels t cancels else Some (disconnect t)
  end.

Definition kill_switch_phase t : option StrategyThread :=
  if kill_switch_flag_ t && negb (is_killed (order_mgr_ t)) && connected t then
    let '(now, t) := read_clock t in
    '(o, count) ← trigger_kill_switch ndebug (order_mgr_ t) now;
    send_cancels (with_order_io t o (io_ t)) (take (Z.to_nat count) (cancel_buf (ctx_ o)))
  else Some t.

Definition timeout_phase t : option StrategyThread :=
  if connected t then
    let '(now, t) := read_clock t in
    '(o, count) ← advance_timeouts ndebug (order_mgr_ t) now;
    send_cancels (with_order_io t o (io_ t)) (take (Z.to_nat count) (cancel_buf (ctx_ o)))
  else Some t.

(** * Heartbeats and reconnection *)

Definition send_heartbeat t (now : Z) : option StrategyThread :=
  '(io, sent) ← send_frame native_little (io_ t) kHeartbeat [];
  let t := with_io t io in
  let t := if default true sent then t else disconnect t in
  let c := conn_of t in
  Some (with_conn_of t (with_heartbeat c (u64 now) (last_hb_recv c) (u32 (heartbeats_sent c + 1)) (heartbeats_recv c))).

Definition heartbeat_phase t : option StrategyThread :=
  if connected t then
    let '(now, t) := read_clock t in
    t ← (if bool_decide (u64 (now - last_hb_sent (conn_of t)) >= kHeartbeatIntervalNs) then send_heartbeat t now else Some t);
    if bool_decide (u64 (now - last_hb_recv (conn_of t)) >= kHeartbeatTimeoutNs) then Some (disconnect t) else Some t
  else Some t.

Definition connect_timeout_phase t : StrategyThread :=
  if bool_decide (state (conn_of t) = kConnecting) then
    let '(now, t) := read_clock t in
    if bool_decide (now >= connect_deadline (conn_of t)) then
      let c := with_state (conn_of t) kDisconnected false (connect_deadline (conn_of t)) in
      with_conn_of t (schedule_reconnect c (u64 now))
    else t
  else t.

(** [finalize_tcp_connect], and the schedule of a failure. *)
Definition finalize t (nodelay nonblocking : bool) : StrategyThread * bool :=
  let '(c, w, ok) := finalize_tcp_connect (conn_of t) (os (io_ t)) nodelay nonblocking in
  (with_io t (with_conn (with_os (io_ t) w) c), ok).

(** The answer [true] is the [continue] after the last attempt. *)
Definition reconnect_phase t (a : ConnectAttempt) : StrategyThread * bool :=
  if bool_decide (state (conn_of t) = kDisconnected) then
    let '(now, t) := read_clock t in
    if bool_decide (now >= next_reconnect_at (conn_of t)) then
      if bool_decide (reconnect_attempts (conn_of t) >= kMaxReconnectAttempts)
      then (with_flags t true (kill_switch_flag_ t), true)
      else
        match a with
        | NoSocket | Refused => (with_conn_of t (schedule_reconnect (conn_of t) (u64 now)), false)
        | InProgress =>
            (with_conn_of t (with_state (conn_of t) kConnecting true (u64 (now + kConnectTimeoutNs))), false)
        | Established nodelay nonblocking =>
            let '(t, ok) := finalize t nodelay nonblocking in
            (if ok then t else with_conn_of t (schedule_reconnect (conn_of t) (u64 now)), false)
        end
    else (t, false)
  else (t, false).

(** * Market data: the drained batch *)

Fixpoint market_phase t (updates : list MarketDataUpdate) : option StrategyThread :=
  match updates with
  | [] => Some t
  | u :: updates =>
      '(s, signal) ← on_market_data (strategy_ t) u;
      let t := with_market t s (order_mgr_ t) (io_ t) (send_handler_ t) in
      match signal with
      | None => market_phase t updates
      | Some signal =>
          if negb (connected t) then market_phase t updates
          else
            '(h, o, io, ok) ← SendHandler.on_signal ndebug native_little (send_handler_ t) signal (order_mgr_ t) (io_ t);
            let t := with_market t (strategy_ t) o io h in
            if (ok : bool) then market_phase t updates else Some (disconnect t)
      end
  end.

(** * Responses *)

(** One parsed message: the version first, then the handler. *)
Definition deliver t (msg : ParsedMessageView) : option StrategyThread :=
  if negb (verify_protocol_version (mh_version (pmv_header msg))) then Some (with_flags t (stop_flag_ t) true)
  else
    let '(now, t) := read_clock t in
    '(h, o, c, kill) ← ResponseHandler.on_tcp_message ndebug native_little (response_handler_ t) msg (order_mgr_ t) (conn_of t) now;
    Some (with_response t o (with_conn (io_ t) c) h (kill_switch_flag_ t || kill)).

(** The bytes received and not yet parsed. *)
Definition unparsed t : option (list Z) :=
  memcpy_from (tcp_rx_data_ t) (tcp_rx_read_ t) (Z.to_nat (tcp_rx_write_ t - tcp_rx_read_ t)).

Fixpoint parse_loop (fuel : nat) t : option StrategyThread :=
  if bool_decide (tcp_rx_write_ t - tcp_rx_read_ t >= kMessageHeaderSize) then
    match fuel with
    | O => None
    | Datatypes.S fuel =>
        view ← unparsed t;
        parsed ← unpack_message native_little view;
        match parsed with
        | None => Some t
        | Some msg =>
            let consumed := kMessageHeaderSize + mh_payload_len (pmv_header msg) in
            t ← deliver t msg;
            parse_loop fuel (with_rx t (tcp_rx_data_ t) (tcp_rx_read_ t + consumed) (tcp_rx_write_ t))
        end
    end
  else Some t.

(** Room for the next receive; [None] inside when the buffer is full of one
    unfinished message. *)
Definition make_room t : option (option StrategyThread) :=
  if bool_decide (tcp_rx_write_ t >= lenZ (tcp_rx_data_ t)) then
    if bool_decide (tcp_rx_read_ t > 0) then
      rest ← unparsed t;
      data ← memcpy_to (tcp_rx_data_ t) 0 rest;
      Some (Some (with_rx t data 0 (tcp_rx_write_ t - tcp_rx_read_ t)))
    else Some None
  else Some (Some t).

(** The bytes of one receive, parsed, and the cursors rewound when nothing
    is left. *)
Definition take_bytes t (bs : list Z) : option StrategyThread :=
  data ← memcpy_to (tcp_rx_data_ t) (tcp_rx_write_ t) bs;
  let t := with_rx t data (tcp_rx_read_ t) (tcp_rx_write_ t + lenZ bs) in
  t ← parse_loop (Datatypes.S (Z.to_nat (tcp_rx_write_ t - tcp_rx_read_ t))) t;
  if bool_decide (tcp_rx_read_ t = tcp_rx_write_ t) then Some (with_rx t (tcp_rx_data_ t) 0 0) else Some t.

Fixpoint receive_loop (fuel : nat) t : option StrategyThread :=
  match fuel with
  | O => None
  | Datatypes.S fuel =>
      room ← make_room t;
      match room with
      | None => Some (disconnect t)
      | Some t =>
          '(w, result) ← receive_nonblocking (os (io_ t)) (lenZ (tcp_rx_data_ t) - tcp_rx_write_ t);
          let t := with_io t (with_os (io_ t) w) in
          match rr_status result with
          | rWouldBlock => Some t
          | rPeerClosed | rError => Some (disconnect t)
          | rOk => t ← take_bytes t (bytes_received result); receive_loop fuel t
          end
      end
  end.

Definition rx_fuel t : nat := Datatypes.S (recv_size (recvs (os (io_ t)))).

Definition on_event t (e : EpollEvent) : option StrategyThread :=
  if bool_decide (state (conn_of t) = kConnecting) && epollout e then
    let t := with_conn_of t (with_state (conn_of t) kConnecting false (connect_deadline (conn_of t))) in
    let '(t, ok) := if sock_err e then (t, false) else finalize t (nodelay_ok e) (nonblocking_ok e) in
    if ok then Some t
    else
      let '(now, t) := read_clock t in
      let c := with_state (conn_of t) kDisconnected (connecting (conn_of t)) (connect_deadline (conn_of t)) in
      Some (with_conn_of t (schedule_reconnect c (u64 now)))
  else if connected t && epollin e then receive_loop (rx_fuel t) t
  else if connected t && epollhup_or_err e then Some (disconnect t)
  else Some t.

Fixpoint response_phase t (es : list EpollEvent) : option StrategyThread :=
  match es with
  | [] => Some t
  | e :: es => t ← on_event t e; response_phase t es
  end.

(** * The loop *)

(** One iteration, with the flags as the signal handlers leave them. *)
Definition iteration t (i : Inputs) : option StrategyThread :=
  let t := with_flags t (stop_flag_ t || stop_requested i) (kill_switch_flag_ t || kill_requested i) in
  if stop_flag_ t then Some t
  else
    t ← kill_switch_phase t;
    if bool_decide (kill_switch_state (order_mgr_ t) = kComplete) then Some (with_flags t true (kill_switch_flag_ t))
    else
      t ← heartbeat_phase t;
      let t := connect_timeout_phase t in
      let '(t, stop) := reconnect_phase t (attempt i) in
      if stop then Some t
      else
        t ← timeout_phase t;
        t ← market_phase t (batch i);
        response_phase t (events i).

Fixpoint run t (inputs : list Inputs) : option StrategyThread :=
  match inputs with
  | [] => Some t
  | i :: inputs => if stop_flag_ t then Some t else t ← iteration t i; run t inputs
  end.
End Thread.
#[global] Arguments StrategyThread _ _ : clear implicits.
End ST.
