(* ===== verification/OrderPathSpec.v ===== *)
(** The order path ([OrderPath.v]) against its contract: what a send hands
    to the kernel, the requests an order manager approves, and what a
    response does to it.

    Orders out: the send handler ([OrderPath.v]) is the order manager's
    decision followed by one send, whatever the kernel answers.

    Responses in: what the response handler ([OrderPath.v]) makes of each
    message of the exchange, and of anything else. *)
From S2P Require Import Prelude.
From S2P Require Import TableInterface.
From S2P Require Import TimingWheel.
From S2P Require Import TradingTypes.
From S2P Require Import Endian.
From S2P Require Import Protocol.
From S2P Require Import ProtocolTotal.
From S2P Require Import Framing.
From S2P Require Import ByteStream.
From S2P Require Import OrderManager.
From S2P Require Import OrderManagerSpec.
From S2P Require Import OrderManagerTheorems.
From S2P Require Import TcpSocket.
From S2P Require Import TcpConnection.
From S2P Require Import OrderPath.
From S2P Require Import StrategyPolicy.
Local Open Scope Z_scope.
Local Open Scope array_scope.

Module OrderPathSpec.
Import OMgr Tcp Conn Io OMSpec OMSignal.

(** * One send *)

(** What the kernel does with one non-blocking send of [buf]: what it takes,
    and the status the source makes of it. *)
Fixpoint kernel_takes (answers : list SendAnswer) (buf : list Z) : list Z * SendStatus :=
  match answers with
  | [] => ([], kWouldBlock)
  | SendError EINTR :: answers => kernel_takes answers buf
  | SendError e :: _ => ([], if would_block e then kWouldBlock else if peer_gone e then kPeerClosed else kError)
  | Room n :: _ => (take n buf, if bool_decide (take n buf = []) then kError else kOk)
  end.

Fixpoint kernel_rest (answers : list SendAnswer) : list SendAnswer :=
  match answers with
  | [] => []
  | SendError EINTR :: answers => kernel_rest answers
  | _ :: answers => answers
  end.

Lemma send_loop_takes answers buf :
    send_loop answers buf = (kernel_rest answers, (kernel_takes answers buf).1, (send_loop answers buf).2) ∧
    sr_status (send_loop answers buf).2 = (kernel_takes answers buf).2.
Proof.
  induction answers as [| [n | e] answers IH]; simpl.
  - done.
  - split; [done |]. unfold send_success. by destruct (take n buf) eqn:Et.
  - destruct e; simpl; try done; apply IH.
Qed.

(** A send that would block or fails takes nothing. *)
Lemma kernel_takes_ok answers buf :
  (kernel_takes answers buf).1 `prefix_of` buf ∧
  ((kernel_takes answers buf).2 = kOk ↔ (kernel_takes answers buf).1 ≠ []).
Proof.
  induction answers as [| [n | e] answers IH]; simpl.
  - split; [apply prefix_nil | split; [done | by intros []]].
  - split; [exists (drop n buf); by rewrite take_drop |]. case_bool_decide; split; done.
  - destruct e; simpl; try apply IH; (split; [apply prefix_nil | split; [done | by intros []]]).
Qed.

Definition sent_ok (s : SendStatus) : bool := bool_decide (s = kOk) || bool_decide (s = kWouldBlock).

(** The buffers a thread lends can hold the messages it sends. *)
Definition roomy (scratch_size tx_size : Z) (io : Io) : Prop :=
  scratch_size <= lenZ (scratch io) ∧ kMessageHeaderSize + tx_size <= lenZ (tcp_tx_buf io) ∧ lenZ (tcp_tx_buf io) <= SSIZE_MAX.

(** What a send leaves as it was. *)
Definition same_buffers (io io' : Io) : Prop :=
  length (scratch io') = length (scratch io) ∧ length (tcp_tx_buf io') = length (tcp_tx_buf io) ∧
  recvs (os io') = recvs (os io) ∧ clock (os io') = clock (os io) ∧ past (os io') = past (os io) ∧ later (os io') = later (os io).

Definition same_link (c c' : ConnectionState) : Prop :=
  state c' = state c ∧ next_reconnect_at c' = next_reconnect_at c ∧ reconnect_delay c' = reconnect_delay c ∧
  reconnect_attempts c' = reconnect_attempts c ∧ last_hb_sent c' = last_hb_sent c ∧ last_hb_recv c' = last_hb_recv c.

Section Send.
Context (native_little : bool).
Implicit Types io : Io.

(** The frame a payload is sent in. *)
Definition tcp_frame (t : MsgType) (payload : list Z) : Frame :=
  {| fm_version := kProtocolVersion; fm_type := msg_type_id t; fm_flags := 0; fm_payload := payload |}.

Lemma tcp_frame_ok t payload : bytes_ok payload → lenZ payload <= kMaxPayloadSize → frame_ok (tcp_frame t payload).
Proof. intros Hp Hl. unfold frame_ok, message_ok, tcp_frame. simpl. split_and!; try done; unfold kProtocolVersion; try mlia; destruct t; simpl; mlia. Qed.

Lemma send_frame_spec io t payload :
  bytes_ok payload → lenZ payload <= kMaxPayloadSize → kMessageHeaderSize + lenZ payload <= lenZ (tcp_tx_buf io) →
  lenZ (tcp_tx_buf io) <= SSIZE_MAX →
  ∃ io', let '(taken, status) := kernel_takes (sends (os io)) (frame_bytes (tcp_frame t payload)) in
    send_frame native_little io t payload = Some (io', Some (sent_ok status)) ∧
    wire (os io') = wire (os io) ++ taken ∧ sends (os io') = kernel_rest (sends (os io)) ∧ same_buffers io io' ∧ same_link (conn io) (conn io') ∧
    send_would_block (conn io') = (if bool_decide (status = kWouldBlock) then u32 (send_would_block (conn io) + 1) else send_would_block (conn io)) ∧
    send_failures (conn io') = (if sent_ok status then send_failures (conn io) else u32 (send_failures (conn io) + 1)).
Proof.
  intros Hp Hmax Hroom Hssize. pose proof (tcp_frame_ok t payload Hp Hmax) as Hok. unfold send_frame, pack_tcp_message.
  rewrite pack_message_eq by done. cbn [mbind option_bind].
  change (message_bytes kProtocolVersion (msg_type_id t) 0 payload) with (frame_bytes (tcp_frame t payload)).
  set (F := frame_bytes _). assert (lenZ F = kMessageHeaderSize + lenZ payload) as HF by apply frame_bytes_length. clearbody F.
  unfold kMessageHeaderSize in *. rewrite bool_decide_true by lia.
  replace (Z.to_nat _) with (length F) by lia. rewrite take_app_length. unfold send_nonblocking. rewrite bool_decide_true by lia.
  cbn [mbind option_bind assertM with_tx os]. rewrite take_ge by lia.
  destruct (send_loop_takes (sends (os io)) F) as (Hsl & Hst). rewrite Hsl. destruct (kernel_takes _ F) as [taken status]. simpl in *.
  clear Hsl. destruct (send_loop _ F) as [[? ?] result]. simpl in *. unfold check_send_result. rewrite Hst.
  assert (length (F ++ drop (16 + length payload) (tcp_tx_buf io)) = length (tcp_tx_buf io)) as Hlen.
  { rewrite length_app, length_drop. lia. }
  destruct status; (eexists; split; [reflexivity |]); simpl; split_and!; done.
Qed.

(** The same from a message serialised into the scratch buffer. *)
Lemma send_message_spec io t payload rest size :
  bytes_ok payload → lenZ payload = size → 0 < size <= kMaxPayloadSize → kMessageHeaderSize + size <= lenZ (tcp_tx_buf io) →
  lenZ (tcp_tx_buf io) <= SSIZE_MAX → length (payload ++ rest) = length (scratch io) →
  ∃ io', let '(taken, status) := kernel_takes (sends (os io)) (frame_bytes (tcp_frame t payload)) in
    send_message native_little io t (Some (payload ++ rest, size)) = Some (io', Some (sent_ok status)) ∧
    wire (os io') = wire (os io) ++ taken ∧ sends (os io') = kernel_rest (sends (os io)) ∧ same_buffers io io' ∧ same_link (conn io) (conn io') ∧
    send_would_block (conn io') = (if bool_decide (status = kWouldBlock) then u32 (send_would_block (conn io) + 1) else send_would_block (conn io)) ∧
    send_failures (conn io') = (if sent_ok status then send_failures (conn io) else u32 (send_failures (conn io) + 1)).
Proof.
  intros Hp Hl Hs Hroom Hss Hsc. unfold send_message. cbn [mbind option_bind].
  rewrite bool_decide_true by lia. replace (Z.to_nat size) with (length payload) by lia. rewrite take_app_length.
  destruct (send_frame_spec (with_scratch io (payload ++ rest)) t payload Hp) as (io' & H); [lia | simpl; lia | done |].
  exists io'. simpl in H. destruct (kernel_takes _ _) as [taken status]. destruct H as (-> & Hw & Hsd & Hb & Hlk & Hd).
  split; [done |]. split; [done |]. split; [done |]. split; [| done]. unfold same_buffers in *. simpl in Hb. by rewrite <- Hsc.
Qed.
End Send.

(** * Requests *)

Inductive Request : Set := ReqNew (o : NewOrder) | ReqModify (m : ModifyOrder) | ReqCancel (c : CancelOrder) | ReqHeartbeat.

Definition request_ok (r : Request) : Prop :=
  match r with ReqNew o => NewOrder_ok o | ReqModify m => ModifyOrder_ok m | ReqCancel c => CancelOrder_ok c | ReqHeartbeat => True end.

Definition request_frame (r : Request) : Frame :=
  match r with
  | ReqNew o => tcp_frame kNewOrder (layout_new_order o)
  | ReqModify m => tcp_frame kModifyOrder (layout_modify_order m)
  | ReqCancel c => tcp_frame kCancelOrder (layout_cancel_order c)
  | ReqHeartbeat => tcp_frame kHeartbeat []
  end.

(** What a receiver with the same protocol makes of a message. *)
Definition read_request (native_little : bool) (m : ParsedMessageView) : option (option Request) :=
  let ty := mh_msg_type (pmv_header m) in
  if bool_decide (ty = msg_type_id kNewOrder) then
    r ← deserialize_new_order native_little (pmv_payload m); Some (option_map ReqNew r)
  else if bool_decide (ty = msg_type_id kModifyOrder) then
    r ← deserialize_modify_order native_little (pmv_payload m); Some (option_map ReqModify r)
  else if bool_decide (ty = msg_type_id kCancelOrder) then
    r ← deserialize_cancel_order native_little (pmv_payload m); Some (option_map ReqCancel r)
  else if bool_decide (ty = msg_type_id kHeartbeat) then Some (Some ReqHeartbeat)
  else Some None.

Lemma layout_request_bytes r :
  bytes_ok (fm_payload (request_frame r)) ∧ lenZ (fm_payload (request_frame r)) <= 33 ∧
  (r ≠ ReqHeartbeat → 0 < lenZ (fm_payload (request_frame r))).
Proof.
  destruct r; [| | | by split; [constructor | split; [done |]]]; cbn [request_frame tcp_frame fm_payload]; unfold layout_new_order, layout_modify_order, layout_cancel_order;
    (split; [repeat first [apply bytes_ok_app | apply to_be_bytes] | rewrite !length_app, !length_to_be; split; [lia | intros _; lia]]).
Qed.

Lemma request_frame_ok r : frame_ok (request_frame r).
Proof.
  pose proof (layout_request_bytes r) as (Hb & Hl & _). unfold kMaxPayloadSize. destruct r; apply tcp_frame_ok; try done; simpl in *; unfold kMaxPayloadSize; lia.
Qed.

Lemma read_request_frame nl r : request_ok r → read_request nl (frame_view (request_frame r)) = Some (Some r).
Proof.
  intros Hr. destruct r as [o | m | c |]; [| | | done].
  - change (read_request nl (frame_view (request_frame (ReqNew o))))
      with (r ← deserialize_new_order nl (layout_new_order o); Some (option_map ReqNew r)).
    pose proof (deserialize_new_order_eq nl o [] Hr ltac:(constructor)) as H. rewrite app_nil_r in H. by rewrite H.
  - change (read_request nl (frame_view (request_frame (ReqModify m))))
      with (r ← deserialize_modify_order nl (layout_modify_order m); Some (option_map ReqModify r)).
    pose proof (deserialize_modify_order_eq nl m [] Hr ltac:(constructor)) as H. rewrite app_nil_r in H. by rewrite H.
  - change (read_request nl (frame_view (request_frame (ReqCancel c))))
      with (r ← deserialize_cancel_order nl (layout_cancel_order c); Some (option_map ReqCancel r)).
    pose proof (deserialize_cancel_order_eq nl c [] Hr ltac:(constructor)) as H. rewrite app_nil_r in H. by rewrite H.
Qed.

(** A stream of whole requests is read back as them. *)
Lemma read_requests nl rs :
  Forall request_ok rs →
  split nl (concat (frame_bytes ∘ request_frame <$> rs)) = (frame_view ∘ request_frame <$> rs, []) ∧
  Forall2 (λ m r, read_request nl m = Some (Some r)) (frame_view ∘ request_frame <$> rs) rs.
Proof.
  induction 1 as [| r rs Hr Hrs [IH1 IH2]]; [done |]. cbn [fmap list_fmap concat]. split.
  - unfold compose at 1. rewrite split_frame; [by rewrite IH1 | apply request_frame_ok |].
    clear -Hrs. induction rs as [| x rs IH]; [constructor |]. cbn [fmap list_fmap concat]. inversion_clear Hrs.
    apply Forall_app. split; [apply frame_bytes_ok, request_frame_ok | by apply IH].
  - constructor; [by apply read_request_frame | done].
Qed.
End OrderPathSpec.

Module OrderOut.
Import OMgr Tcp Conn Io OMSpec OMSignal OrderPathSpec.

Section Out.
Context (ndebug native_little : bool) {M : Type} `{TM : Table Z OrderInfo M} `{TI : TableIter Z OrderInfo M} `{TR : TableRebuild M}.
Implicit Types (o : OrderManager M) (io : Io) (w : Os) (sg : Signal).

(** The decision alone: modify, place or refuse. *)
Definition approve o w sg : option (OrderManager M * Os * option Request) :=
  let '(t, w) := monotonic_nanos w in
  '(o, modify) ← check_modify o sg t;
  match modify with
  | Some m => Some (o, w, Some (ReqModify m))
  | None =>
      let '(t1, w) := monotonic_nanos w in
      let '(t2, w) := monotonic_nanos w in
      '(o, order) ← on_signal ndebug o sg t1 t2;
      Some (o, w, option_map ReqNew order)
  end.

(** Only the clock of the kernel has moved. *)
Definition clock_only w w' : Prop :=
  sends w' = sends w ∧ recvs w' = recvs w ∧ wire w' = wire w ∧ later w' = later w ∧ past w' = past w.
Definition clock_ok w : Prop := Forall (λ t, 0 <= t < 2 ^ 63) (clock w).

Lemma monotonic_nanos_ok w :
  clock_ok w → 0 <= (monotonic_nanos w).1 < 2 ^ 63 ∧ clock_ok (monotonic_nanos w).2.
Proof.
  unfold clock_ok, monotonic_nanos. destruct w as [? ? ? ? ? [| t [| t2 ts]]]; simpl; intros H.
  - split; [lia | done].
  - inversion_clear H. split; [done | by constructor].
  - inversion_clear H. by split.
Qed.
Lemma monotonic_nanos_clock_only w : clock_only w (monotonic_nanos w).2.
Proof. unfold clock_only, monotonic_nanos. by destruct w as [? ? ? ? ? [| t [| t2 ts]]]. Qed.
Lemma clock_only_trans w1 w2 w3 : clock_only w1 w2 → clock_only w2 w3 → clock_only w1 w3.
Proof. unfold clock_only. intros. destruct_and!. split_and!; congruence. Qed.

Lemma approve_clock o w sg o' w' req :
  approve o w sg = Some (o', w', req) → clock_only w w' ∧ (clock_ok w → clock_ok w').
Proof.
  unfold approve. intros H.
  pose proof (monotonic_nanos_clock_only w) as H1. pose proof (monotonic_nanos_ok w) as K1.
  destruct (monotonic_nanos w) as [t w1]. simpl in *.
  pose proof (monotonic_nanos_clock_only w1) as H2. pose proof (monotonic_nanos_ok w1) as K2.
  destruct (monotonic_nanos w1) as [t1 w2]. simpl in *.
  pose proof (monotonic_nanos_clock_only w2) as H3. pose proof (monotonic_nanos_ok w2) as K3.
  destruct (monotonic_nanos w2) as [t2 w3]. simpl in *.
  inv_bind H. destruct r as [o1 [m |]]; [injection K as <- <- <-; split; [done | naive_solver] |].
  inv_bind K. destruct r as [o2 ord]. injection K0 as <- <- <-.
  split; [by do 2 (eapply clock_only_trans; [eassumption |]) | naive_solver].
Qed.

(** What a handler may be lent. *)
Definition io_ok io : Prop := roomy 33 33 io ∧ clock_ok (os io).

(** The outcome of transmitting a request. *)
Definition transmitted io w (r : Request) io' (ok : bool) : Prop :=
  let '(taken, status) := kernel_takes (sends w) (frame_bytes (request_frame r)) in
  ok = sent_ok status ∧ wire (os io') = wire w ++ taken ∧ sends (os io') = kernel_rest (sends w) ∧ same_buffers (with_os io w) io' ∧ same_link (conn io) (conn io') ∧
  send_would_block (conn io') =
    (if bool_decide (status = kWouldBlock) then u32 (send_would_block (conn io) + 1) else send_would_block (conn io)) ∧
  send_failures (conn io') = (if sent_ok status then send_failures (conn io) else u32 (send_failures (conn io) + 1)).

Definition counted (h : SendHandler.OrderSendHandler) (r : Request) : SendHandler.OrderSendHandler :=
  match r with
  | ReqModify _ => {| SendHandler.orders_serialized_ := SendHandler.orders_serialized_ h;
                      SendHandler.modifies_serialized_ := u64 (SendHandler.modifies_serialized_ h + 1) |}
  | _ => {| SendHandler.orders_serialized_ := u64 (SendHandler.orders_serialized_ h + 1);
            SendHandler.modifies_serialized_ := SendHandler.modifies_serialized_ h |}
  end.

Lemma serialize_request io w r :
  request_ok r → r ≠ ReqHeartbeat → roomy 33 33 io →
  ∃ rest, (match r with
           | ReqNew o => serialize_new_order native_little (scratch io) o
           | ReqModify m => serialize_modify_order native_little (scratch io) m
           | ReqCancel c => serialize_cancel_order native_little (scratch io) c
           | ReqHeartbeat => None
           end) = Some (fm_payload (request_frame r) ++ rest, lenZ (fm_payload (request_frame r))) ∧
    length (fm_payload (request_frame r) ++ rest) = length (scratch (with_os io w)).
Proof.
  intros Hr Hh (Hs & _ & _). destruct r as [o | m | c |]; [| | | done]; cbn [request_ok] in Hr; (eexists; split;
    [first [rewrite serialize_new_order_eq | rewrite serialize_modify_order_eq | rewrite serialize_cancel_order_eq];
       [reflexivity | exact Hr | unfold kNewOrderWireSize, kModifyOrderWireSize, kCancelOrderWireSize; lia]
    | cbn [request_frame tcp_frame fm_payload with_os scratch]; unfold layout_new_order, layout_modify_order, layout_cancel_order;
      rewrite !length_app, !length_to_be, length_drop; lia]).
Qed.

(** A request through the buffers to the socket. *)
Lemma transmit io w r :
  request_ok r → r ≠ ReqHeartbeat → roomy 33 33 io →
  ∃ io' ok, transmitted io w r io' ok ∧
    send_message native_little (with_os io w)
      (match r with ReqNew _ => kNewOrder | ReqModify _ => kModifyOrder | ReqCancel _ => kCancelOrder | ReqHeartbeat => kHeartbeat end)
      (match r with
       | ReqNew o => serialize_new_order native_little (scratch io) o
       | ReqModify m => serialize_modify_order native_little (scratch io) m
       | ReqCancel c => serialize_cancel_order native_little (scratch io) c
       | ReqHeartbeat => None
       end) = Some (io', Some ok).
Proof.
  intros Hr Hh Hroom. destruct (serialize_request io w r Hr Hh Hroom) as (rest & -> & Hlen).
  destruct (layout_request_bytes r) as (Hb & Hl & Hpos). specialize (Hpos Hh). destruct Hroom as (_ & Htx & Hss).
  set (ty := match r with ReqNew _ => kNewOrder | ReqModify _ => kModifyOrder | ReqCancel _ => kCancelOrder | ReqHeartbeat => kHeartbeat end).
  destruct (send_message_spec native_little (with_os io w) ty (fm_payload (request_frame r)) rest
    (lenZ (fm_payload (request_frame r))) Hb eq_refl) as (io' & Hs); try done; unfold kMaxPayloadSize; simpl in *; try lia.
  assert (tcp_frame ty (fm_payload (request_frame r)) = request_frame r) as Hf by by destruct r. rewrite Hf in Hs.
  unfold transmitted. simpl in Hs. destruct (kernel_takes _ _) as [taken status]. destruct Hs as (Hs & H).
  exists io', (sent_ok status). by split.
Qed.

Theorem on_signal_refines h sg o io o' w' req :
  approve o (os io) sg = Some (o', w', req) → roomy 33 33 io → (∀ r, req = Some r → request_ok r) →
  match req with
  | None => SendHandler.on_signal ndebug native_little h sg o io = Some (h, o', with_os io w', true)
  | Some r => ∃ io' ok, transmitted io w' r io' ok ∧
      SendHandler.on_signal ndebug native_little h sg o io = Some (counted h r, o', io', ok)
  end.
Proof.
  intros Ha Hroom Hreq. unfold approve in Ha. unfold SendHandler.on_signal, now.
  destruct (monotonic_nanos (os io)) as [t w1]. inv_bind Ha. destruct r as [o1 [m |]].
  - injection K as <- <- <-. rewrite E. cbn [mbind option_bind].
    destruct (transmit io w1 (ReqModify m) (Hreq _ eq_refl) ltac:(done) Hroom) as (io' & ok & Ht & Hs).
    change (scratch (with_os io _)) with (scratch io). rewrite Hs. cbn [mbind option_bind]. by exists io', ok.
  - rewrite E. cbn [mbind option_bind]. change (os (with_os io w1)) with w1. destruct (monotonic_nanos w1) as [t1 w2]. change (os (with_os (with_os io w1) w2)) with w2. destruct (monotonic_nanos w2) as [t2 w3].
    change (with_os (with_os (with_os io w1) w2) w3) with (with_os io w3). inv_bind K. destruct r as [o2 [ord |]]; injection K0 as <- <- <-; rewrite E0; cbn [mbind option_bind option_map]; [| done].
    destruct (transmit io w3 (ReqNew ord) (Hreq _ eq_refl) ltac:(done) Hroom) as (io' & ok & Ht & Hs).
    change (scratch (with_os io _)) with (scratch io). rewrite Hs. cbn [mbind option_bind]. by exists io', ok.
Qed.

(** * The decision never fails *)

Context {TL : TableLaws Z OrderInfo M} {TIL : TableIterLaws Z OrderInfo M}.

(** Positions far enough from overflow that no signal can reach it. *)
Definition positions_small o : Prop := ∀ i p, (net_position (ctx_ o)).[i] = Some p → - 2 ^ 62 < p < 2 ^ 62.

Lemma fits_signal o sg (symbols : Z) :
  signal_of symbols sg → symbols <= max_symbols (ctx_ o) → positions_small o → next_order_id_ o + 1 < 2 ^ 64 →
  signal_ok o sg ∧ signal_fits o sg.
Proof.
  intros (Hs & Hd & Hp & Hq) Hm Hpos Hn. unfold price_ok in Hp. split.
  - unfold signal_ok. split; [lia |]. split; [done |]. split; [mlia | done].
  - assert (- 2 ^ 62 < default 0 ((net_position (ctx_ o)).[sig_symbol_id sg - 1]) < 2 ^ 62) as Hpp.
    { destruct (_.[_]) eqn:E; simpl; [by eapply Hpos | lia]. }
    unfold signal_fits, projected. set (p := default 0 _) in *. split; [unfold is_s64, is_u32 in *; nia |].
    destruct (bool_decide (sig_side sg = kBid)); (split; [mlia | split; [mlia | done]]).
Qed.

Lemma signal_next o sg t1 t2 o' out :
  inv ndebug o → signal_ok o sg → signal_fits o sg → 0 <= t1 < 2 ^ 63 → on_signal ndebug o sg t1 t2 = Some (o', out) →
  next_order_id_ o <= next_order_id_ o' <= next_order_id_ o + 1.
Proof.
  intros Hinv Hok Hfits Ht E. pose proof (on_signal_spec ndebug o sg t1 t2 Hinv Hok Hfits Ht) as Hs.
  destruct (verdict o sg t1) as [r |].
  - rewrite E in Hs. injection Hs as -> _. unfold refused. destruct r; simpl; lia.
  - destruct Hs as (E2 & Hn & Hroom & Htok). pose proof Hinv as [Hc Hk]. destruct (refill_spec ndebug o t1 Hc Ht) as (_ & Htk & Hlr).
    set (o1 := with_tokens o _ _) in *.
    assert (timers_ok o1 []) as Htm by (unfold kill_ok in Hk; rewrite Hn in Hk; exact Hk).
    destruct (place_order_spec ndebug o1 sg t2 (core_tokens ndebug o _ _ Hc Htk Hlr) Htm Hok Hroom Htok (proj2 (proj2 (proj2 Hfits))))
      as (o2 & out2 & E3 & _ & _ & _ & _ & _ & _ & Hnx & _).
    rewrite E, E3 in E2. injection E2 as -> _. rewrite Hnx. unfold o1. simpl. lia.
Qed.

(** What stands behind a request: the state it was decided in. *)
Definition warranted o o' sg (r : Request) : Prop :=
  match r with
  | ReqNew n => no_client_order_id n = next_order_id_ o ∧ no_symbol_id n = sig_symbol_id sg ∧
      no_side n = side_to_u8 (sig_side sg) ∧ no_price n = sig_price sg ∧ no_qty n = sig_qty sg ∧
      (∃ t, verdict o sg t = None) ∧ is_Some (orders o' !! no_client_order_id n)
  | ReqModify m => mo_symbol_id m = sig_symbol_id sg ∧ mo_new_price m = sig_price sg ∧ mo_new_qty m = sig_qty sg ∧
      kill_switch_state_ o = kNormal ∧
      ∃ i, orders o !! mo_client_order_id m = Some i ∧ oi_symbol_id i = sig_symbol_id sg ∧ oi_side i = sig_side sg
  | ReqCancel _ | ReqHeartbeat => False
  end.

Lemma approve_spec o w sg (symbols : Z) :
  inv ndebug o → per_symbol_limit o → positions_small o → clock_ok w → signal_of symbols sg →
  symbols <= max_symbols (ctx_ o) → next_order_id_ o + 1 < 2 ^ 64 →
  ∃ o' w' req, approve o w sg = Some (o', w', req) ∧ inv ndebug o' ∧ per_symbol_limit o' ∧ same_limits o o' ∧
    net_position (ctx_ o') = net_position (ctx_ o) ∧
    next_order_id_ o <= next_order_id_ o' <= next_order_id_ o + 1 ∧ rtc (om_step ndebug) o o' ∧
    ∀ r, req = Some r → request_ok r ∧ warranted o o' sg r.
Proof.
  intros Hinv Hlim Hpos Hck Hsg Hm Hnext. destruct (fits_signal o sg symbols Hsg Hm Hpos Hnext) as [Hok Hfits].
  assert (Hstep : ∀ ev o', admissible o ev → handle ndebug o ev = Some o' → rtc (om_step ndebug) o o').
  { intros ev o' Had E. apply rtc_once. by econstructor. }
  unfold approve. pose proof (monotonic_nanos_ok w Hck) as [Ht Hck1]. destruct (monotonic_nanos w) as [t w1]. simpl in Ht, Hck1.
  destruct (check_modify_spec ndebug o sg t Hinv Hok) as (a & o1 & out & Ha & Ecm & Hi1 & Ho1 & _ & Hsl1 & Hnp1 & _ & Hnx1 & Hout).
  rewrite Ecm. cbn [mbind option_bind]. destruct Hsg as (Hs & Hd & Hpr & Hq). unfold price_ok in Hpr. pose proof Hinv as [Hc _].
  pose proof (c_symbols _ (v_config _ _ Hc)) as Hms.
  destruct (bool_decide (kill_switch_state_ o = kNormal) && _ && _) eqn:Hb.
  - apply andb_true_iff in Hb as [Hkn%andb_true_iff _]. destruct Hkn as [Hkn%bool_decide_eq_true _].
    destruct Hout as (-> & i & Hi & His & Hid). exists o1, w1, (Some (ReqModify {| mo_client_order_id := ao_client_order_id a; mo_symbol_id := sig_symbol_id sg;
                       mo_new_price := sig_price sg; mo_new_qty := sig_qty sg; mo_send_ts := t |})).
    split; [done |]. split; [done |]. split; [eapply limit_shrinks; [exact Hlim | by rewrite Ho1 | done] |]. split; [done |].
    split; [done |]. split; [lia |]. split; [apply (Hstep (EvModify sg t)); [done | simpl; by rewrite Ecm] |].
    intros r [= <-]. split; [| by split_and!; eauto].
    destruct (v_info _ _ Hc _ i Hi) as (Hk & _). pose proof (v_next _ _ Hc). unfold request_ok, ModifyOrder_ok. simpl. split_and!; mlia.
  - destruct Hout as (-> & ->). pose proof (monotonic_nanos_ok w1 Hck1) as [Ht1 Hck2]. destruct (monotonic_nanos w1) as [t1 w2]. simpl in Ht1, Hck2.
    pose proof (monotonic_nanos_ok w2 Hck2) as [Ht2 _]. destruct (monotonic_nanos w2) as [t2 w3]. simpl in Ht2.
    destruct (signal_step ndebug o sg t1 t2 Hinv Hlim Hok Hfits Ht1) as (o' & out & E & Hi' & Hp' & Hsl & Hnp & Hv).
    rewrite E. cbn [mbind option_bind]. exists o', w3, (option_map ReqNew out). split; [done |]. split; [done |]. split; [done |]. split; [done |].
    split; [done |]. split; [by eapply (signal_next o sg t1 t2) |].
    split; [apply (Hstep (EvSignal sg t1 t2)); [done | simpl; by rewrite E] |].
    destruct out as [n |]; [| done]. intros r [= <-]. destruct (verdict o sg t1) eqn:Hvd; [by destruct Hv |].
    destruct Hv as (-> & h & _ & _ & Ho & _). split.
    + pose proof (v_next _ _ Hc). unfold request_ok, NewOrder_ok, order_of. simpl. split_and!; try mlia. destruct (sig_side sg); simpl; mlia.
    + unfold warranted, order_of. simpl. split_and!; try done; [by exists t1 |]. rewrite Ho. simpl. rewrite lookup_insert_eq. by eexists.
Qed.
End Out.
End OrderOut.

Module OrderIn.
Import OMgr Tcp Conn Io ResponseHandler OrderPathSpec.

(** * What can arrive *)

Inductive Response : Set :=
  | ROrderAck (a : OrderAck) | ROrderReject (r : OrderReject) | RFill (f : FillReport)
  | RCancelAck (a : CancelAck) | RCancelReject (r : CancelReject)
  | RModifyAck (a : ModifyAck) | RModifyReject (r : ModifyReject) | RHeartbeatAck
  | RShort (f : Frame)      (* a response type with a payload too short for it *)
  | RUnknown (f : Frame)    (* no response type *)
  | RForeign (f : Frame).   (* another protocol version *)

Definition response_frame (r : Response) : Frame :=
  match r with
  | ROrderAck a => tcp_frame kOrderAck (layout_order_ack a)
  | ROrderReject r => tcp_frame kOrderReject (layout_order_reject r)
  | RFill f => tcp_frame kFillReport (layout_fill_report f)
  | RCancelAck a => tcp_frame kCancelAck (layout_cancel_ack a)
  | RCancelReject r => tcp_frame kCancelReject (layout_cancel_reject r)
  | RModifyAck a => tcp_frame kModifyAck (layout_modify_ack a)
  | RModifyReject r => tcp_frame kModifyReject (layout_modify_reject r)
  | RHeartbeatAck => tcp_frame kHeartbeatAck []
  | RShort f | RUnknown f | RForeign f => f
  end.

(** The smallest payload of a response type. *)
Definition response_size (ty : Z) : option Z :=
  if bool_decide (ty = msg_type_id kOrderAck) then Some kOrderAckWireSize
  else if bool_decide (ty = msg_type_id kOrderReject) then Some kOrderRejectWireSize
  else if bool_decide (ty = msg_type_id kFillReport) then Some kFillReportWireSize
  else if bool_decide (ty = msg_type_id kCancelAck) then Some kCancelAckWireSize
  else if bool_decide (ty = msg_type_id kCancelReject) then Some kCancelRejectWireSize
  else if bool_decide (ty = msg_type_id kModifyAck) then Some kModifyAckWireSize
  else if bool_decide (ty = msg_type_id kModifyReject) then Some kModifyRejectWireSize
  else if bool_decide (ty = msg_type_id kHeartbeatAck) then Some 0
  else None.

Definition response_ok (r : Response) : Prop :=
  match r with
  | ROrderAck a => OrderAck_ok a
  | ROrderReject r => OrderReject_ok r
  | RFill f => FillReport_ok f
  | RCancelAck a => CancelAck_ok a
  | RCancelReject r => CancelReject_ok r
  | RModifyAck a => ModifyAck_ok a
  | RModifyReject r => ModifyReject_ok r
  | RHeartbeatAck => True
  | RShort f => frame_ok f ∧ fm_version f = kProtocolVersion ∧ ∃ n, response_size (fm_type f) = Some n ∧ lenZ (fm_payload f) < n
  | RUnknown f => frame_ok f ∧ fm_version f = kProtocolVersion ∧ response_size (fm_type f) = None
  | RForeign f => frame_ok f ∧ fm_version f ≠ kProtocolVersion
  end.

(** What it is for the order manager. *)
Definition event_of (r : Response) : option event :=
  match r with
  | ROrderAck a => Some (EvOrderAck a)
  | ROrderReject r => Some (EvOrderReject r)
  | RFill f => Some (EvFill f)
  | RCancelAck a => Some (EvCancelAck a)
  | RCancelReject r => Some (EvCancelReject r)
  | RModifyAck a => Some (EvModifyAck a)
  | RModifyReject r => Some (EvModifyReject r)
  | _ => None
  end.

(** Rejections in a row: an acknowledged order or a fill ends the row. *)
Definition streak (n : Z) (r : Response) : Z :=
  match r with ROrderReject _ => n + 1 | ROrderAck _ | RFill _ => 0 | _ => n end.

(** What trips the kill switch: the fifth rejection in a row and every one
    after it, or a message of another protocol version. *)
Definition trips (n : Z) (r : Response) : bool :=
  match r with ROrderReject _ => bool_decide (n + 1 >= kMaxConsecutiveRejects) | RForeign _ => true | _ => false end.

Fixpoint tripped (n : Z) (rs : list Response) : bool :=
  match rs with [] => false | r :: rs => trips n r || tripped (streak n r) rs end.

Definition streak_after (n : Z) (rs : list Response) : Z := foldl streak n rs.

Lemma response_frame_ok r : response_ok r → frame_ok (response_frame r).
Proof.
  destruct r; cbn [response_ok response_frame]; intros H; try apply H; apply tcp_frame_ok;
    unfold layout_order_ack, layout_order_reject, layout_fill_report, layout_cancel_ack, layout_cancel_reject, layout_modify_ack,
      layout_modify_reject;
    first [ exact (Forall_nil_2 _)
          | rewrite ?length_app, ?length_to_be; unfold kMaxPayloadSize; simpl; lia
          | repeat first [apply bytes_ok_app | apply to_be_bytes] ].
Qed.

(** * The handler *)

Definition handler_ok (h : OrderResponseHandler) : Prop := lenZ (reject_by_reason_ h) = kNumRejectReasons.

(** The counters of a response. *)
Definition counted_in (h : OrderResponseHandler) (r : Response) : OrderResponseHandler :=
  match r with
  | ROrderReject r =>
      {| consecutive_rejects_ := u32 (consecutive_rejects_ h + 1); parse_errors_ := parse_errors_ h; unknown_types_ := unknown_types_ h;
         reject_by_reason_ := match getZ (reject_by_reason_ h) (or_reason r) with
                              | Some n => setZ (reject_by_reason_ h) (or_reason r) (u64 (n + 1))
                              | None => reject_by_reason_ h
                              end |}
  | ROrderAck _ | RFill _ => with_rejects h 0
  | RShort _ => parse_error h
  | RUnknown _ => unknown_type h
  | _ => h
  end.

Definition link_in (c : ConnectionState) (now : Z) (r : Response) : ConnectionState :=
  match r with
  | RHeartbeatAck => with_heartbeat c (last_hb_sent c) (u64 now) (heartbeats_sent c) (u32 (heartbeats_recv c + 1))
  | _ => c
  end.

Section In.
Context (ndebug native_little : bool) {M : Type} `{TM : Table Z OrderInfo M} `{TI : TableIter Z OrderInfo M} `{TR : TableRebuild M}.
Implicit Types (h : OrderResponseHandler) (o : OrderManager M) (c : ConnectionState).

Abbreviation on_message := (on_tcp_message ndebug native_little).

Lemma on_message_type h m o c now (ty : Z) :
  mh_msg_type (pmv_header m) = ty → response_size ty = None → on_message h m o c now = Some (unknown_type h, o, c, false).
Proof.
  intros <-. unfold response_size, on_tcp_message. repeat (case_bool_decide; [done |]). done.
Qed.

Lemma on_message_short h m o c now n :
  response_size (mh_msg_type (pmv_header m)) = Some n → lenZ (pmv_payload m) < n →
  on_message h m o c now = Some (parse_error h, o, c, false).
Proof.
  unfold response_size, on_tcp_message.
  repeat (case_bool_decide; [intros [= <-] Hlt;
    first [ progress unfold deserialize_order_ack | progress unfold deserialize_order_reject | progress unfold deserialize_fill_report | progress unfold deserialize_cancel_ack
          | progress unfold deserialize_cancel_reject | progress unfold deserialize_modify_ack | progress unfold deserialize_modify_reject | lia ];
    by rewrite (bool_decide_true (lenZ _ < _)) by done |]). done.
Qed.

Lemma count_reason_spec h r : handler_ok h → OrderReject_ok r →
  count_reason (with_rejects h (u32 (consecutive_rejects_ h + 1))) (or_reason r) = Some (counted_in h (ROrderReject r)).
Proof.
  intros Hh (_ & Hr & _). unfold count_reason, counted_in. cbn [with_rejects reject_by_reason_ parse_errors_ unknown_types_ consecutive_rejects_].
  unfold handler_ok in Hh. case_bool_decide as Hlt.
  - destruct (getZ_is_Some (reject_by_reason_ h) (or_reason r)) as [n Hn]; [unfold is_u8 in Hr; lia |].
    rewrite Hn. cbn [mbind option_bind]. by rewrite storeZ_Some by (unfold is_u8 in Hr; lia).
  - destruct (getZ _ _) as [n |] eqn:En; [| done]. apply getZ_Some in En. lia.
Qed.

(** Every response is dispatched to the order manager's operation of its
    type, with its fields. *)
Lemma on_message_spec h r o c now :
  handler_ok h → response_ok r → fm_version (response_frame r) = kProtocolVersion →
  0 <= consecutive_rejects_ h → consecutive_rejects_ h + 1 < 2 ^ 32 →
  on_message h (frame_view (response_frame r)) o c now =
    (o' ← match event_of r with Some ev => handle ndebug o ev | None => Some o end;
     Some (counted_in h r, o', link_in c now r, trips (consecutive_rejects_ h) r)).
Proof.
  intros Hh Hr Hv Hc0 Hc1. destruct r as [a | r | f | a | r | a | r | | f | f | f]; cbn [response_ok event_of handle response_frame] in *.
  - change (on_message h (frame_view (tcp_frame kOrderAck (layout_order_ack a))) o c now) with
      (parsed ← deserialize_order_ack native_little (layout_order_ack a);
       match parsed with Some ack => Some (with_rejects h 0, on_order_ack o ack, c, false) | None => Some (parse_error h, o, c, false) end).
    pose proof (deserialize_order_ack_eq native_little a [] Hr ltac:(constructor)) as E. rewrite app_nil_r in E. by rewrite E.
  - change (on_message h (frame_view (tcp_frame kOrderReject (layout_order_reject r))) o c now) with
      (parsed ← deserialize_order_reject native_little (layout_order_reject r);
       match parsed with
       | Some rej => o ← on_order_reject ndebug o rej; let h := with_rejects h (u32 (consecutive_rejects_ h + 1)) in
                     h ← count_reason h (or_reason rej);
                     Some (h, o, c, bool_decide (consecutive_rejects_ h >= kMaxConsecutiveRejects))
       | None => Some (parse_error h, o, c, false) end).
    pose proof (deserialize_order_reject_eq native_little r [] Hr ltac:(constructor)) as E. rewrite app_nil_r in E. rewrite E. cbn [mbind option_bind].
    destruct (on_order_reject ndebug o r) as [o' |]; [| done]. cbn [mbind option_bind]. rewrite count_reason_spec by done. cbn [mbind option_bind].
    cbn [counted_in trips link_in consecutive_rejects_]. by rewrite u32_id by mlia.
  - change (on_message h (frame_view (tcp_frame kFillReport (layout_fill_report f))) o c now) with
      (parsed ← deserialize_fill_report native_little (layout_fill_report f);
       match parsed with Some fill => o ← on_fill ndebug o fill; Some (with_rejects h 0, o, c, false) | None => Some (parse_error h, o, c, false) end).
    pose proof (deserialize_fill_report_eq native_little f [] Hr ltac:(constructor)) as E. rewrite app_nil_r in E. by rewrite E.
  - change (on_message h (frame_view (tcp_frame kCancelAck (layout_cancel_ack a))) o c now) with
      (parsed ← deserialize_cancel_ack native_little (layout_cancel_ack a);
       match parsed with Some ack => o ← on_cancel_ack ndebug o ack; Some (h, o, c, false) | None => Some (parse_error h, o, c, false) end).
    pose proof (deserialize_cancel_ack_eq native_little a [] Hr ltac:(constructor)) as E. rewrite app_nil_r in E. by rewrite E.
  - change (on_message h (frame_view (tcp_frame kCancelReject (layout_cancel_reject r))) o c now) with
      (parsed ← deserialize_cancel_reject native_little (layout_cancel_reject r);
       match parsed with Some cr => o ← on_cancel_reject ndebug o cr; Some (h, o, c, false) | None => Some (parse_error h, o, c, false) end).
    pose proof (deserialize_cancel_reject_eq native_little r [] Hr ltac:(constructor)) as E. rewrite app_nil_r in E. by rewrite E.
  - change (on_message h (frame_view (tcp_frame kModifyAck (layout_modify_ack a))) o c now) with
      (parsed ← deserialize_modify_ack native_little (layout_modify_ack a);
       match parsed with Some ack => Some (h, on_modify_ack o ack, c, false) | None => Some (parse_error h, o, c, false) end).
    pose proof (deserialize_modify_ack_eq native_little a [] Hr ltac:(constructor)) as E. rewrite app_nil_r in E. by rewrite E.
  - change (on_message h (frame_view (tcp_frame kModifyReject (layout_modify_reject r))) o c now) with
      (parsed ← deserialize_modify_reject native_little (layout_modify_reject r);
       match parsed with Some rej => o ← on_modify_reject o rej; Some (h, o, c, false) | None => Some (parse_error h, o, c, false) end).
    pose proof (deserialize_modify_reject_eq native_little r [] Hr ltac:(constructor)) as E. rewrite app_nil_r in E. by rewrite E.
  - done.
  - destruct Hr as (_ & _ & n & Hn & Hlt). by rewrite (on_message_short _ _ _ _ _ n).
  - destruct Hr as (_ & _ & Hn). by rewrite (on_message_type _ _ _ _ _ (fm_type f)).
  - by destruct Hr.
Qed.

Lemma counted_in_ok h r : handler_ok h → handler_ok (counted_in h r).
Proof. unfold handler_ok. destruct r; try done. simpl. destruct (getZ _ _); [by rewrite length_setZ | done]. Qed.

Lemma counted_in_streak h r :
  0 <= consecutive_rejects_ h → consecutive_rejects_ h + 1 < 2 ^ 32 →
  consecutive_rejects_ (counted_in h r) = streak (consecutive_rejects_ h) r ∧
  0 <= streak (consecutive_rejects_ h) r <= consecutive_rejects_ h + 1.
Proof. intros H0 H1. destruct r; simpl; try lia. rewrite u32_id by mlia. lia. Qed.
End In.
End OrderIn.
