(* ===== verification/StrategyMarket.v ===== *)
(** The market phase of the strategy thread ([StrategyThread.v]): whatever
    the kernel answers, a batch of updates is processed, the invariants are
    kept, and only requests the order manager has approved are handed to the
    socket.

    Trading without a network: the specification of the market phase.

    [trade] runs the strategy and the order manager over a batch of updates
    and lists the requests that were approved; it knows no buffers, frames or
    sockets.  On a connection with room, the market phase of the strategy
    thread ([StrategyThread.v]) refines it: the same states, and on the wire
    the frames of exactly those requests, in that order. *)
From S2P Require Import Prelude.
From S2P Require Import TableInterface.
From S2P Require Import TimingWheel.
From S2P Require Import TradingTypes.
From S2P Require Import Protocol.
From S2P Require Import Framing.
From S2P Require Import ByteStream.
From S2P Require Import OrderManager.
From S2P Require Import OrderManagerSpec.
From S2P Require Import OrderManagerTheorems.
From S2P Require Import TcpSocket.
From S2P Require Import TcpConnection.
From S2P Require Import OrderPath.
From S2P Require Import StrategyPolicy.
From S2P Require Import StrategyThread.
From S2P Require Import OrderPathSpec.
Local Open Scope Z_scope.

Module STMarket.
Import OMgr Tcp Conn Io ST OMSpec OrderPathSpec OrderOut.

(** A request and what the kernel took of its frame. *)
Definition Sent : Type := Request * list Z.
Definition sent_part (s : Sent) : Prop := request_ok s.1 ∧ s.2 `prefix_of` frame_bytes (request_frame s.1).
Definition sent_whole (s : Sent) : Prop := s.2 = frame_bytes (request_frame s.1).
Definition sent_bytes (l : list Sent) : list Z := concat (snd <$> l).

Lemma sent_bytes_app l l' : sent_bytes (l ++ l') = sent_bytes l ++ sent_bytes l'.
Proof. unfold sent_bytes. by rewrite fmap_app, concat_app. Qed.

Lemma sent_whole_bytes l : Forall sent_whole l → sent_bytes l = concat (frame_bytes ∘ request_frame <$> l.*1).
Proof. induction 1 as [| [r b] l Hw _ IH]; [done |]. unfold sent_bytes in *. cbn [fmap list_fmap concat snd fst]. by rewrite IH, Hw. Qed.

(** A kernel whose buffer has room for a request, [n] times over. *)
Definition always_room (n : nat) (w : Os) : Prop :=
  (n <= length (sends w))%nat ∧ Forall (λ a, ∃ k, a = Room k ∧ (49 <= k)%nat) (sends w).

Lemma request_frame_length r : 0 < lenZ (frame_bytes (request_frame r)) <= 49.
Proof. rewrite frame_bytes_length. pose proof (layout_request_bytes r) as (_ & H & _). unfold kMessageHeaderSize. lia. Qed.

Lemma kernel_takes_room w r n :
  always_room (Datatypes.S n) w →
  kernel_takes (sends w) (frame_bytes (request_frame r)) = (frame_bytes (request_frame r), kOk).
Proof.
  intros [Hn Hr]. destruct (sends w) as [| a l]; [simpl in Hn; lia |]. inversion_clear Hr as [| ? ? (k & -> & Hk) _]. simpl.
  pose proof (request_frame_length r). rewrite take_ge by lia. rewrite bool_decide_false; [done |]. intros E. rewrite E in *. simpl in *. lia.
Qed.

Section Market.
Context (ndebug native_little : bool).
Context {M : Type} `{TM : Table Z OrderInfo M} `{TI : TableIter Z OrderInfo M} `{TR : TableRebuild M}.
Context {TL : TableLaws Z OrderInfo M} {TIL : TableIterLaws Z OrderInfo M}.
Context {S : Type} `{SP : StrategyPolicy S} {SL : StrategyLaws S}.
Abbreviation Thread := (StrategyThread M S).
Implicit Types (t : Thread) (o : OrderManager M) (io : Io).

Record trading_ok (o : OrderManager M) (s : S) io : Prop := {
  tr_inv : inv ndebug o;
  tr_limit : per_symbol_limit o;
  tr_positions : positions_small o;
  tr_symbols : kMaxSymbols <= max_symbols (ctx_ o);
  tr_policy : policy_ok s;
  tr_io : io_ok io;
}.

Definition thread_ok t : Prop := trading_ok (order_mgr_ t) (strategy_ t) (io_ t).

(** The connection after some sends: still up with their bytes on it, or
    torn down after them. *)
Definition up io : bool := bool_decide (state (conn io) = kConnected).

Definition link_after io io' (bytes : list Z) : Prop :=
  (up io' = up io ∧ wire (os io') = wire (os io) ++ bytes ∧ past (os io') = past (os io)) ∨
  (up io = true ∧ up io' = false ∧ wire (os io') = [] ∧
   past (os io') = past (os io) ++ [wire (os io) ++ bytes]).

Lemma link_after_refl io : link_after io io [].
Proof. left. by rewrite app_nil_r. Qed.

Lemma transmitted_io io w r io' ok :
  io_ok io → clock_only (os io) w → clock_ok w → transmitted io w r io' ok →
  io_ok io' ∧ state (conn io') = state (conn io) ∧ past (os io') = past (os io) ∧
  ∃ taken, taken `prefix_of` frame_bytes (request_frame r) ∧ wire (os io') = wire (os io) ++ taken ∧
    ∀ n, always_room (Datatypes.S n) (os io) →
      ok = true ∧ taken = frame_bytes (request_frame r) ∧ always_room n (os io').
Proof.
  intros [Hr Hck] (Es & Er & Ew & El & Ep) Hck' Ht. unfold transmitted in Ht.
  pose proof (kernel_takes_ok (sends w) (frame_bytes (request_frame r))) as [Hpre _].
  destruct (kernel_takes _ _) as [taken status] eqn:Ek. destruct Ht as (-> & Hw & Hsd & (Hb1 & Hb2 & _ & Hc & Hp & _) & (Hst & _) & _).
  simpl in *. split; [| split; [done |]; split; [by rewrite Hp |]].
  - split; [| unfold clock_ok in *; by rewrite Hc]. unfold roomy in *. by rewrite Hb1, Hb2.
  - exists taken. split; [done |]. split; [by rewrite Hw, Ew |]. intros n Hroom.
    pose proof (kernel_takes_room (os io) r n Hroom) as Hk. rewrite <- Es, Ek in Hk.
    injection Hk as -> ->. split; [done |]. split; [done |]. unfold always_room. rewrite Hsd, Es. destruct Hroom as [Hn Hr'].
    destruct (sends (os io)) as [| a l]; [simpl in Hn; lia |]. inversion_clear Hr' as [| ? ? (k & -> & Hk) Hl]. simpl in *. split; [lia | done].
Qed.

Lemma link_after_step io io1 io' b b' :
  up io1 = up io → past (os io1) = past (os io) → wire (os io1) = wire (os io) ++ b →
  link_after io1 io' b' → link_after io io' (b ++ b').
Proof.
  intros Hs Hp Hw [(H1 & H2 & H3) | (H0 & H1 & H2 & H3)]; [left | right]; rewrite app_assoc; split_and!; congruence.
Qed.

(** The teardown of a connection that is up. *)
Lemma disconnect_spec t :
  connected t = true →
  order_mgr_ (disconnect t) = order_mgr_ t ∧ strategy_ (disconnect t) = strategy_ t ∧
  state (conn_of (disconnect t)) = kDisconnected ∧ wire (os (io_ (disconnect t))) = [] ∧
  past (os (io_ (disconnect t))) = past (os (io_ t)) ++ [wire (os (io_ t))] ∧
  (io_ok (io_ t) → io_ok (io_ (disconnect t))) ∧
  tcp_rx_data_ (disconnect t) = tcp_rx_data_ t ∧ tcp_rx_read_ (disconnect t) = 0 ∧ tcp_rx_write_ (disconnect t) = 0 ∧
  stop_flag_ (disconnect t) = stop_flag_ t ∧ kill_switch_flag_ (disconnect t) = kill_switch_flag_ t ∧
  response_handler_ (disconnect t) = response_handler_ t ∧ send_handler_ (disconnect t) = send_handler_ t.
Proof.
  intros Hc. apply bool_decide_eq_true in Hc. unfold disconnect, disconnect_and_reconnect. rewrite bool_decide_true by done. cbn [negb].
  pose proof (monotonic_nanos_clock_only (close_socket (os (io_ t)))) as (_ & _ & Hw & _ & Hp).
  pose proof (monotonic_nanos_ok (close_socket (os (io_ t)))) as Hck.
  destruct (monotonic_nanos (close_socket (os (io_ t)))) as [now w]. simpl in *. split_and!; try done.
  intros [Hr Hk]. split; [done | by apply Hck].
Qed.

Lemma disconnect_link t : connected t = true → link_after (io_ t) (io_ (disconnect t)) [].
Proof.
  intros Hc. destruct (disconnect_spec t Hc) as (_ & _ & Hs & Hw & Hp & _). right. unfold up, conn_of in *. rewrite app_nil_r, Hs. by split_and!.
Qed.

Definition approved_after (o : OrderManager M) (r : Request) : Prop :=
  ∃ o1 o2 sg, rtc (om_step ndebug) o o1 ∧ warranted o1 o2 sg r.

Lemma approved_after_step o o' l :
  rtc (om_step ndebug) o o' → Forall (λ s : Sent, approved_after o' s.1) l → Forall (λ s : Sent, approved_after o s.1) l.
Proof.
  intros Hst. apply Forall_impl. intros s (o1 & o2 & sg & H & Hw). exists o1, o2, sg. split; [by etrans | done].
Qed.

(** One signal through the send handler. *)
Lemma signal_sent h sg o io s :
  trading_ok o s io → signal_of kMaxSymbols sg → next_order_id_ o + 1 < 2 ^ 64 →
  ∃ h' o' io' ok l, SendHandler.on_signal ndebug native_little h sg o io = Some (h', o', io', ok) ∧
    trading_ok o' s io' ∧ rtc (om_step ndebug) o o' ∧ next_order_id_ o' <= next_order_id_ o + 1 ∧
    state (conn io') = state (conn io) ∧ past (os io') = past (os io) ∧ wire (os io') = wire (os io) ++ sent_bytes l ∧
    Forall sent_part l ∧ Forall (λ x, approved_after o x.1) l ∧
    ∀ n, always_room (Datatypes.S n) (os io) → ok = true ∧ Forall sent_whole l ∧ always_room n (os io').
Proof.
  intros [Hi Hl Hp Hsy Hpo Hio] Hsg Hn. pose proof Hio as [Hroom Hck].
  destruct (approve_spec ndebug o (os io) sg kMaxSymbols Hi Hl Hp Hck Hsg Hsy Hn)
    as (o' & w' & req & Ha & Hi' & Hl' & Hsl & Hnp & Hnx & Hst & Hreq).
  destruct (approve_clock ndebug o (os io) sg o' w' req Ha) as [Hco Hck']. specialize (Hck' Hck).
  assert (Hkeep : ∀ io', io_ok io' → trading_ok o' s io').
  { intros io' Hio'. destruct Hsl as (_ & _ & _ & _ & _ & _ & Esy & _). split; try done; [| by rewrite Esy].
    intros i p. rewrite Hnp. apply Hp. }
  pose proof (on_signal_refines ndebug native_little h sg o io o' w' req Ha Hroom (λ r Er, proj1 (Hreq r Er))) as Href.
  destruct req as [r |].
  - destruct Href as (io' & ok & Ht & E). destruct (Hreq r eq_refl) as [Hrok Hwar].
    destruct (transmitted_io io w' r io' ok Hio Hco Hck' Ht) as (Hio' & Hs' & Hp' & taken & Hpre & Hw & Hroomy).
    exists (counted h r), o', io', ok, [(r, taken)]. split; [done |]. split; [by apply Hkeep |]. split; [done |]. split; [lia |].
    split; [done |]. split; [done |]. split; [unfold sent_bytes; simpl; by rewrite app_nil_r |].
    split; [by constructor |]. split; [constructor; [| done]; by exists o, o', sg |].
    intros n Hr. destruct (Hroomy n Hr) as (-> & -> & Hr'). split; [done |]. split; [by constructor | done].
  - exists h, o', (with_os io w'), true, []. split; [done |]. destruct Hco as (E1 & E2 & E3 & E4 & E5).
    split; [apply Hkeep; by split |]. split; [done |]. split; [lia |]. simpl. rewrite E3, E5, app_nil_r.
    split_and!; try done. intros n Hr. split; [done |]. split; [done |]. unfold always_room in *. rewrite E1. split; [lia | apply Hr].
Qed.

Lemma always_room_weaken n m w : (m <= n)%nat → always_room n w → always_room m w.
Proof. intros Hm [Hn Hr]. split; [lia | done]. Qed.

Lemma market_phase_spec updates : ∀ t,
  thread_ok t → Forall quote_ok updates → next_order_id_ (order_mgr_ t) + lenZ updates < 2 ^ 64 →
  ∃ t' l, market_phase ndebug native_little t updates = Some t' ∧ thread_ok t' ∧
    rtc (om_step ndebug) (order_mgr_ t) (order_mgr_ t') ∧ link_after (io_ t) (io_ t') (sent_bytes l) ∧
    Forall sent_part l ∧ Forall (λ s, approved_after (order_mgr_ t) s.1) l ∧
    (always_room (length updates) (os (io_ t)) → connected t = true → connected t' = true ∧ Forall sent_whole l).
Proof.
  induction updates as [| u updates IH]; intros t Hok Hq Hn.
  { exists t, []. split; [done |]. split; [done |]. split; [done |]. split; [apply link_after_refl |]. by split_and!. }
  inversion_clear Hq as [| ? ? Hu Hq']. cbn [market_phase length] in *. pose proof Hok as [Hi Hl Hp Hsy Hpo Hio].
  destruct (policy_step (strategy_ t) u Hpo Hu) as (s' & out & Em & Hpo' & Hsg). rewrite Em. cbn [mbind option_bind].
  set (t1 := with_market t s' (order_mgr_ t) (io_ t) (send_handler_ t)).
  assert (thread_ok t1) as Hok1 by by split.
  assert (next_order_id_ (order_mgr_ t1) + lenZ updates < 2 ^ 64) as Hn1 by (unfold t1; simpl; lia).
  destruct out as [sg |].
  2:{ destruct (IH t1 Hok1 Hq' Hn1) as (t' & l & E & H1 & H2 & H3 & H4 & H5 & H6). exists t', l. split_and!; try done.
      intros Hr Hc. apply H6; [| done]. by eapply always_room_weaken; [| exact Hr]; lia. }
  change (connected t1) with (connected t). destruct (connected t) eqn:Hc; cbn [negb].
  2:{ destruct (IH t1 Hok1 Hq' Hn1) as (t' & l & E & H1 & H2 & H3 & H4 & H5 & _). by exists t', l. }
  destruct (signal_sent (send_handler_ t1) sg (order_mgr_ t1) (io_ t1) s' Hok1 (Hsg sg eq_refl)) as
    (h' & o' & io' & ok & l1 & -> & Hok2 & Hst & Hnx & Hs1 & Hp1 & Hw1 & Hpart & Happ & Hroomy); [unfold t1; simpl; lia |].
  cbn [mbind option_bind]. set (t2 := with_market t1 (strategy_ t1) o' io' h').
  assert (connected t2 = true) as Hc2 by (unfold connected, conn_of, t2 in *; simpl; by rewrite Hs1).
  destruct ok.
  - destruct (IH t2 Hok2 Hq') as (t' & l & E & H1 & H2 & H3 & H4 & H5 & H6); [unfold t2; simpl; simpl in Hnx; lia |].
    exists t', (l1 ++ l). split; [done |]. split; [done |]. split; [by etrans |].
    split; [rewrite sent_bytes_app; eapply link_after_step; [unfold up; by rewrite Hs1 | done | done | done] |].
    split; [by apply Forall_app |]. split; [apply Forall_app; split; [done | by eapply approved_after_step] |].
    intros Hr _. destruct (Hroomy _ Hr) as (_ & Hwh & Hr'). destruct (H6 Hr' Hc2) as [H7 H8]. split; [done | by apply Forall_app].
  - exists (disconnect t2), l1. destruct (disconnect_spec t2 Hc2) as (Eo & Es & _ & _ & _ & Hioo & _).
    split; [done |]. split; [unfold thread_ok; rewrite Eo, Es; destruct Hok2; split; try done; by apply Hioo |].
    split; [by rewrite Eo |].
    split; [rewrite <- (app_nil_r (sent_bytes l1)); eapply link_after_step; [unfold up; by rewrite Hs1 | exact Hp1 | exact Hw1 | by apply disconnect_link] |].
    split; [done |]. split; [done |]. intros Hr _. destruct (Hroomy _ Hr) as [? _]. done.
Qed.
End Market.
End STMarket.

Module STTrade.
Import OMgr Tcp Conn Io ST OMSpec OrderPathSpec OrderOut STMarket.

(** * The clock by itself *)

Definition with_clock (w : Os) (ts : list Z) : Os :=
  {| sends := sends w; recvs := recvs w; wire := wire w; later := later w; past := past w; clock := ts |}.

(** A reading; the last one repeats. *)
Definition reading (ts : list Z) : Z * list Z :=
  match ts with [] => (0, []) | [t] => (t, [t]) | t :: ts => (t, ts) end.

Lemma monotonic_nanos_reading w :
  monotonic_nanos w = ((reading (clock w)).1, with_clock w (reading (clock w)).2).
Proof. by destruct w as [? ? ? ? ? [| t [| t2 ts]]]. Qed.

Section Trade.
Context (ndebug native_little : bool).
Context {M : Type} `{TM : Table Z OrderInfo M} `{TI : TableIter Z OrderInfo M} `{TR : TableRebuild M}.
Context {TL : TableLaws Z OrderInfo M} {TIL : TableIterLaws Z OrderInfo M}.
Context {S : Type} `{SP : StrategyPolicy S} {SL : StrategyLaws S}.
Abbreviation Thread := (StrategyThread M S).
Implicit Types (t : Thread) (o : OrderManager M) (io : Io).

(** * The specification *)

(** What the order manager makes of a signal. *)
Definition decision o (ts : list Z) (sg : Signal) : option (OrderManager M * list Z * option Request) :=
  let '(t, ts) := reading ts in
  '(o, modify) ← check_modify o sg t;
  match modify with
  | Some m => Some (o, ts, Some (ReqModify m))
  | None =>
      let '(t1, ts) := reading ts in
      let '(t2, ts) := reading ts in
      '(o, order) ← on_signal ndebug o sg t1 t2;
      Some (o, ts, option_map ReqNew order)
  end.

Fixpoint trade (s : S) o (ts : list Z) (updates : list MarketDataUpdate) : option (S * OrderManager M * list Z * list Request) :=
  match updates with
  | [] => Some (s, o, ts, [])
  | u :: updates =>
      '(s, sg) ← on_market_data s u;
      match sg with
      | None => trade s o ts updates
      | Some sg =>
          '(o, ts, r) ← decision o ts sg;
          '(s, o, ts, rs) ← trade s o ts updates;
          Some (s, o, ts, match r with Some r => r :: rs | None => rs end)
      end
  end.

(** * The refinement *)

Lemma approve_decision o w sg :
  approve ndebug o w sg = (λ '(o', ts, r), (o', with_clock w ts, r)) <$> decision o (clock w) sg.
Proof.
  unfold approve, decision. rewrite monotonic_nanos_reading. destruct (reading (clock w)) as [t ts]. cbn [fst snd].
  destruct (check_modify o sg t) as [[o1 [m |]] |]; cbn [mbind option_bind]; [done | | done].
  rewrite monotonic_nanos_reading. cbn [with_clock clock]. destruct (reading ts) as [t1 ts1]. cbn [fst snd].
  rewrite monotonic_nanos_reading. cbn [with_clock clock]. destruct (reading ts1) as [t2 ts2]. cbn [fst snd].
  by destruct (on_signal ndebug o1 sg t1 t2) as [[o2 ord] |].
Qed.

(** A signal on a connection with room: its request, whole. *)
Lemma signal_whole h sg o io s n :
  trading_ok ndebug o s io → signal_of kMaxSymbols sg → next_order_id_ o + 1 < 2 ^ 64 → always_room (Datatypes.S n) (os io) →
  ∃ o' ts r h' io', decision o (clock (os io)) sg = Some (o', ts, r) ∧
    SendHandler.on_signal ndebug native_little h sg o io = Some (h', o', io', true) ∧
    trading_ok ndebug o' s io' ∧ next_order_id_ o' <= next_order_id_ o + 1 ∧ state (conn io') = state (conn io) ∧
    clock (os io') = ts ∧ always_room n (os io') ∧ (∀ x, r = Some x → request_ok x) ∧
    wire (os io') = wire (os io) ++ match r with Some x => frame_bytes (request_frame x) | None => [] end.
Proof.
  intros [Hi Hl Hp Hsy Hpo Hio] Hsg Hn Hrm. pose proof Hio as [Hroom Hck].
  destruct (approve_spec ndebug o (os io) sg kMaxSymbols Hi Hl Hp Hck Hsg Hsy Hn)
    as (o' & w' & req & Ha & Hi' & Hl' & Hsl & Hnp & Hnx & Hst & Hreq).
  destruct (approve_clock ndebug o (os io) sg o' w' req Ha) as [Hco Hck']. specialize (Hck' Hck).
  pose proof (on_signal_refines ndebug native_little h sg o io o' w' req Ha Hroom (λ r Er, proj1 (Hreq r Er))) as Href.
  rewrite approve_decision in Ha. destruct (decision o (clock (os io)) sg) as [[[o1 ts] r1] |]; [| done].
  injection Ha as -> <- ->. exists o', ts, req.
  assert (Hkeep : ∀ io', io_ok io' → trading_ok ndebug o' s io').
  { intros io' Hio'. destruct Hsl as (_ & _ & _ & _ & _ & _ & Esy & _). split; try done; [| by rewrite Esy].
    intros i p. rewrite Hnp. apply Hp. }
  destruct req as [r |].
  - destruct Href as (io' & ok & Ht & E).
    destruct (transmitted_io io _ r io' ok Hio Hco Hck' Ht) as (Hio' & Hs' & Hp' & taken & Hpre & Hw & Hroomy).
    destruct (Hroomy n Hrm) as (-> & -> & Hr').
    assert (clock (os io') = ts) as Hc by (unfold transmitted in Ht; destruct (kernel_takes _ _) in Ht; destruct Ht as (_ & _ & _ & Hsb & _); apply Hsb).
    exists (counted h r), io'. split; [done |]. split; [done |]. split; [by apply Hkeep |]. split; [lia |].
    split; [done |]. split; [done |]. split; [done |]. split; [| done]. intros x [= <-]. by apply Hreq.
  - exists h, (with_os io (with_clock (os io) ts)). split; [done |]. split; [done |].
    split; [apply Hkeep; by split |]. split; [lia |]. simpl. rewrite app_nil_r. split; [done |]. split; [done |].
    split; [| done]. by apply (always_room_weaken (Datatypes.S n) n (os io)); [lia |].
Qed.

Definition frames (rs : list Request) : list Z := concat (frame_bytes ∘ request_frame <$> rs).

Lemma market_phase_trades updates : ∀ t,
  thread_ok ndebug t → Forall quote_ok updates → next_order_id_ (order_mgr_ t) + lenZ updates < 2 ^ 64 →
  always_room (length updates) (os (io_ t)) → connected t = true →
  ∃ t' ts rs, trade (strategy_ t) (order_mgr_ t) (clock (os (io_ t))) updates = Some (strategy_ t', order_mgr_ t', ts, rs) ∧
    market_phase ndebug native_little t updates = Some t' ∧ connected t' = true ∧ thread_ok ndebug t' ∧ Forall request_ok rs ∧
    clock (os (io_ t')) = ts ∧ wire (os (io_ t')) = wire (os (io_ t)) ++ frames rs.
Proof.
  induction updates as [| u updates IH]; intros t Hok Hq Hn Hroom Hc.
  { exists t, (clock (os (io_ t))), []. unfold frames. simpl. rewrite app_nil_r.
    split; [done |]. split; [done |]. split; [done |]. split; [done |]. split; [exact (Forall_nil_2 _) | done]. }
  inversion_clear Hq as [| ? ? Hu Hq']. cbn [market_phase trade length] in *. pose proof Hok as [Hi Hl Hp Hsy Hpo Hio].
  destruct (policy_step (strategy_ t) u Hpo Hu) as (s' & out & Em & Hpo' & Hsg). rewrite Em. cbn [mbind option_bind].
  set (t1 := with_market t s' (order_mgr_ t) (io_ t) (send_handler_ t)).
  assert (thread_ok ndebug t1) as Hok1 by by split.
  destruct out as [sg |].
  2:{ apply (IH t1); try done; [unfold t1; simpl; lia |]. by eapply always_room_weaken; [| exact Hroom]; lia. }
  change (connected t1) with (connected t). rewrite Hc. cbn [negb].
  destruct (signal_whole (send_handler_ t1) sg (order_mgr_ t1) (io_ t1) s' (length updates) Hok1 (Hsg sg eq_refl)) as
    (o' & ts & r & h' & io' & Hdec & -> & Hok2 & Hnx & Hst & Hck & Hroom2 & Hr & Hw); [unfold t1; simpl; lia | exact Hroom |].
  change (order_mgr_ t) with (order_mgr_ t1). change (io_ t) with (io_ t1). rewrite Hdec. cbn [mbind option_bind].
  set (t2 := with_market t1 (strategy_ t1) o' io' h').
  destruct (IH t2 Hok2 Hq') as (t' & ts' & rs & Htr & E & H1 & H2 & H3 & H4 & H5);
    [unfold t2; simpl; change (order_mgr_ t) with (order_mgr_ t1) in Hn; lia | exact Hroom2 | unfold connected, conn_of, t2 in *; simpl; by rewrite Hst |].
  change (clock (os (io_ t2))) with (clock (os io')) in Htr. rewrite Hck in Htr.
  change (strategy_ t2) with s' in Htr. change (order_mgr_ t2) with o' in Htr. rewrite Htr. cbn [mbind option_bind].
  exists t', ts', (match r with Some r => r :: rs | None => rs end). split; [done |]. split; [done |]. split; [done |]. split; [done |].
  change (wire (os (io_ t2))) with (wire (os io')) in H5.
  destruct r as [x |]; (split; [try constructor; auto |]; split; [done |]); rewrite H5, Hw, <- app_assoc; done.
Qed.
End Trade.
End STTrade.
