(* ===== verification/StrategyRx.v ===== *)
(** The receive path of the strategy thread ([StrategyThread.v]) refines the
    splitting of its byte stream ([ByteStream.v]): cursors, compaction and
    the loop over [recv] deliver the messages of the stream, in order, and
    keep what is left of it.

    The response phase of the strategy thread on a stream of the exchange's
    messages: [StrategyRx.v] splits the stream, [OrderPathSpec.v] says what
    each message does. *)
From S2P Require Import Prelude.
From S2P Require Import TableInterface.
From S2P Require Import TimingWheel.
From S2P Require Import TradingTypes.
From S2P Require Import Endian.
From S2P Require Import Protocol.
From S2P Require Import Framing.
From S2P Require Import ByteStream.
From S2P Require Import OrderManager.
From S2P Require Import OrderManagerTheorems.
From S2P Require Import TcpSocket.
From S2P Require Import TcpConnection.
From S2P Require Import OrderPath.
From S2P Require Import StrategyPolicy.
From S2P Require Import StrategyThread.
From S2P Require Import StrategyMarket.
From S2P Require Import OrderPathSpec.
Local Open Scope Z_scope.

Module STRx.
Import OMgr Tcp Conn Io ST.

Section Rx.
Context (ndebug native_little : bool).
Context {M : Type} `{TM : Table Z OrderInfo M} `{TI : TableIter Z OrderInfo M} `{TR : TableRebuild M} {S : Type}.
Abbreviation Thread := (StrategyThread M S).
Abbreviation Split := (split native_little).
Implicit Types t : Thread.

(** * The state and its receive buffer are independent *)

(** Only the waiting data of the socket changes. *)
Definition with_waiting t (r : list RecvAnswer) : Thread := with_io t (with_os (io_ t) (with_recvs (os (io_ t)) r)).

Lemma with_rx_id t : with_rx t (tcp_rx_data_ t) (tcp_rx_read_ t) (tcp_rx_write_ t) = t.
Proof. by destruct t. Qed.
Lemma with_waiting_id t : with_waiting t (recvs (os (io_ t))) = t.
Proof. by destruct t as [? ? [? ? [] ?] ? ? ? ? ? ? ?]. Qed.

Lemma deliver_rx t data read write m :
  deliver ndebug native_little (with_rx t data read write) m =
  (λ t', with_rx t' data read write) <$> deliver ndebug native_little t m.
Proof.
  unfold deliver. destruct (verify_protocol_version _); cbn [negb]; [| done].
  unfold read_clock, now. simpl. destruct (monotonic_nanos _) as [ts w]. simpl.
  destruct (ResponseHandler.on_tcp_message _ _ _ _ _ _ _) as [[[[h o] c] k] |]; done.
Qed.

Lemma clock_waiting (w : Os) r : monotonic_nanos (with_recvs w r) = ((monotonic_nanos w).1, with_recvs (monotonic_nanos w).2 r).
Proof. unfold monotonic_nanos. by destruct w as [? ? ? ? ? [| ? [|]]]. Qed.

Lemma deliver_waiting t r m :
  deliver ndebug native_little (with_waiting t r) m =
  (λ t', with_waiting t' r) <$> deliver ndebug native_little t m.
Proof.
  unfold deliver. destruct (verify_protocol_version _); cbn [negb]; [| done].
  unfold read_clock, now. simpl. rewrite clock_waiting. destruct (monotonic_nanos _) as [ts w]. simpl.
  destruct (ResponseHandler.on_tcp_message _ _ _ _ _ _ _) as [[[[h o] c] k] |]; done.
Qed.

Lemma deliver_fields t m t' :
  deliver ndebug native_little t m = Some t' →
  tcp_rx_data_ t' = tcp_rx_data_ t ∧ tcp_rx_read_ t' = tcp_rx_read_ t ∧ tcp_rx_write_ t' = tcp_rx_write_ t ∧
  recvs (os (io_ t')) = recvs (os (io_ t)).
Proof.
  intros E. pose proof E as E2. rewrite <- (with_rx_id t), deliver_rx, E in E2. injection E2 as <-.
  rewrite <- (with_waiting_id t), deliver_waiting in E. destruct (deliver _ _ t m) as [t2 |]; [| done].
  by injection E as <-.
Qed.

(** The messages, one after the other. *)
Fixpoint deliver_all t (ms : list ParsedMessageView) : option Thread :=
  match ms with
  | [] => Some t
  | m :: ms => t ← deliver ndebug native_little t m; deliver_all t ms
  end.

Lemma deliver_all_app t ms ms' : deliver_all t (ms ++ ms') = (t ← deliver_all t ms; deliver_all t ms').
Proof. revert t. induction ms as [| m ms IH]; intros t; [done |]. simpl. destruct (deliver _ _ t m); [apply IH | done]. Qed.

Lemma deliver_all_rx t data read write ms :
  deliver_all (with_rx t data read write) ms = (λ t', with_rx t' data read write) <$> deliver_all t ms.
Proof.
  revert t. induction ms as [| m ms IH]; intros t; [done |]. simpl. rewrite deliver_rx.
  destruct (deliver _ _ t m); [apply IH | done].
Qed.

Lemma deliver_all_waiting t r ms :
  deliver_all (with_waiting t r) ms = (λ t', with_waiting t' r) <$> deliver_all t ms.
Proof.
  revert t. induction ms as [| m ms IH]; intros t; [done |]. simpl. rewrite deliver_waiting.
  destruct (deliver _ _ t m); [apply IH | done].
Qed.

Lemma deliver_all_fields t ms t' :
  deliver_all t ms = Some t' →
  tcp_rx_data_ t' = tcp_rx_data_ t ∧ tcp_rx_read_ t' = tcp_rx_read_ t ∧ tcp_rx_write_ t' = tcp_rx_write_ t ∧
  recvs (os (io_ t')) = recvs (os (io_ t)).
Proof.
  revert t. induction ms as [| m ms IH]; intros t; simpl; [by intros [= ->] |]. intros E. inv_bind E.
  destruct (deliver_fields _ _ _ E0) as (? & ? & ? & ?). destruct (IH _ K) as (? & ? & ? & ?). split_and!; congruence.
Qed.

(** * The buffer *)

(** [p] is pending in a buffer of [size] bytes. *)
Definition pends (size : Z) t (p : list Z) : Prop :=
  ∃ pre post, tcp_rx_data_ t = pre ++ p ++ post ∧ tcp_rx_read_ t = lenZ pre ∧
    tcp_rx_write_ t = lenZ pre + lenZ p ∧ lenZ (pre ++ p ++ post) = size.

Lemma unparsed_pends size t p : pends size t p → unparsed t = Some p.
Proof.
  intros (pre & post & Hd & Hr & Hw & _). unfold unparsed. rewrite Hd, Hr, Hw.
  rewrite memcpy_from_skip by lia. apply memcpy_from_here; lia.
Qed.

Lemma parse_loop_spec size p : ∀ t fuel,
  bytes_ok p → pends size t p → (length p < fuel)%nat →
  match deliver_all t (Split p).1 with
  | Some t' => ∃ read, parse_loop ndebug native_little fuel t = Some (with_rx t' (tcp_rx_data_ t) read (tcp_rx_write_ t)) ∧
      pends size (with_rx t' (tcp_rx_data_ t) read (tcp_rx_write_ t)) (Split p).2
  | None => parse_loop ndebug native_little fuel t = None
  end.
Proof.
  remember (length p) as n eqn:Hn. revert p Hn. induction (lt_wf n) as [n _ IH]. intros p -> t fuel Hb Hp Hf.
  assert (Hstop : Split p = ([], p) → unpack_message native_little p = Some None →
    ∃ read, (if bool_decide (tcp_rx_write_ t - tcp_rx_read_ t >= kMessageHeaderSize)
             then view ← unparsed t; parsed ← unpack_message native_little view;
                  match parsed with None => Some t | Some _ => None end
             else Some t) = Some (with_rx t (tcp_rx_data_ t) read (tcp_rx_write_ t)) ∧
      pends size (with_rx t (tcp_rx_data_ t) read (tcp_rx_write_ t)) p).
  { intros _ Hu. exists (tcp_rx_read_ t). rewrite with_rx_id. split; [| done]. case_bool_decide; [| done].
    rewrite (unparsed_pends _ _ _ Hp). simpl. by rewrite Hu. }
  destruct fuel as [| fuel]; [lia |]. cbn [parse_loop].
  destruct (unpack_message_total native_little p Hb) as [[m |] Hu].
  2:{ rewrite split_none by done. destruct (Hstop (split_none _ _ Hb Hu) Hu) as (read & Hrun & Hpr). simpl. exists read.
      split; [| done]. case_bool_decide; [| done]. rewrite (unparsed_pends _ _ _ Hp) in *. simpl in *. by rewrite Hu in *. }
  destruct (unpack_cut native_little p m Hb Hu) as (f & rest & -> & Hfl & Hf16 & Hfo & Hup).
  apply Forall_app in Hb as [_ Hrest]. rewrite split_some with (m := m) by done. cbn [fst snd deliver_all].
  rewrite bool_decide_true; [| destruct Hp as (pre & post & _ & -> & -> & _); rewrite length_app; lia].
  rewrite (unparsed_pends _ _ _ Hp). cbn [mbind option_bind]. rewrite Hu. cbn [mbind option_bind].
  destruct (deliver ndebug native_little t m) as [t1 |] eqn:Ed; [| done]. cbn [mbind option_bind].
  destruct (deliver_fields _ _ _ Ed) as (Ed1 & Er1 & Ew1 & _). fold (frame_size m).
  set (t2 := with_rx t1 _ _ _).
  assert (pends size t2 rest) as Hp2.
  { destruct Hp as (pre & post & Hd & Hr & Hw & Hs). exists (pre ++ f), post. unfold t2. simpl.
    rewrite Ed1, Er1, Ew1, Hd, Hr, Hw. rewrite <- !app_assoc in *. rewrite !length_app in *. split_and!; [done | lia | lia | done]. }
  unfold kMessageHeaderSize in Hf16. rewrite length_app in Hf, IH.
  specialize (IH (length rest) ltac:(lia) rest eq_refl t2 fuel Hrest Hp2 ltac:(lia)).
  unfold t2 in IH. rewrite deliver_all_rx in IH. fold t2 in IH.
  destruct (deliver_all t1 (Split rest).1) as [t' |]; [| exact IH].
  destruct IH as (read & Hrun & Hpr). exists read. rewrite Hrun. simpl in *. rewrite Ed1, Ew1 in *. done.
Qed.

Lemma make_room_spec size t p :
  pends size t p → lenZ p < size →
  ∃ data read write, make_room t = Some (Some (with_rx t data read write)) ∧
    pends size (with_rx t data read write) p ∧ write < size ∧ lenZ data = size.
Proof.
  intros Hp Hlt. pose proof (unparsed_pends _ _ _ Hp) as Hu. destruct Hp as (pre & post & Hd & Hr & Hw & Hs).
  unfold make_room. rewrite Hd, Hs. case_bool_decide as Hfull.
  - rewrite !length_app in Hs. rewrite bool_decide_true by lia. rewrite Hu. cbn [mbind option_bind].
    rewrite memcpy_to_here by (rewrite ?length_app; lia). cbn [mbind option_bind].
    eexists _, _, _. split; [done |]. unfold pends. simpl. rewrite !length_app, length_drop, !length_app.
    split; [| lia]. exists [], (drop (length p) (pre ++ p ++ post)). simpl. rewrite !length_app, length_drop, !length_app.
    split_and!; [done | done | lia | lia].
  - exists (tcp_rx_data_ t), (tcp_rx_read_ t), (tcp_rx_write_ t). rewrite with_rx_id. split; [done |].
    split; [by exists pre, post |]. rewrite Hd. split; [lia | done].
Qed.

(** The bytes of one receive. *)
Lemma take_bytes_spec size t p bs :
  bytes_ok p → bytes_ok bs → pends size t p → lenZ bs <= size - tcp_rx_write_ t →
  match deliver_all t (Split (p ++ bs)).1 with
  | Some t' => ∃ data read write, take_bytes ndebug native_little t bs = Some (with_rx t' data read write) ∧
      pends size (with_rx t' data read write) (Split (p ++ bs)).2
  | None => take_bytes ndebug native_little t bs = None
  end.
Proof.
  intros Hpo Hbo (pre & post & Hd & Hr & Hw & Hs) Hroom. unfold take_bytes. rewrite Hd, Hw.
  rewrite !length_app in Hs. rewrite !memcpy_to_skip by lia. rewrite memcpy_to_here by lia. cbn [fmap option_fmap option_map mbind option_bind].
  set (t1 := with_rx t _ _ _).
  assert (pends size t1 (p ++ bs)) as Hp1.
  { exists pre, (drop (length bs) post). unfold t1. simpl. rewrite <- !app_assoc, !length_app, length_drop.
    split_and!; [done | done | lia | lia]. }
  assert (bytes_ok (p ++ bs)) as Ho by by apply Forall_app.
  assert (Datatypes.S (Z.to_nat (tcp_rx_write_ t1 - tcp_rx_read_ t1)) > length (p ++ bs))%nat as Hfuel.
  { unfold t1. simpl. rewrite length_app. lia. }
  pose proof (parse_loop_spec size (p ++ bs) t1 _ Ho Hp1 Hfuel) as H. unfold t1 in H at 1. rewrite deliver_all_rx in H.
  destruct (deliver_all t (Split (p ++ bs)).1) as [t' |]; cbn [fmap option_fmap option_map] in H; [| by rewrite H].
  destruct H as (read & -> & Hp2). cbn [mbind option_bind]. case_bool_decide as He; [| by eexists _, _, _].
  eexists _, _, _. split; [done |]. destruct Hp2 as (pre2 & post2 & Hd2 & Hr2 & Hw2 & Hs2). simpl in *.
  assert ((Split (p ++ bs)).2 = []) as Hnil by (apply length_zero_iff_nil; lia). rewrite Hnil in *.
  by exists [], (pre2 ++ post2).
Qed.
(** * The loop over [recv] *)

(** The waiting segments after a receive of at most [n] bytes. *)
Definition rest_segments (n : nat) (b : list Z) (segments : list (list Z)) : list (list Z) :=
  if bool_decide (length b <= n)%nat then segments else drop n b :: segments.

Lemma rest_segments_spec n b segments :
  (0 < n)%nat → b ≠ [] → bytes_ok b → Forall bytes_ok segments → Forall (λ x, x ≠ []) segments →
  recv_loop (Arrived <$> b :: segments) n =
    (Arrived <$> rest_segments n b segments, {| rr_status := rOk; bytes_received := take n b; rr_err_no := None |}) ∧
  take n b ++ concat (rest_segments n b segments) = b ++ concat segments ∧
  (recv_size (Arrived <$> rest_segments n b segments) < recv_size (Arrived <$> b :: segments))%nat ∧
  Forall bytes_ok (rest_segments n b segments) ∧ Forall (λ x, x ≠ []) (rest_segments n b segments).
Proof.
  intros Hn Hb Hbo Hso Hs. unfold rest_segments.
  assert (take n b ≠ []) as Ht by (destruct b, n; try done; lia).
  cbn [fmap list_fmap recv_loop]. rewrite bool_decide_false by done. unfold unread.
  destruct (bool_decide_reflect (length b <= n)%nat) as [Hle | Hgt].
  - rewrite take_ge by lia. split_and!; try done. simpl. lia.
  - split; [done |]. split; [cbn [concat]; by rewrite app_assoc, take_drop |]. split.
    + unfold recv_size. cbn [fmap list_fmap sum_list_with answer_size]. rewrite length_drop. lia.
    + split; constructor; try done; [by apply Forall_drop |].
      intros Hd. apply (f_equal length) in Hd. rewrite length_drop in Hd. simpl in Hd. lia.
Qed.

Lemma receive_loop_spec size : ∀ fuel t p segments,
  bytes_ok p → Forall bytes_ok segments → Forall (λ x, x ≠ []) segments →
  pends size t p → Split p = ([], p) → recvs (os (io_ t)) = Arrived <$> segments →
  fits native_little size (p ++ concat segments) → (recv_size (Arrived <$> segments) < fuel)%nat →
  match deliver_all (with_waiting t []) (Split (p ++ concat segments)).1 with
  | Some t' => ∃ data read write, receive_loop ndebug native_little fuel t = Some (with_rx t' data read write) ∧
      pends size (with_rx t' data read write) (Split (p ++ concat segments)).2
  | None => receive_loop ndebug native_little fuel t = None
  end.
Proof.
  induction fuel as [| fuel IH]; intros t p segments Hpo Hso Hs Hp Hidle Hw Hfit Hfuel; [lia |].
  assert (lenZ p < size) as Hroom by (pose proof (Hfit p (concat segments) eq_refl) as H; by rewrite Hidle in H).
  destruct (make_room_spec size t p Hp Hroom) as (data & read & write & Hmr & Hp1 & Hwr & Hld).
  cbn [receive_loop]. rewrite Hmr. cbn [mbind option_bind]. unfold receive_nonblocking.
  change (os (io_ (with_rx t data read write))) with (os (io_ t)). rewrite Hw.
  change (tcp_rx_data_ (with_rx t data read write)) with data. change (tcp_rx_write_ (with_rx t data read write)) with write.
  rewrite Hld, bool_decide_true by lia. cbn [mbind option_bind assertM].
  set (n := Z.to_nat (Z.min (size - write) SSIZE_MAX)).
  assert (0 < n)%nat as Hn by (unfold n, SSIZE_MAX; lia).
  destruct segments as [| b segments].
  { cbn [fmap list_fmap recv_loop concat]. simpl. rewrite app_nil_r, Hidle. simpl. by exists data, read, write. }
  inversion_clear Hso as [| ? ? Hbo Hso']. inversion_clear Hs as [| ? ? Hb Hs'].
  destruct (rest_segments_spec n b segments Hn Hb Hbo Hso' Hs') as (-> & Hcat & Hsize & Hro & Hrn).
  set (segs := rest_segments n b segments) in *. cbn [concat]. cbn [concat] in Hfit. rewrite <- Hcat in *. cbn [rr_status bytes_received mbind option_bind].
  set (t2 := with_io (with_rx t data read write) _).
  assert (bytes_ok (take n b)) as Hto by by apply Forall_take.
  assert (bytes_ok (concat segs)) as Hco by (clear -Hro; induction Hro; [constructor | by apply Forall_app]).
  assert (lenZ (take n b) <= size - tcp_rx_write_ t2) as Hlen.
  { unfold t2. simpl. rewrite length_take. unfold n. lia. }
  pose proof (take_bytes_spec size t2 p (take n b) Hpo Hto Hp1 Hlen) as Htb.
  change t2 with (with_rx (with_waiting t (Arrived <$> segs)) data read write) in Htb at 1.
  rewrite deliver_all_rx, deliver_all_waiting in Htb.
  assert (bytes_ok (p ++ take n b)) as Hpto by by apply Forall_app.
  rewrite app_assoc, (split_app native_little (p ++ take n b)) by done. cbn [fst snd]. rewrite deliver_all_app, !deliver_all_waiting.
  destruct (deliver_all t (Split (p ++ take n b)).1) as [t' |]; cbn [fmap option_fmap option_map mbind option_bind] in *.
  2:{ by rewrite Htb. }
  destruct Htb as (data3 & read3 & write3 & -> & Hp3). cbn [mbind option_bind].
  set (t3 := with_rx _ data3 read3 write3) in *.
  destruct (split_step native_little (p ++ take n b) Hpto) as (c & Hc & Hcb & _ & Hx).
  specialize (IH t3 (Split (p ++ take n b)).2 segs (split_rest_ok native_little _ Hpto) Hro Hrn Hp3 (split_idle native_little _ Hpto) eq_refl).
  change (with_waiting t3 []) with (with_rx (with_waiting t' []) data3 read3 write3) in IH. rewrite deliver_all_rx in IH.
  assert (Hgoal : match (λ t', with_rx t' data3 read3 write3) <$> deliver_all (with_waiting t' []) (Split ((Split (p ++ take n b)).2 ++ concat segs)).1 with
    | Some t'' => ∃ data read write, receive_loop ndebug native_little fuel t3 = Some (with_rx t'' data read write) ∧
        pends size (with_rx t'' data read write) (Split ((Split (p ++ take n b)).2 ++ concat segs)).2
    | None => receive_loop ndebug native_little fuel t3 = None end).
  { apply IH; [| lia]. intros q r Hq. assert (bytes_ok (q ++ r)) as Hqr.
    { rewrite <- Hq. apply Forall_app. split; [by apply split_rest_ok | done]. }
    apply Forall_app in Hqr as [Hqo _]. pose proof (Hx q Hqo) as Hsq.
    specialize (Hfit (c ++ q) r). rewrite Hsq in Hfit. cbn [snd] in Hfit. apply Hfit.
    rewrite <- app_assoc, <- Hq, (app_assoc c), <- Hc. by rewrite <- app_assoc. }
  destruct (deliver_all (with_waiting t' []) _) as [t'' |]; [| exact Hgoal].
  destruct Hgoal as (data4 & read4 & write4 & Hrun & Hp4). exists data4, read4, write4. by rewrite Hrun.
Qed.
End Rx.
End STRx.

Module STReceive.
Import OMgr Tcp Conn Io ST ResponseHandler OrderPathSpec OrderOut OrderIn STRx STMarket.

Section Receive.
Context (ndebug native_little : bool).
Context {M : Type} `{TM : Table Z OrderInfo M} `{TI : TableIter Z OrderInfo M} `{TR : TableRebuild M} {S : Type}.
Abbreviation Thread := (StrategyThread M S).
Implicit Types t : Thread.

Definition streak_of t : Z := consecutive_rejects_ (response_handler_ t).

(** The thread after some responses, [o] being its order manager then. *)
Record answered t (rs : list Response) (o : OrderManager M) t' : Prop := {
  an_manager : order_mgr_ t' = o;
  an_kill : kill_switch_flag_ t' = kill_switch_flag_ t || tripped (streak_of t) rs;
  an_streak : streak_of t' = streak_after (streak_of t) rs;
  an_handler : handler_ok (response_handler_ t');
  an_rest : strategy_ t' = strategy_ t ∧ stop_flag_ t' = stop_flag_ t ∧ send_handler_ t' = send_handler_ t;
  an_link : clock_only (os (io_ t)) (os (io_ t')) ∧ up (io_ t') = up (io_ t) ∧
    scratch (io_ t') = scratch (io_ t) ∧ tcp_tx_buf (io_ t') = tcp_tx_buf (io_ t);
}.

Lemma deliver_response t r :
  handler_ok (response_handler_ t) → response_ok r → 0 <= streak_of t → streak_of t + 1 < 2 ^ 32 →
  match match event_of r with Some ev => handle ndebug (order_mgr_ t) ev | None => Some (order_mgr_ t) end with
  | Some o => ∃ t', deliver ndebug native_little t (frame_view (response_frame r)) = Some t' ∧ answered t [r] o t'
  | None => deliver ndebug native_little t (frame_view (response_frame r)) = None
  end.
Proof.
  intros Hh Hr H0 H1. unfold deliver.
  change (mh_version (pmv_header (frame_view (response_frame r)))) with (fm_version (response_frame r)).
  unfold verify_protocol_version. destruct (bool_decide_reflect (fm_version (response_frame r) = kProtocolVersion)) as [Hv | Hv]; cbn [negb].
  - unfold read_clock, now. pose proof (monotonic_nanos_clock_only (os (io_ t))) as Hco. destruct (monotonic_nanos (os (io_ t))) as [ts w].
    cbn [with_io with_order_io with_market response_handler_ order_mgr_ conn_of io_]. 
    rewrite (on_message_spec ndebug native_little (TI := TI)) by done. destruct (match event_of r with Some ev => _ | None => _ end) as [o |]; [| done].
    cbn [mbind option_bind]. eexists. split; [reflexivity |].
    destruct (counted_in_streak (response_handler_ t) r H0 H1) as [Hs _].
    split; simpl; try done.
    + unfold streak_of. rewrite orb_false_r. done.
    + by apply counted_in_ok.
    + split; [exact Hco |]. split; [by destruct r | done].
  - destruct r as [| | | | | | | | f | f | f]; try done; try (by destruct Hr as (_ & Hv' & _)).
    simpl. eexists. split; [reflexivity |]. split; simpl; try done. by rewrite orb_true_r.
Qed.

Lemma answered_trans t1 t2 t3 r rs o1 o2 : answered t1 [r] o1 t2 → answered t2 rs o2 t3 → answered t1 (r :: rs) o2 t3.
Proof.
  intros [A1 A2 A3 A4 (A5 & A6 & A7) (A8 & A9 & A10 & A11)] [B1 B2 B3 B4 (B5 & B6 & B7) (B8 & B9 & B10 & B11)].
  simpl in A2, A3. split; try done.
  - rewrite B2, A2, A3. simpl. by rewrite orb_false_r, orb_assoc.
  - rewrite B3, A3. done.
  - split_and!; congruence.
  - split; [by eapply clock_only_trans |]. split_and!; congruence.
Qed.

Lemma deliver_responses rs : ∀ t,
  handler_ok (response_handler_ t) → Forall response_ok rs → 0 <= streak_of t → streak_of t + lenZ rs < 2 ^ 32 →
  match handle_all ndebug (order_mgr_ t) (omap event_of rs) with
  | Some o => ∃ t', deliver_all ndebug native_little t (frame_view ∘ response_frame <$> rs) = Some t' ∧ answered t rs o t'
  | None => deliver_all ndebug native_little t (frame_view ∘ response_frame <$> rs) = None
  end.
Proof.
  induction rs as [| r rs IH]; intros t Hh Hrs H0 H1.
  { simpl. exists t. split; [done |]. split; try done. by rewrite orb_false_r. }
  inversion_clear Hrs as [| ? ? Hr Hrs']. cbn [length] in H1.
  pose proof (deliver_response t r Hh Hr H0 ltac:(lia)) as Hd.
  assert (Hall : handle_all ndebug (order_mgr_ t) (omap event_of (r :: rs)) =
    (o ← match event_of r with Some ev => handle ndebug (order_mgr_ t) ev | None => Some (order_mgr_ t) end; handle_all ndebug o (omap event_of rs))).
  { cbn [omap list_omap]. by destruct (event_of r). }
  rewrite Hall. cbn [fmap list_fmap deliver_all]. change ((frame_view ∘ response_frame) r) with (frame_view (response_frame r)).
  destruct (match event_of r with Some ev => _ | None => _ end) as [o |]; cbn [mbind option_bind]; [| by rewrite Hd].
  destruct Hd as (t1 & -> & Ha). cbn [mbind option_bind]. pose proof Ha as [Hm _ Hs Hh1 _ _]. simpl in Hs.
  destruct (counted_in_streak (response_handler_ t) r H0 ltac:(unfold streak_of in *; lia)) as [_ Hb]. fold (streak_of t) in Hb.
  specialize (IH t1 Hh1 Hrs' ltac:(lia) ltac:(lia)). rewrite Hm in IH.
  destruct (handle_all ndebug o (omap event_of rs)) as [o2 |]; [| exact IH].
  destruct IH as (t2 & E & Ha2). exists t2. split; [exact E |]. by eapply answered_trans.
Qed.
End Receive.
End STReceive.
