(* ===== verification/StrategyLink.v ===== *)
(** The phases of the strategy thread that keep the connection
    ([StrategyThread.v]): batches of cancellations, heartbeats, timeouts of a
    connection attempt, reconnection.  Each returns, whatever the kernel
    answers, keeps the invariants, and what it hands to the socket is a
    sequence of whole or cut requests.

    A kill switch that is draining: what can, and what cannot, change it.

    Whatever the strategy thread does ([StrategyThread.v]), once its order
    manager is draining only a cancel response moves the drain, and the
    thread sends nothing but heartbeats.  The bytes of every connection, the
    present one and those to come, are split as in [ByteStream.v]; [drained_of]
    says that no cancel response is among them. *)
From S2P Require Import Prelude.
From S2P Require Import TableInterface.
From S2P Require Import TimingWheel.
From S2P Require Import TradingTypes.
From S2P Require Import Endian.
From S2P Require Import Protocol.
From S2P Require Import Framing.
From S2P Require Import ByteStream.
From S2P Require Import OrderManager.
From S2P Require Import OrderManagerSpec.
From S2P Require Import OrderManagerResponses.
From S2P Require Import OrderManagerTheorems.
From S2P Require Import TcpSocket.
From S2P Require Import TcpConnection.
From S2P Require Import OrderPath.
From S2P Require Import StrategyPolicy.
From S2P Require Import StrategyThread.
From S2P Require Import OrderPathSpec.
From S2P Require Import StrategyMarket.
From S2P Require Import StrategyRx.
Local Open Scope Z_scope.
Local Open Scope array_scope.

Module STLink.
Import OMgr Tcp Conn Io ST OMSpec OMResp OMTime OrderPathSpec OrderOut STMarket.

Section Link.
Context (ndebug native_little : bool).
Context {M : Type} `{TM : Table Z OrderInfo M} `{TI : TableIter Z OrderInfo M} `{TR : TableRebuild M}.
Context {S : Type}.
Abbreviation Thread := (StrategyThread M S).
Implicit Types (t : Thread) (o : OrderManager M) (io : Io).

(** What the connection phases leave alone. *)
Definition same_core t t' : Prop :=
  strategy_ t' = strategy_ t ∧ order_mgr_ t' = order_mgr_ t ∧ tcp_rx_data_ t' = tcp_rx_data_ t ∧
  kill_switch_flag_ t' = kill_switch_flag_ t ∧ response_handler_ t' = response_handler_ t ∧
  send_handler_ t' = send_handler_ t.

Lemma same_core_refl t : same_core t t.
Proof. by repeat split. Qed.
Lemma same_core_trans t1 t2 t3 : same_core t1 t2 → same_core t2 t3 → same_core t1 t3.
Proof. unfold same_core. intros. destruct_and!. split_and!; congruence. Qed.

Lemma disconnect_idle t : connected t = false → disconnect t = t.
Proof.
  intros Hc. apply bool_decide_eq_false in Hc. unfold disconnect, disconnect_and_reconnect. rewrite bool_decide_false by done.
  by destruct t as [? ? [? ? ? ?] ? ? ? ? ? ? ?].
Qed.

Lemma disconnect_core t : same_core t (disconnect t) ∧ stop_flag_ (disconnect t) = stop_flag_ t.
Proof.
  destruct (connected t) eqn:Hc; [| by rewrite disconnect_idle]. destruct (disconnect_spec t Hc) as (? & ? & ? & ? & ? & ? & ? & ? & ? & ? & ? & ? & ?).
  by repeat split.
Qed.

Lemma disconnect_io t : io_ok (io_ t) → io_ok (io_ (disconnect t)).
Proof.
  intros Hio. destruct (connected t) eqn:Hc; [| by rewrite disconnect_idle].
  destruct (disconnect_spec t Hc) as (_ & _ & _ & _ & _ & H & _). by apply H.
Qed.

Lemma disconnect_after t io b : link_after io (io_ t) b → link_after io (io_ (disconnect t)) b.
Proof.
  intros Hl. destruct (connected t) eqn:Hc; [| by rewrite disconnect_idle].
  destruct (disconnect_spec t Hc) as (_ & _ & Hs & Hw & Hp & _). assert (up (io_ t) = true) as Hc' by exact Hc. clear Hc.
  destruct Hl as [(H1 & H2 & H3) | (H0 & H1 & H2 & H3)]; unfold conn_of in *; [| congruence].
  right. rewrite Hp, H2, H3. split; [congruence |]. split; [unfold up; by rewrite Hs | done].
Qed.

Lemma read_clock_spec t : same_core t (read_clock t).2 ∧ stop_flag_ (read_clock t).2 = stop_flag_ t ∧
  clock_only (os (io_ t)) (os (io_ (read_clock t).2)) ∧ conn (io_ (read_clock t).2) = conn (io_ t) ∧
  (io_ok (io_ t) → 0 <= (read_clock t).1 < 2 ^ 63 ∧ io_ok (io_ (read_clock t).2)) ∧
  tcp_rx_read_ (read_clock t).2 = tcp_rx_read_ t ∧ tcp_rx_write_ (read_clock t).2 = tcp_rx_write_ t.
Proof.
  unfold read_clock, now. pose proof (monotonic_nanos_clock_only (os (io_ t))) as Hc.
  pose proof (monotonic_nanos_ok (os (io_ t))) as Ho. destruct (monotonic_nanos _) as [ts w]. simpl in *.
  split; [by repeat split |]. split; [done |]. split; [done |]. split; [done |]. split; [| done].
  intros [Hr Hk]. destruct (Ho Hk) as [? ?]. split; [done | by split].
Qed.

(** * Cancellations *)

Lemma send_cancels_spec cs : ∀ t,
  io_ok (io_ t) → connected t = true → Forall CancelOrder_ok cs →
  ∃ t' l, send_cancels native_little t cs = Some t' ∧ same_core t t' ∧ stop_flag_ t' = stop_flag_ t ∧ io_ok (io_ t') ∧
    link_after (io_ t) (io_ t') (sent_bytes l) ∧ Forall sent_part l ∧ l.*1 `prefix_of` (ReqCancel <$> cs) ∧
    (∀ n, always_room (length cs + n) (os (io_ t)) →
       connected t' = true ∧ Forall sent_whole l ∧ l.*1 = ReqCancel <$> cs ∧ always_room n (os (io_ t'))).
Proof.
  induction cs as [| c cs IH]; intros t Hio Hc Hcs.
  { exists t, []. split; [done |]. split; [apply same_core_refl |]. split; [done |]. split; [done |]. split; [apply link_after_refl |].
    split; [done |]. split; [done |]. by intros n Hn. }
  inversion_clear Hcs as [| ? ? Hco Hcs']. cbn [send_cancels].
  destruct (transmit native_little (io_ t) (os (io_ t)) (ReqCancel c) Hco ltac:(done) (proj1 Hio)) as (io' & ok & Ht & Hs).
  assert (with_os (io_ t) (os (io_ t)) = io_ t) as Eio by by destruct (io_ t). rewrite Eio in Hs. rewrite Hs. cbn [mbind option_bind default from_option].
  destruct (transmitted_io (io_ t) (os (io_ t)) (ReqCancel c) io' ok Hio ltac:(done) (proj2 Hio) Ht)
    as (Hio' & Hs' & Hp' & taken & Hpre & Hw & Hroomy).
  set (t1 := with_io t io'). assert (connected t1 = true) as Hc1 by (unfold connected, conn_of, t1 in *; simpl; by rewrite Hs').
  set (s := (ReqCancel c, taken)).
  assert (Forall sent_part [s]) as Hpart by (constructor; [by split | done]).
  destruct ok.
  - destruct (IH t1 Hio' Hc1 Hcs') as (t' & l & E & Hsc & Hst & Hio2 & Hl & Hsp & Hpf & Hr).
    exists t', (s :: l). split; [done |]. split; [by eapply same_core_trans; [| exact Hsc]; repeat split |]. split; [done |]. split; [done |].
    split; [eapply (link_after_step (io_ t) io' _ taken); [unfold up; by rewrite Hs' | done | done | done] |]. split; [by constructor; [inversion Hpart |] |].
    split; [by apply prefix_cons |]. intros n Hn. destruct (Hroomy (length cs + n)%nat) as (_ & Hwh & Hr'); [done |].
    destruct (Hr n Hr') as (? & ? & Heq & ?). split; [done |]. split; [by constructor |]. split; [cbn [fmap list_fmap]; by rewrite Heq | done].
  - exists (disconnect t1), [s]. split; [done |]. destruct (disconnect_core t1) as [Hsc Hst].
    split; [by eapply same_core_trans; [| exact Hsc]; repeat split |]. split; [done |]. split; [by apply disconnect_io |].
    split; [apply disconnect_after; left; unfold sent_bytes, up; simpl; by rewrite app_nil_r, Hs' |].
    split; [done |]. split; [cbn [fmap list_fmap]; apply prefix_cons, prefix_nil |].
    intros n Hn. by destruct (Hroomy (length cs + n)%nat) as (? & _).
Qed.

Context {TL : TableLaws Z OrderInfo M} {TIL : TableIterLaws Z OrderInfo M}.

Lemma cancels_ok o (m : gmap Z OrderInfo) now cs :
  inv ndebug o → m ⊆ orders o → 0 <= now < 2 ^ 63 → cs ≡ₚ cancel_of now <$> map_to_list m → Forall CancelOrder_ok cs.
Proof.
  intros [Hc _] Hm Hn ->. apply Forall_forall. intros c Hin. apply list_elem_of_In, list_elem_of_fmap in Hin as ([k i] & -> & Hki).
  apply elem_of_map_to_list in Hki. eapply lookup_weaken in Hki; [| exact Hm].
  destruct (v_info _ _ Hc k i Hki) as (Hk & Hs & _). pose proof (v_next _ _ Hc). pose proof (c_symbols _ (v_config _ _ Hc)).
  unfold CancelOrder_ok, cancel_of. simpl. split; [mlia |]. split; mlia.
Qed.

(** What a phase that sends cancellations guarantees. *)
Record cancelling t t' (l : list Sent) : Prop := {
  ca_strategy : strategy_ t' = strategy_ t;
  ca_flags : stop_flag_ t' = stop_flag_ t ∧ kill_switch_flag_ t' = kill_switch_flag_ t;
  ca_handlers : response_handler_ t' = response_handler_ t ∧ send_handler_ t' = send_handler_ t;
  ca_io : io_ok (io_ t');
  ca_inv : inv ndebug (order_mgr_ t');
  ca_step : rtc (om_step ndebug) (order_mgr_ t) (order_mgr_ t');
  ca_limits : same_limits (order_mgr_ t) (order_mgr_ t');
  ca_next : next_order_id_ (order_mgr_ t') = next_order_id_ (order_mgr_ t);
  ca_positions : net_position (ctx_ (order_mgr_ t')) = net_position (ctx_ (order_mgr_ t));
  ca_orders : orders (order_mgr_ t') ⊆ orders (order_mgr_ t);
  ca_link : link_after (io_ t) (io_ t') (sent_bytes l);
  ca_parts : Forall sent_part l;
  ca_tracked : Forall (λ s : Sent, ∃ now k i, orders (order_mgr_ t) !! k = Some i ∧ s.1 = ReqCancel (cancel_of now (k, i))) l;
}.

Lemma cancelling_refl t : io_ok (io_ t) → inv ndebug (order_mgr_ t) → cancelling t t [].
Proof. intros H1 H2. split; try done; apply link_after_refl. Qed.

(** The common part of the two phases that cancel. *)
Lemma cancel_batch t t1 o' (m : gmap Z OrderInfo) now count :
  t1 = (read_clock t).2 → 0 <= now < 2 ^ 63 → io_ok (io_ t) → connected t = true → inv ndebug (order_mgr_ t) →
  m ⊆ orders (order_mgr_ t) → take (Z.to_nat count) (cancel_buf (ctx_ o')) ≡ₚ cancel_of now <$> map_to_list m →
  inv ndebug o' → rtc (om_step ndebug) (order_mgr_ t) o' → same_limits (order_mgr_ t) o' →
  next_order_id_ o' = next_order_id_ (order_mgr_ t) → net_position (ctx_ o') = net_position (ctx_ (order_mgr_ t)) →
  orders o' ⊆ orders (order_mgr_ t) →
  ∃ t' l, send_cancels native_little (with_order_io t1 o' (io_ t1)) (take (Z.to_nat count) (cancel_buf (ctx_ o'))) = Some t' ∧
    cancelling t t' l ∧ order_mgr_ t' = o' ∧ (length l <= size m)%nat ∧
    (∀ n, always_room (size m + n) (os (io_ t)) → connected t' = true ∧ Forall sent_whole l ∧ always_room n (os (io_ t')) ∧
       l.*1 ≡ₚ (λ kv, ReqCancel (cancel_of now kv)) <$> map_to_list m).
Proof.
  intros -> Hnow Hio Hc Hinv Hm Hperm Hi' Hst Hsl Hnx Hnp Hsub.
  destruct (read_clock_spec t) as ((Es & _ & _ & Ef & Er & Eh) & Estop & Hco & Econn & Hck & _). destruct (Hck Hio) as [_ Hio1].
  set (t1 := (read_clock t).2) in *. set (t2 := with_order_io t1 o' (io_ t1)).
  assert (connected t2 = true) as Hc2 by (unfold connected, conn_of, t2 in *; simpl; by rewrite Econn).
  pose proof (cancels_ok _ m now _ Hinv Hm Hnow Hperm) as Hcs.
  destruct (send_cancels_spec _ t2 Hio1 Hc2 Hcs) as (t' & l & E & (F1 & F2 & _ & F4 & F5 & F6) & Hst' & Hio' & Hl & Hp & Hpre & Hroom).
  exists t', l. split; [done |]. destruct Hco as (C1 & C2 & C3 & C4 & C5).
  assert (Hlk : link_after (io_ t) (io_ t') (sent_bytes l)).
  { eapply (link_after_step (io_ t) (io_ t2) _ []); [by unfold up, t2; simpl; rewrite Econn | done | by rewrite app_nil_r | exact Hl]. }
  assert (length (take (Z.to_nat count) (cancel_buf (ctx_ o'))) = size m) as Hlen.
  { rewrite Hperm, length_fmap. apply length_map_to_list. }
  split; [| split; [done |]; split].
  - split; rewrite ?F1, ?F2, ?F4, ?F5, ?F6, ?Hst'; try done.
    apply Forall_forall. intros s Hs. apply list_elem_of_In in Hs.
    assert (s.1 ∈ l.*1) as Hs1 by (apply list_elem_of_fmap; by exists s).
    destruct Hpre as [rest Hrest]. assert (s.1 ∈ ReqCancel <$> take (Z.to_nat count) (cancel_buf (ctx_ o'))) as Hs2 by (rewrite Hrest; apply elem_of_app; by left).
    rewrite Hperm in Hs2. apply list_elem_of_fmap in Hs2 as (c & Hsc & Hin). apply list_elem_of_fmap in Hin as ([k i] & -> & Hki).
    apply elem_of_map_to_list in Hki. exists now, k, i. split; [by eapply lookup_weaken | done].
  - apply prefix_length in Hpre. rewrite !length_fmap, Hlen in Hpre. done.
  - intros n Hn. destruct (Hroom n) as (H1 & H2 & H3 & H4).
    { rewrite Hlen. unfold always_room in *. change (os (io_ t2)) with (os (io_ t1)). by rewrite C1. }
    split; [done |]. split; [done |]. split; [done |]. rewrite H3, Hperm. by rewrite <- list_fmap_compose.
Qed.

Lemma kill_switch_phase_spec t :
  io_ok (io_ t) → inv ndebug (order_mgr_ t) →
  ∃ t' l, kill_switch_phase ndebug native_little t = Some t' ∧ cancelling t t' l ∧
    orders (order_mgr_ t') = orders (order_mgr_ t) ∧
    if kill_switch_flag_ t && negb (is_killed (order_mgr_ t)) && connected t
    then is_killed (order_mgr_ t') = true ∧
         (always_room (size (orders (order_mgr_ t))) (os (io_ t)) →
          connected t' = true ∧ Forall sent_whole l ∧
          ∃ now, l.*1 ≡ₚ (λ kv, ReqCancel (cancel_of now kv)) <$> map_to_list (orders (order_mgr_ t)))
    else t' = t ∧ l = [].
Proof.
  intros Hio Hinv. unfold kill_switch_phase. destruct (_ && _ && _) eqn:Hb.
  2:{ exists t, []. split; [done |]. split; [by apply cancelling_refl |]. by split. }
  apply andb_true_iff in Hb as [Hb Hc]. apply andb_true_iff in Hb as [_ Hk].
  assert (kill_switch_state_ (order_mgr_ t) = kNormal) as Hn by (unfold is_killed in Hk; by destruct (kill_switch_state_ (order_mgr_ t))).
  destruct (read_clock_spec t) as ((_ & Eo & _) & _ & _ & _ & Hck & _). destruct (Hck Hio) as [Hnow _].
  destruct (read_clock t) as [now t1] eqn:Erc. simpl in Hnow, Eo.
  destruct (trigger_spec ndebug (order_mgr_ t) now Hinv Hn) as (o' & n & E & Hi' & En & Hb & Ho & _ & Hsl & Hnp & _ & Hnx & _ & Hks).
  rewrite Eo, E. cbn [mbind option_bind].
  destruct (cancel_batch t t1 o' (orders (order_mgr_ t)) now n) as (t' & l & Es & Hca & Eo' & _ & Hroom); try done; [by rewrite Erc | | by rewrite Ho |].
  { apply rtc_once. apply (om_step_intro ndebug _ (EvKill now)); [done | simpl; by rewrite E]. }
  exists t', l. split; [done |]. split; [done |]. rewrite Eo'. split; [done |]. split.
  - unfold is_killed. rewrite Hks. by destruct (bool_decide _).
  - intros Hr. destruct (Hroom 0%nat) as (H1 & H2 & _ & H3); [by rewrite Nat.add_0_r |]. split; [done |]. split; [done |]. by exists now.
Qed.

Lemma timeout_phase_spec t :
  io_ok (io_ t) → inv ndebug (order_mgr_ t) →
  ∃ t' l, timeout_phase ndebug native_little t = Some t' ∧ cancelling t t' l ∧
    (connected t = false → t' = t) ∧ (is_killed (order_mgr_ t) = true → l = []).
Proof.
  intros Hio Hinv. unfold timeout_phase. destruct (connected t) eqn:Hc.
  2:{ exists t, []. split; [done |]. split; [by apply cancelling_refl |]. by split. }
  destruct (read_clock_spec t) as ((_ & Eo & _) & _ & _ & _ & Hck & _). destruct (Hck Hio) as [Hnow _].
  destruct (read_clock t) as [now t1] eqn:Erc. simpl in Hnow, Eo. rewrite Eo.
  destruct (decide (kill_switch_state_ (order_mgr_ t) = kNormal)) as [Hn | Hn];
    [destruct (decide (now - last_advance_ns_ (order_mgr_ t) < kTickIntervalNs)) as [Hlt | Hge] |].
  2:{ destruct (advance_spec ndebug (order_mgr_ t) now Hinv Hn Hnow) as (o' & n & E & Hi' & (Ho & _ & Hb & _) & Hsl & Hnp & Hks & Hnx & _); [lia |].
      rewrite E. cbn [mbind option_bind].
      destruct (cancel_batch t t1 o' (due_orders (order_mgr_ t) (ticks_due (order_mgr_ t) now)) now n) as (t' & l & Es & Hca & _ & _ & _); try done.
      { by rewrite Erc. }
      { apply map_filter_subseteq. }
      { apply rtc_once. apply (om_step_intro ndebug _ (EvTimeouts now)); [done | simpl; by rewrite E]. }
      { rewrite Ho. apply map_filter_subseteq. }
      exists t', l. split; [done |]. split; [done |]. split; [done |]. unfold is_killed. by rewrite Hn. }
  1: rewrite (advance_idle ndebug (order_mgr_ t) now (proj1 Hinv) Hnow) by by right.
  2: rewrite (advance_idle ndebug (order_mgr_ t) now (proj1 Hinv) Hnow) by by left.
  all: cbn [mbind option_bind].
  all: destruct (cancel_batch t t1 (order_mgr_ t) ∅ now 0) as (t' & l & Es & Hca & _ & Hlen & _); try done;
    try (by rewrite Erc); try apply map_empty_subseteq.
  all: assert (l = []) as -> by (destruct l; [done | rewrite map_size_empty in Hlen; simpl in Hlen; lia]).
  all: by exists t', [].
Qed.

(** * Heartbeats *)

Definition heartbeats_only (l : list Sent) : Prop := Forall sent_part l ∧ Forall (λ s : Sent, s.1 = ReqHeartbeat) l.

Lemma send_heartbeat_spec t now :
  io_ok (io_ t) → connected t = true →
  ∃ t' l, send_heartbeat native_little t now = Some t' ∧ same_core t t' ∧ stop_flag_ t' = stop_flag_ t ∧ io_ok (io_ t') ∧
    link_after (io_ t) (io_ t') (sent_bytes l) ∧ heartbeats_only l.
Proof.
  intros [(Hr1 & Hr2 & Hr3) Hck] Hc. unfold send_heartbeat.
  destruct (send_frame_spec native_little (io_ t) kHeartbeat [] ltac:(constructor)) as (io' & Hs);
    [unfold kMaxPayloadSize; simpl; lia | simpl; lia | done |].
  pose proof (kernel_takes_ok (sends (os (io_ t))) (frame_bytes (tcp_frame kHeartbeat []))) as [Hpre _].
  destruct (kernel_takes _ _) as [taken status]. destruct Hs as (-> & Hw & _ & (Hb1 & Hb2 & _ & Hc' & Hp' & _) & (Hst' & _) & _).
  cbn [mbind option_bind default from_option]. set (t2 := with_io t io').
  assert (io_ok (io_ t2)) as Hio2 by (unfold io_ok, roomy, clock_ok, t2; simpl; by rewrite Hb1, Hb2, Hc').
  assert (Hl2 : link_after (io_ t) (io_ t2) taken) by (left; unfold up, t2; simpl; by rewrite Hst', Hw, Hp').
  destruct (disconnect_core t2) as [Hd1 Hd2].
  eexists _, [(ReqHeartbeat, taken)]. split; [reflexivity |].
  assert (heartbeats_only [(ReqHeartbeat, taken)]) as Hhb by (split; constructor; done).
  assert (sent_bytes [(ReqHeartbeat, taken)] = taken) as -> by (unfold sent_bytes; simpl; by rewrite app_nil_r).
  destruct (sent_ok status).
  - split; [by repeat split |]. split; [done |]. split; [exact Hio2 |]. split; [exact Hl2 | done].
  - split; [by eapply (same_core_trans t t2); [| exact Hd1]; repeat split |]. split; [done |].
    split; [exact (disconnect_io t2 Hio2) |]. split; [exact (disconnect_after t2 (io_ t) taken Hl2) | done].
Qed.

Lemma heartbeat_phase_spec t :
  io_ok (io_ t) →
  ∃ t' l, heartbeat_phase native_little t = Some t' ∧ same_core t t' ∧ stop_flag_ t' = stop_flag_ t ∧ io_ok (io_ t') ∧
    link_after (io_ t) (io_ t') (sent_bytes l) ∧ heartbeats_only l ∧ (connected t = false → t' = t).
Proof.
  intros Hio. unfold heartbeat_phase. destruct (connected t) eqn:Hc.
  2:{ exists t, []. split; [done |]. split; [apply same_core_refl |]. split; [done |]. split; [done |]. split; [apply link_after_refl |]. done. }
  destruct (read_clock_spec t) as (Hsc & Hst & Hco & Econn & Hck & _). destruct (Hck Hio) as [Hnow Hio1]. clear Hck.
  destruct (read_clock t) as [now t1]. cbn [fst snd] in *. destruct Hco as (C1 & C2 & C3 & C4 & C5).
  assert (connected t1 = true) as Hc1 by (unfold connected, conn_of in *; by rewrite Econn).
  assert (Hsend : ∃ t2 l, (if bool_decide (u64 (now - last_hb_sent (conn_of t1)) >= kHeartbeatIntervalNs)
      then send_heartbeat native_little t1 now else Some t1) = Some t2 ∧ same_core t1 t2 ∧ stop_flag_ t2 = stop_flag_ t1 ∧
      io_ok (io_ t2) ∧ link_after (io_ t1) (io_ t2) (sent_bytes l) ∧ heartbeats_only l).
  { case_bool_decide; [by apply send_heartbeat_spec |]. exists t1, []. split; [done |]. split; [apply same_core_refl |].
    split; [done |]. split; [done |]. split; [apply link_after_refl | by split]. }
  destruct Hsend as (t2 & l & -> & Hsc2 & Hst2 & Hio2 & Hl2 & Hhb). cbn [mbind option_bind].
  assert (Hl : link_after (io_ t) (io_ t2) (sent_bytes l)).
  { eapply (link_after_step (io_ t) (io_ t1) _ []); [unfold up; by rewrite Econn | done | by rewrite app_nil_r | done]. }
  destruct (disconnect_core t2) as [Hd1 Hd2].
  exists (if bool_decide (u64 (now - last_hb_recv (conn_of t2)) >= kHeartbeatTimeoutNs) then disconnect t2 else t2), l.
  case_bool_decide; (split; [done |]).
  - split; [eapply same_core_trans; [exact Hsc | by eapply same_core_trans] |]. split; [congruence |]. split; [by apply disconnect_io |].
    split; [by apply disconnect_after | done].
  - split; [by eapply same_core_trans |]. split; [congruence |]. done.
Qed.

(** * Connection attempts *)

(** The outcome of the phases of a connection that is not up: nothing is
    sent; the next connection may be up, or have failed at once. *)
Definition link_opened io io' : Prop :=
  up io = false → wire (os io) = [] →
  wire (os io') = [] ∧ (past (os io') = past (os io) ∨ past (os io') = past (os io) ++ [[]]).

Lemma connect_timeout_phase_spec t :
  io_ok (io_ t) →
  let t' := connect_timeout_phase t in
  same_core t t' ∧ stop_flag_ t' = stop_flag_ t ∧ io_ok (io_ t') ∧ up (io_ t') = up (io_ t) ∧
  wire (os (io_ t')) = wire (os (io_ t)) ∧ past (os (io_ t')) = past (os (io_ t)) ∧
  recvs (os (io_ t')) = recvs (os (io_ t)) ∧ later (os (io_ t')) = later (os (io_ t)) ∧
  tcp_rx_read_ t' = tcp_rx_read_ t ∧ tcp_rx_write_ t' = tcp_rx_write_ t.
Proof.
  intros Hio t'. unfold t', connect_timeout_phase. case_bool_decide as Hst; [| by split_and!; try apply same_core_refl].
  destruct (read_clock_spec t) as (Hsc & Hstop & Hco & Econn & Hck & Hr & Hw). destruct (Hck Hio) as [Hnow Hio1]. clear Hck.
  destruct (read_clock t) as [now t1]. simpl in *. destruct Hco as (C1 & C2 & C3 & C4 & C5).
  assert (up (io_ t) = false) as Hup by (unfold up, conn_of in *; by rewrite Hst).
  case_bool_decide; simpl; rewrite ?Hup; split_and!; try done.
  unfold up in *. by rewrite Econn.
Qed.

Lemma finalize_spec t nodelay nonblocking :
  io_ok (io_ t) →
  let r := finalize t nodelay nonblocking in
  same_core t r.1 ∧ stop_flag_ r.1 = stop_flag_ t ∧ io_ok (io_ r.1) ∧ wire (os (io_ r.1)) = [] ∧
  tcp_rx_read_ r.1 = tcp_rx_read_ t ∧ tcp_rx_write_ r.1 = tcp_rx_write_ t ∧
  (later (os (io_ r.1)) = tail (later (os (io_ t)))) ∧
  (if r.2 then up (io_ r.1) = true ∧ past (os (io_ r.1)) = past (os (io_ t)) ∧
      recvs (os (io_ r.1)) = (default ([], []) (head (later (os (io_ t))))).2
   else conn_of r.1 = conn_of t ∧ past (os (io_ r.1)) = past (os (io_ t)) ++ [[]] ∧ recvs (os (io_ r.1)) = []).
Proof.
  intros [Hr Hk] r. unfold r, finalize, finalize_tcp_connect.
  assert (wire (open_socket (os (io_ t))) = [] ∧ past (open_socket (os (io_ t))) = past (os (io_ t)) ∧
    clock (open_socket (os (io_ t))) = clock (os (io_ t)) ∧
    later (open_socket (os (io_ t))) = tail (later (os (io_ t))) ∧
    recvs (open_socket (os (io_ t))) = (default ([], []) (head (later (os (io_ t))))).2) as (O1 & O2 & O3 & O4 & O5).
  { unfold open_socket. by destruct (later (os (io_ t))) as [| [s rc] l]. }
  destruct nodelay; cbn [negb].
  2:{ simpl. rewrite O1, O2, O4. split_and!; try done. split; [done |]. unfold clock_ok. simpl. by rewrite O3. }
  destruct nonblocking; cbn [negb].
  2:{ simpl. rewrite O1, O2, O4. split_and!; try done. split; [done |]. unfold clock_ok. simpl. by rewrite O3. }
  pose proof (monotonic_nanos_clock_only (open_socket (os (io_ t)))) as (C1 & C2 & C3 & C4 & C5).
  pose proof (monotonic_nanos_ok (open_socket (os (io_ t)))) as Hck. unfold clock_ok in Hck at 1. rewrite O3 in Hck.
  destruct (monotonic_nanos _) as [ts w]. simpl in *. destruct (Hck Hk) as [_ Hck'].
  split_and!; try done; try congruence.
Qed.

Lemma reconnect_phase_spec t a :
  io_ok (io_ t) →
  let r := reconnect_phase t a in
  same_core t r.1 ∧ io_ok (io_ r.1) ∧ (r.2 = false → stop_flag_ r.1 = stop_flag_ t) ∧
  tcp_rx_read_ r.1 = tcp_rx_read_ t ∧ tcp_rx_write_ r.1 = tcp_rx_write_ t ∧
  (up (io_ t) = true → r.1 = t) ∧ link_opened (io_ t) (io_ r.1) ∧
  (up (io_ t) = false →
     (up (io_ r.1) = false ∧ ((recvs (os (io_ r.1)) = recvs (os (io_ t)) ∧ later (os (io_ r.1)) = later (os (io_ t))) ∨
                             (recvs (os (io_ r.1)) = [] ∧ later (os (io_ r.1)) = tail (later (os (io_ t)))))) ∨
     (up (io_ r.1) = true ∧ recvs (os (io_ r.1)) = (default ([], []) (head (later (os (io_ t))))).2 ∧
      later (os (io_ r.1)) = tail (later (os (io_ t))))).
Proof.
  intros Hio r. unfold r, reconnect_phase, link_opened. case_bool_decide as Hst.
  2:{ cbn [fst snd]. split; [apply same_core_refl |]. split; [done |]. split; [done |]. split; [done |]. split; [done |]. split; [done |].
      split; [intros _ ?; split; [done | by left] |]. intros Hup. left. split; [done | by left]. }
  assert (up (io_ t) = false) as Hup by (unfold up, conn_of in *; by rewrite Hst). rewrite Hup.
  destruct (read_clock_spec t) as (Hsc & Hstop & Hco & Econn & Hck & Hr & Hw). destruct (Hck Hio) as [Hnow Hio1]. clear Hck.
  destruct (read_clock t) as [now t1]. cbn [fst snd] in *. destruct Hco as (C1 & C2 & C3 & C4 & C5).
  assert (Hup1 : up (io_ t1) = false) by (unfold up in *; by rewrite Econn).
  (* nothing but the schedule changes *)
  assert (Hquiet : ∀ c stop, bool_decide (state c = kConnected) = false →
    let t' := with_flags (with_conn_of t1 c) stop (kill_switch_flag_ t1) in
    same_core t t' ∧ io_ok (io_ t') ∧ tcp_rx_read_ t' = tcp_rx_read_ t ∧ tcp_rx_write_ t' = tcp_rx_write_ t ∧
    (false = true → t' = t) ∧
    (false = false → wire (os (io_ t)) = [] → wire (os (io_ t')) = [] ∧ (past (os (io_ t')) = past (os (io_ t)) ∨ past (os (io_ t')) = past (os (io_ t)) ++ [[]])) ∧
    (false = false → up (io_ t') = false ∧ ((recvs (os (io_ t')) = recvs (os (io_ t)) ∧ later (os (io_ t')) = later (os (io_ t))) ∨
                             (recvs (os (io_ t')) = [] ∧ later (os (io_ t')) = tail (later (os (io_ t))))))).
  { intros c stop Hstate t'. split; [by eapply (same_core_trans t t1)|]. split; [exact Hio1 |]. split; [done |]. split; [done |]. split; [done |].
    unfold t'. simpl. rewrite C3, C5, C2, C4. split; [intros _ ->; split; [done | by left] |]. intros _. split; [done | by left]. }
  assert (Hdone : ∀ c, bool_decide (state c = kConnected) = false →
    with_conn_of t1 c = with_flags (with_conn_of t1 c) (stop_flag_ t1) (kill_switch_flag_ t1)) by done.
  assert (Hns : bool_decide (state (conn_of t1) = kConnected) = false) by exact Hup1.
  assert (Ht1 : with_conn_of t1 (conn_of t1) = t1) by by destruct t1 as [? ? [? ? ? ?] ? ? ? ? ? ? ?].
  assert (Hleft : ∀ c, bool_decide (state c = kConnected) = false →
    let r := (with_conn_of t1 c, false) in
    same_core t r.1 ∧ io_ok (io_ r.1) ∧ (r.2 = false → stop_flag_ r.1 = stop_flag_ t) ∧
    tcp_rx_read_ r.1 = tcp_rx_read_ t ∧ tcp_rx_write_ r.1 = tcp_rx_write_ t ∧
    (false = true → r.1 = t) ∧
    (false = false → wire (os (io_ t)) = [] → wire (os (io_ r.1)) = [] ∧ (past (os (io_ r.1)) = past (os (io_ t)) ∨ past (os (io_ r.1)) = past (os (io_ t)) ++ [[]])) ∧
    (false = false →
     (up (io_ r.1) = false ∧ ((recvs (os (io_ r.1)) = recvs (os (io_ t)) ∧ later (os (io_ r.1)) = later (os (io_ t))) ∨
                             (recvs (os (io_ r.1)) = [] ∧ later (os (io_ r.1)) = tail (later (os (io_ t)))))) ∨
     (up (io_ r.1) = true ∧ recvs (os (io_ r.1)) = (default ([], []) (head (later (os (io_ t))))).2 ∧
      later (os (io_ r.1)) = tail (later (os (io_ t)))))).
  { intros c Hstate r'. unfold r'. cbn [fst snd]. rewrite (Hdone c Hstate).
    destruct (Hquiet c (stop_flag_ t1) Hstate) as (Q1 & Q2 & Q3 & Q4 & Q5 & Q6 & Q7). split_and!; try done. intros _. left. by apply Q7. }
  pose proof (Hleft (conn_of t1) Hns) as Hnot. rewrite Ht1 in Hnot.
  destruct (bool_decide (now >= next_reconnect_at (conn_of t1))); [| exact Hnot]. clear Hnot.
  destruct (bool_decide (reconnect_attempts (conn_of t1) >= kMaxReconnectAttempts)).
  { destruct (Hquiet (conn_of t1) true Hns) as (Q1 & Q2 & Q3 & Q4 & Q5 & Q6 & Q7). rewrite Ht1 in *. cbn [fst snd].
    split_and!; try done. intros _. left. by apply Q7. }
  destruct a as [| | | nodelay nonblocking]; [by apply Hleft | by apply Hleft | by apply Hleft |].
  destruct (finalize_spec t1 nodelay nonblocking Hio1) as (F1 & F2 & F3 & F4 & F5 & F6 & F7 & F8).
  destruct (finalize t1 nodelay nonblocking) as [t2 ok]. cbn [fst snd] in *. rewrite C4 in *.
  destruct ok; cbn [fst snd].
  - destruct F8 as (F8 & F9 & F10). split; [by eapply same_core_trans |]. split; [done |]. split; [congruence |]. split; [congruence |].
    split; [congruence |]. split; [done |]. split; [intros _ _; split; [done | left; congruence] |]. intros _. by right.
  - destruct F8 as (F8 & F9 & F10). split; [eapply same_core_trans; [exact Hsc | by eapply same_core_trans; [exact F1 | repeat split]] |].
    split; [exact F3 |]. split; [intros _; simpl; congruence |]. split; [simpl; congruence |]. split; [simpl; congruence |]. split; [done |].
    simpl. split; [intros _ _; split; [done | right; congruence] |]. intros _. left. split; [unfold up, conn_of in *; simpl; by rewrite F8 | by right].
Qed.
End Link.
End STLink.

Module STDrain.
Import OMgr Tcp Conn Io ST ResponseHandler OMSpec OMResp OMTime OrderPathSpec OrderOut STRx STMarket STLink.

(** * The order manager's part *)

Section Manager.
Context (ndebug : bool) {M : Type} `{TM : Table Z OrderInfo M} `{TI : TableIter Z OrderInfo M} `{TR : TableRebuild M}.
Implicit Types o : OrderManager M.

Definition draining (n : Z) o : Prop := kill_switch_state_ o = kDraining ∧ pending_cancel_count_ o = n.

Lemma draining_killed n o : draining n o → is_killed o = true.
Proof. intros [H _]. unfold is_killed. by rewrite H. Qed.

Lemma clear_active_draining o s d k o' n : clear_active_if_match o s d k = Some o' → draining n o → draining n o'.
Proof.
  unfold clear_active_if_match. intros H Hd. destruct (_ || _); [by injection H as <- |]. inv_bind H.
  destruct (_ && _); [| by injection K as <-]. inv_bind K. by injection K0 as <-.
Qed.

Lemma drop_tracking_draining o k i o' n : drop_tracking ndebug o k i = Some o' → draining n o → draining n o'.
Proof.
  unfold drop_tracking, add_per_symbol. intros H Hd. apply bind_inv in H as ([w b] & _ & H). apply bind_inv in H as (o1 & Ho1 & H).
  apply bind_inv in H as (c & _ & H). apply bind_inv in H as (ns & _ & H). injection H as <-.
  by apply (clear_active_draining _ _ _ _ _ n Ho1).
Qed.

Lemma retire_draining o k i o' n : retire ndebug o k i = Some o' → draining n o → draining n o'.
Proof.
  unfold retire, erase_outstanding, maybe_compact_outstanding. intros H Hd. apply bind_inv in H as (o1 & Ho1 & H).
  assert (draining n o1) as Hr by (destruct i as [i |]; [by eapply drop_tracking_draining | by injection Ho1 as <-]).
  apply bind_inv in H as (o2 & Ho2 & H). apply bind_inv in Ho2 as ([m b] & _ & Ho2). injection Ho2 as <-. injection H as <-.
  by destruct (_ && _).
Qed.

Lemma on_fill_draining o f o' n : on_fill ndebug o f = Some o' → draining n o → draining n o'.
Proof.
  unfold on_fill. intros H Hd. inv_bind H. inv_bind K. inv_bind K0. injection K as <-.
  assert (draining n r0) as H0.
  { destruct r as [i |]; [| by injection E0 as <-]. destruct (bool_decide _); [| by injection E0 as <-].
    inv_bind E0. inv_bind K. inv_bind K0. by injection K as <-. }
  destruct (bool_decide _); [by apply (retire_draining _ _ _ _ n E1) | by injection E1 as <-].
Qed.

Lemma on_order_reject_draining o r o' n : on_order_reject ndebug o r = Some o' → draining n o → draining n o'.
Proof.
  unfold on_order_reject. intros H Hd. inv_bind H. inv_bind K. injection K0 as <-. by apply (retire_draining _ _ _ _ n E0).
Qed.

Lemma on_modify_reject_draining o r o' n : on_modify_reject o r = Some o' → draining n o → draining n o'.
Proof.
  unfold on_modify_reject. intros H Hd. inv_bind H. inv_bind K. injection K0 as <-.
  destruct r0 as [i |]; [by apply (clear_active_draining _ _ _ _ _ n E0) | by injection E0 as <-].
Qed.
End Manager.

(** * Connections without cancel responses *)

Definition cancel_response (m : ParsedMessageView) : bool :=
  bool_decide (mh_msg_type (pmv_header m) = msg_type_id kCancelAck) ||
  bool_decide (mh_msg_type (pmv_header m) = msg_type_id kCancelReject).

(** The bytes a connection will deliver. *)
Fixpoint incoming (r : list RecvAnswer) : list Z :=
  match r with [] => [] | Arrived bs :: r => bs ++ incoming r | RecvError _ :: r => incoming r end.

Section Drain.
Context (ndebug native_little : bool).
Context {M : Type} `{TM : Table Z OrderInfo M} `{TI : TableIter Z OrderInfo M} `{TR : TableRebuild M}.
Context {S : Type} `{SP : StrategyPolicy S}.
Abbreviation Thread := (StrategyThread M S).
Abbreviation Split := (split native_little).
Implicit Types (t : Thread) (io : Io).

Definition no_cancels (bs : list Z) : Prop := bytes_ok bs ∧ Forall (λ m, cancel_response m = false) (Split bs).1.

(** What was handed over since the connection number [base] was heartbeats. *)
Definition heartbeat_bytes (bs : list Z) : Prop := ∃ l, heartbeats_only l ∧ bs = sent_bytes l.

Record quiet (base : nat) io : Prop := {
  q_io : io_ok io;
  q_past : (base <= length (past (os io)))%nat ∧ Forall heartbeat_bytes (drop base (past (os io)));
  q_wire : heartbeat_bytes (wire (os io));
  q_down : up io = false → wire (os io) = [] ∧ recvs (os io) = [];
  q_later : Forall (λ c : list SendAnswer * list RecvAnswer, no_cancels (incoming c.2)) (later (os io));
}.

Record waiting_drain (base : nat) (n size : Z) t : Prop := {
  wd_manager : draining n (order_mgr_ t);
  wd_io : quiet base (io_ t);
  wd_rx : ∃ p, pends size t p ∧ Split p = ([], p) ∧ no_cancels (p ++ incoming (recvs (os (io_ t)))) ∧
    (up (io_ t) = false → p = []) ;
  wd_down : up (io_ t) = false → tcp_rx_read_ t = 0 ∧ tcp_rx_write_ t = 0;
}.

Lemma no_cancels_nil : no_cancels [].
Proof. split; [constructor | exact (Forall_nil_2 _)]. Qed.

Lemma heartbeat_bytes_nil : heartbeat_bytes [].
Proof. exists []. by repeat split. Qed.

Lemma heartbeat_bytes_app a b : heartbeat_bytes a → heartbeat_bytes b → heartbeat_bytes (a ++ b).
Proof.
  intros (l & [H1 H2] & ->) (l' & [H3 H4] & ->). exists (l ++ l'). rewrite sent_bytes_app. split; [| done]. split; by apply Forall_app.
Qed.

(** A link that carried heartbeats only. *)
Lemma link_past base io io' bs :
  quiet base io → link_after io io' bs → heartbeat_bytes bs →
  (base <= length (past (os io')))%nat ∧ Forall heartbeat_bytes (drop base (past (os io'))) ∧ heartbeat_bytes (wire (os io')).
Proof.
  intros [_ [Hb Hp] Hw _ _] [(_ & H2 & ->) | (_ & _ & -> & ->)] Hbs.
  - split; [done |]. split; [done |]. rewrite H2. by apply heartbeat_bytes_app.
  - rewrite length_app. split; [lia |]. split; [| apply heartbeat_bytes_nil].
    rewrite drop_app_le by done. apply Forall_app. split; [done |]. constructor; [by apply heartbeat_bytes_app | done].
Qed.

(** * Deliveries *)

Lemma on_message_drain n h m o c now h' o' c' k :
  on_tcp_message ndebug native_little h m o c now = Some (h', o', c', k) →
  state c' = state c ∧ (cancel_response m = false → draining n o → draining n o').
Proof.
  unfold on_tcp_message, cancel_response. intros H.
  repeat match type of H with
  | (if bool_decide ?P then _ else _) = _ => destruct (bool_decide P) eqn:?
  end; try (apply bind_inv in H as (parsed & _ & H); destruct parsed as [x |]; [| injection H as <- <- <- <-; done]).
  all: try (apply bind_inv in H as (o1 & Ho & H)).
  all: try (apply bind_inv in H as (h1 & _ & H)).
  all: injection H as <- <- <- <-.
  all: split; [done |]; intros Hc Hd; try done.
  all: try (rewrite ?orb_true_r in Hc; done).
  - by apply (on_order_reject_draining _ _ _ _ n Ho).
  - by apply (on_fill_draining _ _ _ _ n Ho).
  - by apply (on_modify_reject_draining _ _ _ n Ho).
Qed.

(** What a delivery leaves of the connection. *)
Definition same_link_but_clock io io' : Prop :=
  clock_only (os io) (os io') ∧ (clock_ok (os io) → clock_ok (os io')) ∧ up io' = up io ∧
  scratch io' = scratch io ∧ tcp_tx_buf io' = tcp_tx_buf io.

Lemma same_link_trans io1 io2 io3 : same_link_but_clock io1 io2 → same_link_but_clock io2 io3 → same_link_but_clock io1 io3.
Proof.
  intros (A1 & A2 & A3 & A4 & A5) (B1 & B2 & B3 & B4 & B5). split; [by eapply clock_only_trans |]. split; [by auto |]. split_and!; congruence.
Qed.

Lemma deliver_drain n t m t' :
  deliver ndebug native_little t m = Some t' → cancel_response m = false → draining n (order_mgr_ t) →
  draining n (order_mgr_ t') ∧ same_link_but_clock (io_ t) (io_ t').
Proof.
  unfold deliver. intros H Hm Hd. destruct (verify_protocol_version _); cbn [negb] in H.
  - unfold read_clock, now in H. pose proof (monotonic_nanos_clock_only (os (io_ t))) as Hco.
    pose proof (monotonic_nanos_ok (os (io_ t))) as Hck.
    destruct (monotonic_nanos (os (io_ t))) as [ts w]. apply bind_inv in H as ([[[h o] c] k] & E & H). injection H as <-.
    apply (on_message_drain n) in E as [Hs Ho]. split; [by apply Ho |]. split; [exact Hco |]. split; [intros; by apply Hck |].
    split; [unfold up; simpl in *; by rewrite Hs | done].
  - injection H as <-. split; [done |]. by repeat split.
Qed.

Lemma deliver_all_drain n ms : ∀ t t',
  deliver_all ndebug native_little t ms = Some t' → Forall (λ m, cancel_response m = false) ms → draining n (order_mgr_ t) →
  draining n (order_mgr_ t') ∧ same_link_but_clock (io_ t) (io_ t').
Proof.
  induction ms as [| m ms IH]; intros t t' H Hm Hd; simpl in H.
  - injection H as <-. split; [done |]. by repeat split.
  - inversion_clear Hm as [| ? ? Hm1 Hms]. apply bind_inv in H as (t1 & E & H).
    destruct (deliver_drain n t m t1 E Hm1 Hd) as [Hd1 Hl1]. destruct (IH t1 t' H Hms Hd1) as [Hd2 Hl2].
    split; [done | by eapply same_link_trans].
Qed.

Lemma quiet_clock base io io' : quiet base io → same_link_but_clock io io' → quiet base io'.
Proof.
  intros [[Hr Hc] Hp Hw Hd Hl] ((C1 & C2 & C3 & C4 & C5) & Hck & Hu & Hs & Htx). split.
  - unfold io_ok, roomy in *. rewrite Hs, Htx. split; [done | by apply Hck].
  - by rewrite C5.
  - by rewrite C3.
  - by rewrite Hu, C3, C2.
  - by rewrite C4.
Qed.

(** * The receive loop *)

Lemma no_cancels_step a b :
  no_cancels (a ++ b) → Forall (λ m, cancel_response m = false) (Split a).1 ∧ no_cancels ((Split a).2 ++ b).
Proof.
  intros [Hb Hf]. pose proof Hb as [Ha Hbb]%Forall_app. rewrite split_app in Hf by done. cbn [fst] in Hf. apply Forall_app in Hf as [H1 H2].
  split; [done |]. split; [| done]. apply Forall_app. split; [by apply split_rest_ok | done].
Qed.

Lemma recv_loop_incoming k answers :
  (0 < k)%nat →
  incoming answers = bytes_received (recv_loop answers k).2 ++ incoming (recv_loop answers k).1 ∧
  (length (bytes_received (recv_loop answers k).2) <= k)%nat ∧
  (rr_status (recv_loop answers k).2 ≠ rOk → bytes_received (recv_loop answers k).2 = []).
Proof.
  intros Hk. induction answers as [| [bs | e] answers IH]; cbn [recv_loop incoming].
  - split; [done |]. split; [simpl; lia | done].
  - unfold unread. case_bool_decide as Ht.
    + assert (bs = []) as -> by (destruct bs, k; try done; lia). split; [done |]. split; [simpl; lia | done].
    + case_bool_decide; cbn [fst snd bytes_received rr_status]; rewrite length_take.
      * rewrite take_ge by lia. split; [done |]. split; [lia | done].
      * cbn [incoming]. rewrite app_assoc, take_drop. split; [done |]. split; [lia | done].
  - destruct e; [exact IH | ..]; (split; [done |]; split; [simpl; lia | done]).
Qed.

Lemma disconnect_rx t : connected t = true → recvs (os (io_ (disconnect t))) = [] ∧ later (os (io_ (disconnect t))) = later (os (io_ t)).
Proof.
  intros Hc. apply bool_decide_eq_true in Hc. unfold disconnect, disconnect_and_reconnect. rewrite bool_decide_true by done. cbn [negb].
  pose proof (monotonic_nanos_clock_only (close_socket (os (io_ t)))) as (_ & Hr & _ & Hl & _).
  by destruct (monotonic_nanos (close_socket (os (io_ t)))) as [now w].
Qed.

Lemma disconnect_drain base n size t : waiting_drain base n size t → waiting_drain base n size (disconnect t).
Proof.
  intros [Hm Hq Hrx Hdown]. destruct (connected t) eqn:Hc; [| by rewrite disconnect_idle].
  destruct (disconnect_spec t Hc) as (Eo & _ & Es & Ew & Ep & Eio & Ed & Er & Ewr & _). destruct (disconnect_rx t Hc) as [Erc El].
  pose proof (link_past base (io_ t) (io_ (disconnect t)) [] Hq (disconnect_link t Hc) heartbeat_bytes_nil) as (H1 & H2 & H3).
  assert (up (io_ (disconnect t)) = false) as Hup by (unfold up, conn_of in *; by rewrite Es). split.
  - by rewrite Eo.
  - split; [apply Eio; apply Hq | done | done | done |]. rewrite El. apply Hq.
  - destruct Hrx as (p & (pre & post & Hd & _ & _ & Hs) & _). exists []. split.
    + exists [], (pre ++ p ++ post). rewrite Ed, Er, Ewr. by split_and!.
    + rewrite Erc. split; [done |]. split; [split; [constructor | done] | done].
  - by rewrite Er, Ewr.
Qed.

Lemma receive_loop_drain base n size fuel : ∀ t t',
  waiting_drain base n size t → connected t = true → receive_loop ndebug native_little fuel t = Some t' →
  waiting_drain base n size t'.
Proof.
  induction fuel as [| fuel IH]; intros t t' Hwd Hc H; [done |]. cbn [receive_loop] in H.
  pose proof Hwd as [Hm Hq (p & Hp & Hidle & Hnc & Hpd) Hdown]. assert (up (io_ t) = true) as Hupt by exact Hc.
  assert (∀ data read write, pends size (with_rx t data read write) p → waiting_drain base n size (with_rx t data read write)) as Hrx.
  { intros data read write Hp'. split; try done; [by exists p |]. intros Hup. change (up (io_ t) = false) in Hup. congruence. }
  destruct (decide (lenZ p < size)) as [Hlt | Hge].
  2:{ assert (make_room t = Some None) as Hmr.
      { destruct Hp as (pre & post & Hd & Hr & Hw & Hs). unfold make_room. rewrite Hd, Hs. rewrite !length_app in Hs.
        rewrite bool_decide_true by lia. by rewrite bool_decide_false by lia. }
      rewrite Hmr in H. injection H as <-. by apply disconnect_drain. }
  destruct (make_room_spec size t p Hp Hlt) as (data & read & write & Hmr & Hp1 & Hwr & Hld). rewrite Hmr in H. cbn [mbind option_bind] in H.
  set (t1 := with_rx t data read write) in *. specialize (Hrx data read write Hp1). fold t1 in Hrx.
  unfold receive_nonblocking in H. change (tcp_rx_data_ t1) with data in H. change (tcp_rx_write_ t1) with write in H.
  rewrite Hld, bool_decide_true in H by lia. cbn [mbind option_bind assertM] in H.
  set (k := Z.to_nat (Z.min (size - write) SSIZE_MAX)) in *. assert (0 < k)%nat as Hk by (unfold k, SSIZE_MAX; lia).
  pose proof (recv_loop_incoming k (recvs (os (io_ t1))) Hk) as (Hin & Hlen & Hnone). destruct (recv_loop (recvs (os (io_ t1))) k) as [rest res]. cbn [fst snd] in Hin, Hlen, Hnone. cbn [mbind option_bind] in H.
  set (t2 := with_io t1 (with_os (io_ t1) (with_recvs (os (io_ t1)) rest))) in *.
  change (recvs (os (io_ t1))) with (recvs (os (io_ t))) in Hin. rewrite Hin in Hnc.
  assert (Hup2 : up (io_ t2) = true) by exact Hc.
  assert (Hq2 : quiet base (io_ t2)).
  { destruct Hq as [Q1 Q2 Q3 Q4 Q5]. split; try done. intros Hup. congruence. }
  assert (Hbo : bytes_ok (p ++ bytes_received res)).
  { destruct Hnc as [Hb _]. rewrite app_assoc in Hb. by apply Forall_app in Hb as [? _]. }
  assert (Hnc2 : no_cancels ((p ++ bytes_received res) ++ incoming rest)) by by rewrite <- app_assoc.
  destruct (no_cancels_step _ _ Hnc2) as [Hms Hnc3].
  (* when nothing was received the state is as before *)
  assert (Hnothing : bytes_received res = [] → waiting_drain base n size t2).
  { intros E. rewrite E in *. split; [done | done | | intros; congruence]. exists p. rewrite app_nil_r in Hnc2. by split_and!. }
  destruct (rr_status res) eqn:Hst.
  - apply bind_inv in H as (t3 & Etb & H). pose proof Hbo as [Hpo Hro]%Forall_app.
    assert (lenZ (bytes_received res) <= size - tcp_rx_write_ t2) as Hroom by (change (tcp_rx_write_ t2) with write; unfold k in Hlen; lia).
    pose proof (take_bytes_spec ndebug native_little size t2 p _ Hpo Hro Hp1 Hroom) as Htb.
    destruct (deliver_all ndebug native_little t2 (Split (p ++ bytes_received res)).1) as [td |] eqn:Eda; [| by rewrite Htb in Etb].
    destruct Htb as (data3 & read3 & write3 & E3 & Hp3). rewrite E3 in Etb. injection Etb as <-.
    destruct (deliver_all_drain n _ _ _ Eda Hms Hm) as [Hmd Hld3]. pose proof Hld3 as ((_ & Erv & _) & _ & Hu3 & _).
    eapply IH; [| | exact H].
    + split; [done | exact (quiet_clock base (io_ t2) (io_ td) Hq2 Hld3) | | intros Hup; simpl in Hup; congruence].
      exists (Split (p ++ bytes_received res)).2. split; [done |]. split; [by apply split_idle |].
      split; [simpl; by rewrite Erv |]. intros Hup. simpl in Hup. congruence.
    + unfold connected, conn_of. simpl. unfold up in Hu3. rewrite Hu3. exact Hup2.
  - injection H as <-. by apply disconnect_drain, Hnothing, Hnone.
  - injection H as <-. by apply Hnothing, Hnone.
  - injection H as <-. by apply disconnect_drain, Hnothing, Hnone.
Qed.

(** * The other phases *)

(** Nothing the drain depends on has changed. *)
Lemma drain_frame base n size t t' :
  waiting_drain base n size t → draining n (order_mgr_ t') → same_link_but_clock (io_ t) (io_ t') →
  tcp_rx_data_ t' = tcp_rx_data_ t → tcp_rx_read_ t' = tcp_rx_read_ t → tcp_rx_write_ t' = tcp_rx_write_ t →
  waiting_drain base n size t'.
Proof.
  intros [Hm Hq (p & Hp & Hi & Hn & Hpd) Hdn] Hm' Hl Ed Er Ew. pose proof Hl as ((C1 & C2 & C3 & C4 & C5) & _ & Hu & _). split.
  - done.
  - by eapply quiet_clock.
  - exists p. rewrite C2, Hu. split; [| done]. unfold pends in *. by rewrite Ed, Er, Ew.
  - by rewrite Hu, Er, Ew.
Qed.

(** A connection attempt that is over. *)
Lemma drain_opened base n size t t' :
  waiting_drain base n size t → up (io_ t) = false → order_mgr_ t' = order_mgr_ t → tcp_rx_data_ t' = tcp_rx_data_ t →
  tcp_rx_read_ t' = tcp_rx_read_ t → tcp_rx_write_ t' = tcp_rx_write_ t → io_ok (io_ t') → wire (os (io_ t')) = [] →
  (past (os (io_ t')) = past (os (io_ t)) ∨ past (os (io_ t')) = past (os (io_ t)) ++ [[]]) →
  (up (io_ t') = false ∧ ((recvs (os (io_ t')) = recvs (os (io_ t)) ∧ later (os (io_ t')) = later (os (io_ t))) ∨
                          (recvs (os (io_ t')) = [] ∧ later (os (io_ t')) = tail (later (os (io_ t)))))) ∨
  (up (io_ t') = true ∧ recvs (os (io_ t')) = (default ([], []) (head (later (os (io_ t))))).2 ∧
   later (os (io_ t')) = tail (later (os (io_ t)))) →
  waiting_drain base n size t'.
Proof.
  intros [Hm Hq (p & Hp & Hi & Hn & Hpd) Hdn] Hup Eo Ed Er Ew Hio Hw Hpast Hcase.
  pose proof Hq as [_ [Q1 Q2] _ Q4 Q5]. specialize (Hpd Hup). subst p. destruct (Hdn Hup) as [Hr0 Hw0]. destruct (Q4 Hup) as [_ Hrc].
  assert (Hhead : no_cancels (incoming (default ([], []) (head (later (os (io_ t))))).2) ∧
                  Forall (λ c : list SendAnswer * list RecvAnswer, no_cancels (incoming c.2)) (tail (later (os (io_ t))))).
  { destruct (later (os (io_ t))) as [| c l]; [exact (conj no_cancels_nil (Forall_nil_2 _)) | by inversion_clear Q5]. }
  split.
  - by rewrite Eo.
  - split; [done | | rewrite Hw; apply heartbeat_bytes_nil | |].
    + destruct Hpast as [-> | ->]; [done |]. rewrite length_app. split; [lia |]. rewrite drop_app_le by done. apply Forall_app.
      split; [done |]. constructor; [apply heartbeat_bytes_nil | done].
    + intros Hu. split; [done |]. destruct Hcase as [(_ & [(-> & _) | (-> & _)]) | (Hu' & _)]; [done | done | congruence].
    + destruct Hcase as [(_ & [(_ & ->) | (_ & ->)]) | (_ & _ & ->)]; [done | apply Hhead | apply Hhead].
  - exists []. split; [unfold pends in *; by rewrite Ed, Er, Ew |]. split; [done |]. split; [| done].
    destruct Hcase as [(_ & [(-> & _) | (-> & _)]) | (_ & -> & _)]; [done | exact no_cancels_nil | apply Hhead].
  - by rewrite Er, Ew.
Qed.

Lemma read_clock_drain base n size t : waiting_drain base n size t → waiting_drain base n size (read_clock t).2.
Proof.
  intros H. pose proof (monotonic_nanos_clock_only (os (io_ t))) as Hco. pose proof (monotonic_nanos_ok (os (io_ t))) as Hck.
  unfold read_clock, now. destruct (monotonic_nanos (os (io_ t))) as [ts w]. cbn [snd] in *.
  apply (drain_frame base n size t); [done | apply H | | done | done | done].
  split; [done |]. split; [apply Hck | done].
Qed.

Lemma send_heartbeat_drain base n size t now t' :
  waiting_drain base n size t → connected t = true → send_heartbeat native_little t now = Some t' → waiting_drain base n size t'.
Proof.
  intros Hwd Hc H. pose proof Hwd as [Hm Hq (p & Hp & Hi & Hn & Hpd) Hdn]. pose proof (q_io _ _ Hq) as Hio. pose proof Hio as [(Hr1 & Hr2 & Hr3) Hck].
  unfold send_heartbeat in H.
  destruct (send_frame_spec native_little (io_ t) kHeartbeat [] ltac:(constructor)) as (io' & Hs);
    [unfold kMaxPayloadSize; simpl; lia | simpl; lia | done |].
  pose proof (kernel_takes_ok (sends (os (io_ t))) (frame_bytes (tcp_frame kHeartbeat []))) as [Hpre _].
  destruct (kernel_takes _ _) as [taken status]. destruct Hs as (Hsf & Hw & _ & (Hb1 & Hb2 & Hb3 & Hc' & Hp' & Hl') & (Hst' & _) & _).
  rewrite Hsf in H. cbn [mbind option_bind default from_option] in H. set (t2 := with_io t io') in *.
  assert (Hhb : heartbeat_bytes taken).
  { exists [(ReqHeartbeat, taken)]. split; [split; constructor; done |]. unfold sent_bytes. simpl. by rewrite app_nil_r. }
  assert (Hup : up (io_ t2) = true) by (unfold up, t2; simpl; rewrite Hst'; exact Hc).
  assert (Hwd2 : waiting_drain base n size t2).
  { split; [done | | | intros; congruence].
    - assert (link_after (io_ t) (io_ t2) taken) as Hl by (left; unfold t2; simpl; rewrite Hw, Hp'; split; [unfold up; by rewrite Hst' | done]).
      destruct (link_past base _ _ _ Hq Hl Hhb) as (L1 & L2 & L3). split; [| done | done | intros; congruence | unfold t2; simpl; rewrite Hl'; apply Hq].
      unfold io_ok, roomy, clock_ok, t2. simpl. by rewrite Hb1, Hb2, Hc'.
    - exists p. change (recvs (os (io_ t2))) with (recvs (os io')). rewrite Hb3.
      split; [done |]. split; [done |]. split; [done | by rewrite Hup]. }
  assert (Hwd3 : waiting_drain base n size (if sent_ok status then t2 else disconnect t2)).
  { destruct (sent_ok status); [done | by apply disconnect_drain]. }
  injection H as <-. eapply drain_frame; [exact Hwd3 | apply Hwd3 | | done | done | done]. by repeat split.
Qed.

Lemma heartbeat_drain base n size t t' :
  waiting_drain base n size t → heartbeat_phase native_little t = Some t' → waiting_drain base n size t'.
Proof.
  intros Hwd H. unfold heartbeat_phase in H. destruct (connected t) eqn:Hc; [| by injection H as <-].
  pose proof (read_clock_drain _ _ _ _ Hwd) as Hwd1. destruct (read_clock_spec t) as (_ & _ & _ & Ec & _).
  destruct (read_clock t) as [now t1]. cbn [snd] in *. apply bind_inv in H as (t2 & E & H).
  assert (waiting_drain base n size t2) as Hwd2.
  { destruct (bool_decide _) in E; [| by injection E as <-]. eapply send_heartbeat_drain; [exact Hwd1 | | exact E]. unfold connected, conn_of in *. by rewrite Ec. }
  case_bool_decide; injection H as <-; [by apply disconnect_drain | done].
Qed.

Lemma connect_timeout_drain base n size t : waiting_drain base n size t → waiting_drain base n size (connect_timeout_phase t).
Proof.
  intros Hwd. destruct (connect_timeout_phase_spec t (q_io _ _ (wd_io _ _ _ _ Hwd))) as ((_ & Eo & Ed & _) & _ & Hio & Hu & Hw & Hp & Hr & Hl & Err & Eww).
  destruct (up (io_ t)) eqn:Hup.
  - unfold connect_timeout_phase. rewrite bool_decide_false; [done |]. intros Hs. unfold up, conn_of in *. by rewrite Hs in Hup.
  - pose proof (q_down _ _ (wd_io _ _ _ _ Hwd) Hup) as [Hw0 _]. eapply drain_opened; try done; [congruence | by left | left; by split; [| left]].
Qed.

Lemma reconnect_drain base n size t a : waiting_drain base n size t → waiting_drain base n size (reconnect_phase t a).1.
Proof.
  intros Hwd. destruct (reconnect_phase_spec t a (q_io _ _ (wd_io _ _ _ _ Hwd))) as ((_ & Eo & Ed & _) & Hio & _ & Er & Ew & Hupt & Hop & Hcase).
  destruct (up (io_ t)) eqn:Hup; [by rewrite Hupt |].
  pose proof (q_down _ _ (wd_io _ _ _ _ Hwd) Hup) as [Hw0 _]. destruct (Hop Hup Hw0) as [Hw Hp].
  eapply drain_opened; try done. by apply Hcase.
Qed.

Lemma kill_switch_drain base n size t : waiting_drain base n size t → kill_switch_phase ndebug native_little t = Some t.
Proof.
  intros Hwd. unfold kill_switch_phase. rewrite (draining_killed n) by apply Hwd. by rewrite andb_false_r.
Qed.

Lemma timeout_drain base n size t t' :
  waiting_drain base n size t → timeout_phase ndebug native_little t = Some t' → waiting_drain base n size t'.
Proof.
  intros Hwd H. unfold timeout_phase in H. destruct (connected t); [| by injection H as <-].
  pose proof (read_clock_drain _ _ _ _ Hwd) as Hwd1. destruct (read_clock t) as [now t1]. cbn [snd] in *.
  assert (advance_timeouts ndebug (order_mgr_ t1) now = Some (order_mgr_ t1, 0)) as E.
  { unfold advance_timeouts. by rewrite (proj1 (wd_manager _ _ _ _ Hwd1)). }
  rewrite E in H. cbn [mbind option_bind] in H. injection H as <-.
  eapply drain_frame; [exact Hwd1 | apply Hwd1 | by repeat split | done | done | done].
Qed.

Lemma signal_drain n h sg o io :
  draining n o → roomy 33 33 io →
  ∃ o' w', SendHandler.on_signal ndebug native_little h sg o io = Some (h, o', with_os io w', true) ∧ draining n o' ∧
    clock_only (os io) w' ∧ (clock_ok (os io) → clock_ok w').
Proof.
  intros Hd Hroom.
  assert (∃ w', approve ndebug o (os io) sg = Some ((reject_risk o rcKillSwitch).1, w', None)) as [w' Ha].
  { unfold approve. destruct (monotonic_nanos (os io)) as [t w]. unfold check_modify. rewrite (proj1 Hd). cbn [negb mbind option_bind].
    rewrite bool_decide_false by done. cbn [negb]. destruct (monotonic_nanos w) as [t1 w1]. destruct (monotonic_nanos w1) as [t2 w2].
    cbn [mbind option_bind]. unfold on_signal. rewrite (proj1 Hd). rewrite bool_decide_false by done. by exists w2. }
  pose proof (on_signal_refines ndebug native_little h sg o io _ w' None Ha Hroom ltac:(done)) as E.
  destruct (approve_clock ndebug o (os io) sg _ w' None Ha) as [Hco Hck]. by exists (reject_risk o rcKillSwitch).1, w'.
Qed.

Lemma market_drain base n size us : ∀ t t',
  waiting_drain base n size t → market_phase ndebug native_little t us = Some t' → waiting_drain base n size t'.
Proof.
  induction us as [| u us IH]; intros t t' Hwd H; cbn [market_phase] in H; [by injection H as <-|].
  apply bind_inv in H as ([s sg] & _ & H). set (t1 := with_market t s (order_mgr_ t) (io_ t) (send_handler_ t)) in *.
  assert (waiting_drain base n size t1) as Hwd1.
  { eapply drain_frame; [exact Hwd | apply Hwd | by repeat split | done | done | done]. }
  destruct sg as [sg |]; [| by apply (IH t1)]. destruct (connected t1); cbn [negb] in H; [| by apply (IH t1)].
  destruct (signal_drain n (send_handler_ t1) sg (order_mgr_ t1) (io_ t1) (wd_manager _ _ _ _ Hwd1) (proj1 (q_io _ _ (wd_io _ _ _ _ Hwd1))))
    as (o' & w' & E & Hd & Hco & Hck). rewrite E in H. cbn [mbind option_bind] in H. eapply IH; [| exact H].
  eapply drain_frame; [exact Hwd1 | exact Hd | | done | done | done]. split; [exact Hco |]. split; [exact Hck | done].
Qed.

Lemma on_event_drain base n size t e t' :
  waiting_drain base n size t → on_event ndebug native_little t e = Some t' → waiting_drain base n size t'.
Proof.
  intros Hwd H. unfold on_event in H. destruct (bool_decide_reflect (state (conn_of t) = kConnecting)) as [Hst | Hst]; cbn [andb] in H.
  1: destruct (epollout e); cbn [andb] in H.
  - assert (up (io_ t) = false) as Hup by (unfold up, conn_of in *; by rewrite Hst).
    set (t1 := with_conn_of t _) in *. assert (waiting_drain base n size t1) as Hwd1.
    { eapply drain_frame; [exact Hwd | apply Hwd | | done | done | done]. split; [done |]. split; [done |]. split; [by rewrite Hup | done]. }
    assert (up (io_ t1) = false) as Hup1 by done.
    pose proof (q_io _ _ (wd_io _ _ _ _ Hwd1)) as Hio1. pose proof (q_down _ _ (wd_io _ _ _ _ Hwd1) Hup1) as [Hw1 Hr1].
    set (r := if sock_err e then (t1, false) else finalize t1 (nodelay_ok e) (nonblocking_ok e)) in *.
    assert (Hr : waiting_drain base n size r.1 ∧ (r.2 = false → up (io_ r.1) = false)).
    { unfold r. destruct (sock_err e); [done |].
      destruct (finalize_spec t1 (nodelay_ok e) (nonblocking_ok e) Hio1) as ((_ & Eo & Ed & _) & _ & Hio & Hw & Er & Ew & El & Hcase).
      destruct (finalize t1 (nodelay_ok e) (nonblocking_ok e)) as [t2 ok]. cbn [fst snd] in *. destruct ok.
      - destruct Hcase as (Hu & Hp & Hrc). split; [| done]. eapply drain_opened; try done; [by left | by right].
      - destruct Hcase as (Hu & Hp & Hrc). assert (up (io_ t2) = false) as Hu2 by (unfold up, conn_of in *; by rewrite Hu).
        split; [| done]. eapply drain_opened; try done; [by right | left; split; [done | by right]]. }
    destruct r as [t2 ok]. cbn [fst snd] in Hr. destruct Hr as [Hwd2 Hok]. destruct ok; [by injection H as <- |].
    pose proof (read_clock_drain _ _ _ _ Hwd2) as Hwd3. destruct (read_clock_spec t2) as (_ & _ & _ & Ec & _).
    destruct (read_clock t2) as [now t3]. cbn [snd] in *. injection H as <-.
    eapply drain_frame; [exact Hwd3 | apply Hwd3 | | done | done | done]. split; [done |]. split; [done |]. split; [| done].
    specialize (Hok eq_refl). unfold up in *. simpl. rewrite Ec. rewrite Hok. done.
  - assert (connected t = false) as Hc by (unfold connected; by rewrite Hst). rewrite Hc in H. cbn [andb] in H. by injection H as <-.
  - destruct (connected t) eqn:Hc; cbn [andb] in H; [| by injection H as <-].
    destruct (epollin e); [by eapply receive_loop_drain |]. destruct (epollhup_or_err e); injection H as <-; [by apply disconnect_drain | done].
Qed.

Lemma response_drain base n size es : ∀ t t',
  waiting_drain base n size t → response_phase ndebug native_little t es = Some t' → waiting_drain base n size t'.
Proof.
  induction es as [| e es IH]; intros t t' Hwd H; cbn [response_phase] in H; [by injection H as <- |].
  apply bind_inv in H as (t1 & E & H). eapply IH; [by eapply on_event_drain | exact H].
Qed.

Lemma iteration_drain base n size t i t' :
  waiting_drain base n size t → iteration ndebug native_little t i = Some t' → waiting_drain base n size t'.
Proof.
  intros Hwd H. unfold iteration in H. set (t0 := with_flags t _ _) in *.
  assert (waiting_drain base n size t0) as Hwd0 by (eapply drain_frame; [exact Hwd | apply Hwd | by repeat split | done | done | done]).
  destruct (stop_flag_ t0); [by injection H as <- |]. rewrite (kill_switch_drain base n size) in H by done. cbn [mbind option_bind] in H.
  rewrite bool_decide_false in H by (unfold kill_switch_state; by rewrite (proj1 (wd_manager _ _ _ _ Hwd0))).
  apply bind_inv in H as (t1 & E1 & H). pose proof (heartbeat_drain _ _ _ _ _ Hwd0 E1) as Hwd1.
  pose proof (connect_timeout_drain _ _ _ _ Hwd1) as Hwd2. set (t2 := connect_timeout_phase t1) in *.
  pose proof (reconnect_drain _ _ _ _ (attempt i) Hwd2) as Hwd3. destruct (reconnect_phase t2 (attempt i)) as [t3 stop]. cbn [fst] in Hwd3.
  destruct stop; [by injection H as <- |].
  apply bind_inv in H as (t4 & E4 & H). pose proof (timeout_drain _ _ _ _ _ Hwd3 E4) as Hwd4.
  apply bind_inv in H as (t5 & E5 & H). pose proof (market_drain _ _ _ _ _ _ Hwd4 E5) as Hwd5. by eapply response_drain.
Qed.

Lemma run_drain base n size ins : ∀ t t',
  waiting_drain base n size t → run ndebug native_little t ins = Some t' → waiting_drain base n size t'.
Proof.
  induction ins as [| i ins IH]; intros t t' Hwd H; cbn [run] in H; [by injection H as <- |].
  destruct (stop_flag_ t); [by injection H as <- |]. apply bind_inv in H as (t1 & E & H). eapply IH; [by eapply iteration_drain | exact H].
Qed.

(** * A batch of cancellations whose connection is lost *)

(** A connection that ends in a batch ends by the teardown. *)
Lemma send_cancels_lost cs : ∀ t t',
  io_ok (io_ t) → connected t = true → Forall CancelOrder_ok cs → send_cancels native_little t cs = Some t' → connected t' = false →
  cs ≠ [] ∧ ∃ t0, t' = disconnect t0 ∧ connected t0 = true ∧ order_mgr_ t0 = order_mgr_ t ∧ tcp_rx_data_ t0 = tcp_rx_data_ t ∧
    later (os (io_ t0)) = later (os (io_ t)).
Proof.
  induction cs as [| c cs IH]; intros t t' Hio Hc Hcs H Hlost; [simpl in H; congruence |]. split; [done |].
  inversion_clear Hcs as [| ? ? Hco Hcs']. cbn [send_cancels] in H.
  destruct (transmit native_little (io_ t) (os (io_ t)) (ReqCancel c) Hco ltac:(done) (proj1 Hio)) as (io' & ok & Ht & Hs).
  assert (with_os (io_ t) (os (io_ t)) = io_ t) as Eio by by destruct (io_ t). rewrite Eio in Hs. rewrite Hs in H.
  cbn [mbind option_bind default from_option] in H.
  destruct (transmitted_io (io_ t) (os (io_ t)) (ReqCancel c) io' ok Hio ltac:(done) (proj2 Hio) Ht) as (Hio' & Hs' & _).
  assert (later (os io') = later (os (io_ t))) as Hlater.
  { unfold transmitted in Ht. destruct (kernel_takes _ _) in Ht. destruct Ht as (_ & _ & _ & (_ & _ & _ & _ & _ & Hl) & _). exact Hl. }
  set (t1 := with_io t io') in *. assert (connected t1 = true) as Hc1 by (unfold connected, conn_of, t1 in *; simpl; by rewrite Hs').
  destruct ok; [| injection H as <-; by exists t1].
  destruct (IH t1 t' Hio' Hc1 Hcs' H Hlost) as (_ & t0 & E & H1 & H2 & H3 & H4). exists t0. split_and!; try done.
  rewrite H4. exact Hlater.
Qed.

Context {TL : TableLaws Z OrderInfo M} {TIL : TableIterLaws Z OrderInfo M}.

Lemma kill_switch_lost t t1 :
  io_ok (io_ t) → inv ndebug (order_mgr_ t) → connected t = true → is_killed (order_mgr_ t) = false → kill_switch_flag_ t = true →
  kill_switch_phase ndebug native_little t = Some t1 → connected t1 = false →
  Forall (λ c : list SendAnswer * list RecvAnswer, no_cancels (incoming c.2)) (later (os (io_ t))) →
  0 < outstanding_count_ (order_mgr_ t) ∧
  waiting_drain (length (past (os (io_ t1)))) (outstanding_count_ (order_mgr_ t)) (lenZ (tcp_rx_data_ t)) t1.
Proof.
  intros Hio Hinv Hc Hk Hf H Hlost Hlater. pose proof H as H'.
  destruct (kill_switch_phase_spec ndebug native_little t Hio Hinv) as (t1' & l & E & Hca & _). rewrite E in H'. injection H' as ->.
  unfold kill_switch_phase in H. rewrite Hc, Hk, Hf in H. cbn [negb andb] in H.
  assert (kill_switch_state_ (order_mgr_ t) = kNormal) as Hn by (unfold is_killed in Hk; by destruct (kill_switch_state_ (order_mgr_ t))).
  destruct (read_clock_spec t) as ((_ & Eo & Ed & _) & _ & Hco & Econn & Hck & _). destruct (Hck Hio) as [Hnow Hio1].
  destruct (read_clock t) as [now ta]. cbn [fst snd] in *.
  destruct (trigger_spec ndebug (order_mgr_ t) now Hinv Hn) as (o' & n & Et & _ & En & Hb & _ & _ & _ & _ & _ & _ & Hpc & Hks).
  rewrite Eo, Et in H. cbn [mbind option_bind] in H.
  apply send_cancels_lost in H as (Hne & t0 & -> & Hc0 & Ho0 & Hd0 & Hl0); [| done | unfold connected, conn_of in *; simpl; by rewrite Econn | | done].
  2:{ by eapply (cancels_ok ndebug (order_mgr_ t) (orders (order_mgr_ t)) now). }
  assert (0 < n) as Hpos by (destruct (decide (0 < n)); [done |]; by replace (Z.to_nat n) with 0%nat in Hne by lia).
  split; [lia |]. destruct (disconnect_spec t0 Hc0) as (Eod & _ & Es & Ew & Ep & Eio & Edd & Er & Ewr & _).
  destruct (disconnect_rx t0 Hc0) as [Erc El].
  assert (up (io_ (disconnect t0)) = false) as Hup by (unfold up, conn_of in *; by rewrite Es). split.
  - rewrite Eod, Ho0. split; [simpl; by rewrite Hks, bool_decide_false by lia | by rewrite <- En].
  - split; [apply Hca | split; [done |] | rewrite Ew; apply heartbeat_bytes_nil | done |].
    + rewrite drop_all. exact (Forall_nil_2 _).
    + rewrite El, Hl0. simpl. destruct Hco as (_ & _ & _ & -> & _). exact Hlater.
  - exists []. split; [exists [], (tcp_rx_data_ t) |].
    + rewrite Edd, Er, Ewr, Hd0. simpl. rewrite Ed. by split_and!.
    + rewrite Erc. split; [done |]. split; [exact no_cancels_nil | done].
  - by rewrite Er, Ewr.
Qed.
End Drain.
End STDrain.
