(* ===== verification/ClientTheorems.v ===== *)
(** What is proved of the client's strategy thread ([StrategyThread.v]):
    responses arrive whatever the segmentation of the stream, orders leave
    only when they were approved and reach an exchange as they were decided,
    and the kill switch cancels what is tracked.  The connection theorems are
    in [ConnectionTheorems.v]. *)
From S2P Require Import Prelude.
From S2P Require Import HashUtils.
From S2P Require Import TableInterface.
From S2P Require Import TradingTypes.
From S2P Require Import Endian.
From S2P Require Import Protocol.
From S2P Require Import Framing.
From S2P Require Import ByteStream.
From S2P Require Import TimingWheel.
From S2P Require Import OrderManager.
From S2P Require Import OrderManagerSpec.
From S2P Require Import OrderManagerResponses.
From S2P Require Import OrderManagerTheorems.
From S2P Require Import Strategy.
From S2P Require Import StrategyPolicy.
From S2P Require Import SpreadPolicy.
From S2P Require Import TcpSocket.
From S2P Require Import TcpConnection.
From S2P Require Import OrderPath.
From S2P Require Import OrderPathSpec.
From S2P Require Import StrategyThread.
From S2P Require Import StrategyRx.
From S2P Require Import StrategyMarket.
From S2P Require Import StrategyLink.
Local Open Scope Z_scope.

Import OMgr Tcp Conn Io ST ResponseHandler OMSpec OMResp OrderPathSpec OrderOut OrderIn STRx STMarket STTrade STLink STReceive.

(** * A concrete thread for the witnesses *)

Definition demo_policy : StrategyPolicy Spread.SpreadStrategy := SpreadPolicy.policy 2.
#[local] Existing Instance demo_policy.

Definition demo_laws : StrategyLaws Spread.SpreadStrategy :=
  SpreadPolicy.laws 2 (conj (bool_decide_unpack (0 <= 2) I) (bool_decide_unpack (2 < 2 ^ 32) I)).
#[local] Existing Instance demo_laws.

Abbreviation Client := (@StrategyThread Outstanding Spread.SpreadStrategy).

(** A thread over [demo] or another manager, connected, with a receive buffer
    of 128 bytes and what the kernel will answer. *)
Definition client (o : OrderManager Outstanding) (answers : list SendAnswer) (waiting : list RecvAnswer) (kill : bool) : Client :=
  {| strategy_ := Spread.construct 2 60 5; order_mgr_ := o;
     io_ := {| scratch := replicate 64 0; tcp_tx_buf := replicate 64 0;
               os := {| sends := answers; recvs := waiting; wire := []; later := []; past := []; clock := [1000; 2000] |};
               conn := initial |};
     tcp_rx_data_ := replicate 128 0; tcp_rx_read_ := 0; tcp_rx_write_ := 0; stop_flag_ := false;
     kill_switch_flag_ := kill; response_handler_ := ResponseHandler.construct; send_handler_ := SendHandler.construct |}.

Lemma client_io_ok o answers waiting kill : io_ok (io_ (client o answers waiting kill)).
Proof. split; [split; [| split]; vm_compute; congruence |]. repeat constructor; vm_compute; congruence. Qed.

Lemma client_thread_ok o answers waiting kill :
  inv false o → per_symbol_limit o → net_position (ctx_ o) = [0; 0] → max_symbols (ctx_ o) = 2 →
  thread_ok false (client o answers waiting kill).
Proof.
  intros Hi Hp Hn Hm. split; simpl; try done; [| by rewrite Hm | | exact (client_io_ok o answers waiting kill)].
  - intros i p. rewrite Hn. intros H%getZ_to_lookup.
    destruct (Z.to_nat i) as [| [| ?]]; simpl in H; try done; injection H as <-; lia.
  - by apply SpreadPolicy.spread_construct_ok.
Qed.

(** A quote of symbol 1 that makes the spread strategy buy. *)
Definition quote (s : Side) (price : Z) : MarketDataUpdate :=
  {| md_seq_num := 1; md_symbol_id := 1; md_msg_type := 0; md_side := side_to_u8 s; md_price := price; md_qty := 10;
     md_exchange_ts := 0 |}.
Definition wide_quotes : list MarketDataUpdate := [quote kBid 100; quote kAsk 300].

Lemma wide_quotes_ok : Forall quote_ok wide_quotes.
Proof. repeat constructor; vm_compute; congruence. Qed.

(** * Responses *)

(** C9. However the exchange's stream of responses is cut into receives, a
    readable event delivers to the order manager exactly the events of the
    complete messages, in order, and keeps the bytes of an unfinished one for
    the next time; the kill flag is raised exactly by the fifth rejection in
    a row (or a later one) and by a message of another protocol version;
    short and unknown messages change nothing but counters.  The loop ends,
    and fails only where the order manager does. *)
Theorem client_responses_correct (ndebug native_little : bool) {M : Type} `{TM : Table Z OrderInfo M}
    `{TI : TableIter Z OrderInfo M} `{TR : TableRebuild M} {S : Type}
    (t : StrategyThread M S) (e : EpollEvent) (size : Z) (p part : list Z) (segments : list (list Z)) (rs : list Response) :
  connected t = true → epollin e = true → handler_ok (response_handler_ t) → 0 <= streak_of t →
  streak_of t + lenZ rs < 2 ^ 32 → Forall response_ok rs →
  pends size t p → bytes_ok p → split native_little p = ([], p) →
  recvs (os (io_ t)) = Arrived <$> segments → Forall bytes_ok segments → Forall (λ s, s ≠ []) segments →
  p ++ concat segments = concat (frame_bytes <$> (response_frame <$> rs)) ++ part →
  well_framed size (response_frame <$> rs) part →
  match handle_all ndebug (order_mgr_ t) (omap event_of rs) with
  | Some o => ∃ t', on_event ndebug native_little t e = Some t' ∧ pends size t' part ∧
      order_mgr_ t' = o ∧ strategy_ t' = strategy_ t ∧ connected t' = true ∧ stop_flag_ t' = stop_flag_ t ∧
      kill_switch_flag_ t' = kill_switch_flag_ t || tripped (streak_of t) rs ∧
      streak_of t' = streak_after (streak_of t) rs ∧
      recvs (os (io_ t')) = [] ∧ wire (os (io_ t')) = wire (os (io_ t))
  | None => on_event ndebug native_little t e = None
  end.
Proof.
  intros Hc He Hh H0 H1 Hrs Hp Hpo Hidle Hrecv Hso Hs Hcat Hwf.
  assert (Hon : on_event ndebug native_little t e = receive_loop ndebug native_little (rx_fuel t) t).
  { unfold on_event. rewrite Hc, He. pose proof Hc as Hst. apply bool_decide_eq_true in Hst. by rewrite Hst. }
  rewrite Hon. unfold rx_fuel. rewrite Hrecv.
  pose proof (fits_well_framed native_little size _ part Hwf) as Hfit. rewrite <- Hcat in Hfit.
  pose proof (receive_loop_spec ndebug native_little size _ t p segments Hpo Hso Hs Hp Hidle Hrecv Hfit
    (Nat.lt_succ_diag_r (recv_size (Arrived <$> segments)))) as Hrx.
  rewrite Hcat, (split_well_framed native_little size _ part Hwf) in Hrx. cbn [fst snd] in Hrx. rewrite <- list_fmap_compose in Hrx.
  pose proof (deliver_responses ndebug native_little rs (with_waiting t []) Hh Hrs H0 H1) as Hd.
  change (order_mgr_ (with_waiting t [])) with (order_mgr_ t) in Hd.
  destruct (handle_all _ _ _) as [o |].
  - destruct Hd as (t' & Ed & [A1 A2 A3 A4 (A5 & A6 & A7) ((_ & C2 & C3 & _) & A9 & _)]). rewrite Ed in Hrx.
    destruct Hrx as (data & read & write & E & Hp'). exists (with_rx t' data read write).
    split; [exact E |]. split; [done |]. split; [done |]. split; [done |]. split; [unfold connected, conn_of; simpl; unfold up in A9; by rewrite A9 |].
    split; [done |]. split; [done |]. split; [done |]. split; [done |]. done.
  - by rewrite Hd in Hrx.
Qed.

(** ** A fill and a rejection, cut in the middle of the first header and of
    the second message, with the first bytes of a third behind them. *)

Definition fill1 : FillReport :=
  {| fr_client_order_id := 1; fr_exchange_order_id := 1; fr_fill_price := 10; fr_fill_qty := 5; fr_remaining_qty := 0; fr_send_ts := 0 |}.
Definition reject7 : OrderReject := {| or_client_order_id := 7; or_reason := 1; or_send_ts := 0 |}.
Definition demo_responses : list Response := [RFill fill1; ROrderReject reject7].
Definition demo_stream : list Z :=
  concat (frame_bytes <$> (response_frame <$> demo_responses)) ++ take 5 (frame_bytes (response_frame RHeartbeatAck)).
Definition demo_segments : list (list Z) := [take 3 demo_stream; take 60 (drop 3 demo_stream); drop 63 demo_stream].
Definition readable : EpollEvent :=
  {| epollout := false; epollin := true; epollhup_or_err := false; sock_err := false; nodelay_ok := true; nonblocking_ok := true |}.

Lemma demo_responses_ok : Forall response_ok demo_responses.
Proof. repeat constructor; vm_compute; congruence. Qed.

Lemma demo_stream_framed : well_framed 128 (response_frame <$> demo_responses) (take 5 (frame_bytes (response_frame RHeartbeatAck))).
Proof.
  pose proof demo_responses_ok as Hr. inversion_clear Hr as [| ? ? H1 H2]. inversion_clear H2 as [| ? ? H3 _].
  split; [| split; [lia |]].
  - constructor; [split; [by apply (response_frame_ok (RFill fill1)) | vm_compute; congruence] |].
    constructor; [| constructor]. split; [by apply (response_frame_ok (ROrderReject reject7)) | vm_compute; congruence].
  - exists (response_frame RHeartbeatAck), (drop 5 (frame_bytes (response_frame RHeartbeatAck))).
    split; [by apply (response_frame_ok RHeartbeatAck) |]. split; [vm_compute; congruence |]. split; [by rewrite take_drop | by vm_compute].
Qed.

Lemma demo_segments_ok : Forall bytes_ok demo_segments ∧ Forall (λ s, s ≠ []) demo_segments ∧ concat demo_segments = demo_stream.
Proof.
  assert (bytes_ok demo_stream) as Hb by (apply (bool_decide_unpack _); vm_compute; reflexivity).
  split; [| split; [repeat constructor; by vm_compute | by vm_compute]].
  unfold demo_segments. constructor; [by apply Forall_take |]. constructor; [by apply Forall_take, Forall_drop |].
  constructor; [by apply Forall_drop | constructor].
Qed.

Transparent demo1.
Lemma demo_handled : ∃ o, handle_all false demo1 (omap event_of demo_responses) = Some o.
Proof.
  assert (match handle_all false demo1 (omap event_of demo_responses) with Some _ => true | None => false end = true) as H
    by (vm_compute; reflexivity).
  destruct (handle_all _ _ _) as [o |]; [by exists o | done].
Qed.
Opaque demo1.

Lemma client_responses_correct_witness :
  ∃ t', on_event false true (client demo1 [] (Arrived <$> demo_segments) false) readable = Some t' ∧
    pends 128 t' (take 5 (frame_bytes (response_frame RHeartbeatAck))) ∧ streak_of t' = 1 ∧ kill_switch_flag_ t' = false.
Proof.
  pose proof (client_responses_correct false true (client demo1 [] (Arrived <$> demo_segments) false) readable 128 []
    (take 5 (frame_bytes (response_frame RHeartbeatAck))) demo_segments demo_responses) as H.
  destruct demo_segments_ok as (Hb & Hn & Hc). destruct demo_handled as [o Ho].
  change (order_mgr_ (client demo1 [] (Arrived <$> demo_segments) false)) with demo1 in H. rewrite Ho in H.
  destruct H as (t' & E & Hp & _ & _ & _ & _ & Hk & Hs & _).
  - reflexivity.
  - reflexivity.
  - reflexivity.
  - vm_compute. congruence.
  - vm_compute. reflexivity.
  - apply demo_responses_ok.
  - exists [], (replicate 128 0). split; [reflexivity |]. split; [reflexivity |]. split; [reflexivity | reflexivity].
  - constructor.
  - reflexivity.
  - reflexivity.
  - exact Hb.
  - exact Hn.
  - exact Hc.
  - apply demo_stream_framed.
  - exists t'. split; [exact E |]. split; [exact Hp |]. split; [exact Hs | exact Hk].
Defined.

(** * Orders *)

(** Whatever the kernel answers, a batch of market data is processed to
    its end or to the loss of the connection, the invariants are kept, and
    what was handed to the socket is, request by request, a prefix of the
    frame of a request that was warranted when it was decided: a new order
    that passed all seven checks and is tracked, or the modification of a
    tracked order of that symbol and side under a kill switch at rest. *)
Theorem client_sends_only_approved (ndebug native_little : bool) {M : Type} `{TM : Table Z OrderInfo M}
    `{TI : TableIter Z OrderInfo M} `{TR : TableRebuild M} {TL : TableLaws Z OrderInfo M} {TIL : TableIterLaws Z OrderInfo M}
    {S : Type} `{SP : StrategyPolicy S} {SL : StrategyLaws S} (t : StrategyThread M S) (updates : list MarketDataUpdate) :
  thread_ok ndebug t → Forall quote_ok updates → next_order_id_ (order_mgr_ t) + lenZ updates < 2 ^ 64 →
  ∃ t' l, market_phase ndebug native_little t updates = Some t' ∧ thread_ok ndebug t' ∧
    link_after (io_ t) (io_ t') (sent_bytes l) ∧ Forall sent_part l ∧
    Forall (λ s : Sent, ∃ o1 o2 sg, rtc (om_step ndebug) (order_mgr_ t) o1 ∧ warranted o1 o2 sg s.1) l ∧
    rtc (om_step ndebug) (order_mgr_ t) (order_mgr_ t').
Proof.
  intros Hok Hq Hn. destruct (market_phase_spec ndebug native_little updates t Hok Hq Hn) as (t' & l & E & H1 & H2 & H3 & H4 & H5 & _).
  exists t', l. by split_and!.
Qed.

Lemma client_sends_only_approved_witness :
  ∃ t' l, market_phase false true (client demo [Room 20] [] false) wide_quotes = Some t' ∧ Forall sent_part l ∧
    link_after (io_ (client demo [Room 20] [] false)) (io_ t') (sent_bytes l).
Proof.
  destruct demo_inv as (Hi & Hp & _).
  destruct (client_sends_only_approved false true (client demo [Room 20] [] false) wide_quotes) as (t' & l & E & _ & Hl & Hs & _).
  - apply client_thread_ok; [exact Hi | exact Hp | reflexivity | reflexivity].
  - apply wide_quotes_ok.
  - vm_compute. reflexivity.
  - exists t', l. split; [exact E |]. split; [exact Hs | exact Hl].
Defined.

(** C8. On a connection whose send buffer has room, the market phase is
    [trade]: the strategy and the order manager go through the same states,
    and an exchange that splits the bytes it is sent and decodes the messages
    reads exactly the approved requests, in the order they were decided, on
    either byte order at either end, and nothing else. *)
Theorem client_orders_reach_exchange (ndebug native_little remote_little : bool) {M : Type} `{TM : Table Z OrderInfo M}
    `{TI : TableIter Z OrderInfo M} `{TR : TableRebuild M} {TL : TableLaws Z OrderInfo M} {TIL : TableIterLaws Z OrderInfo M}
    {S : Type} `{SP : StrategyPolicy S} {SL : StrategyLaws S} (t : StrategyThread M S) (updates : list MarketDataUpdate) :
  thread_ok ndebug t → Forall quote_ok updates → next_order_id_ (order_mgr_ t) + lenZ updates < 2 ^ 64 →
  always_room (length updates) (os (io_ t)) → connected t = true →
  ∃ t' ts rs bytes ms, trade ndebug (strategy_ t) (order_mgr_ t) (clock (os (io_ t))) updates = Some (strategy_ t', order_mgr_ t', ts, rs) ∧
    market_phase ndebug native_little t updates = Some t' ∧ connected t' = true ∧ thread_ok ndebug t' ∧
    wire (os (io_ t')) = wire (os (io_ t)) ++ bytes ∧
    split remote_little bytes = (ms, []) ∧ Forall2 (λ m r, read_request remote_little m = Some (Some r)) ms rs.
Proof.
  intros Hok Hq Hn Hroom Hc.
  destruct (market_phase_trades ndebug native_little updates t Hok Hq Hn Hroom Hc) as (t' & ts & rs & Ht & E & Hc' & Hok' & Hr & _ & Hw).
  destruct (read_requests remote_little rs Hr) as [Hs Hf].
  exists t', ts, rs, (frames rs), (frame_view ∘ request_frame <$> rs). by split_and!.
Qed.

Definition roomy_client : Client := client demo [Room 100; Room 60; Room 49] [] false.

Lemma client_orders_reach_exchange_witness :
  ∃ t' rs bytes ms, market_phase false true roomy_client wide_quotes = Some t' ∧
    wire (os (io_ t')) = bytes ∧ split true bytes = (ms, []) ∧
    Forall2 (λ m r, read_request true m = Some (Some r)) ms rs ∧
    rs = [ReqNew {| no_client_order_id := 1; no_symbol_id := 1; no_side := 0; no_price := 300; no_qty := 5; no_send_ts := 2000 |}].
Proof.
  destruct demo_inv as (Hi & Hp & _).
  destruct (client_orders_reach_exchange false true true roomy_client wide_quotes) as (t' & ts & rs & bytes & ms & Ht & E & _ & _ & Hw & Hs & Hf).
  - apply client_thread_ok; [exact Hi | exact Hp | reflexivity | reflexivity].
  - apply wide_quotes_ok.
  - vm_compute. reflexivity.
  - split; [simpl; lia |]. unfold roomy_client. repeat constructor; eexists; (split; [reflexivity | lia]).
  - reflexivity.
  - exists t', rs, bytes, ms. split; [exact E |]. split; [exact Hw |]. split; [exact Hs |]. split; [exact Hf |].
    apply (f_equal (fmap (λ x : _ * _ * _ * list Request, x.2))) in Ht. vm_compute in Ht. by injection Ht as ->.
Defined.

(** * The kill switch *)

(** The kill-switch phase, when the flag is up on a live connection and
    the manager not yet killed, kills it and tracks the same orders; the
    bytes handed over are parts of cancellations of tracked orders, and with
    room in the send buffer they are one whole cancellation for every tracked
    order, which the exchange reads as such.  In every other case the phase
    does nothing. *)
Theorem client_kill_switch (ndebug native_little remote_little : bool) {M : Type} `{TM : Table Z OrderInfo M}
    `{TI : TableIter Z OrderInfo M} `{TR : TableRebuild M} {TL : TableLaws Z OrderInfo M} {TIL : TableIterLaws Z OrderInfo M}
    {S : Type} (t : StrategyThread M S) :
  io_ok (io_ t) → inv ndebug (order_mgr_ t) →
  ∃ t' l, kill_switch_phase ndebug native_little t = Some t' ∧ inv ndebug (order_mgr_ t') ∧
    orders (order_mgr_ t') = orders (order_mgr_ t) ∧ link_after (io_ t) (io_ t') (sent_bytes l) ∧ Forall sent_part l ∧
    Forall (λ s : Sent, ∃ now k i, orders (order_mgr_ t) !! k = Some i ∧ s.1 = ReqCancel (cancel_of now (k, i))) l ∧
    if kill_switch_flag_ t && negb (is_killed (order_mgr_ t)) && connected t
    then is_killed (order_mgr_ t') = true ∧
      (always_room (size (orders (order_mgr_ t))) (os (io_ t)) →
       connected t' = true ∧ ∃ now ms,
         split remote_little (sent_bytes l) = (ms, []) ∧
         Forall2 (λ m r, read_request remote_little m = Some (Some r)) ms l.*1 ∧
         l.*1 ≡ₚ (λ kv, ReqCancel (cancel_of now kv)) <$> map_to_list (orders (order_mgr_ t)))
    else t' = t ∧ l = [].
Proof.
  intros Hio Hi. destruct (kill_switch_phase_spec ndebug native_little t Hio Hi) as (t' & l & E & Hca & Ho & Hk).
  pose proof (ca_parts _ _ _ _ Hca) as Hparts.
  exists t', l. split; [done |]. split; [apply Hca |]. split; [done |]. split; [apply Hca |]. split; [done |]. split; [apply Hca |].
  destruct (_ && _ && _); [| done]. destruct Hk as [Hk Hr]. split; [done |]. intros Hroom.
  destruct (Hr Hroom) as (Hc & Hw & now & Hp). split; [done |].
  assert (Forall request_ok l.*1) as Hrok by (apply Forall_fmap; eapply Forall_impl; [| exact Hparts]; by intros ? [? _]).
  destruct (read_requests remote_little l.*1 Hrok) as [Hs Hf]. exists now, (frame_view ∘ request_frame <$> l.*1).
  rewrite sent_whole_bytes by done. by split_and!.
Qed.

Lemma demo1_tracked : ∃ i, map_to_list (orders demo1) = [(1, i)] ∧ size (orders demo1) = 1%nat ∧ is_killed demo1 = false.
Proof. eexists. split; [vm_compute; reflexivity |]. by vm_compute. Qed.

Lemma client_kill_switch_witness :
  ∃ t' l, kill_switch_phase false true (client demo1 [Room 60; Room 60] [] true) = Some t' ∧ is_killed (order_mgr_ t') = true ∧
    ∃ now ms i, split true (sent_bytes l) = (ms, []) ∧ Forall2 (λ m r, read_request true m = Some (Some r)) ms l.*1 ∧
      l.*1 = [ReqCancel (cancel_of now (1, i))].
Proof.
  destruct demo1_inv as [Hi _]. destruct demo1_tracked as (i & Hl & Hs & Hk).
  destruct (client_kill_switch false true true (client demo1 [Room 60; Room 60] [] true)) as (t' & l & E & _ & _ & _ & _ & _ & H).
  - apply client_io_ok.
  - exact Hi.
  - exists t', l. split; [exact E |]. change (order_mgr_ (client demo1 [Room 60; Room 60] [] true)) with demo1 in H.
    rewrite Hk, Hl, Hs in H. destruct H as [H1 H2]. split; [exact H1 |].
    destruct H2 as (_ & now & ms & H3 & H4 & H5).
    { split; [simpl; lia |]. repeat constructor; eexists; (split; [reflexivity | lia]). }
    exists now, ms, i. split; [exact H3 |]. split; [exact H4 |]. by apply Permutation_singleton_r in H5.
Defined.
