(* ===== verification/ConnectionTheorems.v ===== *)
(** What is proved of the client's connection: the schedule of
    reconnections, the blocking socket calls, and two ways in which the loss
    of bytes is not noticed: a frame the kernel takes only in part, and a
    kill switch whose cancellations are cut off by a disconnect. *)
From S2P Require Import Prelude.
From S2P Require Import HashUtils.
From S2P Require Import TableInterface.
From S2P Require Import TradingTypes.
From S2P Require Import Endian.
From S2P Require Import Protocol.
From S2P Require Import Framing.
From S2P Require Import ByteStream.
From S2P Require Import TimingWheel.
From S2P Require Import OrderManager.
From S2P Require Import OrderManagerSpec.
From S2P Require Import OrderManagerTheorems.
From S2P Require Import Strategy.
From S2P Require Import StrategyPolicy.
From S2P Require Import SpreadPolicy.
From S2P Require Import TcpSocket.
From S2P Require Import TcpConnection.
From S2P Require Import OrderPath.
From S2P Require Import OrderPathSpec.
From S2P Require Import StrategyThread.
From S2P Require Import StrategyRx.
From S2P Require Import StrategyMarket.
From S2P Require Import StrategyLink.
From S2P Require Import ClientTheorems.
Local Open Scope Z_scope.

Import OMgr Tcp Conn Io ST OMSpec OrderPathSpec OrderOut STRx STMarket STLink STDrain.

(** * Blocking calls *)

(** A kernel that never fails: interruptions and room, for less than [n]
    bytes in all. *)
Definition starved (n : Z) (answers : list SendAnswer) : Prop :=
  Forall (λ a, a = SendError EINTR ∨ ∃ k, a = Room k ∧ (0 < k)%nat) answers ∧
  Z.of_nat (sum_list_with (λ a, match a with Room k => k | SendError _ => 0%nat end) answers) < n.

Lemma send_all_spec buf answers : ∀ total,
  0 <= total <= lenZ buf → lenZ buf <= SSIZE_MAX →
  match send_all answers buf total with
  | Some (rest, taken, r) => rest `suffix_of` answers ∧
      total <= bytes_sent r <= lenZ buf ∧ taken = take (Z.to_nat (bytes_sent r - total)) (drop (Z.to_nat total) buf) ∧
      (sr_status r = kOk ↔ bytes_sent r = lenZ buf) ∧ sr_status r ≠ kWouldBlock
  | None => starved (lenZ buf - total) answers
  end.
Proof.
  induction answers as [| a answers IH]; intros total Ht Hmax; cbn [send_all].
  all: case_bool_decide as Hlt; [| cbn [bytes_sent sr_status]; split; [done |]; rewrite Z.sub_diag; split; [lia |]; split; [done |]; split; [split; [lia | done] | done]].
  { split; [constructor | simpl; lia]. }
  destruct a as [n | e].
  - assert (take (Z.to_nat (Z.min (lenZ buf - total) SSIZE_MAX)) (drop (Z.to_nat total) buf) = drop (Z.to_nat total) buf) as ->
      by (apply take_ge; rewrite length_drop; lia).
    set (taken := take n (drop (Z.to_nat total) buf)).
    assert (length taken = Nat.min n (Z.to_nat (lenZ buf - total))) as Hlen by (unfold taken; rewrite length_take, length_drop; lia).
    case_bool_decide as Hz.
    { cbn [bytes_sent sr_status]. rewrite Z.sub_diag. split; [by apply suffix_cons_r |]. split; [lia |]. split; [done |].
      split; [split; [done | lia] | done]. }
    specialize (IH (total + lenZ taken) ltac:(lia) Hmax). destruct (send_all answers buf (total + lenZ taken)) as [[[rest more] r] |]; cbn [mbind option_bind].
    + destruct IH as (H1 & H2 & -> & H4). split; [by apply suffix_cons_r |]. split; [lia |]. split; [| done].
      replace (Z.to_nat (bytes_sent r - total)) with (length taken + Z.to_nat (bytes_sent r - (total + lenZ taken)))%nat by lia.
      rewrite <- take_take_drop. f_equal.
      * transitivity (take (length taken) (taken ++ drop n (drop (Z.to_nat total) buf))); [by rewrite take_app_length |].
        unfold taken at 2. by rewrite take_drop.
      * f_equal. rewrite drop_drop. f_equal. lia.
    + destruct IH as [H1 H2]. split; [constructor; [right; exists n; split; [done | lia] | done] |].
      cbn [sum_list_with]. lia.
  - assert (∀ st, st ≠ kOk → st ≠ kWouldBlock →
      let r := {| sr_status := st; bytes_sent := total; sr_err_no := Some e |} in
      answers `suffix_of` SendError e :: answers ∧ total <= bytes_sent r <= lenZ buf ∧
      [] = take (Z.to_nat (bytes_sent r - total)) (drop (Z.to_nat total) buf) ∧
      (sr_status r = kOk ↔ bytes_sent r = lenZ buf) ∧ sr_status r ≠ kWouldBlock) as Hfail.
    { intros st H1 H2 r. cbn [r bytes_sent sr_status]. rewrite Z.sub_diag. split; [by apply suffix_cons_r |]. split; [lia |]. split; [done |].
      split; [split; [done | lia] | done]. }
    case_bool_decide as He; [| destruct (peer_gone e); by apply Hfail].
    specialize (IH total Ht Hmax). destruct (send_all answers buf total) as [[[rest more] r] |].
    + destruct IH as (H1 & H). split; [by apply suffix_cons_r | done].
    + destruct IH as [H1 H2]. split; [constructor; [left; by rewrite He | done] | done].
Qed.

(** Interruptions and bytes, less than [n] of them. *)
Definition starving (n : Z) (answers : list RecvAnswer) : Prop :=
  Forall (λ a, a = RecvError EINTR ∨ ∃ b, a = Arrived b ∧ b ≠ []) answers ∧ lenZ (incoming answers) < n.

Lemma recv_all_spec len fuel : ∀ answers got,
  lenZ got <= len <= SSIZE_MAX → (recv_size answers <= fuel)%nat →
  match recv_all fuel answers len got with
  | Some (rest, r) => ∃ more, bytes_received r = got ++ more ∧ incoming answers = more ++ incoming rest ∧
      lenZ (bytes_received r) <= len ∧ (rr_status r = rOk ↔ lenZ (bytes_received r) = len) ∧ rr_status r ≠ rWouldBlock
  | None => starving (len - lenZ got) answers
  end.
Proof.
  induction fuel as [| fuel IH]; intros answers got Hl Hf; cbn [recv_all].
  all: case_bool_decide as Hlt; [| exists []; rewrite app_nil_r; cbn [bytes_received rr_status]; split; [done |]; split; [done |]; split; [lia |]; split; [split; [lia | done] | done]].
  { destruct answers as [| a answers]; [split; [constructor | simpl; lia] | destruct a; simpl in Hf; lia]. }
  destruct answers as [| [b | e] answers]; [split; [constructor | simpl; lia] | |].
  - set (k := Z.to_nat (Z.min (len - lenZ got) SSIZE_MAX)). assert (0 < k)%nat as Hk by (unfold k, SSIZE_MAX; lia).
    assert (Hin : incoming (Arrived b :: answers) = take k b ++ incoming (unread k b answers)).
    { cbn [incoming]. unfold unread. case_bool_decide; [by rewrite take_ge by lia |]. cbn [incoming]. by rewrite app_assoc, take_drop. }
    case_bool_decide as Hnil.
    { exists []. rewrite app_nil_r. cbn [bytes_received rr_status]. rewrite Hin, Hnil. split; [done |]. split; [done |]. split; [lia |].
      split; [split; [done | lia] | done]. }
    assert (length (take k b) <> 0)%nat as Hnz by by destruct (take k b).
    assert (lenZ (got ++ take k b) <= len) as Hlen by (rewrite length_app, length_take; unfold k; lia).
    assert (recv_size (unread k b answers) <= fuel)%nat as Hfu.
    { unfold recv_size in *. cbn [sum_list_with answer_size] in Hf. rewrite length_take in Hnz. unfold unread. case_bool_decide; [lia |].
      cbn [sum_list_with answer_size]. rewrite length_drop. lia. }
    specialize (IH (unread k b answers) (got ++ take k b) ltac:(lia) Hfu).
    destruct (recv_all fuel _ len _) as [[rest r] |].
    + destruct IH as (more & H1 & H2 & H3). exists (take k b ++ more). rewrite Hin, H2, !app_assoc. split; [done |]. split; [done |]. exact H3.
    + destruct IH as [H1 H2]. split.
      * constructor; [right; exists b; split; [done |]; by destruct b; [rewrite take_nil in Hnil |] |].
        unfold unread in H1. case_bool_decide; [done | by inversion_clear H1].
      * rewrite Hin, length_app. rewrite length_app in H2. lia.
  - case_bool_decide as He.
    + assert (recv_size answers <= fuel)%nat as Hfu by (unfold recv_size in *; cbn [sum_list_with answer_size] in Hf; lia).
      specialize (IH answers got Hl Hfu). destruct (recv_all fuel answers len got) as [[rest r] |]; [done |].
      destruct IH as [H1 H2]. split; [constructor; [left; by rewrite He | done] | done].
    + exists []. rewrite app_nil_r. cbn [bytes_received rr_status]. split; [done |]. split; [done |]. split; [lia |]. split; [split; [done | lia] | done].
Qed.

(** The blocking calls.  Unless the kernel never gives them enough,
    [send_blocking] and [receive_blocking] return.  A send has handed over
    exactly the first [bytes_sent] bytes of the buffer, a receive has taken
    exactly its bytes off the stream and lost none; the status is success
    precisely when the count is the whole length, whatever interruptions and
    partial transfers there were, and never would-block. *)
Theorem blocking_io_correct (w : Os) (buf : list Z) (len : Z) :
  0 < lenZ buf <= SSIZE_MAX → 0 < len <= SSIZE_MAX →
  match send_blocking w buf with
  | Some (w', r) => wire w' = wire w ++ take (Z.to_nat (bytes_sent r)) buf ∧ sends w' `suffix_of` sends w ∧ recvs w' = recvs w ∧
      0 <= bytes_sent r <= lenZ buf ∧ (sr_status r = kOk ↔ bytes_sent r = lenZ buf) ∧ sr_status r ≠ kWouldBlock
  | None => starved (lenZ buf) (sends w)
  end ∧
  match receive_blocking w len with
  | Some (w', r) => incoming (recvs w) = bytes_received r ++ incoming (recvs w') ∧ wire w' = wire w ∧ sends w' = sends w ∧
      lenZ (bytes_received r) <= len ∧ (rr_status r = rOk ↔ lenZ (bytes_received r) = len) ∧ rr_status r ≠ rWouldBlock
  | None => starving len (recvs w)
  end.
Proof.
  intros Hb Hl. unfold send_blocking, receive_blocking. rewrite !bool_decide_true by lia. cbn [mbind option_bind assertM]. split.
  - pose proof (send_all_spec buf (sends w) 0 ltac:(lia) ltac:(lia)) as H. rewrite Z.sub_0_r in H.
    destruct (send_all (sends w) buf 0) as [[[rest taken] r] |]; [| done]. cbn [mbind option_bind with_sends wire sends recvs].
    destruct H as (H1 & H2 & -> & H3). rewrite Z.sub_0_r, drop_0.
    split; [done |]. split; [done |]. split; [done |]. split; [lia | exact H3].
  - pose proof (recv_all_spec len (recv_size (recvs w)) (recvs w) [] ltac:(simpl; lia) (le_n _)) as H. simpl in H. rewrite Z.sub_0_r in H.
    destruct (recv_all _ _ _ _) as [[rest r] |]; [| done]. cbn [mbind option_bind with_recvs wire sends recvs].
    destruct H as (more & <- & Hin & H). split; [exact Hin |]. split; [done |]. split; [done | exact H].
Qed.

Definition chopped : Os :=
  {| sends := [Room 2; SendError EINTR; Room 9]; recvs := [Arrived [1]; RecvError EINTR; Arrived [2; 3; 4]]; wire := [];
     later := []; past := []; clock := [] |}.

Lemma blocking_io_correct_witness :
  ∃ w w' r r', send_blocking chopped [5; 6; 7] = Some (w, r) ∧ wire w = [5; 6; 7] ∧ bytes_sent r = 3 ∧
    receive_blocking chopped 3 = Some (w', r') ∧ bytes_received r' = [1; 2; 3] ∧ incoming (recvs w') = [4].
Proof.
  destruct (blocking_io_correct chopped [5; 6; 7] 3) as [Hs Hr]; [split; vm_compute; congruence | split; vm_compute; congruence |].
  destruct (send_blocking chopped [5; 6; 7]) as [[w r] |] eqn:E1; [| vm_compute in E1; discriminate].
  destruct (receive_blocking chopped 3) as [[w' r'] |] eqn:E2; [| vm_compute in E2; discriminate].
  exists w, w', r, r'. destruct Hs as (Hw & _ & _ & _ & Hok & _). destruct Hr as (Hin & _ & _ & _ & Hok' & _).
  vm_compute in E1, E2. injection E1 as <- <-. injection E2 as <- <-. split; [reflexivity |]. split; [exact Hw |]. repeat split; reflexivity.
Defined.

(** * The schedule of reconnections *)

(** The delay after the [k]-th failure in a row. *)
Definition backoff (k : nat) : Z := Z.min (2 ^ Z.of_nat k * kReconnectBaseDelayNs) kReconnectMaxDelayNs.

(** The next reading of the clock, which repeats its last one. *)
Definition reading (ts : list Z) : Z * list Z :=
  match ts with [] => (0, ts) | [t] => (t, ts) | t :: ts => (t, ts) end.

(** A lost connection: waiting for the next attempt after [k] failures in a
    row, trying until a deadline, or given up. *)
Inductive Link : Set := Waiting (next : Z) (k : nat) | Trying (deadline : Z) (k : nat) | GivenUp.

#[export] Instance Link_eq_dec : EqDecision Link.
Proof. solve_decision. Defined.

(** The failure of an attempt, found out at [now]. *)
Definition failed (now : Z) (k : nat) : Link := Waiting (now + backoff k) (S k).

Definition link_timeout (x : Link * list Z) : Link * list Z :=
  match x with
  | (Trying deadline k, ts) => let '(now, ts) := reading ts in (if bool_decide (deadline <= now) then failed now k else Trying deadline k, ts)
  | _ => x
  end.

(** An attempt is made only when it is due, and fails at once or goes on. *)
Definition link_attempt (a : ConnectAttempt) (x : Link * list Z) : Link * list Z :=
  match x with
  | (Waiting next k, ts) =>
      let '(now, ts) := reading ts in
      (if bool_decide (now < next) then Waiting next k
       else if bool_decide (10 <= k)%nat then GivenUp
       else match a with InProgress => Trying (now + kConnectTimeoutNs) k | _ => failed now k end, ts)
  | _ => x
  end.

Fixpoint link_events (es : list EpollEvent) (x : Link * list Z) : Link * list Z :=
  match es with
  | [] => x
  | e :: es =>
      match x with
      | (Trying deadline k, ts) => if epollout e then let '(now, ts) := reading ts in link_events es (failed now k, ts) else link_events es x
      | _ => x
      end
  end.

Definition link_step (x : Link * list Z) (i : Inputs) : Link * list Z :=
  link_events (events i) (link_attempt (attempt i) (link_timeout x)).
Definition link_run (x : Link * list Z) (inputs : list Inputs) : Link * list Z := fold_left link_step inputs x.

(** Readings more than the longest delay apart. *)
Fixpoint spaced (next : Z) (readings : list Z) : Prop :=
  match readings with [] => True | t :: readings => next <= t ∧ spaced (t + kReconnectMaxDelayNs) readings end.

Lemma backoff_bounds k : 0 < backoff k <= kReconnectMaxDelayNs.
Proof.
  unfold backoff, kReconnectBaseDelayNs, kReconnectMaxDelayNs. assert (0 < 2 ^ Z.of_nat k) by (apply Z.pow_pos_nonneg; lia). lia.
Qed.

Lemma backoff_step k : Z.min (u64 (backoff k * 2)) kReconnectMaxDelayNs = backoff (Datatypes.S k).
Proof.
  pose proof (backoff_bounds k). rewrite u64_id by (unfold kReconnectMaxDelayNs in *; mlia).
  unfold backoff, kReconnectBaseDelayNs, kReconnectMaxDelayNs. rewrite Nat2Z.inj_succ, Z.pow_succ_r by lia. lia.
Qed.

Lemma spaced_weaken next next' l : next' <= next → spaced next l → spaced next' l.
Proof. destruct l as [| t l]; simpl; [done |]. intros ? [? ?]. split; [lia | done]. Qed.

(** ** Giving up *)

Lemma link_events_given_up es ts : link_events es (GivenUp, ts) = (GivenUp, ts).
Proof. by destruct es. Qed.

Lemma link_run_given_up inputs ts : link_run (GivenUp, ts) inputs = (GivenUp, ts).
Proof. induction inputs as [| i inputs IH]; [done |]. unfold link_run in *. simpl. unfold link_step at 2. simpl. by rewrite link_events_given_up. Qed.

(** Progress: two steps for every failure. *)
Definition progress (l : Link) : nat := match l with Waiting _ k => 2 * k | Trying _ k => 2 * k + 1 | GivenUp => 22 end.
Definition due (l : Link) : Z := match l with Waiting next _ => next | Trying deadline _ => deadline | GivenUp => 0 end.

(** What is due is due at the next reading. *)
Definition ready_link (x : Link * list Z) : Prop := match x with (GivenUp, _) => True | (l, ts) => spaced (due l) ts end.

Lemma reading_pop t ts : ts ≠ [] → reading (t :: ts) = (t, ts).
Proof. by destruct ts. Qed.

Lemma failed_ready now k ts : spaced (now + kReconnectMaxDelayNs) ts → ready_link (failed now k, ts).
Proof. intros Hs. simpl. eapply spaced_weaken; [| exact Hs]. pose proof (backoff_bounds k). lia. Qed.

Lemma link_events_progress es : ∀ l ts,
  ready_link (l, ts) → (1 < length ts)%nat →
  ∃ l' ts', link_events es (l, ts) = (l', ts') ∧ ready_link (l', ts') ∧ (length ts <= length ts' + 1)%nat ∧ (progress l <= progress l')%nat.
Proof.
  induction es as [| e es IH]; intros l ts Hr Hl; cbn [link_events]; [exists l, ts; split; [done |]; split; [done | lia] |].
  destruct l as [next k | deadline k |]; [eexists _, _; split; [done |]; split; [done | lia] | | eexists _, _; split; [done |]; split; [done | lia]].
  destruct (epollout e); [| by apply IH]. destruct ts as [| t ts]; [simpl in Hl; lia |]. rewrite reading_pop by (destruct ts; [simpl in Hl; lia | done]).
  destruct Hr as [Ht Hs]. exists (failed t k), ts. split; [by destruct es |]. split; [by apply failed_ready | simpl; lia].
Qed.

Lemma link_step_progress l ts i :
  ready_link (l, ts) → (3 < length ts)%nat →
  ∃ l' ts', link_step (l, ts) i = (l', ts') ∧ ready_link (l', ts') ∧ (length ts <= length ts' + 3)%nat ∧
    (l' = GivenUp ∨ (progress l < progress l')%nat).
Proof.
  intros Hr Hl. unfold link_step.
  assert (∀ next k ts, spaced next ts → (2 < length ts)%nat → ∃ l' ts', link_events (events i) (link_attempt (attempt i) (Waiting next k, ts)) = (l', ts') ∧
    ready_link (l', ts') ∧ (length ts <= length ts' + 2)%nat ∧ (l' = GivenUp ∨ (2 * k < progress l')%nat)) as Hattempt.
  { intros next k us Hs Hus. destruct us as [| t us]; [simpl in Hus; lia |]. cbn [link_attempt]. rewrite reading_pop by (destruct us; [simpl in Hus; lia | done]).
    destruct Hs as [Ht Hs]. rewrite bool_decide_false by lia. case_bool_decide.
    { eexists _, _. rewrite link_events_given_up. split; [done |]. split; [done |]. split; [simpl; lia | by left]. }
    set (l1 := match attempt i with InProgress => _ | _ => _ end).
    assert (ready_link (l1, us) ∧ (2 * k < progress l1)%nat) as [H1 H2].
    { assert (ready_link (Trying (t + kConnectTimeoutNs) k, us)) by (simpl; eapply spaced_weaken; [| exact Hs]; unfold kConnectTimeoutNs, kReconnectMaxDelayNs; lia).
      unfold l1. destruct (attempt i); (split; [done || by apply failed_ready | simpl; lia]). }
    destruct (link_events_progress (events i) l1 us H1) as (l' & ts' & -> & H3 & H4 & H5); [simpl in Hus; lia |].
    exists l', ts'. split; [done |]. split; [done |]. split; [simpl; lia | right; lia]. }
  destruct l as [next k | deadline k |].
  - destruct (Hattempt next k ts Hr) as (l' & ts' & E & H1 & H2 & H3); [lia |]. exists l', ts'. split; [exact E |]. split; [done |]. split; [lia | done].
  - destruct ts as [| t ts]; [simpl in Hl; lia |]. cbn [link_timeout]. rewrite reading_pop by (destruct ts; [simpl in Hl; lia | done]). destruct Hr as [Ht Hs].
    rewrite bool_decide_true by (simpl in Ht; lia). pose proof (failed_ready t k ts Hs) as Hf.
    destruct (Hattempt (t + backoff k) (S k) ts Hf) as (l' & ts' & E & H1 & H2 & H3); [simpl in Hl; lia |]. exists l', ts'. split; [exact E |]. split; [done |].
    split; [simpl; lia |]. destruct H3 as [H3 | H3]; [by left | right; simpl in *; lia].
  - cbn [link_timeout link_attempt]. eexists _, _. rewrite link_events_given_up. split; [done |]. split; [done |]. split; [lia | by left].
Qed.

(** At most ten failures. *)
Definition patient (l : Link) : Prop := match l with Waiting _ k => (k <= 10)%nat | Trying _ k => (k <= 9)%nat | GivenUp => True end.

Lemma link_events_patient es : ∀ l ts, patient l → patient (link_events es (l, ts)).1.
Proof.
  induction es as [| e es IH]; intros l ts Hp; cbn [link_events]; [done |]. destruct l; [done | | done].
  destruct (epollout e); [| by apply IH]. destruct (reading ts) as [now us]. apply IH. simpl in *. lia.
Qed.

Lemma link_step_patient l ts i : patient l → patient (link_step (l, ts) i).1.
Proof.
  intros Hp. unfold link_step.
  assert (∀ next k us, (k <= 10)%nat → patient (link_events (events i) (link_attempt (attempt i) (Waiting next k, us))).1) as Hw.
  { intros next k us Hk. cbn [link_attempt]. destruct (reading us) as [now us']. apply link_events_patient. case_bool_decide; [done |]. case_bool_decide; [done |].
    destruct (attempt i); simpl; lia. }
  destruct l as [next k | deadline k |]; cbn [link_timeout patient] in *; [by apply Hw | | cbn [link_attempt]; by rewrite link_events_given_up].
  destruct (reading ts) as [now us]. case_bool_decide; [apply Hw; lia | by apply link_events_patient].
Qed.

Lemma link_run_ends inputs : ∀ l ts,
  ready_link (l, ts) → (3 * length inputs < length ts)%nat → patient l → (21 <= length inputs + progress l)%nat →
  (link_run (l, ts) inputs).1 = GivenUp.
Proof.
  induction inputs as [| i inputs IH]; intros l ts Hr Hl Hp Hm; cbn [length] in *.
  - destruct l; simpl in *; [lia | lia | done].
  - destruct (link_step_progress l ts i Hr) as (l1 & ts1 & E & Hr1 & Hl1 & Hp1); [lia |].
    pose proof (link_step_patient l ts i Hp) as Hpa. rewrite E in Hpa. unfold link_run in *. cbn [fold_left]. rewrite E.
    destruct Hp1 as [-> | Hp1]; [pose proof (link_run_given_up inputs ts1) as Hg; unfold link_run in Hg; by rewrite Hg |]. apply IH; [done | lia | done | lia].
Qed.

(** ** The thread *)

Section Reconnect.
Context (ndebug native_little : bool).
Context {M : Type} `{TM : Table Z OrderInfo M} `{TI : TableIter Z OrderInfo M} `{TR : TableRebuild M}.
Context {S : Type} `{SP : StrategyPolicy S}.
Implicit Types t : StrategyThread M S.

(** The thread's connection as a [Link]. *)
Definition linked (x : Link * list Z) t : Prop :=
  clock (os (io_ t)) = x.2 ∧
  match x.1 with
  | Waiting next k => stop_flag_ t = false ∧ state (conn_of t) = kDisconnected ∧ next_reconnect_at (conn_of t) = next ∧
      reconnect_attempts (conn_of t) = Z.of_nat k ∧ reconnect_delay (conn_of t) = backoff k ∧ (k <= 10)%nat
  | Trying deadline k => stop_flag_ t = false ∧ state (conn_of t) = kConnecting ∧ connect_deadline (conn_of t) = deadline ∧
      reconnect_attempts (conn_of t) = Z.of_nat k ∧ reconnect_delay (conn_of t) = backoff k ∧ (k <= 9)%nat
  | GivenUp => stop_flag_ t = true
  end.

(** An event that does not complete a connection: the socket reports an
    error, or one of its options cannot be set. *)
Definition no_success (e : EpollEvent) : Prop := epollout e = true → sock_err e = true ∨ nodelay_ok e && nonblocking_ok e = false.

(** An iteration in which no attempt succeeds and no data is waiting. *)
Definition hopeless (i : Inputs) : Prop :=
  stop_requested i = false ∧ match attempt i with Established nodelay nonblocking => nodelay && nonblocking = false | _ => True end ∧
  batch i = [] ∧ Forall no_success (events i).

(** All readings are in range, now and later. *)
Definition sane (ts : list Z) : Prop := ts ≠ [] ∧ Forall (λ r, 0 <= r < 2 ^ 62) ts.

Lemma reading_sane ts : sane ts → 0 <= (reading ts).1 < 2 ^ 62 ∧ sane (reading ts).2.
Proof.
  intros [Hne Hf]. destruct ts as [| a [| b ts]]; [done | |]; apply Forall_cons_1 in Hf as [Ha Hf]; (split; [exact Ha |]); split; try done.
  by apply list.Forall_cons.
Qed.

Lemma read_clock_reading t : ∃ t', read_clock t = ((reading (clock (os (io_ t)))).1, t') ∧ clock (os (io_ t')) = (reading (clock (os (io_ t)))).2 ∧
  conn_of t' = conn_of t ∧ stop_flag_ t' = stop_flag_ t ∧ kill_switch_flag_ t' = kill_switch_flag_ t ∧ order_mgr_ t' = order_mgr_ t.
Proof.
  unfold read_clock, Io.now, monotonic_nanos. destruct (clock (os (io_ t))) as [| a [| b ts]] eqn:Hc; cbn [reading fst snd]; (eexists; split; [reflexivity |]); simpl; done.
Qed.

Lemma finalize_fails t nodelay nonblocking : nodelay && nonblocking = false →
  ∃ t', finalize t nodelay nonblocking = (t', false) ∧ clock (os (io_ t')) = clock (os (io_ t)) ∧ conn_of t' = conn_of t ∧
    stop_flag_ t' = stop_flag_ t ∧ kill_switch_flag_ t' = kill_switch_flag_ t ∧ order_mgr_ t' = order_mgr_ t.
Proof.
  intros Hb. unfold finalize, finalize_tcp_connect.
  assert (∀ w, clock (open_socket w) = clock w) as Ho by (intros w; unfold open_socket; by destruct (later w) as [| []]).
  destruct nodelay; cbn [negb]; [destruct nonblocking; [done |]; cbn [negb] |]; (eexists; split; [reflexivity |]); simpl; rewrite Ho; done.
Qed.

(** A failure at [now] puts the link back to waiting. *)
Lemma linked_failed t c now k ts :
  state c = kDisconnected → reconnect_attempts c = Z.of_nat k → reconnect_delay c = backoff k → (k <= 9)%nat → 0 <= now < 2 ^ 62 →
  stop_flag_ t = false → clock (os (io_ t)) = ts → linked (failed now k, ts) (with_conn_of t (schedule_reconnect c (u64 now))).
Proof.
  intros Hst Hat Hdl Hk Hn Hs Hc. split; [exact Hc |]. cbn [fst failed].
  pose proof (backoff_bounds k). unfold kReconnectMaxDelayNs in *. split; [exact Hs |]. unfold schedule_reconnect. simpl.
  rewrite Hdl, Hat. rewrite (u64_id now) by mlia. rewrite u64_id by mlia. rewrite u32_id by mlia. split; [done |]. split; [done |]. split; [lia |]. split; [apply backoff_step | lia].
Qed.

Lemma linked_down x t : linked x t → x.1 ≠ GivenUp → connected t = false ∧ stop_flag_ t = false.
Proof. destruct x as [[next k | deadline k |] ts]; intros (_ & H) Hne; [| | done]; cbn [fst] in H; destruct H as (Hs & Hst & _); unfold connected; by rewrite Hst. Qed.

Lemma response_phase_linked es : ∀ x t, Forall no_success es → linked x t → x.1 ≠ GivenUp → sane x.2 →
  ∃ t', response_phase ndebug native_little t es = Some t' ∧ linked (link_events es x) t' ∧ order_mgr_ t' = order_mgr_ t.
Proof.
  induction es as [| e es IH]; intros [l ts] t Hes Hl Hne Hsane; cbn [response_phase link_events]; [by exists t |].
  apply Forall_cons_1 in Hes as [He Hes]. destruct (linked_down _ _ Hl Hne) as [Hdown _]. unfold on_event. rewrite Hdown. cbn [andb].
  destruct l as [next k | deadline k |]; [| | done].
  - destruct Hl as (Hck & Hs & Hst & Hrest). rewrite Hst. rewrite (bool_decide_false (kDisconnected = kConnecting)) by done. cbn [andb mbind option_bind].
    destruct (IH (Waiting next k, ts) t Hes) as (t' & E & H1 & H2); [by split | done | done |]. exists t'. split; [exact E |]. split; [| done]. by destruct es.
  - destruct Hl as (Hck & Hs & Hst & Hdl & Hat & Hbk & Hk). cbn [fst snd] in *. rewrite Hst. rewrite bool_decide_true by done. cbn [andb].
    destruct (epollout e) eqn:Hout; [| cbn [mbind option_bind]; apply (IH (Trying deadline k, ts)); [done | by split_and! | done | done]].
    set (t0 := with_conn_of t _).
    assert (∃ t1, (if sock_err e then (t0, false) else finalize t0 (nodelay_ok e) (nonblocking_ok e)) = (t1, false) ∧ clock (os (io_ t1)) = ts ∧ conn_of t1 = conn_of t0 ∧
      stop_flag_ t1 = false ∧ order_mgr_ t1 = order_mgr_ t) as (t1 & -> & F1 & F2 & F3 & F4).
    { destruct (sock_err e) eqn:Herr; [by exists t0 |]. destruct (He Hout) as [? | Hopt]; [congruence |].
      destruct (finalize_fails t0 _ _ Hopt) as (t1 & -> & G1 & G2 & G3 & G4 & G5). exists t1. split; [done |]. split; [rewrite G1; exact Hck |]. split; [exact G2 |]. split; [rewrite G3; exact Hs | exact G5]. }
    destruct (read_clock_reading t1) as (t2 & -> & G1 & G2 & G3 & _ & G5). rewrite F1 in *. destruct (reading_sane ts Hsane) as [Hr Hsane'].
    destruct (reading ts) as [now us]. cbn [fst snd mbind option_bind] in *.
    destruct (IH (failed now k, us) (with_conn_of t2 (schedule_reconnect (with_state (conn_of t2) kDisconnected (connecting (conn_of t2)) (connect_deadline (conn_of t2))) (u64 now))) Hes)
      as (t' & E & H1 & H2); [| done | done |].
    + apply linked_failed; try done; [rewrite G2, F2; exact Hat | rewrite G2, F2; exact Hbk | congruence].
    + exists t'. split; [exact E |]. split; [exact H1 |]. rewrite H2. simpl. congruence.
Qed.

Lemma timeout_linked x t : linked x t → sane x.2 → x.1 ≠ GivenUp →
  linked (link_timeout x) (connect_timeout_phase t) ∧ order_mgr_ (connect_timeout_phase t) = order_mgr_ t ∧ (link_timeout x).1 ≠ GivenUp ∧ sane (link_timeout x).2.
Proof.
  destruct x as [[next k | deadline k |] ts]; intros Hl Hsane Hne; [| | done]; unfold connect_timeout_phase; cbn [link_timeout].
  - pose proof Hl as (_ & _ & Hst & _). rewrite Hst, bool_decide_false by done. done.
  - destruct Hl as (Hck & Hs & Hst & Hdl & Hat & Hbk & Hk). cbn [fst snd] in *. rewrite Hst, bool_decide_true by done.
    destruct (read_clock_reading t) as (t1 & -> & G1 & G2 & G3 & G4 & G5). rewrite Hck in *. destruct (reading_sane ts Hsane) as [Hr Hsane'].
    destruct (reading ts) as [now us]. cbn [fst snd] in *. rewrite G2, Hdl.
    destruct (bool_decide_reflect (deadline <= now)).
    + rewrite bool_decide_true by lia. split; [| done]. apply linked_failed; try done. congruence.
    + rewrite bool_decide_false by lia. split; [| done]. split; [done |]. cbn [fst]. rewrite G2, G3. done.
Qed.

Lemma reconnect_linked x t a : linked x t → sane x.2 → x.1 ≠ GivenUp →
  match a with Established nodelay nonblocking => nodelay && nonblocking = false | _ => True end →
  ∃ t', reconnect_phase t a = (t', bool_decide ((link_attempt a x).1 = GivenUp)) ∧ linked (link_attempt a x) t' ∧ order_mgr_ t' = order_mgr_ t ∧ sane (link_attempt a x).2.
Proof.
  destruct x as [[next k | deadline k |] ts]; intros Hl Hsane Hne Ha; [| | done]; unfold reconnect_phase; cbn [link_attempt].
  - destruct Hl as (Hck & Hs & Hst & Hnx & Hat & Hbk & Hk). cbn [fst snd] in *. rewrite Hst, (bool_decide_true (kDisconnected = kDisconnected)) by done.
    destruct (read_clock_reading t) as (t1 & -> & G1 & G2 & G3 & G4 & G5). rewrite Hck in *. destruct (reading_sane ts Hsane) as [Hr Hsane'].
    destruct (reading ts) as [now us]. cbn [fst snd] in *. rewrite G2, Hnx, Hat. unfold kMaxReconnectAttempts.
    destruct (bool_decide_reflect (now < next)).
    { rewrite bool_decide_false by lia. rewrite bool_decide_false by done. exists t1. split; [done |]. split; [| done]. split; [done |]. cbn [fst]. rewrite G2, G3. done. }
    rewrite bool_decide_true by lia. destruct (bool_decide_reflect (10 <= k)%nat).
    { rewrite bool_decide_true by lia. rewrite bool_decide_true by done. eexists. split; [reflexivity |]. split; [| done]. split; [done | reflexivity]. }
    rewrite (bool_decide_false (Z.of_nat k >= 10)) by lia.
    assert (linked (failed now k, us) (with_conn_of t1 (schedule_reconnect (conn_of t1) (u64 now)))) as Hfail by (apply linked_failed; try done; try lia; congruence).
    rewrite G2 in Hfail.
    destruct a as [| | | nodelay nonblocking].
    1,2: rewrite bool_decide_false by done; eexists; (split; [reflexivity |]); done.
    + rewrite bool_decide_false by done. eexists. split; [reflexivity |]. split; [| done]. split; [done |]. cbn [fst]. simpl. unfold kConnectTimeoutNs.
      rewrite u64_id by mlia. split; [congruence |]. split; [done |]. split; [done |]. split; [congruence |]. split; [congruence | lia].
    + destruct (finalize_fails t1 nodelay nonblocking Ha) as (t2 & -> & F1 & F2 & F3 & F4 & F5). cbv iota. rewrite bool_decide_false by done.
      eexists. split; [reflexivity |]. split; [| simpl; split; [congruence | done]]. apply linked_failed; rewrite ?F2; try congruence; lia.
  - pose proof Hl as (_ & _ & Hst & _). rewrite Hst, bool_decide_false by done. exists t. rewrite bool_decide_false by done. done.
Qed.

Lemma hopeless_iteration x t i :
  linked x t → sane x.2 → x.1 ≠ GivenUp → hopeless i → kill_switch_state_ (order_mgr_ t) ≠ kComplete →
  ∃ t', iteration ndebug native_little t i = Some t' ∧ linked (link_step x i) t' ∧ order_mgr_ t' = order_mgr_ t.
Proof.
  intros Hl Hsane Hne (Hi1 & Hi2 & Hi3 & Hi4) Hks. destruct (linked_down _ _ Hl Hne) as [Hdown Hstop]. unfold iteration. rewrite Hstop, Hi1, Hi3. cbn [orb].
  set (t0 := with_flags t false _). change (stop_flag_ t0) with false. cbv iota.
  assert (linked x t0) as Hl0.
  { destruct Hl as [Hc Hl]. split; [exact Hc |]. destruct x.1; [| | done]; by destruct Hl as [_ Hl]. }
  assert (connected t0 = false) as Hd0 by exact Hdown.
  unfold kill_switch_phase. rewrite Hd0, andb_false_r. cbn [mbind option_bind].
  rewrite bool_decide_false by done. unfold heartbeat_phase. rewrite Hd0. cbn [mbind option_bind].
  destruct (timeout_linked x t0 Hl0 Hsane Hne) as (Hl1 & Ho1 & Hne1 & Hsane1). set (t1 := connect_timeout_phase t0) in *. change (order_mgr_ t0) with (order_mgr_ t) in Ho1.
  destruct (reconnect_linked _ t1 (attempt i) Hl1 Hsane1 Hne1 Hi2) as (t2 & -> & Hl2 & Ho2 & Hsane2).
  unfold link_step. destruct (bool_decide_reflect ((link_attempt (attempt i) (link_timeout x)).1 = GivenUp)) as [Hg | Hg].
  - exists t2. split; [done |]. destruct (link_attempt _ _) as [l ts]. cbn [fst] in Hg. subst l. rewrite link_events_given_up. split; [done | congruence].
  - destruct (linked_down _ _ Hl2 Hg) as [Hd2 _]. unfold timeout_phase. rewrite Hd2. cbn [mbind option_bind market_phase].
    destruct (response_phase_linked (events i) _ t2 Hi4 Hl2 Hg Hsane2) as (t3 & -> & Hl3 & Ho3). exists t3. split; [done |]. split; [done | congruence].
Qed.

Lemma link_step_sane x i : sane x.2 → sane (link_step x i).2.
Proof.
  assert (∀ es x, sane x.2 → sane (link_events es x).2) as He.
  { induction es as [| e es IH]; intros [l ts] Hs; [done |]. cbn [link_events]. destruct l; [done | | done].
    destruct (epollout e); [| by apply IH]. pose proof (reading_sane ts Hs) as [_ Hr]. destruct (reading ts). by apply IH. }
  assert (∀ a x, sane x.2 → sane (link_attempt a x).2) as Ha.
  { intros a [l ts] Hs. cbn [link_attempt]. destruct l; [| done ..]. pose proof (reading_sane ts Hs) as [_ Hr]. by destruct (reading ts). }
  intros Hs. unfold link_step. apply He, Ha. destruct x as [[] ts]; [done | | done]. cbn [link_timeout]. pose proof (reading_sane ts Hs) as [_ Hr]. by destruct (reading ts).
Qed.

Lemma hopeless_run inputs : ∀ x t,
  linked x t → sane x.2 → kill_switch_state_ (order_mgr_ t) ≠ kComplete → Forall hopeless inputs →
  ∃ t', run ndebug native_little t inputs = Some t' ∧ linked (link_run x inputs) t' ∧ order_mgr_ t' = order_mgr_ t.
Proof.
  induction inputs as [| i inputs IH]; intros x t Hl Hsane Hks Hh; cbn [run]; [by exists t |].
  apply Forall_cons_1 in Hh as [Hi Hh]. destruct (decide (x.1 = GivenUp)) as [Hg | Hne].
  - pose proof Hl as (_ & Hs). rewrite Hg in Hs. rewrite Hs. exists t. split; [done |]. destruct x as [l ts]. cbn [fst] in Hg. subst l. by rewrite link_run_given_up.
  - destruct (linked_down _ _ Hl Hne) as [_ Hs]. rewrite Hs. destruct (hopeless_iteration x t i Hl Hsane Hne Hi Hks) as (t1 & -> & Hl1 & Ho1). cbn [mbind option_bind].
    destruct (IH (link_step x i) t1 Hl1) as (t' & E & Hl' & Ho'); [by apply link_step_sane | congruence | done |]. exists t'. split; [exact E |]. split; [exact Hl' | congruence].
Qed.

Lemma disconnect_linked t :
  connected t = true → stop_flag_ t = false → sane (clock (os (io_ t))) →
  linked (let '(now, ts) := reading (clock (os (io_ t))) in (Waiting (now + kReconnectBaseDelayNs) 0, ts)) (disconnect t).
Proof.
  intros Hc Hst Hsane. apply bool_decide_eq_true in Hc. unfold linked, disconnect, disconnect_and_reconnect, conn_of in *. rewrite bool_decide_true by done.
  cbn [negb]. unfold monotonic_nanos, close_socket. cbn [clock]. destruct (reading_sane _ Hsane) as [Hr _].
  assert (∀ z, z = (reading (clock (os (io_ t)))).1 → u64 (z + kReconnectBaseDelayNs) = z + kReconnectBaseDelayNs) as Hu.
  { intros z ->. apply u64_id. unfold kReconnectBaseDelayNs. mlia. }
  destruct (clock (os (io_ t))) as [| a [| b ts]] eqn:Hck; [by destruct Hsane | |]; cbn [reading fst snd] in *; simpl; rewrite Hu by done; (split; [done |]); split_and!; try done; lia.
Qed.
End Reconnect.

(** C32. After a lost connection the attempts to restore it follow the
    schedule of [Link]: the first is due a second after the disconnect, and
    the delay after a failure doubles up to ten seconds; a failure is one
    refused at once, a socket whose options cannot be set, an error
    reported by the socket, or three seconds without an answer, and it is
    counted only for an attempt that was due; after ten failures in a row the
    next attempt due stops the thread.  In particular twenty-one iterations
    over readings further apart than the longest delay always end it, and the
    order manager is left alone throughout. *)
Theorem reconnect_backoff (ndebug native_little : bool) {M : Type} `{TM : Table Z OrderInfo M} `{TI : TableIter Z OrderInfo M}
    `{TR : TableRebuild M} {S : Type} `{SP : StrategyPolicy S} (t : StrategyThread M S) (inputs : list Inputs) (t0 : Z) (readings : list Z) :
  connected t = true → stop_flag_ t = false → kill_switch_state_ (order_mgr_ t) ≠ kComplete → Forall hopeless inputs →
  clock (os (io_ t)) = t0 :: readings → readings ≠ [] → Forall (λ r, 0 <= r < 2 ^ 62) (t0 :: readings) →
  let start := (Waiting (t0 + kReconnectBaseDelayNs) 0, readings) in
  ∃ t', run ndebug native_little (disconnect t) inputs = Some t' ∧ order_mgr_ t' = order_mgr_ t ∧
    match (link_run start inputs).1 with
    | Waiting next k => stop_flag_ t' = false ∧ state (conn_of t') = kDisconnected ∧ next_reconnect_at (conn_of t') = next ∧
        reconnect_attempts (conn_of t') = Z.of_nat k ∧ reconnect_delay (conn_of t') = backoff k ∧ (k <= 10)%nat
    | Trying deadline k => stop_flag_ t' = false ∧ state (conn_of t') = kConnecting ∧ connect_deadline (conn_of t') = deadline ∧
        reconnect_attempts (conn_of t') = Z.of_nat k ∧ reconnect_delay (conn_of t') = backoff k ∧ (k <= 9)%nat
    | GivenUp => stop_flag_ t' = true
    end ∧
    ((21 <= length inputs)%nat → (3 * length inputs < length readings)%nat → spaced (t0 + kReconnectBaseDelayNs) readings → stop_flag_ t' = true).
Proof.
  intros Hc Hst Hks Hh Hck Hne Hr start. assert (sane (clock (os (io_ t)))) as Hsane by (rewrite Hck; by split).
  pose proof (disconnect_linked t Hc Hst Hsane) as Hl. rewrite Hck, reading_pop in Hl by done. fold start in Hl.
  assert (order_mgr_ (disconnect t) = order_mgr_ t) as Eo by apply (disconnect_spec t Hc).
  destruct (hopeless_run ndebug native_little inputs start (disconnect t) Hl) as (t' & E & Hl' & Ho'); [| congruence | done |].
  { apply Forall_cons_1 in Hr as [_ Hr]. by split. }
  exists t'. split; [done |]. split; [congruence |]. split; [apply Hl' |].
  intros H21 H3 Hsp. destruct Hl' as [_ Hl']. unfold start in Hl'. by rewrite (link_run_ends inputs (Waiting (t0 + kReconnectBaseDelayNs) 0) readings Hsp H3) in Hl' by (simpl; lia).
Qed.

#[local] Existing Instance demo_policy.
#[local] Existing Instance demo_laws.

Definition at_times (t : Client) (ts : list Z) (next : list (list SendAnswer * list RecvAnswer)) : Client :=
  with_io t (with_os (io_ t)
    {| sends := sends (os (io_ t)); recvs := recvs (os (io_ t)); wire := wire (os (io_ t)); later := next; past := past (os (io_ t));
       clock := ts |}).

(** An attempt that stays in progress; one refused at once; a socket that
    reports an error. *)
Definition failing (a : ConnectAttempt) (es : list EpollEvent) : Inputs :=
  {| stop_requested := false; kill_requested := false; attempt := a; batch := []; events := es |}.
Definition socket_error : EpollEvent :=
  {| epollout := true; epollin := false; epollhup_or_err := true; sock_err := true; nodelay_ok := false; nonblocking_ok := false |}.
Definition failures : list Inputs := [failing Refused []; failing InProgress [socket_error]; failing InProgress []] ++ replicate 18 (failing InProgress []).

(** Readings eleven seconds apart. *)
Definition every_11s : list Z := (λ k, Z.of_nat k * 11000000000) <$> seq 1 70.

Lemma reconnect_backoff_witness :
  ∃ t', run false true (disconnect (at_times (client demo [] [] false) (0 :: every_11s) [])) failures = Some t' ∧
    stop_flag_ t' = true.
Proof.
  destruct (reconnect_backoff false true (at_times (client demo [] [] false) (0 :: every_11s) []) failures
    0 every_11s) as (t' & E & _ & _ & H).
  - reflexivity.
  - reflexivity.
  - vm_compute. discriminate.
  - unfold failures. simpl. repeat constructor; intros; by left.
  - reflexivity.
  - discriminate.
  - unfold every_11s. repeat constructor; vm_compute; congruence.
  - exists t'. split; [exact E |]. apply H; [unfold failures; simpl; lia | unfold failures, every_11s; simpl; lia |]. unfold every_11s. repeat split; vm_compute; congruence.
Defined.

(** * Bytes lost *)

(** C18. When the connection is lost while the cancellations of a kill switch
    are being sent, they are not sent again: the manager stays draining with
    its count of pending cancellations, whatever the thread does afterwards
    and over any number of new connections, unless the exchange answers
    cancellations it was not sent; all it hands over is heartbeats. *)
Theorem cut_kill_switch_never_completes (ndebug native_little : bool) {M : Type} `{TM : Table Z OrderInfo M}
    `{TI : TableIter Z OrderInfo M} `{TR : TableRebuild M} {TL : TableLaws Z OrderInfo M} {TIL : TableIterLaws Z OrderInfo M}
    {S : Type} `{SP : StrategyPolicy S} (t t1 t' : StrategyThread M S) (inputs : list Inputs) :
  io_ok (io_ t) → inv ndebug (order_mgr_ t) → connected t = true → is_killed (order_mgr_ t) = false → kill_switch_flag_ t = true →
  kill_switch_phase ndebug native_little t = Some t1 → connected t1 = false →
  Forall (λ c : list SendAnswer * list RecvAnswer, no_cancels native_little (incoming c.2)) (later (os (io_ t))) →
  run ndebug native_little t1 inputs = Some t' →
  0 < outstanding_count_ (order_mgr_ t) ∧ kill_switch_state_ (order_mgr_ t') = kDraining ∧
  pending_cancel_count_ (order_mgr_ t') = outstanding_count_ (order_mgr_ t) ∧
  Forall heartbeat_bytes (drop (length (past (os (io_ t1)))) (past (os (io_ t')))) ∧ heartbeat_bytes (wire (os (io_ t'))).
Proof.
  intros Hio Hi Hc Hk Hf Hkp Hl Hlater Hrun.
  destruct (kill_switch_lost ndebug native_little t t1 Hio Hi Hc Hk Hf Hkp Hl Hlater) as [Hpos Hwd].
  pose proof (run_drain ndebug native_little _ _ _ inputs t1 t' Hwd Hrun) as [[H1 H2] Hq _ _].
  destruct (q_past _ _ _ Hq) as [_ Hp]. pose proof (q_wire _ _ _ Hq). by split_and!.
Qed.

(** ** One tracked order; the send of its cancellation finds the peer gone;
    the next connection is refused once, then made, carries a heartbeat and
    its acknowledgement, and the thread goes on. *)

Definition cut_client : Client :=
  at_times (client demo1 [SendError EPIPE] [] true) [0; 1; 2000000000; 4000000000; 4000000001; 4000000002; 4000000003; 5200000000]
    [([Room 100; Room 100], [Arrived (frame_bytes (tcp_frame kHeartbeatAck []))])].
Definition idle_at (a : ConnectAttempt) : Inputs :=
  {| stop_requested := false; kill_requested := true; attempt := a; batch := []; events := [readable] |}.
Definition cut_inputs : list Inputs := [idle_at Refused; idle_at (Established true true); idle_at Refused; idle_at Refused].

Transparent demo1.
Lemma cut_client_runs :
  ∃ t1 t', kill_switch_phase false true cut_client = Some t1 ∧ connected t1 = false ∧ run false true t1 cut_inputs = Some t' ∧
    connected t' = true.
Proof.
  assert (match kill_switch_phase false true cut_client with
          | Some t1 => negb (connected t1) && match run false true t1 cut_inputs with Some t' => connected t' | None => false end
          | None => false
          end = true) as H by (vm_compute; reflexivity).
  destruct (kill_switch_phase false true cut_client) as [t1 |]; [| done]. apply andb_true_iff in H as [H1 H2].
  destruct (run false true t1 cut_inputs) as [t' |] eqn:E2; [| done]. exists t1, t'. split_and!; try done. by destruct (connected t1).
Qed.
Opaque demo1.

Lemma cut_client_io : io_ok (io_ cut_client).
Proof. split; [split; [| split]; vm_compute; congruence |]. repeat constructor; vm_compute; congruence. Qed.

Lemma cut_client_later :
  Forall (λ c : list SendAnswer * list RecvAnswer, no_cancels true (incoming c.2)) (later (os (io_ cut_client))).
Proof.
  constructor; [| constructor]. cbn [snd]. split; apply (bool_decide_unpack _); vm_compute; reflexivity.
Qed.

Lemma cut_kill_switch_never_completes_witness :
  ∃ t1 t', kill_switch_phase false true cut_client = Some t1 ∧ run false true t1 cut_inputs = Some t' ∧
    kill_switch_state_ (order_mgr_ t') = kDraining ∧ pending_cancel_count_ (order_mgr_ t') = 1.
Proof.
  destruct cut_client_runs as (t1 & t' & E1 & Hc & E2 & _). exists t1, t'. split; [exact E1 |]. split; [exact E2 |].
  destruct (cut_kill_switch_never_completes false true cut_client t1 t' cut_inputs) as (_ & H1 & H2 & _).
  - apply cut_client_io.
  - apply (proj1 demo1_inv).
  - reflexivity.
  - vm_compute. reflexivity.
  - reflexivity.
  - exact E1.
  - exact Hc.
  - apply cut_client_later.
  - exact E2.
  - split; [exact H1 |]. etransitivity; [exact H2 | vm_compute; reflexivity].
Defined.

(** A kernel that takes 37 bytes of the first frame and all of the second. *)
Definition cut_frame_client : Client := client demo [Room 37; Room 100] [] false.
Definition three_quotes : list MarketDataUpdate := [quote kBid 100; quote kAsk 300; quote kBid 101].

Definition request_terms (r : Request) : Z * Z * Z :=
  match r with ReqNew n => (no_client_order_id n, no_price n, no_qty n) | _ => (0, 0, 0) end.

(** A frame cut after its header and followed by other bytes is a frame of
    the same type whose payload those bytes complete. *)
Lemma cut_frame_bytes t p n x :
  (16 <= n <= 16 + length p)%nat → length x = (16 + length p - n)%nat →
  take n (frame_bytes (tcp_frame t p)) ++ x = frame_bytes (tcp_frame t (take (n - 16) p ++ x)).
Proof.
  intros Hn Hx. unfold frame_bytes, message_bytes. cbn [tcp_frame fm_version fm_type fm_flags fm_payload].
  rewrite (length_app (take _ _)), length_take, Hx. replace (Z.of_nat ((n - 16) `min` length p + (16 + length p - n))) with (lenZ p) by lia.
  rewrite take_app_ge by (pose proof (length_header_bytes kProtocolVersion (msg_type_id t) (lenZ p) 0); lia).
  pose proof (length_header_bytes kProtocolVersion (msg_type_id t) (lenZ p) 0) as Hh.
  replace (n - length (header_bytes kProtocolVersion (msg_type_id t) (lenZ p) 0))%nat with (n - 16)%nat by lia. by rewrite <- app_assoc.
Qed.

(** What the kernel takes when it has room for [n] bytes. *)
Lemma kernel_takes_part n more buf : take n buf ≠ [] → kernel_takes (Room n :: more) buf = (take n buf, kOk).
Proof. intros Hne. cbn [kernel_takes]. by rewrite bool_decide_false by done. Qed.

(** C19. A frame that the kernel takes only in part counts as sent: nothing is
    sent again, no counter moves and the connection stays up.  Wherever the
    cut falls behind its header, the bytes of the next frame then complete
    it: the exchange reads a message with the header of the first, whose
    payload ends in the first bytes of the second frame, and goes on reading
    in the middle of that frame. *)
Theorem cut_frame_is_completed native_little (io : Io) t1 p1 t2 p2 n m more :
  bytes_ok p1 → bytes_ok p2 → lenZ p1 <= kMaxPayloadSize → lenZ p2 <= kMaxPayloadSize →
  kMessageHeaderSize + lenZ p1 <= lenZ (tcp_tx_buf io) → kMessageHeaderSize + lenZ p2 <= lenZ (tcp_tx_buf io) →
  lenZ (tcp_tx_buf io) <= SSIZE_MAX → sends (os io) = Room n :: Room m :: more →
  let f1 := frame_bytes (tcp_frame t1 p1) in let f2 := frame_bytes (tcp_frame t2 p2) in
  let k := (length f1 - n)%nat in
  (16 <= n < length f1)%nat → (k <= length f2 <= m)%nat →
  ∃ io1 io2, send_frame native_little io t1 p1 = Some (io1, Some true) ∧ send_frame native_little io1 t2 p2 = Some (io2, Some true) ∧
    same_link (conn io) (conn io2) ∧ send_would_block (conn io2) = send_would_block (conn io) ∧
    send_failures (conn io2) = send_failures (conn io) ∧ wire (os io2) = wire (os io) ++ take n f1 ++ f2 ∧
    split native_little (take n f1 ++ f2) =
      (frame_view (tcp_frame t1 (take (n - 16) p1 ++ take k f2)) :: (split native_little (drop k f2)).1, (split native_little (drop k f2)).2).
Proof.
  intros Hp1 Hp2 Hm1 Hm2 Hb1 Hb2 Hss Hs f1 f2 k Hn Hk.
  pose proof (frame_bytes_ok _ (tcp_frame_ok t2 p2 Hp2 Hm2)) as Hf2. fold f2 in Hf2.
  pose proof (frame_bytes_length (tcp_frame t1 p1)) as Hl1. fold f1 in Hl1. change (fm_payload (tcp_frame t1 p1)) with p1 in Hl1.
  pose proof (frame_bytes_length (tcp_frame t2 p2)) as Hl2. fold f2 in Hl2. change (fm_payload (tcp_frame t2 p2)) with p2 in Hl2.
  assert (take n f1 ≠ []) as Ht1 by (intros H%(f_equal length); rewrite length_take in H; simpl in H; lia).
  assert (take m f2 ≠ []) as Ht2 by (intros H%(f_equal length); rewrite length_take in H; simpl in H; unfold kMessageHeaderSize in *; lia).
  destruct (send_frame_spec native_little io t1 p1 Hp1 Hm1 Hb1 Hss) as (io1 & H1). rewrite Hs, kernel_takes_part in H1 by done.
  destruct H1 as (E1 & W1 & S1 & (_ & B1 & _) & L1 & K1 & F1).
  destruct (send_frame_spec native_little io1 t2 p2 Hp2 Hm2) as (io2 & H2); [by rewrite B1 | by rewrite B1 |].
  cbn [kernel_rest] in S1. rewrite S1 in H2. rewrite kernel_takes_part in H2 by done.
  destruct H2 as (E2 & W2 & _ & _ & L2 & K2 & F2).
  exists io1, io2. split; [exact E1 |]. split; [exact E2 |]. split; [unfold same_link in *; destruct_and!; split_and!; congruence |].
  split; [by rewrite K2, K1 |]. split; [by rewrite F2, F1 |]. split.
  { rewrite W2, W1, <- app_assoc. fold f2. by rewrite (take_ge f2) by lia. }
  rewrite <- (take_drop k f2) at 1. rewrite app_assoc. unfold f1. rewrite cut_frame_bytes;
    [| unfold kMessageHeaderSize in *; lia | rewrite length_take; unfold k, kMessageHeaderSize in *; lia].
  apply split_frame; [| by apply Forall_drop].
  apply tcp_frame_ok; [apply Forall_app; split; by apply Forall_take |].
  rewrite length_app, !length_take. unfold kMessageHeaderSize, k in *. lia.
Qed.

(** Two new orders, the first cut after 37 of its 49 bytes: the message read
    is of its type, but not the order. *)
Definition cut_order : NewOrder :=
  {| no_client_order_id := 1; no_symbol_id := 1; no_side := side_to_u8 kAsk; no_price := 300; no_qty := 5; no_send_ts := 0 |}.

Lemma cut_frame_is_completed_witness :
  ∃ io1 io2, send_frame true (io_ cut_frame_client) kNewOrder (layout_new_order cut_order) = Some (io1, Some true) ∧
    send_frame true io1 kNewOrder (layout_new_order cut_order) = Some (io2, Some true) ∧
    same_link (conn (io_ cut_frame_client)) (conn io2) ∧ send_failures (conn io2) = 0 ∧
    ∃ m, (split true (wire (os io2))).1 = [m] ∧
      mh_msg_type (pmv_header m) = msg_type_id kNewOrder ∧ pmv_payload m ≠ layout_new_order cut_order.
Proof.
  destruct (cut_frame_is_completed true (io_ cut_frame_client) kNewOrder (layout_new_order cut_order) kNewOrder (layout_new_order cut_order) 37 100 [])
    as (io1 & io2 & E1 & E2 & Hl & _ & Hf & Hw & Hs);
    [apply (bool_decide_unpack _); by vm_compute | apply (bool_decide_unpack _); by vm_compute | by vm_compute | by vm_compute | by vm_compute
    | by vm_compute | by vm_compute | reflexivity | vm_compute; lia | vm_compute; lia |].
  exists io1, io2. split; [exact E1 |]. split; [exact E2 |]. split; [exact Hl |]. split; [exact Hf |]. rewrite Hw.
  change (wire (os (io_ cut_frame_client))) with (@nil Z). rewrite app_nil_l, Hs.
  eexists. split; [cbn [fst]; by vm_compute |]. split; [done | by vm_compute].
Defined.

(** Two orders of five shares each were approved (limit 100) and the first
    is cut: the exchange reads one, of 1,397,051,953 shares at the right price
    under the right number, and is left in the middle of a message, while the
    client tracks both on a connection it believes sound. *)
Example partial_send_desynchronises :
  option_map (λ x, map request_terms x.2) (STTrade.trade false (strategy_ cut_frame_client) demo [1000; 2000] three_quotes)
    = Some [(1, 300, 5); (2, 101, 5)] ∧
  ∃ t, market_phase false true cut_frame_client three_quotes = Some t ∧
    connected t = true ∧ send_failures (conn_of t) = 0 ∧ send_would_block (conn_of t) = 0 ∧
    SendHandler.orders_serialized (send_handler_ t) = 2 ∧ outstanding_count_ (order_mgr_ t) = 2 ∧
    max_order_size_ (order_mgr_ t) = 100 ∧
    ∃ m rest r, split true (wire (os (io_ t))) = ([m], rest) ∧ read_request true m = Some (Some r) ∧
      request_terms r = (1, 300, 1397051953) ∧ length rest = 37%nat.
Proof.
  split; [vm_compute; reflexivity |]. eexists. split; [vm_compute; reflexivity |].
  do 6 (split; [vm_compute; reflexivity |]). do 3 eexists. split; [vm_compute; reflexivity |].
  split; [vm_compute; reflexivity |]. by vm_compute.
Qed.
