(* ===== verification/WireTheorems.v ===== *)
(** The properties of the wire formats: byte order, the eleven messages of
    the protocol, the message envelope and the length-prefixed frame. *)
From S2P Require Import Prelude.
From S2P Require Import Endian.
From S2P Require Import Protocol.
From S2P Require Import Framing.
Local Open Scope Z_scope.

(** * Byte order *)

(** Replacing [n] bytes in the middle of a buffer, and reading them back. *)
Lemma put_middle n xs old ys v :
  length old = n → put n (xs ++ old ++ ys) (lenZ xs) v = Some (xs ++ to_be n v ++ ys).
Proof.
  intros Hn. unfold put. rewrite memcpy_to_skip by lia. rewrite Z.sub_diag.
  rewrite memcpy_to_here by (rewrite ?length_to_be, ?length_app; lia). simpl.
  rewrite length_to_be, <- Hn, drop_app_length. done.
Qed.

Lemma get_middle n xs ys v :
  0 <= v < 256 ^ Z.of_nat n → get n (xs ++ to_be n v ++ ys) (lenZ xs) = Some v.
Proof.
  intros Hv. unfold get. rewrite memcpy_from_skip by lia. rewrite Z.sub_diag.
  rewrite memcpy_from_here by (rewrite ?length_to_be; lia). simpl. by rewrite of_be_to_be.
Qed.

(** The byte order of the wire does not depend on the host: on a little-
    and on a big-endian machine the swaps are involutions, a store in network
    order writes the same big-endian bytes and nothing else, and the load
    reads the value back. *)
Theorem byte_order_correct (native_little : bool) v w x xs old2 old4 old8 ys :
  is_u16 v → is_u32 w → is_u64 x → bytes_ok xs → bytes_ok ys →
  length old2 = 2%nat → length old4 = 4%nat → length old8 = 8%nat →
  (bswap16 (bswap16 v) = v ∧ bswap32 (bswap32 w) = w ∧ bswap64 (bswap64 x) = x) ∧
  (store_be16 native_little (xs ++ old2 ++ ys) (lenZ xs) v = Some (xs ++ to_be 2 v ++ ys) ∧
   load_be16 native_little (xs ++ to_be 2 v ++ ys) (lenZ xs) = Some v) ∧
  (store_be32 native_little (xs ++ old4 ++ ys) (lenZ xs) w = Some (xs ++ to_be 4 w ++ ys) ∧
   load_be32 native_little (xs ++ to_be 4 w ++ ys) (lenZ xs) = Some w) ∧
  (store_be64 native_little (xs ++ old8 ++ ys) (lenZ xs) x = Some (xs ++ to_be 8 x ++ ys) ∧
   load_be64 native_little (xs ++ to_be 8 x ++ ys) (lenZ xs) = Some x).
Proof.
  intros Hv Hw Hx Hxs Hys H2 H4 H8. split; [| split; [| split]].
  - split; [| split].
    + rewrite (bswap16_spec v) by done.
      pose proof (of_le_range (to_be 2 v) (to_be_bytes 2 v)) as Hr. rewrite length_to_be in Hr.
      rewrite bswap16_spec by done. by rewrite to_le_of_be, of_be_to_be by mlia.
    + by rewrite !bswap32_spec, to_le_of_be, of_be_to_be by mlia.
    + by rewrite !bswap64_spec, to_le_of_be, of_be_to_be by mlia.
  - rewrite store_be16_put by done. rewrite load_be16_get by auto using to_be_bytes with machine.
    by rewrite put_middle, get_middle by (done || mlia).
  - rewrite store_be32_put, load_be32_get by auto using to_be_bytes with machine.
    by rewrite put_middle, get_middle by (done || mlia).
  - rewrite store_be64_put, load_be64_get by auto using to_be_bytes with machine.
    by rewrite put_middle, get_middle by (done || mlia).
Qed.

Lemma byte_order_correct_witness :
  (bswap16 (bswap16 258) = 258 ∧ bswap32 (bswap32 258) = 258 ∧ bswap64 (bswap64 258) = 258) ∧
  (store_be16 true ([7] ++ [0; 0] ++ [9]) (lenZ [7]) 258 = Some ([7] ++ to_be 2 258 ++ [9]) ∧
   load_be16 true ([7] ++ to_be 2 258 ++ [9]) (lenZ [7]) = Some 258) ∧
  (store_be32 true ([7] ++ [0; 0; 0; 0] ++ [9]) (lenZ [7]) 258 = Some ([7] ++ to_be 4 258 ++ [9]) ∧
   load_be32 true ([7] ++ to_be 4 258 ++ [9]) (lenZ [7]) = Some 258) ∧
  (store_be64 true ([7] ++ [0; 0; 0; 0; 0; 0; 0; 0] ++ [9]) (lenZ [7]) 258 = Some ([7] ++ to_be 8 258 ++ [9]) ∧
   load_be64 true ([7] ++ to_be 8 258 ++ [9]) (lenZ [7]) = Some 258).
Proof.
  apply (byte_order_correct true 258 258 258 [7] [0; 0] [0; 0; 0; 0] [0; 0; 0; 0; 0; 0; 0; 0] [9]);
    by repeat constructor.
Defined.

(** * The messages *)

(** What a pair of serialiser and deserialiser must do for a message type:
    write the documented layout and nothing past it, read it back, and
    refuse a buffer that is too small on either side. *)
Definition codec_correct {M : Type} (ser : list Z → M → option (list Z * Z))
    (des : list Z → option (option M)) (ok : M → Prop) (layout : M → list Z) (size : Z) : Prop :=
  (∀ buf m, ok m → size <= lenZ buf → ser buf m = Some (layout m ++ drop (Z.to_nat size) buf, size)) ∧
  (∀ m, ok m → lenZ (layout m) = size ∧ des (layout m) = Some (Some m)) ∧
  (∀ buf m, lenZ buf < size → ser buf m = Some (buf, 0) ∧ des buf = Some None).

Ltac solve_codec ser des layout ser_eq des_eq :=
  split; [| split];
  [ intros; by apply ser_eq
  | intros m Hm; split;
    [ unfold layout; by rewrite !length_app, !length_to_be
    | first [ by apply des_eq | rewrite <- (app_nil_r (layout m)); apply des_eq; [done | constructor] ] ]
  | intros buf m Hl; unfold ser, des; split; [by rewrite bool_decide_true | ];
    first [ by rewrite bool_decide_true | by rewrite bool_decide_false by lia ] ].

(** C36. All eleven messages round-trip, on any host: within the ranges of
    their fields they are written in the layout of their structures, field by
    field in network order without padding, read back unchanged, and a short
    buffer is refused without a write or a read.  The layout is the one
    documented with each structure, except for [CancelOrder]: the code writes
    20 bytes with a symbol, its comment says 16 bytes without. *)
Theorem protocol_round_trip (nl : bool) :
  codec_correct (serialize_market_data nl) (deserialize_market_data nl) MarketDataUpdate_ok
    layout_market_data kMarketDataWireSize ∧
  codec_correct (serialize_new_order nl) (deserialize_new_order nl) NewOrder_ok
    layout_new_order kNewOrderWireSize ∧
  codec_correct (serialize_cancel_order nl) (deserialize_cancel_order nl) CancelOrder_ok
    layout_cancel_order kCancelOrderWireSize ∧
  codec_correct (serialize_order_ack nl) (deserialize_order_ack nl) OrderAck_ok
    layout_order_ack kOrderAckWireSize ∧
  codec_correct (serialize_order_reject nl) (deserialize_order_reject nl) OrderReject_ok
    layout_order_reject kOrderRejectWireSize ∧
  codec_correct (serialize_fill_report nl) (deserialize_fill_report nl) FillReport_ok
    layout_fill_report kFillReportWireSize ∧
  codec_correct (serialize_cancel_ack nl) (deserialize_cancel_ack nl) CancelAck_ok
    layout_cancel_ack kCancelAckWireSize ∧
  codec_correct (serialize_cancel_reject nl) (deserialize_cancel_reject nl) CancelReject_ok
    layout_cancel_reject kCancelRejectWireSize ∧
  codec_correct (serialize_modify_order nl) (deserialize_modify_order nl) ModifyOrder_ok
    layout_modify_order kModifyOrderWireSize ∧
  codec_correct (serialize_modify_ack nl) (deserialize_modify_ack nl) ModifyAck_ok
    layout_modify_ack kModifyAckWireSize ∧
  codec_correct (serialize_modify_reject nl) (deserialize_modify_reject nl) ModifyReject_ok
    layout_modify_reject kModifyRejectWireSize.
Proof.
  split; [solve_codec serialize_market_data deserialize_market_data layout_market_data serialize_market_data_eq deserialize_market_data_eq |].
  split; [solve_codec serialize_new_order deserialize_new_order layout_new_order serialize_new_order_eq deserialize_new_order_eq |].
  split; [solve_codec serialize_cancel_order deserialize_cancel_order layout_cancel_order serialize_cancel_order_eq deserialize_cancel_order_eq |].
  split; [solve_codec serialize_order_ack deserialize_order_ack layout_order_ack serialize_order_ack_eq deserialize_order_ack_eq |].
  split; [solve_codec serialize_order_reject deserialize_order_reject layout_order_reject serialize_order_reject_eq deserialize_order_reject_eq |].
  split; [solve_codec serialize_fill_report deserialize_fill_report layout_fill_report serialize_fill_report_eq deserialize_fill_report_eq |].
  split; [solve_codec serialize_cancel_ack deserialize_cancel_ack layout_cancel_ack serialize_cancel_ack_eq deserialize_cancel_ack_eq |].
  split; [solve_codec serialize_cancel_reject deserialize_cancel_reject layout_cancel_reject serialize_cancel_reject_eq deserialize_cancel_reject_eq |].
  split; [solve_codec serialize_modify_order deserialize_modify_order layout_modify_order serialize_modify_order_eq deserialize_modify_order_eq |].
  split; [solve_codec serialize_modify_ack deserialize_modify_ack layout_modify_ack serialize_modify_ack_eq deserialize_modify_ack_eq |].
  solve_codec serialize_modify_reject deserialize_modify_reject layout_modify_reject serialize_modify_reject_eq deserialize_modify_reject_eq.
Qed.

Example new_order_bytes :
  fst <$> serialize_new_order true (replicate 33 0)
    {| no_client_order_id := 258; no_symbol_id := 1; no_side := 1; no_price := -2; no_qty := 10; no_send_ts := 3 |}
  = Some [0;0;0;0;0;0;1;2; 0;0;0;1; 1; 255;255;255;255;255;255;255;254; 0;0;0;10; 0;0;0;0;0;0;0;3].
Proof. vm_compute. reflexivity. Qed.

(** * The envelope *)

(** The envelope round-trips and acceptance is exact: [pack_message]
    writes header and payload and leaves the rest of the buffer alone, or
    refuses and writes nothing when the payload or the buffer does not fit;
    [unpack_message] gives the same header and payload back whatever
    follows; and it never reads outside its input, accepting only byte
    strings that [pack_message] could have produced. *)
Theorem message_envelope_correct (nl : bool) out version msg_type flags payload inp :
  message_ok version msg_type flags payload → bytes_ok out → bytes_ok inp →
  kMessageHeaderSize + lenZ payload <= lenZ out →
  (∃ out', pack_message nl out version msg_type flags payload = Some (out', kMessageHeaderSize + lenZ payload) ∧
     lenZ out' = lenZ out ∧
     drop (Z.to_nat (kMessageHeaderSize + lenZ payload)) out' = drop (Z.to_nat (kMessageHeaderSize + lenZ payload)) out ∧
     unpack_message nl out' = Some (Some (message_view version msg_type flags payload))) ∧
  (∀ short, lenZ short < kMessageHeaderSize + lenZ payload →
     pack_message nl short version msg_type flags payload = Some (short, 0)) ∧
  (∃ r, unpack_message nl inp = Some r ∧
     ∀ w, r = Some w → ∃ v t f p rest, message_ok v t f p ∧
       inp = message_bytes v t f p ++ rest ∧ w = message_view v t f p).
Proof.
  intros Hok Hout Hinp Hl. split; [| split].
  - eexists. split; [by apply pack_message_eq |].
    assert (Z.to_nat (kMessageHeaderSize + lenZ payload) = length (message_bytes version msg_type flags payload)) as Hn.
    { pose proof (length_message_bytes version msg_type flags payload). lia. }
    assert (16 + length payload = length (message_bytes version msg_type flags payload))%nat as Hn'
      by (rewrite <- Hn; unfold kMessageHeaderSize; lia).
    rewrite Hn, Hn', drop_app_length. split; [rewrite length_app, length_drop; lia |]. split; [done |].
    apply unpack_message_frame; [done | by apply Forall_drop].
  - intros short Hs. apply pack_message_refused. by right.
  - destruct (unpack_message_total nl inp Hinp) as [r Hr]. exists r. split; [done |].
    intros w ->. by apply (unpack_message_inv nl).
Qed.

Definition hello : list Z := [104; 101; 108; 108; 111].

Lemma hello_ok : message_ok 2 1 0 hello.
Proof. by repeat first [split | constructor]. Qed.

Lemma message_envelope_correct_witness :
  (∃ out', pack_message true (replicate 24 0) 2 1 0 hello = Some (out', kMessageHeaderSize + lenZ hello) ∧
     lenZ out' = lenZ (replicate 24 0) ∧
     drop (Z.to_nat (kMessageHeaderSize + lenZ hello)) out' =
       drop (Z.to_nat (kMessageHeaderSize + lenZ hello)) (replicate 24 0) ∧
     unpack_message true out' = Some (Some (message_view 2 1 0 hello))) ∧
  (∀ short, lenZ short < kMessageHeaderSize + lenZ hello →
     pack_message true short 2 1 0 hello = Some (short, 0)) ∧
  (∃ r, unpack_message true hello = Some r ∧
     ∀ w, r = Some w → ∃ v t f p rest, message_ok v t f p ∧
       hello = message_bytes v t f p ++ rest ∧ w = message_view v t f p).
Proof.
  apply (message_envelope_correct true (replicate 24 0) 2 1 0 hello hello);
    [apply hello_ok | by repeat constructor | by repeat constructor | vm_compute; congruence].
Defined.

(** * The length prefix *)

(** The length-prefixed frame round-trips: a payload that fits is
    written behind its big-endian length, decoding any buffer that begins
    with the frame yields the payload and the frame's size, every proper
    prefix is incomplete and never an error, and a payload that does not
    fit is refused without a write. *)
Theorem length_prefix_correct (nl : bool) out payload rest max :
  bytes_ok payload → bytes_ok rest → max < 2 ^ 32 → kLengthPrefixSize + lenZ payload <= max →
  (kLengthPrefixSize + lenZ payload <= lenZ out →
     encode_length_prefix_frame nl out payload max =
       Some (prefixed_bytes payload ++ drop (4 + length payload) out, Some (kLengthPrefixSize + lenZ payload))) ∧
  (lenZ out < kLengthPrefixSize + lenZ payload →
     encode_length_prefix_frame nl out payload max = Some (out, None)) ∧
  decode_length_prefix_frame nl (prefixed_bytes payload ++ rest) max =
    Some {| fdr_status := kOk; fdr_frame_size := kLengthPrefixSize + lenZ payload; fdr_payload := payload |} ∧
  (∀ part tail, prefixed_bytes payload = part ++ tail → tail ≠ [] →
     decode_length_prefix_frame nl part max = Some frame_incomplete).
Proof.
  intros Hp Hr Hmax Hl. split; [intros; by apply encode_length_prefix_eq |].
  split; [intros; apply encode_length_prefix_refused; by right |].
  split; [by apply decode_prefixed | intros part tail; by apply decode_prefixed_part].
Qed.

Lemma hello_bytes : bytes_ok hello.
Proof. by repeat constructor. Qed.

Lemma length_prefix_correct_witness :
  (kLengthPrefixSize + lenZ hello <= lenZ (replicate 12 0) →
     encode_length_prefix_frame true (replicate 12 0) hello 64 =
       Some (prefixed_bytes hello ++ drop (4 + length hello) (replicate 12 0), Some (kLengthPrefixSize + lenZ hello))) ∧
  (lenZ (replicate 12 0) < kLengthPrefixSize + lenZ hello →
     encode_length_prefix_frame true (replicate 12 0) hello 64 = Some (replicate 12 0, None)) ∧
  decode_length_prefix_frame true (prefixed_bytes hello ++ hello) 64 =
    Some {| fdr_status := kOk; fdr_frame_size := kLengthPrefixSize + lenZ hello; fdr_payload := hello |} ∧
  (∀ part tail, prefixed_bytes hello = part ++ tail → tail ≠ [] →
     decode_length_prefix_frame true part 64 = Some frame_incomplete).
Proof.
  apply (length_prefix_correct true (replicate 12 0) hello hello 64);
    [apply hello_bytes | apply hello_bytes | lia | vm_compute; congruence].
Defined.
