(* ===== verification/ExchangeCore.v ===== *)
(** The exchange coordinator: [src/apps/simulated_exchange/exchange_core.hpp]
    and the event of [src/apps/simulated_exchange/exchange_event.hpp].

    The core owns one matching engine per symbol, the session ids, the three
    identity tables and a fixed event buffer.  Every handler threads the
    whole core through the calls in the order of the source; a pointer into
    a table is the entry read when the source obtains it (no handler writes
    through one, and each is last used before its entry is erased). *)
From S2P Require Import Prelude.
From S2P Require Import TableInterface.
From S2P Require Import TradingTypes.
From S2P Require Import OrderBook.
From S2P Require Import MatchingEngine.
From S2P Require Import Protocol.
Local Open Scope Z_scope.
Local Open Scope array_scope.

Inductive EventType : Set :=
  | kOrderAccepted | kOrderRejected | kFill | kCancelAck | kCancelRejected | kModifyAck
  | kModifyRejected | kBBOUpdate | kSessionAssigned.

#[export] Instance EventType_eq_dec : EqDecision EventType.
Proof. solve_decision. Defined.

Record ExchangeEvent : Set := {
  ev_type : EventType;
  ev_session_id : Z;
  ev_request_seq : Z;
  ev_client_order_id : Z;
  ev_exchange_order_id : Z;
  ev_symbol_id : Z;
  ev_side : Side;
  ev_price : Z;
  ev_qty : Z;
  ev_remaining_qty : Z;
  ev_send_ts : Z;
  ev_reason : RejectReason;
}.

(** The designated initialisers of the source; absent fields are zero. *)
Definition ev_rejected (t : EventType) (session cid sym ts : Z) (r : RejectReason) : ExchangeEvent :=
  {| ev_type := t; ev_session_id := session; ev_request_seq := 0; ev_client_order_id := cid;
     ev_exchange_order_id := 0; ev_symbol_id := sym; ev_side := kBid; ev_price := 0; ev_qty := 0;
     ev_remaining_qty := 0; ev_send_ts := ts; ev_reason := r |}.
Definition ev_accepted (t : EventType) (session cid xid sym ts : Z) : ExchangeEvent :=
  {| ev_type := t; ev_session_id := session; ev_request_seq := 0; ev_client_order_id := cid;
     ev_exchange_order_id := xid; ev_symbol_id := sym; ev_side := kBid; ev_price := 0; ev_qty := 0;
     ev_remaining_qty := 0; ev_send_ts := ts; ev_reason := kUnknown |}.
Definition ev_fill (session cid xid sym : Z) (s : Side) (price q rem ts : Z) : ExchangeEvent :=
  {| ev_type := kFill; ev_session_id := session; ev_request_seq := 0; ev_client_order_id := cid;
     ev_exchange_order_id := xid; ev_symbol_id := sym; ev_side := s; ev_price := price; ev_qty := q;
     ev_remaining_qty := rem; ev_send_ts := ts; ev_reason := kUnknown |}.
Definition ev_bbo (sym : Z) (s : Side) (price q : Z) : ExchangeEvent :=
  {| ev_type := kBBOUpdate; ev_session_id := 0; ev_request_seq := 0; ev_client_order_id := 0;
     ev_exchange_order_id := 0; ev_symbol_id := sym; ev_side := s; ev_price := price; ev_qty := q;
     ev_remaining_qty := 0; ev_send_ts := 0; ev_reason := kUnknown |}.
Definition empty_event : ExchangeEvent := ev_accepted kOrderAccepted 0 0 0 0 0.

Module EC.

Record SymbolSlot (OM LM : Type) : Type := {
  engine : MatchingEngine OM LM;
  active : bool;
}.
Arguments engine {OM LM}.
Arguments active {OM LM}.

Record IdEntry : Set := {
  ie_exchange_id : Z;
  ie_side : Side;
  ie_symbol_id : Z;
}.

Record ReverseIdEntry : Set := {
  re_session_id : Z;
  re_client_order_id : Z;
  re_symbol_id : Z;
  re_send_ts : Z;
}.

Definition kMaxEvents : Z := 512.
Definition kMaxSeenOrders : Z := 16384.
Definition kMaxIdMappings : Z := 1024.
Definition kMaxClientOrderId : Z := 0x0000FFFFFFFFFFFF.

Record ExchangeCore (OM LM SM FM RM : Type) : Type := {
  symbols_ : list (SymbolSlot OM LM);
  next_exchange_id_ : Z;
  events_ : list ExchangeEvent;
  event_count_ : Z;
  next_session_id_ : Z;
  active_sessions_ : list bool;
  seen_orders_ : SM;
  id_map_ : FM;
  reverse_id_map_ : RM;
}.
Arguments symbols_ {OM LM SM FM RM}.
Arguments next_exchange_id_ {OM LM SM FM RM}.
Arguments events_ {OM LM SM FM RM}.
Arguments event_count_ {OM LM SM FM RM}.
Arguments next_session_id_ {OM LM SM FM RM}.
Arguments active_sessions_ {OM LM SM FM RM}.
Arguments seen_orders_ {OM LM SM FM RM}.
Arguments id_map_ {OM LM SM FM RM}.
Arguments reverse_id_map_ {OM LM SM FM RM}.

Section Core.
Context (ndebug : bool) {OM LM SM FM RM : Type} `{Table Z Z OM} `{Table Z Z LM}.
Context `{Table Z bool SM} `{TableIter Z bool SM} `{Table Z IdEntry FM} `{TableIter Z IdEntry FM}.
Context `{Table Z ReverseIdEntry RM}.
Context (MaxSymbols MaxFills : Z).
Abbreviation Core := (ExchangeCore OM LM SM FM RM).
Implicit Types (c : Core).

(** [assert]: nothing in the release build. *)
Definition debug_assert (b : bool) : option unit := if ndebug then Some tt else assertM b.

(** * Field updates *)

Definition with_symbols c x : Core :=
  {| symbols_ := x; next_exchange_id_ := next_exchange_id_ c; events_ := events_ c;
     event_count_ := event_count_ c; next_session_id_ := next_session_id_ c;
     active_sessions_ := active_sessions_ c; seen_orders_ := seen_orders_ c; id_map_ := id_map_ c;
     reverse_id_map_ := reverse_id_map_ c |}.
Definition with_next_exchange_id c x : Core :=
  {| symbols_ := symbols_ c; next_exchange_id_ := x; events_ := events_ c;
     event_count_ := event_count_ c; next_session_id_ := next_session_id_ c;
     active_sessions_ := active_sessions_ c; seen_orders_ := seen_orders_ c; id_map_ := id_map_ c;
     reverse_id_map_ := reverse_id_map_ c |}.
Definition with_events c x n : Core :=
  {| symbols_ := symbols_ c; next_exchange_id_ := next_exchange_id_ c; events_ := x;
     event_count_ := n; next_session_id_ := next_session_id_ c;
     active_sessions_ := active_sessions_ c; seen_orders_ := seen_orders_ c; id_map_ := id_map_ c;
     reverse_id_map_ := reverse_id_map_ c |}.
Definition with_sessions c n x : Core :=
  {| symbols_ := symbols_ c; next_exchange_id_ := next_exchange_id_ c; events_ := events_ c;
     event_count_ := event_count_ c; next_session_id_ := n; active_sessions_ := x;
     seen_orders_ := seen_orders_ c; id_map_ := id_map_ c; reverse_id_map_ := reverse_id_map_ c |}.
Definition with_seen c x : Core :=
  {| symbols_ := symbols_ c; next_exchange_id_ := next_exchange_id_ c; events_ := events_ c;
     event_count_ := event_count_ c; next_session_id_ := next_session_id_ c;
     active_sessions_ := active_sessions_ c; seen_orders_ := x; id_map_ := id_map_ c;
     reverse_id_map_ := reverse_id_map_ c |}.
Definition with_maps c f r : Core :=
  {| symbols_ := symbols_ c; next_exchange_id_ := next_exchange_id_ c; events_ := events_ c;
     event_count_ := event_count_ c; next_session_id_ := next_session_id_ c;
     active_sessions_ := active_sessions_ c; seen_orders_ := seen_orders_ c; id_map_ := f;
     reverse_id_map_ := r |}.

Definition with_engine c (idx : Z) (e : MatchingEngine OM LM) : option Core :=
  slot ← (symbols_ c).[idx];
  symbols ← storeZ (symbols_ c) idx {| engine := e; active := active slot |};
  Some (with_symbols c symbols).

(** * Private functions *)

Definition emit c (event : ExchangeEvent) : option Core :=
  if bool_decide (event_count_ c >= kMaxEvents) then abort
  else
    events ← storeZ (events_ c) (event_count_ c) event;
    Some (with_events c events (u32 (event_count_ c + 1))).

Definition make_composite_key (session_id client_order_id : Z) : option Z :=
  _ ← debug_assert (bool_decide (client_order_id <= kMaxClientOrderId));
  Some (Z.lor (u64 (Z.shiftl session_id 48)) (Z.land client_order_id kMaxClientOrderId)).

Definition extract_session_id (composite_key : Z) : Z :=
  u16 (Z.land (Z.shiftr composite_key 48) 0xFFFF).

Definition symbol_index c (symbol_id : Z) : option (option Z) :=
  if bool_decide (symbol_id = 0) || bool_decide (symbol_id > MaxSymbols) then Some None
  else
    let idx := u32 (symbol_id - 1) in
    slot ← (symbols_ c).[idx];
    Some (if active slot then Some idx else None).

Definition emit_maker_fill c (sym_idx : Z) (fill : Fill) (taker_side : Side) : option Core :=
  maker ← tbl_find (reverse_id_map_ c) (maker_id fill);
  match maker with
  | None => Some c
  | Some maker =>
      slot ← (symbols_ c).[sym_idx];
      let maker_side := if bool_decide (taker_side = kBid) then kAsk else kBid in
      maker_remaining ← order_qty (book_ (engine slot)) (maker_id fill);
      c ← emit c (ev_fill (re_session_id maker) (re_client_order_id maker) (maker_id fill)
                          (re_symbol_id maker) maker_side (f_price fill) (f_qty fill)
                          maker_remaining (re_send_ts maker));
      resting ← has_order (book_ (engine slot)) (maker_id fill);
      if resting : bool then Some c
      else
        key ← make_composite_key (re_session_id maker) (re_client_order_id maker);
        '(f, fill_fwd) ← tbl_erase (id_map_ c) key;
        _ ← debug_assert fill_fwd;
        '(r, fill_rev) ← tbl_erase (reverse_id_map_ c) (maker_id fill);
        _ ← debug_assert fill_rev;
        Some (with_maps c f r)
  end.

(** The event of the best level of one side, if it has one. *)
Definition emit_best c (b : OrderBook OM LM) (symbol_id : Z) (s : Side) : option Core :=
  match ladder b s with
  | [] => Some c
  | l :: _ => lv ← get_level b l; emit c (ev_bbo symbol_id s (pl_price lv) (total_qty lv))
  end.

Definition emit_bbo c (sym_idx symbol_id : Z) : option Core :=
  slot ← (symbols_ c).[sym_idx];
  let b := book_ (engine slot) in
  c ← emit_best c b symbol_id kBid;
  emit_best c b symbol_id kAsk.

(** The loop over [result.fills] of [submit_order] and [modify_order]. *)
Fixpoint emit_fills c (sym_idx session cid xid symbol_id : Z) (s : Side) (ts remaining : Z)
    (fs : list Fill) : option Core :=
  match fs with
  | [] => Some c
  | fill :: fs =>
      let remaining := u32 (remaining - f_qty fill) in
      c ← emit c (ev_fill session cid xid symbol_id s (f_price fill) (f_qty fill) remaining ts);
      c ← emit_maker_fill c sym_idx fill s;
      c ← emit_bbo c sym_idx symbol_id;
      emit_fills c sym_idx session cid xid symbol_id s ts remaining fs
  end.

(** Both insertions of a resting order; their results are ignored. *)
Definition register_order c (key xid session cid symbol_id ts : Z) (s : Side) : option Core :=
  '(f, _) ← tbl_insert (id_map_ c) key {| ie_exchange_id := xid; ie_side := s; ie_symbol_id := symbol_id |};
  '(r, _) ← tbl_insert (reverse_id_map_ c) xid
              {| re_session_id := session; re_client_order_id := cid; re_symbol_id := symbol_id;
                 re_send_ts := ts |};
  Some (with_maps c f r).

(** * Symbols and sessions *)

(** [OrderBook] and engine creation are in [BookBind.v]; the created engine,
    or its absence, is the argument. *)
Definition register_symbol c (symbol_id : Z) (created : option (MatchingEngine OM LM)) : option Core :=
  if bool_decide (symbol_id = 0) || bool_decide (symbol_id > MaxSymbols) then abort
  else
    e ← created;
    symbols ← storeZ (symbols_ c) (u32 (symbol_id - 1)) {| engine := e; active := true |};
    Some (with_symbols c symbols).

Fixpoint connect_loop c (fuel : nat) (attempts : Z) : option (Core * Z) :=
  match fuel with
  | O => None
  | S fuel =>
      let next := if bool_decide (next_session_id_ c = 0) then 1 else next_session_id_ c in
      let id := next in
      let next := u16 (next + 1) in
      in_use ← (active_sessions_ c).[id];
      if negb in_use then
        active ← storeZ (active_sessions_ c) id true;
        Some (with_sessions c next active, id)
      else
        let attempts := u32 (attempts + 1) in
        if bool_decide (attempts >= 65535) then abort
        else connect_loop (with_sessions c next (active_sessions_ c)) fuel attempts
  end.

(** The attempt counter bounds the loop. *)
Definition on_client_connect c : option (Core * Z) := connect_loop c 65535 0.

(** The callback over [id_map_]: cancel, and remember the key. *)
Definition disconnect_visit (session_id : Z) (acc : Core * list Z) (key : Z) (entry : IdEntry)
    : option (Core * list Z) :=
  let '(c, keys_to_erase) := acc in
  if negb (bool_decide (extract_session_id key = session_id)) then Some (c, keys_to_erase)
  else
    let idx := u32 (ie_symbol_id entry - 1) in
    slot ← (symbols_ c).[idx];
    '(e, _) ← MatchingEngine.cancel ndebug (engine slot) (ie_exchange_id entry);
    c ← with_engine c idx e;
    _ ← assertM (bool_decide (lenZ keys_to_erase < kMaxIdMappings));
    Some (c, keys_to_erase ++ [key]).

Fixpoint erase_mappings c (keys : list Z) : option Core :=
  match keys with
  | [] => Some c
  | key :: keys =>
      fwd ← tbl_find (id_map_ c) key;
      entry ← fwd;
      '(r, erased_rev) ← tbl_erase (reverse_id_map_ c) (ie_exchange_id entry);
      _ ← debug_assert erased_rev;
      '(f, erased_fwd) ← tbl_erase (id_map_ c) key;
      _ ← debug_assert erased_fwd;
      erase_mappings (with_maps c f r) keys
  end.

Definition seen_visit (session_id : Z) (seen_to_erase : list Z) (seen_key : Z) (_ : bool)
    : option (list Z) :=
  if bool_decide (extract_session_id seen_key = session_id) then
    _ ← assertM (bool_decide (lenZ seen_to_erase < kMaxSeenOrders));
    Some (seen_to_erase ++ [seen_key])
  else Some seen_to_erase.

Fixpoint erase_seen c (keys : list Z) : option Core :=
  match keys with
  | [] => Some c
  | key :: keys =>
      '(s, _) ← tbl_erase (seen_orders_ c) key;
      erase_seen (with_seen c s) keys
  end.

Definition on_client_disconnect c (session_id : Z) : option Core :=
  if bool_decide (session_id = 0) then Some c
  else
    active ← storeZ (active_sessions_ c) session_id false;
    let c := with_sessions c (next_session_id_ c) active in
    '(c, keys_to_erase) ← tbl_for_each (disconnect_visit session_id) (id_map_ c) (c, []);
    c ← erase_mappings c keys_to_erase;
    seen_to_erase ← tbl_for_each (seen_visit session_id) (seen_orders_ c) [];
    erase_seen c seen_to_erase.

(** * Orders *)

Definition submit_order c (session_id : Z) (order : NewOrder) : option Core :=
  let cid := no_client_order_id order in
  let s := side_of_u8 (no_side order) in
  let reject sym r := emit c (ev_rejected kOrderRejected session_id cid sym (no_send_ts order) r) in
  if bool_decide (cid > kMaxClientOrderId) then reject 0 kInvalidOrderId
  else
    sym ← symbol_index c (no_symbol_id order);
    match sym with
    | None => reject (no_symbol_id order) kUnknownSymbol
    | Some sym_idx =>
        key ← make_composite_key session_id cid;
        seen ← tbl_find (seen_orders_ c) key;
        match seen with
        | Some _ => reject (no_symbol_id order) kDuplicateOrderId
        | None =>
            '(seen_orders, recorded) ← tbl_insert (seen_orders_ c) key true;
            if negb recorded then reject (no_symbol_id order) kBookFull
            else
              let c := with_seen c seen_orders in
              let exchange_id := next_exchange_id_ c in
              let c := with_next_exchange_id c (u64 (exchange_id + 1)) in
              slot ← (symbols_ c).[sym_idx];
              '(e, result) ← MatchingEngine.submit_order ndebug MaxFills (engine slot) exchange_id s
                               (no_price order) (no_qty order);
              c ← with_engine c sym_idx e;
              let accepted := rested_in_book result || has_fills result in
              if negb accepted then
                emit c (ev_rejected kOrderRejected session_id cid (no_symbol_id order)
                                    (no_send_ts order) kBookFull)
              else
                c ← emit c (ev_accepted kOrderAccepted session_id cid exchange_id
                                        (no_symbol_id order) (no_send_ts order));
                c ← emit_fills c sym_idx session_id cid exchange_id (no_symbol_id order) s
                               (no_send_ts order) (no_qty order) (fills result);
                if rested_in_book result then
                  register_order c key exchange_id session_id cid (no_symbol_id order)
                                 (no_send_ts order) s
                else Some c
        end
    end.

Definition cancel_order c (session_id : Z) (cancel : CancelOrder) : option Core :=
  let cid := co_client_order_id cancel in
  let reject r := emit c (ev_rejected kCancelRejected session_id cid 0 (co_send_ts cancel) r) in
  if bool_decide (cid > kMaxClientOrderId) then reject kInvalidOrderId
  else
    sym ← symbol_index c (co_symbol_id cancel);
    match sym with
    | None => reject kUnknownSymbol
    | Some sym_idx =>
        key ← make_composite_key session_id cid;
        entry ← tbl_find (id_map_ c) key;
        match entry with
        | None => reject kOrderNotFound
        | Some entry =>
            slot ← (symbols_ c).[sym_idx];
            '(e, cancelled) ← MatchingEngine.cancel ndebug (engine slot) (ie_exchange_id entry);
            c ← with_engine c sym_idx e;
            if negb cancelled then
              emit c (ev_rejected kCancelRejected session_id cid 0 (co_send_ts cancel) kOrderNotFound)
            else
              '(r, erased_rev) ← tbl_erase (reverse_id_map_ c) (ie_exchange_id entry);
              _ ← debug_assert erased_rev;
              '(f, erased_fwd) ← tbl_erase (id_map_ c) key;
              _ ← debug_assert erased_fwd;
              emit (with_maps c f r) (ev_accepted kCancelAck session_id cid 0 0 (co_send_ts cancel))
        end
    end.

Definition modify_order c (session_id : Z) (modify : ModifyOrder) : option Core :=
  let cid := mo_client_order_id modify in
  let rejection r := ev_rejected kModifyRejected session_id cid 0 (mo_send_ts modify) r in
  if bool_decide (cid > kMaxClientOrderId) then emit c (rejection kInvalidOrderId)
  else
    sym ← symbol_index c (mo_symbol_id modify);
    match sym with
    | None => emit c (rejection kUnknownSymbol)
    | Some sym_idx =>
        modify_key ← make_composite_key session_id cid;
        entry ← tbl_find (id_map_ c) modify_key;
        match entry with
        | None => emit c (rejection kOrderNotFound)
        | Some entry =>
            let new_exchange_id := next_exchange_id_ c in
            let c := with_next_exchange_id c (u64 (new_exchange_id + 1)) in
            slot ← (symbols_ c).[sym_idx];
            '(e, result) ← MatchingEngine.modify ndebug MaxFills (engine slot) (ie_exchange_id entry)
                             (ie_side entry) (mo_new_price modify) (mo_new_qty modify) new_exchange_id;
            c ← with_engine c sym_idx e;
            if negb (success result) then emit c (rejection kOrderNotFound)
            else
              '(r, mod_rev) ← tbl_erase (reverse_id_map_ c) (ie_exchange_id entry);
              _ ← debug_assert mod_rev;
              '(f, mod_fwd) ← tbl_erase (id_map_ c) modify_key;
              _ ← debug_assert mod_fwd;
              let c := with_maps c f r in
              c ← (if m_rested_in_book result then
                     register_order c modify_key new_exchange_id session_id cid (ie_symbol_id entry)
                                    (mo_send_ts modify) (ie_side entry)
                   else Some c);
              c ← emit c (ev_accepted kModifyAck session_id cid new_exchange_id
                                      (mo_symbol_id modify) (mo_send_ts modify));
              emit_fills c sym_idx session_id cid new_exchange_id (mo_symbol_id modify) (ie_side entry)
                         (mo_send_ts modify) (mo_new_qty modify) (m_fills result)
        end
    end.

(** * The event buffer *)

Definition event_count c : Z := event_count_ c.

Definition drain_events c : Core * list ExchangeEvent :=
  (with_events c (events_ c) 0, take (Z.to_nat (event_count_ c)) (events_ c)).
End Core.

End EC.
