(* ===== verification/ExchangeSpec.v ===== *)
(** The exchange core, abstractly: which identities a submission may touch,
    what it means for the two identity tables to be paired, and the events
    each request produces. *)
From S2P Require Import Prelude.
From S2P Require Import TableInterface.
From S2P Require Import TradingTypes.
From S2P Require Import OrderBook.
From S2P Require Import MatchingEngine.
From S2P Require Import BookView.
From S2P Require Import MatchSpec.
From S2P Require Import OrderBookRep.
From S2P Require Import OrderBookSpec.
From S2P Require Import MatchingTheorems.
From S2P Require Import Endian.
From S2P Require Import Protocol.
From S2P Require Import ExchangeCore.
Local Open Scope Z_scope.

(** * Identities under matching *)

(** An order that was queued is a maker or still queued. *)
Lemma q_match_kept taker p n os rem fs os' rem' i :
  q_match n os taker p rem = (fs, os', rem') → i ∈ os.*1 → i ∈ maker_id <$> fs ∨ i ∈ os'.*1.
Proof.
  revert os rem fs os' rem'. induction n as [| n IH]; intros os rem fs os' rem' E Hi;
    [| destruct os as [| [mid q] os]]; simpl in E; simplify_eq/=; auto.
  case_bool_decide; [simplify_eq; auto |]. case_bool_decide; [simplify_eq/=; auto |].
  destruct (q_match n os taker p (rem - q)) as [[fs1 os1] rem1] eqn:E1. simplify_eq/=.
  apply elem_of_cons in Hi as [-> | Hi]; [left; left |].
  destruct (IH _ _ _ _ _ E1 Hi) as [? | ?]; [left; by right | by right].
Qed.

Lemma v_match_kept taker s price n V rem fs V' rem' i :
  v_match n V taker s price rem = (fs, V', rem') → i ∈ v_ids V → i ∈ maker_id <$> fs ∨ i ∈ v_ids V'.
Proof.
  revert n rem fs V' rem'. induction V as [| [p os] V IH]; intros n rem fs V' rem' E Hi; simpl in E.
  { simplify_eq. by right. }
  destruct (_ || _ || _); [simplify_eq; by right |].
  destruct (q_match n os taker p rem) as [[fs1 os1] rem1] eqn:E1.
  rewrite v_ids_cons, elem_of_app in Hi. destruct os1 as [| o os1].
  - destruct (v_match _ V taker s price rem1) as [[fs2 V2] rem2] eqn:E2. simplify_eq.
    rewrite fmap_app, elem_of_app. destruct Hi as [Hi | Hi].
    + destruct (q_match_kept _ _ _ _ _ _ _ _ _ E1 Hi) as [? | Hn]; [auto | by apply elem_of_nil in Hn].
    + destruct (IH _ _ _ _ _ E2 Hi); auto.
  - simplify_eq. rewrite v_ids_cons, elem_of_app. destruct Hi as [Hi | Hi]; [| auto].
    destruct (q_match_kept _ _ _ _ _ _ _ _ _ E1 Hi); auto.
Qed.

Lemma vb_ids_with v s V i :
  valid_side s = true → i ∈ vb_ids (v_with v s V) ↔ i ∈ v_ids V ∨ i ∈ v_ids (v_side v (opposite s)).
Proof. intros [-> | ->]%valid_side_cases; unfold vb_ids; simpl; rewrite elem_of_app; tauto. Qed.

Lemma vb_ids_sides v s i :
  valid_side s = true → i ∈ vb_ids v ↔ i ∈ v_ids (v_side v s) ∨ i ∈ v_ids (v_side v (opposite s)).
Proof. intros [-> | ->]%valid_side_cases; unfold vb_ids; simpl; rewrite elem_of_app; tauto. Qed.

Lemma vb_ids_add v s p id q i :
  valid_side s = true → i ∈ vb_ids (vb_add s p id q v) ↔ i = id ∨ i ∈ vb_ids v.
Proof.
  intros Hv. unfold vb_add. rewrite vb_ids_with, (vb_ids_sides v s) by done.
  rewrite v_ids_add, elem_of_cons. tauto.
Qed.

Lemma v_ids_remove id V i : i ∈ v_ids (v_remove id V) ↔ i ∈ v_ids V ∧ i ≠ id.
Proof.
  unfold v_ids, v_remove. induction V as [| [p os] V IH]; simpl.
  { rewrite elem_of_nil. tauto. }
  rewrite bind_app, !elem_of_app, IH.
  assert (i ∈ v_level p (q_remove id os) ≫= (λ l, l.2.*1) ↔ i ∈ os.*1 ∧ i ≠ id) as ->; [| tauto].
  transitivity (i ∈ (q_remove id os).*1).
  { unfold v_level. destruct (q_remove id os); simpl; [done |]. by rewrite app_nil_r. }
  unfold q_remove. rewrite !list_elem_of_fmap. setoid_rewrite list_elem_of_filter. naive_solver.
Qed.

Lemma vb_ids_remove id v i : i ∈ vb_ids (vb_remove id v) ↔ i ∈ vb_ids v ∧ i ≠ id.
Proof. unfold vb_ids, vb_remove; simpl. rewrite !elem_of_app, !v_ids_remove. tauto. Qed.

(** Which identities a submission reads and writes. *)
Record submission_ids v (id : Z) (r : MatchResult) v' : Prop := {
  si_nodup : NoDup (maker_id <$> fills r);
  si_makers : ∀ m, m ∈ maker_id <$> fills r → m ∈ vb_ids v;
  si_new : ∀ i, i ∈ vb_ids v' → i ∈ vb_ids v ∨ (rested r = true ∧ i = id);
  si_old : ∀ i, i ∈ vb_ids v → i ∈ vb_ids v' ∨ i ∈ maker_id <$> fills r;
  si_rested : rested r = true → id ∈ vb_ids v';
}.

Section Matching.
Context (MaxFills : Z).

Lemma nodup_take {A : Type} (l : list A) n : NoDup l → NoDup (take n l).
Proof. rewrite <- (take_drop n l) at 1. by intros (? & _)%nodup_app. Qed.

(** The matching behind an accepted submission. *)
Lemma submission_cases v id s price q r v' :
  submission MaxFills v id s price q r v' →
  (v' = v ∧ r = {| fills := []; remaining_qty := q; rested := false |} ∧ (q = 0 ∨ id ∈ vb_ids v)) ∨
  (∃ V, v_match (Z.to_nat MaxFills) (v_side v (opposite s)) id s price q = (fills r, V, remaining_qty r) ∧
     v' = (if rested r then vb_add s price id (remaining_qty r) (v_with v (opposite s) V)
           else v_with v (opposite s) V)).
Proof.
  unfold submission, outcome, vb_match. destruct (_ || _) eqn:Hrej.
  - intros [-> ->]. left. split; [done |]. split; [done |].
    apply orb_true_iff in Hrej as [?%bool_decide_eq_true | ?%bool_decide_eq_true]; auto.
  - destruct (v_match _ _ id s price q) as [[fs V] rem]. intros (<- & <- & Hv' & _). right. by exists V.
Qed.

Lemma submission_touches v id s price q r v' :
  vb_wf v → valid_side s = true → is_u32 q → submission MaxFills v id s price q r v' →
  submission_ids v id r v' ∧ (length (fills r) <= Z.to_nat MaxFills)%nat.
Proof.
  intros Hwf Hv Hq Hsub.
  destruct (submission_cases v id s price q r v' Hsub) as [(-> & -> & Hrej) | (V & E & Hv')].
  { split; [split; simpl; try done; auto; [constructor | by intros ? ?%elem_of_nil] | simpl; lia]. }
  pose proof (v_match_spec id s price (Z.to_nat MaxFills) (v_side v (opposite s)) q
    ltac:(mlia) (wf_queues v _ Hwf (valid_opposite s))) as Hm. rewrite E in Hm.
  pose proof (λ i, v_match_kept _ _ _ _ _ _ _ _ _ i E) as Hkept.
  pose proof (vb_nodup _ Hwf) as Hnd.
  assert (NoDup (v_ids (v_side v (opposite s)))) as Hnds.
  { unfold vb_ids in Hnd. apply nodup_app in Hnd as (? & _ & ?).
    apply valid_side_cases in Hv as [-> | ->]; done. }
  assert (∀ i, i ∈ vb_ids (v_with v (opposite s) V) ↔ i ∈ v_ids V ∨ i ∈ v_ids (v_side v s)) as HV.
  { intros i. rewrite vb_ids_with by apply valid_opposite.
    by replace (opposite (opposite s)) with s by (by apply valid_side_cases in Hv as [-> | ->]). }
  pose proof (λ i, vb_ids_sides v s i Hv) as Hsides.
  split; [| apply Hm]. split.
  - rewrite (vm_fifo _ _ _ _ _ _ _ _ _ Hm). by apply nodup_take.
  - intros m Hmk. rewrite (vm_fifo _ _ _ _ _ _ _ _ _ Hm) in Hmk.
    apply elem_of_take in Hmk as (? & Hmk & _). apply list_elem_of_lookup_2 in Hmk. rewrite Hsides. auto.
  - intros i. rewrite Hv'. destruct (rested r).
    + rewrite vb_ids_add, HV, Hsides by done. intros [-> | [Hi | Hi]]; auto.
      left. right. by apply (vm_ids _ _ _ _ _ _ _ _ _ Hm).
    + rewrite HV, Hsides. intros [Hi | Hi]; auto. left. right. by apply (vm_ids _ _ _ _ _ _ _ _ _ Hm).
  - intros i. rewrite Hsides, Hv'. intros [Hi | Hi].
    + left. destruct (rested r); [rewrite vb_ids_add by done |]; rewrite HV; auto.
    + destruct (Hkept i Hi) as [? | ?]; [by right | left].
      destruct (rested r); [rewrite vb_ids_add by done |]; rewrite HV; auto.
  - intros Hr. rewrite Hv', Hr, vb_ids_add by done. by left.
Qed.
End Matching.

(** * Identities of sessions and clients *)

Definition client_key (session cid : Z) : Z := session * 2 ^ 48 + cid.
Definition valid_client (session cid : Z) : Prop := is_u16 session ∧ 0 <= cid <= EC.kMaxClientOrderId.

Lemma make_composite_key_eq ndebug session cid :
  valid_client session cid → EC.make_composite_key ndebug session cid = Some (client_key session cid).
Proof.
  intros [Hs Hc]. unfold EC.make_composite_key, EC.debug_assert, EC.kMaxClientOrderId in *.
  rewrite bool_decide_true by lia. simpl.
  assert (∀ o : option unit, o = Some tt → (_ ← o; Some (Z.lor (u64 (Z.shiftl session 48)) (Z.land cid 281474976710655)))
    = Some (client_key session cid)) as H; [| by apply H; destruct ndebug].
  intros o ->. simpl. f_equal. unfold client_key.
  change 281474976710655 with (2 ^ 48 - 1). rewrite land_mask, Z.mod_small by lia.
  rewrite Z.shiftl_mul_pow2, u64_id by mlia. apply lor_disjoint; lia.
Qed.

Lemma extract_session_id_key session cid :
  valid_client session cid → EC.extract_session_id (client_key session cid) = session.
Proof.
  intros [Hs Hc]. unfold EC.extract_session_id, client_key, EC.kMaxClientOrderId in *.
  change 0xFFFF with (2 ^ 16 - 1). rewrite Z.shiftr_div_pow2, land_mask by lia.
  rewrite Z.add_comm, Z.div_add, Z.div_small, Z.add_0_l by lia.
  unfold u16. rewrite !Z.mod_small by mlia. done.
Qed.

Lemma client_key_inj s c s' c' :
  valid_client s c → valid_client s' c' → client_key s c = client_key s' c' → s = s' ∧ c = c'.
Proof. unfold valid_client, client_key, EC.kMaxClientOrderId. mlia. Qed.

(** * The identity tables

    [F] maps a client's key to the exchange order, [R] the exchange order
    back to its client: the two are inverse to each other. *)

Abbreviation fmap_t := (gmap Z EC.IdEntry).
Abbreviation rmap_t := (gmap Z EC.ReverseIdEntry).

Definition entry_key (r : EC.ReverseIdEntry) : Z :=
  client_key (EC.re_session_id r) (EC.re_client_order_id r).

Record paired (F : fmap_t) (R : rmap_t) : Prop := {
  pa_fwd k e : F !! k = Some e → ∃ r, R !! EC.ie_exchange_id e = Some r ∧ k = entry_key r ∧
    EC.re_symbol_id r = EC.ie_symbol_id e;
  pa_rev x r : R !! x = Some r → valid_client (EC.re_session_id r) (EC.re_client_order_id r) ∧
    ∃ e, F !! entry_key r = Some e ∧ EC.ie_exchange_id e = x;
}.

Lemma paired_empty : paired ∅ ∅.
Proof. split; intros ? ? H; by rewrite lookup_empty in H. Qed.

Lemma paired_delete F R x r :
  paired F R → R !! x = Some r → paired (delete (entry_key r) F) (delete x R).
Proof.
  intros [Hf Hr] Hx. split.
  - intros k e [Hne Hk]%lookup_delete_Some. destruct (Hf k e Hk) as (r' & Hr' & -> & Hs).
    exists r'. split; [| done]. apply lookup_delete_Some. split; [| done].
    intros Heq. rewrite <- Heq in Hr'. congruence.
  - intros x' r' [Hne Hx']%lookup_delete_Some. destruct (Hr x' r' Hx') as (Hv & e & He & Hxe).
    split; [done |]. exists e. split; [| done]. apply lookup_delete_Some. split; [| done].
    intros Heq. destruct (Hr x r Hx) as (_ & e' & He' & Hxe'). congruence.
Qed.

Lemma paired_insert F R x session cid sym ts s :
  paired F R → valid_client session cid → F !! client_key session cid = None → R !! x = None →
  paired (<[client_key session cid := {| EC.ie_exchange_id := x; EC.ie_side := s; EC.ie_symbol_id := sym |}]> F)
         (<[x := {| EC.re_session_id := session; EC.re_client_order_id := cid; EC.re_symbol_id := sym;
                    EC.re_send_ts := ts |}]> R).
Proof.
  intros [Hf Hr] Hv HF HR. split.
  - intros k e [[<- <-] | [Hne Hk]]%lookup_insert_Some.
    + eexists. simpl. split; [apply lookup_insert_eq | done].
    + destruct (Hf k e Hk) as (r' & Hr' & -> & Hs). exists r'. split; [| done].
      rewrite lookup_insert_ne; [done |]. intros Heq. rewrite <- Heq in Hr'. congruence.
  - intros x' r' [[<- <-] | [Hne Hx']]%lookup_insert_Some.
    + split; [done |]. eexists. unfold entry_key. simpl. split; [apply lookup_insert_eq | done].
    + destruct (Hr x' r' Hx') as (Hv' & e & He & Hxe). split; [done |]. exists e. split; [| done].
      rewrite lookup_insert_ne; [done |]. intros Heq. rewrite <- Heq in He. congruence.
Qed.

(** The two tables agree about one exchange order. *)
Definition linked_at (F : fmap_t) (R : rmap_t) (x : Z) : Prop :=
  match R !! x with
  | Some r => valid_client (EC.re_session_id r) (EC.re_client_order_id r) ∧
      (∃ e, F !! entry_key r = Some e ∧ EC.ie_exchange_id e = x) ∧
      ∀ k e, F !! k = Some e → EC.ie_exchange_id e = x → k = entry_key r
  | None => ∀ k e, F !! k = Some e → EC.ie_exchange_id e ≠ x
  end.

Lemma paired_linked F R x : paired F R → linked_at F R x.
Proof.
  intros [Hf Hr]. unfold linked_at. destruct (R !! x) as [r |] eqn:Hx.
  - destruct (Hr x r Hx) as (Hv & e & He & Hxe). split; [done |]. split; [by exists e |].
    intros k e' Hk <-. destruct (Hf k e' Hk) as (r' & Hr' & -> & _). congruence.
  - intros k e Hk <-. destruct (Hf k e Hk) as (r' & Hr' & _). congruence.
Qed.

Lemma linked_delete F R x r y :
  linked_at F R x → R !! x = Some r → linked_at F R y → x ≠ y →
  linked_at (delete (entry_key r) F) (delete x R) y.
Proof.
  unfold linked_at. intros Hx Ex Hy Hne. rewrite Ex in Hx. destruct Hx as (_ & (e & He & Hxe) & _).
  rewrite lookup_delete_ne by done. destruct (R !! y) as [r' |].
  - destruct Hy as (Hv & (e' & He' & Hye') & Huniq). split; [done |]. split.
    + exists e'. split; [| done]. rewrite lookup_delete_ne; [done |]. intros Heq. congruence.
    + intros k e1 [_ Hk]%lookup_delete_Some. by apply Huniq.
  - intros k e1 [_ Hk]%lookup_delete_Some. by apply (Hy k).
Qed.

(** A new order links nothing else. *)
Lemma linked_insert F R F' R' key e xid r y :
  linked_at F R y → y ≠ xid → EC.ie_exchange_id e = xid →
  F' = F ∨ F !! key = None ∧ F' = <[key := e]> F →
  R' = R ∨ R !! xid = None ∧ R' = <[xid := r]> R →
  linked_at F' R' y.
Proof.
  unfold linked_at. intros Hy Hne He HF HR.
  assert (R' !! y = R !! y) as ->.
  { destruct HR as [-> | [_ ->]]; [done |]. by rewrite lookup_insert_ne. }
  assert (∀ k e', F' !! k = Some e' → EC.ie_exchange_id e' = y → F !! k = Some e') as Hin.
  { intros k e' Hk Hy'. destruct HF as [-> | [_ ->]]; [done |].
    apply lookup_insert_Some in Hk as [[_ <-] | [_ Hk]]; [congruence | done]. }
  destruct (R !! y) as [r' |].
  - destruct Hy as (Hv & (e' & He' & Hye') & Huniq). split; [done |]. split; [| naive_solver].
    exists e'. split; [| done]. destruct HF as [-> | [Hn ->]]; [done |].
    rewrite lookup_insert_ne; [done |]. intros Heq. rewrite <- Heq in He'. congruence.
  - naive_solver.
Qed.

(** Forgetting a set of exchange orders. *)
Definition forget_rev (dead : list Z) (R : rmap_t) : rmap_t := filter (λ xr, xr.1 ∉ dead) R.
Definition forget_fwd (dead : list Z) (F : fmap_t) : fmap_t :=
  filter (λ ke, EC.ie_exchange_id ke.2 ∉ dead) F.

Lemma forget_nil F R : forget_fwd [] F = F ∧ forget_rev [] R = R.
Proof. split; apply map_filter_id; intros; apply not_elem_of_nil. Qed.

Lemma forget_rev_cons x dead R : forget_rev (x :: dead) R = forget_rev dead (delete x R).
Proof.
  apply map_eq. intros i. apply option_eq. intros r. unfold forget_rev.
  rewrite !map_lookup_filter_Some, lookup_delete_Some, not_elem_of_cons. naive_solver.
Qed.

Lemma forget_fwd_cons F R x r dead :
  linked_at F R x → R !! x = Some r → forget_fwd (x :: dead) F = forget_fwd dead (delete (entry_key r) F).
Proof.
  unfold linked_at. intros HP Hx. rewrite Hx in HP. destruct HP as (_ & (e & He & Hxe) & Huniq).
  apply map_eq. intros i. apply option_eq. intros e'. unfold forget_fwd.
  rewrite !map_lookup_filter_Some, lookup_delete_Some, not_elem_of_cons. simpl.
  split.
  - intros (Hi & Hne & Hd). split; [| done]. split; [| done]. intros <-. congruence.
  - intros ((Hne & Hi) & Hd). split; [done |]. split; [| done]. intros Heq.
    destruct Hne. symmetry. by apply (Huniq i e').
Qed.

(** An order without a mapping: there is nothing to forget. *)
Lemma forget_fwd_absent F R x dead :
  linked_at F R x → R !! x = None → forget_fwd (x :: dead) F = forget_fwd dead F.
Proof.
  unfold linked_at. intros HP Hx. rewrite Hx in HP.
  apply map_eq. intros i. apply option_eq. intros e'. unfold forget_fwd.
  rewrite !map_lookup_filter_Some, not_elem_of_cons. simpl. naive_solver.
Qed.

Lemma paired_forget F R dead : paired F R → paired (forget_fwd dead F) (forget_rev dead R).
Proof.
  revert F R. induction dead as [| x dead IH]; intros F R HP.
  { destruct (forget_nil F R) as [-> ->]. done. }
  pose proof (paired_linked F R x HP) as Hx. destruct (R !! x) as [r |] eqn:Ex.
  - rewrite (forget_fwd_cons F R x r dead Hx Ex), forget_rev_cons. apply IH. by apply paired_delete.
  - rewrite (forget_fwd_absent F R x dead Hx Ex), forget_rev_cons, delete_id by done. by apply IH.
Qed.

Lemma linked_forget F R x y : linked_at F R x → linked_at F R y → x ≠ y →
  linked_at (forget_fwd [x] F) (forget_rev [x] R) y.
Proof.
  intros Hx Hy Hne. rewrite forget_rev_cons. destruct (forget_nil F (delete x R)) as [_ ->].
  destruct (R !! x) as [r |] eqn:Ex.
  - rewrite (forget_fwd_cons F R x r [] Hx Ex). destruct (forget_nil (delete (entry_key r) F) R) as [-> _].
    by apply linked_delete.
  - rewrite (forget_fwd_absent F R x [] Hx Ex), delete_id by done. by destruct (forget_nil F R) as [-> _].
Qed.

(** * Events of a matching *)

Definition opposite_side (s : Side) : Side := if bool_decide (s = kBid) then kAsk else kBid.

Definition maker_events (R : rmap_t) v (fill : Fill) (s : Side) : list ExchangeEvent :=
  match R !! maker_id fill with
  | None => []
  | Some r => [ev_fill (EC.re_session_id r) (EC.re_client_order_id r) (maker_id fill) (EC.re_symbol_id r)
                 (opposite_side s) (f_price fill) (f_qty fill) (default 0 (vb_qty (maker_id fill) v))
                 (EC.re_send_ts r)]
  end.

Definition best_events (sym : Z) (s : Side) (V : vladder) : list ExchangeEvent :=
  match V with [] => [] | (p, os) :: _ => [ev_bbo sym s p (u32 (v_volume os))] end.

Definition bbo_events (sym : Z) v : list ExchangeEvent :=
  best_events sym kBid (v_bids v) ++ best_events sym kAsk (v_asks v).

(** Every fill is reported to the taker with the running remainder, to the
    maker with what is left of its order, and followed by the best prices. *)
Fixpoint fill_events (R : rmap_t) v (session cid xid sym : Z) (s : Side) (ts remaining : Z)
    (fs : list Fill) : list ExchangeEvent :=
  match fs with
  | [] => []
  | fill :: fs =>
      let remaining := u32 (remaining - f_qty fill) in
      ev_fill session cid xid sym s (f_price fill) (f_qty fill) remaining ts
        :: maker_events R v fill s ++ bbo_events sym v
        ++ fill_events R v session cid xid sym s ts remaining fs
  end.

Lemma fill_events_length R v session cid xid sym s ts rem fs :
  (length (fill_events R v session cid xid sym s ts rem fs) <= 4 * length fs)%nat.
Proof.
  revert rem. induction fs as [| f fs IH]; intros rem; [done |]. simpl fill_events.
  specialize (IH (u32 (rem - f_qty f))). simpl length. rewrite !length_app.
  assert (length (maker_events R v f s) <= 1)%nat by (unfold maker_events; case_match; simpl; lia).
  assert (∀ s V, length (best_events sym s V) <= 1)%nat as Hb
    by (intros ? []; simpl; [lia |]; case_match; simpl; lia).
  pose proof (Hb kBid (v_bids v)). pose proof (Hb kAsk (v_asks v)).
  assert (length (bbo_events sym v) <= 2)%nat by (unfold bbo_events; rewrite length_app; lia). lia.
Qed.

(** The dead makers: filled orders that left the book. *)
Definition dead_makers v (fs : list Fill) : list Z := filter (λ m, m ∉ vb_ids v) (maker_id <$> fs).

Lemma fill_events_forget R v session cid xid sym s ts rem fs m :
  m ∉ maker_id <$> fs →
  fill_events (delete m R) v session cid xid sym s ts rem fs
  = fill_events R v session cid xid sym s ts rem fs.
Proof.
  revert rem. induction fs as [| f fs IH]; intros rem Hm; [done |]. simpl.
  rewrite fmap_cons, not_elem_of_cons in Hm. rewrite IH by tauto.
  unfold maker_events. by rewrite lookup_delete_ne by tauto.
Qed.
