(* ===== verification/ExchangeCorrect.v ===== *)
(** The handlers of the exchange core implement their abstract outcomes:
    event emission, the identity tables and the books move together. *)
From S2P Require Import Prelude.
From S2P Require Import TableInterface.
From S2P Require Import TradingTypes.
From S2P Require Import OrderBook.
From S2P Require Import MatchingEngine.
From S2P Require Import BookView.
From S2P Require Import MatchSpec.
From S2P Require Import OrderBookRep.
From S2P Require Import OrderBookSpec.
From S2P Require Import MatchingTheorems.
From S2P Require Import Protocol.
From S2P Require Import ExchangeCore.
From S2P Require Import ExchangeSpec.
Import EC.
Local Open Scope Z_scope.
Local Open Scope array_scope.

Section Exchange.
Context (ndebug : bool) {OM LM SM FM RM : Type}.
Context `{TO : Table Z Z OM} `{TL : Table Z Z LM} {OML : TableLaws Z Z OM} {LML : TableLaws Z Z LM}.
Context `{TS : Table Z bool SM} {SL : TableLaws Z bool SM} {SI : TableIter Z bool SM}
  {SIL : TableIterLaws Z bool SM}.
Context `{TF : Table Z IdEntry FM} {FL : TableLaws Z IdEntry FM} {FI : TableIter Z IdEntry FM}
  {FIL : TableIterLaws Z IdEntry FM}.
Context `{TR : Table Z ReverseIdEntry RM} {RL : TableLaws Z ReverseIdEntry RM}.
Context (MaxSymbols MaxFills : Z) (HMax : 0 <= MaxFills < 2 ^ 32).
Abbreviation Core := (ExchangeCore OM LM SM FM RM).
Abbreviation engine_rep := (engine_rep (OM := OM) (LM := LM) ndebug MaxFills).
Implicit Types (c : Core).

(** * The event buffer *)

(** The events waiting to be drained. *)
Definition out c : list ExchangeEvent := take (Z.to_nat (event_count_ c)) (events_ c).

Definition buf_ok c : Prop := lenZ (events_ c) = kMaxEvents ∧ 0 <= event_count_ c <= kMaxEvents.

Definition fmap_of c : fmap_t := tbl_map (id_map_ c).
Definition rmap_of c : rmap_t := tbl_map (reverse_id_map_ c).

(** A core that can emit, with its identity tables. *)
Definition ready c (F : fmap_t) (R : rmap_t) : Prop :=
  buf_ok c ∧ tbl_wf (id_map_ c) ∧ tbl_wf (reverse_id_map_ c) ∧ fmap_of c = F ∧ rmap_of c = R.

(** What emission and table maintenance leave alone. *)
Definition frame c c' : Prop :=
  symbols_ c' = symbols_ c ∧ next_exchange_id_ c' = next_exchange_id_ c ∧
  next_session_id_ c' = next_session_id_ c ∧ active_sessions_ c' = active_sessions_ c ∧
  seen_orders_ c' = seen_orders_ c.

(** [c'] is [c] after emitting [evs], with tables [F] and [R]. *)
Definition sent c (evs : list ExchangeEvent) (F : fmap_t) (R : rmap_t) c' : Prop :=
  frame c c' ∧ ready c' F R ∧ out c' = out c ++ evs ∧
  event_count_ c' = event_count_ c + lenZ evs.

Lemma frame_refl c : frame c c.
Proof. done. Qed.

Lemma frame_trans c1 c2 c3 : frame c1 c2 → frame c2 c3 → frame c1 c3.
Proof. unfold frame. intuition congruence. Qed.

Lemma sent_nil c F R : ready c F R → sent c [] F R c.
Proof. intros Hr. split; [done |]. split; [done |]. rewrite app_nil_r. simpl. split; [done | lia]. Qed.

Lemma sent_trans c1 e1 F1 R1 c2 e2 F2 R2 c3 :
  sent c1 e1 F1 R1 c2 → sent c2 e2 F2 R2 c3 → sent c1 (e1 ++ e2) F2 R2 c3.
Proof.
  intros (Hf1 & _ & Ho1 & Hc1) (Hf2 & Hr & Ho2 & Hc2).
  split; [by eapply frame_trans |]. split; [done |].
  rewrite Ho2, Ho1, length_app, (assoc_L (++)). split; [done | lia].
Qed.

Lemma sent_ready c evs F R c' : sent c evs F R c' → ready c' F R.
Proof. by intros (_ & ? & _). Qed.

Lemma emit_spec c ev F R :
  ready c F R → event_count_ c + 1 <= kMaxEvents →
  ∃ c', emit c ev = Some c' ∧ sent c [ev] F R c'.
Proof.
  intros ([Hl Hc] & Hr) Hroom. unfold emit, kMaxEvents in *. rewrite bool_decide_false by lia.
  rewrite storeZ_Some by lia. simpl. rewrite u32_id by mlia. eexists. split; [done |].
  split; [done |]. split; [split; [split; simpl; [by rewrite length_setZ | unfold kMaxEvents; lia] | done] |].
  split; [| done]. unfold out. simpl. by apply take_setZ_snoc; lia.
Qed.

(** ** The best prices *)

Lemma emit_best_spec c b v s sym F R :
  represents ndebug b v → valid_side s = true → ready c F R → event_count_ c + 1 <= kMaxEvents →
  ∃ c', emit_best c b sym s = Some c' ∧ sent c (best_events sym s (v_side v s)) F R c'.
Proof.
  intros (A & Hrep & <-) Hv Hr Hroom. unfold emit_best.
  destruct Hrep as [(Ho & Hl & Hwf) _ _ _ _]. rewrite (lo_ladder _ _ _ Hl s Hv), v_side_view.
  destruct (side_of A s) as [| l L] eqn:Hs; simpl.
  { exists c. split; [done |]. by apply sent_nil. }
  rewrite (lo_slot _ _ _ Hl s l) by (rewrite Hs; left). simpl.
  rewrite v_volume_view. by apply emit_spec.
Qed.

Lemma best_events_length sym s V : (length (best_events sym s V) <= 1)%nat.
Proof. destruct V as [| [? ?] ?]; simpl; lia. Qed.

Lemma emit_bbo_spec c i slot v sym F R :
  (symbols_ c).[i] = Some slot → represents ndebug (book_ (engine slot)) v → ready c F R →
  event_count_ c + 2 <= kMaxEvents →
  ∃ c', emit_bbo c i sym = Some c' ∧ sent c (bbo_events sym v) F R c'.
Proof.
  intros Hi Hrep Hr Hroom. unfold emit_bbo. rewrite Hi. simpl.
  destruct (emit_best_spec c _ v kBid sym F R Hrep eq_refl Hr) as (c1 & -> & H1); [lia |]. simpl.
  pose proof (best_events_length sym kBid (v_side v kBid)).
  destruct (emit_best_spec c1 _ v kAsk sym F R Hrep eq_refl (sent_ready _ _ _ _ _ H1)) as (c2 & -> & H2).
  { destruct H1 as (_ & _ & _ & ->). lia. }
  exists c2. split; [done |]. by eapply sent_trans.
Qed.

(** ** The maker's report *)

Lemma debug_assert_true b : b = true → debug_assert ndebug b = Some tt.
Proof. intros ->. unfold debug_assert. by destruct ndebug. Qed.

Lemma sent_maps c f r evs F R c' F' R' :
  sent c evs F R c' → tbl_wf f → tbl_wf r → tbl_map f = F' → tbl_map r = R' →
  sent c evs F' R' (with_maps c' f r).
Proof. intros (Hf & (Hb & _) & Ho & Hc) Hwf Hwr HF HR. split; [done |]. split; [done | done]. Qed.

Lemma emit_maker_fill_spec c i slot v fill s F R :
  (symbols_ c).[i] = Some slot → represents ndebug (book_ (engine slot)) v → linked_at F R (maker_id fill) →
  ready c F R → event_count_ c + 1 <= kMaxEvents →
  let dead := dead_makers v [fill] in
  ∃ c', emit_maker_fill ndebug c i fill s = Some c' ∧
    sent c (maker_events R v fill s) (forget_fwd dead F) (forget_rev dead R) c'.
Proof.
  intros Hi Hrep HP Hr Hroom dead. pose proof Hr as (Hbuf & Hfw & Hrw & HF & HR).
  unfold emit_maker_fill, maker_events. rewrite tbl_find_spec by done.
  unfold rmap_of in HR. rewrite HR. simpl.
  assert (dead = if decide (maker_id fill ∈ vb_ids v) then [] else [maker_id fill]) as ->.
  { unfold dead, dead_makers. simpl. rewrite filter_cons. do 2 case_decide; done. }
  destruct (R !! maker_id fill) as [r |] eqn:Hx.
  2: { exists c. split; [done |]. case_decide.
       - destruct (forget_nil F R) as [-> ->]. by apply sent_nil.
       - rewrite (forget_fwd_absent F R _ [] HP Hx), forget_rev_cons, delete_id by done.
         destruct (forget_nil F R) as [-> ->]. by apply sent_nil. }
  rewrite Hi. simpl. rewrite (order_qty_eq ndebug _ v) by done. simpl.
  destruct (emit_spec c (ev_fill (re_session_id r) (re_client_order_id r) (maker_id fill) (re_symbol_id r)
    (opposite_side s) (f_price fill) (f_qty fill) (default 0 (vb_qty (maker_id fill) v)) (re_send_ts r))
    F R Hr Hroom) as (c1 & E & H1).
  unfold opposite_side in E. rewrite E. simpl. rewrite (has_order_eq ndebug _ v) by done. simpl.
  destruct (decide (maker_id fill ∈ vb_ids v)) as [Hin | Hin].
  { rewrite bool_decide_true by done. exists c1. split; [done |]. destruct (forget_nil F R) as [-> ->]. done. }
  rewrite bool_decide_false by done.
  pose proof HP as HL. unfold linked_at in HL. rewrite Hx in HL. destruct HL as (Hv & (e & He & Hxe) & _).
  rewrite make_composite_key_eq by done. simpl.
  destruct (sent_ready _ _ _ _ _ H1) as (_ & Hfw1 & Hrw1 & HF1 & HR1).
  destruct (tbl_erase_spec (id_map_ c1) (entry_key r) Hfw1) as (f & Ef & Hf & Hmf).
  unfold entry_key in Ef. rewrite Ef. simpl. unfold fmap_of in HF1. rewrite HF1 in *.
  rewrite debug_assert_true by (apply bool_decide_eq_true; unfold entry_key in He; by rewrite He). simpl.
  destruct (tbl_erase_spec (reverse_id_map_ c1) (maker_id fill) Hrw1) as (r' & Er & Hr' & Hmr).
  rewrite Er. simpl. unfold rmap_of in HR1. rewrite HR1 in *.
  rewrite debug_assert_true by (apply bool_decide_eq_true; by rewrite Hx). simpl.
  eexists. split; [done |]. eapply sent_maps; [exact H1 | done | done | |].
  - rewrite Hmf, (forget_fwd_cons F R _ r [] HP Hx). by destruct (forget_nil (delete (entry_key r) F) R) as [-> _].
  - rewrite Hmr, forget_rev_cons. by destruct (forget_nil F (delete (maker_id fill) R)) as [_ ->].
Qed.

Lemma forget_app d d' F R : forget_fwd (d ++ d') F = forget_fwd d' (forget_fwd d F) ∧
  forget_rev (d ++ d') R = forget_rev d' (forget_rev d R).
Proof.
  split; apply map_eq; intros k; apply option_eq; intros e; unfold forget_fwd, forget_rev;
    rewrite !map_lookup_filter_Some, not_elem_of_app; naive_solver.
Qed.

Lemma maker_events_length R v f s : (length (maker_events R v f s) <= 1)%nat.
Proof. unfold maker_events. case_match; simpl; lia. Qed.

Lemma bbo_events_length sym v : (length (bbo_events sym v) <= 2)%nat.
Proof.
  unfold bbo_events. rewrite length_app.
  pose proof (best_events_length sym kBid (v_bids v)). pose proof (best_events_length sym kAsk (v_asks v)). lia.
Qed.

(** The makers of later fills keep their mappings. *)
Lemma fill_events_forget_dead R v session cid xid sym s ts rem f fs :
  maker_id f ∉ maker_id <$> fs →
  fill_events (forget_rev (dead_makers v [f]) R) v session cid xid sym s ts rem fs
  = fill_events R v session cid xid sym s ts rem fs.
Proof.
  intros Hf. unfold dead_makers. simpl. rewrite filter_cons, filter_nil. case_decide.
  - rewrite forget_rev_cons. destruct (forget_nil ∅ (delete (maker_id f) R)) as [_ ->].
    by apply fill_events_forget.
  - by destruct (forget_nil ∅ R) as [_ ->].
Qed.

Lemma dead_makers_cons v f fs : dead_makers v (f :: fs) = dead_makers v [f] ++ dead_makers v fs.
Proof. unfold dead_makers. rewrite !fmap_cons, !filter_cons. simpl. by case_decide. Qed.

Lemma linked_dead F R v f m :
  linked_at F R (maker_id f) → linked_at F R m → maker_id f ≠ m →
  linked_at (forget_fwd (dead_makers v [f]) F) (forget_rev (dead_makers v [f]) R) m.
Proof.
  intros Hf Hm Hne. unfold dead_makers. simpl. rewrite filter_cons, filter_nil. case_decide.
  - by apply linked_forget.
  - by destruct (forget_nil F R) as [-> ->].
Qed.

Lemma emit_fills_spec c i slot v session cid xid sym s ts rem fs F R :
  (symbols_ c).[i] = Some slot → represents ndebug (book_ (engine slot)) v →
  (∀ m, m ∈ maker_id <$> fs → linked_at F R m) → NoDup (maker_id <$> fs) → ready c F R → event_count_ c + 4 * lenZ fs <= kMaxEvents →
  let dead := dead_makers v fs in
  ∃ c', emit_fills ndebug c i session cid xid sym s ts rem fs = Some c' ∧
    sent c (fill_events R v session cid xid sym s ts rem fs) (forget_fwd dead F) (forget_rev dead R) c'.
Proof.
  revert c F R rem. induction fs as [| f fs IH]; intros c F R rem Hi Hrep HP Hnd Hr Hroom dead.
  { exists c. split; [done |]. subst dead. unfold dead_makers. rewrite fmap_nil, filter_nil.
    destruct (forget_nil F R) as [-> ->]. by apply sent_nil. }
  simpl length in Hroom. apply nodup_cons in Hnd as [Hf Hnd]. simpl emit_fills.
  destruct (emit_spec c (ev_fill session cid xid sym s (f_price f) (f_qty f) (u32 (rem - f_qty f)) ts)
    F R Hr) as (c1 & -> & H1); [lia |]. simpl.
  pose proof H1 as ((Hs1 & _) & Hr1 & _ & Hc1). simpl in Hc1. rewrite <- Hs1 in Hi.
  assert (linked_at F R (maker_id f)) as HPf by (apply HP; left).
  destruct (emit_maker_fill_spec c1 i slot v f s F R Hi Hrep HPf Hr1) as (c2 & -> & H2); [lia |]. simpl.
  pose proof H2 as ((Hs2 & _) & Hr2 & _ & Hc2). rewrite <- Hs2 in Hi.
  pose proof (maker_events_length R v f s). pose proof (bbo_events_length sym v).
  destruct (emit_bbo_spec c2 i slot v sym _ _ Hi Hrep Hr2) as (c3 & -> & H3); [lia |]. simpl.
  pose proof H3 as ((Hs3 & _) & Hr3 & _ & Hc3). rewrite <- Hs3 in Hi.
  destruct (IH c3 (forget_fwd (dead_makers v [f]) F) (forget_rev (dead_makers v [f]) R)
    (u32 (rem - f_qty f)) Hi Hrep) as (c4 & -> & H4); [| done | done | lia |].
  { intros m Hm. apply linked_dead; [done | apply HP; by right | by intros <-]. }
  exists c4. split; [done |]. rewrite fill_events_forget_dead in H4 by done.
  subst dead. rewrite dead_makers_cons.
  destruct (forget_app (dead_makers v [f]) (dead_makers v fs) F R) as [-> ->].
  simpl. change (ev_fill ?a ?b ?c ?d ?e ?g ?h ?i ?j :: ?l) with ([ev_fill a b c d e g h i j] ++ l).
  eapply sent_trans; [exact H1 |]. eapply sent_trans; [exact H2 |]. by eapply sent_trans.
Qed.

(** * Registration of a resting order *)

Lemma register_order_spec c xid session cid sym ts s F R :
  ready c F R →
  ∃ c' F' R', register_order c (client_key session cid) xid session cid sym ts s = Some c' ∧
    sent c [] F' R' c' ∧
    (F' = F ∨ F !! client_key session cid = None ∧
       F' = <[client_key session cid := {| ie_exchange_id := xid; ie_side := s; ie_symbol_id := sym |}]> F) ∧
    (R' = R ∨ R !! xid = None ∧
       R' = <[xid := {| re_session_id := session; re_client_order_id := cid; re_symbol_id := sym;
                        re_send_ts := ts |}]> R).
Proof.
  intros Hr. pose proof Hr as (Hbuf & Hfw & Hrw & <- & <-). unfold register_order.
  destruct (tbl_insert_spec (id_map_ c) (client_key session cid)
    {| ie_exchange_id := xid; ie_side := s; ie_symbol_id := sym |} Hfw) as (f & bf & -> & Hf & Hbf). simpl.
  destruct (tbl_insert_spec (reverse_id_map_ c) xid
    {| re_session_id := session; re_client_order_id := cid; re_symbol_id := sym; re_send_ts := ts |} Hrw)
    as (r & br & -> & Hr' & Hbr). simpl.
  exists (with_maps c f r), (tbl_map f), (tbl_map r). split; [done |]. split.
  { eapply sent_maps; [by apply sent_nil | done..]. }
  split.
  - destruct bf; [by right | left]. by subst f.
  - destruct br; [by right | left]. by subst r.
Qed.

(** * The representation invariant *)

Definition live_in (syms : list (SymbolSlot OM LM)) (i : Z) : Prop :=
  ∃ slot, syms.[i] = Some slot ∧ active slot = true.

(** The books: one abstract book per live symbol, every resting identity was
    issued by this core, to one symbol only. *)
Record books_rep (syms : list (SymbolSlot OM LM)) (next : Z) (vs : Z → vbook) : Prop := {
  bo_len : lenZ syms = MaxSymbols;
  bo_next : 0 < next;
  bo_engine i slot : syms.[i] = Some slot → active slot = true → engine_rep (engine slot) (vs i);
  bo_ids i x : live_in syms i → x ∈ vb_ids (vs i) → 0 < x < next;
  bo_disjoint i j x : live_in syms i → live_in syms j → x ∈ vb_ids (vs i) → x ∈ vb_ids (vs j) → i = j;
}.

(** A mapped order rests in the book of its symbol. *)
Definition live_entry (syms : list (SymbolSlot OM LM)) (vs : Z → vbook) (e : IdEntry) : Prop :=
  valid_side (ie_side e) = true ∧ 1 <= ie_symbol_id e <= MaxSymbols ∧
  live_in syms (ie_symbol_id e - 1) ∧ ie_exchange_id e ∈ vb_ids (vs (ie_symbol_id e - 1)).

Definition maps_rep (syms : list (SymbolSlot OM LM)) (vs : Z → vbook) (F : fmap_t) (R : rmap_t) : Prop :=
  paired F R ∧ ∀ k e, F !! k = Some e → live_entry syms vs e.

Record core_rep c (vs : Z → vbook) : Prop := {
  cr_books : books_rep (symbols_ c) (next_exchange_id_ c) vs;
  cr_maps : maps_rep (symbols_ c) vs (fmap_of c) (rmap_of c);
  cr_buf : buf_ok c;
  cr_fwd : tbl_wf (id_map_ c);
  cr_rev : tbl_wf (reverse_id_map_ c);
  cr_seen : tbl_wf (seen_orders_ c);
  cr_recorded k : is_Some (fmap_of c !! k) → is_Some (tbl_map (seen_orders_ c) !! k);
  cr_sessions : lenZ (active_sessions_ c) = 65536 ∧ is_u16 (next_session_id_ c);
  cr_symbols : 0 < MaxSymbols < 2 ^ 32;
}.

(** Every resting order has its client on record. *)
Definition complete c (vs : Z → vbook) : Prop :=
  ∀ i x, live_in (symbols_ c) i → x ∈ vb_ids (vs i) → is_Some (rmap_of c !! x).

Definition set_book (vs : Z → vbook) (i : Z) v : Z → vbook :=
  λ j, if bool_decide (j = i) then v else vs j.

Lemma set_book_eq vs i v : set_book vs i v i = v.
Proof. unfold set_book. by rewrite bool_decide_true. Qed.
Lemma set_book_ne vs i j v : j ≠ i → set_book vs i v j = vs j.
Proof. intros. unfold set_book. by rewrite bool_decide_false. Qed.

Lemma core_ready c vs : core_rep c vs → ready c (fmap_of c) (rmap_of c).
Proof. by intros []. Qed.

Section Step.
Context (syms : list (SymbolSlot OM LM)) (i : Z) (slot : SymbolSlot OM LM)
  (Hi : syms.[i] = Some slot) (Hact : active slot = true).
Context (e' : MatchingEngine OM LM).
Definition step_syms : list (SymbolSlot OM LM) := syms.[i <- {| engine := e'; active := active slot |}].

Lemma step_lookup j slot' :
  step_syms.[j] = Some slot' →
  j = i ∧ slot' = {| engine := e'; active := true |} ∨ j ≠ i ∧ syms.[j] = Some slot'.
Proof.
  unfold step_syms. rewrite getZ_setZ by (by eapply getZ_Some). destruct (decide (i = j)) as [<- | ?].
  - intros [= <-]. rewrite Hact. by left.
  - by right.
Qed.

Lemma step_at : step_syms.[i] = Some {| engine := e'; active := true |}.
Proof. unfold step_syms. rewrite getZ_setZ_eq by (by eapply getZ_Some). by rewrite Hact. Qed.

Lemma step_live j : live_in step_syms j ↔ live_in syms j.
Proof.
  split.
  - intros (slot' & [(-> & _) | (_ & ?)]%step_lookup & Ha); [by exists slot | by exists slot'].
  - intros (slot' & Hj & Ha). destruct (decide (j = i)) as [-> | Hne].
    + eexists. by split; [apply step_at |].
    + exists slot'. split; [| done]. unfold step_syms. apply getZ_Some in Hi.
      rewrite getZ_setZ_ne; [done | lia | done].
Qed.

Lemma books_step next next' vs v' :
  books_rep syms next vs → engine_rep e' v' → next <= next' →
  (∀ x, x ∈ vb_ids v' → x ∈ vb_ids (vs i) ∨ next <= x < next') →
  books_rep step_syms next' (set_book vs i v').
Proof.
  intros [Hl Hn He Hids Hdis] He' Hle Hnew.
  assert (live_in syms i) as Hlive by (by exists slot). split.
  - unfold step_syms. by rewrite length_setZ.
  - lia.
  - intros j slot' [(-> & ->) | (Hne & Hj)]%step_lookup Ha.
    + by rewrite set_book_eq.
    + rewrite set_book_ne by done. by apply He.
  - intros j x Hj%step_live. destruct (decide (j = i)) as [-> | Hne].
    + rewrite set_book_eq. intros [Hx | ?]%Hnew; [specialize (Hids i x Hj Hx) |]; lia.
    + rewrite set_book_ne by done. intros Hx. specialize (Hids j x Hj Hx). lia.
  - intros j k x Hj%step_live Hk%step_live.
    destruct (decide (j = i)) as [-> | Hj'], (decide (k = i)) as [-> | Hk'];
      rewrite ?set_book_eq, ?set_book_ne by done; [done | | |].
    + intros [Hx | ?]%Hnew Hy; [by apply (Hdis i k x) | specialize (Hids k x Hk Hy); lia].
    + intros Hy [Hx | ?]%Hnew; [by apply (Hdis j i x) | specialize (Hids j x Hj Hy); lia].
    + by apply Hdis.
Qed.

(** Mappings survive when their orders do. *)
Lemma entry_step vs v' e :
  live_entry syms vs e → (ie_symbol_id e - 1 = i → ie_exchange_id e ∈ vb_ids v') →
  live_entry step_syms (set_book vs i v') e.
Proof.
  intros (Hs & Hr & Hl & Hx) Hv'. split; [done |]. split; [done |]. rewrite step_live. split; [done |].
  destruct (decide (ie_symbol_id e - 1 = i)) as [Heq | Hne].
  - rewrite Heq, set_book_eq. auto.
  - by rewrite set_book_ne.
Qed.

Lemma maps_forget vs v' F R dead :
  maps_rep syms vs F R → (∀ x, x ∈ vb_ids (vs i) → x ∈ vb_ids v' ∨ x ∈ dead) →
  maps_rep step_syms (set_book vs i v') (forget_fwd dead F) (forget_rev dead R).
Proof.
  intros [HP Hlive] Hold. split; [by apply paired_forget |].
  intros k e He. unfold forget_fwd in He. apply map_lookup_filter_Some in He as [He Hd]. simpl in Hd.
  apply entry_step; [by eapply Hlive |]. intros Hs. destruct (Hlive k e He) as (_ & _ & _ & Hx).
  rewrite Hs in Hx. destruct (Hold _ Hx); [done | contradiction].
Qed.
End Step.

(** A new resting order, mapped on both sides or on neither. *)
Definition even (F : fmap_t) (R : rmap_t) (key xid : Z) : Prop :=
  is_Some (R !! xid) ↔ ∃ e, F !! key = Some e ∧ ie_exchange_id e = xid.

Lemma maps_register syms vs F R F' R' session cid xid sym ts s :
  maps_rep syms vs F R → valid_client session cid →
  live_entry syms vs {| ie_exchange_id := xid; ie_side := s; ie_symbol_id := sym |} →
  R !! xid = None →
  F' = F ∨ F !! client_key session cid = None ∧
    F' = <[client_key session cid := {| ie_exchange_id := xid; ie_side := s; ie_symbol_id := sym |}]> F →
  R' = R ∨ R !! xid = None ∧
    R' = <[xid := {| re_session_id := session; re_client_order_id := cid; re_symbol_id := sym;
                     re_send_ts := ts |}]> R →
  even F' R' (client_key session cid) xid → maps_rep syms vs F' R'.
Proof.
  intros [HP Hlive] Hv He HRn HF HR Heven. unfold even in Heven.
  assert (∀ k e, F !! k = Some e → ie_exchange_id e ≠ xid) as Hno.
  { intros k e Hk <-. destruct (pa_fwd _ _ HP k e Hk) as (r & Hr & _). congruence. }
  destruct HF as [-> | [HFn ->]], HR as [-> | [_ ->]].
  - done.
  - exfalso. rewrite lookup_insert_eq in Heven. destruct Heven as [H _].
    destruct (H ltac:(done)) as (e & Hk & Hx). by eapply Hno.
  - exfalso. rewrite lookup_insert_eq in Heven. destruct Heven as [_ H].
    rewrite HRn in H. destruct H as [? ?]; [by eexists | done].
  - split; [by apply paired_insert |].
    intros k e [[_ <-] | [_ Hk]]%lookup_insert_Some; [done | by eapply Hlive].
Qed.

(** * Symbols *)

Definition sym_live c (sym : Z) : Prop := 1 <= sym <= MaxSymbols ∧ live_in (symbols_ c) (sym - 1).

Lemma symbol_index_spec c vs sym :
  core_rep c vs → is_u32 sym →
  (symbol_index MaxSymbols c sym = Some None ∧ ¬ sym_live c sym) ∨
  (∃ slot, symbol_index MaxSymbols c sym = Some (Some (sym - 1)) ∧ sym_live c sym ∧
     (symbols_ c).[sym - 1] = Some slot ∧ active slot = true).
Proof.
  intros Hc Hs. pose proof (cr_symbols _ _ Hc) as HM. unfold symbol_index.
  destruct (decide (1 <= sym <= MaxSymbols)) as [Hr | Hr].
  - rewrite !bool_decide_false by lia. cbn [orb]. rewrite u32_id by mlia.
    destruct (getZ_is_Some (symbols_ c) (sym - 1)) as [slot Hslot].
    { rewrite (bo_len _ _ _ (cr_books _ _ Hc)). lia. }
    rewrite Hslot. simpl. destruct (active slot) eqn:Ha.
    + right. exists slot. split; [done |]. split; [| done]. split; [done |]. by exists slot.
    + left. split; [done |]. intros [_ (slot' & Hs' & Ha')]. congruence.
  - left. split; [| by intros [? _]].
    destruct (decide (sym = 0)) as [-> | ?]; [by rewrite bool_decide_true |].
    rewrite (bool_decide_true (sym > MaxSymbols)) by mlia. by rewrite orb_true_r.
Qed.

Lemma with_engine_eq c i slot e :
  (symbols_ c).[i] = Some slot → with_engine c i e = Some (with_symbols c (step_syms (symbols_ c) i slot e)).
Proof.
  intros Hi. unfold with_engine. rewrite Hi. simpl. by rewrite storeZ_Some by (by eapply getZ_Some).
Qed.

(** * Submission *)

Definition submit_reject (session : Z) (o : NewOrder) (sym : Z) (r : RejectReason) : ExchangeEvent :=
  ev_rejected kOrderRejected session (no_client_order_id o) sym (no_send_ts o) r.

(** What an accepted order leaves rests, unless the book of its symbol
    refuses it. *)
Definition rest_accounted c (vs : Z → vbook) (o : NewOrder) (r : MatchResult) : Prop :=
  ∃ slot, (symbols_ c).[no_symbol_id o - 1] = Some slot ∧
    rests_or_refused ndebug MaxFills (engine slot) (vs (no_symbol_id o - 1)) (next_exchange_id_ c)
      (side_of_u8 (no_side o)) (no_price o) (no_qty o) r.

(** The outcomes of a submission: the events and the books afterwards. *)
Inductive submit_outcome c (vs : Z → vbook) (session : Z) (o : NewOrder)
  : list ExchangeEvent → (Z → vbook) → Prop :=
  | submit_bad_id :
      no_client_order_id o > kMaxClientOrderId →
      submit_outcome c vs session o [submit_reject session o 0 kInvalidOrderId] vs
  | submit_bad_symbol :
      no_client_order_id o <= kMaxClientOrderId → ¬ sym_live c (no_symbol_id o) →
      submit_outcome c vs session o [submit_reject session o (no_symbol_id o) kUnknownSymbol] vs
  | submit_duplicate :
      no_client_order_id o <= kMaxClientOrderId → sym_live c (no_symbol_id o) →
      is_Some (tbl_map (seen_orders_ c) !! client_key session (no_client_order_id o)) →
      submit_outcome c vs session o [submit_reject session o (no_symbol_id o) kDuplicateOrderId] vs
  | submit_unrecorded :
      no_client_order_id o <= kMaxClientOrderId → sym_live c (no_symbol_id o) →
      tbl_map (seen_orders_ c) !! client_key session (no_client_order_id o) = None →
      tbl_insert (seen_orders_ c) (client_key session (no_client_order_id o)) true
        = Some (seen_orders_ c, false) →
      submit_outcome c vs session o [submit_reject session o (no_symbol_id o) kBookFull] vs
  | submit_refused r v' :
      no_client_order_id o <= kMaxClientOrderId → sym_live c (no_symbol_id o) →
      tbl_map (seen_orders_ c) !! client_key session (no_client_order_id o) = None →
      submission MaxFills (vs (no_symbol_id o - 1)) (next_exchange_id_ c) (side_of_u8 (no_side o))
        (no_price o) (no_qty o) r v' →
      fills r = [] → rested r = false → rest_accounted c vs o r →
      submit_outcome c vs session o [submit_reject session o (no_symbol_id o) kBookFull]
        (set_book vs (no_symbol_id o - 1) v')
  | submit_traded r v' :
      no_client_order_id o <= kMaxClientOrderId → sym_live c (no_symbol_id o) →
      tbl_map (seen_orders_ c) !! client_key session (no_client_order_id o) = None →
      submission MaxFills (vs (no_symbol_id o - 1)) (next_exchange_id_ c) (side_of_u8 (no_side o))
        (no_price o) (no_qty o) r v' →
      fills r ≠ [] ∨ rested r = true → rest_accounted c vs o r →
      submit_outcome c vs session o
        (ev_accepted kOrderAccepted session (no_client_order_id o) (next_exchange_id_ c)
           (no_symbol_id o) (no_send_ts o)
         :: fill_events (rmap_of c) v' session (no_client_order_id o) (next_exchange_id_ c)
              (no_symbol_id o) (side_of_u8 (no_side o)) (no_send_ts o) (no_qty o) (fills r))
        (set_book vs (no_symbol_id o - 1) v').

(** What every handler guarantees of the core it leaves: the invariant,
    provided the tables took a new order both or neither; and completeness,
    provided the new order is on record if it rests. *)
Definition kept c vs c' vs' (key xid : Z) : Prop :=
  (even (fmap_of c') (rmap_of c') key xid → core_rep c' vs') ∧
  (complete c vs → (∀ i, live_in (symbols_ c') i → xid ∈ vb_ids (vs' i) → is_Some (rmap_of c' !! xid)) →
   complete c' vs').

(** The exchange order about to be created is nowhere yet. *)
Lemma next_fresh c vs i : core_rep c vs → live_in (symbols_ c) i → next_exchange_id_ c ∉ vb_ids (vs i).
Proof. intros Hc Hl Hx. pose proof (bo_ids _ _ _ (cr_books _ _ Hc) i _ Hl Hx). lia. Qed.

Lemma rev_live c vs x r :
  core_rep c vs → rmap_of c !! x = Some r →
  ∃ i, live_in (symbols_ c) i ∧ x ∈ vb_ids (vs i).
Proof.
  intros Hc Hr. destruct (cr_maps _ _ Hc) as [HP Hlive].
  destruct (pa_rev _ _ HP x r Hr) as (_ & e & He & <-). destruct (Hlive _ _ He) as (_ & _ & Hl & Hx).
  by eexists.
Qed.

Lemma next_unmapped c vs : core_rep c vs → rmap_of c !! next_exchange_id_ c = None.
Proof.
  intros Hc. destruct (rmap_of c !! next_exchange_id_ c) as [r |] eqn:Hr; [| done].
  destruct (rev_live c vs _ r Hc Hr) as (i & Hl & Hx). by destruct (next_fresh c vs i Hc Hl).
Qed.

(** Emission alone keeps the invariant. *)
Lemma sent_rep c vs evs c' : core_rep c vs → sent c evs (fmap_of c) (rmap_of c) c' → core_rep c' vs.
Proof.
  intros [] ((Hs & Hn & Hns & Ha & Hse) & (Hbuf & Hfw & Hrw & HF & HR) & _).
  split; rewrite ?Hs, ?Hn, ?Hns, ?Ha, ?Hse, ?HF, ?HR; done.
Qed.

Lemma kept_emit c vs evs c' key xid :
  core_rep c vs → sent c evs (fmap_of c) (rmap_of c) c' → kept c vs c' vs key xid.
Proof.
  intros Hc Hsent. split; [intros _; by eapply sent_rep |].
  destruct Hsent as ((Hs & _) & (_ & _ & _ & _ & HR) & _). intros Hcomp _ i x. rewrite Hs, HR. apply Hcomp.
Qed.

(** ** After a trade *)

Section After.
Context c vs (Hc : core_rep c vs) (i : Z) (slot : SymbolSlot OM LM)
  (Hi : (symbols_ c).[i] = Some slot) (Hact : active slot = true).
Context e' v' (He' : engine_rep e' v') c' (n : Z).
Context (Hsyms : symbols_ c' = step_syms (symbols_ c) i slot e')
  (Hnext : next_exchange_id_ c' = next_exchange_id_ c + n) (Hn : 0 <= n)
  (Hnew : ∀ x, x ∈ vb_ids v' → x ∈ vb_ids (vs i) ∨ next_exchange_id_ c <= x < next_exchange_id_ c + n).
Context (F' : fmap_t) (R' : rmap_t) (Hr' : ready c' F' R').
Context (Hsess : next_session_id_ c' = next_session_id_ c ∧ active_sessions_ c' = active_sessions_ c)
  (Hswf : tbl_wf (seen_orders_ c'))
  (Hrec : ∀ k, is_Some (F' !! k) → is_Some (tbl_map (seen_orders_ c') !! k)).

Lemma rep_after :
  maps_rep (step_syms (symbols_ c) i slot e') (set_book vs i v') F' R' → core_rep c' (set_book vs i v').
Proof.
  intros Hmaps. destruct Hr' as (Hbuf & Hf & Hr & HF & HR), Hsess as [Hs1 Hs2], Hc.
  split; rewrite ?Hsyms, ?Hnext, ?HF, ?HR, ?Hs1, ?Hs2; try done.
  eapply books_step; [done | done | done | done | lia | done].
Qed.

Lemma complete_after (dead : list Z) :
  (∀ x, x ∈ dead → x ∈ vb_ids (vs i) ∧ x ∉ vb_ids v') →
  (∀ x, is_Some (rmap_of c !! x) → x ∉ dead → is_Some (R' !! x)) →
  complete c vs →
  (∀ x, x ∈ vb_ids v' → x ∉ vb_ids (vs i) → is_Some (rmap_of c' !! x)) →
  complete c' (set_book vs i v').
Proof.
  intros Hdead Hkeep Hcomp Hx j x Hj. rewrite Hsyms in Hj.
  apply (step_live _ _ _ Hi Hact) in Hj.
  assert (live_in (symbols_ c) i) as Hlive by (by exists slot).
  destruct Hr' as (_ & _ & _ & _ & HR).
  destruct (decide (j = i)) as [-> | Hne].
  - rewrite set_book_eq. intros Hv'. destruct (decide (x ∈ vb_ids (vs i))) as [Hin | Hin]; [| by apply Hx].
    rewrite HR. apply Hkeep; [by eapply Hcomp |]. intros Hd. by destruct (Hdead x Hd).
  - rewrite set_book_ne by done. intros Hin. rewrite HR. apply Hkeep; [by apply (Hcomp j) |].
    intros [Hd _]%Hdead. apply Hne. by apply (bo_disjoint _ _ _ (cr_books _ _ Hc) j i x).
Qed.
End After.

Lemma dead_makers_in v fs x : x ∈ dead_makers v fs ↔ x ∉ vb_ids v ∧ x ∈ maker_id <$> fs.
Proof. unfold dead_makers. by rewrite list_elem_of_filter. Qed.

Lemma forget_rev_keep dead R x : is_Some (R !! x) → x ∉ dead → is_Some (forget_rev dead R !! x).
Proof. intros [r Hr] Hd. exists r. unfold forget_rev. by apply map_lookup_filter_Some. Qed.

Lemma forget_rev_none dead R x : R !! x = None → forget_rev dead R !! x = None.
Proof. intros Hr. unfold forget_rev. apply map_lookup_filter_None. by left. Qed.

Lemma forget_fwd_sub dead F k : is_Some (forget_fwd dead F !! k) → is_Some (F !! k).
Proof. intros [e He]. exists e. unfold forget_fwd in He. by apply map_lookup_filter_Some in He as [? _]. Qed.

(** The core with a new identity recorded, before the engine runs. *)
Lemma rep_recorded c vs key t n :
  core_rep c vs → tbl_insert (seen_orders_ c) key true = Some (t, true) → tbl_wf t →
  tbl_map t = <[key := true]> (tbl_map (seen_orders_ c)) → 0 <= n →
  core_rep (with_next_exchange_id (with_seen c t) (next_exchange_id_ c + n)) vs.
Proof.
  intros [] _ Ht Hm Hn. split; simpl; try done.
  - destruct cr_books0. split; try done; [lia |]. intros i x Hl Hx. specialize (bo_ids0 i x Hl Hx). lia.
  - intros k Hk. rewrite Hm. destruct (decide (key = k)) as [-> | ?].
    + rewrite lookup_insert_eq. by eexists.
    + rewrite lookup_insert_ne by done. auto.
Qed.

Lemma side_of_u8_valid b : 0 <= b <= 1 → valid_side (side_of_u8 b) = true.
Proof. intros Hb. assert (b = 0 ∨ b = 1) as [-> | ->] by lia; done. Qed.

Lemma emit_kept c vs ev key xid :
  core_rep c vs → event_count_ c + 1 <= kMaxEvents →
  ∃ c', emit c ev = Some c' ∧ out c' = out c ++ [ev] ∧ kept c vs c' vs key xid.
Proof.
  intros Hc Hroom. destruct (emit_spec c ev _ _ (core_ready c vs Hc) Hroom) as (c' & E & Hs).
  exists c'. split; [done |]. split; [apply Hs | by eapply kept_emit].
Qed.

(** What a handler knows once the engine of symbol [i] has run: the core
    [c1] holds the new engine [e'], the orders [gone] have left the book. *)
Record traded c vs c1 (i n : Z) (slot : SymbolSlot OM LM) e' v' (gone : list Z) : Prop := {
  tr_core : core_rep c vs;
  tr_slot : (symbols_ c).[i] = Some slot;
  tr_active : active slot = true;
  tr_engine : engine_rep e' v';
  tr_new x : x ∈ vb_ids v' → x ∈ vb_ids (vs i) ∨ next_exchange_id_ c <= x < next_exchange_id_ c + n;
  tr_old x : x ∈ vb_ids (vs i) → x ∈ vb_ids v' ∨ x ∈ gone;
  tr_gone x : x ∈ gone → x ∈ vb_ids (vs i) ∧ x ∉ vb_ids v';
  tr_symbols : symbols_ c1 = step_syms (symbols_ c) i slot e';
  tr_next : next_exchange_id_ c1 = next_exchange_id_ c + n;
  tr_nonneg : 0 <= n <= 1;
  tr_sessions : next_session_id_ c1 = next_session_id_ c ∧ active_sessions_ c1 = active_sessions_ c;
  tr_seen_wf : tbl_wf (seen_orders_ c1);
  tr_seen k : is_Some (tbl_map (seen_orders_ c) !! k) → is_Some (tbl_map (seen_orders_ c1) !! k);
}.

Section Traded.
Context c vs c1 (i n : Z) (slot : SymbolSlot OM LM) e' v' (gone : list Z)
  (Ht : traded c vs c1 i n slot e' v' gone).
Context c2 (Hframe : frame c1 c2) (F' : fmap_t) (R' : rmap_t) (Hready : ready c2 F' R').

Lemma traded_live : live_in (symbols_ c) i.
Proof. exists slot. split; apply Ht. Qed.

Lemma traded_rep :
  (∀ k, is_Some (F' !! k) → is_Some (tbl_map (seen_orders_ c1) !! k)) →
  maps_rep (step_syms (symbols_ c) i slot e') (set_book vs i v') F' R' →
  core_rep c2 (set_book vs i v').
Proof.
  intros Hrec Hmaps. destruct Hframe as (Hs & Hn & Hns & Ha & Hse). destruct Ht.
  eapply (rep_after c vs) with (c' := c2) (n := n) (F' := F') (R' := R'); eauto with lia;
    rewrite ?Hs, ?Hn, ?Hns, ?Ha, ?Hse; done || lia.
Qed.

Lemma traded_complete :
  (∀ x, is_Some (rmap_of c !! x) → x ∉ gone → is_Some (R' !! x)) →
  complete c vs →
  (∀ j, live_in (symbols_ c2) j → next_exchange_id_ c ∈ vb_ids (set_book vs i v' j) →
     is_Some (rmap_of c2 !! next_exchange_id_ c)) →
  complete c2 (set_book vs i v').
Proof.
  intros Hkeep Hcomp Hx. destruct Hframe as (Hs & Hn & Hns & Ha & Hse). pose proof traded_live as Hlive.
  destruct Ht. apply (complete_after c vs tr_core0 i slot tr_slot0 tr_active0 e' v' c2) with
    (F' := F') (R' := R') (dead := gone); try done.
  - by rewrite Hs.
  - intros x Hx' Hni. destruct (tr_new0 x Hx') as [? | ?]; [done |].
    assert (x = next_exchange_id_ c) as -> by lia. apply (Hx i); [| by rewrite set_book_eq].
    rewrite Hs, tr_symbols0. by apply (step_live _ _ _ tr_slot0 tr_active0).
Qed.

Lemma traded_kept key :
  (∀ k, is_Some (F' !! k) → is_Some (tbl_map (seen_orders_ c1) !! k)) →
  (∀ x, is_Some (rmap_of c !! x) → x ∉ gone → is_Some (R' !! x)) →
  (even F' R' key (next_exchange_id_ c) →
   maps_rep (step_syms (symbols_ c) i slot e') (set_book vs i v') F' R') →
  kept c vs c2 (set_book vs i v') key (next_exchange_id_ c).
Proof.
  intros Hrec Hkeep Hmaps. split.
  - intros Heven. apply traded_rep; [done |]. apply Hmaps.
    destruct Hready as (_ & _ & _ & <- & <-). done.
  - by apply traded_complete.
Qed.
End Traded.

(** A trade that only forgets the orders that left the book. *)
Lemma traded_forget c vs c1 i n slot e' v' gone c2 key :
  traded c vs c1 i n slot e' v' gone → frame c1 c2 →
  ready c2 (forget_fwd gone (fmap_of c)) (forget_rev gone (rmap_of c)) →
  kept c vs c2 (set_book vs i v') key (next_exchange_id_ c).
Proof.
  intros Ht Hf Hr. eapply traded_kept; [exact Ht | exact Hf | exact Hr | | |].
  - intros k Hk%forget_fwd_sub. apply Ht. by apply Ht.
  - intros x Hx Hg. by apply forget_rev_keep.
  - intros _. destruct Ht. apply maps_forget; [done | done | apply tr_core0 | done].
Qed.

(** A trade after which the rest of the order is registered. *)
Lemma traded_register c vs c1 i slot e' v' gone c2 F' R' session cid sym ts s :
  traded c vs c1 i 1 slot e' v' gone → frame c1 c2 → ready c2 F' R' →
  valid_client session cid → valid_side s = true → sym - 1 = i → 1 <= sym <= MaxSymbols →
  next_exchange_id_ c ∈ vb_ids v' →
  is_Some (tbl_map (seen_orders_ c1) !! client_key session cid) →
  let F := forget_fwd gone (fmap_of c) in let R := forget_rev gone (rmap_of c) in
  let key := client_key session cid in let xid := next_exchange_id_ c in
  F' = F ∨ F !! key = None ∧
    F' = <[key := {| ie_exchange_id := xid; ie_side := s; ie_symbol_id := sym |}]> F →
  R' = R ∨ R !! xid = None ∧
    R' = <[xid := {| re_session_id := session; re_client_order_id := cid; re_symbol_id := sym;
                     re_send_ts := ts |}]> R →
  kept c vs c2 (set_book vs i v') key xid.
Proof.
  intros Ht Hf Hr Hv Hs Hsym Hrange Hin Hseen F R key xid HF HR.
  assert (R !! xid = None) as HRn by (apply forget_rev_none; eapply next_unmapped, Ht).
  eapply traded_kept; [exact Ht | exact Hf | exact Hr | | |].
  - intros k Hk. destruct (decide (k = key)) as [-> | Hne]; [done |].
    apply (tr_seen _ _ _ _ _ _ _ _ _ Ht), (tr_core _ _ _ _ _ _ _ _ _ Ht), (forget_fwd_sub gone).
    destruct HF as [-> | [_ ->]]; [done |]. by rewrite lookup_insert_ne in Hk by done.
  - intros x Hx Hg. apply (forget_rev_keep gone) in Hx; [| done].
    destruct HR as [-> | [_ ->]]; [done |]. rewrite lookup_insert. by case_decide.
  - intros Heven. eapply maps_register; [| done | | exact HRn | exact HF | exact HR | exact Heven].
    + destruct Ht. apply maps_forget; [done | done | apply tr_core0 | done].
    + split; [done |]. split; [done |]. simpl. subst i. rewrite set_book_eq.
      split; [| done]. rewrite step_live; [by eapply traded_live | apply Ht | apply Ht].
Qed.

(** * [submit_order] *)

(** An order that rests or trades: acknowledgement, reports, registration. *)
Lemma submit_reports c vs c1 slot e' v' session o r t :
  let sym := no_symbol_id o in let i := sym - 1 in let s := side_of_u8 (no_side o) in
  let cid := no_client_order_id o in let xid := next_exchange_id_ c in
  core_rep c vs → sym_live c sym → is_u16 session → 0 <= cid <= kMaxClientOrderId → valid_side s = true →
  submission_ids (vs i) xid r v' → (length (fills r) <= Z.to_nat MaxFills)%nat →
  traded c vs c1 i 1 slot e' v' (dead_makers v' (fills r)) → ready c1 (fmap_of c) (rmap_of c) →
  event_count_ c1 + 1 + 4 * MaxFills <= kMaxEvents →
  tbl_map (seen_orders_ c1) !! client_key session cid = Some t →
  ∃ c', (c ← emit c1 (ev_accepted kOrderAccepted session cid xid sym (no_send_ts o));
         c ← emit_fills ndebug c i session cid xid sym s (no_send_ts o) (no_qty o) (fills r);
         if rested r then register_order c (client_key session cid) xid session cid sym (no_send_ts o) s
         else Some c) = Some c' ∧
    out c' = out c1 ++ ev_accepted kOrderAccepted session cid xid sym (no_send_ts o)
      :: fill_events (rmap_of c) v' session cid xid sym s (no_send_ts o) (no_qty o) (fills r) ∧
    kept c vs c' (set_book vs i v') (client_key session cid) xid.
Proof.
  intros sym i s cid xid Hc Hlive Hsess Hcid Hside Hids Hlen Ht Hr Hroom Hseen.
  destruct (emit_spec c1 (ev_accepted kOrderAccepted session cid xid sym (no_send_ts o)) _ _ Hr)
    as (c2 & -> & H2); [lia |]. cbn [mbind option_bind].
  pose proof H2 as ((Hs2 & _) & Hr2 & _ & Hc2).
  assert ((symbols_ c2).[i] = Some {| engine := e'; active := true |}) as Hi2.
  { rewrite Hs2, (tr_symbols _ _ _ _ _ _ _ _ _ Ht). eapply step_at; apply Ht. }
  assert (represents ndebug (book_ e') v') as Hrep by apply Ht.
  destruct (emit_fills_spec c2 i _ v' session cid xid sym s (no_send_ts o) (no_qty o) (fills r)
    (fmap_of c) (rmap_of c) Hi2 Hrep) as (c3 & -> & H3); [| apply Hids | exact Hr2 | |].
  { intros m _. apply paired_linked, (cr_maps _ _ Hc). }
  { rewrite Hc2. simpl. unfold kMaxEvents in *. lia. }
  cbn [mbind option_bind]. pose proof (sent_trans _ _ _ _ _ _ _ _ _ H2 H3) as H13.
  destruct (rested r) eqn:Hrest.
  - destruct (register_order_spec c3 xid session cid sym (no_send_ts o) s _ _ (sent_ready _ _ _ _ _ H3))
      as (c4 & F' & R' & -> & H4 & HF & HR).
    pose proof (sent_trans _ _ _ _ _ _ _ _ _ H13 H4) as (Hf & Hr4 & Ho & _).
    exists c4. split; [done |]. split; [rewrite Ho; simpl; by rewrite app_nil_r |].
    assert (is_Some (tbl_map (seen_orders_ c1) !! client_key session cid)) by (by rewrite Hseen).
    eapply traded_register with (c1 := c1) (sym := sym); try done; [apply Hlive | by apply Hids].
  - destruct H13 as (Hf & Hr3 & Ho & _). exists c3. split; [done |]. split; [by rewrite Ho |].
    by eapply traded_forget.
Qed.

Lemma dead_makers_split v' v xid r :
  submission_ids v xid r v' →
  (∀ x, x ∈ vb_ids v → x ∈ vb_ids v' ∨ x ∈ dead_makers v' (fills r)) ∧
  (∀ x, x ∈ dead_makers v' (fills r) → x ∈ vb_ids v ∧ x ∉ vb_ids v').
Proof.
  intros Hids. setoid_rewrite dead_makers_in. split.
  - intros x Hx. destruct (decide (x ∈ vb_ids v')) as [? | ?]; [by left | right].
    split; [done |]. by destruct (si_old _ _ _ _ Hids x Hx).
  - intros x [Hn Hm]. split; [by apply Hids | done].
Qed.

Lemma submit_order_spec c vs session o :
  core_rep c vs → is_u16 session → NewOrder_ok o → no_side o <= 1 →
  event_count_ c + 1 + 4 * MaxFills <= kMaxEvents → next_exchange_id_ c + 1 < 2 ^ 64 →
  ∃ c' evs vs', submit_order ndebug MaxSymbols MaxFills c session o = Some c' ∧
    submit_outcome c vs session o evs vs' ∧ out c' = out c ++ evs ∧
    kept c vs c' vs' (client_key session (no_client_order_id o)) (next_exchange_id_ c).
Proof.
  intros Hc Hsess (Hcid & Hsym & Hb & _ & Hq & _) Hside Hroom Hnext.
  set (key := client_key session (no_client_order_id o)).
  assert (∀ ev, submit_outcome c vs session o [ev] vs → ∃ c' evs vs', emit c ev = Some c' ∧
    submit_outcome c vs session o evs vs' ∧ out c' = out c ++ evs ∧
    kept c vs c' vs' key (next_exchange_id_ c)) as Hrej.
  { intros ev Hev. destruct (emit_kept c vs ev key (next_exchange_id_ c) Hc) as (c' & E & Ho & Hk); [lia |].
    exists c', [ev], vs. done. }
  unfold submit_order. destruct (decide (no_client_order_id o > kMaxClientOrderId)) as [Hbig | Hbig].
  { rewrite bool_decide_true by done. by apply Hrej, submit_bad_id. }
  rewrite bool_decide_false by done. assert (no_client_order_id o <= kMaxClientOrderId) as Hcid' by lia.
  destruct (symbol_index_spec c vs (no_symbol_id o) Hc Hsym)
    as [[-> Hnl] | (slot & -> & Hlive & Hi & Ha)]; cbn [mbind option_bind].
  { by apply Hrej, submit_bad_symbol. }
  assert (valid_client session (no_client_order_id o)) as Hvc by (split; [done | mlia]).
  rewrite make_composite_key_eq by done. cbn [mbind option_bind]. fold key.
  rewrite tbl_find_spec by apply Hc. cbn [mbind option_bind].
  destruct (tbl_map (seen_orders_ c) !! key) as [b |] eqn:Hseen.
  { apply Hrej, submit_duplicate; [done | done | by eexists]. }
  destruct (tbl_insert_spec (seen_orders_ c) key true (cr_seen _ _ Hc)) as (t & ok & Ei & Ht & Hok).
  rewrite Ei. cbn [mbind option_bind]. destruct ok; cbn [negb].
  2: { subst t. apply Hrej. by apply submit_unrecorded. }
  destruct Hok as [_ Hmap]. cbn [symbols_ with_next_exchange_id with_seen next_exchange_id_]. rewrite Hi.
  cbn [mbind option_bind]. set (i := no_symbol_id o - 1) in *. set (xid := next_exchange_id_ c) in *.
  pose proof (bo_engine _ _ _ (cr_books _ _ Hc) i slot Hi Ha) as He.
  assert (valid_side (side_of_u8 (no_side o)) = true) as Hv by (apply side_of_u8_valid; mlia).
  destruct (submit_full ndebug MaxFills (engine slot) (vs i) xid (side_of_u8 (no_side o)) (no_price o) (no_qty o)
    HMax He Hv Hq) as (e' & r & v' & -> & He' & Hsub & Hrests). cbn [mbind option_bind].
  assert (rest_accounted c vs o r) as Hacct by (by exists slot).
  rewrite (with_engine_eq _ i slot) by done. cbn [mbind option_bind].
  destruct (submission_touches MaxFills (vs i) xid _ _ _ r v' (engine_wf _ _ _ _ He) Hv Hq Hsub) as [Hids Hlen].
  set (c1 := with_symbols _ _).
  assert (tbl_map (seen_orders_ c1) !! key = Some true) as Hrec
    by (simpl; rewrite Hmap; apply lookup_insert_eq).
  destruct (dead_makers_split v' (vs i) xid r Hids) as [Hdead1 Hdead2].
  assert (0 < xid) as Hpos by apply (cr_books _ _ Hc).
  assert (traded c vs c1 i 1 slot e' v' (dead_makers v' (fills r))) as Htr.
  { split; try done; simpl; [| by rewrite u64_id by mlia |].
    - intros x Hx. destruct (si_new _ _ _ _ Hids x Hx) as [? | [_ ->]]; [by left | right; unfold xid; lia].
    - intros k Hk. rewrite Hmap, lookup_insert. by case_decide. }
  assert (ready c1 (fmap_of c) (rmap_of c)) as Hr by (by apply core_ready in Hc).
  destruct (rested_in_book r || has_fills r) eqn:Hacc; cbn [negb].
  - unfold rested_in_book in *.
    destruct (submit_reports c vs c1 slot e' v' session o r true Hc Hlive Hsess ltac:(mlia) Hv Hids Hlen Htr Hr
      Hroom Hrec) as (c' & E & Ho & Hk).
    exists c'. eexists _, _. split; [exact E |]. split; [| split; [exact Ho | exact Hk]].
    apply submit_traded; try exact Hacct; try done. unfold has_fills in Hacc.
    destruct (fills r); [right | by left]. destruct (rested r); [done |]. by rewrite bool_decide_true in Hacc.
  - apply orb_false_iff in Hacc as [Hrest Hf]. unfold rested_in_book in Hrest.
    apply negb_false_iff, bool_decide_eq_true in Hf.
    destruct (emit_spec c1 (submit_reject session o (no_symbol_id o) kBookFull) _ _ Hr) as (c' & E & Hs).
    { change (event_count_ c1) with (event_count_ c). lia. }
    exists c'. eexists _, _. split; [exact E |]. split; [by eapply submit_refused |].
    destruct Hs as (Hfr & Hr' & Ho & _). split; [exact Ho |]. eapply traded_forget; [exact Htr | exact Hfr |].
    rewrite Hf. unfold dead_makers. rewrite fmap_nil, filter_nil.
    by destruct (forget_nil (fmap_of c) (rmap_of c)) as [-> ->].
Qed.

(** * [cancel_order] *)

Lemma vb_remove_notin id v : vb_wf v → id ∉ vb_ids v → vb_remove id v = v.
Proof.
  intros [Hb Ha _] Hin. unfold vb_ids in Hin. rewrite elem_of_app in Hin.
  destruct v as [vb va]. unfold vb_remove. simpl in *. f_equal; apply v_remove_notin; try tauto.
  - intros p os Hp. by apply (vw_queues _ _ Hb p os Hp).
  - intros p os Hp. by apply (vw_queues _ _ Ha p os Hp).
Qed.

(** Only the contents of the books matter. *)
Lemma core_rep_ext c vs vs' : (∀ i, vs i = vs' i) → core_rep c vs → core_rep c vs'.
Proof.
  intros Heq [[] [HP Hlive]]. split; try done.
  - split; try done; intros *; rewrite <- ?Heq; eauto.
  - split; [done |]. intros k e He. unfold live_entry. rewrite <- Heq. by eapply Hlive.
Qed.

Lemma complete_ext c vs vs' : (∀ i, vs i = vs' i) → complete c vs → complete c vs'.
Proof. intros Heq Hc i x. rewrite <- Heq. apply Hc. Qed.

Lemma set_book_same vs i j : set_book vs i (vs i) j = vs j.
Proof. unfold set_book. by case_bool_decide as H; [rewrite H |]. Qed.

Lemma kept_ext c vs c' vs' vs'' key xid :
  (∀ i, vs' i = vs'' i) → kept c vs c' vs' key xid → kept c vs c' vs'' key xid.
Proof.
  intros Heq [H1 H2]. split; [intros He; eapply core_rep_ext; [exact Heq | auto] |].
  intros Hc Hx. eapply complete_ext; [exact Heq |]. apply H2; [done |]. intros i. rewrite Heq. apply Hx.
Qed.

Definition cancel_reject (session : Z) (o : CancelOrder) (r : RejectReason) : ExchangeEvent :=
  ev_rejected kCancelRejected session (co_client_order_id o) 0 (co_send_ts o) r.

Inductive cancel_outcome c (vs : Z → vbook) (session : Z) (o : CancelOrder)
  : list ExchangeEvent → (Z → vbook) → Prop :=
  | cancel_bad_id :
      co_client_order_id o > kMaxClientOrderId →
      cancel_outcome c vs session o [cancel_reject session o kInvalidOrderId] vs
  | cancel_bad_symbol :
      co_client_order_id o <= kMaxClientOrderId → ¬ sym_live c (co_symbol_id o) →
      cancel_outcome c vs session o [cancel_reject session o kUnknownSymbol] vs
  | cancel_unknown :
      co_client_order_id o <= kMaxClientOrderId → sym_live c (co_symbol_id o) →
      fmap_of c !! client_key session (co_client_order_id o) = None →
      cancel_outcome c vs session o [cancel_reject session o kOrderNotFound] vs
  | cancel_elsewhere e :
      co_client_order_id o <= kMaxClientOrderId → sym_live c (co_symbol_id o) →
      fmap_of c !! client_key session (co_client_order_id o) = Some e →
      ie_symbol_id e ≠ co_symbol_id o →
      cancel_outcome c vs session o [cancel_reject session o kOrderNotFound] vs
  | cancel_done e :
      co_client_order_id o <= kMaxClientOrderId → sym_live c (co_symbol_id o) →
      fmap_of c !! client_key session (co_client_order_id o) = Some e →
      ie_symbol_id e = co_symbol_id o →
      cancel_outcome c vs session o
        [ev_accepted kCancelAck session (co_client_order_id o) 0 0 (co_send_ts o)]
        (set_book vs (co_symbol_id o - 1) (vb_remove (ie_exchange_id e) (vs (co_symbol_id o - 1)))).

(** No new order: the invariant and completeness are kept outright. *)
Definition kept_all c vs c' vs' : Prop := core_rep c' vs' ∧ (complete c vs → complete c' vs').

Lemma emit_kept_all c vs ev :
  core_rep c vs → event_count_ c + 1 <= kMaxEvents →
  ∃ c', emit c ev = Some c' ∧ out c' = out c ++ [ev] ∧ kept_all c vs c' vs.
Proof.
  intros Hc Hroom. destruct (emit_spec c ev _ _ (core_ready c vs Hc) Hroom) as (c' & E & Hs).
  exists c'. split; [done |]. split; [apply Hs |]. split; [by eapply sent_rep |].
  destruct Hs as ((Hsy & _) & (_ & _ & _ & _ & HR) & _). intros Hcomp i x. rewrite Hsy, HR. apply Hcomp.
Qed.

(** Where a mapped order rests, and where it does not. *)
Lemma mapped_in c vs k e i :
  core_rep c vs → fmap_of c !! k = Some e → live_in (symbols_ c) i →
  ie_exchange_id e ∈ vb_ids (vs i) ↔ ie_symbol_id e - 1 = i.
Proof.
  intros Hc He Hl. destruct (cr_maps _ _ Hc) as [_ Hlive]. destruct (Hlive k e He) as (_ & _ & Hl' & Hx).
  split; [| by intros <-]. intros Hi. by apply (bo_disjoint _ _ _ (cr_books _ _ Hc) _ _ _ Hl' Hl Hx Hi).
Qed.

(** The engine of a live symbol cancels a mapped order. *)
Lemma cancel_traded c vs i slot k e :
  core_rep c vs → (symbols_ c).[i] = Some slot → active slot = true → fmap_of c !! k = Some e →
  ∃ e' v', MatchingEngine.cancel ndebug (engine slot) (ie_exchange_id e)
      = Some (e', bool_decide (ie_symbol_id e - 1 = i)) ∧
    v' = (if bool_decide (ie_symbol_id e - 1 = i) then vb_remove (ie_exchange_id e) (vs i) else vs i) ∧
    traded c vs (with_symbols c (step_syms (symbols_ c) i slot e')) i 0 slot e' v'
      (if bool_decide (ie_symbol_id e - 1 = i) then [ie_exchange_id e] else []).
Proof.
  intros Hc Hi Ha He. assert (live_in (symbols_ c) i) as Hl by (by exists slot).
  pose proof (bo_engine _ _ _ (cr_books _ _ Hc) i slot Hi Ha) as Heng.
  pose proof (mapped_in c vs k e i Hc He Hl) as Hin.
  destruct (cancel_engine ndebug MaxFills HMax (engine slot) (vs i) (ie_exchange_id e) Heng) as (e' & E & He').
  exists e'. eexists. split; [rewrite E; do 2 f_equal; by apply bool_decide_ext |]. split; [done |].
  destruct (decide (ie_symbol_id e - 1 = i)) as [Hs | Hs];
    [rewrite !bool_decide_true by done | rewrite !bool_decide_false by done].
  - split; try done; simpl; try lia; try apply Hc.
    + intros x. rewrite vb_ids_remove. tauto.
    + intros x Hx. rewrite vb_ids_remove, list_elem_of_singleton. destruct (decide (x = ie_exchange_id e)); tauto.
    + intros x ->%list_elem_of_singleton. rewrite vb_ids_remove. tauto.
  - rewrite vb_remove_notin in He'; [| by apply (engine_wf _ _ _ _ Heng) | tauto]. split; try done; simpl; try lia; try apply Hc; [tauto | tauto | by intros x ?%elem_of_nil].
Qed.

(** A trade without a new identity. *)
Lemma traded_kept_all c vs c1 i slot e' v' gone c2 :
  traded c vs c1 i 0 slot e' v' gone → frame c1 c2 →
  ready c2 (forget_fwd gone (fmap_of c)) (forget_rev gone (rmap_of c)) →
  kept_all c vs c2 (set_book vs i v').
Proof.
  intros Ht Hf Hr. pose proof (traded_live _ _ _ _ _ _ _ _ _ Ht) as Hl. split.
  - eapply traded_rep; [exact Ht | exact Hf | exact Hr | |].
    + intros k Hk%forget_fwd_sub. apply Ht. by apply Ht.
    + destruct Ht. apply maps_forget; [done | done | apply tr_core0 | done].
  - intros Hcomp. eapply traded_complete; [exact Ht | exact Hf | exact Hr | | done |].
    + intros x Hx Hg. by apply forget_rev_keep.
    + intros j Hj Hx. exfalso. destruct Ht, Hf as (Hs & _).
      rewrite Hs, tr_symbols0 in Hj. apply (step_live _ _ _ tr_slot0 tr_active0) in Hj.
      destruct (decide (j = i)) as [-> | Hne].
      * rewrite set_book_eq in Hx. destruct (tr_new0 _ Hx) as [Hx' | ?]; [| lia].
        by eapply next_fresh in Hx'.
      * rewrite set_book_ne in Hx by done. by eapply next_fresh in Hx.
Qed.

(** Both mappings of a known order are erased, and the assertions hold. *)
Lemma erase_both c key e F R :
  ready c F R → paired F R → F !! key = Some e →
  ∃ f r, tbl_erase (reverse_id_map_ c) (ie_exchange_id e) = Some (r, true) ∧
    tbl_erase (id_map_ c) key = Some (f, true) ∧
    sent c [] (forget_fwd [ie_exchange_id e] F) (forget_rev [ie_exchange_id e] R) (with_maps c f r).
Proof.
  intros Hr HP He. pose proof Hr as (_ & Hfw & Hrw & HF & HR). unfold fmap_of, rmap_of in *.
  destruct (pa_fwd _ _ HP key e He) as (rr & Hrr & -> & _).
  destruct (tbl_erase_spec (id_map_ c) (entry_key rr) Hfw) as (f & Ef & Hf & Hmf).
  destruct (tbl_erase_spec (reverse_id_map_ c) (ie_exchange_id e) Hrw) as (r & Er & Hr' & Hmr).
  rewrite HF, bool_decide_true in Ef by (by rewrite He). rewrite HR, bool_decide_true in Er by (by rewrite Hrr).
  exists f, r. split; [done |]. split; [done |].
  eapply sent_maps; [by apply sent_nil | done | done | |].
  - rewrite Hmf, HF, (forget_fwd_cons F R _ rr [] (paired_linked _ _ _ HP) Hrr).
    by destruct (forget_nil (delete (entry_key rr) F) R) as [-> _].
  - rewrite Hmr, HR, forget_rev_cons.
    by destruct (forget_nil F (delete (ie_exchange_id e) R)) as [_ ->].
Qed.

Lemma cancel_order_spec c vs session o :
  core_rep c vs → is_u16 session → CancelOrder_ok o → event_count_ c + 1 <= kMaxEvents →
  ∃ c' evs vs', cancel_order ndebug MaxSymbols c session o = Some c' ∧
    cancel_outcome c vs session o evs vs' ∧ out c' = out c ++ evs ∧ kept_all c vs c' vs'.
Proof.
  intros Hc Hsess (Hcid & Hsym & _) Hroom.
  assert (∀ ev, cancel_outcome c vs session o [ev] vs → ∃ c' evs vs', emit c ev = Some c' ∧
    cancel_outcome c vs session o evs vs' ∧ out c' = out c ++ evs ∧ kept_all c vs c' vs') as Hrej.
  { intros ev Hev. destruct (emit_kept_all c vs ev Hc Hroom) as (c' & E & Ho & Hk). by exists c', [ev], vs. }
  unfold cancel_order. destruct (decide (co_client_order_id o > kMaxClientOrderId)) as [Hbig | Hbig].
  { rewrite bool_decide_true by done. by apply Hrej, cancel_bad_id. }
  rewrite bool_decide_false by done. assert (co_client_order_id o <= kMaxClientOrderId) as Hcid' by lia.
  destruct (symbol_index_spec c vs (co_symbol_id o) Hc Hsym)
    as [[-> Hnl] | (slot & -> & Hlive & Hi & Ha)]; cbn [mbind option_bind].
  { by apply Hrej, cancel_bad_symbol. }
  rewrite make_composite_key_eq by (split; [done | mlia]). cbn [mbind option_bind].
  set (key := client_key session (co_client_order_id o)).
  rewrite tbl_find_spec by apply Hc. cbn [mbind option_bind]. change (tbl_map (id_map_ c)) with (fmap_of c).
  destruct (fmap_of c !! key) as [e |] eqn:He; [| by apply Hrej, cancel_unknown].
  rewrite Hi. cbn [mbind option_bind]. set (i := co_symbol_id o - 1) in *.
  destruct (cancel_traded c vs i slot key e Hc Hi Ha He) as (e' & v' & -> & Hv' & Ht). cbn [mbind option_bind].
  rewrite (with_engine_eq _ i slot) by done. cbn [mbind option_bind]. set (c1 := with_symbols _ _) in *.
  assert (ready c1 (fmap_of c) (rmap_of c)) as Hr by (by apply core_ready in Hc).
  case_bool_decide as Hs; cbn [negb].
  - destruct (erase_both c1 key e _ _ Hr (proj1 (cr_maps _ _ Hc)) He) as (f & r & -> & E & Hsent).
    cbn [mbind option_bind]. rewrite debug_assert_true by done. cbn [mbind option_bind].
    rewrite E. cbn [mbind option_bind]. rewrite debug_assert_true by done. cbn [mbind option_bind].
    destruct (emit_spec _ (ev_accepted kCancelAck session (co_client_order_id o) 0 0 (co_send_ts o)) _ _
      (sent_ready _ _ _ _ _ Hsent)) as (c' & -> & H').
    { destruct Hsent as (_ & _ & _ & ->). simpl. lia. }
    pose proof (sent_trans _ _ _ _ _ _ _ _ _ Hsent H') as (Hfr & Hr' & Ho & _).
    subst v'. exists c'. eexists _, _. split; [done |].
    split; [apply (cancel_done _ _ _ _ e); try done; lia |].
    split; [exact Ho |]. by eapply traded_kept_all.
  - destruct (emit_spec c1 (cancel_reject session o kOrderNotFound) _ _ Hr Hroom) as (c' & E & Hsent).
    exists c', [cancel_reject session o kOrderNotFound], vs. split; [exact E |].
    split; [apply (cancel_elsewhere _ _ _ _ e); try done; lia |].
    destruct Hsent as (Hfr & Hr' & Ho & _). split; [exact Ho |].
    assert (kept_all c vs c' (set_book vs i v')) as [H1 H2].
    { eapply traded_kept_all; [exact Ht | exact Hfr |].
      by destruct (forget_nil (fmap_of c) (rmap_of c)) as [-> ->]. }
    subst v'. split; [eapply core_rep_ext; [apply set_book_same | done] |].
    intros Hcomp. eapply complete_ext; [apply set_book_same | auto].
Qed.

(** * [modify_order] *)

Definition modify_reject (session : Z) (o : ModifyOrder) (r : RejectReason) : ExchangeEvent :=
  ev_rejected kModifyRejected session (mo_client_order_id o) 0 (mo_send_ts o) r.

Inductive modify_outcome c (vs : Z → vbook) (session : Z) (o : ModifyOrder)
  : list ExchangeEvent → (Z → vbook) → Prop :=
  | modify_bad_id :
      mo_client_order_id o > kMaxClientOrderId →
      modify_outcome c vs session o [modify_reject session o kInvalidOrderId] vs
  | modify_bad_symbol :
      mo_client_order_id o <= kMaxClientOrderId → ¬ sym_live c (mo_symbol_id o) →
      modify_outcome c vs session o [modify_reject session o kUnknownSymbol] vs
  | modify_unknown :
      mo_client_order_id o <= kMaxClientOrderId → sym_live c (mo_symbol_id o) →
      fmap_of c !! client_key session (mo_client_order_id o) = None →
      modify_outcome c vs session o [modify_reject session o kOrderNotFound] vs
  | modify_elsewhere e :
      mo_client_order_id o <= kMaxClientOrderId → sym_live c (mo_symbol_id o) →
      fmap_of c !! client_key session (mo_client_order_id o) = Some e →
      ie_symbol_id e ≠ mo_symbol_id o →
      modify_outcome c vs session o [modify_reject session o kOrderNotFound] vs
  | modify_done e r v' :
      mo_client_order_id o <= kMaxClientOrderId → sym_live c (mo_symbol_id o) →
      fmap_of c !! client_key session (mo_client_order_id o) = Some e →
      ie_symbol_id e = mo_symbol_id o →
      submission MaxFills (vb_remove (ie_exchange_id e) (vs (mo_symbol_id o - 1))) (next_exchange_id_ c)
        (ie_side e) (mo_new_price o) (mo_new_qty o) r v' →
      modify_outcome c vs session o
        (ev_accepted kModifyAck session (mo_client_order_id o) (next_exchange_id_ c)
           (mo_symbol_id o) (mo_send_ts o)
         :: fill_events (rmap_of c) v' session (mo_client_order_id o) (next_exchange_id_ c)
              (mo_symbol_id o) (ie_side e) (mo_send_ts o) (mo_new_qty o) (fills r))
        (set_book vs (mo_symbol_id o - 1) v').

(** Registration and forgetting commute: the new order is not forgotten. *)
Lemma forget_fwd_insert dead key e F :
  ie_exchange_id e ∉ dead → forget_fwd dead (<[key := e]> F) = <[key := e]> (forget_fwd dead F).
Proof. intros He. unfold forget_fwd. by apply map_filter_insert_True. Qed.

Lemma forget_rev_insert dead x r R : x ∉ dead → forget_rev dead (<[x := r]> R) = <[x := r]> (forget_rev dead R).
Proof. intros Hx. unfold forget_rev. by apply map_filter_insert_True. Qed.

Lemma forget_fwd_none dead F k : F !! k = None → forget_fwd dead F !! k = None.
Proof. intros Hk. unfold forget_fwd. apply map_lookup_filter_None. by left. Qed.

(** The reports do not depend on the orders that are not makers. *)
Lemma fill_events_ext R R' v session cid xid sym s ts rem fs :
  (∀ m, m ∈ maker_id <$> fs → R !! m = R' !! m) →
  fill_events R v session cid xid sym s ts rem fs = fill_events R' v session cid xid sym s ts rem fs.
Proof.
  revert rem. induction fs as [| f fs IH]; intros rem Hm; [done |]. simpl.
  rewrite IH by (intros m Hin; apply Hm; by right).
  unfold maker_events. rewrite (Hm (maker_id f)); [done | left].
Qed.

(** The replacement of a known order, once the engine has run: both old
    mappings are erased, the rest of the new order is registered, and the
    acknowledgement and the reports are emitted. *)
Lemma modify_reports c vs c1 slot e' v' session o e r :
  let sym := mo_symbol_id o in let i := sym - 1 in let cid := mo_client_order_id o in
  let key := client_key session cid in let xid := next_exchange_id_ c in
  let gone := ie_exchange_id e :: dead_makers v' (fills r) in
  core_rep c vs → sym_live c sym → valid_client session cid → fmap_of c !! key = Some e →
  ie_symbol_id e = sym →
  submission_ids (vb_remove (ie_exchange_id e) (vs i)) xid r v' → (length (fills r) <= Z.to_nat MaxFills)%nat →
  traded c vs c1 i 1 slot e' v' gone → ready c1 (fmap_of c) (rmap_of c) →
  event_count_ c1 + 1 + 4 * MaxFills <= kMaxEvents →
  ∃ c', (x ← tbl_erase (reverse_id_map_ c1) (ie_exchange_id e); let '(rr, mod_rev) := x in
         _ ← debug_assert ndebug mod_rev;
         x ← tbl_erase (id_map_ c1) key; let '(f, mod_fwd) := x in
         _ ← debug_assert ndebug mod_fwd;
         c ← (if rested r then register_order (with_maps c1 f rr) key xid session cid (ie_symbol_id e) (mo_send_ts o) (ie_side e)
              else Some (with_maps c1 f rr));
         c ← emit c (ev_accepted kModifyAck session cid xid sym (mo_send_ts o));
         emit_fills ndebug c i session cid xid sym (ie_side e) (mo_send_ts o) (mo_new_qty o) (fills r)) = Some c' ∧
    out c' = out c1 ++ ev_accepted kModifyAck session cid xid sym (mo_send_ts o)
      :: fill_events (rmap_of c) v' session cid xid sym (ie_side e) (mo_send_ts o) (mo_new_qty o) (fills r) ∧
    kept c vs c' (set_book vs i v') key xid.
Proof.
  intros sym i cid key xid gone Hc Hlive Hv He Hs Hids Hlen Ht Hr Hroom.
  pose proof (proj1 (cr_maps _ _ Hc)) as HP.
  destruct (erase_both c1 key e _ _ Hr HP He) as (f & rr & -> & Ef & H1).
  cbn [mbind option_bind]. rewrite debug_assert_true by done. cbn [mbind option_bind].
  rewrite Ef. cbn [mbind option_bind]. rewrite debug_assert_true by done. cbn [mbind option_bind].
  set (old := ie_exchange_id e) in *. set (dead := dead_makers v' (fills r)) in *.
  set (Fd := forget_fwd [old] (fmap_of c)) in *. set (Rd := forget_rev [old] (rmap_of c)) in *.
  assert (∃ c2 F2 R2,
    (if rested r then register_order (with_maps c1 f rr) key xid session cid (ie_symbol_id e) (mo_send_ts o) (ie_side e)
     else Some (with_maps c1 f rr)) = Some c2 ∧ sent c1 [] F2 R2 c2 ∧
    (F2 = Fd ∨ rested r = true ∧ Fd !! key = None ∧
       F2 = <[key := {| ie_exchange_id := xid; ie_side := ie_side e; ie_symbol_id := sym |}]> Fd) ∧
    (R2 = Rd ∨ rested r = true ∧ Rd !! xid = None ∧
       R2 = <[xid := {| re_session_id := session; re_client_order_id := cid; re_symbol_id := sym;
                        re_send_ts := mo_send_ts o |}]> Rd)) as (c2 & F2 & R2 & -> & H2 & HF & HR).
  { destruct (rested r); [| exists (with_maps c1 f rr), Fd, Rd; auto].
    destruct (register_order_spec (with_maps c1 f rr) xid session cid (ie_symbol_id e) (mo_send_ts o) (ie_side e)
      _ _ (sent_ready _ _ _ _ _ H1)) as (c2 & F2 & R2 & E & H2 & HF & HR).
    exists c2, F2, R2. split; [exact E |]. split; [exact (sent_trans _ _ _ _ _ _ _ _ _ H1 H2) |].
    rewrite Hs in HF, HR. fold key in HF. tauto. }
  cbn [mbind option_bind].
  destruct (emit_spec c2 (ev_accepted kModifyAck session cid xid sym (mo_send_ts o)) _ _ (sent_ready _ _ _ _ _ H2))
    as (c3 & -> & H3); [destruct H2 as (_ & _ & _ & ->); simpl; lia |].
  cbn [mbind option_bind]. pose proof (sent_trans _ _ _ _ _ _ _ _ _ H2 H3) as H13.
  pose proof H13 as ((Hs3 & _) & Hr3 & _ & Hc3).
  assert ((symbols_ c3).[i] = Some {| engine := e'; active := true |}) as Hi3.
  { rewrite Hs3, (tr_symbols _ _ _ _ _ _ _ _ _ Ht). eapply step_at; apply Ht. }
  assert (represents ndebug (book_ e') v') as Hrep by apply Ht.
  assert (∀ m, m ∈ maker_id <$> fills r → m ∈ vb_ids (vs i) ∧ m ≠ old) as Hmk
    by (intros m Hm%(si_makers _ _ _ _ Hids); by apply vb_ids_remove in Hm).
  assert (∀ m, m ∈ maker_id <$> fills r → m ≠ xid) as Hmx.
  { intros m Hm ->. destruct (Hmk _ Hm) as [Hin _]. by eapply next_fresh in Hin; [| exact Hc | apply Hlive]. }
  assert (∀ m, m ∈ maker_id <$> fills r → linked_at F2 R2 m) as Hlinked.
  { intros m Hm. eapply (linked_insert Fd Rd F2 R2 key
      {| ie_exchange_id := xid; ie_side := ie_side e; ie_symbol_id := sym |} xid
      {| re_session_id := session; re_client_order_id := cid; re_symbol_id := sym;
         re_send_ts := mo_send_ts o |}); [| by apply Hmx | done | tauto | tauto].
    apply linked_forget; [by apply paired_linked | by apply paired_linked |]. intros <-. by apply (Hmk old). }
  destruct (emit_fills_spec c3 i _ v' session cid xid sym (ie_side e) (mo_send_ts o) (mo_new_qty o) (fills r)
    F2 R2 Hi3 Hrep Hlinked (si_nodup _ _ _ _ Hids) Hr3) as (c4 & -> & H4).
  { rewrite Hc3. simpl. unfold kMaxEvents in *. lia. }
  pose proof (sent_trans _ _ _ _ _ _ _ _ _ H13 H4) as (Hf & Hr4 & Ho & _).
  exists c4. split; [done |]. split.
  { rewrite Ho. simpl. do 2 f_equal. apply fill_events_ext. intros m Hm.
    assert (R2 !! m = Rd !! m) as ->.
    { destruct HR as [-> | (_ & _ & ->)]; [done |]. rewrite lookup_insert_ne; [done |]. intros <-. by apply (Hmx xid). }
    unfold Rd. rewrite forget_rev_cons. destruct (forget_nil ∅ (delete old (rmap_of c))) as [_ ->].
    apply lookup_delete_ne. intros <-. by apply (Hmk old). }
  fold dead in Hr4.
  assert (forget_fwd gone (fmap_of c) = forget_fwd dead Fd ∧ forget_rev gone (rmap_of c) = forget_rev dead Rd)
    as [EF ER] by apply (forget_app [old] dead).
  assert (xid ∉ dead) as Hxd.
  { intros Hd. unfold dead in Hd. apply dead_makers_in in Hd as [_ Hd]. by apply (Hmx xid). }
  destruct (rested r) eqn:Hrest.
  - eapply traded_register with (c1 := c1) (sym := sym); [exact Ht | exact Hf | exact Hr4 | done | | done | apply Hlive | | | |].
    + by apply (proj2 (cr_maps _ _ Hc) _ _ He).
    + by apply Hids.
    + apply (tr_seen _ _ _ _ _ _ _ _ _ Ht), (cr_recorded _ _ Hc). by eexists.
    + rewrite EF. destruct HF as [-> | (_ & Hn & ->)]; [by left | right].
      rewrite forget_fwd_insert by done. split; [by apply forget_fwd_none | done].
    + rewrite ER. destruct HR as [-> | (_ & Hn & ->)]; [by left | right].
      rewrite forget_rev_insert by done. split; [by apply forget_rev_none | done].
  - destruct HF as [-> | [? _]]; [| done]. destruct HR as [-> | [? _]]; [| done].
    eapply traded_forget; [exact Ht | exact Hf |]. by rewrite EF, ER.
Qed.

Lemma modify_order_spec c vs session o :
  core_rep c vs → is_u16 session → ModifyOrder_ok o →
  event_count_ c + 1 + 4 * MaxFills <= kMaxEvents → next_exchange_id_ c + 1 < 2 ^ 64 →
  ∃ c' evs vs', modify_order ndebug MaxSymbols MaxFills c session o = Some c' ∧
    modify_outcome c vs session o evs vs' ∧ out c' = out c ++ evs ∧
    kept c vs c' vs' (client_key session (mo_client_order_id o)) (next_exchange_id_ c).
Proof.
  intros Hc Hsess (Hcid & Hsym & _ & Hq & _) Hroom Hnext.
  set (key := client_key session (mo_client_order_id o)).
  assert (∀ ev, modify_outcome c vs session o [ev] vs → ∃ c' evs vs', emit c ev = Some c' ∧
    modify_outcome c vs session o evs vs' ∧ out c' = out c ++ evs ∧
    kept c vs c' vs' key (next_exchange_id_ c)) as Hrej.
  { intros ev Hev. destruct (emit_kept c vs ev key (next_exchange_id_ c) Hc) as (c' & E & Ho & Hk); [lia |].
    exists c', [ev], vs. done. }
  unfold modify_order. destruct (decide (mo_client_order_id o > kMaxClientOrderId)) as [Hbig | Hbig].
  { rewrite bool_decide_true by done. by apply Hrej, modify_bad_id. }
  rewrite bool_decide_false by done. assert (mo_client_order_id o <= kMaxClientOrderId) as Hcid' by lia.
  destruct (symbol_index_spec c vs (mo_symbol_id o) Hc Hsym)
    as [[-> Hnl] | (slot & -> & Hlive & Hi & Ha)]; cbn [mbind option_bind].
  { by apply Hrej, modify_bad_symbol. }
  assert (valid_client session (mo_client_order_id o)) as Hvc by (split; [done | mlia]).
  rewrite make_composite_key_eq by done. cbn [mbind option_bind]. fold key.
  rewrite tbl_find_spec by apply Hc. cbn [mbind option_bind]. change (tbl_map (id_map_ c)) with (fmap_of c).
  destruct (fmap_of c !! key) as [e |] eqn:He; [| by apply Hrej, modify_unknown].
  cbn [symbols_ with_next_exchange_id]. rewrite Hi. cbn [mbind option_bind].
  set (i := mo_symbol_id o - 1) in *. set (xid := next_exchange_id_ c) in *.
  assert (live_in (symbols_ c) i) as Hl by apply Hlive.
  pose proof (bo_engine _ _ _ (cr_books _ _ Hc) i slot Hi Ha) as Heng.
  destruct (proj2 (cr_maps _ _ Hc) _ _ He) as (Hside & _).
  destruct (modify_aux ndebug MaxFills (engine slot) (vs i) (ie_exchange_id e) (ie_side e) (mo_new_price o)
    (mo_new_qty o) xid HMax Heng Hside Hq) as (e' & r & v' & -> & He' & Hsucc & Hcase).
  cbn [mbind option_bind]. rewrite (with_engine_eq _ i slot) by done. cbn [mbind option_bind].
  set (c1 := with_symbols _ _).
  assert (ready c1 (fmap_of c) (rmap_of c)) as Hr by (by apply core_ready in Hc).
  assert (0 < xid) as Hpos by apply (cr_books _ _ Hc).
  pose proof (mapped_in c vs key e i Hc He Hl) as Hmapped.
  destruct (success r) eqn:Hok; cbn [negb].
  - symmetry in Hsucc. apply bool_decide_eq_true in Hsucc.
    destruct Hcase as (r' & Hsub & Hf & _ & Hrest).
    destruct (cancel_engine ndebug MaxFills HMax (engine slot) (vs i) (ie_exchange_id e) Heng) as (ec & _ & Hec).
    destruct (submission_touches MaxFills _ xid _ _ _ r' v' (engine_wf _ _ _ _ Hec) Hside Hq Hsub) as [Hids Hlen].
    destruct (dead_makers_split v' _ xid r' Hids) as [Hdead1 Hdead2].
    assert (ie_exchange_id e ∉ vb_ids v') as Hold.
    { intros Hin. destruct (si_new _ _ _ _ Hids _ Hin) as [Hin' | [_ Hx]].
      - by apply vb_ids_remove in Hin' as [_ ?].
      - rewrite Hx in Hsucc. by eapply next_fresh in Hsucc. }
    assert (traded c vs c1 i 1 slot e' v' (ie_exchange_id e :: dead_makers v' (fills r'))) as Htr.
    { split; try done; simpl; [| | | by rewrite u64_id by mlia | apply Hc].
      - intros x Hx. destruct (si_new _ _ _ _ Hids x Hx) as [[? _]%vb_ids_remove | [_ ->]]; [by left | right; unfold xid; lia].
      - intros x Hx. rewrite elem_of_cons. destruct (decide (x = ie_exchange_id e)) as [-> | Hne]; [tauto |].
        destruct (Hdead1 x); [by rewrite vb_ids_remove | tauto | tauto].
      - intros x [-> | Hx]%elem_of_cons; [done |].
        destruct (Hdead2 x Hx) as [[? _]%vb_ids_remove ?]. done. }
    assert (ie_symbol_id e = mo_symbol_id o) as Hsy by (apply Hmapped in Hsucc; lia).
    destruct (modify_reports c vs c1 slot e' v' session o e r' Hc Hlive Hvc He Hsy Hids Hlen Htr Hr Hroom)
      as (c' & E & Ho & Hk).
    exists c'. eexists _, _. split; [| split; [by eapply modify_done | split; [exact Ho | exact Hk]]].
    unfold m_rested_in_book. rewrite Hok, Hf, Hrest. cbn [andb]. exact E.
  - symmetry in Hsucc. apply bool_decide_eq_false in Hsucc. destruct Hcase as [-> _].
    destruct (emit_spec c1 (modify_reject session o kOrderNotFound) _ _ Hr) as (c' & E & Hsent).
    { change (event_count_ c1) with (event_count_ c). lia. }
    exists c', [modify_reject session o kOrderNotFound], vs. split; [exact E |].
    split; [apply (modify_elsewhere _ _ _ _ e); try done; intros ?; apply Hsucc, Hmapped; lia |].
    destruct Hsent as (Hfr & Hr' & Ho & _). split; [exact Ho |].
    apply (kept_ext c vs c' (set_book vs i (vs i)) vs); [apply set_book_same |].
    eapply (traded_forget c vs c1 i 1 slot e' (vs i) []); [| exact Hfr |].
    + split; try done; simpl; [tauto | tauto | by intros x ?%elem_of_nil | by rewrite u64_id by mlia | apply Hc].
    + by destruct (forget_nil (fmap_of c) (rmap_of c)) as [-> ->].
Qed.

(** * [on_client_disconnect] *)

Definition vb_remove_all (dead : list Z) v : vbook := foldl (λ v x, vb_remove x v) v dead.

Lemma vb_ids_remove_all dead v i : i ∈ vb_ids (vb_remove_all dead v) ↔ i ∈ vb_ids v ∧ i ∉ dead.
Proof.
  unfold vb_remove_all. revert v. induction dead as [| x dead IH]; intros v; simpl.
  - rewrite elem_of_nil. tauto.
  - rewrite IH, vb_ids_remove, elem_of_cons. tauto.
Qed.

(** Only live symbols matter. *)
Lemma books_rep_live syms next vs vs' :
  (∀ j, live_in syms j → vs j = vs' j) → books_rep syms next vs → books_rep syms next vs'.
Proof.
  intros Heq []. split; try done.
  - intros j slot Hj Ha. rewrite <- Heq by (by exists slot). auto.
  - intros j x Hj. rewrite <- Heq by done. by apply bo_ids0.
  - intros j k x Hj Hk. rewrite <- (Heq j), <- (Heq k) by done. by apply bo_disjoint0.
Qed.

Definition of_session (session : Z) (ke : Z * IdEntry) : bool :=
  bool_decide (extract_session_id ke.1 = session).

Definition session_entries (session : Z) (l : list (Z * IdEntry)) : list (Z * IdEntry) :=
  filter (λ ke, of_session session ke = true) l.

Definition xids (l : list (Z * IdEntry)) : list Z := (λ ke, ie_exchange_id ke.2) <$> l.

Lemma with_symbols_twice c s s' : with_symbols (with_symbols c s) s' = with_symbols c s'.
Proof. done. Qed.

Lemma with_symbols_same c : with_symbols c (symbols_ c) = c.
Proof. by destruct c. Qed.

Lemma session_entries_cons session k e l :
  session_entries session ((k, e) :: l)
  = if bool_decide (extract_session_id k = session) then (k, e) :: session_entries session l
    else session_entries session l.
Proof.
  unfold session_entries. rewrite filter_cons.
  destruct (decide (of_session session (k, e) = true)) as [H | H]; unfold of_session in H; cbn [fst] in H.
  - by rewrite H.
  - apply not_true_is_false in H. by rewrite H.
Qed.

(** One visit to an entry of the session. *)
Lemma disconnect_visit_hit session c keys k e vs :
  books_rep (symbols_ c) (next_exchange_id_ c) vs → 0 < MaxSymbols < 2 ^ 32 →
  live_entry (symbols_ c) vs e → extract_session_id k = session → lenZ keys < kMaxIdMappings →
  ∃ syms, disconnect_visit ndebug session (c, keys) k e = Some (with_symbols c syms, keys ++ [k]) ∧
    books_rep syms (next_exchange_id_ c) (λ j, vb_remove (ie_exchange_id e) (vs j)) ∧
    ∀ j, live_in syms j ↔ live_in (symbols_ c) j.
Proof.
  intros Hb HM (_ & Hr & (slot & Hi & Ha) & Hx) Hk Hroom. unfold disconnect_visit.
  rewrite bool_decide_true by done. cbn [negb].
  rewrite u32_id by mlia. set (i := ie_symbol_id e - 1) in *. rewrite Hi. cbn [mbind option_bind].
  destruct (cancel_engine ndebug MaxFills HMax (engine slot) (vs i) (ie_exchange_id e)
    (bo_engine _ _ _ Hb i slot Hi Ha)) as (e1 & -> & He1). cbn [mbind option_bind].
  rewrite (with_engine_eq _ i slot) by done. cbn [mbind option_bind].
  rewrite bool_decide_true by lia. cbn [assertM mbind option_bind].
  exists (step_syms (symbols_ c) i slot e1). split; [done |]. split; [| intros j; by apply step_live].
  eapply books_rep_live;
    [| eapply (books_step _ i slot Hi Ha e1 _ (next_exchange_id_ c)); [exact Hb | exact He1 | lia |]].
  - intros j (slot' & Hj & Ha')%(step_live _ _ _ Hi Ha). unfold set_book.
    case_bool_decide as Hji; [by rewrite Hji |]. symmetry. apply vb_remove_notin.
    + apply (engine_wf _ _ _ _ (bo_engine _ _ _ Hb j slot' Hj Ha')).
    + intros Hin. apply Hji. symmetry.
      eapply (bo_disjoint _ _ _ Hb i j); [by exists slot | by exists slot' | exact Hx | done].
  - intros x. rewrite vb_ids_remove. tauto.
Qed.

(** The kill switch: every order of the session's entries is cancelled. *)
Lemma disconnect_loop session l c keys vs :
  books_rep (symbols_ c) (next_exchange_id_ c) vs → 0 < MaxSymbols < 2 ^ 32 →
  (∀ ke, ke ∈ l → live_entry (symbols_ c) vs ke.2) → NoDup (xids l) →
  lenZ keys + lenZ l <= kMaxIdMappings →
  ∃ syms, foldM (disconnect_visit ndebug session) (c, keys) l
      = Some (with_symbols c syms, keys ++ (session_entries session l).*1) ∧
    books_rep syms (next_exchange_id_ c) (λ i, vb_remove_all (xids (session_entries session l)) (vs i)) ∧
    ∀ j, live_in syms j ↔ live_in (symbols_ c) j.
Proof.
  intros Hb HM. revert c keys vs Hb. induction l as [| [k e] l IH]; intros c keys vs Hb Hl Hnd Hroom.
  { exists (symbols_ c). rewrite with_symbols_same. simpl. rewrite app_nil_r. done. }
  assert (∀ ke, ke ∈ l → live_entry (symbols_ c) vs ke.2) as Hl' by (intros ke Hke; apply Hl; by right).
  apply nodup_cons in Hnd as [Hne Hnd]. simpl length in Hroom.
  rewrite foldM_cons, session_entries_cons. cbn [fst snd].
  destruct (decide (extract_session_id k = session)) as [Hk | Hk].
  2: { rewrite bool_decide_false by done.
       replace (disconnect_visit ndebug session (c, keys) k e) with (Some (c, keys))
         by (unfold disconnect_visit; by rewrite bool_decide_false).
       cbn [mbind option_bind]. apply IH; try done. lia. }
  rewrite bool_decide_true by done.
  destruct (disconnect_visit_hit session c keys k e vs Hb HM (Hl (k, e) ltac:(left)) Hk)
    as (syms1 & -> & Hb1 & Hl1); [lia |]. cbn [mbind option_bind].
  destruct (IH (with_symbols c syms1) (keys ++ [k]) _ Hb1) as (syms & -> & Hb2 & Hl2).
  - intros ke Hke. destruct (Hl' ke Hke) as (Hs & Hrk & Hlk & Hxk). split; [done |]. split; [done |].
    split; [by apply Hl1 |]. rewrite vb_ids_remove. split; [done |].
    intros Heq. apply Hne. change (ie_exchange_id e ∈ xids l). rewrite <- Heq.
    by apply (list_elem_of_fmap_2 (λ ke, ie_exchange_id ke.2)).
  - done.
  - rewrite length_app. simpl. lia.
  - exists syms. rewrite with_symbols_twice. split; [| split; [exact Hb2 |]].
    + by rewrite <- app_assoc.
    + intros j. by rewrite Hl2.
Qed.

(** The mappings of the session are erased, pair by pair. *)
Lemma erase_mappings_spec l c F R :
  ready c F R → paired F R → (∀ ke, ke ∈ l → F !! ke.1 = Some ke.2) → NoDup (xids l) →
  ∃ c', erase_mappings ndebug c l.*1 = Some c' ∧ sent c [] (forget_fwd (xids l) F) (forget_rev (xids l) R) c'.
Proof.
  revert c F R. induction l as [| [k e] l IH]; intros c F R Hr HP Hin Hnd.
  { exists c. split; [done |]. simpl. destruct (forget_nil F R) as [-> ->]. by apply sent_nil. }
  apply nodup_cons in Hnd as [Hne Hnd]. pose proof (Hin (k, e) ltac:(left)) as He. simpl in He.
  destruct (erase_both c k e F R Hr HP He) as (f & r & Er & Ef & Hs).
  simpl. pose proof Hr as (_ & Hfw & _ & HF & _). rewrite tbl_find_spec by done. cbn [mbind option_bind].
  change (tbl_map (id_map_ c)) with (fmap_of c). rewrite HF, He. cbn [mbind option_bind].
  rewrite Er. cbn [mbind option_bind]. rewrite debug_assert_true by done. cbn [mbind option_bind].
  rewrite Ef. cbn [mbind option_bind]. rewrite debug_assert_true by done. cbn [mbind option_bind].
  destruct (IH (with_maps c f r) _ _ (sent_ready _ _ _ _ _ Hs) (paired_forget _ _ _ HP)) as (c' & E & Hs').
  - intros [k' e'] Hke. simpl. unfold forget_fwd. apply map_lookup_filter_Some. split.
    + apply (Hin (k', e')). by right.
    + simpl. intros Heq%list_elem_of_singleton. apply Hne. change (ie_exchange_id e ∈ xids l). rewrite <- Heq.
      by apply (list_elem_of_fmap_2 (λ ke, ie_exchange_id ke.2) l (k', e')).
  - done.
  - exists c'. split; [exact E |]. pose proof (sent_trans _ _ _ _ _ _ _ _ _ Hs Hs') as Hc'.
    destruct (forget_app [ie_exchange_id e] (xids l) F R) as [E1 E2].
    rewrite <- E1, <- E2 in Hc'. exact Hc'.
Qed.

(** The recorded identities of the session. *)
Definition seen_of (session : Z) (l : list (Z * bool)) : list Z :=
  filter (λ k, extract_session_id k = session) l.*1.

Lemma seen_loop session l acc :
  lenZ acc + lenZ l <= kMaxSeenOrders →
  foldM (seen_visit session) acc l = Some (acc ++ seen_of session l).
Proof.
  revert acc. induction l as [| [k b] l IH]; intros acc Hroom; [by rewrite app_nil_r |].
  simpl length in Hroom. rewrite foldM_cons. unfold seen_of. rewrite fmap_cons, filter_cons.
  cbn [fst snd]. destruct (decide (extract_session_id k = session)) as [Hk | Hk].
  - replace (seen_visit session acc k b) with (Some (acc ++ [k]))
      by (unfold seen_visit; rewrite !bool_decide_true by (done || lia); done).
    cbn [mbind option_bind]. rewrite IH by (rewrite length_app; simpl; lia). by rewrite <- app_assoc.
  - replace (seen_visit session acc k b) with (Some acc) by (unfold seen_visit; by rewrite bool_decide_false).
    cbn [mbind option_bind]. rewrite IH by lia. done.
Qed.

Lemma erase_seen_spec keys c :
  tbl_wf (seen_orders_ c) →
  ∃ t, erase_seen c keys = Some (with_seen c t) ∧ tbl_wf t ∧
    ∀ k, tbl_map t !! k = if decide (k ∈ keys) then None else tbl_map (seen_orders_ c) !! k.
Proof.
  revert c. induction keys as [| key keys IH]; intros c Hwf.
  { exists (seen_orders_ c). split; [by destruct c |]. split; [done |]. intros k.
    rewrite decide_False; [done | apply not_elem_of_nil]. }
  simpl. destruct (tbl_erase_spec (seen_orders_ c) key Hwf) as (t1 & -> & Ht1 & Hm1). cbn [mbind option_bind].
  destruct (IH (with_seen c t1) Ht1) as (t & -> & Ht & Hm). exists t. split; [done |]. split; [done |].
  intros k. rewrite Hm. simpl. rewrite Hm1.
  destruct (decide (k ∈ keys)) as [Hk | Hk], (decide (k ∈ key :: keys)) as [Hk' | Hk']; try done.
  - destruct Hk'. by right.
  - apply elem_of_cons in Hk' as [-> | ?]; [apply lookup_delete_eq | done].
  - apply not_elem_of_cons in Hk' as [? _]. by apply lookup_delete_ne.
Qed.

(** What a session leaves behind: nothing of its own, everything else. *)
Definition other_keys {A : Type} (session : Z) (m : gmap Z A) : gmap Z A :=
  filter (λ kv, extract_session_id kv.1 ≠ session) m.
Definition other_orders (session : Z) (R : rmap_t) : rmap_t :=
  filter (λ xr, re_session_id xr.2 ≠ session) R.

Lemma forget_session F R session (dead : list Z) :
  paired F R → (∀ x, x ∈ dead ↔ ∃ k e, F !! k = Some e ∧ extract_session_id k = session ∧ ie_exchange_id e = x) →
  forget_fwd dead F = other_keys session F ∧ forget_rev dead R = other_orders session R.
Proof.
  intros HP Hdead. split; apply map_eq; intros k; apply option_eq; intros e;
    unfold forget_fwd, forget_rev, other_keys, other_orders; rewrite !map_lookup_filter_Some; simpl;
    rewrite Hdead; (split; intros [He H]; split; [exact He | | exact He |]).
  - intros Hs. apply H. by exists k, e.
  - intros (k' & e' & He' & Hs & Hx). apply H.
    destruct (pa_fwd _ _ HP k e He) as (r & Hr & -> & _), (pa_fwd _ _ HP k' e' He') as (r' & Hr' & -> & _).
    congruence.
  - intros Hs. apply H. destruct (pa_rev _ _ HP k e He) as (Hv & e' & He' & Hx).
    exists (entry_key e), e'. split; [done |]. split; [| done]. unfold entry_key.
    by rewrite extract_session_id_key.
  - intros (k' & e' & He' & Hs & Hx). apply H.
    destruct (pa_fwd _ _ HP k' e' He') as (r' & Hr' & -> & _). rewrite Hx, He in Hr'. injection Hr' as <-.
    destruct (pa_rev _ _ HP k e He) as (Hv & _). unfold entry_key in Hs.
    by rewrite extract_session_id_key in Hs.
Qed.

Lemma session_xids session l F (x : Z) :
  l ≡ₚ map_to_list F →
  x ∈ xids (session_entries session l) ↔
    ∃ k e, F !! k = Some e ∧ extract_session_id k = session ∧ ie_exchange_id e = x.
Proof.
  intros Hl. unfold xids, session_entries. rewrite list_elem_of_fmap. split.
  - intros ([k e] & -> & [Hs Hin]%list_elem_of_filter). exists k, e.
    rewrite Hl in Hin. apply elem_of_map_to_list in Hin. unfold of_session in Hs. by apply bool_decide_eq_true in Hs.
  - intros (k & e & He & Hs & <-). exists (k, e). split; [done |]. apply list_elem_of_filter.
    unfold of_session. rewrite bool_decide_true by done. split; [done |]. rewrite Hl. by apply elem_of_map_to_list.
Qed.

Lemma nodup_xids l F R : paired F R → l ≡ₚ map_to_list F → NoDup (xids l).
Proof.
  intros HP Hl. unfold xids. rewrite Hl. apply NoDup_fmap_2_strong; [| apply NoDup_map_to_list].
  intros [k e] [k' e'] Hk%elem_of_map_to_list Hk'%elem_of_map_to_list Hx. simpl in *.
  destruct (pa_fwd _ _ HP k e Hk) as (r & Hr & -> & _), (pa_fwd _ _ HP k' e' Hk') as (r' & Hr' & -> & _).
  rewrite Hx in Hr. simplify_eq. congruence.
Qed.

Lemma session_entries_in session l ke : ke ∈ session_entries session l → ke ∈ l.
Proof. unfold session_entries. by intros [_ ?]%list_elem_of_filter. Qed.

Lemma nodup_session_xids session l : NoDup (xids l) → NoDup (xids (session_entries session l)).
Proof.
  unfold xids, session_entries. induction l as [| ke l IH]; intros Hnd; [constructor |].
  rewrite filter_cons. rewrite fmap_cons in Hnd. apply nodup_cons in Hnd as [Hne Hnd].
  case_decide; [| by apply IH]. rewrite fmap_cons. apply nodup_cons. split; [| by apply IH].
  intros (ke' & Heq & [_ Hin]%list_elem_of_filter)%list_elem_of_fmap. apply Hne. rewrite Heq.
  by apply (list_elem_of_fmap_2 (λ ke, ie_exchange_id ke.2)).
Qed.

(** The identity tables fit the buffers of the handler. *)
Definition tables_fit : Prop :=
  tbl_capacity (T := FM) <= kMaxIdMappings ∧ tbl_capacity (T := SM) <= kMaxSeenOrders.

Lemma on_client_disconnect_spec c vs session :
  core_rep c vs → tables_fit → is_u16 session → session ≠ 0 →
  ∃ c' dead, on_client_disconnect ndebug c session = Some c' ∧
    (∀ x, x ∈ dead ↔ ∃ k e, fmap_of c !! k = Some e ∧ extract_session_id k = session ∧ ie_exchange_id e = x) ∧
    core_rep c' (λ i, vb_remove_all dead (vs i)) ∧
    (complete c vs → complete c' (λ i, vb_remove_all dead (vs i))) ∧
    fmap_of c' = other_keys session (fmap_of c) ∧ rmap_of c' = other_orders session (rmap_of c) ∧
    tbl_map (seen_orders_ c') = other_keys session (tbl_map (seen_orders_ c)) ∧
    active_sessions_ c' = (active_sessions_ c).[session <- false] ∧ out c' = out c.
Proof.
  intros Hc [HfitF HfitS] Hs Hne. unfold on_client_disconnect. rewrite bool_decide_false by done.
  destruct (cr_sessions _ _ Hc) as [Hlen Hns].
  rewrite storeZ_Some by mlia. cbn [mbind option_bind].
  set (c0 := with_sessions c _ _). change (id_map_ c0) with (id_map_ c).
  pose proof (tbl_entries_spec (id_map_ c) (cr_fwd _ _ Hc)) as Hl.
  pose proof (tbl_entries_bound (id_map_ c) (cr_fwd _ _ Hc)) as Hbound.
  rewrite tbl_for_each_spec. set (l := tbl_entries (id_map_ c)) in *.
  change (tbl_map (id_map_ c)) with (fmap_of c) in Hl.
  pose proof (proj1 (cr_maps _ _ Hc)) as HP.
  assert (NoDup (xids l)) as Hnd by (by eapply nodup_xids).
  destruct (disconnect_loop session l c0 [] vs (cr_books _ _ Hc) (cr_symbols _ _ Hc)) as (syms & -> & Hb & Hlv);
    [| done | simpl; lia |].
  { intros [k e] Hke. rewrite Hl in Hke. apply elem_of_map_to_list in Hke. by apply (cr_maps _ _ Hc) in Hke. }
  cbn [mbind option_bind]. change ([] ++ (session_entries session l).*1) with ((session_entries session l).*1).
  set (dead := xids (session_entries session l)) in *.
  assert (∀ x, x ∈ dead ↔ ∃ k e, fmap_of c !! k = Some e ∧ extract_session_id k = session ∧ ie_exchange_id e = x)
    as Hdead by (intros x; by apply session_xids).
  set (c1 := with_symbols c0 syms).
  assert (ready c1 (fmap_of c) (rmap_of c)) as Hr by (by apply core_ready in Hc).
  destruct (erase_mappings_spec (session_entries session l) c1 _ _ Hr HP) as (c2 & -> & H2);
    [| by apply nodup_session_xids |].
  { intros [k e] Hke%session_entries_in. rewrite Hl in Hke. by apply elem_of_map_to_list in Hke. }
  fold dead in H2. destruct (forget_session _ _ session dead HP Hdead) as [EF ER]. rewrite EF, ER in H2.
  destruct H2 as ((Hsy & Hnx & Hnse & Hac & Hse) & Hr2 & Ho & _).
  cbn [mbind option_bind]. rewrite tbl_for_each_spec, Hse.
  change (seen_orders_ c1) with (seen_orders_ c).
  pose proof (tbl_entries_spec (seen_orders_ c) (cr_seen _ _ Hc)) as HlS.
  pose proof (tbl_entries_bound (seen_orders_ c) (cr_seen _ _ Hc)) as HbS.
  rewrite seen_loop by (simpl; lia). cbn [mbind option_bind].
  destruct (erase_seen_spec ([] ++ seen_of session (tbl_entries (seen_orders_ c))) c2) as (t & -> & Ht & Hm).
  { rewrite Hse. apply Hc. }
  assert (tbl_map t = other_keys session (tbl_map (seen_orders_ c))) as Hseen.
  { apply map_eq. intros k. rewrite Hm, Hse. change (seen_orders_ c1) with (seen_orders_ c).
    apply option_eq. intros b. unfold other_keys. rewrite map_lookup_filter_Some. simpl.
    assert (k ∈ seen_of session (tbl_entries (seen_orders_ c)) ↔
      extract_session_id k = session ∧ is_Some (tbl_map (seen_orders_ c) !! k)) as Hin.
    { unfold seen_of. rewrite list_elem_of_filter, HlS, list_elem_of_fmap. split.
      - intros (? & [k' b'] & -> & Hk%elem_of_map_to_list). split; [done |]. by exists b'.
      - intros (? & b' & Hk). split; [done |]. exists (k, b'). split; [done |]. by apply elem_of_map_to_list. }
    destruct (decide (k ∈ _)) as [Hk | Hk]; rewrite Hin in Hk; [naive_solver |].
    split; [| tauto]. intros Hb'. split; [done |]. intros Heq. apply Hk. split; [done | by exists b]. }
  exists (with_seen c2 t), dead. split; [done |]. split; [exact Hdead |].
  destruct Hr2 as (Hbuf & Hf2 & Hr2 & HF2 & HR2).
  assert (core_rep (with_seen c2 t) (λ i, vb_remove_all dead (vs i))) as Hrep.
  { split; simpl; try done.
    - by rewrite Hsy, Hnx.
    - change (fmap_of (with_seen c2 t)) with (fmap_of c2). change (rmap_of (with_seen c2 t)) with (rmap_of c2).
      rewrite HF2, HR2, Hsy. split; [rewrite <- EF, <- ER; by apply paired_forget |].
      intros k e [He Hk]%map_lookup_filter_Some. destruct (proj2 (cr_maps _ _ Hc) k e He) as (? & ? & Hlk & Hx).
      split; [done |]. split; [done |]. split; [by apply Hlv |]. rewrite vb_ids_remove_all. split; [done |].
      rewrite Hdead. intros (k' & e' & He' & Hs' & Hx'). simpl in Hk. apply Hk.
      destruct (pa_fwd _ _ HP k e He) as (r & Hr1 & -> & _), (pa_fwd _ _ HP k' e' He') as (r' & Hr1' & -> & _).
      congruence.
    - intros k. change (fmap_of (with_seen c2 t)) with (fmap_of c2). rewrite HF2, Hseen.
      intros (e & [He Hk]%map_lookup_filter_Some). simpl in Hk.
      destruct (cr_recorded _ _ Hc k ltac:(by exists e)) as [b Hb']. exists b.
      unfold other_keys. by apply map_lookup_filter_Some.
    - rewrite Hac, Hnse. simpl. by rewrite length_setZ.
    - apply Hc. }
  split; [exact Hrep |]. split; [| split; [exact HF2 | split; [exact HR2 | split; [exact Hseen | split; [exact Hac |]]]]].
  - intros Hcomp i x Hi. change (symbols_ (with_seen c2 t)) with (symbols_ c2) in Hi. rewrite Hsy in Hi.
    apply Hlv in Hi. rewrite vb_ids_remove_all. intros [Hx Hnd']. destruct (Hcomp i x Hi Hx) as [r Hrx].
    change (rmap_of (with_seen c2 t)) with (rmap_of c2). rewrite HR2, <- ER. apply forget_rev_keep; [by exists r | done].
  - change (out (with_seen c2 t)) with (out c2). rewrite Ho, app_nil_r. done.
Qed.

(** * [on_client_connect] *)

(** The [k]-th candidate, starting from [first]. *)
Definition candidate (first k : Z) : Z := (first - 1 + k) mod 65535 + 1.

Lemma candidate_range first k : 1 <= candidate first k <= 65535.
Proof. unfold candidate. pose proof (Z.mod_pos_bound (first - 1 + k) 65535 ltac:(lia)). lia. Qed.

Lemma candidate_next first k :
  (let next := u16 (candidate first k + 1) in if bool_decide (next = 0) then 1 else next) = candidate first (k + 1).
Proof.
  pose proof (candidate_range first k) as Hr. cbv zeta. unfold candidate in *.
  replace (first - 1 + (k + 1)) with (first - 1 + k + 1) by lia.
  set (a := first - 1 + k) in *. pose proof (Z.div_mod a 65535 ltac:(lia)).
  pose proof (Z.mod_pos_bound a 65535 ltac:(lia)).
  destruct (decide (a mod 65535 = 65534)) as [E | E].
  - rewrite bool_decide_true by (rewrite E; done).
    assert ((a + 1) mod 65535 = 0) as ->; [| lia]. apply Z.mod_divide; [lia |]. exists (a / 65535 + 1). lia.
  - assert ((a + 1) mod 65535 = a mod 65535 + 1) as ->.
    { symmetry. apply (Z.mod_unique_pos _ _ (a / 65535)); lia. }
    unfold u16. rewrite Z.mod_small by lia. rewrite bool_decide_false by lia. lia.
Qed.

Lemma candidate_covers first id : 1 <= id <= 65535 → ∃ k, 0 <= k < 65535 ∧ candidate first k = id.
Proof.
  intros Hid. exists ((id - first) mod 65535). split; [apply Z.mod_pos_bound; lia |].
  unfold candidate. rewrite Zplus_mod_idemp_r. replace (first - 1 + (id - first)) with (id - 1) by lia.
  rewrite Z.mod_small by lia. lia.
Qed.

Definition first_candidate (n : Z) : Z := if bool_decide (n = 0) then 1 else n.

Lemma connect_loop_spec c first k j fuel :
  lenZ (active_sessions_ c) = 65536 → first_candidate (next_session_id_ c) = candidate first k →
  0 <= k → k <= j < 65535 → (active_sessions_ c).[candidate first j] = Some false →
  Z.of_nat fuel = 65535 - k →
  ∃ id next, connect_loop c fuel k
    = Some (with_sessions c next ((active_sessions_ c).[id <- true]), id) ∧
    1 <= id <= 65535 ∧ is_u16 next ∧ (active_sessions_ c).[id] = Some false.
Proof.
  intros Hlen. revert c k Hlen. induction fuel as [| fuel IH]; intros c k Hlen Hfirst Hk Hj Hfree Hfuel; [lia |].
  cbn [connect_loop]. unfold first_candidate in Hfirst. rewrite Hfirst.
  pose proof (candidate_range first k) as Hr.
  destruct (getZ_is_Some (active_sessions_ c) (candidate first k)) as [b Hb]; [lia |].
  rewrite Hb. cbn [mbind option_bind]. destruct b; cbn [negb].
  2: { rewrite storeZ_Some by lia. cbn [mbind option_bind]. eexists _, _. split; [done |]. split; [done |].
       split; [| done]. unfold is_u16, u16. apply Z.mod_pos_bound. lia. }
  destruct (decide (j = k)) as [-> | Hne]; [congruence |].
  rewrite u32_id by mlia. rewrite bool_decide_false by lia.
  destruct (IH (with_sessions c (u16 (candidate first k + 1)) (active_sessions_ c)) (k + 1))
    as (id & next & E & Hid); [done | | lia | lia | done | lia |].
  { unfold first_candidate. simpl. apply candidate_next. }
  exists id, next. split; [exact E | exact Hid].
Qed.

Lemma on_client_connect_spec c vs free :
  core_rep c vs → 1 <= free <= 65535 → (active_sessions_ c).[free] = Some false →
  ∃ c' id, on_client_connect c = Some (c', id) ∧ core_rep c' vs ∧ 1 <= id <= 65535 ∧
    (active_sessions_ c).[id] = Some false ∧ active_sessions_ c' = (active_sessions_ c).[id <- true] ∧
    (complete c vs → complete c' vs) ∧ out c' = out c.
Proof.
  intros Hc Hfree Hact. destruct (cr_sessions _ _ Hc) as [Hlen Hns].
  set (first := first_candidate (next_session_id_ c)).
  assert (1 <= first <= 65535) as Hf by (unfold first, first_candidate; case_bool_decide; mlia).
  destruct (candidate_covers first free Hfree) as (j & Hj & Hcj).
  destruct (connect_loop_spec c first 0 j 65535) as (id & next & E & Hid & Hn & Hwas); try done; try lia.
  - fold first. unfold candidate. rewrite Z.mod_small by lia. lia.
  - by rewrite Hcj.
  - eexists _, id. split; [exact E |]. split; [| done].
    destruct Hc. split; try done. simpl. by rewrite length_setZ.
Qed.

(** * [register_symbol] and [drain_events] *)

Lemma register_symbol_spec c vs sym e slot :
  core_rep c vs → 1 <= sym <= MaxSymbols → (symbols_ c).[sym - 1] = Some slot → active slot = false →
  engine_rep e vb_empty →
  ∃ c', register_symbol MaxSymbols c sym (Some e) = Some c' ∧ core_rep c' (set_book vs (sym - 1) vb_empty) ∧
    sym_live c' sym.
Proof.
  intros Hc Hsym Hslot Hina He. pose proof (cr_symbols _ _ Hc) as HM. unfold register_symbol.
  rewrite !bool_decide_false by lia. cbn [orb mbind option_bind]. rewrite u32_id by mlia.
  pose proof (bo_len _ _ _ (cr_books _ _ Hc)) as Hlen.
  rewrite storeZ_Some by lia. cbn [mbind option_bind]. set (i := sym - 1) in *.
  eexists. split; [done |].
  assert (∀ j slot', (symbols_ c).[i <- {| engine := e; active := true |}].[j] = Some slot' →
    j = i ∧ slot' = {| engine := e; active := true |} ∨ j ≠ i ∧ (symbols_ c).[j] = Some slot') as Hget.
  { intros j slot'. rewrite getZ_setZ by lia. destruct (decide (i = j)) as [<- | ?]; [left | right]; naive_solver. }
  assert (¬ live_in (symbols_ c) i) as Hnl by (intros (slot' & ? & ?); congruence).
  assert (live_in ((symbols_ c).[i <- {| engine := e; active := true |}]) i) as Hli.
  { eexists. split; [by apply getZ_setZ_eq; lia | done]. }
  assert (∀ j x, live_in ((symbols_ c).[i <- {| engine := e; active := true |}]) j →
    x ∈ vb_ids (set_book vs i vb_empty j) → j ≠ i ∧ live_in (symbols_ c) j ∧ x ∈ vb_ids (vs j)) as Hids.
  { intros j x (slot' & [(-> & _) | (Hne & Hj)]%Hget & Ha).
    - rewrite set_book_eq. by intros ?%elem_of_nil.
    - rewrite set_book_ne by done. intros Hx. split; [done |]. split; [by exists slot' | done]. }
  split; [| by split].
  destruct Hc as [Hb [HP Hlive] Hbuf Hf Hr Hse Hrec Hss _]. split; try done; simpl.
  - destruct Hb. split; [by rewrite length_setZ | done | | |].
    + intros j slot' [(-> & ->) | (Hne & Hj)]%Hget Ha; [by rewrite set_book_eq |].
      rewrite set_book_ne by done. by apply bo_engine0.
    + intros j x Hj Hx. destruct (Hids j x Hj Hx) as (_ & ? & ?). by apply (bo_ids0 j).
    + intros j k x Hj Hk Hx Hx'. destruct (Hids j x Hj Hx) as (_ & ? & ?), (Hids k x Hk Hx') as (_ & ? & ?).
      by apply (bo_disjoint0 j k x).
  - split; [done |]. intros k en Hen. destruct (Hlive k en Hen) as (? & ? & Hl & Hx).
    assert (ie_symbol_id en - 1 ≠ i) as Hne by (intros Heq; rewrite Heq in Hl; done).
    split; [done |]. split; [done |]. rewrite set_book_ne by done. split; [| done].
    destruct Hl as (slot' & Hj & Ha). exists slot'. split; [| done].
    rewrite getZ_setZ_ne; [done | lia | done].
Qed.

Lemma drain_events_spec c vs :
  core_rep c vs →
  let '(c', evs) := drain_events c in
  evs = out c ∧ core_rep c' vs ∧ event_count_ c' = 0 ∧ out c' = [] ∧ (complete c vs → complete c' vs).
Proof.
  intros Hc. simpl. split; [done |]. split; [| done]. destruct Hc. split; try done.
  destruct cr_buf0 as [? _]. split; [done | simpl; unfold kMaxEvents; lia].
Qed.

(** The core before any symbol is registered. *)
Definition initial_core (e0 : MatchingEngine OM LM) (s : SM) (f : FM) (r : RM) : Core :=
  {| symbols_ := replicate (Z.to_nat MaxSymbols) {| engine := e0; active := false |};
     next_exchange_id_ := 1; events_ := replicate (Z.to_nat kMaxEvents) empty_event; event_count_ := 0;
     next_session_id_ := 1; active_sessions_ := replicate (Z.to_nat 65536) false;
     seen_orders_ := s; id_map_ := f; reverse_id_map_ := r |}.

Lemma initial_core_rep e0 s f r vs :
  0 < MaxSymbols < 2 ^ 32 → tbl_wf s → tbl_wf f → tbl_wf r →
  tbl_map f = ∅ → tbl_map r = ∅ →
  core_rep (initial_core e0 s f r) vs ∧ complete (initial_core e0 s f r) vs.
Proof.
  intros HM Hs Hf Hr Ef Er.
  assert (∀ j, ¬ live_in (symbols_ (initial_core e0 s f r)) j) as Hnl.
  { intros j (slot & Hj & Ha). apply getZ_to_lookup in Hj. simpl in Hj.
    apply lookup_replicate in Hj as [-> _]. done. }
  split; [| by intros j x ?%Hnl].
  split; try done.
  - split; [simpl; rewrite length_replicate; lia | simpl; lia | | |].
    + intros j slot Hj Ha. destruct (Hnl j). by exists slot.
    + intros j x Hl. by destruct (Hnl j).
    + intros j k x Hl. by destruct (Hnl j).
  - unfold fmap_of, rmap_of. simpl. rewrite Ef, Er. split; [apply paired_empty |].
    intros k e He. by rewrite lookup_empty in He.
  - unfold fmap_of. simpl. rewrite Ef. intros k [e He]. by rewrite lookup_empty in He.
Qed.
End Exchange.
