(* ===== verification/ExchangeTheorems.v ===== *)
(** The properties of the exchange core, witnessed on a concrete core with
    the hash tables and capacities of the source. *)
From S2P Require Import Prelude.
From S2P Require Import HashUtils.
From S2P Require Import TableInterface.
From S2P Require Import HashMap.
From S2P Require Import HashMapSpec.
From S2P Require Import FixedHashMap.
From S2P Require Import TradingTypes.
From S2P Require Import OrderBook.
From S2P Require Import MatchingEngine.
From S2P Require Import BookView.
From S2P Require Import MatchSpec.
From S2P Require Import OrderBookRep.
From S2P Require Import OrderBookSpec.
From S2P Require Import BookBind.
From S2P Require Import OrderBookTheorems.
From S2P Require Import MatchingTheorems.
From S2P Require Import Protocol.
From S2P Require Import ExchangeCore.
From S2P Require Import ExchangeSpec.
From S2P Require Import ExchangeCorrect.
Import EC.
Local Open Scope Z_scope.
Local Open Scope array_scope.

Section Properties.
Context (ndebug : bool) {OM LM SM FM RM : Type}.
Context `{TO : Table Z Z OM} `{TL : Table Z Z LM} {OML : TableLaws Z Z OM} {LML : TableLaws Z Z LM}.
Context `{TS : Table Z bool SM} {SL : TableLaws Z bool SM} {SI : TableIter Z bool SM}
  {SIL : TableIterLaws Z bool SM}.
Context `{TF : Table Z IdEntry FM} {FL : TableLaws Z IdEntry FM} {FI : TableIter Z IdEntry FM}
  {FIL : TableIterLaws Z IdEntry FM}.
Context `{TR : Table Z ReverseIdEntry RM} {RL : TableLaws Z ReverseIdEntry RM}.
Context (MaxSymbols MaxFills : Z).
Abbreviation Core := (ExchangeCore OM LM SM FM RM).
Implicit Types (c : Core).
Abbreviation core_rep := (core_rep (OM := OM) (LM := LM) (SM := SM) (FM := FM) (RM := RM) ndebug MaxSymbols MaxFills).


(** ** Pairing

    While both identity tables have room, both insertions of a resting order
    succeed. *)

Section Pairing.
Context {RF : TableRoom Z IdEntry FM} {RR : TableRoom Z ReverseIdEntry RM}.














End Pairing.


(** C30. [cancel_order] answers in one of five ways; only an order this
    session placed, on the symbol it named, leaves the book, both of its
    mappings go with it, no assertion fails and the invariant is kept. *)
Theorem exchange_cancel_correct c vs session o :
  0 <= MaxFills < 2 ^ 32 → core_rep c vs → is_u16 session → CancelOrder_ok o →
  event_count_ c + 1 <= kMaxEvents →
  ∃ c' evs vs', EC.cancel_order ndebug MaxSymbols c session o = Some c' ∧
    cancel_outcome MaxSymbols c vs session o evs vs' ∧ out c' = out c ++ evs ∧
    kept_all ndebug MaxSymbols MaxFills c vs c' vs'.
Proof. intros HM. by apply cancel_order_spec. Qed.

(** [modify_order] is a cancellation and a new submission under a new
    exchange id: the acknowledgement is followed by the reports of the
    fills, and the mapping of the client moves to the new order. *)
Theorem exchange_modify_correct c vs session o :
  0 <= MaxFills < 2 ^ 32 → core_rep c vs → is_u16 session → ModifyOrder_ok o →
  event_count_ c + 1 + 4 * MaxFills <= kMaxEvents → next_exchange_id_ c + 1 < 2 ^ 64 →
  ∃ c' evs vs', EC.modify_order ndebug MaxSymbols MaxFills c session o = Some c' ∧
    modify_outcome MaxSymbols MaxFills c vs session o evs vs' ∧ out c' = out c ++ evs ∧
    kept ndebug MaxSymbols MaxFills c vs c' vs' (client_key session (mo_client_order_id o)) (next_exchange_id_ c).
Proof. intros HM. by apply modify_order_spec. Qed.

(** [on_client_disconnect] is a kill switch scoped to the session: all
    its mapped orders leave the books, its mappings and recorded identities
    are forgotten, those of every other session are untouched, and no
    assertion or buffer bound is violated. *)
Theorem exchange_disconnect_correct c vs session :
  0 <= MaxFills < 2 ^ 32 → core_rep c vs → tables_fit (SM := SM) (FM := FM) → is_u16 session → session ≠ 0 →
  ∃ c' dead, on_client_disconnect ndebug c session = Some c' ∧
    (∀ x, x ∈ dead ↔ ∃ k e, fmap_of c !! k = Some e ∧ extract_session_id k = session ∧ ie_exchange_id e = x) ∧
    core_rep c' (λ i, vb_remove_all dead (vs i)) ∧
    (complete c vs → complete c' (λ i, vb_remove_all dead (vs i))) ∧
    fmap_of c' = other_keys session (fmap_of c) ∧ rmap_of c' = other_orders session (rmap_of c) ∧
    tbl_map (seen_orders_ c') = other_keys session (tbl_map (seen_orders_ c)) ∧
    active_sessions_ c' = (active_sessions_ c).[session <- false] ∧ out c' = out c.
Proof. intros HM. by apply on_client_disconnect_spec. Qed.

(** [on_client_connect] terminates with an id that no active session
    holds whenever one of the 65535 ids is free, wrapping past 0. *)
Theorem exchange_connect_correct c vs free :
  0 <= MaxFills < 2 ^ 32 → core_rep c vs → 1 <= free <= 65535 → (active_sessions_ c).[free] = Some false →
  ∃ c' id, on_client_connect c = Some (c', id) ∧ core_rep c' vs ∧ 1 <= id <= 65535 ∧
    (active_sessions_ c).[id] = Some false ∧ active_sessions_ c' = (active_sessions_ c).[id <- true] ∧
    (complete c vs → complete c' vs) ∧ out c' = out c.
Proof. intros HM. by apply on_client_connect_spec. Qed.

(** ** Consequences *)

Lemma out_length c vs : core_rep c vs → lenZ (out c) = event_count_ c.
Proof.
  intros []. destruct cr_buf as [Hl Hc]. unfold out. rewrite length_take. unfold kMaxEvents in *. lia.
Qed.

Lemma submit_outcome_length c vs session o evs vs' :
  0 <= MaxFills → core_rep c vs → NewOrder_ok o → no_side o <= 1 →
  submit_outcome ndebug MaxSymbols MaxFills c vs session o evs vs' → lenZ evs <= 1 + 4 * MaxFills.
Proof.
  intros HM Hc (_ & _ & Hb & _ & Hq & _) Hside Ho. destruct Ho as [| | | | | r v' ? [Hsym (slot & Hi & Ha)] ? Hsub]; simpl; try lia.
  pose proof (bo_engine _ _ _ _ _ _ (cr_books _ _ _ _ _ Hc) _ slot Hi Ha) as He.
  destruct (submission_touches MaxFills _ _ _ _ _ r v' (engine_wf _ _ _ _ He) (side_of_u8_valid (no_side o) ltac:(mlia)) Hq Hsub)
    as [_ Hlen].
  match goal with |- context [fill_events ?R ?v ?a ?b ?x ?sy ?s ?t ?q ?fs] =>
    pose proof (fill_events_length R v a b x sy s t q fs) end. lia.
Qed.

(** The 512 slots of the event buffer are enough: with the engine's 64
    fills a submission on a drained buffer leaves at most 257 events, so
    the [std::abort] of [emit] is unreachable when the buffer is drained
    after each request. *)
Theorem event_buffer_suffices c vs session o :
  MaxFills = 64 → core_rep c vs → is_u16 session → NewOrder_ok o → no_side o <= 1 →
  event_count_ c = 0 → next_exchange_id_ c + 1 < 2 ^ 64 →
  ∃ c', EC.submit_order ndebug MaxSymbols MaxFills c session o = Some c' ∧ lenZ (out c') <= 257 ∧ 257 <= kMaxEvents.
Proof.
  intros HM Hc Hs Ho Hside Hcnt Hnext.
  destruct (submit_order_spec ndebug MaxSymbols MaxFills ltac:(lia) c vs session o Hc Hs Ho Hside)
    as (c' & evs & vs' & E & Hout & Ho' & _); [unfold kMaxEvents; lia | done |].
  exists c'. split; [done |]. rewrite Ho', length_app.
  pose proof (out_length c vs Hc). pose proof (submit_outcome_length c vs session o evs vs' ltac:(lia) Hc Ho Hside Hout).
  unfold kMaxEvents. lia.
Qed.

(** No fill is lost: if every resting order has its client on record,
    each fill of a submission is reported to the maker's own session with
    the maker's own order id and what is left of its order. *)
Theorem maker_always_notified c vs session o :
  0 <= MaxFills < 2 ^ 32 → core_rep c vs → complete c vs → is_u16 session → NewOrder_ok o → no_side o <= 1 →
  event_count_ c + 1 + 4 * MaxFills <= kMaxEvents → next_exchange_id_ c + 1 < 2 ^ 64 →
  ∃ c' evs vs', EC.submit_order ndebug MaxSymbols MaxFills c session o = Some c' ∧ out c' = out c ++ evs ∧
    submit_outcome ndebug MaxSymbols MaxFills c vs session o evs vs' ∧
    ∀ ev, ev ∈ evs → ev_type ev = kFill → ev_session_id ev = session → ev_exchange_order_id ev = next_exchange_id_ c →
      ∃ x r, rmap_of c !! x = Some r ∧
        ev_fill (re_session_id r) (re_client_order_id r) x (re_symbol_id r)
          (opposite_side (side_of_u8 (no_side o))) (ev_price ev) (ev_qty ev)
          (default 0 (vb_qty x (vs' (no_symbol_id o - 1)))) (re_send_ts r) ∈ evs.
Proof.
  intros HM Hc Hcomp Hs Ho Hside Hroom Hnext.
  destruct (submit_order_spec ndebug MaxSymbols MaxFills HM c vs session o Hc Hs Ho Hside Hroom Hnext)
    as (c' & evs & vs' & E & Hout & Ho' & _).
  exists c', evs, vs'. split; [done |]. split; [done |]. split; [done |].
  destruct Ho as (_ & _ & Hb & _ & Hq & _).
  destruct Hout as [| | | | | r v' ? [Hsym (slot & Hi & Ha)] ? Hsub Htr];
    try (intros ev ->%list_elem_of_singleton; done).
  pose proof (bo_engine _ _ _ _ _ _ (cr_books _ _ _ _ _ Hc) _ slot Hi Ha) as He.
  destruct (submission_touches MaxFills _ _ _ _ _ r v' (engine_wf _ _ _ _ He) (side_of_u8_valid (no_side o) ltac:(mlia)) Hq Hsub)
    as [Hids _].
  assert (∀ m, m ∈ maker_id <$> fills r → is_Some (rmap_of c !! m) ∧ m ≠ next_exchange_id_ c) as Hmk.
  { intros m Hm%(si_makers _ _ _ _ Hids). split; [apply (Hcomp (no_symbol_id o - 1)); [by exists slot | done] |].
    intros ->. eapply next_fresh in Hm; [done | done | by exists slot]. }
  intros ev [-> | Hev]%elem_of_cons Hty _ Hx; [done |]. rewrite set_book_eq.
  setoid_rewrite elem_of_cons.
  assert (∃ x rr, rmap_of c !! x = Some rr ∧
    ev_fill (re_session_id rr) (re_client_order_id rr) x (re_symbol_id rr) (opposite_side (side_of_u8 (no_side o)))
      (ev_price ev) (ev_qty ev) (default 0 (vb_qty x v')) (re_send_ts rr)
    ∈ fill_events (rmap_of c) v' session (no_client_order_id o) (next_exchange_id_ c) (no_symbol_id o)
        (side_of_u8 (no_side o)) (no_send_ts o) (no_qty o) (fills r)) as (x & rr & ? & ?); [| exists x, rr; tauto].
  clear Htr Hids Hsub Ho'. revert Hev Hmk. generalize (no_qty o). induction (fills r) as [| f fs IH]; intros rem Hev Hmk.
  { by apply elem_of_nil in Hev. }
  simpl in Hev |- *. destruct (Hmk (maker_id f) ltac:(left)) as [[rr Hr] Hne].
  assert (∀ m, m ∈ maker_id <$> fs → is_Some (rmap_of c !! m) ∧ m ≠ next_exchange_id_ c) as Hmk'
    by (intros m Hm; apply Hmk; by right).
  unfold maker_events in *. rewrite Hr in *. rewrite !elem_of_cons, !elem_of_app, list_elem_of_singleton in Hev.
  destruct Hev as [-> | [-> | [Hbbo | Hev]]].
  - exists (maker_id f), rr. split; [done |]. right. apply elem_of_app. left. by apply list_elem_of_singleton.
  - done.
  - exfalso. unfold bbo_events, best_events in Hbbo. apply elem_of_app in Hbbo as [Hbbo | Hbbo];
      (case_match; [by apply elem_of_nil in Hbbo |]); case_match; apply list_elem_of_singleton in Hbbo as ->; done.
  - destruct (IH _ Hev Hmk') as (x & rr' & Hr' & Hin). exists x, rr'. split; [done |].
    right. apply elem_of_app. right. apply elem_of_app. by right.
Qed.



End Properties.

(** * A concrete core *)

#[export] Instance seen_valid : FHM.ValidCapacity kMaxSeenOrders.
Proof. done. Defined.
#[export] Instance mappings_valid : FHM.ValidCapacity kMaxIdMappings.
Proof. done. Defined.

Abbreviation Seen := (FHM.FixedHashMap Z bool).
Abbreviation Fwd := (FHM.FixedHashMap Z IdEntry).
Abbreviation Rev := (FHM.FixedHashMap Z ReverseIdEntry).
#[export] Instance seen_table : Table Z bool Seen := FHM.FixedHashMap_Table DefaultHash kMaxSeenOrders.
#[export] Instance seen_laws : TableLaws Z bool Seen := FHM.FixedHashMap_TableLaws DefaultHash kMaxSeenOrders.
#[export] Instance seen_iter : TableIter Z bool Seen := FHM.FixedHashMap_TableIter.
#[export] Instance seen_iter_laws : TableIterLaws Z bool Seen := FHM.FixedHashMap_TableIterLaws DefaultHash kMaxSeenOrders.
#[export] Instance fwd_table : Table Z IdEntry Fwd := FHM.FixedHashMap_Table DefaultHash kMaxIdMappings.
#[export] Instance fwd_laws : TableLaws Z IdEntry Fwd := FHM.FixedHashMap_TableLaws DefaultHash kMaxIdMappings.
#[export] Instance fwd_iter : TableIter Z IdEntry Fwd := FHM.FixedHashMap_TableIter.
#[export] Instance fwd_iter_laws : TableIterLaws Z IdEntry Fwd := FHM.FixedHashMap_TableIterLaws DefaultHash kMaxIdMappings.
#[export] Instance rev_table : Table Z ReverseIdEntry Rev := FHM.FixedHashMap_Table DefaultHash kMaxIdMappings.
#[export] Instance fwd_room : TableRoom Z IdEntry Fwd := FHM.FixedHashMap_TableRoom DefaultHash kMaxIdMappings.
#[export] Instance rev_laws : TableLaws Z ReverseIdEntry Rev := FHM.FixedHashMap_TableLaws DefaultHash kMaxIdMappings.
#[export] Instance rev_room : TableRoom Z ReverseIdEntry Rev := FHM.FixedHashMap_TableRoom DefaultHash kMaxIdMappings.

Abbreviation DemoCore := (ExchangeCore Tab Tab Seen Fwd Rev).

Definition no_entry : IdEntry := {| ie_exchange_id := 0; ie_side := kBid; ie_symbol_id := 0 |}.
Definition no_rev : ReverseIdEntry :=
  {| re_session_id := 0; re_client_order_id := 0; re_symbol_id := 0; re_send_ts := 0 |}.

(** A core as constructed, with the book [b] registered as symbol 1. *)
Definition core0 : DemoCore :=
  initial_core 2 (from_book 64 no_book) (FHM.construct kMaxSeenOrders 0 false)
    (FHM.construct kMaxIdMappings 0 no_entry) (FHM.construct kMaxIdMappings 0 no_rev).
Definition core1 (b : OrderBook Tab Tab) : DemoCore :=
  default core0 (register_symbol 2 core0 1 (Some (from_book 64 b))).
Definition core2 (b : OrderBook Tab Tab) : DemoCore := default core0 (fst <$> on_client_connect (core1 b)).

Definition buy (cid price q : Z) : NewOrder :=
  {| no_client_order_id := cid; no_symbol_id := 1; no_side := 0; no_price := price; no_qty := q; no_send_ts := 7 |}.
Definition sell (cid price q : Z) : NewOrder :=
  {| no_client_order_id := cid; no_symbol_id := 1; no_side := 1; no_price := price; no_qty := q; no_send_ts := 8 |}.
Definition place (c : DemoCore) (session : Z) (o : NewOrder) : DemoCore :=
  default c (fst <$> (drain_events <$> EC.submit_order true 2 64 c session o)).

Example session_example : snd <$> on_client_connect (core1 demo) = Some 1.
Proof. vm_compute. reflexivity. Qed.

Example trade_example :
  (λ c, ev_type <$> out c) <$> EC.submit_order true 2 64 (place (core2 demo) 1 (buy 5 100 10)) 2 (sell 9 100 4)
  = Some [kOrderAccepted; kFill; kFill; kBBOUpdate].
Proof. vm_compute. reflexivity. Qed.

(** ** The invariant of the concrete core *)

Lemma core0_rep : core_rep true 2 64 core0 (λ _, vb_empty) ∧ complete core0 (λ _, vb_empty).
Proof.
  apply initial_core_rep; try lia; try (apply FHM.construct_wf; done).
Qed.

Lemma from_book_rep b v : represents true b v → engine_rep true 64 (from_book 64 b) v.
Proof. intros Hb. split; [done |]. split; [done | simpl; lia]. Qed.

Lemma core1_rep b :
  represents true b vb_empty → core_rep true 2 64 (core1 b) (λ _, vb_empty) ∧ complete (core1 b) (λ _, vb_empty).
Proof.
  intros Hb. destruct core0_rep as [H0 _].
  destruct (register_symbol_spec true 2 64 ltac:(lia) core0 (λ _, vb_empty) 1 (from_book 64 b)
    {| engine := from_book 64 no_book; active := false |} H0) as (c' & E & Hc & Hl);
    [lia | by vm_compute | done | by apply from_book_rep |].
  assert (core1 b = c') as -> by (unfold core1; by rewrite E).
  split; [| intros i x Hi; by intros ?%elem_of_nil].
  eapply core_rep_ext; [| exact Hc]. intros i. apply (set_book_same (λ _, vb_empty) _ i).
Qed.

Lemma core2_rep b :
  represents true b vb_empty → core_rep true 2 64 (core2 b) (λ _, vb_empty) ∧ complete (core2 b) (λ _, vb_empty).
Proof.
  intros Hb. destruct (core1_rep b Hb) as (Hc & Hcomp).
  assert ((active_sessions_ (core1 b)).[1] = Some false) as Hfree by by vm_compute.
  destruct (on_client_connect_spec true 2 64 ltac:(lia) (core1 b) _ 1 Hc ltac:(lia) Hfree)
    as (c' & id & E & Hc' & _ & _ & _ & Hcomp' & _).
  assert (core2 b = c') as -> by (unfold core2; by rewrite E). auto.
Qed.

(** Session 1 has a resting order: its client id 5 at price 100 for 10. *)
Definition core3 : DemoCore := place (core2 demo) 1 (buy 5 100 10).

Lemma core3_outcome : ∃ evs vs, core_rep true 2 64 core3 vs ∧ complete core3 vs ∧
  submit_outcome true 2 64 (core2 demo) (λ _, vb_empty) 1 (buy 5 100 10) evs vs.
Proof.
  destruct (core2_rep demo demo_represents) as (Hc & Hcomp).
  destruct (submit_order_spec true 2 64 ltac:(lia) (core2 demo) _ 1 (buy 5 100 10) Hc)
    as (c' & evs & vs' & E & Ho & _ & Hrep & Hcm);
    [by split | by vm_compute | done | vm_compute; congruence | by vm_compute |].
  assert (core3 = fst (drain_events c')) as -> by (unfold core3, place; by rewrite E).
  assert (EC.submit_order true 2 64 (core2 demo) 1 (buy 5 100 10) = Some c') as E' by done.
  assert (core_rep true 2 64 c' vs') as Hc'.
  { apply Hrep.
    assert (∃ e, fmap_of c' !! client_key 1 5 = Some e ∧ ie_exchange_id e = 1) as Hf.
    { apply (f_equal (λ o, o ≫= λ c, fmap_of c !! client_key 1 5)) in E'. vm_compute in E'.
      eexists. split; [symmetry; exact E' | done]. }
    assert (is_Some (rmap_of c' !! 1)) as Hr.
    { apply (f_equal (λ o, o ≫= λ c, rmap_of c !! 1)) in E'. vm_compute in E'.
      eexists. symmetry. exact E'. }
    by split. }
  exists evs, vs'. pose proof (drain_events_spec true 2 64 c' vs' Hc') as Hd. simpl in Hd.
  split; [apply Hd |]. split; [| exact Ho]. apply Hd. apply Hcm; [done |]. intros _ _ _.
  apply (f_equal (λ o, o ≫= λ c, rmap_of c !! 1)) in E'. vm_compute in E'. eexists. symmetry. exact E'.
Qed.

Lemma core3_rep : ∃ vs, core_rep true 2 64 core3 vs ∧ complete core3 vs.
Proof. destruct core3_outcome as (evs & vs & H1 & H2 & _). by exists vs. Qed.

(** ** Witnesses *)


Definition cancel5 : CancelOrder := {| co_client_order_id := 5; co_symbol_id := 1; co_send_ts := 9 |}.
Definition modify5 : ModifyOrder :=
  {| mo_client_order_id := 5; mo_symbol_id := 1; mo_new_price := 101; mo_new_qty := 3; mo_send_ts := 9 |}.

Lemma exchange_cancel_correct_witness :
  ∃ vs c' evs vs', core_rep true 2 64 core3 vs ∧ EC.cancel_order true 2 core3 1 cancel5 = Some c' ∧
    cancel_outcome 2 core3 vs 1 cancel5 evs vs' ∧ out c' = out core3 ++ evs ∧
    kept_all true 2 64 core3 vs c' vs'.
Proof.
  destruct core3_rep as (vs & Hc & _). exists vs.
  destruct (exchange_cancel_correct true 2 64 core3 vs 1 cancel5) as (c' & evs & vs' & H);
    [lia | exact Hc | by split | by vm_compute | vm_compute; congruence |].
  exists c', evs, vs'. split; [exact Hc | exact H].
Defined.

Lemma exchange_modify_correct_witness :
  ∃ vs c' evs vs', core_rep true 2 64 core3 vs ∧ EC.modify_order true 2 64 core3 1 modify5 = Some c' ∧
    modify_outcome 2 64 core3 vs 1 modify5 evs vs' ∧ out c' = out core3 ++ evs ∧
    kept true 2 64 core3 vs c' vs' (client_key 1 5) (next_exchange_id_ core3).
Proof.
  destruct core3_rep as (vs & Hc & _). exists vs.
  destruct (exchange_modify_correct true 2 64 core3 vs 1 modify5) as (c' & evs & vs' & H);
    [lia | exact Hc | by split | by vm_compute | vm_compute; congruence | by vm_compute |].
  exists c', evs, vs'. split; [exact Hc | exact H].
Defined.

Lemma demo_tables_fit : tables_fit (SM := Seen) (FM := Fwd).
Proof. split; vm_compute; congruence. Qed.

Lemma exchange_disconnect_correct_witness :
  ∃ vs c' dead, on_client_disconnect true core3 1 = Some c' ∧
    (∀ x, x ∈ dead ↔ ∃ k e, fmap_of core3 !! k = Some e ∧ extract_session_id k = 1 ∧ ie_exchange_id e = x) ∧
    core_rep true 2 64 c' (λ i, vb_remove_all dead (vs i)) ∧
    (complete core3 vs → complete c' (λ i, vb_remove_all dead (vs i))) ∧
    fmap_of c' = other_keys 1 (fmap_of core3) ∧ rmap_of c' = other_orders 1 (rmap_of core3) ∧
    tbl_map (seen_orders_ c') = other_keys 1 (tbl_map (seen_orders_ core3)) ∧
    active_sessions_ c' = (active_sessions_ core3).[1 <- false] ∧ out c' = out core3.
Proof.
  destruct core3_rep as (vs & Hc & _). exists vs.
  apply (exchange_disconnect_correct true 2 64 core3 vs 1);
    [lia | exact Hc | apply demo_tables_fit | by split | lia].
Defined.

Lemma exchange_connect_correct_witness :
  ∃ vs c' id, on_client_connect core3 = Some (c', id) ∧ core_rep true 2 64 c' vs ∧ 1 <= id <= 65535 ∧
    (active_sessions_ core3).[id] = Some false ∧ active_sessions_ c' = (active_sessions_ core3).[id <- true] ∧
    (complete core3 vs → complete c' vs) ∧ out c' = out core3.
Proof.
  destruct core3_rep as (vs & Hc & _). exists vs.
  apply (exchange_connect_correct true 2 64 core3 vs 2); [lia | exact Hc | lia | by vm_compute].
Defined.

Lemma event_buffer_suffices_witness :
  ∃ c', EC.submit_order true 2 64 core3 2 (sell 9 100 4) = Some c' ∧ lenZ (out c') <= 257 ∧ 257 <= kMaxEvents.
Proof.
  destruct core3_rep as (vs & Hc & _).
  apply (event_buffer_suffices true 2 64 core3 vs 2 (sell 9 100 4));
    [done | exact Hc | by split | by vm_compute | done | by vm_compute | by vm_compute].
Defined.

Lemma maker_always_notified_witness :
  ∃ vs c' evs vs', complete core3 vs ∧ EC.submit_order true 2 64 core3 2 (sell 9 100 4) = Some c' ∧
    out c' = out core3 ++ evs ∧ submit_outcome true 2 64 core3 vs 2 (sell 9 100 4) evs vs' ∧
    ∀ ev, ev ∈ evs → ev_type ev = kFill → ev_session_id ev = 2 →
      ev_exchange_order_id ev = next_exchange_id_ core3 →
      ∃ x r, rmap_of core3 !! x = Some r ∧
        ev_fill (re_session_id r) (re_client_order_id r) x (re_symbol_id r)
          (opposite_side (side_of_u8 (no_side (sell 9 100 4)))) (ev_price ev) (ev_qty ev)
          (default 0 (vb_qty x (vs' (no_symbol_id (sell 9 100 4) - 1)))) (re_send_ts r) ∈ evs.
Proof.
  destruct core3_rep as (vs & Hc & Hcomp). exists vs.
  destruct (maker_always_notified true 2 64 core3 vs 2 (sell 9 100 4)) as (c' & evs & vs' & H);
    [lia | exact Hc | exact Hcomp | by split | by vm_compute | done | vm_compute; congruence | by vm_compute |].
  exists c', evs, vs'. split; [exact Hcomp | exact H].
Defined.


(** * A full identity table loses resting orders

    The tables take 716 entries (70% of 1024).  The results of the two
    insertions of a resting order are ignored, so the 717th order of a book
    with room for it is acknowledged and rests, but its own client cannot
    cancel it any more. *)

Definition big_params : Params :=
  {| max_orders := 1024; max_levels := 4; order_map_cap := 2048; level_map_cap := 8 |}.
Definition big_garbage : list (HM.Slot Z Z) :=
  replicate 2048 {| HM.key := 5; HM.value := 99; HM.state := HM.kFull |}.
Definition big : OrderBook Tab Tab :=
  default no_book (default None (bind true (Some 4096) 2000000 big_params big_garbage garbage garbage)).

Fixpoint crowd (n : nat) : DemoCore :=
  match n with O => core2 big | S m => place (crowd m) 1 (buy (Z.of_nat n) 100 1) end.

(** The events of one more order and of its immediate cancellation, and
    whether the order still rests afterwards. *)
Definition order_and_cancel (c : DemoCore) (cid : Z) : option (list EventType * bool) :=
  c ← EC.submit_order true 2 64 c 1 (buy cid 100 1);
  c ← EC.cancel_order true 2 c 1 {| co_client_order_id := cid; co_symbol_id := 1; co_send_ts := 0 |};
  slot ← (symbols_ c).[0];
  rests ← has_order (book_ (engine slot)) (next_exchange_id_ c - 1);
  Some (ev_type <$> out c, rests).

(** With 716 resting orders in place the next order of the session is
    accepted and rests, and its cancellation is refused as unknown: the
    exchange has lost the client of a resting order. *)
Theorem unmapped_resting_order :
  order_and_cancel (crowd 716) 717 = Some ([kOrderAccepted; kCancelRejected], true).
Proof. vm_compute. reflexivity. Qed.
