(* ===== verification/ExchangeIpc.v ===== *)
(** The queues between the exchange's processes and the engine process:
    [src/apps/simulated_exchange/shared_exchange_queue.hpp],
    [src/apps/simulated_exchange/exchange_engine_main.cpp].

    Each queue has one producer and one consumer ([FixedSPSCQueue],
    [SpscQueue.v]): whatever the consumer does, a producer sees its pushes
    accepted in order or refused.  [Producer] is a queue as its producer sees
    it: what was accepted so far, and whether the pushes to come will find
    room, which is up to the consumer.  When those answers are used up there
    is room. *)
From S2P Require Import Prelude.
From S2P Require Import TableInterface.
From S2P Require Import TradingTypes.
From S2P Require Import Protocol.
From S2P Require Import ExchangeCore.
Local Open Scope Z_scope.
Local Open Scope array_scope.

Module Ipc.

Definition kMaxGateways : Z := 8.

Inductive OrderRequestType : Set :=
  | rqNewOrder | rqCancelOrder | rqModifyOrder | rqClientConnect | rqClientDisconnect.

#[export] Instance OrderRequestType_eq_dec : EqDecision OrderRequestType.
Proof. solve_decision. Defined.

Record OrderRequest : Set := {
  rq_type : OrderRequestType;
  rq_gateway_id : Z;
  rq_session_id : Z;
  rq_request_seq : Z;
  rq_client_order_id : Z;
  rq_symbol_id : Z;
  rq_side : Z;
  rq_price : Z;
  rq_qty : Z;
  rq_new_price : Z;
  rq_new_qty : Z;
  rq_send_ts : Z;
}.

(** * A queue from its producer's side *)

Record Producer (T : Type) : Type := { room : list bool; accepted : list T }.
Arguments room {T}.
Arguments accepted {T}.

Definition try_push {T : Type} (q : Producer T) (x : T) : Producer T * bool :=
  match room q with
  | [] => ({| room := []; accepted := accepted q ++ [x] |}, true)
  | true :: rest => ({| room := rest; accepted := accepted q ++ [x] |}, true)
  | false :: rest => ({| room := rest; accepted := accepted q |}, false)
  end.
End Ipc.

Module Engine.
Import EC Ipc.

Record Engine (C : Type) : Type := {
  core_ : C;
  response_queues : list (Producer ExchangeEvent);
  session_to_gateway : list Z;
  md_queue : Producer ExchangeEvent;
}.
Arguments core_ {C}.
Arguments response_queues {C}.
Arguments session_to_gateway {C}.
Arguments md_queue {C}.

Section Engine.
Context (ndebug : bool) {OM LM SM FM RM : Type} `{Table Z Z OM} `{Table Z Z LM}.
Context `{Table Z bool SM} `{TableIter Z bool SM} `{Table Z IdEntry FM} `{TableIter Z IdEntry FM}.
Context `{Table Z ReverseIdEntry RM}.
Context (MaxSymbols MaxFills num_gateways : Z).
Abbreviation State := (Engine (ExchangeCore OM LM SM FM RM)).
Implicit Types (e : State).

Definition with_core e c : State :=
  {| core_ := c; response_queues := response_queues e; session_to_gateway := session_to_gateway e; md_queue := md_queue e |}.
Definition with_routes e r : State :=
  {| core_ := core_ e; response_queues := response_queues e; session_to_gateway := r; md_queue := md_queue e |}.

Definition push_response e (gw : Z) (event : ExchangeEvent) : option (State * bool) :=
  q ← (response_queues e).[gw];
  let '(q, ok) := try_push q event in
  queues ← storeZ (response_queues e) gw q;
  Some ({| core_ := core_ e; response_queues := queues; session_to_gateway := session_to_gateway e; md_queue := md_queue e |}, ok).

Definition push_md e (event : ExchangeEvent) : State :=
  {| core_ := core_ e; response_queues := response_queues e; session_to_gateway := session_to_gateway e;
     md_queue := (try_push (md_queue e) event).1 |}.

Definition with_seq (event : ExchangeEvent) (request_seq : Z) : ExchangeEvent :=
  {| ev_type := ev_type event; ev_session_id := ev_session_id event; ev_request_seq := request_seq;
     ev_client_order_id := ev_client_order_id event; ev_exchange_order_id := ev_exchange_order_id event;
     ev_symbol_id := ev_symbol_id event; ev_side := ev_side event; ev_price := ev_price event; ev_qty := ev_qty event;
     ev_remaining_qty := ev_remaining_qty event; ev_send_ts := ev_send_ts event; ev_reason := ev_reason event |}.

(** The loop over the drained events; a refused push is logged. *)
Fixpoint dispatch e (request_seq : Z) (events : list ExchangeEvent) : option State :=
  match events with
  | [] => Some e
  | event :: events =>
      let stamped := with_seq event request_seq in
      e ← match ev_type event with
          | kFill =>
              gw ← (session_to_gateway e).[ev_session_id event];
              '(e, _) ← push_response e gw stamped;
              Some (push_md e stamped)
          | kBBOUpdate => Some (push_md e stamped)
          | _ =>
              gw ← (session_to_gateway e).[ev_session_id event];
              '(e, _) ← push_response e gw stamped;
              Some e
          end;
      dispatch e request_seq events
  end.

Definition drain_and_dispatch e (request_seq : Z) : option State :=
  let '(c, events) := drain_events (core_ e) in
  dispatch (with_core e c) request_seq events.

Definition new_order_of (req : OrderRequest) : NewOrder :=
  {| no_client_order_id := rq_client_order_id req; no_symbol_id := rq_symbol_id req; no_side := rq_side req;
     no_price := rq_price req; no_qty := rq_qty req; no_send_ts := rq_send_ts req |}.
Definition cancel_order_of (req : OrderRequest) : CancelOrder :=
  {| co_client_order_id := rq_client_order_id req; co_symbol_id := rq_symbol_id req; co_send_ts := rq_send_ts req |}.
Definition modify_order_of (req : OrderRequest) : ModifyOrder :=
  {| mo_client_order_id := rq_client_order_id req; mo_symbol_id := rq_symbol_id req; mo_new_price := rq_new_price req;
     mo_new_qty := rq_new_qty req; mo_send_ts := rq_send_ts req |}.

Definition session_assigned (session_id request_seq client_order_id : Z) : ExchangeEvent :=
  {| ev_type := kSessionAssigned; ev_session_id := session_id; ev_request_seq := request_seq;
     ev_client_order_id := client_order_id; ev_exchange_order_id := 0; ev_symbol_id := 0; ev_side := kBid; ev_price := 0;
     ev_qty := 0; ev_remaining_qty := 0; ev_send_ts := 0; ev_reason := kUnknown |}.

Definition process_request e (req : OrderRequest) : option State :=
  if bool_decide (rq_gateway_id req >= num_gateways) then Some e
  else
    match rq_type req with
    | rqClientConnect =>
        '(c, session_id) ← on_client_connect (core_ e);
        routes ← storeZ (session_to_gateway e) session_id (rq_gateway_id req);
        let e := with_routes (with_core e c) routes in
        '(e, ok) ← push_response e (rq_gateway_id req)
                     (session_assigned session_id (rq_request_seq req) (rq_client_order_id req));
        if ok : bool then Some e
        else
          c ← on_client_disconnect ndebug (core_ e) session_id;
          routes ← storeZ (session_to_gateway e) session_id 0;
          Some (with_routes (with_core e c) routes)
    | rqClientDisconnect =>
        c ← on_client_disconnect ndebug (core_ e) (rq_session_id req);
        Some (with_core e c)
    | rqNewOrder =>
        c ← submit_order ndebug MaxSymbols MaxFills (core_ e) (rq_session_id req) (new_order_of req);
        drain_and_dispatch (with_core e c) (rq_request_seq req)
    | rqCancelOrder =>
        c ← cancel_order ndebug MaxSymbols (core_ e) (rq_session_id req) (cancel_order_of req);
        drain_and_dispatch (with_core e c) (rq_request_seq req)
    | rqModifyOrder =>
        c ← modify_order ndebug MaxSymbols MaxFills (core_ e) (rq_session_id req) (modify_order_of req);
        drain_and_dispatch (with_core e c) (rq_request_seq req)
    end.

(** One round over the request queues, with what each of them yielded. *)
Fixpoint poll e (popped : list (option OrderRequest)) : option State :=
  match popped with
  | [] => Some e
  | None :: popped => poll e popped
  | Some req :: popped => e ← process_request e req; poll e popped
  end.

(** The loop of [main]. *)
Fixpoint event_loop e (rounds : list (list (option OrderRequest))) : option State :=
  match rounds with
  | [] => Some e
  | popped :: rounds => e ← poll e (take (Z.to_nat num_gateways) popped); event_loop e rounds
  end.

(** The engine as [main] builds it, the core with its symbols registered. *)
Definition start (c : ExchangeCore OM LM SM FM RM) (answers : list (list bool)) (md : list bool) : State :=
  {| core_ := c;
     response_queues := (λ r, {| room := r; accepted := [] |}) <$> take (Z.to_nat kMaxGateways) (answers ++ replicate (Z.to_nat kMaxGateways) []);
     session_to_gateway := replicate 65536 0; md_queue := {| room := md; accepted := [] |} |}.
End Engine.
End Engine.
