(* ===== verification/Logging.v ===== *)
(** The asynchronous log of the trading client: the entries its threads push
    ([src/apps/tick_to_trade/pipeline_log_entry.hpp],
    [pipeline_log_push.hpp]), the loop that merges and writes them
    ([src/libs/sys/log/async_drain_loop.hpp], [sys_write] of
    [signal_logger.hpp]), their text ([pipeline_log_formatter.hpp]) and the
    calibration of the time stamps ([src/libs/sys/nano_clock.hpp]).

    Characters are bytes.  A push is seen from the producer ([Ipc.Producer]),
    a queue from the consumer is the entries it holds; entries that arrive
    between two rounds of the loop are the round's input.  What [write]
    answers is an input too. *)
From Stdlib Require Import Ascii String.
From stdpp Require Import sorting.
From S2P Require Import Prelude.
From S2P Require Import Latency.
From S2P Require Import ExchangeIpc.
Local Open Scope Z_scope.
Local Open Scope array_scope.
Import Ipc.

(** * Entries *)

Module Log.

Inductive LogLevel : Set := kDebug | kInfo | kWarn | kError.
Definition level_id (l : LogLevel) : Z := match l with kDebug => 0 | kInfo => 1 | kWarn => 2 | kError => 3 end.

Inductive LatencyStage : Set := kUdpRecv | kFeedParse | kQueueHop | kStrategy | kOrderSend | kTickToTrade | kKernelTickToTrade.
Definition stage_id (s : LatencyStage) : Z :=
  match s with kUdpRecv => 0 | kFeedParse => 1 | kQueueHop => 2 | kStrategy => 3 | kOrderSend => 4 | kTickToTrade => 5 | kKernelTickToTrade => 6 end.

Inductive OrderEvent : Set :=
  | kNewOrder | kOrderAck | kOrderReject | kFill | kCancelSent | kCancelAck | kCancelReject | kModifySent | kModifyAck | kModifyReject.
Definition order_event_id (e : OrderEvent) : Z :=
  match e with
  | kNewOrder => 0 | kOrderAck => 1 | kOrderReject => 2 | kFill => 3 | kCancelSent => 4
  | kCancelAck => 5 | kCancelReject => 6 | kModifySent => 7 | kModifyAck => 8 | kModifyReject => 9
  end.

Inductive ConnectionEvent : Set := kConnect | kDisconnect | kHeartbeatSent | kHeartbeatRecv | kReconnectAttempt.
Definition connection_event_id (e : ConnectionEvent) : Z :=
  match e with kConnect => 0 | kDisconnect => 1 | kHeartbeatSent => 2 | kHeartbeatRecv => 3 | kReconnectAttempt => 4 end.

(** The union and its discriminator; [msg] is the array of 112 characters. *)
Inductive Payload : Set :=
  | PLatency (stage : LatencyStage) (cycles recv_tsc : Z)
  | POrder (sub_type : OrderEvent) (side symbol_id client_order_id exchange_order_id price qty remaining_qty send_ts : Z)
  | PMarketData (seq_num symbol_id side price qty gap_size : Z)
  | PConnection (sub_type : ConnectionEvent) (attempt rtt_ns : Z)
  | PText (msg : list Z).

Definition event_type_id (p : Payload) : Z :=
  match p with PLatency _ _ _ => 0 | POrder _ _ _ _ _ _ _ _ _ => 1 | PMarketData _ _ _ _ _ _ => 2 | PConnection _ _ _ => 3 | PText _ => 4 end.

Record LogEntry : Set := {
  tsc_timestamp : Z;
  thread_id : Z;
  level : LogLevel;
  payload : Payload;
}.

Definition kThreadIdMain : Z := 0.
Definition kThreadIdMd : Z := 1.
Definition kThreadIdStrategy : Z := 2.
Definition kThreadIdLogger : Z := 3.

Abbreviation Queue := (Producer LogEntry).

(** [tsc] is the reading of [rdtsc] in the call. *)
Definition log_latency (q : Queue) (tsc tid : Z) (stage : LatencyStage) (cycles recv_tsc : Z) : Queue * bool :=
  try_push q {| tsc_timestamp := tsc; thread_id := tid; level := kInfo; payload := PLatency stage cycles recv_tsc |}.

Definition log_order (q : Queue) (tsc tid : Z) (l : LogLevel) (sub_type : OrderEvent)
    (symbol_id side price qty client_order_id exchange_order_id remaining_qty : Z) : Queue * bool :=
  try_push q {| tsc_timestamp := tsc; thread_id := tid; level := l;
                payload := POrder sub_type side symbol_id client_order_id exchange_order_id price qty remaining_qty 0 |}.

Definition log_market_data (q : Queue) (tsc tid : Z) (l : LogLevel) (seq_num symbol_id side price qty gap_size : Z) : Queue * bool :=
  try_push q {| tsc_timestamp := tsc; thread_id := tid; level := l; payload := PMarketData seq_num symbol_id side price qty gap_size |}.

Definition log_connection (q : Queue) (tsc tid : Z) (l : LogLevel) (sub_type : ConnectionEvent) (attempt rtt_ns : Z) : Queue * bool :=
  try_push q {| tsc_timestamp := tsc; thread_id := tid; level := l; payload := PConnection sub_type attempt rtt_ns |}.

(** The loop that copies at most 111 characters of a C string, whose last
    byte is zero; reading past it is outside the string. *)
Fixpoint copy_text (fuel : nat) (str : list Z) (i : Z) (msg : list Z) : option (Z * list Z) :=
  match fuel with
  | O => Some (i, msg)
  | S fuel =>
      c ← str.[i];
      if bool_decide (c = 0) then Some (i, msg)
      else msg ← storeZ msg i c; copy_text fuel str (i + 1) msg
  end.

Definition log_text (q : Queue) (tsc tid : Z) (l : LogLevel) (str : list Z) : option (Queue * bool) :=
  '(i, msg) ← copy_text 111 str 0 (replicate 112 0);
  msg ← storeZ msg i 0;
  Some (try_push q {| tsc_timestamp := tsc; thread_id := tid; level := l; payload := PText msg |}).
End Log.

(** * Calibration of the time stamp counter *)

Module Tsc.
Record TscCalibration : Set := { freq_hz : Z; overhead_cycles : Z }.

Record Sample : Set := { wall_start : Z; tsc_start : Z; tsc_end : Z; wall_end : Z }.

Definition sample_freq (s : Sample) : option Z :=
  elapsed ← check_s64 (wall_end s - wall_start s);
  let elapsed_ns := u64 elapsed in
  let elapsed_tsc := u64 (tsc_end s - tsc_start s) in
  if bool_decide (elapsed_ns = 0) then None else Some (u64 (elapsed_tsc * 1000000000) / elapsed_ns).

Fixpoint best_freq (best : Z) (samples : list Sample) : option Z :=
  match samples with [] => Some best | s :: samples => f ← sample_freq s; best_freq (Z.max best f) samples end.

(** [measure_overhead], from the pairs of readings. *)
Definition measure_overhead (pairs : list (Z * Z)) : Z := fold_left (λ best p, Z.min best (u64 (p.2 - p.1))) pairs (2 ^ 64 - 1).

Definition calibrate (samples : list Sample) (pairs : list (Z * Z)) : option TscCalibration :=
  f ← best_freq 0 samples; Some {| freq_hz := f; overhead_cycles := measure_overhead pairs |}.

Definition to_ns (c : TscCalibration) (cycles : Z) : double :=
  double_div (double_mul (double_of cycles) (double_of 1000000000)) (double_of (freq_hz c)).

(** [static_cast<std::uint64_t>(to_ns(cycles))]. *)
Definition ns (c : TscCalibration) (cycles : Z) : option Z := u64_of_double (to_ns c cycles).
End Tsc.

(** * The text of an entry *)

Module Fmt.
Import Log.

Definition chars (s : string) : list Z := (λ c, Z.of_N (N_of_ascii c)) <$> list_ascii_of_string s.
Definition kQuote : Z := 34.
Definition kSpace : Z := 32.
Definition kNewline : Z := 10.

Definition kThreadNames : list (list Z) := chars <$> ["MAIN "; "MD   "; "STRAT"; "LOG  "]%string.
Definition kLevelNames : list (list Z) := chars <$> ["DEBUG"; "INFO "; "WARN "; "ERROR"]%string.
Definition kEventTypeNames : list (list Z) := chars <$> ["LATENCY"; "ORDER  "; "MKTDATA"; "CONN   "; "TEXT   "]%string.
Definition kLatencyStageNames : list (list Z) := chars <$> ["UdpRecv"; "FeedParse"; "QueueHop"; "Strategy"; "OrderSend"; "T2T"; "KernelT2T"]%string.
Definition kOrderEventNames : list (list Z) :=
  chars <$> ["NewOrder"; "OrderAck"; "OrderReject"; "Fill"; "CancelSent"; "CancelAck"; "CancelReject"; "ModifySent"; "ModifyAck"; "ModifyReject"]%string.
Definition kConnectionEventNames : list (list Z) := chars <$> ["Connect"; "Disconnect"; "HbSent"; "HbRecv"; "Reconnect"]%string.
Definition kSideNames : list (list Z) := chars <$> ["Bid"; "Ask"]%string.

(** The decimal digits [std::to_chars] writes. *)
Fixpoint digits (fuel : nat) (n : Z) : list Z :=
  match fuel with
  | O => []
  | S fuel => if bool_decide (n < 10) then [48 + n] else digits fuel (n / 10) ++ [48 + n mod 10]
  end.
Definition decimal (n : Z) : list Z := if bool_decide (n < 0) then 45 :: digits 20 (- n) else digits 20 n.

(** A buffer and the position in it; [None] is a write outside the buffer. *)
Definition Out : Set := (list Z * Z).

Fixpoint put_all (buf : list Z) (pos : Z) (cs : list Z) : option (list Z) :=
  match cs with [] => Some buf | c :: cs => buf ← storeZ buf pos c; put_all buf (pos + 1) cs end.

(** [data[pos++] = c]. *)
Definition put_char (o : Out) (c : Z) : option Out :=
  buf ← storeZ o.1 o.2 c; Some (buf, u64 (o.2 + 1)).

Definition append_str (cap : Z) (o : Out) (sv : list Z) : option Out :=
  let max_len := u64 (cap - 1 - o.2) in
  let len := Z.min (lenZ sv) max_len in
  buf ← put_all o.1 o.2 (take (Z.to_nat len) sv);
  Some (buf, u64 (o.2 + len)).

(** [std::to_chars] leaves the range unspecified when the digits do not fit
    ([None]). *)
Definition append_int (cap : Z) (o : Out) (val : Z) : option Out :=
  if bool_decide (o.2 >= cap - 1) then Some o
  else
    let ds := decimal val in
    if bool_decide (lenZ ds <= cap - 1 - o.2) then buf ← put_all o.1 o.2 ds; Some (buf, o.2 + lenZ ds) else None.

(** The string view of the first [strnlen(msg, 111)] characters. *)
Fixpoint until_nul (msg : list Z) : list Z :=
  match msg with [] => [] | c :: msg => if bool_decide (c = 0) then [] else c :: until_nul msg end.

Definition side_name (side : Z) : option (list Z) := if bool_decide (side < 2) then kSideNames.[side] else Some (chars "?").

Definition fields (cal : Tsc.TscCalibration) (cap : Z) (o : Out) (p : Payload) : option Out :=
  match p with
  | PLatency stage cycles _ =>
      o ← append_str cap o (chars "stage=");
      name ← kLatencyStageNames.[stage_id stage];
      o ← append_str cap o name;
      o ← append_str cap o (chars " cycles=");
      o ← append_int cap o cycles;
      o ← append_str cap o (chars " ns=");
      lat_ns ← Tsc.ns cal cycles;
      append_int cap o lat_ns
  | POrder sub_type side symbol_id client_order_id exchange_order_id price qty remaining_qty _ =>
      o ← append_str cap o (chars "event=");
      name ← kOrderEventNames.[order_event_id sub_type];
      o ← append_str cap o name;
      o ← append_str cap o (chars " sym=");
      o ← append_int cap o symbol_id;
      o ← append_str cap o (chars " side=");
      name ← side_name side;
      o ← append_str cap o name;
      o ← append_str cap o (chars " price=");
      o ← append_int cap o price;
      o ← append_str cap o (chars " qty=");
      o ← append_int cap o qty;
      o ← append_str cap o (chars " oid=");
      o ← append_int cap o client_order_id;
      o ← (if bool_decide (exchange_order_id ≠ 0) then o ← append_str cap o (chars " xoid="); append_int cap o exchange_order_id else Some o);
      (if bool_decide (remaining_qty ≠ 0) then o ← append_str cap o (chars " rem="); append_int cap o remaining_qty else Some o)
  | PMarketData seq_num symbol_id side price qty gap_size =>
      o ← append_str cap o (chars "seq=");
      o ← append_int cap o seq_num;
      o ← append_str cap o (chars " sym=");
      o ← append_int cap o symbol_id;
      o ← append_str cap o (chars " side=");
      name ← side_name side;
      o ← append_str cap o name;
      o ← append_str cap o (chars " price=");
      o ← append_int cap o price;
      o ← append_str cap o (chars " qty=");
      o ← append_int cap o qty;
      (if bool_decide (gap_size > 0) then o ← append_str cap o (chars " gap="); append_int cap o gap_size else Some o)
  | PConnection sub_type attempt rtt_ns =>
      o ← append_str cap o (chars "event=");
      name ← kConnectionEventNames.[connection_event_id sub_type];
      o ← append_str cap o name;
      o ← (if bool_decide (attempt > 0) then o ← append_str cap o (chars " attempt="); append_int cap o attempt else Some o);
      (if bool_decide (rtt_ns > 0) then o ← append_str cap o (chars " rtt_ns="); append_int cap o rtt_ns else Some o)
  | PText msg =>
      o ← append_str cap o (chars "msg=" ++ [kQuote]);
      o ← append_str cap o (until_nul (take 111 msg));
      if bool_decide (o.2 < cap - 1) then put_char o kQuote else Some o
  end.

(** [PipelineLogFormatter::operator()]: the buffer and the length. *)
Definition format (cal : Tsc.TscCalibration) (buf : list Z) (e : LogEntry) : option Out :=
  let cap := lenZ buf in
  ns ← Tsc.ns cal (tsc_timestamp e);
  o ← append_int cap (buf, 0) ns;
  o ← put_char o kSpace;
  name ← kThreadNames.[Z.min (thread_id e) 3];
  o ← append_str cap o name;
  o ← put_char o kSpace;
  name ← kLevelNames.[level_id (level e)];
  o ← append_str cap o name;
  o ← put_char o kSpace;
  name ← kEventTypeNames.[event_type_id (payload e)];
  o ← append_str cap o name;
  o ← put_char o kSpace;
  o ← put_char o kSpace;
  o ← fields cal cap o (payload e);
  if bool_decide (o.2 < cap - 1) then put_char o kNewline else Some o.
End Fmt.

(** * The drain loop *)

Module Drain.
Section Drain.
Context {E : Type} (tsc : E → Z).

Definition kMaxQueues : Z := 4.
Definition kDrainBatch : Z := 128.
Definition UINT64_MAX : Z := 2 ^ 64 - 1.

(** [queues_] and [num_queues_]: the registered queues, by the entries they
    hold. *)
Definition register_queue (queues : list (list E)) (q : option (list E)) : list (list E) * bool :=
  match q with
  | Some q => if bool_decide (lenZ queues >= kMaxQueues) then (queues, false) else (queues ++ [q], true)
  | None => (queues, false)
  end.

(** [drain(batches[q], kDrainBatch)]: what is taken, and what stays. *)
Definition drain (q : list E) : list E * list E := (take (Z.to_nat kDrainBatch) q, drop (Z.to_nat kDrainBatch) q).

(** One pass over the queues: [best] and [best_tsc]. *)
Fixpoint pick (batches : list (list E)) (indices : list Z) (q best best_tsc : Z) : option (Z * Z) :=
  match batches with
  | [] => Some (best, best_tsc)
  | batch :: batches =>
      i ← indices.[q];
      if bool_decide (i < lenZ batch) then
        e ← batch.[i];
        if bool_decide (tsc e < best_tsc) then pick batches indices (q + 1) q (tsc e) else pick batches indices (q + 1) best best_tsc
      else pick batches indices (q + 1) best best_tsc
  end.

(** [while (written < total)]: the entries in the order in which they are
    formatted. *)
Fixpoint merge (n : nat) (batches : list (list E)) (indices : list Z) : option (list E) :=
  match n with
  | O => Some []
  | S n =>
      '(best, _) ← pick batches indices 0 kMaxQueues UINT64_MAX;
      batch ← batches.[best];
      i ← indices.[best];
      e ← batch.[i];
      indices ← storeZ indices best (i + 1);
      rest ← merge n batches indices;
      Some (e :: rest)
  end.

(** [drain_all]: what the queues keep, and the entries handed to the
    formatter. *)
Definition drain_all (queues : list (list E)) : option (list (list E) * list E) :=
  let batches := (λ q, (drain q).1) <$> queues in
  let total := length (concat batches) in
  if bool_decide (total = 0%nat) then Some (queues, [])
  else
    out ← merge total batches (replicate (Z.to_nat kMaxQueues) 0);
    Some ((λ q, (drain q).2) <$> queues, out).
End Drain.

(** * Writing *)

(** What [write] answers: how many of the bytes it took (all of them when
    the answers are used up), interrupted, or failed. *)
Inductive WriteAnswer : Set := Took (n : Z) | Interrupted | Failed.

Record File : Set := { content : list Z; answers : list WriteAnswer }.

(** The loop of [sys_write]; [fuel] bounds its iterations. *)
Fixpoint sys_write (fuel : nat) (f : File) (data : list Z) : option File :=
  if bool_decide (data = []) then Some f
  else
    match fuel with
    | O => None
    | S fuel =>
        match answers f with
        | [] => Some {| content := content f ++ data; answers := [] |}
        | Took n :: rest =>
            let n := Z.to_nat (Z.max 0 (Z.min n (lenZ data))) in
            sys_write fuel {| content := content f ++ take n data; answers := rest |} (drop n data)
        | Interrupted :: rest => sys_write fuel {| content := content f; answers := rest |} data
        | Failed :: rest => Some {| content := content f; answers := rest |}
        end
    end.

(** The line of one entry, formatted into the buffer of 512 characters that
    the earlier lines of the round were formatted into. *)
Definition kLineSize : Z := 512.
Definition write_line (cal : Tsc.TscCalibration) (f : File) (line_buf : list Z) (e : Log.LogEntry) : option (File * list Z) :=
  '(buf, len) ← Fmt.format cal line_buf e;
  let len := if bool_decide (len > lenZ buf) then lenZ buf else len in
  f ← sys_write (S (length (answers f))) f (take (Z.to_nat len) buf);
  Some (f, buf).

Fixpoint write_lines (cal : Tsc.TscCalibration) (f : File) (line_buf : list Z) (es : list Log.LogEntry) : option File :=
  match es with
  | [] => Some f
  | e :: es => '(f, line_buf) ← write_line cal f line_buf e; write_lines cal f line_buf es
  end.

(** * The thread *)

Record Loop : Set := { queues_ : list (list Log.LogEntry); file_ : File; entries_written_ : Z }.

(** A round: [arrivals] are the entries the producers have pushed since the
    last one. *)
Definition round (cal : Tsc.TscCalibration) (l : Loop) (arrivals : list (list Log.LogEntry)) : option Loop :=
  '(queues, out) ← drain_all Log.tsc_timestamp (zip_with app (queues_ l) arrivals);
  f ← write_lines cal (file_ l) (replicate (Z.to_nat kLineSize) 0) out;
  Some {| queues_ := queues; file_ := f; entries_written_ := u64 (entries_written_ l + lenZ out) |}.

(** [run]: rounds until the stop flag is seen, and one more. *)
Fixpoint run (cal : Tsc.TscCalibration) (l : Loop) (rounds : list (list (list Log.LogEntry))) (last_arrivals : list (list Log.LogEntry)) : option Loop :=
  match rounds with
  | [] => round cal l last_arrivals
  | arrivals :: rounds => l ← round cal l arrivals; run cal l rounds last_arrivals
  end.
End Drain.

(** * Numbers in decimal *)

Section Decimal.
Import Fmt.

(** Reading the digits back. *)
Definition read_digits (ds : list Z) : Z := fold_left (λ n d, n * 10 + (d - 48)) ds 0.
Definition read_decimal (ds : list Z) : Z := match ds with 45 :: ds => - read_digits ds | _ => read_digits ds end.

Lemma read_digits_snoc ds d : read_digits (ds ++ [d]) = read_digits ds * 10 + (d - 48).
Proof. unfold read_digits. by rewrite fold_left_app. Qed.

Lemma digits_spec fuel : ∀ n, (0 < fuel)%nat → 0 <= n < 10 ^ Z.of_nat fuel →
  read_digits (digits fuel n) = n ∧ Forall (λ d, 48 <= d <= 57) (digits fuel n) ∧ (0 < length (digits fuel n) <= fuel)%nat.
Proof.
  induction fuel as [| fuel IH]; intros n Hf Hn; [lia |]. cbn [digits]. case_bool_decide as Hs.
  - split; [unfold read_digits; cbn; lia |]. split; [| cbn; lia]. constructor; [lia | constructor].
  - rewrite Nat2Z.inj_succ, Z.pow_succ_r in Hn by lia.
    destruct fuel as [| fuel]; [cbn in Hn; lia |].
    destruct (IH (n / 10)) as (H1 & H2 & H3); [lia | split; [apply Z.div_pos; lia | apply Z.div_lt_upper_bound; lia] |].
    rewrite read_digits_snoc, H1, length_app. cbn [length]. pose proof (Z.mod_pos_bound n 10). pose proof (Z.div_mod n 10).
    split; [lia |]. split; [| lia]. apply Forall_app. split; [done |]. constructor; [lia | constructor].
Qed.

Lemma digits_short n : 0 <= n < 10 ^ 19 → (length (digits 20 n) <= 19)%nat.
Proof.
  intros Hn. assert (∀ fuel k n, (0 < k)%nat → 0 <= n < 10 ^ Z.of_nat k → (length (digits fuel n) <= k)%nat) as H.
  { clear. induction fuel as [| fuel IH]; intros k n Hk Hn; cbn [digits]; [cbn; lia |]. case_bool_decide; [cbn; lia |].
    destruct k as [| [| k]]; [lia | cbn in Hn; lia |]. rewrite length_app. cbn [length].
    assert (length (digits fuel (n / 10)) <= S k)%nat; [| lia]. apply IH; [lia |].
    rewrite (Nat2Z.inj_succ (S k)), Z.pow_succ_r in Hn by lia. split; [apply Z.div_pos; lia | apply Z.div_lt_upper_bound; lia]. }
  apply H; [lia | done].
Qed.

Lemma decimal_spec v : - 2 ^ 63 <= v < 2 ^ 64 → read_decimal (decimal v) = v ∧ lenZ (decimal v) <= 20.
Proof.
  intros Hv. unfold decimal. case_bool_decide.
  - destruct (digits_spec 20 (- v)) as (H1 & _ & _); [lia | lia |]. pose proof (digits_short (- v) ltac:(lia)). cbn [read_decimal length]. rewrite H1. split; lia.
  - destruct (digits_spec 20 v) as (H1 & H2 & H3); [lia | lia |]. split; [| lia].
    destruct (digits 20 v) as [| d ds]; [cbn in H3; lia |]. apply Forall_cons_1 in H2 as [Hd _]. unfold read_decimal.
    rewrite H1. clear H1. destruct d as [| p | p]; try done. do 6 (try (destruct p as [p | p |]; try done)); lia.
Qed.
End Decimal.

(** * The formatter writes the line it should *)

Section Format.
Import Log Fmt.
Implicit Types (o : Out) (t : list Z).

(** The text so far is at the front of a buffer of 512 characters. *)
Record holds_text o t : Prop := {
  ht_size : lenZ o.1 = 512;
  ht_pos : o.2 = lenZ t;
  ht_text : take (length t) o.1 = t;
}.

Lemma put_all_spec cs : ∀ buf t, take (length t) buf = t → lenZ t + lenZ cs <= lenZ buf →
  ∃ buf', put_all buf (lenZ t) cs = Some buf' ∧ length buf' = length buf ∧ take (length (t ++ cs)) buf' = t ++ cs.
Proof.
  induction cs as [| c cs IH]; intros buf t Ht Hl.
  - exists buf. rewrite app_nil_r. done.
  - cbn [put_all]. cbn [length] in Hl. unfold storeZ. rewrite bool_decide_true by lia. cbn [mbind option_bind].
    destruct (IH (buf.[lenZ t <- c]) (t ++ [c])) as (buf' & H1 & H2 & H3).
    + unfold setZ. rewrite Nat2Z.id, length_app. cbn [length]. rewrite Nat.add_1_r.
      assert (length t < length buf)%nat as Hlt by lia.
      erewrite take_S_r by (by apply list_lookup_insert_eq). rewrite take_insert_ge by lia. by rewrite Ht.
    + unfold setZ. rewrite length_app, length_insert. cbn [length]. lia.
    + exists buf'. rewrite length_app in H1. cbn [length] in H1. replace (lenZ t + 1) with (Z.of_nat (length t + 1)) by lia. split; [done |].
      unfold setZ in H2. rewrite length_insert in H2. split; [done |]. by rewrite <- app_assoc in H3.
Qed.

Lemma step_char {A : Type} o t c (k : Out → option A) (P : A → Prop) :
  holds_text o t → lenZ t <= 511 → (∀ o', holds_text o' (t ++ [c]) → ∃ r, k o' = Some r ∧ P r) →
  ∃ r, (o ← put_char o c; k o) = Some r ∧ P r.
Proof.
  intros [Hs Hp Ht] Hl Hk. unfold put_char. destruct (put_all_spec [c] o.1 t Ht) as (buf & H1 & H2 & H3); [cbn; lia |].
  rewrite Hp. cbn [put_all] in H1. destruct (storeZ o.1 (lenZ t) c) as [b |]; [| done]. injection H1 as ->. cbn [mbind option_bind].
  apply Hk. split; cbn [fst snd]; [lia | rewrite length_app, u64_id by (unfold is_u64; lia); cbn; lia | done].
Qed.

Lemma step_str {A : Type} o t sv (k : Out → option A) (P : A → Prop) :
  holds_text o t → lenZ t + lenZ sv <= 511 → (∀ o', holds_text o' (t ++ sv) → ∃ r, k o' = Some r ∧ P r) →
  ∃ r, (o ← append_str 512 o sv; k o) = Some r ∧ P r.
Proof.
  intros [Hs Hp Ht] Hl Hk. unfold append_str. rewrite Hp. rewrite (u64_id (512 - 1 - lenZ t)) by (unfold is_u64; lia). rewrite Z.min_l by lia. rewrite Nat2Z.id, take_ge by lia.
  destruct (put_all_spec sv o.1 t Ht) as (buf & H1 & H2 & H3); [lia |]. rewrite H1. cbn [mbind option_bind].
  apply Hk. split; cbn [fst snd]; [lia | rewrite length_app, u64_id by (unfold is_u64; lia); lia | done].
Qed.

Lemma step_int {A : Type} o t v (k : Out → option A) (P : A → Prop) :
  holds_text o t → lenZ t + lenZ (decimal v) <= 511 → lenZ t < 511 → (∀ o', holds_text o' (t ++ decimal v) → ∃ r, k o' = Some r ∧ P r) →
  ∃ r, (o ← append_int 512 o v; k o) = Some r ∧ P r.
Proof.
  intros [Hs Hp Ht] Hl Hl' Hk. unfold append_int. rewrite Hp. rewrite bool_decide_false by lia. rewrite bool_decide_true by lia.
  destruct (put_all_spec (decimal v) o.1 t Ht) as (buf & H1 & H2 & H3); [lia |]. rewrite H1. cbn [mbind option_bind].
  apply Hk. split; cbn [fst snd]; [lia | rewrite length_app; lia | done].
Qed.

(** A table that has the name gives it. *)
Lemma step_name {A : Type} (table : list (list Z)) i name (k : list Z → option A) (P : A → Prop) :
  table.[i] = Some name → (∃ r, k name = Some r ∧ P r) → ∃ r, (x ← table.[i]; k x) = Some r ∧ P r.
Proof. by intros -> H. Qed.

(** * The text of an entry *)

Definition name_of (table : list (list Z)) (i : Z) : list Z := default [] (table.[i]).
Definition side_text (side : Z) : list Z := if bool_decide (side < 2) then name_of kSideNames side else chars "?".
Definition optional (b : bool) (cs : list Z) : list Z := if b then cs else [].

Definition payload_text (ns : Z) (p : Payload) : list Z :=
  match p with
  | PLatency stage cycles _ =>
      chars "stage=" ++ name_of kLatencyStageNames (stage_id stage) ++ chars " cycles=" ++ decimal cycles ++ chars " ns=" ++ decimal ns
  | POrder e side sym oid xoid price qty rem _ =>
      chars "event=" ++ name_of kOrderEventNames (order_event_id e) ++ chars " sym=" ++ decimal sym ++ chars " side=" ++ side_text side ++
      chars " price=" ++ decimal price ++ chars " qty=" ++ decimal qty ++ chars " oid=" ++ decimal oid ++
      optional (bool_decide (xoid ≠ 0)) (chars " xoid=" ++ decimal xoid) ++ optional (bool_decide (rem ≠ 0)) (chars " rem=" ++ decimal rem)
  | PMarketData seq sym side price qty gap =>
      chars "seq=" ++ decimal seq ++ chars " sym=" ++ decimal sym ++ chars " side=" ++ side_text side ++
      chars " price=" ++ decimal price ++ chars " qty=" ++ decimal qty ++ optional (bool_decide (gap > 0)) (chars " gap=" ++ decimal gap)
  | PConnection e attempt rtt =>
      chars "event=" ++ name_of kConnectionEventNames (connection_event_id e) ++
      optional (bool_decide (attempt > 0)) (chars " attempt=" ++ decimal attempt) ++ optional (bool_decide (rtt > 0)) (chars " rtt_ns=" ++ decimal rtt)
  | PText msg => chars "msg=" ++ [kQuote] ++ until_nul (take 111 msg) ++ [kQuote]
  end.

(** [ns] is the time of the entry, [lat] of its cycles. *)
Definition line (ns lat : Z) (e : LogEntry) : list Z :=
  decimal ns ++ chars " " ++ name_of kThreadNames (Z.min (thread_id e) 3) ++ chars " " ++ name_of kLevelNames (level_id (level e)) ++ chars " " ++
  name_of kEventTypeNames (event_type_id (payload e)) ++ chars "  " ++ payload_text lat (payload e) ++ [kNewline].

(** The fields at their widths. *)
Definition payload_ok (p : Payload) : Prop :=
  match p with
  | PLatency _ cycles recv => is_u64 cycles ∧ is_u64 recv
  | POrder _ side sym oid xoid price qty rem ts => is_u8 side ∧ is_u32 sym ∧ is_u64 oid ∧ is_u64 xoid ∧ is_s64 price ∧ is_u32 qty ∧ is_u32 rem ∧ is_s64 ts
  | PMarketData seq sym side price qty gap => is_u64 seq ∧ is_u32 sym ∧ is_u8 side ∧ is_s64 price ∧ is_u32 qty ∧ is_u32 gap
  | PConnection _ attempt rtt => is_u32 attempt ∧ is_s64 rtt
  | PText msg => lenZ msg = 112
  end.
Definition cycles_of (p : Payload) : Z := match p with PLatency _ cycles _ => cycles | _ => 0 end.

Lemma decimal_length v : - 2 ^ 63 <= v < 2 ^ 64 → lenZ (decimal v) <= 20.
Proof. intros H. by apply decimal_spec. Qed.

Lemma until_nul_length msg : (length (until_nul msg) <= length msg)%nat.
Proof. induction msg as [| c msg IH]; [done |]. cbn [until_nul]. case_bool_decide; cbn; lia. Qed.
End Format.

(** Lengths of texts. *)
Ltac text_length :=
  rewrite ?length_app in *;
  repeat match goal with
  | |- context [length (Fmt.chars ?s)] => let n := eval vm_compute in (length (Fmt.chars s)) in change (length (Fmt.chars s)) with n
  | H : context [length (Fmt.chars ?s)] |- _ => let n := eval vm_compute in (length (Fmt.chars s)) in change (length (Fmt.chars s)) with n in H
  end;
  cbn [length] in *; lia.

Section FormatSpec.
Import Log Fmt.
Implicit Types (o : Out) (t : list Z).

Lemma last_int o t v : holds_text o t → lenZ t + lenZ (decimal v) <= 511 → lenZ t < 511 → ∃ r, append_int 512 o v = Some r ∧ holds_text r (t ++ decimal v).
Proof.
  intros H1 H2 H3. destruct (step_int o t v Some (λ r, holds_text r (t ++ decimal v)) H1 H2 H3) as (r & Hr & HP); [intros o' Ho'; by exists o' |].
  exists r. split; [| done]. by destruct (append_int 512 o v).
Qed.

Lemma name_ok (table : list (list Z)) i n :
  (∀ name, name ∈ table → (length name <= n)%nat) → 0 <= i < lenZ table → table.[i] = Some (name_of table i) ∧ (length (name_of table i) <= n)%nat.
Proof.
  intros Hn Hi. unfold name_of. destruct (getZ_is_Some table i Hi) as [name E]. rewrite E. split; [done |]. cbn [default].
  apply Hn. apply getZ_to_lookup in E. by eapply list_elem_of_lookup_2.
Qed.

Lemma short_names (table : list (list Z)) n : forallb (λ name, (length name <=? n)%nat) table = true → ∀ name, name ∈ table → (length name <= n)%nat.
Proof. rewrite forallb_forall. intros H name Hn. apply list_elem_of_In in Hn. by apply Nat.leb_le, H. Qed.

Lemma side_name_ok side : is_u8 side → side_name side = Some (side_text side) ∧ (length (side_text side) <= 3)%nat.
Proof.
  intros Hs. unfold side_name, side_text. case_bool_decide; [| split; [done | cbn; lia]].
  apply (name_ok kSideNames side 3); [by apply short_names; vm_compute | cbn; unfold is_u8 in Hs; lia].
Qed.

Lemma ns_range cal c n : Tsc.ns cal c = Some n → is_u64 n.
Proof.
  unfold Tsc.ns, u64_of_double. destruct (Tsc.to_ns cal c) as [s | | | s m e]; [by intros [= <-] | done | done |].
  case_bool_decide; [by intros [= <-] |]. destruct s; [done |]. case_bool_decide; [| done]. intros [= <-]. split; [by apply Z.shiftl_nonneg | done].
Qed.

(** The next append, and the last. *)
Ltac next :=
  match goal with
  | H : holds_text _ _ |- _ =>
      first [eapply step_str; [exact H | text_length |] | eapply step_int; [exact H | text_length | text_length |] | eapply step_char; [exact H | text_length |]];
      clear H; let o' := fresh "o" in let H' := fresh "H" in intros o' H'; cbv beta
  end.
Lemma same_text (x : option Out) t t' : (∃ r, x = Some r ∧ holds_text r t) → t = t' → ∃ r, x = Some r ∧ holds_text r t'.
Proof. by intros H <-. Qed.
Ltac finish lem :=
  match goal with
  | H : holds_text _ _ |- _ => eapply same_text; [eapply lem; [exact H | text_length ..] | by rewrite <- ?app_assoc]
  end.

Lemma optional_length b cs : (length (optional b cs) <= length cs)%nat.
Proof. destruct b; cbn; lia. Qed.

Lemma optional_int o t (b : bool) cs v :
  holds_text o t → (length t + length cs + length (decimal v) <= 490)%nat →
  ∃ r, (if b then o ← append_str 512 o cs; append_int 512 o v else Some o) = Some r ∧ holds_text r (t ++ optional b (cs ++ decimal v)).
Proof.
  intros H Hl. destruct b; cbn [optional].
  - eapply step_str; [exact H | lia |]. intros o' H'. rewrite app_assoc. apply last_int; [done | rewrite length_app; lia | rewrite length_app; lia].
  - exists o. by rewrite app_nil_r.
Qed.

Lemma with_length (x : option Out) t cs : (∃ r, x = Some r ∧ holds_text r (t ++ cs)) → lenZ cs <= 400 → ∃ r, x = Some r ∧ holds_text r (t ++ cs) ∧ lenZ cs <= 400.
Proof. intros (r & ? & ?) ?. by exists r. Qed.

Lemma fields_spec cal o t p lat :
  holds_text o t → lenZ t <= 45 → payload_ok p → Tsc.ns cal (cycles_of p) = Some lat →
  ∃ r, fields cal 512 o p = Some r ∧ holds_text r (t ++ payload_text lat p) ∧ lenZ (payload_text lat p) <= 400.
Proof.
  intros H Ht Hp Hns. pose proof (ns_range _ _ _ Hns) as Hlat. destruct p as [stage cycles recv | ev side sym oid xoid price qty rem ts | seq sym side price qty gap | ev attempt rtt | msg];
    cbn [payload_ok cycles_of] in Hp, Hns; unfold is_u64, is_s64, is_u32 in *; cbn [fields payload_text].
  - pose proof (decimal_length cycles ltac:(lia)). pose proof (decimal_length lat ltac:(lia)).
    destruct (name_ok kLatencyStageNames (stage_id stage) 9) as [E1 E2]; [by apply short_names; vm_compute | by destruct stage |].
    apply with_length; [| text_length]. next. rewrite E1. cbn [mbind option_bind]. do 4 next. rewrite Hns. cbn [mbind option_bind]. finish last_int.
  - destruct Hp as (? & ? & ? & ? & ? & ? & ? & ?). pose proof (decimal_length sym ltac:(lia)). pose proof (decimal_length price ltac:(lia)).
    pose proof (decimal_length qty ltac:(lia)). pose proof (decimal_length oid ltac:(lia)). pose proof (decimal_length xoid ltac:(lia)). pose proof (decimal_length rem ltac:(lia)).
    destruct (name_ok kOrderEventNames (order_event_id ev) 12) as [E1 E2]; [by apply short_names; vm_compute | by destruct ev |].
    destruct (side_name_ok side) as [E3 E4]; [done |].
    apply with_length; [| destruct (bool_decide (xoid ≠ 0)), (bool_decide (rem ≠ 0)); cbn [optional]; text_length].
    next. rewrite E1. cbn [mbind option_bind]. do 4 next. rewrite E3. cbn [mbind option_bind]. do 7 next.
    match goal with H : holds_text _ _ |- _ => destruct (optional_int _ _ (bool_decide (xoid ≠ 0)) (chars " xoid=") xoid H) as (o' & -> & H'); [text_length |]; clear H end.
    pose proof (optional_length (bool_decide (xoid ≠ 0)) (chars " xoid=" ++ decimal xoid)). cbn [mbind option_bind]. finish optional_int.
  - destruct Hp as (? & ? & ? & ? & ? & ?). pose proof (decimal_length seq ltac:(lia)). pose proof (decimal_length sym ltac:(lia)). pose proof (decimal_length price ltac:(lia)).
    pose proof (decimal_length qty ltac:(lia)). pose proof (decimal_length gap ltac:(lia)). destruct (side_name_ok side) as [E3 E4]; [done |].
    apply with_length; [| destruct (bool_decide (gap > 0)); cbn [optional]; text_length].
    do 5 next. rewrite E3. cbn [mbind option_bind]. do 5 next. finish optional_int.
  - destruct Hp as [? ?]. pose proof (decimal_length attempt ltac:(lia)). pose proof (decimal_length rtt ltac:(lia)).
    destruct (name_ok kConnectionEventNames (connection_event_id ev) 10) as [E1 E2]; [by apply short_names; vm_compute | by destruct ev |].
    apply with_length; [| destruct (bool_decide (attempt > 0)), (bool_decide (rtt > 0)); cbn [optional]; text_length].
    next. rewrite E1. cbn [mbind option_bind]. next.
    match goal with H : holds_text _ _ |- _ => destruct (optional_int _ _ (bool_decide (attempt > 0)) (chars " attempt=") attempt H) as (o' & -> & H'); [text_length |]; clear H end.
    pose proof (optional_length (bool_decide (attempt > 0)) (chars " attempt=" ++ decimal attempt)). cbn [mbind option_bind]. finish optional_int.
  - pose proof (until_nul_length (take 111 msg)) as Hu. rewrite length_take in Hu.
    apply with_length; [| text_length]. next. next.
    match goal with H : holds_text _ _ |- _ => rewrite (ht_pos _ _ H) end. rewrite bool_decide_true by text_length.
    match goal with H : holds_text _ _ |- _ => destruct (step_char _ _ kQuote Some (λ r, holds_text r (t ++ chars "msg=" ++ [kQuote] ++ until_nul (take 111 msg) ++ [kQuote])) H) as (r & Hr & HP) end;
      [text_length | intros o' H'; exists o'; split; [done |]; by rewrite <- !app_assoc in H' |].
    exists r. split; [| done]. by destruct (put_char _ _).
Qed.

(** The line of an entry whose time can be converted is the text documented,
    ends in a newline and fits the buffer. *)
Lemma format_spec cal buf e ns lat :
  lenZ buf = 512 → is_u16 (thread_id e) → payload_ok (payload e) → Tsc.ns cal (tsc_timestamp e) = Some ns → Tsc.ns cal (cycles_of (payload e)) = Some lat →
  ∃ r, format cal buf e = Some r ∧ holds_text r (line ns lat e) ∧ lenZ (line ns lat e) <= 511.
Proof.
  intros Hbuf Htid Hp Hns Hlat. pose proof (ns_range _ _ _ Hns). unfold is_u64, is_u16 in *. pose proof (decimal_length ns ltac:(lia)).
  unfold format. rewrite Hns. cbn [mbind option_bind]. rewrite Hbuf.
  destruct (name_ok kThreadNames (Z.min (thread_id e) 3) 5) as [E1 L1]; [by apply short_names; vm_compute | change (lenZ kThreadNames) with 4; lia |].
  destruct (name_ok kLevelNames (level_id (level e)) 5) as [E2 L2]; [by apply short_names; vm_compute | by destruct (level e) |].
  destruct (name_ok kEventTypeNames (event_type_id (payload e)) 7) as [E3 L3]; [by apply short_names; vm_compute | by destruct (payload e) |].
  assert (holds_text (buf, 0) []) as Hstart by (split; [done | done | done]).
  assert (∃ r, (o ← append_int 512 (buf, 0) ns; o ← put_char o kSpace; name ← kThreadNames.[Z.min (thread_id e) 3]; o ← append_str 512 o name; o ← put_char o kSpace;
    name ← kLevelNames.[level_id (level e)]; o ← append_str 512 o name; o ← put_char o kSpace; name ← kEventTypeNames.[event_type_id (payload e)];
    o ← append_str 512 o name; o ← put_char o kSpace; o ← put_char o kSpace; o ← fields cal 512 o (payload e);
    if bool_decide (o.2 < 512 - 1) then put_char o kNewline else Some o) = Some r ∧ (holds_text r (line ns lat e) ∧ lenZ (line ns lat e) <= 511)) as Hgoal; [| exact Hgoal].
  do 2 next. rewrite E1. cbn [mbind option_bind]. do 2 next. rewrite E2. cbn [mbind option_bind]. do 2 next. rewrite E3. cbn [mbind option_bind]. do 3 next.
  match goal with H : holds_text _ _ |- _ => destruct (fields_spec cal _ _ (payload e) lat H) as (o' & -> & H' & Hl); [text_length | done | done |]; clear H end.
  cbn [mbind option_bind]. rewrite (ht_pos _ _ H'). rewrite bool_decide_true by text_length.
  assert (lenZ (line ns lat e) <= 511) as Hlen by (unfold line; text_length).
  destruct (step_char o' _ kNewline Some (λ r, holds_text r (line ns lat e)) H') as (r & Hr & HP); [text_length | |].
  { intros oo Hoo. exists oo. split; [done |]. unfold line. rewrite <- !app_assoc in Hoo. exact Hoo. }
  exists r. split; [| done]. by destruct (put_char o' kNewline).
Qed.
End FormatSpec.

(** * The merge *)

Section Merge.
Import Drain.
Context {E : Type} (tsc : E → Z).

(** [out] takes the queues' entries, each queue's in its order. *)
Inductive interleaving : list (list E) → list E → Prop :=
  | il_nil ls : Forall (λ l, l = []) ls → interleaving ls []
  | il_cons ls q e r out : ls !! q = Some (e :: r) → interleaving (<[q := r]> ls) out → interleaving ls (e :: out).

(** In order of time stamps. *)
Definition by_time : E → E → Prop := λ a b, tsc a <= tsc b.

(** What is left of the batches. *)
Definition remaining (batches : list (list E)) (indices : list Z) : list (list E) :=
  imap (λ q b, drop (Z.to_nat (default 0 (indices !! q))) b) batches.

Lemma lookup_remaining batches indices q :
  remaining batches indices !! q = (λ b, drop (Z.to_nat (default 0 (indices !! q))) b) <$> batches !! q.
Proof. unfold remaining. by rewrite list_lookup_imap. Qed.

Record positions (batches : list (list E)) (indices : list Z) : Prop := {
  po_queues : (length batches <= length indices)%nat;
  po_range : ∀ q b i, batches !! q = Some b → indices !! q = Some i → 0 <= i <= lenZ b;
}.

(** Which batch [pick] takes: the earliest of the heads, if any is earlier
    than the sentinel. *)
Lemma pick_spec batches : ∀ (q : nat) indices best best_tsc,
  (∀ j b, batches !! j = Some b → ∃ i, indices !! (q + j)%nat = Some i ∧ 0 <= i <= lenZ b) →
  ∃ best' t', pick tsc batches indices (Z.of_nat q) best best_tsc = Some (best', t') ∧ t' <= best_tsc ∧
    (∀ j b e r, batches !! j = Some b → drop (Z.to_nat (default 0 (indices !! (q + j)%nat))) b = e :: r → t' <= tsc e) ∧
    ((best', t') = (best, best_tsc) ∨
     ∃ j b e r, best' = Z.of_nat (q + j) ∧ batches !! j = Some b ∧ drop (Z.to_nat (default 0 (indices !! (q + j)%nat))) b = e :: r ∧ tsc e = t').
Proof.
  induction batches as [| b batches IH]; intros q indices best best_tsc Hi.
  - exists best, best_tsc. split; [done |]. split; [lia |]. split; [intros j b e r; by rewrite lookup_nil | by left].
  - cbn [pick]. destruct (Hi 0%nat b eq_refl) as (i & Hqi & Hir). rewrite Nat.add_0_r in Hqi.
    assert (indices.[Z.of_nat q] = Some i) as -> by (unfold getZ; rewrite bool_decide_false by lia; by rewrite Nat2Z.id). cbn [mbind option_bind].
    assert (∀ j b, batches !! j = Some b → ∃ i, indices !! (S q + j)%nat = Some i ∧ 0 <= i <= lenZ b) as Hi'.
    { intros j b' Hb'. destruct (Hi (S j) b' Hb') as (i' & Hi' & ?). exists i'. split; [| done]. by replace (S q + j)%nat with (q + S j)%nat by lia. }
    replace (Z.of_nat q + 1) with (Z.of_nat (S q)) by lia.
    assert (∀ bt t, t <= best_tsc → (∀ e r, drop (Z.to_nat i) b = e :: r → t <= tsc e) →
      ((bt, t) = (best, best_tsc) ∨ ∃ e r, bt = Z.of_nat q ∧ drop (Z.to_nat i) b = e :: r ∧ tsc e = t) →
      ∃ best' t', pick tsc batches indices (Z.of_nat (S q)) bt t = Some (best', t') ∧ t' <= best_tsc ∧
        (∀ j b' e r, (b :: batches) !! j = Some b' → drop (Z.to_nat (default 0 (indices !! (q + j)%nat))) b' = e :: r → t' <= tsc e) ∧
        ((best', t') = (best, best_tsc) ∨
         ∃ j b' e r, best' = Z.of_nat (q + j) ∧ (b :: batches) !! j = Some b' ∧ drop (Z.to_nat (default 0 (indices !! (q + j)%nat))) b' = e :: r ∧ tsc e = t')) as Hcase.
    { intros bt t Ht Hhd Hbt. destruct (IH (S q) indices bt t Hi') as (best' & t' & Hp & Hle & Hmin & Hor). exists best', t'. split; [done |]. split; [lia |]. split.
      - intros [| j] b' e r Hb' Hd.
        + cbn in Hb'. injection Hb' as <-. rewrite Nat.add_0_r, Hqi in Hd. cbn [default] in Hd. pose proof (Hhd e r Hd). lia.
        + cbn in Hb'. replace (q + S j)%nat with (S q + j)%nat in Hd by lia. by apply (Hmin j b' e r).
      - destruct Hor as [Heq | (j & b' & e & r & -> & Hb' & Hd & He)].
        + injection Heq as -> ->. destruct Hbt as [Hbt | (e & r & -> & Hd & He)]; [by left |]. right. exists 0%nat, b, e, r.
          rewrite Nat.add_0_r, Hqi. done.
        + right. exists (S j), b', e, r. replace (q + S j)%nat with (S q + j)%nat by lia. done. }
    destruct (bool_decide_reflect (i < lenZ b)) as [Hlt | Hge].
    + destruct (getZ_is_Some b i) as [e He]; [lia |]. rewrite He. cbn [mbind option_bind]. apply getZ_to_lookup in He.
      assert (drop (Z.to_nat i) b = e :: drop (S (Z.to_nat i)) b) as Hd by (by apply drop_S).
      case_bool_decide; apply Hcase.
      * lia.
      * rewrite Hd. intros e' r' [= -> _]. lia.
      * right. exists e, (drop (S (Z.to_nat i)) b). done.
      * lia.
      * rewrite Hd. intros e' r' [= -> _]. lia.
      * by left.
    + apply Hcase; [lia | | by left]. rewrite drop_ge by lia. done.
Qed.

Lemma concat_take_head (ls : list (list E)) : ∀ q e r, ls !! q = Some (e :: r) → concat ls ≡ₚ e :: concat (<[q := r]> ls).
Proof.
  induction ls as [| l ls IH]; intros [| q] e r Hq; [done | done | |]; cbn in Hq |- *.
  - injection Hq as ->. done.
  - rewrite (IH q e r Hq). symmetry. apply Permutation_middle.
Qed.

Lemma interleaving_perm ls out : interleaving ls out → out ≡ₚ concat ls.
Proof.
  induction 1 as [ls H | ls q e r out Hq _ IH].
  - assert (concat ls = []) as ->; [| done]. induction H as [| l ls -> _ IH]; [done | exact IH].
  - rewrite IH. symmetry. by apply concat_take_head.
Qed.

Lemma concat_nonempty (ls : list (list E)) n : length (concat ls) = S n → ∃ q e r, ls !! q = Some (e :: r).
Proof.
  induction ls as [| l ls IH]; [done |]. cbn [concat]. destruct l as [| e r]; [| by exists 0%nat, e, r].
  intros H. destruct (IH H) as (q & e & r & Hq). by exists (S q), e, r.
Qed.

(** The earliest head is before everything that remains. *)
Lemma heads_before (ls : list (list E)) t :
  Forall (StronglySorted by_time) ls → (∀ q e r, ls !! q = Some (e :: r) → t <= tsc e) → ∀ x, x ∈ concat ls → t <= tsc x.
Proof.
  intros Hs Hh x Hx. apply list_elem_of_In, in_concat in Hx as (l & Hl & Hx). apply list_elem_of_In in Hl, Hx. apply list_elem_of_lookup in Hl as [q Hq].
  rewrite Forall_lookup in Hs. pose proof (Hs q l Hq) as Hsl. destruct l as [| e r]; [by apply elem_of_nil in Hx |]. pose proof (Hh q e r Hq).
  apply elem_of_cons in Hx as [-> | Hx]; [done |]. inversion_clear Hsl as [| ? ? _ Hall]. rewrite list.Forall_forall in Hall. pose proof (Hall x Hx). unfold by_time in *. lia.
Qed.

(** The sentinel is later than every time stamp, so while entries remain one
    is taken; the output is sorted where the batches are. *)
Lemma merge_spec n : ∀ batches indices,
  positions batches indices → lenZ batches <= kMaxQueues → n = length (concat (remaining batches indices)) →
  Forall (λ b, Forall (λ e, tsc e < UINT64_MAX) b) batches →
  ∃ out, merge tsc n batches indices = Some out ∧ interleaving (remaining batches indices) out ∧ length out = n ∧
    (Forall (StronglySorted by_time) (remaining batches indices) → StronglySorted by_time out).
Proof.
  induction n as [| n IH]; intros batches indices [Hq Hr] H4 Hn Hmax.
  - exists []. split; [done |]. split; [| split; [done | by constructor]]. constructor. symmetry in Hn. apply length_zero_iff_nil in Hn. clear -Hn.
    induction (remaining batches indices) as [| l ls IH]; [constructor |]. cbn in Hn. apply app_eq_nil in Hn as [-> Hn]. constructor; [done | by apply IH].
  - cbn [merge]. destruct (pick_spec batches 0 indices kMaxQueues UINT64_MAX) as (best & t & Hp & _ & Hmin & Hor).
    { intros j b Hb. cbn. destruct (lookup_lt_is_Some_2 indices j) as [i Hi]; [apply lookup_lt_Some in Hb; lia |]. exists i. split; [done | by apply (Hr j b)]. }
    change (Z.of_nat 0) with 0 in Hp. rewrite Hp. cbn [mbind option_bind]. cbn [Nat.add] in Hmin, Hor.
    destruct (concat_nonempty _ n (eq_sym Hn)) as (q0 & e0 & r0 & Hq0). rewrite lookup_remaining in Hq0. destruct (batches !! q0) as [b0 |] eqn:Hb0; [| done]. injection Hq0 as Hd0.
    assert (e0 ∈ b0) as He0 by (rewrite <- (take_drop (Z.to_nat (default 0 (indices !! q0))) b0), Hd0; apply elem_of_app; right; apply elem_of_cons; by left).
    rewrite Forall_lookup in Hmax. pose proof (Hmax q0 b0 Hb0) as Hm0. rewrite list.Forall_forall in Hm0. pose proof (Hm0 e0 He0). pose proof (Hmin q0 b0 e0 r0 Hb0 Hd0).
    destruct Hor as [Heq | (j & b & e & r & -> & Hb & Hd & <-)]; [injection Heq as -> ->; lia |].
    destruct (lookup_lt_is_Some_2 indices j) as [i Hi]; [apply lookup_lt_Some in Hb; lia |]. pose proof (Hr j b i Hb Hi) as Hir. rewrite Hi in Hd. cbn [default id] in Hd.
    assert (i < lenZ b) as Hlt by (destruct (decide (i < lenZ b)); [done |]; rewrite drop_ge in Hd by lia; done).
    assert (batches.[Z.of_nat j] = Some b) as -> by (unfold getZ; rewrite bool_decide_false by lia; by rewrite Nat2Z.id).
    assert (indices.[Z.of_nat j] = Some i) as -> by (unfold getZ; rewrite bool_decide_false by lia; by rewrite Nat2Z.id). cbn [mbind option_bind].
    assert (b.[i] = Some e) as ->.
    { unfold getZ. rewrite bool_decide_false by lia. rewrite <- (Nat.add_0_r (Z.to_nat i)), <- lookup_drop, Hd. done. }
    cbn [mbind option_bind]. unfold storeZ. rewrite bool_decide_true by (apply lookup_lt_Some in Hi; lia). cbn [mbind option_bind].
    set (indices' := indices.[Z.of_nat j <- i + 1]).
    assert (indices' = <[j := i + 1]> indices) as Hind by (unfold indices', setZ; by rewrite Nat2Z.id).
    assert (remaining batches indices' = <[j := r]> (remaining batches indices)) as Hrem.
    { apply list_eq. intros k. rewrite lookup_remaining, Hind. apply lookup_lt_Some in Hi as Hj. destruct (decide (k = j)) as [-> |].
      - rewrite !list_lookup_insert_eq; [| unfold remaining; rewrite length_imap; by eapply lookup_lt_Some | done]. rewrite Hb. cbn [fmap option_fmap option_map default id]. f_equal.
        replace (Z.to_nat (i + 1)) with (Z.to_nat i + 1)%nat by lia. rewrite <- drop_drop, Hd. done.
      - rewrite !list_lookup_insert_ne by done. by rewrite lookup_remaining. }
    assert (remaining batches indices !! j = Some (e :: r)) as Hrj by (rewrite lookup_remaining, Hb, Hi; cbn; by rewrite Hd).
    pose proof (concat_take_head _ j e r Hrj) as Hperm.
    destruct (IH batches indices') as (out & Hout & Hil & Hlen & Hsort).
    + split; [rewrite Hind, length_insert; done |]. intros k b' i' Hb' Hi'. rewrite Hind in Hi'. destruct (decide (k = j)) as [-> |].
      * apply lookup_lt_Some in Hi as Hj. rewrite list_lookup_insert_eq in Hi' by done. injection Hi' as <-. rewrite Hb in Hb'. injection Hb' as <-. lia.
      * rewrite list_lookup_insert_ne in Hi' by done. by apply (Hr k).
    + done.
    + rewrite Hrem. apply Permutation_length in Hperm. cbn in Hperm. lia.
    + by rewrite Forall_lookup.
    + rewrite Hout. cbn [mbind option_bind]. exists (e :: out). split; [done |]. rewrite Hrem in Hil, Hsort.
      split; [by apply (il_cons _ j e r) |]. split; [cbn; lia |]. intros Hs. constructor.
      * apply Hsort. apply Forall_insert; [done |]. rewrite Forall_lookup in Hs. pose proof (Hs j _ Hrj) as Hsj. by inversion_clear Hsj.
      * apply list.Forall_forall. intros x Hx. unfold by_time. apply (heads_before (remaining batches indices)); [done | |].
        -- intros q e1 r1 Hq1. rewrite lookup_remaining in Hq1. destruct (batches !! q) as [b1 |] eqn:Hb1; [| done]. injection Hq1 as Hd1. by apply (Hmin q b1 e1 r1).
        -- rewrite Hperm. apply elem_of_cons. right. by rewrite <- (interleaving_perm _ _ Hil).
Qed.
End Merge.

(** * Rounds *)

Section Rounds.
Import Drain Log.

Lemma zip_app_assoc {A : Type} (a b c : list (list A)) : zip_with app (zip_with app a b) c = zip_with app a (zip_with app b c).
Proof. revert b c. induction a as [| x a IH]; intros [| y b] [| z c]; cbn; try done. by rewrite <- app_assoc, IH. Qed.

Lemma zip_take_drop {A : Type} n (qs : list (list A)) : qs = zip_with app (take n <$> qs) (drop n <$> qs).
Proof. induction qs as [| q qs IH]; [done |]. cbn. by rewrite take_drop, <- IH. Qed.

Lemma interleaving_app {E : Type} (ls1 ls2 : list (list E)) out1 out2 :
  interleaving ls1 out1 → interleaving ls2 out2 → length ls1 = length ls2 → interleaving (zip_with app ls1 ls2) (out1 ++ out2).
Proof.
  intros H1 H2. induction H1 as [ls H | ls q e r out Hq _ IH]; intros Hl.
  - assert (zip_with app ls ls2 = ls2) as ->; [| done]. clear H2. revert ls2 Hl. induction H as [| l ls -> _ IH]; intros [| l2 ls2] Hl; try done. cbn. f_equal. apply IH. by injection Hl.
  - cbn. destruct (lookup_lt_is_Some_2 ls2 q) as [l2 Hl2]; [rewrite <- Hl; by eapply lookup_lt_Some |].
    apply (il_cons _ q e (r ++ l2)); [by rewrite lookup_zip_with, Hq, Hl2 |].
    assert (<[q := r ++ l2]> (zip_with app ls ls2) = zip_with app (<[q := r]> ls) ls2) as -> by (rewrite <- (list_insert_id ls2 q l2 Hl2) at 2; by rewrite insert_zip_with).
  apply IH. by rewrite length_insert.
Qed.

Lemma remaining_start {E : Type} (batches : list (list E)) n : (length batches <= n)%nat → remaining batches (replicate n 0) = batches.
Proof.
  intros Hn. apply list_eq. intros q. rewrite lookup_remaining. destruct (batches !! q) as [b |] eqn:Hb; [| done].
  rewrite lookup_replicate_2 by (apply lookup_lt_Some in Hb; lia). done.
Qed.

Lemma drain_all_spec {E : Type} (tsc : E → Z) queues :
  lenZ queues <= kMaxQueues → Forall (Forall (λ e, tsc e < UINT64_MAX)) queues →
  ∃ out, drain_all tsc queues = Some (drop 128 <$> queues, out) ∧ interleaving (take 128 <$> queues) out ∧
    (Forall (StronglySorted (by_time tsc)) queues → StronglySorted (by_time tsc) out).
Proof.
  intros Hl Ht. unfold drain_all. change (Z.to_nat kDrainBatch) with 128%nat. unfold drain. cbn [fst snd].
  change ((λ q : list E, take (Z.to_nat kDrainBatch) q) <$> queues) with (take 128 <$> queues).
  change ((λ q : list E, drop (Z.to_nat kDrainBatch) q) <$> queues) with (drop 128 <$> queues).
  case_bool_decide as Hz.
  - exists []. apply length_zero_iff_nil in Hz. assert (Forall (λ q, q = []) queues) as Hq.
    { clear -Hz. induction queues as [| q qs IH]; [constructor |]. cbn in Hz. apply app_eq_nil in Hz as [Hq Hz]. constructor; [by destruct q | by apply IH]. }
    clear -Hq. split; [| split; [constructor | by constructor]].
    + do 2 f_equal. induction Hq as [| q qs -> _ IH]; [done |]. cbn. by rewrite <- IH.
    + induction Hq as [| q qs -> _ IH]; [constructor |]. constructor; [done | exact IH].
  - assert (length (take 128 <$> queues) <= Z.to_nat kMaxQueues)%nat as Hlen by (rewrite length_fmap; lia).
    destruct (merge_spec tsc (length (concat (take 128 <$> queues))) (take 128 <$> queues) (replicate (Z.to_nat kMaxQueues) 0)) as (out & Hm & Hil & _ & Hs).
    + split; [by rewrite length_replicate |]. intros q b i _ Hi. apply lookup_replicate in Hi as [-> _]. lia.
    + by rewrite length_fmap.
    + by rewrite remaining_start.
    + apply Forall_fmap. eapply list.Forall_impl; [exact Ht |]. intros b Hb. cbn. by apply Forall_take.
    + rewrite remaining_start in Hil, Hs by done. exists out. rewrite Hm. cbn [mbind option_bind]. split; [done |]. split; [done |]. intros Hsq. apply Hs.
      apply Forall_fmap. eapply list.Forall_impl; [exact Hsq |]. intros b Hb. cbn. rewrite <- (take_drop 128 b) in Hb. by apply StronglySorted_app in Hb as (_ & Hb & _).
Qed.

(** * The file *)

Lemma sys_write_spec fuel : ∀ f data, (length (answers f) < fuel)%nat →
  ∃ f' piece rest, sys_write fuel f data = Some f' ∧ content f' = content f ++ piece ∧ data = piece ++ rest ∧
    (Failed ∉ answers f → rest = [] ∧ Failed ∉ answers f').
Proof.
  induction fuel as [| fuel IH]; intros f data Hf; [lia |]. cbn [sys_write]. case_bool_decide as Hd.
  { exists f, [], []. rewrite app_nil_r. done. }
  destruct (answers f) as [| [n | |] rest] eqn:Ea.
  - exists {| content := content f ++ data; answers := [] |}, data, []. rewrite app_nil_r. split; [done |]. split; [done |]. split; [done |]. intros _. split; [done |]. apply not_elem_of_nil.
  - cbn [length] in Hf. set (k := Z.to_nat (Z.max 0 (Z.min n (lenZ data)))).
    destruct (IH {| content := content f ++ take k data; answers := rest |} (drop k data)) as (f' & piece & rest' & H1 & H2 & H3 & H4); [cbn; lia |].
    exists f', (take k data ++ piece), rest'. split; [done |]. cbn in H2. split; [by rewrite app_assoc |].
    split; [rewrite <- app_assoc, <- H3; symmetry; apply take_drop |]. intros Hn. apply H4. cbn. intros Hin. apply Hn. apply elem_of_cons. by right.
  - cbn [length] in Hf. destruct (IH {| content := content f; answers := rest |} data) as (f' & piece & rest' & H1 & H2 & H3 & H4); [cbn; lia |].
    exists f', piece, rest'. split; [done |]. split; [done |]. split; [done |]. intros Hn. apply H4. cbn. intros Hin. apply Hn. apply elem_of_cons. by right.
  - exists {| content := content f; answers := rest |}, [], data. rewrite app_nil_r. split; [done |]. split; [done |]. split; [done |].
    intros Hn. exfalso. apply Hn. apply elem_of_cons. by left.
Qed.

(** An entry whose times can be converted, and its line. *)
Record entry_ok (cal : Tsc.TscCalibration) (e : LogEntry) : Prop := {
  eo_time : 0 <= tsc_timestamp e < UINT64_MAX;
  eo_thread : is_u16 (thread_id e);
  eo_payload : payload_ok (payload e);
  eo_ns : is_Some (Tsc.ns cal (tsc_timestamp e));
  eo_cycles : is_Some (Tsc.ns cal (cycles_of (payload e)));
}.
Definition text_of (cal : Tsc.TscCalibration) (e : LogEntry) : list Z :=
  line (default 0 (Tsc.ns cal (tsc_timestamp e))) (default 0 (Tsc.ns cal (cycles_of (payload e)))) e.

Lemma write_lines_spec cal es : ∀ f buf, lenZ buf = 512 → Forall (entry_ok cal) es →
  ∃ f' pieces, write_lines cal f buf es = Some f' ∧ content f' = content f ++ concat pieces ∧
    Forall2 (λ piece e, piece `prefix_of` text_of cal e) pieces es ∧
    (Failed ∉ answers f → pieces = text_of cal <$> es ∧ Failed ∉ answers f').
Proof.
  induction es as [| e es IH]; intros f buf Hb Hes.
  - exists f, []. rewrite app_nil_r. split; [done |]. split; [done |]. by split.
  - apply Forall_cons_1 in Hes as [[Ht Hid Hp [ns Hns] [lat Hlat]] Hes]. cbn [write_lines]. unfold write_line.
    destruct (format_spec cal buf e ns lat Hb Hid Hp Hns Hlat) as ([buf' len] & -> & [Hsz Hpos Htx] & Hl). cbn [fst snd] in *. cbn [mbind option_bind].
    rewrite bool_decide_false by lia.
    assert (text_of cal e = line ns lat e) as Htext by (unfold text_of; rewrite Hns, Hlat; done).
    rewrite Hpos, Nat2Z.id, Htx, <- Htext.
    destruct (sys_write_spec (S (length (answers f))) f (text_of cal e)) as (f1 & piece & rest & H1 & H2 & H3 & H4); [lia |]. rewrite H1. cbn [mbind option_bind].
    destruct (IH f1 buf' Hsz Hes) as (f' & pieces & H5 & H6 & H7 & H8). exists f', (piece :: pieces). split; [done |].
    split; [cbn [concat]; by rewrite H6, H2, <- app_assoc |]. split; [constructor; [by exists rest | done] |].
    intros Hn. destruct (H4 Hn) as [-> Hn1]. destruct (H8 Hn1) as [-> ?]. rewrite app_nil_r in H3. split; [cbn; by rewrite H3 | done].
Qed.
End Rounds.

(** * The thread *)

Section Thread.
Import Drain Log.
Context (cal : Tsc.TscCalibration).

(** Everything a queue has been given once the arrivals are in. *)
Definition pushed (qs : list (list LogEntry)) (rounds : list (list (list LogEntry))) : list (list LogEntry) := fold_left (zip_with app) rounds qs.

Abbreviation time_order := (by_time tsc_timestamp).

Lemma zip_app_length {A : Type} (a b : list (list A)) : length a = length b → length (zip_with app a b) = length a.
Proof. intros H. rewrite length_zip_with. lia. Qed.

Lemma pushed_prepend (w qs : list (list LogEntry)) rounds : pushed (zip_with app w qs) rounds = zip_with app w (pushed qs rounds).
Proof. unfold pushed. revert qs. induction rounds as [| a rounds IH]; intros qs; [done |]. cbn [fold_left]. by rewrite zip_app_assoc, IH. Qed.

Lemma pushed_length rounds : ∀ qs, Forall (λ r, length r = length qs) rounds → length (pushed qs rounds) = length qs.
Proof.
  unfold pushed. induction rounds as [| a rounds IH]; intros qs Hl; [done |]. apply Forall_cons_1 in Hl as [Ha Hl]. cbn [fold_left].
  assert (length (zip_with app qs a) = length qs) as E by (by apply zip_app_length). rewrite IH; rewrite E; done.
Qed.

(** What one round does to the queues, the file and the count. *)
Lemma round_spec l arrivals :
  lenZ (queues_ l) <= kMaxQueues → length arrivals = length (queues_ l) →
  Forall (Forall (entry_ok cal)) (queues_ l) → Forall (Forall (entry_ok cal)) arrivals →
  ∃ l' out pieces, round cal l arrivals = Some l' ∧ queues_ l' = drop 128 <$> zip_with app (queues_ l) arrivals ∧
    interleaving (take 128 <$> zip_with app (queues_ l) arrivals) out ∧
    (Forall (StronglySorted time_order) (zip_with app (queues_ l) arrivals) → StronglySorted time_order out) ∧
    content (file_ l') = content (file_ l) ++ concat pieces ∧ Forall2 (λ piece e, piece `prefix_of` text_of cal e) pieces out ∧
    (Failed ∉ answers (file_ l) → pieces = text_of cal <$> out ∧ Failed ∉ answers (file_ l')) ∧
    entries_written_ l' = u64 (entries_written_ l + lenZ out) ∧ Forall (Forall (entry_ok cal)) (queues_ l').
Proof.
  intros H4 Hl Hq Ha. set (qs := zip_with app (queues_ l) arrivals).
  assert (Forall (Forall (entry_ok cal)) qs) as Hok.
  { apply Forall_lookup. intros q b Hb. apply lookup_zip_with_Some in Hb as (b1 & b2 & -> & H1 & H2). rewrite Forall_lookup in Hq, Ha. apply Forall_app; eauto. }
  destruct (drain_all_spec tsc_timestamp qs) as (out & Hd & Hil & Hs).
  { unfold qs. rewrite zip_app_length by done. done. }
  { eapply list.Forall_impl; [exact Hok |]. intros b Hb. eapply list.Forall_impl; [exact Hb |]. intros e He. apply He. }
  assert (Forall (entry_ok cal) out) as Hout.
  { apply list.Forall_forall. intros e He. rewrite (interleaving_perm _ _ Hil) in He. apply list_elem_of_In, in_concat in He as (b & Hb & He). apply list_elem_of_In in Hb, He.
    apply list_elem_of_fmap in Hb as (b0 & -> & Hb0). rewrite list.Forall_forall in Hok. pose proof (Hok b0 Hb0) as Hb. rewrite list.Forall_forall in Hb. apply Hb.
    rewrite <- (take_drop 128 b0). apply elem_of_app. by left. }
  destruct (write_lines_spec cal out (file_ l) (replicate (Z.to_nat kLineSize) 0)) as (f' & pieces & Hw & Hc & Hp & Hf); [by rewrite length_replicate | done |].
  unfold round. fold qs. rewrite Hd. cbn [mbind option_bind]. rewrite Hw. cbn [mbind option_bind].
  eexists _, out, pieces. split; [reflexivity |]. cbn [queues_ file_ entries_written_]. repeat (split; [done |]).
  apply Forall_fmap. eapply list.Forall_impl; [exact Hok |]. intros b Hb. cbn. by apply Forall_drop.
Qed.

(** The rounds of a run: what each wrote, and what was taken from each queue
    in all. *)
Record run_result (l : Loop) (rounds : list (list (list LogEntry))) (l' : Loop) (outs : list (list LogEntry)) (written : list (list LogEntry)) (pieces : list (list Z)) : Prop := {
  rr_rounds : length outs = length rounds;
  rr_queues : length written = length (queues_ l);
  rr_taken : zip_with app written (queues_ l') = pushed (queues_ l) rounds;
  rr_order : interleaving written (concat outs);
  rr_sorted : Forall (StronglySorted time_order) (pushed (queues_ l) rounds) → Forall (StronglySorted time_order) outs;
  rr_file : content (file_ l') = content (file_ l) ++ concat pieces;
  rr_pieces : Forall2 (λ piece e, piece `prefix_of` text_of cal e) pieces (concat outs);
  rr_lines : Failed ∉ answers (file_ l) → pieces = text_of cal <$> concat outs;
  rr_count : 0 <= entries_written_ l → entries_written_ l + lenZ (concat outs) < 2 ^ 64 → entries_written_ l' = entries_written_ l + lenZ (concat outs);
  rr_empty : Forall (λ q, q = []) (queues_ l) → Forall (Forall (λ a, (length a <= 128)%nat)) rounds → Forall (λ q, q = []) (queues_ l');
}.

Lemma sorted_parts (w qs : list (list LogEntry)) :
  length w = length qs → Forall (StronglySorted time_order) (zip_with app w qs) → Forall (StronglySorted time_order) w ∧ Forall (StronglySorted time_order) qs.
Proof.
  revert qs. induction w as [| x w IH]; intros [| y qs] Hl Hs; try done. cbn in Hs. apply Forall_cons_1 in Hs as [Hxy Hs]. apply StronglySorted_app in Hxy as (_ & Hx & Hy).
  injection Hl as Hl. destruct (IH qs Hl Hs). split; by constructor.
Qed.

(** The first rounds of an order are sorted too: what is pushed later only
    extends each queue. *)
Lemma sorted_pushed rounds : ∀ qs, Forall (λ r, length r = length qs) rounds → Forall (StronglySorted time_order) (pushed qs rounds) → Forall (StronglySorted time_order) qs.
Proof.
  induction rounds as [| a rounds IH]; intros qs Hl Hs; [done |]. apply Forall_cons_1 in Hl as [Ha Hl]. cbn in Hs. apply IH in Hs.
  - by apply sorted_parts in Hs as [Hs _].
  - eapply list.Forall_impl; [exact Hl |]. intros r Hr. rewrite zip_app_length; [done | congruence].
Qed.

Lemma short_queues_emptied (qs arrivals : list (list LogEntry)) :
  Forall (λ q, q = []) qs → Forall (λ a, (length a <= 128)%nat) arrivals → Forall (λ q, q = []) (drop 128 <$> zip_with app qs arrivals).
Proof.
  intros Hq. revert arrivals. induction Hq as [| q qs -> _ IH]; intros [| a arrivals] Ha; try constructor.
  - apply Forall_cons_1 in Ha as [Ha _]. by apply drop_ge.
  - apply IH. by apply Forall_cons_1 in Ha as [_ Ha].
Qed.

Lemma run_spec rounds : ∀ l last,
  lenZ (queues_ l) <= kMaxQueues → Forall (λ r, length r = length (queues_ l)) (rounds ++ [last]) →
  Forall (Forall (entry_ok cal)) (queues_ l) → Forall (Forall (Forall (entry_ok cal))) (rounds ++ [last]) →
  ∃ l' outs written pieces, run cal l rounds last = Some l' ∧ run_result l (rounds ++ [last]) l' outs written pieces.
Proof.
  induction rounds as [| a rounds IH]; intros l last H4 Hl Hq Hr.
  - apply Forall_cons_1 in Hl as [Hl _]. apply Forall_cons_1 in Hr as [Hr _]. cbn [run].
    destruct (round_spec l last H4 Hl Hq Hr) as (l' & out & pieces & Hrd & Hqs & Hil & Hs & Hc & Hp & Hf & He & _).
    exists l', [out], (take 128 <$> zip_with app (queues_ l) last), pieces. split; [done |]. split; cbn [concat app]; rewrite ?app_nil_r; try done.
    + by rewrite length_fmap, zip_app_length.
    + rewrite Hqs, <- zip_take_drop. done.
    + intros Hsd. constructor; [by apply Hs | constructor].
    + intros Hn. by apply Hf.
    + intros H0 H64. rewrite He, u64_id by (unfold is_u64; lia). done.
    + intros Hn Hsh. rewrite Hqs. apply short_queues_emptied; [done |]. by apply Forall_cons_1 in Hsh as [Hsh _].
  - cbn [app] in Hl, Hr. apply Forall_cons_1 in Hl as [Hl Hls]. apply Forall_cons_1 in Hr as [Hr Hrs]. cbn [run].
    destruct (round_spec l a H4 Hl Hq Hr) as (l1 & out & pieces1 & Hrd & Hqs & Hil & Hs & Hc & Hp & Hf & He & Hok). rewrite Hrd. cbn [mbind option_bind].
    assert (length (queues_ l1) = length (queues_ l)) as Hlen by (rewrite Hqs, length_fmap, zip_app_length by done; done).
    destruct (IH l1 last) as (l' & outs & written & pieces & Hrun & [R1 R2 R3 R4 R5 R6 R7 R8 R9 R10]); [by rewrite Hlen | by rewrite Hlen | done | done |].
    set (w1 := take 128 <$> zip_with app (queues_ l) a). assert (zip_with app w1 (queues_ l1) = zip_with app (queues_ l) a) as Hw1 by (rewrite Hqs; symmetry; apply zip_take_drop).
    assert (length w1 = length (queues_ l)) as Hw1l by (unfold w1; rewrite length_fmap, zip_app_length; done).
    exists l', (out :: outs), (zip_with app w1 written), (pieces1 ++ pieces). split; [done |].
    assert (pushed (queues_ l) ((a :: rounds) ++ [last]) = zip_with app w1 (pushed (queues_ l1) (rounds ++ [last]))) as Hpush by (rewrite <- pushed_prepend, Hw1; done).
    split; cbn [concat length].
    + by rewrite R1.
    + rewrite zip_app_length; congruence.
    + rewrite zip_app_assoc, R3, Hpush. done.
    + apply interleaving_app; [done | done | congruence].
    + rewrite Hpush. intros Hsd. constructor.
      * apply Hs. rewrite <- Hw1. apply (sorted_pushed (rounds ++ [last])).
        -- rewrite Hw1, zip_app_length by done. done.
        -- by rewrite pushed_prepend.
      * apply R5. apply (sorted_parts w1); [| done]. rewrite pushed_length; [congruence | by rewrite Hlen].
    + rewrite R6, Hc, concat_app, app_assoc. done.
    + by apply Forall2_app.
    + intros Hn. destruct (Hf Hn) as [-> Hn1]. rewrite (R8 Hn1), fmap_app. done.
    + rewrite length_app. intros H0 H64. rewrite R9; rewrite ?He, ?u64_id by (unfold is_u64; lia); lia.
    + intros Hn Hsh. apply Forall_cons_1 in Hsh as [Hsh Hshs]. apply R10; [rewrite Hqs; by apply short_queues_emptied | done].
Qed.
End Thread.

(** * Texts *)

Section Texts.
Import Log Fmt.

Lemma copy_text_spec fuel : ∀ done cs rest pad,
  Forall (λ c, c ≠ 0) cs → (fuel <= length pad)%nat →
  copy_text fuel (done ++ cs ++ 0 :: rest) (lenZ done) (done ++ pad) =
  Some (lenZ done + lenZ (take fuel cs), done ++ take fuel cs ++ drop (length (take fuel cs)) pad).
Proof.
  induction fuel as [| fuel IH]; intros d cs rest pad Hcs Hp; [cbn; by rewrite Z.add_0_r |]. cbn [copy_text].
  assert ((d ++ cs ++ 0 :: rest).[lenZ d] = (cs ++ 0 :: rest) !! 0%nat) as ->.
  { unfold getZ. rewrite bool_decide_false by lia. rewrite Nat2Z.id, lookup_app_r, Nat.sub_diag by lia. done. }
  destruct cs as [| c cs]; cbn.
  - by rewrite Z.add_0_r.
  - apply Forall_cons_1 in Hcs as [Hc Hcs]. rewrite bool_decide_false by done. destruct pad as [| p pad]; [cbn in Hp; lia |]. cbn [length] in Hp.
    unfold storeZ. rewrite bool_decide_true by (rewrite length_app; cbn; lia). cbn [mbind option_bind].
    unfold setZ. rewrite Nat2Z.id, insert_app_r_alt, Nat.sub_diag by lia. cbn [insert list_insert].
    pose proof (IH (d ++ [c]) cs rest pad Hcs ltac:(lia)) as H. rewrite <- !app_assoc in H. cbn [app] in H. rewrite length_app in H. cbn [length] in H.
    replace (lenZ d + 1) with (Z.of_nat (length d + 1)) by lia. rewrite H. do 2 f_equal; lia.
Qed.

(** The message keeps the first 111 characters, and they are what the
    formatter reads. *)
Definition message (cs : list Z) : list Z := take 111 cs ++ replicate (112 - length (take 111 cs)) 0.

Lemma log_text_spec q tsc tid l cs rest :
  Forall (λ c, c ≠ 0) cs →
  log_text q tsc tid l (cs ++ 0 :: rest) = Some (try_push q {| tsc_timestamp := tsc; thread_id := tid; level := l; payload := PText (message cs) |}).
Proof.
  intros Hcs. unfold log_text. pose proof (copy_text_spec 111 [] cs rest (replicate 112 0) Hcs ltac:(by rewrite length_replicate; lia)) as H.
  cbn [app] in H. change (lenZ []) with 0 in H. rewrite H, Z.add_0_l. cbn [mbind option_bind]. pose proof (length_take cs 111) as Hn.
  rewrite drop_replicate. unfold storeZ. rewrite bool_decide_true by (rewrite length_app, length_replicate; lia). cbn [mbind option_bind].
  unfold setZ. rewrite Nat2Z.id, insert_app_r_alt, Nat.sub_diag by lia. unfold message.
  destruct (112 - length (take 111 cs))%nat as [| k] eqn:Ek; [lia |]. done.
Qed.

Lemma until_nul_message cs : Forall (λ c, c ≠ 0) cs → until_nul (take 111 (message cs)) = take 111 cs.
Proof.
  intros Hcs. unfold message. pose proof (length_take cs 111) as Hn. rewrite take_app, take_take, Nat.min_id, length_take, take_replicate.
  apply (Forall_take _ 111) in Hcs. revert Hcs. generalize (Nat.min (111 - Nat.min 111 (length cs)) (112 - Nat.min 111 (length cs))). intros k Hcs. clear Hn.
  induction Hcs as [| c cs' Hc _ IH]; cbn [app until_nul].
  - destruct k; [done |]. cbn. done.
  - rewrite IH. by rewrite bool_decide_false.
Qed.
End Texts.

(** * Correctness *)

(** C37. An entry is formatted into the buffer of 512 characters without a
    write outside it, into one line of at most 511 characters that ends with
    a newline and is what the entry says: its time, thread, level, type and
    fields, every number in decimal digits that read back as the number.  A
    text keeps its first 111 characters. *)
Theorem log_line_format (cal : Tsc.TscCalibration) (buf : list Z) (e : Log.LogEntry) (ns lat : Z) :
  lenZ buf = 512 → is_u16 (Log.thread_id e) → payload_ok (Log.payload e) →
  Tsc.ns cal (Log.tsc_timestamp e) = Some ns → Tsc.ns cal (cycles_of (Log.payload e)) = Some lat →
  (∃ buf', Fmt.format cal buf e = Some (buf', lenZ (line ns lat e)) ∧ length buf' = length buf ∧ take (length (line ns lat e)) buf' = line ns lat e) ∧
  lenZ (line ns lat e) <= 511 ∧ (∃ t, line ns lat e = t ++ [Fmt.kNewline]) ∧
  (∀ v, - 2 ^ 63 <= v < 2 ^ 64 → read_decimal (Fmt.decimal v) = v) ∧
  (∀ q tsc tid l cs rest, Forall (λ c, c ≠ 0) cs →
    Log.log_text q tsc tid l (cs ++ 0 :: rest) =
      Some (Ipc.try_push q {| Log.tsc_timestamp := tsc; Log.thread_id := tid; Log.level := l; Log.payload := Log.PText (message cs) |}) ∧
    Fmt.until_nul (take 111 (message cs)) = take 111 cs).
Proof.
  intros Hb Hid Hp Hns Hlat. destruct (format_spec cal buf e ns lat Hb Hid Hp Hns Hlat) as ([buf' len] & H & [Hs Hl Ht] & H511). cbn [fst snd] in *. subst len.
  split; [exists buf'; split; [done | split; [lia | done]] |]. split; [done |].
  split; [unfold line; rewrite !app_assoc; by eexists |]. split; [intros v Hv; by apply decimal_spec |].
  intros q tsc tid l cs rest Hcs. split; [by apply log_text_spec | by apply until_nul_message].
Qed.

Definition example_cal : Tsc.TscCalibration := {| Tsc.freq_hz := 2000000000; Tsc.overhead_cycles := 20 |}.
Definition example_entry (t : Z) : Log.LogEntry :=
  {| Log.tsc_timestamp := t; Log.thread_id := 2; Log.level := Log.kInfo; Log.payload := Log.POrder Log.kNewOrder 1 7 42 0 (-5) 100 0 0 |}.

Lemma log_line_format_witness :
  line 500 0 (example_entry 1000) = Fmt.chars "500 STRAT INFO  ORDER    event=NewOrder sym=7 side=Ask price=-5 qty=100 oid=42" ++ [10] ∧
  (∃ buf', Fmt.format example_cal (replicate 512 0) (example_entry 1000) = Some (buf', lenZ (line 500 0 (example_entry 1000)))).
Proof.
  split; [by vm_compute |].
  destruct (log_line_format example_cal (replicate 512 0) (example_entry 1000) 500 0) as [(buf' & H & _) _].
  - by vm_compute.
  - done.
  - cbn. unfold is_u8, is_u32, is_u64, is_s64. lia.
  - by vm_compute.
  - by vm_compute.
  - by exists buf'.
Defined.

(** C26. The drain loop, over any number of rounds and the one after the stop
    flag: nothing is lost or reordered within a queue (what was written and
    what stays is what was pushed), the lines of the file are an interleaving
    of the queues, in order of time stamps within each round where each
    producer's time stamps do not decrease, one whole line per entry unless a
    write fails (and then a piece from its beginning), every entry counted;
    and the queues are empty at the end when they were empty at the start and
    no more than 128 entries arrive at any of them per round. *)
Theorem drain_loop_correct (cal : Tsc.TscCalibration) (l : Drain.Loop) (rounds : list (list (list Log.LogEntry))) (last_arrivals : list (list Log.LogEntry)) :
  lenZ (Drain.queues_ l) <= Drain.kMaxQueues →
  Forall (λ r, length r = length (Drain.queues_ l)) (rounds ++ [last_arrivals]) →
  Forall (Forall (entry_ok cal)) (Drain.queues_ l) → Forall (Forall (Forall (entry_ok cal))) (rounds ++ [last_arrivals]) →
  ∃ l' outs written pieces, Drain.run cal l rounds last_arrivals = Some l' ∧ run_result cal l (rounds ++ [last_arrivals]) l' outs written pieces.
Proof. intros. by apply run_spec. Qed.

Lemma example_entry_ok t : 0 <= t < Drain.UINT64_MAX → is_Some (Tsc.ns example_cal t) → entry_ok example_cal (example_entry t).
Proof. intros Ht Hns. by split. Qed.

Lemma drain_loop_correct_witness :
  let l := {| Drain.queues_ := [[]; []]; Drain.file_ := {| Drain.content := []; Drain.answers := [Drain.Took 3; Drain.Interrupted] |}; Drain.entries_written_ := 0 |} in
  let rounds := [[[example_entry 10]; [example_entry 5; example_entry 20]]] in
  let last_arrivals := [[example_entry 30]; []] in
  ∃ l' outs written pieces, Drain.run example_cal l rounds last_arrivals = Some l' ∧ run_result example_cal l (rounds ++ [last_arrivals]) l' outs written pieces.
Proof.
  intros l rounds last_arrivals. apply (drain_loop_correct example_cal l rounds last_arrivals).
  - done.
  - repeat constructor.
  - repeat constructor.
  - repeat (apply list.Forall_cons; split); repeat apply list.Forall_nil; try done;
      apply example_entry_ok; try (unfold Drain.UINT64_MAX; lia); by eexists; vm_compute.
Defined.

(** What the loop does not do: [stop] documents that it drains all
    remaining entries, but the round after the stop flag takes at most 128 of
    each queue, so the 129th entry is never written; and an entry whose time
    stamp is the largest 64-bit value is never picked, the index stays at the
    sentinel 4 and the batches are read out of bounds. *)
Theorem drain_loop_limits :
  (∃ l', Drain.run example_cal {| Drain.queues_ := [[]]; Drain.file_ := {| Drain.content := []; Drain.answers := [] |}; Drain.entries_written_ := 0 |} []
           [replicate 129 (example_entry 1000)] = Some l' ∧ Drain.queues_ l' = [[example_entry 1000]] ∧ Drain.entries_written_ l' = 128) ∧
  Drain.drain_all Log.tsc_timestamp [[example_entry Drain.UINT64_MAX]] = None.
Proof. split; [| by vm_compute]. eexists. split; [vm_compute; reflexivity | split; vm_compute; reflexivity]. Qed.
