(* ===== verification/MdThread.v ===== *)
(** The thread that receives the market data
    ([src/apps/tick_to_trade/md_feed_thread.hpp], [md_types.hpp]).

    [epoll_wait] and [recvmmsg] answer inputs of the model: the events of
    each wait, and for every readable source the batches its socket gives
    before it would block.  The kernel's documented effect on the arrays of
    [recvmmsg] is [receive] below: the datagram is cut to the slot, and
    control data that does not fit the control buffer it was offered is
    dropped and [MSG_CTRUNC] set. *)
From S2P Require Import Prelude.
From S2P Require Import Endian.
From S2P Require Import Protocol.
From S2P Require Import ProtocolTotal.
From S2P Require Import MarketData.
From S2P Require Import Latency.
From S2P Require Import ExchangeIpc.
From S2P Require Import Logging.
From S2P Require Import Startup.
Local Open Scope Z_scope.
Local Open Scope array_scope.
Import Ipc.

Module MdFeed.
Import MdCarve Log.

Record QueuedUpdate : Set := { update : MarketDataUpdate; recv_tsc : Z; kernel_recv_ns : Z }.

Record Stats : Set := { packets : Z; bytes : Z; recv_batch_full : Z; queue_drops : Z }.

(** The constants of the socket interface on Linux. *)
Definition SOL_SOCKET : Z := 1.
Definition SCM_TIMESTAMPNS : Z := 35.
Definition MSG_CTRUNC : Z := 8.

(** A control message, as [CMSG_FIRSTHDR] and [CMSG_NXTHDR] find it. *)
Record Cmsg : Set := { cmsg_level : Z; cmsg_type : Z; cmsg_data : list Z }.

(** The arrays of [recvmmsg]: the headers, the slots their vectors point to,
    and the messages in their control buffers. *)
Record Arrays : Set := { msgvec : list mmsghdr; slots : list (list Z); controls : list (list Cmsg) }.

(** A datagram, the control data the kernel has for it, and the readings of
    [rdtsc] while it is handled: at its start, after parsing, and in the two
    calls of the logger. *)
Record Datagram : Set := {
  dg_data : list Z;
  dg_cmsgs : list Cmsg;
  dg_controllen : Z;
  dg_t0 : Z;
  dg_t1 : Z;
  dg_log1 : Z;
  dg_log2 : Z;
}.

(** A call of [recvmmsg] that returns datagrams, and the clock after it. *)
Record Batch : Set := { bt_sec : Z; bt_nsec : Z; bt_datagrams : list Datagram }.
Record Event : Set := { ev_in : bool; ev_src : Z; ev_batches : list Batch }.

Definition fits (offered : Z) (d : Datagram) : bool := bool_decide (dg_controllen d <= offered).

(** The kernel's effect for datagram [d] at index [m]. *)
Definition receive (a : Arrays) (m : Z) (d : Datagram) : option Arrays :=
  h ← (msgvec a).[m];
  slot ← (slots a).[m];
  let data := take (length slot) (dg_data d) in
  let ok := fits (msg_controllen h) d in
  hs ← storeZ (msgvec a) m
    {| msg_name := msg_name h; msg_namelen := msg_namelen h; msg_iov := msg_iov h; msg_iovlen := msg_iovlen h; msg_control := msg_control h;
       msg_controllen := if ok then dg_controllen d else 0; msg_flags := if ok then 0 else MSG_CTRUNC; msg_len := lenZ data |};
  ss ← storeZ (slots a) m (data ++ drop (length data) slot);
  cs ← storeZ (controls a) m (if ok then dg_cmsgs d else []);
  Some {| msgvec := hs; slots := ss; controls := cs |}.

Fixpoint receive_all (a : Arrays) (m : Z) (ds : list Datagram) : option Arrays :=
  match ds with [] => Some a | d :: ds => a ← receive a m d; receive_all a (m + 1) ds end.

(** What the thread shares with the rest of the process. *)
Record Shared : Type := {
  feed : Feed.FeedHandler;
  tracker : Tracker.LatencyTracker;
  md_queue : Producer QueuedUpdate;
  log_queue : Queue;
  stats : list Stats;
}.
Record State : Type := { arrays : Arrays; shared : Shared }.

Section Thread.
Context (native_little profile_stages : bool) (kCmsgBufSize max_symbols : Z) (md_ctx : MdCtx).

(** [tv_sec * 1'000'000'000LL + tv_nsec]. *)
Definition timespec_ns (sec nsec : Z) : option Z := s ← check_s64 (sec * 1000000000); check_s64 (s + nsec).

(** The [timespec] copied out of a control message. *)
Definition cmsg_ns (data : list Z) : option Z :=
  bs ← memcpy_from data 0 16;
  timespec_ns (s64 (native_value native_little (take 8 bs))) (s64 (native_value native_little (drop 8 bs))).

Fixpoint find_stamp (cs : list Cmsg) : option Z :=
  match cs with
  | [] => Some 0
  | c :: cs =>
      if bool_decide (cmsg_level c = SOL_SOCKET) && bool_decide (cmsg_type c = SCM_TIMESTAMPNS) then cmsg_ns (cmsg_data c) else find_stamp cs
  end.

Definition kernel_stamp (h : mmsghdr) (cs : list Cmsg) : option Z :=
  if bool_decide (Z.land (msg_flags h) MSG_CTRUNC = 0) then find_stamp cs else Some 0.

Definition restore_controllen (h : mmsghdr) : mmsghdr :=
  {| msg_name := msg_name h; msg_namelen := msg_namelen h; msg_iov := msg_iov h; msg_iovlen := msg_iovlen h; msg_control := msg_control h;
     msg_controllen := kCmsgBufSize; msg_flags := msg_flags h; msg_len := msg_len h |}.

(** [++src->stats.queue_drops]. *)
Definition count_drop (st : list Stats) (src : Z) : option (list Stats) :=
  s ← st.[src];
  storeZ st src {| packets := packets s; bytes := bytes s; recv_batch_full := recv_batch_full s; queue_drops := u64 (queue_drops s + 1) |}.

(** The end of an iteration: the update is filtered, pushed and logged. *)
Definition push_update (c : Shared) (src : Z) (u : MarketDataUpdate) (t0 stamp log_tsc : Z) : option Shared :=
  if bool_decide (md_symbol_id u = 0) || bool_decide (md_symbol_id u > max_symbols) then Some c
  else
    let '(q, pushed) := try_push (md_queue c) {| update := u; recv_tsc := t0; kernel_recv_ns := stamp |} in
    st ← (if pushed then Some (stats c) else count_drop (stats c) src);
    let log := (log_market_data (log_queue c) log_tsc kThreadIdMd kInfo (md_seq_num u) (md_symbol_id u) (md_side u) (md_price u) (md_qty u) 0).1 in
    Some {| feed := feed c; tracker := tracker c; md_queue := q; log_queue := log; stats := st |}.

(** The part of an iteration between the timestamp and the push. *)
Definition parse_datagram (c : Shared) (stamp userspace_recv_ns : Z) (buf : list Z) (d : Datagram) : option (Shared * option MarketDataUpdate) :=
  t ← Tracker.record_rx_kernel_gap (tracker c) stamp userspace_recv_ns;
  '(h, parsed) ← Feed.on_udp_data native_little (feed c) buf;
  '(t, log) ← (if profile_stages then
    t ← Tracker.record_feed_parse t (u64 (dg_t1 d - dg_t0 d));
    Some (t, (log_latency (log_queue c) (dg_log1 d) kThreadIdMd kFeedParse (u64 (dg_t1 d - dg_t0 d)) (dg_t0 d)).1)
  else Some (t, log_queue c));
  Some ({| feed := h; tracker := t; md_queue := md_queue c; log_queue := log; stats := stats c |}, parsed).

(** The iteration for header [m]; of the datagram only the readings of its
    handling are used, its bytes are read from the arrays. *)
Definition handle (s : State) (src m userspace_recv_ns : Z) (d : Datagram) : option State :=
  h ← (msgvec (arrays s)).[m];
  cs ← (controls (arrays s)).[m];
  stamp ← kernel_stamp h cs;
  hs ← storeZ (msgvec (arrays s)) m (restore_controllen h);
  let a := {| msgvec := hs; slots := slots (arrays s); controls := controls (arrays s) |} in
  slot ← (slots a).[m];
  buf ← memcpy_from slot 0 (Z.to_nat (msg_len h));
  '(c, parsed) ← parse_datagram (shared s) stamp userspace_recv_ns buf d;
  match parsed with
  | None => Some {| arrays := a; shared := c |}
  | Some u => c ← push_update c src u (dg_t0 d) stamp (dg_log2 d); Some {| arrays := a; shared := c |}
  end.

Fixpoint handle_all (s : State) (src m userspace_recv_ns : Z) (ds : list Datagram) : option State :=
  match ds with [] => Some s | d :: ds => s ← handle s src m userspace_recv_ns d; handle_all s src (m + 1) userspace_recv_ns ds end.

(** [for (m < rc) src->stats.bytes += msgvec[m].msg_len]. *)
Fixpoint add_bytes (n : nat) (hs : list mmsghdr) (m total : Z) : option Z :=
  match n with O => Some total | S n => h ← hs.[m]; add_bytes n hs (m + 1) (u64 (total + msg_len h)) end.

Definition count_batch (st : list Stats) (src rc : Z) (hs : list mmsghdr) : option (list Stats) :=
  s ← st.[src];
  let p := u64 (packets s + rc) in
  let f := if bool_decide (rc = batch_size md_ctx) then u64 (recv_batch_full s + 1) else recv_batch_full s in
  b ← add_bytes (Z.to_nat rc) hs 0 (bytes s);
  storeZ st src {| packets := p; bytes := b; recv_batch_full := f; queue_drops := queue_drops s |}.

(** One call of [recvmmsg] and what follows it. *)
Definition on_batch (s : State) (src : Z) (b : Batch) : option State :=
  a ← receive_all (arrays s) 0 (bt_datagrams b);
  ns ← timespec_ns (bt_sec b) (bt_nsec b);
  st ← count_batch (stats (shared s)) src (lenZ (bt_datagrams b)) (msgvec a);
  let c := shared s in
  handle_all {| arrays := a; shared := {| feed := feed c; tracker := tracker c; md_queue := md_queue c; log_queue := log_queue c; stats := st |} |}
    src 0 ns (bt_datagrams b).

(** [while (true)], until [recvmmsg] returns nothing. *)
Fixpoint drain_socket (s : State) (src : Z) (bs : list Batch) : option State :=
  match bs with
  | [] => Some s
  | b :: bs => if bool_decide (bt_datagrams b = []) then Some s else s ← on_batch s src b; drain_socket s src bs
  end.

Definition on_event (s : State) (e : Event) : option State := if ev_in e then drain_socket s (ev_src e) (ev_batches e) else Some s.

Fixpoint on_events (s : State) (es : list Event) : option State :=
  match es with [] => Some s | e :: es => s ← on_event s e; on_events s es end.

(** [run]: one wait after the other, until the stop flag is seen. *)
Fixpoint run (s : State) (waits : list (list Event)) : option State :=
  match waits with [] => Some s | es :: waits => s ← on_events s es; run s waits end.
End Thread.
End MdFeed.

(** * The arrays between two calls *)

Section Arrays.
Import MdCarve MdFeed.
Context (native_little profile_stages : bool) (kCmsgBufSize max_symbols : Z) (md_ctx : MdCtx).

(** What the kernel keeps of a datagram. *)
Definition taken (d : Datagram) : list Z := take (Z.to_nat (buf_size md_ctx)) (dg_data d).
Definition header (j cl fl ln : Z) : mmsghdr :=
  {| msg_name := 0; msg_namelen := 0; msg_iov := iovecs md_ctx + j * sizeof_iovec; msg_iovlen := 1;
     msg_control := cmsg_bufs md_ctx + j * kCmsgBufSize; msg_controllen := cl; msg_flags := fl; msg_len := ln |}.

(** Index [j] is ready for the kernel, or holds a datagram. *)
Definition slot_holds (o : option Datagram) (j : nat) (a : Arrays) : Prop :=
  ∃ h sl cs, msgvec a !! j = Some h ∧ slots a !! j = Some sl ∧ controls a !! j = Some cs ∧ lenZ sl = buf_size md_ctx ∧
    match o with
    | None => ∃ fl ln, h = header (Z.of_nat j) kCmsgBufSize fl ln
    | Some d =>
        h = header (Z.of_nat j) (if fits kCmsgBufSize d then dg_controllen d else 0) (if fits kCmsgBufSize d then 0 else MSG_CTRUNC) (lenZ (taken d)) ∧
        take (length (taken d)) sl = taken d ∧ cs = (if fits kCmsgBufSize d then dg_cmsgs d else [])
    end.

Record arrays_hold (a : Arrays) (os : list (option Datagram)) : Prop := {
  ah_headers : length (msgvec a) = length os;
  ah_slots : length (slots a) = length os;
  ah_controls : length (controls a) = length os;
  ah_all j o : os !! j = Some o → slot_holds o j a;
}.

(** Every header offers its own slot and the whole control buffer. *)
Definition ready (a : Arrays) : Prop := arrays_hold a (replicate (Z.to_nat (batch_size md_ctx)) None).

Lemma store_lookup {A : Type} (l : list A) (j : nat) x : (j < length l)%nat → storeZ l (Z.of_nat j) x = Some (<[j := x]> l).
Proof. intros Hj. unfold storeZ, setZ. rewrite bool_decide_true by lia. by rewrite Nat2Z.id. Qed.

(** A store at [j] that establishes [o'] there. *)
Lemma arrays_hold_insert a os (j : nat) o' h sl cs :
  arrays_hold a os → (j < length os)%nat → lenZ sl = buf_size md_ctx →
  match o' with
  | None => ∃ fl ln, h = header (Z.of_nat j) kCmsgBufSize fl ln
  | Some d =>
      h = header (Z.of_nat j) (if fits kCmsgBufSize d then dg_controllen d else 0) (if fits kCmsgBufSize d then 0 else MSG_CTRUNC) (lenZ (taken d)) ∧
      take (length (taken d)) sl = taken d ∧ cs = (if fits kCmsgBufSize d then dg_cmsgs d else [])
  end →
  arrays_hold {| msgvec := <[j := h]> (msgvec a); slots := <[j := sl]> (slots a); controls := <[j := cs]> (controls a) |} (<[j := o']> os).
Proof.
  intros [H1 H2 H3 H4] Hj Hsl Ho. split; cbn; rewrite ?length_insert; try done.
  intros k o Hk. unfold slot_holds. cbn. destruct (decide (k = j)) as [-> |].
  - rewrite list_lookup_insert_eq in Hk by done. injection Hk as <-. exists h, sl, cs. by rewrite !list_lookup_insert_eq by congruence.
  - rewrite list_lookup_insert_ne in Hk by done. destruct (H4 k o Hk) as (h' & sl' & cs' & ? & ? & ? & ?). exists h', sl', cs'.
    by rewrite !list_lookup_insert_ne by done.
Qed.

Lemma receive_ok a os (j : nat) d :
  arrays_hold a os → os !! j = Some None → ∃ a', receive a (Z.of_nat j) d = Some a' ∧ arrays_hold a' (<[j := Some d]> os).
Proof.
  intros Ha Hj. pose proof (lookup_lt_Some _ _ _ Hj) as Hlt. destruct (ah_all _ _ Ha j None Hj) as (h & sl & cs & Hh & Hsl & Hcs & Hlen & fl & ln & ->).
  unfold receive. rewrite !getZ_nat, Hh, Hsl. cbn [mbind option_bind]. pose proof Ha as [H1 H2 H3 H4].
  rewrite !store_lookup by congruence. cbn [mbind option_bind]. eexists. split; [reflexivity |].
  assert (take (length sl) (dg_data d) = taken d) as -> by (unfold taken; f_equal; lia).
  apply arrays_hold_insert; [done | done | |].
  - rewrite length_app, length_drop. unfold taken. rewrite length_take. lia.
  - cbn. split; [done |]. split; [by rewrite take_app_length | done].
Qed.

Lemma receive_all_ok ds : ∀ a (j k : nat) done,
  arrays_hold a (done ++ replicate (length ds + k) None) → length done = j →
  ∃ a', receive_all a (Z.of_nat j) ds = Some a' ∧ arrays_hold a' (done ++ (Some <$> ds) ++ replicate k None).
Proof.
  induction ds as [| d ds IH]; intros a j k dn Ha Hj; [by exists a |]. cbn [receive_all].
  destruct (receive_ok a _ j d Ha) as (a1 & -> & Ha1). { rewrite lookup_app_r by lia. by replace (j - length dn)%nat with 0%nat by lia. }
  cbn [mbind option_bind]. replace (Z.of_nat j + 1) with (Z.of_nat (S j)) by lia.
  destruct (IH a1 (S j) k (dn ++ [Some d])) as (a' & -> & Ha'); [| rewrite length_app; cbn; lia |].
  - rewrite insert_app_r_alt in Ha1 by lia. replace (j - length dn)%nat with 0%nat in Ha1 by lia. cbn in Ha1. by rewrite <- app_assoc.
  - exists a'. split; [done |]. rewrite <- app_assoc in Ha'. exact Ha'.
Qed.

(** The timestamp the thread finds. *)
Definition stamp_of (d : Datagram) : option Z := if fits kCmsgBufSize d then find_stamp native_little (dg_cmsgs d) else Some 0.

Definition process (c : Shared) (src ns stamp : Z) (d : Datagram) : option Shared :=
  '(c, parsed) ← parse_datagram native_little profile_stages c stamp ns (taken d) d;
  match parsed with None => Some c | Some u => push_update max_symbols c src u (dg_t0 d) stamp (dg_log2 d) end.

(** An iteration reads its own datagram and restores its header. *)
Lemma handle_ok s os (j : nat) src ns d stamp :
  arrays_hold (arrays s) os → os !! j = Some (Some d) → stamp_of d = Some stamp →
  ∃ a', arrays_hold a' (<[j := None]> os) ∧
    handle native_little profile_stages kCmsgBufSize max_symbols s src (Z.of_nat j) ns d =
      (c ← process (shared s) src ns stamp d; Some {| arrays := a'; shared := c |}).
Proof.
  intros Ha Hj Hst. pose proof (lookup_lt_Some _ _ _ Hj) as Hlt. destruct (ah_all _ _ Ha j _ Hj) as (h & sl & cs & Hh & Hsl & Hcs & Hlen & Hhd & Htk & Hcmsg).
  pose proof Ha as [H1 H2 H3 H4].
  exists {| msgvec := <[j := restore_controllen kCmsgBufSize h]> (msgvec (arrays s)); slots := slots (arrays s); controls := controls (arrays s) |}. split.
  - rewrite <- (list_insert_id (slots (arrays s)) j sl Hsl), <- (list_insert_id (controls (arrays s)) j cs Hcs).
    apply arrays_hold_insert; [done | done | done |]. rewrite Hhd. by eexists _, _.
  - unfold handle. rewrite !getZ_nat, Hh, Hcs. cbn [mbind option_bind].
    assert (kernel_stamp native_little h cs = Some stamp) as ->.
    { rewrite <- Hst. unfold kernel_stamp, stamp_of. rewrite Hhd, Hcmsg. cbn. destruct (fits kCmsgBufSize d); [by rewrite bool_decide_true | by rewrite bool_decide_false]. }
    cbn [mbind option_bind]. rewrite store_lookup by congruence. cbn [mbind option_bind]. rewrite getZ_nat. cbn [slots]. rewrite Hsl. cbn [mbind option_bind].
    assert (memcpy_from sl 0 (Z.to_nat (msg_len h)) = Some (taken d)) as ->.
    { rewrite Hhd. cbn [header msg_len]. rewrite Nat2Z.id. unfold memcpy_from. rewrite !bool_decide_true; [| unfold taken; rewrite length_take; lia | lia].
      cbn [andb assertM mbind option_bind]. unfold sub_bytes. by rewrite drop_0, Htk. }
    cbn [mbind option_bind]. unfold process. destruct (parse_datagram _ _ _ _ _ _ _) as [[c [u |]] |]; cbn [mbind option_bind]; [| done | done].
    by destruct (push_update _ _ _ _ _ _ _).
Qed.
End Arrays.

(** * What the datagrams lead to *)

Section Effects.
Import MdCarve MdFeed Log.
Context (native_little profile_stages : bool) (kCmsgBufSize max_symbols : Z) (md_ctx : MdCtx).

(** A datagram, the source it came from and the clock after its batch. *)
Record Item : Set := { it_src : Z; it_ns : Z; it_d : Datagram }.

Abbreviation data_of := (λ i, taken md_ctx (it_d i)).
Abbreviation stamp i := (default 0 (stamp_of native_little kCmsgBufSize (it_d i))).

(** The feed handler over all datagrams, with what each one gave. *)
Fixpoint outcomes (h : Feed.FeedHandler) (ds : list (list Z)) : option (Feed.FeedHandler * list (option MarketDataUpdate)) :=
  match ds with
  | [] => Some (h, [])
  | d :: ds => '(h, o) ← Feed.on_udp_data native_little h d; '(h, os) ← outcomes h ds; Some (h, o :: os)
  end.

Lemma outcomes_snoc ds d : ∀ h h1 os h2 o,
  outcomes h ds = Some (h1, os) → Feed.on_udp_data native_little h1 d = Some (h2, o) → outcomes h (ds ++ [d]) = Some (h2, os ++ [o]).
Proof.
  induction ds as [| d0 ds IH]; intros h h1 os h2 o H1 H2; cbn [outcomes app] in *.
  - injection H1 as -> <-. rewrite H2. done.
  - destruct (Feed.on_udp_data native_little h d0) as [[h' o'] |]; [| done]. cbn [mbind option_bind] in *.
    destruct (outcomes h' ds) as [[h'' os'] |] eqn:E; [| done]. injection H1 as -> <-. rewrite (IH _ _ _ _ _ E H2). done.
Qed.

Lemma on_feed_outcomes ds : ∀ h h' os, outcomes h ds = Some (h', os) → Feed.on_feed native_little h ds = Some (h', omap id os).
Proof.
  induction ds as [| d ds IH]; intros h h' os H; cbn [outcomes Feed.on_feed] in *; [by injection H as -> <- |].
  destruct (Feed.on_udp_data native_little h d) as [[h1 o] |]; [| done]. cbn [mbind option_bind] in *.
  destruct (outcomes h1 ds) as [[h2 os'] |] eqn:E; [| done]. injection H as -> <-. rewrite (IH _ _ _ E). by destruct o.
Qed.

Definition wanted (u : MarketDataUpdate) : bool := negb (bool_decide (md_symbol_id u = 0) || bool_decide (md_symbol_id u > max_symbols)).

(** The updates offered to the strategy's queue, with their sources. *)
Definition offer (p : Item * option MarketDataUpdate) : option (Z * QueuedUpdate) :=
  u ← p.2; if wanted u then Some (it_src p.1, {| update := u; recv_tsc := dg_t0 (it_d p.1); kernel_recv_ns := stamp p.1 |}) else None.

Definition entries (p : Item * option MarketDataUpdate) : list LogEntry :=
  let d := it_d p.1 in
  (if profile_stages then
     [{| tsc_timestamp := dg_log1 d; thread_id := kThreadIdMd; level := kInfo; payload := PLatency kFeedParse (u64 (dg_t1 d - dg_t0 d)) (dg_t0 d) |}]
   else []) ++
  match p.2 with
  | Some u =>
      if wanted u then
        [{| tsc_timestamp := dg_log2 d; thread_id := kThreadIdMd; level := kInfo;
            payload := PMarketData (md_seq_num u) (md_symbol_id u) (md_side u) (md_price u) (md_qty u) 0 |}]
      else []
  | None => []
  end.

Definition events (i : Item) : list Latency.Event :=
  RxKernelGap (stamp i) (it_ns i) :: (if profile_stages then [FeedParse (u64 (dg_t1 (it_d i) - dg_t0 (it_d i)))] else []).

(** Pushes one after the other: the queue, and which were accepted. *)
Definition push_all {T : Type} (q : Producer T) (xs : list T) : Producer T := fold_left (λ q x, (try_push q x).1) xs q.
Fixpoint answers {T : Type} (q : Producer T) (xs : list T) : list bool :=
  match xs with [] => [] | x :: xs => (try_push q x).2 :: answers (try_push q x).1 xs end.

Lemma push_all_app {T : Type} (q : Producer T) xs ys : push_all q (xs ++ ys) = push_all (push_all q xs) ys.
Proof. unfold push_all. by rewrite fold_left_app. Qed.
Lemma answers_app {T : Type} (q : Producer T) xs ys : answers q (xs ++ ys) = answers q xs ++ answers (push_all q xs) ys.
Proof. revert q. induction xs as [| x xs IH]; intros q; [done |]. cbn [answers app]. by rewrite IH. Qed.
Lemma length_answers {T : Type} (q : Producer T) xs : length (answers q xs) = length xs.
Proof. revert q. induction xs as [| x xs IH]; intros q; [done |]. cbn [answers length]. by rewrite IH. Qed.

(** The accepted ones are what a sieve by the answers keeps. *)
Definition kept {T : Type} (xs : list T) (bs : list bool) : list T := omap (λ p, if p.2 : bool then Some p.1 else None) (zip xs bs).
Lemma push_all_accepted {T : Type} (q : Producer T) xs : accepted (push_all q xs) = accepted q ++ kept xs (answers q xs).
Proof.
  revert q. induction xs as [| x xs IH]; intros q; [by rewrite app_nil_r |]. unfold push_all in *. cbn [fold_left answers]. rewrite IH.
  unfold kept. cbn [zip zip_with omap list_omap fst snd]. unfold try_push. destruct (room q) as [| [] r]; cbn [fst snd accepted]; by rewrite <- ?app_assoc.
Qed.

(** How often a source's updates were refused. *)
Definition refused (src : Z) (offered : list (Z * QueuedUpdate)) (bs : list bool) : Z :=
  lenZ (filter (λ p, p.1.1 = src ∧ p.2 = false) (zip offered bs)).

(** The counters kept per call. *)
Definition per_source (src : Z) (f : Batch → Z) (bs : list (Z * Batch)) : Z :=
  fold_right (λ p n, if decide (p.1 = src) then f p.2 + n else n) 0 bs.
Definition bytes_of (b : Batch) : Z := fold_right (λ d n, lenZ (taken md_ctx d) + n) 0 (bt_datagrams b).
Definition full_of (b : Batch) : Z := if decide (lenZ (bt_datagrams b) = batch_size md_ctx) then 1 else 0.

Lemma per_source_app src f bs bs' : per_source src f (bs ++ bs') = per_source src f bs + per_source src f bs'.
Proof. unfold per_source. induction bs as [| p bs IH]; [done |]. cbn. rewrite IH. case_decide; lia. Qed.

(** The shared state after some calls of [recvmmsg], of whose datagrams
    [hist] have been handled. *)
Record after (c0 : Shared) (past : list Latency.Event) (calls : list (Z * Batch)) (hist : list Item) (outs : list (option MarketDataUpdate)) (c : Shared) : Prop := {
  af_length : length outs = length hist;
  af_feed : outcomes (feed c0) (data_of <$> hist) = Some (feed c, outs);
  af_tracker : tracks (past ++ concat (events <$> hist)) (tracker c);
  af_queue : md_queue c = push_all (md_queue c0) (snd <$> omap offer (zip hist outs));
  af_log : log_queue c = push_all (log_queue c0) (concat (entries <$> zip hist outs));
  af_sources : length (stats c) = length (stats c0);
  af_stats src s0 : (stats c0).[src] = Some s0 →
    (stats c).[src] = Some
      {| packets := u64 (packets s0 + per_source src (λ b, lenZ (bt_datagrams b)) calls);
         bytes := u64 (bytes s0 + per_source src bytes_of calls);
         recv_batch_full := u64 (recv_batch_full s0 + per_source src full_of calls);
         queue_drops := u64 (queue_drops s0 + refused src (omap offer (zip hist outs)) (answers (md_queue c0) (snd <$> omap offer (zip hist outs)))) |};
}.

Definition stats_ok (st : list Stats) : Prop := Forall (λ s, is_u64 (packets s) ∧ is_u64 (bytes s) ∧ is_u64 (recv_batch_full s) ∧ is_u64 (queue_drops s)) st.

Lemma after_start c past : tracks past (tracker c) → stats_ok (stats c) → after c past [] [] [] c.
Proof.
  intros Ht Hs. split; try done; [by rewrite app_nil_r |]. intros src s0 Hs0. rewrite Hs0. do 2 f_equal. apply getZ_to_lookup in Hs0.
  unfold stats_ok in Hs. rewrite Forall_lookup in Hs. destruct (Hs _ _ Hs0) as (? & ? & ? & ?). unfold per_source, refused. cbn. destruct s0; cbn in *. by rewrite !Z.add_0_r, !u64_id by done.
Qed.

Lemma refused_app src xs ys bs bs' : length bs = length xs → refused src (xs ++ ys) (bs ++ bs') = refused src xs bs + refused src ys bs'.
Proof. intros Hl. unfold refused. rewrite zip_with_app by done. rewrite list.filter_app, length_app. lia. Qed.

Lemma u64_add_u64 a b : u64 (u64 a + b) = u64 (a + b).
Proof. unfold u64. by rewrite Zplus_mod_idemp_l. Qed.

Definition offer_list (p : Item * option MarketDataUpdate) : list (Z * QueuedUpdate) := option_list (offer p).

(** One more datagram. *)
Lemma after_next c0 past calls hist outs c i o c' :
  after c0 past calls hist outs c →
  Feed.on_udp_data native_little (feed c) (data_of i) = Some (feed c', o) →
  tracks ((past ++ concat (events <$> hist)) ++ events i) (tracker c') →
  md_queue c' = push_all (md_queue c) (snd <$> offer_list (i, o)) →
  log_queue c' = push_all (log_queue c) (entries (i, o)) →
  length (stats c') = length (stats c) →
  (∀ src s, (stats c).[src] = Some s → (stats c').[src] = Some
    {| packets := packets s; bytes := bytes s; recv_batch_full := recv_batch_full s;
       queue_drops := u64 (queue_drops s + refused src (offer_list (i, o)) (answers (md_queue c) (snd <$> offer_list (i, o)))) |}) →
  after c0 past calls (hist ++ [i]) (outs ++ [o]) c'.
Proof.
  intros [A1 A2 A3 A4 A5 A6 A7] Hf Ht Hq Hl Hn Hs.
  assert (zip (hist ++ [i]) (outs ++ [o]) = zip hist outs ++ [(i, o)]) as Hz by (by rewrite zip_with_app).
  assert (omap offer [(i, o)] = offer_list (i, o)) as Ho by (unfold offer_list; cbn; by destruct (offer (i, o))).
  split; rewrite ?Hz, ?fmap_app, ?omap_app, ?fmap_app, ?concat_app, ?Ho.
  - by rewrite !length_app, A1.
  - by apply (outcomes_snoc _ _ _ (feed c)).
  - cbn [fmap list_fmap concat]. by rewrite app_nil_r, app_assoc.
  - by rewrite push_all_app, <- A4.
  - cbn [fmap list_fmap concat]. by rewrite app_nil_r, push_all_app, <- A5.
  - congruence.
  - intros src s0 Hs0. rewrite (Hs _ _ (A7 src s0 Hs0)). cbn [packets bytes recv_batch_full queue_drops]. do 2 f_equal.
    rewrite answers_app, refused_app by (by rewrite length_answers, length_fmap). by rewrite <- A4, u64_add_u64, Z.add_assoc.
Qed.

Lemma on_udp_total h d : bytes_ok d → ∃ h' o, Feed.on_udp_data native_little h d = Some (h', o).
Proof.
  intros Hd. destruct (deserialize_market_data_total native_little d Hd) as (r & Hr & _). unfold Feed.on_udp_data. rewrite Hr. cbn [mbind option_bind].
  destruct r as [u |]; [| by eexists _, _]. destruct (negb (Feed.initialized_ h)); [by eexists _, _ |]. destruct (negb _); [| by eexists _, _]. case_bool_decide; by eexists _, _.
Qed.

Lemma find_stamp_range cs t : find_stamp native_little cs = Some t → is_s64 t.
Proof.
  induction cs as [| c cs IH]; cbn [find_stamp]; [intros [= <-]; unfold is_s64; lia |]. destruct (_ && _); [| done].
  unfold cmsg_ns, timespec_ns. destruct (memcpy_from _ _ _) as [bs |]; [| done]. cbn [mbind option_bind]. destruct (check_s64 (_ * _)) as [x |]; [| done].
  cbn [mbind option_bind]. unfold check_s64. case_bool_decide; [| done]. by intros [= <-].
Qed.

Lemma stamp_range d t : stamp_of native_little kCmsgBufSize d = Some t → is_s64 t.
Proof. unfold stamp_of. destruct (fits _ _); [apply find_stamp_range | intros [= <-]; unfold is_s64; lia]. Qed.

Lemma length_events hist : (length (concat (events <$> hist)) <= 2 * length hist)%nat.
Proof. induction hist as [| i hist IH]; [done |]. cbn [fmap list_fmap concat]. rewrite length_app. unfold events at 1. destruct profile_stages; cbn [length]; lia. Qed.

(** A datagram as the kernel may deliver it. *)
Record datagram_ok (d : Datagram) : Prop := {
  do_bytes : bytes_ok (dg_data d);
  do_stamp : is_Some (stamp_of native_little kCmsgBufSize d);
}.

Lemma wanted_false u : wanted u = false → bool_decide (md_symbol_id u = 0) || bool_decide (md_symbol_id u > max_symbols) = true.
Proof. unfold wanted. by intros ?%negb_false_iff. Qed.
Lemma wanted_true u : wanted u = true → bool_decide (md_symbol_id u = 0) || bool_decide (md_symbol_id u > max_symbols) = false.
Proof. unfold wanted. by intros ?%negb_true_iff. Qed.

Lemma same_stats (st : list Stats) src (xs : list (Z * QueuedUpdate)) bs : 
  (∀ s, st.[src] = Some s → is_u64 (queue_drops s)) → refused src xs bs = 0 → ∀ s, st.[src] = Some s → st.[src] = Some
    {| packets := packets s; bytes := bytes s; recv_batch_full := recv_batch_full s; queue_drops := u64 (queue_drops s + refused src xs bs) |}.
Proof. intros H0 -> s Hs. pose proof (H0 s Hs). rewrite Z.add_0_r, u64_id by done. rewrite Hs. by destruct s. Qed.

Lemma refused_one src s (q : QueuedUpdate) b : refused src [(s, q)] [b] = if decide (s = src ∧ b = false) then 1 else 0.
Proof. unfold refused. cbn [zip zip_with]. rewrite filter_cons. cbn [fst snd]. by case_decide. Qed.

(** The push of an update, or its refusal. *)
Lemma push_update_ok c src u t0 t log (s1 : Stats) :
  (stats c).[src] = Some s1 → (∀ src s, (stats c).[src] = Some s → is_u64 (queue_drops s)) →
  let q := {| update := u; recv_tsc := t0; kernel_recv_ns := t |} in
  let xs := if wanted u then [(src, q)] else [] in
  ∃ c', push_update max_symbols c src u t0 t log = Some c' ∧ feed c' = feed c ∧ tracker c' = tracker c ∧
    md_queue c' = push_all (md_queue c) (snd <$> xs) ∧
    log_queue c' = push_all (log_queue c) (if wanted u then [{| tsc_timestamp := log; thread_id := kThreadIdMd; level := kInfo;
      payload := PMarketData (md_seq_num u) (md_symbol_id u) (md_side u) (md_price u) (md_qty u) 0 |}] else []) ∧
    length (stats c') = length (stats c) ∧
    (∀ src s, (stats c).[src] = Some s → (stats c').[src] = Some
      {| packets := packets s; bytes := bytes s; recv_batch_full := recv_batch_full s;
         queue_drops := u64 (queue_drops s + refused src xs (answers (md_queue c) (snd <$> xs))) |}).
Proof.
  intros Hs1 Hu q xs. unfold push_update. destruct (wanted u) eqn:Hw.
  - rewrite (wanted_true _ Hw). fold q. cbn [fmap list_fmap snd xs answers]. destruct (try_push (md_queue c) q) as [md pushed] eqn:Ep. cbn [snd].
    destruct pushed; cbn [mbind option_bind].
    + eexists. split; [done |]. cbn [feed tracker md_queue log_queue stats]. do 2 (split; [done |]). unfold push_all. cbn [fold_left]. rewrite Ep.
      do 3 (split; [done |]). intros src' s Hs. apply same_stats; [by apply Hu | | done]. unfold xs. by rewrite refused_one, decide_False by (by intros [_ ?]).
    + unfold count_drop. rewrite Hs1. cbn [mbind option_bind]. pose proof (getZ_Some _ _ _ Hs1). rewrite storeZ_Some by done. cbn [mbind option_bind].
      eexists. split; [done |]. cbn [feed tracker md_queue log_queue stats]. do 2 (split; [done |]). unfold push_all. cbn [fold_left]. rewrite Ep.
      do 2 (split; [done |]). split; [unfold setZ; by rewrite length_insert |]. intros src' s Hs. rewrite getZ_setZ by done. unfold xs. rewrite refused_one.
      destruct (decide (src = src')) as [-> | Hne].
      * rewrite Hs1 in Hs. injection Hs as ->. by rewrite decide_True.
      * rewrite decide_False by (by intros [? _]). rewrite Hs. pose proof (Hu _ _ Hs). rewrite Z.add_0_r, u64_id by done. by destruct s.
  - rewrite (wanted_false _ Hw). exists c. do 6 (split; [done |]). intros src' s Hs. apply same_stats; [by apply Hu | done | done].
Qed.

Lemma after_drops c0 past calls hist outs c src s : after c0 past calls hist outs c → (stats c).[src] = Some s → is_u64 (queue_drops s).
Proof.
  intros [_ _ _ _ _ A6 A7] Hs. destruct (getZ_is_Some (stats c0) src) as [s0 Hs0]; [pose proof (getZ_Some _ _ _ Hs); lia |].
  rewrite (A7 src s0 Hs0) in Hs. injection Hs as <-. apply u64_range.
Qed.

Lemma process_ok c0 past calls hist outs c i s0 :
  after c0 past calls hist outs c → datagram_ok (it_d i) → is_s64 (it_ns i) → (stats c0).[it_src i] = Some s0 →
  lenZ (past ++ concat (events <$> hist)) + 2 < 2 ^ 64 →
  ∃ c' o, process native_little profile_stages max_symbols md_ctx c (it_src i) (it_ns i) (stamp i) (it_d i) = Some c' ∧ after c0 past calls (hist ++ [i]) (outs ++ [o]) c'.
Proof.
  intros Ha [Hb [t Ht]] Hns Hs0 Hlen. pose proof (stamp_range _ _ Ht) as Htr. assert (stamp i = t) as Hst by (by rewrite Ht).
  pose proof (af_tracker _ _ _ _ _ _ Ha) as Htk. unfold process, parse_datagram. rewrite Hst.
  destruct (step_tracks _ _ (RxKernelGap t (it_ns i)) Htk) as (t1 & E1 & Ht1); [done | lia |]. cbn [step] in E1. rewrite E1. cbn [mbind option_bind].
  destruct (on_udp_total (feed c) (data_of i)) as (h & o & E2); [by apply Forall_take |]. rewrite E2. cbn [mbind option_bind].
  assert (∃ t2, (if profile_stages then
      t ← Tracker.record_feed_parse t1 (u64 (dg_t1 (it_d i) - dg_t0 (it_d i)));
      Some (t, (log_latency (log_queue c) (dg_log1 (it_d i)) kThreadIdMd kFeedParse (u64 (dg_t1 (it_d i) - dg_t0 (it_d i))) (dg_t0 (it_d i))).1)
    else Some (t1, log_queue c)) = Some (t2, push_all (log_queue c) (entries (i, None))) ∧ tracks ((past ++ concat (events <$> hist)) ++ events i) t2) as (t2 & -> & Ht2).
  { assert (events i = RxKernelGap t (it_ns i) :: (if profile_stages then [FeedParse (u64 (dg_t1 (it_d i) - dg_t0 (it_d i)))] else [])) as -> by (unfold events; by rewrite Hst).
    unfold entries. destruct profile_stages; cbn [fst snd app].
    - destruct (step_tracks _ t1 (FeedParse (u64 (dg_t1 (it_d i) - dg_t0 (it_d i)))) Ht1) as (t2 & E3 & Ht2); [apply u64_range | rewrite length_app; cbn [length]; lia |].
      cbn [step] in E3. rewrite E3. cbn [mbind option_bind]. exists t2. split; [done |]. rewrite <- (app_assoc (past ++ _)) in Ht2. exact Ht2.
    - by exists t1. }
  cbn [mbind option_bind]. destruct o as [u |].
  - destruct (getZ_is_Some (stats c) (it_src i)) as [s1 Hs1]; [rewrite (af_sources _ _ _ _ _ _ Ha); by eapply getZ_Some |].
    match goal with |- context [push_update max_symbols ?x _ _ _ _ _] => set (c1 := x) end.
    destruct (push_update_ok c1 (it_src i) u (dg_t0 (it_d i)) t (dg_log2 (it_d i)) s1 Hs1) as (c' & E3 & F1 & F2 & F3 & F4 & F5 & F6);
      [intros src s Hs; by apply (after_drops _ _ _ _ _ _ src _ Ha) |].
    assert (offer_list (i, Some u) = if wanted u then [(it_src i, {| update := u; recv_tsc := dg_t0 (it_d i); kernel_recv_ns := t |})] else []) as Ho.
    { unfold offer_list, offer. cbn [fst snd mbind option_bind]. rewrite Hst. by destruct (wanted u). }
    exists c', (Some u). split; [exact E3 |]. apply (after_next _ _ _ _ _ c); try done.
    + by rewrite F1.
    + by rewrite F2.
    + by rewrite F3, Ho.
    + rewrite F4. cbn [c1 log_queue]. rewrite <- push_all_app. f_equal. unfold entries. cbn [fst snd]. by rewrite app_nil_r.
    + by rewrite Ho.
  - eexists _, None. split; [reflexivity |]. apply (after_next _ _ _ _ _ c); try done. cbn [stats].
    intros src s Hs. apply same_stats; [intros s'; by apply (after_drops _ _ _ _ _ _ _ _ Ha) | done | done].
Qed.

(** The loop over the datagrams of a batch. *)
Lemma handle_all_ok c0 past calls src ns s0 ds : ∀ s (j k : nat) hist outs,
  arrays_hold kCmsgBufSize md_ctx (arrays s) (replicate j None ++ (Some <$> ds) ++ replicate k None) →
  after c0 past calls hist outs (shared s) → Forall datagram_ok ds → is_s64 ns → (stats c0).[src] = Some s0 →
  lenZ past + 2 * (lenZ hist + lenZ ds) < 2 ^ 64 →
  ∃ s' outs', handle_all native_little profile_stages kCmsgBufSize max_symbols s src (Z.of_nat j) ns ds = Some s' ∧
    arrays_hold kCmsgBufSize md_ctx (arrays s') (replicate (j + (length ds + k)) None) ∧
    after c0 past calls (hist ++ ((λ d, {| it_src := src; it_ns := ns; it_d := d |}) <$> ds)) outs' (shared s').
Proof.
  induction ds as [| d ds IH]; intros s j k hist outs Ha Haf Hds Hns Hs0 Hlen.
  - exists s, outs. split; [done |]. cbn [fmap list_fmap app] in Ha. rewrite <- replicate_add in Ha. cbn. by rewrite app_nil_r.
  - apply Forall_cons_1 in Hds as [[Hb [t Ht]] Hds]. cbn [handle_all]. set (i := {| it_src := src; it_ns := ns; it_d := d |}).
    destruct (handle_ok native_little profile_stages kCmsgBufSize max_symbols md_ctx s _ j src ns d t Ha) as (a' & Ha' & ->); [| done |].
    { rewrite lookup_app_r, length_replicate, Nat.sub_diag by (by rewrite length_replicate). done. }
    assert (stamp i = t) as Hst by (cbn; by rewrite Ht).
    destruct (process_ok c0 past calls hist outs (shared s) i s0 Haf) as (c' & o & E & Haf'); [by split; [| exists t] | done | done | |].
    { rewrite length_app. pose proof (length_events hist). cbn [length] in Hlen. lia. }
    rewrite Hst in E. cbn [it_src it_ns it_d i] in E. rewrite E. cbn [mbind option_bind]. replace (Z.of_nat j + 1) with (Z.of_nat (S j)) by lia.
    destruct (IH {| arrays := a'; shared := c' |} (S j) k (hist ++ [i]) (outs ++ [o])) as (s' & outs' & E' & Hs' & Haf''); try done.
    + cbn [arrays]. cbn [fmap list_fmap app] in Ha'. rewrite insert_app_r_alt, length_replicate, Nat.sub_diag in Ha' by (by rewrite length_replicate).
      cbn [insert list_insert] in Ha'. rewrite replicate_S_end, <- app_assoc. exact Ha'.
    + rewrite length_app. cbn [length] in *. lia.
    + exists s', outs'. split; [done |]. split; [| by rewrite <- app_assoc in Haf'']. replace (j + (length (d :: ds) + k))%nat with (S j + (length ds + k))%nat by (cbn; lia). done.
Qed.

(** * Calls, events and waits *)

Definition ns_of (b : Batch) : Z := default 0 (timespec_ns (bt_sec b) (bt_nsec b)).
Definition items (p : Z * Batch) : list Item := (λ d, {| it_src := p.1; it_ns := ns_of p.2; it_d := d |}) <$> bt_datagrams p.2.

(** A call of [recvmmsg] as documented: some datagrams, no more than the
    batch, and a clock whose nanoseconds fit. *)
Record batch_ok (b : Batch) : Prop := {
  bo_some : bt_datagrams b ≠ [];
  bo_size : lenZ (bt_datagrams b) <= batch_size md_ctx;
  bo_datagrams : Forall datagram_ok (bt_datagrams b);
  bo_clock : is_Some (timespec_ns (bt_sec b) (bt_nsec b));
}.

Lemma add_bytes_ok ds : ∀ hs (m : nat) total,
  is_u64 total → (∀ i d, ds !! i = Some d → ∃ h, hs !! (m + i)%nat = Some h ∧ msg_len h = lenZ (taken md_ctx d)) →
  add_bytes (length ds) hs (Z.of_nat m) total = Some (u64 (total + fold_right (λ d n, lenZ (taken md_ctx d) + n) 0 ds)).
Proof.
  induction ds as [| d ds IH]; intros hs m total Ht Hh; cbn [length add_bytes fold_right]; [by rewrite Z.add_0_r, u64_id |].
  destruct (Hh 0%nat d eq_refl) as (h & Hm & Hlen). rewrite Nat.add_0_r in Hm. rewrite getZ_nat, Hm. cbn [mbind option_bind].
  replace (Z.of_nat m + 1) with (Z.of_nat (S m)) by lia. rewrite IH; [| apply u64_range |].
  - rewrite Hlen, u64_add_u64. by rewrite Z.add_assoc.
  - intros i d' Hd'. destruct (Hh (S i) d' Hd') as (h' & Hm' & ?). exists h'. by replace (S m + i)%nat with (m + S i)%nat by lia.
Qed.

Lemma after_counted c0 past calls hist outs c src b st s0 hs :
  after c0 past calls hist outs c → (stats c0).[src] = Some s0 →
  (∀ i d, bt_datagrams b !! i = Some d → ∃ h, hs !! i = Some h ∧ msg_len h = lenZ (taken md_ctx d)) →
  st = stats c →
  ∃ st', count_batch md_ctx st src (lenZ (bt_datagrams b)) hs = Some st' ∧
    after c0 past (calls ++ [(src, b)]) hist outs {| feed := feed c; tracker := tracker c; md_queue := md_queue c; log_queue := log_queue c; stats := st' |}.
Proof.
  intros [A1 A2 A3 A4 A5 A6 A7] Hs0 Hh ->. pose proof (A7 src s0 Hs0) as Hs. unfold count_batch. rewrite Hs. cbn [mbind option_bind bytes].
  rewrite Nat2Z.id. change 0 with (Z.of_nat 0). rewrite (add_bytes_ok (bt_datagrams b) hs 0) by (apply u64_range || done). cbn [mbind option_bind].
  rewrite storeZ_Some by (by eapply getZ_Some). eexists. split; [reflexivity |]. split; try done; cbn [stats].
  - unfold setZ. by rewrite length_insert.
  - intros src' s1 Hs1. rewrite getZ_setZ by (by eapply getZ_Some). rewrite !per_source_app. cbn [per_source fold_right fst snd packets bytes recv_batch_full queue_drops].
    destruct (decide (src = src')) as [-> |].
    + rewrite Hs0 in Hs1. injection Hs1 as ->. rewrite !u64_add_u64, !Z.add_0_r, !Z.add_assoc. do 2 f_equal. unfold full_of.
      case_bool_decide; [by rewrite decide_True | rewrite decide_False by done; by rewrite Z.add_0_r].
    + rewrite !Z.add_0_r. by apply A7.
Qed.

(** The state between two calls. *)
Definition state_after (c0 : Shared) (past : list Latency.Event) (calls : list (Z * Batch)) (s : State) : Prop :=
  ready kCmsgBufSize md_ctx (arrays s) ∧ ∃ outs, after c0 past calls (concat (items <$> calls)) outs (shared s).
Definition call_ok (c0 : Shared) (p : Z * Batch) : Prop := 0 <= p.1 < lenZ (stats c0) ∧ batch_ok p.2.
Definition room_for (past : list Latency.Event) (calls : list (Z * Batch)) : Prop := lenZ past + 2 * lenZ (concat (items <$> calls)) < 2 ^ 64.

Lemma items_snoc calls p : concat (items <$> (calls ++ [p])) = concat (items <$> calls) ++ items p.
Proof. rewrite fmap_app, concat_app. cbn [fmap list_fmap concat]. by rewrite app_nil_r. Qed.

Lemma on_batch_ok c0 past calls s src b :
  state_after c0 past calls s → call_ok c0 (src, b) → room_for past (calls ++ [(src, b)]) →
  ∃ s', on_batch native_little profile_stages kCmsgBufSize max_symbols md_ctx s src b = Some s' ∧ state_after c0 past (calls ++ [(src, b)]) s'.
Proof.
  intros [Hr (outs & Ha)] [Hsrc [_ Hsz Hds [ns Hns]]] Hroom. cbn [fst snd] in *. destruct (getZ_is_Some (stats c0) src Hsrc) as [s0 Hs0].
  set (k := (Z.to_nat (batch_size md_ctx) - length (bt_datagrams b))%nat). unfold on_batch.
  destruct (receive_all_ok kCmsgBufSize md_ctx (bt_datagrams b) (arrays s) 0 k []) as (a & E & Hra); [| done |].
  { replace (length (bt_datagrams b) + k)%nat with (Z.to_nat (batch_size md_ctx)) by lia. exact Hr. }
  change (Z.of_nat 0) with 0 in E. rewrite E. cbn [mbind option_bind]. rewrite Hns. cbn [mbind option_bind].
  destruct (after_counted c0 past calls _ outs (shared s) src b (stats (shared s)) s0 (msgvec a) Ha Hs0) as (st' & E' & Ha'); [| done |].
  { intros i d Hd. destruct (ah_all _ _ _ _ Hra i (Some d)) as (h & sl & cs & Hh & _ & _ & _ & -> & _); [| by eexists].
    cbn [app]. rewrite lookup_app_l; [by rewrite list_lookup_fmap, Hd | rewrite length_fmap; by eapply lookup_lt_Some]. }
  rewrite E'. cbn [mbind option_bind]. unfold room_for in Hroom. rewrite items_snoc, length_app in Hroom. unfold items in Hroom at 2. rewrite length_fmap in Hroom. cbn [snd] in Hroom.
  destruct (handle_all_ok c0 past (calls ++ [(src, b)]) src ns s0 (bt_datagrams b) {| arrays := a; shared := _ |} 0 k _ outs Hra Ha') as (s' & outs' & E3 & Hr' & Ha3); try done.
  - unfold timespec_ns in Hns. destruct (check_s64 (_ * _)) as [x |]; [| done]. cbn [mbind option_bind] in Hns. unfold check_s64 in Hns. case_bool_decide; [| done]. by injection Hns as <-.
  - lia.
  - change (Z.of_nat 0) with 0 in E3. exists s'. split; [exact E3 |]. split.
    + unfold ready. replace (Z.to_nat (batch_size md_ctx)) with (0 + (length (bt_datagrams b) + k))%nat by lia. exact Hr'.
    + exists outs'. rewrite items_snoc. unfold items at 2, ns_of. cbn [fst snd]. rewrite Hns. exact Ha3.
Qed.
(** The calls an event leads to. *)
Definition calls_of (e : Event) : list (Z * Batch) := if ev_in e then (λ b, (ev_src e, b)) <$> ev_batches e else [].

Lemma room_prefix past calls new : room_for past (calls ++ new) → room_for past calls.
Proof. unfold room_for. rewrite fmap_app, concat_app, length_app. lia. Qed.

Lemma drain_socket_ok c0 past src bs : ∀ calls s,
  state_after c0 past calls s → Forall (λ b, call_ok c0 (src, b)) bs → room_for past (calls ++ ((λ b, (src, b)) <$> bs)) →
  ∃ s', drain_socket native_little profile_stages kCmsgBufSize max_symbols md_ctx s src bs = Some s' ∧ state_after c0 past (calls ++ ((λ b, (src, b)) <$> bs)) s'.
Proof.
  induction bs as [| b bs IH]; intros calls s Hs Hok Hroom; [exists s; by rewrite app_nil_r |].
  apply Forall_cons_1 in Hok as [Hb Hbs]. cbn [drain_socket]. rewrite bool_decide_false by apply Hb. cbn [fmap list_fmap] in *. rewrite cons_middle, app_assoc in *.
  destruct (on_batch_ok c0 past calls s src b Hs Hb) as (s1 & -> & Hs1); [by eapply room_prefix |]. cbn [mbind option_bind]. by apply IH.
Qed.

Lemma on_events_ok c0 past es : ∀ calls s,
  state_after c0 past calls s → Forall (call_ok c0) (concat (calls_of <$> es)) → room_for past (calls ++ concat (calls_of <$> es)) →
  ∃ s', on_events native_little profile_stages kCmsgBufSize max_symbols md_ctx s es = Some s' ∧ state_after c0 past (calls ++ concat (calls_of <$> es)) s'.
Proof.
  induction es as [| e es IH]; intros calls s Hs Hok Hroom; [exists s; by rewrite app_nil_r |].
  cbn [fmap list_fmap concat on_events] in *. apply Forall_app in Hok as [He Hes]. rewrite app_assoc in *.
  assert (∃ s1, on_event native_little profile_stages kCmsgBufSize max_symbols md_ctx s e = Some s1 ∧ state_after c0 past (calls ++ calls_of e) s1) as (s1 & -> & Hs1).
  { apply room_prefix in Hroom. unfold on_event, calls_of in *. destruct (ev_in e); [| exists s; by rewrite app_nil_r].
    apply drain_socket_ok; [done | rewrite list.Forall_fmap in He; exact He | done]. }
  cbn [mbind option_bind]. by apply IH.
Qed.

Lemma md_run_ok c0 past waits : ∀ calls s,
  state_after c0 past calls s → Forall (call_ok c0) (concat (calls_of <$> concat waits)) → room_for past (calls ++ concat (calls_of <$> concat waits)) →
  ∃ s', run native_little profile_stages kCmsgBufSize max_symbols md_ctx s waits = Some s' ∧ state_after c0 past (calls ++ concat (calls_of <$> concat waits)) s'.
Proof.
  induction waits as [| es waits IH]; intros calls s Hs Hok Hroom; [exists s; by rewrite app_nil_r |].
  cbn [concat run] in *. rewrite fmap_app, concat_app in *. apply Forall_app in Hok as [He Hes]. rewrite app_assoc in *.
  destruct (on_events_ok c0 past es calls s Hs He) as (s1 & -> & Hs1); [by eapply room_prefix |]. cbn [mbind option_bind]. by apply IH.
Qed.
End Effects.

(** The arrays that [make_md_ctx] wires are ready. *)
Lemma carved_ready kCmsgBufSize c ss cs :
  0 <= MdCarve.batch_size c → length ss = Z.to_nat (MdCarve.batch_size c) → length cs = Z.to_nat (MdCarve.batch_size c) → Forall (λ sl : list Z, lenZ sl = MdCarve.buf_size c) ss →
  ready kCmsgBufSize c {| MdFeed.msgvec := header_of kCmsgBufSize c <$> seqZ 0 (MdCarve.batch_size c); MdFeed.slots := ss; MdFeed.controls := cs |}.
Proof.
  intros Hb Hss Hcs Hsl. split; cbn; rewrite ?length_replicate; try done.
  - by rewrite length_fmap, length_seqZ.
  - intros j o Ho. apply lookup_replicate in Ho as [-> Hj]. destruct (lookup_lt_is_Some_2 ss j) as [sl Hslj]; [congruence |]. destruct (lookup_lt_is_Some_2 cs j) as [cm Hcm]; [congruence |].
    eexists _, sl, cm. cbn. split; [rewrite list_lookup_fmap, lookup_seqZ_lt by lia; reflexivity |]. split; [done |]. split; [done |].
    split; [rewrite Forall_lookup in Hsl; by eapply Hsl |]. by exists 0, 0.
Qed.

(** * Correctness *)

(** C10. From the arrays [make_md_ctx] wires, over any number of waits, events
    and batches, the thread handles every datagram of the sources once and in
    order: its shared state is the feed handler after all of them, the
    tracker with one receive gap each, the strategy's queue with every
    accepted update of a listed symbol offered in order, each with the
    timestamps of its own datagram (an update is missing there only where the
    queue refused it, and the source's drop counter counts it), the log with
    its entries, and the exact counters of the sources.  After every call the
    headers again offer their own slot and the whole control buffer, so a
    timestamp that fits it is never lost. *)
Theorem md_thread_correct (native_little profile_stages : bool) (kCmsgBufSize max_symbols base batch size : Z) (content : list MdCarve.iovec) :
  0 <= base → base mod 64 = 0 → 0 < batch < 2 ^ 32 → 0 <= size < 2 ^ 20 → cmsg_space_ok kCmsgBufSize → batch <= lenZ content →
  ∃ c headers, MdCarve.make_md_ctx kCmsgBufSize base batch size content = Some (c, iovec_of c <$> seqZ 0 batch, headers) ∧
    ∀ slots controls sh waits past,
      let calls := concat (calls_of <$> concat waits) in
      let hist := concat (items <$> calls) in
      lenZ slots = batch → lenZ controls = batch → Forall (λ sl : list Z, lenZ sl = size) slots →
      tracks past (MdFeed.tracker sh) → stats_ok (MdFeed.stats sh) →
      Forall (call_ok native_little kCmsgBufSize c sh) calls → room_for past calls →
      ∃ s' outs,
        MdFeed.run native_little profile_stages kCmsgBufSize max_symbols c
          {| MdFeed.arrays := {| MdFeed.msgvec := headers; MdFeed.slots := slots; MdFeed.controls := controls |}; MdFeed.shared := sh |} waits = Some s' ∧
        ready kCmsgBufSize c (MdFeed.arrays s') ∧
        after native_little profile_stages kCmsgBufSize max_symbols c sh past calls hist outs (MdFeed.shared s') ∧
        Feed.on_feed native_little (MdFeed.feed sh) ((λ i, taken c (it_d i)) <$> hist) = Some (MdFeed.feed (MdFeed.shared s'), omap id outs) ∧
        let offered := snd <$> omap (offer native_little kCmsgBufSize max_symbols) (zip hist outs) in
        accepted (MdFeed.md_queue (MdFeed.shared s')) = accepted (MdFeed.md_queue sh) ++ kept offered (answers (MdFeed.md_queue sh) offered).
Proof.
  intros H1 H2 H3 H4 H5 H6. destruct (md_carve_spec kCmsgBufSize base batch size content H1 H2 H3 H4 H5 H6) as (c & Hc & <- & <- & _).
  exists c, (header_of kCmsgBufSize c <$> seqZ 0 (MdCarve.batch_size c)). split; [done |].
  intros slots controls sh waits past calls hist Hsl Hco Hsz Ht Hst Hok Hroom.
  destruct (md_run_ok native_little profile_stages kCmsgBufSize max_symbols c sh past waits []
    {| MdFeed.arrays := {| MdFeed.msgvec := header_of kCmsgBufSize c <$> seqZ 0 (MdCarve.batch_size c); MdFeed.slots := slots; MdFeed.controls := controls |}; MdFeed.shared := sh |})
    as (s' & Hrun & Hready & outs & Haf); [| done | done |].
  { split; [apply carved_ready; done || lia |]. exists []. by apply after_start. }
  exists s', outs. split; [exact Hrun |]. split; [done |]. split; [exact Haf |]. split.
  - apply on_feed_outcomes, (af_feed _ _ _ _ _ _ _ _ _ _ _ Haf).
  - rewrite (af_queue _ _ _ _ _ _ _ _ _ _ _ Haf). apply push_all_accepted.
Qed.

(** Two sources; three datagrams, of which the last is a copy of the first
    and the second has no timestamp. *)
Definition demo_update (seq symbol : Z) : MarketDataUpdate :=
  {| md_seq_num := seq; md_symbol_id := symbol; md_msg_type := 1; md_side := 0; md_price := 100; md_qty := 7; md_exchange_ts := 5 |}.
Definition demo_datagram (md : MarketDataUpdate) (cs : list MdFeed.Cmsg) (len t0 : Z) : MdFeed.Datagram :=
  {| MdFeed.dg_data := layout_market_data md; MdFeed.dg_cmsgs := cs; MdFeed.dg_controllen := len; MdFeed.dg_t0 := t0; MdFeed.dg_t1 := t0 + 9; MdFeed.dg_log1 := t0 + 10; MdFeed.dg_log2 := t0 + 11 |}.
Definition demo_cmsg : MdFeed.Cmsg := {| MdFeed.cmsg_level := 1; MdFeed.cmsg_type := 35; MdFeed.cmsg_data := to_le 8 3 ++ to_le 8 250 |}.
Definition demo_waits : list (list MdFeed.Event) :=
  let batch ds := {| MdFeed.bt_sec := 3; MdFeed.bt_nsec := 900; MdFeed.bt_datagrams := ds |} in
  [[{| MdFeed.ev_in := true; MdFeed.ev_src := 0; MdFeed.ev_batches := [batch [demo_datagram (demo_update 1 2) [demo_cmsg] 32 1000; demo_datagram (demo_update 2 2) [] 0 1100]] |}];
   [{| MdFeed.ev_in := true; MdFeed.ev_src := 1; MdFeed.ev_batches := [batch [demo_datagram (demo_update 1 2) [demo_cmsg] 32 1200]] |}]].
Definition demo_shared : MdFeed.Shared :=
  let z := {| MdFeed.packets := 0; MdFeed.bytes := 0; MdFeed.recv_batch_full := 0; MdFeed.queue_drops := 0 |} in
  {| MdFeed.feed := Feed.construct; MdFeed.tracker := Tracker.construct; MdFeed.md_queue := {| room := [true; false]; accepted := [] |};
     MdFeed.log_queue := {| room := []; accepted := [] |}; MdFeed.stats := [z; z] |}.
Definition demo_ctx_content : list MdCarve.iovec := replicate 2 {| MdCarve.iov_base := 0; MdCarve.iov_len := 0 |}.

Lemma demo_datagram_ok md cs len t0 :
  MarketDataUpdate_ok md → is_Some (stamp_of true 32 (demo_datagram md cs len t0)) → datagram_ok true 32 (demo_datagram md cs len t0).
Proof. intros Hm Hs. split; [| done]. cbn. unfold layout_market_data. repeat apply Forall_app_2; apply to_be_bytes. Qed.

Lemma md_thread_correct_witness :
  ∃ c headers s', MdCarve.make_md_ctx 32 0 2 64 demo_ctx_content = Some (c, iovec_of c <$> seqZ 0 2, headers) ∧
    MdFeed.run true false 32 10 c
      {| MdFeed.arrays := {| MdFeed.msgvec := headers; MdFeed.slots := replicate 2 (replicate 64 0); MdFeed.controls := [[]; []] |}; MdFeed.shared := demo_shared |} demo_waits = Some s' ∧
    ready 32 c (MdFeed.arrays s').
Proof.
  destruct (md_thread_correct true false 32 10 0 2 64 demo_ctx_content) as (c & headers & Hc & H); [lia | done | lia | lia | by split | done |].
  destruct (H (replicate 2 (replicate 64 0)) [[]; []] demo_shared demo_waits []) as (s' & outs & Hrun & Hready & _); try done.
  - repeat constructor.
  - apply construct_tracks.
  - repeat (apply list.Forall_cons; split); [| | apply list.Forall_nil; done]; cbn; unfold is_u64; lia.
  - assert (MdCarve.batch_size c = 2) as Hc2 by (vm_compute in Hc; by injection Hc as <- _).
    assert (∀ ds, (ds ≠ []) → lenZ ds <= 2 → Forall (datagram_ok true 32) ds → batch_ok true 32 c {| MdFeed.bt_sec := 3; MdFeed.bt_nsec := 900; MdFeed.bt_datagrams := ds |}) as Hb.
    { intros ds H1 H2 H3. split; try done. by rewrite Hc2. }
    assert (∀ seq cs len t0, seq ∈ [1; 2] → is_Some (stamp_of true 32 (demo_datagram (demo_update seq 2) cs len t0)) → datagram_ok true 32 (demo_datagram (demo_update seq 2) cs len t0)) as Hd.
    { intros seq cs len t0 Hseq Hs. apply demo_datagram_ok; [| done]. unfold MarketDataUpdate_ok, is_u64, is_u32, is_u8, is_s64. cbn. set_unfold. lia. }
    repeat (apply list.Forall_cons; split); try apply list.Forall_nil; try done; (split; [cbn; lia |]; apply Hb; [done | cbn; lia |]);
      repeat (apply list.Forall_cons; split); try apply list.Forall_nil; try done; (apply Hd; [set_solver | by eexists; vm_compute]).
  - by exists c, headers, s'.
Defined.
