(* ===== verification/ExchangeGateway.v ===== *)
(** The order gateway of the exchange:
    [src/apps/simulated_exchange/exchange_gateway_main.cpp].

    Two threads and one client.  The receiving thread turns the client's
    bytes into requests for the engine, and answers heartbeats and throttled
    requests through a queue of its own; the sending thread turns the engine's
    events and that queue into bytes.  What the other threads and processes
    do shows in what a thread reads: whether its pushes find room
    ([ExchangeIpc.v]), whether it is asked to stop, the session it loads, the
    events its pops yield.  The kernel is that of [TcpSocket.v].  The
    receive buffer is the list of its first [rx_fill] bytes; nothing else of
    it is read. *)
From S2P Require Import Prelude.
From S2P Require Import TradingTypes.
From S2P Require Import Protocol.
From S2P Require Import Framing.
From S2P Require Import ExchangeCore.
From S2P Require Import TcpSocket.
From S2P Require Import ExchangeIpc.
Local Open Scope Z_scope.

Module Gateway.
Import Tcp Ipc.

Definition kSendTimeoutNs : Z := 1000000.
Definition kRxBufSize : Z := 8192.
Definition kTxBufSize : Z := 512.
Definition kPendingSize : Z := 64.

Definition zeros (n : Z) : list Z := replicate (Z.to_nat n) 0.

(** [data] has always [kPendingSize] bytes. *)
Record PendingSend : Set := { ps_len : Z; ps_data : list Z }.

(** * Sending *)

(** The loop of [send_full]; a socket that stays full reaches the deadline. *)
Fixpoint send_rest (answers : list SendAnswer) (ts : list Z) (deadline : Z) (buf : list Z) (total : Z)
    : list SendAnswer * list Z * list Z * bool :=
  if bool_decide (total < lenZ buf) then
    match answers with
    | [] => ([], ts, [], false)
    | Room n :: answers =>
        let taken := take n (drop (Z.to_nat total) buf) in
        if bool_decide (lenZ taken > 0) then
          let '(answers, ts, more, ok) := send_rest answers ts deadline buf (total + lenZ taken) in
          (answers, ts, taken ++ more, ok)
        else (answers, ts, [], false)
    | SendError e :: answers =>
        if bool_decide (e = EINTR) then send_rest answers ts deadline buf total
        else if would_block e then
          let '(now, ts) := match ts with [] => (0, []) | [t] => (t, [t]) | t :: ts => (t, ts) end in
          if bool_decide (now >= deadline) then (answers, ts, [], false) else send_rest answers ts deadline buf total
        else (answers, ts, [], false)
    end
  else (answers, ts, [], true).

Definition send_full (w : Os) (data : list Z) : Os * bool :=
  let '(now, w) := monotonic_nanos w in
  let '(rest, ts, taken, ok) := send_rest (sends w) (clock w) (now + kSendTimeoutNs) data 0 in
  ({| sends := rest; recvs := recvs w; wire := wire w ++ taken; later := later w; past := past w; clock := ts |}, ok).

(** * Events and messages *)

Section Host.
Context (native_little : bool).

Definition serialize_one_event (event : ExchangeEvent) (buf : list Z) : option (list Z * Z) :=
  let payload_buf := zeros 256 in
  match ev_type event with
  | kOrderAccepted =>
      '(pb, plen) ← serialize_order_ack native_little payload_buf
        {| oa_client_order_id := ev_client_order_id event; oa_exchange_order_id := ev_exchange_order_id event;
           oa_send_ts := ev_send_ts event |};
      pack_tcp_message native_little buf Protocol.kOrderAck (take (Z.to_nat plen) pb)
  | kOrderRejected =>
      '(pb, plen) ← serialize_order_reject native_little payload_buf
        {| or_client_order_id := ev_client_order_id event; or_reason := reason_id (ev_reason event);
           or_send_ts := ev_send_ts event |};
      pack_tcp_message native_little buf Protocol.kOrderReject (take (Z.to_nat plen) pb)
  | kFill =>
      '(pb, plen) ← serialize_fill_report native_little payload_buf
        {| fr_client_order_id := ev_client_order_id event; fr_exchange_order_id := ev_exchange_order_id event;
           fr_fill_price := ev_price event; fr_fill_qty := ev_qty event; fr_remaining_qty := ev_remaining_qty event;
           fr_send_ts := ev_send_ts event |};
      pack_tcp_message native_little buf Protocol.kFillReport (take (Z.to_nat plen) pb)
  | ExchangeCore.kCancelAck =>
      '(pb, plen) ← serialize_cancel_ack native_little payload_buf
        {| ca_client_order_id := ev_client_order_id event; ca_send_ts := ev_send_ts event |};
      pack_tcp_message native_little buf Protocol.kCancelAck (take (Z.to_nat plen) pb)
  | kCancelRejected =>
      '(pb, plen) ← serialize_cancel_reject native_little payload_buf
        {| cr_client_order_id := ev_client_order_id event; cr_reason := reason_id (ev_reason event);
           cr_send_ts := ev_send_ts event |};
      pack_tcp_message native_little buf Protocol.kCancelReject (take (Z.to_nat plen) pb)
  | ExchangeCore.kModifyAck =>
      '(pb, plen) ← serialize_modify_ack native_little payload_buf
        {| ma_client_order_id := ev_client_order_id event; ma_new_exchange_order_id := ev_exchange_order_id event;
           ma_send_ts := ev_send_ts event |};
      pack_tcp_message native_little buf Protocol.kModifyAck (take (Z.to_nat plen) pb)
  | kModifyRejected =>
      '(pb, plen) ← serialize_modify_reject native_little payload_buf
        {| mr_client_order_id := ev_client_order_id event; mr_reason := reason_id (ev_reason event);
           mr_send_ts := ev_send_ts event |};
      pack_tcp_message native_little buf Protocol.kModifyReject (take (Z.to_nat plen) pb)
  | kBBOUpdate | kSessionAssigned => Some (buf, 0)
  end.

(** The fields every request has; the others are the type's defaults. *)
Definition blank_request (t : OrderRequestType) (gateway_id session_id request_seq client_order_id symbol_id send_ts : Z) : OrderRequest :=
  {| rq_type := t; rq_gateway_id := gateway_id; rq_session_id := session_id; rq_request_seq := request_seq;
     rq_client_order_id := client_order_id; rq_symbol_id := symbol_id; rq_side := 0; rq_price := 0; rq_qty := 0;
     rq_new_price := 0; rq_new_qty := 0; rq_send_ts := send_ts |}.

Definition request_of_new (gateway_id session_id request_seq : Z) (order : NewOrder) : OrderRequest :=
  {| rq_type := rqNewOrder; rq_gateway_id := gateway_id; rq_session_id := session_id; rq_request_seq := request_seq;
     rq_client_order_id := no_client_order_id order; rq_symbol_id := no_symbol_id order; rq_side := no_side order;
     rq_price := no_price order; rq_qty := no_qty order; rq_new_price := 0; rq_new_qty := 0;
     rq_send_ts := no_send_ts order |}.
Definition request_of_cancel (gateway_id session_id request_seq : Z) (cancel : CancelOrder) : OrderRequest :=
  blank_request rqCancelOrder gateway_id session_id request_seq (co_client_order_id cancel) (co_symbol_id cancel)
    (co_send_ts cancel).
Definition request_of_modify (gateway_id session_id request_seq : Z) (modify : ModifyOrder) : OrderRequest :=
  {| rq_type := rqModifyOrder; rq_gateway_id := gateway_id; rq_session_id := session_id; rq_request_seq := request_seq;
     rq_client_order_id := mo_client_order_id modify; rq_symbol_id := mo_symbol_id modify; rq_side := 0;
     rq_price := 0; rq_qty := 0; rq_new_price := mo_new_price modify; rq_new_qty := mo_new_qty modify;
     rq_send_ts := mo_send_ts modify |}.

Definition parse_frame_to_request (frame : list Z) (session_id request_seq gateway_id : Z) : option (option OrderRequest) :=
  parsed ← unpack_message native_little frame;
  match parsed with
  | None => Some None
  | Some msg =>
      if negb (verify_protocol_version (mh_version (pmv_header msg))) then Some None
      else
        let msg_type := mh_msg_type (pmv_header msg) in
        if bool_decide (msg_type = msg_type_id Protocol.kNewOrder) then
          order ← deserialize_new_order native_little (pmv_payload msg);
          Some (option_map (request_of_new gateway_id session_id request_seq) order)
        else if bool_decide (msg_type = msg_type_id Protocol.kCancelOrder) then
          cancel ← deserialize_cancel_order native_little (pmv_payload msg);
          Some (option_map (request_of_cancel gateway_id session_id request_seq) cancel)
        else if bool_decide (msg_type = msg_type_id Protocol.kModifyOrder) then
          modify ← deserialize_modify_order native_little (pmv_payload msg);
          Some (option_map (request_of_modify gateway_id session_id request_seq) modify)
        else Some None
  end.

(** * The receiving thread *)

Record Recv : Set := {
  rx : list Z;
  next_seq : Z;
  request_queue : Producer OrderRequest;
  send_queue : Producer PendingSend;
  stops : list bool;         (* the answers of should_stop; used up, it goes on *)
  recv_os : Os;
}.

Context (gateway_id : Z).
Implicit Types (r : Recv).

Definition with_rx r (bs : list Z) : Recv :=
  {| rx := bs; next_seq := next_seq r; request_queue := request_queue r; send_queue := send_queue r; stops := stops r;
     recv_os := recv_os r |}.
Definition with_recv_os r w : Recv :=
  {| rx := rx r; next_seq := next_seq r; request_queue := request_queue r; send_queue := send_queue r; stops := stops r;
     recv_os := w |}.

Definition should_stop r : bool * Recv :=
  match stops r with
  | [] => (false, r)
  | b :: rest => (b, {| rx := rx r; next_seq := next_seq r; request_queue := request_queue r; send_queue := send_queue r;
                        stops := rest; recv_os := recv_os r |})
  end.
Definition take_seq r : Z * Recv :=
  (next_seq r, {| rx := rx r; next_seq := u32 (next_seq r + 1); request_queue := request_queue r; send_queue := send_queue r;
                  stops := stops r; recv_os := recv_os r |}).
Definition push_request r (req : OrderRequest) : Recv * bool :=
  let '(q, ok) := try_push (request_queue r) req in
  ({| rx := rx r; next_seq := next_seq r; request_queue := q; send_queue := send_queue r; stops := stops r;
      recv_os := recv_os r |}, ok).
Definition push_send r (p : PendingSend) : Recv * bool :=
  let '(q, ok) := try_push (send_queue r) p in
  ({| rx := rx r; next_seq := next_seq r; request_queue := request_queue r; send_queue := q; stops := stops r;
      recv_os := recv_os r |}, ok).

(** The typed rejection of a request the engine's queue had no room for. *)
Definition throttled (req : OrderRequest) (session : Z) : ExchangeEvent :=
  ev_rejected (match rq_type req with rqCancelOrder => kCancelRejected | rqModifyOrder => kModifyRejected | _ => kOrderRejected end)
    session (rq_client_order_id req) 0 (rq_send_ts req) kThrottled.

(** One complete frame; [false] is a jump to [disconnect]. *)
Definition handle_frame r (session : Z) (frame : list Z) : option (Recv * bool) :=
  peek ← unpack_message native_little frame;
  match peek with
  | None => Some (r, true)
  | Some peek =>
      if negb (verify_protocol_version (mh_version (pmv_header peek))) then Some (r, true)
      else if bool_decide (mh_msg_type (pmv_header peek) = msg_type_id Protocol.kHeartbeat) then
        '(data, len) ← pack_tcp_message native_little (zeros kPendingSize) Protocol.kHeartbeatAck [];
        Some (push_send r {| ps_len := len; ps_data := data |})
      else if bool_decide (session = 0) then Some (r, true)
      else
        let '(seq, r) := take_seq r in
        parsed ← parse_frame_to_request frame session seq gateway_id;
        match parsed with
        | None => Some (r, true)
        | Some req =>
            let '(r, pushed) := push_request r req in
            if pushed : bool then Some (r, true)
            else
              '(data, len) ← serialize_one_event (throttled req session) (zeros kPendingSize);
              if bool_decide (len > 0) then Some (push_send r {| ps_len := len; ps_data := data |})
              else Some (r, true)
        end
  end.

(** The parse loop, with the bytes consumed so far. *)
Fixpoint parse_frames (fuel : nat) r (session consumed : Z) : option (Recv * Z * bool) :=
  if bool_decide (consumed < lenZ (rx r)) then
    let '(stop, r) := should_stop r in
    if stop : bool then Some (r, consumed, true)
    else
      match fuel with
      | O => None
      | S fuel =>
          result ← MessageCodecFramer_decode native_little (drop (Z.to_nat consumed) (rx r));
          match fdr_status result with
          | kIncomplete => Some (r, consumed, true)
          | Framing.kError => Some (r, consumed, false)
          | Framing.kOk =>
              '(r, go) ← handle_frame r session (fdr_payload result);
              if go : bool then parse_frames fuel r session (consumed + fdr_frame_size result) else Some (r, consumed, false)
          end
      end
  else Some (r, consumed, true).

Inductive Received : Set := Bytes (bs : list Z) | Nothing | Closed.

Definition recv_once (answers : list RecvAnswer) (space : Z) : list RecvAnswer * Received :=
  match answers with
  | [] => ([], Nothing)
  | Arrived bs :: answers =>
      let got := take (Z.to_nat space) bs in
      (unread (Z.to_nat space) bs answers, if bool_decide (got = []) then Closed else Bytes got)
  | RecvError e :: answers => (answers, if would_block e || bool_decide (e = EINTR) then Nothing else Closed)
  end.

(** One iteration of the receive loop; [false] ends the loop. *)
Definition recv_iteration r (session : Z) : option (Recv * bool) :=
  let space := kRxBufSize - lenZ (rx r) in
  if bool_decide (space = 0) then Some (r, false)
  else
    let '(answers, got) := recv_once (recvs (recv_os r)) space in
    let r := with_recv_os r (with_recvs (recv_os r) answers) in
    match got with
    | Closed => Some (r, false)
    | _ =>
        let r := match got with Bytes bs => with_rx r (rx r ++ bs) | _ => r end in
        '(r, consumed, go) ← parse_frames (length (rx r)) r session 0;
        if go : bool then Some (with_rx r (drop (Z.to_nat consumed) (rx r)), true) else Some (r, false)
    end.

(** The loop over the iterations there is time for, with the session each
    of them loads. *)
Fixpoint recv_loop r (sessions : list Z) : option (Recv * bool) :=
  match sessions with
  | [] => Some (r, true)
  | session :: sessions =>
      let '(stop, r) := should_stop r in
      if stop : bool then Some (r, false)
      else
        '(r, go) ← recv_iteration r session;
        if go : bool then recv_loop r sessions else Some (r, false)
  end.

(** After the client was accepted: the connection request, the loop, and the
    notice of the end; [bool]: whether the thread has ended. *)
Definition recv_thread r (client_fd : Z) (sessions : list Z) (final_session : Z) : option (Recv * bool) :=
  let '(seq, r) := take_seq r in
  let '(r, pushed) := push_request r (blank_request rqClientConnect gateway_id 0 seq (u64 client_fd) 0 0) in
  if negb pushed then Some (r, true)
  else
    '(r, running) ← recv_loop r sessions;
    if running : bool then Some (r, false)
    else if bool_decide (final_session = 0) then Some (r, true)
    else
      let '(seq, r) := take_seq r in
      let '(r, _) := push_request r (blank_request rqClientDisconnect gateway_id final_session seq 0 0 0) in
      Some (r, true).

(** * The sending thread *)

Record Send : Set := {
  session_id : Z;
  connected : bool;          (* client_fd_shared is a descriptor *)
  tx_buf : list Z;
  send_os : Os;
  stop : bool;
}.
Implicit Types (s : Send).

Definition with_sent s (tx : list Z) w : Send :=
  {| session_id := session_id s; connected := connected s; tx_buf := tx; send_os := w; stop := stop s |}.
Definition with_session s (id : Z) : Send :=
  {| session_id := id; connected := connected s; tx_buf := tx_buf s; send_os := send_os s; stop := stop s |}.
(** A send that failed: shutdown, no descriptor, and both threads stop. *)
Definition hang_up s : Send :=
  {| session_id := session_id s; connected := false; tx_buf := tx_buf s; send_os := send_os s; stop := true |}.

(** The events the queue yields while it is polled; [fd] was read before. *)
Fixpoint send_events s (fd : bool) (events : list ExchangeEvent) : option Send :=
  match events with
  | [] => Some s
  | event :: events =>
      if bool_decide (ev_type event = kSessionAssigned) then send_events (with_session s (ev_session_id event)) fd events
      else
        '(tx, len) ← serialize_one_event event (tx_buf s);
        let s := with_sent s tx (send_os s) in
        if bool_decide (len = 0) || negb fd then send_events s fd events
        else
          let '(w, ok) := send_full (send_os s) (take (Z.to_nat len) tx) in
          let s := with_sent s tx w in
          if ok : bool then send_events s fd events else Some (hang_up s)
  end.

Fixpoint send_pending s (pending : list PendingSend) : Send :=
  match pending with
  | [] => s
  | p :: pending =>
      if connected s then
        let '(w, ok) := send_full (send_os s) (take (Z.to_nat (ps_len p)) (ps_data p)) in
        let s := with_sent s (tx_buf s) w in
        if ok : bool then send_pending s pending else hang_up s
      else send_pending s pending
  end.

Definition send_iteration s (events : list ExchangeEvent) (pending : list PendingSend) : option Send :=
  s ← send_events s (connected s) events;
  Some (send_pending s pending).

Fixpoint send_loop s (rounds : list (list ExchangeEvent * list PendingSend)) : option Send :=
  match rounds with
  | [] => Some s
  | (events, pending) :: rounds =>
      if stop s then Some s else s ← send_iteration s events pending; send_loop s rounds
  end.
End Host.
End Gateway.
