(* ===== verification/GatewaySpec.v ===== *)
(** What the gateway's threads ([ExchangeGateway.v]) do, message by message:
    the receiving thread is [serve] over the frames of the stream, however it
    is cut into receives; the sending thread puts the frames of the engine's
    events on the wire.

    What the gateway's sending thread ([ExchangeGateway.v]) puts on the wire:
    the frames of the engine's events and of the local answers, in order and
    whole, until a send fails; then the beginning of the next frame at most,
    and nothing after it. *)
From S2P Require Import Prelude.
From S2P Require Import TradingTypes.
From S2P Require Import Endian.
From S2P Require Import Protocol.
From S2P Require Import ProtocolTotal.
From S2P Require Import Framing.
From S2P Require Import ByteStream.
From S2P Require Import OrderManager.
From S2P Require Import TcpSocket.
From S2P Require Import TcpConnection.
From S2P Require Import StrategyRx.
From S2P Require Import OrderPathSpec.
From S2P Require Import ExchangeCore.
From S2P Require Import ExchangeIpc.
From S2P Require Import ExchangeGateway.
Local Open Scope Z_scope.

Module GatewaySpec.
Import Tcp Ipc Gateway OrderPathSpec OrderIn STRx.

(** * Events as responses *)

Definition response_of (ev : ExchangeEvent) : option Response :=
  match ev_type ev with
  | kOrderAccepted => Some (ROrderAck {| oa_client_order_id := ev_client_order_id ev;
      oa_exchange_order_id := ev_exchange_order_id ev; oa_send_ts := ev_send_ts ev |})
  | kOrderRejected => Some (ROrderReject {| or_client_order_id := ev_client_order_id ev;
      or_reason := reason_id (ev_reason ev); or_send_ts := ev_send_ts ev |})
  | kFill => Some (RFill {| fr_client_order_id := ev_client_order_id ev; fr_exchange_order_id := ev_exchange_order_id ev;
      fr_fill_price := ev_price ev; fr_fill_qty := ev_qty ev; fr_remaining_qty := ev_remaining_qty ev;
      fr_send_ts := ev_send_ts ev |})
  | ExchangeCore.kCancelAck => Some (RCancelAck {| ca_client_order_id := ev_client_order_id ev; ca_send_ts := ev_send_ts ev |})
  | kCancelRejected => Some (RCancelReject {| cr_client_order_id := ev_client_order_id ev;
      cr_reason := reason_id (ev_reason ev); cr_send_ts := ev_send_ts ev |})
  | ExchangeCore.kModifyAck => Some (RModifyAck {| ma_client_order_id := ev_client_order_id ev;
      ma_new_exchange_order_id := ev_exchange_order_id ev; ma_send_ts := ev_send_ts ev |})
  | kModifyRejected => Some (RModifyReject {| mr_client_order_id := ev_client_order_id ev;
      mr_reason := reason_id (ev_reason ev); mr_send_ts := ev_send_ts ev |})
  | kBBOUpdate | kSessionAssigned => None
  end.

(** The ranges of an event's C++ types. *)
Definition event_ok (ev : ExchangeEvent) : Prop :=
  is_u64 (ev_client_order_id ev) ∧ is_u64 (ev_exchange_order_id ev) ∧ is_s64 (ev_price ev) ∧ is_u32 (ev_qty ev) ∧
  is_u32 (ev_remaining_qty ev) ∧ is_s64 (ev_send_ts ev).

Lemma reason_id_u8 r : is_u8 (reason_id r).
Proof. destruct r; simpl; mlia. Qed.

Lemma response_of_ok ev r : event_ok ev → response_of ev = Some r → response_ok r.
Proof.
  intros (H1 & H2 & H3 & H4 & H5 & H6) Hr. pose proof (reason_id_u8 (ev_reason ev)).
  unfold response_of in Hr. destruct (ev_type ev); try done; injection Hr as <-; by repeat (split; [assumption |]).
Qed.

(** What serialising does to a buffer that has room. *)
Definition written (buf : list Z) (f : list Z) : list Z := f ++ drop (length f) buf.

Section Host.
Context (native_little : bool).

Lemma pack_tcp_eq buf t payload :
  bytes_ok payload → lenZ payload <= kMaxPayloadSize → kMessageHeaderSize + lenZ payload <= lenZ buf →
  pack_tcp_message native_little buf t payload =
    Some (written buf (frame_bytes (tcp_frame t payload)), lenZ (frame_bytes (tcp_frame t payload))).
Proof.
  intros Hp Hl Hb. unfold pack_tcp_message. pose proof (tcp_frame_ok t payload Hp Hl) as Hok.
  pose proof (pack_message_eq native_little buf _ _ _ _ Hok Hb) as E. cbn [tcp_frame fm_version fm_type fm_flags fm_payload] in E. rewrite E.
  pose proof (frame_bytes_length (tcp_frame t payload)) as Hlen. unfold written. change (fm_payload (tcp_frame t payload)) with payload in Hlen.
  rewrite Hlen. unfold kMessageHeaderSize in Hlen. by replace (16 + length payload)%nat with (length (frame_bytes (tcp_frame t payload))) by lia.
Qed.

Lemma pack_payload buf t payload rest size :
  bytes_ok payload → size = lenZ payload → lenZ payload <= 256 → kMessageHeaderSize + lenZ payload <= lenZ buf →
  pack_tcp_message native_little buf t (take (Z.to_nat size) (payload ++ rest)) =
    Some (written buf (frame_bytes (tcp_frame t payload)), lenZ (frame_bytes (tcp_frame t payload))).
Proof.
  intros Hp -> Hl Hb. replace (Z.to_nat (lenZ payload)) with (length payload) by lia. rewrite take_app_length.
  apply pack_tcp_eq; [done | unfold kMaxPayloadSize; lia | done].
Qed.

Lemma serialize_one_event_spec ev buf :
  event_ok ev → 56 <= lenZ buf →
  serialize_one_event native_little ev buf =
    match response_of ev with
    | Some r => Some (written buf (frame_bytes (response_frame r)), lenZ (frame_bytes (response_frame r)))
    | None => Some (buf, 0)
    end.
Proof.
  intros Hev Hb. destruct (response_of ev) as [r |] eqn:Er.
  2:{ unfold response_of, serialize_one_event in *. by destruct (ev_type ev). }
  pose proof (response_of_ok ev r Hev Er) as Hr. pose proof (response_frame_ok r Hr) as Hf.
  unfold response_of in Er. unfold serialize_one_event. assert (lenZ (zeros 256) = 256) as Hz by done.
  destruct (ev_type ev); try done; injection Er as <-; cbn [response_ok] in Hr.
  all: first [rewrite serialize_order_ack_eq | rewrite serialize_order_reject_eq | rewrite serialize_fill_report_eq | rewrite serialize_cancel_ack_eq
    | rewrite serialize_cancel_reject_eq | rewrite serialize_modify_ack_eq | rewrite serialize_modify_reject_eq];
    [| exact Hr | rewrite Hz; unfold kOrderAckWireSize, kOrderRejectWireSize, kFillReportWireSize, kCancelAckWireSize, kCancelRejectWireSize,
         kModifyAckWireSize, kModifyRejectWireSize; lia].
  all: cbn [mbind option_bind response_frame]; apply pack_payload; [apply Hf | | |].
  all: unfold layout_order_ack, layout_order_reject, layout_fill_report, layout_cancel_ack, layout_cancel_reject, layout_modify_ack, layout_modify_reject.
  all: rewrite ?length_app, ?length_to_be; unfold kMessageHeaderSize, kOrderAckWireSize, kOrderRejectWireSize, kFillReportWireSize,
    kCancelAckWireSize, kCancelRejectWireSize, kModifyAckWireSize, kModifyRejectWireSize; lia.
Qed.

(** * Frames as requests *)

Context (gateway_id : Z).

(** A version-checked message that is no heartbeat, as a request. *)
Definition translate (session seq : Z) (m : ParsedMessageView) : option OrderRequest :=
  let ty := mh_msg_type (pmv_header m) in
  if bool_decide (ty = msg_type_id Protocol.kNewOrder) then
    option_map (request_of_new gateway_id session seq) (default None (deserialize_new_order native_little (pmv_payload m)))
  else if bool_decide (ty = msg_type_id Protocol.kCancelOrder) then
    option_map (request_of_cancel gateway_id session seq) (default None (deserialize_cancel_order native_little (pmv_payload m)))
  else if bool_decide (ty = msg_type_id Protocol.kModifyOrder) then
    option_map (request_of_modify gateway_id session seq) (default None (deserialize_modify_order native_little (pmv_payload m)))
  else None.

Lemma unpack_frame f : frame_ok f → unpack_message native_little (frame_bytes f) = Some (Some (frame_view f)).
Proof.
  intros Hf. pose proof (unpack_message_frame native_little _ _ _ _ [] Hf (Forall_nil_2 _)) as H. by rewrite app_nil_r in H.
Qed.

Lemma parse_frame_spec f session seq :
  frame_ok f → fm_version f = kProtocolVersion →
  parse_frame_to_request native_little (frame_bytes f) session seq gateway_id = Some (translate session seq (frame_view f)).
Proof.
  intros Hf Hv. unfold parse_frame_to_request. rewrite unpack_frame by done. cbn [mbind option_bind].
  change (mh_version (pmv_header (frame_view f))) with (fm_version f). unfold verify_protocol_version. rewrite bool_decide_true by done. cbn [negb].
  assert (bytes_ok (pmv_payload (frame_view f))) as Hb by apply Hf. unfold translate.
  destruct (deserialize_new_order_total native_little _ Hb) as (r1 & E1 & _).
  destruct (deserialize_cancel_order_total native_little _ Hb) as (r2 & E2 & _).
  destruct (deserialize_modify_order_total native_little _ Hb) as (r3 & E3 & _). rewrite E1, E2, E3. cbn [mbind option_bind default from_option].
  by repeat case_bool_decide.
Qed.

Lemma translate_ok session seq f req :
  frame_ok f → translate session seq (frame_view f) = Some req → is_u64 (rq_client_order_id req) ∧ is_s64 (rq_send_ts req).
Proof.
  intros Hf. assert (bytes_ok (pmv_payload (frame_view f))) as Hb by apply Hf. unfold translate.
  destruct (deserialize_new_order_total native_little _ Hb) as (r1 & E1 & H1).
  destruct (deserialize_cancel_order_total native_little _ Hb) as (r2 & E2 & H2).
  destruct (deserialize_modify_order_total native_little _ Hb) as (r3 & E3 & H3). rewrite E1, E2, E3. cbn [default from_option].
  repeat case_bool_decide; [destruct r1 as [x |] | destruct r2 as [x |] | destruct r3 as [x |] | done]; intros [= <-].
  - destruct (H1 x eq_refl) as (? & _ & _ & _ & _ & ?). by split.
  - destruct (H2 x eq_refl) as (? & _ & ?). by split.
  - destruct (H3 x eq_refl) as (? & _ & _ & _ & ?). by split.
Qed.

(** * The receiving thread, message by message *)

Definition pending_frame (f : list Z) : PendingSend := {| ps_len := lenZ f; ps_data := written (zeros kPendingSize) f |}.

(** The rejection of a request that found the engine's queue full. *)
Definition throttle_response (req : OrderRequest) : Response :=
  let cid := rq_client_order_id req in
  match rq_type req with
  | rqCancelOrder => RCancelReject {| cr_client_order_id := cid; cr_reason := reason_id kThrottled; cr_send_ts := rq_send_ts req |}
  | rqModifyOrder => RModifyReject {| mr_client_order_id := cid; mr_reason := reason_id kThrottled; mr_send_ts := rq_send_ts req |}
  | _ => ROrderReject {| or_client_order_id := cid; or_reason := reason_id kThrottled; or_send_ts := rq_send_ts req |}
  end.

Definition serve (r : Recv) (session : Z) (f : Frame) : Recv * bool :=
  if negb (verify_protocol_version (fm_version f)) then (r, true)
  else if bool_decide (fm_type f = msg_type_id Protocol.kHeartbeat)
  then push_send r (pending_frame (frame_bytes (response_frame RHeartbeatAck)))
  else if bool_decide (session = 0) then (r, true)
  else
    let '(seq, r) := take_seq r in
    match translate session seq (frame_view f) with
    | None => (r, true)
    | Some req =>
        let '(r, pushed) := push_request r req in
        if pushed : bool then (r, true) else push_send r (pending_frame (frame_bytes (response_frame (throttle_response req))))
    end.

Fixpoint serve_all (r : Recv) (session : Z) (fs : list Frame) : Recv * bool :=
  match fs with
  | [] => (r, true)
  | f :: fs => let '(r, go) := serve r session f in if go : bool then serve_all r session fs else (r, false)
  end.

Lemma handle_frame_spec r session f :
  frame_ok f → handle_frame native_little gateway_id r session (frame_bytes f) = Some (serve r session f).
Proof.
  intros Hf. unfold handle_frame, serve. rewrite unpack_frame by done. cbn [mbind option_bind].
  change (mh_version (pmv_header (frame_view f))) with (fm_version f). change (mh_msg_type (pmv_header (frame_view f))) with (fm_type f).
  destruct (verify_protocol_version (fm_version f)) eqn:Hv; cbn [negb]; [| done]. apply bool_decide_eq_true in Hv.
  case_bool_decide as Hb.
  { rewrite pack_tcp_eq; [done | constructor | unfold kMaxPayloadSize; simpl; lia | done]. }
  case_bool_decide; [done |]. cbn [take_seq]. rewrite parse_frame_spec by done. cbn [mbind option_bind].
  destruct (translate session (next_seq r) (frame_view f)) as [req |] eqn:Et; [| done].
  destruct (translate_ok _ _ _ _ Hf Et) as [Hc Hts]. destruct (push_request _ req) as [r1 pushed]. destruct pushed; [done |].
  rewrite serialize_one_event_spec; [| unfold throttled, event_ok; simpl; split; [done |]; split; [mlia |]; split; [mlia |]; split; [mlia |]; split; [mlia | done] | done].
  assert (response_of (throttled req session) = Some (throttle_response req)) as ->.
  { unfold throttled, throttle_response, response_of. by destruct (rq_type req). }
  cbn [mbind option_bind]. pose proof (frame_bytes_length (response_frame (throttle_response req))).
  rewrite bool_decide_true by (unfold kMessageHeaderSize in *; lia). done.
Qed.

(** What is served depends on neither the buffer nor the kernel. *)
Lemma serve_with r session f bs w :
  serve (with_rx (with_recv_os r w) bs) session f =
    (with_rx (with_recv_os (serve r session f).1 w) bs, (serve r session f).2) ∧
  rx (serve r session f).1 = rx r ∧ stops (serve r session f).1 = stops r ∧ recv_os (serve r session f).1 = recv_os r.
Proof.
  unfold serve. destruct (verify_protocol_version _); cbn [negb]; [| done].
  unfold push_send, push_request, take_seq. simpl. case_bool_decide; [by destruct (try_push _ _) |]. case_bool_decide; [done |].
  destruct (translate _ _ _) as [req |]; [| done]. destruct (try_push (request_queue r) req) as [q [|]]; [done |]. by destruct (try_push _ _).
Qed.

Lemma serve_all_with r session fs bs w :
  serve_all (with_rx (with_recv_os r w) bs) session fs =
    (with_rx (with_recv_os (serve_all r session fs).1 w) bs, (serve_all r session fs).2) ∧
  rx (serve_all r session fs).1 = rx r ∧ stops (serve_all r session fs).1 = stops r ∧ recv_os (serve_all r session fs).1 = recv_os r.
Proof.
  revert r. induction fs as [| f fs IH]; intros r; [done |]. cbn [serve_all].
  destruct (serve_with r session f bs w) as (E & H1 & H2 & H3). rewrite E. destruct (serve r session f) as [r1 go]. cbn [fst snd] in *.
  destruct go; [| done]. destruct (IH r1) as (E2 & H4 & H5 & H6). rewrite E2. split; [done |]. split_and!; congruence.
Qed.

Lemma serve_all_app r session fs1 fs2 :
  serve_all r session (fs1 ++ fs2) =
    (if (serve_all r session fs1).2 then serve_all (serve_all r session fs1).1 session fs2 else serve_all r session fs1).
Proof.
  revert r. induction fs1 as [| f fs1 IH]; intros r; [done |]. cbn [app serve_all]. destruct (serve r session f) as [r1 [|]]; [apply IH | done].
Qed.

(** The parse loop over whole frames and the beginning of one. *)
Lemma parse_frames_spec session size part fs : ∀ fuel r pre,
  well_framed size fs part → stops r = [] → rx r = pre ++ concat (frame_bytes <$> fs) ++ part →
  (length (concat (frame_bytes <$> fs)) + length part <= fuel)%nat →
  ∃ consumed, parse_frames native_little gateway_id fuel r session (lenZ pre) =
      Some ((serve_all r session fs).1, consumed, (serve_all r session fs).2) ∧
    ((serve_all r session fs).2 = true → drop (Z.to_nat consumed) (rx r) = part).
Proof.
  induction fs as [| f fs IH]; intros fuel r pre Hwf Hst Hrx Hfuel; cbn [fmap list_fmap concat serve_all] in *.
  - exists (lenZ pre). split; [| intros _; by rewrite Hrx, Nat2Z.id, drop_app_length].
    destruct fuel as [| fuel]; cbn [parse_frames]; rewrite Hrx, !length_app; cbn [length] in *.
    { rewrite bool_decide_false by lia. done. }
    case_bool_decide as Hlt; [| done]. unfold should_stop. rewrite Hst. rewrite Hrx, Nat2Z.id, drop_app_length.
    destruct Hwf as (_ & _ & g & more & Hg & _ & Hpm & Hne).
    pose proof (codec_decode_part native_little (frame_bytes g) (frame_bytes g) part more) as Hd.
    rewrite app_nil_l. rewrite Hd; [done | | done | done].
    exists (fm_version g), (fm_type g), (fm_flags g), (fm_payload g). done.
  - pose proof Hwf as (Hfs & Hpos & Hpart). inversion_clear Hfs as [| ? ? [Hf Hfsz] Hfs'].
    pose proof (frame_bytes_length f) as Hlf. unfold kMessageHeaderSize in Hlf. rewrite length_app in Hfuel.
    destruct fuel as [| fuel]; [lia |]. cbn [parse_frames]. rewrite Hrx, !length_app, bool_decide_true by lia.
    unfold should_stop. rewrite Hst, Hrx, Nat2Z.id, drop_app_length.
    assert (bytes_ok (concat (frame_bytes <$> fs) ++ part)) as Hb.
    { apply Forall_app. split; [apply stream_bytes_ok; eapply Forall_impl; [| exact Hfs']; by intros ? [? _] |].
      by apply (well_framed_part size (f :: fs) part). }
    pose proof (codec_decode native_little (frame_bytes f) (frame_bytes f) (concat (frame_bytes <$> fs) ++ part)) as Hd.
    rewrite <- !app_assoc. rewrite Hd; [| | done].
    2:{ by exists (fm_version f), (fm_type f), (fm_flags f), (fm_payload f). }
    cbn [mbind option_bind fdr_status fdr_payload fdr_frame_size]. rewrite handle_frame_spec by done. cbn [mbind option_bind].
    destruct (serve_with r session f [] (recv_os r)) as (_ & H1 & H2 & H3). destruct (serve r session f) as [r1 go]. cbn [fst snd] in *.
    destruct go; [| by eexists].
    destruct (IH fuel r1 (pre ++ frame_bytes f)) as (consumed & E & Hc); [by split | congruence | rewrite H1, Hrx, <- !app_assoc; done | lia |].
    rewrite length_app, Nat2Z.inj_add in E. exists consumed. split; [exact E |]. intros Hgo. rewrite H1, Hrx, <- app_assoc in Hc. by apply Hc.
Qed.

(** * The receive loop *)

(** Bytes that are the beginning of one frame hold no whole ones. *)
Lemma nothing_whole fs part p :
  p = concat (frame_bytes <$> fs) ++ part → well_framed kRxBufSize fs part → well_framed kRxBufSize [] p → fs = [] ∧ part = p.
Proof.
  intros Hp Hwf Hwp. pose proof (split_well_framed native_little kRxBufSize fs part Hwf) as H1.
  pose proof (split_well_framed native_little kRxBufSize [] p Hwp) as H2. cbn [fmap list_fmap concat] in H2. rewrite app_nil_l in H2.
  rewrite <- Hp, H2 in H1. injection H1 as H3 H4. by destruct fs.
Qed.

(** An iteration that finds [got] waiting, or nothing. *)
Lemma recv_iteration_spec r session answers got fs1 part' :
  stops r = [] → lenZ (rx r) < kRxBufSize →
  recv_once (recvs (recv_os r)) (kRxBufSize - lenZ (rx r)) = (answers, if bool_decide (got = []) then Nothing else Bytes got) →
  rx r ++ got = concat (frame_bytes <$> fs1) ++ part' → well_framed kRxBufSize fs1 part' →
  ∃ r', recv_iteration native_little gateway_id r session = Some (r', (serve_all r session fs1).2) ∧
    next_seq r' = next_seq (serve_all r session fs1).1 ∧ request_queue r' = request_queue (serve_all r session fs1).1 ∧
    send_queue r' = send_queue (serve_all r session fs1).1 ∧
    ((serve_all r session fs1).2 = true →
     r' = with_rx (with_recv_os (serve_all r session fs1).1 (with_recvs (recv_os r) answers)) part').
Proof.
  intros Hst Hlt Honce Hq Hwf. unfold recv_iteration. rewrite bool_decide_false by lia. rewrite Honce.
  set (w := with_recvs (recv_os r) answers). set (r1 := with_rx (with_recv_os r w) (rx r ++ got)).
  assert (Hgot : ∃ got', (if bool_decide (got = []) then Nothing else Bytes got) = got' ∧ got' ≠ Closed ∧
    match got' with Bytes bs => with_rx (with_recv_os r w) (rx (with_recv_os r w) ++ bs) | _ => with_recv_os r w end = r1).
  { eexists. split; [done |]. unfold r1. case_bool_decide as Hg; [| done]. split; [done |]. rewrite Hg, app_nil_r. by destruct r. }
  destruct Hgot as (got' & -> & Hnc & Hr1).
  assert (∀ A (x y : A), match got' with Closed => x | _ => y end = y) as Hm by by destruct got'. rewrite Hm, Hr1.
  destruct (parse_frames_spec session kRxBufSize part' fs1 (length (rx r1)) r1 [] Hwf Hst) as (consumed & E & Hc); [exact Hq | unfold r1; simpl; rewrite Hq, length_app; lia |].
  destruct (serve_all_with r session fs1 (rx r ++ got) w) as (E2 & H1 & H2 & H3). unfold r1 in E, Hc. rewrite E2 in E, Hc. cbn [fst snd] in E, Hc.
  change (lenZ []) with 0 in E. unfold r1. rewrite E. cbn [mbind option_bind]. destruct (serve_all r session fs1) as [r2 go]. cbn [fst snd] in *.
  destruct go; [| by eexists]. eexists. split; [reflexivity |]. split; [done |]. split; [done |]. split; [done |]. intros _.
  cbn [with_rx rx] in Hc |- *. by rewrite (Hc eq_refl).
Qed.

Lemma recv_loop_spec session n : ∀ r segments fs part,
  stops r = [] → recvs (recv_os r) = Arrived <$> segments → Forall bytes_ok segments → Forall (λ x, x ≠ []) segments →
  rx r ++ concat segments = concat (frame_bytes <$> fs) ++ part → well_framed kRxBufSize fs part →
  well_framed kRxBufSize [] (rx r) → (recv_size (Arrived <$> segments) <= n)%nat →
  ∃ r', recv_loop native_little gateway_id r (replicate n session) = Some (r', (serve_all r session fs).2) ∧
    next_seq r' = next_seq (serve_all r session fs).1 ∧ request_queue r' = request_queue (serve_all r session fs).1 ∧
    send_queue r' = send_queue (serve_all r session fs).1 ∧
    ((serve_all r session fs).2 = true → rx r' = part ∧ recvs (recv_os r') = [] ∧ stops r' = []).
Proof.
  induction n as [| n IH]; intros r segments fs part Hst Hrecv Hbo Hne Hcat Hwf Hwp Hn.
  { destruct segments as [| b segments]; [| simpl in Hn; lia]. cbn [concat] in Hcat. rewrite app_nil_r in Hcat.
    destruct (nothing_whole fs part (rx r) Hcat Hwf Hwp) as [-> ->]. by exists r. }
  cbn [replicate recv_loop]. unfold should_stop. rewrite Hst.
  destruct (well_framed_part kRxBufSize [] (rx r) Hwp) as [Hlt _]. unfold kRxBufSize in Hlt.
  destruct segments as [| b segments].
  - cbn [concat] in Hcat. rewrite app_nil_r in Hcat. destruct (nothing_whole fs part (rx r) Hcat Hwf Hwp) as [-> ->].
    destruct (recv_iteration_spec r session [] [] [] (rx r) Hst Hlt) as (r1 & E & _ & _ & _ & Hr1); [by rewrite Hrecv | by rewrite app_nil_r | done |].
    cbn [serve_all fst snd] in E, Hr1. rewrite E. cbn [mbind option_bind]. rewrite (Hr1 eq_refl).
    destruct (IH (with_rx (with_recv_os r (with_recvs (recv_os r) [])) (rx r)) [] [] (rx r)) as (r' & E' & H); try done; [by rewrite app_nil_r | simpl; lia |].
    exists r'. by split.
  - inversion_clear Hbo as [| ? ? Hb Hbo']. inversion_clear Hne as [| ? ? Hnb Hne'].
    set (k := Z.to_nat (kRxBufSize - lenZ (rx r))). assert (0 < k)%nat as Hk by (unfold k, kRxBufSize; lia).
    destruct (rest_segments_spec k b segments Hk Hnb Hb Hbo' Hne') as (Hrl & Hc2 & Hsz & Hro & Hrn). set (segs := rest_segments k b segments) in *.
    assert (take k b ≠ []) as Ht by (destruct b, k; try done; lia).
    assert (recv_once (recvs (recv_os r)) (kRxBufSize - lenZ (rx r)) = (Arrived <$> segs, if bool_decide (take k b = []) then Nothing else Bytes (take k b))) as Honce.
    { rewrite Hrecv. cbn [fmap list_fmap recv_once]. fold k. rewrite !bool_decide_false by done. f_equal.
      unfold segs, rest_segments, unread. by case_bool_decide. }
    cbn [concat] in Hcat. rewrite <- Hc2, app_assoc in Hcat.
    destruct (well_framed_prefix kRxBufSize fs part (rx r ++ take k b) (concat segs) Hwf) as (fs1 & fs2 & part' & -> & Hq & Hwf1 & Hrest); [by rewrite Hcat |].
    destruct (recv_iteration_spec r session _ (take k b) fs1 part' Hst Hlt Honce Hq Hwf1) as (r1 & E & Hs1 & Hs2 & Hs3 & Hr1).
    rewrite E, serve_all_app. cbn [mbind option_bind].
    destruct (serve_all_with r session fs1 [] (recv_os r)) as (_ & K1 & K2 & K3).
    destruct (serve_all r session fs1) as [r2 go] eqn:Es. cbn [fst snd] in *. destruct go; [| by exists r1]. rewrite (Hr1 eq_refl).
    set (r3 := with_rx (with_recv_os r2 _) part').
    destruct (serve_all_with r2 session fs2 part' (with_recvs (recv_os r) (Arrived <$> segs))) as (E3 & _). fold r3 in E3.
    assert (well_framed kRxBufSize fs2 part) as Hwf2.
    { destruct Hwf as (Hf & Hp & Hg). split; [by apply Forall_app in Hf as [_ ?] | done]. }
    assert (well_framed kRxBufSize [] part') as Hwp'.
    { destruct Hwf1 as (_ & Hp & Hg). split; [constructor | done]. }
    destruct (IH r3 segs fs2 part) as (r' & E' & H1 & H2 & H3 & H4); try done; [unfold r3; simpl; congruence | unfold recv_size in *; lia |].
    rewrite E3 in E', H1, H2, H3, H4. exists r'. by split_and!.
Qed.
End Host.
End GatewaySpec.

Module GatewayOut.
Import Tcp Ipc Gateway OrderPathSpec OrderIn GatewaySpec.

(** * [send_full] *)

(** The loop ends without a further byte. *)
Local Ltac no_more :=
  do 5 eexists; split; [reflexivity | split; [symmetry; apply app_nil_l | first [done | intros _; by rewrite drop_ge by lia]]].

Lemma send_rest_spec answers : ∀ ts deadline buf total,
  0 <= total <= lenZ buf →
  ∃ a t taken rest ok, send_rest answers ts deadline buf total = (a, t, taken, ok) ∧
    drop (Z.to_nat total) buf = taken ++ rest ∧ (ok = true → rest = []).
Proof.
  induction answers as [| [n | e] answers IH]; intros ts deadline buf total Ht; cbn [send_rest].
  - case_bool_decide; no_more.
  - case_bool_decide as Hlt; [| no_more]. set (rest := drop (Z.to_nat total) buf) in *.
    pose proof (length_drop buf (Z.to_nat total)) as Hl. fold rest in Hl. case_bool_decide as Hpos; [| no_more].
    destruct (IH ts deadline buf (total + lenZ (take n rest))) as (a & t & taken & more & ok & E & Hd & Hok).
    { rewrite length_take. lia. }
    rewrite E. exists a, t, (take n rest ++ taken), more, ok. split; [done |]. split; [| done].
    rewrite <- app_assoc, <- Hd, Z2Nat.inj_add, Nat2Z.id by lia. rewrite <- drop_drop. fold rest.
    rewrite length_take. destruct (decide (n <= length rest)%nat).
    + by rewrite Nat.min_l, take_drop by done.
    + rewrite Nat.min_r, take_ge, drop_all, app_nil_r by lia. done.
  - case_bool_decide as Hlt; [| no_more]. case_bool_decide; [by apply IH |]. destruct (would_block e); [| no_more].
    destruct ts as [| t [| t' ts]]; (case_bool_decide; [no_more | by apply IH]).
Qed.

(** A socket with room for the message takes it at once. *)
Lemma send_rest_room n answers ts deadline buf :
  buf ≠ [] → lenZ buf <= Z.of_nat n → send_rest (Room n :: answers) ts deadline buf 0 = (answers, ts, buf, true).
Proof.
  intros Hne Hn. assert (0 < lenZ buf) as Hpos by (destruct buf; [done | simpl; lia]). cbn [send_rest].
  rewrite bool_decide_true by done. rewrite drop_0, take_ge, bool_decide_true by lia.
  destruct answers as [| [m | e] answers]; cbn [send_rest]; rewrite bool_decide_false by lia; by rewrite app_nil_r.
Qed.

(** Reading the clock changes nothing else. *)
Lemma monotonic_keeps w : ∃ now w1, monotonic_nanos w = (now, w1) ∧ sends w1 = sends w ∧ wire w1 = wire w.
Proof.
  unfold monotonic_nanos. destruct (clock w) as [| t [| t' ts]]; by (do 2 eexists; split; [reflexivity |]).
Qed.

Lemma send_full_spec w data :
  ∃ w' taken rest ok, send_full w data = (w', ok) ∧ wire w' = wire w ++ taken ∧ data = taken ++ rest ∧ (ok = true → rest = []).
Proof.
  unfold send_full. destruct (monotonic_keeps w) as (now & w1 & -> & _ & <-).
  destruct (send_rest_spec (sends w1) (clock w1) (now + kSendTimeoutNs) data 0) as (a & t & taken & rest & ok & E & Hd & Hok); [lia |].
  rewrite E. by exists {| sends := a; recvs := recvs w1; wire := wire w1 ++ taken; later := later w1; past := past w1; clock := t |}, taken, rest, ok.
Qed.

(** [n] messages of at most 56 bytes find room. *)
Definition roomy (n : nat) (w : Os) : Prop :=
  ∃ ns more, sends w = (Room <$> ns) ++ more ∧ (n <= length ns)%nat ∧ Forall (λ m, 56 <= m)%nat ns.

Lemma send_full_roomy n w data :
  roomy (S n) w → data ≠ [] → lenZ data <= 56 →
  ∃ w', send_full w data = (w', true) ∧ wire w' = wire w ++ data ∧ roomy n w'.
Proof.
  intros (ns & more & Hs & Hn & Hns) Hne Hl. destruct ns as [| m ns]; [simpl in Hn; lia |]. inversion_clear Hns as [| ? ? Hm Hns'].
  unfold send_full. destruct (monotonic_keeps w) as (now & w1 & -> & Hs1 & Hw1).
  rewrite Hs1, Hs, Hw1. cbn [fmap list_fmap app]. rewrite send_rest_room by (done || lia).
  eexists. split; [reflexivity |]. split; [done |]. exists ns, more. split; [done |]. split; [simpl in Hn; lia | done].
Qed.

(** * The thread *)

Definition sent_bytes (rs : list Response) : list Z := concat ((frame_bytes ∘ response_frame) <$> rs).

(** The session after a batch of events. *)
Definition assigned (id : Z) (events : list ExchangeEvent) : Z :=
  foldl (λ id ev, if bool_decide (ev_type ev = kSessionAssigned) then ev_session_id ev else id) id events.

Section Host.
Context (native_little : bool).
Implicit Types (s : Send).

(** The outcome of sending [rs]: all of it, or the beginning and the end of
    the connection. *)
Record sent s (rs : list Response) s' (ok : bool) : Prop := {
  sent_wire : ∃ taken rest, wire (send_os s') = wire (send_os s) ++ taken ∧ sent_bytes rs = taken ++ rest ∧ (ok = true → rest = []);
  sent_end : stop s' = (if ok then stop s else true) ∧ connected s' = (if ok then connected s else false);
  sent_buf : length (tx_buf s') = length (tx_buf s);
}.

Lemma nothing_sent s s' :
  wire (send_os s') = wire (send_os s) → stop s' = stop s → connected s' = connected s → length (tx_buf s') = length (tx_buf s) →
  sent s [] s' true.
Proof. intros. split; [exists [], []; by rewrite app_nil_r | done | done]. Qed.

Lemma sent_more s rs1 s1 rs2 s2 ok : sent s rs1 s1 true → sent s1 rs2 s2 ok → sent s (rs1 ++ rs2) s2 ok.
Proof.
  intros [(t1 & r1 & Hw1 & E1 & H1) [Hs1 Hc1] Hb1] [(t2 & r2 & Hw2 & E2 & H2) [Hs2 Hc2] Hb2].
  rewrite (H1 eq_refl), app_nil_r in E1. split; [| | congruence].
  - exists (t1 ++ t2), r2. unfold sent_bytes in *. rewrite fmap_app, concat_app, E1, E2, Hw2, Hw1, <- !app_assoc. done.
  - rewrite Hs2, Hc2, Hs1, Hc1. done.
Qed.

(** A failure ends the sequence; what follows is not sent. *)
Lemma sent_failed s rs1 s1 rs2 : sent s rs1 s1 false → sent s (rs1 ++ rs2) s1 false.
Proof.
  intros [(t1 & r1 & Hw1 & E1 & _) He Hb]. split; [| done | done]. exists t1, (r1 ++ sent_bytes rs2).
  unfold sent_bytes in *. by rewrite fmap_app, concat_app, E1, <- !app_assoc.
Qed.

(** One message. *)
Lemma sent_one s tx w r taken rest (ok : bool) :
  wire w = wire (send_os s) ++ taken → frame_bytes (response_frame r) = taken ++ rest → (ok = true → rest = []) →
  length tx = length (tx_buf s) →
  sent s [r] (if ok then with_sent s tx w else hang_up (with_sent s tx w)) ok.
Proof.
  intros Hw E Hok Hb. split; [| by destruct ok | by destruct ok].
  exists taken, rest. unfold sent_bytes. cbn [fmap list_fmap concat compose]. rewrite app_nil_r. split; [by destruct ok |]. by split.
Qed.

Lemma written_take buf f : take (Z.to_nat (lenZ f)) (written buf f) = f.
Proof. unfold written. by rewrite Nat2Z.id, take_app_length. Qed.

Lemma response_size_le ev r : response_of ev = Some r → 16 <= lenZ (frame_bytes (response_frame r)) <= 56.
Proof.
  intros Er. unfold response_of in Er. destruct (ev_type ev); try done; injection Er as <-; cbn [response_frame];
    rewrite frame_bytes_length; unfold tcp_frame; cbn [fm_payload];
    unfold layout_order_ack, layout_order_reject, layout_fill_report, layout_cancel_ack, layout_cancel_reject, layout_modify_ack,
      layout_modify_reject; rewrite ?length_app, ?length_to_be; unfold kMessageHeaderSize; lia.
Qed.

Lemma send_events_spec events : ∀ s,
  connected s = true → Forall event_ok events → 56 <= lenZ (tx_buf s) →
  ∃ s' ok, send_events native_little s true events = Some s' ∧ sent s (omap response_of events) s' ok ∧
    (ok = true → session_id s' = assigned (session_id s) events) ∧
    ∀ n, roomy (length (omap response_of events) + n) (send_os s) → ok = true ∧ roomy n (send_os s').
Proof.
  induction events as [| ev events IH]; intros s Hc Hev Hb; cbn [send_events].
  { exists s, true. split; [done |]. split; [by apply nothing_sent |]. done. }
  inversion_clear Hev as [| ? ? He Hevs]. unfold assigned. cbn [foldl omap list_omap].
  case_bool_decide as Ha.
  { destruct (IH (with_session s (ev_session_id ev)) Hc Hevs Hb) as (s' & ok & E & [H1 H2 H3] & Hid & Hr).
    replace (response_of ev) with (@None Response) by (unfold response_of; by rewrite Ha).
    exists s', ok. split; [exact E |]. split; [by split |]. by split. }
  rewrite serialize_one_event_spec by done. cbn [mbind option_bind]. destruct (response_of ev) as [r |] eqn:Er; cbn [mbind option_bind].
  2:{ destruct (IH (with_sent s (tx_buf s) (send_os s)) Hc Hevs Hb) as (s' & ok & E & [H1 H2 H3] & Hid & Hr).
      exists s', ok. split; [exact E |]. split; [by split |]. by split. }
  set (f := frame_bytes (response_frame r)). pose proof (response_size_le ev r Er) as Hf. fold f in Hf.
  assert (length (written (tx_buf s) f) = length (tx_buf s)) as Hlen by (unfold written; rewrite length_app, length_drop; lia).
  rewrite bool_decide_false by lia. cbn [orb negb]. rewrite written_take. cbn [send_os with_sent].
  destruct (send_full_spec (send_os s) f) as (w & taken & rest & ok & Ew & Hw & Htk & Hok). rewrite Ew.
  assert (sent s [r] (if ok then with_sent s (written (tx_buf s) f) w else hang_up (with_sent s (written (tx_buf s) f) w)) ok) as H1
    by by apply (sent_one s _ w r taken rest ok).
  assert (∀ n, roomy (length (r :: omap response_of events) + n) (send_os s) → ok = true ∧ roomy (length (omap response_of events) + n) w) as Hroom.
  { intros n Hn. destruct (send_full_roomy _ _ f Hn) as (w' & Ew' & _ & Hr); [destruct f; [simpl in Hf; lia | done] | lia |].
    rewrite Ew in Ew'. injection Ew' as -> ->. by split. }
  destruct ok.
  - destruct (IH (with_sent s (written (tx_buf s) f) w) Hc Hevs) as (s' & ok & E & H2 & Hid & Hr); [cbn [tx_buf with_sent]; lia |].
    exists s', ok. split; [exact E |]. split; [exact (sent_more s [r] _ _ s' ok H1 H2) |]. split; [exact Hid |].
    intros n Hn. apply Hr. by apply Hroom.
  - eexists _, false. split; [reflexivity |]. split; [exact (sent_failed s [r] _ _ H1) |]. split; [done |].
    intros n Hn. by destruct (Hroom n Hn).
Qed.

(** A message of the receiving thread, as it queues it. *)
Definition queued (r : Response) : PendingSend := pending_frame (frame_bytes (response_frame r)).

(** With the descriptor gone nothing is sent. *)
Lemma send_pending_closed s pending : connected s = false → send_pending s pending = s.
Proof. intros Hc. induction pending as [| p pending IH]; [done |]. cbn [send_pending]. by rewrite Hc. Qed.

Lemma send_pending_spec rs : ∀ s,
  connected s = true → Forall (λ r, 16 <= lenZ (frame_bytes (response_frame r)) <= 56) rs →
  ∃ s' ok, send_pending s (queued <$> rs) = s' ∧ sent s rs s' ok ∧ session_id s' = session_id s ∧
    ∀ n, roomy (length rs + n) (send_os s) → ok = true ∧ roomy n (send_os s').
Proof.
  induction rs as [| r rs IH]; intros s Hc Hrs; cbn [fmap list_fmap send_pending].
  { exists s, true. split; [done |]. split; [by apply nothing_sent |]. done. }
  inversion_clear Hrs as [| ? ? Hf Hrs']. rewrite Hc. set (f := frame_bytes (response_frame r)) in *.
  change (ps_len (queued r)) with (lenZ f). change (ps_data (queued r)) with (written (zeros kPendingSize) f). rewrite written_take.
  destruct (send_full_spec (send_os s) f) as (w & taken & rest & ok & Ew & Hw & Htk & Hok). rewrite Ew.
  assert (sent s [r] (if ok then with_sent s (tx_buf s) w else hang_up (with_sent s (tx_buf s) w)) ok) as H1
    by by apply (sent_one s _ w r taken rest ok).
  assert (∀ n, roomy (length (r :: rs) + n) (send_os s) → ok = true ∧ roomy (length rs + n) w) as Hroom.
  { intros n Hn. destruct (send_full_roomy _ _ f Hn) as (w' & Ew' & _ & Hr); [destruct f; [simpl in Hf; lia | done] | lia |].
    rewrite Ew in Ew'. injection Ew' as -> ->. by split. }
  destruct ok.
  - destruct (IH (with_sent s (tx_buf s) w) Hc Hrs') as (s' & ok & E & H2 & Hid & Hr).
    exists s', ok. split; [exact E |]. split; [exact (sent_more s [r] _ rs s' ok H1 H2) |]. split; [exact Hid |].
    intros n Hn. apply Hr. by apply Hroom.
  - eexists _, false. split; [reflexivity |]. split; [exact (sent_failed s [r] _ _ H1) |]. split; [done |].
    intros n Hn. by destruct (Hroom n Hn).
Qed.

(** * Rounds *)

(** What a round of the loop finds: events and local answers. *)
Definition round_responses (rd : list ExchangeEvent * list Response) : list Response := omap response_of rd.1 ++ rd.2.
Definition round_input (rd : list ExchangeEvent * list Response) : list ExchangeEvent * list PendingSend := (rd.1, queued <$> rd.2).
Definition round_ok (rd : list ExchangeEvent * list Response) : Prop :=
  Forall event_ok rd.1 ∧ Forall (λ r, 16 <= lenZ (frame_bytes (response_frame r)) <= 56) rd.2.

Lemma send_iteration_spec s rd :
  connected s = true → round_ok rd → 56 <= lenZ (tx_buf s) →
  ∃ s' ok, send_iteration native_little s rd.1 (queued <$> rd.2) = Some s' ∧ sent s (round_responses rd) s' ok ∧
    (ok = true → session_id s' = assigned (session_id s) rd.1) ∧
    ∀ n, roomy (length (round_responses rd) + n) (send_os s) → ok = true ∧ roomy n (send_os s').
Proof.
  intros Hc [Hev Hrs] Hb. unfold send_iteration, round_responses. rewrite Hc.
  destruct (send_events_spec rd.1 s Hc Hev Hb) as (s1 & ok & E & H1 & Hid & Hr). rewrite E. cbn [mbind option_bind].
  destruct ok.
  - destruct (send_pending_spec rd.2 s1) as (s2 & ok & E2 & H2 & Hid2 & Hr2); [by rewrite (proj2 (sent_end _ _ _ _ H1)) | done |].
    exists s2, ok. rewrite E2. split; [done |]. split; [by apply (sent_more s _ s1) |]. split; [intros _; by rewrite Hid2, Hid |].
    intros n Hn. apply Hr2. apply Hr. by rewrite length_app, <- Nat.add_assoc in Hn.
  - rewrite send_pending_closed by (by rewrite (proj2 (sent_end _ _ _ _ H1))). exists s1, false. split; [done |].
    split; [by apply sent_failed |]. split; [done |]. intros n Hn. rewrite length_app, <- Nat.add_assoc in Hn. by destruct (Hr _ Hn).
Qed.

Lemma send_loop_spec rounds : ∀ s,
  connected s = true → stop s = false → Forall round_ok rounds → 56 <= lenZ (tx_buf s) →
  ∃ s' ok, send_loop native_little s (round_input <$> rounds) = Some s' ∧ sent s (concat (round_responses <$> rounds)) s' ok ∧
    (ok = true → session_id s' = assigned (session_id s) (concat (fst <$> rounds))) ∧
    (roomy (length (concat (round_responses <$> rounds))) (send_os s) → ok = true).
Proof.
  intros s. cut (connected s = true → stop s = false → Forall round_ok rounds → 56 <= lenZ (tx_buf s) →
    ∃ s' ok, send_loop native_little s (round_input <$> rounds) = Some s' ∧ sent s (concat (round_responses <$> rounds)) s' ok ∧
    (ok = true → session_id s' = assigned (session_id s) (concat (fst <$> rounds))) ∧
    ∀ n, roomy (length (concat (round_responses <$> rounds)) + n) (send_os s) → ok = true).
  { intros H Hc Hst Hr Hb. destruct (H Hc Hst Hr Hb) as (s' & ok & H1 & H2 & H3 & H4). exists s', ok. split; [done |]. split; [done |].
    split; [done |]. intros Hn. apply (H4 0%nat). by rewrite Nat.add_0_r. }
  revert s. induction rounds as [| rd rounds IH]; intros s Hc Hst Hrs Hb; cbn [fmap list_fmap concat send_loop].
  { exists s, true. split; [done |]. split; [by apply nothing_sent |]. done. }
  inversion_clear Hrs as [| ? ? Hr Hrs']. cbn [round_input]. rewrite Hst.
  destruct (send_iteration_spec s rd Hc Hr Hb) as (s1 & ok & E & H1 & Hid & Hroom). unfold round_input at 1. rewrite E. cbn [mbind option_bind].
  pose proof (sent_end _ _ _ _ H1) as [Hs1 Hc1]. destruct ok.
  - destruct (IH s1) as (s2 & ok & E2 & H2 & Hid2 & Hr2); [congruence | congruence | done | rewrite (sent_buf _ _ _ _ H1); lia |].
    exists s2, ok. split; [exact E2 |]. split; [by apply (sent_more s _ s1) |].
    split; [intros Hok; unfold assigned in *; by rewrite foldl_app, Hid2, Hid |].
    intros n Hn. rewrite length_app, <- Nat.add_assoc in Hn. by apply (Hr2 n), Hroom.
  - exists s1, false. split.
    + destruct rounds as [| rd' rounds]; [done |]. cbn [fmap list_fmap send_loop]. by rewrite Hs1.
    + split; [by apply sent_failed |]. split; [done |]. intros n Hn. rewrite length_app, <- Nat.add_assoc in Hn. by destruct (Hroom _ Hn).
Qed.

(** What the client reads of the bytes: the first answers, whole. *)
Lemma sent_read rs taken rest :
  Forall response_ok rs → sent_bytes rs = taken ++ rest →
  ∃ rs1 rs2 part, rs = rs1 ++ rs2 ∧ split native_little taken = (frame_view ∘ response_frame <$> rs1, part).
Proof.
  unfold sent_bytes. revert taken rest. induction rs as [| r rs IH]; intros taken rest Hrs E; cbn [fmap list_fmap concat] in E.
  { symmetry in E. apply app_eq_nil in E as [-> ->]. by exists [], [], []. }
  inversion_clear Hrs as [| ? ? Hr Hrs']. cbn [compose] in E. pose proof (response_frame_ok r Hr) as Hf.
  apply app_eq_app in E as (k & [[Hk Hrest] | [-> Hk]]).
  - destruct k as [| y k].
    + rewrite app_nil_r in Hk. exists [r], rs, []. split; [done |]. rewrite <- Hk. pose proof (split_frame native_little _ [] Hf (Forall_nil_2 _)) as E.
      by rewrite app_nil_r in E.
    + exists [], (r :: rs), taken. split; [done |]. by apply (split_partial native_little (response_frame r) taken (y :: k)).
  - destruct (IH k rest Hrs' Hk) as (rs1 & rs2 & part & -> & E). exists (r :: rs1), rs2, part. split; [done |].
    rewrite split_frame; [by rewrite E | done |]. assert (bytes_ok (k ++ rest)) as Hb.
    { rewrite <- Hk, list_fmap_compose. apply stream_bytes_ok. apply Forall_fmap. exact (Forall_impl _ response_frame_ok Hrs'). }
    by apply Forall_app in Hb as [? _].
Qed.

(** Everything sent is read back. *)
Lemma read_sent rs :
  Forall response_ok rs → split native_little (sent_bytes rs) = (frame_view ∘ response_frame <$> rs, []).
Proof.
  unfold sent_bytes. induction 1 as [| r rs Hr Hrs IH]; [done |]. cbn [fmap list_fmap concat compose].
  rewrite split_frame; [by rewrite IH | by apply response_frame_ok |]. rewrite list_fmap_compose.
  apply stream_bytes_ok. apply Forall_fmap. exact (Forall_impl _ response_frame_ok Hrs).
Qed.
End Host.
End GatewayOut.
