(* ===== verification/EngineSpec.v ===== *)
(** What the engine process ([ExchangeIpc.v]) does with a request: the core's
    handler runs, and every event it emits goes to the queue of the gateway
    that owns the event's session, the trades and best prices to the market
    data queue, stamped with the request's number and in order; a full queue
    loses events but neither reorders nor misroutes them.

    The ranges of the events an exchange core emits: whatever it answers to a
    request fits the fields of the wire messages and names a session of 16
    bits, if the books and the identity tables hold what their C++ types can
    hold.

    Requests to the engine ([ExchangeIpc.v]) as calls of the exchange core,
    with the outcomes of [ExchangeCorrect.v]. *)
From S2P Require Import Prelude.
From S2P Require Import TableInterface.
From S2P Require Import TradingTypes.
From S2P Require Import OrderBook.
From S2P Require Import BookView.
From S2P Require Import MatchingEngine.
From S2P Require Import MatchSpec.
From S2P Require Import MatchingTheorems.
From S2P Require Import Protocol.
From S2P Require Import ExchangeCore.
From S2P Require Import ExchangeSpec.
From S2P Require Import ExchangeCorrect.
From S2P Require Import ExchangeIpc.
From S2P Require Import GatewaySpec.
Local Open Scope Z_scope.
Local Open Scope array_scope.

Module EngineSpec.
Import EC Ipc Engine.

(** * Queues *)

(** [q'] is [q] after pushing [xs], some of which may have been refused. *)
Record pushed {T : Type} (q : Producer T) (xs : list T) (q' : Producer T) : Prop := {
  pushed_some : ∃ ys, accepted q' = accepted q ++ ys ∧ sublist ys xs;
  pushed_all : room q = [] → room q' = [] ∧ accepted q' = accepted q ++ xs;
}.

Lemma pushed_nil {T} (q : Producer T) : pushed q [] q.
Proof. split; [exists []; by rewrite app_nil_r | intros; by rewrite app_nil_r]. Qed.

Lemma pushed_trans {T} (q1 q2 q3 : Producer T) xs ys : pushed q1 xs q2 → pushed q2 ys q3 → pushed q1 (xs ++ ys) q3.
Proof.
  intros [(zs1 & E1 & S1) A1] [(zs2 & E2 & S2) A2]. split.
  - exists (zs1 ++ zs2). split; [by rewrite E2, E1, app_assoc | by apply sublist_app].
  - intros H. destruct (A1 H) as [H2 Hq2]. destruct (A2 H2) as [H3 Hq3]. split; [done |]. by rewrite Hq3, Hq2, app_assoc.
Qed.

Lemma try_push_pushed {T} (q : Producer T) x : pushed q [x] (try_push q x).1.
Proof.
  unfold try_push. destruct (room q) as [| [|] rest] eqn:Hr; split; cbn [fst room accepted].
  - by exists [x].
  - done.
  - by exists [x].
  - congruence.
  - exists []. split; [by rewrite app_nil_r | by apply sublist_nil_l].
  - congruence.
Qed.

(** * Routing *)

(** The queue an event is for, by the session table. *)
Definition gateway_of (routes : list Z) (ev : ExchangeEvent) : option Z :=
  if bool_decide (ev_type ev = kBBOUpdate) then None else routes.[ev_session_id ev].
Definition for_gateway (routes : list Z) (gw : Z) (evs : list ExchangeEvent) : list ExchangeEvent :=
  filter (λ ev, gateway_of routes ev = Some gw) evs.
Definition for_market (evs : list ExchangeEvent) : list ExchangeEvent :=
  filter (λ ev, ev_type ev = kFill ∨ ev_type ev = kBBOUpdate) evs.
Definition stamp (request_seq : Z) (evs : list ExchangeEvent) : list ExchangeEvent := (λ ev, with_seq ev request_seq) <$> evs.

Section Engine.
Context {OM LM SM FM RM : Type}.
Abbreviation State := (Engine (ExchangeCore OM LM SM FM RM)).
Implicit Types (e : State).

Record wf_engine e : Prop := {
  we_routes : lenZ (session_to_gateway e) = 65536;
  we_gateways s gw : (session_to_gateway e).[s] = Some gw → 0 <= gw < kMaxGateways;
  we_queues : lenZ (response_queues e) = kMaxGateways;
}.

(** [e'] is [e] after dispatching [evs]. *)
Record routed e (request_seq : Z) (evs : list ExchangeEvent) e' : Prop := {
  ro_core : core_ e' = core_ e;
  ro_routes : session_to_gateway e' = session_to_gateway e;
  ro_len : length (response_queues e') = length (response_queues e);
  ro_queue gw q : (response_queues e).[gw] = Some q →
    ∃ q', (response_queues e').[gw] = Some q' ∧ pushed q (stamp request_seq (for_gateway (session_to_gateway e) gw evs)) q';
  ro_market : pushed (md_queue e) (stamp request_seq (for_market evs)) (md_queue e');
}.

Lemma routed_nil e seq : routed e seq [] e.
Proof. split; try done; [intros gw q Hq; exists q; split; [done | apply pushed_nil] | apply pushed_nil]. Qed.

Lemma routed_trans e1 e2 e3 seq xs ys : routed e1 seq xs e2 → routed e2 seq ys e3 → routed e1 seq (xs ++ ys) e3.
Proof.
  intros [C1 R1 L1 Q1 M1] [C2 R2 L2 Q2 M2]. split; try congruence.
  - intros gw q Hq. destruct (Q1 gw q Hq) as (q1 & Hq1 & P1). destruct (Q2 gw q1 Hq1) as (q2 & Hq2 & P2).
    exists q2. split; [done |]. unfold for_gateway, stamp in *. rewrite list.filter_app, fmap_app. rewrite R1 in P2. by eapply pushed_trans.
  - unfold for_market, stamp in *. rewrite list.filter_app, fmap_app. by eapply pushed_trans.
Qed.

Lemma routed_wf e seq evs e' : wf_engine e → routed e seq evs e' → wf_engine e'.
Proof. intros [H1 H2 H3] [C R L Q M]. split; [by rewrite R | intros s gw; rewrite R; apply H2 | by rewrite L]. Qed.

Lemma push_response_spec e gw ev :
  0 <= gw < lenZ (response_queues e) →
  ∃ q e' ok, (response_queues e).[gw] = Some q ∧ push_response e gw ev = Some (e', ok) ∧ ok = (try_push q ev).2 ∧
    core_ e' = core_ e ∧ session_to_gateway e' = session_to_gateway e ∧ md_queue e' = md_queue e ∧
    response_queues e' = (response_queues e).[gw <- (try_push q ev).1].
Proof.
  intros Hgw. destruct (getZ_is_Some (response_queues e) gw Hgw) as [q Hq]. unfold push_response. rewrite Hq. cbn [mbind option_bind].
  exists q. destruct (try_push q ev) as [q1 ok] eqn:Ep. rewrite storeZ_Some by done. cbn [mbind option_bind].
  do 2 eexists. split; [done |]. split; [reflexivity |]. done.
Qed.

(** The step of an event for a gateway, before the market data. *)
Lemma push_routed e gw (ev : ExchangeEvent) seq :
  wf_engine e → gateway_of (session_to_gateway e) ev = Some gw →
  ∃ e1 ok, push_response e gw (with_seq ev seq) = Some (e1, ok) ∧ core_ e1 = core_ e ∧ session_to_gateway e1 = session_to_gateway e ∧
    md_queue e1 = md_queue e ∧ length (response_queues e1) = length (response_queues e) ∧
    ∀ g q, (response_queues e).[g] = Some q →
      ∃ q', (response_queues e1).[g] = Some q' ∧ pushed q (stamp seq (for_gateway (session_to_gateway e) g [ev])) q'.
Proof.
  intros [H1 H2 H3] Hgw. assert (0 <= gw < lenZ (response_queues e)) as Hr.
  { unfold gateway_of in Hgw. case_bool_decide; [done |]. pose proof (H2 _ _ Hgw). lia. }
  destruct (push_response_spec e gw (with_seq ev seq) Hr) as (q0 & e1 & ok & Hq0 & E & _ & Hc & Hs & Hm & Hq).
  exists e1, ok. split; [exact E |]. split; [exact Hc |]. split; [exact Hs |]. split; [exact Hm |].
  split; [by rewrite Hq, length_setZ |]. intros g q Hg. unfold for_gateway. rewrite filter_cons, filter_nil, Hq.
  destruct (decide (gw = g)) as [<- | Hne].
  - rewrite getZ_setZ_eq by done. eexists. split; [reflexivity |]. rewrite decide_True by done.
    replace q with q0 by congruence. apply try_push_pushed.
  - rewrite getZ_setZ_ne by (done || lia). exists q. split; [done |].
    rewrite decide_False by congruence. apply pushed_nil.
Qed.

Lemma dispatch_spec seq evs : ∀ e,
  wf_engine e → Forall (λ ev, ev_type ev = kBBOUpdate ∨ is_u16 (ev_session_id ev)) evs →
  ∃ e', dispatch e seq evs = Some e' ∧ routed e seq evs e'.
Proof.
  induction evs as [| ev evs IH]; intros e Hwf Hevs; cbn [dispatch]; [eexists; split; [reflexivity | apply routed_nil] |].
  inversion_clear Hevs as [| ? ? Hev Hevs'].
  assert (∃ e1, (match ev_type ev with
      | kFill => gw ← (session_to_gateway e).[ev_session_id ev]; '(e, _) ← push_response e gw (with_seq ev seq); Some (push_md e (with_seq ev seq))
      | kBBOUpdate => Some (push_md e (with_seq ev seq))
      | _ => gw ← (session_to_gateway e).[ev_session_id ev]; '(e, _) ← push_response e gw (with_seq ev seq); Some e
      end) = Some e1 ∧ routed e seq [ev] e1) as (e1 & -> & H1).
  2:{ cbn [mbind option_bind]. destruct (IH e1 (routed_wf _ _ _ _ Hwf H1) Hevs') as (e2 & E2 & H2).
      exists e2. split; [done |]. apply (routed_trans e e1 e2 seq [ev] evs H1 H2). }
  destruct (decide (ev_type ev = kBBOUpdate)) as [Hb | Hnb].
  - rewrite Hb. eexists. split; [reflexivity |]. split; try done.
    + intros gw q Hq. exists q. split; [done |]. unfold for_gateway, gateway_of.
      rewrite filter_cons, filter_nil, decide_False; [apply pushed_nil | by rewrite bool_decide_true].
    + unfold for_market. rewrite filter_cons, filter_nil, decide_True by auto. apply try_push_pushed.
  - destruct Hev as [Hev | Hu]; [done |].
    destruct (getZ_is_Some (session_to_gateway e) (ev_session_id ev)) as [gw Hgw]; [rewrite (we_routes _ Hwf); mlia |].
    destruct (push_routed e gw ev seq Hwf) as (e1 & ok & E & Hc & Hs & Hm & Hl & Hq); [unfold gateway_of; by rewrite bool_decide_false |].
    rewrite Hgw. cbn [mbind option_bind]. rewrite E. cbn [mbind option_bind].
    destruct (decide (ev_type ev = kFill)) as [Hf | Hnf].
    + rewrite Hf. eexists. split; [reflexivity |]. split; try done. unfold for_market.
      rewrite filter_cons, filter_nil, decide_True by auto. rewrite <- Hm. apply try_push_pushed.
    + exists e1. split; [by destruct (ev_type ev) |]. split; try done. unfold for_market.
      rewrite filter_cons, filter_nil, decide_False by naive_solver. rewrite Hm. apply pushed_nil.
Qed.
End Engine.
End EngineSpec.

Module EngineEvents.
Import EC Ipc Engine GatewaySpec.

(** * Books *)

Definition q_typed (os : queue) : Prop := Forall (λ o, is_u64 o.1 ∧ is_u32 o.2) os.
Definition v_typed (V : vladder) : Prop := Forall (λ l, is_s64 l.1 ∧ q_typed l.2) V.
Definition vb_typed (v : vbook) : Prop := v_typed (v_bids v) ∧ v_typed (v_asks v).
Definition fill_typed (f : Fill) : Prop := is_u64 (maker_id f) ∧ is_s64 (f_price f) ∧ is_u32 (f_qty f).

Lemma q_match_typed taker p n : ∀ os rem fs os' rem',
  is_s64 p → is_u32 rem → q_typed os → q_match n os taker p rem = (fs, os', rem') →
  Forall fill_typed fs ∧ q_typed os' ∧ is_u32 rem'.
Proof.
  unfold q_typed. induction n as [| n IH]; intros os rem fs os' rem' Hp Hrem Hos E; [| destruct os as [| [mid q] os]]; cbn [q_match] in E;
    [by simplify_eq | by simplify_eq |].
  inversion_clear Hos as [| ? ? [Hm Hq] Hos']. cbn [fst snd] in Hm, Hq.
  case_bool_decide; [simplify_eq; split; [done |]; split; [constructor; done | done] |].
  case_bool_decide as Hlt.
  { simplify_eq. split; [constructor; [done | done] |]. split; [constructor; [split; [done | simpl; mlia] | done] | mlia]. }
  destruct (q_match n os taker p (rem - q)) as [[fs1 os1] rem1] eqn:E1. simplify_eq.
  destruct (IH os (rem - q) fs1 os' rem' Hp ltac:(mlia) Hos' E1) as (H1 & H2 & H3). split; [constructor; done |]. by split.
Qed.

Lemma v_match_typed taker s price V : ∀ n rem fs V' rem',
  is_u32 rem → v_typed V → v_match n V taker s price rem = (fs, V', rem') → Forall fill_typed fs ∧ v_typed V' ∧ is_u32 rem'.
Proof.
  unfold v_typed. induction V as [| [p os] V IH]; intros n rem fs V' rem' Hrem HV E; cbn [v_match] in E; [by simplify_eq |].
  inversion_clear HV as [| ? ? [Hp Hos] HV']. cbn [fst snd] in Hp, Hos.
  destruct (_ || _ || _); [simplify_eq; split; [done |]; split; [by constructor | done] |].
  destruct (q_match n os taker p rem) as [[fs1 os1] rem1] eqn:E1.
  destruct (q_match_typed taker p n os rem fs1 os1 rem1 Hp Hrem Hos E1) as (H1 & H2 & H3). destruct os1 as [| o os1].
  - destruct (v_match (n - length fs1) V taker s price rem1) as [[fs2 V2] rem2] eqn:E2. simplify_eq.
    destruct (IH _ _ _ _ _ H3 HV' E2) as (H4 & H5 & H6). split; [by apply Forall_app |]. by split.
  - simplify_eq. split; [done |]. split; [by constructor | done].
Qed.

Lemma v_add_typed s p id q V : is_s64 p → is_u64 id → is_u32 q → v_typed V → v_typed (v_add s p id q V).
Proof.
  intros Hp Hi Hq. assert (q_typed [(id, q)]) as H1 by (constructor; [done | constructor]).
  unfold v_typed. induction 1 as [| [p' os] V [Hp' Hos] HV IH]; cbn [v_add]; [constructor; [done | constructor] |].
  case_bool_decide; [constructor; [split; [done | by apply Forall_app] | done] |].
  destruct (betterb s p p'); constructor; try done; by constructor.
Qed.

Lemma side_typed v s : vb_typed v → v_typed (v_side v s).
Proof. intros [H1 H2]. destruct s; [done | done | constructor]. Qed.
Lemma with_typed v s V : vb_typed v → v_typed V → vb_typed (v_with v s V).
Proof. intros [H1 H2] HV. by destruct s. Qed.

Lemma submission_typed MaxFills v id s price q r v' :
  vb_typed v → is_u64 id → is_s64 price → is_u32 q → submission MaxFills v id s price q r v' →
  Forall fill_typed (fills r) ∧ vb_typed v'.
Proof.
  intros Hv Hi Hp Hq Hs. destruct (submission_cases MaxFills v id s price q r v' Hs) as [(-> & -> & _) | (V & E & ->)]; [by split; [constructor |] |].
  destruct (v_match_typed id s price _ _ _ _ _ _ Hq (side_typed v _ Hv) E) as (H1 & H2 & H3). split; [done |].
  pose proof (with_typed v (opposite s) V Hv H2) as Hw. destruct (rested r); [| done]. unfold vb_add.
  apply with_typed; [done |]. apply v_add_typed; try done. by apply side_typed.
Qed.

Lemma q_find_typed id os q : q_typed os → q_find id os = Some q → is_u32 q.
Proof.
  induction 1 as [| o os [_ Ho] _ IH]; cbn [q_find]; [done |]. case_bool_decide; [intros [= <-]; exact Ho | exact IH].
Qed.

Lemma orders_typed V : v_typed V → q_typed (v_orders V).
Proof. induction 1 as [| [p os] V [_ Hos] _ IH]; [exact (Forall_nil_2 _) | by apply Forall_app]. Qed.

Lemma vb_qty_typed v id : vb_typed v → is_u32 (default 0 (vb_qty id v)).
Proof.
  intros [H1 H2]. unfold vb_qty, vb_orders. destruct (q_find id _) as [q |] eqn:E; [| by apply (bool_decide_unpack _)].
  apply (q_find_typed id (v_orders (v_bids v) ++ v_orders (v_asks v)) q); [| exact E]. apply Forall_app.
  split; by apply orders_typed.
Qed.

(** * Events *)

(** What the gateway can serialise and the engine can route. *)
Definition deliverable (ev : ExchangeEvent) : Prop :=
  event_ok ev ∧ (ev_type ev = kBBOUpdate ∨ is_u16 (ev_session_id ev)).

Lemma accepted_deliverable t session cid xid sym ts :
  is_u16 session → is_u64 cid → is_u64 xid → is_s64 ts → deliverable (ev_accepted t session cid xid sym ts).
Proof. intros. split; [| by right]. unfold event_ok. cbn. split; [done |]. split; [done |]. split; [mlia |]. split; [mlia |]. split; [mlia | done]. Qed.
Lemma rejected_deliverable t session cid sym ts r : is_u16 session → is_u64 cid → is_s64 ts → deliverable (ev_rejected t session cid sym ts r).
Proof. intros. split; [| by right]. unfold event_ok. cbn. split; [done |]. split; [mlia |]. split; [mlia |]. split; [mlia |]. split; [mlia | done]. Qed.
Lemma fill_deliverable session cid xid sym s price q rem ts :
  is_u16 session → is_u64 cid → is_u64 xid → is_s64 price → is_u32 q → is_u32 rem → is_s64 ts →
  deliverable (ev_fill session cid xid sym s price q rem ts).
Proof. intros. split; [| by right]. by repeat (split; [assumption |]). Qed.

(** The clients on record have time stamps of 64 bits. *)
Definition rev_typed (R : rmap_t) : Prop := ∀ x r, R !! x = Some r → is_s64 (re_send_ts r).

Lemma bbo_deliverable sym v : vb_typed v → Forall deliverable (bbo_events sym v).
Proof.
  intros [H1 H2]. unfold bbo_events. apply Forall_app. split; unfold best_events;
    [destruct H1 as [| [p os] V [Hp _] _] | destruct H2 as [| [p os] V [Hp _] _]]; try exact (Forall_nil_2 _);
    (constructor; [| exact (Forall_nil_2 _)]); (split; [| by left]); unfold event_ok; cbn [ev_bbo ev_client_order_id ev_exchange_order_id ev_price ev_qty ev_remaining_qty ev_send_ts];
    (split; [mlia |]; split; [mlia |]; split; [exact Hp |]; split; [mlia |]; split; mlia).
Qed.

Lemma fills_deliverable F R v session cid xid sym s ts : paired F R → rev_typed R → vb_typed v →
  is_u16 session → is_u64 cid → is_u64 xid → is_s64 ts →
  ∀ fs rem, Forall fill_typed fs → Forall deliverable (fill_events R v session cid xid sym s ts rem fs).
Proof.
  intros HP HR Hv Hse Hc Hx Hts fs. induction fs as [| f fs IH]; intros rem Hfs; cbn [fill_events]; [exact (Forall_nil_2 _) |].
  inversion_clear Hfs as [| ? ? (Hm & Hp & Hq) Hfs']. constructor; [apply fill_deliverable; try done; mlia |].
  apply Forall_app. split; [| apply Forall_app; split; [by apply bbo_deliverable | by apply IH]].
  unfold maker_events. destruct (R !! maker_id f) as [r |] eqn:Er; [| exact (Forall_nil_2 _)]. constructor; [| exact (Forall_nil_2 _)].
  destruct (pa_rev _ _ HP _ _ Er) as ([Hs Hcid] & _). unfold kMaxClientOrderId in Hcid.
  apply fill_deliverable; try done; [mlia | by apply vb_qty_typed | by apply (HR (maker_id f))].
Qed.
End EngineEvents.

Module EngineRequests.
Import EC Ipc Engine EngineSpec EngineEvents.

Lemma q_remove_typed id os : q_typed os → q_typed (q_remove id os).
Proof.
  unfold q_typed, q_remove. induction 1 as [| o os Ho _ IH]; [exact (Forall_nil_2 _) |]. rewrite filter_cons.
  case_decide; [by constructor | done].
Qed.

Lemma v_remove_typed id V : v_typed V → v_typed (v_remove id V).
Proof.
  unfold v_typed, v_remove. induction 1 as [| [p os] V [Hp Hos] _ IH]; [exact (Forall_nil_2 _) |]. cbn [mbind list_bind].
  apply Forall_app. split; [| done]. unfold v_level. cbn [fst snd] in *. pose proof (q_remove_typed id os Hos) as Hq.
  destruct (q_remove id os); [exact (Forall_nil_2 _) |]. constructor; [done | exact (Forall_nil_2 _)].
Qed.

Lemma vb_remove_typed id v : vb_typed v → vb_typed (vb_remove id v).
Proof. intros [H1 H2]. by split; apply v_remove_typed. Qed.

Section Requests.
Context (ndebug : bool) {OM LM SM FM RM : Type}.
Context `{TO : Table Z Z OM} `{TL : Table Z Z LM} {OML : TableLaws Z Z OM} {LML : TableLaws Z Z LM}.
Context `{TS : Table Z bool SM} {SL : TableLaws Z bool SM} {SI : TableIter Z bool SM}
  {SIL : TableIterLaws Z bool SM}.
Context `{TF : Table Z IdEntry FM} {FL : TableLaws Z IdEntry FM} {FI : TableIter Z IdEntry FM}
  {FIL : TableIterLaws Z IdEntry FM}.
Context `{TR : Table Z ReverseIdEntry RM} {RL : TableLaws Z ReverseIdEntry RM}.
Context (MaxSymbols MaxFills num_gateways : Z) (HM : 0 <= MaxFills) (HE : 1 + 4 * MaxFills <= kMaxEvents).
Abbreviation Core := (ExchangeCore OM LM SM FM RM).
Abbreviation State := (Engine Core).
Implicit Types (c : Core) (e : State).
Abbreviation core_rep := (core_rep (OM := OM) (LM := LM) (SM := SM) (FM := FM) (RM := RM) ndebug MaxSymbols MaxFills).

(** The ranges of a request for an order. *)
Definition request_fits (req : OrderRequest) : Prop :=
  is_u16 (rq_session_id req) ∧
  match rq_type req with
  | rqNewOrder => NewOrder_ok (new_order_of req) ∧ rq_side req <= 1
  | rqCancelOrder => CancelOrder_ok (cancel_order_of req)
  | rqModifyOrder => ModifyOrder_ok (modify_order_of req)
  | rqClientConnect | rqClientDisconnect => False
  end.

(** The events and books of a request, by the core's outcomes. *)
Definition request_outcome c (vs : Z → vbook) (req : OrderRequest) (evs : list ExchangeEvent) (vs' : Z → vbook) : Prop :=
  match rq_type req with
  | rqNewOrder => submit_outcome ndebug MaxSymbols MaxFills c vs (rq_session_id req) (new_order_of req) evs vs'
  | rqCancelOrder => cancel_outcome MaxSymbols c vs (rq_session_id req) (cancel_order_of req) evs vs'
  | rqModifyOrder => modify_outcome MaxSymbols MaxFills c vs (rq_session_id req) (modify_order_of req) evs vs'
  | rqClientConnect | rqClientDisconnect => False
  end.

(** What the C++ types of the books and tables can hold. *)
Definition core_typed c (vs : Z → vbook) : Prop :=
  (∀ i, vb_typed (vs i)) ∧ rev_typed (rmap_of c).

Lemma request_deliverable c vs req evs vs' :
  core_rep c vs → core_typed c vs → next_exchange_id_ c + 1 < 2 ^ 64 → request_fits req → request_outcome c vs req evs vs' →
  Forall deliverable evs.
Proof.
  intros Hc [Hb HR] Hn [Hs Hf] Ho. pose proof (bo_next _ _ _ _ _ _ (cr_books _ _ _ _ _ Hc)) as Hx.
  assert (∀ ev, deliverable ev → Forall deliverable [ev]) as H1 by (intros ev Hev; constructor; [done | exact (Forall_nil_2 _)]).
  assert (is_u64 (next_exchange_id_ c)) as Hxid by mlia. pose proof (cr_maps _ _ _ _ _ Hc) as [HP _].
  unfold request_outcome in Ho. destruct (rq_type req); [| | | done | done].
  - destruct Hf as [(F1 & F2 & F3 & F4 & F5 & F6) _]. destruct Ho as [| | | | |r v' _ _ _ Hsub _].
    1-5: by apply H1, rejected_deliverable.
    destruct (submission_typed MaxFills _ _ _ _ _ _ _ (Hb _) Hxid F4 F5 Hsub) as [Hfs Hv].
    constructor; [by apply accepted_deliverable | by eapply fills_deliverable].
  - destruct Hf as (F1 & F2 & F3). destruct Ho; apply H1; first [by apply rejected_deliverable | by apply accepted_deliverable; try mlia].
  - destruct Hf as (F1 & F2 & F3 & F4 & F5). destruct Ho as [| | | |e r v' _ _ _ _ Hsub].
    1-4: by apply H1, rejected_deliverable.
    pose proof (vb_remove_typed (ie_exchange_id e) _ (Hb (mo_symbol_id (modify_order_of req) - 1))) as Hrm.
    destruct (submission_typed MaxFills _ _ _ _ _ _ _ Hrm Hxid F3 F4 Hsub) as [Hfs Hv].
    constructor; [by apply accepted_deliverable | by eapply fills_deliverable].
Qed.

(** A request leaves the books within their types. *)
Lemma outcome_typed c vs req evs vs' :
  core_rep c vs → (∀ i, vb_typed (vs i)) → next_exchange_id_ c + 1 < 2 ^ 64 → request_fits req → request_outcome c vs req evs vs' →
  ∀ i, vb_typed (vs' i).
Proof.
  intros Hc Hb Hn [Hs Hf] Ho. pose proof (bo_next _ _ _ _ _ _ (cr_books _ _ _ _ _ Hc)) as Hx.
  assert (is_u64 (next_exchange_id_ c)) as Hxid by mlia.
  assert (∀ j v', vb_typed v' → ∀ i, vb_typed (set_book vs j v' i)) as Hset.
  { intros j v' Hv i. unfold set_book. by case_bool_decide. }
  unfold request_outcome in Ho. destruct (rq_type req); [| | | done | done].
  - destruct Hf as [(F1 & F2 & F3 & F4 & F5 & F6) _]. destruct Ho as [| | | |r v' _ _ _ Hsub _ _|r v' _ _ _ Hsub _]; try done;
      (apply Hset; eapply submission_typed; [apply Hb | exact Hxid | exact F4 | exact F5 | exact Hsub]).
  - destruct Ho; try done. by apply Hset, vb_remove_typed.
  - destruct Hf as (F1 & F2 & F3 & F4 & F5). destruct Ho as [| | | |e r v' _ _ _ _ Hsub]; try done.
    apply Hset. eapply submission_typed; [by apply vb_remove_typed | exact Hxid | exact F3 | exact F4 | exact Hsub].
Qed.

(** Draining empties the buffer and changes nothing else. *)
Lemma kept_drained c vs c' vs' key xid :
  kept ndebug MaxSymbols MaxFills c vs c' vs' key xid → kept ndebug MaxSymbols MaxFills c vs (drain_events c').1 vs' key xid.
Proof.
  intros [H1 H2]. split; [| exact H2]. intros He. pose proof (drain_events_spec ndebug MaxSymbols MaxFills c' vs' (H1 He)) as Hd. apply Hd.
Qed.

Lemma drain_dispatch_spec e c seq evs :
  wf_engine e → out c = evs → Forall deliverable evs →
  ∃ e', drain_and_dispatch (with_core e c) seq = Some e' ∧ routed (with_core e (drain_events c).1) seq evs e' ∧ wf_engine e'.
Proof.
  intros [W1 W2 W3] Ho Hev. unfold drain_and_dispatch.
  assert (wf_engine (with_core e (drain_events c).1)) as Hwf by by split.
  destruct (dispatch_spec seq evs (with_core e (drain_events c).1) Hwf) as (e' & E & Hr).
  { eapply Forall_impl; [| exact Hev]. by intros ev [_ ?]. }
  exists e'. split; [| split; [done | by eapply routed_wf]].
  change (drain_events (core_ (with_core e c))) with ((drain_events c).1, out c). by rewrite Ho.
Qed.

(** The handler of the core, whatever the type. *)
Lemma handler_spec c vs req :
  core_rep c vs → request_fits req → event_count_ c = 0 → next_exchange_id_ c + 1 < 2 ^ 64 →
  ∃ c' evs vs',
    match rq_type req with
    | rqNewOrder => EC.submit_order ndebug MaxSymbols MaxFills c (rq_session_id req) (new_order_of req)
    | rqCancelOrder => EC.cancel_order ndebug MaxSymbols c (rq_session_id req) (cancel_order_of req)
    | rqModifyOrder => EC.modify_order ndebug MaxSymbols MaxFills c (rq_session_id req) (modify_order_of req)
    | rqClientConnect | rqClientDisconnect => None
    end = Some c' ∧ request_outcome c vs req evs vs' ∧ out c' = evs ∧
    kept ndebug MaxSymbols MaxFills c vs c' vs' (client_key (rq_session_id req) (rq_client_order_id req)) (next_exchange_id_ c).
Proof.
  intros Hc [Hs Hf] H0 Hn. assert (out c = []) as Ho by (unfold out; by rewrite H0).
  assert (0 <= MaxFills < 2 ^ 32) as HM' by (unfold kMaxEvents in HE; lia). unfold request_outcome. destruct (rq_type req); [| | | done | done].
  - destruct Hf as [Hf Hside].
    destruct (submit_order_spec ndebug MaxSymbols MaxFills HM' c vs (rq_session_id req) (new_order_of req) Hc Hs Hf Hside) as (c' & evs & vs' & E & H1 & H2 & H3);
      [rewrite H0; lia | done |]. exists c', evs, vs'. rewrite H2, Ho. by split_and!.
  - destruct (cancel_order_spec ndebug MaxSymbols MaxFills HM' c vs (rq_session_id req) (cancel_order_of req) Hc Hs Hf) as (c' & evs & vs' & E & H1 & H2 & H3 & H4);
      [rewrite H0; unfold kMaxEvents; lia |]. exists c', evs, vs'. rewrite H2, Ho. split; [done |]. split; [done |]. split; [done |]. split; [done |]. auto.
  - destruct (modify_order_spec ndebug MaxSymbols MaxFills HM' c vs (rq_session_id req) (modify_order_of req) Hc Hs Hf) as (c' & evs & vs' & E & H1 & H2 & H3);
      [rewrite H0; lia | done |]. exists c', evs, vs'. rewrite H2, Ho. by split_and!.
Qed.

Lemma process_order e vs req :
  core_rep (core_ e) vs → core_typed (core_ e) vs → wf_engine e → event_count_ (core_ e) = 0 →
  next_exchange_id_ (core_ e) + 1 < 2 ^ 64 → request_fits req → rq_gateway_id req < num_gateways →
  ∃ e' evs vs', process_request ndebug MaxSymbols MaxFills num_gateways e req = Some e' ∧
    request_outcome (core_ e) vs req evs vs' ∧ Forall deliverable evs ∧
    routed (with_core e (core_ e')) (rq_request_seq req) evs e' ∧ wf_engine e' ∧ event_count_ (core_ e') = 0 ∧
    kept ndebug MaxSymbols MaxFills (core_ e) vs (core_ e') vs'
      (client_key (rq_session_id req) (rq_client_order_id req)) (next_exchange_id_ (core_ e)).
Proof.
  intros Hc Ht Hwf H0 Hn Hf Hg. destruct (handler_spec (core_ e) vs req Hc Hf H0 Hn) as (c' & evs & vs' & E & Ho & Hout & Hk).
  pose proof (request_deliverable _ _ _ _ _ Hc Ht Hn Hf Ho) as Hd.
  destruct (drain_dispatch_spec e c' (rq_request_seq req) evs Hwf Hout Hd) as (e' & E' & Hr & Hwf').
  assert (core_ e' = (drain_events c').1) as Hcore by apply Hr.
  exists e', evs, vs'. split; [| split; [done |]; split; [done |]; rewrite Hcore; split; [done |]; split; [done |]; split; [done | by apply kept_drained]].
  unfold process_request. rewrite bool_decide_false by lia. destruct (rq_type req); [| | | done | done]; by rewrite E.
Qed.
End Requests.
End EngineRequests.
