(* ===== verification/ExchangePath.v ===== *)
(** A client's request on its way through the exchange: the gateway's
    receiving thread forwards it or answers that there is no room, the
    engine runs the core's handler and routes the events. *)
From S2P Require Import Prelude.
From S2P Require Import TableInterface.
From S2P Require Import TradingTypes.
From S2P Require Import Endian.
From S2P Require Import Protocol.
From S2P Require Import Framing.
From S2P Require Import ByteStream.
From S2P Require Import OrderBook.
From S2P Require Import MatchingEngine.
From S2P Require Import BookView.
From S2P Require Import MatchingTheorems.
From S2P Require Import OrderPathSpec.
From S2P Require Import TcpSocket.
From S2P Require Import ExchangeCore.
From S2P Require Import ExchangeSpec.
From S2P Require Import ExchangeCorrect.
From S2P Require Import ExchangeIpc.
From S2P Require Import ExchangeGateway.
From S2P Require Import GatewaySpec.
From S2P Require Import EngineSpec.
Local Open Scope Z_scope.
Local Open Scope array_scope.

Module ExchangePath.
Import EC Tcp Ipc Gateway Engine OrderPathSpec OrderIn GatewaySpec GatewayOut EngineSpec EngineEvents.

(** * Forwarding *)

(** A client's order as the engine's request. *)
Definition order_request (gateway_id session seq : Z) (q : Request) : option OrderRequest :=
  match q with
  | ReqNew o => Some (request_of_new gateway_id session seq o)
  | ReqModify m => Some (request_of_modify gateway_id session seq m)
  | ReqCancel c => Some (request_of_cancel gateway_id session seq c)
  | ReqHeartbeat => None
  end.

(** The requests forwarded to the engine and the local answers, with the
    answers of the engine's queue. *)
Fixpoint forward (gateway_id session seq : Z) (rs : list Request) (oks : list bool) : list OrderRequest * list Response :=
  match rs with
  | [] => ([], [])
  | q :: rs =>
      match order_request gateway_id session seq q with
      | None => let '(fwd, ans) := forward gateway_id session seq rs oks in (fwd, RHeartbeatAck :: ans)
      | Some req =>
          let '(fwd, ans) := forward gateway_id session (u32 (seq + 1)) rs (tail oks) in
          if hd true oks then (req :: fwd, ans) else (fwd, throttle_response req :: ans)
      end
  end.

(** The numbers given to the orders of a stream. *)
Definition seq_after (seq : Z) (rs : list Request) : Z :=
  foldl (λ seq q, match q with ReqHeartbeat => seq | _ => u32 (seq + 1) end) seq rs.

(** Whatever the session and whatever room the two queues have: the requests
    forwarded, the local answers, the next number, and whether the thread goes
    on.  Orders of a client without a session are discarded unnumbered; the
    first answer the sending queue has no room for is lost and ends the
    thread. *)
Record Conversation : Type := { cv_forwarded : list OrderRequest; cv_answered : list Response; cv_seq : Z; cv_goes_on : bool }.

Definition quiet (seq : Z) (go : bool) : Conversation := {| cv_forwarded := []; cv_answered := []; cv_seq := seq; cv_goes_on := go |}.
Definition forwards (req : OrderRequest) (c : Conversation) : Conversation :=
  {| cv_forwarded := req :: cv_forwarded c; cv_answered := cv_answered c; cv_seq := cv_seq c; cv_goes_on := cv_goes_on c |}.
Definition answers (a : Response) (c : Conversation) : Conversation :=
  {| cv_forwarded := cv_forwarded c; cv_answered := a :: cv_answered c; cv_seq := cv_seq c; cv_goes_on := cv_goes_on c |}.

Fixpoint converse (gateway_id session seq : Z) (rs : list Request) (oks sends : list bool) : Conversation :=
  match rs with
  | [] => quiet seq true
  | q :: rs =>
      match order_request gateway_id session seq q with
      | None => if hd true sends then answers RHeartbeatAck (converse gateway_id session seq rs oks (tail sends)) else quiet seq false
      | Some req =>
          if bool_decide (session = 0) then converse gateway_id session seq rs oks sends
          else if hd true oks then forwards req (converse gateway_id session (u32 (seq + 1)) rs (tail oks) sends)
          else if hd true sends
          then answers (throttle_response req) (converse gateway_id session (u32 (seq + 1)) rs (tail oks) (tail sends))
          else quiet (u32 (seq + 1)) false
      end
  end.

Section Gateway.
Context (native_little : bool) (gateway_id : Z).
Implicit Types (r : Recv).

Lemma translate_request session seq q :
  request_ok q → translate native_little gateway_id session seq (frame_view (request_frame q)) = order_request gateway_id session seq q.
Proof.
  intros Hq. unfold translate. destruct q as [o | m | c |]; [| | | done];
    cbn [request_frame tcp_frame frame_view message_view fm_version fm_type fm_flags fm_payload pmv_header mh_msg_type pmv_payload order_request].
  - rewrite bool_decide_true by done. pose proof (deserialize_new_order_eq native_little o [] Hq (Forall_nil_2 _)) as H.
    rewrite app_nil_r in H. by rewrite H.
  - rewrite !bool_decide_false, bool_decide_true by done. pose proof (deserialize_modify_order_eq native_little m [] Hq (Forall_nil_2 _)) as H.
    rewrite app_nil_r in H. by rewrite H.
  - rewrite bool_decide_false, bool_decide_true by done. pose proof (deserialize_cancel_order_eq native_little c [] Hq (Forall_nil_2 _)) as H.
    rewrite app_nil_r in H. by rewrite H.
Qed.

(** What is forwarded depends on the queue's answers only. *)
Record forwarded r (rs : list Request) (session : Z) r' : Prop := {
  fo_requests : accepted (request_queue r') =
    accepted (request_queue r) ++ (forward gateway_id session (next_seq r) rs (room (request_queue r))).1;
  fo_room : room (request_queue r') = drop (length (omap (order_request gateway_id session 0) rs)) (room (request_queue r));
  fo_answers : accepted (send_queue r') =
    accepted (send_queue r) ++ (queued <$> (forward gateway_id session (next_seq r) rs (room (request_queue r))).2);
  fo_send_room : room (send_queue r') = [];
  fo_seq : next_seq r' = seq_after (next_seq r) rs;
}.

Lemma serve_request r session q :
  request_ok q → session ≠ 0 → room (send_queue r) = [] →
  ∃ r', serve native_little gateway_id r session (request_frame q) = (r', true) ∧
    forwarded r [q] session r'.
Proof.
  intros Hq Hs Hroom. unfold serve. assert (verify_protocol_version (fm_version (request_frame q)) = true) as -> by by destruct q.
  cbn [negb]. assert (q = ReqHeartbeat ∨ q ≠ ReqHeartbeat) as [-> | Hne] by (destruct q; auto).
  { rewrite bool_decide_true by done. unfold push_send, try_push. rewrite Hroom. eexists. split; [reflexivity |].
    split; [by rewrite app_nil_r | done | done | done | done]. }
  rewrite bool_decide_false by by destruct q. rewrite bool_decide_false by done. cbn [take_seq]. rewrite translate_request by done.
  destruct (order_request gateway_id session (next_seq r) q) as [req |] eqn:Er; [| by destruct q].
  assert (∀ oks, forward gateway_id session (next_seq r) [q] oks = if hd true oks then ([req], []) else ([], [throttle_response req])) as Hf
    by (intros oks; cbn [forward]; by rewrite Er).
  assert (length (omap (order_request gateway_id session 0) [q]) = 1%nat) as Hl by by destruct q.
  assert (seq_after (next_seq r) [q] = u32 (next_seq r + 1)) as Hsq by by destruct q.
  unfold push_request, try_push. cbn [request_queue].
  destruct (room (request_queue r)) as [| [|] rest] eqn:Hrq.
  - eexists. split; [reflexivity |]. split; rewrite ?Hf, ?Hl, ?Hsq, ?Hrq; try done. cbn [send_queue]. by rewrite app_nil_r.
  - eexists. split; [reflexivity |]. split; rewrite ?Hf, ?Hl, ?Hsq, ?Hrq; try done. cbn [send_queue]. by rewrite app_nil_r.
  - unfold push_send, try_push. cbn [send_queue]. rewrite Hroom. eexists. split; [reflexivity |].
    split; rewrite ?Hf, ?Hl, ?Hsq, ?Hrq; try done. cbn [request_queue accepted]. by rewrite app_nil_r.
Qed.

Lemma forward_cons session seq q rs oks :
  forward gateway_id session seq (q :: rs) oks =
    ((forward gateway_id session seq [q] oks).1 ++
       (forward gateway_id session (seq_after seq [q]) rs (drop (length (omap (order_request gateway_id session 0) [q])) oks)).1,
     (forward gateway_id session seq [q] oks).2 ++
       (forward gateway_id session (seq_after seq [q]) rs (drop (length (omap (order_request gateway_id session 0) [q])) oks)).2).
Proof.
  destruct q; cbn [forward order_request seq_after foldl omap list_omap length].
  4:{ rewrite drop_0. by destruct (forward gateway_id session seq rs oks). }
  all: assert (drop 1 oks = tail oks) as -> by (destruct oks; [done | apply drop_0]);
    destruct (forward gateway_id session (u32 (seq + 1)) rs (tail oks)); by destruct (hd true oks).
Qed.

Lemma serve_requests session rs : ∀ r,
  Forall request_ok rs → session ≠ 0 → room (send_queue r) = [] →
  ∃ r', serve_all native_little gateway_id r session (request_frame <$> rs) = (r', true) ∧ forwarded r rs session r'.
Proof.
  induction rs as [| q rs IH]; intros r Hrs Hs Hroom; cbn [fmap list_fmap serve_all].
  { exists r. split; [done |]. split; try done; by rewrite app_nil_r. }
  inversion_clear Hrs as [| ? ? Hq Hrs']. destruct (serve_request r session q Hq Hs Hroom) as (r1 & -> & [F1 F2 F3 F4 F5]).
  destruct (IH r1 Hrs' Hs F4) as (r2 & -> & [G1 G2 G3 G4 G5]). exists r2. split; [done |].
  split; [| | | done |].
  - by rewrite G1, F1, F2, F5, (forward_cons session (next_seq r) q rs), <- app_assoc.
  - rewrite G2, F2, drop_drop. f_equal. cbn [omap list_omap]. destruct (order_request gateway_id session 0 q); cbn [length]; lia.
  - by rewrite G3, F3, F2, F5, (forward_cons session (next_seq r) q rs), <- app_assoc, <- fmap_app.
  - rewrite G5, F5. done.
Qed.

Lemma serve_conversation session rs : ∀ r,
  Forall request_ok rs →
  let c := converse gateway_id session (next_seq r) rs (room (request_queue r)) (room (send_queue r)) in
  ∃ r', serve_all native_little gateway_id r session (request_frame <$> rs) = (r', cv_goes_on c) ∧
    accepted (request_queue r') = accepted (request_queue r) ++ cv_forwarded c ∧
    accepted (send_queue r') = accepted (send_queue r) ++ (queued <$> cv_answered c) ∧ next_seq r' = cv_seq c.
Proof.
  induction rs as [| q rs IH]; intros r Hrs; cbn [fmap list_fmap serve_all converse].
  { exists r. by rewrite !app_nil_r. }
  inversion_clear Hrs as [| ? ? Hq Hrs']. unfold serve. assert (verify_protocol_version (fm_version (request_frame q)) = true) as -> by by destruct q.
  cbn [negb]. destruct (order_request gateway_id session (next_seq r) q) as [req |] eqn:Er; swap 1 2.
  - assert (q = ReqHeartbeat) as -> by by destruct q. rewrite bool_decide_true by done. unfold push_send, try_push.
    destruct (room (send_queue r)) as [| [|] rest] eqn:Hrs; cbn [hd tail]; [| | eexists; by rewrite !app_nil_r].
    all: match goal with |- context [serve_all _ _ ?r1 _ _] => destruct (IH r1 Hrs') as (r' & E & H1 & H2 & H3) end; cbn [next_seq request_queue send_queue room accepted fmap list_fmap answers forwards cv_forwarded cv_answered cv_seq cv_goes_on] in *;
      rewrite E; exists r'; split; [done |]; split; [done |]; split; [by rewrite H2, <- app_assoc | done].
  - assert (q ≠ ReqHeartbeat) as Hne by by intros ->. rewrite bool_decide_false by by destruct q.
    case_bool_decide as Hs; [by apply IH |]. cbn [take_seq]. rewrite translate_request, Er by done. unfold push_request, try_push. cbn [request_queue].
    destruct (room (request_queue r)) as [| [|] rest] eqn:Hrq; cbn [hd tail].
    1,2: match goal with |- context [serve_all _ _ ?r1 _ _] => destruct (IH r1 Hrs') as (r' & E & H1 & H2 & H3) end; cbn [next_seq request_queue send_queue room accepted fmap list_fmap answers forwards cv_forwarded cv_answered cv_seq cv_goes_on] in *;
      rewrite E; exists r'; split; [done |]; split; [by rewrite H1, <- app_assoc | done].
    unfold push_send, try_push. cbn [send_queue]. destruct (room (send_queue r)) as [| [|] more] eqn:Hrs; cbn [hd tail]; [| | eexists; by rewrite !app_nil_r].
    all: match goal with |- context [serve_all _ _ ?r1 _ _] => destruct (IH r1 Hrs') as (r' & E & H1 & H2 & H3) end; cbn [next_seq request_queue send_queue room accepted fmap list_fmap answers forwards cv_forwarded cv_answered cv_seq cv_goes_on] in *;
      rewrite E; exists r'; split; [done |]; split; [done |]; split; [by rewrite H2, <- app_assoc | done].
Qed.

(** With a session and room for the answers nothing is lost. *)
Lemma converse_forward session rs : ∀ seq oks,
  session ≠ 0 →
  let c := converse gateway_id session seq rs oks [] in
  cv_goes_on c = true ∧ (cv_forwarded c, cv_answered c) = forward gateway_id session seq rs oks ∧ cv_seq c = seq_after seq rs.
Proof.
  induction rs as [| q rs IH]; intros seq oks Hs; [done |]. cbn [converse forward seq_after foldl hd tail].
  destruct q; cbn [order_request]; rewrite ?(bool_decide_false (session = 0)) by done.
  4:{ destruct (IH seq oks Hs) as (H1 & H2 & H3). rewrite <- H2. by split. }
  all: destruct (IH (u32 (seq + 1)) (tail oks) Hs) as (H1 & H2 & H3); rewrite <- H2; by destruct (hd true oks).
Qed.

(** Without a session nothing is forwarded and only heartbeats are answered. *)
Lemma converse_unassigned rs : ∀ seq oks sends,
  let c := converse gateway_id 0 seq rs oks sends in
  cv_forwarded c = [] ∧ Forall (eq RHeartbeatAck) (cv_answered c) ∧ cv_seq c = seq.
Proof.
  induction rs as [| q rs IH]; intros seq oks sends; [by repeat constructor |]. cbn [converse].
  destruct q; cbn [order_request]; rewrite ?bool_decide_true by done; try apply IH. destruct (hd true sends); [| by repeat constructor].
  destruct (IH seq oks (tail sends)) as (H1 & H2 & H3). split; [done |]. split; [by constructor | done].
Qed.

Lemma converse_ends session rs : ∀ seq oks sends,
  cv_goes_on (converse gateway_id session seq rs oks sends) = false → false ∈ sends.
Proof.
  induction rs as [| q rs IH]; intros seq oks sends; [done |]. cbn [converse].
  assert (false ∈ tail sends → false ∈ sends) as Ht by (destruct sends; [done |]; intros; by right).
  assert (hd true sends = false → false ∈ sends) as Hh by (destruct sends; [done |]; cbn; intros ->; left).
  destruct (order_request _ _ _ _); [case_bool_decide; [by apply IH |]; destruct (hd true oks); [by apply IH |] |];
    (destruct (hd true sends) eqn:E; [intros Hgo; apply Ht; exact (IH _ _ _ Hgo) | intros _; by apply Hh]).
Qed.

(** The stream of a client's requests is well framed. *)
Lemma requests_framed rs : well_framed kRxBufSize (request_frame <$> rs) [].
Proof.
  assert (∀ q, lenZ (frame_bytes (request_frame q)) <= kRxBufSize) as Hl.
  { intros q. rewrite frame_bytes_length. pose proof (layout_request_bytes q) as (_ & H & _). unfold kMessageHeaderSize, kRxBufSize. lia. }
  split; [| split; [done |]].
  - apply Forall_fmap, Forall_true. intros q. split; [apply request_frame_ok | apply Hl].
  - exists (request_frame ReqHeartbeat), (frame_bytes (request_frame ReqHeartbeat)). split; [apply request_frame_ok |].
    split; [apply Hl | by split].
Qed.

Lemma concat_bytes_ok (segments : list (list Z)) : bytes_ok (concat segments) → Forall bytes_ok segments.
Proof.
  induction segments as [| b segments IH]; [constructor |]. cbn [concat]. intros [H1 H2]%Forall_app. constructor; [done | by apply IH].
Qed.

Lemma reads_requests r session segments rs n :
  stops r = [] → recvs (recv_os r) = Arrived <$> segments → Forall (λ x, x ≠ []) segments → rx r = [] →
  concat segments = concat (frame_bytes ∘ request_frame <$> rs) → Forall request_ok rs → session ≠ 0 →
  room (send_queue r) = [] → (recv_size (Arrived <$> segments) <= n)%nat →
  ∃ r', recv_loop native_little gateway_id r (replicate n session) = Some (r', true) ∧ forwarded r rs session r' ∧
    rx r' = [] ∧ recvs (recv_os r') = [] ∧ stops r' = [].
Proof.
  intros Hst Hre Hne Hrx Hcat Hrs Hs Hroom Hn. pose proof (requests_framed rs) as Hwf.
  rewrite list_fmap_compose in Hcat.
  assert (Forall bytes_ok segments) as Hbo.
  { apply concat_bytes_ok. rewrite Hcat. apply stream_bytes_ok, Forall_fmap, Forall_true. apply request_frame_ok. }
  destruct (recv_loop_spec native_little gateway_id session n r segments (request_frame <$> rs) [] Hst Hre Hbo Hne)
    as (r' & E & H1 & H2 & H3 & H4); [by rewrite Hrx, app_nil_l, app_nil_r | done | | done |].
  { rewrite Hrx. apply (requests_framed []). }
  destruct (serve_requests session rs r Hrs Hs Hroom) as (r1 & Es & [F1 F2 F3 F4 F5]). rewrite Es in E, H1, H2, H3, H4. cbn [fst snd] in *.
  exists r'. split; [done |]. split; [| by apply H4]. split; congruence.
Qed.
(** The receiving thread on a client's requests, however they are cut. *)
Lemma reads_conversation r session segments rs n :
  stops r = [] → recvs (recv_os r) = Arrived <$> segments → Forall (λ x, x ≠ []) segments → rx r = [] →
  concat segments = concat (frame_bytes ∘ request_frame <$> rs) → Forall request_ok rs → (recv_size (Arrived <$> segments) <= n)%nat →
  let c := converse gateway_id session (next_seq r) rs (room (request_queue r)) (room (send_queue r)) in
  ∃ r', recv_loop native_little gateway_id r (replicate n session) = Some (r', cv_goes_on c) ∧
    accepted (request_queue r') = accepted (request_queue r) ++ cv_forwarded c ∧
    accepted (send_queue r') = accepted (send_queue r) ++ (queued <$> cv_answered c) ∧ next_seq r' = cv_seq c ∧
    (cv_goes_on c = true → rx r' = []).
Proof.
  intros Hst Hre Hne Hrx Hcat Hrs Hn. pose proof (requests_framed rs) as Hwf. rewrite list_fmap_compose in Hcat.
  assert (Forall bytes_ok segments) as Hbo.
  { apply concat_bytes_ok. rewrite Hcat. apply stream_bytes_ok, Forall_fmap, Forall_true. apply request_frame_ok. }
  destruct (recv_loop_spec native_little gateway_id session n r segments (request_frame <$> rs) [] Hst Hre Hbo Hne)
    as (r' & E & H1 & H2 & H3 & H4); [by rewrite Hrx, app_nil_l, app_nil_r | done | | done |].
  { rewrite Hrx. apply (requests_framed []). }
  destruct (serve_conversation session rs r Hrs) as (r1 & Es & F1 & F2 & F3). rewrite Es in E, H1, H2, H3, H4. cbn [fst snd] in *.
  exists r'. split; [done |]. split; [congruence |]. split; [congruence |]. split; [congruence |]. intros Hgo. by apply H4.
Qed.
End Gateway.

(** * Events on the way to the client *)

Lemma stamped_ok seq ev : event_ok ev → event_ok (with_seq ev seq).
Proof. done. Qed.

Lemma gateway_events_ok routes gw seq evs : Forall deliverable evs → Forall event_ok (stamp seq (for_gateway routes gw evs)).
Proof.
  intros Hd. unfold stamp, for_gateway. apply Forall_fmap. induction Hd as [| ev evs [Hev _] _ IH]; [exact (Forall_nil_2 _) |].
  rewrite filter_cons. case_decide; [constructor; [by apply stamped_ok | done] | done].
Qed.

Lemma responses_ok evs : Forall event_ok evs → Forall response_ok (omap response_of evs).
Proof.
  induction 1 as [| ev evs Hev _ IH]; [exact (Forall_nil_2 _) |]. cbn [omap list_omap].
  destruct (response_of ev) as [r |] eqn:Er; [constructor; [by eapply response_of_ok | done] | done].
Qed.

(** The loop over events only, in whatever batches they are popped, with
    room in the socket. *)
Lemma answers_in_batches native_little s batches :
  connected s = true → stop s = false → 56 <= lenZ (tx_buf s) → Forall event_ok (concat batches) →
  GatewayOut.roomy (length (omap response_of (concat batches))) (send_os s) →
  ∃ s' sent, send_loop native_little s ((λ evs, (evs, [])) <$> batches) = Some s' ∧ wire (send_os s') = wire (send_os s) ++ sent ∧
    split native_little sent = (frame_view ∘ response_frame <$> omap response_of (concat batches), []).
Proof.
  intros Hc Hst Hb Hev Hroom. set (rounds := (λ evs : list ExchangeEvent, (evs, @nil Response)) <$> batches).
  assert (concat (round_responses <$> rounds) = omap response_of (concat batches)) as Hrs.
  { clear. unfold rounds. induction batches as [| b batches IH]; [done |]. cbn [fmap list_fmap concat] in *. rewrite IH, omap_app.
    unfold round_responses. cbn [fst snd]. by rewrite app_nil_r. }
  assert (Forall round_ok rounds) as Hok.
  { clear -Hev. unfold rounds. induction batches as [| b batches IH]; [exact (Forall_nil_2 _) |]. cbn [concat fmap list_fmap] in *.
    apply Forall_app in Hev as [H1 H2]. constructor; [split; [done | exact (Forall_nil_2 _)] | by apply IH]. }
  destruct (send_loop_spec native_little rounds s Hc Hst Hok Hb) as (s' & ok & E & [(taken & rest & Hw & Hsb & Hrest) _ _] & _ & Hr).
  rewrite Hrs in Hr, Hsb. rewrite (Hrest (Hr Hroom)), app_nil_r in Hsb. exists s', taken. split; [| split; [done |]].
  - rewrite <- E. f_equal. unfold rounds. by rewrite <- list_fmap_compose.
  - rewrite <- Hsb. by apply read_sent, responses_ok.
Qed.
End ExchangePath.
