(* ===== verification/ExchangePathTheorems.v ===== *)
(** The exchange from a client's bytes to the client's bytes: gateway,
    engine process and core together, on a concrete exchange for the
    witnesses. *)
From S2P Require Import Prelude.
From S2P Require Import HashUtils.
From S2P Require Import TableInterface.
From S2P Require Import HashMap.
From S2P Require Import HashMapSpec.
From S2P Require Import FixedHashMap.
From S2P Require Import TradingTypes.
From S2P Require Import Endian.
From S2P Require Import Protocol.
From S2P Require Import Framing.
From S2P Require Import ByteStream.
From S2P Require Import OrderBook.
From S2P Require Import MatchingEngine.
From S2P Require Import BookView.
From S2P Require Import BookBind.
From S2P Require Import OrderBookTheorems.
From S2P Require Import MatchSpec.
From S2P Require Import MatchingTheorems.
From S2P Require Import OrderPathSpec.
From S2P Require Import TcpSocket.
From S2P Require Import ExchangeCore.
From S2P Require Import ExchangeSpec.
From S2P Require Import ExchangeCorrect.
From S2P Require Import ExchangeTheorems.
From S2P Require Import ExchangeIpc.
From S2P Require Import ExchangeGateway.
From S2P Require Import GatewaySpec.
From S2P Require Import EngineSpec.
From S2P Require Import ExchangePath.
Import EC Tcp Ipc Gateway Engine OrderPathSpec OrderIn GatewaySpec GatewayOut EngineSpec EngineEvents EngineRequests ExchangePath.
Local Open Scope Z_scope.
Local Open Scope array_scope.

(** * The gateway *)

(** C14. However the kernel cuts a client's stream of requests into receives,
    the receiving thread forwards and answers exactly what [converse] says,
    for any session and any room in its two queues, and stops only when an
    answer found the sending queue full, that answer being lost.  While the
    sending queue has room, a client with a session has every order either
    forwarded, in order and under consecutive numbers, or, where the engine's
    queue was full, answered with a rejection of its own type, and every
    heartbeat answered.  Orders of a client that has no session yet are
    discarded without an answer; its heartbeats are answered. *)
Theorem gateway_reads_requests native_little gateway_id (r : Recv) session segments rs n :
  stops r = [] → recvs (recv_os r) = Arrived <$> segments → Forall (λ x, x ≠ []) segments → rx r = [] →
  concat segments = concat (frame_bytes ∘ request_frame <$> rs) → Forall request_ok rs → (recv_size (Arrived <$> segments) <= n)%nat →
  let c := converse gateway_id session (next_seq r) rs (room (request_queue r)) (room (send_queue r)) in
  (∃ r', Gateway.recv_loop native_little gateway_id r (replicate n session) = Some (r', cv_goes_on c) ∧
    accepted (request_queue r') = accepted (request_queue r) ++ cv_forwarded c ∧
    accepted (send_queue r') = accepted (send_queue r) ++ (queued <$> cv_answered c) ∧
    next_seq r' = cv_seq c ∧ (cv_goes_on c = true → rx r' = [])) ∧
  (cv_goes_on c = false → false ∈ room (send_queue r)) ∧
  (session ≠ 0 → room (send_queue r) = [] →
    (cv_forwarded c, cv_answered c) = forward gateway_id session (next_seq r) rs (room (request_queue r)) ∧
    cv_seq c = seq_after (next_seq r) rs ∧ cv_goes_on c = true) ∧
  (session = 0 → cv_forwarded c = [] ∧ Forall (eq RHeartbeatAck) (cv_answered c) ∧ cv_seq c = next_seq r).
Proof.
  intros Hst Hre Hne Hrx Hcat Hrs Hn c. split; [by apply reads_conversation with segments |]. split; [apply converse_ends |]. split.
  - intros Hs Hroom. unfold c. rewrite Hroom.
    by destruct (converse_forward gateway_id session rs (next_seq r) (room (request_queue r)) Hs) as (H1 & H2 & H3).
  - intros ->. apply converse_unassigned.
Qed.

(** The sending thread puts on the wire the messages of the engine's
    events and the local answers, in order and whole, until a send fails:
    then the client still reads whole messages only, the connection is shut
    down and both threads stop.  With room in the socket nothing is lost. *)
Theorem gateway_answers native_little (s : Send) rounds :
  connected s = true → stop s = false → 56 <= lenZ (tx_buf s) → Forall round_ok rounds →
  Forall response_ok (concat (round_responses <$> rounds)) →
  ∃ s' sent rest rs1 rs2 part,
    Gateway.send_loop native_little s (round_input <$> rounds) = Some s' ∧ wire (send_os s') = wire (send_os s) ++ sent ∧
    sent_bytes (concat (round_responses <$> rounds)) = sent ++ rest ∧
    concat (round_responses <$> rounds) = rs1 ++ rs2 ∧ split native_little sent = (frame_view ∘ response_frame <$> rs1, part) ∧
    (stop s' = false → rest = [] ∧ connected s' = true ∧ session_id s' = assigned (session_id s) (concat (fst <$> rounds))) ∧
    (stop s' = true → connected s' = false) ∧
    (GatewayOut.roomy (length (concat (round_responses <$> rounds))) (send_os s) → stop s' = false).
Proof.
  intros Hc Hst Hb Hr Hok.
  destruct (send_loop_spec native_little rounds s Hc Hst Hr Hb) as (s' & ok & E & [(taken & rest & Hw & Hsb & Hrest) [He1 He2] _] & Hid & Hroom).
  destruct (sent_read native_little _ taken rest Hok Hsb) as (rs1 & rs2 & part & Hrs & Hsp).
  exists s', taken, rest, rs1, rs2, part. split; [done |]. split; [done |]. split; [done |]. split; [done |]. split; [done |].
  rewrite He1, He2. destruct ok; rewrite ?Hst, ?Hc.
  - split; [intros _; split; [by apply Hrest | split; [done | by apply Hid]] |]. by split.
  - split; [done |]. split; [done |]. intros Hn. by specialize (Hroom Hn).
Qed.

(** * The engine process *)

Section Engine.
Context (ndebug : bool) {OM LM SM FM RM : Type}.
Context `{TO : Table Z Z OM} `{TL : Table Z Z LM} {OML : TableLaws Z Z OM} {LML : TableLaws Z Z LM}.
Context `{TS : Table Z bool SM} {SL : TableLaws Z bool SM} {SI : TableIter Z bool SM}
  {SIL : TableIterLaws Z bool SM}.
Context `{TF : Table Z IdEntry FM} {FL : TableLaws Z IdEntry FM} {FI : TableIter Z IdEntry FM}
  {FIL : TableIterLaws Z IdEntry FM}.
Context `{TR : Table Z ReverseIdEntry RM} {RL : TableLaws Z ReverseIdEntry RM}.
Context (MaxSymbols MaxFills num_gateways : Z).
Abbreviation State := (Engine (ExchangeCore OM LM SM FM RM)).
Implicit Types (e : State).
Abbreviation core_rep := (core_rep (OM := OM) (LM := LM) (SM := SM) (FM := FM) (RM := RM) ndebug MaxSymbols MaxFills).

(** C13. The engine answers a request with the events of the core's handler:
    each goes to the queue of the gateway that owns its session and to no
    other, fills and best prices to the market data queue, in order and
    stamped with the number of the request; a full queue loses events and
    nothing else. *)
Theorem engine_routes_events e vs req :
  0 <= MaxFills → 1 + 4 * MaxFills <= kMaxEvents → core_rep (core_ e) vs → core_typed (core_ e) vs → wf_engine e →
  event_count_ (core_ e) = 0 → next_exchange_id_ (core_ e) + 1 < 2 ^ 64 → request_fits req → rq_gateway_id req < num_gateways →
  ∃ e' evs vs', process_request ndebug MaxSymbols MaxFills num_gateways e req = Some e' ∧
    request_outcome ndebug MaxSymbols MaxFills (core_ e) vs req evs vs' ∧ Forall deliverable evs ∧ (∀ i, vb_typed (vs' i)) ∧
    (∀ gw q, (response_queues e).[gw] = Some q → ∃ q', (response_queues e').[gw] = Some q' ∧
       pushed q (stamp (rq_request_seq req) (for_gateway (session_to_gateway e) gw evs)) q') ∧
    pushed (md_queue e) (stamp (rq_request_seq req) (for_market evs)) (md_queue e') ∧
    session_to_gateway e' = session_to_gateway e ∧ wf_engine e' ∧ event_count_ (core_ e') = 0 ∧
    kept ndebug MaxSymbols MaxFills (core_ e) vs (core_ e') vs'
      (client_key (rq_session_id req) (rq_client_order_id req)) (next_exchange_id_ (core_ e)).
Proof.
  intros HM HE Hc Ht Hwf H0 Hn Hf Hg.
  destruct (process_order ndebug MaxSymbols MaxFills num_gateways HM HE e vs req Hc Ht Hwf H0 Hn Hf Hg)
    as (e' & evs & vs' & E & Ho & Hd & [R1 R2 R3 R4 R5] & Hwf' & H0' & Hk).
  exists e', evs, vs'. split; [done |]. split; [done |]. split; [done |].
  split; [exact (outcome_typed ndebug MaxSymbols MaxFills (core_ e) vs req evs vs' Hc (proj1 Ht) Hn Hf Ho) |]. by repeat (split; [done |]).
Qed.

(** A connecting client gets an id no active session holds; its gateway is
    told and owns the session from then on.  If the gateway's queue is full
    the session is rolled back: the set of active sessions is what it was
    and the queue is untouched. *)
Theorem engine_opens_sessions e vs free req :
  0 <= MaxFills < 2 ^ 32 → core_rep (core_ e) vs → wf_engine e → tables_fit (SM := SM) (FM := FM) →
  1 <= free <= 65535 → (active_sessions_ (core_ e)).[free] = Some false →
  rq_type req = rqClientConnect → 0 <= rq_gateway_id req < num_gateways → num_gateways <= kMaxGateways →
  ∃ e' id q q' vs', process_request ndebug MaxSymbols MaxFills num_gateways e req = Some e' ∧
    1 <= id <= 65535 ∧ (active_sessions_ (core_ e)).[id] = Some false ∧ wf_engine e' ∧ core_rep (core_ e') vs' ∧
    (response_queues e).[rq_gateway_id req] = Some q ∧ response_queues e' = (response_queues e).[rq_gateway_id req <- q'] ∧
    md_queue e' = md_queue e ∧ out (core_ e') = out (core_ e) ∧
    if hd true (room q)
    then accepted q' = accepted q ++ [session_assigned id (rq_request_seq req) (rq_client_order_id req)] ∧
      active_sessions_ (core_ e') = (active_sessions_ (core_ e)).[id <- true] ∧
      session_to_gateway e' = (session_to_gateway e).[id <- rq_gateway_id req]
    else accepted q' = accepted q ∧ active_sessions_ (core_ e') = active_sessions_ (core_ e) ∧
      session_to_gateway e' = (session_to_gateway e).[id <- 0].
Proof.
  intros HM Hc [W1 W2 W3] Hfit Hfree Hact Hty Hg Hng. unfold kMaxGateways in *.
  destruct (on_client_connect_spec ndebug MaxSymbols MaxFills HM (core_ e) vs free Hc Hfree Hact) as (c1 & id & E & Hc1 & Hid & Hin & Hact1 & _ & Hout).
  assert (0 <= rq_gateway_id req < lenZ (response_queues e)) as Hgw by lia.
  set (e1 := with_routes (with_core e c1) ((session_to_gateway e).[id <- rq_gateway_id req])).
  set (ev := session_assigned id (rq_request_seq req) (rq_client_order_id req)).
  destruct (push_response_spec e1 (rq_gateway_id req) ev Hgw) as (q & e2 & ok & Hq & E2 & Hok & Hcore & Hroutes & Hmd & Hqs).
  assert (∀ x, 0 <= x < 8 → ∀ s gw, (session_to_gateway e).[id <- x].[s] = Some gw → 0 <= gw < 8) as Hwf.
  { intros x Hx s gw. rewrite getZ_setZ by lia. case_decide; [by intros [= <-] | apply W2]. }
  pose proof (getZ_Some _ _ _ Hin) as Hrange. change (session_to_gateway e1) with ((session_to_gateway e).[id <- rq_gateway_id req]) in Hroutes.
  unfold process_request. rewrite bool_decide_false, Hty by lia. rewrite E. cbn [mbind option_bind].
  rewrite storeZ_Some by lia. cbn [mbind option_bind]. fold e1 ev. rewrite E2. cbn [mbind option_bind].
  assert (ok = hd true (room q)) as Hhd by (rewrite Hok; unfold try_push; by destruct (room q) as [| [|] ?]).
  destruct ok.
  - exists e2, id, q, (try_push q ev).1, vs. split; [done |]. split; [done |]. split; [done |].
    split; [split; rewrite ?Hroutes, ?Hqs, ?length_setZ; [done | apply Hwf; lia | done] |]. rewrite Hcore.
    split; [done |]. split; [done |]. split; [done |]. split; [done |]. split; [done |].
    rewrite <- Hhd. split; [| by split]. unfold try_push in *. by destruct (room q) as [| [|] ?].
  - destruct (on_client_disconnect_spec ndebug MaxSymbols MaxFills HM c1 vs id Hc1 Hfit ltac:(mlia) ltac:(lia))
      as (c3 & dead & E3 & _ & Hc3 & _ & _ & _ & _ & Hact3 & Hout3).
    change (core_ e1) with c1 in Hcore. rewrite Hcore, E3, Hroutes. cbn [mbind option_bind]. rewrite storeZ_Some by (rewrite length_setZ; lia). cbn [mbind option_bind].
    rewrite setZ_setZ. eexists _, id, q, (try_push q ev).1, _. split; [reflexivity |]. split; [done |]. split; [done |].
    split; [split; cbn [session_to_gateway with_routes with_core response_queues]; rewrite ?Hqs, ?length_setZ; [done | apply Hwf; lia | done] |].
    split; [exact Hc3 |]. split; [done |]. split; [done |]. split; [done |]. split; [by rewrite <- Hout |].
    rewrite <- Hhd. split; [unfold try_push in *; by destruct (room q) as [| [|] ?] |]. split; [| done].
    cbn [core_ with_routes with_core]. rewrite Hact3, Hact1, setZ_setZ. by apply setZ_same.
Qed.

(** C12. A client's order, cut as the kernel likes, reaches the engine as that
    order; what the core does to it reaches the client as the messages of
    exactly its events, in order and whole, however the sending thread's
    pops are batched, and a gateway's queue never carries an event of
    another gateway's session. *)
Theorem exchange_answers_client native_little e vs (r : Recv) segments n gateway_id session order req q :
  0 <= MaxFills → 1 + 4 * MaxFills <= kMaxEvents → core_rep (core_ e) vs → core_typed (core_ e) vs → wf_engine e →
  event_count_ (core_ e) = 0 → next_exchange_id_ (core_ e) + 1 < 2 ^ 64 →
  gateway_id < num_gateways → is_u16 session → session ≠ 0 → (response_queues e).[gateway_id] = Some q → room q = [] →
  stops r = [] → recvs (recv_os r) = Arrived <$> segments → Forall (λ x, x ≠ []) segments → rx r = [] →
  concat segments = frame_bytes (request_frame order) → request_ok order → (∀ o, order = ReqNew o → no_side o <= 1) →
  order_request gateway_id session (next_seq r) order = Some req →
  room (request_queue r) = [] → room (send_queue r) = [] → (recv_size (Arrived <$> segments) <= n)%nat →
  ∃ r' e' evs vs' q',
    Gateway.recv_loop native_little gateway_id r (replicate n session) = Some (r', true) ∧
    accepted (request_queue r') = accepted (request_queue r) ++ [req] ∧
    process_request ndebug MaxSymbols MaxFills num_gateways e req = Some e' ∧
    request_outcome ndebug MaxSymbols MaxFills (core_ e) vs req evs vs' ∧
    (response_queues e').[gateway_id] = Some q' ∧
    accepted q' = accepted q ++ stamp (rq_request_seq req) (for_gateway (session_to_gateway e) gateway_id evs) ∧
    ∀ s batches, concat batches = stamp (rq_request_seq req) (for_gateway (session_to_gateway e) gateway_id evs) →
      connected s = true → stop s = false → 56 <= lenZ (tx_buf s) →
      GatewayOut.roomy (length (omap response_of (concat batches))) (send_os s) →
      ∃ s' sent, Gateway.send_loop native_little s ((λ evs, (evs, [])) <$> batches) = Some s' ∧
        wire (send_os s') = wire (send_os s) ++ sent ∧
        split native_little sent = (frame_view ∘ response_frame <$> omap response_of (concat batches), []).
Proof.
  intros HM HE Hc Ht Hwf H0 Hn Hg Hse Hs0 Hq Hrq Hst Hre Hne Hrx Hcat Hro Hside Hreq Hr1 Hr2 Hfuel.
  destruct (reads_requests native_little gateway_id r session segments [order] n) as (r' & E & [F1 _ _ _ _] & _); try done;
    [by rewrite Hcat; cbn; rewrite app_nil_r | constructor; [done | exact (Forall_nil_2 _)] |].
  assert (request_fits req ∧ rq_gateway_id req = gateway_id) as [Hf Hgw].
  { destruct order as [o | m | c |]; [| | | done]; injection Hreq as <-; (split; [split; [exact Hse |] | done]).
    - cbn. destruct Hro as (A1 & A2 & A3 & A4 & A5 & A6). split; [by repeat (split; [assumption |]) | by apply Hside].
    - exact Hro.
    - exact Hro. }
  destruct (process_order ndebug MaxSymbols MaxFills num_gateways HM HE e vs req Hc Ht Hwf H0 Hn Hf ltac:(lia))
    as (e' & evs & vs' & E' & Ho & Hd & [_ _ _ R4 _] & _).
  destruct (R4 gateway_id q Hq) as (q' & Hq' & [_ Hall]). exists r', e', evs, vs', q'. split; [done |].
  split; [rewrite F1, Hr1; cbn [forward]; by rewrite Hreq |]. split; [done |]. split; [done |]. split; [done |].
  split; [by apply Hall |]. intros s batches Hb Hc1 Hst1 Htx Hroom. apply answers_in_batches; try done.
  rewrite Hb. by apply gateway_events_ok.
Qed.
End Engine.

(** * Witnesses *)

(** A decidable property of closed terms. *)
Local Ltac decided := apply (bool_decide_unpack _); by vm_compute.

(** Session 1, with its order at 100 for 10, is a client of gateway 0,
    session 2 of gateway 1. *)
Definition demo_engine (answers : list (list bool)) : Engine DemoCore :=
  with_routes (start core3 answers []) ((replicate 65536 0).[1 <- 0].[2 <- 1]).
Definition demo_os (w : list SendAnswer) (rs : list RecvAnswer) : Os :=
  {| sends := w; recvs := rs; wire := []; later := []; past := []; clock := [5] |}.
Definition demo_recv (segments : list (list Z)) (oks : list bool) : Recv :=
  {| rx := []; next_seq := 2; request_queue := {| room := oks; accepted := [] |}; send_queue := {| room := []; accepted := [] |};
     stops := []; recv_os := demo_os [] (Arrived <$> segments) |}.
Definition demo_send (w : list SendAnswer) : Send :=
  {| session_id := 2; connected := true; tx_buf := zeros kTxBufSize; send_os := demo_os w []; stop := false |}.
Definition demo_order : Request := ReqNew (sell 9 100 4).
Definition demo_request : OrderRequest := request_of_new 1 2 2 (sell 9 100 4).
Definition demo_segments (rs : list Request) : list (list Z) :=
  let bs := concat (frame_bytes ∘ request_frame <$> rs) in [take 10 bs; drop 10 bs].

(** The trade of the two sessions: what each gateway and the market get. *)
Example demo_trade :
  (λ e, ((λ q, ev_type <$> accepted q) <$> take 2 (response_queues e), ev_type <$> accepted (md_queue e))) <$>
    process_request true 2 64 2 (demo_engine []) demo_request
  = Some ([[kFill]; [kOrderAccepted; kFill]], [kFill; kFill; kBBOUpdate]).
Proof. vm_compute. reflexivity. Qed.

Lemma demo_routes n s gw : 2 < Z.of_nat n → (replicate n 0).[1 <- 0].[2 <- 1].[s] = Some gw → 0 <= gw < kMaxGateways.
Proof.
  intros Hn. rewrite !getZ_setZ by (rewrite ?length_setZ, length_replicate; lia). unfold kMaxGateways.
  repeat (case_decide; [intros [= <-]; lia |]). intros Hr%getZ_to_lookup. apply lookup_replicate in Hr as [-> _]. lia.
Qed.

Lemma demo_wf answers : (length answers <= 8)%nat → wf_engine (demo_engine answers).
Proof.
  intros Hl. split; [by vm_compute | intros s gw; by apply demo_routes; vm_compute |].
  cbn. rewrite length_fmap, length_take, length_app, length_replicate. unfold kMaxGateways. lia.
Qed.

Lemma core3_typed : ∃ vs, core_rep true 2 64 core3 vs ∧ core_typed core3 vs.
Proof.
  destruct core3_outcome as (evs & vs & Hc & _ & Ho). exists vs. split; [exact Hc |]. split.
  - destruct (core2_rep demo demo_represents) as [Hc2 _].
    apply (outcome_typed true 2 64 (core2 demo) (λ _, vb_empty) (request_of_new 0 1 2 (buy 5 100 10)) evs vs Hc2); [| | | exact Ho].
    + intros i. split; exact (Forall_nil_2 _).
    + by vm_compute.
    + by split; [| vm_compute].
  - assert (map_Forall (λ _ r, is_s64 (re_send_ts r)) (rmap_of core3)) as HR by (decided).
    exact HR.
Qed.

Lemma demo_core answers : core_ (demo_engine answers) = core3.
Proof. reflexivity. Qed.

Lemma demo_typed answers :
  ∃ vs, core_rep true 2 64 (core_ (demo_engine answers)) vs ∧ core_typed (core_ (demo_engine answers)) vs.
Proof. rewrite demo_core. exact core3_typed. Qed.

(** A heartbeat and two orders, the second of which finds no room. *)
Definition demo_requests : list Request := [ReqHeartbeat; demo_order; ReqCancel cancel5].

Lemma demo_requests_ok : Forall request_ok demo_requests.
Proof.
  constructor; [exact I |]. constructor; [| constructor; [| exact (Forall_nil_2 _)]]; cbn [request_ok]; [unfold NewOrder_ok | unfold CancelOrder_ok]; decided.
Qed.

Lemma gateway_reads_requests_witness :
  (∃ r', Gateway.recv_loop true 1 (demo_recv (demo_segments demo_requests) [true; false]) (replicate 200 2) = Some (r', true) ∧
    accepted (request_queue r') = [demo_request] ∧
    accepted (send_queue r') = [queued RHeartbeatAck; queued (throttle_response (request_of_cancel 1 2 3 cancel5))] ∧
    next_seq r' = 4 ∧ rx r' = []) ∧
  (∃ r', Gateway.recv_loop true 1 (demo_recv (demo_segments demo_requests) [true; false]) (replicate 200 0) = Some (r', true) ∧
    accepted (request_queue r') = [] ∧ accepted (send_queue r') = [queued RHeartbeatAck] ∧ next_seq r' = 2 ∧ rx r' = []).
Proof.
  split.
  - destruct (gateway_reads_requests true 1 (demo_recv (demo_segments demo_requests) [true; false]) 2 (demo_segments demo_requests)
      demo_requests 200) as ((r' & E & H1 & H2 & H3 & H4) & _);
      [done | done | decided | done | by vm_compute | exact demo_requests_ok | vm_compute; lia |].
    exists r'. split; [exact E |]. split; [exact H1 |]. split; [exact H2 |]. split; [exact H3 | by apply H4].
  - destruct (gateway_reads_requests true 1 (demo_recv (demo_segments demo_requests) [true; false]) 0 (demo_segments demo_requests)
      demo_requests 200) as ((r' & E & H1 & H2 & H3 & H4) & _);
      [done | done | decided | done | by vm_compute | exact demo_requests_ok | vm_compute; lia |].
    exists r'. split; [exact E |]. split; [exact H1 |]. split; [exact H2 |]. split; [exact H3 | by apply H4].
Defined.

(** The second message goes out in part before the peer is gone. *)
Definition demo_events : list ExchangeEvent :=
  [ev_accepted kOrderAccepted 2 9 2 1 8; ev_fill 2 9 2 1 kAsk 100 4 0 8].

Lemma demo_answers_ok : Forall response_ok (concat (round_responses <$> [(demo_events, [RHeartbeatAck])])).
Proof.
  change (Forall response_ok (omap response_of demo_events ++ [RHeartbeatAck])). apply Forall_app. split; [apply responses_ok; decided |].
  constructor; [exact I | exact (Forall_nil_2 _)].
Qed.

Lemma gateway_answers_witness :
  let s := demo_send [Room 100; Room 20; SendError EPIPE] in
  ∃ s' sent rest rs1 rs2 part,
    Gateway.send_loop true s (round_input <$> [(demo_events, [RHeartbeatAck])]) = Some s' ∧ wire (send_os s') = wire (send_os s) ++ sent ∧
    sent_bytes (concat (round_responses <$> [(demo_events, [RHeartbeatAck])])) = sent ++ rest ∧
    concat (round_responses <$> [(demo_events, [RHeartbeatAck])]) = rs1 ++ rs2 ∧
    split true sent = (frame_view ∘ response_frame <$> rs1, part) ∧
    (stop s' = true → connected s' = false).
Proof.
  destruct (gateway_answers true (demo_send [Room 100; Room 20; SendError EPIPE]) [(demo_events, [RHeartbeatAck])])
    as (s' & sent & rest & rs1 & rs2 & part & H1 & H2 & H3 & H4 & H5 & _ & H6 & _);
    [done | done | by vm_compute | decided | exact demo_answers_ok |].
  exists s', sent, rest, rs1, rs2, part. split; [exact H1 |]. split; [exact H2 |]. split; [exact H3 |]. split; [exact H4 |]. split; [exact H5 | exact H6].
Defined.

Lemma demo_fits : request_fits demo_request.
Proof. split; [done |]. split; [| by vm_compute]. unfold NewOrder_ok. decided. Qed.

Lemma engine_routes_events_witness :
  ∃ vs e' evs vs', core_rep true 2 64 (core_ (demo_engine [])) vs ∧ process_request true 2 64 2 (demo_engine []) demo_request = Some e' ∧
    request_outcome true 2 64 (core_ (demo_engine [])) vs demo_request evs vs' ∧ Forall deliverable evs ∧
    pushed (md_queue (demo_engine [])) (stamp (rq_request_seq demo_request) (for_market evs)) (md_queue e').
Proof.
  destruct (demo_typed []) as (vs & Hc & Ht).
  destruct (engine_routes_events true 2 64 2 (demo_engine []) vs demo_request) as (e' & evs & vs' & H1 & H2 & H3 & _ & _ & H4 & _);
    [lia | by vm_compute | exact Hc | exact Ht | apply demo_wf; simpl; lia | by vm_compute | by vm_compute | exact demo_fits | by vm_compute |].
  exists vs, e', evs, vs'. split; [exact Hc |]. split; [exact H1 |]. split; [exact H2 |]. split; [exact H3 | exact H4].
Defined.

Definition demo_connect : OrderRequest := blank_request rqClientConnect 1 0 1 33 0 0.

(** Gateway 1's queue is full. *)
Lemma engine_opens_sessions_witness :
  ∃ e' id q q' vs', process_request true 2 64 2 (demo_engine [[]; [false]]) demo_connect = Some e' ∧
    1 <= id <= 65535 ∧ core_rep true 2 64 (core_ e') vs' ∧
    (response_queues (demo_engine [[]; [false]])).[1] = Some q ∧ room q = [false] ∧
    accepted q' = accepted q ∧ active_sessions_ (core_ e') = active_sessions_ (core_ (demo_engine [[]; [false]])).
Proof.
  destruct (demo_typed [[]; [false]]) as (vs & Hc & _).
  destruct (engine_opens_sessions true 2 64 2 (demo_engine [[]; [false]]) vs 5 demo_connect)
    as (e' & id & q & q' & vs' & H1 & H2 & _ & _ & H3 & H4 & _ & _ & _ & H5);
    [lia | exact Hc | apply demo_wf; simpl; lia | exact demo_tables_fit | lia | by vm_compute | done | by vm_compute | by vm_compute |].
  assert (room q = [false]) as Hr.
  { assert ((response_queues (demo_engine [[]; [false]])).[1] = Some {| room := [false]; accepted := [] |}) as H6 by by vm_compute.
    change (rq_gateway_id demo_connect) with 1 in H4. rewrite H6 in H4. by injection H4 as <-. }
  rewrite Hr in H5. cbn [hd] in H5. destruct H5 as (H5 & H6 & _). exists e', id, q, q', vs'. split; [exact H1 |]. split; [exact H2 |]. split; [exact H3 |]. split; [exact H4 |]. split; [exact Hr |].
  split; [exact H5 | exact H6].
Defined.

Lemma exchange_answers_client_witness :
  ∃ vs r' e' evs vs' q',
    Gateway.recv_loop true 1 (demo_recv (demo_segments [demo_order]) []) (replicate 100 2) = Some (r', true) ∧
    accepted (request_queue r') = [demo_request] ∧
    process_request true 2 64 2 (demo_engine []) demo_request = Some e' ∧
    request_outcome true 2 64 (core_ (demo_engine [])) vs demo_request evs vs' ∧
    (response_queues e').[1] = Some q' ∧
    accepted q' = stamp (rq_request_seq demo_request) (for_gateway (session_to_gateway (demo_engine [])) 1 evs).
Proof.
  destruct (demo_typed []) as (vs & Hc & Ht).
  destruct (exchange_answers_client true 2 64 2 true (demo_engine []) vs (demo_recv (demo_segments [demo_order]) []) (demo_segments [demo_order])
    100 1 2 demo_order demo_request {| room := []; accepted := [] |}) as (r' & e' & evs & vs' & q' & H1 & H2 & H3 & H4 & H5 & H6 & _);
    [lia | by vm_compute | exact Hc | exact Ht | apply demo_wf; simpl; lia | by vm_compute | by vm_compute | lia | by vm_compute | done
    | by vm_compute | done | done | done | decided | done | by vm_compute | unfold request_ok, demo_order, NewOrder_ok; decided
    | intros o [= <-]; by vm_compute | done | done | done | vm_compute; lia |].
  exists vs, r', e', evs, vs', q'. split; [exact H1 |]. split; [exact H2 |]. split; [exact H3 |]. split; [exact H4 |]. split; [exact H5 | exact H6].
Defined.
